(* ===== verification/_CoqProject ===== *)
-Q . S2P
Prelude.v
PrikkError.v
Hash.v
Utf8.v
Canonical.v
Cursor.v
ObjectId.v
RepoPath.v
Signature.v
Envelope.v
ByteCursor.v
FileCodec.v
FrameResync.v
Container.v
Payload.v
Blob.v
Block.v
Refs.v
TagPayload.v
RecognitionClaim.v
Attestation.v
Lifecycle.v
LifecycleInv.v
Patch.v
ObjectStore.v
PatchDecode.v
PatchTheorems.v
TextSpan.v
TextSpanThms.v
PatchApply.v
ReplayThms.v
ContainerThms.v
FileSystem.v
RecoveryLog.v
RecoveryLogThms.v
IndexFile.v
ObjectDisk.v
ObjectDiskThms.v
StoreThms.v
RebuildThms.v
LineDiff.v
LineDiffThms.v
PatchAlgebra.v
ReplayOracle.v
CommuteThms.v
Fold.v
FoldThms.v
MergeReport.v
MergeReportThms.v
StateRoot.v
StateRootThms.v
LifecycleReplay.v
LineageThms.v
TailLog.v
Generation.v
RefLog.v
RefStore.v
RefStoreThms.v
RecoveryEntry.v
Wal.v
WalThms.v
Precondition.v
PreconditionThms.v
BlockState.v
BlockStateThms.v
AnchorState.v
AnchoredThms.v
Received.v
TrustIndex.v
TrustStore.v
Compact.v
Restore.v
CompactThms.v
RestoreThms.v
TrustThms.v
PatchSet.v
PatchSetThms.v
SyncThms.v
Resolution.v
InverseThms.v
