(* ===== verification/Prelude.v ===== *)
(** * A verification development for Prikk

    Prikk is a version-control system written in Rust.  A repository stores content-addressed
    objects (blobs, patches, blocks, refs, tags, attestations, recognition claims) in signed
    envelopes; a patch is a sequence of node-addressed operations; replaying patches yields the tree
    of files.  This library models the crates that carry that logic and proves what the rest of the
    system relies on.  Paths below are relative to [src/crates]; where no crate is named, to
    [src/crates/prikk-store/src].

    ** How the program's parts interact

    A payload is written by the canonical writer, which also determines its identity: the object
    identifier is a hash of type, schema version and canonical payload.  An envelope adds signatures,
    which are not part of the identity, and the object-file codec stores it.  Readers decode payloads
    with TLV cursors and must accept canonical bytes only.  Containers hold the encoded envelopes
    frame by frame and an index says where; both survive torn writes and damage.  The store decodes
    patches with its own decoder, and applies the decoded operations to an in-memory tree; a second
    component, the node lifecycle, replays the same operations at the level of identities and paths
    and rejects histories that break its rules.  Text edits are anchored by content: authoring plans a
    span, replay locates it, and rollback derives its inverse.  The patch algebra decides from facts
    about two operations whether they commute, and merge reports are built on it.  A block commits to
    the Merkle root of the state its lineage replays to; snapshots and a record of verified blocks
    shorten that replay.  Signed patches wait in the write-ahead log until a block is sealed; a ref is
    then published by a pointer entry and a signed log record, in this order, and a publication that
    was interrupted between the two is finished before anyone else may write.  Who may publish is the
    adopted set of maintainers, kept with their keys in two logs.  Logs that grow by superseded
    entries are compacted into a second slot, and every cut or rewrite of a file saves the bytes it
    destroys, so that it can be restored.  Two repositories compare branches by the digest of the
    patches they reach, and negotiate what one lacks.

    ** Files and what they model

    - [Prelude]: results and the question-mark operator, folds, bytes, big-endian integers, ordered
      iteration of maps, sorting and binary search; the hint databases and tactics.
    - [PrikkError], [Hash], [Utf8]: prikk-error; prikk-hash with SHA-256 as the parameter of the class
      [Sha256] (a third-party crate); the part of Rust's [str] the code uses.
    - [Canonical], [Cursor], [Payload]: prikk-object/src/canonical.rs (the writer) and the cursor every
      payload decoder repeats, with the interface of a payload codec ([PayloadCodec],
      [CanonicalCodec]) that the payload files implement.
    - [ObjectId], [RepoPath], [Signature], [Envelope]: id.rs, path.rs, signature.rs, envelope.rs of
      prikk-object and path.rs of prikk-replay.
    - [ByteCursor], [FileCodec]: foundation/byte_cursor.rs and foundation/file_codec.rs.
    - [Blob], [Block], [Refs], [TagPayload], [RecognitionClaim], [Attestation]: the files of
      prikk-object/src/payload, but for patches and nodes.
    - [Lifecycle], [LifecycleInv]: payload/node.rs and prikk-replay/src/node_lifecycle.  The state is
      four maps; an operation returns its result and the state it leaves, also when it fails.
    - [Patch], [PatchDecode], [PatchTheorems]: payload/patch.rs and patch/operations.rs of
      prikk-object (records, validation, encoder) and patch_replay/decode (the store's own decoder).
    - [TextSpan], [TextSpanThms]: text_span.rs, text_span/authoring.rs, text_span/inverse.rs.
    - [PatchApply], [ReplayThms]: patch_replay/apply.rs, the operation sequence of patch_replay.rs,
      patch_replay/read.rs and blob_access.rs.
    - [FrameResync], [Container], [ContainerThms]: foundation/frame_resync.rs, frame_source.rs and
      container.rs: frames, byte sources, resynchronisation and the work budget.
    - [FileSystem]: the repository directory as a map from paths to bytes, and [IO], a computation that
      may change files and may fail ([do!] is its sequencing); foundation/fsutil.
    - [ObjectStore], [IndexFile], [ObjectDisk] and [ObjectDiskThms], [StoreThms], [RebuildThms]:
      format.rs, object_store.rs, memory_store.rs and foundation/index.rs: the reader interface, the
      object index, the file store with its cache, snapshots and write sessions.
    - [RecoveryLog], [RecoveryLogThms], [RecoveryEntry]: recovery_log.rs, and the tail repair of
      refs/pointer_index.rs that uses it.
    - [LineDiff], [LineDiffThms]: line_diff.rs, the linear-space search and the edit script.
    - [PatchAlgebra], [ReplayOracle], [CommuteThms], [Fold], [FoldThms], [MergeReport],
      [MergeReportThms]: patch_algebra: facts, classification, commutation, confluence, folding and
      merge reports over an evidence interface.
    - [StateRoot], [StateRootThms]: state_root.rs and snapshot.rs.
    - [LifecycleReplay], [LineageThms]: lifecycle_cache: the lineage walk, the effect of every
      operation, and the readings that skip the fold.
    - [TailLog]: the reader that the framed logs (refs/container.rs, refs/pointer_index.rs, wal.rs,
      the received index, the trust policy) repeat, written once over a [LogFormat] that says what
      differs between them.
    - [Generation]: foundation/generation.rs and tail_guard.rs, which slot of a compacted container is
      live, by its log or, when that is lost, deduced from the slots.
    - [RefLog], [RefStore], [RefStoreThms]: refs/container.rs, refs/pointer_index.rs, refs.rs and
      refs/publication.rs.
    - [Wal], [WalThms]: wal.rs, and the theorems about tail repairs.
    - [Precondition], [PreconditionThms]: the publication precondition of refs.rs with
      refs/evidence.rs and the metadata of commit_boundary/active.rs.
    - [BlockState], [BlockStateThms]: block_state.rs.
    - [AnchorState], [AnchoredThms]: anchor_trust.rs, verified_blocks.rs,
      block_state/anchored_parent.rs and the trusted-signature check of trust.rs.
    - [Received]: received.rs, received/received_index.rs and received/remove.rs, pointers another
      repository sent.
    - [TrustIndex], [TrustStore], [TrustThms]: trust_index.rs, author/author_key_index.rs, trust.rs,
      maintainer_signing.rs and author/author_signing.rs: keys, adoption, policy, signatures.
    - [Compact], [CompactThms]: compact.rs, the three two-slot containers and the choice of a slot.
    - [Restore], [RestoreThms]: recovery_log/restore.rs.
    - [PatchSet], [PatchSetThms], [SyncThms]: the walks and candidates of merge/evidence.rs,
      patch_set_digest.rs, sync_negotiation.rs with have_list.rs and summary.rs.
    - [Resolution], [InverseThms]: point.rs, ref_resolution.rs, the selectors of merge/evidence.rs,
      patch_inverse.rs and patch_inverse/read.rs.

    ** How the code is represented

    Fallible functions return [Result PrikkError]; [let?] is the question mark.  Formatted messages
    keep the source's literal and do not render operands.  Bytes are [byte], strings that Rust keeps
    as UTF-8 are byte lists with [from_utf8], machine integers are [Z] with their width explicit
    where it matters ([u16], [u32], [u64], [usize_max], truncating casts written with [mod]), offsets
    into a text or a file are [nat].  BTreeMap and BTreeSet are [gmap] and [gset], iterated in key
    order by [btree_iter].  Mutable receivers are passed as state; a [while let] loop over a cursor is
    [decode_fields] with one step function per decoder.  An append adds at the end of an existing file;
    what an interruption leaves is stated as the first bytes of the append.  Locks only serialise
    writers, and what runs under a lock is one [IO].  Where the code first checks that the
    FORMAT marker still names the format the repository was opened with, the model does
    ([require_current_format]).

    ** What the theorems show

    - Identity: an object identifier commits to type, schema and payload, and equal identifiers mean
      equal payloads, or the two preimages are a SHA-256 collision.
    - Codecs: every payload codec is a round trip; for blobs, refs, claims and attestations decoding
      accepts exactly the canonical bytes; the object-file codec accepts exactly its own encoding.
      Two decoders skip a wire-type check and accept a second encoding; this is proved too.
    - Envelopes: strict validation means valid, strictly ascending signatures; adding a signature and
      merging two records of one object keep identity, strictness and every signature.
    - Patches: the store's decoder inverts the object crate's encoder on every operation kind, and
      accepts only operations the encoder would have written.
    - Lifecycle: every reachable state is consistent, the validator decides consistency, a failing
      operation leaves a consistent state unchanged, a rename batch succeeds exactly under its stated
      conditions and then renames simultaneously, a deleted identity returns only as what it was.
    - Text spans: authoring terminates with a plan for any two different texts, the planned edit
      localizes uniquely and yields the new text, and a derived inverse restores the old text.
    - Replay: a rename run on files refines the rename batch on identities; an authored edit replays
      to the new text; files and live nodes stay one-to-one as long as deletions name live nodes (and
      a deletion that does not is shown to break this).
    - Containers and store: the resynchronising decoder finds what a scan of every offset finds and
      gives the checksum function at most nine times its input; an interrupted append hides nothing; the file store, its
      cache, snapshots and sessions refine an abstract map of objects; a repair rebuilds the index
      from the containers.  A session that opens on damage and a torn tail buries the tail.
    - Diff: the edit script exists for every input and work limit, takes one side to the other, and is
      found within the limit and two passes.
    - Algebra: operations reported to commute do, in both orders and to one state; a confluent pair of
      sequences replays in either order; folding keeps what a side does.  A report can still say
      confluent about original operations that do not replay; an example shows it.
    - States and blocks: a state root identifies its state up to a collision; every replayed state is
      consistent and well typed; the lineage walk is total; readings that skip the fold agree with it;
      a derived root is that of the verified lineage, the batch pass judges every block as it would be
      judged alone, and a derivation from a trusted snapshot agrees with the walk to genesis.
    - Refs: a publication appends exactly its two frames; one that was interrupted, at the pointer or at
      the log, is finished to the same files; publishing is admitted exactly when all other refs
      agree, so agreement is kept, and an interrupted publication blocks the others.  A log record cut
      off inside its key is the exception: an example shows a log that refuses publications afterwards.
    - Write-ahead log: appends are numbered without gaps and replay in full; a torn append is refused,
      saved, cut, and can be made again.
    - Compaction and recovery: compacting a two-slot container changes no lookup, also when it is
      interrupted; a container whose generation log is lost reads as its live slot or refuses;
      removing a received pointer and restoring the run is the identity.  Three exceptions are
      proved: slots of two histories that cannot be told apart; the removal of the pointer written
      last, which a generation log lost afterwards takes back, on every clean index; and a restore
      stopped between overwriting a slot and cutting it, which refuses to be run again, for every
      slot that was shorter before and is no prefix of its replacement.
    - Trust: an id keeps the key it was bound to for ever, adopting refines a map from ids to keys with
      every refusal accounted for, and a signature by an admitted signer is trusted.
    - Negotiation: candidates are ordered after their parents or the cycle is reported; a digest
      resolves in one pass as by walking every block; the delta of two repositories is exactly the
      difference of what their branches reach, and in sync means the same patches, up to a collision.
    - Rollback: the inverse planned for a branch encodes, decodes and replays on the branch's state to
      the empty state.

    ** Fuel

    [decode_fields] has one unit of fuel per input byte: every field is at least a header long, so the
    loop cannot run out ([Cursor.v]).  The replay loop has one unit per operation
    ([sequence_loop_fuel]); [occurrences_loop] one per position of the text.  The anchor search
    doubles from 64 up to a 32-bit ceiling, so 32 rounds are enough
    ([choose_anchor_lengths_terminates]).  Widening a span has one unit per byte
    ([select_span_total]).  The loops over framed files (resynchronisation, containers, index, recovery
    log, [decode_log]) and the snapshot manifest have one unit per byte, since every round moves
    forward.  [common_pairs] has one unit per line of both sides, [snake_loop] one per diagonal;
    [reduce_levels] one per leaf.  A walk over blocks has one unit per stored object, the batch pass
    one round per block, and the search for an anchor the 63 blocks it may look back.  The ancestor
    walks, [single_parent_chain] among them, take their fuel as an argument, and a walk that runs out
    is an error; one more than the number of readable blocks is enough ([ancestors_loop_complete],
    [single_parent_loop_fuel]).  Ordering candidates and resolving a digest have one round per
    candidate.

    ** Assumptions

    [Sha256] gives a 32-byte digest.  Theorems that need more say so: where a conclusion can
    fail by a collision, the theorem names the two inputs at hand that would collide; the totality of authoring assumes that the hash separates the anchors of the prefixes
    of the one text at hand ([prefix_anchors_distinct]); a torn append is assumed not to contain the
    magic of a further frame nor to verify the checksum of the whole one.  [LawfulReader] states what
    a reader of objects promises, and [index_reader_lawful] proves it of the file-backed readers.  The
    Ed25519 check is the parameter of the class [Ed25519Verify], with the signing and key functions
    next to it where a signature is made; the object store of a publication is the parameter
    [write_object], of which the theorems only assume that it leaves the ref files alone.  Rollback
    assumes of the history that its deletions name live nodes with their modes and that the text they
    remove is stored.

    ** What is not modelled

    System calls (files, locks, durability), cryptography (a third-party crate), the command line and
    the C bindings.  Of modelled components: the certification ladder and the incremental cache of
    lifecycle_cache, sealing in block_state.rs, the store-backed evidence of the patch algebra, the
    rendering of hunks, ref verification and rebuild discovery, the commit witness, the display records
    and the execution of a merge, the draft, preview and verify commands of a rollback, the exchange
    artifact a negotiation sends.  Left out whole, as layers over the modelled stores: bundles,
    archives and patch exchange (transport formats), verify and doctor (read-only diagnosis), claim
    chains and signature admission, the worktree with checkout and status (scanning and writing of
    files outside the repository's own directory). *)

From stdpp Require Export base tactics option list list_numbers gmap sets strings.
From Stdlib Require Export ZArith Lia.
From Stdlib Require Import Strings.Byte.
Export Corelib.Init.Byte (byte(..)).

#[global] Open Scope Z_scope.

(** Facts about wire codes: the range of every code (resolution) and that a code read back is the
    value it was written from (rewriting).  The payload files add theirs. *)
Create HintDb wire.
Create Rewrite HintDb wire.

(** ** Results: Rust's [Result] and the question-mark operator *)

Inductive Result (E A : Type) : Type :=
| Ok (a : A)
| Err (e : E).
Arguments Ok {E A} a.
Arguments Err {E A} e.

Declare Scope prikk_scope.
Delimit Scope prikk_scope with prikk.
#[global] Open Scope prikk_scope.

(** [let? x := e in k] is Rust's [let x = e?; k]. *)
Notation "'let?' x ':=' e 'in' k" :=
  (match e with Ok x => k | Err err => Err err end)
  (at level 10, x name, e at level 200, k at level 200) : prikk_scope.
Notation "'let?' ' x ':=' e 'in' k" :=
  (match e with Ok x => k | Err err => Err err end)
  (at level 10, x strict pattern, e at level 200, k at level 200) : prikk_scope.

(** [option.ok_or_else(|| e)]. *)
Definition ok_or {E A} (o : option A) (e : E) : Result E A :=
  match o with Some a => Ok a | None => Err e end.

(** [result.map_err(f)]. *)
Definition map_err {E F A} (f : E -> F) (r : Result E A) : Result F A :=
  match r with Ok a => Ok a | Err e => Err (f e) end.

Definition is_ok {E A} (r : Result E A) : bool :=
  match r with Ok _ => true | Err _ => false end.

Lemma is_ok_inv {E A} (r : Result E A) : is_ok r = true -> exists a, r = Ok a.
Proof. destruct r; [eauto|done]. Qed.

Definition is_some {A} (o : option A) : bool :=
  match o with Some _ => true | None => false end.

(** A [for] loop whose body may return early with an error. *)
Fixpoint foldM {E A B} (step : A -> B -> Result E A) (acc : A) (l : list B) : Result E A :=
  match l with
  | [] => Ok acc
  | x :: l' => let? acc' := step acc x in foldM step acc' l'
  end.

(** [iter().map(f).collect::<Result<Vec<_>>>()]. *)
Fixpoint mapM_result {E A B} (f : A -> Result E B) (l : list A) : Result E (list B) :=
  match l with
  | [] => Ok []
  | x :: l' =>
      let? y := f x in
      let? ys := mapM_result f l' in
      Ok (y :: ys)
  end.

Lemma Ok_inj {E A} (x y : A) : @Ok E A x = Ok y -> x = y.
Proof. congruence. Qed.
Lemma Err_inj {E A} (x y : E) : @Err E A x = Err y -> x = y.
Proof. congruence. Qed.

(** Invert a hypothesis about a chain of [let?], [if] and [match]. *)
Ltac inv_step :=
  match goal with
  | H : Ok _ = Ok _ |- _ => apply Ok_inj in H; subst
  | H : Err _ = Err _ |- _ => apply Err_inj in H; subst
  | H : Some _ = Some _ |- _ => apply (inj Some) in H; subst
  | H : Ok _ = Err _ |- _ => discriminate H
  | H : Err _ = Ok _ |- _ => discriminate H
  | H : Some _ = None |- _ => discriminate H
  | H : None = Some _ |- _ => discriminate H
  | H : match ?x with _ => _ end = Ok _ |- _ => destruct x eqn:?
  | H : match ?x with _ => _ end = Err _ |- _ => destruct x eqn:?
  | H : match ?x with _ => _ end = Some _ |- _ => destruct x eqn:?
  | H : ok_or ?x _ = Ok _ |- _ => destruct x eqn:?; cbn [ok_or] in H
  | H : map_err _ ?x = Ok _ |- _ => destruct x eqn:?; cbn [map_err] in H
  end.
Ltac inv_ok := repeat inv_step.

Section foldM.
Context {E A B : Type} (step : A -> B -> Result E A).

Lemma foldM_app (l1 l2 : list B) (a : A) :
  foldM step a (l1 ++ l2) = (let? b := foldM step a l1 in foldM step b l2).
Proof.
  revert a. induction l1 as [|x l1 IH]; intros a; cbn; [reflexivity|].
  destruct (step a x); [apply IH | reflexivity].
Qed.

Lemma foldM_snoc_inv (l : list B) (x : B) (a r : A) :
  foldM step a (l ++ [x]) = Ok r ->
  exists b, foldM step a l = Ok b /\ step b x = Ok r.
Proof.
  rewrite foldM_app. intros H. cbn in H. inv_ok. eauto.
Qed.

(** Induction on the processed prefix: the invariant of a decode loop. *)
Lemma foldM_inv (P : list B -> A -> Prop) (l : list B) (a r : A) :
  P [] a ->
  (forall pre x b b', P pre b -> step b x = Ok b' -> P (pre ++ [x]) b') ->
  foldM step a l = Ok r ->
  P l r.
Proof.
  intros H0 Hstep. revert r. induction l as [|x l IH] using rev_ind; intros r Hf.
  - cbn in Hf. inv_ok. exact H0.
  - apply foldM_snoc_inv in Hf as (b & Hb & Hs). eauto.
Qed.
End foldM.

(** ** Bytes *)

#[global] Instance byte_eq_dec : EqDecision byte := Byte.byte_eq_dec.
#[global] Program Instance byte_countable : Countable byte :=
  inj_countable Byte.to_N Byte.of_N Byte.of_to_N.

(** The value of a byte as an integer in [0, 256). *)
Definition bz (b : byte) : Z := Z.of_N (Byte.to_N b).

(** [z as u8]. *)
Definition zb (z : Z) : byte := default x00 (Byte.of_N (Z.to_N (z mod 256))).

Lemma bz_range (b : byte) : 0 <= bz b < 256.
Proof. unfold bz. pose proof (Byte.to_N_bounded b). lia. Qed.

Lemma bz_zb (z : Z) : bz (zb z) = z mod 256.
Proof.
  unfold bz, zb. pose proof (Z.mod_pos_bound z 256 ltac:(lia)).
  destruct (Byte.of_N (Z.to_N (z mod 256))) as [b|] eqn:Hb; cbn.
  - apply Byte.to_of_N in Hb. lia.
  - apply Byte.of_N_None_iff in Hb. lia.
Qed.

Lemma bz_inj (a b : byte) : bz a = bz b -> a = b.
Proof.
  unfold bz. intros H. apply N2Z.inj in H.
  pose proof (Byte.of_to_N a) as Ha. pose proof (Byte.of_to_N b) as Hb. congruence.
Qed.

Lemma zb_bz (b : byte) : zb (bz b) = b.
Proof. apply bz_inj. rewrite bz_zb. apply Z.mod_small, bz_range. Qed.

(** A Rocq string literal as the bytes of a Rust byte-string literal. *)
Definition bytes_of_string (s : string) : list byte := String.list_byte_of_string s.

(** ** Big-endian integers: [to_be_bytes] and [from_be_bytes] *)

Fixpoint to_be_bytes (n : nat) (z : Z) : list byte :=
  match n with
  | O => []
  | S m => to_be_bytes m (z / 256) ++ [zb z]
  end.

Definition from_be_bytes (bs : list byte) : Z :=
  fold_left (fun acc b => acc * 256 + bz b) bs 0.

Lemma length_to_be_bytes n z : length (to_be_bytes n z) = n.
Proof. revert z. induction n as [|n IH]; intros z; cbn; [done|]. rewrite length_app, IH. cbn. lia. Qed.

Lemma from_be_bytes_snoc bs b : from_be_bytes (bs ++ [b]) = from_be_bytes bs * 256 + bz b.
Proof. unfold from_be_bytes. by rewrite fold_left_app. Qed.

Lemma from_to_be_bytes n z : from_be_bytes (to_be_bytes n z) = z mod 256 ^ Z.of_nat n.
Proof.
  revert z. induction n as [|n IH]; intros z.
  - cbn. by rewrite Z.mod_1_r.
  - cbn [to_be_bytes]. rewrite from_be_bytes_snoc, IH, bz_zb.
    rewrite Nat2Z.inj_succ, Z.pow_succ_r by lia.
    rewrite Z.rem_mul_r by lia. lia.
Qed.

Lemma from_to_be_bytes_small n z :
  0 <= z < 256 ^ Z.of_nat n -> from_be_bytes (to_be_bytes n z) = z.
Proof. intros H. rewrite from_to_be_bytes. by apply Z.mod_small. Qed.

Lemma from_be_bytes_range bs : 0 <= from_be_bytes bs < 256 ^ Z.of_nat (length bs).
Proof.
  induction bs as [|b bs IH] using rev_ind; [cbn; lia|].
  rewrite from_be_bytes_snoc, length_app. cbn [length].
  rewrite Nat2Z.inj_add, Z.pow_add_r by lia. pose proof (bz_range b). cbn. lia.
Qed.

Lemma to_from_be_bytes bs : to_be_bytes (length bs) (from_be_bytes bs) = bs.
Proof.
  induction bs as [|b bs IH] using rev_ind; [done|].
  rewrite length_app. cbn [length]. rewrite Nat.add_1_r. cbn [to_be_bytes].
  rewrite from_be_bytes_snoc. pose proof (bz_range b).
  rewrite Z.div_add_l, Z.div_small, Z.add_0_r, IH by lia. f_equal. f_equal.
  apply bz_inj. rewrite bz_zb, Z.add_comm, Z_mod_plus_full. by apply Z.mod_small.
Qed.

Lemma to_from_be_bytes_len n bs : length bs = n -> to_be_bytes n (from_be_bytes bs) = bs.
Proof. intros <-. apply to_from_be_bytes. Qed.

Lemma to_be_bytes_inj n y z :
  0 <= y < 256 ^ Z.of_nat n -> 0 <= z < 256 ^ Z.of_nat n ->
  to_be_bytes n y = to_be_bytes n z -> y = z.
Proof.
  intros Hy Hz H. apply (f_equal from_be_bytes) in H.
  by rewrite !from_to_be_bytes_small in H.
Qed.

Arguments to_be_bytes : simpl never.
Arguments from_be_bytes : simpl never.

(** Machine-integer ranges. *)
Definition u16 (z : Z) : Prop := 0 <= z < 2 ^ 16.
Definition u32 (z : Z) : Prop := 0 <= z < 2 ^ 32.
Definition u64 (z : Z) : Prop := 0 <= z < 2 ^ 64.

(** [usize] is 64 bits wide on every supported mutation target. *)
Definition usize_max : Z := 2 ^ 64 - 1.

Definition zlen {A} (l : list A) : Z := Z.of_nat (length l).

Lemma zlen_app {A} (l1 l2 : list A) : zlen (l1 ++ l2) = zlen l1 + zlen l2.
Proof. unfold zlen. rewrite length_app. lia. Qed.
Lemma zlen_cons {A} (x : A) l : zlen (x :: l) = 1 + zlen l.
Proof. unfold zlen. cbn [length]. lia. Qed.
Lemma zlen_nil {A} : zlen (@nil A) = 0.
Proof. reflexivity. Qed.
Lemma zlen_nonneg {A} (l : list A) : 0 <= zlen l.
Proof. unfold zlen. lia. Qed.
Lemma zlen_to_be_bytes n z : zlen (to_be_bytes n z) = Z.of_nat n.
Proof. unfold zlen. by rewrite length_to_be_bytes. Qed.
Arguments zlen : simpl never.

(** ** Lexicographic order on byte strings: [Ord] for [[u8]] *)

Fixpoint bytes_cmp (a b : list byte) : comparison :=
  match a, b with
  | [], [] => Eq
  | [], _ :: _ => Lt
  | _ :: _, [] => Gt
  | x :: a', y :: b' =>
      match bz x ?= bz y with
      | Eq => bytes_cmp a' b'
      | c => c
      end
  end.

Definition bytes_ltb (a b : list byte) : bool :=
  match bytes_cmp a b with Lt => true | _ => false end.

Lemma bytes_cmp_eq a b : bytes_cmp a b = Eq <-> a = b.
Proof.
  revert b. induction a as [|x a IH]; intros [|y b]; cbn; try done.
  destruct (Z.compare_spec (bz x) (bz y)) as [Heq|Hlt|Hgt].
  - rewrite IH. apply bz_inj in Heq as ->. split; congruence.
  - split; [done|]. intros [= -> ->]. lia.
  - split; [done|]. intros [= -> ->]. lia.
Qed.

Lemma bytes_cmp_antisym a b : bytes_cmp b a = CompOpp (bytes_cmp a b).
Proof.
  revert b. induction a as [|x a IH]; intros [|y b]; cbn; try done.
  rewrite (Z.compare_antisym (bz x) (bz y)). destruct (bz x ?= bz y); cbn; auto.
Qed.

Lemma bytes_cmp_refl a : bytes_cmp a a = Eq.
Proof. by apply bytes_cmp_eq. Qed.

Lemma bytes_cmp_lt_trans a b c : bytes_cmp a b = Lt -> bytes_cmp b c = Lt -> bytes_cmp a c = Lt.
Proof.
  revert b c. induction a as [|x a IH]; intros [|y b] [|z c]; cbn; try done.
  destruct (Z.compare_spec (bz x) (bz y)), (Z.compare_spec (bz y) (bz z)),
    (Z.compare_spec (bz x) (bz z)); try done; try lia; eauto.
Qed.

Lemma bytes_ltb_lt a b : bytes_ltb a b = true <-> bytes_cmp a b = Lt.
Proof. unfold bytes_ltb. destruct (bytes_cmp a b); naive_solver. Qed.

(** ** Lists *)

(** [slice.windows(2).all(|[l, r]| l < r)]. *)
Fixpoint windows_lt {A} (ltb : A -> A -> bool) (l : list A) : bool :=
  match l with
  | x :: ((y :: _) as l') => ltb x y && windows_lt ltb l'
  | _ => true
  end.

Lemma take_drop_app {A} (l1 l2 l3 : list A) n m :
  n = length l1 -> m = length l2 -> take m (drop n (l1 ++ l2 ++ l3)) = l2.
Proof. intros -> ->. by rewrite drop_app_length, take_app_length. Qed.

Lemma app_inj_len {A} (a b c d : list A) :
  length a = length c -> a ++ b = c ++ d -> a = c /\ b = d.
Proof. intros. by apply app_inj_1. Qed.

(** [slice.windows(2)] as pairs. *)
Fixpoint windows2 {A} (l : list A) : list (A * A) :=
  match l with
  | x :: ((y :: _) as l') => (x, y) :: windows2 l'
  | _ => []
  end.

(** ** Sorting and searching by a comparator *)

(** [slice.sort_by(cmp)] and [slice.sort_unstable_by(cmp)]: the stable result, which an unstable
    sort matches up to the order of elements that compare equal. *)
Section sort_by.
Context {A : Type} (cmp : A -> A -> comparison).

Fixpoint insert_by (x : A) (l : list A) : list A :=
  match l with
  | [] => [x]
  | y :: l' => match cmp y x with Lt => y :: insert_by x l' | _ => x :: l end
  end.

Definition sort_by (l : list A) : list A := fold_right insert_by [] l.

(** [slice.binary_search_by(|e| cmp e x)] on a slice sorted by [cmp]: the position of an element
    equal to [x], or the position where [x] can be inserted. *)
Fixpoint binary_search_by (x : A) (l : list A) : Result nat nat :=
  match l with
  | [] => Err O
  | y :: l' =>
      match cmp y x with
      | Eq => Ok O
      | Gt => Err O
      | Lt => match binary_search_by x l' with Ok i => Ok (S i) | Err i => Err (S i) end
      end
  end.

(** Strictly ascending. *)
Fixpoint ascending (l : list A) : Prop :=
  match l with
  | [] => True
  | x :: l' => Forall (fun y => cmp x y = Lt) l' /\ ascending l'
  end.

Lemma sort_by_perm l : sort_by l ≡ₚ l.
Proof.
  assert (Hins : forall x l, insert_by x l ≡ₚ x :: l).
  { intros x l'. induction l' as [|y l' IH]; cbn; [done|]. destruct (cmp y x); try done.
    rewrite IH. constructor. }
  induction l as [|x l IH]; cbn; [done|]. by rewrite Hins, IH.
Qed.

Context (Hanti : forall a b, cmp b a = CompOpp (cmp a b)).
Context (Htrans : forall a b c, cmp a b = Lt -> cmp b c = Lt -> cmp a c = Lt).

Lemma ascending_windows l :
  ascending l <-> Forall (fun '(x, y) => cmp x y = Lt) (windows2 l).
Proof.
  induction l as [|x [|y l] IH]; [by split; [constructor|]|by repeat constructor|].
  change (windows2 (x :: y :: l)) with ((x, y) :: windows2 (y :: l)).
  rewrite Forall_cons, <- IH. cbn [ascending]. rewrite Forall_cons. split; [naive_solver|].
  intros [Hxy [Hy Hl]]. split; [|done]. split; [done|].
  eapply Forall_impl; [exact Hy|]. cbn. eauto.
Qed.

(** A slice whose neighbours never descend is left alone by the sort. *)
Lemma sort_by_sorted l :
  Forall (fun '(x, y) => cmp x y <> Gt) (windows2 l) -> sort_by l = l.
Proof.
  induction l as [|x [|y l] IH]; [done|done|]. intros [Hxy Hl]%Forall_cons.
  change (sort_by (x :: y :: l)) with (insert_by x (sort_by (y :: l))).
  rewrite (IH Hl). cbn [insert_by]. cbn in Hxy. rewrite (Hanti x y).
  by destruct (cmp x y).
Qed.

Lemma binary_search_by_ok x l i :
  binary_search_by x l = Ok i -> exists y, l !! i = Some y /\ cmp y x = Eq.
Proof.
  revert i. induction l as [|y l IH]; intros i; cbn; [done|].
  destruct (cmp y x) eqn:Hc; [|destruct (binary_search_by x l) eqn:Hs|]; intros H; inv_ok.
  - by exists y.
  - by apply IH.
Qed.

Lemma binary_search_by_err x l i :
  ascending l -> binary_search_by x l = Err i ->
  ascending (take i l ++ x :: drop i l) /\ Forall (fun y => cmp y x <> Eq) l.
Proof.
  revert i. induction l as [|y l IH]; intros i; cbn; [intros _ H; inv_ok; by cbn|].
  intros [Hy Hl]. destruct (cmp y x) eqn:Hc; [|destruct (binary_search_by x l) eqn:Hs|];
    intros H; inv_ok.
  - destruct (IH _ Hl eq_refl) as [Ha Hne]. cbn [take drop app ascending].
    repeat split; [|done|constructor; [congruence|done]].
    rewrite <- (take_drop e l) in Hy. apply Forall_app in Hy as [? ?].
    apply Forall_app. split; [done|]. by constructor.
  - cbn [take drop app ascending]. assert (Hxy : cmp x y = Lt) by (by rewrite (Hanti y x), Hc).
    repeat split; [|done|done|].
    + constructor; [done|]. eapply Forall_impl; [exact Hy|]. cbn. eauto.
    + constructor; [congruence|]. eapply Forall_impl; [exact Hy|]. cbn. intros z Hyz Heq.
      rewrite (Hanti x z), (Htrans x y z Hxy Hyz) in Heq. done.
Qed.
End sort_by.

(** ** Loops over collections *)

(** [for x in xs { f(x)?; }]. *)
Definition for_each {E A} (f : A -> Result E unit) (l : list A) : Result E unit :=
  foldM (fun _ x => f x) tt l.

Lemma for_each_ok {E A} (f : A -> Result E unit) l :
  for_each f l = Ok tt <-> Forall (fun x => f x = Ok tt) l.
Proof.
  unfold for_each. induction l as [|x l IH]; cbn; [by split|]. rewrite Forall_cons, <- IH.
  destruct (f x) as [[]|]; naive_solver.
Qed.

(** Iteration over a [BTreeMap] keyed by byte strings: entries in key order. *)
Definition btree_iter {V} (m : gmap (list byte) V) : list (list byte * V) :=
  sort_by (fun a b => bytes_cmp a.1 b.1) (map_to_list m).

Lemma elem_of_btree_iter {V} (m : gmap (list byte) V) k v :
  (k, v) ∈ btree_iter m <-> m !! k = Some v.
Proof. unfold btree_iter. rewrite sort_by_perm. apply elem_of_map_to_list. Qed.

Lemma NoDup_btree_keys {V} (m : gmap (list byte) V) : NoDup (btree_iter m).*1.
Proof. unfold btree_iter. rewrite sort_by_perm. apply NoDup_fst_map_to_list. Qed.

Lemma list_to_map_btree_iter {V} (m : gmap (list byte) V) : list_to_map (btree_iter m) = m.
Proof.
  apply map_eq. intros k. apply option_eq. intros v. rewrite <- (elem_of_btree_iter m). symmetry. apply elem_of_list_to_map, NoDup_btree_keys.
Qed.

(** ** Ranges of a slice *)

(** [slice.get(lo..hi)]. *)
Definition get_range (text : list byte) (lo hi : nat) : option (list byte) :=
  if (lo <=? hi)%nat && (hi <=? length text)%nat then Some (take (hi - lo) (drop lo text)) else None.

Lemma get_range_app pre mid post :
  get_range (pre ++ mid ++ post) (length pre) (length pre + length mid) = Some mid.
Proof.
  unfold get_range. rewrite !length_app.
  rewrite (proj2 (Nat.leb_le _ _)), (proj2 (Nat.leb_le _ _)) by lia. cbn [andb].
  rewrite drop_app_length. f_equal. by replace (length pre + length mid - length pre)%nat with (length mid) by lia;
    rewrite take_app_length.
Qed.

Lemma get_range_inv text lo hi mid :
  get_range text lo hi = Some mid ->
  exists pre post, text = pre ++ mid ++ post /\ length pre = lo /\ hi = (lo + length mid)%nat.
Proof.
  unfold get_range. destruct (Nat.leb_spec lo hi); [|done].
  destruct (Nat.leb_spec hi (length text)); [|done]. cbn. intros [= <-].
  exists (take lo text), (drop hi text).
  rewrite !length_take, length_drop. split_and!; [|lia|lia].
  rewrite <- (take_drop lo text) at 1. f_equal. rewrite <- (take_drop (hi - lo) (drop lo text)) at 1.
  by rewrite drop_drop; replace (lo + (hi - lo))%nat with hi by lia.
Qed.

Lemma get_range_some (l : list byte) lo hi :
  (lo <= hi <= length l)%nat -> get_range l lo hi = Some (take (hi - lo) (drop lo l)).
Proof. intros ?. unfold get_range. by rewrite (proj2 (Nat.leb_le _ _)), (proj2 (Nat.leb_le _ _)) by lia. Qed.

Lemma get_range_none (l : list byte) lo hi : (length l < hi)%nat -> get_range l lo hi = None.
Proof. intros ?. unfold get_range. rewrite (proj2 (Nat.leb_gt hi _)) by lia. by rewrite andb_false_r. Qed.

Lemma get_range_drop (l : list byte) n lo hi :
  (n <= length l)%nat -> get_range (drop n l) lo hi = get_range l (n + lo) (n + hi).
Proof.
  intros Hn. unfold get_range. rewrite length_drop, drop_drop.
  replace (n + hi - (n + lo))%nat with (hi - lo)%nat by lia.
  destruct (Nat.leb_spec lo hi), (Nat.leb_spec (n + lo) (n + hi)); try lia; [|done].
  destruct (Nat.leb_spec hi (length l - n)), (Nat.leb_spec (n + hi) (length l)); try lia; done.
Qed.

(** A range of a range. *)
Lemma get_range_sub (l w : list byte) lo hi a b :
  get_range l lo hi = Some w -> (a <= b <= length w)%nat -> get_range w a b = get_range l (lo + a) (lo + b).
Proof.
  intros (pre & post & -> & <- & ->)%get_range_inv Hab.
  rewrite !get_range_some by (rewrite ?length_app; lia). f_equal.
  replace (length pre + b - (length pre + a))%nat with (b - a)%nat by lia.
  rewrite <- (drop_drop _ a (length pre)), drop_app_length.
  rewrite drop_app_le by lia. rewrite take_app_le by (rewrite length_drop; lia). done.
Qed.
