(* ===== verification/PrikkError.v ===== *)
(** * The shared error taxonomy (crates/prikk-error)

    [PrikkError] has the source's constructors.  A message built with [format!] keeps the source's
    format literal; its interpolated operands are not rendered.  [OutOfFuel] is the one constructor
    that is not in the source: it is what a fuelled loop of the model returns when its fuel runs
    out, and [Cursor.v] proves that no decoder ever returns it. *)

From S2P Require Import Prelude.

Inductive PrikkError : Type :=
| CanonicalEncoding (msg : string)
| InvalidObjectId (msg : string)
| InvalidSignature (msg : string)
| InvalidName (msg : string)
| NonAsciiRepoPath (path : list byte)
| ObjectTypeMismatch (expected actual : string)
| UnsupportedFormatVersion (version : Z)
| MalformedData (msg : string)
| Integrity (msg : string)
| LockConflict (msg : string)
| Precondition (msg : string)
| IncompletePublication (msg : string)
| AmbiguousGenerationLog (msg : string)
| UnsupportedObjectType (msg : string)
| ObjectOverBound (declared_bytes bound_bytes : Z)
| CountOverBound (declared_what unit : string) (declared_count bound_count : Z)
| BundleNonFastForward (command class message : string)
| ForgedPublicationSignature (command message : string)
| MaintainerKeyIdBound (key_id : list byte) (currently_adopted : bool) (message : string)
| Io (context : string)
| OutOfFuel.

#[global] Instance PrikkError_eq_dec : EqDecision PrikkError.
Proof. solve_decision. Defined.

(** The crate-wide alias [pub type Result<T> = core::result::Result<T, PrikkError>]. *)
Abbreviation PResult := (Result PrikkError).

Inductive DecodeFailureKind : Type := Corrupt | OutsideVersionRule.

Definition decode_failure_kind (e : PrikkError) : DecodeFailureKind :=
  match e with
  | NonAsciiRepoPath _ => OutsideVersionRule
  | _ => Corrupt
  end.
