(* ===== verification/Hash.v ===== *)
(** * Hash primitives (crates/prikk-hash)

    SHA-256 itself is the third-party [sha2] crate: the class [Sha256] is its interface (a digest
    is 32 bytes).  Theorems that need collision resistance state it in reduction form: they
    name two distinct inputs with one digest.  [hash_mod_p] is a concrete instance used to
    evaluate the definitions on concrete inputs. *)

From S2P Require Import Prelude.

Class Sha256 : Type := {
  sha256 : list byte -> list byte;
  sha256_length : forall bs, length (sha256 bs) = 32%nat;
}.

(** [x] and [y] are a collision: distinct inputs with the same digest. *)
Definition sha256_collision `{Sha256} (x y : list byte) : Prop := x <> y /\ sha256 x = sha256 y.

Lemma sha256_inj_or_collision `{Sha256} (x y : list byte) :
  sha256 x = sha256 y -> x = y \/ sha256_collision x y.
Proof.
  intros Heq. destruct (decide (x = y)) as [->|Hne]; [by left|]. by right.
Qed.

(** An executable instance: the input read as a number, reduced modulo the prime [2^255 - 19]. *)
Definition hash_mod_p_digest (bs : list byte) : list byte :=
  to_be_bytes 32 (from_be_bytes (x01 :: bs) mod (2 ^ 255 - 19)).

Definition hash_mod_p : Sha256 := {|
  sha256 := hash_mod_p_digest;
  sha256_length := fun bs => length_to_be_bytes 32 _;
|}.

(** [hex_char]. *)
Definition hex_char (value : Z) : byte :=
  if (0 <=? value) && (value <=? 9) then zb (48 + value)
  else if (10 <=? value) && (value <=? 15) then zb (97 + (value - 10))
  else x3f.

(** [to_hex]. *)
Fixpoint to_hex (bs : list byte) : list byte :=
  match bs with
  | [] => []
  | b :: bs' =>
      hex_char (Z.shiftr (bz b) 4) :: hex_char (Z.land (bz b) 15) :: to_hex bs'
  end.

Lemma length_to_hex bs : length (to_hex bs) = (2 * length bs)%nat.
Proof. induction bs as [|b bs IH]; cbn; lia. Qed.
