(* ===== verification/Utf8.v ===== *)
(** * UTF-8: the part of Rust's [str] the code uses

    A Rust [String] is modelled by its bytes, with [from_utf8] (std's validity check, by the table
    of well-formed byte sequences) as its type invariant.  [is_char_boundary] is
    [str::is_char_boundary]. *)

From S2P Require Import Prelude.

Definition in_range (lo hi : Z) (b : byte) : bool := (lo <=? bz b) && (bz b <=? hi).

(** A continuation byte, [0x80..=0xBF]. *)
Definition is_continuation (b : byte) : bool := in_range 128 191 b.

(** [core::str::from_utf8(bs).is_ok()]. *)
Fixpoint from_utf8 (bs : list byte) : bool :=
  match bs with
  | [] => true
  | b0 :: r0 =>
      if in_range 0 127 b0 then from_utf8 r0
      else
        match r0 with
        | [] => false
        | b1 :: r1 =>
            if in_range 194 223 b0 then is_continuation b1 && from_utf8 r1
            else
              match r1 with
              | [] => false
              | b2 :: r2 =>
                  if (in_range 224 224 b0 && in_range 160 191 b1)
                     || (in_range 225 236 b0 && in_range 128 191 b1)
                     || (in_range 237 237 b0 && in_range 128 159 b1)
                     || (in_range 238 239 b0 && in_range 128 191 b1)
                  then is_continuation b2 && from_utf8 r2
                  else
                    match r2 with
                    | [] => false
                    | b3 :: r3 =>
                        if (in_range 240 240 b0 && in_range 144 191 b1)
                           || (in_range 241 243 b0 && in_range 128 191 b1)
                           || (in_range 244 244 b0 && in_range 128 143 b1)
                        then is_continuation b2 && is_continuation b3 && from_utf8 r3
                        else false
                    end
              end
        end
  end.

(** The type invariant of a Rust [String]. *)
Definition rust_string (s : list byte) : Prop := from_utf8 s = true.

(** [s.is_char_boundary(index)]. *)
Definition is_char_boundary (s : list byte) (index : nat) : bool :=
  if Nat.eqb index 0 then true
  else
    match s !! index with
    | None => Nat.eqb index (length s)
    | Some b => negb (is_continuation b)
    end.

(** [s.is_ascii()]. *)
Definition is_ascii (s : list byte) : bool := forallb (fun b => bz b <? 128) s.

Lemma is_ascii_from_utf8 s : is_ascii s = true -> from_utf8 s = true.
Proof.
  induction s as [|b s IH]; [done|]. cbn. intros [Hb Hs]%andb_prop.
  unfold in_range. pose proof (bz_range b).
  replace ((0 <=? bz b) && (bz b <=? 127)) with true; [auto|lia].
Qed.

Example from_utf8_accepts_euro : from_utf8 [xe2; x82; xac] = true.
Proof. reflexivity. Qed.
Example from_utf8_rejects_surrogate : from_utf8 [xed; xa0; x80] = false.
Proof. reflexivity. Qed.
Example from_utf8_rejects_overlong : from_utf8 [xc0; xaf] = false.
Proof. reflexivity. Qed.

(** ** Characters

    A well-formed string is a sequence of characters: a leading byte that is not a continuation
    byte, followed by continuation bytes, that [from_utf8] consumes as a unit. *)

Definition utf8_char (c : list byte) : Prop :=
  exists b cs, c = b :: cs /\ is_continuation b = false /\
    Forall (fun x => is_continuation x = true) cs /\ forall t, from_utf8 (c ++ t) = from_utf8 t.

Inductive utf8 : list byte -> Prop :=
| utf8_nil : utf8 []
| utf8_cons c rest : utf8_char c -> utf8 rest -> utf8 (c ++ rest).

Lemma in_range_iff lo hi b : in_range lo hi b = true <-> lo <= bz b <= hi.
Proof. unfold in_range. lia. Qed.
Lemma in_range_not lo hi b : in_range lo hi b = false <-> bz b < lo \/ hi < bz b.
Proof. unfold in_range. lia. Qed.

(** Solve a goal about ranges of a byte. *)
Ltac byte_ranges :=
  unfold is_continuation, in_range in *; lia.

Lemma from_utf8_first b s :
  from_utf8 (b :: s) = true ->
  exists cs rest, b :: s = (b :: cs) ++ rest /\ utf8_char (b :: cs) /\ from_utf8 rest = true.
Proof.
  intros H. cbn [from_utf8] in H.
  destruct (in_range 0 127 b) eqn:H1.
  { exists [], s. split_and!; [done| |done]. exists b, []. split_and!; [done|byte_ranges|done|].
    intros t. cbn. by rewrite H1. }
  destruct s as [|b1 s]; [done|].
  destruct (in_range 194 223 b) eqn:H2.
  { apply andb_prop in H as [Hc H]. exists [b1], s. split_and!; [done| |done].
    exists b, [b1]. split_and!; [done|byte_ranges|by repeat constructor|]. intros t. cbn. by rewrite H1, H2, Hc. }
  destruct s as [|b2 s]; [done|].
  match type of H with (if ?c then _ else _) = true => destruct c eqn:H3 end.
  { apply andb_prop in H as [Hc H]. exists [b1; b2], s. split_and!; [done| |done].
    exists b, [b1; b2]. split_and!; [done|byte_ranges|repeat constructor; [byte_ranges|done]|].
    intros t. cbn. by rewrite H1, H2, H3, Hc. }
  destruct s as [|b3 s]; [done|].
  match type of H with (if ?c then _ else _) = true => destruct c eqn:H4; [|done] end.
  apply andb_prop in H as [[Hc Hd]%andb_prop H]. exists [b1; b2; b3], s. split_and!; [done| |done].
  exists b, [b1; b2; b3]. split_and!; [done|byte_ranges|repeat constructor; [byte_ranges|done..]|].
  intros t. cbn. by rewrite H1, H2, H3, H4, Hc, Hd.
Qed.

Lemma utf8_iff s : from_utf8 s = true <-> utf8 s.
Proof.
  split.
  - induction s as [s IH] using (induction_ltof1 _ (@length byte)). unfold ltof in IH.
    destruct s as [|b s]; [constructor|]. intros (cs & rest & Heq & Hc & Hr)%from_utf8_first.
    rewrite Heq in *. constructor; [done|]. apply IH; [|done]. cbn. rewrite length_app. lia.
  - induction 1 as [|c rest (b & cs & -> & _ & _ & Hc) _ IH]; [done|]. by rewrite Hc.
Qed.

Lemma from_utf8_app a b : from_utf8 a = true -> from_utf8 (a ++ b) = from_utf8 b.
Proof.
  intros H%utf8_iff. induction H as [|c rest (b0 & cs & -> & _ & _ & Hc) _ IH]; [done|].
  by rewrite <- app_assoc, Hc.
Qed.

Lemma utf8_head b s : utf8 (b :: s) -> is_continuation b = false.
Proof. inversion 1 as [|c rest (b0 & cs & -> & Hb & _) _ Heq]. cbn in Heq. by simplify_eq. Qed.

(** An index at a character boundary splits a well-formed string into well-formed strings. *)
Lemma boundary_split s i :
  from_utf8 s = true -> is_char_boundary s i = true -> (i <= length s)%nat ->
  from_utf8 (take i s) = true /\ from_utf8 (drop i s) = true.
Proof.
  intros H%utf8_iff. revert i.
  induction H as [|c rest (b & cs & -> & Hb & Hcs & Hc) Hr IH]; intros i Hi Hl.
  - cbn in Hl. assert (i = 0)%nat as -> by lia. done.
  - destruct (decide (i = 0%nat)) as [->|Hi0].
    { split; [done|]. rewrite drop_0, Hc. by apply utf8_iff. }
    destruct (decide (i < length (b :: cs))%nat) as [Hlt|Hge].
    + exfalso. unfold is_char_boundary in Hi. destruct (Nat.eqb_spec i 0); [lia|].
      destruct i as [|i]; [done|]. cbn in Hlt. destruct (lookup_lt_is_Some_2 cs i) as [x Hx]; [lia|].
      rewrite lookup_app_l, lookup_cons, Hx in Hi by (cbn; lia).
      rewrite Forall_lookup in Hcs. by rewrite (Hcs i x Hx) in Hi.
    + assert (exists j, i = length (b :: cs) + j)%nat as [j ->] by (exists (i - length (b :: cs))%nat; lia).
      rewrite take_app_add, drop_app_add, Hc. apply IH; [|rewrite length_app in Hl; lia].
      unfold is_char_boundary in *. destruct (Nat.eqb_spec j 0); [done|].
      destruct (Nat.eqb_spec (length (b :: cs) + j) 0); [lia|].
      rewrite lookup_app_r in Hi by lia. rewrite (Nat.add_comm _ j), Nat.add_sub in Hi.
      destruct (rest !! j); [done|]. rewrite length_app in Hi. apply Nat.eqb_eq in Hi. apply Nat.eqb_eq. lia.
Qed.

Lemma boundary_of_drop s i :
  from_utf8 (drop i s) = true -> (i <= length s)%nat -> is_char_boundary s i = true.
Proof.
  intros Hd Hl. unfold is_char_boundary. destruct (Nat.eqb_spec i 0); [done|].
  destruct (s !! i) as [b|] eqn:Hb.
  - rewrite (drop_S _ _ _ Hb) in Hd. apply utf8_iff, utf8_head in Hd. by rewrite Hd.
  - apply lookup_ge_None in Hb. apply Nat.eqb_eq. lia.
Qed.

Lemma boundary_of_take s i :
  from_utf8 s = true -> from_utf8 (take i s) = true -> (i <= length s)%nat -> is_char_boundary s i = true.
Proof.
  intros Hs Ht Hl. apply boundary_of_drop; [|done]. by rewrite <- (take_drop i s), from_utf8_app in Hs.
Qed.
