(* ===== verification/Canonical.v ===== *)
(** * Canonical encoding (crates/prikk-object/src/canonical.rs)

    The TLV writer whose output is every object's identity bytes: a field is its tag (u16
    big-endian), its wire type (one byte), its value's length (u64 big-endian) and its value, and
    tags are written in non-decreasing order.  [CanonicalEncode] is the source's trait.

    A payload's encoder writes a list of fields; [enc_fields] is the byte string they make, and
    [write_fields] is the writer fed with them one by one.  Payload files prove that their
    [encode_canonical] is [write_fields] of an explicit field list, so that round trips reduce to
    field lists. *)

From S2P Require Import Prelude PrikkError.

Inductive WireType : Type :=
| WireBool | WireU16 | WireU32 | WireU64 | WireEnumU16
| WireString | WireBytes | WireObjectId | WireRepoPath | WireRecord | WireRecordListItem.

(** [wire_type as u8]. *)
Definition wire_code (w : WireType) : Z :=
  match w with
  | WireBool => 0x01 | WireU16 => 0x02 | WireU32 => 0x03 | WireU64 => 0x04 | WireEnumU16 => 0x05
  | WireString => 0x10 | WireBytes => 0x11 | WireObjectId => 0x12 | WireRepoPath => 0x13
  | WireRecord => 0x20 | WireRecordListItem => 0x21
  end.

Lemma wire_code_inj w1 w2 : wire_code w1 = wire_code w2 -> w1 = w2.
Proof. destruct w1, w2; done. Qed.
Lemma wire_code_range w : 0 <= wire_code w < 256.
Proof. destruct w; cbn; lia. Qed.

Record CanonicalWriter : Type := mkWriter {
  w_bytes : list byte;
  w_last_tag : option Z;
}.

Definition CanonicalWriter_new : CanonicalWriter := mkWriter [] None.
Definition finish (w : CanonicalWriter) : list byte := w_bytes w.

(** The trait [CanonicalEncode]: [encode_canonical] writes into a writer. *)
Class CanonicalEncode (T : Type) : Type :=
  encode_canonical : T -> CanonicalWriter -> PResult CanonicalWriter.

Definition to_canonical_bytes {T} `{CanonicalEncode T} (value : T) : PResult (list byte) :=
  let? writer := encode_canonical value CanonicalWriter_new in
  Ok (finish writer).

(** Emit a raw field. *)
Definition field_raw (tag : Z) (wire_type : WireType) (value : list byte) (w : CanonicalWriter)
  : PResult CanonicalWriter :=
  let write :=
    Ok (mkWriter
          (w_bytes w ++ to_be_bytes 2 tag ++ [zb (wire_code wire_type)]
             ++ to_be_bytes 8 (zlen value) ++ value)
          (Some tag)) in
  if tag =? 0 then Err (CanonicalEncoding "field tag 0 is reserved")
  else
    match w_last_tag w with
    | Some last =>
        if tag <? last
        then Err (CanonicalEncoding "field tag order violation: {tag} after {last}")
        else write
    | None => write
    end.

Definition field_string (tag : Z) (value : list byte) := field_raw tag WireString value.
Definition field_string_opt (tag : Z) (value : option (list byte)) (w : CanonicalWriter) :=
  match value with
  | Some value => field_string tag value w
  | None => Ok w
  end.
Definition field_bytes (tag : Z) (value : list byte) := field_raw tag WireBytes value.
Definition field_u32 (tag value : Z) := field_raw tag WireU32 (to_be_bytes 4 value).
Definition field_u64 (tag value : Z) := field_raw tag WireU64 (to_be_bytes 8 value).
Definition field_bool (tag : Z) (value : bool) :=
  field_raw tag WireBool (if value then [x01] else [x00]).
Definition field_u16 (tag value : Z) := field_raw tag WireU16 (to_be_bytes 2 value).
Definition field_enum_u16 (tag value : Z) := field_raw tag WireEnumU16 (to_be_bytes 2 value).
(** [field_object_id] takes the identifier's bytes, [value.as_bytes()]. *)
Definition field_object_id (tag : Z) (value : list byte) := field_raw tag WireObjectId value.
Definition field_repo_path (tag : Z) (value : list byte) := field_raw tag WireRepoPath value.

Definition field_record {T} `{CanonicalEncode T} (tag : Z) (value : T) (w : CanonicalWriter) :=
  let? nested := encode_canonical value CanonicalWriter_new in
  field_raw tag WireRecord (finish nested) w.

Definition field_record_list_item {T} `{CanonicalEncode T} (tag : Z) (value : T)
    (w : CanonicalWriter) :=
  let? nested := encode_canonical value CanonicalWriter_new in
  field_raw tag WireRecordListItem (finish nested) w.

Definition repeated_record {T} `{CanonicalEncode T} (tag : Z) (values : list T)
    (w : CanonicalWriter) :=
  foldM (fun w value => field_record tag value w) w values.
Definition repeated_record_list {T} `{CanonicalEncode T} (tag : Z) (values : list T)
    (w : CanonicalWriter) :=
  foldM (fun w value => field_record_list_item tag value w) w values.
Definition repeated_string (tag : Z) (values : list (list byte)) (w : CanonicalWriter) :=
  foldM (fun w value => field_string tag value w) w values.
Definition repeated_object_id (tag : Z) (values : list (list byte)) (w : CanonicalWriter) :=
  foldM (fun w value => field_object_id tag value w) w values.

(** [is_strictly_sorted], over the element type's [<]. *)
Definition is_strictly_sorted {A} (ltb : A -> A -> bool) (values : list A) : bool :=
  windows_lt ltb values.

(** [is_contiguous_op_seq]: the sequence is exactly [1..=n]. *)
Definition is_contiguous_op_seq (values : list Z) : bool :=
  forallb (fun '(idx, value) => value =? Z.of_nat idx + 1) (imap (fun i v => (i, v)) values).

(** ** Fields as data *)

(** A TLV field: tag, wire-type byte and value.  The decoders' [BlobField], [BlockCanonicalField],
    [CanonicalField], ... all have this shape. *)
Record Field : Type := mkField {
  tag : Z;
  wire_type : Z;
  value : list byte;
}.

Definition wfield (t : Z) (w : WireType) (v : list byte) : Field := mkField t (wire_code w) v.

Definition enc_field (f : Field) : list byte :=
  to_be_bytes 2 (tag f) ++ [zb (wire_type f)] ++ to_be_bytes 8 (zlen (value f)) ++ value f.

Definition enc_fields (fs : list Field) : list byte := concat (map enc_field fs).

(** Non-decreasing tags between two bounds. *)
Fixpoint tags_between (lo hi : Z) (fs : list Field) : Prop :=
  match fs with
  | [] => lo <= hi
  | f :: fs' => lo <= tag f /\ tags_between (tag f) hi fs'
  end.

(** A field list a conforming writer can emit and a cursor can read. *)
Definition wf_field (f : Field) : Prop := 0 <= wire_type f < 256 /\ zlen (value f) < 2 ^ 64.
Definition wf_fields (fs : list Field) : Prop :=
  tags_between 1 65535 fs /\ Forall wf_field fs.

Lemma enc_fields_app fs1 fs2 : enc_fields (fs1 ++ fs2) = enc_fields fs1 ++ enc_fields fs2.
Proof. unfold enc_fields. by rewrite map_app, concat_app. Qed.
Lemma enc_fields_cons f fs : enc_fields (f :: fs) = enc_field f ++ enc_fields fs.
Proof. reflexivity. Qed.

Lemma zlen_enc_field f : zlen (enc_field f) = 11 + zlen (value f).
Proof. unfold enc_field. rewrite !zlen_app, !zlen_to_be_bytes, zlen_cons, zlen_nil. lia. Qed.

Lemma tags_between_le lo hi fs : tags_between lo hi fs -> lo <= hi.
Proof.
  revert lo. induction fs as [|f fs IH]; intros lo; cbn; [done|].
  intros [? ?%IH]. lia.
Qed.

Lemma tags_between_app lo mid hi fs1 fs2 :
  tags_between lo mid fs1 -> tags_between mid hi fs2 -> tags_between lo hi (fs1 ++ fs2).
Proof.
  revert lo. induction fs1 as [|f fs1 IH]; intros lo; cbn.
  - intros Hle H2. pose proof (tags_between_le _ _ _ H2).
    destruct fs2 as [|g fs2]; cbn in *; intuition lia.
  - intros [? ?] ?. eauto.
Qed.

Lemma tags_between_weaken lo lo' hi hi' fs :
  lo' <= lo -> hi <= hi' -> tags_between lo hi fs -> tags_between lo' hi' fs.
Proof.
  revert lo lo'. induction fs as [|f fs IH]; intros lo lo'; cbn; [lia|].
  intros ? ? [? ?]. split; [lia|]. eapply IH; [| |eassumption]; lia.
Qed.

Lemma tags_between_one lo hi f : lo <= tag f <= hi -> tags_between lo hi [f].
Proof. cbn. lia. Qed.

Lemma tags_between_map {A} (g : A -> Field) (t : Z) (l : list A) :
  (forall a, tag (g a) = t) -> tags_between t t (map g l).
Proof.
  intros Hg. induction l as [|a l IH]; cbn; [lia|]. rewrite Hg. by split.
Qed.

Lemma tags_between_opt {A} (g : A -> Field) (t : Z) (o : option A) :
  (forall a, tag (g a) = t) -> tags_between t t (map g (option_list o)).
Proof. apply tags_between_map. Qed.

Lemma tags_between_in lo hi fs f : tags_between lo hi fs -> f ∈ fs -> lo <= tag f <= hi.
Proof.
  revert lo. induction fs as [|g fs IH]; intros lo; cbn; [by intros _ ?%elem_of_nil|].
  intros [? Ht] [->|Hin]%elem_of_cons.
  - pose proof (tags_between_le _ _ _ Ht). lia.
  - specialize (IH _ Ht Hin). lia.
Qed.

(** The tags of a decoded prefix bound what follows it. *)
Lemma tags_between_snoc_inv lo hi fs f g :
  tags_between lo hi (fs ++ [f]) -> g ∈ fs -> tag g <= tag f.
Proof.
  revert lo. induction fs as [|x fs IH]; intros lo; cbn; [by intros _ ?%elem_of_nil|].
  intros [? Ht] [->|Hin]%elem_of_cons.
  - eapply (tags_between_in _ _ _ f) in Ht; [lia|]. apply elem_of_app. right. by left.
  - by eapply IH.
Qed.

Lemma tags_between_prefix lo hi fs1 fs2 :
  tags_between lo hi (fs1 ++ fs2) -> tags_between lo hi fs1.
Proof.
  revert lo. induction fs1 as [|x fs1 IH]; intros lo; cbn.
  - apply tags_between_le.
  - intros [? ?]. eauto.
Qed.

(** ** The writer fed with a field list *)

Definition write_fields (fs : list (Z * WireType * list byte)) (w : CanonicalWriter)
  : PResult CanonicalWriter :=
  foldM (fun w '(t, wt, v) => field_raw t wt v w) w fs.

Definition to_field (x : Z * WireType * list byte) : Field :=
  let '(t, wt, v) := x in wfield t wt v.

Lemma write_fields_app fs1 fs2 w :
  write_fields (fs1 ++ fs2) w = (let? w' := write_fields fs1 w in write_fields fs2 w').
Proof. apply foldM_app. Qed.

Lemma write_fields_from lo hi fs bs last :
  1 <= lo -> hi <= 65535 -> tags_between lo hi (map to_field fs) ->
  match last with Some l => l <= lo | None => True end ->
  exists last', write_fields fs (mkWriter bs last)
                = Ok (mkWriter (bs ++ enc_fields (map to_field fs)) last').
Proof.
  intros Hlo Hhi. revert lo Hlo bs last.
  induction fs as [|[[t wt] v] fs IH]; intros lo Hlo bs last; cbn.
  - intros _ _. exists last. by rewrite app_nil_r.
  - intros [Hle Ht] Hlast.
    assert (1 <= t) by lia. pose proof (tags_between_le _ _ _ Ht).
    unfold field_raw at 1. cbn.
    replace (t =? 0) with false by lia.
    destruct (IH t ltac:(lia)
      (bs ++ to_be_bytes 2 t ++ [zb (wire_code wt)] ++ to_be_bytes 8 (zlen v) ++ v)
      (Some t) Ht (Z.le_refl t)) as [last' Hw].
    exists last'. destruct last as [l|]; [replace (t <? l) with false by lia|].
    all: unfold write_fields in Hw; cbn in Hw; rewrite Hw.
    all: unfold enc_fields; cbn [map concat to_field]; unfold enc_field at 2, wfield;
      cbn [tag wire_type value]; by rewrite <- !app_assoc.
Qed.

(** The bytes of a writer fed with a sorted field list from scratch. *)
Lemma write_fields_new fs :
  tags_between 1 65535 (map to_field fs) ->
  (let? w := write_fields fs CanonicalWriter_new in Ok (finish w))
  = Ok (enc_fields (map to_field fs)).
Proof.
  intros Ht. destruct (write_fields_from 1 65535 fs [] None) as [last Hw]; [lia|lia|done|done|].
  unfold CanonicalWriter_new. by rewrite Hw.
Qed.

(** A successful raw write appends exactly one field. *)
Lemma field_raw_inv t wt v w w' :
  field_raw t wt v w = Ok w' ->
  t <> 0 /\ match w_last_tag w with Some l => l <= t | None => True end /\
  w' = mkWriter (w_bytes w ++ enc_field (wfield t wt v)) (Some t).
Proof.
  unfold field_raw. intros H. inv_ok; repeat split; try lia.
Qed.
