(* ===== verification/Cursor.v ===== *)
(** * The canonical TLV cursor

    Every payload decoder of prikk carries its own copy of one cursor ([BlobCursor],
    [BlockCanonicalCursor], [CanonicalCursor], [TagCursor], [AttestationCursor],
    [RecognitionClaimCursor], [PatchPayloadFieldCursor] and the store's [TlvCursor]); the copies
    differ only in the error variant they raise.  This file models that cursor once, over the
    error constructor [mk]; the payload files name their copy as an instance of it.

    [while_fields] is the loop [while let Some(field) = cursor.next_field()? { .. }].  Its fuel,
    one more than the payload's length, always suffices ([decode_fields_fuel]).  The two main
    lemmas reduce every decoder to field lists: on the bytes of a well-formed field list the loop
    folds its body over the list ([decode_fields_enc]), and bytes the loop accepts are the bytes of
    a well-formed field list ([decode_fields_sound]). *)

From S2P Require Import Prelude PrikkError Utf8 Canonical.

Record Cursor : Type := mkCursor {
  c_bytes : list byte;
  c_pos : Z;
  c_last_tag : option Z;
}.

Definition Cursor_new (bytes : list byte) : Cursor := mkCursor bytes 0 None.

Section cursor.
(** The error variant of this copy of the cursor. *)
Variable mk : string -> PrikkError.

Definition read_exact (c : Cursor) (len : Z) : PResult (list byte * Cursor) :=
  let end_ := c_pos c + len in
  if usize_max <? end_ then Err (mk "canonical range overflow")
  else if zlen (c_bytes c) <? end_ then Err (mk "unexpected end of canonical payload")
  else Ok (take (Z.to_nat len) (drop (Z.to_nat (c_pos c)) (c_bytes c)),
           mkCursor (c_bytes c) end_ (c_last_tag c)).

(** [read_array::<N>] on the cursor. *)
Definition read_array (c : Cursor) (n : Z) : PResult (list byte * Cursor) := read_exact c n.

Definition read_u8 (c : Cursor) : PResult (byte * Cursor) :=
  let? '(bytes, c) := read_exact c 1 in
  match bytes with
  | b :: _ => Ok (b, c)
  | [] => Err (mk "unexpected empty byte")
  end.

Definition next_field (c : Cursor) : PResult (option (Field * Cursor)) :=
  if c_pos c =? zlen (c_bytes c) then Ok None
  else
    let? '(tag_bytes, c) := read_array c 2 in
    let tag := from_be_bytes tag_bytes in
    if tag =? 0 then Err (mk "field tag 0 is reserved")
    else
      let? _ :=
        match c_last_tag c with
        | Some last =>
            if tag <? last then Err (mk "field tag order violation: {tag} after {last}")
            else Ok tt
        | None => Ok tt
        end in
      let c := mkCursor (c_bytes c) (c_pos c) (Some tag) in
      let? '(wire_type, c) := read_u8 c in
      let? '(len_bytes, c) := read_array c 8 in
      let len := from_be_bytes len_bytes in
      if usize_max <? len then Err (mk "canonical field length does not fit usize")
      else
        let? '(value, c) := read_exact c len in
        Ok (Some (mkField tag (bz wire_type) value, c)).

(** ** Field readers *)

Definition require_wire (f : Field) (expected : WireType) : PResult unit :=
  if wire_type f =? wire_code expected then Ok tt
  else Err (mk "field {} has wrong wire type: expected {}, got {}").

(** [read_array::<N>] on a field. *)
Definition field_read_array (f : Field) (n : nat) : PResult (list byte) :=
  if Nat.eqb (length (value f)) n then Ok (value f)
  else Err (mk "field {} expected {N} bytes, got {}").

Definition read_string (f : Field) : PResult (list byte) :=
  let? _ := require_wire f WireString in
  if from_utf8 (value f) then Ok (value f) else Err (mk "invalid UTF-8 string: {err}").

Definition read_bytes (f : Field) : PResult (list byte) :=
  let? _ := require_wire f WireBytes in Ok (value f).

Definition read_u32 (f : Field) : PResult Z :=
  let? _ := require_wire f WireU32 in
  let? bs := field_read_array f 4 in Ok (from_be_bytes bs).

Definition read_u64 (f : Field) : PResult Z :=
  let? _ := require_wire f WireU64 in
  let? bs := field_read_array f 8 in Ok (from_be_bytes bs).

Definition read_enum_u16 (f : Field) : PResult Z :=
  let? _ := require_wire f WireEnumU16 in
  let? bs := field_read_array f 2 in Ok (from_be_bytes bs).

Definition read_object_id (f : Field) : PResult (list byte) :=
  let? _ := require_wire f WireObjectId in field_read_array f 32.

(** ** The decode loop *)

Context {A : Type} (step : A -> Field -> PResult A).

Fixpoint while_fields (fuel : nat) (c : Cursor) (acc : A) : PResult A :=
  match fuel with
  | O => Err OutOfFuel
  | S fuel' =>
      let? o := next_field c in
      match o with
      | None => Ok acc
      | Some (f, c') => let? acc' := step acc f in while_fields fuel' c' acc'
      end
  end.

Definition decode_fields (init : A) (bytes : list byte) : PResult A :=
  while_fields (S (length bytes)) (Cursor_new bytes) init.
End cursor.

(** ** Reading at a known position

    [at_suffix c rest] says that the cursor stands in front of [rest]. *)

Definition at_suffix (c : Cursor) (rest : list byte) : Prop :=
  0 <= c_pos c <= zlen (c_bytes c) /\ drop (Z.to_nat (c_pos c)) (c_bytes c) = rest.

(** [c'] is [c] moved forward to [rest], with its last tag kept. *)
Definition moved (c c' : Cursor) (rest : list byte) : Prop :=
  at_suffix c' rest /\ c_bytes c' = c_bytes c /\ c_last_tag c' = c_last_tag c.

Lemma at_suffix_new bs : at_suffix (Cursor_new bs) bs.
Proof. split; [|done]. cbn. pose proof (zlen_nonneg bs). lia. Qed.

Lemma at_suffix_len c rest : at_suffix c rest -> zlen (c_bytes c) = c_pos c + zlen rest.
Proof. intros [? <-]. unfold zlen in *. rewrite length_drop. lia. Qed.

Section reading.
Variable mk : string -> PrikkError.

Lemma read_exact_suffix c v rest :
  zlen (c_bytes c) < 2 ^ 64 -> at_suffix c (v ++ rest) ->
  exists c', read_exact mk c (zlen v) = Ok (v, c') /\ moved c c' rest.
Proof.
  intros Hb Hs. pose proof (at_suffix_len _ _ Hs) as Hl. destruct Hs as [Hp Hd].
  rewrite zlen_app in Hl. pose proof (zlen_nonneg v). pose proof (zlen_nonneg rest).
  unfold read_exact, usize_max.
  destruct (Z.ltb_spec (2 ^ 64 - 1) (c_pos c + zlen v)); [lia|].
  destruct (Z.ltb_spec (zlen (c_bytes c)) (c_pos c + zlen v)); [lia|].
  eexists. split; [rewrite Hd, take_app_length' by (unfold zlen; lia); reflexivity|].
  split; [|done]. split; cbn [c_pos c_bytes]; [lia|].
  replace (Z.to_nat (c_pos c + zlen v)) with (Z.to_nat (c_pos c) + length v)%nat
    by (unfold zlen; lia).
  by rewrite <- drop_drop, Hd, drop_app_length.
Qed.

Lemma read_exact_inv c len bs c' rest :
  at_suffix c rest -> read_exact mk c len = Ok (bs, c') -> 0 <= len ->
  exists post, rest = bs ++ post /\ zlen bs = len /\ moved c c' post
    /\ c_pos c' = c_pos c + len.
Proof.
  unfold read_exact. intros [Hp Hd] H Hl.
  destruct (Z.ltb_spec usize_max (c_pos c + len)); [discriminate|].
  destruct (Z.ltb_spec (zlen (c_bytes c)) (c_pos c + len)); [discriminate|].
  injection H as <- <-. subst rest.
  exists (drop (Z.to_nat len) (drop (Z.to_nat (c_pos c)) (c_bytes c))).
  rewrite take_drop. unfold moved, at_suffix. cbn [c_pos c_bytes c_last_tag].
  unfold zlen in *. rewrite length_take, length_drop, drop_drop.
  repeat split; try lia. f_equal. lia.
Qed.

Lemma read_u8_suffix c b rest :
  zlen (c_bytes c) < 2 ^ 64 -> at_suffix c (b :: rest) ->
  exists c', read_u8 mk c = Ok (b, c') /\ moved c c' rest.
Proof.
  intros Hb Hs. destruct (read_exact_suffix c [b] rest Hb Hs) as (c' & Hr & Hm).
  exists c'. unfold read_u8. change (zlen [b]) with 1 in Hr. by rewrite Hr.
Qed.

Lemma read_u8_inv c b c' rest :
  at_suffix c rest -> read_u8 mk c = Ok (b, c') ->
  exists post, rest = b :: post /\ moved c c' post /\ c_pos c' = c_pos c + 1.
Proof.
  unfold read_u8. intros Hs H.
  destruct (read_exact mk c 1) as [[bs c1]|e] eqn:Hr; [|discriminate].
  destruct (read_exact_inv _ _ _ _ _ Hs Hr ltac:(lia)) as (post & -> & H2 & Hm & Hp).
  destruct bs as [|b0 [|? ?]]; unfold zlen in H2; cbn in H2; [lia| |lia].
  injection H as <- <-. eauto.
Qed.

(** ** One field at a time *)

Lemma next_field_end c : at_suffix c [] -> next_field mk c = Ok None.
Proof.
  intros Hs. apply at_suffix_len in Hs. rewrite zlen_nil in Hs.
  unfold next_field. by replace (c_pos c =? zlen (c_bytes c)) with true by lia.
Qed.

Lemma next_field_none_inv c rest :
  at_suffix c rest -> next_field mk c = Ok None -> rest = [].
Proof.
  intros Hs H. apply at_suffix_len in Hs. unfold next_field in H.
  destruct (Z.eqb_spec (c_pos c) (zlen (c_bytes c))) as [Heq|].
  - apply nil_length_inv. unfold zlen in *. lia.
  - exfalso. inv_ok.
Qed.

(** The cursor reads back the field that was written at its position. *)
Lemma next_field_at c f rest :
  zlen (c_bytes c) < 2 ^ 64 -> at_suffix c (enc_field f ++ rest) ->
  0 <= wire_type f < 256 -> 1 <= tag f <= 65535 ->
  match c_last_tag c with Some l => l <= tag f | None => True end ->
  exists c', next_field mk c = Ok (Some (f, c')) /\ at_suffix c' rest /\
    c_bytes c' = c_bytes c /\ c_last_tag c' = Some (tag f).
Proof.
  intros Hb Hs Hw Ht Hlast. pose proof (at_suffix_len _ _ Hs) as Hl.
  rewrite zlen_app, zlen_enc_field in Hl.
  pose proof (zlen_nonneg (value f)). pose proof (zlen_nonneg rest).
  destruct Hs as [Hp Hd]. assert (Hs : at_suffix c (enc_field f ++ rest)) by done.
  unfold enc_field in Hs. rewrite <- !app_assoc in Hs.
  apply (read_exact_suffix c (to_be_bytes 2 (tag f))) in Hs as (c1 & R1 & S1 & B1 & T1); [|done].
  rewrite zlen_to_be_bytes in R1. change (Z.of_nat 2) with 2 in R1.
  set (c1' := mkCursor (c_bytes c1) (c_pos c1) (Some (tag f))).
  destruct (read_u8_suffix c1' (zb (wire_type f)) (to_be_bytes 8 (zlen (value f)) ++ value f ++ rest))
    as (c2 & R2 & S2 & B2 & T2); [cbn; by rewrite B1|exact S1|].
  apply (read_exact_suffix c2 (to_be_bytes 8 (zlen (value f)))) in S2 as (c3 & R3 & S3 & B3 & T3);
    [|rewrite B2; cbn; by rewrite B1].
  rewrite zlen_to_be_bytes in R3. change (Z.of_nat 8) with 8 in R3.
  apply (read_exact_suffix c3 (value f)) in S3 as (c4 & R4 & S4 & B4 & T4);
    [|rewrite B3, B2; cbn; by rewrite B1].
  exists c4. split; [|rewrite B4, B3, B2, T4, T3, T2; cbn; by rewrite B1].
  unfold next_field, read_array, usize_max.
  destruct (Z.eqb_spec (c_pos c) (zlen (c_bytes c))); [lia|].
  rewrite R1. rewrite from_to_be_bytes_small by (cbn; lia).
  destruct (Z.eqb_spec (tag f) 0); [lia|]. rewrite T1.
  replace (match c_last_tag c with Some _ => _ | None => _ end) with (@Ok PrikkError _ tt)
    by (destruct (c_last_tag c) as [l|]; [by destruct (Z.ltb_spec (tag f) l); [lia|]|done]).
  fold c1'. rewrite R2, R3.
  rewrite from_to_be_bytes_small by (cbn; lia).
  destruct (Z.ltb_spec (2 ^ 64 - 1) (zlen (value f))); [lia|].
  rewrite R4, bz_zb, (Z.mod_small (wire_type f)) by lia. by destruct f.
Qed.

(** A field the cursor returns is exactly the bytes it consumed. *)
Lemma next_field_inv c f c' rest :
  at_suffix c rest -> next_field mk c = Ok (Some (f, c')) ->
  exists post,
    rest = enc_field f ++ post /\ at_suffix c' post /\
    c_bytes c' = c_bytes c /\ c_last_tag c' = Some (tag f) /\ c_pos c < c_pos c' /\
    1 <= tag f <= 65535 /\ wf_field f /\
    match c_last_tag c with Some l => l <= tag f | None => True end.
Proof.
  unfold next_field, read_array. intros Hs H.
  destruct (c_pos c =? zlen (c_bytes c)); [discriminate|].
  destruct (read_exact mk c 2) as [[tb c1]|] eqn:H1; [|discriminate].
  destruct (read_exact_inv _ _ _ _ _ Hs H1 ltac:(lia))
    as (post1 & -> & L1 & (S1 & B1 & T1) & P1).
  destruct (Z.eqb_spec (from_be_bytes tb) 0) as [|Hnz]; [discriminate|].
  rewrite T1 in H.
  destruct (match c_last_tag c with Some _ => _ | None => _ end) as [u|] eqn:Hchk in H;
    [|discriminate].
  assert (Hlast : match c_last_tag c with Some l => l <= from_be_bytes tb | None => True end).
  { destruct (c_last_tag c) as [l|]; [|done].
    by destruct (Z.ltb_spec (from_be_bytes tb) l) in Hchk. }
  set (c1' := mkCursor (c_bytes c1) (c_pos c1) (Some (from_be_bytes tb))) in H.
  destruct (read_u8 mk c1') as [[w c2]|] eqn:H2; [|discriminate].
  assert (S1' : at_suffix c1' post1) by exact S1.
  destruct (read_u8_inv _ _ _ _ S1' H2) as (post2 & -> & (S2 & B2 & T2) & P2).
  destruct (read_exact mk c2 8) as [[lb c3]|] eqn:H3; [|discriminate].
  destruct (read_exact_inv _ _ _ _ _ S2 H3 ltac:(lia))
    as (post3 & -> & L3 & (S3 & B3 & T3) & P3).
  destruct (Z.ltb_spec usize_max (from_be_bytes lb)) as [|Hfit]; [discriminate|].
  destruct (read_exact mk c3 (from_be_bytes lb)) as [[v c4]|] eqn:H4; [|discriminate].
  pose proof (from_be_bytes_range lb) as Hlb. pose proof (from_be_bytes_range tb) as Htb.
  destruct (read_exact_inv _ _ _ _ _ S3 H4 ltac:(lia))
    as (post4 & -> & L4 & (S4 & B4 & T4) & P4).
  injection H as <- <-. exists post4. unfold zlen in L1, L3.
  replace (length lb) with 8%nat in Hlb by lia. replace (length tb) with 2%nat in Htb by lia.
  cbn in Hlb, Htb. unfold usize_max in Hfit. pose proof (bz_range w).
  unfold enc_field, wf_field. cbn [tag wire_type value].
  rewrite zb_bz, L4, (to_from_be_bytes_len 2), (to_from_be_bytes_len 8) by lia.
  rewrite <- !app_assoc, B4, B3, B2, T4, T3, T2. cbn [c1' c_bytes c_pos c_last_tag app] in *.
  rewrite B1. repeat split; try done; try lia; apply S4.
Qed.

(** ** The loop *)

Context {A : Type} (step : A -> Field -> PResult A).

Lemma while_fields_enc fs : forall fuel c acc lo,
  zlen (c_bytes c) < 2 ^ 64 -> at_suffix c (enc_fields fs) ->
  1 <= lo -> tags_between lo 65535 fs -> Forall wf_field fs ->
  match c_last_tag c with Some l => l <= lo | None => True end ->
  (length fs < fuel)%nat ->
  while_fields mk step fuel c acc = foldM step acc fs.
Proof.
  induction fs as [|f fs IH]; intros [|fuel] c acc lo Hb Hs Hlo Ht Hw Hlast Hf;
    cbn [length] in Hf; try lia; cbn [while_fields foldM].
  - by rewrite next_field_end.
  - destruct Ht as [Hle Ht]. apply Forall_cons in Hw as [Hwf Hw].
    pose proof (tags_between_le _ _ _ Ht).
    rewrite enc_fields_cons in Hs.
    destruct (next_field_at c f (enc_fields fs)) as (c' & Hn & Hs' & Hb' & Hl'); try done;
      [apply Hwf|lia|destruct (c_last_tag c); lia|].
    rewrite Hn. destruct (step acc f) as [acc'|e]; [|done].
    apply (IH fuel c' acc' (tag f)); rewrite ?Hb', ?Hl'; try done; lia.
Qed.

Lemma length_enc_fields fs : (length fs <= length (enc_fields fs))%nat.
Proof.
  induction fs as [|f fs IH]; [cbn; lia|]. rewrite enc_fields_cons, length_app.
  pose proof (zlen_enc_field f) as Hf. pose proof (zlen_nonneg (value f)).
  unfold zlen in *. cbn [length]. lia.
Qed.

(** On the bytes of a well-formed field list the decode loop is a fold over the list. *)
Lemma decode_fields_enc fs acc :
  wf_fields fs -> zlen (enc_fields fs) < 2 ^ 64 ->
  decode_fields mk step acc (enc_fields fs) = foldM step acc fs.
Proof.
  intros [Ht Hw] Hb. unfold decode_fields.
  apply (while_fields_enc fs _ _ _ 1); try done; try lia.
  - apply at_suffix_new.
  - pose proof (length_enc_fields fs). lia.
Qed.

Lemma while_fields_sound fuel : forall c acc r rest,
  at_suffix c rest -> 1 <= default 1 (c_last_tag c) <= 65535 ->
  while_fields mk step fuel c acc = Ok r ->
  exists fs, rest = enc_fields fs /\ foldM step acc fs = Ok r /\ Forall wf_field fs /\
    tags_between (default 1 (c_last_tag c)) 65535 fs.
Proof.
  induction fuel as [|fuel IH]; intros c acc r rest Hs Hlo H; cbn [while_fields] in H;
    [discriminate|].
  destruct (next_field mk c) as [[[f c']|]|] eqn:Hn; [| |discriminate].
  - destruct (step acc f) as [acc'|] eqn:Hstep; [|discriminate].
    destruct (next_field_inv _ _ _ _ Hs Hn) as (post & -> & Hs' & _ & Hl' & _ & Ht & Hw & Hord).
    destruct (IH c' acc' r post Hs') as (fs & -> & Hf & Hws & Hts); [by rewrite Hl'|done|].
    exists (f :: fs). rewrite Hl' in Hts. cbn [foldM tags_between default]. rewrite Hstep.
    repeat split; try done; [by apply Forall_cons|].
    destruct (c_last_tag c); cbn in *; lia.
  - exists []. injection H as <-. cbn. repeat split; try done; [|lia].
    eapply next_field_none_inv; eauto.
Qed.

(** Bytes the decode loop accepts are the bytes of a well-formed field list, and the loop's
    result is the fold over that list. *)
Lemma decode_fields_sound bytes acc r :
  decode_fields mk step acc bytes = Ok r ->
  exists fs, bytes = enc_fields fs /\ wf_fields fs /\ foldM step acc fs = Ok r.
Proof.
  intros H. apply while_fields_sound with (rest := bytes) in H as (fs & -> & Hf & Hw & Ht);
    [|apply at_suffix_new|cbn; lia].
  exists fs. repeat split; try done.
Qed.

(** [next_field] fails with the cursor's own error variant only. *)
Lemma next_field_err c e : next_field mk c = Err e -> exists msg, e = mk msg.
Proof.
  unfold next_field, read_array, read_u8, read_exact. intros H.
  repeat (inv_step || match goal with H : context [match ?x with _ => _ end] |- _ =>
    destruct x eqn:?; try discriminate end); eauto.
Qed.

Lemma while_fields_fuel fuel : forall c acc rest,
  at_suffix c rest -> (length rest < fuel)%nat ->
  (forall msg, mk msg <> OutOfFuel) ->
  while_fields mk step fuel c acc = Err OutOfFuel ->
  exists a f, step a f = Err OutOfFuel.
Proof.
  induction fuel as [|fuel IH]; intros c acc rest Hs Hf Hmk H; cbn [while_fields] in H; [lia|].
  destruct (next_field mk c) as [[[f c']|]|e] eqn:Hn; [| discriminate |].
  - destruct (step acc f) as [acc'|e] eqn:Hstep; [|injection H as ->; eauto].
    destruct (next_field_inv _ _ _ _ Hs Hn) as (post & -> & Hs' & _).
    eapply (IH c' acc' post); try done.
    rewrite length_app in Hf. pose proof (zlen_enc_field f) as Hl.
    pose proof (zlen_nonneg (value f)). unfold zlen in *. lia.
  - injection H as ->. destruct (next_field_err _ _ Hn) as [msg Hmsg].
    by destruct (Hmk msg).
Qed.

(** The fuel suffices: the loop terminates with the body's verdict on every input. *)
Lemma decode_fields_fuel bytes acc :
  (forall msg, mk msg <> OutOfFuel) -> (forall a f, step a f <> Err OutOfFuel) ->
  decode_fields mk step acc bytes <> Err OutOfFuel.
Proof.
  intros Hmk Hstep H.
  destruct (while_fields_fuel _ _ _ bytes (at_suffix_new bytes) (Nat.lt_succ_diag_r _) Hmk H)
    as (a & f & Hc). by eapply Hstep.
Qed.
End reading.
