(* ===== verification/ObjectId.v ===== *)
(** * Object types and object identifiers (crates/prikk-object/src/id.rs)

    [ObjectType] with its stable codes, the retired code [0x0A], the identity preimage of
    [ObjectId::from_canonical_payload] and the hex form of an identifier.  An [ObjectId] is its 32
    bytes ([wf_id]). *)

From S2P Require Import Prelude PrikkError Hash.

Definition OBJECT_ID_DOMAIN : list byte := bytes_of_string "PRIKK-OBJECT-ID-v1".

Definition RETIRED_CODES : list (Z * string) := [(0x0A, "project-genesis")].

Inductive ObjectType : Type :=
| Patch | Block | RefState | RefUpdate | Tag | Attestation | Blob
| BlockSummaryCache | RecoveryNote | RecognitionClaim.

#[global] Instance ObjectType_eq_dec : EqDecision ObjectType.
Proof. solve_decision. Defined.

Definition ObjectType_ALL : list ObjectType :=
  [Patch; Block; RefState; RefUpdate; Tag; Attestation; Blob; BlockSummaryCache; RecoveryNote;
   RecognitionClaim].

Definition ObjectType_code (t : ObjectType) : Z :=
  match t with
  | Patch => 0x01 | Block => 0x02 | RefState => 0x03 | RefUpdate => 0x04 | Tag => 0x05
  | Attestation => 0x06 | Blob => 0x07 | BlockSummaryCache => 0x08 | RecoveryNote => 0x09
  | RecognitionClaim => 0x0B
  end.

Definition ObjectType_from_code (code : Z) : PResult ObjectType :=
  match List.find (fun '(retired, _) => retired =? code) RETIRED_CODES with
  | Some _ =>
      Err (MalformedData
             "object type code {code} is retired (formerly {name}) and must never be reused")
  | None =>
      if code =? 0x01 then Ok Patch
      else if code =? 0x02 then Ok Block
      else if code =? 0x03 then Ok RefState
      else if code =? 0x04 then Ok RefUpdate
      else if code =? 0x05 then Ok Tag
      else if code =? 0x06 then Ok Attestation
      else if code =? 0x07 then Ok Blob
      else if code =? 0x08 then Ok BlockSummaryCache
      else if code =? 0x09 then Ok RecoveryNote
      else if code =? 0x0B then Ok RecognitionClaim
      else Err (MalformedData "unknown object type code: {other}")
  end.

Definition ObjectType_name (t : ObjectType) : string :=
  match t with
  | Patch => "patch" | Block => "block" | RefState => "ref-state" | RefUpdate => "ref-update"
  | Tag => "tag" | Attestation => "attestation" | Blob => "blob"
  | BlockSummaryCache => "block-summary-cache" | RecoveryNote => "recovery-note"
  | RecognitionClaim => "recognition-claim"
  end.

(** ** Identifiers *)

Abbreviation ObjectId := (list byte) (only parsing).

(** The type [[u8; 32]]. *)
Definition wf_id (id : list byte) : Prop := length id = 32%nat.

(** The bytes [from_canonical_payload] hashes. *)
Definition object_id_preimage (object_type : ObjectType) (schema_version : Z)
    (canonical_payload : list byte) : list byte :=
  OBJECT_ID_DOMAIN ++ to_be_bytes 2 (ObjectType_code object_type) ++ to_be_bytes 4 schema_version
    ++ to_be_bytes 8 (zlen canonical_payload) ++ canonical_payload.

Definition from_canonical_payload `{Sha256} (object_type : ObjectType) (schema_version : Z)
    (canonical_payload : list byte) : ObjectId :=
  sha256 (object_id_preimage object_type schema_version canonical_payload).

(** [ObjectId::to_hex]. *)
Definition ObjectId_to_hex (id : ObjectId) : list byte := to_hex id.

Definition hex_value (b : byte) : PResult Z :=
  if (48 <=? bz b) && (bz b <=? 57) then Ok (bz b - 48)
  else if (97 <=? bz b) && (bz b <=? 102) then Ok (bz b - 97 + 10)
  else Err (InvalidObjectId "object IDs must use lowercase hex only").

(** The loop of [from_str] over [chunks_exact(2)]; a trailing odd byte is dropped by the iterator. *)
Fixpoint from_str_pairs (s : list byte) : PResult (list byte) :=
  match s with
  | high :: low :: s' =>
      let? h := hex_value high in
      let? l := hex_value low in
      let? out := from_str_pairs s' in
      Ok (zb (Z.lor (Z.shiftl h 4) l) :: out)
  | _ => Ok []
  end.

Definition ObjectId_from_str (s : list byte) : PResult ObjectId :=
  if negb (Nat.eqb (length s) 64)
  then Err (InvalidObjectId "expected 64 lowercase hex chars, got {}")
  else from_str_pairs s.

(** ** Lemmas *)

Lemma ObjectType_code_range t : 0 <= ObjectType_code t < 2 ^ 16.
Proof. destruct t; cbn; lia. Qed.

Lemma ObjectType_code_inj t1 t2 : ObjectType_code t1 = ObjectType_code t2 -> t1 = t2.
Proof. destruct t1, t2; done. Qed.

Lemma ObjectType_from_to_code t : ObjectType_from_code (ObjectType_code t) = Ok t.
Proof. by destruct t. Qed.

Lemma ObjectType_from_code_inv c t : ObjectType_from_code c = Ok t -> c = ObjectType_code t.
Proof.
  unfold ObjectType_from_code. cbn. intros H.
  repeat match type of H with
  | context [Z.eqb ?x ?y] => destruct (Z.eqb_spec x y); [inv_ok; done|]
  end; inv_ok.
Qed.

(** The preimage determines its three inputs. *)
Lemma object_id_preimage_inj t1 v1 p1 t2 v2 p2 :
  u32 v1 -> u32 v2 ->
  object_id_preimage t1 v1 p1 = object_id_preimage t2 v2 p2 ->
  t1 = t2 /\ v1 = v2 /\ p1 = p2.
Proof.
  unfold object_id_preimage, u32. intros Hv1 Hv2 H. apply app_inv_head in H.
  apply app_inj_len in H as [Ht H]; [|by rewrite !length_to_be_bytes].
  apply app_inj_len in H as [Hv H]; [|by rewrite !length_to_be_bytes].
  apply app_inj_len in H as [_ Hp]; [|by rewrite !length_to_be_bytes].
  pose proof (ObjectType_code_range t1). pose proof (ObjectType_code_range t2).
  apply to_be_bytes_inj in Ht; [|cbn; lia..]. apply to_be_bytes_inj in Hv; [|cbn; lia..].
  by apply ObjectType_code_inj in Ht.
Qed.

Lemma hex_nibbles b :
  hex_value (hex_char (Z.shiftr (bz b) 4)) = Ok (Z.shiftr (bz b) 4) /\
  hex_value (hex_char (Z.land (bz b) 15)) = Ok (Z.land (bz b) 15) /\
  zb (Z.lor (Z.shiftl (Z.shiftr (bz b) 4) 4) (Z.land (bz b) 15)) = b.
Proof. by destruct b. Qed.

Lemma hex_value_pair h l x y :
  hex_value h = Ok x -> hex_value l = Ok y ->
  hex_char (Z.shiftr (bz (zb (Z.lor (Z.shiftl x 4) y))) 4) = h /\
  hex_char (Z.land (bz (zb (Z.lor (Z.shiftl x 4) y))) 15) = l.
Proof.
  intros Hx Hy.
  assert (Hn : forall b z, hex_value b = Ok z -> 0 <= z < 16 /\ hex_char z = b).
  { intros b z Hb. destruct b; cbn in Hb; try discriminate Hb; injection Hb as <-;
      by split; [lia|]. }
  destruct (Hn _ _ Hx) as [Rx Ex], (Hn _ _ Hy) as [Ry Ey].
  rewrite bz_zb. rewrite <- Ex, <- Ey. clear Hx Hy Hn Ex Ey.
  assert (Hor : Z.lor (Z.shiftl x 4) y = x * 16 + y).
  { rewrite Z.shiftl_mul_pow2 by lia. pose proof (Z.add_lor_land (x * 2 ^ 4) y) as Hsum.
    replace (Z.land (x * 2 ^ 4) y) with 0 in Hsum; [lia|].
    symmetry. apply Z.bits_inj'. intros n Hn. rewrite Z.land_spec, Z.bits_0.
    destruct (Z.ltb_spec n 4).
    - by rewrite Z.mul_pow2_bits_low.
    - rewrite (Z.bits_above_log2 y), andb_false_r; [done|lia|].
      destruct (Z.eq_dec y 0) as [->|]; [cbn; lia|].
      apply Z.log2_lt_pow2; [lia|]. apply Z.lt_le_trans with (2 ^ 4); [lia|].
      apply Z.pow_le_mono_r; lia. }
  rewrite Hor, (Z.mod_small (x * 16 + y)) by lia.
  rewrite Z.shiftr_div_pow2 by lia. change 15 with (Z.ones 4). rewrite Z.land_ones by lia.
  change (2 ^ 4) with 16. rewrite Z.div_add_l, Z.div_small, Z.add_0_r by lia.
  by rewrite Z.add_comm, Z_mod_plus_full, Z.mod_small by lia.
Qed.

Lemma from_str_pairs_to_hex bs : from_str_pairs (to_hex bs) = Ok bs.
Proof.
  induction bs as [|b bs IH]; [done|]. cbn [to_hex from_str_pairs].
  destruct (hex_nibbles b) as (-> & -> & ->). by rewrite IH.
Qed.

Lemma from_str_pairs_inv n : forall s bs,
  length s = (2 * n)%nat -> from_str_pairs s = Ok bs -> to_hex bs = s /\ length bs = n.
Proof.
  induction n as [|n IH]; intros s bs Hl H.
  - destruct s; [|cbn in Hl; lia]. cbn in H. by inv_ok.
  - destruct s as [|h [|l s]]; cbn in Hl; try lia. cbn [from_str_pairs] in H. inv_ok.
    destruct (IH s _ ltac:(lia) ltac:(eassumption)) as [<- <-]. cbn [to_hex length].
    by destruct (hex_value_pair h l _ _ ltac:(eassumption) ltac:(eassumption)) as [-> ->].
Qed.

(** ** Properties *)

(** An object identifier commits to the object type, the schema version and the canonical
    payload: two objects with the same identifier agree on all three, or their identity preimages
    are a SHA-256 collision. *)
Theorem object_id_commits `{Sha256} t1 v1 p1 t2 v2 p2 :
  u32 v1 -> u32 v2 ->
  from_canonical_payload t1 v1 p1 = from_canonical_payload t2 v2 p2 ->
  (t1 = t2 /\ v1 = v2 /\ p1 = p2) \/
  sha256_collision (object_id_preimage t1 v1 p1) (object_id_preimage t2 v2 p2).
Proof.
  intros Hv1 Hv2 [H1|?]%sha256_inj_or_collision; [left|by right].
  by apply object_id_preimage_inj.
Qed.

Lemma object_id_commits_witness :
  u32 1 /\
  ((Blob = Blob /\ 1 = 1 /\ [x61] = [x61]) \/
   @sha256_collision hash_mod_p (object_id_preimage Blob 1 [x61]) (object_id_preimage Blob 1 [x61])).
Proof.
  split; [unfold u32; lia|].
  apply (@object_id_commits hash_mod_p Blob 1 [x61] Blob 1 [x61]);
    [unfold u32; lia | unfold u32; lia | reflexivity].
Defined.

(** Hex text and identifiers are in bijection: [from_str] accepts exactly the 64-character
    lowercase hex rendering of a 32-byte identifier and returns that identifier; upper-case,
    truncated and non-hex text is refused. *)
Theorem ObjectId_from_str_iff s id :
  ObjectId_from_str s = Ok id <-> wf_id id /\ s = ObjectId_to_hex id.
Proof.
  unfold ObjectId_from_str, ObjectId_to_hex, wf_id. split.
  - destruct (Nat.eqb_spec (length s) 64) as [Hl|]; [|discriminate]. intros H.
    by destruct (from_str_pairs_inv 32 s id Hl H) as [<- ->].
  - intros [Hl ->]. rewrite length_to_hex, Hl. apply from_str_pairs_to_hex.
Qed.
