(* ===== verification/RepoPath.v ===== *)
(** * Repository paths (crates/prikk-object/src/path.rs, crates/prikk-replay/src/path.rs)

    The lexical grammar of repository-relative paths, the one case-folding definition every
    collision check goes through, and [RepoPath] with [validate_no_path_collisions].

    The contract is stated against an abstract lexical resolution ([lexical_resolve]): the walk a
    filesystem makes over a path's components, where [.] stays, [..] goes up and an empty component
    is skipped.  A path the validator accepts resolves to itself, so it can neither escape the root
    nor alias another path. *)

From S2P Require Import Prelude PrikkError Utf8.

(** ** Operations of [str] *)

Definition slash : byte := x2f.
Definition dot : byte := x2e.

(** [u8::to_ascii_lowercase] and [u8::to_ascii_uppercase]. *)
Definition to_lower (b : byte) : byte := if in_range 65 90 b then zb (bz b + 32) else b.
Definition to_upper (b : byte) : byte := if in_range 97 122 b then zb (bz b - 32) else b.

(** [s.split(sep)], collected: always at least one piece. *)
Fixpoint split_on (sep : byte) (s : list byte) : list (list byte) :=
  match s with
  | [] => [[]]
  | b :: s' =>
      if decide (b = sep) then [] :: split_on sep s'
      else
        match split_on sep s' with
        | piece :: rest => (b :: piece) :: rest
        | [] => [[b]]
        end
  end.

(** [pieces.join(sep)]. *)
Fixpoint join_on (sep : byte) (pieces : list (list byte)) : list byte :=
  match pieces with
  | [] => []
  | [p] => p
  | p :: rest => p ++ sep :: join_on sep rest
  end.

Definition contains_byte (b : byte) (s : list byte) : bool := existsb (fun c => bool_decide (c = b)) s.
Definition starts_with_byte (b : byte) (s : list byte) : bool :=
  match s with c :: _ => bool_decide (c = b) | [] => false end.
Definition ends_with_byte (b : byte) (s : list byte) : bool :=
  match last s with Some c => bool_decide (c = b) | None => false end.

(** [a.eq_ignore_ascii_case(b)]. *)
Definition eq_ignore_ascii_case (a b : list byte) : bool :=
  bool_decide (map to_lower a = map to_lower b).

(** ** The validator *)

Definition ascii_fold (name : list byte) : list byte := map to_lower name.

Definition MAX_COMPONENT_LEN : nat := 255.
Definition MAX_TOTAL_LEN : nat := 1024.

Definition windows_reserved_names : list (list byte) :=
  map bytes_of_string
    ["CON"; "PRN"; "AUX"; "NUL";
     "COM1"; "COM2"; "COM3"; "COM4"; "COM5"; "COM6"; "COM7"; "COM8"; "COM9";
     "LPT1"; "LPT2"; "LPT3"; "LPT4"; "LPT5"; "LPT6"; "LPT7"; "LPT8"; "LPT9"]%string.

Definition is_windows_reserved_name (component : list byte) : bool :=
  let base := map to_upper (default component (head (split_on dot component))) in
  bool_decide (base ∈ windows_reserved_names).

Definition validate_component (component : list byte) : PResult unit :=
  if bool_decide (component = []) then Err (InvalidName "empty path components are not allowed")
  else if (MAX_COMPONENT_LEN <? length component)%nat
  then Err (InvalidName "path component exceeds {MAX_COMPONENT_LEN} bytes ({} bytes)")
  else if bool_decide (component = [dot]) || bool_decide (component = [dot; dot])
  then Err (InvalidName "dot path components are not allowed")
  else if ends_with_byte x20 component || ends_with_byte dot component
  then Err (InvalidName "path components must not end with space or dot")
  else if is_windows_reserved_name component
  then Err (InvalidName "Windows reserved path component is not allowed: {component}")
  else Ok tt.

(** The body of the loop over [value.split('/').enumerate()]. *)
Definition check_component (index : nat) (component : list byte) : PResult unit :=
  if Nat.eqb index 0 && eq_ignore_ascii_case component (bytes_of_string ".prikk")
  then Err (InvalidName "repository paths must not target the .prikk metadata directory")
  else validate_component component.

Fixpoint check_components (index : nat) (components : list (list byte)) : PResult unit :=
  match components with
  | [] => Ok tt
  | component :: rest =>
      let? _ := check_component index component in check_components (S index) rest
  end.

Definition validate_repo_path (value : list byte) : PResult unit :=
  if bool_decide (value = []) then Err (InvalidName "repository path must not be empty")
  else if (MAX_TOTAL_LEN <? length value)%nat
  then Err (InvalidName "repository path exceeds {MAX_TOTAL_LEN} bytes ({} bytes)")
  else if starts_with_byte slash value then Err (InvalidName "absolute paths are not allowed")
  else if contains_byte x5c value
  then Err (InvalidName "backslashes are not allowed in repository paths")
  else if contains_byte x3a value
  then Err (InvalidName "colon characters are not allowed in repository paths")
  else if negb (is_ascii value) then Err (NonAsciiRepoPath value)
  else if existsb (fun b => (bz b <? 32) || (bz b =? 127)) value
  then Err (InvalidName "control characters are not allowed in repository paths")
  else check_components 0 (split_on slash value).

(** ** [RepoPath] *)

(** The newtype [RepoPath(String)]; every value comes from [RepoPath_parse]. *)
Abbreviation RepoPath := (list byte) (only parsing).

Definition RepoPath_parse (value : list byte) : PResult RepoPath :=
  let? _ := validate_repo_path value in Ok value.

Definition valid_path (p : list byte) : Prop := validate_repo_path p = Ok tt.

Lemma RepoPath_parse_valid p : valid_path p -> RepoPath_parse p = Ok p.
Proof. unfold valid_path, RepoPath_parse. by intros ->. Qed.
Lemma RepoPath_parse_inv v p : RepoPath_parse v = Ok p -> p = v /\ valid_path v.
Proof. unfold valid_path, RepoPath_parse. intros H. destruct (validate_repo_path v) as [[]|] eqn:?; by inv_ok. Qed.

(** One iteration of [validate_no_path_collisions] over its two [BTreeSet]s. *)
Definition collision_step (sets : gset RepoPath * gset (list byte)) (path : RepoPath)
  : PResult (gset RepoPath * gset (list byte)) :=
  let '(exact, folded) := sets in
  if bool_decide (path ∈ exact) then Err (InvalidName "duplicate repository path: {exact_value}")
  else if bool_decide (ascii_fold path ∈ folded)
  then Err (InvalidName "case-insensitive path collision involving: {exact_value}")
  else Ok ({[path]} ∪ exact, {[ascii_fold path]} ∪ folded).

Definition validate_no_path_collisions (paths : list RepoPath) : PResult unit :=
  let? _ := foldM collision_step (∅, ∅) paths in Ok tt.

(** ** Abstract lexical resolution *)

(** The walk over path components from directory [here] (innermost first); [None] is an escape
    above the root. *)
Fixpoint lexical_walk (here : list (list byte)) (components : list (list byte))
  : option (list (list byte)) :=
  match components with
  | [] => Some here
  | c :: rest =>
      if bool_decide (c = []) || bool_decide (c = [dot]) then lexical_walk here rest
      else if bool_decide (c = [dot; dot]) then
        match here with
        | [] => None
        | _ :: up => lexical_walk up rest
        end
      else lexical_walk (c :: here) rest
  end.

Definition lexical_resolve (path : list byte) : option (list (list byte)) :=
  reverse <$> lexical_walk [] (split_on slash path).

(** ** Lemmas *)

Lemma split_on_nonempty sep s : split_on sep s <> [].
Proof. destruct s as [|b s]; cbn; [done|]. case_decide; [done|]. by destruct (split_on sep s). Qed.

Lemma join_split_on sep s : join_on sep (split_on sep s) = s.
Proof.
  induction s as [|b s IH]; [done|]. cbn [split_on].
  pose proof (split_on_nonempty sep s). case_decide as Hb.
  - subst b. destruct (split_on sep s); [done|]. cbn in *. by rewrite IH.
  - destruct (split_on sep s) as [|p [|q rest]]; cbn in *; [done|by subst|by subst].
Qed.

Lemma check_components_ok i cs :
  check_components i cs = Ok tt ->
  (forall c, c ∈ cs -> validate_component c = Ok tt) /\
  (forall c, i = 0%nat -> head cs = Some c -> eq_ignore_ascii_case c (bytes_of_string ".prikk") = false).
Proof.
  revert i. induction cs as [|c cs IH]; intros i; cbn [check_components]; intros H.
  - split; [by intros c ?%elem_of_nil|done].
  - unfold check_component in H.
    destruct (Nat.eqb i 0 && _) eqn:Hi in H; [discriminate|].
    destruct (validate_component c) as [[]|] eqn:Hc; [|discriminate].
    apply IH in H as [H _]. split.
    + intros c' [->|?]%elem_of_cons; eauto.
    + intros c' -> [= <-]. by rewrite Nat.eqb_refl in Hi.
Qed.

Lemma validate_repo_path_components v :
  valid_path v ->
  (forall c, c ∈ split_on slash v -> validate_component c = Ok tt) /\
  (forall c, head (split_on slash v) = Some c ->
     eq_ignore_ascii_case c (bytes_of_string ".prikk") = false).
Proof.
  unfold valid_path, validate_repo_path. intros H. repeat case_match; try discriminate.
  apply check_components_ok in H as [Hall Htop]. split; eauto.
Qed.

Lemma valid_path_rust_string v : valid_path v -> rust_string v.
Proof.
  unfold valid_path, validate_repo_path. intros H. repeat case_match; try discriminate.
  apply is_ascii_from_utf8. by destruct (is_ascii v).
Qed.

Lemma valid_path_len v : valid_path v -> (0 < length v <= MAX_TOTAL_LEN)%nat.
Proof.
  unfold valid_path, validate_repo_path. intros H.
  case_bool_decide; [discriminate|]. destruct (Nat.ltb_spec MAX_TOTAL_LEN (length v)); [discriminate|].
  destruct v; [done|]. cbn [length] in *. lia.
Qed.

Lemma lexical_walk_plain cs here :
  (forall c, c ∈ cs -> c <> [] /\ c <> [dot] /\ c <> [dot; dot]) ->
  lexical_walk here cs = Some (reverse cs ++ here).
Proof.
  revert here. induction cs as [|c cs IH]; intros here H; [done|]. cbn [lexical_walk].
  destruct (H c) as (H1 & H2 & H3); [by left|].
  rewrite !bool_decide_eq_false_2 by done. cbn [orb].
  rewrite IH by (intros; apply H; by right). by rewrite reverse_cons, <- app_assoc.
Qed.

Lemma validate_component_ok c :
  validate_component c = Ok tt ->
  c <> [] /\ c <> [dot] /\ c <> [dot; dot] /\ (length c <= MAX_COMPONENT_LEN)%nat /\
  is_windows_reserved_name c = false.
Proof.
  unfold validate_component. intros H. repeat case_match; try discriminate.
  repeat match goal with
  | H : bool_decide _ = false |- _ => apply bool_decide_eq_false in H
  | H : _ || _ = false |- _ => apply orb_false_iff in H as [? ?]
  | H : (_ <? _)%nat = false |- _ => apply Nat.ltb_ge in H
  end. done.
Qed.

Lemma collision_fold_sets paths : forall exact folded,
  (forall p, p ∈ exact -> ascii_fold p ∈ folded) ->
  (is_ok (foldM collision_step (exact, folded) paths) = true <->
   NoDup (map ascii_fold paths) /\ forall p, p ∈ paths -> ascii_fold p ∉ folded).
Proof.
  induction paths as [|p paths IH]; intros exact folded Hinv; cbn [foldM].
  - split; [|done]. split; [constructor|]. by intros p ?%elem_of_nil.
  - unfold collision_step at 1. case_bool_decide as He; [|case_bool_decide as Hf].
    + split; [done|]. intros [_ H]. destruct (H p); [by left|by apply Hinv].
    + split; [done|]. intros [_ H]. by destruct (H p); [left|].
    + rewrite IH by (intros q; rewrite !elem_of_union, !elem_of_singleton;
        intros [->|Hq]; [by left|right; by apply Hinv]).
      cbn [map]. rewrite NoDup_cons. setoid_rewrite elem_of_cons. setoid_rewrite not_elem_of_union.
      setoid_rewrite not_elem_of_singleton. split.
      * intros [Hnd H]. split; [split; [|done]|].
        -- intros Hin. apply list_elem_of_fmap in Hin as (q & Hq & Hq').
           destruct (H q Hq') as [? _]. congruence.
        -- intros q [->|Hq]; [done|]. by apply H.
      * intros [[Hni Hnd] H]. split; [done|]. intros q Hq. split; [|apply H; by right].
        intros Heq. apply Hni. rewrite <- Heq. by apply list_elem_of_fmap_2.
Qed.

(** ** Properties *)

(** Path safety.  A path the validator accepts resolves, component by component, to exactly
    its own components: it cannot leave the repository root, contains no dot or empty component,
    and its text is determined by where it resolves.  Its components are at most 255 bytes, none
    is a Windows device name, and the first one is not the metadata directory [.prikk] in any
    letter case. *)
Theorem validate_repo_path_safe v :
  validate_repo_path v = Ok tt ->
  exists cs,
    lexical_resolve v = Some cs /\ v = join_on slash cs /\
    (forall c, c ∈ cs -> (0 < length c <= MAX_COMPONENT_LEN)%nat /\ is_windows_reserved_name c = false) /\
    exists top rest, cs = top :: rest /\ ascii_fold top <> bytes_of_string ".prikk".
Proof.
  intros H. destruct (validate_repo_path_components v H) as [Hc Htop].
  assert (Hok : forall c, c ∈ split_on slash v -> c <> [] /\ c <> [dot] /\ c <> [dot; dot] /\
    (length c <= MAX_COMPONENT_LEN)%nat /\ is_windows_reserved_name c = false).
  { intros c Hin. by apply validate_component_ok, Hc. }
  exists (split_on slash v). split; [|split; [by rewrite join_split_on|split]].
  - unfold lexical_resolve. rewrite lexical_walk_plain.
    + cbn. by rewrite app_nil_r, reverse_involutive.
    + intros c (? & ? & ? & _)%Hok. done.
  - intros c (Hne & _ & _ & Hl & Hw)%Hok. destruct c; [done|]. cbn [length] in *. split; [lia|done].
  - destruct (split_on slash v) as [|top rest] eqn:Hs; [by apply split_on_nonempty in Hs|].
    exists top, rest. split; [done|]. specialize (Htop top eq_refl).
    unfold eq_ignore_ascii_case in Htop. by apply bool_decide_eq_false in Htop.
Qed.

Lemma validate_repo_path_safe_witness :
  exists cs, lexical_resolve (bytes_of_string "src/lib.rs") = Some cs.
Proof.
  destruct (validate_repo_path_safe (bytes_of_string "src/lib.rs") eq_refl) as (cs & H & _).
  by exists cs.
Defined.

(** [validate_no_path_collisions] accepts a list of paths exactly when no two entries are equal
    up to ASCII case. *)
Theorem validate_no_path_collisions_iff paths :
  validate_no_path_collisions paths = Ok tt <-> NoDup (map ascii_fold paths).
Proof.
  unfold validate_no_path_collisions.
  pose proof (collision_fold_sets paths ∅ ∅ ltac:(set_solver)) as Hiff.
  destruct (foldM collision_step (∅, ∅) paths); cbn in Hiff; set_solver.
Qed.

Example traversal_refused :
  validate_repo_path (bytes_of_string "../outside") = Err (InvalidName "dot path components are not allowed").
Proof. reflexivity. Qed.
Example device_name_refused : is_ok (validate_repo_path (bytes_of_string "a/con.txt")) = false.
Proof. reflexivity. Qed.
Example metadata_refused : is_ok (validate_repo_path (bytes_of_string ".PriKK/x")) = false.
Proof. reflexivity. Qed.
