(* ===== verification/Signature.v ===== *)
(** * Signatures (crates/prikk-object/src/signature.rs)

    Signature records, key-id grammar, the role-bound preimage [signed_bytes] and the canonical
    order of an envelope's signatures. *)

From S2P Require Import Prelude PrikkError Utf8 Canonical ObjectId.

Definition SIGNATURE_DOMAIN : list byte := bytes_of_string "prikk.sig.v1".
Definition SIGNATURE_KEY_ID_MAX_LEN : nat := 128.
Definition ED25519_SIGNATURE_LEN : nat := 64.

Inductive SignatureAlgorithm : Type := Ed25519.
Definition SignatureAlgorithm_code (a : SignatureAlgorithm) : Z := match a with Ed25519 => 1 end.
Definition SignatureAlgorithm_from_code (code : Z) : PResult SignatureAlgorithm :=
  if code =? 1 then Ok Ed25519
  else Err (InvalidSignature "unknown signature algorithm code: {other}").

Inductive SignerRole : Type := Author | Maintainer | Ci | Audit.
Definition SignerRole_code (r : SignerRole) : Z :=
  match r with Author => 1 | Maintainer => 2 | Ci => 3 | Audit => 4 end.
Definition SignerRole_from_code (code : Z) : PResult SignerRole :=
  if code =? 1 then Ok Author
  else if code =? 2 then Ok Maintainer
  else if code =? 3 then Ok Ci
  else if code =? 4 then Ok Audit
  else Err (InvalidSignature "unknown signer role code: {other}").

Record Signature : Type := mkSignature {
  algorithm : SignatureAlgorithm;
  key_id : list byte;
  signature_bytes : list byte;
  created_at : Z;
  signer_role : SignerRole;
}.

#[global] Instance SignatureAlgorithm_eq_dec : EqDecision SignatureAlgorithm.
Proof. solve_decision. Defined.
#[global] Instance SignerRole_eq_dec : EqDecision SignerRole.
Proof. solve_decision. Defined.
#[global] Instance Signature_eq_dec : EqDecision Signature.
Proof. solve_decision. Defined.

(** [byte.is_ascii_alphanumeric() || byte == b'-' || byte == b'_']. *)
Definition is_key_id_byte (b : byte) : bool :=
  in_range 48 57 b || in_range 65 90 b || in_range 97 122 b || (bz b =? 45) || (bz b =? 95).

Definition validate_key_id (key_id : list byte) : PResult unit :=
  if bool_decide (key_id = []) then Err (InvalidSignature "signature key_id must not be empty")
  else if (SIGNATURE_KEY_ID_MAX_LEN <? length key_id)%nat
  then Err (InvalidSignature "signature key_id must be at most {SIGNATURE_KEY_ID_MAX_LEN} bytes")
  else if negb (forallb is_key_id_byte key_id)
  then Err (InvalidSignature
              "signature key_id must contain only ASCII letters, digits, '-' or '_'")
  else Ok tt.

Definition signed_bytes (algorithm : SignatureAlgorithm) (object_type : ObjectType)
    (object_id : ObjectId) (signer_role : SignerRole) (key_id : list byte) : PResult (list byte) :=
  let? _ := validate_key_id key_id in
  let? key_id_len :=
    if zlen key_id <? 2 ^ 16 then Ok (zlen key_id)
    else Err (InvalidSignature
                "signature key_id is too long for the signature preimage length field") in
  Ok (SIGNATURE_DOMAIN ++ to_be_bytes 2 (SignatureAlgorithm_code algorithm)
        ++ to_be_bytes 2 (ObjectType_code object_type) ++ object_id
        ++ to_be_bytes 2 (SignerRole_code signer_role) ++ to_be_bytes 2 key_id_len ++ key_id).

Definition Signature_validate (s : Signature) : PResult unit :=
  let? _ := validate_key_id (key_id s) in
  if bool_decide (signature_bytes s = [])
  then Err (InvalidSignature "signature bytes must not be empty")
  else Ok tt.

Definition Signature_validate_shape (s : Signature) : PResult unit :=
  match algorithm s with
  | Ed25519 =>
      if Nat.eqb (length (signature_bytes s)) ED25519_SIGNATURE_LEN then Ok tt
      else Err (InvalidSignature "Ed25519 signature must be {ED25519_SIGNATURE_LEN} bytes, got {}")
  end.

(** [Ordering::then_with]. *)
Definition then_with (c d : comparison) : comparison := match c with Eq => d | _ => c end.

Definition canonical_cmp (a b : Signature) : comparison :=
  then_with (bytes_cmp (key_id a) (key_id b))
    (then_with (SignerRole_code (signer_role a) ?= SignerRole_code (signer_role b))
       (then_with (SignatureAlgorithm_code (algorithm a) ?= SignatureAlgorithm_code (algorithm b))
          (bytes_cmp (signature_bytes a) (signature_bytes b)))).

#[global] Instance Signature_encode : CanonicalEncode Signature := fun s w =>
  let? w := field_u32 1 (SignatureAlgorithm_code (algorithm s)) w in
  let? w := field_string 2 (key_id s) w in
  let? w := field_bytes 3 (signature_bytes s) w in
  let? w := field_u64 4 (created_at s) w in
  field_u32 5 (SignerRole_code (signer_role s)) w.

(** ** Lemmas *)

Lemma SignatureAlgorithm_from_to_code a :
  SignatureAlgorithm_from_code (SignatureAlgorithm_code a) = Ok a.
Proof. by destruct a. Qed.
Lemma SignatureAlgorithm_from_code_inv c a :
  SignatureAlgorithm_from_code c = Ok a -> c = SignatureAlgorithm_code a.
Proof. unfold SignatureAlgorithm_from_code. intros H. inv_ok. cbn. lia. Qed.
Lemma SignerRole_from_to_code r : SignerRole_from_code (SignerRole_code r) = Ok r.
Proof. by destruct r. Qed.
Lemma SignerRole_from_code_inv c r : SignerRole_from_code c = Ok r -> c = SignerRole_code r.
Proof. unfold SignerRole_from_code. intros H. inv_ok; cbn; lia. Qed.
Lemma SignatureAlgorithm_code_range a : 0 <= SignatureAlgorithm_code a < 2 ^ 16.
Proof. destruct a; cbn; lia. Qed.
Lemma SignerRole_code_range r : 0 <= SignerRole_code r < 2 ^ 16.
Proof. destruct r; cbn; lia. Qed.

Lemma validate_key_id_ok k :
  validate_key_id k = Ok tt ->
  (0 < length k <= SIGNATURE_KEY_ID_MAX_LEN)%nat /\ forallb is_key_id_byte k = true.
Proof.
  unfold validate_key_id. intros H. case_bool_decide; [discriminate|].
  destruct (Nat.ltb_spec SIGNATURE_KEY_ID_MAX_LEN (length k)); [discriminate|].
  destruct (forallb is_key_id_byte k); [|discriminate].
  destruct k; [done|]. cbn [length] in *. split; [lia|done].
Qed.

Lemma key_id_ascii k : forallb is_key_id_byte k = true -> is_ascii k = true.
Proof.
  unfold is_ascii. rewrite !forallb_forall. intros H b Hb. specialize (H b Hb).
  unfold is_key_id_byte, in_range in H. lia.
Qed.

Lemma Signature_validate_key s :
  Signature_validate s = Ok tt -> validate_key_id (key_id s) = Ok tt /\ signature_bytes s <> [].
Proof.
  unfold Signature_validate. intros H. destruct (validate_key_id (key_id s)) as [[]|]; [|discriminate].
  case_bool_decide; [discriminate|done].
Qed.

Lemma Signature_validate_shape_len s :
  Signature_validate_shape s = Ok tt -> length (signature_bytes s) = ED25519_SIGNATURE_LEN.
Proof.
  unfold Signature_validate_shape. destruct (algorithm s). intros H.
  by destruct (Nat.eqb_spec (length (signature_bytes s)) ED25519_SIGNATURE_LEN).
Qed.

Lemma then_with_opp c d : CompOpp (then_with c d) = then_with (CompOpp c) (CompOpp d).
Proof. by destruct c. Qed.
Lemma then_with_eq c d : then_with c d = Eq <-> c = Eq /\ d = Eq.
Proof. destruct c; naive_solver. Qed.
Lemma then_with_lt c d : then_with c d = Lt <-> c = Lt \/ (c = Eq /\ d = Lt).
Proof. destruct c; naive_solver. Qed.

Lemma canonical_cmp_antisym a b : canonical_cmp b a = CompOpp (canonical_cmp a b).
Proof.
  unfold canonical_cmp. rewrite !then_with_opp.
  by rewrite <- !bytes_cmp_antisym, <- !Z.compare_antisym.
Qed.

(** The canonical tuple: everything but the advisory timestamp. *)
Definition same_tuple (a b : Signature) : Prop :=
  key_id a = key_id b /\ signer_role a = signer_role b /\ algorithm a = algorithm b /\
  signature_bytes a = signature_bytes b.

Lemma canonical_cmp_eq a b : canonical_cmp a b = Eq <-> same_tuple a b.
Proof.
  unfold canonical_cmp, same_tuple. rewrite !then_with_eq, !bytes_cmp_eq, !Z.compare_eq_iff.
  destruct a as [[] ? ? ? ra], b as [[] ? ? ? rb]; cbn [key_id signer_role algorithm signature_bytes].
  destruct ra, rb; cbn; naive_solver lia.
Qed.

Lemma canonical_cmp_lt_trans a b c :
  canonical_cmp a b = Lt -> canonical_cmp b c = Lt -> canonical_cmp a c = Lt.
Proof.
  unfold canonical_cmp. rewrite !then_with_lt, !bytes_cmp_eq, !Z.compare_lt_iff, !Z.compare_eq_iff.
  intros [H1|[E1 H1]] [H2|[E2 H2]].
  - left. by eapply bytes_cmp_lt_trans.
  - rewrite <- E2. by left.
  - rewrite E1. by left.
  - right. split; [congruence|].
    destruct H1 as [?|[F1 H1]], H2 as [?|[F2 H2]]; [left; lia..|]. right. split; [lia|].
    destruct H1 as [?|[G1 H1]], H2 as [?|[G2 H2]]; [left; lia..|]. right. split; [lia|].
    by eapply bytes_cmp_lt_trans.
Qed.

Lemma canonical_cmp_eq_lt a b c : canonical_cmp a b = Eq -> canonical_cmp a c = canonical_cmp b c.
Proof.
  intros (H1 & H2 & H3 & H4)%canonical_cmp_eq. unfold canonical_cmp. by rewrite H1, H2, H3, H4.
Qed.

(** ** Properties *)

(** A signature's preimage determines what is signed: two accepted preimages are equal only for
    the same algorithm, object type, object identifier, signer role and key id, so a signature made
    in one role or under one key id never verifies for another. *)
Theorem signed_bytes_injective a1 t1 o1 r1 k1 a2 t2 o2 r2 k2 bytes :
  wf_id o1 -> wf_id o2 ->
  signed_bytes a1 t1 o1 r1 k1 = Ok bytes -> signed_bytes a2 t2 o2 r2 k2 = Ok bytes ->
  a1 = a2 /\ t1 = t2 /\ o1 = o2 /\ r1 = r2 /\ k1 = k2.
Proof.
  unfold signed_bytes, wf_id. intros W1 W2 H1 H2. inv_ok.
  apply app_inv_head in H1.
  apply app_inj_len in H1 as [Ha H1]; [|by rewrite !length_to_be_bytes].
  apply app_inj_len in H1 as [Ht H1]; [|by rewrite !length_to_be_bytes].
  apply app_inj_len in H1 as [Ho H1]; [|congruence].
  apply app_inj_len in H1 as [Hr H1]; [|by rewrite !length_to_be_bytes].
  apply app_inj_len in H1 as [_ Hk]; [|by rewrite !length_to_be_bytes].
  pose proof (ObjectType_code_range t1). pose proof (ObjectType_code_range t2).
  pose proof (SignerRole_code_range r1). pose proof (SignerRole_code_range r2).
  apply to_be_bytes_inj in Ht; [|cbn; lia..]. apply ObjectType_code_inj in Ht.
  apply to_be_bytes_inj in Hr; [|cbn; lia..].
  destruct a1, a2, r1, r2; cbn in Hr; try lia; done.
Qed.

Lemma signed_bytes_injective_witness :
  Author = Author /\ [x6b] = [x6b].
Proof.
  destruct (signed_bytes_injective Ed25519 Blob (replicate 32 x07) Author [x6b]
              Ed25519 Blob (replicate 32 x07) Author [x6b]
              (match signed_bytes Ed25519 Blob (replicate 32 x07) Author [x6b] with
               | Ok b => b | Err _ => [] end) eq_refl eq_refl eq_refl eq_refl)
    as (_ & _ & _ & H1 & H2).
  exact (conj H1 H2).
Defined.
