(* ===== verification/Envelope.v ===== *)
(** * Object envelopes (crates/prikk-object/src/envelope.rs)

    An envelope is an object's type, schema version and unsigned canonical payload, with external
    signatures kept in canonical order.  Signatures are not part of the identity. *)

From S2P Require Import Prelude PrikkError Hash Canonical ObjectId Signature.

Record SignatureEnvelopeIssues : Type := mkIssues {
  malformed_shape : bool;
  duplicate : bool;
  noncanonical_order : bool;
}.

Record ObjectEnvelope : Type := mkEnvelope {
  object_type : ObjectType;
  schema_version : Z;
  canonical_payload : list byte;
  signatures : list Signature;
}.

#[global] Instance ObjectEnvelope_eq_dec : EqDecision ObjectEnvelope.
Proof. solve_decision. Defined.

Definition unsigned (object_type : ObjectType) (schema_version : Z) (canonical_payload : list byte)
  : ObjectEnvelope := mkEnvelope object_type schema_version canonical_payload [].

Definition object_id `{Sha256} (e : ObjectEnvelope) : ObjectId :=
  from_canonical_payload (object_type e) (schema_version e) (canonical_payload e).

Definition envelope_validate (e : ObjectEnvelope) : PResult unit :=
  if schema_version e =? 0 then Err (UnsupportedFormatVersion 0)
  else for_each Signature_validate (signatures e).

Definition is_eq (c : comparison) : bool := match c with Eq => true | _ => false end.
Definition is_gt (c : comparison) : bool := match c with Gt => true | _ => false end.

Definition signature_issues (e : ObjectEnvelope) : PResult SignatureEnvelopeIssues :=
  let? _ := envelope_validate e in
  let signatures_by_tuple := sort_by canonical_cmp (signatures e) in
  Ok (mkIssues
        (existsb (fun signature => negb (is_ok (Signature_validate_shape signature))) (signatures e))
        (existsb (fun '(lhs, rhs) => is_eq (canonical_cmp lhs rhs))
           (windows2 signatures_by_tuple))
        (existsb (fun '(lhs, rhs) => is_gt (canonical_cmp lhs rhs))
           (windows2 (signatures e)))).

Definition validate_strict (e : ObjectEnvelope) : PResult unit :=
  let? issues := signature_issues e in
  if malformed_shape issues
  then Err (InvalidSignature "envelope contains a signature with malformed algorithm shape")
  else if duplicate issues
  then Err (InvalidSignature "envelope contains a duplicate signature tuple")
  else if noncanonical_order issues
  then Err (InvalidSignature "envelope signatures are not in canonical order")
  else Ok tt.

(** [add_signature(&mut self, ..)]: the new state of the receiver on success; on an error the
    receiver is unchanged. *)
Definition add_signature (e : ObjectEnvelope) (signature : Signature) : PResult ObjectEnvelope :=
  let? _ := validate_strict e in
  let? _ := Signature_validate signature in
  let? _ := Signature_validate_shape signature in
  match binary_search_by canonical_cmp signature (signatures e) with
  | Ok _ => Err (InvalidSignature "envelope contains a duplicate signature tuple")
  | Err index =>
      Ok (mkEnvelope (object_type e) (schema_version e) (canonical_payload e)
            (take index (signatures e) ++ signature :: drop index (signatures e)))
  end.

#[global] Instance ObjectEnvelope_encode : CanonicalEncode ObjectEnvelope := fun e w =>
  let? _ := validate_strict e in
  let? w := field_u32 1 (ObjectType_code (object_type e)) w in
  let? w := field_u32 2 (schema_version e) w in
  let? w := field_bytes 3 (canonical_payload e) w in
  repeated_record 4 (signatures e) w.

(** ** Lemmas *)

Lemma envelope_validate_ok e :
  envelope_validate e = Ok tt <->
  schema_version e <> 0 /\ Forall (fun s => Signature_validate s = Ok tt) (signatures e).
Proof.
  unfold envelope_validate. rewrite <- for_each_ok.
  destruct (Z.eqb_spec (schema_version e) 0); naive_solver.
Qed.

(** The declarative reading of [validate_strict]. *)
Definition strict_envelope (e : ObjectEnvelope) : Prop :=
  schema_version e <> 0 /\
  Forall (fun s => Signature_validate s = Ok tt /\ Signature_validate_shape s = Ok tt) (signatures e) /\
  ascending canonical_cmp (signatures e).

Lemma existsb_shape l :
  existsb (fun s => negb (is_ok (Signature_validate_shape s))) l = false <->
  Forall (fun s => Signature_validate_shape s = Ok tt) l.
Proof.
  induction l as [|s l IH]; cbn; [by split|]. rewrite orb_false_iff, Forall_cons, IH.
  destruct (Signature_validate_shape s) as [[]|]; cbn; naive_solver.
Qed.

Lemma existsb_windows (f : comparison -> bool) l :
  existsb (fun '(x, y) => f (canonical_cmp x y)) l = false <->
  Forall (fun '(x, y) => f (canonical_cmp x y) = false) l.
Proof.
  induction l as [|[x y] l IH]; cbn; [by split|]. by rewrite orb_false_iff, Forall_cons, IH.
Qed.

Lemma strict_order_iff l :
  existsb (fun '(x, y) => is_eq (canonical_cmp x y)) (windows2 (sort_by canonical_cmp l)) = false /\
  existsb (fun '(x, y) => is_gt (canonical_cmp x y)) (windows2 l) = false <->
  ascending canonical_cmp l.
Proof.
  rewrite (existsb_windows is_eq), (existsb_windows is_gt).
  rewrite (ascending_windows canonical_cmp canonical_cmp_lt_trans). split.
  - intros [He Hg]. rewrite (sort_by_sorted canonical_cmp canonical_cmp_antisym) in He.
    + rewrite Forall_forall in *. intros [x y] Hin. specialize (He _ Hin). specialize (Hg _ Hin).
      cbn in *. by destruct (canonical_cmp x y).
    + eapply Forall_impl; [exact Hg|]. intros [x y]. by destruct (canonical_cmp x y).
  - intros Ha. rewrite (sort_by_sorted canonical_cmp canonical_cmp_antisym).
    + split; (eapply Forall_impl; [exact Ha|]); intros [x y]; by destruct (canonical_cmp x y).
    + eapply Forall_impl; [exact Ha|]. intros [x y]. by destruct (canonical_cmp x y).
Qed.

Lemma validate_strict_iff e : validate_strict e = Ok tt <-> strict_envelope e.
Proof.
  unfold validate_strict, signature_issues, strict_envelope. rewrite Forall_and.
  destruct (envelope_validate e) as [[]|] eqn:Hv.
  - apply envelope_validate_ok in Hv as [Hs Hv]. cbn [malformed_shape duplicate noncanonical_order].
    rewrite <- existsb_shape, <- strict_order_iff.
    destruct (existsb (fun s => _) (signatures e)),
      (existsb (fun '(x, y) => is_eq _) _), (existsb (fun '(x, y) => is_gt _) _); naive_solver.
  - split; [done|]. intros (Hs & [H1 _] & _).
    rewrite (proj2 (envelope_validate_ok e) (conj Hs H1)) in Hv. done.
Qed.

Lemma add_signature_spec `{Sha256} e s e' :
  add_signature e s = Ok e' ->
  object_id e' = object_id e /\ validate_strict e' = Ok tt /\
  signatures e' ≡ₚ s :: signatures e /\
  Forall (fun old => ~ same_tuple old s) (signatures e).
Proof.
  unfold add_signature. intros Hadd.
  destruct (validate_strict e) as [[]|] eqn:Hst; [|discriminate].
  destruct (Signature_validate s) as [[]|] eqn:Hv; [|discriminate].
  destruct (Signature_validate_shape s) as [[]|] eqn:Hsh; [|discriminate].
  destruct (binary_search_by canonical_cmp s (signatures e)) as [i|i] eqn:Hb; [discriminate|].
  apply Ok_inj in Hadd as <-. apply validate_strict_iff in Hst as (Hz & Hall & Ha).
  destruct (binary_search_by_err canonical_cmp canonical_cmp_antisym canonical_cmp_lt_trans _ _ _ Ha Hb)
    as [Ha' Hne].
  assert (Hperm : take i (signatures e) ++ s :: drop i (signatures e) ≡ₚ s :: signatures e).
  { by rewrite <- Permutation_middle, take_drop. }
  split; [done|]. split; [|split; [done|]].
  - apply validate_strict_iff. split; [done|]. split; [|done]. cbn [signatures].
    rewrite Hperm. by constructor.
  - eapply Forall_impl; [exact Hne|]. cbn. intros old Ho Ht. by apply Ho, canonical_cmp_eq.
Qed.

(** A strict envelope accepts every valid signature whose tuple it does not hold yet. *)
Lemma add_signature_total e s :
  strict_envelope e -> Signature_validate s = Ok tt -> Signature_validate_shape s = Ok tt ->
  is_ok (binary_search_by canonical_cmp s (signatures e)) = false ->
  exists e', add_signature e s = Ok e' /\ object_type e' = object_type e /\
    schema_version e' = schema_version e /\ canonical_payload e' = canonical_payload e.
Proof.
  intros Hs%validate_strict_iff Hv Hsh Hb. unfold add_signature. rewrite Hs, Hv, Hsh.
  destruct (binary_search_by canonical_cmp s (signatures e)); [done|]. by eexists.
Qed.

(** ** Properties *)

(** Strict validation accepts an envelope exactly when its schema version is nonzero, every
    signature has a valid key id, nonempty bytes and the 64-byte Ed25519 shape, and the signatures
    are strictly ascending by their canonical tuple (so no tuple occurs twice). *)
Theorem validate_strict_correct e :
  validate_strict e = Ok tt <->
  schema_version e <> 0 /\
  Forall (fun s => Signature_validate s = Ok tt /\
                   length (signature_bytes s) = ED25519_SIGNATURE_LEN) (signatures e) /\
  ascending canonical_cmp (signatures e).
Proof.
  rewrite validate_strict_iff. unfold strict_envelope.
  enough (Hs : forall s, Signature_validate_shape s = Ok tt <->
                         length (signature_bytes s) = ED25519_SIGNATURE_LEN).
  { setoid_rewrite Hs. done. }
  intros s. split; [apply Signature_validate_shape_len|]. unfold Signature_validate_shape.
  intros ->. by destruct (algorithm s).
Qed.

(** Adding a signature never changes the object's identity and keeps the envelope strictly
    valid: on success the new list is the old one with the signature inserted, every strict
    condition still holds, and no other signature shared its tuple. *)
Theorem add_signature_preserves `{Sha256} e s e' :
  add_signature e s = Ok e' ->
  object_id e' = object_id e /\ validate_strict e' = Ok tt /\
  signatures e' ≡ₚ s :: signatures e /\
  Forall (fun old => ~ same_tuple old s) (signatures e).
Proof. apply add_signature_spec. Qed.

Definition witness_signature (k : byte) : Signature :=
  mkSignature Ed25519 [k] (replicate 64 x01) 7 Author.

Lemma add_signature_preserves_witness :
  exists e', add_signature (mkEnvelope Blob 1 [x00] [witness_signature x62]) (witness_signature x61)
             = Ok e' /\ validate_strict e' = Ok tt.
Proof.
  eexists. split; [vm_compute; reflexivity|].
  eapply (@add_signature_preserves hash_mod_p
            (mkEnvelope Blob 1 [x00] [witness_signature x62]) (witness_signature x61)).
  vm_compute. reflexivity.
Defined.
