(* ===== verification/ByteCursor.v ===== *)
(** * The checked byte cursor (crates/prikk-store/src/foundation/byte_cursor.rs)

    The cursor every persistent file codec reads through.  A reader is a function from a cursor to
    a value and the advanced cursor.  Its contract has two halves: [reads p enc a] says that [p]
    consumes exactly the bytes [enc] and returns [a] wherever they stand, and [consumes p E] says
    that whatever [p] returns, it consumed exactly its encoding [E a].  A codec is correct when its
    reader has both for its writer. *)

From S2P Require Import Prelude PrikkError Utf8.

Record ByteCursor : Type := mkByteCursor {
  bc_bytes : list byte;
  bc_pos : Z;
}.

Definition ByteCursor_new (bytes : list byte) : ByteCursor := mkByteCursor bytes 0.

Definition bounded_capacity (c : ByteCursor) (count min_element_len : Z) : Z :=
  let remaining := Z.max 0 (zlen (bc_bytes c) - bc_pos c) in
  Z.min count (remaining / Z.max min_element_len 1).

Definition is_finished (c : ByteCursor) : bool := bc_pos c =? zlen (bc_bytes c).

Definition Reader (A : Type) : Type := ByteCursor -> PResult (A * ByteCursor).

Definition bc_read_exact (len : Z) : Reader (list byte) := fun c =>
  let end_ := bc_pos c + len in
  if usize_max <? end_ then Err (MalformedData "record length overflow")
  else if zlen (bc_bytes c) <? end_ then Err (MalformedData "unexpected end of record")
  else Ok (take (Z.to_nat len) (drop (Z.to_nat (bc_pos c)) (bc_bytes c)),
           mkByteCursor (bc_bytes c) end_).

Definition bc_read_array (n : Z) : Reader (list byte) := bc_read_exact n.

Definition bc_read_u16 : Reader Z := fun c =>
  let? '(bs, c) := bc_read_array 2 c in Ok (from_be_bytes bs, c).
Definition bc_read_u32 : Reader Z := fun c =>
  let? '(bs, c) := bc_read_array 4 c in Ok (from_be_bytes bs, c).
Definition bc_read_u64 : Reader Z := fun c =>
  let? '(bs, c) := bc_read_array 8 c in Ok (from_be_bytes bs, c).

Definition bc_read_string_u16 : Reader (list byte) := fun c =>
  let? '(len, c) := bc_read_u16 c in
  let? '(bytes, c) := bc_read_exact len c in
  if from_utf8 bytes then Ok (bytes, c) else Err (MalformedData "invalid utf-8 string: {err}").

(** [usize::try_from] of a 32- or 64-bit length cannot fail on a 64-bit target. *)
Definition bc_read_bytes_u32 : Reader (list byte) := fun c =>
  let? '(len, c) := bc_read_u32 c in
  if usize_max <? len then Err (MalformedData "u32 length does not fit usize")
  else bc_read_exact len c.

Definition bc_read_bytes_u64 : Reader (list byte) := fun c =>
  let? '(len, c) := bc_read_u64 c in
  if usize_max <? len then Err (MalformedData "u64 length does not fit usize")
  else bc_read_exact len c.

(** [for _ in 0..count { out.push(p(cursor)?) }]. *)
Fixpoint bc_read_n {A} (p : Reader A) (count : nat) (c : ByteCursor)
  : PResult (list A * ByteCursor) :=
  match count with
  | O => Ok ([], c)
  | S n =>
      let? '(a, c) := p c in
      let? '(rest, c) := bc_read_n p n c in
      Ok (a :: rest, c)
  end.

(** ** The contract of a reader *)

(** The cursor stands in front of [rest], over a buffer that fits the address space. *)
Definition standing (c : ByteCursor) (rest : list byte) : Prop :=
  0 <= bc_pos c <= zlen (bc_bytes c) /\ zlen (bc_bytes c) < 2 ^ 64 /\
  drop (Z.to_nat (bc_pos c)) (bc_bytes c) = rest.

Definition reads {A} (p : Reader A) (enc : list byte) (a : A) : Prop :=
  forall c rest, standing c (enc ++ rest) -> exists c', p c = Ok (a, c') /\ standing c' rest.

Definition consumes {A} (p : Reader A) (E : A -> list byte) (I : A -> Prop) : Prop :=
  forall c rest a c', standing c rest -> p c = Ok (a, c') ->
    exists post, rest = E a ++ post /\ standing c' post /\ I a.

Lemma standing_new bs : zlen bs < 2 ^ 64 -> standing (ByteCursor_new bs) bs.
Proof. intros. split; [|done]. cbn. pose proof (zlen_nonneg bs). lia. Qed.

Lemma standing_len c rest : standing c rest -> zlen (bc_bytes c) = bc_pos c + zlen rest.
Proof. intros (? & ? & <-). unfold zlen in *. rewrite length_drop. lia. Qed.

Lemma standing_finished c rest : standing c rest -> is_finished c = bool_decide (rest = []).
Proof.
  intros Hs. apply standing_len in Hs. unfold is_finished.
  case_bool_decide as Hr; [subst; rewrite zlen_nil in Hs; lia|].
  destruct rest; [done|]. rewrite zlen_cons in Hs. pose proof (zlen_nonneg rest). lia.
Qed.

Lemma reads_exact v : reads (bc_read_exact (zlen v)) v v.
Proof.
  intros c rest Hs. pose proof (standing_len _ _ Hs) as Hl. destruct Hs as (Hp & Hb & Hd).
  rewrite zlen_app in Hl. pose proof (zlen_nonneg v). pose proof (zlen_nonneg rest).
  unfold bc_read_exact, usize_max.
  destruct (Z.ltb_spec (2 ^ 64 - 1) (bc_pos c + zlen v)); [lia|].
  destruct (Z.ltb_spec (zlen (bc_bytes c)) (bc_pos c + zlen v)); [lia|].
  eexists. split; [rewrite Hd, take_app_length' by (unfold zlen; lia); reflexivity|].
  split; cbn [bc_pos bc_bytes]; [lia|]. split; [done|].
  replace (Z.to_nat (bc_pos c + zlen v)) with (Z.to_nat (bc_pos c) + length v)%nat
    by (unfold zlen; lia).
  by rewrite <- drop_drop, Hd, drop_app_length.
Qed.

Lemma consumes_exact len :
  0 <= len -> consumes (bc_read_exact len) (fun v => v) (fun v => zlen v = len).
Proof.
  intros Hl c rest v c' (Hp & Hb & Hd) H. unfold bc_read_exact in H.
  destruct (Z.ltb_spec usize_max (bc_pos c + len)); [discriminate|].
  destruct (Z.ltb_spec (zlen (bc_bytes c)) (bc_pos c + len)); [discriminate|].
  apply Ok_inj in H. apply pair_equal_spec in H as [<- <-]. subst rest.
  exists (drop (Z.to_nat len) (drop (Z.to_nat (bc_pos c)) (bc_bytes c))).
  rewrite take_drop. unfold standing. cbn [bc_pos bc_bytes]. unfold zlen in *.
  rewrite length_take, length_drop, drop_drop. repeat split; try lia. f_equal. lia.
Qed.

Lemma reads_be n z (p := fun c => let? '(bs, c) := bc_read_array (Z.of_nat n) c in Ok (from_be_bytes bs, c)) :
  0 <= z < 256 ^ Z.of_nat n -> reads p (to_be_bytes n z) z.
Proof.
  intros Hz c rest Hs. destruct (reads_exact (to_be_bytes n z) c rest Hs) as (c' & Hr & Hs').
  rewrite zlen_to_be_bytes in Hr. exists c'. unfold p, bc_read_array. rewrite Hr.
  by rewrite from_to_be_bytes_small.
Qed.

Lemma consumes_be n (p := fun c => let? '(bs, c) := bc_read_array (Z.of_nat n) c in Ok (from_be_bytes bs, c)) :
  consumes p (to_be_bytes n) (fun z => 0 <= z < 256 ^ Z.of_nat n).
Proof.
  intros c rest z c' Hs H. unfold p, bc_read_array in H.
  destruct (bc_read_exact (Z.of_nat n) c) as [[bs c1]|] eqn:Hr; [|discriminate].
  apply Ok_inj in H. apply pair_equal_spec in H as [<- <-].
  destruct (consumes_exact (Z.of_nat n) ltac:(lia) _ _ _ _ Hs Hr) as (post & -> & Hs' & Hl).
  assert (Hlen : length bs = n) by (unfold zlen in Hl; lia).
  exists post. rewrite to_from_be_bytes_len by done. repeat split; try done; try apply Hs'.
  - apply from_be_bytes_range.
  - rewrite <- Hlen. apply from_be_bytes_range.
Qed.

Lemma reads_u16 z : u16 z -> reads bc_read_u16 (to_be_bytes 2 z) z.
Proof. apply (reads_be 2). Qed.
Lemma reads_u32 z : u32 z -> reads bc_read_u32 (to_be_bytes 4 z) z.
Proof. apply (reads_be 4). Qed.
Lemma reads_u64 z : u64 z -> reads bc_read_u64 (to_be_bytes 8 z) z.
Proof. apply (reads_be 8). Qed.
Lemma consumes_u16 : consumes bc_read_u16 (to_be_bytes 2) u16.
Proof. apply (consumes_be 2). Qed.
Lemma consumes_u32 : consumes bc_read_u32 (to_be_bytes 4) u32.
Proof. apply (consumes_be 4). Qed.
Lemma consumes_u64 : consumes bc_read_u64 (to_be_bytes 8) u64.
Proof. apply (consumes_be 8). Qed.

Lemma reads_bytes_u32 v : zlen v < 2 ^ 32 -> reads bc_read_bytes_u32 (to_be_bytes 4 (zlen v) ++ v) v.
Proof.
  intros Hl c rest Hs. rewrite <- app_assoc in Hs. pose proof (zlen_nonneg v).
  destruct (reads_u32 (zlen v) ltac:(split; lia) _ _ Hs) as (c1 & H1 & Hs1).
  unfold bc_read_bytes_u32. rewrite H1. unfold usize_max.
  destruct (Z.ltb_spec (2 ^ 64 - 1) (zlen v)); [lia|]. by apply reads_exact.
Qed.

Lemma reads_bytes_u64 v : zlen v < 2 ^ 64 -> reads bc_read_bytes_u64 (to_be_bytes 8 (zlen v) ++ v) v.
Proof.
  intros Hl c rest Hs. rewrite <- app_assoc in Hs. pose proof (zlen_nonneg v).
  destruct (reads_u64 (zlen v) ltac:(split; lia) _ _ Hs) as (c1 & H1 & Hs1).
  unfold bc_read_bytes_u64. rewrite H1. unfold usize_max.
  destruct (Z.ltb_spec (2 ^ 64 - 1) (zlen v)); [lia|]. by apply reads_exact.
Qed.

Lemma reads_string_u16 v :
  zlen v < 2 ^ 16 -> rust_string v -> reads bc_read_string_u16 (to_be_bytes 2 (zlen v) ++ v) v.
Proof.
  intros Hl Hu c rest Hs. rewrite <- app_assoc in Hs. pose proof (zlen_nonneg v).
  destruct (reads_u16 (zlen v) ltac:(split; lia) _ _ Hs) as (c1 & H1 & Hs1).
  destruct (reads_exact v _ _ Hs1) as (c2 & H2 & Hs2).
  exists c2. unfold bc_read_string_u16. by rewrite H1, H2, Hu.
Qed.

Lemma consumes_bytes_u32 :
  consumes bc_read_bytes_u32 (fun v => to_be_bytes 4 (zlen v) ++ v) (fun v => zlen v < 2 ^ 32).
Proof.
  intros c rest v c' Hs H. unfold bc_read_bytes_u32 in H.
  destruct (bc_read_u32 c) as [[len c1]|] eqn:H1; [|discriminate].
  destruct (consumes_u32 _ _ _ _ Hs H1) as (p1 & -> & Hs1 & Hr). unfold u32 in Hr.
  destruct (Z.ltb_spec usize_max len); [discriminate|].
  destruct (consumes_exact len ltac:(lia) _ _ _ _ Hs1 H) as (p2 & -> & Hs2 & <-).
  exists p2. rewrite <- app_assoc. split; [done|]. split; [done|lia].
Qed.

Lemma consumes_bytes_u64 :
  consumes bc_read_bytes_u64 (fun v => to_be_bytes 8 (zlen v) ++ v) (fun v => zlen v < 2 ^ 64).
Proof.
  intros c rest v c' Hs H. unfold bc_read_bytes_u64 in H.
  destruct (bc_read_u64 c) as [[len c1]|] eqn:H1; [|discriminate].
  destruct (consumes_u64 _ _ _ _ Hs H1) as (p1 & -> & Hs1 & Hr). unfold u64 in Hr.
  destruct (Z.ltb_spec usize_max len); [discriminate|].
  destruct (consumes_exact len ltac:(lia) _ _ _ _ Hs1 H) as (p2 & -> & Hs2 & <-).
  exists p2. rewrite <- app_assoc. split; [done|]. split; [done|lia].
Qed.

Lemma consumes_string_u16 :
  consumes bc_read_string_u16 (fun v => to_be_bytes 2 (zlen v) ++ v)
    (fun v => zlen v < 2 ^ 16 /\ rust_string v).
Proof.
  intros c rest v c' Hs H. unfold bc_read_string_u16 in H.
  destruct (bc_read_u16 c) as [[len c1]|] eqn:H1; [|discriminate].
  destruct (consumes_u16 _ _ _ _ Hs H1) as (p1 & -> & Hs1 & Hr). unfold u16 in Hr.
  destruct (bc_read_exact len c1) as [[bs c2]|] eqn:H2; [|discriminate].
  destruct (from_utf8 bs) eqn:Hu; [|discriminate].
  apply Ok_inj in H. apply pair_equal_spec in H as [<- <-].
  destruct (consumes_exact len ltac:(lia) _ _ _ _ Hs1 H2) as (p2 & -> & Hs2 & <-).
  exists p2. rewrite <- app_assoc. split; [done|]. split; [done|]. split; [lia|done].
Qed.

Lemma reads_n {A} (p : Reader A) (E : A -> list byte) (l : list A) :
  Forall (fun a => reads p (E a) a) l -> reads (bc_read_n p (length l)) (concat (map E l)) l.
Proof.
  induction l as [|a l IH]; intros Hl c rest Hs; cbn [bc_read_n length]; [by exists c|].
  apply Forall_cons in Hl as [Ha Hl]. cbn [map concat] in Hs. rewrite <- app_assoc in Hs.
  destruct (Ha _ _ Hs) as (c1 & H1 & Hs1). destruct (IH Hl _ _ Hs1) as (c2 & H2 & Hs2).
  exists c2. by rewrite H1, H2.
Qed.

Lemma consumes_n {A} (p : Reader A) (E : A -> list byte) (I : A -> Prop) n :
  consumes p E I ->
  consumes (bc_read_n p n) (fun l => concat (map E l)) (fun l => length l = n /\ Forall I l).
Proof.
  intros Hp. induction n as [|n IH]; intros c rest l c' Hs H; cbn [bc_read_n] in H.
  - apply Ok_inj in H. apply pair_equal_spec in H as [<- <-]. by exists rest.
  - destruct (p c) as [[a c1]|] eqn:H1; [|discriminate].
    destruct (bc_read_n p n c1) as [[l' c2]|] eqn:H2; [|discriminate].
    apply Ok_inj in H. apply pair_equal_spec in H as [<- <-].
    destruct (Hp _ _ _ _ Hs H1) as (p1 & -> & Hs1 & Ia).
    destruct (IH _ _ _ _ Hs1 H2) as (p2 & -> & Hs2 & Hn & Il).
    exists p2. cbn [map concat length]. rewrite <- app_assoc.
    repeat split; try done; try apply Hs2; [lia|by constructor].
Qed.
