(* ===== verification/FileCodec.v ===== *)
(** * The object-file codec (crates/prikk-store/src/foundation/file_codec.rs, fsutil.rs)

    The persistent form of an envelope: the body of every object-container, WAL and ref-log record. *)

From S2P Require Import Prelude PrikkError Utf8 Hash ObjectId Signature Envelope ByteCursor.

Definition ENVELOPE_FILE_MAGIC : list byte := bytes_of_string "POBJ0001".

Definition len_to_u16 (len : Z) : PResult Z :=
  if len <? 2 ^ 16 then Ok len else Err (MalformedData "length exceeds u16").
Definition len_to_u32 (len : Z) : PResult Z :=
  if len <? 2 ^ 32 then Ok len else Err (MalformedData "length exceeds u32").
Definition len_to_u64 (len : Z) : PResult Z :=
  if len <? 2 ^ 64 then Ok len else Err (MalformedData "length exceeds u64").

Definition push_u16 (out : list byte) (value : Z) : list byte := out ++ to_be_bytes 2 value.
Definition push_u32 (out : list byte) (value : Z) : list byte := out ++ to_be_bytes 4 value.
Definition push_u64 (out : list byte) (value : Z) : list byte := out ++ to_be_bytes 8 value.

Definition push_string_u16 (out value : list byte) : PResult (list byte) :=
  let? len := len_to_u16 (zlen value) in Ok (push_u16 out len ++ value).
Definition push_bytes_u32 (out value : list byte) : PResult (list byte) :=
  let? len := len_to_u32 (zlen value) in Ok (push_u32 out len ++ value).
Definition push_bytes_u64 (out value : list byte) : PResult (list byte) :=
  let? len := len_to_u64 (zlen value) in Ok (push_u64 out len ++ value).

(** The body of the loop over [envelope.signatures]. *)
Definition push_signature (out : list byte) (signature : Signature) : PResult (list byte) :=
  let out := push_u16 out (SignatureAlgorithm_code (algorithm signature)) in
  let out := push_u16 out (SignerRole_code (signer_role signature)) in
  let? out := push_string_u16 out (key_id signature) in
  let out := push_u64 out (created_at signature) in
  push_bytes_u32 out (signature_bytes signature).

Definition encode_envelope_fields (envelope : ObjectEnvelope) : PResult (list byte) :=
  let out := ENVELOPE_FILE_MAGIC in
  let out := push_u16 out (ObjectType_code (object_type envelope)) in
  let out := push_u32 out (schema_version envelope) in
  let? out := push_bytes_u64 out (canonical_payload envelope) in
  let? count := len_to_u32 (zlen (signatures envelope)) in
  let out := push_u32 out count in
  foldM push_signature out (signatures envelope).

Definition encode_envelope_file (envelope : ObjectEnvelope) : PResult (list byte) :=
  let? _ := validate_strict envelope in encode_envelope_fields envelope.

Definition read_signature : Reader Signature := fun c =>
  let? '(code, c) := bc_read_u16 c in
  let? algorithm := SignatureAlgorithm_from_code code in
  let? '(code, c) := bc_read_u16 c in
  let? signer_role := SignerRole_from_code code in
  let? '(key_id, c) := bc_read_string_u16 c in
  let? '(created_at, c) := bc_read_u64 c in
  let? '(signature_bytes, c) := bc_read_bytes_u32 c in
  Ok (mkSignature algorithm key_id signature_bytes created_at signer_role, c).

Definition decode_envelope_file (bytes : list byte) : PResult ObjectEnvelope :=
  let? '(magic, c) := bc_read_array 8 (ByteCursor_new bytes) in
  if negb (bool_decide (magic = ENVELOPE_FILE_MAGIC))
  then Err (MalformedData "invalid object file magic")
  else
    let? '(code, c) := bc_read_u16 c in
    let? object_type := ObjectType_from_code code in
    let? '(schema_version, c) := bc_read_u32 c in
    let? '(canonical_payload, c) := bc_read_bytes_u64 c in
    let? '(signature_count, c) := bc_read_u32 c in
    let? '(signatures, c) := bc_read_n read_signature (Z.to_nat signature_count) c in
    if negb (is_finished c) then Err (MalformedData "trailing bytes in object file")
    else
      let envelope := mkEnvelope object_type schema_version canonical_payload signatures in
      let? _ := envelope_validate envelope in
      Ok envelope.

Definition read_bounded_object_frame (max_object_bytes : Z) : Reader (list byte) := fun c =>
  let? '(declared_bytes, c) := bc_read_u64 c in
  let? bound_bytes := len_to_u64 max_object_bytes in
  if bound_bytes <? declared_bytes then Err (ObjectOverBound declared_bytes bound_bytes)
  else if usize_max <? declared_bytes then Err (MalformedData "u64 length does not fit usize")
  else bc_read_exact declared_bytes c.

(** ** The bytes, as data *)

Definition enc_signature (s : Signature) : list byte :=
  to_be_bytes 2 (SignatureAlgorithm_code (algorithm s))
    ++ to_be_bytes 2 (SignerRole_code (signer_role s))
    ++ (to_be_bytes 2 (zlen (key_id s)) ++ key_id s)
    ++ to_be_bytes 8 (created_at s)
    ++ (to_be_bytes 4 (zlen (signature_bytes s)) ++ signature_bytes s).

Definition enc_envelope (e : ObjectEnvelope) : list byte :=
  ENVELOPE_FILE_MAGIC ++ to_be_bytes 2 (ObjectType_code (object_type e))
    ++ to_be_bytes 4 (schema_version e)
    ++ (to_be_bytes 8 (zlen (canonical_payload e)) ++ canonical_payload e)
    ++ to_be_bytes 4 (zlen (signatures e)) ++ concat (map enc_signature (signatures e)).

(** The machine ranges of a signature's and an envelope's Rust types, and the lengths the file
    format can carry. *)
Definition wf_signature (s : Signature) : Prop :=
  u64 (created_at s) /\ zlen (signature_bytes s) < 2 ^ 32 /\ zlen (key_id s) < 2 ^ 16.

Definition wf_envelope (e : ObjectEnvelope) : Prop :=
  u32 (schema_version e) /\ Forall (fun s => u64 (created_at s)) (signatures e) /\
  zlen (canonical_payload e) < 2 ^ 64 /\ zlen (signatures e) < 2 ^ 32.

Lemma push_signature_enc out s :
  zlen (signature_bytes s) < 2 ^ 32 -> zlen (key_id s) < 2 ^ 16 ->
  push_signature out s = Ok (out ++ enc_signature s).
Proof.
  intros H1 H2. unfold push_signature, push_string_u16, push_bytes_u32, len_to_u16, len_to_u32.
  destruct (Z.ltb_spec (zlen (key_id s)) (2 ^ 16)); [|lia].
  destruct (Z.ltb_spec (zlen (signature_bytes s)) (2 ^ 32)); [|lia].
  unfold push_u16, push_u32, push_u64, enc_signature. by rewrite <- !app_assoc.
Qed.

Lemma push_signatures_enc l : forall out,
  Forall (fun s => zlen (signature_bytes s) < 2 ^ 32 /\ zlen (key_id s) < 2 ^ 16) l ->
  foldM push_signature out l = Ok (out ++ concat (map enc_signature l)).
Proof.
  induction l as [|s l IH]; intros out Hl; cbn [foldM map concat]; [by rewrite app_nil_r|].
  apply Forall_cons in Hl as [[H1 H2] Hl]. rewrite push_signature_enc by done.
  rewrite IH by done. by rewrite <- app_assoc.
Qed.

Lemma encode_envelope_fields_enc e :
  zlen (canonical_payload e) < 2 ^ 64 -> zlen (signatures e) < 2 ^ 32 ->
  Forall (fun s => zlen (signature_bytes s) < 2 ^ 32 /\ zlen (key_id s) < 2 ^ 16) (signatures e) ->
  encode_envelope_fields e = Ok (enc_envelope e).
Proof.
  intros Hp Hc Hs. unfold encode_envelope_fields, push_bytes_u64, len_to_u64, len_to_u32.
  destruct (Z.ltb_spec (zlen (canonical_payload e)) (2 ^ 64)); [|lia].
  destruct (Z.ltb_spec (zlen (signatures e)) (2 ^ 32)); [|lia].
  rewrite push_signatures_enc by done.
  unfold push_u16, push_u32, push_u64, enc_envelope. by rewrite <- !app_assoc.
Qed.

Lemma Signature_validate_lens s :
  Signature_validate s = Ok tt ->
  zlen (key_id s) < 2 ^ 16 /\ rust_string (key_id s).
Proof.
  intros [Hk _]%Signature_validate_key. apply validate_key_id_ok in Hk as [Hl Ha].
  unfold SIGNATURE_KEY_ID_MAX_LEN in Hl. split; [unfold zlen; lia|].
  by apply is_ascii_from_utf8, key_id_ascii.
Qed.

Lemma reads_signature s :
  wf_signature s -> rust_string (key_id s) -> reads read_signature (enc_signature s) s.
Proof.
  intros (Ht & Hb & Hk) Hu c rest Hs. unfold enc_signature in Hs. rewrite <- !(app_assoc _ _ rest) in Hs.
  destruct (reads_u16 _ (SignatureAlgorithm_code_range _) _ _ Hs) as (c1 & H1 & Hs1).
  destruct (reads_u16 _ (SignerRole_code_range _) _ _ Hs1) as (c2 & H2 & Hs2).
  destruct (reads_string_u16 _ Hk Hu _ _ Hs2) as (c3 & H3 & Hs3).
  destruct (reads_u64 _ Ht _ _ Hs3) as (c4 & H4 & Hs4).
  destruct (reads_bytes_u32 _ Hb _ _ Hs4) as (c5 & H5 & Hs5).
  exists c5. split; [|done]. unfold read_signature.
  rewrite H1, SignatureAlgorithm_from_to_code, H2, SignerRole_from_to_code, H3, H4, H5.
  by destruct s.
Qed.

Lemma consumes_signature :
  consumes read_signature enc_signature (fun s => wf_signature s /\ rust_string (key_id s)).
Proof.
  intros c rest s c' Hs H. unfold read_signature in H.
  destruct (bc_read_u16 c) as [[a c1]|] eqn:H1; [|discriminate].
  destruct (SignatureAlgorithm_from_code a) as [alg|] eqn:Ha; [|discriminate].
  destruct (bc_read_u16 c1) as [[r c2]|] eqn:H2; [|discriminate].
  destruct (SignerRole_from_code r) as [role|] eqn:Hr; [|discriminate].
  destruct (bc_read_string_u16 c2) as [[k c3]|] eqn:H3; [|discriminate].
  destruct (bc_read_u64 c3) as [[t c4]|] eqn:H4; [|discriminate].
  destruct (bc_read_bytes_u32 c4) as [[b c5]|] eqn:H5; [|discriminate].
  apply Ok_inj in H. apply pair_equal_spec in H as [<- <-].
  destruct (consumes_u16 _ _ _ _ Hs H1) as (p1 & -> & Hs1 & _).
  destruct (consumes_u16 _ _ _ _ Hs1 H2) as (p2 & -> & Hs2 & _).
  destruct (consumes_string_u16 _ _ _ _ Hs2 H3) as (p3 & -> & Hs3 & Hk & Hu).
  destruct (consumes_u64 _ _ _ _ Hs3 H4) as (p4 & -> & Hs4 & Ht).
  destruct (consumes_bytes_u32 _ _ _ _ Hs4 H5) as (p5 & -> & Hs5 & Hb).
  apply SignatureAlgorithm_from_code_inv in Ha as ->. apply SignerRole_from_code_inv in Hr as ->.
  exists p5. unfold enc_signature, wf_signature. cbn [algorithm key_id signature_bytes created_at signer_role].
  rewrite <- !app_assoc. done.
Qed.

(** What the decoder accepts is exactly the encoding of what it returns. *)
Lemma decode_envelope_file_consumes bytes e :
  zlen bytes < 2 ^ 64 -> decode_envelope_file bytes = Ok e ->
  bytes = enc_envelope e /\ envelope_validate e = Ok tt /\ u32 (schema_version e) /\
  zlen (canonical_payload e) < 2 ^ 64 /\ zlen (signatures e) < 2 ^ 32 /\
  Forall (fun s => wf_signature s /\ rust_string (key_id s)) (signatures e).
Proof.
  intros Hb H. unfold decode_envelope_file in H. pose proof (standing_new bytes Hb) as Hs.
  destruct (bc_read_array 8 _) as [[m c1]|] eqn:H1; [|discriminate].
  case_bool_decide as Hm; [|discriminate]. cbn [negb] in H.
  destruct (bc_read_u16 c1) as [[code c2]|] eqn:H2; [|discriminate].
  destruct (ObjectType_from_code code) as [ty|] eqn:Hty; [|discriminate].
  destruct (bc_read_u32 c2) as [[ver c3]|] eqn:H3; [|discriminate].
  destruct (bc_read_bytes_u64 c3) as [[pay c4]|] eqn:H4; [|discriminate].
  destruct (bc_read_u32 c4) as [[count c5]|] eqn:H5; [|discriminate].
  destruct (bc_read_n read_signature (Z.to_nat count) c5) as [[sigs c6]|] eqn:H6; [|discriminate].
  destruct (is_finished c6) eqn:Hfin; [|discriminate]. cbn [negb] in H.
  destruct (envelope_validate _) as [[]|] eqn:Hval in H; [|discriminate]. apply Ok_inj in H as <-.
  destruct (consumes_exact 8 ltac:(lia) _ _ _ _ Hs H1) as (p1 & Ebytes & Hs1 & _).
  destruct (consumes_u16 _ _ _ _ Hs1 H2) as (p2 & -> & Hs2 & _).
  destruct (consumes_u32 _ _ _ _ Hs2 H3) as (p3 & -> & Hs3 & Hv).
  destruct (consumes_bytes_u64 _ _ _ _ Hs3 H4) as (p4 & -> & Hs4 & Hp).
  destruct (consumes_u32 _ _ _ _ Hs4 H5) as (p5 & -> & Hs5 & Hc).
  destruct (consumes_n _ _ _ _ consumes_signature _ _ _ _ Hs5 H6) as (p6 & -> & Hs6 & Hn & Hsig).
  rewrite (standing_finished _ _ Hs6) in Hfin. apply bool_decide_eq_true in Hfin as ->.
  apply ObjectType_from_code_inv in Hty as ->. unfold u32 in Hc.
  assert (Hcount : count = zlen sigs) by (unfold zlen; lia).
  unfold enc_envelope. cbn [object_type schema_version canonical_payload signatures].
  rewrite Ebytes, Hm, Hcount, app_nil_r, <- !app_assoc. repeat split; try done; try apply Hv. lia.
Qed.

Lemma decode_envelope_file_enc e :
  wf_envelope e -> envelope_validate e = Ok tt -> zlen (enc_envelope e) < 2 ^ 64 ->
  Forall (fun s => zlen (signature_bytes s) < 2 ^ 32) (signatures e) ->
  decode_envelope_file (enc_envelope e) = Ok e.
Proof.
  intros (Hv & Ht & Hp & Hc) Hval Hlen Hsb. pose proof (standing_new _ Hlen) as Hs.
  unfold enc_envelope in Hs at 2. unfold decode_envelope_file.
  assert (Hsigs : Forall (fun s => reads read_signature (enc_signature s) s) (signatures e)).
  { apply envelope_validate_ok in Hval as [_ Hval]. rewrite Forall_forall in *. intros s Hin.
    destruct (Signature_validate_lens s (Hval s Hin)). apply reads_signature; [|done].
    split; [by apply Ht|]. split; [by apply Hsb|done]. }
  rewrite <- (app_nil_r (concat _)) in Hs.
  destruct (reads_exact ENVELOPE_FILE_MAGIC _ _ Hs) as (c1 & H1 & Hs1).
  destruct (reads_u16 _ (ObjectType_code_range _) _ _ Hs1) as (c2 & H2 & Hs2).
  destruct (reads_u32 _ Hv _ _ Hs2) as (c3 & H3 & Hs3).
  destruct (reads_bytes_u64 _ Hp _ _ Hs3) as (c4 & H4 & Hs4).
  destruct (reads_u32 (zlen (signatures e)) ltac:(split; [apply zlen_nonneg|lia]) _ _ Hs4)
    as (c5 & H5 & Hs5).
  destruct (reads_n _ _ _ Hsigs _ _ Hs5) as (c6 & H6 & Hs6).
  change (zlen ENVELOPE_FILE_MAGIC) with 8 in H1. unfold bc_read_array. rewrite H1.
  rewrite bool_decide_eq_true_2 by done. cbn [negb].
  rewrite H2, ObjectType_from_to_code, H3, H4, H5. unfold zlen at 1. rewrite Nat2Z.id, H6.
  rewrite (standing_finished _ _ Hs6), bool_decide_eq_true_2 by done. cbn [negb].
  destruct e as [ty v p sg]. cbn [object_type schema_version canonical_payload signatures] in *.
  by rewrite Hval.
Qed.

(** A strict envelope within the format's lengths encodes to its bytes, which decode to it. *)
Lemma envelope_file_enc e :
  validate_strict e = Ok tt -> wf_envelope e -> zlen (enc_envelope e) < 2 ^ 64 ->
  encode_envelope_file e = Ok (enc_envelope e) /\ decode_envelope_file (enc_envelope e) = Ok e.
Proof.
  intros Hst Hwf Hlen.
  assert (Hst' := Hst). apply validate_strict_iff in Hst' as (Hz & Hall & _).
  apply Forall_and in Hall as [Hval Hsh].
  assert (Hb : Forall (fun s => zlen (signature_bytes s) < 2 ^ 32) (signatures e)).
  { eapply Forall_impl; [exact Hsh|]. intros s Hs%Signature_validate_shape_len.
    unfold zlen. rewrite Hs. unfold ED25519_SIGNATURE_LEN. lia. }
  split.
  - unfold encode_envelope_file. rewrite Hst. destruct Hwf as (_ & _ & Hp & Hc).
    apply encode_envelope_fields_enc; [done..|]. rewrite Forall_forall in *. intros s Hin.
    split; [by apply Hb|]. by apply Signature_validate_lens, Hval.
  - apply decode_envelope_file_enc; try done. by apply envelope_validate_ok.
Qed.

(** ** Properties *)

(** The object-file codec round-trips: every strictly valid envelope within the format's
    length fields encodes, and decoding the bytes gives back the very same envelope, signatures
    and their order included. *)
Theorem envelope_file_roundtrip e :
  validate_strict e = Ok tt -> wf_envelope e -> zlen (enc_envelope e) < 2 ^ 64 ->
  exists bytes, encode_envelope_file e = Ok bytes /\ decode_envelope_file bytes = Ok e.
Proof. intros Hst Hwf Hlen. exists (enc_envelope e). by apply envelope_file_enc. Qed.

Lemma envelope_file_roundtrip_witness :
  exists bytes,
    encode_envelope_file (mkEnvelope Blob 1 [x00] [witness_signature x61]) = Ok bytes /\
    decode_envelope_file bytes = Ok (mkEnvelope Blob 1 [x00] [witness_signature x61]).
Proof.
  apply envelope_file_roundtrip; [vm_compute; reflexivity| |vm_compute; reflexivity].
  split; [cbv; by split|]. split; [|by split].
  constructor; [cbv; by split|constructor].
Defined.

(** The object-file decoder is canonical: a file it accepts is byte for byte the structural
    encoding of the envelope it returns, so no two different files decode to one envelope and
    nothing can hide in trailing or reordered bytes. *)
Theorem decode_envelope_file_canonical bytes e :
  zlen bytes < 2 ^ 64 -> decode_envelope_file bytes = Ok e ->
  encode_envelope_fields e = Ok bytes /\ envelope_validate e = Ok tt.
Proof.
  intros Hb H. destruct (decode_envelope_file_consumes bytes e Hb H) as (-> & Hv & _ & Hp & Hc & Hs).
  split; [|done]. apply encode_envelope_fields_enc; try done.
  eapply Forall_impl; [exact Hs|]. by intros s [(_ & ? & ?) _].
Qed.

Definition witness_file : list byte := enc_envelope (mkEnvelope Blob 1 [x00] [witness_signature x61]).

Lemma decode_envelope_file_canonical_witness :
  encode_envelope_fields (mkEnvelope Blob 1 [x00] [witness_signature x61]) = Ok witness_file.
Proof.
  apply (decode_envelope_file_canonical witness_file
           (mkEnvelope Blob 1 [x00] [witness_signature x61])); vm_compute; reflexivity.
Defined.
