(* ===== verification/FrameResync.v ===== *)
(** * Resynchronisation of framed files (crates/prikk-store/src/foundation/frame_resync.rs, frame_source.rs)

    What every isolate-and-continue reader shares: the scan for the next frame magic, the search for
    a sound frame behind a partial one, the work budget of a decode, and the byte source a decoder
    reads from (bytes in memory, or a stream read window by window).  Offsets are [nat]: they never
    exceed the length of the input, so the source's [checked_add] on them never overflows. *)

From S2P Require Import Prelude PrikkError.

(** ** Scanning for a magic *)

(** The [while] loop; each iteration moves the cursor forward by one. *)
Fixpoint resync_loop (fuel : nat) (bytes magic : list byte) (cursor : nat) : option nat :=
  match fuel with
  | O => None
  | S fuel' =>
      if (cursor + length magic <=? length bytes)%nat then
        if bool_decide (get_range bytes cursor (cursor + length magic) = Some magic) then Some cursor
        else resync_loop fuel' bytes magic (S cursor)
      else None
  end.

Definition resync_to_next_magic (bytes : list byte) (start : nat) (magic : list byte) : option nat :=
  resync_loop (S (length bytes)) bytes magic start.

(** The [while let] loop of [sound_frame_after_partial]; each candidate is behind the one before. *)
Fixpoint sound_frame_loop (fuel : nat) (bytes magic : list byte) (sound_frame_at : nat -> bool) (from : nat)
  : option nat :=
  match fuel with
  | O => None
  | S fuel' =>
      match resync_to_next_magic bytes from magic with
      | None => None
      | Some candidate =>
          if sound_frame_at candidate then Some candidate
          else sound_frame_loop fuel' bytes magic sound_frame_at (S candidate)
      end
  end.

Definition sound_frame_after_partial (bytes : list byte) (offset : nat) (magic : list byte)
    (sound_frame_at : nat -> bool) : option nat :=
  sound_frame_loop (S (length bytes)) bytes magic sound_frame_at (S offset).

(** ** The work budget *)

Record ScanBudget : Type := mkBudget { limit : Z; spent : Z }.

Definition SCAN_BUDGET_MULTIPLE : Z := 8.

(** The multiplication of two [u64] values wraps. *)
Definition ScanBudget_for_input (input_len : nat) : ScanBudget :=
  mkBudget ((SCAN_BUDGET_MULTIPLE * Z.max (Z.of_nat input_len) 1) mod 2 ^ 64) 0.

Definition charge (b : ScanBudget) (n : Z) : ScanBudget :=
  mkBudget (limit b) (Z.min (spent b + n) (2 ^ 64 - 1)).

Definition exceeded (b : ScanBudget) : bool := limit b <? spent b.

Inductive BoundedScan : Type := Sound (offset : nat) | NoSoundFrame | Undetermined.

(** The [while let] loop of [sound_frame_after_partial_budgeted]. *)
Fixpoint sound_frame_budgeted_loop (fuel : nat) (bytes magic : list byte) (budget : ScanBudget)
    (sound_frame_at : nat -> ScanBudget -> bool * ScanBudget) (from : nat) : BoundedScan * ScanBudget :=
  match fuel with
  | O => (NoSoundFrame, budget)
  | S fuel' =>
      match resync_to_next_magic bytes from magic with
      | None => (NoSoundFrame, budget)
      | Some candidate =>
          if exceeded budget then (Undetermined, budget)
          else
            let '(sound, budget) := sound_frame_at candidate budget in
            if sound then (Sound candidate, budget)
            else sound_frame_budgeted_loop fuel' bytes magic budget sound_frame_at (S candidate)
      end
  end.

Definition sound_frame_after_partial_budgeted (bytes : list byte) (offset : nat) (magic : list byte)
    (budget : ScanBudget) (sound_frame_at : nat -> ScanBudget -> bool * ScanBudget)
  : BoundedScan * ScanBudget :=
  sound_frame_budgeted_loop (S (length bytes)) bytes magic budget sound_frame_at (S offset).

Definition require_progress (reader : string) (offset next : nat) : PResult nat :=
  if (next <=? offset)%nat
  then Err (Integrity "{reader} decode did not advance past byte offset {offset} (computed next offset {next}); refusing rather than looping")
  else Ok next.

(** ** Byte sources (frame_source.rs) *)

(** The trait [FrameSource].  A source has no state a decoder can observe. *)
Class FrameSource : Type := {
  total_len : nat;
  read_at : nat -> nat -> PResult (option (list byte));
  scan_for_magic : nat -> list byte -> PResult (option nat);
}.

Definition DEFAULT_SCAN_WINDOW_BYTES : nat := Z.to_nat (1024 * 1024).

(** What a source over [bytes] promises. *)
Class LawfulSource (S : FrameSource) (bytes : list byte) : Prop := {
  source_len : total_len = length bytes;
  source_read : forall offset len, read_at offset len = Ok (get_range bytes offset (offset + len));
  source_scan : forall start magic, (0 < length magic <= DEFAULT_SCAN_WINDOW_BYTES)%nat ->
    scan_for_magic start magic = Ok (resync_to_next_magic bytes start magic);
}.

(** The windowed [loop]; [fuel] bounds the number of windows. *)
Fixpoint scan_windows (fuel window total_len : nat) (read_at : nat -> nat -> PResult (option (list byte)))
    (magic : list byte) (window_start : nat) : PResult (option nat) :=
  match fuel with
  | O => Err OutOfFuel
  | S fuel' =>
      if (total_len <=? window_start)%nat then Ok None
      else
        let remaining := (total_len - window_start)%nat in
        let read_len := (remaining `min` window)%nat in
        if (read_len <? length magic)%nat then Ok None
        else
          let? found := read_at window_start read_len in
          match found with
          | None => Ok None
          | Some w =>
              match resync_to_next_magic w 0 magic with
              | Some found => Ok (Some (window_start + found)%nat)
              | None =>
                  let overlap := (length magic - 1)%nat in
                  let advance := (read_len - overlap)%nat in
                  if Nat.eqb advance 0 then Ok None
                  else scan_windows fuel' window total_len read_at magic (window_start + advance)
              end
          end
  end.

Definition default_scan_for_magic (total_len : nat) (read_at : nat -> nat -> PResult (option (list byte)))
    (start : nat) (magic : list byte) : PResult (option nat) :=
  scan_windows (S total_len) DEFAULT_SCAN_WINDOW_BYTES total_len read_at magic start.

(** A source that only provides reads takes the trait's default scan. *)
Definition WindowedSource (total_len : nat) (read_at : nat -> nat -> PResult (option (list byte)))
  : FrameSource :=
  {| total_len := total_len; read_at := read_at;
     scan_for_magic := default_scan_for_magic total_len read_at |}.

Definition SliceFrameSource (bytes : list byte) : FrameSource :=
  {| total_len := length bytes;
     read_at := fun offset len => Ok (get_range bytes offset (offset + len));
     scan_for_magic := fun start magic => Ok (resync_to_next_magic bytes start magic) |}.

(** ** Lemmas *)

(** [magic] stands at [p]. *)
Definition magic_at (bytes magic : list byte) (p : nat) : Prop :=
  get_range bytes p (p + length magic) = Some magic.

(** [r] is the first position from [start] on that satisfies [P]. *)
Definition first_from (P : nat -> Prop) (start : nat) (r : option nat) : Prop :=
  match r with
  | Some p => (start <= p)%nat /\ P p /\ forall q, (start <= q < p)%nat -> ~ P q
  | None => forall q, (start <= q)%nat -> ~ P q
  end.

Lemma first_from_unique P start r r' : first_from P start r -> first_from P start r' -> r = r'.
Proof.
  destruct r as [p|], r' as [p'|]; cbn; try done.
  - intros (H1 & H2 & H3) (H1' & H2' & H3'). f_equal.
    destruct (Nat.lt_trichotomy p p') as [?|[?|?]]; [|done|]; exfalso;
      [by apply (H3' p); [lia|]|by apply (H3 p'); [lia|]].
  - intros (H1 & H2 & _) H. by destruct (H p).
  - intros H (H1 & H2 & _). by destruct (H p').
Qed.

(** Nothing before a later start changes the answer. *)
Lemma first_from_later (P : nat -> Prop) start start' r :
  (start <= start')%nat -> (forall q, (start <= q < start')%nat -> ~ P q) ->
  first_from P start' r -> first_from P start r.
Proof.
  intros Hle Hno. destruct r as [p|]; cbn.
  - intros (H1 & H2 & H3). split_and!; [lia|done|]. intros q Hq.
    destruct (Nat.lt_ge_cases q start'); [apply Hno|apply H3]; lia.
  - intros H q Hq. destruct (Nat.lt_ge_cases q start'); [apply Hno|apply H]; lia.
Qed.

Lemma magic_at_bound bytes magic p : magic_at bytes magic p -> (p + length magic <= length bytes)%nat.
Proof.
  intros Hm. destruct (Nat.le_gt_cases (p + length magic) (length bytes)); [done|].
  unfold magic_at in Hm. by rewrite get_range_none in Hm.
Qed.

Lemma resync_first bytes start magic :
  first_from (magic_at bytes magic) start (resync_to_next_magic bytes start magic).
Proof.
  unfold resync_to_next_magic.
  assert (Hf : (length bytes < S (length bytes) + start)%nat) by lia. revert Hf.
  generalize (S (length bytes)) as fuel. intros fuel. revert start.
  induction fuel as [|fuel IH]; intros start Hf; cbn [resync_loop].
  { intros q Hq Hm%magic_at_bound. lia. }
  destruct (Nat.leb_spec (start + length magic) (length bytes)); [|intros q Hq Hm%magic_at_bound; lia].
  case_bool_decide as Hm; [split_and!; [lia|done|intros; lia]|].
  eapply first_from_later; [| |apply IH; lia]; [lia|]. intros q Hq.
  replace q with start by lia. done.
Qed.

(** The positions a magic can stand at in a window are those of the whole source. *)
Lemma magic_at_window bytes w lo len magic p :
  get_range bytes lo (lo + len) = Some w -> (p + length magic <= len)%nat ->
  magic_at w magic p <-> magic_at bytes magic (lo + p).
Proof.
  intros Hw Hp. assert (length w = len) as Hl.
  { apply get_range_inv in Hw as (? & ? & _ & _ & Hw). lia. }
  unfold magic_at. rewrite (get_range_sub _ _ _ _ p (p + length magic) Hw) by lia.
  by rewrite Nat.add_assoc.
Qed.

(** A magic that starts a window stands where the window starts. *)
Lemma magic_at_prefix bytes w lo hi magic :
  get_range bytes lo hi = Some w -> magic `prefix_of` w -> magic_at bytes magic lo.
Proof.
  intros (pre & post & -> & <- & _)%get_range_inv [k ->]. unfold magic_at.
  rewrite <- (app_assoc magic). apply get_range_app.
Qed.

Lemma scan_windows_first bytes window magic : forall fuel start,
  (0 < length magic <= window)%nat -> (0 < fuel)%nat -> (length bytes < fuel + start)%nat ->
  exists r, scan_windows fuel window (length bytes) (fun o l => Ok (get_range bytes o (o + l))) magic start = Ok r
    /\ first_from (magic_at bytes magic) start r.
Proof.
  induction fuel as [|fuel IH]; intros start Hm Hpos Hf; cbn [scan_windows]; [lia|].
  destruct (Nat.leb_spec (length bytes) start).
  { exists None. split; [done|]. intros q Hq Hq'%magic_at_bound. lia. }
  set (len := ((length bytes - start) `min` window)%nat).
  destruct (Nat.ltb_spec len (length magic)) as [Hlt|Hge].
  { exists None. split; [done|]. intros q Hq Hq'%magic_at_bound. unfold len in Hlt. lia. }
  destruct (get_range bytes start (start + len)) as [w|] eqn:Hw.
  2: { rewrite get_range_some in Hw by (unfold len; lia). done. }
  assert (length w = len) as Hl.
  { apply get_range_inv in Hw as (? & ? & _ & _ & Hw). lia. }
  pose proof (resync_first w 0 magic) as Hr.
  destruct (resync_to_next_magic w 0 magic) as [p|]; cbn in Hr.
  - destruct Hr as (_ & Hp & Hno). pose proof (magic_at_bound _ _ _ Hp). exists (Some (start + p)%nat).
    split; [done|]. split_and!; [lia|by apply (magic_at_window _ _ _ _ _ _ Hw); [lia|]|].
    intros q Hq Hq'. apply (Hno (q - start)%nat); [lia|]. apply (magic_at_window _ _ _ _ _ _ Hw); [lia|].
    by replace (start + (q - start))%nat with q by lia.
  - destruct (Nat.eqb_spec (len - (length magic - 1)) 0); [lia|].
    destruct (IH (start + (len - (length magic - 1)))%nat Hm) as (r & -> & Hr'); [lia|lia|].
    exists r. split; [done|]. eapply first_from_later; [| |exact Hr']; [lia|].
    intros q Hq Hq'. apply (Hr (q - start)%nat); [lia|]. apply (magic_at_window _ _ _ _ _ _ Hw); [lia|].
    by replace (start + (q - start))%nat with q by lia.
Qed.

Lemma default_window_large : (8 <= DEFAULT_SCAN_WINDOW_BYTES)%nat.
Proof. unfold DEFAULT_SCAN_WINDOW_BYTES. lia. Qed.

(** ** Searching for a sound frame *)

(** The search finds the first position behind the partial frame that is sound and carries the magic. *)
Lemma sound_frame_loop_first bytes magic sound : forall fuel from,
  (length bytes < fuel + from)%nat -> (0 < length magic)%nat ->
  first_from (fun p => magic_at bytes magic p /\ sound p = true) from (sound_frame_loop fuel bytes magic sound from).
Proof.
  induction fuel as [|fuel IH]; intros from Hf Hm; cbn [sound_frame_loop].
  { intros q Hq [Hq'%magic_at_bound _]. lia. }
  pose proof (resync_first bytes from magic) as Hr.
  destruct (resync_to_next_magic bytes from magic) as [p|]; cbn in Hr.
  - destruct Hr as (Hle & Hp & Hno). pose proof (magic_at_bound _ _ _ Hp).
    destruct (sound p) eqn:Hs.
    + split_and!; [lia|done|done|]. intros q Hq [Hq' _]. by apply (Hno q).
    + eapply first_from_later; [| |apply IH; lia]; [lia|]. intros q Hq [Hq' Hs'].
      destruct (decide (q = p)) as [->|]; [congruence|]. by apply (Hno q); [lia|].
  - intros q Hq [Hq' _]. by apply (Hr q).
Qed.

Lemma sound_frame_after_partial_first bytes offset magic sound :
  (0 < length magic)%nat ->
  first_from (fun p => magic_at bytes magic p /\ sound p = true) (S offset)
    (sound_frame_after_partial bytes offset magic sound).
Proof. intros. apply sound_frame_loop_first; [lia|done]. Qed.

(** ** Lawful sources *)

#[global] Instance slice_lawful bytes : LawfulSource (SliceFrameSource bytes) bytes.
Proof. by constructor. Qed.

Lemma default_scan_resync bytes start magic :
  (0 < length magic <= DEFAULT_SCAN_WINDOW_BYTES)%nat ->
  default_scan_for_magic (length bytes) (fun o l => Ok (get_range bytes o (o + l))) start magic
  = Ok (resync_to_next_magic bytes start magic).
Proof.
  intros Hm. destruct (scan_windows_first bytes DEFAULT_SCAN_WINDOW_BYTES magic (S (length bytes)) start Hm)
    as (r & Hs & Hr); [lia|lia|]. unfold default_scan_for_magic. rewrite Hs. f_equal.
  eapply first_from_unique; [exact Hr|apply resync_first].
Qed.

Lemma scan_windows_ext window total r r' magic : (forall o l, r o l = r' o l) -> forall fuel start,
  scan_windows fuel window total r magic start = scan_windows fuel window total r' magic start.
Proof.
  intros He. induction fuel as [|fuel IH]; intros start; cbn [scan_windows]; [done|].
  destruct (total <=? start)%nat; [done|]. destruct (_ <? length magic)%nat; [done|]. rewrite He.
  destruct (r' _ _) as [[w|]|]; [|done..]. destruct (resync_to_next_magic w 0 magic); [done|].
  destruct (Nat.eqb _ 0); [done|]. apply IH.
Qed.

(** A source that reads its bytes faithfully is lawful with the default scan. *)
Lemma windowed_lawful bytes r :
  (forall offset len, r offset len = Ok (get_range bytes offset (offset + len))) ->
  LawfulSource (WindowedSource (length bytes) r) bytes.
Proof.
  intros Hr. constructor; [done|done|]. intros start magic Hm. cbn [scan_for_magic WindowedSource].
  unfold default_scan_for_magic at 1.
  rewrite (scan_windows_ext _ _ _ _ _ Hr). by apply default_scan_resync.
Qed.

(** ** The reference scan: try every byte offset, jump over each sound frame *)

Section reference.
Context {A : Type} (len : nat) (frame_at : nat -> option (A * nat)).

Record ReferenceFrame : Type := mkFrame { rf_offset : nat; rf_value : A; rf_next : nat }.

Fixpoint reference_scan (fuel offset : nat) : list ReferenceFrame :=
  match fuel with
  | O => []
  | S fuel' =>
      match frame_at offset with
      | Some (value, next) => mkFrame offset value next :: reference_scan fuel' next
      | None => reference_scan fuel' (S offset)
      end
  end.

(** Enough fuel to reach the end of the input. *)
Definition reference_from (offset : nat) : list ReferenceFrame := reference_scan (S len - offset) offset.

Lemma reference_none : forall fuel offset, (forall q, (offset <= q)%nat -> frame_at q = None) -> reference_scan fuel offset = [].
Proof using Type.
  induction fuel as [|fuel IH]; intros offset Hno; cbn [reference_scan]; [done|].
  rewrite (Hno offset) by lia. apply IH. intros q Hq. apply Hno. lia.
Qed.

Context (Hbound : forall p v n, frame_at p = Some (v, n) -> (p < n <= len)%nat).

Lemma reference_fuel : forall fuel fuel' offset,
  (S len - offset <= fuel)%nat -> (S len - offset <= fuel')%nat ->
  reference_scan fuel offset = reference_scan fuel' offset.
Proof using Hbound.
  assert (Hbig : forall fuel offset, (len < offset)%nat -> reference_scan fuel offset = []).
  { intros fuel offset Hl. apply reference_none. intros q Hq.
    destruct (frame_at q) as [[v n]|] eqn:Hf; [|done]. apply Hbound in Hf. lia. }
  induction fuel as [|fuel IH]; intros fuel' offset Hf Hf'; [by rewrite !Hbig by lia|].
  destruct fuel' as [|fuel']; [by rewrite !Hbig by lia|]. cbn [reference_scan].
  destruct (frame_at offset) as [[v n]|] eqn:Ha; [|apply IH; lia].
  apply Hbound in Ha. f_equal. apply IH; lia.
Qed.

Lemma reference_record offset v next :
  frame_at offset = Some (v, next) -> reference_from offset = mkFrame offset v next :: reference_from next.
Proof using Hbound.
  intros Ha. pose proof (Hbound _ _ _ Ha) as Hn. unfold reference_from.
  destruct (S len - offset)%nat as [|fuel] eqn:Hf; [lia|]. cbn [reference_scan]. rewrite Ha.
  f_equal. apply reference_fuel; lia.
Qed.

Lemma reference_skip offset next :
  (offset <= next <= S len)%nat -> (forall q, (offset <= q < next)%nat -> frame_at q = None) ->
  reference_from offset = reference_from next.
Proof using Hbound.
  intros Hle. remember (next - offset)%nat as d eqn:Hd. revert offset Hle Hd.
  induction d as [|d IH]; intros offset Hle Hd Hno; [f_equal; lia|].
  rewrite <- (IH (S offset)); [|lia|lia|intros q Hq; apply Hno; lia].
  unfold reference_from. destruct (S len - offset)%nat as [|fuel] eqn:Hf; [lia|].
  cbn [reference_scan]. rewrite (Hno offset) by lia. apply reference_fuel; lia.
Qed.

Lemma reference_end offset : (forall q, (offset <= q)%nat -> frame_at q = None) -> reference_from offset = [].
Proof using Type. apply reference_none. Qed.
End reference.
Arguments mkFrame {A}.
