(* ===== verification/Container.v ===== *)
(** * Object containers (crates/prikk-store/src/foundation/container.rs)

    One append-only file per persisted object type: frames of magic, version, body length, checksum
    and an envelope file as body.  The reader isolates damage: a frame that fails to validate is
    recorded and the scan resumes at the next magic.  The work budget is passed as state; a frame's
    claimed body length stays in [Z] until it is known to lie inside the source. *)

From S2P Require Import Prelude PrikkError Hash ObjectId Signature Envelope ByteCursor FileCodec FrameResync.

Definition CONTAINER_VERSION : Z := 1.
Definition CONTAINER_HEADER_LEN : nat := 8 + 2 + 8 + 32.
Definition FRAME_HEADER_LEN : nat := CONTAINER_HEADER_LEN.

Definition container_magic (object_type : ObjectType) : PResult (list byte) :=
  match object_type with
  | Patch => Ok (bytes_of_string "PCONPAT1")
  | Block => Ok (bytes_of_string "PCONBLK1")
  | RefState => Ok (bytes_of_string "PCONRFS1")
  | Tag => Ok (bytes_of_string "PCONTAG1")
  | Attestation => Ok (bytes_of_string "PCONATT1")
  | Blob => Ok (bytes_of_string "PCONBLB1")
  | RecognitionClaim => Ok (bytes_of_string "PCONRCL1")
  | RefUpdate | BlockSummaryCache | RecoveryNote =>
      Err (UnsupportedObjectType "{other} has no object container")
  end.

Inductive ContainerRecordStatus : Type :=
| Evaluated (frame_len : nat) (checksum : list byte)
| Failed (message : string) (complete : bool).

Record ContainerRecordOutcome : Type := mkOutcome {
  co_offset : nat;
  co_status : ContainerRecordStatus;
}.

Record ContainerReplay : Type := mkReplayResult {
  cr_records : list ObjectEnvelope;
  cr_trailing_partial_bytes : nat;
  cr_record_outcomes : list ContainerRecordOutcome;
}.

Record ContainerReplaySummary : Type := mkSummary {
  sm_trailing_partial_bytes : nat;
  sm_record_outcomes : list ContainerRecordOutcome;
}.

Definition is_failed (status : ContainerRecordStatus) : bool :=
  match status with Failed _ _ => true | Evaluated _ _ => false end.

Definition has_item_failure (replay : ContainerReplay) : bool :=
  existsb (fun outcome => is_failed (co_status outcome)) (cr_record_outcomes replay).

Record ContainerHeader : Type := mkHeader { h_body_len : Z; h_checksum : list byte }.

Definition parse_header (magic header : list byte) : PResult ContainerHeader :=
  let? '(actual_magic, c) := bc_read_array 8 (ByteCursor_new header) in
  if negb (bool_decide (actual_magic = magic))
  then Err (MalformedData "invalid container record magic")
  else
    let? '(version, c) := bc_read_u16 c in
    if negb (version =? CONTAINER_VERSION) then Err (UnsupportedFormatVersion version)
    else
      let? '(body_len, c) := bc_read_u64 c in
      let? '(checksum, c) := bc_read_array 32 c in
      if negb (is_finished c) then Err (MalformedData "trailing bytes in container header")
      else Ok (mkHeader body_len checksum).

Inductive FrameAttempt : Type :=
| FrameRecord (record : ObjectEnvelope) (next_offset : nat) (checksum : list byte)
| TrailingPartial (remaining : nat)
| Invalid (message : string) (complete : bool)
| ChecksumMismatch (body_end : nat).

Inductive ChecksumMismatchResolution : Type := Complete | Interrupted (sound_frame_offset : nat).

Definition checksum_mismatch_message : string := "container checksum mismatch at byte offset {report_offset}".
Definition checksum_mismatch_interrupted_message : string :=
  "the frame at byte offset {report_offset} claims bytes that a later sound frame at byte offset {sound_frame_offset} already uses".
Definition interrupted_append_before_sound_frame_message : string :=
  "frame at byte offset {reported_offset} claims more bytes than remain, but a sound frame starts at byte offset {reported_next}".
Definition scan_budget_exceeded_message : string :=
  "the bytes after byte offset {reported_offset} look like many frame headers; prikk stopped checking after {SCAN_BUDGET_MULTIPLE}x the file's size".

Section container.
Context `{Sha256}.

Definition record_checksum (magic : list byte) (body_len : Z) (body : list byte) : list byte :=
  sha256 (magic ++ to_be_bytes 2 CONTAINER_VERSION ++ to_be_bytes 8 body_len ++ body).

Definition frame_record (object_type : ObjectType) (body : list byte) : PResult (list byte) :=
  let? magic := container_magic object_type in
  let? body_len := len_to_u64 (zlen body) in
  let checksum := record_checksum magic body_len body in
  let out := magic in
  let out := push_u16 out CONTAINER_VERSION in
  let out := push_u64 out body_len in
  Ok (out ++ checksum ++ body).

Definition encode_container_record_with_known_body (object_type : ObjectType) (envelope : ObjectEnvelope)
    (known_body : option (list byte)) : PResult (list byte) :=
  let? body :=
    match known_body with
    | Some known => Ok known
    | None => encode_envelope_file envelope
    end in
  frame_record object_type body.

Definition encode_container_record (object_type : ObjectType) (envelope : ObjectEnvelope) : PResult (list byte) :=
  encode_container_record_with_known_body object_type envelope None.

Definition frame_len_from_header (object_type : ObjectType) (header : list byte) : PResult Z :=
  let? magic := container_magic object_type in
  let? values := parse_header magic header in
  if usize_max <? h_body_len values then Err (Integrity "container body length does not fit usize")
  else if usize_max <? Z.of_nat CONTAINER_HEADER_LEN + h_body_len values
  then Err (Integrity "container body end overflow")
  else Ok (Z.of_nat CONTAINER_HEADER_LEN + h_body_len values).

Section decode.
Context `{FrameSource} (object_type_ : ObjectType) (magic : list byte) (max_body_len : option Z).

(** Parse one frame.  The source's [report_offset] only appears in messages. *)
Definition parse_frame_at (offset : nat) (budget : ScanBudget) : PResult (FrameAttempt * ScanBudget) :=
  let remaining := (total_len - offset)%nat in
  if (remaining <? CONTAINER_HEADER_LEN)%nat then Ok (TrailingPartial remaining, budget)
  else
    let header_end := (offset + CONTAINER_HEADER_LEN)%nat in
    let? found := read_at offset CONTAINER_HEADER_LEN in
    match found with
    | None => Ok (TrailingPartial remaining, budget)
    | Some header =>
        match parse_header magic header with
        | Err _ => Ok (Invalid "at byte offset {report_offset}: {err}" false, budget)
        | Ok values =>
            let body_len := h_body_len values in
            let body_end := Z.of_nat header_end + body_len in
            if usize_max <? body_len
            then Ok (Invalid "container body length does not fit usize at byte offset {report_offset}" false, budget)
            else if usize_max <? body_end
            then Ok (Invalid "container body end overflow at byte offset {report_offset}" false, budget)
            else if Z.of_nat total_len <? body_end then Ok (TrailingPartial remaining, budget)
            else
              let? _ :=
                match max_body_len with
                | Some bound => if bound <? body_len then Err (ObjectOverBound body_len bound) else Ok tt
                | None => Ok tt
                end in
              let body_len' := Z.to_nat body_len in
              let? found := read_at header_end body_len' in
              match found with
              | None => Ok (TrailingPartial remaining, budget)
              | Some body =>
                  let budget := charge budget (zlen body + Z.of_nat CONTAINER_HEADER_LEN) in
                  let expected := record_checksum magic body_len body in
                  if negb (bool_decide (expected = h_checksum values))
                  then Ok (ChecksumMismatch (header_end + body_len'), budget)
                  else
                    match decode_envelope_file body with
                    | Err _ => Ok (Invalid "at byte offset {report_offset}: {err}" true, budget)
                    | Ok envelope =>
                        if negb (bool_decide (object_type envelope = object_type_))
                        then Ok (Invalid "container record at byte offset {report_offset} is under type {object_type} but envelope type is {}" true, budget)
                        else Ok (FrameRecord envelope (header_end + body_len') (h_checksum values), budget)
                    end
              end
        end
    end.

(** The [loop] of [sound_frame_after_partial]; each candidate is behind the one before. *)
Fixpoint sound_after_loop (fuel : nat) (from : nat) (budget : ScanBudget) : PResult (BoundedScan * ScanBudget) :=
  match fuel with
  | O => Err OutOfFuel
  | S fuel' =>
      let? found := scan_for_magic from magic in
      match found with
      | None => Ok (NoSoundFrame, budget)
      | Some candidate =>
          if exceeded budget then Ok (Undetermined, budget)
          else
            let? '(attempt, budget) := parse_frame_at candidate budget in
            match attempt with
            | FrameRecord _ _ _ => Ok (Sound candidate, budget)
            | _ => sound_after_loop fuel' (S candidate) budget
            end
      end
  end.

Definition container_sound_frame_after_partial (offset : nat) (budget : ScanBudget)
  : PResult (BoundedScan * ScanBudget) :=
  sound_after_loop (S (S total_len)) (S offset) budget.

Definition checksum_mismatch_is_complete (offset body_end : nat) (budget : ScanBudget)
  : PResult (ChecksumMismatchResolution * ScanBudget) :=
  if Nat.eqb body_end total_len then Ok (Complete, budget)
  else
    let? '(scan, budget) := container_sound_frame_after_partial offset budget in
    Ok (match scan with
        | Sound next => if (body_end <=? next)%nat then Complete else Interrupted next
        | NoSoundFrame | Undetermined => Complete
        end, budget).

Context {St : Type} (on_record : St -> ObjectEnvelope -> PResult St).

(** The outcome recorded at [offset] and the offset the loop continues at, or its end. *)
Inductive Next : Type :=
| Continue (outcome : ContainerRecordOutcome) (offset : nat)
| Stop (outcomes : list ContainerRecordOutcome) (trailing : nat).

(** One iteration of the decode loop. *)
Definition decode_step (offset : nat) (budget : ScanBudget) (st : St) : PResult (Next * ScanBudget * St) :=
  if exceeded budget
  then Ok (Stop [mkOutcome offset (Failed scan_budget_exceeded_message false)] 0, budget, st)
  else
    let? '(attempt, budget) := parse_frame_at offset budget in
    match attempt with
    | FrameRecord record next_offset checksum =>
        let outcome := mkOutcome offset (Evaluated (next_offset - offset) checksum) in
        let? st := on_record st record in
        let? next := require_progress "container" offset next_offset in
        Ok (Continue outcome next, budget, st)
    | TrailingPartial remaining =>
        let? '(sound_after, budget) := container_sound_frame_after_partial offset budget in
        match sound_after with
        | NoSoundFrame => Ok (Stop [] remaining, budget, st)
        | Undetermined =>
            Ok (Stop [mkOutcome offset (Failed scan_budget_exceeded_message false)] 0, budget, st)
        | Sound next =>
            let outcome := mkOutcome offset (Failed interrupted_append_before_sound_frame_message false) in
            let? next := require_progress "container" offset next in
            Ok (Continue outcome next, budget, st)
        end
    | Invalid message complete =>
        let outcome := mkOutcome offset (Failed message complete) in
        let? found := scan_for_magic (S offset) magic in
        match found with
        | Some next => Ok (Continue outcome next, budget, st)
        | None => Ok (Stop [outcome] 0, budget, st)
        end
    | ChecksumMismatch body_end =>
        let? '(resolution, budget) := checksum_mismatch_is_complete offset body_end budget in
        let outcome :=
          match resolution with
          | Complete => mkOutcome offset (Failed checksum_mismatch_message true)
          | Interrupted _ => mkOutcome offset (Failed checksum_mismatch_interrupted_message false)
          end in
        let? found := scan_for_magic (S offset) magic in
        match found with
        | Some next => Ok (Continue outcome next, budget, st)
        | None => Ok (Stop [outcome] 0, budget, st)
        end
    end.

(** The decode [loop]: every iteration moves [offset] forward. *)
Fixpoint decode_loop (fuel : nat) (offset : nat) (budget : ScanBudget) (st : St)
    (record_outcomes : list ContainerRecordOutcome)
  : PResult (ContainerReplaySummary * ScanBudget * St) :=
  match fuel with
  | O => Err OutOfFuel
  | S fuel' =>
      let? '(next, budget, st) := decode_step offset budget st in
      match next with
      | Continue outcome offset => decode_loop fuel' offset budget st (record_outcomes ++ [outcome])
      | Stop outcomes trailing => Ok (mkSummary trailing (record_outcomes ++ outcomes), budget, st)
      end
  end.
End decode.

(** The loop with its final budget. *)
Definition decode_frames_budget `{FrameSource} (object_type : ObjectType) (max_body_len : option Z)
    {St} (on_record : St -> ObjectEnvelope -> PResult St) (st : St)
  : PResult (ContainerReplaySummary * ScanBudget * St) :=
  let? magic := container_magic object_type in
  decode_loop object_type magic max_body_len on_record (S (S total_len)) 0
    (ScanBudget_for_input total_len) st [].

Definition decode_frames_with `{FrameSource} (object_type : ObjectType) (max_body_len : option Z)
    {St} (on_record : St -> ObjectEnvelope -> PResult St) (st : St) : PResult (ContainerReplaySummary * St) :=
  let? '(summary, _, st) := decode_frames_budget object_type max_body_len on_record st in
  Ok (summary, st).

Definition decode_frames `{FrameSource} (object_type : ObjectType) (max_body_len : option Z) : PResult ContainerReplay :=
  let? '(summary, records) :=
    decode_frames_with object_type max_body_len (fun records record => Ok (records ++ [record])) [] in
  Ok (mkReplayResult records (sm_trailing_partial_bytes summary) (sm_record_outcomes summary)).

Definition decode_container_records (object_type : ObjectType) (bytes : list byte) : PResult ContainerReplay :=
  @decode_frames (SliceFrameSource bytes) object_type None.

Definition decode_container_record_in_window (object_type : ObjectType) (window : list byte)
  : PResult (option ObjectEnvelope) :=
  let? magic := container_magic object_type in
  let budget := ScanBudget_for_input (length window) in
  let? '(attempt, _) := @parse_frame_at (SliceFrameSource window) object_type magic None 0 budget in
  match attempt with
  | FrameRecord record _ _ => Ok (Some record)
  | TrailingPartial _ => Ok None
  | Invalid _ _ => Err (Integrity "container record at offset {container_offset} failed to validate: {message}")
  | ChecksumMismatch _ => Err (Integrity "container record at offset {container_offset} failed to validate: {}")
  end.
End container.

(** ** The header of a frame *)

Definition enc_header (magic : list byte) (body_len : Z) (checksum : list byte) : list byte :=
  magic ++ to_be_bytes 2 CONTAINER_VERSION ++ to_be_bytes 8 body_len ++ checksum.

Lemma container_magic_length t magic : container_magic t = Ok magic -> length magic = 8%nat.
Proof. destruct t; intros [= <-]; reflexivity. Qed.

Lemma length_enc_header magic n c :
  length magic = 8%nat -> length c = 32%nat -> length (enc_header magic n c) = CONTAINER_HEADER_LEN.
Proof. intros Hm Hc. unfold enc_header. by rewrite !length_app, !length_to_be_bytes, Hm, Hc. Qed.

Lemma parse_header_enc magic n c :
  length magic = 8%nat -> length c = 32%nat -> u64 n -> parse_header magic (enc_header magic n c) = Ok (mkHeader n c).
Proof.
  intros Hm Hc Hn. unfold parse_header.
  pose proof (length_enc_header _ n _ Hm Hc) as Hl.
  assert (Hs : standing (ByteCursor_new (enc_header magic n c)) (enc_header magic n c)).
  { apply standing_new. unfold zlen. rewrite Hl. unfold CONTAINER_HEADER_LEN. lia. }
  unfold enc_header at 2 in Hs.
  destruct (reads_exact magic _ _ Hs) as (c1 & H1 & Hs1). unfold zlen in H1. rewrite Hm in H1. change (Z.of_nat 8) with 8 in H1.
  unfold bc_read_array. rewrite H1. rewrite bool_decide_true by done. cbn [negb].
  destruct (reads_u16 CONTAINER_VERSION ltac:(unfold u16, CONTAINER_VERSION; lia) _ _ Hs1) as (c2 & -> & Hs2).
  rewrite Z.eqb_refl. cbn [negb].
  destruct (reads_u64 n Hn _ _ Hs2) as (c3 & -> & Hs3).
  rewrite <- (app_nil_r c) in Hs3. destruct (reads_exact c _ _ Hs3) as (c4 & H4 & Hs4).
  unfold zlen in H4. rewrite Hc in H4. change (Z.of_nat 32) with 32 in H4. rewrite H4, (standing_finished _ _ Hs4). reflexivity.
Qed.

Lemma parse_header_inv magic header v :
  length header = CONTAINER_HEADER_LEN -> parse_header magic header = Ok v ->
  header = enc_header magic (h_body_len v) (h_checksum v) /\ u64 (h_body_len v) /\ length (h_checksum v) = 32%nat.
Proof.
  intros Hl H. unfold parse_header, bc_read_array in H.
  assert (Hs : standing (ByteCursor_new header) header).
  { apply standing_new. unfold zlen. rewrite Hl. unfold CONTAINER_HEADER_LEN. lia. }
  destruct (bc_read_exact 8 _) as [[m c1]|] eqn:H1; [|done].
  destruct (consumes_exact 8 ltac:(lia) _ _ _ _ Hs H1) as (r1 & -> & Hs1 & Hm).
  case_bool_decide as Heq; [|done]. cbn [negb] in H. subst m.
  destruct (bc_read_u16 c1) as [[ver c2]|] eqn:H2; [|done].
  destruct (consumes_u16 _ _ _ _ Hs1 H2) as (r2 & -> & Hs2 & _).
  destruct (Z.eqb_spec ver CONTAINER_VERSION) as [->|]; [|done]. cbn [negb] in H.
  destruct (bc_read_u64 c2) as [[n c3]|] eqn:H3; [|done].
  destruct (consumes_u64 _ _ _ _ Hs2 H3) as (r3 & -> & Hs3 & Hn).
  destruct (bc_read_exact 32 c3) as [[ck c4]|] eqn:H4; [|done].
  destruct (consumes_exact 32 ltac:(lia) _ _ _ _ Hs3 H4) as (r4 & -> & Hs4 & Hc).
  rewrite (standing_finished _ _ Hs4) in H. case_bool_decide as Hr; [|done]. cbn [negb] in H.
  inv_ok. cbn [h_body_len h_checksum]. rewrite app_nil_r. split_and!; [done|done|unfold zlen in Hc; lia].
Qed.
