(* ===== verification/Payload.v ===== *)
(** * The interface of a payload codec

    What one payload type promises to the rest of the system: its decoder inverts its encoder on
    every well-formed value.  [PayloadCodec] is that promise as a class; each payload file
    discharges it, and clients (identity, the object store) are proved against it.  The file also
    holds what the codec proofs share: how each field reader answers on a written field, how a
    decode loop collects a repeated field, and the invariant that makes a decoder canonical. *)

From S2P Require Import Prelude PrikkError Hash Utf8 Canonical Cursor ObjectId.

Class PayloadCodec (T : Type) : Type := {
  pc_encode :: CanonicalEncode T;
  pc_decode : list byte -> PResult T;
  pc_wf : T -> Prop;
  (** Decoding the canonical bytes of a well-formed payload gives the payload back. *)
  pc_roundtrip : forall p bytes,
    pc_wf p -> zlen bytes < 2 ^ 64 -> to_canonical_bytes p = Ok bytes -> pc_decode bytes = Ok p;
}.

(** A decoder that accepts nothing but canonical bytes. *)
Class CanonicalCodec (T : Type) : Type := {
  cc_codec :: PayloadCodec T;
  cc_canonical : forall p bytes,
    zlen bytes < 2 ^ 64 -> pc_decode bytes = Ok p -> pc_wf p /\ to_canonical_bytes p = Ok bytes;
}.

(** Against the interface: decoding is exactly the inverse of encoding. *)
Lemma pc_decode_iff `{CanonicalCodec T} p bytes :
  zlen bytes < 2 ^ 64 ->
  pc_decode bytes = Ok p <-> pc_wf p /\ to_canonical_bytes p = Ok bytes.
Proof.
  intros Hl. split; [by apply cc_canonical|]. intros [Hw He]. by apply pc_roundtrip.
Qed.

(** A property of the value in a filled slot. *)
Definition opt_all {A} (P : A -> Prop) (o : option A) : Prop :=
  match o with Some x => P x | None => True end.

(** Against the interface: the canonical encoding is injective on well-formed payloads. *)
Lemma to_canonical_bytes_inj `{PayloadCodec T} p q bytes :
  pc_wf p -> pc_wf q -> zlen bytes < 2 ^ 64 ->
  to_canonical_bytes p = Ok bytes -> to_canonical_bytes q = Ok bytes -> p = q.
Proof.
  intros Hp Hq Hl H1 H2. apply pc_roundtrip in H1; [|done..]. apply pc_roundtrip in H2; [|done..].
  congruence.
Qed.

(** ** Field readers on written fields *)

Section readers.
Variable mk : string -> PrikkError.

Lemma require_wire_written t w v : require_wire mk (wfield t w v) w = Ok tt.
Proof. unfold require_wire, wfield. cbn. by rewrite Z.eqb_refl. Qed.

Lemma field_read_array_written t w v n :
  length v = n -> field_read_array mk (wfield t w v) n = Ok v.
Proof. intros <-. unfold field_read_array. cbn. by rewrite Nat.eqb_refl. Qed.

Lemma read_string_written t v : rust_string v -> read_string mk (wfield t WireString v) = Ok v.
Proof. intros Hv. unfold read_string. rewrite require_wire_written. cbn. by rewrite Hv. Qed.

Lemma read_bytes_written t v : read_bytes mk (wfield t WireBytes v) = Ok v.
Proof. unfold read_bytes. by rewrite require_wire_written. Qed.

Lemma read_object_id_written t v : wf_id v -> read_object_id mk (wfield t WireObjectId v) = Ok v.
Proof.
  intros. unfold read_object_id. by rewrite require_wire_written, field_read_array_written.
Qed.

Lemma read_u32_written t z : u32 z -> read_u32 mk (wfield t WireU32 (to_be_bytes 4 z)) = Ok z.
Proof.
  unfold u32. intros. unfold read_u32.
  rewrite require_wire_written, field_read_array_written by apply length_to_be_bytes.
  rewrite from_to_be_bytes_small; [done|]. cbn. lia.
Qed.

Lemma read_u64_written t z : u64 z -> read_u64 mk (wfield t WireU64 (to_be_bytes 8 z)) = Ok z.
Proof.
  unfold u64. intros. unfold read_u64.
  rewrite require_wire_written, field_read_array_written by apply length_to_be_bytes.
  rewrite from_to_be_bytes_small; [done|]. cbn. lia.
Qed.

Lemma read_enum_u16_written t z :
  u16 z -> read_enum_u16 mk (wfield t WireEnumU16 (to_be_bytes 2 z)) = Ok z.
Proof.
  unfold u16. intros. unfold read_enum_u16.
  rewrite require_wire_written, field_read_array_written by apply length_to_be_bytes.
  rewrite from_to_be_bytes_small; [done|]. cbn. lia.
Qed.

(** *** What a reader's success says about the field *)

Lemma require_wire_inv f w : require_wire mk f w = Ok tt -> f = wfield (tag f) w (value f).
Proof.
  unfold require_wire. destruct (Z.eqb_spec (wire_type f) (wire_code w)) as [Hw|]; [|done].
  intros _. destruct f as [t wt v]. cbn in *. unfold wfield. by rewrite <- Hw.
Qed.

Lemma field_read_array_inv f n v : field_read_array mk f n = Ok v -> v = value f /\ length v = n.
Proof.
  unfold field_read_array. destruct (Nat.eqb_spec (length (value f)) n); [|done].
  by intros [= <-].
Qed.

Lemma read_string_inv f v :
  read_string mk f = Ok v -> f = wfield (tag f) WireString v /\ rust_string v.
Proof.
  unfold read_string. destruct (require_wire mk f WireString) as [[]|] eqn:Hw; [|done].
  destruct (from_utf8 (value f)) eqn:Hu; [|done]. intros [= <-].
  split; [by apply require_wire_inv|done].
Qed.

Lemma read_bytes_inv f v : read_bytes mk f = Ok v -> f = wfield (tag f) WireBytes v.
Proof.
  unfold read_bytes. destruct (require_wire mk f WireBytes) as [[]|] eqn:Hw; [|done].
  intros [= <-]. by apply require_wire_inv.
Qed.

Lemma read_object_id_inv f v :
  read_object_id mk f = Ok v -> f = wfield (tag f) WireObjectId v /\ wf_id v.
Proof.
  unfold read_object_id. destruct (require_wire mk f WireObjectId) as [[]|] eqn:Hw; [|done].
  intros [-> Hl]%field_read_array_inv. split; [by apply require_wire_inv|done].
Qed.

Lemma read_be_inv f w n z :
  (let? _ := require_wire mk f w in
   let? bs := field_read_array mk f n in Ok (from_be_bytes bs)) = Ok z ->
  f = wfield (tag f) w (to_be_bytes n z) /\ 0 <= z < 256 ^ Z.of_nat n.
Proof.
  destruct (require_wire mk f w) as [[]|] eqn:Hw; [|done].
  destruct (field_read_array mk f n) as [bs|] eqn:Hr; [|done]. intros [= <-].
  apply field_read_array_inv in Hr as [-> Hl].
  rewrite to_from_be_bytes_len by done. split; [by apply require_wire_inv|].
  rewrite <- Hl. apply from_be_bytes_range.
Qed.

Lemma read_u32_inv f z :
  read_u32 mk f = Ok z -> f = wfield (tag f) WireU32 (to_be_bytes 4 z) /\ u32 z.
Proof. apply (read_be_inv f WireU32 4). Qed.
Lemma read_u64_inv f z :
  read_u64 mk f = Ok z -> f = wfield (tag f) WireU64 (to_be_bytes 8 z) /\ u64 z.
Proof. apply (read_be_inv f WireU64 8). Qed.
Lemma read_enum_u16_inv f z :
  read_enum_u16 mk f = Ok z -> f = wfield (tag f) WireEnumU16 (to_be_bytes 2 z) /\ u16 z.
Proof. apply (read_be_inv f WireEnumU16 2). Qed.
End readers.

(** ** Loops *)

(** A repeated field is collected in order. *)
Lemma foldM_collect {A B} (step : A -> Field -> PResult A) (g : B -> Field) (upd : list B -> A) l :
  (forall l1 x, x ∈ l -> step (upd l1) (g x) = Ok (upd (l1 ++ [x]))) ->
  forall l0, foldM step (upd l0) (map g l) = Ok (upd (l0 ++ l)).
Proof.
  induction l as [|x l IH]; intros Hs l0; cbn [foldM map]; [by rewrite app_nil_r|].
  rewrite Hs by by left. rewrite IH by (intros; apply Hs; by right).
  by rewrite <- app_assoc.
Qed.

(** Running a decode loop segment by segment. *)
Lemma foldM_then {A} (step : A -> Field -> PResult A) a b r l1 l2 :
  foldM step a l1 = Ok b -> foldM step b l2 = r -> foldM step a (l1 ++ l2) = r.
Proof. intros H1 H2. by rewrite foldM_app, H1. Qed.

Lemma foldM_one {A} (step : A -> Field -> PResult A) a b f :
  step a f = Ok b -> foldM step a [f] = Ok b.
Proof. intros H. cbn. by rewrite H. Qed.

Lemma foldM_opt {A B} (step : A -> Field -> PResult A) (g : B -> Field) (upd : option B -> A) o :
  (forall x, o = Some x -> step (upd None) (g x) = Ok (upd (Some x))) ->
  foldM step (upd None) (map g (option_list o)) = Ok (upd o).
Proof. intros H. destruct o as [x|]; [|done]. apply foldM_one. by apply H. Qed.

Lemma foldM_list {A} (step : A -> Field -> PResult A) (P : list byte -> Prop) g
    (upd : list (list byte) -> A) l :
  Forall P l ->
  (forall l1 x, P x -> step (upd l1) (g x) = Ok (upd (l1 ++ [x]))) ->
  foldM step (upd []) (map g l) = Ok (upd l).
Proof.
  intros Hl Hs. apply (foldM_collect step g upd l) with (l0 := []). intros l1 x Hin. apply Hs.
  rewrite Forall_forall in Hl. auto.
Qed.

(** The decode invariant that makes a decoder canonical: [fields_of acc], the fields of the values
    collected so far in canonical order, grows by exactly the field just read, up to [norm] (a
    decoder that ignores part of a field collects the field's normal form). *)
Definition collects_norm {A} (norm : Field -> Field) (step : A -> Field -> PResult A)
    (fields_of : A -> list Field) : Prop :=
  forall a f a', step a f = Ok a' -> Forall (fun g => tag g <= tag f) (fields_of a) ->
    fields_of a' = fields_of a ++ [norm f].

Definition collects {A} (step : A -> Field -> PResult A) (fields_of : A -> list Field) : Prop :=
  collects_norm (fun f => f) step fields_of.

Lemma decode_fields_collects_norm {A} mk norm (step : A -> Field -> PResult A) fields_of init bytes r :
  (forall f, tag (norm f) = tag f) ->
  collects_norm norm step fields_of -> fields_of init = [] ->
  decode_fields mk step init bytes = Ok r ->
  exists fs, bytes = enc_fields fs /\ wf_fields fs /\ fields_of r = map norm fs.
Proof.
  intros Hn Hc Hi H. apply decode_fields_sound in H as (fs & -> & Hwf & Hf).
  exists fs. split; [done|]. split; [done|]. destruct Hwf as [Ht _].
  revert r Hf. induction fs as [|f fs IH] using rev_ind; intros r Hf.
  - cbn in Hf. by inv_ok.
  - apply foldM_snoc_inv in Hf as (a & Ha & Hs). rewrite map_app.
    rewrite (Hc a f r Hs); rewrite (IH (tags_between_prefix _ _ _ _ Ht) a Ha); [done|].
    apply Forall_map, Forall_forall. intros g Hg. cbn. rewrite Hn. by eapply tags_between_snoc_inv.
Qed.

Lemma decode_fields_collects {A} mk (step : A -> Field -> PResult A) fields_of init bytes r :
  collects step fields_of -> fields_of init = [] ->
  decode_fields mk step init bytes = Ok r ->
  bytes = enc_fields (fields_of r).
Proof.
  intros Hc Hi H.
  destruct (decode_fields_collects_norm mk (fun f => f) step fields_of init bytes r)
    as (fs & -> & _ & ->); try done. by rewrite map_id.
Qed.

(** An invariant of the accumulated values, whatever the order of fields. *)
Lemma decode_fields_preserves {A} mk (step : A -> Field -> PResult A) (P : A -> Prop) init bytes r :
  (forall a f a', P a -> step a f = Ok a' -> P a') -> P init ->
  decode_fields mk step init bytes = Ok r -> P r.
Proof.
  intros Hs Hi H. apply decode_fields_sound in H as (fs & _ & _ & Hf).
  eapply (foldM_inv step (fun _ a => P a)); eauto.
Qed.

(** A field's value is no longer than the bytes it is part of. *)
Lemma enc_fields_value_len fs f : f ∈ fs -> zlen (value f) <= zlen (enc_fields fs).
Proof.
  induction fs as [|g fs IH]; [by intros ?%elem_of_nil|]. rewrite enc_fields_cons, zlen_app.
  pose proof (zlen_nonneg (enc_fields fs)). pose proof (zlen_nonneg (enc_field g)).
  intros [->|Hin]%elem_of_cons; [rewrite zlen_enc_field; lia|]. specialize (IH Hin). lia.
Qed.

(** Decoding the bytes of a written field list folds the step over the fields. *)
Lemma decode_enc_fields {A} mk (step : A -> Field -> PResult A) init fs :
  tags_between 1 65535 (map to_field fs) -> zlen (enc_fields (map to_field fs)) < 2 ^ 64 ->
  decode_fields mk step init (enc_fields (map to_field fs)) = foldM step init (map to_field fs).
Proof.
  intros Ht Hl. apply decode_fields_enc; [|done]. split; [done|].
  apply Forall_forall. intros f Hin. pose proof (enc_fields_value_len _ _ Hin).
  split; [|lia]. apply list_elem_of_fmap in Hin as ([[t w] v] & -> & _). apply wire_code_range.
Qed.

(** The canonical bytes of a field list that a payload's encoder writes. *)
Lemma write_fields_decode {A} mk (step : A -> Field -> PResult A) init fs bytes :
  tags_between 1 65535 (map to_field fs) ->
  (let? w := write_fields fs CanonicalWriter_new in Ok (finish w)) = Ok bytes ->
  zlen bytes < 2 ^ 64 ->
  decode_fields mk step init bytes = foldM step init (map to_field fs).
Proof.
  intros Ht Hw Hl. rewrite write_fields_new in Hw by done. apply Ok_inj in Hw as <-.
  by apply decode_enc_fields.
Qed.

(** ** Tactics *)

#[export] Hint Rewrite @require_wire_written @read_bytes_written : wire.

(** Run a decode step on a written field. *)
Ltac run_readers :=
  repeat first
    [ rewrite read_string_written by assumption
    | rewrite read_object_id_written by assumption
    | rewrite read_u32_written by assumption
    | rewrite read_u64_written by assumption
    | rewrite read_enum_u16_written by auto with wire
    | progress autorewrite with wire ].

Lemma tag_wfield t w v : tag (wfield t w v) = t.
Proof. reflexivity. Qed.
Lemma value_wfield t w v : value (wfield t w v) = v.
Proof. reflexivity. Qed.

(** Select the branch of a decode step's match on the field's tag. *)
Ltac select_tag :=
  cbn [to_field]; rewrite ?tag_wfield; cbn [Z.eqb Pos.eqb is_some].

(** Turn the readers' successes in the context into equations on the field. *)
Ltac inv_readers :=
  repeat match goal with
  | H : require_wire _ _ _ = Ok ?u |- _ => destruct u; apply require_wire_inv in H
  | H : field_read_array _ _ _ = Ok _ |- _ => apply field_read_array_inv in H as [-> ?]
  | H : read_string _ _ = Ok _ |- _ => apply read_string_inv in H as [H ?]
  | H : read_bytes _ _ = Ok _ |- _ => apply read_bytes_inv in H
  | H : read_object_id _ _ = Ok _ |- _ => apply read_object_id_inv in H as [H ?]
  | H : read_u32 _ _ = Ok _ |- _ => apply read_u32_inv in H as [H ?]
  | H : read_u64 _ _ = Ok _ |- _ => apply read_u64_inv in H as [H ?]
  | H : read_enum_u16 _ _ = Ok _ |- _ => apply read_enum_u16_inv in H as [H ?]
  end.

(** The segment of [write_fields] each kind of write amounts to. *)
Lemma write_fields_one t w v wr : field_raw t w v wr = write_fields [(t, w, v)] wr.
Proof. unfold write_fields. cbn. by destruct (field_raw t w v wr). Qed.

Lemma repeated_object_id_fields t ids w :
  repeated_object_id t ids w = write_fields (map (fun id => (t, WireObjectId, id)) ids) w.
Proof.
  unfold repeated_object_id, write_fields. revert w.
  induction ids as [|id ids IH]; intros w; cbn; [done|]. unfold field_object_id at 1.
  destruct (field_raw t WireObjectId id w); [apply IH|done].
Qed.

Lemma field_opt_fields t wt (o : option (list byte)) w :
  match o with Some v => field_raw t wt v w | None => Ok w end
  = write_fields (map (fun v => (t, wt, v)) (option_list o)) w.
Proof. destruct o; [apply write_fields_one|done]. Qed.

Lemma field_when_fields (b : bool) t wt v w :
  (if b then field_raw t wt v w else Ok w) = write_fields (if b then [(t, wt, v)] else []) w.
Proof. destruct b; [apply write_fields_one|done]. Qed.

(** Tag order of a field list written segment by segment. *)
Lemma tags_seg lo t hi seg rest :
  Forall (fun f => tag f = t) seg -> lo <= t -> tags_between t hi rest ->
  tags_between lo hi (seg ++ rest).
Proof.
  intros Hseg Hle Hrest. eapply (tags_between_app _ t); [|done]. clear Hrest. revert lo Hle.
  induction seg as [|f seg IH]; intros lo Hle; cbn; [done|].
  apply Forall_cons in Hseg as [Hf Hseg]. rewrite Hf. split; [done|]. apply IH; [done|lia].
Qed.

Lemma Forall_tag_map {A} (g : A -> Z * WireType * list byte) t l :
  (forall x, tag (to_field (g x)) = t) -> Forall (fun f => tag f = t) (map to_field (map g l)).
Proof. intros Hg. rewrite map_map. apply Forall_map. by apply Forall_true. Qed.

Lemma Forall_tag_one t w v : Forall (fun f => tag f = t) (map to_field [(t, w, v)]).
Proof. by repeat constructor. Qed.

Lemma Forall_tag_when (b : bool) t w v :
  Forall (fun f => tag f = t) (map to_field (if b then [(t, w, v)] else [])).
Proof. destruct b; by repeat constructor. Qed.

Ltac tag_segment :=
  first [ apply Forall_tag_one | apply Forall_tag_when
        | eapply Forall_tag_map; intros; cbn; reflexivity ].
Ltac solve_tags :=
  rewrite ?map_app;
  repeat (eapply tags_seg; [tag_segment|lia|]);
  lazymatch goal with
  | |- tags_between _ _ (map to_field _) =>
      rewrite <- (app_nil_r (map to_field _)); eapply tags_seg; [tag_segment|lia|cbn; lia]
  end.

(** One step of an encoder: a write followed by the rest. *)
Lemma write_fields_then fs1 fs2 w0 e (k : CanonicalWriter -> PResult CanonicalWriter) :
  e = write_fields fs1 w0 -> (forall w, k w = write_fields fs2 w) ->
  (let? w := e in k w) = write_fields (fs1 ++ fs2) w0.
Proof.
  intros -> Hk. rewrite write_fields_app. destruct (write_fields fs1 w0); [apply Hk|done].
Qed.

(** Prove that an encoder is [write_fields] of its field list. *)
Ltac encoder_segment :=
  first [ apply write_fields_one | apply repeated_object_id_fields | apply field_opt_fields
        | apply field_when_fields ].
Ltac encoder_fields :=
  repeat (apply write_fields_then; [encoder_segment | intros ?]); encoder_segment.

(** ** Proving that a decode step collects *)

Lemma later_nil {A} (g : A -> Field) (t : Z) (l : list A) :
  Forall (fun x => tag x <= t) (map g l) -> (forall x, t < tag (g x)) -> l = [].
Proof. destruct l as [|x l]; [done|]. intros [Hx _]%Forall_cons Hg. specialize (Hg x). lia. Qed.

Lemma later_none {A} (g : A -> Field) (t : Z) (o : option A) :
  Forall (fun x => tag x <= t) (map g (option_list o)) -> (forall x, t < tag (g x)) -> o = None.
Proof. destruct o; [|done]. intros Hl Hg. by pose proof (later_nil g t _ Hl Hg). Qed.

(** Case analysis on the field's tag. *)
Ltac split_tag Hs :=
  repeat match type of Hs with
  | context [Z.eqb (tag ?f) ?k] => destruct (Z.eqb_spec (tag f) k)
  end.

Ltac none_of_is_some :=
  repeat match goal with
  | H : is_some ?o = false |- _ => destruct o; [discriminate H|clear H]
  | H : is_some ?o = true |- _ => destruct o; [clear H|discriminate H]
  end.

(** Slots with a later tag than the field just read are still empty. *)
Ltac later_empty :=
  repeat match goal with
  | H : Forall _ (_ ++ _) |- _ => apply Forall_app in H as [? ?]
  | H : Forall _ (map ?g (option_list ?o)) |- _ =>
      first [ is_var o; assert (o = None) as -> by (eapply later_none; [exact H|intros; cbn; lia]); clear H
            | clear H ]
  | H : Forall _ (map ?g ?l) |- _ =>
      first [ is_var l; assert (l = []) as -> by (eapply later_nil; [exact H|intros; cbn; lia]); clear H
            | clear H ]
  end.

Ltac collect_finish :=
  cbn [option_list option_rect map app]; rewrite ?map_app, ?app_nil_r, <- ?app_assoc, ?app_nil_r;
  cbn [option_list option_rect map app]; try congruence;
  repeat (apply (f_equal2 app); [reflexivity|]); try congruence.

(** ** Properties *)

(** For every payload type whose codec keeps the interface's promise, the object identifier
    identifies the payload: two well-formed payloads of one type and schema with the same object
    identifier are equal, or their preimages are a SHA-256 collision. *)
Theorem payload_identity `{Sha256} `{PayloadCodec T} t v (p q : T) bp bq :
  u32 v -> pc_wf p -> pc_wf q -> zlen bp < 2 ^ 64 ->
  to_canonical_bytes p = Ok bp -> to_canonical_bytes q = Ok bq ->
  from_canonical_payload t v bp = from_canonical_payload t v bq ->
  p = q \/ sha256_collision (object_id_preimage t v bp) (object_id_preimage t v bq).
Proof.
  intros Hv Hp Hq Hl Hbp Hbq [Heq|?]%sha256_inj_or_collision; [left|by right].
  apply object_id_preimage_inj in Heq as (_ & _ & <-); [|done..].
  by eapply to_canonical_bytes_inj.
Qed.

(** The codec of byte strings written as one field, used as the concrete codec below. *)
#[local] Instance bytes_encode : CanonicalEncode (list byte) := fun p w => field_bytes 1 p w.

Definition bytes_decode (bytes : list byte) : PResult (list byte) :=
  decode_fields MalformedData (fun _ f => read_bytes MalformedData f) [] bytes.

Lemma bytes_roundtrip (p : list byte) bytes :
  True -> zlen bytes < 2 ^ 64 -> to_canonical_bytes p = Ok bytes -> bytes_decode bytes = Ok p.
Proof.
  intros _ Hl Hb. unfold to_canonical_bytes, encode_canonical, bytes_encode, field_bytes in Hb.
  rewrite (write_fields_one 1 WireBytes p) in Hb. unfold bytes_decode.
  rewrite (write_fields_decode _ _ _ [(1, WireBytes, p)] bytes); [|cbn; lia|done|done].
  cbn [map foldM to_field]. by rewrite read_bytes_written.
Qed.

Definition bytes_codec : PayloadCodec (list byte) := {|
  pc_decode := bytes_decode;
  pc_wf := fun _ => True;
  pc_roundtrip := bytes_roundtrip;
|}.

Definition witness_canonical : list byte :=
  match to_canonical_bytes [x61] with Ok b => b | Err _ => [] end.

Lemma payload_identity_witness :
  [x61] = [x61] \/ @sha256_collision hash_mod_p (object_id_preimage Blob 1 witness_canonical)
                    (object_id_preimage Blob 1 witness_canonical).
Proof.
  apply (@payload_identity hash_mod_p _ bytes_codec Blob 1 [x61] [x61]
           witness_canonical witness_canonical);
    try exact I; vm_compute; try reflexivity.
  split; [intros Hc; discriminate Hc|reflexivity].
Defined.
