(* ===== verification/Blob.v ===== *)
(** * Blob payloads (crates/prikk-object/src/payload/blob.rs) *)

From S2P Require Import Prelude PrikkError Hash Utf8 Canonical Cursor ObjectId Payload.

Inductive BlobKind : Type := BlobText | BlobBinary | BlobSnapshot.
#[global] Instance BlobKind_eq_dec : EqDecision BlobKind.
Proof. solve_decision. Defined.

Definition BlobKind_code (k : BlobKind) : Z :=
  match k with BlobText => 0x0001 | BlobBinary => 0x0002 | BlobSnapshot => 0x0003 end.

Definition BlobKind_from_code (code : Z) : PResult BlobKind :=
  if code =? 0x0001 then Ok BlobText
  else if code =? 0x0002 then Ok BlobBinary
  else if code =? 0x0003 then Ok BlobSnapshot
  else Err (MalformedData "unknown or reserved blob_kind code: {other:#06x}").

Record BlobPayload : Type := mkBlob {
  blob_kind : BlobKind;
  content : list byte;
  declared_size : Z;
}.
#[global] Instance BlobPayload_eq_dec : EqDecision BlobPayload.
Proof. solve_decision. Defined.

(** [content.len() as u64]. *)
Definition BlobPayload_new (blob_kind : BlobKind) (content : list byte) : BlobPayload :=
  mkBlob blob_kind content (zlen content).

(** [BlobCursor] and [BlobField]. *)
Definition BlobCursor_next_field := next_field MalformedData.
Definition BlobField_read_array := field_read_array MalformedData.
Definition BlobField_require_wire := require_wire MalformedData.

(** The locals of [decode_canonical]. *)
Record BlobAcc : Type := mkBlobAcc {
  ba_blob_kind : option BlobKind;
  ba_content : option (list byte);
  ba_declared_size : option Z;
}.

(** The body of the [while let] loop of [decode_canonical]. *)
Definition BlobPayload_decode_step (a : BlobAcc) (field : Field) : PResult BlobAcc :=
  if tag field =? 1 then
    if is_some (ba_blob_kind a) then Err (MalformedData "duplicate Blob blob_kind field")
    else
      let? _ := BlobField_require_wire field WireEnumU16 in
      let? bs := BlobField_read_array field 2 in
      let? k := BlobKind_from_code (from_be_bytes bs) in
      Ok (mkBlobAcc (Some k) (ba_content a) (ba_declared_size a))
  else if tag field =? 2 then
    if is_some (ba_content a) then Err (MalformedData "duplicate Blob content field")
    else
      let? _ := BlobField_require_wire field WireBytes in
      Ok (mkBlobAcc (ba_blob_kind a) (Some (value field)) (ba_declared_size a))
  else if tag field =? 3 then
    if is_some (ba_declared_size a) then Err (MalformedData "duplicate Blob declared_size field")
    else
      let? _ := BlobField_require_wire field WireU64 in
      let? bs := BlobField_read_array field 8 in
      Ok (mkBlobAcc (ba_blob_kind a) (ba_content a) (Some (from_be_bytes bs)))
  else Err (MalformedData "unknown Blob field tag: {other}").

Definition BlobPayload_decode (bytes : list byte) : PResult BlobPayload :=
  let? a := decode_fields MalformedData BlobPayload_decode_step (mkBlobAcc None None None) bytes in
  let? blob_kind := ok_or (ba_blob_kind a) (MalformedData "Blob missing blob_kind") in
  let? content := ok_or (ba_content a) (MalformedData "Blob missing content") in
  let? declared_size := ok_or (ba_declared_size a) (MalformedData "Blob missing declared_size") in
  if negb (declared_size =? zlen content)
  then Err (MalformedData "Blob declared_size {declared_size} does not match content length {}")
  else Ok (mkBlob blob_kind content declared_size).

#[global] Instance BlobPayload_encode : CanonicalEncode BlobPayload := fun p w =>
  if negb (declared_size p =? zlen (content p))
  then Err (CanonicalEncoding "Blob declared_size {} does not match content length {}")
  else
    let? w := field_enum_u16 1 (BlobKind_code (blob_kind p)) w in
    let? w := field_bytes 2 (content p) w in
    field_u64 3 (declared_size p) w.

(** ** Lemmas *)

Lemma BlobKind_from_to_code k : BlobKind_from_code (BlobKind_code k) = Ok k.
Proof. by destruct k. Qed.
Lemma BlobKind_from_code_inv c k : BlobKind_from_code c = Ok k -> c = BlobKind_code k.
Proof. unfold BlobKind_from_code. intros H. inv_ok; cbn; lia. Qed.
Lemma BlobKind_code_range k : u16 (BlobKind_code k).
Proof. destruct k; split; cbn; lia. Qed.
#[export] Hint Resolve BlobKind_code_range : wire.
#[export] Hint Rewrite BlobKind_from_to_code : wire.

Definition Blob_fields (p : BlobPayload) : list (Z * WireType * list byte) :=
  [(1, WireEnumU16, to_be_bytes 2 (BlobKind_code (blob_kind p)))]
    ++ [(2, WireBytes, content p)] ++ [(3, WireU64, to_be_bytes 8 (declared_size p))].

Lemma Blob_encode_fields p w :
  declared_size p = zlen (content p) -> encode_canonical p w = write_fields (Blob_fields p) w.
Proof.
  intros Hd. unfold encode_canonical, BlobPayload_encode. rewrite Hd, Z.eqb_refl. cbn [negb].
  unfold Blob_fields. rewrite Hd. encoder_fields.
Qed.

Lemma Blob_tags p : tags_between 1 65535 (map to_field (Blob_fields p)).
Proof. unfold Blob_fields. solve_tags. Qed.

Lemma Blob_encode_valid (p : BlobPayload) bytes :
  to_canonical_bytes p = Ok bytes -> declared_size p = zlen (content p).
Proof.
  unfold to_canonical_bytes, encode_canonical, BlobPayload_encode.
  destruct (Z.eqb_spec (declared_size p) (zlen (content p))); [done|discriminate].
Qed.

Lemma Blob_roundtrip p bytes :
  zlen bytes < 2 ^ 64 -> to_canonical_bytes p = Ok bytes -> BlobPayload_decode bytes = Ok p.
Proof.
  intros Hl Hb. pose proof (Blob_encode_valid p bytes Hb) as Hd.
  unfold to_canonical_bytes in Hb. rewrite Blob_encode_fields in Hb by done.
  assert (Hc : zlen (content p) < 2 ^ 64).
  { assert (Hb' := Hb). rewrite write_fields_new in Hb' by apply Blob_tags. apply Ok_inj in Hb'.
    subst bytes. unfold Blob_fields in Hl. cbn [app map to_field] in Hl.
    rewrite !enc_fields_cons, !zlen_app, !zlen_enc_field in Hl. cbn [value wfield] in Hl.
    rewrite !zlen_to_be_bytes in Hl. pose proof (zlen_nonneg (enc_fields [])). lia. }
  unfold BlobPayload_decode. rewrite (write_fields_decode _ _ _ _ _ (Blob_tags p) Hb Hl).
  unfold Blob_fields. cbn [app map foldM to_field]. unfold BlobPayload_decode_step,
    BlobField_require_wire, BlobField_read_array.
  cbn [tag wfield Z.eqb Pos.eqb is_some ba_blob_kind ba_content ba_declared_size value].
  pose proof (zlen_nonneg (content p)).
  rewrite !require_wire_written, !field_read_array_written by apply length_to_be_bytes.
  rewrite from_to_be_bytes_small by (apply BlobKind_code_range). autorewrite with wire. cbn [ba_blob_kind ba_content ba_declared_size is_some].
  rewrite from_to_be_bytes_small by (cbn; lia). cbn [ok_or ba_blob_kind ba_content ba_declared_size].
  rewrite Hd, Z.eqb_refl. cbn [negb]. rewrite <- Hd. by destruct p.
Qed.

(** ** Canonicality of the decoder *)

Definition BlobAcc_fields (a : BlobAcc) : list Field :=
  map (fun k => wfield 1 WireEnumU16 (to_be_bytes 2 (BlobKind_code k))) (option_list (ba_blob_kind a))
    ++ map (wfield 2 WireBytes) (option_list (ba_content a))
    ++ map (fun z => wfield 3 WireU64 (to_be_bytes 8 z)) (option_list (ba_declared_size a)).

Lemma BlobAcc_collects : collects BlobPayload_decode_step BlobAcc_fields.
Proof.
  intros [o1 o2 o3] f a' Hs Hle. unfold BlobPayload_decode_step, BlobField_require_wire,
    BlobField_read_array, BlobAcc_fields in *.
  cbn [ba_blob_kind ba_content ba_declared_size] in *.
  split_tag Hs; inv_ok; none_of_is_some; later_empty;
    cbn [ba_blob_kind ba_content ba_declared_size] in *; inv_readers.
  all: collect_finish.
  - match goal with H : BlobKind_from_code _ = Ok _ |- _ => apply BlobKind_from_code_inv in H; rewrite <- H end.
    rewrite to_from_be_bytes_len by done. congruence.
  - rewrite to_from_be_bytes_len by done. congruence.
Qed.

Lemma Blob_canonical bytes p :
  BlobPayload_decode bytes = Ok p -> to_canonical_bytes p = Ok bytes.
Proof.
  unfold BlobPayload_decode. intros H.
  destruct (decode_fields _ _ _ bytes) as [[o1 o2 o3]|] eqn:Hd; [|discriminate].
  eapply decode_fields_collects in Hd as ->; [|apply BlobAcc_collects|done].
  cbn [ba_blob_kind ba_content ba_declared_size] in H. inv_ok.
  destruct (Z.eqb_spec a1 (zlen a0)); [|discriminate].
  unfold to_canonical_bytes. rewrite Blob_encode_fields by done.
  by rewrite write_fields_new by apply Blob_tags.
Qed.

(** A decoded blob is the one the constructor makes from its kind and content. *)
Lemma Blob_decode_new bytes p :
  BlobPayload_decode bytes = Ok p ->
  BlobPayload_new (blob_kind p) (content p) = p /\ to_canonical_bytes p = Ok bytes.
Proof.
  intros Hd. split; [|by apply Blob_canonical]. unfold BlobPayload_decode in Hd.
  destruct (decode_fields _ _ _ bytes) as [[o1 o2 o3]|]; [|discriminate].
  destruct o1 as [k|], o2 as [c|], o3 as [z|]; try discriminate.
  cbn [ba_blob_kind ba_content ba_declared_size ok_or] in Hd.
  destruct (Z.eqb_spec z (zlen c)) as [Hz|]; [|discriminate].
  apply Ok_inj in Hd as <-. unfold BlobPayload_new. cbn. by rewrite Hz.
Qed.

#[global] Instance BlobPayload_codec : PayloadCodec BlobPayload := {|
  pc_decode := BlobPayload_decode;
  pc_wf := fun _ => True;
  pc_roundtrip := fun p bytes _ => Blob_roundtrip p bytes;
|}.
#[global] Instance BlobPayload_canonical_codec : CanonicalCodec BlobPayload := {|
  cc_canonical := fun p bytes _ Hd => conj I (Blob_canonical bytes p Hd);
|}.

(** ** Properties *)

(** Blob payloads: decoding is exactly the inverse of canonical encoding.  A byte string decodes
    to a payload if and only if it is that payload's canonical encoding, so every blob has one
    byte form, its declared size is its content's length, and no other bytes are accepted. *)
Theorem blob_codec_exact p bytes :
  zlen bytes < 2 ^ 64 ->
  BlobPayload_decode bytes = Ok p <-> to_canonical_bytes p = Ok bytes.
Proof. intros Hl. split; [apply Blob_canonical|by apply Blob_roundtrip]. Qed.

Lemma blob_codec_exact_witness :
  exists bytes, to_canonical_bytes (BlobPayload_new BlobText [x68; x69]) = Ok bytes /\
    BlobPayload_decode bytes = Ok (BlobPayload_new BlobText [x68; x69]).
Proof.
  eexists. split; [vm_compute; reflexivity|].
  apply blob_codec_exact; vm_compute; reflexivity.
Defined.
