(* ===== verification/Block.v ===== *)
(** * Block payloads (crates/prikk-object/src/payload/block.rs, payload/common.rs) *)

From S2P Require Import Prelude PrikkError Hash Utf8 Canonical Cursor ObjectId Payload.

Inductive BlockKind : Type := KindRoot | KindNormal | KindMerge | KindRepair | KindImport.
#[global] Instance BlockKind_eq_dec : EqDecision BlockKind.
Proof. solve_decision. Defined.

Definition BlockKind_code (k : BlockKind) : Z :=
  match k with KindRoot => 1 | KindNormal => 2 | KindMerge => 3 | KindRepair => 4 | KindImport => 5 end.

Definition BlockKind_from_code (code : Z) : PResult BlockKind :=
  if code =? 1 then Ok KindRoot
  else if code =? 2 then Ok KindNormal
  else if code =? 3 then Ok KindMerge
  else if code =? 4 then Ok KindRepair
  else if code =? 5 then Ok KindImport
  else Err (MalformedData "unknown block kind code: {other}").

(** [MerkleRoot(pub [u8; 32])]. *)
Abbreviation MerkleRoot := (list byte) (only parsing).

Record BlockPayload : Type := mkBlock {
  parent_block_ids : list ObjectId;
  block_kind : BlockKind;
  patch_ids : list ObjectId;
  state_merkle_root : MerkleRoot;
  snapshot_blob_ref : option ObjectId;
  mainline_parent_id : option ObjectId;
  merge_baseline_block_id : option ObjectId;
}.
#[global] Instance BlockPayload_eq_dec : EqDecision BlockPayload.
Proof. solve_decision. Defined.

(** [BlockCanonicalCursor] and [BlockCanonicalField]. *)
Definition BlockCanonicalCursor_next_field := next_field MalformedData.
Definition BlockCanonicalField_read_object_id := read_object_id MalformedData.
Definition BlockCanonicalField_read_enum_u16 := read_enum_u16 MalformedData.
Definition BlockCanonicalField_read_array := field_read_array MalformedData.

Record BlockAcc : Type := mkBlockAcc {
  ka_parents : list ObjectId;
  ka_kind : option BlockKind;
  ka_patches : list ObjectId;
  ka_root : option MerkleRoot;
  ka_snapshot : option ObjectId;
  ka_mainline : option ObjectId;
  ka_baseline : option ObjectId;
}.

(** The body of the [while let] loop of [BlockPayload::decode_canonical]. *)
Definition BlockPayload_decode_step (a : BlockAcc) (field : Field) : PResult BlockAcc :=
  let '(mkBlockAcc parents kind patches root snapshot mainline baseline) := a in
  if tag field =? 1 then
    let? id := BlockCanonicalField_read_object_id field in
    Ok (mkBlockAcc (parents ++ [id]) kind patches root snapshot mainline baseline)
  else if tag field =? 2 then
    if is_some kind then Err (MalformedData "duplicate Block kind field")
    else
      let? code := BlockCanonicalField_read_enum_u16 field in
      let? k := BlockKind_from_code code in
      Ok (mkBlockAcc parents (Some k) patches root snapshot mainline baseline)
  else if tag field =? 3 then
    let? id := BlockCanonicalField_read_object_id field in
    Ok (mkBlockAcc parents kind (patches ++ [id]) root snapshot mainline baseline)
  else if tag field =? 4 then
    if is_some root then Err (MalformedData "duplicate Block state_merkle_root field")
    else
      let? bs := BlockCanonicalField_read_array field 32 in
      Ok (mkBlockAcc parents kind patches (Some bs) snapshot mainline baseline)
  else if tag field =? 5 then
    if is_some snapshot then Err (MalformedData "duplicate Block snapshot_blob_ref field")
    else
      let? id := BlockCanonicalField_read_object_id field in
      Ok (mkBlockAcc parents kind patches root (Some id) mainline baseline)
  else if tag field =? 6 then
    if is_some mainline then Err (MalformedData "duplicate Block mainline_parent_id field")
    else
      let? id := BlockCanonicalField_read_object_id field in
      Ok (mkBlockAcc parents kind patches root snapshot (Some id) baseline)
  else if tag field =? 7 then
    if is_some baseline then Err (MalformedData "duplicate Block merge_baseline_block_id field")
    else
      let? id := BlockCanonicalField_read_object_id field in
      Ok (mkBlockAcc parents kind patches root snapshot mainline (Some id))
  else Err (MalformedData "unknown Block field tag: {other}").

Definition BlockPayload_decode (bytes : list byte) : PResult BlockPayload :=
  let? a := decode_fields MalformedData BlockPayload_decode_step
              (mkBlockAcc [] None [] None None None None) bytes in
  let? kind := ok_or (ka_kind a) (MalformedData "Block missing kind") in
  let? root := ok_or (ka_root a) (MalformedData "Block missing state_merkle_root") in
  let payload := mkBlock (ka_parents a) kind (ka_patches a) root (ka_snapshot a) (ka_mainline a)
                   (ka_baseline a) in
  if negb (is_strictly_sorted bytes_ltb (parent_block_ids payload))
  then Err (MalformedData "Block parent IDs are not sorted and unique")
  else Ok payload.

#[global] Instance BlockPayload_encode : CanonicalEncode BlockPayload := fun p w =>
  if negb (is_strictly_sorted bytes_ltb (parent_block_ids p))
  then Err (CanonicalEncoding "parent_block_ids must be sorted and unique")
  else
    let? w := repeated_object_id 1 (parent_block_ids p) w in
    let? w := field_enum_u16 2 (BlockKind_code (block_kind p)) w in
    let? w := repeated_object_id 3 (patch_ids p) w in
    let? w := field_bytes 4 (state_merkle_root p) w in
    let? w := match snapshot_blob_ref p with
              | Some snapshot => field_object_id 5 snapshot w | None => Ok w end in
    let? w := match mainline_parent_id p with
              | Some mainline => field_object_id 6 mainline w | None => Ok w end in
    match merge_baseline_block_id p with
    | Some baseline => field_object_id 7 baseline w | None => Ok w end.

(** ** Lemmas *)

Lemma BlockKind_from_to_code k : BlockKind_from_code (BlockKind_code k) = Ok k.
Proof. by destruct k. Qed.
Lemma BlockKind_from_code_inv c k : BlockKind_from_code c = Ok k -> c = BlockKind_code k.
Proof. unfold BlockKind_from_code. intros H. inv_ok; cbn; lia. Qed.
Lemma BlockKind_code_range k : u16 (BlockKind_code k).
Proof. destruct k; split; cbn; lia. Qed.
#[export] Hint Resolve BlockKind_code_range : wire.
#[export] Hint Rewrite BlockKind_from_to_code : wire.

Definition Block_fields (p : BlockPayload) : list (Z * WireType * list byte) :=
  map (fun id => (1, WireObjectId, id)) (parent_block_ids p)
    ++ [(2, WireEnumU16, to_be_bytes 2 (BlockKind_code (block_kind p)))]
    ++ map (fun id => (3, WireObjectId, id)) (patch_ids p)
    ++ [(4, WireBytes, state_merkle_root p)]
    ++ map (fun id => (5, WireObjectId, id)) (option_list (snapshot_blob_ref p))
    ++ map (fun id => (6, WireObjectId, id)) (option_list (mainline_parent_id p))
    ++ map (fun id => (7, WireObjectId, id)) (option_list (merge_baseline_block_id p)).

Lemma Block_tags p : tags_between 1 65535 (map to_field (Block_fields p)).
Proof. unfold Block_fields. solve_tags. Qed.

Lemma Block_encode_fields p w :
  is_strictly_sorted bytes_ltb (parent_block_ids p) = true ->
  encode_canonical p w = write_fields (Block_fields p) w.
Proof.
  intros Hs. unfold encode_canonical, BlockPayload_encode. rewrite Hs. cbn [negb].
  unfold Block_fields. encoder_fields.
Qed.

Lemma Block_encode_valid (p : BlockPayload) bytes :
  to_canonical_bytes p = Ok bytes -> is_strictly_sorted bytes_ltb (parent_block_ids p) = true.
Proof.
  unfold to_canonical_bytes, encode_canonical, BlockPayload_encode.
  by destruct (is_strictly_sorted bytes_ltb (parent_block_ids p)).
Qed.

(** The fixed-size arrays of the Rust type. *)
Definition Block_wf (p : BlockPayload) : Prop :=
  Forall wf_id (parent_block_ids p) /\ Forall wf_id (patch_ids p) /\ wf_id (state_merkle_root p) /\
  opt_all wf_id (snapshot_blob_ref p) /\ opt_all wf_id (mainline_parent_id p) /\
  opt_all wf_id (merge_baseline_block_id p).

Ltac run_block_step :=
  unfold BlockPayload_decode_step, BlockCanonicalField_read_object_id,
    BlockCanonicalField_read_enum_u16, BlockCanonicalField_read_array; select_tag.

Lemma Block_fold p :
  Block_wf p ->
  foldM BlockPayload_decode_step (mkBlockAcc [] None [] None None None None)
    (map to_field (Block_fields p))
  = Ok (mkBlockAcc (parent_block_ids p) (Some (block_kind p)) (patch_ids p)
          (Some (state_merkle_root p)) (snapshot_blob_ref p) (mainline_parent_id p)
          (merge_baseline_block_id p)).
Proof.
  intros (H1 & H3 & H4 & H5 & H6 & H7). unfold Block_fields. rewrite !map_app, !map_map.
  eapply foldM_then; [apply (foldM_list _ wf_id _ (fun l => mkBlockAcc l None [] None None None None)); [done|]|].
  { intros l1 x Hx. run_block_step. by run_readers. }
  eapply foldM_then; [apply foldM_one|].
  { run_block_step. by run_readers. }
  eapply foldM_then; [apply (foldM_list _ wf_id _ (fun l => mkBlockAcc _ _ l None None None None)); [done|]|].
  { intros l1 x Hx. run_block_step. by run_readers. }
  eapply foldM_then; [apply foldM_one|].
  { run_block_step. by rewrite field_read_array_written. }
  eapply foldM_then; [apply (foldM_opt _ _ (fun o => mkBlockAcc _ _ _ _ o None None))|].
  { intros x Hx. rewrite Hx in H5. cbn in H5. run_block_step. by run_readers. }
  eapply foldM_then; [apply (foldM_opt _ _ (fun o => mkBlockAcc _ _ _ _ _ o None))|].
  { intros x Hx. rewrite Hx in H6. cbn in H6. run_block_step. by run_readers. }
  apply (foldM_opt _ _ (fun o => mkBlockAcc _ _ _ _ _ _ o)).
  intros x Hx. rewrite Hx in H7. cbn in H7. run_block_step. by run_readers.
Qed.

Lemma Block_roundtrip p bytes :
  Block_wf p -> zlen bytes < 2 ^ 64 -> to_canonical_bytes p = Ok bytes ->
  BlockPayload_decode bytes = Ok p.
Proof.
  intros Hwf Hl Hb. pose proof (Block_encode_valid p bytes Hb) as Hs.
  unfold to_canonical_bytes in Hb. rewrite Block_encode_fields in Hb by done.
  unfold BlockPayload_decode. rewrite (write_fields_decode _ _ _ _ _ (Block_tags p) Hb Hl).
  rewrite Block_fold by done. cbn [ka_parents ka_kind ka_patches ka_root ka_snapshot ka_mainline
    ka_baseline ok_or parent_block_ids]. rewrite Hs. by destruct p.
Qed.

#[global] Instance BlockPayload_codec : PayloadCodec BlockPayload := {|
  pc_decode := BlockPayload_decode;
  pc_wf := Block_wf;
  pc_roundtrip := Block_roundtrip;
|}.

(** ** What the decoder normalizes

    The decoder does not look at the wire type of field 4. *)

Definition Block_norm (f : Field) : Field :=
  if tag f =? 4 then wfield 4 WireBytes (value f) else f.

Definition BlockAcc_fields (a : BlockAcc) : list Field :=
  map (wfield 1 WireObjectId) (ka_parents a)
    ++ map (fun k => wfield 2 WireEnumU16 (to_be_bytes 2 (BlockKind_code k))) (option_list (ka_kind a))
    ++ map (wfield 3 WireObjectId) (ka_patches a)
    ++ map (wfield 4 WireBytes) (option_list (ka_root a))
    ++ map (wfield 5 WireObjectId) (option_list (ka_snapshot a))
    ++ map (wfield 6 WireObjectId) (option_list (ka_mainline a))
    ++ map (wfield 7 WireObjectId) (option_list (ka_baseline a)).

Lemma BlockAcc_collects : collects_norm Block_norm BlockPayload_decode_step BlockAcc_fields.
Proof.
  intros [o1 o2 o3 o4 o5 o6 o7] f a' Hs Hle.
  unfold BlockPayload_decode_step, BlockCanonicalField_read_object_id,
    BlockCanonicalField_read_enum_u16, BlockCanonicalField_read_array, BlockAcc_fields, Block_norm in *.
  cbn [ka_parents ka_kind ka_patches ka_root ka_snapshot ka_mainline ka_baseline] in *.
  split_tag Hs; inv_ok; none_of_is_some; later_empty;
    cbn [ka_parents ka_kind ka_patches ka_root ka_snapshot ka_mainline ka_baseline] in *; inv_readers;
    try rewrite (proj2 (Z.eqb_neq (tag f) 4)) by lia; collect_finish.
  match goal with H : BlockKind_from_code _ = Ok _ |- _ => apply BlockKind_from_code_inv in H; rewrite <- H end.
  congruence.
Qed.

Lemma Block_decode_wf bytes p : BlockPayload_decode bytes = Ok p -> Block_wf p.
Proof.
  unfold BlockPayload_decode. intros H.
  destruct (decode_fields _ _ _ bytes) as [a|] eqn:Hd; [|discriminate].
  eapply (decode_fields_preserves _ _ (fun a => Forall wf_id (ka_parents a) /\
    Forall wf_id (ka_patches a) /\ opt_all wf_id (ka_root a) /\ opt_all wf_id (ka_snapshot a) /\
    opt_all wf_id (ka_mainline a) /\ opt_all wf_id (ka_baseline a))) in Hd; [| |done].
  - destruct a as [o1 o2 o3 o4 o5 o6 o7].
    cbn [ka_parents ka_kind ka_patches ka_root ka_snapshot ka_mainline ka_baseline] in *.
    inv_ok. unfold Block_wf. cbn in *. naive_solver.
  - clear. intros [o1 o2 o3 o4 o5 o6 o7] f a' HP Hs.
    unfold BlockPayload_decode_step, BlockCanonicalField_read_object_id,
      BlockCanonicalField_read_enum_u16, BlockCanonicalField_read_array in *.
    split_tag Hs; inv_ok; inv_readers; cbn in *; rewrite ?Forall_app, ?Forall_singleton; naive_solver.
Qed.

Lemma zlen_enc_norm fs : zlen (enc_fields (map Block_norm fs)) = zlen (enc_fields fs).
Proof.
  induction fs as [|f fs IH]; [done|]. cbn [map]. rewrite !enc_fields_cons, !zlen_app, IH, !zlen_enc_field.
  unfold Block_norm. by destruct (tag f =? 4).
Qed.

Lemma Block_normalizes bytes p :
  BlockPayload_decode bytes = Ok p ->
  exists fs, bytes = enc_fields fs /\ to_canonical_bytes p = Ok (enc_fields (map Block_norm fs)).
Proof.
  unfold BlockPayload_decode. intros H.
  destruct (decode_fields _ _ _ bytes) as [[o1 o2 o3 o4 o5 o6 o7]|] eqn:Hd; [|discriminate].
  eapply decode_fields_collects_norm in Hd as (fs & -> & _ & Hfs); [| |apply BlockAcc_collects|done].
  - exists fs. split; [done|]. rewrite <- Hfs.
    cbn [ka_parents ka_kind ka_patches ka_root ka_snapshot ka_mainline ka_baseline] in H. inv_ok.
    cbn [parent_block_ids] in Heqb. apply negb_false_iff in Heqb.
    unfold to_canonical_bytes. rewrite Block_encode_fields by done.
    rewrite write_fields_new by apply Block_tags. f_equal. f_equal.
    unfold Block_fields, BlockAcc_fields. by rewrite !map_app, !map_map.
  - intros f. unfold Block_norm. destruct (Z.eqb_spec (tag f) 4); [by cbn|done].
Qed.

(** ** Properties *)

(** Block payloads round-trip: a block whose identifiers are 32 bytes and which the encoder
    accepts (its parents strictly sorted) is recovered exactly, with the order of its patches. *)
Theorem block_codec_roundtrip p bytes :
  Block_wf p -> zlen bytes < 2 ^ 64 -> to_canonical_bytes p = Ok bytes ->
  BlockPayload_decode bytes = Ok p.
Proof. apply Block_roundtrip. Qed.

Definition witness_block : BlockPayload :=
  mkBlock [replicate 32 x01; replicate 32 x02] KindMerge [replicate 32 x09; replicate 32 x03]
    (replicate 32 x05) None (Some (replicate 32 x01)) None.

Lemma block_codec_roundtrip_witness :
  exists bytes, to_canonical_bytes witness_block = Ok bytes /\
    BlockPayload_decode bytes = Ok witness_block.
Proof.
  eexists. split; [vm_compute; reflexivity|].
  apply block_codec_roundtrip; [|vm_compute; reflexivity..].
  unfold Block_wf, wf_id. cbn. repeat constructor.
Defined.

(** Whatever bytes the Block decoder accepts, re-encoding its result always succeeds, has the
    same length, and decodes to the same block: decoding normalizes.  The parents of an accepted
    block are strictly sorted, and all its identifiers have 32 bytes. *)
Theorem block_decode_normalizes bytes p :
  zlen bytes < 2 ^ 64 -> BlockPayload_decode bytes = Ok p ->
  Block_wf p /\ is_strictly_sorted bytes_ltb (parent_block_ids p) = true /\
  exists canon, to_canonical_bytes p = Ok canon /\ zlen canon = zlen bytes /\
    BlockPayload_decode canon = Ok p.
Proof.
  intros Hl Hd. pose proof (Block_decode_wf _ _ Hd) as Hw.
  destruct (Block_normalizes _ _ Hd) as (fs & -> & Hc).
  split; [done|]. split; [by apply Block_encode_valid in Hc|].
  exists (enc_fields (map Block_norm fs)). rewrite zlen_enc_norm. split; [done|]. split; [done|].
  apply Block_roundtrip; [done| |done]. by rewrite zlen_enc_norm.
Qed.

Lemma block_decode_normalizes_witness :
  Block_wf witness_block.
Proof.
  apply (block_decode_normalizes
           (match to_canonical_bytes witness_block with Ok b => b | Err _ => [] end)
           witness_block); vm_compute; reflexivity.
Defined.

(** The block of one root field, with its state root under wire type [w]. *)
Definition block_with_root_wire (w : WireType) : list byte :=
  enc_fields [wfield 2 WireEnumU16 (to_be_bytes 2 1); wfield 4 w (replicate 32 x05)].

(** The Block decoder ignores the wire type of the state root: two different byte strings, hence two
    object identities, decode to one block.  Only the first is a canonical encoding. *)
Theorem block_root_wire_ignored :
  block_with_root_wire WireBytes <> block_with_root_wire WireString /\
  BlockPayload_decode (block_with_root_wire WireBytes)
  = BlockPayload_decode (block_with_root_wire WireString) /\
  BlockPayload_decode (block_with_root_wire WireString)
  = Ok (mkBlock [] KindRoot [] (replicate 32 x05) None None None).
Proof.
  split; [|split]; [|vm_compute; reflexivity..]. intros H. vm_compute in H. discriminate H.
Qed.
