(* ===== verification/Refs.v ===== *)
(** * Reference payloads (crates/prikk-object/src/payload/refs.rs) *)

From S2P Require Import Prelude PrikkError Hash Utf8 Canonical Cursor ObjectId Payload.

Inductive RefKind : Type := Branch | TagRef.
#[global] Instance RefKind_eq_dec : EqDecision RefKind.
Proof. solve_decision. Defined.

Definition RefKind_code (k : RefKind) : Z := match k with Branch => 1 | TagRef => 2 end.
Definition RefKind_from_code (code : Z) : PResult RefKind :=
  if code =? 1 then Ok Branch
  else if code =? 2 then Ok TagRef
  else Err (MalformedData "unknown ref kind code: {other}").

Definition REF_STATE_CLOSED_SCHEMA : Z := 2.

(** [CanonicalCursor] and [CanonicalField]. *)
Definition CanonicalCursor_next_field := next_field MalformedData.
Definition CanonicalField_read_string := read_string MalformedData.
Definition CanonicalField_read_u64 := read_u64 MalformedData.
Definition CanonicalField_read_object_id := read_object_id MalformedData.
Definition CanonicalField_read_enum_u16 := read_enum_u16 MalformedData.

Definition CanonicalField_read_bool (field : Field) : PResult bool :=
  let? _ := require_wire MalformedData field WireBool in
  let? bs := field_read_array MalformedData field 1 in
  if from_be_bytes bs =? 0 then Ok false
  else if from_be_bytes bs =? 1 then Ok true
  else Err (MalformedData "field {} has invalid bool byte: {other}").

(** ** [RefStatePayload] *)

Record RefStatePayload : Type := mkRefState {
  rs_ref_name : list byte;
  rs_kind : RefKind;
  rs_target_object_id : ObjectId;
  rs_update_seq : Z;
  rs_previous_ref_state_id : option ObjectId;
  rs_required_attestation_ids : list ObjectId;
  rs_closed : bool;
}.
#[global] Instance RefStatePayload_eq_dec : EqDecision RefStatePayload.
Proof. solve_decision. Defined.

(** The locals of [RefStatePayload::decode_canonical]; [seen_closed] and [closed] are set together
    or the decode fails, and are kept apart as in the source. *)
Record RefStateAcc : Type := mkRefStateAcc {
  ra_name : option (list byte);
  ra_target : option ObjectId;
  ra_seq : option Z;
  ra_previous : option ObjectId;
  ra_attestations : list ObjectId;
  ra_kind : option RefKind;
  ra_seen_closed : bool;
  ra_closed : bool;
}.

Definition RefStatePayload_decode_step (schema_version : Z) (a : RefStateAcc) (field : Field)
  : PResult RefStateAcc :=
  let '(mkRefStateAcc name target seq previous atts kind seen_closed closed) := a in
  if tag field =? 1 then
    if is_some name then Err (MalformedData "duplicate RefState ref_name field")
    else
      let? s := CanonicalField_read_string field in
      Ok (mkRefStateAcc (Some s) target seq previous atts kind seen_closed closed)
  else if tag field =? 2 then
    if is_some target then Err (MalformedData "duplicate RefState target_object_id field")
    else
      let? id := CanonicalField_read_object_id field in
      Ok (mkRefStateAcc name (Some id) seq previous atts kind seen_closed closed)
  else if tag field =? 3 then
    if is_some seq then Err (MalformedData "duplicate RefState update_seq field")
    else
      let? z := CanonicalField_read_u64 field in
      Ok (mkRefStateAcc name target (Some z) previous atts kind seen_closed closed)
  else if tag field =? 4 then
    if is_some previous then Err (MalformedData "duplicate RefState previous_ref_state_id field")
    else
      let? id := CanonicalField_read_object_id field in
      Ok (mkRefStateAcc name target seq (Some id) atts kind seen_closed closed)
  else if tag field =? 5 then
    let? id := CanonicalField_read_object_id field in
    Ok (mkRefStateAcc name target seq previous (atts ++ [id]) kind seen_closed closed)
  else if tag field =? 6 then
    if is_some kind then Err (MalformedData "duplicate RefState kind field")
    else
      let? code := CanonicalField_read_enum_u16 field in
      let? k := RefKind_from_code code in
      Ok (mkRefStateAcc name target seq previous atts (Some k) seen_closed closed)
  else if tag field =? 7 then
    if seen_closed then Err (MalformedData "duplicate RefState closed field")
    else if schema_version <? REF_STATE_CLOSED_SCHEMA
    then Err (MalformedData "RefState schema {schema_version} must not carry a closed field; requires schema {REF_STATE_CLOSED_SCHEMA}")
    else
      let? value := CanonicalField_read_bool field in
      if negb value
      then Err (MalformedData "RefState closed field must be absent when open, never encoded as false")
      else Ok (mkRefStateAcc name target seq previous atts kind true true)
  else Err (MalformedData "unknown RefState field tag: {other}").

Definition RefStatePayload_decode (schema_version : Z) (bytes : list byte) : PResult RefStatePayload :=
  let? a := decode_fields MalformedData (RefStatePayload_decode_step schema_version)
              (mkRefStateAcc None None None None [] None false false) bytes in
  let? ref_name := ok_or (ra_name a) (MalformedData "RefState missing ref_name") in
  let? kind := ok_or (ra_kind a) (MalformedData "RefState missing kind") in
  let? target := ok_or (ra_target a) (MalformedData "RefState missing target_object_id") in
  let? update_seq := ok_or (ra_seq a) (MalformedData "RefState missing update_seq") in
  let payload := mkRefState ref_name kind target update_seq (ra_previous a) (ra_attestations a)
                   (ra_closed a) in
  if negb (is_strictly_sorted bytes_ltb (rs_required_attestation_ids payload))
  then Err (MalformedData "RefState attestation IDs are not sorted and unique")
  else Ok payload.

#[global] Instance RefStatePayload_encode : CanonicalEncode RefStatePayload := fun p w =>
  if negb (is_strictly_sorted bytes_ltb (rs_required_attestation_ids p))
  then Err (CanonicalEncoding "required_attestation_ids must be sorted and unique")
  else
    let? w := field_string 1 (rs_ref_name p) w in
    let? w := field_object_id 2 (rs_target_object_id p) w in
    let? w := field_u64 3 (rs_update_seq p) w in
    let? w := match rs_previous_ref_state_id p with
              | Some previous => field_object_id 4 previous w | None => Ok w end in
    let? w := repeated_object_id 5 (rs_required_attestation_ids p) w in
    let? w := field_enum_u16 6 (RefKind_code (rs_kind p)) w in
    if rs_closed p then field_bool 7 true w else Ok w.

(** ** [RefUpdatePayload] *)

Record RefUpdatePayload : Type := mkRefUpdate {
  ru_ref_name : list byte;
  ru_old_ref_state_id : option ObjectId;
  ru_new_ref_state_id : ObjectId;
  ru_new_target_object_id : ObjectId;
  ru_update_seq : Z;
  ru_created_at : Z;
  ru_author_key_id : list byte;
}.
#[global] Instance RefUpdatePayload_eq_dec : EqDecision RefUpdatePayload.
Proof. solve_decision. Defined.

#[global] Instance RefUpdatePayload_encode : CanonicalEncode RefUpdatePayload := fun p w =>
  let? w := field_string 1 (ru_ref_name p) w in
  let? w := match ru_old_ref_state_id p with
            | Some old => field_object_id 2 old w | None => Ok w end in
  let? w := field_object_id 3 (ru_new_ref_state_id p) w in
  let? w := field_object_id 4 (ru_new_target_object_id p) w in
  let? w := field_u64 5 (ru_update_seq p) w in
  let? w := field_u64 6 (ru_created_at p) w in
  field_string 7 (ru_author_key_id p) w.

Record RefUpdateAcc : Type := mkRefUpdateAcc {
  ua_name : option (list byte);
  ua_old : option ObjectId;
  ua_new : option ObjectId;
  ua_target : option ObjectId;
  ua_seq : option Z;
  ua_created : option Z;
  ua_author : option (list byte);
}.

Definition RefUpdatePayload_decode_step (a : RefUpdateAcc) (field : Field) : PResult RefUpdateAcc :=
  let '(mkRefUpdateAcc name old new target seq created author) := a in
  if tag field =? 1 then
    if is_some name then Err (MalformedData "duplicate RefUpdate ref_name field")
    else
      let? s := CanonicalField_read_string field in
      Ok (mkRefUpdateAcc (Some s) old new target seq created author)
  else if tag field =? 2 then
    if is_some old then Err (MalformedData "duplicate RefUpdate old_ref_state_id field")
    else
      let? id := CanonicalField_read_object_id field in
      Ok (mkRefUpdateAcc name (Some id) new target seq created author)
  else if tag field =? 3 then
    if is_some new then Err (MalformedData "duplicate RefUpdate new_ref_state_id field")
    else
      let? id := CanonicalField_read_object_id field in
      Ok (mkRefUpdateAcc name old (Some id) target seq created author)
  else if tag field =? 4 then
    if is_some target then Err (MalformedData "duplicate RefUpdate new_target_object_id field")
    else
      let? id := CanonicalField_read_object_id field in
      Ok (mkRefUpdateAcc name old new (Some id) seq created author)
  else if tag field =? 5 then
    if is_some seq then Err (MalformedData "duplicate RefUpdate update_seq field")
    else
      let? z := CanonicalField_read_u64 field in
      Ok (mkRefUpdateAcc name old new target (Some z) created author)
  else if tag field =? 6 then
    if is_some created then Err (MalformedData "duplicate RefUpdate created_at field")
    else
      let? z := CanonicalField_read_u64 field in
      Ok (mkRefUpdateAcc name old new target seq (Some z) author)
  else if tag field =? 7 then
    if is_some author then Err (MalformedData "duplicate RefUpdate author_key_id field")
    else
      let? s := CanonicalField_read_string field in
      Ok (mkRefUpdateAcc name old new target seq created (Some s))
  else Err (MalformedData "unknown RefUpdate field tag: {other}").

Definition RefUpdatePayload_decode (bytes : list byte) : PResult RefUpdatePayload :=
  let? a := decode_fields MalformedData RefUpdatePayload_decode_step
              (mkRefUpdateAcc None None None None None None None) bytes in
  let? ref_name := ok_or (ua_name a) (MalformedData "RefUpdate missing ref_name") in
  let? new_state := ok_or (ua_new a) (MalformedData "RefUpdate missing new_ref_state_id") in
  let? new_target := ok_or (ua_target a) (MalformedData "RefUpdate missing new_target_object_id") in
  let? update_seq := ok_or (ua_seq a) (MalformedData "RefUpdate missing update_seq") in
  let? created_at := ok_or (ua_created a) (MalformedData "RefUpdate missing created_at") in
  let? author := ok_or (ua_author a) (MalformedData "RefUpdate missing author_key_id") in
  Ok (mkRefUpdate ref_name (ua_old a) new_state new_target update_seq created_at author).

(** ** Lemmas: [RefStatePayload] *)

Lemma RefKind_from_to_code k : RefKind_from_code (RefKind_code k) = Ok k.
Proof. by destruct k. Qed.
Lemma RefKind_from_code_inv c k : RefKind_from_code c = Ok k -> c = RefKind_code k.
Proof. unfold RefKind_from_code. intros H. inv_ok; cbn; lia. Qed.
Lemma RefKind_code_range k : u16 (RefKind_code k).
Proof. destruct k; split; cbn; lia. Qed.
#[export] Hint Resolve RefKind_code_range : wire.
#[export] Hint Rewrite RefKind_from_to_code : wire.

Lemma CanonicalField_read_bool_inv f b :
  CanonicalField_read_bool f = Ok b -> f = wfield (tag f) WireBool (if b then [x01] else [x00]).
Proof.
  unfold CanonicalField_read_bool. intros H.
  destruct (require_wire MalformedData f WireBool) as [[]|] eqn:Hw; [|done].
  apply require_wire_inv in Hw.
  destruct (field_read_array MalformedData f 1) as [bs|] eqn:Hr; [|done].
  apply field_read_array_inv in Hr as [-> Hl].
  destruct (value f) as [|c [|? ?]] eqn:Hv; try done. rewrite Hw.
  by destruct c; cbn in H; try discriminate H; apply Ok_inj in H as <-.
Qed.

Definition RefState_fields (p : RefStatePayload) : list (Z * WireType * list byte) :=
  [(1, WireString, rs_ref_name p)]
    ++ [(2, WireObjectId, rs_target_object_id p)]
    ++ [(3, WireU64, to_be_bytes 8 (rs_update_seq p))]
    ++ map (fun id => (4, WireObjectId, id)) (option_list (rs_previous_ref_state_id p))
    ++ map (fun id => (5, WireObjectId, id)) (rs_required_attestation_ids p)
    ++ [(6, WireEnumU16, to_be_bytes 2 (RefKind_code (rs_kind p)))]
    ++ (if rs_closed p then [(7, WireBool, [x01])] else []).

Lemma RefState_tags p : tags_between 1 65535 (map to_field (RefState_fields p)).
Proof. unfold RefState_fields. solve_tags. Qed.

Lemma RefState_encode_fields p w :
  is_strictly_sorted bytes_ltb (rs_required_attestation_ids p) = true ->
  encode_canonical p w = write_fields (RefState_fields p) w.
Proof.
  intros Hs. unfold encode_canonical, RefStatePayload_encode. rewrite Hs. cbn [negb].
  unfold RefState_fields. encoder_fields.
Qed.

Lemma RefState_encode_valid (p : RefStatePayload) bytes :
  to_canonical_bytes p = Ok bytes ->
  is_strictly_sorted bytes_ltb (rs_required_attestation_ids p) = true.
Proof.
  unfold to_canonical_bytes, encode_canonical, RefStatePayload_encode.
  by destruct (is_strictly_sorted bytes_ltb (rs_required_attestation_ids p)).
Qed.

(** The Rust types of the fields, and the one schema rule: [closed] needs schema 2. *)
Definition RefState_wf (schema_version : Z) (p : RefStatePayload) : Prop :=
  rust_string (rs_ref_name p) /\ wf_id (rs_target_object_id p) /\ u64 (rs_update_seq p) /\
  opt_all wf_id (rs_previous_ref_state_id p) /\ Forall wf_id (rs_required_attestation_ids p) /\
  (rs_closed p = true -> REF_STATE_CLOSED_SCHEMA <= schema_version).

Ltac run_refs_step :=
  unfold RefStatePayload_decode_step, RefUpdatePayload_decode_step, CanonicalField_read_object_id,
    CanonicalField_read_enum_u16, CanonicalField_read_string, CanonicalField_read_u64; select_tag;
  run_readers.

Lemma RefState_fold v p :
  RefState_wf v p ->
  foldM (RefStatePayload_decode_step v) (mkRefStateAcc None None None None [] None false false)
    (map to_field (RefState_fields p))
  = Ok (mkRefStateAcc (Some (rs_ref_name p)) (Some (rs_target_object_id p))
          (Some (rs_update_seq p)) (rs_previous_ref_state_id p) (rs_required_attestation_ids p)
          (Some (rs_kind p)) (rs_closed p) (rs_closed p)).
Proof.
  intros (H1 & H2 & H3 & H4 & H5 & H7). unfold RefState_fields. rewrite !map_app, !map_map.
  eapply foldM_then; [apply foldM_one; by run_refs_step|].
  eapply foldM_then; [apply foldM_one; by run_refs_step|].
  eapply foldM_then; [apply foldM_one; by run_refs_step|].
  eapply foldM_then; [apply (foldM_opt _ _ (fun o => mkRefStateAcc _ _ _ o [] None false false))|].
  { intros x Hx. rewrite Hx in H4. cbn in H4. by run_refs_step. }
  eapply foldM_then; [apply (foldM_list _ wf_id _ (fun l => mkRefStateAcc _ _ _ _ l None false false)); [done|]|].
  { intros l1 x Hx. by run_refs_step. }
  eapply foldM_then; [apply foldM_one; by run_refs_step|].
  destruct (rs_closed p); [|done]. apply foldM_one. run_refs_step.
  destruct (Z.ltb_spec v REF_STATE_CLOSED_SCHEMA); [specialize (H7 eq_refl); lia|done].
Qed.

Lemma RefState_roundtrip v p bytes :
  RefState_wf v p -> zlen bytes < 2 ^ 64 -> to_canonical_bytes p = Ok bytes ->
  RefStatePayload_decode v bytes = Ok p.
Proof.
  intros Hwf Hl Hb. pose proof (RefState_encode_valid p bytes Hb) as Hs.
  unfold to_canonical_bytes in Hb. rewrite RefState_encode_fields in Hb by done.
  unfold RefStatePayload_decode. rewrite (write_fields_decode _ _ _ _ _ (RefState_tags p) Hb Hl).
  rewrite RefState_fold by done.
  cbn [ra_name ra_target ra_seq ra_previous ra_attestations ra_kind ra_closed ok_or
    rs_required_attestation_ids]. rewrite Hs. by destruct p.
Qed.

Definition RefStateAcc_fields (a : RefStateAcc) : list Field :=
  map (wfield 1 WireString) (option_list (ra_name a))
    ++ map (wfield 2 WireObjectId) (option_list (ra_target a))
    ++ map (fun z => wfield 3 WireU64 (to_be_bytes 8 z)) (option_list (ra_seq a))
    ++ map (wfield 4 WireObjectId) (option_list (ra_previous a))
    ++ map (wfield 5 WireObjectId) (ra_attestations a)
    ++ map (fun k => wfield 6 WireEnumU16 (to_be_bytes 2 (RefKind_code k))) (option_list (ra_kind a))
    ++ map (fun _ : unit => wfield 7 WireBool [x01]) (if ra_seen_closed a then [tt] else []).

Lemma RefStateAcc_collects v : collects (RefStatePayload_decode_step v) RefStateAcc_fields.
Proof.
  intros [o1 o2 o3 o4 o5 o6 s c] f a' Hs Hle.
  unfold RefStatePayload_decode_step, CanonicalField_read_object_id,
    CanonicalField_read_enum_u16, CanonicalField_read_string, CanonicalField_read_u64, RefStateAcc_fields in *.
  cbn [ra_name ra_target ra_seq ra_previous ra_attestations ra_kind ra_seen_closed ra_closed] in *.
  assert (Hclosed : s = true -> tag f < 7 -> False).
  { intros -> Hlt. rewrite !Forall_app in Hle. destruct Hle as (_ & _ & _ & _ & _ & _ & H7).
    apply Forall_cons in H7 as [H7 _]. cbn in H7. lia. }
  split_tag Hs; inv_ok; none_of_is_some; later_empty;
    cbn [ra_name ra_target ra_seq ra_previous ra_attestations ra_kind ra_seen_closed ra_closed] in *;
    inv_readers; try (destruct s; [exfalso; by apply Hclosed; [|lia]|]); collect_finish.
  - match goal with H : RefKind_from_code _ = Ok _ |- _ => apply RefKind_from_code_inv in H; rewrite <- H end.
    congruence.
  - match goal with H : CanonicalField_read_bool _ = Ok ?b |- _ =>
      apply CanonicalField_read_bool_inv in H; destruct b; [|discriminate] end.
    congruence.
Qed.

Lemma RefState_decode_wf v bytes p : RefStatePayload_decode v bytes = Ok p -> RefState_wf v p.
Proof.
  unfold RefStatePayload_decode. intros H.
  destruct (decode_fields _ _ _ bytes) as [a|] eqn:Hd; [|discriminate].
  eapply (decode_fields_preserves _ _ (fun a =>
    opt_all rust_string (ra_name a) /\ opt_all wf_id (ra_target a) /\ opt_all u64 (ra_seq a) /\
    opt_all wf_id (ra_previous a) /\ Forall wf_id (ra_attestations a) /\
    (ra_closed a = true -> REF_STATE_CLOSED_SCHEMA <= v))) in Hd; [| |done].
  - destruct a as [o1 o2 o3 o4 o5 o6 s c].
    cbn [ra_name ra_target ra_seq ra_previous ra_attestations ra_kind ra_closed] in *.
    inv_ok. unfold RefState_wf. cbn in *. naive_solver.
  - clear. intros [o1 o2 o3 o4 o5 o6 s c] f a' HP Hs.
    unfold RefStatePayload_decode_step, CanonicalField_read_object_id,
      CanonicalField_read_enum_u16, CanonicalField_read_string, CanonicalField_read_u64 in *.
    split_tag Hs; inv_ok; inv_readers; cbn in *; rewrite ?Forall_app, ?Forall_singleton;
      naive_solver lia.
Qed.

(** [seen_closed] and [closed] agree after every field. *)
Lemma RefState_closed_seen v bytes a :
  decode_fields MalformedData (RefStatePayload_decode_step v)
    (mkRefStateAcc None None None None [] None false false) bytes = Ok a ->
  ra_seen_closed a = ra_closed a.
Proof.
  apply (decode_fields_preserves _ _ (fun a => ra_seen_closed a = ra_closed a)); [|done].
  clear. intros [o1 o2 o3 o4 o5 o6 s c] f a' HP Hs.
  unfold RefStatePayload_decode_step in Hs. cbn in HP. split_tag Hs; inv_ok; done.
Qed.

Lemma RefState_canonical v bytes p :
  RefStatePayload_decode v bytes = Ok p -> to_canonical_bytes p = Ok bytes.
Proof.
  unfold RefStatePayload_decode. intros H.
  destruct (decode_fields _ _ _ bytes) as [[o1 o2 o3 o4 o5 o6 s c]|] eqn:Hd; [|discriminate].
  pose proof (RefState_closed_seen _ _ _ Hd) as Hc. cbn in Hc. subst s.
  eapply decode_fields_collects in Hd as ->; [|apply RefStateAcc_collects|done].
  cbn [ra_name ra_target ra_seq ra_previous ra_attestations ra_kind ra_closed] in H. inv_ok.
  cbn [rs_required_attestation_ids] in *.
  match goal with H : negb _ = false |- _ => apply negb_false_iff in H end.
  unfold to_canonical_bytes. rewrite RefState_encode_fields by done.
  rewrite write_fields_new by apply RefState_tags. f_equal. f_equal.
  unfold RefState_fields, RefStateAcc_fields. rewrite !map_app, !map_map. by destruct c.
Qed.

(** ** Lemmas: [RefUpdatePayload] *)

Definition RefUpdate_fields (p : RefUpdatePayload) : list (Z * WireType * list byte) :=
  [(1, WireString, ru_ref_name p)]
    ++ map (fun id => (2, WireObjectId, id)) (option_list (ru_old_ref_state_id p))
    ++ [(3, WireObjectId, ru_new_ref_state_id p)]
    ++ [(4, WireObjectId, ru_new_target_object_id p)]
    ++ [(5, WireU64, to_be_bytes 8 (ru_update_seq p))]
    ++ [(6, WireU64, to_be_bytes 8 (ru_created_at p))]
    ++ [(7, WireString, ru_author_key_id p)].

Lemma RefUpdate_tags p : tags_between 1 65535 (map to_field (RefUpdate_fields p)).
Proof. unfold RefUpdate_fields. solve_tags. Qed.

Lemma RefUpdate_encode_fields p w : encode_canonical p w = write_fields (RefUpdate_fields p) w.
Proof.
  unfold encode_canonical, RefUpdatePayload_encode, RefUpdate_fields. encoder_fields.
Qed.

Definition RefUpdate_wf (p : RefUpdatePayload) : Prop :=
  rust_string (ru_ref_name p) /\ opt_all wf_id (ru_old_ref_state_id p) /\
  wf_id (ru_new_ref_state_id p) /\ wf_id (ru_new_target_object_id p) /\ u64 (ru_update_seq p) /\
  u64 (ru_created_at p) /\ rust_string (ru_author_key_id p).

Lemma RefUpdate_fold p :
  RefUpdate_wf p ->
  foldM RefUpdatePayload_decode_step (mkRefUpdateAcc None None None None None None None)
    (map to_field (RefUpdate_fields p))
  = Ok (mkRefUpdateAcc (Some (ru_ref_name p)) (ru_old_ref_state_id p) (Some (ru_new_ref_state_id p))
          (Some (ru_new_target_object_id p)) (Some (ru_update_seq p)) (Some (ru_created_at p))
          (Some (ru_author_key_id p))).
Proof.
  intros (H1 & H2 & H3 & H4 & H5 & H6 & H7). unfold RefUpdate_fields. rewrite !map_app, !map_map.
  eapply foldM_then; [apply foldM_one; by run_refs_step|].
  eapply foldM_then; [apply (foldM_opt _ _ (fun o => mkRefUpdateAcc _ o None None None None None))|].
  { intros x Hx. rewrite Hx in H2. cbn in H2. by run_refs_step. }
  do 4 (eapply foldM_then; [apply foldM_one; by run_refs_step|]).
  apply foldM_one. by run_refs_step.
Qed.

Lemma RefUpdate_roundtrip p bytes :
  RefUpdate_wf p -> zlen bytes < 2 ^ 64 -> to_canonical_bytes p = Ok bytes ->
  RefUpdatePayload_decode bytes = Ok p.
Proof.
  intros Hwf Hl Hb. unfold to_canonical_bytes in Hb. rewrite RefUpdate_encode_fields in Hb.
  unfold RefUpdatePayload_decode. rewrite (write_fields_decode _ _ _ _ _ (RefUpdate_tags p) Hb Hl).
  rewrite RefUpdate_fold by done. by destruct p.
Qed.

Definition RefUpdateAcc_fields (a : RefUpdateAcc) : list Field :=
  map (wfield 1 WireString) (option_list (ua_name a))
    ++ map (wfield 2 WireObjectId) (option_list (ua_old a))
    ++ map (wfield 3 WireObjectId) (option_list (ua_new a))
    ++ map (wfield 4 WireObjectId) (option_list (ua_target a))
    ++ map (fun z => wfield 5 WireU64 (to_be_bytes 8 z)) (option_list (ua_seq a))
    ++ map (fun z => wfield 6 WireU64 (to_be_bytes 8 z)) (option_list (ua_created a))
    ++ map (wfield 7 WireString) (option_list (ua_author a)).

Lemma RefUpdateAcc_collects : collects RefUpdatePayload_decode_step RefUpdateAcc_fields.
Proof.
  intros [o1 o2 o3 o4 o5 o6 o7] f a' Hs Hle.
  unfold RefUpdatePayload_decode_step, CanonicalField_read_object_id,
    CanonicalField_read_string, CanonicalField_read_u64, RefUpdateAcc_fields in *.
  cbn [ua_name ua_old ua_new ua_target ua_seq ua_created ua_author] in *.
  split_tag Hs; inv_ok; none_of_is_some; later_empty;
    cbn [ua_name ua_old ua_new ua_target ua_seq ua_created ua_author] in *;
    inv_readers; collect_finish.
Qed.

Lemma RefUpdate_decode_wf bytes p : RefUpdatePayload_decode bytes = Ok p -> RefUpdate_wf p.
Proof.
  unfold RefUpdatePayload_decode. intros H.
  destruct (decode_fields _ _ _ bytes) as [a|] eqn:Hd; [|discriminate].
  eapply (decode_fields_preserves _ _ (fun a =>
    opt_all rust_string (ua_name a) /\ opt_all wf_id (ua_old a) /\ opt_all wf_id (ua_new a) /\
    opt_all wf_id (ua_target a) /\ opt_all u64 (ua_seq a) /\ opt_all u64 (ua_created a) /\
    opt_all rust_string (ua_author a))) in Hd; [| |done].
  - destruct a as [o1 o2 o3 o4 o5 o6 o7].
    cbn [ua_name ua_old ua_new ua_target ua_seq ua_created ua_author] in *.
    inv_ok. unfold RefUpdate_wf. cbn in *. naive_solver.
  - clear. intros [o1 o2 o3 o4 o5 o6 o7] f a' HP Hs.
    unfold RefUpdatePayload_decode_step, CanonicalField_read_object_id,
      CanonicalField_read_string, CanonicalField_read_u64 in *.
    split_tag Hs; inv_ok; inv_readers; cbn in *; naive_solver.
Qed.

Lemma RefUpdate_canonical bytes p :
  RefUpdatePayload_decode bytes = Ok p -> to_canonical_bytes p = Ok bytes.
Proof.
  unfold RefUpdatePayload_decode. intros H.
  destruct (decode_fields _ _ _ bytes) as [[o1 o2 o3 o4 o5 o6 o7]|] eqn:Hd; [|discriminate].
  eapply decode_fields_collects in Hd as ->; [|apply RefUpdateAcc_collects|done].
  cbn [ua_name ua_old ua_new ua_target ua_seq ua_created ua_author] in H. inv_ok.
  unfold to_canonical_bytes. rewrite RefUpdate_encode_fields.
  rewrite write_fields_new by apply RefUpdate_tags. f_equal. f_equal.
  unfold RefUpdate_fields, RefUpdateAcc_fields. by rewrite !map_app, !map_map.
Qed.

#[global] Instance RefUpdatePayload_codec : PayloadCodec RefUpdatePayload := {|
  pc_decode := RefUpdatePayload_decode;
  pc_wf := RefUpdate_wf;
  pc_roundtrip := RefUpdate_roundtrip;
|}.
#[global] Instance RefUpdatePayload_canonical_codec : CanonicalCodec RefUpdatePayload := {|
  cc_canonical := fun p bytes _ Hd =>
    conj (RefUpdate_decode_wf bytes p Hd) (RefUpdate_canonical bytes p Hd);
|}.

(** The RefState codec, one instance per envelope schema version. *)
Definition RefStatePayload_codec (v : Z) : PayloadCodec RefStatePayload := {|
  pc_decode := RefStatePayload_decode v;
  pc_wf := RefState_wf v;
  pc_roundtrip := RefState_roundtrip v;
|}.
Definition RefStatePayload_canonical_codec (v : Z) : CanonicalCodec RefStatePayload := {|
  cc_codec := RefStatePayload_codec v;
  cc_canonical := fun p bytes _ Hd =>
    conj (RefState_decode_wf v bytes p Hd) (RefState_canonical v bytes p Hd);
|}.

(** ** Properties *)

(** Ref states: under each schema version, decoding is exactly the inverse of canonical
    encoding on the payloads that schema can carry.  In particular an open ref state has no
    explicit [closed] field, a closed one is refused below schema 2, and the required attestations
    are strictly sorted. *)
Theorem ref_state_codec_exact v p bytes :
  zlen bytes < 2 ^ 64 ->
  RefStatePayload_decode v bytes = Ok p <-> RefState_wf v p /\ to_canonical_bytes p = Ok bytes.
Proof. apply (@pc_decode_iff _ (RefStatePayload_canonical_codec v)). Qed.

Definition witness_ref_state : RefStatePayload :=
  mkRefState (bytes_of_string "main") Branch (replicate 32 x07) 3 None [replicate 32 x01] true.

Lemma ref_state_codec_exact_witness :
  exists bytes, to_canonical_bytes witness_ref_state = Ok bytes /\
    RefStatePayload_decode 2 bytes = Ok witness_ref_state.
Proof.
  eexists. split; [vm_compute; reflexivity|].
  apply ref_state_codec_exact; [vm_compute; reflexivity|].
  split; [|vm_compute; reflexivity].
  unfold RefState_wf, wf_id, rust_string, u64, REF_STATE_CLOSED_SCHEMA. cbn.
  repeat split; try lia. by repeat constructor.
Defined.

(** Ref updates: decoding is exactly the inverse of canonical encoding. *)
Theorem ref_update_codec_exact p bytes :
  zlen bytes < 2 ^ 64 ->
  RefUpdatePayload_decode bytes = Ok p <-> RefUpdate_wf p /\ to_canonical_bytes p = Ok bytes.
Proof. apply (@pc_decode_iff _ RefUpdatePayload_canonical_codec). Qed.

Definition witness_ref_update : RefUpdatePayload :=
  mkRefUpdate (bytes_of_string "main") None (replicate 32 x07) (replicate 32 x08) 1 0
    (bytes_of_string "maint").

Lemma ref_update_codec_exact_witness :
  exists bytes, to_canonical_bytes witness_ref_update = Ok bytes /\
    RefUpdatePayload_decode bytes = Ok witness_ref_update.
Proof.
  eexists. split; [vm_compute; reflexivity|].
  apply ref_update_codec_exact; [vm_compute; reflexivity|].
  split; [|vm_compute; reflexivity].
  unfold RefUpdate_wf, wf_id, rust_string, u64. cbn. repeat split; lia.
Defined.
