(* ===== verification/TagPayload.v ===== *)
(** * Tag payloads (crates/prikk-object/src/payload/tag.rs, payload/common.rs) *)

From S2P Require Import Prelude PrikkError Hash Utf8 Canonical Cursor ObjectId Payload.

(** [PatchSetDigest(pub [u8; 32])]. *)
Abbreviation PatchSetDigest := (list byte) (only parsing).

Record TagPayload : Type := mkTag {
  tg_name : list byte;
  tg_target_block_id : ObjectId;
  tg_message : option (list byte);
  tg_created_at : Z;
  tg_author_key_id : list byte;
  tg_patch_set_digest : PatchSetDigest;
  tg_patch_count : Z;
}.
#[global] Instance TagPayload_eq_dec : EqDecision TagPayload.
Proof. solve_decision. Defined.

#[global] Instance TagPayload_encode : CanonicalEncode TagPayload := fun p w =>
  let? w := field_string 1 (tg_name p) w in
  let? w := field_object_id 2 (tg_target_block_id p) w in
  let? w := match tg_message p with Some message => field_string 3 message w | None => Ok w end in
  let? w := field_u64 4 (tg_created_at p) w in
  let? w := field_string 5 (tg_author_key_id p) w in
  let? w := field_bytes 6 (tg_patch_set_digest p) w in
  field_u64 7 (tg_patch_count p) w.

(** [TagCursor] and [TagField]. *)
Definition TagCursor_next_field := next_field MalformedData.
Definition TagField_read_string := read_string MalformedData.
Definition TagField_read_u64 := read_u64 MalformedData.
Definition TagField_read_object_id := read_object_id MalformedData.
Definition TagField_read_array := field_read_array MalformedData.

Record TagAcc : Type := mkTagAcc {
  ta_name : option (list byte);
  ta_target : option ObjectId;
  ta_message : option (list byte);
  ta_created : option Z;
  ta_author : option (list byte);
  ta_digest : option PatchSetDigest;
  ta_count : option Z;
}.

(** The body of the [while let] loop of [TagPayload::decode_canonical]. *)
Definition TagPayload_decode_step (a : TagAcc) (field : Field) : PResult TagAcc :=
  let '(mkTagAcc name target message created author digest count) := a in
  if tag field =? 1 then
    if is_some name then Err (MalformedData "duplicate Tag name field")
    else
      let? s := TagField_read_string field in
      Ok (mkTagAcc (Some s) target message created author digest count)
  else if tag field =? 2 then
    if is_some target then Err (MalformedData "duplicate Tag target_block_id field")
    else
      let? id := TagField_read_object_id field in
      Ok (mkTagAcc name (Some id) message created author digest count)
  else if tag field =? 3 then
    if is_some message then Err (MalformedData "duplicate Tag message field")
    else
      let? s := TagField_read_string field in
      Ok (mkTagAcc name target (Some s) created author digest count)
  else if tag field =? 4 then
    if is_some created then Err (MalformedData "duplicate Tag created_at field")
    else
      let? z := TagField_read_u64 field in
      Ok (mkTagAcc name target message (Some z) author digest count)
  else if tag field =? 5 then
    if is_some author then Err (MalformedData "duplicate Tag author_key_id field")
    else
      let? s := TagField_read_string field in
      Ok (mkTagAcc name target message created (Some s) digest count)
  else if tag field =? 6 then
    if is_some digest then Err (MalformedData "duplicate Tag patch_set_digest field")
    else
      let? bs := TagField_read_array field 32 in
      Ok (mkTagAcc name target message created author (Some bs) count)
  else if tag field =? 7 then
    if is_some count then Err (MalformedData "duplicate Tag patch_count field")
    else
      let? z := TagField_read_u64 field in
      Ok (mkTagAcc name target message created author digest (Some z))
  else Err (MalformedData "unknown Tag field tag: {other}").

Definition TagPayload_decode (bytes : list byte) : PResult TagPayload :=
  let? a := decode_fields MalformedData TagPayload_decode_step
              (mkTagAcc None None None None None None None) bytes in
  let? name := ok_or (ta_name a) (MalformedData "Tag missing name") in
  let? target := ok_or (ta_target a) (MalformedData "Tag missing target_block_id") in
  let? created := ok_or (ta_created a) (MalformedData "Tag missing created_at") in
  let? author := ok_or (ta_author a) (MalformedData "Tag missing author_key_id") in
  let? digest := ok_or (ta_digest a) (MalformedData "Tag missing patch_set_digest") in
  let? count := ok_or (ta_count a) (MalformedData "Tag missing patch_count") in
  Ok (mkTag name target (ta_message a) created author digest count).

(** ** Lemmas *)

Definition Tag_fields (p : TagPayload) : list (Z * WireType * list byte) :=
  [(1, WireString, tg_name p)]
    ++ [(2, WireObjectId, tg_target_block_id p)]
    ++ map (fun s => (3, WireString, s)) (option_list (tg_message p))
    ++ [(4, WireU64, to_be_bytes 8 (tg_created_at p))]
    ++ [(5, WireString, tg_author_key_id p)]
    ++ [(6, WireBytes, tg_patch_set_digest p)]
    ++ [(7, WireU64, to_be_bytes 8 (tg_patch_count p))].

Lemma Tag_tags p : tags_between 1 65535 (map to_field (Tag_fields p)).
Proof. unfold Tag_fields. solve_tags. Qed.

Lemma Tag_encode_fields p w : encode_canonical p w = write_fields (Tag_fields p) w.
Proof. unfold encode_canonical, TagPayload_encode, Tag_fields. encoder_fields. Qed.

(** The Rust types of the fields. *)
Definition Tag_wf (p : TagPayload) : Prop :=
  rust_string (tg_name p) /\ wf_id (tg_target_block_id p) /\ opt_all rust_string (tg_message p) /\
  u64 (tg_created_at p) /\ rust_string (tg_author_key_id p) /\ wf_id (tg_patch_set_digest p) /\
  u64 (tg_patch_count p).

Ltac run_tag_step :=
  unfold TagPayload_decode_step, TagField_read_object_id, TagField_read_array,
    TagField_read_string, TagField_read_u64; select_tag; run_readers.

Lemma Tag_fold p :
  Tag_wf p ->
  foldM TagPayload_decode_step (mkTagAcc None None None None None None None)
    (map to_field (Tag_fields p))
  = Ok (mkTagAcc (Some (tg_name p)) (Some (tg_target_block_id p)) (tg_message p)
          (Some (tg_created_at p)) (Some (tg_author_key_id p)) (Some (tg_patch_set_digest p))
          (Some (tg_patch_count p))).
Proof.
  intros (H1 & H2 & H3 & H4 & H5 & H6 & H7). unfold Tag_fields. rewrite !map_app, !map_map.
  do 2 (eapply foldM_then; [apply foldM_one; by run_tag_step|]).
  eapply foldM_then; [apply (foldM_opt _ _ (fun o => mkTagAcc _ _ o None None None None))|].
  { intros x Hx. rewrite Hx in H3. cbn in H3. by run_tag_step. }
  do 2 (eapply foldM_then; [apply foldM_one; by run_tag_step|]).
  eapply foldM_then; [apply foldM_one; run_tag_step; by rewrite field_read_array_written|].
  apply foldM_one. by run_tag_step.
Qed.

Lemma Tag_roundtrip p bytes :
  Tag_wf p -> zlen bytes < 2 ^ 64 -> to_canonical_bytes p = Ok bytes ->
  TagPayload_decode bytes = Ok p.
Proof.
  intros Hwf Hl Hb. unfold to_canonical_bytes in Hb. rewrite Tag_encode_fields in Hb.
  unfold TagPayload_decode. rewrite (write_fields_decode _ _ _ _ _ (Tag_tags p) Hb Hl).
  rewrite Tag_fold by done. by destruct p.
Qed.

#[global] Instance TagPayload_codec : PayloadCodec TagPayload := {|
  pc_decode := TagPayload_decode;
  pc_wf := Tag_wf;
  pc_roundtrip := Tag_roundtrip;
|}.

(** The decoder does not look at the wire type of field 6. *)
Definition Tag_norm (f : Field) : Field :=
  if tag f =? 6 then wfield 6 WireBytes (value f) else f.

Definition TagAcc_fields (a : TagAcc) : list Field :=
  map (wfield 1 WireString) (option_list (ta_name a))
    ++ map (wfield 2 WireObjectId) (option_list (ta_target a))
    ++ map (wfield 3 WireString) (option_list (ta_message a))
    ++ map (fun z => wfield 4 WireU64 (to_be_bytes 8 z)) (option_list (ta_created a))
    ++ map (wfield 5 WireString) (option_list (ta_author a))
    ++ map (wfield 6 WireBytes) (option_list (ta_digest a))
    ++ map (fun z => wfield 7 WireU64 (to_be_bytes 8 z)) (option_list (ta_count a)).

Lemma TagAcc_collects : collects_norm Tag_norm TagPayload_decode_step TagAcc_fields.
Proof.
  intros [o1 o2 o3 o4 o5 o6 o7] f a' Hs Hle.
  unfold TagPayload_decode_step, TagField_read_object_id, TagField_read_array,
    TagField_read_string, TagField_read_u64, TagAcc_fields, Tag_norm in *.
  cbn [ta_name ta_target ta_message ta_created ta_author ta_digest ta_count] in *.
  split_tag Hs; inv_ok; none_of_is_some; later_empty;
    cbn [ta_name ta_target ta_message ta_created ta_author ta_digest ta_count] in *; inv_readers;
    try rewrite (proj2 (Z.eqb_neq (tag f) 6)) by lia; collect_finish.
Qed.

Lemma Tag_normalizes bytes p :
  TagPayload_decode bytes = Ok p ->
  exists fs, bytes = enc_fields fs /\ to_canonical_bytes p = Ok (enc_fields (map Tag_norm fs)).
Proof.
  unfold TagPayload_decode. intros H.
  destruct (decode_fields _ _ _ bytes) as [[o1 o2 o3 o4 o5 o6 o7]|] eqn:Hd; [|discriminate].
  eapply decode_fields_collects_norm in Hd as (fs & -> & _ & Hfs); [| |apply TagAcc_collects|done].
  - exists fs. split; [done|]. rewrite <- Hfs.
    cbn [ta_name ta_target ta_message ta_created ta_author ta_digest ta_count] in H. inv_ok.
    unfold to_canonical_bytes. rewrite Tag_encode_fields.
    rewrite write_fields_new by apply Tag_tags. f_equal. f_equal.
    unfold Tag_fields, TagAcc_fields. by rewrite !map_app, !map_map.
  - intros f. unfold Tag_norm. destruct (Z.eqb_spec (tag f) 6); [by cbn|done].
Qed.

(** ** Properties *)

(** Tags round-trip through their canonical encoding, digest and patch count included. *)
Theorem tag_codec_roundtrip p bytes :
  Tag_wf p -> zlen bytes < 2 ^ 64 -> to_canonical_bytes p = Ok bytes ->
  TagPayload_decode bytes = Ok p.
Proof. apply Tag_roundtrip. Qed.

Definition witness_tag : TagPayload :=
  mkTag (bytes_of_string "v1") (replicate 32 x02) (Some (bytes_of_string "first")) 0
    (bytes_of_string "k") (replicate 32 x05) 4.

Lemma tag_codec_roundtrip_witness :
  exists bytes, to_canonical_bytes witness_tag = Ok bytes /\ TagPayload_decode bytes = Ok witness_tag.
Proof.
  eexists. split; [vm_compute; reflexivity|].
  apply tag_codec_roundtrip; [|vm_compute; reflexivity..].
  unfold Tag_wf, wf_id, rust_string, u64. cbn. repeat split; lia.
Defined.

(** The tag with its digest under wire type [w]. *)
Definition tag_with_digest_wire (w : WireType) : list byte :=
  enc_fields [wfield 1 WireString [x76]; wfield 2 WireObjectId (replicate 32 x02);
              wfield 4 WireU64 (to_be_bytes 8 0); wfield 5 WireString [x6b];
              wfield 6 w (replicate 32 x05); wfield 7 WireU64 (to_be_bytes 8 1)].

(** The Tag decoder ignores the wire type of the patch-set digest: two different byte strings decode to
    one tag. *)
Theorem tag_digest_wire_ignored :
  tag_with_digest_wire WireBytes <> tag_with_digest_wire WireObjectId /\
  TagPayload_decode (tag_with_digest_wire WireBytes)
  = TagPayload_decode (tag_with_digest_wire WireObjectId) /\
  is_ok (TagPayload_decode (tag_with_digest_wire WireObjectId)) = true.
Proof.
  split; [|split]; [|vm_compute; reflexivity..]. intros H. vm_compute in H. discriminate H.
Qed.
