(* ===== verification/RecognitionClaim.v ===== *)
(** * Recognition-claim payloads (crates/prikk-object/src/payload/recognition_claim.rs) *)

From S2P Require Import Prelude PrikkError Hash Utf8 Canonical Cursor ObjectId Payload.

Definition RECOGNITION_CLAIM_MAX_PATCH_IDS : Z := 100000.

Record RecognitionClaimPayload : Type := mkClaim {
  rc_block_id : ObjectId;
  rc_patch_ids : list ObjectId;
  rc_parent_block_ids : list ObjectId;
}.
#[global] Instance RecognitionClaimPayload_eq_dec : EqDecision RecognitionClaimPayload.
Proof. solve_decision. Defined.

#[global] Instance RecognitionClaimPayload_encode : CanonicalEncode RecognitionClaimPayload := fun p w =>
  if bool_decide (rc_patch_ids p = [])
  then Err (CanonicalEncoding "RecognitionClaim patch_ids must not be empty")
  else
    let? w := field_object_id 1 (rc_block_id p) w in
    let? w := repeated_object_id 2 (rc_patch_ids p) w in
    repeated_object_id 3 (rc_parent_block_ids p) w.

(** [RecognitionClaimCursor] and [RecognitionClaimField]. *)
Definition RecognitionClaimCursor_next_field := next_field MalformedData.
Definition RecognitionClaimField_read_object_id := read_object_id MalformedData.

Record ClaimAcc : Type := mkClaimAcc {
  ca_block : option ObjectId;
  ca_patches : list ObjectId;
  ca_parents : list ObjectId;
}.

(** The body of the [while let] loop of [RecognitionClaimPayload::decode_canonical]. *)
Definition RecognitionClaimPayload_decode_step (a : ClaimAcc) (field : Field) : PResult ClaimAcc :=
  let '(mkClaimAcc block patches parents) := a in
  if tag field =? 1 then
    if is_some block then Err (MalformedData "duplicate RecognitionClaim block_id field")
    else
      let? id := RecognitionClaimField_read_object_id field in
      Ok (mkClaimAcc (Some id) patches parents)
  else if tag field =? 2 then
    if RECOGNITION_CLAIM_MAX_PATCH_IDS <=? zlen patches
    then Err (MalformedData "RecognitionClaim patch_ids exceeds the limit of {RECOGNITION_CLAIM_MAX_PATCH_IDS}")
    else
      let? id := RecognitionClaimField_read_object_id field in
      Ok (mkClaimAcc block (patches ++ [id]) parents)
  else if tag field =? 3 then
    if RECOGNITION_CLAIM_MAX_PATCH_IDS <=? zlen parents
    then Err (MalformedData "RecognitionClaim parent_block_ids exceeds the limit of {RECOGNITION_CLAIM_MAX_PATCH_IDS}")
    else
      let? id := RecognitionClaimField_read_object_id field in
      Ok (mkClaimAcc block patches (parents ++ [id]))
  else Err (MalformedData "unknown RecognitionClaim field tag: {other}").

Definition RecognitionClaimPayload_decode (bytes : list byte) : PResult RecognitionClaimPayload :=
  let? a := decode_fields MalformedData RecognitionClaimPayload_decode_step (mkClaimAcc None [] []) bytes in
  let? block_id := ok_or (ca_block a) (MalformedData "RecognitionClaim missing block_id") in
  let payload := mkClaim block_id (ca_patches a) (ca_parents a) in
  if bool_decide (rc_patch_ids payload = [])
  then Err (MalformedData "RecognitionClaim patch_ids must not be empty")
  else Ok payload.

(** ** Lemmas *)

Definition Claim_fields (p : RecognitionClaimPayload) : list (Z * WireType * list byte) :=
  [(1, WireObjectId, rc_block_id p)]
    ++ map (fun id => (2, WireObjectId, id)) (rc_patch_ids p)
    ++ map (fun id => (3, WireObjectId, id)) (rc_parent_block_ids p).

Lemma Claim_tags p : tags_between 1 65535 (map to_field (Claim_fields p)).
Proof. unfold Claim_fields. solve_tags. Qed.

Lemma Claim_encode_fields p w :
  rc_patch_ids p <> [] -> encode_canonical p w = write_fields (Claim_fields p) w.
Proof.
  intros Hne. unfold encode_canonical, RecognitionClaimPayload_encode.
  rewrite bool_decide_eq_false_2 by done. unfold Claim_fields. encoder_fields.
Qed.

Lemma Claim_encode_valid (p : RecognitionClaimPayload) bytes :
  to_canonical_bytes p = Ok bytes -> rc_patch_ids p <> [].
Proof.
  unfold to_canonical_bytes, encode_canonical, RecognitionClaimPayload_encode.
  by case_bool_decide.
Qed.

(** The Rust types of the fields and the decoder's bound on both lists. *)
Definition Claim_wf (p : RecognitionClaimPayload) : Prop :=
  wf_id (rc_block_id p) /\ Forall wf_id (rc_patch_ids p) /\ Forall wf_id (rc_parent_block_ids p) /\
  zlen (rc_patch_ids p) <= RECOGNITION_CLAIM_MAX_PATCH_IDS /\
  zlen (rc_parent_block_ids p) <= RECOGNITION_CLAIM_MAX_PATCH_IDS.

(** Collecting a bounded repeated field. *)
Lemma foldM_bounded {A} (step : A -> Field -> PResult A) g (upd : list ObjectId -> A) l :
  Forall wf_id l -> zlen l <= RECOGNITION_CLAIM_MAX_PATCH_IDS ->
  (forall l1 x, wf_id x -> zlen l1 < RECOGNITION_CLAIM_MAX_PATCH_IDS ->
     step (upd l1) (g x) = Ok (upd (l1 ++ [x]))) ->
  foldM step (upd []) (map g l) = Ok (upd l).
Proof.
  intros Hl Hb Hs. enough (Hgen : forall l0, zlen (l0 ++ l) <= RECOGNITION_CLAIM_MAX_PATCH_IDS ->
    foldM step (upd l0) (map g l) = Ok (upd (l0 ++ l))) by (by apply (Hgen [])).
  clear Hb. induction l as [|x l IH]; intros l0 Hb; cbn [foldM map]; [by rewrite app_nil_r|].
  apply Forall_cons in Hl as [Hx Hl]. rewrite zlen_app, zlen_cons in Hb. pose proof (zlen_nonneg l).
  rewrite Hs by (done || lia). rewrite IH; [by rewrite <- app_assoc|done|].
  rewrite <- app_assoc, zlen_app. cbn [app]. rewrite zlen_cons. lia.
Qed.

Ltac run_claim_step :=
  unfold RecognitionClaimPayload_decode_step, RecognitionClaimField_read_object_id; select_tag;
  try match goal with |- context [?x <=? zlen ?l] => destruct (Z.leb_spec x (zlen l)); [lia|] end;
  run_readers.

Lemma Claim_fold p :
  Claim_wf p ->
  foldM RecognitionClaimPayload_decode_step (mkClaimAcc None [] []) (map to_field (Claim_fields p))
  = Ok (mkClaimAcc (Some (rc_block_id p)) (rc_patch_ids p) (rc_parent_block_ids p)).
Proof.
  intros (H1 & H2 & H3 & H4 & H5). unfold Claim_fields. rewrite !map_app, !map_map.
  eapply foldM_then; [apply foldM_one; by run_claim_step|].
  eapply foldM_then; [apply (foldM_bounded _ _ (fun l => mkClaimAcc _ l [])); [done..|]|].
  { intros l1 x Hx Hb. by run_claim_step. }
  apply (foldM_bounded _ _ (fun l => mkClaimAcc _ _ l)); [done..|].
  intros l1 x Hx Hb. by run_claim_step.
Qed.

Lemma Claim_roundtrip p bytes :
  Claim_wf p -> zlen bytes < 2 ^ 64 -> to_canonical_bytes p = Ok bytes ->
  RecognitionClaimPayload_decode bytes = Ok p.
Proof.
  intros Hwf Hl Hb. pose proof (Claim_encode_valid p bytes Hb) as Hne.
  unfold to_canonical_bytes in Hb. rewrite Claim_encode_fields in Hb by done.
  unfold RecognitionClaimPayload_decode.
  rewrite (write_fields_decode _ _ _ _ _ (Claim_tags p) Hb Hl), Claim_fold by done.
  cbn [ca_block ca_patches ca_parents ok_or rc_patch_ids].
  rewrite bool_decide_eq_false_2 by done. by destruct p.
Qed.

Definition ClaimAcc_fields (a : ClaimAcc) : list Field :=
  map (wfield 1 WireObjectId) (option_list (ca_block a))
    ++ map (wfield 2 WireObjectId) (ca_patches a) ++ map (wfield 3 WireObjectId) (ca_parents a).

Lemma ClaimAcc_collects : collects RecognitionClaimPayload_decode_step ClaimAcc_fields.
Proof.
  intros [o1 o2 o3] f a' Hs Hle.
  unfold RecognitionClaimPayload_decode_step, RecognitionClaimField_read_object_id, ClaimAcc_fields in *.
  cbn [ca_block ca_patches ca_parents] in *.
  split_tag Hs; inv_ok; none_of_is_some; later_empty;
    cbn [ca_block ca_patches ca_parents] in *; inv_readers; collect_finish.
Qed.

Lemma Claim_decode_wf bytes p : RecognitionClaimPayload_decode bytes = Ok p -> Claim_wf p.
Proof.
  unfold RecognitionClaimPayload_decode. intros H.
  destruct (decode_fields _ _ _ bytes) as [a|] eqn:Hd; [|discriminate].
  eapply (decode_fields_preserves _ _ (fun a => opt_all wf_id (ca_block a) /\
    Forall wf_id (ca_patches a) /\ Forall wf_id (ca_parents a) /\
    zlen (ca_patches a) <= RECOGNITION_CLAIM_MAX_PATCH_IDS /\
    zlen (ca_parents a) <= RECOGNITION_CLAIM_MAX_PATCH_IDS)) in Hd; [| |done].
  - destruct a as [o1 o2 o3]. cbn [ca_block ca_patches ca_parents] in *. inv_ok.
    unfold Claim_wf. cbn in *. naive_solver.
  - clear. intros [o1 o2 o3] f a' HP Hs.
    unfold RecognitionClaimPayload_decode_step, RecognitionClaimField_read_object_id in *.
    split_tag Hs; inv_ok; inv_readers; cbn in *; rewrite ?Forall_app, ?Forall_singleton, ?zlen_app,
      ?zlen_cons, ?zlen_nil; intuition lia.
Qed.

Lemma Claim_canonical bytes p :
  RecognitionClaimPayload_decode bytes = Ok p -> to_canonical_bytes p = Ok bytes.
Proof.
  unfold RecognitionClaimPayload_decode. intros H.
  destruct (decode_fields _ _ _ bytes) as [[o1 o2 o3]|] eqn:Hd; [|discriminate].
  eapply decode_fields_collects in Hd as ->; [|apply ClaimAcc_collects|done].
  cbn [ca_block ca_patches ca_parents] in H. inv_ok. cbn [rc_patch_ids] in *.
  match goal with H : bool_decide _ = false |- _ => apply bool_decide_eq_false in H end.
  unfold to_canonical_bytes. rewrite Claim_encode_fields by done.
  rewrite write_fields_new by apply Claim_tags. f_equal. f_equal.
  unfold Claim_fields, ClaimAcc_fields. by rewrite !map_app, !map_map.
Qed.

#[global] Instance RecognitionClaimPayload_codec : PayloadCodec RecognitionClaimPayload := {|
  pc_decode := RecognitionClaimPayload_decode;
  pc_wf := Claim_wf;
  pc_roundtrip := Claim_roundtrip;
|}.
#[global] Instance RecognitionClaimPayload_canonical_codec : CanonicalCodec RecognitionClaimPayload := {|
  cc_canonical := fun p bytes _ Hd =>
    conj (Claim_decode_wf bytes p Hd) (Claim_canonical bytes p Hd);
|}.

(** ** Properties *)

(** Recognition claims: decoding is exactly the inverse of canonical encoding on claims within
    the decoder's bound; patch and parent order and duplicates are preserved, and a claim about no
    patch is refused on both sides. *)
Theorem claim_codec_exact p bytes :
  zlen bytes < 2 ^ 64 ->
  RecognitionClaimPayload_decode bytes = Ok p <-> Claim_wf p /\ to_canonical_bytes p = Ok bytes.
Proof. apply (@pc_decode_iff _ RecognitionClaimPayload_canonical_codec). Qed.

Definition witness_claim : RecognitionClaimPayload :=
  mkClaim (replicate 32 x02) [replicate 32 x09; replicate 32 x01; replicate 32 x09] [].

Lemma claim_codec_exact_witness :
  exists bytes, to_canonical_bytes witness_claim = Ok bytes /\
    RecognitionClaimPayload_decode bytes = Ok witness_claim.
Proof.
  eexists. split; [vm_compute; reflexivity|].
  apply claim_codec_exact; [vm_compute; reflexivity|]. split; [|vm_compute; reflexivity].
  unfold Claim_wf, wf_id, zlen, RECOGNITION_CLAIM_MAX_PATCH_IDS. cbn. repeat split; try lia; by repeat constructor.
Defined.
