(* ===== verification/Attestation.v ===== *)
(** * Attestation payloads (crates/prikk-object/src/payload/attestation.rs)

    The one payload with nested records: each plugin result is a canonical payload of its own inside
    a record-list item. *)

From S2P Require Import Prelude PrikkError Hash Utf8 Canonical Cursor ObjectId Payload.

Inductive AttestationStatus : Type := Pass | Warn | FailStatus | Quarantine.
#[global] Instance AttestationStatus_eq_dec : EqDecision AttestationStatus.
Proof. solve_decision. Defined.

Definition AttestationStatus_code (s : AttestationStatus) : Z :=
  match s with Pass => 1 | Warn => 2 | FailStatus => 3 | Quarantine => 4 end.
Definition AttestationStatus_from_code (code : Z) : PResult AttestationStatus :=
  if code =? 1 then Ok Pass
  else if code =? 2 then Ok Warn
  else if code =? 3 then Ok FailStatus
  else if code =? 4 then Ok Quarantine
  else Err (MalformedData "unknown attestation status code: {other}").

(** [AttestationCursor] and [AttestationField]. *)
Definition AttestationCursor_next_field := next_field MalformedData.
Definition AttestationField_read_string := read_string MalformedData.
Definition AttestationField_read_bytes := read_bytes MalformedData.
Definition AttestationField_read_u32 := read_u32 MalformedData.
Definition AttestationField_read_u64 := read_u64 MalformedData.
Definition AttestationField_read_enum_u16 := read_enum_u16 MalformedData.
Definition AttestationField_read_object_id := read_object_id MalformedData.

Definition AttestationField_read_bool (field : Field) : PResult bool :=
  let? _ := require_wire MalformedData field WireBool in
  match value field with
  | [b] =>
      if bz b =? 0 then Ok false
      else if bz b =? 1 then Ok true
      else Err (MalformedData "field {} is not a valid bool")
  | _ => Err (MalformedData "field {} is not a valid bool")
  end.

Definition AttestationField_read_record (field : Field) : PResult (list byte) :=
  let? _ := require_wire MalformedData field WireRecordListItem in Ok (value field).

(** ** Plugin results *)

Record PluginResultEntry : Type := mkPlugin {
  plugin_id : list byte;
  plugin_version : list byte;
  pr_status : AttestationStatus;
  report_hash : list byte;
  finding_count : Z;
}.
#[global] Instance PluginResultEntry_eq_dec : EqDecision PluginResultEntry.
Proof. solve_decision. Defined.

#[global] Instance PluginResultEntry_encode : CanonicalEncode PluginResultEntry := fun p w =>
  let? w := field_string 1 (plugin_id p) w in
  let? w := field_string 2 (plugin_version p) w in
  let? w := field_enum_u16 3 (AttestationStatus_code (pr_status p)) w in
  let? w := field_bytes 4 (report_hash p) w in
  field_u32 5 (finding_count p) w.

Record PluginAcc : Type := mkPluginAcc {
  pa_id : option (list byte);
  pa_version : option (list byte);
  pa_status : option AttestationStatus;
  pa_hash : option (list byte);
  pa_count : option Z;
}.

Definition PluginResultEntry_decode_step (a : PluginAcc) (field : Field) : PResult PluginAcc :=
  let '(mkPluginAcc id version status hash count) := a in
  if tag field =? 1 then
    if is_some id then Err (MalformedData "duplicate PluginResultEntry plugin_id field")
    else
      let? s := AttestationField_read_string field in
      Ok (mkPluginAcc (Some s) version status hash count)
  else if tag field =? 2 then
    if is_some version then Err (MalformedData "duplicate PluginResultEntry plugin_version field")
    else
      let? s := AttestationField_read_string field in
      Ok (mkPluginAcc id (Some s) status hash count)
  else if tag field =? 3 then
    if is_some status then Err (MalformedData "duplicate PluginResultEntry status field")
    else
      let? code := AttestationField_read_enum_u16 field in
      let? st := AttestationStatus_from_code code in
      Ok (mkPluginAcc id version (Some st) hash count)
  else if tag field =? 4 then
    if is_some hash then Err (MalformedData "duplicate PluginResultEntry report_hash field")
    else
      let? bs := AttestationField_read_bytes field in
      Ok (mkPluginAcc id version status (Some bs) count)
  else if tag field =? 5 then
    if is_some count then Err (MalformedData "duplicate PluginResultEntry finding_count field")
    else
      let? z := AttestationField_read_u32 field in
      Ok (mkPluginAcc id version status hash (Some z))
  else Err (MalformedData "unknown PluginResultEntry field tag: {other}").

Definition PluginResultEntry_decode (bytes : list byte) : PResult PluginResultEntry :=
  let? a := decode_fields MalformedData PluginResultEntry_decode_step
              (mkPluginAcc None None None None None) bytes in
  let? id := ok_or (pa_id a) (MalformedData "PluginResultEntry missing plugin_id") in
  let? version := ok_or (pa_version a) (MalformedData "PluginResultEntry missing plugin_version") in
  let? status := ok_or (pa_status a) (MalformedData "PluginResultEntry missing status") in
  let? hash := ok_or (pa_hash a) (MalformedData "PluginResultEntry missing report_hash") in
  let? count := ok_or (pa_count a) (MalformedData "PluginResultEntry missing finding_count") in
  Ok (mkPlugin id version status hash count).

(** ** The attestation *)

Record AttestationPayload : Type := mkAttestation {
  at_target_block_id : ObjectId;
  at_policy_version : list byte;
  at_plugin_set_hash : list byte;
  at_results : list PluginResultEntry;
  at_status : AttestationStatus;
  at_created_at : Z;
  at_is_reproducible_offline : bool;
}.
#[global] Instance AttestationPayload_eq_dec : EqDecision AttestationPayload.
Proof. solve_decision. Defined.

Definition results_sorted_by_plugin_id (results : list PluginResultEntry) : bool :=
  forallb (fun '(a, b) => bytes_ltb (plugin_id a) (plugin_id b)) (windows2 results).

#[global] Instance AttestationPayload_encode : CanonicalEncode AttestationPayload := fun p w =>
  if negb (results_sorted_by_plugin_id (at_results p))
  then Err (CanonicalEncoding "plugin results must be strictly ordered and unique by plugin_id")
  else
    let? w := field_object_id 1 (at_target_block_id p) w in
    let? w := field_string 2 (at_policy_version p) w in
    let? w := field_bytes 3 (at_plugin_set_hash p) w in
    let? w := repeated_record_list 4 (at_results p) w in
    let? w := field_enum_u16 5 (AttestationStatus_code (at_status p)) w in
    let? w := field_u64 6 (at_created_at p) w in
    field_bool 7 (at_is_reproducible_offline p) w.

Record AttestationAcc : Type := mkAttestationAcc {
  aa_target : option ObjectId;
  aa_policy : option (list byte);
  aa_hash : option (list byte);
  aa_results : list PluginResultEntry;
  aa_status : option AttestationStatus;
  aa_created : option Z;
  aa_offline : option bool;
}.

(** The body of the [while let] loop of [AttestationPayload::decode_canonical]. *)
Definition AttestationPayload_decode_step (a : AttestationAcc) (field : Field)
  : PResult AttestationAcc :=
  let '(mkAttestationAcc target policy hash results status created offline) := a in
  if tag field =? 1 then
    if is_some target then Err (MalformedData "duplicate Attestation target_block_id field")
    else
      let? id := AttestationField_read_object_id field in
      Ok (mkAttestationAcc (Some id) policy hash results status created offline)
  else if tag field =? 2 then
    if is_some policy then Err (MalformedData "duplicate Attestation policy_version field")
    else
      let? s := AttestationField_read_string field in
      Ok (mkAttestationAcc target (Some s) hash results status created offline)
  else if tag field =? 3 then
    if is_some hash then Err (MalformedData "duplicate Attestation plugin_set_hash field")
    else
      let? bs := AttestationField_read_bytes field in
      Ok (mkAttestationAcc target policy (Some bs) results status created offline)
  else if tag field =? 4 then
    let? record := AttestationField_read_record field in
    let? entry := PluginResultEntry_decode record in
    Ok (mkAttestationAcc target policy hash (results ++ [entry]) status created offline)
  else if tag field =? 5 then
    if is_some status then Err (MalformedData "duplicate Attestation status field")
    else
      let? code := AttestationField_read_enum_u16 field in
      let? st := AttestationStatus_from_code code in
      Ok (mkAttestationAcc target policy hash results (Some st) created offline)
  else if tag field =? 6 then
    if is_some created then Err (MalformedData "duplicate Attestation created_at field")
    else
      let? z := AttestationField_read_u64 field in
      Ok (mkAttestationAcc target policy hash results status (Some z) offline)
  else if tag field =? 7 then
    if is_some offline then Err (MalformedData "duplicate Attestation is_reproducible_offline field")
    else
      let? b := AttestationField_read_bool field in
      Ok (mkAttestationAcc target policy hash results status created (Some b))
  else Err (MalformedData "unknown Attestation field tag: {other}").

Definition AttestationPayload_decode (bytes : list byte) : PResult AttestationPayload :=
  let? a := decode_fields MalformedData AttestationPayload_decode_step
              (mkAttestationAcc None None None [] None None None) bytes in
  if negb (results_sorted_by_plugin_id (aa_results a))
  then Err (MalformedData "plugin results must be strictly ordered and unique by plugin_id")
  else
    let? target := ok_or (aa_target a) (MalformedData "Attestation missing target_block_id") in
    let? policy := ok_or (aa_policy a) (MalformedData "Attestation missing policy_version") in
    let? hash := ok_or (aa_hash a) (MalformedData "Attestation missing plugin_set_hash") in
    let? status := ok_or (aa_status a) (MalformedData "Attestation missing status") in
    let? created := ok_or (aa_created a) (MalformedData "Attestation missing created_at") in
    let? offline := ok_or (aa_offline a) (MalformedData "Attestation missing is_reproducible_offline") in
    Ok (mkAttestation target policy hash (aa_results a) status created offline).

(** ** Lemmas: plugin results *)

Lemma AttestationStatus_from_to_code s : AttestationStatus_from_code (AttestationStatus_code s) = Ok s.
Proof. by destruct s. Qed.
Lemma AttestationStatus_from_code_inv c s :
  AttestationStatus_from_code c = Ok s -> c = AttestationStatus_code s.
Proof. unfold AttestationStatus_from_code. intros H. inv_ok; cbn; lia. Qed.
Lemma AttestationStatus_code_range s : u16 (AttestationStatus_code s).
Proof. destruct s; split; cbn; lia. Qed.
#[export] Hint Resolve AttestationStatus_code_range : wire.
#[export] Hint Rewrite AttestationStatus_from_to_code : wire.

Definition Plugin_fields (p : PluginResultEntry) : list (Z * WireType * list byte) :=
  [(1, WireString, plugin_id p)] ++ [(2, WireString, plugin_version p)]
    ++ [(3, WireEnumU16, to_be_bytes 2 (AttestationStatus_code (pr_status p)))]
    ++ [(4, WireBytes, report_hash p)] ++ [(5, WireU32, to_be_bytes 4 (finding_count p))].

Lemma Plugin_tags p : tags_between 1 65535 (map to_field (Plugin_fields p)).
Proof. unfold Plugin_fields. solve_tags. Qed.

Lemma Plugin_encode_fields p w : encode_canonical p w = write_fields (Plugin_fields p) w.
Proof. unfold encode_canonical, PluginResultEntry_encode, Plugin_fields. encoder_fields. Qed.

(** The canonical bytes of a plugin result. *)
Definition Plugin_bytes (p : PluginResultEntry) : list byte := enc_fields (map to_field (Plugin_fields p)).

Lemma Plugin_to_canonical p : to_canonical_bytes p = Ok (Plugin_bytes p).
Proof.
  unfold to_canonical_bytes. rewrite Plugin_encode_fields. apply write_fields_new, Plugin_tags.
Qed.

Definition Plugin_wf (p : PluginResultEntry) : Prop :=
  rust_string (plugin_id p) /\ rust_string (plugin_version p) /\ u32 (finding_count p).

Ltac run_attestation_step :=
  unfold AttestationPayload_decode_step, PluginResultEntry_decode_step,
    AttestationField_read_object_id, AttestationField_read_string, AttestationField_read_bytes,
    AttestationField_read_u32, AttestationField_read_u64, AttestationField_read_enum_u16;
  select_tag; run_readers.

Lemma Plugin_roundtrip p :
  Plugin_wf p -> zlen (Plugin_bytes p) < 2 ^ 64 -> PluginResultEntry_decode (Plugin_bytes p) = Ok p.
Proof.
  intros (H1 & H2 & H5) Hl.
  pose proof (write_fields_new _ (Plugin_tags p)) as Hb.
  unfold PluginResultEntry_decode, Plugin_bytes. rewrite (write_fields_decode _ _ _ _ _ (Plugin_tags p) Hb Hl).
  unfold Plugin_fields. rewrite !map_app.
  rewrite (foldM_then PluginResultEntry_decode_step _
    (mkPluginAcc (Some (plugin_id p)) None None None None)
    (Ok (mkPluginAcc (Some (plugin_id p)) (Some (plugin_version p)) (Some (pr_status p))
       (Some (report_hash p)) (Some (finding_count p))))); [by destruct p| |].
  - apply foldM_one. by run_attestation_step.
  - do 3 (eapply foldM_then; [apply foldM_one; by run_attestation_step|]).
    apply foldM_one. by run_attestation_step.
Qed.

Definition PluginAcc_fields (a : PluginAcc) : list Field :=
  map (wfield 1 WireString) (option_list (pa_id a))
    ++ map (wfield 2 WireString) (option_list (pa_version a))
    ++ map (fun s => wfield 3 WireEnumU16 (to_be_bytes 2 (AttestationStatus_code s))) (option_list (pa_status a))
    ++ map (wfield 4 WireBytes) (option_list (pa_hash a))
    ++ map (fun z => wfield 5 WireU32 (to_be_bytes 4 z)) (option_list (pa_count a)).

Lemma PluginAcc_collects : collects PluginResultEntry_decode_step PluginAcc_fields.
Proof.
  intros [o1 o2 o3 o4 o5] f a' Hs Hle.
  unfold PluginResultEntry_decode_step, AttestationField_read_string, AttestationField_read_bytes,
    AttestationField_read_u32, AttestationField_read_enum_u16, PluginAcc_fields in *.
  cbn [pa_id pa_version pa_status pa_hash pa_count] in *.
  split_tag Hs; inv_ok; none_of_is_some; later_empty;
    cbn [pa_id pa_version pa_status pa_hash pa_count] in *; inv_readers; collect_finish.
  match goal with H : AttestationStatus_from_code _ = Ok _ |- _ =>
    apply AttestationStatus_from_code_inv in H; rewrite <- H end.
  congruence.
Qed.

Lemma Plugin_canonical bytes p :
  PluginResultEntry_decode bytes = Ok p -> bytes = Plugin_bytes p /\ Plugin_wf p.
Proof.
  unfold PluginResultEntry_decode. intros H.
  destruct (decode_fields _ _ _ bytes) as [[o1 o2 o3 o4 o5]|] eqn:Hd; [|discriminate].
  assert (Hd' := Hd). eapply decode_fields_collects in Hd as ->; [|apply PluginAcc_collects|done].
  eapply (decode_fields_preserves _ _ (fun a => opt_all rust_string (pa_id a) /\
    opt_all rust_string (pa_version a) /\ opt_all u32 (pa_count a))) in Hd'; [| |done].
  - cbn [pa_id pa_version pa_status pa_hash pa_count] in *. inv_ok. cbn in Hd'.
    split; [|unfold Plugin_wf; naive_solver].
    unfold Plugin_bytes, Plugin_fields, PluginAcc_fields. by rewrite !map_app.
  - clear. intros [o1 o2 o3 o4 o5] f a' HP Hs.
    unfold PluginResultEntry_decode_step, AttestationField_read_string, AttestationField_read_bytes,
      AttestationField_read_u32, AttestationField_read_enum_u16 in *.
    split_tag Hs; inv_ok; inv_readers; cbn in *; naive_solver.
Qed.

(** ** Lemmas: the attestation *)

Definition Attestation_fields (p : AttestationPayload) : list (Z * WireType * list byte) :=
  [(1, WireObjectId, at_target_block_id p)] ++ [(2, WireString, at_policy_version p)]
    ++ [(3, WireBytes, at_plugin_set_hash p)]
    ++ map (fun e => (4, WireRecordListItem, Plugin_bytes e)) (at_results p)
    ++ [(5, WireEnumU16, to_be_bytes 2 (AttestationStatus_code (at_status p)))]
    ++ [(6, WireU64, to_be_bytes 8 (at_created_at p))]
    ++ [(7, WireBool, if at_is_reproducible_offline p then [x01] else [x00])].

Lemma Attestation_tags p : tags_between 1 65535 (map to_field (Attestation_fields p)).
Proof. unfold Attestation_fields. solve_tags. Qed.

Lemma repeated_record_list_fields t es w :
  repeated_record_list t es w
  = write_fields (map (fun e => (t, WireRecordListItem, Plugin_bytes e)) es) w.
Proof.
  unfold repeated_record_list, write_fields. revert w.
  induction es as [|e es IH]; intros w; cbn [foldM map]; [done|]. unfold field_record_list_item at 1.
  pose proof (Plugin_to_canonical e) as He. unfold to_canonical_bytes in He.
  destruct (encode_canonical e CanonicalWriter_new) as [nested|]; [|discriminate].
  apply Ok_inj in He. rewrite He.
  destruct (field_raw t WireRecordListItem (Plugin_bytes e) w); [apply IH|done].
Qed.

Lemma Attestation_encode_fields p w :
  results_sorted_by_plugin_id (at_results p) = true ->
  encode_canonical p w = write_fields (Attestation_fields p) w.
Proof.
  intros Hs. unfold encode_canonical, AttestationPayload_encode. rewrite Hs. cbn [negb].
  unfold Attestation_fields. do 3 (apply write_fields_then; [encoder_segment|intros ?]).
  apply write_fields_then; [apply repeated_record_list_fields|intros ?]. encoder_fields.
Qed.

Lemma Attestation_encode_valid (p : AttestationPayload) bytes :
  to_canonical_bytes p = Ok bytes -> results_sorted_by_plugin_id (at_results p) = true.
Proof.
  unfold to_canonical_bytes, encode_canonical, AttestationPayload_encode.
  by destruct (results_sorted_by_plugin_id (at_results p)).
Qed.

Definition Attestation_wf (p : AttestationPayload) : Prop :=
  wf_id (at_target_block_id p) /\ rust_string (at_policy_version p) /\
  Forall Plugin_wf (at_results p) /\ u64 (at_created_at p).

Lemma zlen_enc_fields_in f fs : f ∈ fs -> zlen (value f) <= zlen (enc_fields fs).
Proof.
  induction fs as [|g fs IH]; [by intros ?%elem_of_nil|]. rewrite enc_fields_cons, zlen_app, zlen_enc_field.
  pose proof (zlen_nonneg (value g)). pose proof (zlen_nonneg (enc_fields fs)).
  intros [->|Hin]%elem_of_cons; [lia|]. specialize (IH Hin). lia.
Qed.

Lemma Attestation_fold p :
  Attestation_wf p -> zlen (enc_fields (map to_field (Attestation_fields p))) < 2 ^ 64 ->
  foldM AttestationPayload_decode_step (mkAttestationAcc None None None [] None None None)
    (map to_field (Attestation_fields p))
  = Ok (mkAttestationAcc (Some (at_target_block_id p)) (Some (at_policy_version p))
          (Some (at_plugin_set_hash p)) (at_results p) (Some (at_status p))
          (Some (at_created_at p)) (Some (at_is_reproducible_offline p))).
Proof.
  intros (H1 & H2 & H4 & H6) Hl.
  assert (Hnest : forall e, e ∈ at_results p -> zlen (Plugin_bytes e) < 2 ^ 64).
  { intros e He. eapply Z.le_lt_trans; [|exact Hl].
    apply (zlen_enc_fields_in (wfield 4 WireRecordListItem (Plugin_bytes e))).
    unfold Attestation_fields. rewrite !map_app, !map_map, !elem_of_app. do 3 right. left.
    apply list_elem_of_fmap. by exists e. }
  unfold Attestation_fields. rewrite !map_app, !map_map.
  do 3 (eapply foldM_then; [apply foldM_one; by run_attestation_step|]).
  eapply foldM_then.
  { apply (foldM_collect _ _ (fun l => mkAttestationAcc _ _ _ l None None None)) with (l0 := []).
    intros l1 e He. run_attestation_step. unfold AttestationField_read_record.
    rewrite require_wire_written, value_wfield. rewrite Forall_forall in H4.
    by rewrite Plugin_roundtrip by auto. }
  do 2 (eapply foldM_then; [apply foldM_one; by run_attestation_step|]).
  apply foldM_one. run_attestation_step. unfold AttestationField_read_bool.
  rewrite require_wire_written, value_wfield. by destruct (at_is_reproducible_offline p).
Qed.

Lemma Attestation_roundtrip p bytes :
  Attestation_wf p -> zlen bytes < 2 ^ 64 -> to_canonical_bytes p = Ok bytes ->
  AttestationPayload_decode bytes = Ok p.
Proof.
  intros Hwf Hl Hb. pose proof (Attestation_encode_valid p bytes Hb) as Hs.
  unfold to_canonical_bytes in Hb. rewrite Attestation_encode_fields in Hb by done.
  unfold AttestationPayload_decode. rewrite (write_fields_decode _ _ _ _ _ (Attestation_tags p) Hb Hl).
  rewrite write_fields_new in Hb by apply Attestation_tags. apply Ok_inj in Hb as <-.
  rewrite Attestation_fold by done.
  cbn [aa_target aa_policy aa_hash aa_results aa_status aa_created aa_offline ok_or].
  rewrite Hs. by destruct p.
Qed.

Definition AttestationAcc_fields (a : AttestationAcc) : list Field :=
  map (wfield 1 WireObjectId) (option_list (aa_target a))
    ++ map (wfield 2 WireString) (option_list (aa_policy a))
    ++ map (wfield 3 WireBytes) (option_list (aa_hash a))
    ++ map (fun e => wfield 4 WireRecordListItem (Plugin_bytes e)) (aa_results a)
    ++ map (fun s => wfield 5 WireEnumU16 (to_be_bytes 2 (AttestationStatus_code s))) (option_list (aa_status a))
    ++ map (fun z => wfield 6 WireU64 (to_be_bytes 8 z)) (option_list (aa_created a))
    ++ map (fun b : bool => wfield 7 WireBool (if b then [x01] else [x00])) (option_list (aa_offline a)).

Lemma AttestationField_read_bool_inv f b :
  AttestationField_read_bool f = Ok b -> f = wfield (tag f) WireBool (if b then [x01] else [x00]).
Proof.
  unfold AttestationField_read_bool. intros H.
  destruct (require_wire MalformedData f WireBool) as [[]|] eqn:Hw; [|done].
  apply require_wire_inv in Hw. destruct (value f) as [|c [|? ?]] eqn:Hv; try done. rewrite Hw.
  by destruct c; cbn in H; try discriminate H; apply Ok_inj in H as <-.
Qed.

Lemma AttestationField_read_record_inv f v :
  AttestationField_read_record f = Ok v -> f = wfield (tag f) WireRecordListItem v.
Proof.
  unfold AttestationField_read_record. intros H.
  destruct (require_wire MalformedData f WireRecordListItem) as [[]|] eqn:Hw; [|done].
  apply require_wire_inv in Hw. by apply Ok_inj in H as <-.
Qed.

Lemma AttestationAcc_collects : collects AttestationPayload_decode_step AttestationAcc_fields.
Proof.
  intros [o1 o2 o3 o4 o5 o6 o7] f a' Hs Hle.
  unfold AttestationPayload_decode_step, AttestationField_read_string, AttestationField_read_bytes,
    AttestationField_read_u64, AttestationField_read_enum_u16, AttestationField_read_object_id,
    AttestationAcc_fields in *.
  cbn [aa_target aa_policy aa_hash aa_results aa_status aa_created aa_offline] in *.
  split_tag Hs; inv_ok; none_of_is_some; later_empty;
    cbn [aa_target aa_policy aa_hash aa_results aa_status aa_created aa_offline] in *; inv_readers;
    collect_finish.
  - match goal with H : AttestationField_read_record _ = Ok _ |- _ => apply AttestationField_read_record_inv in H end.
    match goal with H : PluginResultEntry_decode _ = Ok _ |- _ => apply Plugin_canonical in H as [-> _] end.
    congruence.
  - match goal with H : AttestationStatus_from_code _ = Ok _ |- _ =>
      apply AttestationStatus_from_code_inv in H; rewrite <- H end.
    congruence.
  - match goal with H : AttestationField_read_bool _ = Ok _ |- _ => apply AttestationField_read_bool_inv in H end.
    congruence.
Qed.

Lemma Attestation_decode_wf bytes p : AttestationPayload_decode bytes = Ok p -> Attestation_wf p.
Proof.
  unfold AttestationPayload_decode. intros H.
  destruct (decode_fields _ _ _ bytes) as [a|] eqn:Hd; [|discriminate].
  eapply (decode_fields_preserves _ _ (fun a => opt_all wf_id (aa_target a) /\
    opt_all rust_string (aa_policy a) /\ Forall Plugin_wf (aa_results a) /\
    opt_all u64 (aa_created a))) in Hd; [| |done].
  - destruct a as [o1 o2 o3 o4 o5 o6 o7].
    cbn [aa_target aa_policy aa_hash aa_results aa_status aa_created aa_offline] in *.
    inv_ok. unfold Attestation_wf. cbn in *. naive_solver.
  - clear. intros [o1 o2 o3 o4 o5 o6 o7] f a' HP Hs.
    unfold AttestationPayload_decode_step, AttestationField_read_string, AttestationField_read_bytes,
      AttestationField_read_u64, AttestationField_read_enum_u16, AttestationField_read_object_id in *.
    split_tag Hs; inv_ok; inv_readers;
      repeat match goal with H : PluginResultEntry_decode _ = Ok _ |- _ => apply Plugin_canonical in H as [_ ?] end;
      cbn in *; rewrite ?Forall_app, ?Forall_singleton; naive_solver.
Qed.

Lemma Attestation_canonical bytes p :
  AttestationPayload_decode bytes = Ok p -> to_canonical_bytes p = Ok bytes.
Proof.
  unfold AttestationPayload_decode. intros H.
  destruct (decode_fields _ _ _ bytes) as [[o1 o2 o3 o4 o5 o6 o7]|] eqn:Hd; [|discriminate].
  eapply decode_fields_collects in Hd as ->; [|apply AttestationAcc_collects|done].
  cbn [aa_target aa_policy aa_hash aa_results aa_status aa_created aa_offline] in H. inv_ok.
  match goal with H : negb _ = false |- _ => apply negb_false_iff in H end.
  unfold to_canonical_bytes. rewrite Attestation_encode_fields by done.
  rewrite write_fields_new by apply Attestation_tags. f_equal. f_equal.
  unfold Attestation_fields, AttestationAcc_fields. by rewrite !map_app, !map_map.
Qed.

#[global] Instance AttestationPayload_codec : PayloadCodec AttestationPayload := {|
  pc_decode := AttestationPayload_decode;
  pc_wf := Attestation_wf;
  pc_roundtrip := Attestation_roundtrip;
|}.
#[global] Instance AttestationPayload_canonical_codec : CanonicalCodec AttestationPayload := {|
  cc_canonical := fun p bytes _ Hd =>
    conj (Attestation_decode_wf bytes p Hd) (Attestation_canonical bytes p Hd);
|}.

(** ** Properties *)

(** Attestations: decoding is exactly the inverse of canonical encoding, nested plugin results
    included, with the results strictly ordered by plugin id. *)
Theorem attestation_codec_exact p bytes :
  zlen bytes < 2 ^ 64 ->
  AttestationPayload_decode bytes = Ok p <-> Attestation_wf p /\ to_canonical_bytes p = Ok bytes.
Proof. apply (@pc_decode_iff _ AttestationPayload_canonical_codec). Qed.

Definition witness_attestation : AttestationPayload :=
  mkAttestation (replicate 32 x03) (bytes_of_string "v1") [x01; x02]
    [mkPlugin [x61] [x31] Pass [x09] 0; mkPlugin [x62] [x32] Warn [x08] 2] Warn 0 true.

Lemma attestation_codec_exact_witness :
  exists bytes, to_canonical_bytes witness_attestation = Ok bytes /\
    AttestationPayload_decode bytes = Ok witness_attestation.
Proof.
  eexists. split; [vm_compute; reflexivity|].
  apply attestation_codec_exact; [vm_compute; reflexivity|]. split; [|vm_compute; reflexivity].
  unfold Attestation_wf, Plugin_wf, wf_id, rust_string, u64, u32. cbn.
  repeat split; try lia. repeat constructor; cbn; lia.
Defined.
