(* ===== verification/Lifecycle.v ===== *)
(** * Node identity and kinds (crates/prikk-object/src/payload/node.rs) *)

From S2P Require Import Prelude PrikkError Blob RepoPath.


Definition NODE_ID_BYTES : nat := 32.

(** [NodeId([u8; 32])], by its bytes. *)
Abbreviation NodeId := (list byte) (only parsing).

Definition zero_node_id : NodeId := replicate NODE_ID_BYTES x00.

Definition NodeId_try_from_bytes (bytes : list byte) : PResult NodeId :=
  if bool_decide (bytes = zero_node_id) then Err (MalformedData "node_id must be nonzero")
  else Ok bytes.

Definition NodeId_is_zero (id : NodeId) : bool := bool_decide (id = zero_node_id).

Inductive NodeKind : Type := TextFile | BinaryFile | SymlinkKind.
#[global] Instance NodeKind_eq_dec : EqDecision NodeKind.
Proof. solve_decision. Defined.

Definition NodeKind_code (k : NodeKind) : Z :=
  match k with TextFile => 0x0001 | BinaryFile => 0x0002 | SymlinkKind => 0x0003 end.

Definition NodeKind_from_code (code : Z) : PResult NodeKind :=
  if code =? 0x0001 then Ok TextFile
  else if code =? 0x0002 then Ok BinaryFile
  else if code =? 0x0003 then Ok SymlinkKind
  else Err (MalformedData "unknown or reserved node_kind code: {other:#06x}").

Definition NodeKind_from_file_blob_kind (blob_kind : BlobKind) : PResult NodeKind :=
  match blob_kind with
  | BlobText => Ok TextFile
  | BlobBinary => Ok BinaryFile
  | BlobSnapshot => Err (MalformedData "file node must not reference a SNAPSHOT blob")
  end.

Lemma NodeKind_from_to_code k : NodeKind_from_code (NodeKind_code k) = Ok k.
Proof. by destruct k. Qed.
Lemma NodeKind_from_code_inv c k : NodeKind_from_code c = Ok k -> c = NodeKind_code k.
Proof. unfold NodeKind_from_code. intros H. inv_ok; cbn; lia. Qed.
Lemma NodeKind_code_range k : u16 (NodeKind_code k).
Proof. destruct k; split; cbn; lia. Qed.

(** * Node lifecycle state (crates/prikk-replay/src/node_lifecycle)

    The replay-derived index: live nodes by identity, the path index, the latest tombstone per
    identity and every identity ever seen.  A method on [&mut self] is a function from the state to
    its result and the new state, so that what a failing method leaves behind is explicit.

    [lifecycle_ok] is the invariant: the path index is exactly the inverse of the live nodes' paths,
    live and tombstoned identities are disjoint, and both were seen.  The source's validator
    [validate_internal_consistency] decides it. *)


Inductive NodeContent : Type :=
| FileContent (blob_id : list byte) (mode : Z)
| SymlinkContent (target : list byte).
#[global] Instance NodeContent_eq_dec : EqDecision NodeContent.
Proof. solve_decision. Defined.

Record LiveNode : Type := mkLive {
  ln_path : RepoPath;
  ln_kind : NodeKind;
  ln_content : NodeContent;
}.
#[global] Instance LiveNode_eq_dec : EqDecision LiveNode.
Proof. solve_decision. Defined.

Record Tombstone : Type := mkTombstone {
  tb_kind : NodeKind;
  tb_content : NodeContent;
  tb_path : RepoPath;
}.
#[global] Instance Tombstone_eq_dec : EqDecision Tombstone.
Proof. solve_decision. Defined.

Record NodeLifecycleState : Type := mkLifecycle {
  live_by_id : gmap NodeId LiveNode;
  path_to_id : gmap RepoPath NodeId;
  latest_tombstone_by_id : gmap NodeId Tombstone;
  seen_ids : gset NodeId;
}.

Definition NodeLifecycleState_new : NodeLifecycleState := mkLifecycle ∅ ∅ ∅ ∅.

(** ** Queries *)

Definition live_node (s : NodeLifecycleState) (id : NodeId) : option LiveNode := live_by_id s !! id.
Definition contains_seen_node_id (s : NodeLifecycleState) (id : NodeId) : bool :=
  bool_decide (id ∈ seen_ids s).
Definition live_nodes (s : NodeLifecycleState) : list (NodeId * LiveNode) := btree_iter (live_by_id s).
Definition node_id_at (s : NodeLifecycleState) (path : RepoPath) : option NodeId := path_to_id s !! path.
Definition latest_tombstone (s : NodeLifecycleState) (id : NodeId) : option Tombstone :=
  latest_tombstone_by_id s !! id.
Definition tombstones (s : NodeLifecycleState) : list (NodeId * Tombstone) :=
  btree_iter (latest_tombstone_by_id s).
Definition live_count (s : NodeLifecycleState) : nat := size (live_by_id s).

(** ** Validation *)

Definition validate_internal_consistency (s : NodeLifecycleState) : PResult unit :=
  if negb (Nat.eqb (size (live_by_id s)) (size (path_to_id s)))
  then Err (Integrity "node lifecycle index: live_by_id and path_to_id differ in size")
  else
    let? _ :=
      for_each (fun '(node_id, node) =>
        match path_to_id s !! ln_path node with
        | Some id =>
            if bool_decide (id = node_id) then
              if negb (bool_decide (node_id ∈ seen_ids s))
              then Err (Integrity "node lifecycle index: live node_id is not recorded as seen")
              else Ok tt
            else Err (Integrity "node lifecycle index: live node has no matching path-index entry")
        | None => Err (Integrity "node lifecycle index: live node has no matching path-index entry")
        end) (btree_iter (live_by_id s)) in
    for_each (fun '(node_id, _) =>
      if is_some (live_by_id s !! node_id)
      then Err (Integrity "node lifecycle index: node_id is both live and tombstoned")
      else if negb (bool_decide (node_id ∈ seen_ids s))
      then Err (Integrity "node lifecycle index: tombstoned node_id is not recorded as seen")
      else Ok tt) (btree_iter (latest_tombstone_by_id s)).

Definition validate_kind_content_shape (kind : NodeKind) (content : NodeContent) : PResult unit :=
  match kind, content with
  | TextFile, FileContent _ _ | BinaryFile, FileContent _ _ | SymlinkKind, SymlinkContent _ => Ok tt
  | _, _ => Err (Integrity "node kind/content discriminator mismatch (kind does not match payload)")
  end.

Definition ensure_node_id_nonzero (node_id : NodeId) : PResult unit :=
  if bool_decide (node_id = zero_node_id)
  then Err (Integrity "baseline seed carries the reserved all-zero node_id")
  else Ok tt.

Definition ensure_restoration_equivalent (tombstone : Tombstone) (node : LiveNode) : PResult unit :=
  if negb (bool_decide (tb_kind tombstone = ln_kind node))
     || negb (bool_decide (tb_content tombstone = ln_content node))
     || negb (bool_decide (tb_path tombstone = ln_path node))
  then Err (Integrity "reintroduced node_id is not restoration-equivalent to its latest tombstone")
  else Ok tt.

(** ** Mutation *)

(** The result of a method on [&mut self]: its return value and the state it leaves. *)
Definition Mut (A : Type) : Type := PResult A * NodeLifecycleState.

(** [e?] inside a method whose receiver is currently [s]. *)
Notation "'try?' x ':=' e 'at' s 'in' k" :=
  (match e with Ok x => k | Err err => (Err err, s) end)
  (at level 10, x name, e at level 200, s at level 9, k at level 200) : prikk_scope.

Definition create_node (s : NodeLifecycleState) (node_id : NodeId) (node : LiveNode) : Mut unit :=
  try? _ := ensure_node_id_nonzero node_id at s in
  try? _ := validate_kind_content_shape (ln_kind node) (ln_content node) at s in
  if is_some (live_by_id s !! node_id)
  then (Err (Integrity "cannot create a node whose node_id is already live (per-CleanTree uniqueness)"), s)
  else if is_some (path_to_id s !! ln_path node)
  then (Err (Integrity "cannot create node at already-occupied path {}"), s)
  else
    try? _ :=
      (if bool_decide (node_id ∈ seen_ids s) then
         let? tombstone := ok_or (latest_tombstone_by_id s !! node_id)
           (Integrity "seen node_id has no recorded tombstone for restoration-equivalence") in
         ensure_restoration_equivalent tombstone node
       else Ok tt) at s in
    (Ok tt,
     mkLifecycle (<[node_id := node]> (live_by_id s)) (<[ln_path node := node_id]> (path_to_id s))
       (delete node_id (latest_tombstone_by_id s)) ({[node_id]} ∪ seen_ids s)).

Definition delete_node (s : NodeLifecycleState) (node_id : NodeId) : Mut LiveNode :=
  match live_by_id s !! node_id with
  | None => (Err (Integrity "DeleteNode target node_id is not live"), s)
  | Some node =>
      (* the node has already been removed when the path index is checked *)
      let s1 := mkLifecycle (delete node_id (live_by_id s)) (path_to_id s)
                  (latest_tombstone_by_id s) (seen_ids s) in
      match path_to_id s !! ln_path node with
      | Some id =>
          if bool_decide (id = node_id) then
            (Ok node,
             mkLifecycle (delete node_id (live_by_id s)) (delete (ln_path node) (path_to_id s))
               (<[node_id := mkTombstone (ln_kind node) (ln_content node) (ln_path node)]>
                  (latest_tombstone_by_id s))
               (seen_ids s))
          else (Err (Integrity "path index points at a different node than the live node being deleted"), s1)
      | None => (Err (Integrity "live node has no path-index entry (internal inconsistency)"), s1)
      end
  end.

Definition rename_node (s : NodeLifecycleState) (node_id : NodeId) (new_path : RepoPath) : Mut unit :=
  try? _ :=
    (match path_to_id s !! new_path with
     | Some existing =>
         if negb (bool_decide (existing = node_id))
         then Err (Integrity "rename target path {} is occupied by another live node")
         else Ok tt
     | None => Ok tt
     end) at s in
  match live_by_id s !! node_id with
  | None => (Err (Integrity "RenamePath target node_id is not live"), s)
  | Some node =>
      let old_path := ln_path node in
      if bool_decide (path_to_id s !! old_path = Some node_id) then
        (Ok tt,
         mkLifecycle (<[node_id := mkLive new_path (ln_kind node) (ln_content node)]> (live_by_id s))
           (<[new_path := node_id]> (delete old_path (path_to_id s)))
           (latest_tombstone_by_id s) (seen_ids s))
      else (Err (Integrity "path index does not point at the live node being renamed"), s)
  end.

Definition delete_node_checked (s : NodeLifecycleState) (node_id : NodeId) (expected : LiveNode)
  : Mut LiveNode :=
  match live_by_id s !! node_id with
  | None => (Err (Integrity "DeleteNode target node_id is not live"), s)
  | Some live =>
      if negb (bool_decide (live = expected))
      then (Err (Integrity "DeleteNode preimage (path/kind/content) does not match the replayed live node"), s)
      else delete_node s node_id
  end.

Definition rename_node_checked (s : NodeLifecycleState) (node_id : NodeId)
    (expected_old_path new_path : RepoPath) : Mut unit :=
  match live_by_id s !! node_id with
  | None => (Err (Integrity "RenamePath target node_id is not live"), s)
  | Some live =>
      if negb (bool_decide (ln_path live = expected_old_path))
      then (Err (Integrity "RenamePath old_path {} does not match the live path {}"), s)
      else rename_node s node_id new_path
  end.

(** One entry of a rename batch: node, old path, new path. *)
Definition Rename : Type := (NodeId * RepoPath * RepoPath)%type.

(** Phase 0: one pair's assertion against the pre-batch state, with the sources and destinations
    seen so far. *)
Definition batch_check_pair (s : NodeLifecycleState) (seen : gset NodeId * gset RepoPath)
    (r : Rename) : PResult (gset NodeId * gset RepoPath) :=
  let '(sources, destinations) := seen in
  let '(node_id, old_path, new_path) := r in
  let? live := ok_or (live_by_id s !! node_id) (Integrity "RenamePath target node_id is not live") in
  if negb (bool_decide (ln_path live = old_path))
  then Err (Integrity "RenamePath old_path {} does not match the live path {}")
  else if bool_decide (node_id ∈ sources)
  then Err (Integrity "RenamePath renames the same node more than once in the same batch")
  else if bool_decide (new_path ∈ destinations)
  then Err (Integrity "RenamePath names the same destination path more than once in the same batch")
  else Ok ({[node_id]} ∪ sources, {[new_path]} ∪ destinations).

(** Phase 1: a destination occupied by a node outside the batch. *)
Definition batch_check_destination (s : NodeLifecycleState) (sources : gset NodeId) (r : Rename)
  : PResult unit :=
  match path_to_id s !! r.2 with
  | Some occupant =>
      if negb (bool_decide (occupant ∈ sources))
      then Err (Integrity "rename target path {} is occupied by another live node")
      else Ok tt
  | None => Ok tt
  end.

(** Phase 2: the path index points back at each source. *)
Definition batch_check_index (s : NodeLifecycleState) (r : Rename) : PResult unit :=
  if bool_decide (path_to_id s !! r.1.2 = Some r.1.1) then Ok tt
  else Err (Integrity "path index does not point at the live node being renamed").

(** Phase 3: clear every source, then claim every destination. *)
Definition batch_clear (s : NodeLifecycleState) (r : Rename) : NodeLifecycleState :=
  mkLifecycle (live_by_id s) (delete r.1.2 (path_to_id s)) (latest_tombstone_by_id s) (seen_ids s).

Definition batch_claim (s : NodeLifecycleState) (r : Rename) : NodeLifecycleState :=
  mkLifecycle
    (match live_by_id s !! r.1.1 with
     | Some node => <[r.1.1 := mkLive r.2 (ln_kind node) (ln_content node)]> (live_by_id s)
     | None => live_by_id s
     end)
    (<[r.2 := r.1.1]> (path_to_id s)) (latest_tombstone_by_id s) (seen_ids s).

Definition rename_nodes_checked_batch (s : NodeLifecycleState) (renames : list Rename) : Mut unit :=
  match renames with
  | [] => (Ok tt, s)
  | _ =>
      try? seen := foldM (batch_check_pair s) (∅, ∅) renames at s in
      try? _ := for_each (batch_check_destination s seen.1) renames at s in
      try? _ := for_each (batch_check_index s) renames at s in
      (Ok tt, fold_left batch_claim renames (fold_left batch_clear renames s))
  end.

Definition change_file_mode (s : NodeLifecycleState) (node_id : NodeId) (old_mode new_mode : Z)
  : Mut unit :=
  match live_by_id s !! node_id with
  | None => (Err (Integrity "ChangePerm target node_id is not live"), s)
  | Some node =>
      match ln_content node with
      | FileContent blob_id mode =>
          if negb (mode =? old_mode)
          then (Err (Integrity "ChangePerm old_mode {old_mode:#o} does not match the live mode {:#o}"), s)
          else (Ok tt,
                mkLifecycle (<[node_id := mkLive (ln_path node) (ln_kind node) (FileContent blob_id new_mode)]> (live_by_id s))
                  (path_to_id s) (latest_tombstone_by_id s) (seen_ids s))
      | SymlinkContent _ =>
          (Err (Integrity "ChangePerm cannot apply to a symlink node (mode is normatively zero)"), s)
      end
  end.

Definition replace_file_blob (s : NodeLifecycleState) (node_id : NodeId)
    (old_blob_id new_blob_id : list byte) : Mut unit :=
  match live_by_id s !! node_id with
  | None => (Err (Integrity "ReplaceBinary target node_id is not live"), s)
  | Some node =>
      if negb (bool_decide (ln_kind node = BinaryFile))
      then (Err (Integrity "ReplaceBinary target is not a binary-file node"), s)
      else
        match ln_content node with
        | FileContent blob_id mode =>
            if negb (bool_decide (blob_id = old_blob_id))
            then (Err (Integrity "ReplaceBinary old_blob_id does not match the live blob"), s)
            else (Ok tt,
                  mkLifecycle (<[node_id := mkLive (ln_path node) (ln_kind node) (FileContent new_blob_id mode)]> (live_by_id s))
                    (path_to_id s) (latest_tombstone_by_id s) (seen_ids s))
        | SymlinkContent _ => (Err (Integrity "ReplaceBinary cannot apply to a symlink node"), s)
        end
  end.

Definition set_text_blob (s : NodeLifecycleState) (node_id : NodeId) (new_blob_id : list byte)
  : Mut unit :=
  match live_by_id s !! node_id with
  | None => (Err (Integrity "EditText target node_id is not live"), s)
  | Some node =>
      if negb (bool_decide (ln_kind node = TextFile))
      then (Err (Integrity "EditText target is not a text-file node"), s)
      else
        match ln_content node with
        | FileContent _ mode =>
            (Ok tt,
             mkLifecycle (<[node_id := mkLive (ln_path node) (ln_kind node) (FileContent new_blob_id mode)]> (live_by_id s))
               (path_to_id s) (latest_tombstone_by_id s) (seen_ids s))
        | SymlinkContent _ => (Err (Integrity "EditText cannot apply to a symlink node"), s)
        end
  end.

Definition seed_live_node (s : NodeLifecycleState) (node_id : NodeId) (node : LiveNode) : Mut unit :=
  try? _ := ensure_node_id_nonzero node_id at s in
  try? _ := validate_kind_content_shape (ln_kind node) (ln_content node) at s in
  if is_some (live_by_id s !! node_id)
  then (Err (Integrity "baseline seeds a duplicate live node_id"), s)
  else if is_some (path_to_id s !! ln_path node)
  then (Err (Integrity "baseline seeds a duplicate live path {}"), s)
  else
    (Ok tt,
     mkLifecycle (<[node_id := node]> (live_by_id s)) (<[ln_path node := node_id]> (path_to_id s))
       (latest_tombstone_by_id s) ({[node_id]} ∪ seen_ids s)).

Definition seed_tombstone (s : NodeLifecycleState) (node_id : NodeId) (tombstone : Tombstone)
  : Mut unit :=
  try? _ := ensure_node_id_nonzero node_id at s in
  try? _ := validate_kind_content_shape (tb_kind tombstone) (tb_content tombstone) at s in
  if is_some (live_by_id s !! node_id)
  then (Err (Integrity "baseline seeds a tombstone for a currently-live node_id"), s)
  else
    (Ok tt,
     mkLifecycle (live_by_id s) (path_to_id s) (<[node_id := tombstone]> (latest_tombstone_by_id s))
       ({[node_id]} ∪ seen_ids s)).
