(* ===== verification/LifecycleInv.v ===== *)
(** * The lifecycle invariant

    [lifecycle_ok] holds initially, is decided by [validate_internal_consistency], and is kept by
    every operation, successful or not; operations on a consistent state are fail-atomic; a rename
    batch acts on all its nodes at once. *)

From S2P Require Import Prelude PrikkError Blob RepoPath Lifecycle.

(** The path index is the inverse of the live nodes' paths; live and tombstoned identities are
    disjoint; both were seen. *)
Record lifecycle_ok (s : NodeLifecycleState) : Prop := {
  ok_index : forall p id,
    path_to_id s !! p = Some id <-> exists n, live_by_id s !! id = Some n /\ ln_path n = p;
  ok_live_seen : forall id, is_Some (live_by_id s !! id) -> id ∈ seen_ids s;
  ok_tomb_seen : forall id, is_Some (latest_tombstone_by_id s !! id) -> id ∈ seen_ids s;
  ok_disjoint : forall id,
    is_Some (latest_tombstone_by_id s !! id) -> live_by_id s !! id = None;
}.

(** Every node and tombstone has a nonzero identity and a payload of its kind's shape. *)
Definition lifecycle_typed (s : NodeLifecycleState) : Prop :=
  (forall id n, live_by_id s !! id = Some n ->
     id <> zero_node_id /\ validate_kind_content_shape (ln_kind n) (ln_content n) = Ok tt) /\
  (forall id t, latest_tombstone_by_id s !! id = Some t ->
     id <> zero_node_id /\ validate_kind_content_shape (tb_kind t) (tb_content t) = Ok tt).

(** ** The validator decides the invariant *)

(** Live entries that the path index mirrors, counted: an index of the same size is the inverse. *)
Lemma index_of_size (live : gmap NodeId LiveNode) (index : gmap RepoPath NodeId) :
  size live = size index ->
  (forall id n, live !! id = Some n -> index !! ln_path n = Some id) ->
  forall p id, index !! p = Some id -> exists n, live !! id = Some n /\ ln_path n = p.
Proof.
  intros Hsize Hmirror.
  set (l := (fun '(id, n) => (ln_path n, id)) <$> map_to_list live : list (RepoPath * NodeId)).
  assert (Hl : forall p id, (p, id) ∈ l <-> exists n, live !! id = Some n /\ ln_path n = p).
  { intros p id. unfold l. rewrite list_elem_of_fmap. split.
    - intros ([id' n] & [= -> ->] & Hin%elem_of_map_to_list). eauto.
    - intros (n & Hn & <-). exists (id, n). split; [done|]. by apply elem_of_map_to_list. }
  assert (Hnd : NoDup l.*1).
  { apply NoDup_fmap_fst.
    - intros p id1 id2 (n1 & Hn1 & E1)%Hl (n2 & Hn2 & E2)%Hl.
      apply Hmirror in Hn1, Hn2. congruence.
    - unfold l. apply NoDup_fmap_2_strong; [|apply NoDup_map_to_list].
      intros [i1 n1] [i2 n2] H1%elem_of_map_to_list H2%elem_of_map_to_list [= _ ->]. congruence. }
  assert (Heq : list_to_map l = index).
  { apply map_subseteq_size_eq.
    - apply map_subseteq_spec. intros p id Hp.
      apply elem_of_list_to_map_2, Hl in Hp as (n & Hn & <-). by apply Hmirror.
    - rewrite map_size_list_to_map by done. unfold l. rewrite length_fmap, length_map_to_list. lia. }
  intros p id Hp. rewrite <- Heq in Hp. by apply elem_of_list_to_map_2, Hl in Hp.
Qed.

(** The inverse index has the live map's size. *)
Lemma size_of_index (s : NodeLifecycleState) :
  lifecycle_ok s -> size (live_by_id s) = size (path_to_id s).
Proof.
  intros Hok.
  set (l := (fun '(id, n) => (ln_path n, id)) <$> map_to_list (live_by_id s) : list (RepoPath * NodeId)).
  assert (Hl : forall p id, (p, id) ∈ l <-> path_to_id s !! p = Some id).
  { intros p id. rewrite (ok_index s Hok). unfold l. rewrite list_elem_of_fmap. split.
    - intros ([id' n] & [= -> ->] & Hin%elem_of_map_to_list). eauto.
    - intros (n & Hn & <-). exists (id, n). split; [done|]. by apply elem_of_map_to_list. }
  assert (Hnd : NoDup l.*1).
  { apply NoDup_fmap_fst.
    - intros p id1 id2 H1%Hl H2%Hl. congruence.
    - unfold l. apply NoDup_fmap_2_strong; [|apply NoDup_map_to_list].
      intros [i1 n1] [i2 n2] H1%elem_of_map_to_list H2%elem_of_map_to_list [= _ ->]. congruence. }
  assert (Heq : list_to_map l = path_to_id s).
  { apply map_eq. intros p. apply option_eq. intros id. rewrite <- Hl. split.
    - apply elem_of_list_to_map_2.
    - by apply elem_of_list_to_map_1. }
  rewrite <- Heq, map_size_list_to_map by done. unfold l. by rewrite length_fmap, length_map_to_list.
Qed.

Lemma validate_internal_consistency_iff s :
  validate_internal_consistency s = Ok tt <-> lifecycle_ok s.
Proof.
  unfold validate_internal_consistency.
  destruct (Nat.eqb_spec (size (live_by_id s)) (size (path_to_id s))) as [Hsize|Hsize]; cbn [negb].
  2: { split; [done|]. intros Hok%size_of_index. done. }
  match goal with |- context [for_each ?f (btree_iter (live_by_id s))] => set (chk1 := f) end.
  match goal with |- context [for_each ?f (btree_iter (latest_tombstone_by_id s))] => set (chk2 := f) end.
  assert (H1 : for_each chk1 (btree_iter (live_by_id s)) = Ok tt <->
    forall id n, live_by_id s !! id = Some n -> path_to_id s !! ln_path n = Some id /\ id ∈ seen_ids s).
  { rewrite for_each_ok, Forall_forall. split.
    - intros H id n Hn. specialize (H (id, n) (proj2 (elem_of_btree_iter _ _ _) Hn)). unfold chk1 in H.
      destruct (path_to_id s !! ln_path n) as [id'|]; [|done]. case_bool_decide; [|done].
      case_bool_decide; [by subst|done].
    - intros H [id n] Hn%elem_of_btree_iter. destruct (H id n Hn) as [Hp Hs]. unfold chk1.
      rewrite Hp, !bool_decide_eq_true_2 by done. done. }
  assert (H2 : for_each chk2 (btree_iter (latest_tombstone_by_id s)) = Ok tt <->
    forall id, is_Some (latest_tombstone_by_id s !! id) -> live_by_id s !! id = None /\ id ∈ seen_ids s).
  { rewrite for_each_ok, Forall_forall. split.
    - intros H id [t Ht]. specialize (H (id, t) (proj2 (elem_of_btree_iter _ _ _) Ht)). unfold chk2 in H.
      destruct (live_by_id s !! id); [done|]. by case_bool_decide.
    - intros H [id t] Ht%elem_of_btree_iter. destruct (H id ltac:(by exists t)) as [Hn Hs]. unfold chk2.
      rewrite Hn, bool_decide_eq_true_2 by done. done. }
  split.
  - intros H. destruct (for_each chk1 _) as [[]|]; [|done].
    pose proof (proj1 H1 eq_refl) as L1. pose proof (proj1 H2 H) as L2. constructor.
    + intros p id. split; [|intros (n & Hn & <-); by apply L1].
      apply index_of_size; [done|]. intros i n Hn. by apply L1.
    + intros id [n Hn]. by apply (L1 id n).
    + intros id Ht. by apply L2.
    + intros id Ht. by apply L2.
  - intros Hok. rewrite (proj2 H1), (proj2 H2); [done| |].
    + intros id Ht. split; [by apply (ok_disjoint s Hok)|by apply (ok_tomb_seen s Hok)].
    + intros id n Hn. split; [apply (ok_index s Hok); eauto|apply (ok_live_seen s Hok); eauto].
Qed.

(** ** Renaming batches *)

(** Where a batch moves a node, and which node a batch moves to a path. *)
Fixpoint renamed_to (renames : list Rename) (id : NodeId) : option RepoPath :=
  match renames with
  | [] => None
  | (i, _, new) :: rest => if decide (i = id) then Some new else renamed_to rest id
  end.

Fixpoint claimed_by (renames : list Rename) (p : RepoPath) : option NodeId :=
  match renames with
  | [] => None
  | (i, _, new) :: rest => if decide (new = p) then Some i else claimed_by rest p
  end.

Definition sources (renames : list Rename) : list NodeId := map (fun r => r.1.1) renames.
Definition old_paths (renames : list Rename) : list RepoPath := map (fun r => r.1.2) renames.
Definition destinations (renames : list Rename) : list RepoPath := map (fun r => r.2) renames.

(** The node with its path replaced. *)
Definition set_path (p : RepoPath) (n : LiveNode) : LiveNode := mkLive p (ln_kind n) (ln_content n).

Lemma renamed_to_some renames id new :
  NoDup (sources renames) ->
  renamed_to renames id = Some new <-> exists old, (id, old, new) ∈ renames.
Proof.
  induction renames as [|[[i o] n] rest IH]; cbn.
  - intros _. split; [done|]. by intros (? & ?%elem_of_nil).
  - intros [Hni Hnd]%NoDup_cons. case_decide as Hi.
    + subst i. split; [intros [= ->]; exists o; by left|].
      intros (old & [[= -> ->]|Hin]%elem_of_cons); [done|]. destruct Hni.
      apply list_elem_of_fmap. by exists (id, old, new).
    + rewrite (IH Hnd). split; intros (old & Hin); exists old; [by right|].
      apply elem_of_cons in Hin as [[= -> -> ->]|?]; done.
Qed.

Lemma claimed_by_some renames p id :
  NoDup (destinations renames) ->
  claimed_by renames p = Some id <-> exists old, (id, old, p) ∈ renames.
Proof.
  induction renames as [|[[i o] n] rest IH]; cbn.
  - intros _. split; [done|]. by intros (? & ?%elem_of_nil).
  - intros [Hni Hnd]%NoDup_cons. case_decide as Hp.
    + subst n. split; [intros [= ->]; exists o; by left|].
      intros (old & [[= -> ->]|Hin]%elem_of_cons); [done|]. destruct Hni.
      apply list_elem_of_fmap. by exists (id, old, p).
    + rewrite (IH Hnd). split; intros (old & Hin); exists old; [by right|].
      apply elem_of_cons in Hin as [[= -> -> ->]|?]; done.
Qed.

Lemma renamed_to_none renames id : renamed_to renames id = None <-> id ∉ sources renames.
Proof.
  induction renames as [|[[i o] n] rest IH]; cbn; [split; [by intros _ ?%elem_of_nil|done]|].
  rewrite not_elem_of_cons, <- IH. case_decide; naive_solver.
Qed.

(** Phase 3, first loop. *)
Lemma batch_clear_spec renames : forall s,
  let s' := fold_left batch_clear renames s in
  live_by_id s' = live_by_id s /\ latest_tombstone_by_id s' = latest_tombstone_by_id s /\
  seen_ids s' = seen_ids s /\
  forall p, path_to_id s' !! p = if decide (p ∈ old_paths renames) then None else path_to_id s !! p.
Proof.
  induction renames as [|[[i o] n] rest IH]; intros s; cbn [fold_left].
  - by repeat split.
  - destruct (IH (batch_clear s (i, o, n))) as (H1 & H2 & H3 & H4). repeat split; [done..|].
    intros p. rewrite H4. unfold batch_clear. cbn [path_to_id fst snd old_paths map].
    destruct (decide (p ∈ old_paths rest)) as [Hin|Hin].
    + rewrite decide_True by (by right). done.
    + destruct (decide (p = o)) as [->|Hne].
      * rewrite lookup_delete_eq, decide_True by (by left). done.
      * rewrite lookup_delete_ne, decide_False by (done || by apply not_elem_of_cons). done.
Qed.

(** Phase 3, second loop. *)
Lemma batch_claim_spec renames : forall s,
  NoDup (sources renames) -> NoDup (destinations renames) ->
  let s' := fold_left batch_claim renames s in
  latest_tombstone_by_id s' = latest_tombstone_by_id s /\ seen_ids s' = seen_ids s /\
  (forall id, live_by_id s' !! id =
     match renamed_to renames id with
     | Some new => set_path new <$> live_by_id s !! id
     | None => live_by_id s !! id
     end) /\
  (forall p, path_to_id s' !! p =
     match claimed_by renames p with Some id => Some id | None => path_to_id s !! p end).
Proof.
  induction renames as [|[[i o] n] rest IH]; intros s; [done|].
  intros [Hni Hnd]%NoDup_cons [Hnd1 Hnd2]%NoDup_cons. cbn [fold_left].
  destruct (IH (batch_claim s (i, o, n)) Hnd Hnd2) as (H1 & H2 & H3 & H4).
  repeat split; [done..| |].
  - intros id. rewrite H3. cbn. case_decide as Hi.
    + subst id. rewrite (proj2 (renamed_to_none rest i)) by done.
      destruct (live_by_id s !! i) eqn:Hl; cbn; [by rewrite lookup_insert_eq|done].
    + destruct (live_by_id s !! i); [|done]. by rewrite lookup_insert_ne by done.
  - intros p. rewrite H4. cbn. destruct (claimed_by rest p) as [id|] eqn:Hc.
    + case_decide as Hp; [|done]. subst p. apply claimed_by_some in Hc as [old Hin]; [|done].
      destruct Hnd1. apply list_elem_of_fmap. by exists (id, old, n).
    + case_decide as Hp; [subst; by rewrite lookup_insert_eq|by rewrite lookup_insert_ne].
Qed.

(** What phase 0 establishes. *)
Lemma batch_check_pairs_ok s renames seen :
  foldM (batch_check_pair s) (∅, ∅) renames = Ok seen ->
  NoDup (sources renames) /\ NoDup (destinations renames) /\
  (forall id, id ∈ seen.1 <-> id ∈ sources renames) /\
  (forall id old new, (id, old, new) ∈ renames ->
     exists n, live_by_id s !! id = Some n /\ ln_path n = old).
Proof.
  intros H. enough (HP : NoDup (sources renames) /\ NoDup (destinations renames) /\
    (forall id, id ∈ seen.1 <-> id ∈ sources renames) /\
    (forall p, p ∈ seen.2 <-> p ∈ destinations renames) /\
    (forall id old new, (id, old, new) ∈ renames ->
       exists n, live_by_id s !! id = Some n /\ ln_path n = old)) by naive_solver.
  revert H. apply (foldM_inv (batch_check_pair s) (fun pre seen =>
    NoDup (sources pre) /\ NoDup (destinations pre) /\
    (forall id, id ∈ seen.1 <-> id ∈ sources pre) /\
    (forall p, p ∈ seen.2 <-> p ∈ destinations pre) /\
    (forall id old new, (id, old, new) ∈ pre ->
       exists n, live_by_id s !! id = Some n /\ ln_path n = old))).
  - cbn. split; [constructor|]. split; [constructor|]. split; [set_solver|]. split; [set_solver|].
    by intros ? ? ? ?%elem_of_nil.
  - clear. intros pre [[id old] new] [S D] seen' (N1 & N2 & HS & HD & HL) H. cbn in H.
    destruct (live_by_id s !! id) as [n|] eqn:Hn; cbn in H; [|done].
    case_bool_decide as Hp; [|done]. case_bool_decide as Hs; [done|]. case_bool_decide as Hd; [done|].
    apply Ok_inj in H as <-. cbn in *.
    assert (Hmap : forall {B} (f : Rename -> B), map f (pre ++ [(id, old, new)]) = map f pre ++ [f (id, old, new)])
      by (intros; by rewrite map_app).
    unfold sources, destinations in *. rewrite !Hmap. cbn [fst snd].
    repeat split.
    + apply NoDup_app. repeat split; [done| |apply NoDup_singleton].
      intros x Hx ->%list_elem_of_singleton. by apply Hs, HS.
    + apply NoDup_app. repeat split; [done| |apply NoDup_singleton].
      intros x Hx ->%list_elem_of_singleton. by apply Hd, HD.
    + intros Hx. apply elem_of_app. rewrite list_elem_of_singleton, <- HS. set_solver.
    + intros Hx. apply elem_of_app in Hx. rewrite list_elem_of_singleton, <- HS in Hx. set_solver.
    + intros Hx. apply elem_of_app. rewrite list_elem_of_singleton, <- HD. set_solver.
    + intros Hx. apply elem_of_app in Hx. rewrite list_elem_of_singleton, <- HD in Hx. set_solver.
    + intros i o w [Hin|[= -> -> ->]%list_elem_of_singleton]%elem_of_app; [eauto|]. by exists n.
Qed.

Lemma batch_check_pairs_complete s renames :
  NoDup (sources renames) -> NoDup (destinations renames) ->
  (forall id old new, (id, old, new) ∈ renames ->
     exists n, live_by_id s !! id = Some n /\ ln_path n = old) ->
  exists seen, foldM (batch_check_pair s) (∅, ∅) renames = Ok seen.
Proof.
  intros Hns Hnd Hold.
  enough (Hgen : forall S D, (forall id, id ∈ sources renames -> id ∉ S) ->
    (forall p, p ∈ destinations renames -> p ∉ D) ->
    exists seen, foldM (batch_check_pair s) (S, D) renames = Ok seen)
    by (apply Hgen; intros; apply not_elem_of_empty).
  induction renames as [|[[i o] n] rest IH]; intros S D HS HD; cbn [foldM]; [eauto|].
  apply NoDup_cons in Hns as [Hni Hns]. apply NoDup_cons in Hnd as [Hnn Hnd].
  destruct (Hold i o n) as (m & Hm & Hp); [by left|]. unfold batch_check_pair at 1.
  rewrite Hm. cbn [ok_or]. rewrite bool_decide_eq_true_2 by done. cbn [negb].
  rewrite bool_decide_eq_false_2 by (apply HS; by left).
  rewrite bool_decide_eq_false_2 by (apply HD; by left).
  apply IH; [done|done|intros; apply (Hold id old new); by right| |].
  - intros id Hin [->%elem_of_singleton|Hs]%elem_of_union; [done|]. by apply (HS id); [right|].
  - intros p Hin [->%elem_of_singleton|Hs]%elem_of_union; [done|]. by apply (HD p); [right|].
Qed.

(** ** Every operation keeps the invariant *)

Lemma ok_new : lifecycle_ok NodeLifecycleState_new.
Proof.
  constructor; cbn.
  - intros p id. rewrite lookup_empty. split; [done|]. intros (n & Hn & _). by rewrite lookup_empty in Hn.
  - intros id [n Hn]. by rewrite lookup_empty in Hn.
  - intros id [n Hn]. by rewrite lookup_empty in Hn.
  - intros id [n Hn]. by rewrite lookup_empty in Hn.
Qed.

(** A live node keeps its path. *)
Lemma ok_update s id n n' :
  lifecycle_ok s -> live_by_id s !! id = Some n -> ln_path n' = ln_path n ->
  lifecycle_ok (mkLifecycle (<[id := n']> (live_by_id s)) (path_to_id s)
                  (latest_tombstone_by_id s) (seen_ids s)).
Proof.
  intros [Hi Hl Ht Hd] Hn Hp. constructor; cbn.
  - intros p i. rewrite Hi. destruct (decide (i = id)) as [->|Hne].
    + rewrite lookup_insert_eq, Hn. naive_solver congruence.
    + by rewrite lookup_insert_ne by done.
  - intros i Hs. apply Hl. destruct (decide (i = id)) as [->|Hne]; [by rewrite Hn|].
    by rewrite lookup_insert_ne in Hs by done.
  - exact Ht.
  - intros i Hs. specialize (Hd i Hs). rewrite lookup_insert_ne; [done|congruence].
Qed.

Lemma ok_create s id n tombs :
  lifecycle_ok s -> live_by_id s !! id = None -> path_to_id s !! ln_path n = None ->
  (forall i, tombs !! i = if decide (i = id) then None else latest_tombstone_by_id s !! i) ->
  lifecycle_ok (mkLifecycle (<[id := n]> (live_by_id s)) (<[ln_path n := id]> (path_to_id s))
                  tombs ({[id]} ∪ seen_ids s)).
Proof.
  intros [Hi Hl Ht Hd] Hn Hp Htombs. constructor; cbn.
  - intros p i. destruct (decide (p = ln_path n)) as [->|Hne].
    + rewrite lookup_insert_eq. split.
      * intros [= <-]. exists n. by rewrite lookup_insert_eq.
      * intros (m & Hm & Hmp). destruct (decide (i = id)) as [->|]; [done|].
        rewrite lookup_insert_ne in Hm by done.
        rewrite (proj2 (Hi (ln_path n) i)) in Hp by eauto. done.
    + rewrite lookup_insert_ne by done. rewrite Hi. destruct (decide (i = id)) as [->|].
      * rewrite lookup_insert_eq, Hn. naive_solver.
      * by rewrite lookup_insert_ne by done.
  - intros i Hs. destruct (decide (i = id)) as [->|]; [set_solver|].
    rewrite lookup_insert_ne in Hs by done. set_solver.
  - intros i Hs. rewrite Htombs in Hs. case_decide; [by destruct Hs|set_solver].
  - intros i Hs. rewrite Htombs in Hs. case_decide; [by destruct Hs|].
    rewrite lookup_insert_ne by done. by apply Hd.
Qed.

Lemma create_node_ok s id n r s' :
  lifecycle_ok s -> create_node s id n = (r, s') -> lifecycle_ok s'.
Proof.
  unfold create_node. intros Hok H. repeat case_match; simplify_eq; try done.
  all: apply (ok_create s id n);
    [done|by destruct (live_by_id s !! id)|by destruct (path_to_id s !! ln_path n)|].
  all: intros i; destruct (decide (i = id)) as [->|]; [by rewrite lookup_delete_eq|by rewrite lookup_delete_ne].
Qed.

Lemma delete_node_ok s id r s' :
  lifecycle_ok s -> delete_node s id = (r, s') -> lifecycle_ok s'.
Proof.
  unfold delete_node. intros Hok H. destruct (live_by_id s !! id) as [n|] eqn:Hn; [|by simplify_eq].
  destruct Hok as [Hi Hl Ht Hd].
  rewrite (proj2 (Hi (ln_path n) id)), bool_decide_eq_true_2 in H by eauto. simplify_eq.
  constructor; cbn.
  - intros p i. destruct (decide (p = ln_path n)) as [->|Hne].
    + rewrite lookup_delete_eq. split; [done|]. intros (m & Hm & Hmp).
      destruct (decide (i = id)) as [->|Hne]; [by rewrite lookup_delete_eq in Hm|].
      rewrite lookup_delete_ne in Hm by done.
      assert (H1 : path_to_id s !! ln_path n = Some i) by (apply Hi; eauto).
      assert (H2 : path_to_id s !! ln_path n = Some id) by (apply Hi; eauto). congruence.
    + rewrite lookup_delete_ne by done. rewrite Hi. destruct (decide (i = id)) as [->|].
      * rewrite lookup_delete_eq, Hn. naive_solver.
      * by rewrite lookup_delete_ne by done.
  - intros i Hs. apply Hl. destruct (decide (i = id)) as [->|]; [by rewrite Hn|].
    by rewrite lookup_delete_ne in Hs by done.
  - intros i Hs. destruct (decide (i = id)) as [->|]; [apply Hl; by rewrite Hn|].
    rewrite lookup_insert_ne in Hs by done. by apply Ht.
  - intros i Hs. destruct (decide (i = id)) as [->|]; [by rewrite lookup_delete_eq|].
    rewrite lookup_insert_ne in Hs by done. rewrite lookup_delete_ne by done. by apply Hd.
Qed.

(** A batch that passes its checks, as a simultaneous renaming. *)
Lemma rename_batch_ok s renames :
  lifecycle_ok s -> NoDup (sources renames) -> NoDup (destinations renames) ->
  (forall id old new, (id, old, new) ∈ renames ->
     exists n, live_by_id s !! id = Some n /\ ln_path n = old) ->
  (forall id old new, (id, old, new) ∈ renames ->
     forall occupant, path_to_id s !! new = Some occupant -> occupant ∈ sources renames) ->
  let s' := fold_left batch_claim renames (fold_left batch_clear renames s) in
  lifecycle_ok s' /\
  latest_tombstone_by_id s' = latest_tombstone_by_id s /\ seen_ids s' = seen_ids s /\
  forall id, live_by_id s' !! id =
    match renamed_to renames id with
    | Some new => set_path new <$> live_by_id s !! id
    | None => live_by_id s !! id
    end.
Proof.
  intros Hok Hns Hnd Hold Hfree. destruct (batch_clear_spec renames s) as (C1 & C2 & C3 & C4).
  destruct (batch_claim_spec renames (fold_left batch_clear renames s) Hns Hnd) as (B1 & B2 & B3 & B4).
  cbn zeta in *. set (s' := fold_left batch_claim _ _) in *.
  rewrite C2 in B1. rewrite C3 in B2.
  assert (Hlive : forall id, live_by_id s' !! id = match renamed_to renames id with
    | Some new => set_path new <$> live_by_id s !! id | None => live_by_id s !! id end).
  { intros id. rewrite B3, C1. done. }
  split; [|done]. destruct Hok as [Hi Hl Ht Hd].
  assert (Hlive_some : forall id, is_Some (live_by_id s' !! id) <-> is_Some (live_by_id s !! id)).
  { intros id. rewrite Hlive. destruct (renamed_to renames id); [apply fmap_is_Some|done]. }
  constructor.
  - intros p id. rewrite B4, Hlive, C4. split.
    + destruct (claimed_by renames p) as [i|] eqn:Hc.
      * intros [= ->]. apply claimed_by_some in Hc as [old Hin]; [|done].
        destruct (Hold _ _ _ Hin) as (n & Hn & _).
        rewrite (proj2 (renamed_to_some renames id p Hns)) by eauto. rewrite Hn. cbn. by eexists.
      * case_decide as Ho; [done|]. intros Hp. destruct (proj1 (Hi p id) Hp) as (n & Hn & Hnp).
        destruct (renamed_to renames id) as [new|] eqn:Hr; [|by exists n].
        apply renamed_to_some in Hr as [old Hin]; [|done].
        destruct (Hold _ _ _ Hin) as (n' & Hn' & Hn'p). destruct Ho.
        apply list_elem_of_fmap. exists (id, old, new). cbn. split; [congruence|done].
    + destruct (renamed_to renames id) as [new|] eqn:Hr.
      * intros (n' & Hn' & Hp). apply fmap_Some in Hn' as (n & Hn & ->). cbn in Hp. subst new.
        apply renamed_to_some in Hr as [old Hin]; [|done].
        by rewrite (proj2 (claimed_by_some renames p id Hnd)) by eauto.
      * intros (n & Hn & Hp). assert (Hpid : path_to_id s !! p = Some id) by (apply Hi; eauto).
        apply renamed_to_none in Hr.
        destruct (claimed_by renames p) as [j|] eqn:Hc.
        -- apply claimed_by_some in Hc as [old Hin]; [|done]. by destruct Hr; eapply Hfree.
        -- case_decide as Ho; [|done]. apply list_elem_of_fmap in Ho as ([[j o] w] & -> & Hin). cbn in *.
           destruct (Hold _ _ _ Hin) as (m & Hm & Hmp). destruct Hr.
           assert (path_to_id s !! o = Some j) by (apply Hi; eauto).
           assert (j = id) as -> by congruence. apply list_elem_of_fmap. by exists (id, o, w).
  - intros id Hs. rewrite B2. by apply Hl, Hlive_some.
  - intros id Hs. rewrite B1 in Hs. rewrite B2. by apply Ht.
  - intros id Hs. rewrite B1 in Hs. specialize (Hd id Hs).
    apply eq_None_not_Some. rewrite Hlive_some, Hd. by intros [? ?].
Qed.

(** What a successful batch checked. *)
Lemma rename_batch_checked s renames s' :
  lifecycle_ok s -> rename_nodes_checked_batch s renames = (Ok tt, s') ->
  lifecycle_ok s' /\
  latest_tombstone_by_id s' = latest_tombstone_by_id s /\ seen_ids s' = seen_ids s /\
  (forall id, live_by_id s' !! id =
    match renamed_to renames id with
    | Some new => set_path new <$> live_by_id s !! id
    | None => live_by_id s !! id
    end) /\
  (forall id old new, (id, old, new) ∈ renames ->
     exists n, live_by_id s !! id = Some n /\ ln_path n = old).
Proof.
  unfold rename_nodes_checked_batch. intros Hok H.
  destruct renames as [|r0 rest]; [simplify_eq; repeat split; try apply Hok; by intros ? ? ? ?%elem_of_nil|].
  set (renames := r0 :: rest) in *.
  destruct (foldM (batch_check_pair s) (∅, ∅) renames) as [seen|] eqn:H0; [|done].
  destruct (for_each (batch_check_destination s seen.1) renames) as [[]|] eqn:H1; [|done].
  destruct (for_each (batch_check_index s) renames) as [[]|] eqn:H2; [|done]. simplify_eq.
  apply batch_check_pairs_ok in H0 as (Hns & Hnd & Hseen & Hold).
  apply for_each_ok in H1. rewrite Forall_forall in H1.
  destruct (rename_batch_ok s renames Hok Hns Hnd Hold) as (B1 & B2 & B3 & B4); [|done].
  intros id old new Hin occ Hocc. specialize (H1 _ Hin). unfold batch_check_destination in H1.
  cbn in H1. rewrite Hocc in H1. case_bool_decide as Hs; [|done]. by apply Hseen.
Qed.

(** The two ways a single rename relates to a batch of one. *)
Lemma rename_node_ok s id new r s' :
  lifecycle_ok s -> rename_node s id new = (r, s') -> lifecycle_ok s'.
Proof.
  unfold rename_node. intros Hok H.
  destruct (match path_to_id s !! new with Some _ => _ | None => _ end) as [[]|] eqn:Hfree in H;
    [|by simplify_eq].
  destruct (live_by_id s !! id) as [n|] eqn:Hn; [|by simplify_eq].
  case_bool_decide as Hidx; [|by simplify_eq]. simplify_eq.
  destruct (rename_batch_ok s [(id, ln_path n, new)] Hok) as (B1 & _).
  - apply NoDup_singleton.
  - apply NoDup_singleton.
  - intros i o w [= -> -> ->]%list_elem_of_singleton. eauto.
  - intros i o w [= -> -> ->]%list_elem_of_singleton occ Hocc. cbn. rewrite Hocc in Hfree.
    case_bool_decide; [by apply list_elem_of_singleton|done].
  - unfold batch_claim, batch_clear in B1. cbn [fold_left live_by_id path_to_id latest_tombstone_by_id seen_ids fst snd] in B1.
    rewrite Hn in B1. exact B1.
Qed.

(** ** Operations as data *)

Inductive LifecycleOp : Type :=
| OpCreate (id : NodeId) (n : LiveNode)
| OpDelete (id : NodeId)
| OpRename (id : NodeId) (new : RepoPath)
| OpDeleteChecked (id : NodeId) (expected : LiveNode)
| OpRenameChecked (id : NodeId) (old new : RepoPath)
| OpRenameBatch (renames : list Rename)
| OpChangeMode (id : NodeId) (old_mode new_mode : Z)
| OpReplaceBlob (id : NodeId) (old_blob new_blob : list byte)
| OpSetText (id : NodeId) (new_blob : list byte)
| OpSeedTombstone (id : NodeId) (t : Tombstone).

(** The result of a method, its value dropped. *)
Definition run_op (s : NodeLifecycleState) (op : LifecycleOp) : PResult unit * NodeLifecycleState :=
  let drop {A} (m : Mut A) : PResult unit * NodeLifecycleState :=
    (match m.1 with Ok _ => Ok tt | Err e => Err e end, m.2) in
  match op with
  | OpCreate id n => create_node s id n
  | OpDelete id => drop (delete_node s id)
  | OpRename id new => rename_node s id new
  | OpDeleteChecked id expected => drop (delete_node_checked s id expected)
  | OpRenameChecked id old new => rename_node_checked s id old new
  | OpRenameBatch renames => rename_nodes_checked_batch s renames
  | OpChangeMode id old_mode new_mode => change_file_mode s id old_mode new_mode
  | OpReplaceBlob id old_blob new_blob => replace_file_blob s id old_blob new_blob
  | OpSetText id new_blob => set_text_blob s id new_blob
  | OpSeedTombstone id t => seed_tombstone s id t
  end.

Lemma seed_tombstone_ok s id t r s' :
  lifecycle_ok s -> seed_tombstone s id t = (r, s') -> lifecycle_ok s'.
Proof.
  unfold seed_tombstone. intros Hok H. repeat case_match; simplify_eq; try done.
  destruct (live_by_id s !! id) eqn:Hn; [done|]. destruct Hok as [Hi Hl Ht Hd]. constructor; cbn; [done| | |].
  - intros i Hs. specialize (Hl i Hs). set_solver.
  - intros i Hs. destruct (decide (i = id)) as [->|]; [set_solver|].
    rewrite lookup_insert_ne in Hs by done. specialize (Ht i Hs). set_solver.
  - intros i Hs. destruct (decide (i = id)) as [->|]; [done|].
    rewrite lookup_insert_ne in Hs by done. by apply Hd.
Qed.

Lemma run_op_ok s op : lifecycle_ok s -> lifecycle_ok (run_op s op).2.
Proof.
  intros Hok. destruct op; cbn [run_op snd].
  - destruct (create_node s id n) eqn:H. by eapply create_node_ok.
  - destruct (delete_node s id) eqn:H. by eapply delete_node_ok.
  - destruct (rename_node s id new) eqn:H. by eapply rename_node_ok.
  - unfold delete_node_checked. repeat case_match; try done.
    destruct (delete_node s id) eqn:Hd. by eapply delete_node_ok.
  - unfold rename_node_checked. repeat case_match; try done.
    destruct (rename_node s id new) eqn:Hd. by eapply rename_node_ok.
  - destruct (rename_nodes_checked_batch s renames) as [[[]|e] s'] eqn:H.
    + by eapply rename_batch_checked.
    + unfold rename_nodes_checked_batch in H. repeat case_match; by simplify_eq.
  - unfold change_file_mode. repeat case_match; try done. by eapply ok_update.
  - unfold replace_file_blob. repeat case_match; try done. by eapply ok_update.
  - unfold set_text_blob. repeat case_match; try done. by eapply ok_update.
  - destruct (seed_tombstone s id t) eqn:H. by eapply seed_tombstone_ok.
Qed.

Lemma run_op_atomic s op e : lifecycle_ok s -> (run_op s op).1 = Err e -> (run_op s op).2 = s.
Proof.
  intros Hok H.
  assert (Hdel : forall id e, (delete_node s id).1 = Err e -> (delete_node s id).2 = s).
  { intros id e' Hd. unfold delete_node in *. destruct (live_by_id s !! id) as [n|] eqn:Hn; [|done].
    rewrite (proj2 (ok_index s Hok (ln_path n) id)), bool_decide_eq_true_2 in Hd by eauto. done. }
  destruct op; cbn [run_op] in *; try (unfold create_node, rename_node, rename_node_checked,
    rename_nodes_checked_batch, change_file_mode, replace_file_blob, set_text_blob, seed_tombstone,
    rename_node in *; repeat case_match; by simplify_eq).
  - cbn in *. destruct (delete_node s id) as [[n|e'] s'] eqn:Hd; cbn in *; [done|].
    specialize (Hdel id e'). rewrite Hd in Hdel. by apply Hdel.
  - cbn in *. unfold delete_node_checked in *.
    destruct (live_by_id s !! id); [|done]. case_bool_decide; [|done]. cbn [negb] in *.
    destruct (delete_node s id) as [[n|e'] s'] eqn:Hd; cbn in *; [done|].
    specialize (Hdel id e'). rewrite Hd in Hdel. by apply Hdel.
Qed.

(** ** Typing *)

Lemma typed_insert s id n live paths tombs seen :
  lifecycle_typed s -> id <> zero_node_id ->
  validate_kind_content_shape (ln_kind n) (ln_content n) = Ok tt ->
  live = <[id := n]> (live_by_id s) ->
  (forall i t, tombs !! i = Some t -> latest_tombstone_by_id s !! i = Some t) ->
  lifecycle_typed (mkLifecycle live paths tombs seen).
Proof.
  intros [Hl Ht] Hz Hs -> Htombs. split; cbn.
  - intros i m Hm. destruct (decide (i = id)) as [->|].
    + rewrite lookup_insert_eq in Hm. by simplify_eq.
    + rewrite lookup_insert_ne in Hm by done. eauto.
  - intros i t Hi. eauto.
Qed.

Lemma batch_typed s renames :
  lifecycle_typed s -> lifecycle_typed (fold_left batch_claim renames (fold_left batch_clear renames s)).
Proof.
  intros Hs. assert (Hc : lifecycle_typed (fold_left batch_clear renames s)).
  { revert s Hs. induction renames as [|r rest IH]; intros s Hs; [done|]. cbn. by apply IH. }
  revert Hc. generalize (fold_left batch_clear renames s). clear s Hs.
  induction renames as [|r rest IH]; intros s Hs; [done|]. cbn. apply IH.
  unfold batch_claim. destruct (live_by_id s !! r.1.1) as [n|] eqn:Hn; [|done].
  destruct (proj1 Hs _ _ Hn). by apply (typed_insert s r.1.1 (mkLive r.2 (ln_kind n) (ln_content n))).
Qed.

Lemma create_typed s id n : lifecycle_typed s -> lifecycle_typed (create_node s id n).2.
Proof.
  intros Hs. unfold create_node, ensure_node_id_nonzero. case_bool_decide; [done|].
  destruct (validate_kind_content_shape (ln_kind n) (ln_content n)) as [[]|] eqn:Hsh; [|done].
  repeat case_match; try done.
  all: eapply typed_insert; try done.
  all: intros i t; rewrite lookup_delete_Some; by intros [? ?].
Qed.

Lemma delete_typed s id : lifecycle_typed s -> lifecycle_typed (delete_node s id).2.
Proof.
  intros Hs. unfold delete_node. destruct (live_by_id s !! id) as [n|] eqn:Hn; [|done].
  assert (Hdel : forall i m, delete id (live_by_id s) !! i = Some m -> live_by_id s !! i = Some m).
  { intros i m. rewrite lookup_delete_Some. by intros [? ?]. }
  destruct (proj1 Hs _ _ Hn) as [Hz Hsh]. repeat case_match; cbn.
  - split; cbn; [intros i m Hm; apply Hs; auto|]. intros i t Ht.
    destruct (decide (i = id)) as [->|]; [rewrite lookup_insert_eq in Ht; by simplify_eq|].
    rewrite lookup_insert_ne in Ht by done. by apply Hs.
  - split; cbn; [intros i m Hm; apply Hs; auto|apply Hs].
  - split; cbn; [intros i m Hm; apply Hs; auto|apply Hs].
Qed.

(** Replacing a file node's blob or mode keeps its shape. *)
Lemma typed_file_update s id n b m b' m' paths :
  lifecycle_typed s -> live_by_id s !! id = Some n -> ln_content n = FileContent b m ->
  lifecycle_typed
    (mkLifecycle (<[id := mkLive (ln_path n) (ln_kind n) (FileContent b' m')]> (live_by_id s)) paths
       (latest_tombstone_by_id s) (seen_ids s)).
Proof.
  intros Hs Hn Hc. destruct (proj1 Hs _ _ Hn) as [Hz Hsh]. rewrite Hc in Hsh.
  eapply (typed_insert s id (mkLive (ln_path n) (ln_kind n) (FileContent b' m'))); [done|done| |done|done].
  cbn. by destruct (ln_kind n).
Qed.

Lemma run_op_typed s op : lifecycle_typed s -> lifecycle_typed (run_op s op).2.
Proof.
  intros Hs.
  assert (Hren : forall id new, lifecycle_typed (rename_node s id new).2).
  { intros id new. unfold rename_node. repeat case_match; try done.
    all: match goal with Ht : lifecycle_typed ?st, H : live_by_id ?st !! ?i = Some ?n |- _ =>
      destruct (proj1 Ht _ _ H); by eapply (typed_insert st i (mkLive _ (ln_kind n) (ln_content n))) end. }
  destruct op; cbn [run_op snd]; try apply Hren.
  - by apply create_typed.
  - by apply delete_typed.
  - unfold delete_node_checked. repeat case_match; try done. by apply delete_typed.
  - unfold rename_node_checked. repeat case_match; try done.
  - unfold rename_nodes_checked_batch. repeat case_match; try done. by apply batch_typed.
  - unfold change_file_mode. repeat case_match; try done. by eapply typed_file_update.
  - unfold replace_file_blob. repeat case_match; try done. by eapply typed_file_update.
  - unfold set_text_blob. repeat case_match; try done. by eapply typed_file_update.
  - unfold seed_tombstone, ensure_node_id_nonzero. case_bool_decide; [done|].
    destruct (validate_kind_content_shape (tb_kind t) (tb_content t)) as [[]|] eqn:Hsh; [|done].
    case_match; [done|]. split; cbn; [apply Hs|]. intros i t' Ht.
    destruct (decide (i = id)) as [->|]; [rewrite lookup_insert_eq in Ht; by simplify_eq|].
    rewrite lookup_insert_ne in Ht by done. by apply Hs.
Qed.

(** A history of operations; a failed one leaves whatever state it leaves. *)
Definition run_ops (ops : list LifecycleOp) (s : NodeLifecycleState) : NodeLifecycleState :=
  fold_left (fun s op => (run_op s op).2) ops s.

Lemma run_ops_inv ops s :
  lifecycle_ok s -> lifecycle_typed s -> lifecycle_ok (run_ops ops s) /\ lifecycle_typed (run_ops ops s).
Proof.
  revert s. induction ops as [|op ops IH]; intros s Hok Ht; [done|].
  apply IH; [by apply run_op_ok|by apply run_op_typed].
Qed.

Lemma typed_new : lifecycle_typed NodeLifecycleState_new.
Proof. split; intros i x; cbn; by rewrite lookup_empty. Qed.

(** ** Properties *)

(** The source's validator decides the lifecycle invariant: it accepts a state exactly when the
    path index is the inverse of the live nodes' paths, every live or tombstoned identity was seen,
    and none is both live and tombstoned.  (The size comparison and the one-directional check
    together rule out stray index entries.) *)
Theorem lifecycle_validator_correct s :
  validate_internal_consistency s = Ok tt <->
  (forall p id, path_to_id s !! p = Some id <-> exists n, live_by_id s !! id = Some n /\ ln_path n = p) /\
  (forall id, is_Some (live_by_id s !! id) -> id ∈ seen_ids s) /\
  (forall id, is_Some (latest_tombstone_by_id s !! id) -> id ∈ seen_ids s /\ live_by_id s !! id = None).
Proof.
  rewrite validate_internal_consistency_iff. split.
  - intros [H1 H2 H3 H4]. repeat split; try apply H1; eauto.
  - intros (H1 & H2 & H3). constructor; [done|done|intros id Ht; by apply H3|intros id Ht; by apply H3].
Qed.

(** C8: Every lifecycle state reachable by replay operations is consistent: after any sequence of
    creations, deletions, renames, batch renames, mode, blob and text changes and tombstone seeds
    (failed ones included), the validator accepts the state. *)
Theorem lifecycle_reachable_consistent ops :
  validate_internal_consistency (run_ops ops NodeLifecycleState_new) = Ok tt.
Proof.
  apply validate_internal_consistency_iff. apply run_ops_inv; [apply ok_new|apply typed_new].
Qed.

(** On a consistent state every operation is fail-atomic: an operation that returns an error
    leaves the state exactly as it was, also the deletion that removes the node before it checks
    the path index. *)
Theorem lifecycle_fail_atomic s op e :
  validate_internal_consistency s = Ok tt -> (run_op s op).1 = Err e -> (run_op s op).2 = s.
Proof. intros Hok%validate_internal_consistency_iff. by apply run_op_atomic. Qed.

Lemma lifecycle_fail_atomic_witness :
  (run_op NodeLifecycleState_new (OpDelete [x01])).2 = NodeLifecycleState_new.
Proof.
  apply (lifecycle_fail_atomic NodeLifecycleState_new (OpDelete [x01])
           (Integrity "DeleteNode target node_id is not live")); reflexivity.
Defined.

(** A rename batch on a consistent state succeeds exactly when each entry names a live node at
    its stated old path, no node and no destination is named twice, and every occupied destination
    is occupied by a node of the batch (so swaps and cycles succeed). *)
Theorem rename_batch_succeeds_iff s renames :
  validate_internal_consistency s = Ok tt ->
  (rename_nodes_checked_batch s renames).1 = Ok tt <->
  NoDup (sources renames) /\ NoDup (destinations renames) /\
  (forall id old new, (id, old, new) ∈ renames ->
     (exists n, live_by_id s !! id = Some n /\ ln_path n = old) /\
     forall occupant, path_to_id s !! new = Some occupant -> occupant ∈ sources renames).
Proof.
  intros Hok%validate_internal_consistency_iff. unfold rename_nodes_checked_batch.
  destruct renames as [|r0 rest].
  { split; [|done]. intros _. repeat split; try constructor; by apply elem_of_nil in H. }
  set (renames := r0 :: rest). split.
  - destruct (foldM (batch_check_pair s) (∅, ∅) renames) as [seen|] eqn:H0; [|done].
    destruct (for_each (batch_check_destination s seen.1) renames) as [[]|] eqn:H1; [|done]. intros _.
    apply batch_check_pairs_ok in H0 as (Hns & Hnd & Hseen & Hold).
    apply for_each_ok in H1. rewrite Forall_forall in H1. split; [done|]. split; [done|].
    intros id old new Hin. split; [by eapply Hold|]. intros occ Hocc. specialize (H1 _ Hin).
    unfold batch_check_destination in H1. cbn in H1. rewrite Hocc in H1.
    case_bool_decide; [by apply Hseen|done].
  - intros (Hns & Hnd & Hall). destruct (batch_check_pairs_complete s renames) as [seen H0]; [done..| |].
    { intros id old new Hin. by apply (Hall id old new). }
    rewrite H0. apply batch_check_pairs_ok in H0 as (_ & _ & Hseen & Hold).
    replace (for_each (batch_check_destination s seen.1) renames) with (@Ok PrikkError _ tt).
    2: { symmetry. apply for_each_ok, Forall_forall. intros [[id old] new] Hin.
         unfold batch_check_destination. cbn. destruct (path_to_id s !! new) as [occ|] eqn:Hocc; [|done].
         rewrite bool_decide_eq_true_2; [done|]. apply Hseen. by eapply Hall. }
    replace (for_each (batch_check_index s) renames) with (@Ok PrikkError _ tt); [done|].
    symmetry. apply for_each_ok, Forall_forall. intros [[id old] new] Hin. unfold batch_check_index. cbn.
    rewrite bool_decide_eq_true_2; [done|]. apply (ok_index s Hok). by eapply Hold.
Qed.

(** Two live nodes that trade their paths. *)
Definition witness_node (p : byte) : LiveNode := mkLive [p] TextFile (FileContent (replicate 32 x09) 0).
Definition witness_tree : NodeLifecycleState :=
  run_ops [OpCreate (replicate 32 x01) (witness_node x61); OpCreate (replicate 32 x02) (witness_node x62)]
    NodeLifecycleState_new.
Definition witness_swap : list Rename :=
  [(replicate 32 x01, [x61], [x62]); (replicate 32 x02, [x62], [x61])].

Lemma rename_batch_succeeds_iff_witness :
  (rename_nodes_checked_batch witness_tree witness_swap).1 = Ok tt.
Proof.
  apply rename_batch_succeeds_iff; [vm_compute; reflexivity|].
  split; [apply NoDup_ListNoDup; repeat constructor; vm_compute; intuition discriminate|].
  split; [apply NoDup_ListNoDup; repeat constructor; vm_compute; intuition discriminate|].
  intros id old new Hin. unfold witness_swap in Hin. rewrite !elem_of_cons, elem_of_nil in Hin.
  destruct Hin as [[= -> -> ->]|[[= -> -> ->]|[]]].
  - split; [exists (witness_node x61); split; vm_compute; reflexivity|]. intros occ Hocc.
    assert (occ = replicate 32 x02) as -> by (vm_compute in Hocc; vm_compute; congruence). right. left.
  - split; [exists (witness_node x62); split; vm_compute; reflexivity|]. intros occ Hocc.
    assert (occ = replicate 32 x01) as -> by (vm_compute in Hocc; vm_compute; congruence). left.
Defined.

(** A successful rename batch renames all its nodes at once: every node the batch names has its
    stated destination as path and its kind and content unchanged, every other node is untouched,
    tombstones and seen identities are untouched, and the result is consistent. *)
Theorem rename_batch_simultaneous s renames s' :
  validate_internal_consistency s = Ok tt ->
  rename_nodes_checked_batch s renames = (Ok tt, s') ->
  validate_internal_consistency s' = Ok tt /\
  latest_tombstone_by_id s' = latest_tombstone_by_id s /\ seen_ids s' = seen_ids s /\
  forall id, live_by_id s' !! id =
    match renamed_to renames id with
    | Some new => set_path new <$> live_by_id s !! id
    | None => live_by_id s !! id
    end.
Proof.
  intros Hok%validate_internal_consistency_iff H.
  destruct (rename_batch_checked s renames s' Hok H) as (H1 & H2 & H3 & H4 & _).
  split; [by apply validate_internal_consistency_iff|done].
Qed.

Lemma rename_batch_simultaneous_witness :
  live_by_id (rename_nodes_checked_batch witness_tree witness_swap).2 !! replicate 32 x01
  = Some (witness_node x62).
Proof.
  destruct (rename_batch_simultaneous witness_tree witness_swap
              (rename_nodes_checked_batch witness_tree witness_swap).2) as (_ & _ & _ & Hlive);
    [vm_compute; reflexivity|vm_compute; reflexivity|].
  rewrite Hlive. vm_compute. reflexivity.
Defined.

(** Deleting a node and creating it again with the very node the deletion returned restores the
    whole state exactly, tombstones and seen identities included (for every reachable state). *)
Theorem delete_then_create_restores ops id n s' :
  let s := run_ops ops NodeLifecycleState_new in
  delete_node s id = (Ok n, s') -> create_node s' id n = (Ok tt, s).
Proof.
  intros s Hdel. destruct (run_ops_inv ops NodeLifecycleState_new ok_new typed_new) as [Hok Htyp].
  fold s in Hok, Htyp. unfold delete_node in Hdel.
  destruct (live_by_id s !! id) as [m|] eqn:Hn; [|done].
  assert (Hidx : path_to_id s !! ln_path m = Some id) by (apply (ok_index s Hok); eauto).
  rewrite Hidx, bool_decide_eq_true_2 in Hdel by done. injection Hdel as -> <-.
  destruct (proj1 Htyp _ _ Hn) as [Hz Hsh].
  assert (Hseen : id ∈ seen_ids s) by (apply (ok_live_seen s Hok); eauto).
  assert (Htomb : latest_tombstone_by_id s !! id = None).
  { apply eq_None_not_Some. intros Ht%(ok_disjoint s Hok). congruence. }
  unfold create_node, ensure_node_id_nonzero. cbn [live_by_id path_to_id latest_tombstone_by_id seen_ids].
  rewrite bool_decide_eq_false_2 by done. rewrite Hsh, !lookup_delete_eq. cbn [is_some].
  rewrite bool_decide_eq_true_2 by done. rewrite lookup_insert_eq. cbn [ok_or].
  unfold ensure_restoration_equivalent. cbn. rewrite !bool_decide_eq_true_2 by done. cbn.
  rewrite !insert_delete_eq, delete_insert_id, !insert_id by done.
  replace ({[id]} ∪ seen_ids s) with (seen_ids s) by set_solver. by destruct s.
Qed.

Lemma delete_then_create_restores_witness :
  create_node (delete_node witness_tree (replicate 32 x01)).2 (replicate 32 x01) (witness_node x61)
  = (Ok tt, witness_tree).
Proof.
  apply (delete_then_create_restores
    [OpCreate (replicate 32 x01) (witness_node x61); OpCreate (replicate 32 x02) (witness_node x62)]).
  vm_compute. reflexivity.
Defined.

(** Renaming a node and renaming it back to its old path restores the whole state exactly. *)
Theorem rename_back_restores s id n new s' :
  validate_internal_consistency s = Ok tt ->
  live_by_id s !! id = Some n ->
  rename_node s id new = (Ok tt, s') -> rename_node s' id (ln_path n) = (Ok tt, s).
Proof.
  intros Hok%validate_internal_consistency_iff Hn H. unfold rename_node in H.
  assert (Hidx : path_to_id s !! ln_path n = Some id) by (apply (ok_index s Hok); eauto).
  destruct (match path_to_id s !! new with Some _ => _ | None => _ end) as [[]|] eqn:Hfree in H; [|done].
  rewrite Hn, Hidx, bool_decide_eq_true_2 in H by done. injection H as <-.
  unfold rename_node. cbn [live_by_id path_to_id latest_tombstone_by_id seen_ids].
  rewrite lookup_insert_eq. cbn [ln_path ln_kind ln_content].
  rewrite lookup_insert_eq, bool_decide_eq_true_2 by done.
  rewrite (insert_insert_eq (live_by_id s)), (insert_id (live_by_id s)) by (rewrite Hn; by destruct n).
  destruct (decide (new = ln_path n)) as [->|Hne].
  - rewrite lookup_insert_eq, bool_decide_eq_true_2 by done. cbn [negb].
    rewrite insert_delete_eq, insert_insert_eq, insert_delete_eq, insert_id by done. by destruct s.
  - rewrite lookup_insert_ne, lookup_delete_eq by done.
    assert (Hnone : path_to_id s !! new = None).
    { destruct (path_to_id s !! new) as [i|] eqn:Hi; [|done]. case_bool_decide; [|done]. subst i.
      apply (ok_index s Hok) in Hi as (m & Hm & Hmp). congruence. }
    rewrite delete_insert_id by (by rewrite lookup_delete_ne by done).
    rewrite insert_delete_eq, insert_id by done. by destruct s.
Qed.

Lemma rename_back_restores_witness :
  rename_node (rename_node witness_tree (replicate 32 x01) [x63]).2 (replicate 32 x01) [x61]
  = (Ok tt, witness_tree).
Proof.
  apply (rename_back_restores witness_tree (replicate 32 x01) (witness_node x61) [x63]);
    vm_compute; reflexivity.
Defined.

(** A deleted identity may come back only as what it was: on a consistent state, creating a
    tombstoned identity succeeds exactly when the new node has the tombstone's kind, content (mode
    included) and path, that path is free, and the node is well-formed. *)
Theorem reintroduction_requires_restoration s id t n :
  validate_internal_consistency s = Ok tt -> latest_tombstone_by_id s !! id = Some t ->
  (create_node s id n).1 = Ok tt <->
  id <> zero_node_id /\ validate_kind_content_shape (ln_kind n) (ln_content n) = Ok tt /\
  path_to_id s !! ln_path n = None /\
  tb_kind t = ln_kind n /\ tb_content t = ln_content n /\ tb_path t = ln_path n.
Proof.
  intros Hok%validate_internal_consistency_iff Ht. unfold create_node, ensure_node_id_nonzero.
  rewrite (ok_disjoint s Hok id) by eauto. cbn [is_some].
  rewrite (bool_decide_eq_true_2 (id ∈ seen_ids s)) by (apply (ok_tomb_seen s Hok); eauto).
  rewrite Ht. cbn [ok_or]. unfold ensure_restoration_equivalent.
  case_bool_decide as Hz; [naive_solver|].
  destruct (validate_kind_content_shape (ln_kind n) (ln_content n)) as [[]|]; [|naive_solver].
  destruct (path_to_id s !! ln_path n); cbn [is_some]; [naive_solver|].
  repeat case_bool_decide; cbn; naive_solver.
Qed.

Lemma reintroduction_requires_restoration_witness :
  (create_node (delete_node witness_tree (replicate 32 x01)).2 (replicate 32 x01) (witness_node x61)).1
  = Ok tt.
Proof.
  apply (reintroduction_requires_restoration (delete_node witness_tree (replicate 32 x01)).2
           (replicate 32 x01) (mkTombstone TextFile (FileContent (replicate 32 x09) 0) [x61]));
    [vm_compute; reflexivity|vm_compute; reflexivity|].
  split; [vm_compute; discriminate|]. repeat split; vm_compute; reflexivity.
Defined.

(** Seeding can make a state no operation can reach: [seed_live_node] does not consult the
    tombstones, so a tombstone seeded first and a live node seeded second for one identity are both
    accepted, although [create_node] refuses that node, and the validator then rejects the state. *)
Theorem seed_live_after_tombstone_inconsistent :
  exists id t n,
    let s := (seed_tombstone NodeLifecycleState_new id t).2 in
    (seed_tombstone NodeLifecycleState_new id t).1 = Ok tt /\
    (create_node s id n).1
    = Err (Integrity "reintroduced node_id is not restoration-equivalent to its latest tombstone") /\
    (seed_live_node s id n).1 = Ok tt /\
    validate_internal_consistency (seed_live_node s id n).2
    = Err (Integrity "node lifecycle index: node_id is both live and tombstoned").
Proof.
  exists (replicate 32 x01), (mkTombstone TextFile (FileContent (replicate 32 x09) 0) [x61]), (witness_node x62).
  repeat split; vm_compute; reflexivity.
Qed.
