(* ===== verification/Patch.v ===== *)
(** * Patch payloads (crates/prikk-object/src/payload/patch.rs, patch/operations.rs, payload/common.rs)

    The seven operation records, their [validate] methods and canonical encodings, the [Operation]
    envelope and the patch payload itself.  The decoders are in the store ([PatchDecode.v]). *)

From S2P Require Import Prelude PrikkError Hash Utf8 Canonical Cursor ObjectId RepoPath Payload.
From S2P Require Import Lifecycle.

(** ** Shared payload types *)

Inductive Intent : Type := Feature | Fix | Refactor | Docs | Test.
Definition Intent_code (i : Intent) : Z :=
  match i with Feature => 1 | Fix => 2 | Refactor => 3 | Docs => 4 | Test => 5 end.

Inductive OperationCondition : Type :=
| OldContentHash (hash : list byte)
| AnchorExists (anchor : list byte)
| PathExists (path : list byte)
| PathAbsent (path : list byte).

#[global] Instance OperationCondition_encode : CanonicalEncode OperationCondition := fun c w =>
  match c with
  | OldContentHash hash => let? w := field_u32 1 1 w in field_bytes 2 hash w
  | AnchorExists anchor => let? w := field_u32 1 2 w in field_string 2 anchor w
  | PathExists path => let? w := field_u32 1 3 w in field_string 2 path w
  | PathAbsent path => let? w := field_u32 1 4 w in field_string 2 path w
  end.

Record OperationConditionEntry : Type := mkEntry {
  oce_key : list byte;
  oce_value : OperationCondition;
}.

#[global] Instance OperationConditionEntry_encode : CanonicalEncode OperationConditionEntry :=
  fun e w =>
    let? w := field_string 1 (oce_key e) w in
    field_record 2 (oce_value e) w.

(** [derive(PartialOrd, Ord)]: the variants in declaration order, then their contents. *)
Definition condition_index (c : OperationCondition) : Z :=
  match c with OldContentHash _ => 0 | AnchorExists _ => 1 | PathExists _ => 2 | PathAbsent _ => 3 end.
Definition condition_body (c : OperationCondition) : list byte :=
  match c with OldContentHash b | AnchorExists b | PathExists b | PathAbsent b => b end.
Definition OperationCondition_cmp (a b : OperationCondition) : comparison :=
  match condition_index a ?= condition_index b with
  | Eq => bytes_cmp (condition_body a) (condition_body b)
  | c => c
  end.
Definition OperationConditionEntry_cmp (a b : OperationConditionEntry) : comparison :=
  match bytes_cmp (oce_key a) (oce_key b) with
  | Eq => OperationCondition_cmp (oce_value a) (oce_value b)
  | c => c
  end.
Definition OperationConditionEntry_ltb (a b : OperationConditionEntry) : bool :=
  bool_decide (OperationConditionEntry_cmp a b = Lt).

(** ** Text-span helpers and schema constants *)

Definition TEXT_SPAN_HASH_BYTES : nat := 32.
Definition text_span_hash `{Sha256} (bytes : list byte) : list byte := sha256 bytes.

Definition validate_text_anchor_id (value : list byte) : PResult unit :=
  if bool_decide (value = []) then Err (CanonicalEncoding "text anchor id must not be empty")
  else if negb (is_ascii value) then Err (CanonicalEncoding "text anchor id must be ASCII in v1")
  else if existsb (fun b => (bz b <? 0x21) || (bz b =? 0x7f)) value
  then Err (CanonicalEncoding "text anchor id must not contain whitespace or control characters")
  else Ok tt.

Definition PATCH_PARENT_IDS_RETIRED_SCHEMA : Z := 2.
Definition PATCH_TEXT_SPAN_V2_SCHEMA : Z := 3.
Definition PATCH_MESSAGE_SCHEMA : Z := 4.
Definition TEXT_SPAN_ANCHOR_MIN_LEN : Z := 64.

(** [[0o100_644, 0o100_755]]. *)
Definition CANONICAL_FILE_MODES : list Z := [33188; 33261].
Definition is_canonical_file_mode (mode : Z) : bool := bool_decide (mode ∈ CANONICAL_FILE_MODES).

Definition authoring_path_error (err : PrikkError) : PrikkError :=
  match err with
  | NonAsciiRepoPath _ =>
      InvalidName "this version of prikk does not accept non-ASCII repository paths: {path}"
  | other => other
  end.

(** ** Operation records *)

Record CreateFile : Type := mkCreateFile {
  cf_path : list byte;
  cf_node_id : NodeId;
  cf_blob_id : ObjectId;
  cf_mode : Z;
}.

Definition CreateFile_validate (o : CreateFile) : PResult unit :=
  if NodeId_is_zero (cf_node_id o) then Err (CanonicalEncoding "CreateFile node_id must be nonzero")
  else
    let? _ := map_err authoring_path_error (validate_repo_path (cf_path o)) in
    if negb (is_canonical_file_mode (cf_mode o))
    then Err (CanonicalEncoding "CreateFile mode {:#o} is not one of prikk's canonical file modes")
    else Ok tt.

#[global] Instance CreateFile_encode : CanonicalEncode CreateFile := fun o w =>
  let? _ := CreateFile_validate o in
  let? w := field_repo_path 1 (cf_path o) w in
  let? w := field_bytes 2 (cf_node_id o) w in
  let? w := field_object_id 3 (cf_blob_id o) w in
  field_u32 4 (cf_mode o) w.

Inductive DeleteNodePreimage : Type :=
| PreimageFile (old_blob_id : list byte) (old_mode : Z)
| PreimageSymlink (old_target : list byte).

Record DeleteNode : Type := mkDeleteNode {
  dn_path : list byte;
  dn_node_id : NodeId;
  dn_old_node_kind : NodeKind;
  dn_preimage : DeleteNodePreimage;
}.

Definition DeleteNode_consistent (kind : NodeKind) (preimage : DeleteNodePreimage) : bool :=
  match kind, preimage with
  | (TextFile | BinaryFile), PreimageFile _ _ => true
  | SymlinkKind, PreimageSymlink _ => true
  | _, _ => false
  end.

Definition DeleteNode_validate (o : DeleteNode) : PResult unit :=
  if NodeId_is_zero (dn_node_id o) then Err (CanonicalEncoding "DeleteNode node_id must be nonzero")
  else
    let? _ := map_err authoring_path_error (validate_repo_path (dn_path o)) in
    if negb (DeleteNode_consistent (dn_old_node_kind o) (dn_preimage o))
    then Err (CanonicalEncoding "DeleteNode old_node_kind does not match preimage discriminator")
    else
      match dn_preimage o with
      | PreimageFile _ old_mode =>
          if negb (is_canonical_file_mode old_mode)
          then Err (CanonicalEncoding
                 "DeleteNode old_mode {old_mode:#o} is not one of prikk's canonical file modes")
          else Ok tt
      | PreimageSymlink _ => Ok tt
      end.

#[global] Instance DeleteNode_encode : CanonicalEncode DeleteNode := fun o w =>
  let? _ := DeleteNode_validate o in
  let? w := field_repo_path 1 (dn_path o) w in
  let? w := field_bytes 2 (dn_node_id o) w in
  let? w := field_enum_u16 3 (NodeKind_code (dn_old_node_kind o)) w in
  match dn_preimage o with
  | PreimageFile old_blob_id old_mode =>
      let? w := field_object_id 4 old_blob_id w in field_u32 6 old_mode w
  | PreimageSymlink old_target => field_string 5 old_target w
  end.

Record EditText : Type := mkEditText {
  et_node_id : NodeId;
  et_span_id : list byte;
  et_old_span_hash : list byte;
  et_left_anchor_hash : list byte;
  et_right_anchor_hash : list byte;
  et_replacement_text : list byte;
  et_hint_line : option Z;
  et_hint_column : option Z;
  et_old_span_text : list byte;
  et_left_anchor_len : option Z;
  et_right_anchor_len : option Z;
}.

(** The match on the two anchor lengths, shared in shape by [EditText::validate] and the decoder;
    [mk] is the error constructor of the caller. *)
Definition check_anchor_lens (mk : string -> PrikkError) (left_len right_len : option Z)
  : PResult unit :=
  match left_len, right_len with
  | None, None => Ok tt
  | Some left_len, Some right_len =>
      if (left_len <? TEXT_SPAN_ANCHOR_MIN_LEN) || (right_len <? TEXT_SPAN_ANCHOR_MIN_LEN)
      then Err (mk "EditText anchor lengths must each be at least {TEXT_SPAN_ANCHOR_MIN_LEN}")
      else Ok tt
  | _, _ =>
      Err (mk
        "EditText left_anchor_len and right_anchor_len must be both present or both absent")
  end.

Definition EditText_validate `{Sha256} (o : EditText) : PResult unit :=
  if NodeId_is_zero (et_node_id o) then Err (CanonicalEncoding "EditText node_id must be nonzero")
  else if negb (bool_decide (et_old_span_hash o = text_span_hash (et_old_span_text o)))
  then Err (CanonicalEncoding "EditText old_span_hash must equal SHA-256(old_span_text)")
  else if negb (from_utf8 (et_old_span_text o))
  then Err (CanonicalEncoding "EditText old_span_text must be well-formed UTF-8")
  else if negb (from_utf8 (et_replacement_text o))
  then Err (CanonicalEncoding "EditText replacement_text must be well-formed UTF-8")
  else check_anchor_lens CanonicalEncoding (et_left_anchor_len o) (et_right_anchor_len o).

#[global] Instance EditText_encode `{Sha256} : CanonicalEncode EditText := fun o w =>
  let? _ := EditText_validate o in
  let? w := field_bytes 1 (et_node_id o) w in
  let? w := field_bytes 2 (et_span_id o) w in
  let? w := field_bytes 3 (et_old_span_hash o) w in
  let? w := field_bytes 4 (et_left_anchor_hash o) w in
  let? w := field_bytes 5 (et_right_anchor_hash o) w in
  let? w := field_bytes 6 (et_replacement_text o) w in
  let? w := match et_hint_line o with Some line => field_u32 7 line w | None => Ok w end in
  let? w := match et_hint_column o with Some column => field_u32 8 column w | None => Ok w end in
  let? w := field_bytes 9 (et_old_span_text o) w in
  let? w := match et_left_anchor_len o with Some len => field_u32 10 len w | None => Ok w end in
  match et_right_anchor_len o with Some len => field_u32 11 len w | None => Ok w end.

Record RenamePath : Type := mkRenamePath {
  rp_node_id : NodeId;
  rp_old_path : list byte;
  rp_new_path : list byte;
}.

Definition RenamePath_validate (o : RenamePath) : PResult unit :=
  if NodeId_is_zero (rp_node_id o) then Err (CanonicalEncoding "RenamePath node_id must be nonzero")
  else
    let? _ := map_err authoring_path_error (validate_repo_path (rp_old_path o)) in
    map_err authoring_path_error (validate_repo_path (rp_new_path o)).

#[global] Instance RenamePath_encode : CanonicalEncode RenamePath := fun o w =>
  let? _ := RenamePath_validate o in
  let? w := field_bytes 1 (rp_node_id o) w in
  let? w := field_repo_path 2 (rp_old_path o) w in
  field_repo_path 3 (rp_new_path o) w.

Record ChangePerm : Type := mkChangePerm {
  cp_node_id : NodeId;
  cp_old_mode : Z;
  cp_new_mode : Z;
}.

Definition ChangePerm_validate (o : ChangePerm) : PResult unit :=
  if NodeId_is_zero (cp_node_id o) then Err (CanonicalEncoding "ChangePerm node_id must be nonzero")
  else if negb (is_canonical_file_mode (cp_old_mode o))
  then Err (CanonicalEncoding "ChangePerm old_mode {:#o} is not one of prikk's canonical file modes")
  else if negb (is_canonical_file_mode (cp_new_mode o))
  then Err (CanonicalEncoding "ChangePerm new_mode {:#o} is not one of prikk's canonical file modes")
  else Ok tt.

#[global] Instance ChangePerm_encode : CanonicalEncode ChangePerm := fun o w =>
  let? _ := ChangePerm_validate o in
  let? w := field_bytes 1 (cp_node_id o) w in
  let? w := field_u32 2 (cp_old_mode o) w in
  field_u32 3 (cp_new_mode o) w.

Record CreateSymlink : Type := mkCreateSymlink {
  cs_path : list byte;
  cs_node_id : NodeId;
  cs_target : list byte;
}.

Definition CreateSymlink_validate (o : CreateSymlink) : PResult unit :=
  if NodeId_is_zero (cs_node_id o) then Err (CanonicalEncoding "CreateSymlink node_id must be nonzero")
  else map_err authoring_path_error (validate_repo_path (cs_path o)).

#[global] Instance CreateSymlink_encode : CanonicalEncode CreateSymlink := fun o w =>
  let? _ := CreateSymlink_validate o in
  let? w := field_repo_path 1 (cs_path o) w in
  let? w := field_bytes 2 (cs_node_id o) w in
  field_string 3 (cs_target o) w.

Record ReplaceBinary : Type := mkReplaceBinary {
  rb_node_id : NodeId;
  rb_old_blob_id : ObjectId;
  rb_new_blob_id : ObjectId;
}.

Definition ReplaceBinary_validate (o : ReplaceBinary) : PResult unit :=
  if NodeId_is_zero (rb_node_id o) then Err (CanonicalEncoding "ReplaceBinary node_id must be nonzero")
  else Ok tt.

#[global] Instance ReplaceBinary_encode : CanonicalEncode ReplaceBinary := fun o w =>
  let? _ := ReplaceBinary_validate o in
  let? w := field_bytes 1 (rb_node_id o) w in
  let? w := field_object_id 2 (rb_old_blob_id o) w in
  field_object_id 3 (rb_new_blob_id o) w.

(** ** Operations and patches *)

Inductive OperationKind : Type :=
| OpCreateFile (value : CreateFile)
| OpDeleteNode (value : DeleteNode)
| OpEditText (value : EditText)
| OpRenamePath (value : RenamePath)
| OpChangePerm (value : ChangePerm)
| OpCreateSymlink (value : CreateSymlink)
| OpReplaceBinary (value : ReplaceBinary).

Record Operation : Type := mkOperation {
  op_seq : Z;
  op_id : option (list byte);
  op_preconditions : list OperationCondition;
  op_kind : OperationKind;
}.

#[global] Instance Operation_encode `{Sha256} : CanonicalEncode Operation := fun o w =>
  let? w := field_u32 1 (op_seq o) w in
  let? w := field_string_opt 2 (op_id o) w in
  let? w := repeated_record 3 (op_preconditions o) w in
  match op_kind o with
  | OpCreateFile value => field_record 10 value w
  | OpDeleteNode value => field_record 11 value w
  | OpEditText value => field_record 12 value w
  | OpRenamePath value => field_record 13 value w
  | OpChangePerm value => field_record 14 value w
  | OpCreateSymlink value => field_record 15 value w
  | OpReplaceBinary value => field_record 16 value w
  end.

Inductive PatchPurpose : Type := PurposeNormal | RollbackDraft.
#[global] Instance PatchPurpose_eq_dec : EqDecision PatchPurpose.
Proof. solve_decision. Defined.

Definition PatchPurpose_code (p : PatchPurpose) : Z :=
  match p with PurposeNormal => 1 | RollbackDraft => 2 end.

Definition PatchPurpose_from_present_code (code : Z) : PResult PatchPurpose :=
  if code =? 1
  then Err (CanonicalEncoding "PatchPurpose::Normal must be omitted, not encoded explicitly")
  else if code =? 2 then Ok RollbackDraft
  else Err (CanonicalEncoding "unknown patch purpose code: {other}").

Record PatchPayload : Type := mkPatch {
  pp_operations : list Operation;
  pp_intent : option Intent;
  pp_preconditions : list OperationConditionEntry;
  pp_purpose : PatchPurpose;
  pp_message : option (list byte);
}.

Definition PatchPayload_validate (p : PatchPayload) : PResult unit :=
  if Nat.eqb (length (pp_operations p)) 0
  then Err (CanonicalEncoding "patch operations must contain at least one operation")
  else if negb (is_contiguous_op_seq (map op_seq (pp_operations p)))
  then Err (CanonicalEncoding "patch operations must have contiguous op_seq values starting at 1")
  else if negb (is_strictly_sorted OperationConditionEntry_ltb (pp_preconditions p))
  then Err (CanonicalEncoding "patch preconditions must be sorted and unique")
  else if bool_decide (pp_message p = Some [])
  then Err (CanonicalEncoding "patch message must not be an empty string: omit it instead")
  else Ok tt.

#[global] Instance PatchPayload_encode `{Sha256} : CanonicalEncode PatchPayload := fun p w =>
  let? _ := PatchPayload_validate p in
  let? w := repeated_record_list 1 (pp_operations p) w in
  let? w := match pp_intent p with
            | Some intent => field_enum_u16 3 (Intent_code intent) w | None => Ok w end in
  let? w := repeated_record 4 (pp_preconditions p) w in
  let? w := if bool_decide (pp_purpose p <> PurposeNormal)
            then field_enum_u16 5 (PatchPurpose_code (pp_purpose p)) w else Ok w in
  field_string_opt 6 (pp_message p) w.

(** ** The top-level purpose decoder

    [PatchPayloadFieldCursor] is the cursor of [Cursor.v] reporting [CanonicalEncoding] errors. *)

Definition PatchPayloadFieldCursor_next_field := next_field CanonicalEncoding.
Definition PatchPayloadField_require_wire := require_wire CanonicalEncoding.
Definition PatchPayloadField_read_u16 (f : Field) : PResult Z :=
  let? bs := field_read_array CanonicalEncoding f 2 in Ok (from_be_bytes bs).

Definition purpose_step (a : PatchPurpose * bool) (field : Field) : PResult (PatchPurpose * bool) :=
  let '(purpose, seen_purpose) := a in
  if ((1 <=? tag field) && (tag field <=? 4)) || (tag field =? 6) then Ok (purpose, seen_purpose)
  else if tag field =? 5 then
    if (seen_purpose : bool) then Err (CanonicalEncoding "duplicate PatchPurpose field")
    else
      let? _ := PatchPayloadField_require_wire field WireEnumU16 in
      let? code := PatchPayloadField_read_u16 field in
      let? purpose := PatchPurpose_from_present_code code in
      Ok (purpose, true)
  else Err (CanonicalEncoding "unknown PatchPayload field tag: {other}").

Definition decode_from_patch_payload (bytes : list byte) : PResult PatchPurpose :=
  let? a := decode_fields CanonicalEncoding purpose_step (PurposeNormal, false) bytes in
  Ok (fst a).
