(* ===== verification/ObjectStore.v ===== *)
(** * Object admission and object readers (crates/prikk-store/src/format.rs, object_store.rs, memory_store.rs, foundation/index.rs)

    Which envelope schemas a repository admits, the reader interface the rest of the store is generic
    over with the checks every file-backed read makes, the in-memory store, and the decision a writer
    takes when an identifier is already stored.  The bytes of containers and of the object index are
    the argument [read_object_envelope_at] and the index lookup's result: they stand for the file
    system. *)

From S2P Require Import Prelude PrikkError Hash Canonical ObjectId Signature Envelope Refs Patch.

(** ** Schema admission (format.rs) *)

Inductive RepositoryFormat : Type := CurrentV6 | V7.

#[global] Instance RepositoryFormat_eq_dec : EqDecision RepositoryFormat.
Proof. solve_decision. Defined.

Definition admitted_schemas (object_type : ObjectType) : option (list Z) :=
  match object_type with
  | Block => Some [2]
  | RefState => Some [1; REF_STATE_CLOSED_SCHEMA]
  | Patch =>
      Some [1; PATCH_PARENT_IDS_RETIRED_SCHEMA; PATCH_TEXT_SPAN_V2_SCHEMA; PATCH_MESSAGE_SCHEMA]
  | RefUpdate | Tag | Attestation | Blob | RecognitionClaim => Some [1]
  | BlockSummaryCache | RecoveryNote => None
  end.

Definition validate_format2_schema (envelope : ObjectEnvelope) : PResult unit :=
  match admitted_schemas (object_type envelope) with
  | None => Err (Integrity "{} is not authorized in a format-2 identity position")
  | Some accepted =>
      if negb (existsb (Z.eqb (schema_version envelope)) accepted)
      then Err (Integrity "format-2 {} does not accept envelope schema {} (accepted: {accepted:?})")
      else Ok tt
  end.

Definition validate_object_envelope (format : RepositoryFormat) (envelope : ObjectEnvelope)
  : PResult unit :=
  let? _ := validate_strict envelope in
  match format with CurrentV6 | V7 => validate_format2_schema envelope end.

Definition validate_read_schema (format : RepositoryFormat) (envelope : ObjectEnvelope)
  : PResult unit :=
  match format with
  | CurrentV6 | V7 =>
      let? _ := validate_strict envelope in
      validate_format2_schema envelope
  end.

(** ** Readers (object_store.rs) *)

(** The trait [ObjectReader]: [read_object] is what an implementor provides, [read_typed] and
    [has_object] are the trait's default methods. *)
Class ObjectReader : Type :=
  read_object : ObjectId -> PResult (option ObjectEnvelope).

Definition read_typed `{ObjectReader} (id : ObjectId) (type : ObjectType) : PResult (option ObjectEnvelope) :=
  let? found := read_object id in
  match found with
  | None => Ok None
  | Some envelope =>
      if negb (bool_decide (object_type envelope = type))
      then Err (ObjectTypeMismatch (ObjectType_name type) (ObjectType_name (object_type envelope)))
      else Ok (Some envelope)
  end.

Definition has_object `{ObjectReader} (id : ObjectId) (type : ObjectType) : PResult bool :=
  let? found := read_typed id type in
  Ok (is_some found).

(** What clients of a reader rely on: an object read under an identifier has that identifier and is
    admitted by the repository's format. *)
Class LawfulReader `{Sha256} (R : ObjectReader) : Prop :=
  lawful_read : forall id e, read_object id = Ok (Some e) ->
    object_id e = id /\ validate_format2_schema e = Ok tt.

Inductive ContainerSlot : Type := SlotA | SlotB.

(** One index entry: where one object's container record lives (foundation/index.rs). *)
Record IndexEntry : Type := mkIndexEntry {
  ie_object_id : ObjectId;
  ie_object_type : ObjectType;
  ie_slot : ContainerSlot;
  ie_offset : Z;
  ie_length : Z;
  ie_container_checksum : list byte;
}.

Section file_store.
Context `{Sha256} (format : RepositoryFormat) (read_object_envelope_at : IndexEntry -> PResult ObjectEnvelope).

Definition read_object_at_entry (entry : IndexEntry) (id : ObjectId) : PResult (option ObjectEnvelope) :=
  let? envelope := read_object_envelope_at entry in
  let computed := object_id envelope in
  if negb (bool_decide (computed = id))
  then Err (Integrity "index entry for {id} resolves to an envelope with computed id {computed}")
  else if negb (bool_decide (object_type envelope = ie_object_type entry))
  then Err (Integrity "index entry for {id} names type {}, envelope decoded as {}")
  else
    let? _ := validate_read_schema format envelope in
    Ok (Some envelope).

(** [FileObjectStore], [ObjectReadSnapshot] and [ObjectWriteSession] read an object through their
    index lookup. *)
Definition index_reader (lookup : ObjectId -> PResult (option IndexEntry)) : ObjectReader := fun id =>
  let? found := lookup id in
  match found with
  | None => Ok None
  | Some entry => read_object_at_entry entry id
  end.

(** ** Write decisions (foundation/index.rs) *)

Inductive WriteDecision : Type :=
| WriteNew
| WriteAlreadyPresent (id : ObjectId)
| WriteMerge (envelope : ObjectEnvelope).

(** One candidate signature of the union. *)
Definition merge_signature (union : ObjectEnvelope) (signature : Signature) : PResult ObjectEnvelope :=
  if is_ok (binary_search_by canonical_cmp signature (signatures union)) then Ok union
  else add_signature union signature.

Definition decide_write_outcome (object_type_ : ObjectType) (envelope : ObjectEnvelope)
    (existing : option IndexEntry) : PResult WriteDecision :=
  match existing with
  | None => Ok WriteNew
  | Some existing =>
      if negb (bool_decide (ie_object_type existing = object_type_))
      then Err (Integrity "existing index entry for {object_id} has type {}, expected {object_type}")
      else
        let? existing_envelope := read_object_envelope_at existing in
        if bool_decide (existing_envelope = envelope) then Ok (WriteAlreadyPresent (object_id envelope))
        else if negb (bool_decide (object_type existing_envelope = object_type envelope))
          || negb (schema_version existing_envelope =? schema_version envelope)
          || negb (bool_decide (canonical_payload existing_envelope = canonical_payload envelope))
        then Err (Integrity "existing container record for {object_id} differs from candidate in its payload, not only its signatures -- refusing")
        else if bool_decide (format = CurrentV6)
        then Err (Integrity "existing container record for {object_id} differs from candidate -- this repository is format 6, which holds one record per object id; `prikk format upgrade` moves it to format 7, where another signer's copy merges")
        else
          let? union := foldM merge_signature existing_envelope (signatures envelope) in
          if Nat.eqb (length (signatures union)) (length (signatures existing_envelope))
          then Ok (WriteAlreadyPresent (object_id envelope))
          else Ok (WriteMerge union)
  end.
End file_store.

(** ** The in-memory store (memory_store.rs) *)

Definition MemoryObjectStore : Type := gmap (list byte) ObjectEnvelope.

Definition memory_new : MemoryObjectStore := ∅.

Definition memory_reader (store : MemoryObjectStore) : ObjectReader := fun id => Ok (store !! id).

Definition memory_write_object `{Sha256} (store : MemoryObjectStore) (envelope : ObjectEnvelope)
  : PResult (ObjectId * MemoryObjectStore) :=
  let? _ := validate_strict envelope in
  let id := object_id envelope in
  Ok (id, <[id := envelope]> store).

(** ** Lemmas *)

#[global] Instance index_reader_lawful `{Sha256} format read_at lookup :
  LawfulReader (index_reader format read_at lookup).
Proof.
  intros id e. unfold read_object, index_reader, read_object_at_entry. intros Hr.
  destruct (lookup id) as [[entry|]|]; [|inv_ok; done..].
  destruct (read_at entry) as [env|]; [|done].
  destruct (bool_decide_reflect (object_id env = id)); [|done].
  destruct (bool_decide (object_type env = ie_object_type entry)); [|done]. cbn [negb] in Hr.
  unfold validate_read_schema in Hr. destruct format, (validate_strict env); try done;
    destruct (validate_format2_schema env) as [[]|] eqn:Hf; try done; inv_ok; simplify_eq; done.
Qed.

(** A lawful reader returns blobs at schema 1 only. *)
Lemma lawful_blob `{Sha256} `{R : ObjectReader} `{!LawfulReader R} id e :
  read_typed id Blob = Ok (Some e) ->
  from_canonical_payload Blob 1 (canonical_payload e) = id.
Proof.
  unfold read_typed. intros Hr. destruct (read_object id) as [[env|]|] eqn:Ho; [|inv_ok; done..].
  destruct (bool_decide_reflect (object_type env = Blob)) as [Ht|]; [|done]. cbn [negb] in Hr.
  inv_ok. simplify_eq. destruct (lawful_read id e Ho) as [<- Hs].
  unfold validate_format2_schema in Hs. rewrite Ht in Hs. cbn in Hs. unfold object_id. rewrite Ht.
  destruct (Z.eqb_spec (schema_version e) 1) as [->|]; [done|]. done.
Qed.

(** [u'] holds exactly the signatures of [u] and, up to their canonical tuple, those of [l]. *)
Definition union_of (u : ObjectEnvelope) (l : list Signature) (u' : ObjectEnvelope) : Prop :=
  object_type u' = object_type u /\ schema_version u' = schema_version u /\
  canonical_payload u' = canonical_payload u /\
  (forall s, s ∈ signatures u -> s ∈ signatures u') /\
  (forall s, s ∈ l -> exists t, t ∈ signatures u' /\ same_tuple t s) /\
  (forall t, t ∈ signatures u' -> t ∈ signatures u \/ t ∈ l).

(** [u'] has more signatures than [u], and some signature of [l] has a tuple [u] does not hold. *)
Definition grows (u : ObjectEnvelope) (l : list Signature) (u' : ObjectEnvelope) : Prop :=
  (length (signatures u) < length (signatures u'))%nat /\
  exists s, s ∈ l /\ forall t, t ∈ signatures u -> ~ same_tuple t s.

Lemma merge_signature_spec `{Sha256} u s :
  strict_envelope u -> Signature_validate s = Ok tt -> Signature_validate_shape s = Ok tt ->
  exists u', merge_signature u s = Ok u' /\ strict_envelope u' /\ union_of u [s] u' /\
    (u' = u \/ grows u [s] u').
Proof.
  intros Hu Hv Hsh. unfold merge_signature.
  destruct (is_ok (binary_search_by canonical_cmp s (signatures u))) eqn:Hb.
  - exists u. split_and!; [done|done| |by left]. destruct (binary_search_by _ _ _) as [i|] eqn:Hi; [|done].
    apply binary_search_by_ok in Hi as (t & Ht & Heq). apply canonical_cmp_eq in Heq.
    split_and!; [done|done|done|done| |by left].
    intros s' ->%list_elem_of_singleton. exists t. split; [by eapply list_elem_of_lookup_2|done].
  - destruct (add_signature_total u s) as (u' & Ha & Ht & Hz & Hp); try done.
    destruct (add_signature_spec u s u' Ha) as (_ & Hst & Hperm & Hno). exists u'.
    split_and!; [done|by apply validate_strict_iff| |].
    2: { right. split; [rewrite Hperm; cbn; lia|]. exists s. split; [by left|]. by apply Forall_forall. }
    split_and!; [done|done|done|..].
    + intros t Hin. rewrite Hperm. by right.
    + intros t ->%list_elem_of_singleton. exists s. rewrite Hperm. split; [by left|]. by unfold same_tuple.
    + intros t. rewrite Hperm. intros [->|?]%elem_of_cons; [right; by left|by left].
Qed.

Lemma union_of_trans u s u1 l u2 : union_of u [s] u1 -> union_of u1 l u2 -> union_of u (s :: l) u2.
Proof.
  intros (Ht1 & Hz1 & Hp1 & Hk1 & Hc1 & Ho1) (Ht & Hz & Hp & Hk2 & Hc2 & Ho2).
  split_and!; [congruence..| | |].
  - intros t Hin. by apply Hk2, Hk1.
  - intros t [->|Hin]%elem_of_cons; [|by apply Hc2]. destruct (Hc1 s) as (t & Hin & Hs); [by left|].
    exists t. split; [by apply Hk2|done].
  - intros t [[?|Hs]%Ho1|?]%Ho2; [by left| |right; by right].
    apply list_elem_of_singleton in Hs as ->. right. by left.
Qed.

Lemma merge_fold_spec `{Sha256} l : forall u,
  strict_envelope u -> Forall (fun s => Signature_validate s = Ok tt /\ Signature_validate_shape s = Ok tt) l ->
  exists u', foldM merge_signature u l = Ok u' /\ strict_envelope u' /\ union_of u l u' /\
    (u' = u \/ grows u l u').
Proof.
  induction l as [|s l IH]; intros u Hu Hl; cbn [foldM].
  { exists u. split_and!; [done|done| |by left]. split_and!; try done; [by intros ? ?%elem_of_nil|by left]. }
  apply Forall_cons in Hl as [[Hv Hsh] Hl].
  destruct (merge_signature_spec u s Hu Hv Hsh) as (u1 & -> & Hu1 & Hun & Hlen).
  destruct (IH u1 Hu1 Hl) as (u2 & -> & Hu2 & Hun2 & Hlen2). exists u2.
  split_and!; [done|done|by eapply union_of_trans|].
  destruct Hlen as [->|[Hlen (t & Ht%list_elem_of_singleton & Hno)]]; [|right; subst t].
  - destruct Hlen2 as [->|[Hlen2 (t & Ht & Hno)]]; [by left|right]. split; [done|]. exists t. by split; [right|].
  - split; [destruct Hlen2 as [->|[Hlen2 _]]; lia|]. exists s. by split; [left|].
Qed.

(** ** Properties *)

(** In a format-7 repository, writing an envelope whose identity is already stored never loses a
    signature and never changes the object.  When the stored record and the candidate are strict and
    agree on type, schema and payload, the decision always exists: the record is left alone exactly
    if it holds every candidate signature's tuple, and otherwise it is superseded by a strict
    envelope of the same identity that holds all stored signatures, a signature for every candidate
    tuple, nothing else, and at least one signature more than before. *)
Theorem write_decision_keeps_signatures `{Sha256} read_at entry envelope stored :
  read_at entry = Ok stored -> ie_object_type entry = object_type envelope ->
  validate_strict stored = Ok tt -> validate_strict envelope = Ok tt ->
  object_type stored = object_type envelope -> schema_version stored = schema_version envelope ->
  canonical_payload stored = canonical_payload envelope ->
  match decide_write_outcome V7 read_at (object_type envelope) envelope (Some entry) with
  | Ok (WriteAlreadyPresent id) =>
      id = object_id envelope /\
      forall s, s ∈ signatures envelope -> exists t, t ∈ signatures stored /\ same_tuple t s
  | Ok (WriteMerge u) =>
      object_id u = object_id envelope /\ validate_strict u = Ok tt /\
      union_of stored (signatures envelope) u /\
      grows stored (signatures envelope) u
  | Ok WriteNew | Err _ => False
  end.
Proof.
  intros Hr Ht Hs%validate_strict_iff He%validate_strict_iff Hty Hsc Hpl. unfold decide_write_outcome.
  rewrite (bool_decide_eq_true_2 _ Ht), Hr. cbn [negb]. destruct (bool_decide_reflect (stored = envelope)) as [->|Hne].
  { split; [done|]. intros s Hin. exists s. split; [done|by unfold same_tuple]. }
  rewrite (bool_decide_eq_true_2 _ Hty), Hsc, Z.eqb_refl, (bool_decide_eq_true_2 _ Hpl). cbn [negb orb].
  rewrite (bool_decide_eq_false_2 (V7 = CurrentV6)) by done.
  destruct (merge_fold_spec (signatures envelope) stored Hs) as (u & -> & Hu & Hun & Hlen); [apply He|].
  destruct (Nat.eqb_spec (length (signatures u)) (length (signatures stored))) as [Heq|Hneq].
  - destruct Hlen as [->|[? _]]; [|lia]. split; [done|]. apply Hun.
  - destruct Hlen as [->|Hlen]; [done|]. pose proof Hun as (H1 & H2 & H3 & _ & _ & Ho).
    split_and!; [unfold object_id; congruence|by apply validate_strict_iff|done|done].
Qed.

Definition merge_entry : IndexEntry := mkIndexEntry (replicate 32 x00) Blob SlotA 0 0 [].

(** The stored record has one signer, the candidate another. *)
Lemma write_decision_keeps_signatures_witness :
  match @decide_write_outcome hash_mod_p V7 (fun _ => Ok (mkEnvelope Blob 1 [x00] [witness_signature x62])) Blob
          (mkEnvelope Blob 1 [x00] [witness_signature x61]) (Some merge_entry) with
  | Ok (WriteMerge u) => validate_strict u = Ok tt /\ (1 < length (signatures u))%nat
  | _ => False
  end.
Proof.
  pose proof (@write_decision_keeps_signatures hash_mod_p
    (fun _ => Ok (mkEnvelope Blob 1 [x00] [witness_signature x62])) merge_entry
    (mkEnvelope Blob 1 [x00] [witness_signature x61]) (mkEnvelope Blob 1 [x00] [witness_signature x62])
    eq_refl eq_refl ltac:(by vm_compute) ltac:(by vm_compute) eq_refl eq_refl eq_refl) as Hd.
  assert (match @decide_write_outcome hash_mod_p V7
            (fun _ => Ok (mkEnvelope Blob 1 [x00] [witness_signature x62])) Blob
            (mkEnvelope Blob 1 [x00] [witness_signature x61]) (Some merge_entry) with
          | Ok (WriteMerge _) => true | _ => false end = true) as Hm by (by vm_compute).
  cbn [object_type] in Hd. destruct (decide_write_outcome _ _ _ _ _) as [[| |u]|]; try done.
  destruct Hd as (_ & Hs & _ & [Hl _]). split; [exact Hs|exact Hl].
Defined.
