(* ===== verification/PatchDecode.v ===== *)
(** * The patch decoder (crates/prikk-store/src/patch_replay/decode.rs, decode/operations.rs, decode/tlv.rs)

    The decoder every importer and replay path shares.  [TlvCursor] is the cursor of [Cursor.v]
    reporting [MalformedData]; a record decoder is a step folded over the record's fields followed
    by the checks on the collected slots. *)

From S2P Require Import Prelude PrikkError Hash Utf8 Canonical Cursor ObjectId RepoPath Payload.
From S2P Require Import Lifecycle Patch.

(** ** Fields (tlv.rs) *)

Definition TlvCursor_next_field := next_field MalformedData.
Definition TlvField_require_wire := require_wire MalformedData.
Definition TlvField_read_array := field_read_array MalformedData.
Definition TlvField_read_string := read_string MalformedData.
Definition TlvField_read_u32 := read_u32 MalformedData.
Definition TlvField_read_u16 := read_enum_u16 MalformedData.
Definition TlvField_read_object_id_typed := read_object_id MalformedData.
Definition TlvField_read_bytes_vec := read_bytes MalformedData.

Definition TlvField_read_repo_path (f : Field) : PResult (list byte) :=
  let? _ := TlvField_require_wire f WireRepoPath in
  if from_utf8 (value f) then Ok (value f)
  else Err (MalformedData "invalid UTF-8 repo_path: {err}").

Definition TlvField_read_node_id (f : Field) : PResult NodeId :=
  let? _ := TlvField_require_wire f WireBytes in
  let? bs := TlvField_read_array f 32 in
  NodeId_try_from_bytes bs.

Definition TlvField_read_node_kind (f : Field) : PResult NodeKind :=
  let? _ := TlvField_require_wire f WireEnumU16 in
  let? bs := TlvField_read_array f 2 in
  NodeKind_from_code (from_be_bytes bs).

Definition TlvField_read_span_hash (f : Field) : PResult (list byte) :=
  let? _ := TlvField_require_wire f WireBytes in
  TlvField_read_array f TEXT_SPAN_HASH_BYTES.

(** ** Decoded operations (decode.rs) *)

Inductive DecodedDeletePreimage : Type :=
| DecodedFile (old_node_kind : NodeKind) (old_blob_id : list byte) (old_mode : Z)
| DecodedSymlink (old_target : list byte).

Inductive DecodedOperationKind : Type :=
| DCreateFile (path : list byte) (node_id blob_id : list byte) (mode : Z)
| DDeleteNode (path : list byte) (node_id : list byte) (preimage : DecodedDeletePreimage)
| DEditText (node_id span_id old_span_hash left_anchor_hash right_anchor_hash : list byte)
    (replacement_text old_span_text : list byte) (left_anchor_len right_anchor_len : option Z)
| DReplaceBinary (node_id old_blob_id new_blob_id : list byte)
| DRenamePath (node_id old_path new_path : list byte)
| DChangePerm (node_id : list byte) (old_mode new_mode : Z)
| DCreateSymlink (path node_id target : list byte).

Record DecodedPatchOperation : Type := mkDecoded {
  d_op_seq : Z;
  d_kind : DecodedOperationKind;
  d_patch_id : option ObjectId;
}.

Definition unsupported_operation (name : string) : PrikkError :=
  UnsupportedObjectType ("patch replay plan does not yet support " +:+ name +:+
    "; patch algebra remains a later increment").

Definition ensure_apply_supported (operation : DecodedPatchOperation) : PResult unit :=
  match d_kind operation with
  | DCreateFile _ _ _ _
  | DDeleteNode _ _ (DecodedFile _ _ _)
  | DEditText _ _ _ _ _ _ _ _ _
  | DReplaceBinary _ _ _
  | DChangePerm _ _ _
  | DRenamePath _ _ _ => Ok tt
  | DDeleteNode _ _ (DecodedSymlink _) => Err (unsupported_operation "DeleteNode(symlink)")
  | DCreateSymlink _ _ _ =>
      Err (unsupported_operation "CreateSymlink (apply pending a symlink authoring path)")
  end.

Definition applied_operation_kind_label (kind : DecodedOperationKind) : string :=
  match kind with
  | DCreateFile _ _ _ _ => "create-file"
  | DDeleteNode _ _ _ => "delete-node"
  | DEditText _ _ _ _ _ _ _ _ _ => "edit-text"
  | DReplaceBinary _ _ _ => "replace-binary"
  | DChangePerm _ _ _ => "change-perm"
  | DRenamePath _ _ _ => "rename-path"
  | DCreateSymlink _ _ _ => "create-symlink"
  end.

(** ** Record decoders (decode/operations.rs) *)

(** [if slot.is_some() { return Err(duplicate) } slot = Some(read?)]. *)
Definition once {A} (slot : option A) (duplicate : string) (read : PResult A) : PResult (option A) :=
  if is_some slot then Err (MalformedData duplicate) else let? v := read in Ok (Some v).

Definition create_file_step (a : option (list byte) * option NodeId * option ObjectId * option Z)
    (field : Field) : PResult (option (list byte) * option NodeId * option ObjectId * option Z) :=
  let '(path, node_id, blob_id, mode) := a in
  if tag field =? 1 then
    let? path := once path "duplicate CreateFile path field" (TlvField_read_repo_path field) in
    Ok (path, node_id, blob_id, mode)
  else if tag field =? 2 then
    let? node_id := once node_id "duplicate CreateFile node_id field" (TlvField_read_node_id field) in
    Ok (path, node_id, blob_id, mode)
  else if tag field =? 3 then
    let? blob_id := once blob_id "duplicate CreateFile blob_id field"
                      (TlvField_read_object_id_typed field) in
    Ok (path, node_id, blob_id, mode)
  else if tag field =? 4 then
    let? mode := once mode "duplicate CreateFile mode field" (TlvField_read_u32 field) in
    Ok (path, node_id, blob_id, mode)
  else Err (MalformedData "unknown CreateFile field tag: {other}").

Definition decode_create_file (bytes : list byte) : PResult DecodedOperationKind :=
  let? '(path, node_id, blob_id, mode) :=
    decode_fields MalformedData create_file_step (None, None, None, None) bytes in
  let? path := ok_or path (MalformedData "CreateFile missing path") in
  let? _ := RepoPath_parse path in
  let? node_id := ok_or node_id (MalformedData "CreateFile missing node_id") in
  let? blob_id := ok_or blob_id (MalformedData "CreateFile missing blob_id") in
  let? mode := ok_or mode (MalformedData "CreateFile missing mode") in
  if negb (is_canonical_file_mode mode)
  then Err (MalformedData "CreateFile mode {mode:#o} is not one of prikk's canonical file modes")
  else Ok (DCreateFile path node_id blob_id mode).

Record DeleteAcc : Type := mkDeleteAcc {
  da_path : option (list byte);
  da_node_id : option NodeId;
  da_kind : option NodeKind;
  da_blob : option ObjectId;
  da_target : option (list byte);
  da_mode : option Z;
}.

Definition delete_node_step (a : DeleteAcc) (field : Field) : PResult DeleteAcc :=
  let '(mkDeleteAcc path node_id kind blob target mode) := a in
  if tag field =? 1 then
    let? path := once path "duplicate DeleteNode path field" (TlvField_read_repo_path field) in
    Ok (mkDeleteAcc path node_id kind blob target mode)
  else if tag field =? 2 then
    let? node_id := once node_id "duplicate DeleteNode node_id field" (TlvField_read_node_id field) in
    Ok (mkDeleteAcc path node_id kind blob target mode)
  else if tag field =? 3 then
    let? kind := once kind "duplicate DeleteNode old_node_kind field" (TlvField_read_node_kind field) in
    Ok (mkDeleteAcc path node_id kind blob target mode)
  else if tag field =? 4 then
    let? blob := once blob "duplicate DeleteNode old_blob_id field"
                   (TlvField_read_object_id_typed field) in
    Ok (mkDeleteAcc path node_id kind blob target mode)
  else if tag field =? 5 then
    let? target := once target "duplicate DeleteNode old_target field" (TlvField_read_string field) in
    Ok (mkDeleteAcc path node_id kind blob target mode)
  else if tag field =? 6 then
    let? mode := once mode "duplicate DeleteNode old_mode field" (TlvField_read_u32 field) in
    Ok (mkDeleteAcc path node_id kind blob target mode)
  else Err (MalformedData "unknown DeleteNode field tag: {other}").

(** The discriminator: which preimage fields each node kind carries. *)
Definition delete_node_preimage (kind : NodeKind) (blob : option ObjectId)
    (target : option (list byte)) (mode : option Z) : PResult DecodedDeletePreimage :=
  match kind with
  | TextFile | BinaryFile =>
      if is_some target then Err (MalformedData "DeleteNode file kind must not carry old_target")
      else
        let? old_blob_id := ok_or blob (MalformedData "DeleteNode file kind missing old_blob_id") in
        let? old_mode := ok_or mode (MalformedData "DeleteNode file kind missing old_mode") in
        if negb (is_canonical_file_mode old_mode)
        then Err (MalformedData
               "DeleteNode old_mode {old_mode:#o} is not one of prikk's canonical file modes")
        else Ok (DecodedFile kind old_blob_id old_mode)
  | SymlinkKind =>
      if is_some blob || is_some mode
      then Err (MalformedData "DeleteNode symlink kind must not carry old_blob_id/old_mode")
      else
        let? old_target := ok_or target (MalformedData "DeleteNode symlink kind missing old_target") in
        Ok (DecodedSymlink old_target)
  end.

Definition decode_delete_node (bytes : list byte) : PResult DecodedOperationKind :=
  let? a := decode_fields MalformedData delete_node_step
              (mkDeleteAcc None None None None None None) bytes in
  let? path := ok_or (da_path a) (MalformedData "DeleteNode missing path") in
  let? _ := RepoPath_parse path in
  let? node_id := ok_or (da_node_id a) (MalformedData "DeleteNode missing node_id") in
  let? old_node_kind := ok_or (da_kind a) (MalformedData "DeleteNode missing old_node_kind") in
  let? preimage := delete_node_preimage old_node_kind (da_blob a) (da_target a) (da_mode a) in
  Ok (DDeleteNode path node_id preimage).

Record EditAcc : Type := mkEditAcc {
  ea_node_id : option NodeId;
  ea_span_id : option (list byte);
  ea_old_span_hash : option (list byte);
  ea_left_anchor_hash : option (list byte);
  ea_right_anchor_hash : option (list byte);
  ea_replacement : option (list byte);
  ea_old_span_text : option (list byte);
  ea_left_len : option Z;
  ea_right_len : option Z;
}.

(** The schema gate of tags 10 and 11, after the duplicate check and before the read. *)
Definition anchor_len_read (schema_version : Z) (what : string) (field : Field) : PResult Z :=
  if schema_version <? PATCH_TEXT_SPAN_V2_SCHEMA then Err (MalformedData what)
  else TlvField_read_u32 field.

Definition edit_text_step (schema_version : Z) (a : EditAcc) (field : Field) : PResult EditAcc :=
  let '(mkEditAcc node_id span_id old_hash left_hash right_hash replacement old_text left_len
          right_len) := a in
  if tag field =? 1 then
    let? node_id := once node_id "duplicate EditText node_id field" (TlvField_read_node_id field) in
    Ok (mkEditAcc node_id span_id old_hash left_hash right_hash replacement old_text left_len right_len)
  else if tag field =? 2 then
    let? span_id := once span_id "duplicate EditText span_id field" (TlvField_read_span_hash field) in
    Ok (mkEditAcc node_id span_id old_hash left_hash right_hash replacement old_text left_len right_len)
  else if tag field =? 3 then
    let? old_hash := once old_hash "duplicate EditText old_span_hash field"
                       (TlvField_read_span_hash field) in
    Ok (mkEditAcc node_id span_id old_hash left_hash right_hash replacement old_text left_len right_len)
  else if tag field =? 4 then
    let? left_hash := once left_hash "duplicate EditText left_anchor_hash field"
                        (TlvField_read_span_hash field) in
    Ok (mkEditAcc node_id span_id old_hash left_hash right_hash replacement old_text left_len right_len)
  else if tag field =? 5 then
    let? right_hash := once right_hash "duplicate EditText right_anchor_hash field"
                         (TlvField_read_span_hash field) in
    Ok (mkEditAcc node_id span_id old_hash left_hash right_hash replacement old_text left_len right_len)
  else if tag field =? 6 then
    let? replacement := once replacement "duplicate EditText replacement_text field"
                          (TlvField_read_bytes_vec field) in
    Ok (mkEditAcc node_id span_id old_hash left_hash right_hash replacement old_text left_len right_len)
  else if (tag field =? 7) || (tag field =? 8) then
    let? _ := TlvField_read_u32 field in Ok a
  else if tag field =? 9 then
    let? old_text := once old_text "duplicate EditText old_span_text field"
                       (TlvField_read_bytes_vec field) in
    Ok (mkEditAcc node_id span_id old_hash left_hash right_hash replacement old_text left_len right_len)
  else if tag field =? 10 then
    let? left_len := once left_len "duplicate EditText left_anchor_len field"
                       (anchor_len_read schema_version
                          "Patch schema {schema_version} must not carry EditText left_anchor_len (tag 10); requires schema {PATCH_TEXT_SPAN_V2_SCHEMA}" field) in
    Ok (mkEditAcc node_id span_id old_hash left_hash right_hash replacement old_text left_len right_len)
  else if tag field =? 11 then
    let? right_len := once right_len "duplicate EditText right_anchor_len field"
                        (anchor_len_read schema_version
                           "Patch schema {schema_version} must not carry EditText right_anchor_len (tag 11); requires schema {PATCH_TEXT_SPAN_V2_SCHEMA}" field) in
    Ok (mkEditAcc node_id span_id old_hash left_hash right_hash replacement old_text left_len right_len)
  else Err (MalformedData "unknown EditText field tag: {other}").

Definition edit_text_finish `{Sha256} (a : EditAcc) : PResult DecodedOperationKind :=
  let? node_id := ok_or (ea_node_id a) (MalformedData "EditText missing node_id") in
  let? span_id := ok_or (ea_span_id a) (MalformedData "EditText missing span_id") in
  let? left_hash := ok_or (ea_left_anchor_hash a) (MalformedData "EditText missing left_anchor_hash") in
  let? right_hash := ok_or (ea_right_anchor_hash a) (MalformedData "EditText missing right_anchor_hash") in
  let? old_hash := ok_or (ea_old_span_hash a) (MalformedData "EditText missing old_span_hash") in
  let? replacement := ok_or (ea_replacement a) (MalformedData "EditText missing replacement_text") in
  let? old_text := ok_or (ea_old_span_text a) (MalformedData "EditText missing old_span_text") in
  if negb (bool_decide (old_hash = text_span_hash old_text))
  then Err (MalformedData "EditText old_span_hash != SHA-256(old_span_text)")
  else if negb (from_utf8 old_text)
  then Err (MalformedData "EditText old_span_text is not well-formed UTF-8")
  else if negb (from_utf8 replacement)
  then Err (MalformedData "EditText replacement_text is not well-formed UTF-8")
  else
    let? _ := check_anchor_lens MalformedData (ea_left_len a) (ea_right_len a) in
    Ok (DEditText node_id span_id old_hash left_hash right_hash replacement old_text (ea_left_len a)
          (ea_right_len a)).

Definition decode_edit_text `{Sha256} (bytes : list byte) (schema_version : Z)
  : PResult DecodedOperationKind :=
  let? a := decode_fields MalformedData (edit_text_step schema_version)
              (mkEditAcc None None None None None None None None None) bytes in
  edit_text_finish a.

Definition rename_path_step (a : option NodeId * option (list byte) * option (list byte))
    (field : Field) : PResult (option NodeId * option (list byte) * option (list byte)) :=
  let '(node_id, old_path, new_path) := a in
  if tag field =? 1 then
    let? node_id := once node_id "duplicate RenamePath node_id field" (TlvField_read_node_id field) in
    Ok (node_id, old_path, new_path)
  else if tag field =? 2 then
    let? old_path := once old_path "duplicate RenamePath old_path field" (TlvField_read_repo_path field) in
    Ok (node_id, old_path, new_path)
  else if tag field =? 3 then
    let? new_path := once new_path "duplicate RenamePath new_path field" (TlvField_read_repo_path field) in
    Ok (node_id, old_path, new_path)
  else Err (MalformedData "unknown RenamePath field tag: {other}").

Definition decode_rename_path (bytes : list byte) : PResult DecodedOperationKind :=
  let? '(node_id, old_path, new_path) :=
    decode_fields MalformedData rename_path_step (None, None, None) bytes in
  let? node_id := ok_or node_id (MalformedData "RenamePath missing node_id") in
  let? old_path := ok_or old_path (MalformedData "RenamePath missing old_path") in
  let? new_path := ok_or new_path (MalformedData "RenamePath missing new_path") in
  let? _ := RepoPath_parse old_path in
  let? _ := RepoPath_parse new_path in
  Ok (DRenamePath node_id old_path new_path).

Definition change_perm_step (a : option NodeId * option Z * option Z) (field : Field)
  : PResult (option NodeId * option Z * option Z) :=
  let '(node_id, old_mode, new_mode) := a in
  if tag field =? 1 then
    let? node_id := once node_id "duplicate ChangePerm node_id field" (TlvField_read_node_id field) in
    Ok (node_id, old_mode, new_mode)
  else if tag field =? 2 then
    let? old_mode := once old_mode "duplicate ChangePerm old_mode field" (TlvField_read_u32 field) in
    Ok (node_id, old_mode, new_mode)
  else if tag field =? 3 then
    let? new_mode := once new_mode "duplicate ChangePerm new_mode field" (TlvField_read_u32 field) in
    Ok (node_id, old_mode, new_mode)
  else Err (MalformedData "unknown ChangePerm field tag: {other}").

Definition decode_change_perm (bytes : list byte) : PResult DecodedOperationKind :=
  let? '(node_id, old_mode, new_mode) :=
    decode_fields MalformedData change_perm_step (None, None, None) bytes in
  let? node_id := ok_or node_id (MalformedData "ChangePerm missing node_id") in
  let? old_mode := ok_or old_mode (MalformedData "ChangePerm missing old_mode") in
  let? new_mode := ok_or new_mode (MalformedData "ChangePerm missing new_mode") in
  if negb (is_canonical_file_mode old_mode)
  then Err (MalformedData "ChangePerm old_mode {old_mode:#o} is not one of prikk's canonical file modes")
  else if negb (is_canonical_file_mode new_mode)
  then Err (MalformedData "ChangePerm new_mode {new_mode:#o} is not one of prikk's canonical file modes")
  else Ok (DChangePerm node_id old_mode new_mode).

Definition create_symlink_step (a : option (list byte) * option NodeId * option (list byte))
    (field : Field) : PResult (option (list byte) * option NodeId * option (list byte)) :=
  let '(path, node_id, target) := a in
  if tag field =? 1 then
    let? path := once path "duplicate CreateSymlink path field" (TlvField_read_repo_path field) in
    Ok (path, node_id, target)
  else if tag field =? 2 then
    let? node_id := once node_id "duplicate CreateSymlink node_id field" (TlvField_read_node_id field) in
    Ok (path, node_id, target)
  else if tag field =? 3 then
    let? target := once target "duplicate CreateSymlink target field" (TlvField_read_string field) in
    Ok (path, node_id, target)
  else Err (MalformedData "unknown CreateSymlink field tag: {other}").

Definition decode_create_symlink (bytes : list byte) : PResult DecodedOperationKind :=
  let? '(path, node_id, target) :=
    decode_fields MalformedData create_symlink_step (None, None, None) bytes in
  let? path := ok_or path (MalformedData "CreateSymlink missing path") in
  let? node_id := ok_or node_id (MalformedData "CreateSymlink missing node_id") in
  let? target := ok_or target (MalformedData "CreateSymlink missing target") in
  let? _ := RepoPath_parse path in
  Ok (DCreateSymlink path node_id target).

Definition replace_binary_step (a : option NodeId * option ObjectId * option ObjectId) (field : Field)
  : PResult (option NodeId * option ObjectId * option ObjectId) :=
  let '(node_id, old_blob_id, new_blob_id) := a in
  if tag field =? 1 then
    let? node_id := once node_id "duplicate ReplaceBinary node_id field" (TlvField_read_node_id field) in
    Ok (node_id, old_blob_id, new_blob_id)
  else if tag field =? 2 then
    let? old_blob_id := once old_blob_id "duplicate ReplaceBinary old_blob_id field"
                          (TlvField_read_object_id_typed field) in
    Ok (node_id, old_blob_id, new_blob_id)
  else if tag field =? 3 then
    let? new_blob_id := once new_blob_id "duplicate ReplaceBinary new_blob_id field"
                          (TlvField_read_object_id_typed field) in
    Ok (node_id, old_blob_id, new_blob_id)
  else Err (MalformedData "unknown ReplaceBinary field tag: {other}").

Definition decode_replace_binary (bytes : list byte) : PResult DecodedOperationKind :=
  let? '(node_id, old_blob_id, new_blob_id) :=
    decode_fields MalformedData replace_binary_step (None, None, None) bytes in
  let? node_id := ok_or node_id (MalformedData "ReplaceBinary missing node_id") in
  let? old_blob_id := ok_or old_blob_id (MalformedData "ReplaceBinary missing old_blob_id") in
  let? new_blob_id := ok_or new_blob_id (MalformedData "ReplaceBinary missing new_blob_id") in
  Ok (DReplaceBinary node_id old_blob_id new_blob_id).

(** ** Operations and patches (decode.rs) *)

Definition operation_step (a : option Z * option (Z * list byte)) (field : Field)
  : PResult (option Z * option (Z * list byte)) :=
  let '(op_seq, kind) := a in
  if tag field =? 1 then
    let? op_seq := once op_seq "duplicate Operation op_seq field" (TlvField_read_u32 field) in
    Ok (op_seq, kind)
  else if (tag field =? 2) || (tag field =? 3) then Ok (op_seq, kind)
  else if (10 <=? tag field) && (tag field <=? 16) then
    if is_some kind
    then Err (MalformedData "Operation carries multiple kind records: tag {first} and tag {}")
    else
      let? _ := TlvField_require_wire field WireRecord in
      Ok (op_seq, Some (tag field, value field))
  else Err (MalformedData "unknown Operation field tag: {other}").

(** The dispatch on the kind tag. *)
Definition decode_kind `{Sha256} (kind_tag : Z) (value : list byte) (schema_version : Z)
  : PResult DecodedOperationKind :=
  if kind_tag =? 10 then decode_create_file value
  else if kind_tag =? 11 then decode_delete_node value
  else if kind_tag =? 12 then decode_edit_text value schema_version
  else if kind_tag =? 13 then decode_rename_path value
  else if kind_tag =? 14 then decode_change_perm value
  else if kind_tag =? 15 then decode_create_symlink value
  else if kind_tag =? 16 then decode_replace_binary value
  else Err (MalformedData "Operation kind tag {kind_tag} is outside the constrained 10..=16 range").

Definition decode_operation `{Sha256} (bytes : list byte) (index : nat) (schema_version : Z)
  : PResult DecodedPatchOperation :=
  let? '(op_seq, kind) := decode_fields MalformedData operation_step (None, None) bytes in
  let? op_seq := ok_or op_seq (MalformedData "Operation missing op_seq") in
  if negb (op_seq =? Z.of_nat index + 1)
  then Err (MalformedData "operation op_seq {op_seq} does not match physical position {} (expected {})")
  else
    let? '(kind_tag, value) := ok_or kind (MalformedData "Operation missing kind") in
    let? kind := decode_kind kind_tag value schema_version in
    Ok (mkDecoded op_seq kind None).

Definition patch_operations_step `{Sha256} (schema_version : Z)
    (operations : list DecodedPatchOperation) (field : Field) : PResult (list DecodedPatchOperation) :=
  if tag field =? 1 then
    let? _ := TlvField_require_wire field WireRecordListItem in
    let index := length operations in
    let? operation := decode_operation (value field) index schema_version in
    Ok (operations ++ [operation])
  else if tag field =? 2 then
    if PATCH_PARENT_IDS_RETIRED_SCHEMA <=? schema_version
    then Err (MalformedData "Patch schema {schema_version} must not carry parent_patch_ids (tag 2); retired at schema {PATCH_PARENT_IDS_RETIRED_SCHEMA}")
    else Ok operations
  else if (tag field =? 3) || (tag field =? 4) then Ok operations
  else if tag field =? 5 then
    let? _ := TlvField_require_wire field WireEnumU16 in
    let? _ := TlvField_read_u16 field in
    Ok operations
  else if tag field =? 6 then
    if schema_version <? PATCH_MESSAGE_SCHEMA
    then Err (MalformedData "Patch schema {schema_version} must not carry message (tag 6); requires schema {PATCH_MESSAGE_SCHEMA}")
    else
      let? _ := TlvField_require_wire field WireString in
      let? _ := TlvField_read_string field in
      Ok operations
  else Err (MalformedData "unknown Patch field tag: {other}").

Definition decode_patch_operations `{Sha256} (bytes : list byte) (schema_version : Z)
  : PResult (list DecodedPatchOperation) :=
  let? _ := map_err (fun _ => MalformedData "invalid PatchPurpose canonical form: {err}")
              (decode_from_patch_payload bytes) in
  let? operations := decode_fields MalformedData (patch_operations_step schema_version) [] bytes in
  if Nat.eqb (length operations) 0 then Err (MalformedData "Patch missing operations")
  else Ok operations.

Definition decode_patch_operations_for_admission `{Sha256} (canonical_payload : list byte)
    (schema_version : Z) : PResult (list DecodedPatchOperation) :=
  decode_patch_operations canonical_payload schema_version.

(** The blobs one operation references. *)
Definition operation_blob_ids (kind : DecodedOperationKind) : list ObjectId :=
  match kind with
  | DCreateFile _ _ blob_id _ => [blob_id]
  | DReplaceBinary _ old_blob_id new_blob_id => [old_blob_id; new_blob_id]
  | DDeleteNode _ _ (DecodedFile _ old_blob_id _) => [old_blob_id]
  | DDeleteNode _ _ _ | DEditText _ _ _ _ _ _ _ _ _ | DRenamePath _ _ _ | DChangePerm _ _ _
  | DCreateSymlink _ _ _ => []
  end.

Definition patch_referenced_blob_ids `{Sha256} (bytes : list byte) (schema_version : Z)
  : PResult (list ObjectId) :=
  let? operations := decode_patch_operations bytes schema_version in
  Ok (fold_left (fun blob_ids operation => blob_ids ++ operation_blob_ids (d_kind operation))
        operations []).

Definition parent_ids_step (parent_patch_ids : list ObjectId) (field : Field)
  : PResult (list ObjectId) :=
  if tag field =? 2 then
    let? id := TlvField_read_object_id_typed field in Ok (parent_patch_ids ++ [id])
  else Ok parent_patch_ids.

Definition decode_patch_parent_ids (bytes : list byte) : PResult (list ObjectId) :=
  decode_fields MalformedData parent_ids_step [] bytes.

Definition message_step (schema_version : Z) (message : option (list byte)) (field : Field)
  : PResult (option (list byte)) :=
  if tag field =? 6 then
    if schema_version <? PATCH_MESSAGE_SCHEMA
    then Err (MalformedData "Patch schema {schema_version} must not carry message (tag 6); requires schema {PATCH_MESSAGE_SCHEMA}")
    else if is_some message then Err (MalformedData "duplicate Patch message field")
    else
      let? value := TlvField_read_string field in
      if bool_decide (value = []) then Err (MalformedData "Patch message must not be empty")
      else Ok (Some value)
  else Ok message.

Definition decode_patch_message (bytes : list byte) (schema_version : Z)
  : PResult (option (list byte)) :=
  decode_fields MalformedData (message_step schema_version) None bytes.
