(* ===== verification/PatchTheorems.v ===== *)
(** * The patch encoder and the patch decoder agree *)

From S2P Require Import Prelude PrikkError Hash Utf8 Canonical Cursor ObjectId RepoPath Payload Lifecycle Patch PatchDecode.


(** ** Readers *)

Definition wf_node_id (id : NodeId) : Prop := length id = NODE_ID_BYTES /\ id <> zero_node_id.

Lemma NodeId_nonzero id : NodeId_is_zero id = false <-> id <> zero_node_id.
Proof. unfold NodeId_is_zero. by rewrite bool_decide_eq_false. Qed.

Lemma read_repo_path_written t v :
  rust_string v -> TlvField_read_repo_path (wfield t WireRepoPath v) = Ok v.
Proof.
  intros Hv. unfold TlvField_read_repo_path, TlvField_require_wire. rewrite require_wire_written.
  cbn [value wfield]. by rewrite Hv.
Qed.

Lemma read_repo_path_inv f v :
  TlvField_read_repo_path f = Ok v -> f = wfield (tag f) WireRepoPath v /\ rust_string v.
Proof.
  unfold TlvField_read_repo_path, TlvField_require_wire. intros H.
  destruct (require_wire _ _ _) as [[]|] eqn:Hw; [|done]. apply require_wire_inv in Hw.
  destruct (from_utf8 (value f)) eqn:?; [|done]. by inv_ok.
Qed.

Lemma read_node_id_written t v :
  wf_node_id v -> TlvField_read_node_id (wfield t WireBytes v) = Ok v.
Proof.
  intros [Hl Hz]. unfold TlvField_read_node_id, TlvField_require_wire, TlvField_read_array.
  rewrite require_wire_written, field_read_array_written by done.
  unfold NodeId_try_from_bytes. by rewrite bool_decide_eq_false_2.
Qed.

Lemma read_node_id_inv f v :
  TlvField_read_node_id f = Ok v -> f = wfield (tag f) WireBytes v /\ wf_node_id v.
Proof.
  unfold TlvField_read_node_id, TlvField_require_wire, TlvField_read_array, NodeId_try_from_bytes.
  intros H. inv_ok. inv_readers. case_bool_decide; [done|]. inv_ok. by repeat split.
Qed.

Lemma read_node_kind_written t k :
  TlvField_read_node_kind (wfield t WireEnumU16 (to_be_bytes 2 (NodeKind_code k))) = Ok k.
Proof.
  unfold TlvField_read_node_kind, TlvField_require_wire, TlvField_read_array.
  rewrite require_wire_written, field_read_array_written by apply length_to_be_bytes.
  by destruct k.
Qed.

Lemma read_node_kind_inv f k :
  TlvField_read_node_kind f = Ok k ->
  f = wfield (tag f) WireEnumU16 (to_be_bytes 2 (NodeKind_code k)).
Proof.
  unfold TlvField_read_node_kind, TlvField_require_wire, TlvField_read_array. intros H. inv_ok.
  inv_readers. apply NodeKind_from_code_inv in H. rewrite <- H, to_from_be_bytes_len by done. done.
Qed.

Lemma read_span_hash_written t v :
  length v = 32%nat -> TlvField_read_span_hash (wfield t WireBytes v) = Ok v.
Proof.
  intros Hl. unfold TlvField_read_span_hash, TlvField_require_wire, TlvField_read_array.
  by rewrite require_wire_written, field_read_array_written.
Qed.

Lemma read_span_hash_inv f v :
  TlvField_read_span_hash f = Ok v -> f = wfield (tag f) WireBytes v /\ length v = 32%nat.
Proof.
  unfold TlvField_read_span_hash, TlvField_require_wire, TlvField_read_array. intros H. inv_ok.
  by inv_readers.
Qed.

Lemma once_inv {A} (slot : option A) d r o :
  once slot d r = Ok o -> slot = None /\ exists v, r = Ok v /\ o = Some v.
Proof. unfold once. intros H. destruct slot; [done|]. cbn in H. inv_ok. eauto. Qed.

Lemma once_set {A} d (v : A) : once None d (Ok v) = Ok (Some v).
Proof. reflexivity. Qed.

(** Run a record decoder's step on a written field. *)
Ltac run_tlv :=
  select_tag; cbn [orb andb]; unfold anchor_len_read;
  unfold TlvField_read_string, TlvField_read_u32, TlvField_read_u16, TlvField_read_object_id_typed,
    TlvField_read_bytes_vec, TlvField_require_wire;
  run_readers;
  rewrite ?read_repo_path_written, ?read_node_id_written, ?read_node_kind_written,
    ?read_span_hash_written by assumption;
  rewrite ?once_set.

(** Invert a record decoder's step. *)
Ltac inv_tlv :=
  repeat match goal with
  | H : once _ _ _ = Ok _ |- _ => apply once_inv in H as (-> & ? & H & ->)
  end;
  unfold TlvField_read_string, TlvField_read_u32, TlvField_read_u16, TlvField_read_object_id_typed,
    TlvField_read_bytes_vec, TlvField_require_wire in *;
  inv_readers;
  repeat match goal with
  | H : TlvField_read_repo_path _ = Ok _ |- _ => apply read_repo_path_inv in H as [H ?]
  | H : TlvField_read_node_id _ = Ok _ |- _ => apply read_node_id_inv in H as [H ?]
  | H : TlvField_read_node_kind _ = Ok _ |- _ => apply read_node_kind_inv in H
  | H : TlvField_read_span_hash _ = Ok _ |- _ => apply read_span_hash_inv in H as [H ?]
  end.

Ltac inv_paths :=
  repeat match goal with
  | H : RepoPath_parse _ = Ok _ |- _ => apply RepoPath_parse_inv in H as [-> ?]
  end.

Arguments zero_node_id : simpl never.

(** Close the goals of a decoder's inversion lemma: the record, its validity and its bytes. *)
Ltac close_record :=
  rewrite ?negb_false_iff in *; cbn in *; split_and!; try done; naive_solver.

(** A decoder that collects its fields, with an invariant of the collected slots. *)
Lemma decode_record {A} (step : A -> Field -> PResult A) fields_of (P : A -> Prop) init bytes r :
  collects step fields_of -> fields_of init = [] ->
  (forall a f a', P a -> step a f = Ok a' -> P a') -> P init ->
  decode_fields MalformedData step init bytes = Ok r ->
  bytes = enc_fields (fields_of r) /\ P r.
Proof.
  intros Hc Hi Hs HP H. split; [by eapply decode_fields_collects|by eapply decode_fields_preserves].
Qed.

Lemma map_err_path_ok p : map_err authoring_path_error (validate_repo_path p) = Ok tt <-> valid_path p.
Proof. unfold valid_path. destruct (validate_repo_path p) as [[]|]; split; intros; by inv_ok. Qed.

(** ** CreateFile *)

Definition CreateFile_wf (o : CreateFile) : Prop :=
  length (cf_node_id o) = NODE_ID_BYTES /\ wf_id (cf_blob_id o) /\ u32 (cf_mode o).
Definition CreateFile_fields (o : CreateFile) : list (Z * WireType * list byte) :=
  [(1, WireRepoPath, cf_path o); (2, WireBytes, cf_node_id o); (3, WireObjectId, cf_blob_id o);
   (4, WireU32, to_be_bytes 4 (cf_mode o))].
Definition CreateFile_decoded (o : CreateFile) : DecodedOperationKind :=
  DCreateFile (cf_path o) (cf_node_id o) (cf_blob_id o) (cf_mode o).

Lemma CreateFile_valid o :
  CreateFile_validate o = Ok tt <->
  cf_node_id o <> zero_node_id /\ valid_path (cf_path o) /\ is_canonical_file_mode (cf_mode o) = true.
Proof.
  unfold CreateFile_validate. rewrite <- NodeId_nonzero, <- map_err_path_ok.
  destruct (NodeId_is_zero _); [naive_solver|]. destruct (map_err _ _) as [[]|]; [|naive_solver].
  destruct (is_canonical_file_mode _); naive_solver.
Qed.

Lemma CreateFile_bytes o :
  CreateFile_validate o = Ok tt ->
  to_canonical_bytes o = Ok (enc_fields (map to_field (CreateFile_fields o))).
Proof.
  intros Hv. unfold to_canonical_bytes, encode_canonical, CreateFile_encode. rewrite Hv.
  rewrite <- write_fields_new by (cbn; lia). reflexivity.
Qed.

Definition create_file_fields (a : option (list byte) * option NodeId * option ObjectId * option Z)
  : list Field :=
  let '(path, node_id, blob_id, mode) := a in
  map (wfield 1 WireRepoPath) (option_list path) ++ map (wfield 2 WireBytes) (option_list node_id)
    ++ map (wfield 3 WireObjectId) (option_list blob_id)
    ++ map (fun m => wfield 4 WireU32 (to_be_bytes 4 m)) (option_list mode).

Lemma create_file_collects : collects create_file_step create_file_fields.
Proof.
  intros [[[path node_id] blob_id] mode] f a' Hs Hle. unfold create_file_step, create_file_fields in *.
  split_tag Hs; inv_ok; inv_tlv; later_empty; collect_finish.
Qed.

Lemma CreateFile_decode o :
  CreateFile_wf o -> CreateFile_validate o = Ok tt ->
  zlen (enc_fields (map to_field (CreateFile_fields o))) < 2 ^ 64 ->
  decode_create_file (enc_fields (map to_field (CreateFile_fields o))) = Ok (CreateFile_decoded o).
Proof.
  intros (Hn & Hb & Hm) (Hz & Hp & Hc)%CreateFile_valid Hl.
  assert (wf_node_id (cf_node_id o)) by done. pose proof (valid_path_rust_string _ Hp).
  unfold decode_create_file. rewrite decode_enc_fields by (done || cbn; lia).
  unfold create_file_step. cbn [map foldM CreateFile_fields]. do 4 run_tlv.
  cbn [ok_or]. by rewrite RepoPath_parse_valid, Hc.
Qed.

Lemma CreateFile_decode_inv bytes k :
  decode_create_file bytes = Ok k ->
  exists o, CreateFile_wf o /\ CreateFile_validate o = Ok tt /\
    bytes = enc_fields (map to_field (CreateFile_fields o)) /\ k = CreateFile_decoded o.
Proof.
  unfold decode_create_file. intros H.
  destruct (decode_fields _ _ _ bytes) as [[[[path node_id] blob_id] mode]|] eqn:Hd; [|done].
  eapply (decode_record _ _ (fun '(_, n, b, m) => opt_all wf_node_id n /\ opt_all wf_id b /\ opt_all u32 m)
    _ _ _ create_file_collects) in Hd as [-> (Hn & Hb & Hm)]; [|done| |done].
  - destruct path as [p|]; [|done]. destruct node_id as [n|]; destruct blob_id as [b|]; destruct mode as [m|];
      cbn in H; inv_ok. inv_paths. destruct Hn.
    exists (mkCreateFile p n b m). rewrite CreateFile_valid. unfold CreateFile_wf. close_record.
  - clear. intros [[[path node_id] blob_id] mode] f a' HP Hs. unfold create_file_step in Hs.
    split_tag Hs; inv_ok; inv_tlv; naive_solver.
Qed.

(** ** DeleteNode *)

Definition DeleteNode_wf (o : DeleteNode) : Prop :=
  length (dn_node_id o) = NODE_ID_BYTES /\
  match dn_preimage o with
  | PreimageFile blob mode => wf_id blob /\ u32 mode
  | PreimageSymlink target => rust_string target
  end.
Definition DeleteNode_fields (o : DeleteNode) : list (Z * WireType * list byte) :=
  [(1, WireRepoPath, dn_path o); (2, WireBytes, dn_node_id o);
   (3, WireEnumU16, to_be_bytes 2 (NodeKind_code (dn_old_node_kind o)))]
    ++ match dn_preimage o with
       | PreimageFile blob mode => [(4, WireObjectId, blob); (6, WireU32, to_be_bytes 4 mode)]
       | PreimageSymlink target => [(5, WireString, target)]
       end.
Definition DeleteNode_decoded (o : DeleteNode) : DecodedOperationKind :=
  DDeleteNode (dn_path o) (dn_node_id o)
    (match dn_preimage o with
     | PreimageFile blob mode => DecodedFile (dn_old_node_kind o) blob mode
     | PreimageSymlink target => DecodedSymlink target
     end).

Lemma DeleteNode_valid o :
  DeleteNode_validate o = Ok tt <->
  dn_node_id o <> zero_node_id /\ valid_path (dn_path o) /\
  DeleteNode_consistent (dn_old_node_kind o) (dn_preimage o) = true /\
  match dn_preimage o with
  | PreimageFile _ mode => is_canonical_file_mode mode = true
  | PreimageSymlink _ => True
  end.
Proof.
  unfold DeleteNode_validate. rewrite <- NodeId_nonzero, <- map_err_path_ok.
  destruct (NodeId_is_zero _); [naive_solver|]. destruct (map_err _ _) as [[]|]; [|naive_solver].
  destruct (DeleteNode_consistent _ _); [|naive_solver].
  destruct (dn_preimage o) as [? m|?]; [|naive_solver]. destruct (is_canonical_file_mode m); naive_solver.
Qed.

Lemma DeleteNode_tags o : tags_between 1 65535 (map to_field (DeleteNode_fields o)).
Proof. unfold DeleteNode_fields. destruct (dn_preimage o); cbn; lia. Qed.

Lemma DeleteNode_bytes o :
  DeleteNode_validate o = Ok tt ->
  to_canonical_bytes o = Ok (enc_fields (map to_field (DeleteNode_fields o))).
Proof.
  intros Hv. unfold to_canonical_bytes, encode_canonical, DeleteNode_encode. rewrite Hv.
  rewrite <- write_fields_new by apply DeleteNode_tags. unfold DeleteNode_fields.
  by destruct (dn_preimage o).
Qed.

Definition delete_node_fields (a : DeleteAcc) : list Field :=
  map (wfield 1 WireRepoPath) (option_list (da_path a))
    ++ map (wfield 2 WireBytes) (option_list (da_node_id a))
    ++ map (fun k => wfield 3 WireEnumU16 (to_be_bytes 2 (NodeKind_code k))) (option_list (da_kind a))
    ++ map (wfield 4 WireObjectId) (option_list (da_blob a))
    ++ map (wfield 5 WireString) (option_list (da_target a))
    ++ map (fun m => wfield 6 WireU32 (to_be_bytes 4 m)) (option_list (da_mode a)).

Lemma delete_node_collects : collects delete_node_step delete_node_fields.
Proof.
  intros [path node_id kind blob target mode] f a' Hs Hle.
  unfold delete_node_step, delete_node_fields in *.
  cbn [da_path da_node_id da_kind da_blob da_target da_mode] in *.
  split_tag Hs; inv_ok; inv_tlv; later_empty;
    cbn [da_path da_node_id da_kind da_blob da_target da_mode] in *; collect_finish.
Qed.

Lemma DeleteNode_decode o :
  DeleteNode_wf o -> DeleteNode_validate o = Ok tt ->
  zlen (enc_fields (map to_field (DeleteNode_fields o))) < 2 ^ 64 ->
  decode_delete_node (enc_fields (map to_field (DeleteNode_fields o))) = Ok (DeleteNode_decoded o).
Proof.
  intros (Hn & Hpre) (Hz & Hp & Hk & Hc)%DeleteNode_valid Hl.
  assert (wf_node_id (dn_node_id o)) by done. pose proof (valid_path_rust_string _ Hp).
  unfold decode_delete_node. rewrite decode_enc_fields by (done || apply DeleteNode_tags).
  unfold DeleteNode_fields, DeleteNode_decoded in *. destruct o as [path node_id kind preimage].
  cbn [dn_path dn_node_id dn_old_node_kind dn_preimage] in *.
  destruct preimage as [blob mode|target]; [destruct Hpre|]; cbn [map foldM app];
    unfold delete_node_step; repeat run_tlv; cbn [ok_or da_path da_node_id da_kind da_blob da_target da_mode];
    rewrite RepoPath_parse_valid by done; destruct kind; try done; cbn; by rewrite Hc.
Qed.

Lemma delete_node_preimage_ok kind blob target mode pre :
  delete_node_preimage kind blob target mode = Ok pre ->
  (blob = None /\ mode = None /\ kind = SymlinkKind /\ exists t, target = Some t /\ pre = DecodedSymlink t) \/
  (target = None /\ kind <> SymlinkKind /\ exists b m, blob = Some b /\ mode = Some m /\
     is_canonical_file_mode m = true /\ pre = DecodedFile kind b m).
Proof.
  unfold delete_node_preimage. intros H.
  destruct kind, blob, target, mode; cbn in H; inv_ok; try (rewrite negb_false_iff in *); naive_solver.
Qed.

Lemma DeleteNode_decode_inv bytes k :
  decode_delete_node bytes = Ok k ->
  exists o, DeleteNode_wf o /\ DeleteNode_validate o = Ok tt /\
    bytes = enc_fields (map to_field (DeleteNode_fields o)) /\ k = DeleteNode_decoded o.
Proof.
  unfold decode_delete_node. intros H.
  destruct (decode_fields _ _ _ bytes) as [[path node_id kind blob target mode]|] eqn:Hd; [|done].
  eapply (decode_record _ _ (fun a => opt_all wf_node_id (da_node_id a) /\ opt_all wf_id (da_blob a) /\
    opt_all u32 (da_mode a) /\ opt_all rust_string (da_target a))
    _ _ _ delete_node_collects) in Hd as [-> (Hn & Hb & Hm & Ht)]; [|done| |done].
  - cbn [da_path da_node_id da_kind da_blob da_target da_mode] in *.
    destruct path as [p|], node_id as [n|], kind as [nk|]; cbn [ok_or] in H; inv_ok. inv_paths.
    match goal with H : delete_node_preimage _ _ _ _ = Ok _ |- _ =>
      apply delete_node_preimage_ok in H as [(-> & -> & -> & t & -> & ->)|(-> & ? & b & m & -> & -> & ? & ->)] end.
    + exists (mkDeleteNode p n SymlinkKind (PreimageSymlink t)). rewrite DeleteNode_valid.
      unfold DeleteNode_wf. destruct Hn. cbn in *. by split_and!.
    + exists (mkDeleteNode p n nk (PreimageFile b m)). rewrite DeleteNode_valid.
      unfold DeleteNode_wf, DeleteNode_consistent. destruct Hn. cbn in *.
      split_and!; try done. by destruct nk.
  - clear. intros [path node_id kind blob target mode] f a' HP Hs. unfold delete_node_step in Hs.
    cbn in HP. split_tag Hs; inv_ok; inv_tlv; cbn; naive_solver.
Qed.

(** ** RenamePath *)

Definition RenamePath_wf (o : RenamePath) : Prop := length (rp_node_id o) = NODE_ID_BYTES.
Definition RenamePath_fields (o : RenamePath) : list (Z * WireType * list byte) :=
  [(1, WireBytes, rp_node_id o); (2, WireRepoPath, rp_old_path o); (3, WireRepoPath, rp_new_path o)].
Definition RenamePath_decoded (o : RenamePath) : DecodedOperationKind :=
  DRenamePath (rp_node_id o) (rp_old_path o) (rp_new_path o).

Lemma RenamePath_valid o :
  RenamePath_validate o = Ok tt <->
  rp_node_id o <> zero_node_id /\ valid_path (rp_old_path o) /\ valid_path (rp_new_path o).
Proof.
  unfold RenamePath_validate. rewrite <- NodeId_nonzero, <- !map_err_path_ok.
  destruct (NodeId_is_zero _); [naive_solver|].
  destruct (map_err _ (validate_repo_path (rp_old_path o))) as [[]|]; naive_solver.
Qed.

Lemma RenamePath_bytes o :
  RenamePath_validate o = Ok tt ->
  to_canonical_bytes o = Ok (enc_fields (map to_field (RenamePath_fields o))).
Proof.
  intros Hv. unfold to_canonical_bytes, encode_canonical, RenamePath_encode. rewrite Hv.
  rewrite <- write_fields_new by (cbn; lia). reflexivity.
Qed.

Definition rename_path_fields (a : option NodeId * option (list byte) * option (list byte))
  : list Field :=
  let '(node_id, old_path, new_path) := a in
  map (wfield 1 WireBytes) (option_list node_id) ++ map (wfield 2 WireRepoPath) (option_list old_path)
    ++ map (wfield 3 WireRepoPath) (option_list new_path).

Lemma rename_path_collects : collects rename_path_step rename_path_fields.
Proof.
  intros [[node_id old_path] new_path] f a' Hs Hle. unfold rename_path_step, rename_path_fields in *.
  split_tag Hs; inv_ok; inv_tlv; later_empty; collect_finish.
Qed.

Lemma RenamePath_decode o :
  RenamePath_wf o -> RenamePath_validate o = Ok tt ->
  zlen (enc_fields (map to_field (RenamePath_fields o))) < 2 ^ 64 ->
  decode_rename_path (enc_fields (map to_field (RenamePath_fields o))) = Ok (RenamePath_decoded o).
Proof.
  intros Hn (Hz & Hp & Hq)%RenamePath_valid Hl.
  assert (wf_node_id (rp_node_id o)) by done.
  pose proof (valid_path_rust_string _ Hp). pose proof (valid_path_rust_string _ Hq).
  unfold decode_rename_path. rewrite decode_enc_fields by (done || cbn; lia).
  unfold rename_path_step. cbn [map foldM RenamePath_fields]. do 3 run_tlv.
  cbn [ok_or]. by rewrite !RepoPath_parse_valid.
Qed.

Lemma RenamePath_decode_inv bytes k :
  decode_rename_path bytes = Ok k ->
  exists o, RenamePath_wf o /\ RenamePath_validate o = Ok tt /\
    bytes = enc_fields (map to_field (RenamePath_fields o)) /\ k = RenamePath_decoded o.
Proof.
  unfold decode_rename_path. intros H.
  destruct (decode_fields _ _ _ bytes) as [[[node_id old_path] new_path]|] eqn:Hd; [|done].
  eapply (decode_record _ _ (fun '(n, _, _) => opt_all wf_node_id n) _ _ _ rename_path_collects)
    in Hd as [-> Hn]; [|done| |done].
  - destruct node_id as [n|], old_path as [p|], new_path as [q|]; cbn [ok_or] in H; inv_ok. inv_paths.
    destruct Hn. exists (mkRenamePath n p q). rewrite RenamePath_valid. unfold RenamePath_wf. close_record.
  - clear. intros [[node_id old_path] new_path] f a' HP Hs. unfold rename_path_step in Hs.
    split_tag Hs; inv_ok; inv_tlv; naive_solver.
Qed.

(** ** ChangePerm *)

Definition ChangePerm_wf (o : ChangePerm) : Prop :=
  length (cp_node_id o) = NODE_ID_BYTES /\ u32 (cp_old_mode o) /\ u32 (cp_new_mode o).
Definition ChangePerm_fields (o : ChangePerm) : list (Z * WireType * list byte) :=
  [(1, WireBytes, cp_node_id o); (2, WireU32, to_be_bytes 4 (cp_old_mode o));
   (3, WireU32, to_be_bytes 4 (cp_new_mode o))].
Definition ChangePerm_decoded (o : ChangePerm) : DecodedOperationKind :=
  DChangePerm (cp_node_id o) (cp_old_mode o) (cp_new_mode o).

Lemma ChangePerm_valid o :
  ChangePerm_validate o = Ok tt <->
  cp_node_id o <> zero_node_id /\ is_canonical_file_mode (cp_old_mode o) = true /\
  is_canonical_file_mode (cp_new_mode o) = true.
Proof.
  unfold ChangePerm_validate. rewrite <- NodeId_nonzero.
  destruct (NodeId_is_zero _), (is_canonical_file_mode (cp_old_mode o)),
    (is_canonical_file_mode (cp_new_mode o)); naive_solver.
Qed.

Lemma ChangePerm_bytes o :
  ChangePerm_validate o = Ok tt ->
  to_canonical_bytes o = Ok (enc_fields (map to_field (ChangePerm_fields o))).
Proof.
  intros Hv. unfold to_canonical_bytes, encode_canonical, ChangePerm_encode. rewrite Hv.
  rewrite <- write_fields_new by (cbn; lia). reflexivity.
Qed.

Definition change_perm_fields (a : option NodeId * option Z * option Z) : list Field :=
  let '(node_id, old_mode, new_mode) := a in
  map (wfield 1 WireBytes) (option_list node_id)
    ++ map (fun m => wfield 2 WireU32 (to_be_bytes 4 m)) (option_list old_mode)
    ++ map (fun m => wfield 3 WireU32 (to_be_bytes 4 m)) (option_list new_mode).

Lemma change_perm_collects : collects change_perm_step change_perm_fields.
Proof.
  intros [[node_id old_mode] new_mode] f a' Hs Hle. unfold change_perm_step, change_perm_fields in *.
  split_tag Hs; inv_ok; inv_tlv; later_empty; collect_finish.
Qed.

Lemma ChangePerm_decode o :
  ChangePerm_wf o -> ChangePerm_validate o = Ok tt ->
  zlen (enc_fields (map to_field (ChangePerm_fields o))) < 2 ^ 64 ->
  decode_change_perm (enc_fields (map to_field (ChangePerm_fields o))) = Ok (ChangePerm_decoded o).
Proof.
  intros (Hn & Hm1 & Hm2) (Hz & Hc1 & Hc2)%ChangePerm_valid Hl.
  assert (wf_node_id (cp_node_id o)) by done.
  unfold decode_change_perm. rewrite decode_enc_fields by (done || cbn; lia).
  unfold change_perm_step. cbn [map foldM ChangePerm_fields]. do 3 run_tlv.
  cbn [ok_or]. by rewrite Hc1, Hc2.
Qed.

Lemma ChangePerm_decode_inv bytes k :
  decode_change_perm bytes = Ok k ->
  exists o, ChangePerm_wf o /\ ChangePerm_validate o = Ok tt /\
    bytes = enc_fields (map to_field (ChangePerm_fields o)) /\ k = ChangePerm_decoded o.
Proof.
  unfold decode_change_perm. intros H.
  destruct (decode_fields _ _ _ bytes) as [[[node_id old_mode] new_mode]|] eqn:Hd; [|done].
  eapply (decode_record _ _ (fun '(n, m1, m2) => opt_all wf_node_id n /\ opt_all u32 m1 /\ opt_all u32 m2)
    _ _ _ change_perm_collects) in Hd as [-> (Hn & Hm1 & Hm2)]; [|done| |done].
  - destruct node_id as [n|], old_mode as [m1|], new_mode as [m2|]; cbn [ok_or] in H; inv_ok.
    destruct Hn. exists (mkChangePerm n m1 m2). rewrite ChangePerm_valid. unfold ChangePerm_wf. close_record.
  - clear. intros [[node_id old_mode] new_mode] f a' HP Hs. unfold change_perm_step in Hs.
    split_tag Hs; inv_ok; inv_tlv; naive_solver.
Qed.

(** ** CreateSymlink *)

Definition CreateSymlink_wf (o : CreateSymlink) : Prop :=
  length (cs_node_id o) = NODE_ID_BYTES /\ rust_string (cs_target o).
Definition CreateSymlink_fields (o : CreateSymlink) : list (Z * WireType * list byte) :=
  [(1, WireRepoPath, cs_path o); (2, WireBytes, cs_node_id o); (3, WireString, cs_target o)].
Definition CreateSymlink_decoded (o : CreateSymlink) : DecodedOperationKind :=
  DCreateSymlink (cs_path o) (cs_node_id o) (cs_target o).

Lemma CreateSymlink_valid o :
  CreateSymlink_validate o = Ok tt <-> cs_node_id o <> zero_node_id /\ valid_path (cs_path o).
Proof.
  unfold CreateSymlink_validate. rewrite <- NodeId_nonzero, <- map_err_path_ok.
  destruct (NodeId_is_zero _); naive_solver.
Qed.

Lemma CreateSymlink_bytes o :
  CreateSymlink_validate o = Ok tt ->
  to_canonical_bytes o = Ok (enc_fields (map to_field (CreateSymlink_fields o))).
Proof.
  intros Hv. unfold to_canonical_bytes, encode_canonical, CreateSymlink_encode. rewrite Hv.
  rewrite <- write_fields_new by (cbn; lia). reflexivity.
Qed.

Definition create_symlink_fields (a : option (list byte) * option NodeId * option (list byte))
  : list Field :=
  let '(path, node_id, target) := a in
  map (wfield 1 WireRepoPath) (option_list path) ++ map (wfield 2 WireBytes) (option_list node_id)
    ++ map (wfield 3 WireString) (option_list target).

Lemma create_symlink_collects : collects create_symlink_step create_symlink_fields.
Proof.
  intros [[path node_id] target] f a' Hs Hle. unfold create_symlink_step, create_symlink_fields in *.
  split_tag Hs; inv_ok; inv_tlv; later_empty; collect_finish.
Qed.

Lemma CreateSymlink_decode o :
  CreateSymlink_wf o -> CreateSymlink_validate o = Ok tt ->
  zlen (enc_fields (map to_field (CreateSymlink_fields o))) < 2 ^ 64 ->
  decode_create_symlink (enc_fields (map to_field (CreateSymlink_fields o)))
  = Ok (CreateSymlink_decoded o).
Proof.
  intros (Hn & Ht) (Hz & Hp)%CreateSymlink_valid Hl.
  assert (wf_node_id (cs_node_id o)) by done. pose proof (valid_path_rust_string _ Hp).
  unfold decode_create_symlink. rewrite decode_enc_fields by (done || cbn; lia).
  unfold create_symlink_step. cbn [map foldM CreateSymlink_fields]. do 3 run_tlv.
  cbn [ok_or]. by rewrite RepoPath_parse_valid.
Qed.

Lemma CreateSymlink_decode_inv bytes k :
  decode_create_symlink bytes = Ok k ->
  exists o, CreateSymlink_wf o /\ CreateSymlink_validate o = Ok tt /\
    bytes = enc_fields (map to_field (CreateSymlink_fields o)) /\ k = CreateSymlink_decoded o.
Proof.
  unfold decode_create_symlink. intros H.
  destruct (decode_fields _ _ _ bytes) as [[[path node_id] target]|] eqn:Hd; [|done].
  eapply (decode_record _ _ (fun '(_, n, t) => opt_all wf_node_id n /\ opt_all rust_string t)
    _ _ _ create_symlink_collects) in Hd as [-> (Hn & Ht)]; [|done| |done].
  - destruct path as [p|], node_id as [n|], target as [t|]; cbn [ok_or] in H; inv_ok. inv_paths.
    destruct Hn. exists (mkCreateSymlink p n t). rewrite CreateSymlink_valid. unfold CreateSymlink_wf. close_record.
  - clear. intros [[path node_id] target] f a' HP Hs. unfold create_symlink_step in Hs.
    split_tag Hs; inv_ok; inv_tlv; naive_solver.
Qed.

(** ** ReplaceBinary *)

Definition ReplaceBinary_wf (o : ReplaceBinary) : Prop :=
  length (rb_node_id o) = NODE_ID_BYTES /\ wf_id (rb_old_blob_id o) /\ wf_id (rb_new_blob_id o).
Definition ReplaceBinary_fields (o : ReplaceBinary) : list (Z * WireType * list byte) :=
  [(1, WireBytes, rb_node_id o); (2, WireObjectId, rb_old_blob_id o);
   (3, WireObjectId, rb_new_blob_id o)].
Definition ReplaceBinary_decoded (o : ReplaceBinary) : DecodedOperationKind :=
  DReplaceBinary (rb_node_id o) (rb_old_blob_id o) (rb_new_blob_id o).

Lemma ReplaceBinary_valid o : ReplaceBinary_validate o = Ok tt <-> rb_node_id o <> zero_node_id.
Proof.
  unfold ReplaceBinary_validate. rewrite <- NodeId_nonzero. destruct (NodeId_is_zero _); naive_solver.
Qed.

Lemma ReplaceBinary_bytes o :
  ReplaceBinary_validate o = Ok tt ->
  to_canonical_bytes o = Ok (enc_fields (map to_field (ReplaceBinary_fields o))).
Proof.
  intros Hv. unfold to_canonical_bytes, encode_canonical, ReplaceBinary_encode. rewrite Hv.
  rewrite <- write_fields_new by (cbn; lia). reflexivity.
Qed.

Definition replace_binary_fields (a : option NodeId * option ObjectId * option ObjectId)
  : list Field :=
  let '(node_id, old_blob_id, new_blob_id) := a in
  map (wfield 1 WireBytes) (option_list node_id)
    ++ map (wfield 2 WireObjectId) (option_list old_blob_id)
    ++ map (wfield 3 WireObjectId) (option_list new_blob_id).

Lemma replace_binary_collects : collects replace_binary_step replace_binary_fields.
Proof.
  intros [[node_id old_id] new_id] f a' Hs Hle. unfold replace_binary_step, replace_binary_fields in *.
  split_tag Hs; inv_ok; inv_tlv; later_empty; collect_finish.
Qed.

Lemma ReplaceBinary_decode o :
  ReplaceBinary_wf o -> ReplaceBinary_validate o = Ok tt ->
  zlen (enc_fields (map to_field (ReplaceBinary_fields o))) < 2 ^ 64 ->
  decode_replace_binary (enc_fields (map to_field (ReplaceBinary_fields o)))
  = Ok (ReplaceBinary_decoded o).
Proof.
  intros (Hn & Ho & Hw) Hz%ReplaceBinary_valid Hl.
  assert (wf_node_id (rb_node_id o)) by done.
  unfold decode_replace_binary. rewrite decode_enc_fields by (done || cbn; lia).
  unfold replace_binary_step. cbn [map foldM ReplaceBinary_fields]. by do 3 run_tlv.
Qed.

Lemma ReplaceBinary_decode_inv bytes k :
  decode_replace_binary bytes = Ok k ->
  exists o, ReplaceBinary_wf o /\ ReplaceBinary_validate o = Ok tt /\
    bytes = enc_fields (map to_field (ReplaceBinary_fields o)) /\ k = ReplaceBinary_decoded o.
Proof.
  unfold decode_replace_binary. intros H.
  destruct (decode_fields _ _ _ bytes) as [[[node_id old_id] new_id]|] eqn:Hd; [|done].
  eapply (decode_record _ _ (fun '(n, b1, b2) => opt_all wf_node_id n /\ opt_all wf_id b1 /\ opt_all wf_id b2)
    _ _ _ replace_binary_collects) in Hd as [-> (Hn & Ho & Hw)]; [|done| |done].
  - destruct node_id as [n|], old_id as [b1|], new_id as [b2|]; cbn [ok_or] in H; inv_ok.
    destruct Hn. exists (mkReplaceBinary n b1 b2). rewrite ReplaceBinary_valid. unfold ReplaceBinary_wf. close_record.
  - clear. intros [[node_id old_id] new_id] f a' HP Hs. unfold replace_binary_step in Hs.
    split_tag Hs; inv_ok; inv_tlv; naive_solver.
Qed.

(** ** EditText *)

Definition EditText_wf (o : EditText) : Prop :=
  length (et_node_id o) = NODE_ID_BYTES /\ length (et_span_id o) = 32%nat /\
  length (et_left_anchor_hash o) = 32%nat /\ length (et_right_anchor_hash o) = 32%nat /\
  opt_all u32 (et_hint_line o) /\ opt_all u32 (et_hint_column o) /\
  opt_all u32 (et_left_anchor_len o) /\ opt_all u32 (et_right_anchor_len o).
Definition u32_field (t : Z) (o : option Z) : list (Z * WireType * list byte) :=
  map (fun v => (t, WireU32, to_be_bytes 4 v)) (option_list o).
Definition EditText_fields (o : EditText) : list (Z * WireType * list byte) :=
  [(1, WireBytes, et_node_id o)] ++ [(2, WireBytes, et_span_id o)]
    ++ [(3, WireBytes, et_old_span_hash o)] ++ [(4, WireBytes, et_left_anchor_hash o)]
    ++ [(5, WireBytes, et_right_anchor_hash o)] ++ [(6, WireBytes, et_replacement_text o)]
    ++ u32_field 7 (et_hint_line o) ++ u32_field 8 (et_hint_column o)
    ++ [(9, WireBytes, et_old_span_text o)]
    ++ u32_field 10 (et_left_anchor_len o) ++ u32_field 11 (et_right_anchor_len o).
Definition EditText_decoded (o : EditText) : DecodedOperationKind :=
  DEditText (et_node_id o) (et_span_id o) (et_old_span_hash o) (et_left_anchor_hash o)
    (et_right_anchor_hash o) (et_replacement_text o) (et_old_span_text o) (et_left_anchor_len o)
    (et_right_anchor_len o).

(** The anchor lengths a schema admits. *)
Definition anchors_admitted (schema_version : Z) (left_len right_len : option Z) : Prop :=
  schema_version < PATCH_TEXT_SPAN_V2_SCHEMA -> left_len = None /\ right_len = None.

Lemma u32_field_write t o w :
  match o with Some v => field_u32 t v w | None => Ok w end = write_fields (u32_field t o) w.
Proof. destruct o; [apply write_fields_one|done]. Qed.

Lemma EditText_tags o : tags_between 1 65535 (map to_field (EditText_fields o)).
Proof. unfold EditText_fields, u32_field. solve_tags. Qed.

Section edit_text.
Context `{Sha256}.

Lemma EditText_valid o :
  EditText_validate o = Ok tt <->
  et_node_id o <> zero_node_id /\ et_old_span_hash o = text_span_hash (et_old_span_text o) /\
  rust_string (et_old_span_text o) /\ rust_string (et_replacement_text o) /\
  check_anchor_lens CanonicalEncoding (et_left_anchor_len o) (et_right_anchor_len o) = Ok tt.
Proof.
  unfold EditText_validate, rust_string. rewrite <- NodeId_nonzero.
  destruct (NodeId_is_zero _); [naive_solver|]. case_bool_decide; [|naive_solver].
  destruct (from_utf8 (et_old_span_text o)), (from_utf8 (et_replacement_text o)); naive_solver.
Qed.

Lemma EditText_bytes o :
  EditText_validate o = Ok tt ->
  to_canonical_bytes o = Ok (enc_fields (map to_field (EditText_fields o))).
Proof.
  intros Hv. unfold to_canonical_bytes, encode_canonical, EditText_encode. rewrite Hv.
  rewrite <- write_fields_new by apply EditText_tags. unfold EditText_fields.
  apply (f_equal (fun r : PResult CanonicalWriter => let? w := r in Ok (finish w))).
  repeat (apply write_fields_then; [first [apply u32_field_write | apply write_fields_one] | intros ?]).
  apply u32_field_write.
Qed.

Lemma check_anchor_lens_mk mk mk' l r : check_anchor_lens mk l r = Ok tt -> check_anchor_lens mk' l r = Ok tt.
Proof. unfold check_anchor_lens. intros. by inv_ok. Qed.

Lemma foldM_u32 {A} (step : A -> Field -> PResult A) t o a b :
  opt_all u32 o -> (o = None -> a = b) ->
  (forall v, o = Some v -> u32 v -> step a (wfield t WireU32 (to_be_bytes 4 v)) = Ok b) ->
  foldM step a (map to_field (u32_field t o)) = Ok b.
Proof.
  intros Ho Hn Hs. destruct o as [v|]; cbn; [|by rewrite Hn]. by rewrite (Hs v).
Qed.

Ltac edit_field := eapply foldM_then; [apply foldM_one; unfold edit_text_step; by run_tlv|].

Lemma EditText_decode o schema_version :
  EditText_wf o -> EditText_validate o = Ok tt ->
  anchors_admitted schema_version (et_left_anchor_len o) (et_right_anchor_len o) ->
  zlen (enc_fields (map to_field (EditText_fields o))) < 2 ^ 64 ->
  decode_edit_text (enc_fields (map to_field (EditText_fields o))) schema_version
  = Ok (EditText_decoded o).
Proof.
  intros (Hn & Hs & Hl & Hr & Hhl & Hhc & Hll & Hrl) (Hz & Hh & Ht & Hrt & Ha)%EditText_valid Hadm Hlen.
  assert (wf_node_id (et_node_id o)) by done.
  assert (length (et_old_span_hash o) = 32%nat) by (rewrite Hh; apply sha256_length).
  unfold decode_edit_text. rewrite decode_enc_fields by (done || apply EditText_tags).
  assert (foldM (edit_text_step schema_version) (mkEditAcc None None None None None None None None None)
    (map to_field (EditText_fields o)) = Ok (mkEditAcc (Some (et_node_id o)) (Some (et_span_id o))
      (Some (et_old_span_hash o)) (Some (et_left_anchor_hash o)) (Some (et_right_anchor_hash o))
      (Some (et_replacement_text o)) (Some (et_old_span_text o)) (et_left_anchor_len o)
      (et_right_anchor_len o))) as ->.
  { unfold EditText_fields. rewrite !map_app. do 6 edit_field.
    do 2 (eapply foldM_then; [apply foldM_u32; [done|reflexivity|]; intros v _ Hv;
      unfold edit_text_step; by run_tlv|]).
    edit_field.
    eapply (foldM_then _ _ (mkEditAcc _ _ _ _ _ _ _ (et_left_anchor_len o) None));
      (apply foldM_u32; [done|by intros ->|]);
      intros v Hv Hu; unfold edit_text_step; rewrite Hv; run_tlv;
      destruct (Z.ltb_spec schema_version PATCH_TEXT_SPAN_V2_SCHEMA) as [Hlt|]; try done;
      destruct (Hadm Hlt); congruence. }
  unfold edit_text_finish. cbn [ok_or ea_node_id ea_span_id ea_old_span_hash ea_left_anchor_hash
    ea_right_anchor_hash ea_replacement ea_old_span_text ea_left_len ea_right_len].
  rewrite bool_decide_eq_true_2, Ht, Hrt by done. cbn [negb].
  by rewrite (check_anchor_lens_mk _ MalformedData _ _ Ha).
Qed.

Definition EditAcc_ok (schema_version : Z) (a : EditAcc) : Prop :=
  opt_all wf_node_id (ea_node_id a) /\ opt_all (fun h => length h = 32%nat) (ea_span_id a) /\
  opt_all (fun h => length h = 32%nat) (ea_left_anchor_hash a) /\
  opt_all (fun h => length h = 32%nat) (ea_right_anchor_hash a) /\
  opt_all u32 (ea_left_len a) /\ opt_all u32 (ea_right_len a) /\
  anchors_admitted schema_version (ea_left_len a) (ea_right_len a).

Lemma edit_text_step_ok v a f a' :
  EditAcc_ok v a -> edit_text_step v a f = Ok a' -> EditAcc_ok v a'.
Proof.
  destruct a as [a1 a2 a3 a4 a5 a6 a7 a8 a9]. unfold EditAcc_ok, edit_text_step, anchor_len_read.
  cbn [ea_node_id ea_span_id ea_old_span_hash ea_left_anchor_hash
    ea_right_anchor_hash ea_replacement ea_old_span_text ea_left_len ea_right_len].
  intros (H1 & H2 & H3 & H4 & H5 & H6 & H7) Hs.
  split_tag Hs; cbn [orb] in Hs; inv_ok;
    repeat match goal with H : once _ _ _ = Ok _ |- _ => apply once_inv in H as (-> & ? & H & ->) end;
    inv_ok; inv_tlv; cbn; split_and!; try done; intros Hlt; try (destruct (H7 Hlt)); lia || naive_solver.
Qed.

Lemma EditText_decode_inv bytes v k :
  decode_edit_text bytes v = Ok k ->
  exists o, EditText_wf o /\ EditText_validate o = Ok tt /\
    anchors_admitted v (et_left_anchor_len o) (et_right_anchor_len o) /\ k = EditText_decoded o.
Proof.
  unfold decode_edit_text. intros Hk.
  destruct (decode_fields _ _ _ bytes) as [a|] eqn:Hd; [|done].
  eapply (decode_fields_preserves _ _ (EditAcc_ok v)) in Hd; [|intros; by eapply edit_text_step_ok|by repeat split].
  destruct a as [a1 a2 a3 a4 a5 a6 a7 a8 a9], Hd as (H1 & H2 & H3 & H4 & H5 & H6 & H7).
  unfold edit_text_finish in Hk. cbn [ok_or ea_node_id ea_span_id ea_old_span_hash ea_left_anchor_hash
    ea_right_anchor_hash ea_replacement ea_old_span_text ea_left_len ea_right_len] in *.
  destruct a1 as [n|], a2 as [s|], a4 as [lh|], a5 as [rh|], a3 as [oh|], a6 as [rt|], a7 as [ot|];
    cbn [ok_or] in Hk; try discriminate Hk.
  inv_ok. rewrite negb_false_iff in *. apply bool_decide_eq_true in Heqb. destruct H1.
  match goal with u : unit |- _ => destruct u end.
  exists (mkEditText n s oh lh rh rt None None ot a8 a9). rewrite EditText_valid. unfold EditText_wf.
  cbn in *. split_and!; try done. by eapply check_anchor_lens_mk.
Qed.
End edit_text.

(** * What the patch decoder guarantees

    Operations and whole patches: the store's decoder inverts the encoder of [Patch.v], and accepts
    no operation that the encoder would refuse. *)


(** ** Nested records *)

Lemma field_record_inv `{CanonicalEncode T} t (v : T) w w' :
  field_record t v w = Ok w' ->
  exists nb, to_canonical_bytes v = Ok nb /\ write_fields [(t, WireRecord, nb)] w = Ok w'.
Proof.
  unfold field_record, to_canonical_bytes. intros Hw. inv_ok.
  eexists. split; [reflexivity|]. by rewrite <- write_fields_one.
Qed.

Lemma field_record_list_item_inv `{CanonicalEncode T} t (v : T) w w' :
  field_record_list_item t v w = Ok w' ->
  exists nb, to_canonical_bytes v = Ok nb /\ write_fields [(t, WireRecordListItem, nb)] w = Ok w'.
Proof.
  unfold field_record_list_item, to_canonical_bytes. intros Hw. inv_ok.
  eexists. split; [reflexivity|]. by rewrite <- write_fields_one.
Qed.

Lemma write_fields_chain fs1 fs2 w w1 w2 :
  write_fields fs1 w = Ok w1 -> write_fields fs2 w1 = Ok w2 -> write_fields (fs1 ++ fs2) w = Ok w2.
Proof. intros H1 H2. by rewrite write_fields_app, H1. Qed.

(** Writing a list of nested records, whichever of the two record wire types carries them. *)
Lemma foldM_records_inv `{CanonicalEncode T} (wr : T -> CanonicalWriter -> PResult CanonicalWriter) t wt :
  (forall v w w', wr v w = Ok w' ->
     exists nb, to_canonical_bytes v = Ok nb /\ write_fields [(t, wt, nb)] w = Ok w') ->
  forall (vs : list T) w w', foldM (fun w v => wr v w) w vs = Ok w' ->
  exists nbs, Forall2 (fun v nb => to_canonical_bytes v = Ok nb) vs nbs /\
    write_fields (map (fun nb => (t, wt, nb)) nbs) w = Ok w'.
Proof.
  intros Hwr vs. induction vs as [|v vs IH]; intros w w' Hf; cbn [foldM] in Hf.
  - inv_ok. by exists [].
  - destruct (wr v w) as [w1|] eqn:Hv; [|done]. apply Hwr in Hv as (nb & Hnb & H1).
    apply IH in Hf as (nbs & Hnbs & H2). exists (nb :: nbs). split; [by constructor|].
    exact (write_fields_chain [_] _ _ _ _ H1 H2).
Qed.

Lemma repeated_record_inv `{CanonicalEncode T} t (vs : list T) w w' :
  repeated_record t vs w = Ok w' ->
  exists nbs, Forall2 (fun v nb => to_canonical_bytes v = Ok nb) vs nbs /\
    write_fields (map (fun nb => (t, WireRecord, nb)) nbs) w = Ok w'.
Proof. apply (foldM_records_inv (field_record t)). intros ???. apply field_record_inv. Qed.

Lemma repeated_record_list_inv `{CanonicalEncode T} t (vs : list T) w w' :
  repeated_record_list t vs w = Ok w' ->
  exists nbs, Forall2 (fun v nb => to_canonical_bytes v = Ok nb) vs nbs /\
    write_fields (map (fun nb => (t, WireRecordListItem, nb)) nbs) w = Ok w'.
Proof. apply (foldM_records_inv (field_record_list_item t)). intros ???. apply field_record_list_item_inv. Qed.

Lemma write_fields_finish fs w :
  tags_between 1 65535 (map to_field fs) ->
  write_fields fs CanonicalWriter_new = Ok w -> finish w = enc_fields (map to_field fs).
Proof.
  intros Ht Hw. pose proof (write_fields_new fs Ht) as Hn. rewrite Hw in Hn. by inv_ok.
Qed.

(** A field the decoder skips. *)
Lemma foldM_skip {A B} (step : A -> Field -> PResult A) (g : B -> Field) a l :
  (forall x, step a (g x) = Ok a) -> foldM step a (map g l) = Ok a.
Proof. intros Hs. induction l as [|x l IH]; cbn; [done|]. by rewrite Hs. Qed.

(** ** Operation kinds *)

Section patch.
Context `{Sha256}.

Definition kind_tag (k : OperationKind) : Z :=
  match k with
  | OpCreateFile _ => 10 | OpDeleteNode _ => 11 | OpEditText _ => 12 | OpRenamePath _ => 13
  | OpChangePerm _ => 14 | OpCreateSymlink _ => 15 | OpReplaceBinary _ => 16
  end.

Definition kind_wf (k : OperationKind) : Prop :=
  match k with
  | OpCreateFile o => CreateFile_wf o | OpDeleteNode o => DeleteNode_wf o
  | OpEditText o => EditText_wf o | OpRenamePath o => RenamePath_wf o
  | OpChangePerm o => ChangePerm_wf o | OpCreateSymlink o => CreateSymlink_wf o
  | OpReplaceBinary o => ReplaceBinary_wf o
  end.

(** The record's own [validate]. *)
Definition kind_validate (k : OperationKind) : PResult unit :=
  match k with
  | OpCreateFile o => CreateFile_validate o | OpDeleteNode o => DeleteNode_validate o
  | OpEditText o => EditText_validate o | OpRenamePath o => RenamePath_validate o
  | OpChangePerm o => ChangePerm_validate o | OpCreateSymlink o => CreateSymlink_validate o
  | OpReplaceBinary o => ReplaceBinary_validate o
  end.

Definition kind_decoded (k : OperationKind) : DecodedOperationKind :=
  match k with
  | OpCreateFile o => CreateFile_decoded o | OpDeleteNode o => DeleteNode_decoded o
  | OpEditText o => EditText_decoded o | OpRenamePath o => RenamePath_decoded o
  | OpChangePerm o => ChangePerm_decoded o | OpCreateSymlink o => CreateSymlink_decoded o
  | OpReplaceBinary o => ReplaceBinary_decoded o
  end.

Definition kind_fields (k : OperationKind) : list (Z * WireType * list byte) :=
  match k with
  | OpCreateFile o => CreateFile_fields o | OpDeleteNode o => DeleteNode_fields o
  | OpEditText o => EditText_fields o | OpRenamePath o => RenamePath_fields o
  | OpChangePerm o => ChangePerm_fields o | OpCreateSymlink o => CreateSymlink_fields o
  | OpReplaceBinary o => ReplaceBinary_fields o
  end.

(** Which operations a schema version admits. *)
Definition kind_admitted (schema_version : Z) (k : OperationKind) : Prop :=
  match k with
  | OpEditText o => anchors_admitted schema_version (et_left_anchor_len o) (et_right_anchor_len o)
  | _ => True
  end.

Definition kind_bytes (k : OperationKind) : PResult (list byte) :=
  match k with
  | OpCreateFile o => to_canonical_bytes o | OpDeleteNode o => to_canonical_bytes o
  | OpEditText o => to_canonical_bytes o | OpRenamePath o => to_canonical_bytes o
  | OpChangePerm o => to_canonical_bytes o | OpCreateSymlink o => to_canonical_bytes o
  | OpReplaceBinary o => to_canonical_bytes o
  end.

Lemma kind_tag_range k : 10 <= kind_tag k <= 16.
Proof. destruct k; cbn; lia. Qed.

Lemma kind_bytes_validate k nb : kind_bytes k = Ok nb -> kind_validate k = Ok tt.
Proof.
  destruct k; cbn; unfold to_canonical_bytes, encode_canonical, CreateFile_encode, DeleteNode_encode,
    EditText_encode, RenamePath_encode, ChangePerm_encode, CreateSymlink_encode, ReplaceBinary_encode;
    intros ?; inv_ok; match goal with u : unit |- _ => by destruct u end.
Qed.

Lemma kind_bytes_fields k :
  kind_validate k = Ok tt -> kind_bytes k = Ok (enc_fields (map to_field (kind_fields k))).
Proof.
  destruct k; cbn [kind_validate kind_bytes kind_fields]; eauto using CreateFile_bytes, DeleteNode_bytes,
    EditText_bytes, RenamePath_bytes, ChangePerm_bytes, CreateSymlink_bytes, ReplaceBinary_bytes.
Qed.

Lemma decode_kind_bytes k nb schema_version :
  kind_wf k -> kind_admitted schema_version k -> kind_bytes k = Ok nb -> zlen nb < 2 ^ 64 ->
  decode_kind (kind_tag k) nb schema_version = Ok (kind_decoded k).
Proof.
  intros Hw Ha Hb Hl. pose proof (kind_bytes_validate k nb Hb) as Hv.
  rewrite (kind_bytes_fields k Hv) in Hb. apply Ok_inj in Hb as <-.
  destruct k; cbn [kind_wf kind_admitted kind_validate kind_fields] in *; unfold decode_kind;
    cbn [kind_tag Z.eqb Pos.eqb kind_decoded];
    auto using CreateFile_decode, DeleteNode_decode, EditText_decode, RenamePath_decode,
      ChangePerm_decode, CreateSymlink_decode, ReplaceBinary_decode.
Qed.

Lemma decode_kind_inv t nb schema_version d :
  decode_kind t nb schema_version = Ok d ->
  exists k, kind_wf k /\ kind_validate k = Ok tt /\ kind_admitted schema_version k /\
    kind_decoded k = d.
Proof.
  unfold decode_kind. intros Hd. inv_ok.
  - apply CreateFile_decode_inv in Hd as (o & ? & ? & _ & ->). by exists (OpCreateFile o).
  - apply DeleteNode_decode_inv in Hd as (o & ? & ? & _ & ->). by exists (OpDeleteNode o).
  - apply EditText_decode_inv in Hd as (o & ? & ? & ? & ->). by exists (OpEditText o).
  - apply RenamePath_decode_inv in Hd as (o & ? & ? & _ & ->). by exists (OpRenamePath o).
  - apply ChangePerm_decode_inv in Hd as (o & ? & ? & _ & ->). by exists (OpChangePerm o).
  - apply CreateSymlink_decode_inv in Hd as (o & ? & ? & _ & ->). by exists (OpCreateSymlink o).
  - apply ReplaceBinary_decode_inv in Hd as (o & ? & ? & _ & ->). by exists (OpReplaceBinary o).
Qed.

(** ** Operations *)

Definition Operation_decoded (o : Operation) : DecodedPatchOperation :=
  mkDecoded (op_seq o) (kind_decoded (op_kind o)) None.

Definition operation_fields (o : Operation) (conds : list (list byte)) (nb : list byte)
  : list (Z * WireType * list byte) :=
  [(1, WireU32, to_be_bytes 4 (op_seq o))]
    ++ map (fun v => (2, WireString, v)) (option_list (op_id o))
    ++ map (fun c => (3, WireRecord, c)) conds
    ++ [(kind_tag (op_kind o), WireRecord, nb)].

Lemma operation_tags o conds nb : tags_between 1 65535 (map to_field (operation_fields o conds nb)).
Proof.
  pose proof (kind_tag_range (op_kind o)). unfold operation_fields. solve_tags.
Qed.

Lemma Operation_encode_inv o bytes :
  to_canonical_bytes o = Ok bytes ->
  exists conds nb, kind_bytes (op_kind o) = Ok nb /\
    bytes = enc_fields (map to_field (operation_fields o conds nb)).
Proof.
  unfold to_canonical_bytes, encode_canonical, Operation_encode. intros Hb.
  destruct (field_u32 1 _ _) as [w1|] eqn:H1; [|done].
  destruct (field_string_opt 2 _ _) as [w2|] eqn:H2; [|done].
  destruct (repeated_record 3 _ _) as [w3|] eqn:H3; [|done].
  apply repeated_record_inv in H3 as (conds & _ & H3).
  unfold field_u32 in H1. rewrite write_fields_one in H1.
  unfold field_string_opt, field_string in H2. rewrite field_opt_fields in H2.
  assert (exists nb w4, kind_bytes (op_kind o) = Ok nb /\ Ok (finish w4) = @Ok PrikkError _ bytes /\
    write_fields [(kind_tag (op_kind o), WireRecord, nb)] w3 = Ok w4) as (nb & w4 & Hnb & Hfin & H4).
  { destruct (op_kind o); cbn [kind_bytes kind_tag];
      match type of Hb with context [field_record ?t ?v ?w] => destruct (field_record t v w) as [w4|] eqn:H4; [|done] end;
      apply field_record_inv in H4 as (nb & ? & ?); by exists nb, w4. }
  exists conds, nb. split; [done|]. apply Ok_inj in Hfin as <-.
  apply write_fields_finish; [apply operation_tags|]. unfold operation_fields.
  eauto using write_fields_chain.
Qed.

Lemma decode_operation_encoded o bytes index schema_version :
  u32 (op_seq o) -> op_seq o = Z.of_nat index + 1 ->
  kind_wf (op_kind o) -> kind_admitted schema_version (op_kind o) ->
  to_canonical_bytes o = Ok bytes -> zlen bytes < 2 ^ 64 ->
  decode_operation bytes index schema_version = Ok (Operation_decoded o).
Proof.
  intros Hu Hi Hw Ha Hb Hl. apply Operation_encode_inv in Hb as (conds & nb & Hnb & ->).
  unfold decode_operation. rewrite decode_enc_fields by (done || apply operation_tags).
  pose proof (kind_tag_range (op_kind o)) as Ht.
  assert (Hlen : zlen nb < 2 ^ 64).
  { eapply Z.le_lt_trans; [|exact Hl]. change nb with (value (to_field (kind_tag (op_kind o), WireRecord, nb))).
    apply enc_fields_value_len. apply list_elem_of_fmap. eexists. split; [done|].
    unfold operation_fields. set_solver. }
  assert (foldM operation_step (None, None) (map to_field (operation_fields o conds nb))
    = Ok (Some (op_seq o), Some (kind_tag (op_kind o), nb))) as ->.
  { unfold operation_fields. rewrite !map_app.
    eapply foldM_then; [apply foldM_one; unfold operation_step; by run_tlv|].
    do 2 (eapply foldM_then; [rewrite map_map; by apply foldM_skip|]).
    apply foldM_one. unfold operation_step. cbn [to_field]. rewrite tag_wfield, value_wfield.
    rewrite !(proj2 (Z.eqb_neq _ _)) by lia. cbn [orb].
    rewrite (proj2 (Z.leb_le _ _)), (proj2 (Z.leb_le _ _)) by lia. cbn [andb is_some].
    unfold TlvField_require_wire. by rewrite require_wire_written. }
  cbn [ok_or]. rewrite (proj2 (Z.eqb_eq _ _) Hi). cbn [negb ok_or].
  by rewrite decode_kind_bytes.
Qed.

Lemma decode_operation_inv bytes index schema_version d :
  decode_operation bytes index schema_version = Ok d ->
  exists o, u32 (op_seq o) /\ op_seq o = Z.of_nat index + 1 /\ kind_wf (op_kind o) /\
    kind_validate (op_kind o) = Ok tt /\ kind_admitted schema_version (op_kind o) /\
    op_id o = None /\ op_preconditions o = [] /\ Operation_decoded o = d.
Proof.
  unfold decode_operation. intros Hd.
  destruct (decode_fields _ _ _ bytes) as [[seq kind]|] eqn:Hf; [|done].
  eapply (decode_fields_preserves _ _ (fun '(s, _) => opt_all u32 s)) in Hf; [| |done].
  - destruct seq as [s|]; cbn [ok_or] in Hd; [|done].
    destruct (Z.eqb_spec s (Z.of_nat index + 1)) as [Hs|]; cbn [negb] in Hd; [|done].
    destruct kind as [[t nb]|]; cbn [ok_or] in Hd; [|done]. inv_ok.
    match goal with Hk : decode_kind _ _ _ = Ok _ |- _ => apply decode_kind_inv in Hk as (k & ? & ? & ? & <-) end.
    exists (mkOperation (Z.of_nat index + 1) None [] k). by cbn in *.
  - clear. intros [s k] f [s' k'] HP Hs. unfold operation_step in Hs. inv_ok; simplify_eq; inv_tlv; done.
Qed.

(** ** Patches *)

(** The widths and string encodings of the Rust type. *)
Definition Patch_wf (p : PatchPayload) : Prop :=
  Forall (fun o => u32 (op_seq o) /\ kind_wf (op_kind o)) (pp_operations p) /\
  opt_all rust_string (pp_message p).

(** Which patches a schema version admits. *)
Definition schema_admits (schema_version : Z) (p : PatchPayload) : Prop :=
  Forall (fun o => kind_admitted schema_version (op_kind o)) (pp_operations p) /\
  (schema_version < PATCH_MESSAGE_SCHEMA -> pp_message p = None).

Definition patch_fields (p : PatchPayload) (ops conds : list (list byte))
  : list (Z * WireType * list byte) :=
  map (fun nb => (1, WireRecordListItem, nb)) ops
    ++ map (fun i => (3, WireEnumU16, to_be_bytes 2 (Intent_code i))) (option_list (pp_intent p))
    ++ map (fun nb => (4, WireRecord, nb)) conds
    ++ (if bool_decide (pp_purpose p <> PurposeNormal)
        then [(5, WireEnumU16, to_be_bytes 2 (PatchPurpose_code (pp_purpose p)))] else [])
    ++ map (fun v => (6, WireString, v)) (option_list (pp_message p)).

Lemma patch_tags p ops conds : tags_between 1 65535 (map to_field (patch_fields p ops conds)).
Proof. unfold patch_fields. solve_tags. Qed.

Lemma Patch_encode_inv p bytes :
  to_canonical_bytes p = Ok bytes ->
  PatchPayload_validate p = Ok tt /\
  exists ops conds, Forall2 (fun o nb => to_canonical_bytes o = Ok nb) (pp_operations p) ops /\
    bytes = enc_fields (map to_field (patch_fields p ops conds)).
Proof.
  unfold to_canonical_bytes at 1, encode_canonical, PatchPayload_encode. intros Hb.
  destruct (PatchPayload_validate p) as [[]|]; [|done].
  destruct (repeated_record_list 1 _ _) as [w1|] eqn:H1; [|done].
  destruct (match pp_intent p with Some _ => _ | None => _ end) as [w2|] eqn:H2; [|done].
  destruct (repeated_record 4 _ _) as [w3|] eqn:H3; [|done].
  destruct (if bool_decide _ then _ else Ok w3) as [w4|] eqn:H4; [|done].
  destruct (field_string_opt 6 _ _) as [w5|] eqn:H5; [|done]. apply Ok_inj in Hb as <-.
  apply repeated_record_list_inv in H1 as (ops & Hops & H1).
  apply repeated_record_inv in H3 as (conds & _ & H3).
  unfold field_enum_u16 in H4. rewrite field_when_fields in H4.
  unfold field_string_opt, field_string in H5. rewrite field_opt_fields in H5.
  split; [done|]. exists ops, conds. split; [done|].
  apply write_fields_finish; [apply patch_tags|]. unfold patch_fields.
  assert (write_fields (map (fun i => (3, WireEnumU16, to_be_bytes 2 (Intent_code i)))
    (option_list (pp_intent p))) w1 = Ok w2).
  { rewrite <- H2. destruct (pp_intent p); [symmetry; apply write_fields_one|done]. }
  eauto using write_fields_chain.
Qed.

Lemma contiguous_op_seq l1 (o : Operation) l2 :
  is_contiguous_op_seq (map op_seq (l1 ++ o :: l2)) = true -> op_seq o = Z.of_nat (length l1) + 1.
Proof.
  unfold is_contiguous_op_seq. rewrite forallb_forall. intros Hc.
  specialize (Hc (length l1, op_seq o)). cbn in Hc. apply Z.eqb_eq, Hc.
  apply list_elem_of_In. apply list_elem_of_lookup. exists (length l1).
  rewrite list_lookup_imap, map_app. cbn.
  by rewrite lookup_app_r, length_map, Nat.sub_diag by (rewrite length_map; lia).
Qed.

(** The operations of a patch are decoded in order, each at its position. *)
Lemma decode_operations_fold schema_version (todo : list Operation) (nbs : list (list byte)) :
  Forall2 (fun o nb => to_canonical_bytes o = Ok nb) todo nbs ->
  Forall (fun nb => zlen nb < 2 ^ 64) nbs ->
  Forall (fun o => u32 (op_seq o) /\ kind_wf (op_kind o)) todo ->
  Forall (fun o => kind_admitted schema_version (op_kind o)) todo ->
  forall done, is_contiguous_op_seq (map op_seq (done ++ todo)) = true ->
  foldM (patch_operations_step schema_version) (map Operation_decoded done)
    (map to_field (map (fun nb => (1, WireRecordListItem, nb)) nbs))
  = Ok (map Operation_decoded (done ++ todo)).
Proof.
  intros Henc. induction Henc as [|o nb todo nbs Ho Henc IH]; intros Hl Hw Ha pre Hc;
    cbn [map foldM]; [by rewrite app_nil_r|].
  apply Forall_cons in Hl as [Hl1 Hl], Hw as [[Hu Hw1] Hw], Ha as [Ha1 Ha].
  unfold patch_operations_step at 1. select_tag. unfold TlvField_require_wire.
  rewrite require_wire_written, value_wfield, length_map.
  rewrite (decode_operation_encoded o) by eauto using contiguous_op_seq.
  replace (map Operation_decoded pre ++ [Operation_decoded o]) with (map Operation_decoded (pre ++ [o]))
    by (by rewrite map_app).
  rewrite (app_assoc pre [o] todo : pre ++ o :: todo = _) in *. by apply IH.
Qed.

Lemma patch_validate_inv p :
  PatchPayload_validate p = Ok tt ->
  pp_operations p <> [] /\ is_contiguous_op_seq (map op_seq (pp_operations p)) = true /\
  pp_message p <> Some [].
Proof.
  unfold PatchPayload_validate. intros Hv. inv_ok. rewrite negb_false_iff in *.
  split_and!; [|done|by case_bool_decide]. by destruct (pp_operations p).
Qed.

Lemma patch_nested_len p ops conds :
  zlen (enc_fields (map to_field (patch_fields p ops conds))) < 2 ^ 64 ->
  Forall (fun nb => zlen nb < 2 ^ 64) ops.
Proof.
  intros Hl. apply Forall_forall. intros nb Hin. eapply Z.le_lt_trans; [|exact Hl].
  change nb with (value (to_field (1, WireRecordListItem, nb))). apply enc_fields_value_len.
  apply list_elem_of_fmap. eexists. split; [done|]. unfold patch_fields. apply elem_of_app. left.
  by apply (list_elem_of_fmap_2 (fun nb => (1, WireRecordListItem, nb))).
Qed.

(** The readers' runs over the fields of an encoded patch. *)
Lemma decode_patch_operations_encoded p ops conds schema_version :
  Patch_wf p -> schema_admits schema_version p -> PatchPayload_validate p = Ok tt ->
  Forall2 (fun o nb => to_canonical_bytes o = Ok nb) (pp_operations p) ops ->
  zlen (enc_fields (map to_field (patch_fields p ops conds))) < 2 ^ 64 ->
  decode_fields MalformedData (patch_operations_step schema_version) []
    (enc_fields (map to_field (patch_fields p ops conds)))
  = Ok (map Operation_decoded (pp_operations p)).
Proof.
  intros [Hw Hm] [Ha Hsm] (_ & Hc & _)%patch_validate_inv Hops Hl.
  rewrite decode_enc_fields by (done || apply patch_tags).
  pose proof (patch_nested_len _ _ _ Hl) as Hn. unfold patch_fields. rewrite !map_app.
  eapply foldM_then; [apply (decode_operations_fold _ _ _ Hops Hn Hw Ha []); done|]. cbn [app].
  do 2 (eapply foldM_then; [rewrite map_map; by apply foldM_skip|]).
  eapply foldM_then.
  { destruct (pp_purpose p); cbn [bool_decide decide]; [reflexivity|]. apply foldM_one.
    unfold patch_operations_step. run_tlv. by rewrite read_enum_u16_written. }
  destruct (pp_message p) as [m|]; [|done]. apply foldM_one. cbn in Hm.
  unfold patch_operations_step. run_tlv.
  destruct (Z.ltb_spec schema_version PATCH_MESSAGE_SCHEMA); [|done]. by specialize (Hsm ltac:(done)).
Qed.

Lemma decode_purpose_encoded p ops conds :
  zlen (enc_fields (map to_field (patch_fields p ops conds))) < 2 ^ 64 ->
  decode_from_patch_payload (enc_fields (map to_field (patch_fields p ops conds))) = Ok (pp_purpose p).
Proof.
  intros Hl. unfold decode_from_patch_payload. rewrite decode_enc_fields by (done || apply patch_tags).
  assert (foldM purpose_step (PurposeNormal, false) (map to_field (patch_fields p ops conds))
    = Ok (pp_purpose p, bool_decide (pp_purpose p <> PurposeNormal))) as ->; [|done].
  unfold patch_fields. rewrite !map_app.
  do 3 (eapply foldM_then; [rewrite map_map; by apply foldM_skip|]).
  eapply foldM_then; [|rewrite map_map; by apply foldM_skip].
  by destruct (pp_purpose p).
Qed.

Lemma decode_message_encoded p ops conds schema_version :
  Patch_wf p -> schema_admits schema_version p -> PatchPayload_validate p = Ok tt ->
  zlen (enc_fields (map to_field (patch_fields p ops conds))) < 2 ^ 64 ->
  decode_patch_message (enc_fields (map to_field (patch_fields p ops conds))) schema_version
  = Ok (pp_message p).
Proof.
  intros [_ Hm] [_ Hsm] (_ & _ & Hne)%patch_validate_inv Hl.
  unfold decode_patch_message. rewrite decode_enc_fields by (done || apply patch_tags).
  unfold patch_fields. rewrite !map_app.
  do 3 (eapply foldM_then; [rewrite map_map; by apply foldM_skip|]).
  eapply foldM_then; [by destruct (pp_purpose p)|].
  destruct (pp_message p) as [m|]; [|done]. apply foldM_one. cbn in Hm. unfold message_step. run_tlv.
  destruct (Z.ltb_spec schema_version PATCH_MESSAGE_SCHEMA); [by specialize (Hsm ltac:(done))|].
  rewrite bool_decide_eq_false_2 by congruence. done.
Qed.

Lemma decode_parents_encoded p ops conds :
  zlen (enc_fields (map to_field (patch_fields p ops conds))) < 2 ^ 64 ->
  decode_patch_parent_ids (enc_fields (map to_field (patch_fields p ops conds))) = Ok [].
Proof.
  intros Hl. unfold decode_patch_parent_ids. rewrite decode_enc_fields by (done || apply patch_tags).
  unfold patch_fields. rewrite !map_app.
  do 3 (eapply foldM_then; [rewrite map_map; by apply foldM_skip|]).
  eapply foldM_then; [by destruct (pp_purpose p)|]. rewrite map_map. by apply foldM_skip.
Qed.

(** What the operation loop has collected is what an author could have written. *)
Definition authored (schema_version : Z) (index : nat) (d : DecodedPatchOperation) (o : Operation)
  : Prop :=
  u32 (op_seq o) /\ op_seq o = Z.of_nat index + 1 /\ kind_wf (op_kind o) /\
  kind_validate (op_kind o) = Ok tt /\ kind_admitted schema_version (op_kind o) /\
  op_id o = None /\ op_preconditions o = [] /\ Operation_decoded o = d.

Lemma patch_operations_authored bytes schema_version ds :
  decode_fields MalformedData (patch_operations_step schema_version) [] bytes = Ok ds ->
  exists os, length os = length ds /\
    forall i d, ds !! i = Some d -> exists o, os !! i = Some o /\ authored schema_version i d o.
Proof.
  intros Hd. apply (decode_fields_preserves _ _ (fun ds => exists os, length os = length ds /\
    forall i d, ds !! i = Some d -> exists o, os !! i = Some o /\ authored schema_version i d o))
    in Hd; [done| |by exists []].
  clear. intros ds f ds' (os & Hlen & Hall) Hs. unfold patch_operations_step in Hs.
  destruct (tag f =? 1); [|repeat case_match; inv_ok; by exists os]. inv_ok.
  match goal with Ho : decode_operation _ _ _ = Ok _ |- _ => apply decode_operation_inv in Ho as (o & Hau) end.
  exists (os ++ [o]). rewrite !length_app, Hlen. split; [done|].
  intros i d [Hi|[Hi Hd]]%lookup_app_Some.
  - destruct (Hall i d Hi) as (o' & Ho' & ?). exists o'. split; [by apply lookup_app_l_Some|done].
  - exists o. apply list_lookup_singleton_Some in Hd as [Hi0 <-]. assert (i = length ds) as -> by lia.
    split; [by rewrite lookup_app_r, Hlen, Nat.sub_diag by lia|exact Hau].
Qed.

Lemma authored_patch_valid os :
  os <> [] -> (forall i o, os !! i = Some o -> op_seq o = Z.of_nat i + 1) ->
  PatchPayload_validate (mkPatch os None [] PurposeNormal None) = Ok tt.
Proof.
  intros Hne Hseq. unfold PatchPayload_validate. cbn [pp_operations pp_preconditions pp_message].
  destruct (Nat.eqb_spec (length os) 0) as [Hl|_]; [by apply nil_length_inv in Hl|].
  assert (is_contiguous_op_seq (map op_seq os) = true) as ->; [|done].
  apply forallb_forall. intros [i z] Hin. apply list_elem_of_In, list_elem_of_lookup in Hin as (j & Hj).
  rewrite list_lookup_imap, list_lookup_fmap in Hj. destruct (os !! j) as [o|] eqn:Ho; [|done].
  cbn in Hj. simplify_eq. by apply Z.eqb_eq, Hseq.
Qed.

(** Encoding an operation that carries only its sequence number and kind. *)
Lemma Operation_encode_plain o nb :
  op_id o = None -> op_preconditions o = [] -> kind_bytes (op_kind o) = Ok nb ->
  to_canonical_bytes o = Ok (enc_fields (map to_field (operation_fields o [] nb))).
Proof.
  intros Hi Hp Hb. rewrite <- write_fields_new by apply operation_tags.
  unfold to_canonical_bytes, encode_canonical, Operation_encode, operation_fields. rewrite Hi, Hp.
  cbn [field_string_opt repeated_record foldM map app option_list option_rect].
  apply (f_equal (fun r : PResult CanonicalWriter => let? w := r in Ok (finish w))).
  apply (write_fields_then [_] [_]); [apply write_fields_one|]. intros w.
  rewrite <- write_fields_one. unfold field_record.
  destruct (op_kind o); cbn [kind_bytes kind_tag] in *; unfold to_canonical_bytes in Hb; inv_ok; done.
Qed.

Lemma Patch_encode_plain os :
  PatchPayload_validate (mkPatch os None [] PurposeNormal None) = Ok tt ->
  Forall (fun o => op_id o = None /\ op_preconditions o = [] /\ kind_validate (op_kind o) = Ok tt) os ->
  exists bytes, to_canonical_bytes (mkPatch os None [] PurposeNormal None) = Ok bytes.
Proof.
  intros Hv Hos.
  assert (exists nbs, Forall2 (fun o nb => to_canonical_bytes o = Ok nb) os nbs) as [nbs Hnbs].
  { clear Hv. induction Hos as [|o os (Hi & Hp & Hk) Hos (nbs & IH)]; [by exists []|].
    eexists (_ :: nbs). constructor; [|done].
    apply Operation_encode_plain; [done..|]. by apply kind_bytes_fields. }
  exists (enc_fields (map to_field (map (fun nb => (1, WireRecordListItem, nb)) nbs))).
  rewrite <- write_fields_new by solve_tags.
  unfold to_canonical_bytes, encode_canonical, PatchPayload_encode. rewrite Hv.
  cbn [pp_operations pp_intent pp_preconditions pp_purpose pp_message repeated_record foldM
    field_string_opt bool_decide decide].
  assert (forall w, repeated_record_list 1 os w
    = write_fields (map (fun nb => (1, WireRecordListItem, nb)) nbs) w) as ->.
  { unfold repeated_record_list, write_fields. clear Hv Hos.
    induction Hnbs as [|o nb os nbs Ho Hnbs IH]; intros w; cbn [foldM map]; [done|].
    unfold field_record_list_item at 1. unfold to_canonical_bytes in Ho. inv_ok.
    destruct (field_raw _ _ _ w); [apply IH|done]. }
  by destruct (write_fields _ _).
Qed.
End patch.

(** ** Properties *)

(** C2: The store's patch decoder inverts the patch encoder.  Whatever patch the encoder accepts, at
    every schema version that admits it, decoding its canonical bytes yields exactly its operations
    in order (with their sequence numbers), its purpose, its message and no parent ids. *)
Theorem patch_encode_decode `{Sha256} p bytes schema_version :
  Patch_wf p -> schema_admits schema_version p -> zlen bytes < 2 ^ 64 ->
  to_canonical_bytes p = Ok bytes ->
  decode_patch_operations bytes schema_version = Ok (map Operation_decoded (pp_operations p)) /\
  decode_from_patch_payload bytes = Ok (pp_purpose p) /\
  decode_patch_message bytes schema_version = Ok (pp_message p) /\
  decode_patch_parent_ids bytes = Ok [].
Proof.
  intros Hw Ha Hl Hb. apply Patch_encode_inv in Hb as (Hv & ops & conds & Hops & ->).
  rewrite decode_purpose_encoded, decode_message_encoded, decode_parents_encoded by done.
  split_and!; try done. unfold decode_patch_operations.
  rewrite decode_purpose_encoded, (decode_patch_operations_encoded p) by done. cbn [map_err].
  apply patch_validate_inv in Hv as [Hne _]. by destruct (pp_operations p).
Qed.

Definition witness_patch (hash : list byte -> list byte) : PatchPayload :=
  mkPatch
    [mkOperation 1 (Some (bytes_of_string "op-a")) [PathAbsent (bytes_of_string "a.txt")]
       (OpCreateFile (mkCreateFile (bytes_of_string "a.txt") (replicate 32 x01) (replicate 32 x02) 33188));
     mkOperation 2 None []
       (OpEditText (mkEditText (replicate 32 x01) (replicate 32 x03) (hash (bytes_of_string "old"))
          (replicate 32 x04) (replicate 32 x05) (bytes_of_string "new") (Some 3) None
          (bytes_of_string "old") (Some 64) (Some 70)))]
    (Some Fix) [mkEntry (bytes_of_string "k") (AnchorExists (bytes_of_string "anchor"))]
    RollbackDraft (Some (bytes_of_string "message")).

Lemma patch_encode_decode_witness :
  exists bytes, @to_canonical_bytes _ (@PatchPayload_encode hash_mod_p) (witness_patch hash_mod_p_digest)
      = Ok bytes /\
    @decode_patch_operations hash_mod_p bytes 4
    = Ok (map Operation_decoded (pp_operations (witness_patch hash_mod_p_digest))).
Proof.
  eexists. split; [vm_compute; reflexivity|].
  eapply (@patch_encode_decode hash_mod_p (witness_patch hash_mod_p_digest)).
  - split; [|reflexivity]. cbn. repeat constructor; unfold u32; vm_compute; (reflexivity || discriminate).
  - split; [|intros Hlt; vm_compute in Hlt; discriminate].
    apply Forall_cons. split; [done|]. apply Forall_singleton. intros Hlt. vm_compute in Hlt. discriminate.
  - vm_compute. reflexivity.
  - vm_compute. reflexivity.
Defined.

(** C10: The decoder admits only what an author could have written.  Whatever bytes
    [decode_patch_operations] accepts, there is a patch of exactly the decoded operations that
    passes every encoder check: a non-empty, contiguous sequence, paths of the repository grammar,
    nonzero node ids, canonical file modes, preimages matching their node kind, span hashes bound
    to their UTF-8 text, and anchor lengths only where the schema has them.  The encoder writes
    that patch. *)
Theorem patch_admission_sound `{Sha256} bytes schema_version ds :
  decode_patch_operations bytes schema_version = Ok ds ->
  exists p, Patch_wf p /\ schema_admits schema_version p /\
    map Operation_decoded (pp_operations p) = ds /\
    Forall (fun o => kind_validate (op_kind o) = Ok tt) (pp_operations p) /\
    exists canon, to_canonical_bytes p = Ok canon.
Proof.
  unfold decode_patch_operations. intros Hd.
  destruct (map_err _ _); [|done]. destruct (decode_fields _ _ _ bytes) as [l|] eqn:Hf; [|done].
  destruct (Nat.eqb_spec (length l) 0) as [|Hne]; [done|]. apply Ok_inj in Hd as <-.
  apply patch_operations_authored in Hf as (os & Hlen & Hall).
  assert (Hos : forall i o, os !! i = Some o -> exists d, l !! i = Some d /\ authored schema_version i d o).
  { intros i o Ho. destruct (lookup_lt_is_Some_2 l i) as [d Hi].
    { rewrite <- Hlen. by eapply lookup_lt_Some. }
    destruct (Hall i d Hi) as (o' & Ho' & ?). exists d. split; [done|]. congruence. }
  exists (mkPatch os None [] PurposeNormal None). cbn [pp_operations].
  assert (map Operation_decoded os = l) as <-.
  { apply list_eq. intros i. rewrite list_lookup_fmap. destruct (os !! i) as [o|] eqn:Ho; cbn.
    - destruct (Hos i o Ho) as (d & -> & Hau). f_equal. apply Hau.
    - symmetry. apply lookup_ge_None. rewrite <- Hlen. by apply lookup_ge_None. }
  split_and!; [| |done| |apply Patch_encode_plain].
  - split; [|done]. apply Forall_lookup. intros i o Ho. by destruct (Hos i o Ho) as (? & _ & ? & ? & ? & _).
  - split; [|done]. apply Forall_lookup. intros i o Ho. by destruct (Hos i o Ho) as (? & _ & ? & ? & ? & ? & ? & _).
  - apply Forall_lookup. intros i o Ho. by destruct (Hos i o Ho) as (? & _ & ? & ? & ? & ? & _).
  - apply authored_patch_valid. { by destruct os. }
    intros i o Ho. by destruct (Hos i o Ho) as (? & _ & ? & ? & _).
  - apply Forall_lookup. intros i o Ho. destruct (Hos i o Ho) as (? & _ & ? & ? & ? & ? & ? & ? & ? & _). done.
Qed.

Definition witness_patch_bytes : list byte :=
  match @to_canonical_bytes _ (@PatchPayload_encode hash_mod_p) (witness_patch hash_mod_p_digest) with
  | Ok bytes => bytes
  | Err _ => []
  end.

Lemma patch_admission_sound_witness :
  exists p, Patch_wf p /\
    map Operation_decoded (pp_operations p)
    = map Operation_decoded (pp_operations (witness_patch hash_mod_p_digest)).
Proof.
  destruct (@patch_admission_sound hash_mod_p witness_patch_bytes 4
    (map Operation_decoded (pp_operations (witness_patch hash_mod_p_digest))))
    as (p & Hw & _ & Hp & _); [vm_compute; reflexivity|].
  exists p. split; [exact Hw|exact Hp].
Defined.

(** Admission is laxer than the reader of the message: a patch whose message field is present
    and empty is admitted by [decode_patch_operations], the decode that every importer runs, and
    refused by [decode_patch_message], and the encoder refuses to write such a message. *)
Theorem empty_message_admitted :
  exists bytes ds, @decode_patch_operations hash_mod_p bytes PATCH_MESSAGE_SCHEMA = Ok ds /\
    decode_patch_message bytes PATCH_MESSAGE_SCHEMA = Err (MalformedData "Patch message must not be empty") /\
    forall os i c pu, PatchPayload_validate (mkPatch os i c pu (Some [])) <> Ok tt.
Proof.
  exists (enc_fields (map to_field (patch_fields
    (mkPatch [] None [] PurposeNormal (Some []))
    [enc_fields (map to_field (operation_fields
       (mkOperation 1 None [] (OpReplaceBinary (mkReplaceBinary (replicate 32 x01) (replicate 32 x02) (replicate 32 x03))))
       [] (enc_fields (map to_field (ReplaceBinary_fields
             (mkReplaceBinary (replicate 32 x01) (replicate 32 x02) (replicate 32 x03)))))))] []))).
  eexists. split; [vm_compute; reflexivity|]. split; [vm_compute; reflexivity|].
  intros os i c pu Hv. apply patch_validate_inv in Hv as (_ & _ & Hm). by cbn in Hm.
Qed.
