(* ===== verification/TextSpan.v ===== *)
(** * Text-span identity (crates/prikk-store/src/text_span.rs, text_span/authoring.rs, text_span/inverse.rs)

    Content-anchored text edits: anchors, span identities, localization (v1 positional and v2
    content-unique), the splice, deterministic span selection for authoring and the derivation of
    direct inverses.  Byte offsets are [nat]; anchor lengths are [u32] values in [Z]. *)

From S2P Require Import Prelude PrikkError Hash Utf8 Canonical ObjectId Payload Blob Lifecycle Patch.

Definition TEXT_ANCHOR_WINDOW : nat := 64.

Inductive TextSpanResolutionFailure : Type :=
| AnchorMismatch
| NoMatchingSpanId
| Ambiguous
| MalformedAnchorLengths.

Record TextSpanSpliceError : Type := mkSpliceError {
  se_start : nat;
  se_end : nat;
  se_text_len : nat;
}.

Section text_span.
Context `{Sha256}.

(** ** Identity primitives *)

Definition text_blob_id (content : list byte) : PResult ObjectId :=
  let? bytes := to_canonical_bytes (BlobPayload_new BlobText content) in
  Ok (from_canonical_payload Blob 1 bytes).

Definition anchor_hash (domain context : list byte) : list byte :=
  sha256 (domain ++ to_be_bytes 4 (zlen context) ++ context).

Definition left_anchor (text : list byte) (start : nat) : list byte :=
  let lo := (start - TEXT_ANCHOR_WINDOW)%nat in
  anchor_hash (bytes_of_string "PRIKK-TEXT-LEFT-ANCHOR-v1") (default [] (get_range text lo start)).

Definition right_anchor (text : list byte) (end_ : nat) : list byte :=
  let hi := ((end_ + TEXT_ANCHOR_WINDOW) `min` length text)%nat in
  anchor_hash (bytes_of_string "PRIKK-TEXT-RIGHT-ANCHOR-v1") (default [] (get_range text end_ hi)).

Definition compute_span_id (node_id : NodeId) (old_span_hash left_hash right_hash : list byte)
    (dup_index : Z) : list byte :=
  sha256 (bytes_of_string "PRIKK-TEXT-SPAN-v1" ++ node_id ++ old_span_hash ++ left_hash ++ right_hash
            ++ to_be_bytes 4 dup_index).

Definition left_anchor_v2 (text : list byte) (start : nat) (len : Z) : list byte :=
  let lo := (start - Z.to_nat len)%nat in
  anchor_hash (bytes_of_string "PRIKK-TEXT-LEFT-ANCHOR-v2") (default [] (get_range text lo start)).

Definition right_anchor_v2 (text : list byte) (end_ : nat) (len : Z) : list byte :=
  let hi := ((end_ + Z.to_nat len) `min` length text)%nat in
  anchor_hash (bytes_of_string "PRIKK-TEXT-RIGHT-ANCHOR-v2") (default [] (get_range text end_ hi)).

Definition compute_span_id_v2 (node_id : NodeId) (old_span_hash left_hash right_hash : list byte)
    (left_len right_len : Z) : list byte :=
  sha256 (bytes_of_string "PRIKK-TEXT-SPAN-v2" ++ node_id ++ old_span_hash ++ left_hash ++ right_hash
            ++ to_be_bytes 4 left_len ++ to_be_bytes 4 right_len).

(** The [while i + needle.len() <= text.len()] loop; [fuel] bounds the number of iterations. *)
Fixpoint occurrences_loop (fuel : nat) (text needle : list byte) (i : nat) : list nat :=
  match fuel with
  | O => []
  | S fuel' =>
      if (i + length needle <=? length text)%nat then
        if bool_decide (get_range text i (i + length needle) = Some needle)
        then i :: occurrences_loop fuel' text needle (S i)
        else occurrences_loop fuel' text needle (S i)
      else []
  end.

Definition occurrences (text needle : list byte) : list nat :=
  if bool_decide (needle = []) then seq 0 (S (length text))
  else occurrences_loop (S (length text)) text needle 0.

(** ** Localization *)

Definition anchor_matching (matches : nat -> nat -> bool) (text old_span_text : list byte)
  : list (nat * nat) :=
  filter (fun '(start, end_) => matches start end_ = true)
    (map (fun start => (start, start + length old_span_text)%nat) (occurrences text old_span_text)).

Definition locate_text_span (text old_span_text record_left record_right record_span_id : list byte)
    (node_id : NodeId) (old_span_hash : list byte) : Result TextSpanResolutionFailure (nat * nat) :=
  let anchor_matching :=
    anchor_matching (fun start end_ =>
      bool_decide (left_anchor text start = record_left)
      && bool_decide (right_anchor text end_ = record_right)) text old_span_text in
  if Nat.eqb (length anchor_matching) 0 then Err AnchorMismatch
  else
    let matches :=
      omap (fun '(dup_index, span) =>
        if bool_decide (compute_span_id node_id old_span_hash record_left record_right
                          (Z.of_nat dup_index) = record_span_id)
        then Some span else None)
        (imap (fun dup_index span => (dup_index, span)) anchor_matching) in
    match matches with
    | [] => Err NoMatchingSpanId
    | [one] => Ok one
    | _ => Err Ambiguous
    end.

Definition locate_text_span_v2 (text old_span_text record_left record_right record_span_id : list byte)
    (node_id : NodeId) (old_span_hash : list byte) (left_len right_len : Z)
  : Result TextSpanResolutionFailure (nat * nat) :=
  let anchor_matching :=
    anchor_matching (fun start end_ =>
      bool_decide (left_anchor_v2 text start left_len = record_left)
      && bool_decide (right_anchor_v2 text end_ right_len = record_right)) text old_span_text in
  match anchor_matching with
  | [] => Err AnchorMismatch
  | [(start, end_)] =>
      let sid := compute_span_id_v2 node_id old_span_hash record_left record_right left_len right_len in
      if negb (bool_decide (sid = record_span_id)) then Err NoMatchingSpanId
      else Ok (start, end_)
  | _ => Err Ambiguous
  end.

Definition resolve_text_span (text old_span_text record_left record_right record_span_id : list byte)
    (node_id : NodeId) (old_span_hash : list byte) (left_anchor_len right_anchor_len : option Z)
  : Result TextSpanResolutionFailure (nat * nat) :=
  match left_anchor_len, right_anchor_len with
  | None, None =>
      locate_text_span text old_span_text record_left record_right record_span_id node_id old_span_hash
  | Some left_len, Some right_len =>
      locate_text_span_v2 text old_span_text record_left record_right record_span_id node_id
        old_span_hash left_len right_len
  | _, _ => Err MalformedAnchorLengths
  end.

Definition splice_text (text : list byte) (start end_ : nat) (replacement : list byte)
  : Result TextSpanSpliceError (list byte) :=
  if (end_ <? start)%nat || (length text <? end_)%nat
  then Err (mkSpliceError start end_ (length text))
  else
    Ok (default [] (get_range text 0 start) ++ replacement
          ++ default [] (get_range text end_ (length text))).

(** ** Authoring *)

(** [SelectionOutOfFuel] is not in the source: a fuelled loop of the model returns it when its fuel
    runs out, and no selection ever does ([select_span_total], [choose_anchor_lengths_terminates]). *)
Inductive TextSpanSelectionError : Type :=
| OldTextNotUtf8
| NewTextNotUtf8
| InvalidWidenedRange
| AnchorUniquenessUnreachable
| SelectionOutOfFuel.

Record SelectedSpan : Type := mkSelected {
  ss_old_start : nat;
  ss_old_end : nat;
  ss_new_start : nat;
  ss_new_end : nat;
  ss_old_span_text : list byte;
  ss_replacement_text : list byte;
}.

Fixpoint common_prefix_len (left_ right_ : list byte) : nat :=
  match left_, right_ with
  | a :: left', b :: right' => if bool_decide (a = b) then S (common_prefix_len left' right') else 0
  | _, _ => 0
  end%nat.

Definition common_suffix_len (left_ right_ : list byte) (prefix : nat) : nat :=
  let max := ((length left_ `min` length right_) - prefix)%nat in
  common_prefix_len (take max (rev left_)) (take max (rev right_)).

(** The first widening loop: both starts move left together. *)
Fixpoint widen_start (old : list byte) (old_start new_start : nat)
  : Result TextSpanSelectionError (nat * nat) :=
  if is_char_boundary old old_start then Ok (old_start, new_start)
  else
    match old_start, new_start with
    | S old_start', S new_start' => widen_start old old_start' new_start'
    | _, _ => Err InvalidWidenedRange
    end.

(** The second widening loop: both ends move right together. *)
Fixpoint widen_end (fuel : nat) (old new : list byte) (old_end new_end : nat)
  : Result TextSpanSelectionError (nat * nat) :=
  match fuel with
  | O => Err SelectionOutOfFuel
  | S fuel' =>
      if is_char_boundary old old_end then Ok (old_end, new_end)
      else if (length old <? S old_end)%nat || (length new <? S new_end)%nat
      then Err InvalidWidenedRange
      else widen_end fuel' old new (S old_end) (S new_end)
  end.

Definition select_span (old new : list byte) : Result TextSpanSelectionError (option SelectedSpan) :=
  if bool_decide (old = new) then Ok None
  else if negb (from_utf8 old) then Err OldTextNotUtf8
  else if negb (from_utf8 new) then Err NewTextNotUtf8
  else
    let prefix := common_prefix_len old new in
    let suffix := common_suffix_len old new prefix in
    let? '(old_start, new_start) := widen_start old prefix prefix in
    let? '(old_end, new_end) :=
      widen_end (S (length old)) old new (length old - suffix) (length new - suffix) in
    if (old_end <? old_start)%nat || (length old <? old_end)%nat || (new_end <? new_start)%nat
       || (length new <? new_end)%nat || negb (is_char_boundary old old_start)
       || negb (is_char_boundary old old_end) || negb (is_char_boundary new new_start)
       || negb (is_char_boundary new new_end)
    then Err InvalidWidenedRange
    else
      let? old_span_text := ok_or (get_range old old_start old_end) InvalidWidenedRange in
      let? replacement_text := ok_or (get_range new new_start new_end) InvalidWidenedRange in
      Ok (Some (mkSelected old_start old_end new_start new_end old_span_text replacement_text)).

(** [text.len() as u32] truncates; [saturating_mul] and [max(len + 1)] are on [u32]. *)
Definition u32_max : Z := 2 ^ 32 - 1.
Definition next_anchor_len (ceiling len : Z) : Z :=
  Z.max (Z.min (Z.min (len * 2) u32_max) ceiling) (len + 1).

Definition anchor_match_count (text old_span_text : list byte) (selected_start selected_end : nat)
    (len : Z) : nat :=
  let left_hash := left_anchor_v2 text selected_start len in
  let right_hash := right_anchor_v2 text selected_end len in
  length (filter (fun start =>
    bool_decide (left_anchor_v2 text start len = left_hash)
    && bool_decide (right_anchor_v2 text (start + length old_span_text) len = right_hash) = true)
    (occurrences text old_span_text)).

Fixpoint choose_loop (fuel : nat) (text old_span_text : list byte) (selected_start selected_end : nat)
    (ceiling len : Z) : Result TextSpanSelectionError (Z * Z) :=
  match fuel with
  | O => Err SelectionOutOfFuel
  | S fuel' =>
      if Nat.eqb (anchor_match_count text old_span_text selected_start selected_end len) 1
      then Ok (len, len)
      else if ceiling <=? len then Err AnchorUniquenessUnreachable
      else choose_loop fuel' text old_span_text selected_start selected_end ceiling
             (next_anchor_len ceiling len)
  end.

Definition choose_anchor_lengths_v2 (text old_span_text : list byte)
    (selected_start selected_end : nat) : Result TextSpanSelectionError (Z * Z) :=
  let ceiling := zlen text mod 2 ^ 32 in
  choose_loop 32 text old_span_text selected_start selected_end ceiling (Z.of_nat TEXT_ANCHOR_WINDOW).

Record AuthoredTextSpan : Type := mkAuthored {
  as_old_start : nat;
  as_old_end : nat;
  as_new_start : nat;
  as_new_end : nat;
  as_old_span_text : list byte;
  as_replacement_text : list byte;
  as_old_span_hash : list byte;
  as_left_anchor_hash : list byte;
  as_right_anchor_hash : list byte;
  as_left_anchor_len : Z;
  as_right_anchor_len : Z;
  as_span_id : list byte;
}.

Definition plan_authored_text_span (old new : list byte) (node_id : NodeId)
  : Result TextSpanSelectionError (option AuthoredTextSpan) :=
  let? selected := select_span old new in
  match selected with
  | None => Ok None
  | Some (mkSelected old_start old_end new_start new_end old_span_text replacement_text) =>
      let old_span_hash := text_span_hash old_span_text in
      let? '(left_anchor_len, right_anchor_len) :=
        choose_anchor_lengths_v2 old old_span_text old_start old_end in
      let left_anchor_hash := left_anchor_v2 old old_start left_anchor_len in
      let right_anchor_hash := right_anchor_v2 old old_end right_anchor_len in
      let span_id := compute_span_id_v2 node_id old_span_hash left_anchor_hash right_anchor_hash
                       left_anchor_len right_anchor_len in
      Ok (Some (mkAuthored old_start old_end new_start new_end old_span_text replacement_text
                  old_span_hash left_anchor_hash right_anchor_hash left_anchor_len right_anchor_len
                  span_id))
  end.

(** The [EditText] record [plan_edit_text] builds from an authored span. *)
Definition authored_edit_text (node_id : NodeId) (span : AuthoredTextSpan) : EditText :=
  mkEditText node_id (as_span_id span) (as_old_span_hash span) (as_left_anchor_hash span)
    (as_right_anchor_hash span) (as_replacement_text span) None None (as_old_span_text span)
    (Some (as_left_anchor_len span)) (Some (as_right_anchor_len span)).

(** ** Direct inverses *)

Definition derive_inverse_edit_text (pre_text : list byte) (node_id : NodeId)
    (span_id old_span_hash left_anchor_hash right_anchor_hash replacement_text old_span_text : list byte)
    (forward_left_anchor_len forward_right_anchor_len : option Z)
  : PResult (EditText * list byte) :=
  if negb (from_utf8 pre_text) then Err (Integrity "EditText inverse pre-text is not UTF-8")
  else if negb (from_utf8 old_span_text)
  then Err (Integrity "EditText inverse old_span_text is not UTF-8")
  else if negb (from_utf8 replacement_text)
  then Err (Integrity "EditText inverse replacement_text is not UTF-8")
  else if negb (bool_decide (text_span_hash old_span_text = old_span_hash))
  then Err (Integrity "EditText inverse old_span_hash does not match old_span_text")
  else
    let? '(start, end_) :=
      map_err (fun _ => Integrity "EditText inverse could not localize forward span: {reason}")
        (resolve_text_span pre_text old_span_text left_anchor_hash right_anchor_hash span_id node_id
           old_span_hash forward_left_anchor_len forward_right_anchor_len) in
    if negb (is_char_boundary pre_text start) || negb (is_char_boundary pre_text end_)
    then Err (Integrity "EditText inverse forward span is not on UTF-8 byte boundaries")
    else
      let? post_text :=
        map_err (fun _ => Integrity "EditText inverse forward splice failed: {err}")
          (splice_text pre_text start end_ replacement_text) in
      if negb (from_utf8 post_text)
      then Err (Integrity "EditText inverse post-forward text is not UTF-8")
      else
        let inverse_start := start in
        let inverse_end := (inverse_start + length replacement_text)%nat in
        if usize_max <? Z.of_nat inverse_end then Err (Integrity "EditText inverse range overflow")
        else if (length post_text <? inverse_end)%nat
                || negb (is_char_boundary post_text inverse_start)
                || negb (is_char_boundary post_text inverse_end)
        then Err (Integrity "EditText inverse replacement range is not on UTF-8 byte boundaries")
        else
          let inverse_old_span_hash := text_span_hash replacement_text in
          let? '(left_len, right_len) :=
            map_err (fun _ => Integrity "EditText inverse anchor lengths could not be derived: {err}")
              (choose_anchor_lengths_v2 post_text replacement_text inverse_start inverse_end) in
          let inverse_left := left_anchor_v2 post_text inverse_start left_len in
          let inverse_right := right_anchor_v2 post_text inverse_end right_len in
          let inverse_span_id := compute_span_id_v2 node_id inverse_old_span_hash inverse_left
                                   inverse_right left_len right_len in
          let inverse := mkEditText node_id inverse_span_id inverse_old_span_hash inverse_left
                           inverse_right old_span_text None None replacement_text (Some left_len)
                           (Some right_len) in
          let? located :=
            map_err (fun _ => Integrity
              "EditText inverse could not re-localize derived inverse: {reason}")
              (locate_text_span_v2 post_text (et_old_span_text inverse) (et_left_anchor_hash inverse)
                 (et_right_anchor_hash inverse) (et_span_id inverse) node_id (et_old_span_hash inverse)
                 left_len right_len) in
          if negb (bool_decide (located = (inverse_start, inverse_end)))
          then Err (Integrity "EditText inverse localized to a different post-forward range")
          else
            let? recovered :=
              map_err (fun _ => Integrity "EditText inverse recovery splice failed: {err}")
                (splice_text post_text (fst located) (snd located) (et_replacement_text inverse)) in
            if negb (bool_decide (recovered = pre_text))
            then Err (Integrity "EditText inverse did not recover pre-forward text")
            else Ok (inverse, post_text).
End text_span.

Example occurrences_overlap : occurrences [x61; x61; x61; x62] [x61; x61] = [0; 1]%nat.
Proof. reflexivity. Qed.
Example occurrences_empty_needle : occurrences [x61; x62] [] = [0; 1; 2]%nat.
Proof. reflexivity. Qed.
