(* ===== verification/TextSpanThms.v ===== *)
(** * Text-span authoring, localization and inverses agree

    A selected span splits the old and the new text around common well-formed context; the chosen
    anchors make it the only match; so an authored edit localizes to its span and its splice is the
    new text, and a derived inverse restores the old text. *)

From S2P Require Import Prelude PrikkError Hash Utf8 Canonical ObjectId Payload Blob Lifecycle Patch.
From S2P Require Import PatchDecode PatchTheorems TextSpan.

(** ** Splices *)

Lemma splice_app pre mid post replacement :
  splice_text (pre ++ mid ++ post) (length pre) (length pre + length mid) replacement
  = Ok (pre ++ replacement ++ post).
Proof.
  unfold splice_text. rewrite !length_app.
  destruct (Nat.ltb_spec (length pre + length mid) (length pre)); [lia|].
  destruct (Nat.ltb_spec (length pre + (length mid + length post)) (length pre + length mid)); [lia|].
  cbn [orb]. pose proof (get_range_app [] pre (mid ++ post)) as H1. cbn in H1. rewrite H1.
  pose proof (get_range_app (pre ++ mid) post []) as H2. rewrite app_nil_r, !length_app, <- app_assoc in H2.
  rewrite Nat.add_assoc, H2. done.
Qed.

(** ** Occurrences *)

Lemma occurrences_loop_spec text needle : forall fuel i,
  (length text < fuel + i)%nat ->
  forall k, k ∈ occurrences_loop fuel text needle i <->
    (i <= k)%nat /\ get_range text k (k + length needle) = Some needle.
Proof.
  induction fuel as [|fuel IH]; intros i Hf k; cbn [occurrences_loop].
  { split; [by intros ?%elem_of_nil|]. intros [Hik Hg]. unfold get_range in Hg.
    destruct (Nat.leb_spec (k + length needle) (length text)); [lia|]. by rewrite andb_false_r in Hg. }
  destruct (Nat.leb_spec (i + length needle) (length text)).
  - case_bool_decide as Hm.
    + rewrite elem_of_cons, IH by lia. split.
      * intros [->|[? ?]]; [done|]. split; [lia|done].
      * intros [Hik Hg]. destruct (decide (k = i)); [by left|right]. split; [lia|done].
    + rewrite IH by lia. split; intros [Hik Hg]; (split; [|done]); [lia|].
      destruct (decide (k = i)) as [->|]; [done|lia].
  - split; [by intros ?%elem_of_nil|]. intros [Hik Hg]. unfold get_range in Hg.
    destruct (Nat.leb_spec (k + length needle) (length text)); [lia|]. by rewrite andb_false_r in Hg.
Qed.

Lemma occurrences_loop_nodup text needle : forall fuel i,
  NoDup (occurrences_loop fuel text needle i) /\
  Forall (fun k => (i <= k)%nat) (occurrences_loop fuel text needle i).
Proof.
  induction fuel as [|fuel IH]; intros i; cbn [occurrences_loop]; [split; constructor|].
  destruct (IH (S i)) as [Hn Hle].
  assert (Hle' : Forall (fun k => (i <= k)%nat) (occurrences_loop fuel text needle (S i))).
  { eapply Forall_impl; [exact Hle|]. cbn. lia. }
  destruct (_ <=? _)%nat; [|split; constructor]. case_bool_decide; [|done].
  split; constructor; try done. intros Hin. rewrite Forall_forall in Hle. specialize (Hle i Hin). cbn in Hle. lia.
Qed.

Lemma elem_of_occurrences text needle k :
  k ∈ occurrences text needle <-> get_range text k (k + length needle) = Some needle.
Proof.
  unfold occurrences. case_bool_decide as Hn.
  - subst needle. rewrite elem_of_seq. unfold get_range. cbn [length]. rewrite Nat.add_0_r, Nat.leb_refl, Nat.sub_diag.
    destruct (Nat.leb_spec k (length text)); cbn; split; intros; try done; lia.
  - rewrite occurrences_loop_spec by lia. split; [by intros [_ ?]|]. intros. split; [lia|done].
Qed.

Lemma NoDup_occurrences text needle : NoDup (occurrences text needle).
Proof. unfold occurrences. case_bool_decide; [apply NoDup_seq|apply occurrences_loop_nodup]. Qed.

Lemma occurrence_at pre mid post : length pre ∈ occurrences (pre ++ mid ++ post) mid.
Proof. apply elem_of_occurrences, get_range_app. Qed.

(** ** Selection *)

Lemma common_prefix_len_spec a b :
  take (common_prefix_len a b) a = take (common_prefix_len a b) b /\
  (common_prefix_len a b <= length a)%nat /\ (common_prefix_len a b <= length b)%nat.
Proof.
  revert b. induction a as [|x a IH]; intros [|y b]; cbn [common_prefix_len]; try (cbn; split_and!; (done || lia)).
  case_bool_decide as Hxy; [|cbn; split_and!; (done || lia)]. subst y. destruct (IH b) as (H1 & H2 & H3).
  cbn. rewrite H1. split_and!; (done || lia).
Qed.

Lemma common_suffix_len_spec a b p :
  (p <= length a)%nat -> (p <= length b)%nat ->
  let s := common_suffix_len a b p in
  drop (length a - s) a = drop (length b - s) b /\ (p + s <= length a)%nat /\ (p + s <= length b)%nat.
Proof.
  intros Ha Hb s. unfold common_suffix_len in s.
  set (m := (length a `min` length b - p)%nat) in s.
  destruct (common_prefix_len_spec (take m (rev a)) (take m (rev b))) as (H1 & H2 & H3).
  fold s in H1, H2, H3. rewrite !length_take, !length_rev in *.
  assert (Hs : (s <= m)%nat) by lia. rewrite !take_take, (Nat.min_l s m) in H1 by done.
  split_and!; [|lia|lia]. apply (f_equal (@rev byte)) in H1.
  rewrite !firstn_rev, !rev_involutive in H1. exact H1.
Qed.

(** What a selection is: the old and the new text around a common prefix and suffix, all pieces
    well-formed. *)
Definition selected_spec (old new : list byte) (s : SelectedSpan) : Prop :=
  exists pre post,
    old = pre ++ ss_old_span_text s ++ post /\ new = pre ++ ss_replacement_text s ++ post /\
    ss_old_start s = length pre /\ ss_old_end s = (length pre + length (ss_old_span_text s))%nat /\
    ss_new_start s = length pre /\ ss_new_end s = (length pre + length (ss_replacement_text s))%nat /\
    from_utf8 pre = true /\ from_utf8 post = true /\
    from_utf8 (ss_old_span_text s) = true /\ from_utf8 (ss_replacement_text s) = true.

Lemma widen_start_spec old p :
  exists o, widen_start old p p = Ok (o, o) /\ (o <= p)%nat /\ is_char_boundary old o = true.
Proof.
  induction p as [|p (o & Ho & Hle & Hb)]; cbn [widen_start].
  - exists 0%nat. by split_and!.
  - destruct (is_char_boundary old (S p)) eqn:Hp; [exists (S p); by split_and!|].
    exists o. split_and!; [done|lia|done].
Qed.

Lemma widen_end_spec old new : forall fuel s,
  (s < fuel)%nat -> (s <= length old)%nat -> (s <= length new)%nat ->
  exists s', widen_end fuel old new (length old - s) (length new - s)
      = Ok (length old - s', length new - s')%nat /\
    (s' <= s)%nat /\ is_char_boundary old (length old - s') = true.
Proof.
  induction fuel as [|fuel IH]; intros s Hf Ho Hn; [lia|]. cbn [widen_end].
  destruct (is_char_boundary old (length old - s)) eqn:Hb; [exists s; by split_and!|].
  destruct s as [|s].
  { exfalso. rewrite Nat.sub_0_r in Hb. unfold is_char_boundary in Hb.
    destruct (Nat.eqb_spec (length old) 0); [done|].
    rewrite lookup_ge_None_2 in Hb by lia. by rewrite Nat.eqb_refl in Hb. }
  replace (S (length old - S s)) with (length old - s)%nat by lia.
  replace (S (length new - S s)) with (length new - s)%nat by lia.
  destruct (Nat.ltb_spec (length old) (length old - s)); [lia|].
  destruct (Nat.ltb_spec (length new) (length new - s)); [lia|]. cbn [orb].
  destruct (IH s) as (s' & Hs' & Hle & Hb'); [lia..|]. exists s'. split_and!; [done|lia|done].
Qed.

Lemma boundaries_range text lo hi :
  from_utf8 text = true -> is_char_boundary text lo = true -> is_char_boundary text hi = true ->
  (lo <= hi <= length text)%nat ->
  exists mid, get_range text lo hi = Some mid /\ from_utf8 mid = true /\
    text = take lo text ++ mid ++ drop hi text.
Proof.
  intros Ht Hl Hh [Hle Hlen].
  destruct (boundary_split text lo Ht Hl ltac:(lia)) as [Htl Hdl].
  destruct (boundary_split text hi Ht Hh ltac:(lia)) as [Hth Hdh].
  exists (take (hi - lo) (drop lo text)). unfold get_range.
  rewrite (proj2 (Nat.leb_le _ _)), (proj2 (Nat.leb_le _ _)) by lia. split; [done|].
  assert (Heq : text = take lo text ++ take (hi - lo) (drop lo text) ++ drop hi text).
  { rewrite <- (take_drop lo text) at 1. f_equal. rewrite <- (take_drop (hi - lo) (drop lo text)) at 1.
    by rewrite drop_drop; replace (lo + (hi - lo))%nat with hi by lia. }
  split; [|done]. rewrite <- (from_utf8_app (take lo text)) by done.
  rewrite <- (take_drop lo text) in Hth at 1.
  rewrite take_app_ge, length_take_le in Hth by (rewrite ?length_take_le; lia). exact Hth.
Qed.

Lemma select_span_total old new :
  old <> new -> from_utf8 old = true -> from_utf8 new = true ->
  exists s, select_span old new = Ok (Some s) /\ selected_spec old new s.
Proof.
  intros Hne Ho Hn. unfold select_span. rewrite bool_decide_eq_false_2, Ho, Hn by done. cbn [negb].
  destruct (common_prefix_len_spec old new) as (Hp & Hpo & Hpn).
  set (p := common_prefix_len old new) in *.
  destruct (common_suffix_len_spec old new p Hpo Hpn) as (Hs & Hso & Hsn).
  set (s := common_suffix_len old new p) in *.
  destruct (widen_start_spec old p) as (o & -> & Hop & Hob).
  destruct (widen_end_spec old new (S (length old)) s) as (t & -> & Hts & Htb); [lia..|].
  assert (Htake : take o old = take o new).
  { apply (f_equal (take o)) in Hp. by rewrite !take_take, Nat.min_l in Hp by done. }
  assert (Hdrop : drop (length old - t) old = drop (length new - t) new).
  { apply (f_equal (drop (s - t))) in Hs. rewrite !drop_drop in Hs.
    by replace (length old - s + (s - t))%nat with (length old - t)%nat in Hs by lia;
    replace (length new - s + (s - t))%nat with (length new - t)%nat in Hs by lia. }
  destruct (boundary_split old o Ho Hob ltac:(lia)) as [Hpre _].
  destruct (boundary_split old (length old - t) Ho Htb ltac:(lia)) as [_ Hpost].
  assert (Hnb : is_char_boundary new o = true) by (apply boundary_of_take; [done|by rewrite <- Htake|lia]).
  assert (Hnt : is_char_boundary new (length new - t) = true) by (apply boundary_of_drop; [by rewrite <- Hdrop|lia]).
  destruct (boundaries_range old o (length old - t)) as (mo & Hmo & Hmou & Heo); [done..|lia|].
  destruct (boundaries_range new o (length new - t)) as (mn & Hmn & Hmnu & Hen); [done..|lia|].
  rewrite !(proj2 (Nat.ltb_ge _ _)) by lia. rewrite Hob, Htb, Hnb, Hnt, Hmo, Hmn. cbn [negb orb ok_or].
  eexists. split; [reflexivity|]. exists (take o old), (drop (length old - t) old).
  apply get_range_inv in Hmo as (? & ? & _ & _ & Hlo). apply get_range_inv in Hmn as (? & ? & _ & _ & Hln).
  cbn. rewrite Htake at 2. rewrite Hdrop at 2. rewrite length_take_le by lia. by split_and!.
Qed.

(** ** Anchors *)

Section anchors.
Context `{Sha256}.

(** SHA-256 separates the anchors over the whole prefixes of one text: what the source's
    uniqueness argument rests on ("distinct positions necessarily produce distinct-length, hence
    distinct-hash, contexts").  The hashed strings have pairwise different lengths. *)
Definition prefix_anchors_distinct (text : list byte) : Prop :=
  forall i j, (i < j <= length text)%nat ->
    anchor_hash (bytes_of_string "PRIKK-TEXT-LEFT-ANCHOR-v2") (take i text)
    <> anchor_hash (bytes_of_string "PRIKK-TEXT-LEFT-ANCHOR-v2") (take j text).

(** At an anchor length no shorter than the text, the left context is the whole prefix. *)
Lemma left_anchor_whole text s len :
  zlen text <= len -> (s <= length text)%nat ->
  left_anchor_v2 text s len = anchor_hash (bytes_of_string "PRIKK-TEXT-LEFT-ANCHOR-v2") (take s text).
Proof.
  unfold left_anchor_v2, zlen. intros Hlen Hs.
  rewrite !(proj2 (Nat.sub_0_le _ _)) by lia. unfold get_range.
  rewrite !(proj2 (Nat.leb_le _ _)) by lia. cbn [andb from_option id].
  by rewrite drop_0, Nat.sub_0_r.
Qed.

Lemma left_anchor_whole_inj text s1 s2 len :
  prefix_anchors_distinct text ->
  zlen text <= len -> (s1 <= length text)%nat -> (s2 <= length text)%nat ->
  left_anchor_v2 text s1 len = left_anchor_v2 text s2 len -> s1 = s2.
Proof.
  intros Hd Hlen H1 H2. rewrite !left_anchor_whole by done. intros Heq.
  destruct (lt_eq_lt_dec s1 s2) as [[Hlt|]|Hlt]; [|done|].
  - by destruct (Hd s1 s2 ltac:(lia)).
  - by destruct (Hd s2 s1 ltac:(lia)).
Qed.

Abbreviation anchors_match text n left_hash right_hash l r := (fun start =>
  bool_decide (left_anchor_v2 text start l = left_hash)
  && bool_decide (right_anchor_v2 text (start + n) r = right_hash) = true).

Lemma selected_matches pre mid post len :
  length pre ∈ filter (anchors_match (pre ++ mid ++ post) (length mid)
      (left_anchor_v2 (pre ++ mid ++ post) (length pre) len)
      (right_anchor_v2 (pre ++ mid ++ post) (length pre + length mid) len) len len)
    (occurrences (pre ++ mid ++ post) mid).
Proof.
  apply list_elem_of_filter. split; [|apply occurrence_at].
  by rewrite !bool_decide_eq_true_2.
Qed.

(** The chosen lengths make the selected span the only match. *)
Lemma match_count_one pre mid post len :
  anchor_match_count (pre ++ mid ++ post) mid (length pre) (length pre + length mid) len = 1%nat ->
  filter (anchors_match (pre ++ mid ++ post) (length mid)
      (left_anchor_v2 (pre ++ mid ++ post) (length pre) len)
      (right_anchor_v2 (pre ++ mid ++ post) (length pre + length mid) len) len len)
    (occurrences (pre ++ mid ++ post) mid) = [length pre].
Proof.
  intros Hc. pose proof (selected_matches pre mid post len) as Hin.
  unfold anchor_match_count in Hc.
  match type of Hc with length ?l = _ => destruct l as [|x [|? ?]] eqn:Hl; try done end.
  by apply list_elem_of_singleton in Hin as ->.
Qed.

Lemma match_count_whole pre mid post len :
  prefix_anchors_distinct (pre ++ mid ++ post) -> zlen (pre ++ mid ++ post) <= len ->
  anchor_match_count (pre ++ mid ++ post) mid (length pre) (length pre + length mid) len = 1%nat.
Proof.
  intros Hd Hlen. pose proof (selected_matches pre mid post len) as Hin.
  set (text := pre ++ mid ++ post) in *. unfold anchor_match_count.
  match type of Hin with _ ∈ ?l => set (ms := l) in * end.
  change (length ms = 1%nat).
  assert (Hnd : NoDup ms) by (apply NoDup_filter, NoDup_occurrences).
  assert (Hall : forall x, x ∈ ms -> x = length pre).
  { intros x (Hm & Hx)%list_elem_of_filter.
    apply andb_prop in Hm as [Hm%bool_decide_eq_true _]. apply elem_of_occurrences in Hx.
    apply get_range_inv in Hx as (p & q & Ht & Hp & _).
    eapply (left_anchor_whole_inj text); [done|done| | |exact Hm].
    - rewrite Ht, length_app. lia.
    - unfold text. rewrite length_app. lia. }
  destruct ms as [|x [|y ms]]; [by apply elem_of_nil in Hin|done|].
  assert (x = length pre) as -> by (apply Hall; by left).
  assert (y = length pre) as -> by (apply Hall; by right; left).
  apply NoDup_cons in Hnd as [Hni _]. exfalso. apply Hni. by left.
Qed.

Lemma next_anchor_len_range ceiling len :
  64 <= len < ceiling -> ceiling <= u32_max -> 64 <= next_anchor_len ceiling len <= u32_max.
Proof. unfold next_anchor_len. lia. Qed.

Lemma choose_loop_sound text mid s e ceiling : ceiling <= u32_max -> forall fuel len l r,
  64 <= len <= u32_max ->
  choose_loop fuel text mid s e ceiling len = Ok (l, r) ->
  l = r /\ 64 <= l <= u32_max /\ anchor_match_count text mid s e l = 1%nat.
Proof.
  intros Hceil. induction fuel as [|fuel IH]; intros len l r Hlen Hc; cbn [choose_loop] in Hc; [done|].
  destruct (Nat.eqb_spec (anchor_match_count text mid s e len) 1) as [H1|]; [by inv_ok; simplify_eq|].
  destruct (Z.leb_spec ceiling len); [done|]. eapply IH; [|exact Hc].
  apply next_anchor_len_range; lia.
Qed.

Lemma choose_anchor_lengths_sound text mid s e l r :
  choose_anchor_lengths_v2 text mid s e = Ok (l, r) ->
  l = r /\ 64 <= l <= u32_max /\ anchor_match_count text mid s e l = 1%nat.
Proof.
  unfold choose_anchor_lengths_v2. apply choose_loop_sound; [|unfold u32_max, TEXT_ANCHOR_WINDOW; lia].
  pose proof (Z.mod_pos_bound (zlen text) (2 ^ 32)). unfold u32_max. lia.
Qed.

(** The loop stops within its fuel. *)
Lemma choose_loop_terminates text mid s e ceiling : ceiling <= u32_max -> forall fuel len,
  64 <= len -> ceiling <= len * 2 ^ Z.of_nat fuel ->
  choose_loop (S fuel) text mid s e ceiling len <> Err SelectionOutOfFuel.
Proof.
  intros Hceil. induction fuel as [|fuel IH]; intros len Hl Hc; cbn [choose_loop];
    (destruct (Nat.eqb _ 1); [done|]); (destruct (Z.leb_spec ceiling len) as [|Hlt]; [done|]).
  - cbn in Hc. lia.
  - apply IH; [unfold next_anchor_len; lia|]. rewrite Nat2Z.inj_succ, Z.pow_succ_r in Hc by lia.
    unfold next_anchor_len. assert (0 < 2 ^ Z.of_nat fuel) by lia. nia.
Qed.

Lemma choose_loop_unreachable text mid s e ceiling : forall fuel len,
  choose_loop fuel text mid s e ceiling len = Err AnchorUniquenessUnreachable ->
  exists len', ceiling <= len' /\ anchor_match_count text mid s e len' <> 1%nat.
Proof.
  induction fuel as [|fuel IH]; intros len Hc; cbn [choose_loop] in Hc; [done|].
  destruct (Nat.eqb_spec (anchor_match_count text mid s e len) 1) as [|H1]; [done|].
  destruct (Z.leb_spec ceiling len); [by exists len|by eapply IH].
Qed.

Lemma choose_loop_errors text mid s e ceiling : forall fuel len err,
  choose_loop fuel text mid s e ceiling len = Err err ->
  err = SelectionOutOfFuel \/ err = AnchorUniquenessUnreachable.
Proof.
  induction fuel as [|fuel IH]; intros len err Hc; cbn [choose_loop] in Hc; [inv_ok; by left|].
  destruct (Nat.eqb _ 1); [done|]. destruct (ceiling <=? len); [inv_ok; by right|by eapply IH].
Qed.

Lemma choose_anchor_lengths_terminates text mid s e :
  choose_anchor_lengths_v2 text mid s e <> Err SelectionOutOfFuel.
Proof.
  unfold choose_anchor_lengths_v2. pose proof (Z.mod_pos_bound (zlen text) (2 ^ 32)).
  apply (choose_loop_terminates _ _ _ _ (zlen text mod 2 ^ 32) ltac:(unfold u32_max; lia) 31);
    unfold TEXT_ANCHOR_WINDOW; change (2 ^ Z.of_nat 31) with 2147483648; lia.
Qed.

(** A unique pair of anchor lengths always exists, for texts whose length fits [u32]. *)
Lemma choose_anchor_lengths_total pre mid post :
  prefix_anchors_distinct (pre ++ mid ++ post) -> zlen (pre ++ mid ++ post) < 2 ^ 32 ->
  exists l, choose_anchor_lengths_v2 (pre ++ mid ++ post) mid (length pre) (length pre + length mid)
            = Ok (l, l).
Proof.
  intros Hd Hl.
  destruct (choose_anchor_lengths_v2 _ _ _ _) as [[l r]|err] eqn:Hc.
  - exists l. by apply choose_anchor_lengths_sound in Hc as (-> & _ & _).
  - exfalso. unfold choose_anchor_lengths_v2 in Hc.
    pose proof (choose_loop_errors _ _ _ _ _ _ _ _ Hc) as [->| ->].
    { by eapply choose_anchor_lengths_terminates. }
    apply choose_loop_unreachable in Hc as (len & Hle & Hne).
    rewrite Z.mod_small in Hle by (pose proof (zlen_nonneg (pre ++ mid ++ post)); lia).
    by rewrite match_count_whole in Hne.
Qed.

(** ** Localization of a uniquely anchored span *)

Lemma filter_map_pairs (P : nat -> nat -> bool) n (l : list nat) :
  filter (fun '(start, end_) => P start end_ = true) (map (fun start => (start, start + n)%nat) l)
  = map (fun start => (start, start + n)%nat) (filter (fun start => P start (start + n)%nat = true) l).
Proof.
  induction l as [|x l IH]; [done|]. cbn [map]. rewrite !filter_cons. cbn.
  destruct (P x (x + n)%nat); cbn; [by rewrite decide_True, decide_True, IH|by rewrite !decide_False, IH].
Qed.

Lemma locate_v2_unique pre mid post node_id old_span_hash len (text := pre ++ mid ++ post)
    (left_hash := left_anchor_v2 text (length pre) len)
    (right_hash := right_anchor_v2 text (length pre + length mid) len) :
  anchor_match_count text mid (length pre) (length pre + length mid) len = 1%nat ->
  locate_text_span_v2 text mid left_hash right_hash
    (compute_span_id_v2 node_id old_span_hash left_hash right_hash len len) node_id old_span_hash len len
  = Ok (length pre, length pre + length mid)%nat.
Proof.
  intros Hc%match_count_one. unfold locate_text_span_v2, anchor_matching. rewrite filter_map_pairs.
  fold text left_hash right_hash in Hc. rewrite Hc. cbn [map].
  by rewrite bool_decide_eq_true_2.
Qed.

Lemma locate_v2_inv text old_text l r sid node_id h ll rl start end_ :
  locate_text_span_v2 text old_text l r sid node_id h ll rl = Ok (start, end_) ->
  exists pre post, text = pre ++ old_text ++ post /\ start = length pre /\
    end_ = (length pre + length old_text)%nat.
Proof.
  unfold locate_text_span_v2, anchor_matching. rewrite filter_map_pairs. intros Hl.
  match type of Hl with context [filter ?P ?o] => destruct (filter P o) as [|x [|? ?]] eqn:Hf; cbn [map] in Hl; try done end.
  inv_ok. simplify_eq. assert (Hx : start ∈ occurrences text old_text).
  { eapply list_elem_of_filter. rewrite Hf. by left. }
  apply elem_of_occurrences, get_range_inv in Hx as (pre & post & -> & <- & _). eauto.
Qed.

Lemma locate_v1_inv text old_text l r sid node_id h start end_ :
  locate_text_span text old_text l r sid node_id h = Ok (start, end_) ->
  exists pre post, text = pre ++ old_text ++ post /\ start = length pre /\
    end_ = (length pre + length old_text)%nat.
Proof.
  unfold locate_text_span. intros Hl. destruct (Nat.eqb _ 0); [done|].
  match type of Hl with context [omap ?f ?o] => destruct (omap f o) as [|x [|? ?]] eqn:Ho; try done end.
  inv_ok. assert (Hx : (start, end_) ∈ omap (fun '(dup_index, span) =>
    if bool_decide (compute_span_id node_id h l r (Z.of_nat dup_index) = sid) then Some span else None)
    (imap (fun dup_index (span : nat * nat) => (dup_index, span)) (anchor_matching (fun start end_ =>
      bool_decide (left_anchor text start = l) && bool_decide (right_anchor text end_ = r)) text old_text)))
    by (rewrite Ho; by left).
  apply list_elem_of_omap in Hx as ([i sp] & Hin & Hsp). case_bool_decide; [|done]. simplify_eq.
  apply list_elem_of_lookup in Hin as (k & Hk). rewrite list_lookup_imap in Hk.
  destruct (anchor_matching _ _ _ !! k) as [sp|] eqn:Hm; [|done]. cbn in Hk. simplify_eq.
  apply list_elem_of_lookup_2 in Hm. unfold anchor_matching in Hm. rewrite filter_map_pairs in Hm.
  apply list_elem_of_fmap in Hm as (x & ? & (_ & Hx)%list_elem_of_filter). simplify_eq.
  apply elem_of_occurrences, get_range_inv in Hx as (pre & post & -> & <- & _). eauto.
Qed.

(** Whatever the record, a resolved span is an occurrence of its old text. *)
Lemma resolve_inv text old_text l r sid node_id h ll rl start end_ :
  resolve_text_span text old_text l r sid node_id h ll rl = Ok (start, end_) ->
  exists pre post, text = pre ++ old_text ++ post /\ start = length pre /\
    end_ = (length pre + length old_text)%nat.
Proof.
  unfold resolve_text_span. destruct ll, rl; try done; [apply locate_v2_inv|apply locate_v1_inv].
Qed.
End anchors.

(** ** Authoring *)

Section authoring.
Context `{Sha256}.

(** Localizing an [EditText] record in a text, as replay does. *)
Definition resolve_edit (text : list byte) (e : EditText) : Result TextSpanResolutionFailure (nat * nat) :=
  resolve_text_span text (et_old_span_text e) (et_left_anchor_hash e) (et_right_anchor_hash e)
    (et_span_id e) (et_node_id e) (et_old_span_hash e) (et_left_anchor_len e) (et_right_anchor_len e).

(** A v2 record minted for a span with unique anchors of length [len]. *)
Definition minted (pre mid post replacement : list byte) (node_id : NodeId) (len : Z) : EditText :=
  let text := pre ++ mid ++ post in
  let left_hash := left_anchor_v2 text (length pre) len in
  let right_hash := right_anchor_v2 text (length pre + length mid) len in
  mkEditText node_id
    (compute_span_id_v2 node_id (text_span_hash mid) left_hash right_hash len len)
    (text_span_hash mid) left_hash right_hash replacement None None mid (Some len) (Some len).

Lemma minted_resolves pre mid post replacement node_id len :
  anchor_match_count (pre ++ mid ++ post) mid (length pre) (length pre + length mid) len = 1%nat ->
  resolve_edit (pre ++ mid ++ post) (minted pre mid post replacement node_id len)
  = Ok (length pre, length pre + length mid)%nat.
Proof. apply locate_v2_unique. Qed.

Lemma minted_valid pre mid post replacement node_id len :
  node_id <> zero_node_id -> from_utf8 mid = true -> from_utf8 replacement = true -> 64 <= len ->
  EditText_validate (minted pre mid post replacement node_id len) = Ok tt.
Proof.
  intros Hz Hm Hr Hl. apply EditText_valid. cbn. unfold rust_string. split_and!; try done.
  by rewrite !(proj2 (Z.ltb_ge _ _)) by (unfold TEXT_SPAN_ANCHOR_MIN_LEN; lia).
Qed.

Lemma select_span_inv old new s :
  select_span old new = Ok (Some s) -> selected_spec old new s.
Proof.
  intros Hs. assert (old <> new /\ from_utf8 old = true /\ from_utf8 new = true) as (Hne & Ho & Hn).
  { unfold select_span in Hs. case_bool_decide; [done|].
    destruct (from_utf8 old), (from_utf8 new); done. }
  destruct (select_span_total old new Hne Ho Hn) as (s' & Hs' & Hspec). rewrite Hs in Hs'. by inv_ok.
Qed.

Lemma plan_inv old new node_id a :
  plan_authored_text_span old new node_id = Ok (Some a) ->
  exists pre mid post replacement len,
    old = pre ++ mid ++ post /\ new = pre ++ replacement ++ post /\
    from_utf8 mid = true /\ from_utf8 replacement = true /\ 64 <= len <= u32_max /\
    anchor_match_count old mid (length pre) (length pre + length mid) len = 1%nat /\
    as_old_start a = length pre /\ as_old_end a = (length pre + length mid)%nat /\
    authored_edit_text node_id a = minted pre mid post replacement node_id len.
Proof.
  unfold plan_authored_text_span. intros Hp.
  destruct (select_span old new) as [[s|]|] eqn:Hs; [|done..].
  apply select_span_inv in Hs as (pre & post & Ho & Hn & Hos & Hoe & _ & _ & _ & _ & Hm & Hr).
  destruct s as [os oe ns ne mid replacement].
  cbn [ss_old_start ss_old_end ss_old_span_text ss_replacement_text] in *. subst os oe.
  destruct (choose_anchor_lengths_v2 old mid _ _) as [[l r]|] eqn:Hc; [|done].
  apply choose_anchor_lengths_sound in Hc as (-> & Hl & Hc). inv_ok.
  exists pre, mid, post, replacement, r. split_and!; done || lia.
Qed.
(** Applying an [EditText] record to a text. *)
Definition edit_result (text : list byte) (e : EditText) (result : list byte) : Prop :=
  exists start end_, resolve_edit text e = Ok (start, end_) /\
    splice_text text start end_ (et_replacement_text e) = Ok result.

Definition derive_inverse (pre_text : list byte) (e : EditText) : PResult (EditText * list byte) :=
  derive_inverse_edit_text pre_text (et_node_id e) (et_span_id e) (et_old_span_hash e)
    (et_left_anchor_hash e) (et_right_anchor_hash e) (et_replacement_text e) (et_old_span_text e)
    (et_left_anchor_len e) (et_right_anchor_len e).

(** The inverse the code builds, and what it has checked when it returns it. *)
Lemma derive_inverse_inv pre_text e inv post_text :
  derive_inverse pre_text e = Ok (inv, post_text) ->
  exists p q len,
    pre_text = p ++ et_old_span_text e ++ q /\ post_text = p ++ et_replacement_text e ++ q /\
    from_utf8 (et_old_span_text e) = true /\ from_utf8 (et_replacement_text e) = true /\
    resolve_edit pre_text e = Ok (length p, length p + length (et_old_span_text e))%nat /\
    64 <= len <= u32_max /\
    anchor_match_count post_text (et_replacement_text e) (length p)
      (length p + length (et_replacement_text e)) len = 1%nat /\
    inv = minted p (et_replacement_text e) q (et_old_span_text e) (et_node_id e) len.
Proof.
  unfold derive_inverse, derive_inverse_edit_text. intros Hd.
  destruct (from_utf8 pre_text) eqn:Hu; cbn [negb] in Hd; [|done].
  destruct (from_utf8 (et_old_span_text e)) eqn:Huo; cbn [negb] in Hd; [|done].
  destruct (from_utf8 (et_replacement_text e)) eqn:Hur; cbn [negb] in Hd; [|done].
  destruct (negb (bool_decide _)) in Hd; [done|].
  destruct (resolve_text_span _ _ _ _ _ _ _ _ _) as [[start end_]|] eqn:Hr; cbn [map_err] in Hd; [|done].
  pose proof (resolve_inv _ _ _ _ _ _ _ _ _ _ _ Hr) as (p & q & Hpq & -> & ->).
  destruct (_ || _) in Hd; [done|]. rewrite Hpq, splice_app in Hd. cbn [map_err] in Hd.
  destruct (from_utf8 (p ++ _ ++ q)) in Hd; cbn [negb] in Hd; [|done].
  destruct (_ <? _) in Hd; [done|]. destruct (_ || _) in Hd; [done|].
  destruct (choose_anchor_lengths_v2 _ _ _ _) as [[l r]|] eqn:Hc; cbn [map_err] in Hd; [|done].
  apply choose_anchor_lengths_sound in Hc as (-> & Hl & Hc).
  exists p, q, r. split; [done|]. split.
  { repeat (destruct (map_err _ _) in Hd; [|done]). inv_ok; by simplify_eq. }
  inv_ok; simplify_eq; split_and!; done || lia.
Qed.
End authoring.

(** ** Properties *)

(** An authored text edit is exactly the edit: localizing the planned record in the old text
    finds the planned range and nothing else, splicing the replacement there yields the new text
    byte for byte, and the record passes [EditText::validate] for every nonzero node. *)
Theorem authored_edit_applies `{Sha256} old new node_id a :
  plan_authored_text_span old new node_id = Ok (Some a) ->
  let e := authored_edit_text node_id a in
  resolve_edit old e = Ok (as_old_start a, as_old_end a) /\
  splice_text old (as_old_start a) (as_old_end a) (et_replacement_text e) = Ok new /\
  (node_id <> zero_node_id -> EditText_validate e = Ok tt).
Proof.
  intros Hp e. apply plan_inv in Hp as (pre & mid & post & replacement & len & -> & -> & Hm & Hr & Hl & Hc & -> & -> & He).
  subst e. rewrite He. rewrite minted_resolves by done. split_and!; [done|apply splice_app|].
  intros Hz. apply minted_valid; (done || lia).
Qed.

Definition witness_plan : AuthoredTextSpan :=
  match @plan_authored_text_span hash_mod_p (bytes_of_string "a line") (bytes_of_string "a Line")
          (replicate 32 x01) with
  | Ok (Some a) => a
  | _ => mkAuthored 0 0 0 0 [] [] [] [] [] 0 0 []
  end.

Lemma authored_edit_applies_witness :
  as_old_start witness_plan = 2%nat /\
  splice_text (bytes_of_string "a line") (as_old_start witness_plan) (as_old_end witness_plan)
    (as_replacement_text witness_plan) = Ok (bytes_of_string "a Line").
Proof.
  split; [vm_compute; reflexivity|].
  refine (proj1 (proj2 (@authored_edit_applies hash_mod_p (bytes_of_string "a line")
    (bytes_of_string "a Line") (replicate 32 x01) witness_plan _))).
  vm_compute. reflexivity.
Defined.

(** Authoring always succeeds: for well-formed texts (the old one shorter than 4 GiB) a plan
    exists exactly when the texts differ: the widening loops stop at boundaries of both texts, and
    the anchor search stops with unique anchors, given that SHA-256 separates the anchors of the old
    text's own prefixes. *)
Theorem authoring_total `{Sha256} old new node_id :
  from_utf8 old = true -> from_utf8 new = true -> zlen old < 2 ^ 32 -> prefix_anchors_distinct old ->
  (old = new /\ plan_authored_text_span old new node_id = Ok None) \/
  (old <> new /\ exists a, plan_authored_text_span old new node_id = Ok (Some a)).
Proof.
  intros Ho Hn Hl Hd. unfold plan_authored_text_span. destruct (decide (old = new)) as [->|Hne].
  - left. split; [done|]. unfold select_span. by rewrite bool_decide_eq_true_2.
  - right. split; [done|]. destruct (select_span_total old new Hne Ho Hn) as (s & -> & Hspec).
    destruct Hspec as (pre & post & Heo & _ & Hos & Hoe & _). destruct s as [os oe ns ne mid r].
    cbn [ss_old_start ss_old_end ss_old_span_text ss_replacement_text] in *. subst os oe old.
    destruct (choose_anchor_lengths_total pre mid post Hd Hl) as (l & ->). by eexists.
Qed.

Lemma authoring_total_witness :
  exists a, @plan_authored_text_span hash_mod_p [x61; x61] [x61; xc3; xa9; x61] (replicate 32 x01)
            = Ok (Some a).
Proof.
  destruct (@authoring_total hash_mod_p [x61; x61] [x61; xc3; xa9; x61] (replicate 32 x01))
    as [[Heq _]|[_ Ha]]; [reflexivity|reflexivity|reflexivity| |discriminate Heq|exact Ha].
  intros [|[|[|i]]] [|[|[|j]]] Hij; cbn in Hij; try lia; vm_compute; discriminate.
Defined.

(** A derived inverse undoes the edit.  When the derivation succeeds, the text it returns is the
    forward edit's result, and the inverse record localizes in that result, restores the original
    text byte for byte, and passes [EditText::validate] for every nonzero node; so inverting the
    inverse also leads back. *)
Theorem inverse_edit_restores `{Sha256} pre_text e inv post_text :
  derive_inverse pre_text e = Ok (inv, post_text) ->
  edit_result pre_text e post_text /\ edit_result post_text inv pre_text /\
  et_node_id inv = et_node_id e /\
  (et_node_id e <> zero_node_id -> EditText_validate inv = Ok tt).
Proof.
  intros Hd. apply derive_inverse_inv in Hd as (p & q & len & -> & -> & Ho & Hr & Hf & Hl & Hc & ->).
  split_and!; [| |done|].
  - eexists _, _. split; [exact Hf|apply splice_app].
  - eexists _, _. split; [by apply minted_resolves|apply splice_app].
  - intros Hz. apply minted_valid; done || lia.
Qed.

Definition witness_edit : EditText := authored_edit_text (replicate 32 x01) witness_plan.
Definition witness_inverse : EditText :=
  match @derive_inverse hash_mod_p (bytes_of_string "a line") witness_edit with
  | Ok (inv, _) => inv
  | Err _ => witness_edit
  end.

Lemma inverse_edit_restores_witness :
  @edit_result hash_mod_p (bytes_of_string "a Line") witness_inverse (bytes_of_string "a line").
Proof.
  refine (proj1 (proj2 (@inverse_edit_restores hash_mod_p (bytes_of_string "a line") witness_edit
    witness_inverse (bytes_of_string "a Line") _))).
  vm_compute. reflexivity.
Defined.

(** Every applicable edit has an inverse.  For a valid record that localizes in a well-formed
    text (an insertion at a character boundary), whose result is shorter than 4 GiB and whose prefix
    anchors SHA-256 separates, the derivation succeeds: none of its checks can fail. *)
Theorem inverse_edit_total `{Sha256} pre_text e start end_ post_text :
  from_utf8 pre_text = true -> EditText_validate e = Ok tt ->
  resolve_edit pre_text e = Ok (start, end_) -> is_char_boundary pre_text start = true ->
  splice_text pre_text start end_ (et_replacement_text e) = Ok post_text ->
  zlen post_text < 2 ^ 32 -> prefix_anchors_distinct post_text ->
  exists inv, derive_inverse pre_text e = Ok (inv, post_text).
Proof.
  intros Hu (_ & Hh & Ho & Hrep & _)%EditText_valid Hr Hb Hs Hl Hd.
  unfold derive_inverse, derive_inverse_edit_text. rewrite Hu, Ho, Hrep. cbn [negb].
  rewrite bool_decide_eq_true_2 by done. cbn [negb]. unfold resolve_edit in Hr. rewrite Hr. cbn [map_err].
  apply resolve_inv in Hr as (p & q & -> & -> & ->). rewrite splice_app in *. apply Ok_inj in Hs as <-.
  set (o := et_old_span_text e) in *. set (r := et_replacement_text e) in *.
  destruct (boundary_split _ _ Hu Hb) as [Hp Hoq]; [rewrite length_app; lia|].
  rewrite take_app_length in Hp. rewrite drop_app_length, from_utf8_app in Hoq by done.
  assert (Hpost : from_utf8 (p ++ r ++ q) = true) by (by rewrite !from_utf8_app).
  assert (Hbnd : forall x y, from_utf8 y = true -> is_char_boundary (x ++ y) (length x) = true).
  { intros x y Hy. apply boundary_of_drop; [by rewrite drop_app_length|rewrite length_app; lia]. }
  assert (Hb2 : forall m, is_char_boundary (p ++ m ++ q) (length p + length m) = true).
  { intros m. rewrite app_assoc, <- length_app. by apply Hbnd. }
  cbn [map_err]. rewrite Hb, !Hb2, Hpost, (Hbnd p) by (by rewrite from_utf8_app). cbn [negb orb].
  assert (Hlen : zlen (p ++ r ++ q) = Z.of_nat (length p + length r) + zlen q).
  { unfold zlen. rewrite !length_app. lia. }
  pose proof (zlen_nonneg q). destruct (Z.ltb_spec usize_max (Z.of_nat (length p + length r))).
  { unfold usize_max in *. lia. }
  rewrite (proj2 (Nat.ltb_ge _ _)) by (rewrite !length_app; lia). cbn [orb map_err].
  destruct (choose_anchor_lengths_total p r q Hd Hl) as (l & Hc). rewrite Hc. cbn [map_err].
  apply choose_anchor_lengths_sound in Hc as (_ & _ & Hc).
  cbn [et_old_span_text et_left_anchor_hash et_right_anchor_hash et_span_id et_old_span_hash
    et_replacement_text]. rewrite locate_v2_unique by done. cbn [map_err fst snd].
  rewrite bool_decide_eq_true_2 by done. cbn [negb]. rewrite splice_app. cbn [map_err].
  rewrite bool_decide_eq_true_2 by done. by eexists.
Qed.

Lemma inverse_edit_total_witness :
  exists inv, @derive_inverse hash_mod_p [x61; x62]
    (@minted hash_mod_p [x61] [x62] [] [x63] (replicate 32 x01) 64) = Ok (inv, [x61; x63]).
Proof.
  eapply (@inverse_edit_total hash_mod_p _ _ 1%nat 2%nat); [vm_compute; reflexivity..|].
  intros [|[|[|i]]] [|[|[|j]]] Hij; cbn in Hij; try lia; vm_compute; discriminate.
Defined.
