(* ===== verification/PatchApply.v ===== *)
(** * Applying decoded operations (crates/prikk-store/src/patch_replay/apply.rs, patch_replay.rs, patch_replay/read.rs, blob_access.rs)

    The in-memory replay state: file bytes by path, live nodes by identity, the files deleted so far
    and the capture of deleted contents.  The source's [&mut] maps are one record here; every caller
    drops the maps when an operation fails, so a failing operation returns only its error.  The
    object store is the interface [ObjectReader] of [ObjectStore.v]. *)

From S2P Require Import Prelude PrikkError Hash Utf8 Canonical ObjectId Payload Blob Envelope.
From S2P Require Import Lifecycle RepoPath Patch ObjectStore PatchDecode TextSpan.

Record ReplayLiveNode : Type := mkReplayLive {
  rl_path : list byte;
  rl_kind : NodeKind;
  rl_mode : Z;
  rl_blob_id : ObjectId;
}.

Record PatchReplayDeletedFile : Type := mkDeletedFile {
  df_path : RepoPath;
  df_old_blob_id : ObjectId;
  df_old_node_kind : NodeKind;
}.

Record DeletedContentCapture : Type := mkCapture {
  dc_wanted : gset (list byte);
  dc_found : gmap (list byte) (NodeKind * list byte);
}.

Definition capture_for_ids (wanted : gset (list byte)) : DeletedContentCapture := mkCapture wanted ∅.

Definition capture_take (c : DeletedContentCapture) (blob_id : ObjectId) (kind : NodeKind)
    (bytes : list byte) : DeletedContentCapture :=
  if bool_decide (blob_id ∈ dc_wanted c)
  then mkCapture (dc_wanted c ∖ {[blob_id]}) (<[blob_id := (kind, bytes)]> (dc_found c))
  else c.

Definition capture_is_satisfied (c : DeletedContentCapture) : bool := bool_decide (dc_wanted c = ∅).

Record ReplayState : Type := mkReplay {
  rs_files : gmap (list byte) (list byte);
  rs_live : gmap (list byte) ReplayLiveNode;
  rs_deleted : gmap (list byte) PatchReplayDeletedFile;
  rs_capture : DeletedContentCapture;
}.

Section apply.
Context `{Sha256} `{ObjectReader}.

(** ** Blobs (blob_access.rs, read.rs) *)

Definition file_blob_id_for_kind (bytes : list byte) (old_node_kind : NodeKind) : PResult ObjectId :=
  let? blob_kind :=
    match old_node_kind with
    | TextFile => Ok BlobText
    | BinaryFile => Ok BlobBinary
    | SymlinkKind => Err (Integrity "DeleteNode symlink node has no file-content blob")
    end in
  let? canonical := to_canonical_bytes (BlobPayload_new blob_kind bytes) in
  Ok (from_canonical_payload Blob 1 canonical).

Definition ensure_blob_matches_node_kind (bytes : list byte) (expected : ObjectId)
    (old_node_kind : NodeKind) : PResult unit :=
  let? id := file_blob_id_for_kind bytes old_node_kind in
  if bool_decide (id = expected) then Ok tt
  else Err (Integrity "DeleteNode old_blob_id/old_node_kind mismatch: expected {expected}, got {id}").

Definition read_blob_bytes_with_kind (blob_id : ObjectId) : PResult (NodeKind * list byte) :=
  let? found := read_typed blob_id Blob in
  let? envelope := ok_or found (Integrity "missing Blob {blob_id}") in
  let? blob := BlobPayload_decode (canonical_payload envelope) in
  if bool_decide (blob_kind blob = BlobSnapshot)
  then Err (Integrity "file content reference points to a SNAPSHOT blob")
  else
    let? kind := NodeKind_from_file_blob_kind (blob_kind blob) in
    Ok (kind, content blob).

(** ** Single operations (apply.rs) *)

Definition apply_create_file (s : ReplayState) (path node_id blob_id : list byte) (mode : Z)
  : PResult ReplayState :=
  if is_some (rs_files s !! path)
  then Err (Integrity "CreateFile would overwrite existing path {path}")
  else if is_some (rs_live s !! node_id)
  then Err (Integrity "CreateFile would introduce an already-live node_id")
  else
    let? '(kind, bytes) := read_blob_bytes_with_kind blob_id in
    Ok (mkReplay (<[path := bytes]> (rs_files s))
          (<[node_id := mkReplayLive path kind mode blob_id]> (rs_live s))
          (delete path (rs_deleted s)) (rs_capture s)).

Definition apply_delete_file (s : ReplayState) (path node_id : list byte) (old_node_kind : NodeKind)
    (old_blob_id : list byte) : PResult ReplayState :=
  let? old_bytes := ok_or (rs_files s !! path) (Integrity "DeleteNode path is absent: {path}") in
  let? _ := ensure_blob_matches_node_kind old_bytes old_blob_id old_node_kind in
  let capture := capture_take (rs_capture s) old_blob_id old_node_kind old_bytes in
  let? repo_path := RepoPath_parse path in
  let deleted := mkDeletedFile repo_path old_blob_id old_node_kind in
  let done :=
    mkReplay (delete path (rs_files s)) (delete node_id (rs_live s))
      (<[path := deleted]> (rs_deleted s)) capture in
  match rs_live s !! node_id with
  | Some live =>
      if negb (bool_decide (rl_path live = path))
      then Err (Integrity "DeleteNode path {path} does not match live node path {}")
      else if negb (bool_decide (rl_kind live = old_node_kind))
      then Err (Integrity "DeleteNode old_node_kind does not match live node kind")
      else Ok done
  | None => Ok done
  end.

Definition apply_edit_text (s : ReplayState)
    (node_id span_id old_span_hash left_anchor_hash right_anchor_hash replacement_text old_span_text : list byte)
    (left_anchor_len right_anchor_len : option Z) : PResult ReplayState :=
  if negb (bool_decide (text_span_hash old_span_text = old_span_hash))
  then Err (Integrity "EditText hash verification failed before localization for node {} span {}")
  else
    let? live := ok_or (rs_live s !! node_id)
      (Integrity "EditText failed before blob load: node {} is not live (span {})") in
    if negb (bool_decide (rl_kind live = TextFile))
    then Err (Integrity "EditText failed before blob load: node {} is {:?}, not TextFile (span {})")
    else
      let? current_text := ok_or (rs_files s !! rl_path live)
        (Integrity "EditText failed before blob load: live node {} path {} is absent (span {})") in
      if negb (from_utf8 current_text)
      then Err (Integrity "EditText failed during UTF-8 validation for node {} span {}")
      else
        let? '(start, end_) :=
          map_err (fun _ => Integrity
            "EditText failed during localization for node {} span {}: {reason}")
            (resolve_text_span current_text old_span_text left_anchor_hash right_anchor_hash span_id
               node_id old_span_hash left_anchor_len right_anchor_len) in
        let? new_text :=
          map_err (fun _ => Integrity "EditText failed during splice for node {} span {}: {err}")
            (splice_text current_text start end_ replacement_text) in
        Ok (mkReplay (<[rl_path live := new_text]> (rs_files s)) (rs_live s) (rs_deleted s) (rs_capture s)).

Definition apply_replace_binary (s : ReplayState) (node_id old_blob_id new_blob_id : list byte)
  : PResult ReplayState :=
  let? live := ok_or (rs_live s !! node_id) (Integrity "ReplaceBinary target node {} is not live") in
  if negb (bool_decide (rl_kind live = BinaryFile))
  then Err (Integrity "ReplaceBinary target node {} is {:?}, not BinaryFile")
  else
    let? current_bytes := ok_or (rs_files s !! rl_path live)
      (Integrity "ReplaceBinary target path {} is absent for live node {}") in
    let? _ := ensure_blob_matches_node_kind current_bytes old_blob_id (rl_kind live) in
    let? '(new_kind, new_bytes) := read_blob_bytes_with_kind new_blob_id in
    if negb (bool_decide (new_kind = BinaryFile))
    then Err (Integrity "ReplaceBinary new blob {new_blob_id} is not a binary-file blob")
    else
      Ok (mkReplay (<[rl_path live := new_bytes]> (rs_files s))
            (<[node_id := mkReplayLive (rl_path live) (rl_kind live) (rl_mode live) new_blob_id]> (rs_live s))
            (rs_deleted s) (rs_capture s)).

Definition apply_change_perm (s : ReplayState) (node_id : list byte) (old_mode new_mode : Z)
  : PResult ReplayState :=
  let? live := ok_or (rs_live s !! node_id) (Integrity "ChangePerm target node {} is not live") in
  if negb (rl_mode live =? old_mode)
  then Err (Integrity "ChangePerm old_mode does not match live node {}'s current mode")
  else
    Ok (mkReplay (rs_files s)
          (<[node_id := mkReplayLive (rl_path live) (rl_kind live) new_mode (rl_blob_id live)]> (rs_live s))
          (rs_deleted s) (rs_capture s)).

Definition apply_decoded_operation (s : ReplayState) (operation : DecodedPatchOperation)
  : PResult ReplayState :=
  let? _ := ensure_apply_supported operation in
  match d_kind operation with
  | DCreateFile path node_id blob_id mode => apply_create_file s path node_id blob_id mode
  | DDeleteNode path node_id (DecodedFile old_node_kind old_blob_id _) =>
      apply_delete_file s path node_id old_node_kind old_blob_id
  | DEditText node_id span_id old_span_hash left_anchor_hash right_anchor_hash replacement_text
      old_span_text left_anchor_len right_anchor_len =>
      apply_edit_text s node_id span_id old_span_hash left_anchor_hash right_anchor_hash
        replacement_text old_span_text left_anchor_len right_anchor_len
  | DReplaceBinary node_id old_blob_id new_blob_id => apply_replace_binary s node_id old_blob_id new_blob_id
  | DChangePerm node_id old_mode new_mode => apply_change_perm s node_id old_mode new_mode
  | DRenamePath _ _ _ =>
      Err (MalformedData "apply_decoded_operation received a RenamePath -- the caller must route consecutive RenamePath runs to apply_rename_batch instead, never here")
  | _ =>
      Err (MalformedData "apply_decoded_operation received an operation kind ensure_apply_supported should have refused")
  end.

(** ** Rename runs *)

Record RenameScan : Type := mkScan {
  sc_resolved : list (list byte * list byte * list byte);
  sc_sources : gset (list byte);
  sc_destinations : gset (list byte);
}.

(** Phase 0, one operation. *)
Definition rename_scan (s : ReplayState) (a : RenameScan) (operation : DecodedPatchOperation)
  : PResult RenameScan :=
  match d_kind operation with
  | DRenamePath node_id old_path new_path =>
      let? live := ok_or (rs_live s !! node_id) (Integrity "RenamePath target node {} is not live") in
      if negb (bool_decide (rl_path live = old_path))
      then Err (Integrity "RenamePath old_path {old_path} does not match live node {}'s current path {}")
      else if bool_decide (node_id ∈ sc_sources a)
      then Err (Integrity "RenamePath renames node {} more than once in the same run")
      else if bool_decide (new_path ∈ sc_destinations a)
      then Err (Integrity "RenamePath names destination path {new_path} more than once in the same run")
      else
        Ok (mkScan (sc_resolved a ++ [(node_id, old_path, new_path)]) ({[node_id]} ∪ sc_sources a)
              ({[new_path]} ∪ sc_destinations a))
  | _ => Err (MalformedData "apply_rename_batch received a non-RenamePath operation")
  end.

(** Phase 1, one source path. *)
Definition rename_vacate (a : gmap (list byte) (list byte) * list (list byte * list byte * list byte))
    (r : list byte * list byte * list byte)
  : PResult (gmap (list byte) (list byte) * list (list byte * list byte * list byte)) :=
  let '(files, staged) := a in
  let '(node_id, old_path, new_path) := r in
  let? bytes := ok_or (files !! old_path) (Integrity "RenamePath source path {old_path} has no file content") in
  Ok (delete old_path files, staged ++ [(node_id, new_path, bytes)]).

(** Phase 2, one staged file. *)
Definition rename_check_vacant (files : gmap (list byte) (list byte))
    (staged : list byte * list byte * list byte) : PResult unit :=
  if is_some (files !! staged.1.2)
  then Err (Integrity "RenamePath target path {new_path} is occupied by another live node")
  else Ok tt.

(** Phase 3, one staged file. *)
Definition rename_commit (a : gmap (list byte) (list byte) * gmap (list byte) ReplayLiveNode)
    (staged : list byte * list byte * list byte)
  : gmap (list byte) (list byte) * gmap (list byte) ReplayLiveNode :=
  let '(files, live_nodes) := a in
  let '(node_id, new_path, bytes) := staged in
  (<[new_path := bytes]> files,
   match live_nodes !! node_id with
   | Some live =>
       <[node_id := mkReplayLive new_path (rl_kind live) (rl_mode live) (rl_blob_id live)]> live_nodes
   | None => live_nodes
   end).

Definition apply_rename_batch (s : ReplayState) (renames : list DecodedPatchOperation)
  : PResult ReplayState :=
  match renames with
  | [] => Ok s
  | _ =>
      let? scan := foldM (rename_scan s) (mkScan [] ∅ ∅) renames in
      let? '(files, staged) := foldM rename_vacate (rs_files s, []) (sc_resolved scan) in
      let? _ := for_each (rename_check_vacant files) staged in
      let '(files, live_nodes) := fold_left rename_commit staged (files, rs_live s) in
      Ok (mkReplay files live_nodes (rs_deleted s) (rs_capture s))
  end.

(** ** Operation sequences (patch_replay.rs) *)

Definition is_rename (operation : DecodedPatchOperation) : bool :=
  match d_kind operation with DRenamePath _ _ _ => true | _ => false end.

(** [next_if] until the next operation is no rename: the run and the operations after it. *)
Fixpoint take_run (operations : list DecodedPatchOperation)
  : list DecodedPatchOperation * list DecodedPatchOperation :=
  match operations with
  | next :: rest =>
      if is_rename next then let '(run, rest') := take_run rest in (next :: run, rest')
      else ([], operations)
  | [] => ([], [])
  end.

(** The [while let Some(first) = operations.next()] loop; each iteration consumes an operation. *)
Fixpoint apply_sequence_loop (fuel : nat) (s : ReplayState) (count : nat) (kinds : gset string)
    (operations : list DecodedPatchOperation) : PResult (ReplayState * nat * gset string) :=
  match operations with
  | [] => Ok (s, count, kinds)
  | first :: rest =>
      match fuel with
      | O => Err OutOfFuel
      | S fuel' =>
          if is_rename first then
            let '(run, rest') := take_run rest in
            let? s' := apply_rename_batch s (first :: run) in
            apply_sequence_loop fuel' s' (count + length (first :: run))
              ({["rename-path"]} ∪ kinds) rest'
          else
            let kind_label := applied_operation_kind_label (d_kind first) in
            let? s' := apply_decoded_operation s first in
            apply_sequence_loop fuel' s' (count + 1) ({[kind_label]} ∪ kinds) rest
      end
  end.

Definition apply_operation_sequence (s : ReplayState) (operations : list DecodedPatchOperation)
  : PResult (ReplayState * nat * gset string) :=
  apply_sequence_loop (length operations) s 0 ∅ operations.

(** ** The final manifest (read.rs) *)

Record ReplayManifestEntry : Type := mkManifestEntry {
  me_node_id : option NodeId;
  me_path : RepoPath;
  me_bytes : list byte;
  me_mode : Z;
  me_kind : option NodeKind;
  me_blob_id : option ObjectId;
}.

(** [collect] into a map: a later node at the same path replaces an earlier one. *)
Definition live_by_path (live_nodes : gmap (list byte) ReplayLiveNode)
  : gmap (list byte) (list byte * ReplayLiveNode) :=
  fold_left (fun m '(node_id, node) => <[rl_path node := (node_id, node)]> m)
    (btree_iter live_nodes) ∅.

Definition manifest_entry (by_path : gmap (list byte) (list byte * ReplayLiveNode))
    (file : list byte * list byte) : PResult ReplayManifestEntry :=
  let '(path, bytes) := file in
  let? '(node_id, live) := ok_or (by_path !! path) (Integrity "replayed path {path} has no live node") in
  let? repo_path := RepoPath_parse path in
  Ok (mkManifestEntry (Some node_id) repo_path bytes (rl_mode live) (Some (rl_kind live))
        (if bool_decide (rl_kind live = BinaryFile) then Some (rl_blob_id live) else None)).

Definition files_to_replay_manifest (files : gmap (list byte) (list byte))
    (live_nodes : gmap (list byte) ReplayLiveNode) : PResult (list ReplayManifestEntry) :=
  mapM_result (manifest_entry (live_by_path live_nodes)) (btree_iter files).
End apply.
