(* ===== verification/ReplayThms.v ===== *)
(** * The replay state and the lifecycle state agree

    [replay_ok]: files and live nodes are one-to-one.  A rename run on the replay state refines the
    rename batch on the lifecycle state of [Lifecycle.v]: they succeed together and stay related.
    Every operation that deletes live nodes only keeps files and nodes one-to-one. *)

From S2P Require Import Prelude PrikkError Hash Utf8 ObjectId Blob Envelope Lifecycle RepoPath Patch ObjectStore PatchDecode TextSpan PatchApply.
From S2P Require Import LifecycleInv Canonical Cursor Payload PatchTheorems TextSpanThms.


Record replay_ok (s : ReplayState) : Prop := {
  ro_file : forall id n, rs_live s !! id = Some n -> is_Some (rs_files s !! rl_path n);
  ro_node : forall p, is_Some (rs_files s !! p) -> exists id n, rs_live s !! id = Some n /\ rl_path n = p;
  ro_inj : forall id1 id2 n1 n2, rs_live s !! id1 = Some n1 -> rs_live s !! id2 = Some n2 ->
    rl_path n1 = rl_path n2 -> id1 = id2;
  ro_valid : forall p, is_Some (rs_files s !! p) -> valid_path p;
}.

(** A replayed live node and a lifecycle live node that describe the same file.  The blob of a text
    node may differ: replay keeps the blob of the last whole-content operation. *)
Definition same_node (r : ReplayLiveNode) (n : LiveNode) : Prop :=
  rl_path r = ln_path n /\ rl_kind r = ln_kind n /\ exists b, ln_content n = FileContent b (rl_mode r).

Definition refines (s : ReplayState) (l : NodeLifecycleState) : Prop :=
  forall id, match rs_live s !! id, live_by_id l !! id with
             | Some r, Some n => same_node r n
             | None, None => True
             | _, _ => False
             end.

Lemma refines_some s l id r :
  refines s l -> rs_live s !! id = Some r -> exists n, live_by_id l !! id = Some n /\ same_node r n.
Proof. intros Hr Hs. specialize (Hr id). rewrite Hs in Hr. destruct (live_by_id l !! id); [eauto|done]. Qed.
Lemma refines_live s l id n :
  refines s l -> live_by_id l !! id = Some n -> exists r, rs_live s !! id = Some r /\ same_node r n.
Proof. intros Hr Hs. specialize (Hr id). rewrite Hs in Hr. destruct (rs_live s !! id); [eauto|done]. Qed.

Definition is_rename_of (op : DecodedPatchOperation) (r : Rename) : Prop :=
  d_kind op = DRenamePath r.1.1 r.1.2 r.2.

(** ** The phases of a rename run *)

(** Phase 0 and the lifecycle batch's phase 0 check the same things. *)
Lemma scan_sim s l ops rs : refines s l -> Forall2 is_rename_of ops rs -> forall pre S D,
  match foldM (rename_scan s) (mkScan pre S D) ops, foldM (batch_check_pair l) (S, D) rs with
  | Ok a, Ok seen => a = mkScan (pre ++ rs) seen.1 seen.2
  | Err _, Err _ => True
  | _, _ => False
  end.
Proof.
  intros Hr Hops. induction Hops as [|op [[id old] new] ops rs Hop Hops IH]; intros pre S D; cbn [foldM].
  { by rewrite app_nil_r. }
  unfold rename_scan at 1. rewrite Hop. cbn [fst snd batch_check_pair sc_sources sc_destinations sc_resolved].
  specialize (Hr id). destruct (rs_live s !! id) as [r|], (live_by_id l !! id) as [n|]; try done.
  cbn [ok_or]. destruct Hr as (-> & _ & _).
  destruct (bool_decide (ln_path n = old)); cbn [negb]; [|done].
  destruct (bool_decide (id ∈ S)); [done|]. destruct (bool_decide (new ∈ D)); [done|].
  specialize (IH (pre ++ [(id, old, new)]) ({[id]} ∪ S) ({[new]} ∪ D)).
  rewrite <- app_assoc in IH. exact IH.
Qed.

(** The bytes a rename carries to its destination. *)
Definition stage (files : gmap (list byte) (list byte)) (r : Rename) : list byte * list byte * list byte :=
  (r.1.1, r.2, default [] (files !! r.1.2)).

Lemma vacate_spec (rs : list Rename) : forall files st,
  NoDup (old_paths rs) -> (forall o, o ∈ old_paths rs -> is_Some (files !! o)) ->
  exists files', foldM rename_vacate (files, st) rs = Ok (files', st ++ map (stage files) rs) /\
    forall p, files' !! p = if decide (p ∈ old_paths rs) then None else files !! p.
Proof.
  induction rs as [|[[id old] new] rs IH]; intros files st Hnd Hin; cbn [foldM].
  { exists files. cbn. by rewrite app_nil_r. }
  apply NoDup_cons in Hnd as [Hni Hnd]. destruct (Hin old) as [bytes Hb]; [by left|].
  unfold rename_vacate at 1. rewrite Hb. cbn [ok_or].
  destruct (IH (delete old files) (st ++ [(id, new, bytes)]) Hnd) as (files' & Hf & Hl).
  { intros o Ho. rewrite lookup_delete_ne by (intros ->; done). apply Hin. by right. }
  exists files'. split.
  - rewrite Hf, <- app_assoc. cbn [map app]. unfold stage at 2. cbn [fst snd]. rewrite Hb.
    do 3 f_equal. f_equal. apply map_ext_in. intros [[i o] w] Hi. unfold stage. cbn [fst snd].
    rewrite lookup_delete_ne; [done|]. intros ->. apply Hni. apply list_elem_of_fmap.
    exists (i, o, w). split; [done|]. by apply list_elem_of_In.
  - intros p. rewrite Hl. cbn [old_paths map fst snd]. fold (old_paths rs).
    destruct (decide (p ∈ old_paths rs)) as [Hp|Hp]; [by rewrite decide_True by (by right)|].
    destruct (decide (p = old)) as [->|Hne].
    + by rewrite lookup_delete_eq, decide_True by (by left).
    + by rewrite lookup_delete_ne, decide_False by (done || by apply not_elem_of_cons).
Qed.

(** A live node moved to another path. *)
Definition set_rpath (p : list byte) (r : ReplayLiveNode) : ReplayLiveNode :=
  mkReplayLive p (rl_kind r) (rl_mode r) (rl_blob_id r).

Lemma commit_spec content (rs : list Rename) : forall files live,
  NoDup (sources rs) -> NoDup (destinations rs) ->
  let res := fold_left rename_commit (map (stage content) rs) (files, live) in
  (forall id, res.2 !! id = match renamed_to rs id with
                           | Some new => set_rpath new <$> live !! id
                           | None => live !! id
                           end) /\
  (forall id old new, (id, old, new) ∈ rs -> res.1 !! new = Some (default [] (content !! old))) /\
  (forall p, p ∉ destinations rs -> res.1 !! p = files !! p).
Proof.
  induction rs as [|[[i o] w] rs IH]; intros files live.
  { intros _ _. cbn. split_and!; [done| |done]. by intros ? ? ? ?%elem_of_nil. }
  intros [Hni Hns]%NoDup_cons [Hnw Hnd]%NoDup_cons. cbn [map fold_left]. unfold stage at 2. cbn [fst snd rename_commit].
  destruct (IH (<[w := default [] (content !! o)]> files)
    (match live !! i with Some r => <[i := mkReplayLive w (rl_kind r) (rl_mode r) (rl_blob_id r)]> live
     | None => live end) Hns Hnd) as (H1 & H2 & H3). cbn zeta in *.
  split_and!.
  - intros id. rewrite H1. cbn [renamed_to]. case_decide as Hi.
    + subst id. rewrite (proj2 (renamed_to_none rs i)) by done.
      destruct (live !! i) eqn:Hl; cbn; [by rewrite lookup_insert_eq|done].
    + destruct (live !! i); [|done]. by rewrite lookup_insert_ne.
  - intros id old new [[= -> -> ->]|Hin]%elem_of_cons; [|by eapply H2].
    rewrite H3 by done. by rewrite lookup_insert_eq.
  - intros p [Hp1 Hp2]%not_elem_of_cons. cbn [fst snd] in Hp1. rewrite H3 by done. by rewrite lookup_insert_ne.
Qed.

(** ** Paths of related states *)

Lemma index_live s l p id :
  refines s l -> lifecycle_ok l ->
  path_to_id l !! p = Some id <-> exists r, rs_live s !! id = Some r /\ rl_path r = p.
Proof.
  intros Hr Hok. rewrite (ok_index l Hok). split.
  - intros (n & Hn & <-). destruct (refines_live s l id n Hr Hn) as (r & Hs & Heq & _). eauto.
  - intros (r & Hs & <-). destruct (refines_some s l id r Hr Hs) as (n & Hn & Heq & _). eauto.
Qed.

Lemma file_index s l p :
  replay_ok s -> refines s l -> lifecycle_ok l ->
  is_Some (rs_files s !! p) <-> is_Some (path_to_id l !! p).
Proof.
  intros Hs Hr Hok. split.
  - intros (id & n & Hn & Hp)%(ro_node s Hs). exists id. apply (index_live s l); eauto.
  - intros [id (n & Hn & <-)%(index_live s l p id Hr Hok)]. by apply (ro_file s Hs id).
Qed.

(** The old paths of a checked run are distinct, and occupied exactly by its sources. *)
Lemma run_old_paths s (rs : list Rename) :
  replay_ok s -> NoDup (sources rs) ->
  (forall id old new, (id, old, new) ∈ rs -> exists r, rs_live s !! id = Some r /\ rl_path r = old) ->
  NoDup (old_paths rs) /\ (forall o, o ∈ old_paths rs -> is_Some (rs_files s !! o)).
Proof.
  intros Hok Hns Hold. split.
  - induction rs as [|[[i o] w] rs IH]; [constructor|].
    apply NoDup_cons in Hns as [Hni Hns]. constructor; [|apply IH; [done|intros; eapply Hold; by right]].
    intros Hin. apply list_elem_of_fmap in Hin as ([[j o'] w'] & Ho & Hin). cbn in Ho. subst o'.
    destruct (Hold i o w) as (r1 & Hr1 & Hp1); [by left|].
    destruct (Hold j o w') as (r2 & Hr2 & Hp2); [by right|]. apply Hni.
    assert (i = j) as -> by (eapply (ro_inj s Hok); [exact Hr1|exact Hr2|congruence]).
    apply list_elem_of_fmap. by exists (j, o, w').
  - intros o Hin. apply list_elem_of_fmap in Hin as ([[j o'] w'] & -> & Hin).
    destruct (Hold _ _ _ Hin) as (r & Hr & <-). by apply (ro_file s Hok j).
Qed.

(** What a run that passes its checks does to the state. *)
Definition run_effect (s s' : ReplayState) (rs : list Rename) : Prop :=
  (forall id, rs_live s' !! id = match renamed_to rs id with
                                 | Some new => set_rpath new <$> rs_live s !! id
                                 | None => rs_live s !! id
                                 end) /\
  (forall id old new, (id, old, new) ∈ rs -> rs_files s' !! new = rs_files s !! old) /\
  (forall p, p ∉ destinations rs -> p ∈ old_paths rs -> rs_files s' !! p = None) /\
  (forall p, p ∉ destinations rs -> p ∉ old_paths rs -> rs_files s' !! p = rs_files s !! p) /\
  rs_deleted s' = rs_deleted s /\ rs_capture s' = rs_capture s /\
  NoDup (sources rs) /\
  (forall id old new, (id, old, new) ∈ rs -> exists r, rs_live s !! id = Some r /\ rl_path r = old).

Lemma elem_of_sources id old new (rs : list Rename) : (id, old, new) ∈ rs -> id ∈ sources rs.
Proof. intros Hin. apply list_elem_of_fmap. by exists (id, old, new). Qed.
Lemma elem_of_old_paths id old new (rs : list Rename) : (id, old, new) ∈ rs -> old ∈ old_paths rs.
Proof. intros Hin. apply list_elem_of_fmap. by exists (id, old, new). Qed.
Lemma elem_of_destinations id old new (rs : list Rename) : (id, old, new) ∈ rs -> new ∈ destinations rs.
Proof. intros Hin. apply list_elem_of_fmap. by exists (id, old, new). Qed.

(** A run whose checks pass: each entry names a live node at its old path and a destination that is
    free or vacated by the run. *)
Section checked_run.
Context (s s' : ReplayState) (rs : list Rename).
Hypothesis Hok : replay_ok s.
Hypothesis Hns : NoDup (sources rs).
Hypothesis Hnd : NoDup (destinations rs).
Hypothesis Hall : forall id old new, (id, old, new) ∈ rs ->
  (exists r, rs_live s !! id = Some r /\ rl_path r = old) /\ valid_path new /\
  (new ∈ old_paths rs \/ rs_files s !! new = None).
Hypothesis Heff : run_effect s s' rs.

(** A node at an old path of the run is a node of the run. *)
Lemma at_old_path id r : rs_live s !! id = Some r -> rl_path r ∈ old_paths rs -> id ∈ sources rs.
Proof.
  intros Hr Ho. apply list_elem_of_fmap in Ho as ([[j o] w] & Ho & Hj). cbn in Ho.
  destruct (Hall _ _ _ Hj) as ((rj & Hrj & Hpj) & _).
  assert (id = j) as -> by (eapply (ro_inj s Hok); [exact Hr|exact Hrj|congruence]).
  by eapply elem_of_sources.
Qed.

Lemma run_moved id r' :
  rs_live s' !! id = Some r' ->
  (exists old, (id, old, rl_path r') ∈ rs) \/
  (rs_live s !! id = Some r' /\ ~ (rl_path r' ∈ destinations rs) /\ ~ (rl_path r' ∈ old_paths rs)).
Proof.
  intros H'. rewrite (proj1 Heff) in H'. destruct (renamed_to rs id) as [new|] eqn:Hr.
  - left. apply renamed_to_some in Hr as [old Hin]; [|done]. exists old.
    destruct (rs_live s !! id); [|done]. cbn in H'. by simplify_eq.
  - right. apply renamed_to_none in Hr. split_and!; [done| |intros Ho; by eapply Hr, at_old_path].
    intros Hd. apply list_elem_of_fmap in Hd as ([[i o] w] & Hw & Hin). cbn in Hw. subst w.
    destruct (Hall _ _ _ Hin) as (_ & _ & [Ho|Hn]); [by eapply Hr, at_old_path|].
    destruct (ro_file s Hok id r' H') as [b Hb]. congruence.
Qed.

Lemma run_back p :
  is_Some (rs_files s' !! p) ->
  (exists id old, (id, old, p) ∈ rs) \/ (~ (p ∈ old_paths rs) /\ is_Some (rs_files s !! p)).
Proof.
  destruct Heff as (_ & _ & Hf2 & Hf3 & _). intros Hp.
  destruct (decide (p ∈ destinations rs)) as [Hd|Hd].
  - left. apply list_elem_of_fmap in Hd as ([[i o] w] & -> & Hin). by exists i, o.
  - right. destruct (decide (p ∈ old_paths rs)) as [Ho|Ho]; [by rewrite Hf2 in Hp by done; destruct Hp|].
    by rewrite Hf3 in Hp.
Qed.

Lemma run_effect_ok : replay_ok s'.
Proof.
  destruct (run_old_paths s rs Hok Hns) as [_ Hocc]; [intros; by eapply Hall|].
  destruct Heff as (Hl & Hf1 & _ & Hf3 & _). constructor.
  - intros id r' H'. destruct (run_moved id r' H') as [[old Hin]|(Hs & Hd & Ho)].
    + rewrite (Hf1 _ _ _ Hin). by eapply Hocc, elem_of_old_paths.
    + rewrite Hf3 by done. by apply (ro_file s Hok id).
  - intros p Hp. destruct (run_back p Hp) as [(id & old & Hin)|(Ho & Hs)].
    + destruct (Hall _ _ _ Hin) as ((r & Hr & _) & _). exists id, (set_rpath p r).
      rewrite Hl, (proj2 (renamed_to_some rs id p Hns)) by eauto. by rewrite Hr.
    + destruct (ro_node s Hok p Hs) as (id & r & Hr & <-). exists id, r. split; [|done].
      rewrite Hl. destruct (renamed_to rs id) as [new|] eqn:Hn; [|done].
      apply renamed_to_some in Hn as [old Hin]; [|done]. destruct (Hall _ _ _ Hin) as ((r2 & Hr2 & <-) & _).
      destruct Ho. simplify_eq. by eapply elem_of_old_paths.
  - intros id1 id2 r1 r2 H1 H2 Heq.
    destruct (run_moved id1 r1 H1) as [[o1 Hi1]|(Hs1 & Hd1 & _)],
      (run_moved id2 r2 H2) as [[o2 Hi2]|(Hs2 & Hd2 & _)].
    + rewrite Heq in Hi1. pose proof (proj2 (claimed_by_some rs _ id1 Hnd) (ex_intro _ o1 Hi1)).
      pose proof (proj2 (claimed_by_some rs _ id2 Hnd) (ex_intro _ o2 Hi2)). congruence.
    + destruct Hd2. rewrite <- Heq. by eapply elem_of_destinations.
    + destruct Hd1. rewrite Heq. by eapply elem_of_destinations.
    + by eapply (ro_inj s Hok).
  - intros p Hp. destruct (run_back p Hp) as [(id & old & Hin)|(_ & Hs)];
      [by eapply Hall|by apply (ro_valid s Hok)].
Qed.
End checked_run.

(** ** A rename run refines the lifecycle's rename batch *)

Section rename_run.
Context (s : ReplayState) (l : NodeLifecycleState) (rs : list Rename).
Hypothesis Hok : replay_ok s.
Hypothesis Href : refines s l.
Hypothesis Hlok : lifecycle_ok l.
Hypothesis Hns : NoDup (sources rs).
Hypothesis Hold : forall id old new, (id, old, new) ∈ rs ->
  exists n, live_by_id l !! id = Some n /\ ln_path n = old.

Lemma run_live id old new : (id, old, new) ∈ rs -> exists r, rs_live s !! id = Some r /\ rl_path r = old.
Proof.
  intros Hin. destruct (Hold _ _ _ Hin) as (n & Hn & <-).
  destruct (refines_live s l id n Href Hn) as (r & Hr & Heq & _). eauto.
Qed.

(** The vacancy check after vacating the sources and the lifecycle's occupancy check agree. *)
Lemma vacancy_agrees (files : gmap (list byte) (list byte)) (sources_seen : gset NodeId) :
  (forall p, files !! p = if decide (p ∈ old_paths rs) then None else rs_files s !! p) ->
  (forall id, id ∈ sources_seen <-> id ∈ sources rs) ->
  forall r, r ∈ rs ->
  rename_check_vacant files (stage (rs_files s) r) = Ok tt <->
  batch_check_destination l sources_seen r = Ok tt.
Proof.
  intros Hf Hseen [[id old] new] Hin. unfold rename_check_vacant, batch_check_destination, stage.
  cbn [fst snd]. rewrite Hf. destruct (path_to_id l !! new) as [occ|] eqn:Hocc.
  - destruct (proj1 (index_live s l new occ Href Hlok) Hocc) as (r & Hr & Hrp).
    destruct (ro_file s Hok occ r Hr) as [b Hb]. rewrite Hrp in Hb. case_decide as Ho.
    + rewrite bool_decide_eq_true_2; [done|]. apply Hseen.
      apply list_elem_of_fmap in Ho as ([[j o] w] & Ho & Hj). cbn in Ho.
      destruct (run_live _ _ _ Hj) as (rj & Hrj & Hpj).
      assert (occ = j) as -> by (eapply (ro_inj s Hok); [exact Hr|exact Hrj|congruence]).
      by eapply elem_of_sources.
    + rewrite Hb. cbn [is_some]. rewrite bool_decide_eq_false_2; [done|]. rewrite Hseen. intros Hs.
      apply list_elem_of_fmap in Hs as ([[j o] w] & Ho' & Hj). cbn in Ho'. subst j.
      destruct (run_live _ _ _ Hj) as (rj & Hrj & Hpj). destruct Ho. simplify_eq. by eapply elem_of_old_paths.
  - case_decide as Ho; [done|]. destruct (rs_files s !! new) as [b|] eqn:Hb; [|done].
    assert (is_Some (path_to_id l !! new)) as [? ?] by (apply (file_index s l); eauto). congruence.
Qed.
End rename_run.

Lemma for_each_agrees {A B} (f : A -> PResult unit) (g : B -> PResult unit) (h : B -> A) (rs : list B) :
  (forall r, r ∈ rs -> f (h r) = Ok tt <-> g r = Ok tt) ->
  for_each f (map h rs) = Ok tt <-> for_each g rs = Ok tt.
Proof.
  intros Hfg. rewrite !for_each_ok, Forall_map, !Forall_forall. split; intros Hx r Hr; by apply Hfg, Hx.
Qed.

Lemma rename_run_sim s l ops rs :
  replay_ok s -> refines s l -> lifecycle_ok l -> Forall2 is_rename_of ops rs ->
  Forall (fun r : Rename => valid_path r.2) rs ->
  match apply_rename_batch s ops, rename_nodes_checked_batch l rs with
  | Ok s', (Ok _, l') => replay_ok s' /\ refines s' l' /\ run_effect s s' rs
  | Err _, (Err _, _) => True
  | _, _ => False
  end.
Proof.
  intros Hok Href Hlok Hops Hval.
  destruct Hops as [|op r ops rs Hop Hops].
  { cbn. split_and!; try done. split_and!; try done; cbn; [..|constructor|]; intros; by apply elem_of_nil in H. }
  unfold apply_rename_batch, rename_nodes_checked_batch. cbv beta iota.
  pose proof (scan_sim s l (op :: ops) (r :: rs) Href ltac:(by constructor) [] ∅ ∅) as Hscan.
  set (rs' := r :: rs) in *. clearbody rs'. clear Hop Hops r rs. rename rs' into rs.
  destruct (foldM (rename_scan s) _ _) as [a|], (foldM (batch_check_pair l) _ _) as [seen|] eqn:H0; try done.
  subst a. cbn [sc_resolved app]. apply batch_check_pairs_ok in H0 as (Hns & Hnd & Hseen & Hold).
  destruct (run_old_paths s rs Hok Hns) as [Hno Hocc]; [intros; by eapply (run_live s l)|].
  destruct (vacate_spec rs (rs_files s) [] Hno Hocc) as (files & Hv & Hf). rewrite Hv. cbn [app].
  assert (Hagree := for_each_agrees (rename_check_vacant files) (batch_check_destination l seen.1)
    (stage (rs_files s)) rs (vacancy_agrees s l rs Hok Href Hlok Hold files seen.1 Hf Hseen)).
  destruct (for_each (rename_check_vacant files) _) as [[]|], (for_each (batch_check_destination l seen.1) rs) as [[]|] eqn:H1;
    try done; [|by destruct Hagree as [Ha _]; specialize (Ha eq_refl)|by destruct Hagree as [_ Ha]; specialize (Ha eq_refl)].
  replace (for_each (batch_check_index l) rs) with (@Ok PrikkError _ tt).
  2: { symmetry. apply for_each_ok, Forall_forall. intros [[id old] new] Hin. unfold batch_check_index. cbn.
       rewrite bool_decide_eq_true_2; [done|]. apply (ok_index l Hlok). by eapply Hold. }
  destruct (commit_spec (rs_files s) rs files (rs_live s) Hns Hnd) as (C1 & C2 & C3).
  destruct (fold_left rename_commit _ _) as [files' live'] eqn:Hc. cbn [fst snd] in *.
  assert (Heff : run_effect s (mkReplay files' live' (rs_deleted s) (rs_capture s)) rs).
  { split_and!; cbn [rs_live rs_files rs_deleted rs_capture]; try done.
    - intros id old new Hin. rewrite (C2 _ _ _ Hin).
      destruct (Hocc old) as [b Hb]; [by eapply elem_of_old_paths|]. by rewrite Hb.
    - intros p Hp Ho. by rewrite C3, Hf, decide_True.
    - intros p Hp Ho. by rewrite C3, Hf, decide_False.
    - intros id old new Hin. by eapply (run_live s l). }
  apply for_each_ok in H1. rewrite Forall_forall in H1, Hval.
  split_and!; [eapply run_effect_ok; try done| |done].
  - intros id old new Hin. split_and!; [by eapply (run_live s l)|by apply (Hval _ Hin)|].
    pose proof (proj2 (vacancy_agrees s l rs Hok Href Hlok Hold files seen.1 Hf Hseen _ Hin) (H1 _ Hin)) as Hvac.
    unfold rename_check_vacant, stage in Hvac. cbn [fst snd] in Hvac. rewrite Hf in Hvac.
    case_decide; [by left|right]. by destruct (rs_files s !! new).
  - destruct (rename_batch_ok l rs Hlok Hns Hnd Hold) as (_ & _ & _ & Hlive).
    { intros id old new Hin occ Hp. specialize (H1 _ Hin). unfold batch_check_destination in H1. cbn in H1.
      rewrite Hp in H1. case_bool_decide; [by apply Hseen|done]. }
    intros id. cbn [rs_live]. rewrite C1, Hlive. specialize (Href id).
    destruct (renamed_to rs id); [|done].
    destruct (rs_live s !! id), (live_by_id l !! id); try done. cbn. by destruct Href as (_ & ? & ?).
Qed.

(** ** Single operations keep files and nodes one-to-one *)

Lemma replay_ok_insert s path bytes id node deleted capture :
  replay_ok s -> rs_files s !! path = None -> rs_live s !! id = None -> rl_path node = path ->
  valid_path path ->
  replay_ok (mkReplay (<[path := bytes]> (rs_files s)) (<[id := node]> (rs_live s)) deleted capture).
Proof.
  intros Hok Hp Hid <- Hv. constructor; cbn [rs_files rs_live].
  - intros i n Hi. rewrite lookup_insert_is_Some'. destruct (decide (i = id)) as [->|].
    + rewrite lookup_insert_eq in Hi. simplify_eq. by left.
    + rewrite lookup_insert_ne in Hi by done. right. by apply (ro_file s Hok i).
  - intros p [<-|Hf]%lookup_insert_is_Some'.
    + exists id, node. by rewrite lookup_insert_eq.
    + destruct (ro_node s Hok p Hf) as (i & n & Hn & Hnp). exists i, n.
      rewrite lookup_insert_ne by congruence. done.
  - assert (Hnew : forall i n, i <> id -> rs_live s !! i = Some n -> rl_path n <> rl_path node).
    { intros i n _ Hn Heq. destruct (ro_file s Hok i n Hn). rewrite Heq in *. congruence. }
    intros i j n m Hi Hj Heq. destruct (decide (i = id)) as [->|], (decide (j = id)) as [->|]; [done|..];
      rewrite ?lookup_insert_eq, ?lookup_insert_ne in Hi by done;
      rewrite ?lookup_insert_eq, ?lookup_insert_ne in Hj by done; simplify_eq.
    + by destruct (Hnew j m).
    + by destruct (Hnew i n).
    + by eapply (ro_inj s Hok).
  - intros p [<-|Hf]%lookup_insert_is_Some'; [done|by apply (ro_valid s Hok)].
Qed.

Lemma replay_ok_remove s path id node deleted capture :
  replay_ok s -> rs_live s !! id = Some node -> rl_path node = path ->
  replay_ok (mkReplay (delete path (rs_files s)) (delete id (rs_live s)) deleted capture).
Proof.
  intros Hok Hid <-. constructor; cbn [rs_files rs_live].
  - intros i n [Hne Hi]%lookup_delete_Some. rewrite lookup_delete_ne; [by apply (ro_file s Hok i)|].
    intros Heq. apply Hne. by eapply (ro_inj s Hok).
  - intros p [b [Hne Hb]%lookup_delete_Some]. destruct (ro_node s Hok p) as (i & n & Hn & Hnp); [eauto|].
    exists i, n. rewrite lookup_delete_ne; [done|]. intros <-. congruence.
  - intros i j n m [_ Hi]%lookup_delete_Some [_ Hj]%lookup_delete_Some. by eapply (ro_inj s Hok).
  - intros p [b [_ Hb]%lookup_delete_Some]. apply (ro_valid s Hok). eauto.
Qed.

(** Updating a live node in place: its content, its mode or its blob. *)
Lemma replay_ok_update s id node node' bytes deleted capture :
  replay_ok s -> rs_live s !! id = Some node -> rl_path node' = rl_path node ->
  replay_ok (mkReplay (<[rl_path node := bytes]> (rs_files s)) (<[id := node']> (rs_live s)) deleted capture).
Proof.
  intros Hok Hid Hp. pose proof (ro_file s Hok id node Hid) as Hfile.
  assert (Hlook : forall i n, <[id := node']> (rs_live s) !! i = Some n ->
    exists m, rs_live s !! i = Some m /\ rl_path n = rl_path m).
  { intros i n Hi. destruct (decide (i = id)) as [->|].
    - rewrite lookup_insert_eq in Hi. simplify_eq. by exists node.
    - rewrite lookup_insert_ne in Hi by done. by exists n. }
  assert (Hsome : forall p, is_Some (<[rl_path node := bytes]> (rs_files s) !! p) -> is_Some (rs_files s !! p)).
  { by intros p [<-|?]%lookup_insert_is_Some'. }
  constructor; cbn [rs_files rs_live].
  - intros i n (m & Hm & ->)%Hlook. rewrite lookup_insert_is_Some'. right. by apply (ro_file s Hok i).
  - intros p (i & n & Hn & Hnp)%Hsome%(ro_node s Hok). destruct (decide (i = id)) as [->|].
    + exists id, node'. rewrite lookup_insert_eq. split; [done|]. congruence.
    + exists i, n. by rewrite lookup_insert_ne.
  - intros i j n m (n0 & Hn & ->)%Hlook (m0 & Hm & ->)%Hlook. by eapply (ro_inj s Hok).
  - intros p Hf%Hsome. by apply (ro_valid s Hok).
Qed.

(** The names an operation introduces are valid paths: the decoder guarantees it. *)
Definition names_valid (op : DecodedPatchOperation) : Prop :=
  match d_kind op with
  | DCreateFile path _ _ _ => valid_path path
  | DRenamePath _ _ new_path => valid_path new_path
  | _ => True
  end.

(** A deletion names a live node. *)
Definition deletes_live (s : ReplayState) (op : DecodedPatchOperation) : Prop :=
  match d_kind op with
  | DDeleteNode _ node_id _ => is_Some (rs_live s !! node_id)
  | _ => True
  end.

Section steps.
Context `{Sha256} `{ObjectReader}.

Lemma apply_operation_ok s op s' :
  replay_ok s -> names_valid op -> deletes_live s op ->
  apply_decoded_operation s op = Ok s' -> replay_ok s'.
Proof.
  intros Hok Hnv Hdl. unfold apply_decoded_operation, names_valid, deletes_live in *.
  destruct (ensure_apply_supported op); [|done]. destruct (d_kind op) as
    [path id blob mode|path id pre|id sid oh lh rh rt ot ll rl|id ob nb|id op' np|id om nm|? ? ?]; try done.
  - unfold apply_create_file. destruct (rs_files s !! path) eqn:Hp; [done|].
    destruct (rs_live s !! id) eqn:Hid; cbn [is_some]; [done|]. intros Ha. inv_ok. by apply replay_ok_insert.
  - destruct pre as [k b m|]; [|done]. unfold apply_delete_file. intros Ha. destruct Hdl as [live Hlive].
    rewrite Hlive in Ha. inv_ok. rewrite negb_false_iff in *.
    repeat match goal with Hb : bool_decide _ = true |- _ => apply bool_decide_eq_true in Hb end.
    by eapply replay_ok_remove.
  - unfold apply_edit_text. intros Ha. inv_ok.
    match goal with Hl : rs_live s !! id = Some ?r |- _ =>
      rewrite <- (insert_id (rs_live s) id r) at 1 by done; by eapply replay_ok_update end.
  - unfold apply_replace_binary. intros Ha. inv_ok. by eapply replay_ok_update.
  - unfold apply_change_perm. intros Ha. inv_ok.
    match goal with Hl : rs_live s !! id = Some ?r |- _ => destruct (ro_file s Hok id r Hl) as [b Hb];
      rewrite <- (insert_id (rs_files s) (rl_path r) b) by done; by eapply replay_ok_update end.
Qed.

(** ** The lifecycle state of a replay state *)

Definition to_live (r : ReplayLiveNode) : LiveNode :=
  mkLive (rl_path r) (rl_kind r) (FileContent (rl_blob_id r) (rl_mode r)).

Definition lifecycle_of (s : ReplayState) : NodeLifecycleState :=
  mkLifecycle (to_live <$> rs_live s)
    (list_to_map (map (fun '(id, r) => (rl_path r, id)) (map_to_list (rs_live s)))) ∅ (dom (rs_live s)).

Lemma lifecycle_of_refines s : refines s (lifecycle_of s).
Proof.
  intros id. cbn. rewrite lookup_fmap. destruct (rs_live s !! id); cbn; [|done].
  split_and!; [done|done|by eexists].
Qed.

Lemma lifecycle_of_ok s : replay_ok s -> lifecycle_ok (lifecycle_of s).
Proof.
  intros Hok. constructor; cbn.
  - intros p id. rewrite <- elem_of_list_to_map.
    + rewrite list_elem_of_fmap. split.
      * intros ([i r] & [= -> ->] & Hin%elem_of_map_to_list). exists (to_live r). by rewrite lookup_fmap, Hin.
      * intros (n & Hn & Hp). rewrite lookup_fmap in Hn. apply fmap_Some in Hn as (r & Hr & ->).
        exists (id, r). split; [by rewrite <- Hp|by apply elem_of_map_to_list].
    + rewrite <- list_fmap_compose. apply NoDup_fmap_2_strong; [|apply NoDup_map_to_list].
      intros [i r] [j r'] Hi%elem_of_map_to_list Hj%elem_of_map_to_list Heq. cbn in Heq.
      assert (i = j) as -> by (by eapply (ro_inj s Hok)). congruence.
  - intros id. rewrite lookup_fmap. intros [r Hr]%fmap_is_Some. by apply elem_of_dom_2 in Hr.
  - by intros id [? ?].
  - by intros id [? ?].
Qed.

Lemma apply_run_effect s ops s' :
  replay_ok s -> Forall names_valid ops -> Forall (fun op => is_rename op = true) ops ->
  apply_rename_batch s ops = Ok s' -> replay_ok s' /\ exists rs, run_effect s s' rs.
Proof.
  intros Hok Hnv Hren Ha.
  assert (exists rs, Forall2 is_rename_of ops rs /\ Forall (fun r : Rename => valid_path r.2) rs) as (rs & Hrs & Hval).
  { clear Ha. induction ops as [|op ops IH]; [by exists []|].
    apply Forall_cons in Hnv as [Hv Hnv], Hren as [Hr Hren]. destruct (IH Hnv Hren) as (rs & H1 & H2).
    unfold is_rename, names_valid in *. destruct (d_kind op) as [| | | |id old new| |] eqn:Hk; try done.
    exists ((id, old, new) :: rs). by split; constructor. }
  pose proof (rename_run_sim s (lifecycle_of s) ops rs Hok (lifecycle_of_refines s) (lifecycle_of_ok s Hok)
    Hrs Hval) as Hsim.
  rewrite Ha in Hsim. destruct (rename_nodes_checked_batch _ _) as [[]?]; [|done].
  split; [apply Hsim|exists rs; apply Hsim].
Qed.

(** ** Operation sequences *)

(** One iteration of the replay loop: a single operation or a run of renames. *)
Inductive replay_step : ReplayState -> list DecodedPatchOperation -> ReplayState -> Prop :=
| step_operation s op s' :
    is_rename op = false -> apply_decoded_operation s op = Ok s' -> replay_step s [op] s'
| step_run s ops s' :
    Forall (fun op => is_rename op = true) ops -> apply_rename_batch s ops = Ok s' -> replay_step s ops s'.

Inductive replay_steps : ReplayState -> list DecodedPatchOperation -> ReplayState -> Prop :=
| steps_done s : replay_steps s [] s
| steps_next s ops s1 rest s' :
    replay_step s ops s1 -> replay_steps s1 rest s' -> replay_steps s (ops ++ rest) s'.

Definition kind_labels (ops : list DecodedPatchOperation) : gset string :=
  list_to_set (map (fun op => applied_operation_kind_label (d_kind op)) ops).

Lemma take_run_spec ops run rest :
  take_run ops = (run, rest) ->
  ops = run ++ rest /\ Forall (fun op => is_rename op = true) run.
Proof.
  revert run rest. induction ops as [|op ops IH]; cbn; intros run rest Ht; [by simplify_eq|].
  destruct (is_rename op) eqn:Hr; [|by simplify_eq]. destruct (take_run ops) as [r t]. simplify_eq.
  destruct (IH r rest) as [-> Hf]; [done|]. by split; [|constructor].
Qed.

Lemma is_rename_label op : is_rename op = true -> applied_operation_kind_label (d_kind op) = "rename-path"%string.
Proof. unfold is_rename. by destruct (d_kind op). Qed.

Lemma run_labels run :
  run <> [] -> Forall (fun op => is_rename op = true) run -> kind_labels run = {["rename-path"%string]}.
Proof.
  unfold kind_labels. intros Hne Hr. induction Hr as [|op run Hop Hr IH]; [done|]. cbn.
  rewrite is_rename_label by done. destruct run as [|op' run]; [cbn; set_solver|]. rewrite IH by done. set_solver.
Qed.

Lemma kind_labels_app a b : kind_labels (a ++ b) = kind_labels a ∪ kind_labels b.
Proof. unfold kind_labels. by rewrite map_app, list_to_set_app_L. Qed.

Lemma sequence_loop_steps : forall fuel s count kinds ops s' n ks,
  apply_sequence_loop fuel s count kinds ops = Ok (s', n, ks) ->
  replay_steps s ops s' /\ n = (count + length ops)%nat /\ ks = kind_labels ops ∪ kinds.
Proof.
  induction fuel as [|fuel IH]; intros s count kinds ops s' n ks Ha; destruct ops as [|first rest]; cbn [apply_sequence_loop] in Ha.
  1,3: inv_ok; simplify_eq; split_and!; [constructor|by rewrite Nat.add_0_r|unfold kind_labels; set_solver].
  { done. }
  destruct (is_rename first) eqn:Hr.
  - destruct (take_run rest) as [run rest'] eqn:Ht. apply take_run_spec in Ht as [-> Hrun].
    destruct (apply_rename_batch s (first :: run)) as [s1|] eqn:Hb; [|done].
    apply IH in Ha as (Hs & -> & ->).
    assert (Hall : Forall (fun op => is_rename op = true) (first :: run)) by (by constructor).
    split_and!.
    + rewrite app_comm_cons. econstructor; [by apply step_run|done].
    + cbn [length app]. rewrite length_app. cbn. lia.
    + rewrite app_comm_cons, kind_labels_app, (run_labels (first :: run)) by done. set_solver.
  - destruct (apply_decoded_operation s first) as [s1|] eqn:Hb; [|done].
    apply IH in Ha as (Hs & -> & ->). split_and!.
    + apply (steps_next s [first]) with s1; [by apply step_operation|done].
    + cbn. lia.
    + change (first :: rest) with ([first] ++ rest). rewrite kind_labels_app. unfold kind_labels at 2. cbn. set_solver.
Qed.

(** More fuel than operations changes nothing: the loop never runs out. *)
Lemma sequence_loop_fuel : forall fuel fuel' s count kinds ops,
  (length ops <= fuel)%nat -> (length ops <= fuel')%nat ->
  apply_sequence_loop fuel s count kinds ops = apply_sequence_loop fuel' s count kinds ops.
Proof.
  induction fuel as [|fuel IH]; intros fuel' s count kinds ops Hl Hl'; destruct ops as [|first rest];
    destruct fuel' as [|fuel']; cbn [apply_sequence_loop length] in *; try done; try lia.
  destruct (is_rename first).
  - destruct (take_run rest) as [run rest'] eqn:Ht. apply take_run_spec in Ht as [-> _].
    rewrite length_app in Hl, Hl'. destruct (apply_rename_batch _ _); [|done]. apply IH; lia.
  - destruct (apply_decoded_operation _ _); [|done]. apply IH; lia.
Qed.

(** An invariant of one-to-one states that operations and rename runs keep holds after a whole
    sequence, unless a deletion names a node that is not live. *)
Lemma replay_steps_inv (P : ReplayState -> Prop) s ops s' :
  (forall s op s', replay_ok s -> P s -> apply_decoded_operation s op = Ok s' -> P s') ->
  (forall s s' rs, replay_ok s' -> run_effect s s' rs -> P s -> P s') ->
  replay_steps s ops s' -> replay_ok s -> P s -> Forall names_valid ops ->
  (replay_ok s' /\ P s') \/
  exists pre op post s1, ops = pre ++ op :: post /\ replay_steps s pre s1 /\ ~ deletes_live s1 op.
Proof.
  intros Hop Hrun. induction 1 as [s|s ops s1 rest s' Hstep Hsteps IH]; intros Hok HP Hnv; [by left|].
  apply Forall_app in Hnv as [Hnv1 Hnv2].
  assert ((replay_ok s1 /\ P s1) \/ exists op, ops = [op] /\ ~ deletes_live s op) as [[Hok1 HP1]|(op & -> & Hdel)].
  { inversion Hstep as [? op ? Hr Ha|? ? ? Hr Ha]; subst.
    - rewrite Forall_singleton in Hnv1.
      assert (Decision (deletes_live s op)) as [Hd|Hd] by (unfold deletes_live; destruct (d_kind op); apply _).
      + left. split; [by eapply apply_operation_ok|by eapply Hop].
      + right. by exists op.
    - left. destruct (apply_run_effect s ops s1 Hok Hnv1 Hr Ha) as (Hok1 & rs & Heff).
      split; [done|by eapply Hrun]. }
  - destruct (IH Hok1 HP1 Hnv2) as [?|(pre & op & post & s2 & -> & Hpre & Hdel)]; [by left|right].
    exists (ops ++ pre), op, post, s2. rewrite <- app_assoc. split_and!; [done| |done]. by econstructor.
  - right. exists [], op, rest, s. split_and!; [done|constructor|done].
Qed.
End steps.

(** * What replay guarantees

    Properties of the operation loop, the rename runs, text edits, deletions and the final
    manifest. *)


(** ** The manifest *)

Lemma fold_by_path (l : list (list byte * ReplayLiveNode)) :
  forall (m : gmap (list byte) (list byte * ReplayLiveNode)) p,
  (forall x, fold_left (fun m '(id, r) => <[rl_path r := (id, r)]> m) l m !! p = Some x ->
     (x ∈ l /\ rl_path x.2 = p) \/ m !! p = Some x) /\
  ((exists x, x ∈ l /\ rl_path x.2 = p) \/ is_Some (m !! p) ->
   is_Some (fold_left (fun m '(id, r) => <[rl_path r := (id, r)]> m) l m !! p)).
Proof.
  induction l as [|[id r] l IH]; intros m p; cbn [fold_left].
  { split; [by right|]. by intros [(x & ?%elem_of_nil & _)|?]. }
  destruct (IH (<[rl_path r := (id, r)]> m) p) as [H1 H2]. split.
  - intros x [[Hin Hp]|Hm]%H1; [left; split; [by right|done]|].
    apply lookup_insert_Some in Hm as [[Hp <-]|[_ Hm]]; [left; split; [by left|done]|by right].
  - intros [(x & [->|Hin]%elem_of_cons & Hp)|Hm]; apply H2.
    + right. cbn in Hp. subst p. rewrite lookup_insert_eq. by eexists.
    + left. by exists x.
    + right. rewrite lookup_insert_is_Some'. by right.
Qed.

Lemma live_by_path_some s p :
  replay_ok s -> is_Some (rs_files s !! p) ->
  exists id r, live_by_path (rs_live s) !! p = Some (id, r) /\ rs_live s !! id = Some r /\ rl_path r = p.
Proof.
  intros Hok (id & r & Hr & Hp)%(ro_node s Hok). unfold live_by_path.
  destruct (fold_by_path (btree_iter (rs_live s)) ∅ p) as [H1 H2].
  destruct H2 as [[id' r'] Hx].
  { left. exists (id, r). split; [by apply elem_of_btree_iter|done]. }
  exists id', r'. split; [done|]. destruct (H1 _ Hx) as [[Hin Hp']|?]; [|done].
  apply elem_of_btree_iter in Hin. by split.
Qed.

(** The entry of a file in the manifest. *)
Definition entry_for (s : ReplayState) (file : list byte * list byte) (e : ReplayManifestEntry) : Prop :=
  me_path e = file.1 /\ me_bytes e = file.2 /\
  exists id r, me_node_id e = Some id /\ rs_live s !! id = Some r /\ rl_path r = file.1 /\
    me_mode e = rl_mode r /\ me_kind e = Some (rl_kind r) /\
    me_blob_id e = if decide (rl_kind r = BinaryFile) then Some (rl_blob_id r) else None.

Lemma manifest_entry_total s path bytes :
  replay_ok s -> rs_files s !! path = Some bytes ->
  exists e, manifest_entry (live_by_path (rs_live s)) (path, bytes) = Ok e /\ entry_for s (path, bytes) e.
Proof.
  intros Hok Hf. destruct (live_by_path_some s path Hok) as (id & r & Hl & Hr & Hp); [eauto|].
  unfold manifest_entry. rewrite Hl. cbn [ok_or].
  rewrite RepoPath_parse_valid by (apply (ro_valid s Hok); eauto). eexists. split; [reflexivity|].
  split_and!; [done|done|]. exists id, r. cbn. split_and!; try done.
  destruct (decide (rl_kind r = BinaryFile)) as [Hb|Hb];
    [by rewrite bool_decide_eq_true_2|by rewrite bool_decide_eq_false_2].
Qed.

(** ** Decoded patches introduce valid names only *)

Lemma authored_names_valid `{Sha256} v i d o : authored v i d o -> names_valid d.
Proof.
  intros (_ & _ & _ & Hval & _ & _ & _ & <-). unfold names_valid, Operation_decoded. cbn [d_kind].
  destruct (op_kind o); cbn [kind_decoded kind_validate] in *; try done.
  - by apply CreateFile_valid in Hval as (_ & ? & _).
  - by apply RenamePath_valid in Hval as (_ & _ & ?).
Qed.

Lemma decoded_names_valid `{Sha256} bytes v ds :
  decode_patch_operations bytes v = Ok ds -> Forall names_valid ds.
Proof.
  unfold decode_patch_operations. intros Hd. destruct (map_err _ _); [|done].
  destruct (decode_fields _ _ _ bytes) as [l|] eqn:Hf; [|done].
  destruct (Nat.eqb (length l) 0); [done|]. apply Ok_inj in Hd as <-.
  apply patch_operations_authored in Hf as (os & _ & Hall). apply Forall_lookup. intros i d Hi.
  destruct (Hall i d Hi) as (o & _ & Hau). by eapply authored_names_valid.
Qed.

(** ** Captured contents *)

(** Every captured content has the identifier it is filed under, as a blob of its kind. *)
Definition capture_ok `{Sha256} (c : DeletedContentCapture) : Prop :=
  forall id kind bytes, dc_found c !! id = Some (kind, bytes) -> file_blob_id_for_kind bytes kind = Ok id.

Lemma capture_take_ok `{Sha256} c id kind bytes :
  capture_ok c -> ensure_blob_matches_node_kind bytes id kind = Ok tt ->
  capture_ok (capture_take c id kind bytes).
Proof.
  intros Hc He. unfold ensure_blob_matches_node_kind in He. inv_ok. apply bool_decide_eq_true in Heqb.
  unfold capture_take. case_bool_decide; [|done]. intros i k b. cbn.
  intros [[-> [= <- <-]]|[_ Hi]]%lookup_insert_Some; [congruence|by eapply Hc].
Qed.

Lemma operation_capture_ok `{Sha256} `{ObjectReader} s op s' :
  capture_ok (rs_capture s) -> apply_decoded_operation s op = Ok s' -> capture_ok (rs_capture s').
Proof.
  intros Hc. unfold apply_decoded_operation. destruct (ensure_apply_supported op); [|done].
  destruct (d_kind op) as [| ? ? [] | | | | |]; try done;
    unfold apply_create_file, apply_delete_file, apply_edit_text, apply_replace_binary, apply_change_perm;
    intros Ha; inv_ok; try done; cbn [rs_capture];
    match goal with u : unit |- _ => destruct u end; by apply capture_take_ok.
Qed.

Lemma batch_capture s ops s' : apply_rename_batch s ops = Ok s' -> rs_capture s' = rs_capture s.
Proof. unfold apply_rename_batch. intros Ha. destruct ops; inv_ok; done. Qed.

Lemma steps_capture_ok `{Sha256} `{ObjectReader} s ops s' :
  replay_steps s ops s' -> capture_ok (rs_capture s) -> capture_ok (rs_capture s').
Proof.
  induction 1 as [s|s ops s1 rest s' Hstep _ IH]; intros Hc; [done|]. apply IH.
  inversion Hstep as [? op ? Hr Ha|? ? ? Hr Ha]; subst; [by eapply operation_capture_ok|].
  by rewrite (batch_capture _ _ _ Ha).
Qed.

(** ** Blob identifiers of binary files *)

(** The bytes of every binary node's file are the content its blob identifier names. *)
Definition binary_ok `{Sha256} (s : ReplayState) : Prop :=
  forall id r bytes, rs_live s !! id = Some r -> rl_kind r = BinaryFile ->
    rs_files s !! rl_path r = Some bytes -> file_blob_id_for_kind bytes BinaryFile = Ok (rl_blob_id r).

Lemma read_blob_named `{Sha256} `{R : ObjectReader} `{!LawfulReader R} id kind bytes :
  read_blob_bytes_with_kind id = Ok (kind, bytes) -> file_blob_id_for_kind bytes kind = Ok id.
Proof.
  unfold read_blob_bytes_with_kind. intros Hr.
  destruct (read_typed id Blob) as [[env|]|] eqn:Ht; [|done..]. cbn [ok_or] in Hr.
  destruct (BlobPayload_decode _) as [blob|] eqn:Hd; [|done].
  apply Blob_decode_new in Hd as [Hn Hc]. apply lawful_blob in Ht.
  destruct (bool_decide _); [done|]. unfold file_blob_id_for_kind.
  destruct (blob_kind blob) eqn:Hk; cbn [NodeKind_from_file_blob_kind] in Hr; [| |done];
    apply Ok_inj in Hr; injection Hr as <- <-; rewrite Hn, Hc; by rewrite Ht.
Qed.

Lemma binary_ok_insert `{Sha256} s path bytes id node deleted capture :
  replay_ok s -> binary_ok s -> rs_files s !! path = None -> rl_path node = path ->
  (rl_kind node = BinaryFile -> file_blob_id_for_kind bytes BinaryFile = Ok (rl_blob_id node)) ->
  binary_ok (mkReplay (<[path := bytes]> (rs_files s)) (<[id := node]> (rs_live s)) deleted capture).
Proof.
  intros Hok Hb Hp <- Hn i r b. cbn [rs_live rs_files].
  intros [[-> ->]|[Hne Hi]]%lookup_insert_Some Hk Hf; [rewrite lookup_insert_eq in Hf; simplify_eq; by apply Hn|].
  destruct (ro_file s Hok i r Hi) as [b' Hb'].
  rewrite lookup_insert_ne in Hf by congruence. by eapply Hb.
Qed.

(** Updating a node in place: another node's file is untouched. *)
Lemma binary_ok_update `{Sha256} s id node node' bytes deleted capture :
  replay_ok s -> binary_ok s -> rs_live s !! id = Some node -> rl_path node' = rl_path node ->
  (rl_kind node' = BinaryFile -> file_blob_id_for_kind bytes BinaryFile = Ok (rl_blob_id node')) ->
  binary_ok (mkReplay (<[rl_path node := bytes]> (rs_files s)) (<[id := node']> (rs_live s)) deleted capture).
Proof.
  intros Hok Hb Hid Hp Hn i r b. cbn [rs_live rs_files].
  intros [[-> ->]|[Hne Hi]]%lookup_insert_Some Hk Hf;
    [rewrite Hp, lookup_insert_eq in Hf; simplify_eq; by apply Hn|].
  rewrite lookup_insert_ne in Hf; [by eapply Hb|].
  intros Heq. apply Hne. symmetry. by eapply (ro_inj s Hok).
Qed.

Lemma operation_binary_ok `{Sha256} `{R : ObjectReader} `{!LawfulReader R} s op s' :
  replay_ok s -> binary_ok s -> apply_decoded_operation s op = Ok s' -> binary_ok s'.
Proof.
  intros Hok Hb. unfold apply_decoded_operation. destruct (ensure_apply_supported op); [|done].
  destruct (d_kind op) as [path id blob mode|path id pre|id sid oh lh rh rt ot ll rl|id ob nb|id op' np|id om nm|? ? ?]; try done.
  - unfold apply_create_file. destruct (rs_files s !! path) eqn:Hp; [done|].
    destruct (rs_live s !! id) eqn:Hid; cbn [is_some]; [done|]. intros Ha. inv_ok.
    apply binary_ok_insert; try done. cbn [rl_kind rl_blob_id]. intros ->. by apply read_blob_named.
  - destruct pre as [k b m|]; [|done]. unfold apply_delete_file. intros Ha.
    assert (exists dl cp, s' = mkReplay (delete path (rs_files s)) (delete id (rs_live s)) dl cp) as (dl & cp & ->).
    { inv_ok; by eexists _, _. }
    intros i r bytes. cbn [rs_live rs_files]. intros [_ Hi]%lookup_delete_Some Hk [_ Hf]%lookup_delete_Some. by eapply Hb.
  - unfold apply_edit_text. intros Ha. inv_ok. simplify_eq. rewrite negb_false_iff, bool_decide_eq_true in *.
    match goal with Hl : rs_live s !! id = Some ?r |- _ =>
      rewrite <- (insert_id (rs_live s) id r) at 1 by done; eapply binary_ok_update; [done|done|exact Hl|done|congruence] end.
  - unfold apply_replace_binary. intros Ha. inv_ok. destruct_and?. simplify_eq. eapply binary_ok_update; try done.
    rewrite negb_false_iff, bool_decide_eq_true in *. subst. intros _. cbn [rl_blob_id]. by apply read_blob_named.
  - unfold apply_change_perm. intros Ha. inv_ok.
    match goal with Hl : rs_live s !! id = Some ?r |- _ => destruct (ro_file s Hok id r Hl) as [b Hf];
      rewrite <- (insert_id (rs_files s) (rl_path r) b) by done; eapply binary_ok_update; try done;
      cbn; intros Hk; by apply (Hb id) end.
Qed.

Lemma run_binary_ok `{Sha256} s s' rs :
  replay_ok s' -> run_effect s s' rs -> binary_ok s -> binary_ok s'.
Proof.
  intros Hok' (Hl & Hf1 & Hf2 & Hf3 & _ & _ & Hns & Hold) Hb id r' bytes Hr' Hk Hf. pose proof Hr' as Hs'.
  rewrite Hl in Hr'. destruct (renamed_to rs id) as [new|] eqn:Hn.
  - apply renamed_to_some in Hn as [old Hin]; [|done]. destruct (Hold _ _ _ Hin) as (r & Hr & <-).
    rewrite Hr in Hr'. cbn in Hr'. simplify_eq. cbn in Hf, Hk. rewrite (Hf1 _ _ _ Hin) in Hf. by apply (Hb id r).
  - apply renamed_to_none in Hn. apply (Hb id r'); [done|done|].
    assert (rl_path r' ∉ destinations rs) as Hd.
    { intros ([[i o] w] & Hw & Hin)%list_elem_of_fmap. cbn in Hw. subst w.
      destruct (Hold _ _ _ Hin) as (r & Hr & _).
      assert (id = i) as ->; [|by eapply Hn, elem_of_sources].
      apply (ro_inj s' Hok' id i r' (set_rpath (rl_path r') r)); [done| |done].
      rewrite Hl, (proj2 (renamed_to_some rs i (rl_path r') Hns)) by eauto. by rewrite Hr. }
    destruct (decide (rl_path r' ∈ old_paths rs)); [by rewrite Hf2 in Hf|by rewrite Hf3 in Hf].
Qed.

Lemma mapM_result_total {E A B} (f : A -> Result E B) (Q : A -> B -> Prop) l :
  (forall x, x ∈ l -> exists y, f x = Ok y /\ Q x y) ->
  exists ys, mapM_result f l = Ok ys /\ Forall2 Q l ys.
Proof.
  induction l as [|x l IH]; intros Hf; [by exists []|]. destruct (Hf x) as (y & Hy & HQ); [by left|].
  destruct IH as (ys & Hys & HF); [intros; apply Hf; by right|]. exists (y :: ys). cbn. rewrite Hy, Hys.
  by split; [|constructor].
Qed.

Lemma manifest_total s :
  replay_ok s ->
  exists entries, files_to_replay_manifest (rs_files s) (rs_live s) = Ok entries /\
    Forall2 (entry_for s) (btree_iter (rs_files s)) entries.
Proof.
  intros Hok. apply mapM_result_total. intros [path bytes] Hin%elem_of_btree_iter.
  by apply manifest_entry_total.
Qed.

Definition empty_replay (wanted : gset (list byte)) : ReplayState := mkReplay ∅ ∅ ∅ (capture_for_ids wanted).

Lemma replay_ok_empty wanted : replay_ok (empty_replay wanted).
Proof. constructor; cbn; intros; rewrite ?lookup_empty in *; try done; by destruct H. Qed.

(** A minted edit applies to the text it was minted for. *)
Lemma minted_replays `{Sha256} `{ObjectReader} s id live pre mid post rep len seq patch :
  rs_live s !! id = Some live -> rl_kind live = TextFile -> rs_files s !! rl_path live = Some (pre ++ mid ++ post) -> from_utf8 (pre ++ mid ++ post) = true ->
  anchor_match_count (pre ++ mid ++ post) mid (length pre) (length pre + length mid) len = 1%nat ->
  apply_decoded_operation s (mkDecoded seq (EditText_decoded (minted pre mid post rep id len)) patch)
  = Ok (mkReplay (<[rl_path live := pre ++ rep ++ post]> (rs_files s)) (rs_live s) (rs_deleted s) (rs_capture s)).
Proof.
  intros Hl Hk Hf Hu Hc. pose proof (minted_resolves pre mid post rep id len Hc) as Hr. unfold resolve_edit in Hr.
  unfold apply_decoded_operation. cbn [d_kind EditText_decoded ensure_apply_supported].
  change (et_node_id (minted pre mid post rep id len)) with id in *.
  unfold apply_edit_text. rewrite Hl. cbn [ok_or]. rewrite Hf. cbn [ok_or]. rewrite Hu.
  rewrite !bool_decide_eq_true_2 by done. cbn [negb]. rewrite Hr. cbn [map_err].
  unfold minted. cbn [et_replacement_text]. by rewrite splice_app.
Qed.

(** ** Properties *)

(** C6: An authored edit replays to exactly the new text.  When the worktree's new text of a live
    text node is planned as an edit against the node's current text, applying the decoded edit puts
    the new text at the node's path, byte for byte, and changes nothing else. *)
Theorem authored_edit_replays `{Sha256} `{ObjectReader} s id live old new a seq :
  rs_live s !! id = Some live -> rl_kind live = TextFile -> rs_files s !! rl_path live = Some old ->
  plan_authored_text_span old new id = Ok (Some a) ->
  apply_decoded_operation s (mkDecoded seq (EditText_decoded (authored_edit_text id a)) None)
  = Ok (mkReplay (<[rl_path live := new]> (rs_files s)) (rs_live s) (rs_deleted s) (rs_capture s)).
Proof.
  intros Hl Hk Hf Hp.
  assert (from_utf8 old = true) as Hu.
  { unfold plan_authored_text_span, select_span in Hp. case_bool_decide; [done|].
    by destruct (from_utf8 old). }
  apply plan_inv in Hp as (pre & mid & post & rep & len & -> & -> & _ & _ & _ & Hc & _ & _ & ->).
  by apply minted_replays.
Qed.

Definition witness_live : ReplayLiveNode := mkReplayLive [x61] TextFile 33188 (replicate 32 x09).
Definition witness_state (text : list byte) : ReplayState :=
  mkReplay {[ [x61] := text ]} {[ replicate 32 x01 := witness_live ]} ∅ (capture_for_ids ∅).
Definition no_objects : ObjectReader := fun _ => Ok None.

Lemma authored_edit_replays_witness :
  exists a, @apply_decoded_operation hash_mod_p no_objects (witness_state (bytes_of_string "a line"))
      (mkDecoded 1 (EditText_decoded (authored_edit_text (replicate 32 x01) a)) None)
    = Ok (mkReplay (<[rl_path witness_live := bytes_of_string "a Line"]>
            (rs_files (witness_state (bytes_of_string "a line"))))
            {[ replicate 32 x01 := witness_live ]} ∅ (capture_for_ids ∅)).
Proof.
  exists witness_plan.
  apply (@authored_edit_replays hash_mod_p no_objects (witness_state (bytes_of_string "a line"))
           (replicate 32 x01) witness_live (bytes_of_string "a line") (bytes_of_string "a Line")
           witness_plan 1); vm_compute; reflexivity.
Defined.

(** C4: A rename run over the replay state refines the rename batch over the lifecycle state: on
    related states with one-to-one files and nodes, the run succeeds exactly when the batch does,
    and then the states are related again, files and nodes are still one-to-one, every file of the
    run has moved with its bytes, and every other file is untouched. *)
Theorem rename_run_refines s l ops rs :
  replay_ok s -> refines s l -> validate_internal_consistency l = Ok tt ->
  Forall2 is_rename_of ops rs -> Forall (fun r : Rename => valid_path r.2) rs ->
  match apply_rename_batch s ops, rename_nodes_checked_batch l rs with
  | Ok s', (Ok _, l') => replay_ok s' /\ refines s' l' /\ run_effect s s' rs
  | Err _, (Err _, _) => True
  | _, _ => False
  end.
Proof. intros Hok Hr Hl%validate_internal_consistency_iff. by apply rename_run_sim. Qed.

(** Two files that trade their paths. *)
Definition swap_state : ReplayState :=
  mkReplay (<[ [x61] := [x31] ]> {[ [x62] := [x32] ]})
    (<[ replicate 32 x01 := mkReplayLive [x61] TextFile 0 (replicate 32 x09) ]>
       {[ replicate 32 x02 := mkReplayLive [x62] TextFile 0 (replicate 32 x09) ]}) ∅ (capture_for_ids ∅).
Definition swap_operations : list DecodedPatchOperation :=
  [mkDecoded 1 (DRenamePath (replicate 32 x01) [x61] [x62]) None;
   mkDecoded 2 (DRenamePath (replicate 32 x02) [x62] [x61]) None].

Lemma swap_state_ok : replay_ok swap_state.
Proof.
  assert (Hlive : forall id n, rs_live swap_state !! id = Some n ->
    (id = replicate 32 x01 /\ rl_path n = [x61]) \/ (id = replicate 32 x02 /\ rl_path n = [x62])).
  { cbn. intros id n [[<- <-]|[_ Hn]]%lookup_insert_Some; [by left|].
    apply lookup_singleton_Some in Hn as [<- <-]. by right. }
  assert (Hfile : forall p, is_Some (rs_files swap_state !! p) -> p = [x61] \/ p = [x62]).
  { cbn. intros p [<-|[b Hb]]%lookup_insert_is_Some'; [by left|].
    apply lookup_singleton_Some in Hb as [<- _]. by right. }
  constructor.
  - intros id n [[_ ->]|[_ ->]]%Hlive; by eexists.
  - intros p [->| ->]%Hfile; [exists (replicate 32 x01)|exists (replicate 32 x02)]; by eexists.
  - intros i j n m [[-> Hn]|[-> Hn]]%Hlive [[-> Hm]|[-> Hm]]%Hlive Heq; congruence.
  - intros p [->| ->]%Hfile; by vm_compute.
Qed.

Lemma swap_lifecycle_valid : validate_internal_consistency (lifecycle_of swap_state) = Ok tt.
Proof. apply validate_internal_consistency_iff, lifecycle_of_ok, swap_state_ok. Qed.

Lemma rename_run_refines_witness :
  exists s', apply_rename_batch swap_state swap_operations = Ok s' /\ rs_files s' !! [x61] = Some [x32].
Proof.
  assert (Hops : Forall2 is_rename_of swap_operations witness_swap).
  { apply Forall2_cons; split; [reflexivity|]. apply Forall2_cons; split; [reflexivity|constructor]. }
  assert (Hval : Forall (fun r : Rename => valid_path r.2) witness_swap).
  { apply Forall_cons; split; [by vm_compute|]. apply Forall_cons; split; [by vm_compute|constructor]. }
  pose proof (rename_run_refines swap_state (lifecycle_of swap_state) swap_operations witness_swap
    swap_state_ok (lifecycle_of_refines swap_state) swap_lifecycle_valid Hops Hval) as Hsim.
  destruct (is_ok_inv (apply_rename_batch swap_state swap_operations)) as [s' Ha]; [by vm_compute|].
  rewrite Ha in Hsim. destruct (rename_nodes_checked_batch (lifecycle_of swap_state) witness_swap) as [[]?]; [|done].
  destruct Hsim as (_ & _ & _ & Hf & _). exists s'. split; [done|].
  rewrite (Hf (replicate 32 x02) [x62] [x61]); [reflexivity|]. right. left.
Defined.

(** Replaying a decoded patch processes every operation, and keeps files and live nodes
    one-to-one as long as deletions name live nodes.  The returned count is the number of operations
    and the returned labels are exactly the kinds that occur; the state reached is one-to-one again,
    unless some deletion named a node that was not live when it was applied. *)
Theorem replay_one_to_one `{Sha256} `{ObjectReader} s bytes schema_version ops s' n ks :
  decode_patch_operations bytes schema_version = Ok ops -> replay_ok s ->
  apply_operation_sequence s ops = Ok (s', n, ks) ->
  n = length ops /\ ks = kind_labels ops /\
  (replay_ok s' \/
   exists pre op post s1, ops = pre ++ op :: post /\ replay_steps s pre s1 /\ ~ deletes_live s1 op).
Proof.
  intros Hd Hok Ha. apply sequence_loop_steps in Ha as (Hsteps & -> & ->).
  split_and!; [done|set_solver|].
  destruct (replay_steps_inv (fun _ => True) s ops s') as [[? _]|Hstray]; try done;
    [by eapply decoded_names_valid|by left|by right].
Qed.

Definition text_store (text : list byte) : ObjectReader := fun _ =>
  let? canonical := to_canonical_bytes (BlobPayload_new BlobText text) in
  Ok (Some (unsigned Blob 1 canonical)).

(** A patch that creates one file, its bytes and its decoded operations. *)
Definition create_patch : PatchPayload :=
  mkPatch [mkOperation 1 None [] (OpCreateFile (mkCreateFile (bytes_of_string "a.txt")
    (replicate 32 x01) (replicate 32 x02) 33188))] None [] PurposeNormal None.
Definition create_bytes : list byte :=
  match @to_canonical_bytes _ (@PatchPayload_encode hash_mod_p) create_patch with Ok b => b | Err _ => [] end.
Definition create_operations : list DecodedPatchOperation :=
  [mkDecoded 1 (DCreateFile (bytes_of_string "a.txt") (replicate 32 x01) (replicate 32 x02) 33188) None].
Definition create_run : PResult (ReplayState * nat * gset string) :=
  @apply_operation_sequence hash_mod_p (text_store (bytes_of_string "an old line")) (empty_replay ∅)
    create_operations.

Lemma replay_one_to_one_witness :
  exists s' ks, create_run = Ok (s', 1%nat, ks) /\ replay_ok s'.
Proof.
  assert (Hok : is_ok create_run = true) by (by vm_compute).
  assert (Hd : @decode_patch_operations hash_mod_p create_bytes 4 = Ok create_operations) by (by vm_compute).
  apply is_ok_inv in Hok as [[[s' n] ks] Ha]. unfold create_run in *.
  destruct (@replay_one_to_one hash_mod_p (text_store (bytes_of_string "an old line")) (empty_replay ∅)
    create_bytes 4 create_operations s' n ks Hd (replay_ok_empty ∅) Ha) as (Hn & _ & Hcase).
  cbn in Hn. subst n. exists s', ks. split; [exact Ha|].
  destruct Hcase as [Hok|(pre & op & post & s1 & Hops & _ & Hdel)]; [exact Hok|].
  exfalso. apply Hdel. unfold create_operations in Hops. destruct pre as [|? [|? ?]]; [|done|done].
  injection Hops as <- _. exact I.
Defined.

(** On a one-to-one state the manifest always exists: one entry per file, in path order, with
    the file's bytes and the identity, mode and kind of the one live node at its path. *)
Theorem replay_manifest_total s :
  replay_ok s ->
  exists entries, files_to_replay_manifest (rs_files s) (rs_live s) = Ok entries /\
    Forall2 (entry_for s) (btree_iter (rs_files s)) entries.
Proof. apply manifest_total. Qed.

Lemma replay_manifest_total_witness :
  exists entries, files_to_replay_manifest (rs_files swap_state) (rs_live swap_state) = Ok entries /\
    length entries = 2%nat.
Proof.
  destruct (replay_manifest_total swap_state swap_state_ok) as (entries & He & HF).
  exists entries. split; [done|]. apply Forall2_length in HF. by rewrite <- HF.
Defined.

(** Replaying a decoded patch on a one-to-one state whose binary files have the content their
    nodes' blob identifiers name, over a lawful object reader, with every deletion naming a live
    node, keeps both facts; the manifest then exists and every blob identifier it reports is exactly
    the identifier of the entry's own bytes as a binary blob: it never goes stale. *)
Theorem manifest_blob_ids_current `{Sha256} `{R : ObjectReader} `{!LawfulReader R} s bytes schema_version ops s' n ks :
  replay_ok s -> binary_ok s ->
  decode_patch_operations bytes schema_version = Ok ops ->
  apply_operation_sequence s ops = Ok (s', n, ks) ->
  (forall pre op post s1, ops = pre ++ op :: post -> replay_steps s pre s1 -> deletes_live s1 op) ->
  replay_ok s' /\ binary_ok s' /\
  exists entries, files_to_replay_manifest (rs_files s') (rs_live s') = Ok entries /\
    forall e b, e ∈ entries -> me_blob_id e = Some b ->
      file_blob_id_for_kind (me_bytes e) BinaryFile = Ok b.
Proof.
  intros Hok Hb Hd Ha Hlive. apply sequence_loop_steps in Ha as (Hsteps & _ & _).
  destruct (replay_steps_inv binary_ok s ops s' operation_binary_ok run_binary_ok Hsteps Hok Hb)
    as [[Hok' Hb']|(pre & op & post & s1 & Hops & Hpre & Hno)];
    [by eapply decoded_names_valid| |destruct Hno; by eapply Hlive].
  split_and!; [done|done|]. destruct (manifest_total s' Hok') as (entries & He & HF).
  exists entries. split; [done|]. intros e b Hin Hblob.
  apply list_elem_of_lookup in Hin as [i Hi]. destruct (Forall2_lookup_r _ _ _ _ _ HF Hi) as ([p by_] & Hp & Hent).
  apply list_elem_of_lookup_2, elem_of_btree_iter in Hp. destruct Hent as (Hpath & Hbytes & id & r & _ & Hr & Hrp & _ & _ & Hbid).
  cbn [fst snd] in *. rewrite Hbid in Hblob. case_decide as Hk; [|done]. injection Hblob as <-.
  rewrite Hbytes. eapply Hb'; [exact Hr|done|congruence].
Qed.

(** A store that holds one binary blob, and a patch that creates a file with it. *)
Definition binary_envelope : ObjectEnvelope :=
  match to_canonical_bytes (BlobPayload_new BlobBinary [x00; xff]) with
  | Ok b => unsigned Blob 1 b | Err _ => unsigned Blob 1 [] end.
Definition binary_id : ObjectId := @object_id hash_mod_p binary_envelope.
Definition binary_store : ObjectReader :=
  @index_reader hash_mod_p V7 (fun _ => Ok binary_envelope) (fun id =>
    Ok (if bool_decide (id = binary_id) then Some (mkIndexEntry binary_id Blob SlotA 0 0 []) else None)).
#[global] Instance binary_store_lawful : @LawfulReader hash_mod_p binary_store.
Proof. apply index_reader_lawful. Qed.
Definition binary_patch : PatchPayload :=
  mkPatch [mkOperation 1 None [] (OpCreateFile (mkCreateFile (bytes_of_string "a.bin")
    (replicate 32 x01) binary_id 33188))] None [] PurposeNormal None.
Definition binary_patch_bytes : list byte :=
  match @to_canonical_bytes _ (@PatchPayload_encode hash_mod_p) binary_patch with Ok b => b | Err _ => [] end.
Definition binary_operations : list DecodedPatchOperation :=
  [mkDecoded 1 (DCreateFile (bytes_of_string "a.bin") (replicate 32 x01) binary_id 33188) None].
Definition binary_run : PResult (ReplayState * nat * gset string) :=
  @apply_operation_sequence hash_mod_p binary_store (empty_replay ∅) binary_operations.

Lemma manifest_blob_ids_current_witness :
  exists s' n ks entries, binary_run = Ok (s', n, ks) /\
    files_to_replay_manifest (rs_files s') (rs_live s') = Ok entries /\
    forall e b, e ∈ entries -> me_blob_id e = Some b ->
      @file_blob_id_for_kind hash_mod_p (me_bytes e) BinaryFile = Ok b.
Proof.
  assert (Hok : is_ok binary_run = true) by (by vm_compute).
  assert (Hd : @decode_patch_operations hash_mod_p binary_patch_bytes 4 = Ok binary_operations) by (by vm_compute).
  assert (Hb : @binary_ok hash_mod_p (empty_replay ∅)).
  { intros id r bytes Hr. cbn in Hr. by rewrite lookup_empty in Hr. }
  apply is_ok_inv in Hok as [[[s' n] ks] Ha]. exists s', n, ks. unfold binary_run in *.
  destruct (@manifest_blob_ids_current hash_mod_p binary_store binary_store_lawful (empty_replay ∅)
    binary_patch_bytes 4 binary_operations s' n ks (replay_ok_empty ∅) Hb Hd Ha) as (_ & _ & entries & He & Hall).
  { intros pre op post s1 Hops _. unfold binary_operations in Hops. destruct pre as [|? [|? ?]]; [|done|done].
    injection Hops as <- _. exact I. }
  exists entries. split; [exact Ha|]. split; [exact He|exact Hall].
Defined.

(** A deletion that names a node that is not live removes another node's file and leaves that
    node live: files and live nodes are no longer one-to-one, and the next creation at that path
    puts two live nodes on one path.  The lifecycle state refuses the same deletion. *)
Theorem stray_delete_breaks_replay :
  exists s op s' op2 s2,
    replay_ok s /\
    @apply_decoded_operation hash_mod_p (text_store [x31]) s op = Ok s' /\ ~ replay_ok s' /\
    @apply_decoded_operation hash_mod_p (text_store [x31]) s' op2 = Ok s2 /\
    (exists id1 id2 n1 n2, id1 <> id2 /\ rs_live s2 !! id1 = Some n1 /\ rs_live s2 !! id2 = Some n2 /\
       rl_path n1 = rl_path n2) /\
    (delete_node (lifecycle_of s) (replicate 32 x07)).1 = Err (Integrity "DeleteNode target node_id is not live") /\
    exists path pre, d_kind op = DDeleteNode path (replicate 32 x07) pre.
Proof.
  set (blob := match @file_blob_id_for_kind hash_mod_p [x31] TextFile with Ok id => id | Err _ => [] end).
  set (op := mkDecoded 1 (DDeleteNode [x61] (replicate 32 x07) (DecodedFile TextFile blob 33188)) None).
  set (op2 := mkDecoded 2 (DCreateFile [x61] (replicate 32 x08) blob 33188) None).
  set (s' := match @apply_decoded_operation hash_mod_p (text_store [x31]) swap_state op with
             | Ok s => s | Err _ => swap_state end).
  set (s2 := match @apply_decoded_operation hash_mod_p (text_store [x31]) s' op2 with
             | Ok s => s | Err _ => swap_state end).
  exists swap_state, op, s', op2, s2. split_and!.
  - apply swap_state_ok.
  - unfold s'. destruct (is_ok_inv (@apply_decoded_operation hash_mod_p (text_store [x31]) swap_state op))
      as [? ->]; [by vm_compute|done].
  - intros Hok. destruct (ro_file _ Hok (replicate 32 x01) (mkReplayLive [x61] TextFile 0 (replicate 32 x09)))
      as [b Hb]; [by vm_compute|]. assert (rs_files s' !! [x61] = None) as Hn by (by vm_compute).
    cbn [rl_path] in Hb. congruence.
  - unfold s2. destruct (is_ok_inv (@apply_decoded_operation hash_mod_p (text_store [x31]) s' op2))
      as [? ->]; [by vm_compute|done].
  - exists (replicate 32 x01), (replicate 32 x08), (mkReplayLive [x61] TextFile 0 (replicate 32 x09)),
      (mkReplayLive [x61] TextFile 33188 blob). split_and!; [done| | |done]; by vm_compute.
  - by vm_compute.
  - by eexists _, _.
Qed.

(** Contents captured from deletions are the contents they are filed under: after any replayed
    sequence, every captured entry's bytes, as a blob of its kind, have exactly that identifier. *)
Theorem captured_contents_match `{Sha256} `{ObjectReader} wanted ops s' n ks :
  apply_operation_sequence (empty_replay wanted) ops = Ok (s', n, ks) ->
  forall id kind bytes, dc_found (rs_capture s') !! id = Some (kind, bytes) ->
    file_blob_id_for_kind bytes kind = Ok id.
Proof.
  intros Ha. apply sequence_loop_steps in Ha as (Hsteps & _ & _).
  apply (steps_capture_ok _ _ _ Hsteps). intros id kind bytes Hf. cbn in Hf. by rewrite lookup_empty in Hf.
Qed.

Definition captured_blob : list byte :=
  match @file_blob_id_for_kind hash_mod_p [x31] TextFile with Ok id => id | Err _ => [] end.

(** A file is created and deleted again while its content is wanted. *)
Definition capture_run : PResult (ReplayState * nat * gset string) :=
  @apply_operation_sequence hash_mod_p (text_store [x31]) (empty_replay {[captured_blob]})
    [mkDecoded 1 (DCreateFile [x61] (replicate 32 x08) captured_blob 33188) None;
     mkDecoded 2 (DDeleteNode [x61] (replicate 32 x08) (DecodedFile TextFile captured_blob 33188)) None].

Lemma captured_contents_match_witness :
  @file_blob_id_for_kind hash_mod_p [x31] TextFile = Ok captured_blob.
Proof.
  assert (Hok : is_ok capture_run = true) by (by vm_compute).
  assert (Hfound : match capture_run with
                   | Ok (s, _, _) => dc_found (rs_capture s) !! captured_blob | Err _ => None end
                   = Some (TextFile, [x31])) by (by vm_compute).
  apply is_ok_inv in Hok as [[[s' n] ks] Ha]. rewrite Ha in Hfound. unfold capture_run in Ha.
  exact (@captured_contents_match hash_mod_p (text_store [x31]) _ _ s' n ks Ha _ _ _ Hfound).
Defined.
