(* ===== verification/ContainerThms.v ===== *)
(** * Theorems about object containers (crates/prikk-store/src/foundation/container.rs)

    The isolate-and-continue decoder against a reference scan that tries every byte offset, its
    totality and work bound, the round trip of appended frames and the independence of the source the
    bytes come from. *)

From S2P Require Import Prelude PrikkError Hash ObjectId Signature Envelope ByteCursor FileCodec FrameResync.
From S2P Require Import Container.

Section thms.
Context `{Sha256} (t : ObjectType) (magic : list byte) (Hmagic : length magic = 8%nat).

(** ** The source only matters through its bytes *)

Section sources.
Context {Src : FrameSource} {bytes : list byte} {HL : LawfulSource Src bytes}.

Lemma parse_frame_lawful bound offset b :
  parse_frame_at (H0 := Src) t magic bound offset b
  = parse_frame_at (H0 := SliceFrameSource bytes) t magic bound offset b.
Proof using HL.
  unfold parse_frame_at. rewrite source_len, !source_read.
  cbn [total_len read_at SliceFrameSource].
  destruct (_ <? _)%nat; [done|]. destruct (get_range _ _ _); [|done].
  destruct (parse_header _ _); [|done]. destruct (_ <? _); [done|]. destruct (_ <? _); [done|].
  destruct (_ <? _); [done|]. destruct (match bound with Some _ => _ | None => _ end); [|done].
  by rewrite source_read.
Qed.

Lemma scan_lawful start : scan_for_magic start magic = Ok (resync_to_next_magic bytes start magic).
Proof using HL Hmagic. apply source_scan. rewrite Hmagic. pose proof default_window_large. lia. Qed.

Lemma sound_after_lawful bound : forall fuel from b,
  sound_after_loop (H0 := Src) t magic bound fuel from b
  = sound_after_loop (H0 := SliceFrameSource bytes) t magic bound fuel from b.
Proof using HL Hmagic.
  induction fuel as [|fuel IH]; intros from b; cbn [sound_after_loop]; [done|].
  rewrite scan_lawful. cbn [scan_for_magic SliceFrameSource].
  destruct (resync_to_next_magic _ _ _); [|done]. destruct (exceeded b); [done|].
  rewrite parse_frame_lawful. by destruct (parse_frame_at _ _ _ _ _) as [[[] ?]|]; try apply IH.
Qed.

Lemma decode_step_lawful {St} bound (f : St -> ObjectEnvelope -> PResult St) offset b st :
  decode_step (H0 := Src) t magic bound f offset b st
  = decode_step (H0 := SliceFrameSource bytes) t magic bound f offset b st.
Proof using HL Hmagic.
  unfold decode_step, checksum_mismatch_is_complete, container_sound_frame_after_partial.
  destruct (exceeded b); [done|]. rewrite parse_frame_lawful, scan_lawful, source_len.
  destruct (parse_frame_at _ _ _ _ _) as [[[] ?]|]; try done; rewrite ?sound_after_lawful; done.
Qed.

Lemma decode_loop_lawful {St} bound (f : St -> ObjectEnvelope -> PResult St) : forall fuel offset b st outs,
  decode_loop (H0 := Src) t magic bound f fuel offset b st outs
  = decode_loop (H0 := SliceFrameSource bytes) t magic bound f fuel offset b st outs.
Proof using HL Hmagic.
  induction fuel as [|fuel IH]; intros offset b st outs; cbn [decode_loop]; [done|].
  rewrite decode_step_lawful. by destruct (decode_step _ _ _ _ _ _ _) as [[[[] ?] ?]|]; try apply IH.
Qed.
End sources.

(** ** Decoding bytes in memory, without a bound on the body *)

Section slice.
Context (bytes : list byte).

#[local] Abbreviation parse := (parse_frame_at (H0 := SliceFrameSource bytes) t magic None).
#[local] Abbreviation sound_after := (sound_after_loop (H0 := SliceFrameSource bytes) t magic None).
#[local] Abbreviation push := (fun records record => Ok (records ++ [record])).
#[local] Abbreviation step := (decode_step (H0 := SliceFrameSource bytes) t magic None push).
#[local] Abbreviation loop := (decode_loop (H0 := SliceFrameSource bytes) t magic None push).

(** What the frame at an offset is, whatever the budget. *)
Definition attempt_at (offset : nat) : FrameAttempt :=
  match parse offset (mkBudget 0 0) with Ok (attempt, _) => attempt | Err _ => TrailingPartial 0 end.

(** The sound frame at an offset: its record and checksum, and where it ends. *)
Definition frame_at (offset : nat) : option ((ObjectEnvelope * list byte) * nat) :=
  match attempt_at offset with
  | FrameRecord record next checksum => Some ((record, checksum), next)
  | _ => None
  end.

Definition sound_at (offset : nat) : Prop := is_Some (frame_at offset).

(** The budget after a parse: unchanged, or charged with at most the size of the input. *)
Definition charged (b b' : ScanBudget) : Prop :=
  limit b' = limit b /\ (b' = b \/ exists n, 0 <= n <= zlen bytes /\ b' = charge b n).

Lemma parse_spec offset b : exists b', parse offset b = Ok (attempt_at offset, b') /\ charged b b'.
Proof using Hmagic.
  unfold attempt_at, parse_frame_at. cbn [total_len read_at SliceFrameSource].
  assert (Hr : charged b b) by (split; [done|by left]).
  destruct (_ <? _)%nat; [eauto|]. destruct (get_range _ _ _) as [header|] eqn:Hh; [|eauto].
  destruct (parse_header _ _) as [v|]; [|eauto]. destruct (_ <? _); [eauto|]. destruct (_ <? _); [eauto|].
  destruct (_ <? _); [eauto|]. destruct (get_range _ _ (_ + Z.to_nat _)) as [body|] eqn:Hb; [|eauto].
  assert (Hc : charged b (charge b (zlen body + Z.of_nat CONTAINER_HEADER_LEN))).
  { split; [done|]. right. eexists. split; [|done]. split; [pose proof (zlen_nonneg body); lia|].
    apply get_range_inv in Hb as (pre & post & -> & Hpre & _). rewrite !zlen_app.
    pose proof (zlen_nonneg post). unfold zlen in *. lia. }
  destruct (negb _); [eauto|]. destruct (decode_envelope_file body) as [e|]; [|eauto].
  destruct (negb _); eauto.
Qed.

Lemma sound_at_inv offset record next checksum :
  attempt_at offset = FrameRecord record next checksum ->
  magic_at bytes magic offset /\ (offset + CONTAINER_HEADER_LEN <= next <= length bytes)%nat /\
  object_type record = t.
Proof using Hmagic.
  unfold attempt_at, parse_frame_at. cbn [total_len read_at SliceFrameSource].
  destruct (Nat.ltb_spec (length bytes - offset) CONTAINER_HEADER_LEN); [done|].
  destruct (get_range bytes offset _) as [header|] eqn:Hh; [|done].
  destruct (parse_header magic header) as [v|] eqn:Hp; [|done].
  destruct (Z.ltb_spec usize_max (h_body_len v)); [done|].
  destruct (Z.ltb_spec usize_max (Z.of_nat (offset + CONTAINER_HEADER_LEN) + h_body_len v)); [done|].
  destruct (Z.ltb_spec (Z.of_nat (length bytes)) (Z.of_nat (offset + CONTAINER_HEADER_LEN) + h_body_len v)); [done|].
  destruct (get_range bytes (offset + CONTAINER_HEADER_LEN) _) as [body|]; [|done].
  destruct (negb _); [done|]. destruct (decode_envelope_file body) as [e|]; [|done].
  case_bool_decide as Ht; [|done]. cbn [negb]. intros [= <- <- <-].
  assert (Hlen : length header = CONTAINER_HEADER_LEN).
  { apply get_range_inv in Hh as (? & ? & _ & _ & ?). lia. }
  apply parse_header_inv in Hp as (Hp & Hu & _); [|done].
  split_and!; [|lia|unfold u64 in Hu; lia|done].
  apply (magic_at_prefix _ _ _ _ _ Hh). rewrite Hp. unfold enc_header. by eexists.
Qed.

Lemma trailing_remaining offset remaining :
  attempt_at offset = TrailingPartial remaining -> remaining = (length bytes - offset)%nat.
Proof using Hmagic.
  destruct (parse_spec offset (mkBudget 0 0)) as (b' & Hp & _). intros Ha. rewrite Ha in Hp. revert Hp.
  unfold parse_frame_at. cbn [total_len read_at SliceFrameSource]. intros Hp. inv_ok; congruence.
Qed.

Lemma sound_at_magic offset : sound_at offset -> magic_at bytes magic offset.
Proof using Hmagic.
  unfold sound_at, frame_at. destruct (attempt_at offset) eqn:Ha; [|by intros []..]. intros _.
  by apply sound_at_inv in Ha as [? _].
Qed.

(** The spent work stays within one input size of the limit. *)
Definition within (b : ScanBudget) : Prop := spent b <= limit b + zlen bytes.

Lemma charged_within b b' : exceeded b = false -> charged b b' -> within b'.
Proof using Hmagic.
  unfold exceeded, within. intros He%Z.ltb_ge [Hl [->|(n & Hn & ->)]].
  - pose proof (zlen_nonneg bytes). lia.
  - cbn [limit spent charge]. lia.
Qed.

(** ** The search behind a partial frame *)

Definition scan_answer (from : nat) (scan : BoundedScan) : Prop :=
  match scan with
  | Sound p => first_from sound_at from (Some p)
  | NoSoundFrame => first_from sound_at from None
  | Undetermined => True
  end.

Lemma sound_after_spec : forall fuel from b,
  (length bytes + 1 < fuel + from)%nat -> (0 < fuel)%nat -> within b ->
  exists scan b', sound_after fuel from b = Ok (scan, b') /\ limit b' = limit b /\ within b' /\ scan_answer from scan.
Proof using Hmagic.
  induction fuel as [|fuel IH]; intros from b Hf Hpos Hw; cbn [sound_after_loop]; [lia|].
  cbn [scan_for_magic SliceFrameSource].
  pose proof (resync_first bytes from magic) as Hr.
  destruct (resync_to_next_magic bytes from magic) as [p|]; cbn in Hr.
  2: { exists NoSoundFrame, b. split_and!; [done..|]. intros q Hq Hs%sound_at_magic. by apply (Hr q). }
  destruct Hr as (Hle & Hp & Hno). pose proof (magic_at_bound _ _ _ Hp).
  destruct (exceeded b) eqn:He; [by exists Undetermined, b|].
  destruct (parse_spec p b) as (b' & -> & Hc). pose proof (charged_within _ _ He Hc) as Hw'.
  destruct Hc as [Hl _]. destruct (attempt_at p) as [r n c| | |] eqn:Ha.
  { exists (Sound p), b'. split_and!; [done..|]. cbn. unfold sound_at, frame_at. rewrite Ha. split_and!; [done|by eexists|].
    intros q Hq Hs%sound_at_magic. by apply (Hno q). }
  all: destruct (IH (S p) b') as (scan & b2 & -> & Hl2 & Hw2 & Hs2); [lia|lia|done|].
  all: exists scan, b2; split_and!; [done|congruence|done|].
  all: assert (Hskip : forall q, (from <= q < S p)%nat -> ~ sound_at q);
    [intros q Hq Hs; destruct (decide (q = p)) as [->|];
      [unfold sound_at, frame_at in Hs; rewrite Ha in Hs; by destruct Hs|by apply (Hno q); [lia|apply sound_at_magic]]|].
  all: destruct scan; try done; (eapply first_from_later; [|exact Hskip|exact Hs2]); lia.
Qed.

(** ** One iteration of the loop *)

(** From [offset] to the next offset: the frame found is reported and recorded, or nothing sound lies between. *)
Definition advances (offset : nat) (records records' : list ObjectEnvelope) (o : ContainerRecordOutcome)
    (next : nat) : Prop :=
  (exists r c, attempt_at offset = FrameRecord r next c /\ o = mkOutcome offset (Evaluated (next - offset) c) /\
     records' = records ++ [r]) \/
  (co_offset o = offset /\ is_failed (co_status o) = true /\ records' = records /\
     forall q, (offset <= q < next)%nat -> ~ sound_at q).

Definition ran_out (o : ContainerRecordOutcome) : bool :=
  match co_status o with Failed m _ => String.eqb m scan_budget_exceeded_message | Evaluated _ _ => false end.

(** At the end nothing sound is left, unless the budget ran out. *)
Definition stops (offset : nat) (records records' : list ObjectEnvelope) (os : list ContainerRecordOutcome)
    (trailing : nat) : Prop :=
  records' = records /\ Forall (fun o => is_failed (co_status o) = true) os /\
  (existsb ran_out os = true \/ forall q, (offset <= q)%nat -> ~ sound_at q) /\
  ((0 < trailing)%nat -> os = [] /\ trailing = (length bytes - offset)%nat).

Definition step_answer (offset : nat) (records records' : list ObjectEnvelope) (n : Next) : Prop :=
  match n with
  | Continue o next => (offset < next <= length bytes)%nat /\ advances offset records records' o next
  | Stop os trailing => stops offset records records' os trailing
  end.

(** Skipping to the next magic loses no sound frame. *)
Lemma resync_step offset os records o b' :
  ~ sound_at offset -> is_failed (co_status o) = true -> co_offset o = offset -> os = [o] ->
  exists n, (match resync_to_next_magic bytes (S offset) magic with
             | Some next => Ok (Continue o next, b', records)
             | None => Ok (Stop os 0, b', records)
             end : PResult (Next * ScanBudget * list ObjectEnvelope)) = Ok (n, b', records)
    /\ step_answer offset records records n.
Proof using Hmagic.
  intros Hns Hf Ho ->. pose proof (resync_first bytes (S offset) magic) as Hr.
  destruct (resync_to_next_magic bytes (S offset) magic) as [p|]; cbn in Hr; eexists; (split; [done|]).
  - destruct Hr as (Hle & Hp & Hno). pose proof (magic_at_bound _ _ _ Hp). split; [lia|]. right.
    split_and!; [done..|]. intros q Hq Hs. destruct (decide (q = offset)) as [->|]; [done|].
    apply (Hno q); [lia|]. by apply sound_at_magic.
  - split_and!; [done|by constructor| |lia]. right. intros q Hq Hs.
    destruct (decide (q = offset)) as [->|]; [done|]. apply (Hr q); [lia|]. by apply sound_at_magic.
Qed.

Lemma sound_after_partial_spec offset b : within b ->
  exists scan b', container_sound_frame_after_partial (H0 := SliceFrameSource bytes) t magic None offset b = Ok (scan, b')
    /\ limit b' = limit b /\ within b' /\ scan_answer (S offset) scan.
Proof using Hmagic.
  intros Hw. unfold container_sound_frame_after_partial. cbn [total_len SliceFrameSource].
  apply sound_after_spec; [lia|lia|done].
Qed.

Lemma mismatch_spec offset body_end b : within b ->
  exists res b', checksum_mismatch_is_complete (H0 := SliceFrameSource bytes) t magic None offset body_end b = Ok (res, b')
    /\ limit b' = limit b /\ within b'.
Proof using Hmagic.
  intros Hw. unfold checksum_mismatch_is_complete. destruct (Nat.eqb _ _); [by eauto|].
  destruct (sound_after_partial_spec offset b Hw) as (scan & b' & -> & Hl & Hw' & _). eauto.
Qed.

Lemma step_spec offset b records :
  (offset <= length bytes)%nat -> within b ->
  exists n b' records', step offset b records = Ok (n, b', records')
    /\ limit b' = limit b /\ within b' /\ step_answer offset records records' n.
Proof using Hmagic.
  intros Hoff Hw. unfold decode_step. destruct (exceeded b) eqn:He.
  { eexists _, _, _. split; [done|]. split_and!; [done..|]. split_and!; [done|by repeat constructor|by left|lia]. }
  destruct (parse_spec offset b) as (b1 & -> & Hc).
  pose proof (charged_within _ _ He Hc) as Hw1. destruct Hc as [Hl1 _].
  destruct (attempt_at offset) as [r next c|remaining|m comp|body_end] eqn:Ha.
  - destruct (sound_at_inv _ _ _ _ Ha) as (_ & Hn & _). unfold CONTAINER_HEADER_LEN in Hn. unfold require_progress.
    destruct (Nat.leb_spec next offset); [lia|].
    eexists _, _, _. split; [done|]. split_and!; [done..|]. split; [lia|]. left. eauto.
  - assert (Hns : ~ sound_at offset) by (unfold sound_at, frame_at; rewrite Ha; by intros []).
    destruct (sound_after_partial_spec offset b1 Hw1) as (scan & b2 & -> & Hl2 & Hw2 & Hs).
    destruct scan as [p| |]; cbn in Hs.
    + destruct Hs as (Hle & Hp & Hno). pose proof (magic_at_bound _ _ _ (sound_at_magic _ Hp)).
      unfold require_progress. destruct (Nat.leb_spec p offset); [lia|].
      eexists _, _, _. split; [done|]. split_and!; [congruence|done|]. split; [lia|]. right.
      split_and!; [done..|]. intros q Hq Hq'. destruct (decide (q = offset)) as [->|]; [done|].
      by apply (Hno q); [lia|].
    + eexists _, _, _. split; [done|]. split_and!; [congruence|done|]. split_and!; [done|done| |].
      * right. intros q Hq Hq'. destruct (decide (q = offset)) as [->|]; [done|]. by apply (Hs q); [lia|].
      * intros _. split; [done|]. revert Ha. apply trailing_remaining.
    + eexists _, _, _. split; [done|]. split_and!; [congruence|done|].
      split_and!; [done|by repeat constructor|by left|lia].
  - assert (Hns : ~ sound_at offset) by (unfold sound_at, frame_at; rewrite Ha; by intros []).
    cbn [scan_for_magic SliceFrameSource].
    edestruct (resync_step offset) as (n & -> & Hn); [done| | |reflexivity|]; [done|done|].
    by eexists _, _, _.
  - assert (Hns : ~ sound_at offset) by (unfold sound_at, frame_at; rewrite Ha; by intros []).
    destruct (mismatch_spec offset body_end b1 Hw1) as (res & b2 & -> & Hl2 & Hw2).
    cbn [scan_for_magic SliceFrameSource].
    edestruct (resync_step offset) as (n & -> & Hn); [done| | |reflexivity|]; [by destruct res|by destruct res|].
    eexists _, _, _. split; [done|]. split_and!; [congruence|done|done].
Qed.

(** ** The reference scan over the container *)

#[local] Abbreviation reference := (reference_from (length bytes) frame_at).

Lemma frame_at_bound p v n : frame_at p = Some (v, n) -> (p < n <= length bytes)%nat.
Proof using Hmagic.
  unfold frame_at. destruct (attempt_at p) eqn:Ha; [|done..]. intros [= <- <-].
  apply sound_at_inv in Ha as (_ & Hn & _). unfold CONTAINER_HEADER_LEN in Hn. lia.
Qed.

Lemma not_sound_at q : ~ sound_at q -> frame_at q = None.
Proof using Type. unfold sound_at. by destruct (frame_at q); [intros []|]. Qed.

(** The evaluated outcome a reference frame has. *)
Definition evaluated_of (f : ReferenceFrame (A := ObjectEnvelope * list byte)) : ContainerRecordOutcome :=
  mkOutcome (rf_offset f) (Evaluated (rf_next f - rf_offset f) (rf_value f).2).

Definition rf_record (f : ReferenceFrame (A := ObjectEnvelope * list byte)) : ObjectEnvelope := (rf_value f).1.

Definition evaluated (os : list ContainerRecordOutcome) : list ContainerRecordOutcome :=
  filter (fun o => is_failed (co_status o) = false) os.

Lemma evaluated_failed os : Forall (fun o => is_failed (co_status o) = true) os -> evaluated os = [].
Proof using Type.
  unfold evaluated. induction 1 as [|o os Ho _ IH]; [done|]. rewrite filter_cons_False by (by rewrite Ho). exact IH.
Qed.

(** What a finished scan from [offset] reports. *)
Definition scan_result (offset : nat) (records : list ObjectEnvelope) (os : list ContainerRecordOutcome)
    (trailing : nat) : Prop :=
  existsb ran_out os = false ->
    records = map rf_record (reference offset) /\ evaluated os = map evaluated_of (reference offset) /\
    ((0 < trailing)%nat -> exists o, (offset <= o)%nat /\ trailing = (length bytes - o)%nat /\ reference o = []).

Lemma scan_result_step offset o next recs recs' tail os trailing :
  (offset < next <= length bytes)%nat -> advances offset recs recs' o next ->
  scan_result next tail os trailing ->
  exists tail', recs' ++ tail = recs ++ tail' /\ scan_result offset tail' (o :: os) trailing.
Proof using Hmagic.
  intros Hlt [(r & c & Ha & -> & ->)|(Ho & Hf & -> & Hno)] Hs.
  - exists (r :: tail). split; [by rewrite <- app_assoc|]. intros Hr. cbn [existsb ran_out co_status orb] in Hr.
    destruct (Hs Hr) as (-> & He & Ht).
    assert (Hfa : frame_at offset = Some ((r, c), next)) by (unfold frame_at; by rewrite Ha).
    rewrite (reference_record _ _ frame_at_bound _ _ _ Hfa). split_and!; [done| |].
    + unfold evaluated in *. rewrite filter_cons_True by done. by rewrite He.
    + intros Htr. destruct (Ht Htr) as (o' & ? & ? & ?). exists o'. split_and!; [lia|done|done].
  - exists tail. split; [done|]. intros Hr. cbn [existsb] in Hr. apply orb_false_iff in Hr as [_ Hr].
    destruct (Hs Hr) as (-> & He & Ht). rewrite (reference_skip _ _ frame_at_bound offset next); [|lia|intros q Hq; by apply not_sound_at, Hno].
    split_and!; [done| |].
    + unfold evaluated in *. rewrite filter_cons_False by (by rewrite Hf). done.
    + intros Htr. destruct (Ht Htr) as (o' & ? & ? & ?). exists o'. split_and!; [lia|done|done].
Qed.

Lemma loop_spec : forall fuel offset b records outs,
  (length bytes < fuel + offset)%nat -> (0 < fuel)%nat -> (offset <= length bytes)%nat -> within b ->
  exists trailing os b' tail,
    loop fuel offset b records outs = Ok (mkSummary trailing (outs ++ os), b', records ++ tail)
    /\ limit b' = limit b /\ within b' /\ scan_result offset tail os trailing.
Proof using Hmagic.
  induction fuel as [|fuel IH]; intros offset b records outs Hf Hpos Hoff Hw; cbn [decode_loop]; [lia|].
  destruct (step_spec offset b records Hoff Hw) as (n & b1 & records1 & -> & Hl1 & Hw1 & Hn).
  destruct n as [o next|os trailing]; cbn in Hn.
  - destruct Hn as (Hlt & Hadv).
    destruct (IH next b1 records1 (outs ++ [o])) as (trailing & os & b2 & tail & Hr & Hl2 & Hw2 & Hs); [lia|lia|lia|done|].
    destruct (scan_result_step _ _ _ _ _ _ _ _ Hlt Hadv Hs) as (tail' & Ht & Hs').
    exists trailing, (o :: os), b2, tail'. rewrite Hr, <- app_assoc, Ht. split_and!; [done|congruence|done|done].
  - destruct Hn as (-> & Hfail & Hend & Htr). exists trailing, os, b1, []. rewrite app_nil_r.
    split_and!; [done|done|done|]. intros Hr. destruct Hend as [Hend|Hend]; [congruence|].
    assert (He : reference offset = []) by (apply reference_end; intros q Hq; by apply not_sound_at, Hend).
    rewrite He. split_and!; [done|by rewrite evaluated_failed|].
    intros Ht. exists offset. split_and!; [lia|by apply Htr|done].
Qed.

(** ** The bytes the decoder hashes *)

(** What the checksum at [offset] is computed over: header fields and body, when the frame lies in the input. *)
Definition hash_input_at (offset : nat) : option (list byte) :=
  match get_range bytes offset (offset + CONTAINER_HEADER_LEN) with
  | None => None
  | Some header =>
      match parse_header magic header with
      | Err _ => None
      | Ok v =>
          let header_end := (offset + CONTAINER_HEADER_LEN)%nat in
          if usize_max <? h_body_len v then None
          else
            match get_range bytes header_end (header_end + Z.to_nat (h_body_len v)) with
            | None => None
            | Some body => Some (magic ++ to_be_bytes 2 CONTAINER_VERSION ++ to_be_bytes 8 (h_body_len v) ++ body)
            end
      end
  end.

Definition hashed_at (offset : nat) : Z := from_option zlen 0 (hash_input_at offset).

(** The offsets parsed by the search behind a partial frame, by one iteration and by the loop, in order. *)
Fixpoint sound_after_calls (fuel from : nat) (b : ScanBudget) : list nat :=
  match fuel with
  | O => []
  | S fuel' =>
      match resync_to_next_magic bytes from magic with
      | None => []
      | Some candidate =>
          if exceeded b then []
          else candidate :: match parse candidate b with
                            | Ok (FrameRecord _ _ _, _) | Err _ => []
                            | Ok (_, b') => sound_after_calls fuel' (S candidate) b'
                            end
      end
  end.

Definition step_calls (offset : nat) (b : ScanBudget) : list nat :=
  if exceeded b then []
  else offset :: match parse offset b with
                 | Ok (TrailingPartial _, b') => sound_after_calls (S (S (length bytes))) (S offset) b'
                 | Ok (ChecksumMismatch body_end, b') =>
                     if Nat.eqb body_end (length bytes) then []
                     else sound_after_calls (S (S (length bytes))) (S offset) b'
                 | _ => []
                 end.

Fixpoint loop_calls (fuel offset : nat) (b : ScanBudget) (records : list ObjectEnvelope) : list nat :=
  match fuel with
  | O => []
  | S fuel' =>
      step_calls offset b ++
        match step offset b records with
        | Ok (Continue _ next, b', records') => loop_calls fuel' next b' records'
        | _ => []
        end
  end.

(** All the bytes hashed when the given offsets are parsed. *)
Definition hashed (offsets : list nat) : Z := zlen (concat (omap hash_input_at offsets)).

Lemma hashed_nil : hashed [] = 0.
Proof using Type. done. Qed.

Lemma hashed_cons o os : hashed (o :: os) = hashed_at o + hashed os.
Proof using Type.
  unfold hashed, hashed_at. cbn [omap list_omap]. by destruct (hash_input_at o); cbn [concat from_option]; rewrite ?zlen_app.
Qed.

Lemma hashed_app xs ys : hashed (xs ++ ys) = hashed xs + hashed ys.
Proof using Type. unfold hashed. by rewrite omap_app, concat_app, zlen_app. Qed.

(** The counter does not saturate. *)
Definition room (b : ScanBudget) : Prop := zlen bytes < 2 ^ 60 /\ limit b <= 2 ^ 63.

(** A parse is charged at least what it hashes. *)
Lemma parse_pays offset b attempt b' :
  parse offset b = Ok (attempt, b') -> within b -> room b -> spent b + hashed_at offset <= spent b'.
Proof using Hmagic.
  unfold parse_frame_at, hashed_at, hash_input_at, within, room. cbn [total_len read_at SliceFrameSource]. intros Hp Hw [Hr Hl].
  destruct (Nat.ltb_spec (length bytes - offset) CONTAINER_HEADER_LEN) as [Hs|Hs].
  { simplify_eq. destruct (get_range bytes offset _) as [header|] eqn:Hh; [|cbn; lia].
    apply get_range_inv in Hh as (pre & post & Heq & Hpre & Hlen).
    apply (f_equal length) in Heq. rewrite !length_app in Heq. lia. }
  destruct (get_range bytes offset _) as [header|]; [|simplify_eq; cbn; lia].
  destruct (parse_header magic header) as [v|] eqn:Hv; [|simplify_eq; cbn; lia].
  destruct (Z.ltb_spec usize_max (h_body_len v)); [simplify_eq; cbn; lia|].
  destruct (get_range bytes (offset + _) _) as [body|] eqn:Hb; [|repeat case_match; simplify_eq; cbn; lia].
  destruct (get_range_inv _ _ _ _ Hb) as (pre & post & Heq & Hpre & Hlen).
  apply (f_equal zlen) in Heq. rewrite !zlen_app in Heq. unfold zlen in *.
  destruct (Z.ltb_spec usize_max (Z.of_nat (offset + CONTAINER_HEADER_LEN) + h_body_len v)); [unfold usize_max in *; lia|].
  destruct (Z.ltb_spec (Z.of_nat (length bytes)) (Z.of_nat (offset + CONTAINER_HEADER_LEN) + h_body_len v)); [lia|].
  unfold CONTAINER_HEADER_LEN in *.
  repeat case_match; simplify_eq; cbn [from_option spent charge]; unfold zlen;
    rewrite ?length_app, ?length_to_be_bytes, ?Hmagic; cbn [length]; lia.
Qed.

(** A parse inside the budget: it returns, keeps the bounds and is paid for. *)
Lemma parse_paid offset b : exceeded b = false -> within b -> room b ->
  exists b', parse offset b = Ok (attempt_at offset, b') /\ limit b' = limit b /\ within b' /\ room b'
    /\ spent b + hashed_at offset <= spent b'.
Proof using Hmagic.
  intros He Hw Hr. destruct (parse_spec offset b) as (b' & Hp & Hc). exists b'.
  pose proof (parse_pays _ _ _ _ Hp Hw Hr). pose proof (charged_within _ _ He Hc). destruct Hc as [Hl _].
  split_and!; [done..|by unfold room; rewrite Hl|done].
Qed.

Lemma sound_after_paid : forall fuel from b scan b',
  sound_after fuel from b = Ok (scan, b') -> within b -> room b ->
  spent b + hashed (sound_after_calls fuel from b) <= spent b'.
Proof using Hmagic.
  induction fuel as [|fuel IH]; intros from b scan b'; cbn [sound_after_loop sound_after_calls]; [done|].
  cbn [scan_for_magic SliceFrameSource]. intros Hs Hw Hr.
  destruct (resync_to_next_magic bytes from magic) as [p|]; [|simplify_eq; rewrite ?hashed_nil; lia].
  destruct (exceeded b) eqn:He; [simplify_eq; rewrite ?hashed_nil; lia|].
  destruct (parse_paid p b He Hw Hr) as (b1 & Hp & _ & Hw1 & Hr1 & Hpay). rewrite Hp in Hs |- *.
  rewrite hashed_cons.
  destruct (attempt_at p); try (apply IH in Hs; [lia|done|done]). rewrite hashed_nil. simplify_eq. lia.
Qed.

Lemma step_paid offset b records n b' records' :
  step offset b records = Ok (n, b', records') -> within b -> room b -> spent b + hashed (step_calls offset b) <= spent b'.
Proof using Hmagic.
  unfold decode_step, step_calls, checksum_mismatch_is_complete, container_sound_frame_after_partial.
  cbn [total_len SliceFrameSource scan_for_magic]. intros Hs Hw Hr.
  destruct (exceeded b) eqn:He; [simplify_eq; rewrite ?hashed_nil; lia|].
  destruct (parse_paid offset b He Hw Hr) as (b1 & Hp & _ & Hw1 & Hr1 & Hpay). rewrite Hp in Hs |- *.
  rewrite hashed_cons.
  destruct (attempt_at offset).
  - repeat case_match; simplify_eq; rewrite ?hashed_nil; lia.
  - destruct (sound_after _ _ _) as [[scan b2]|] eqn:Hf; [|done]. apply sound_after_paid in Hf; [|done..].
    repeat case_match; simplify_eq; rewrite ?hashed_nil; lia.
  - repeat case_match; simplify_eq; rewrite ?hashed_nil; lia.
  - destruct (Nat.eqb _ _); [repeat case_match; simplify_eq; rewrite ?hashed_nil; lia|].
    destruct (sound_after _ _ _) as [[scan b2]|] eqn:Hf; [|done]. apply sound_after_paid in Hf; [|done..].
    repeat case_match; simplify_eq; rewrite ?hashed_nil; lia.
Qed.

(** The loop is charged for every byte it hashes. *)
Lemma loop_paid : forall fuel offset b records outs summary b' records',
  loop fuel offset b records outs = Ok (summary, b', records') -> (offset <= length bytes)%nat -> within b -> room b ->
  spent b + hashed (loop_calls fuel offset b records) <= spent b'.
Proof using Hmagic.
  induction fuel as [|fuel IH]; intros offset b records outs summary b' records'; cbn [decode_loop loop_calls]; [done|].
  intros Hs Hoff Hw Hr. destruct (step_spec offset b records Hoff Hw) as (n & b1 & records1 & Hst & Hl1 & Hw1 & Hn).
  pose proof (step_paid _ _ _ _ _ _ Hst Hw Hr). rewrite Hst in Hs |- *. rewrite hashed_app.
  destruct n as [o next|os trailing]; cbn in Hn; [|simplify_eq; rewrite ?hashed_nil; lia].
  apply IH in Hs; [lia|lia|done|by unfold room; rewrite Hl1].
Qed.

(** ** Frames the encoder wrote *)

Definition frame_checksum_of (body : list byte) : list byte := record_checksum magic (zlen body) body.

Definition enc_frame (body : list byte) : list byte :=
  enc_header magic (zlen body) (frame_checksum_of body) ++ body.

Lemma length_enc_frame body : length (enc_frame body) = (CONTAINER_HEADER_LEN + length body)%nat.
Proof using Hmagic.
  unfold enc_frame. by rewrite length_app, length_enc_header by (try apply sha256_length; done).
Qed.

(** The header of a frame, or of an interrupted append of it, reads back. *)
Lemma read_enc_header pre body rest :
  bytes = pre ++ enc_header magic (zlen body) (frame_checksum_of body) ++ rest -> zlen body < 2 ^ 64 ->
  exists header, get_range bytes (length pre) (length pre + CONTAINER_HEADER_LEN) = Some header /\
    parse_header magic header = Ok (mkHeader (zlen body) (frame_checksum_of body)).
Proof using Hmagic.
  intros Hb Hu. eexists. split.
  - rewrite Hb, <- (length_enc_header magic (zlen body) (frame_checksum_of body)) by (try apply sha256_length; done).
    apply get_range_app.
  - apply parse_header_enc; [done|apply sha256_length|]. pose proof (zlen_nonneg body). unfold u64. lia.
Qed.

Lemma parse_frame_enc pre body post e b :
  bytes = pre ++ enc_frame body ++ post -> zlen bytes < 2 ^ 64 ->
  decode_envelope_file body = Ok e -> object_type e = t ->
  parse (length pre) b = Ok (FrameRecord e (length pre + length (enc_frame body)) (frame_checksum_of body),
                             charge b (zlen (enc_frame body))).
Proof using Hmagic.
  intros Hb Hlen Hd Ht. pose proof (length_enc_frame body) as Hf.
  assert (Hlb : length bytes = (length pre + length (enc_frame body) + length post)%nat)
    by (rewrite Hb, !length_app; lia).
  destruct (read_enc_header pre body (body ++ post)) as (header & Hg & Hp);
    [rewrite Hb; unfold enc_frame; by rewrite <- app_assoc|unfold zlen in *; lia|].
  unfold parse_frame_at. cbn [total_len read_at SliceFrameSource]. rewrite Hg, Hp. cbn [h_body_len h_checksum].
  assert (Hbody : get_range bytes (length pre + CONTAINER_HEADER_LEN)
                    (length pre + CONTAINER_HEADER_LEN + Z.to_nat (zlen body)) = Some body).
  { unfold zlen. rewrite Nat2Z.id, Hb. unfold enc_frame.
    rewrite <- (length_enc_header magic (zlen body) (frame_checksum_of body)) by (try apply sha256_length; done).
    rewrite <- length_app, <- app_assoc, app_assoc. apply get_range_app. }
  rewrite Hbody, Hd, Ht. unfold zlen, usize_max in *.
  destruct (Nat.ltb_spec (length bytes - length pre) CONTAINER_HEADER_LEN); [lia|].
  destruct (Z.ltb_spec (2 ^ 64 - 1) (Z.of_nat (length body))); [lia|].
  destruct (Z.ltb_spec (2 ^ 64 - 1) (Z.of_nat (length pre + CONTAINER_HEADER_LEN) + Z.of_nat (length body))); [lia|].
  destruct (Z.ltb_spec (Z.of_nat (length bytes)) (Z.of_nat (length pre + CONTAINER_HEADER_LEN) + Z.of_nat (length body))); [lia|].
  rewrite !bool_decide_true by done. cbn [negb]. rewrite Nat2Z.id, Hf.
  by rewrite Nat2Z.inj_add, Z.add_comm, Nat.add_assoc.
Qed.

(** An interrupted append of a frame is a partial frame. *)
Lemma attempt_torn pre torn more body :
  bytes = pre ++ torn -> torn ++ more = enc_frame body -> more <> [] -> zlen pre + zlen (enc_frame body) < 2 ^ 64 ->
  attempt_at (length pre) = TrailingPartial (length torn).
Proof using Hmagic.
  intros Hb Hm Hne Hlen. pose proof (length_enc_frame body) as Hf. pose proof (f_equal length Hm) as Hl.
  rewrite length_app in Hl. assert (length more <> 0%nat) by (by destruct more).
  assert (Hlb : length bytes = (length pre + length torn)%nat) by (rewrite Hb, length_app; lia).
  unfold attempt_at, parse_frame_at. cbn [total_len read_at SliceFrameSource].
  replace (length bytes - length pre)%nat with (length torn) by lia.
  destruct (Nat.ltb_spec (length torn) CONTAINER_HEADER_LEN) as [|Hge]; [done|].
  destruct (read_enc_header pre body (drop CONTAINER_HEADER_LEN torn)) as (header & -> & ->).
  { rewrite Hb. f_equal. rewrite <- (take_drop CONTAINER_HEADER_LEN torn) at 1. f_equal.
    rewrite <- (take_app_le torn more) by done. rewrite Hm. unfold enc_frame.
    apply take_app_length'. by rewrite length_enc_header by (try apply sha256_length; done). }
  { unfold zlen in *. lia. }
  cbn [h_body_len h_checksum]. unfold zlen, usize_max in *.
  destruct (Z.ltb_spec (2 ^ 64 - 1) (Z.of_nat (length body))); [lia|].
  destruct (Z.ltb_spec (2 ^ 64 - 1) (Z.of_nat (length pre + CONTAINER_HEADER_LEN) + Z.of_nat (length body))); [lia|].
  by destruct (Z.ltb_spec (Z.of_nat (length bytes)) (Z.of_nat (length pre + CONTAINER_HEADER_LEN) + Z.of_nat (length body))); [|lia].
Qed.

(** The outcomes of frames that validate, from an offset on. *)
Fixpoint frame_outcomes (offset : nat) (frames : list (list byte)) : list ContainerRecordOutcome :=
  match frames with
  | [] => []
  | f :: frames' =>
      mkOutcome offset (Evaluated (length f) (take 32 (drop 18 f))) :: frame_outcomes (offset + length f) frames'
  end.

Lemma checksum_field body : take 32 (drop 18 (enc_frame body)) = frame_checksum_of body.
Proof using Hmagic.
  unfold enc_frame, enc_header. rewrite <- !app_assoc, !app_assoc. rewrite <- (app_assoc _ _ body).
  rewrite drop_app_length' by (by rewrite !length_app, !length_to_be_bytes, Hmagic).
  apply take_app_length'. symmetry. apply sha256_length.
Qed.

(** [frame] is the encoding of [e], which reads back. *)
Definition frame_of (e : ObjectEnvelope) (frame : list byte) : Prop :=
  exists body, frame = enc_frame body /\ decode_envelope_file body = Ok e /\ object_type e = t.

Lemma loop_frame pre frame post e fuel b records outs :
  bytes = pre ++ frame ++ post -> zlen bytes < 2 ^ 60 -> frame_of e frame ->
  0 <= spent b -> spent b + zlen frame <= zlen bytes <= limit b ->
  loop (S fuel) (length pre) b records outs
  = loop fuel (length pre + length frame) (mkBudget (limit b) (spent b + zlen frame)) (records ++ [e])
      (outs ++ [mkOutcome (length pre) (Evaluated (length frame) (take 32 (drop 18 frame)))]).
Proof using Hmagic.
  intros Hb Hlen (body & -> & Hd & Ht) Hs0 Hs. cbn [decode_loop]. unfold decode_step, exceeded.
  pose proof (zlen_nonneg (enc_frame body)).
  destruct (Z.ltb_spec (limit b) (spent b)); [lia|].
  rewrite (parse_frame_enc pre body post e b Hb) by (done || lia). unfold require_progress.
  destruct (Nat.leb_spec (length pre + length (enc_frame body)) (length pre)) as [Hle|Hgt].
  { rewrite length_enc_frame in Hle. unfold CONTAINER_HEADER_LEN in Hle. lia. }
  rewrite checksum_field. unfold charge. rewrite Z.min_l by lia.
  by replace (length pre + length (enc_frame body) - length pre)%nat with (length (enc_frame body)) by lia.
Qed.

Lemma loop_frames rest : forall es frames pre fuel b records outs,
  bytes = pre ++ concat frames ++ rest -> zlen bytes < 2 ^ 60 -> Forall2 frame_of es frames ->
  spent b = zlen pre -> zlen bytes <= limit b ->
  exists b', spent b' = zlen pre + zlen (concat frames) /\ limit b' = limit b /\
  loop (length es + fuel) (length pre) b records outs
  = loop fuel (length pre + length (concat frames)) b' (records ++ es) (outs ++ frame_outcomes (length pre) frames).
Proof using Hmagic.
  intros es frames. revert es. induction frames as [|f frames IH]; intros es pre fuel b records outs Hb Hlen Hes Hs Hl.
  { apply Forall2_nil_inv_r in Hes as ->. cbn. rewrite zlen_nil, !app_nil_r, Nat.add_0_r. exists b.
    split_and!; [lia|done|done]. }
  apply Forall2_cons_inv_r in Hes as (e & es' & He & Hes & ->).
  cbn [concat length Nat.add frame_outcomes] in *. rewrite <- app_assoc in Hb.
  pose proof (f_equal zlen Hb) as Hzl. rewrite !zlen_app in Hzl.
  pose proof (zlen_nonneg f). pose proof (zlen_nonneg (concat frames)). pose proof (zlen_nonneg rest). pose proof (zlen_nonneg pre).
  rewrite (loop_frame pre f (concat frames ++ rest) e) by (done || lia).
  destruct (IH es' (pre ++ f) fuel (mkBudget (limit b) (spent b + zlen f)) (records ++ [e])
              (outs ++ [mkOutcome (length pre) (Evaluated (length f) (take 32 (drop 18 f)))]))
    as (b' & Hs' & Hl' & Heq).
  { by rewrite <- app_assoc. } { done. } { done. } { cbn [spent]. rewrite zlen_app. lia. } { done. }
  exists b'. rewrite zlen_app in *. rewrite length_app in Heq. split_and!; [lia|done|].
  rewrite Heq, <- !app_assoc. by rewrite length_app, Nat.add_assoc.
Qed.
End slice.

Lemma frames_length (es : list ObjectEnvelope) (frames : list (list byte)) :
  Forall2 frame_of es frames -> (length es <= length (concat frames))%nat.
Proof using Hmagic.
  induction 1 as [|e f es frames (body & -> & _) _ IH]; cbn [length concat]; [lia|].
  rewrite length_app, length_enc_frame. unfold CONTAINER_HEADER_LEN. lia.
Qed.

(** At an interrupted append with no further magic the scan ends with a partial tail. *)
Lemma loop_torn pre torn more body fuel b records outs :
  torn ++ more = enc_frame body -> more <> [] -> zlen pre + zlen (enc_frame body) < 2 ^ 64 ->
  (forall p, (0 < p)%nat -> ~ magic_at torn magic p) -> spent b <= limit b ->
  exists b', decode_loop (H0 := SliceFrameSource (pre ++ torn)) t magic None
    (fun records record => Ok (records ++ [record])) (S fuel) (length pre) b records outs
  = Ok (mkSummary (length torn) outs, b', records).
Proof using Hmagic.
  intros Hm Hne Hlen Hno Hb. set (bytes := pre ++ torn).
  assert (Hres : resync_to_next_magic bytes (S (length pre)) magic = None).
  { eapply first_from_unique; [apply resync_first|]. intros q Hq Hq'. pose proof (magic_at_bound _ _ _ Hq') as Hbd.
    unfold bytes in Hbd. rewrite length_app in Hbd.
    apply (Hno (q - length pre)%nat); [lia|]. apply (magic_at_window bytes torn (length pre) (length torn)); [|lia|].
    - unfold bytes. pose proof (get_range_app pre torn []) as Hg. by rewrite !app_nil_r in Hg.
    - by replace (length pre + (q - length pre))%nat with q by lia. }
  pose proof (attempt_torn bytes pre torn more body eq_refl Hm Hne Hlen) as Ha.
  destruct (parse_spec bytes (length pre) b) as (b' & Hp & _). rewrite Ha in Hp. exists b'.
  cbn [decode_loop]. unfold decode_step, exceeded. destruct (Z.ltb_spec (limit b) (spent b)); [lia|].
  rewrite Hp. unfold container_sound_frame_after_partial. cbn [sound_after_loop scan_for_magic SliceFrameSource].
  rewrite Hres. by rewrite app_nil_r.
Qed.

Lemma encode_frame_of e frame :
  container_magic t = Ok magic -> encode_container_record t e = Ok frame -> wf_envelope e ->
  zlen (enc_envelope e) < 2 ^ 64 -> object_type e = t -> frame_of e frame.
Proof using Hmagic.
  intros Hm He Hwf Hlen Ht. unfold encode_container_record, encode_container_record_with_known_body in He.
  destruct (encode_envelope_file e) as [body|] eqn:Henc; [|done].
  assert (Hst : validate_strict e = Ok tt).
  { unfold encode_envelope_file in Henc. by destruct (validate_strict e) as [[]|]. }
  destruct (envelope_file_enc e Hst Hwf Hlen) as [Henc' Hdec].
  assert (body = enc_envelope e) as -> by congruence.
  exists (enc_envelope e). split_and!; [|done|done].
  unfold frame_record in He. rewrite Hm in He. unfold len_to_u64 in He.
  destruct (_ <? _); [|done]. inv_ok. unfold enc_frame, enc_header, frame_checksum_of, push_u64, push_u16.
  by rewrite <- !app_assoc.
Qed.
End thms.


(** ** The digest is used at the parsed offsets only *)

Section agree.
Context (H H' : Sha256) (t : ObjectType) (magic bytes : list byte).

#[local] Abbreviation parse h := (@parse_frame_at h (SliceFrameSource bytes) t magic None).
#[local] Abbreviation sound_after h := (@sound_after_loop h (SliceFrameSource bytes) t magic None).
#[local] Abbreviation push := (fun records record => Ok (records ++ [record])).
#[local] Abbreviation step h := (@decode_step h (SliceFrameSource bytes) t magic None _ push).
#[local] Abbreviation loop h := (@decode_loop h (SliceFrameSource bytes) t magic None _ push).

(** Two digests agree on what parsing the given offsets hashes. *)
Definition agree_on (offsets : list nat) : Prop :=
  Forall (fun x => @sha256 H' x = @sha256 H x) (omap (hash_input_at magic bytes) offsets).

Lemma agree_cons o os :
  agree_on (o :: os) -> (forall x, hash_input_at magic bytes o = Some x -> @sha256 H' x = @sha256 H x) /\ agree_on os.
Proof using Type.
  unfold agree_on. cbn [omap list_omap]. destruct (hash_input_at magic bytes o) as [x|]; [|by split].
  intros Ha. apply Forall_cons in Ha as [Hx Ha]. split; [|done]. by intros ? [= <-].
Qed.

Lemma parse_agree o b :
  (forall x, hash_input_at magic bytes o = Some x -> @sha256 H' x = @sha256 H x) -> parse H' o b = parse H o b.
Proof using Type.
  unfold parse_frame_at, record_checksum, hash_input_at. cbn [total_len read_at SliceFrameSource]. intros Ha.
  destruct (_ <? _)%nat; [done|]. destruct (get_range bytes o _) as [header|]; [|done].
  destruct (parse_header magic header) as [v|]; [|done]. destruct (usize_max <? h_body_len v); [done|].
  destruct (_ <? _); [done|]. destruct (_ <? _); [done|].
  destruct (get_range bytes (_ + _) _) as [body|]; [|done]. by rewrite (Ha _ eq_refl).
Qed.

Lemma sound_after_agree : forall fuel from b,
  agree_on (@sound_after_calls H t magic bytes fuel from b) -> sound_after H' fuel from b = sound_after H fuel from b.
Proof using Type.
  induction fuel as [|fuel IH]; intros from b; cbn [sound_after_loop sound_after_calls]; [done|].
  cbn [scan_for_magic SliceFrameSource]. destruct (resync_to_next_magic bytes from magic) as [p|]; [|done].
  destruct (exceeded b); [done|]. intros [Hp Ha]%agree_cons. rewrite (parse_agree _ _ Hp).
  by destruct (parse H p b) as [[[] b1]|]; [|apply IH..|].
Qed.

Lemma step_agree o b records : agree_on (@step_calls H t magic bytes o b) -> step H' o b records = step H o b records.
Proof using Type.
  unfold decode_step, step_calls, checksum_mismatch_is_complete, container_sound_frame_after_partial.
  cbn [total_len SliceFrameSource]. destruct (exceeded b); [done|]. intros [Hp Ha]%agree_cons.
  rewrite (parse_agree _ _ Hp). destruct (parse H o b) as [[[] b1]|]; [done| |done| |done].
  - by rewrite sound_after_agree.
  - destruct (Nat.eqb _ _); [done|]. by rewrite sound_after_agree.
Qed.

Lemma loop_agree : forall fuel o b records outs,
  agree_on (@loop_calls H t magic bytes fuel o b records) -> loop H' fuel o b records outs = loop H fuel o b records outs.
Proof using Type.
  induction fuel as [|fuel IH]; intros o b records outs; cbn [decode_loop loop_calls]; [done|].
  unfold agree_on. rewrite omap_app, Forall_app. intros [Hs Ha]. rewrite (step_agree _ _ _ Hs).
  destruct (step H o b records) as [[[[] b1] records1]|]; [|done..]. by apply IH.
Qed.
End agree.

(** Everything a decode hashes, in order. *)
Definition hash_inputs `{Sha256} (t : ObjectType) (magic bytes : list byte) : list (list byte) :=
  omap (hash_input_at magic bytes)
    (loop_calls t magic bytes (S (S (length bytes))) 0 (ScanBudget_for_input (length bytes)) []).

(** The frames a scan from [offset] on finds that tries every byte offset. *)
Definition container_reference `{Sha256} (t : ObjectType) (magic bytes : list byte) (offset : nat)
  : list ReferenceFrame := reference_from (length bytes) (frame_at t magic bytes) offset.

(** ** Properties *)

Lemma decode_container_records_spec `{Sha256} t magic bytes :
  container_magic t = Ok magic ->
  exists summary b records, decode_frames_budget (H0 := SliceFrameSource bytes) t None
      (fun records record => Ok (records ++ [record])) [] = Ok (summary, b, records)
    /\ limit b = limit (ScanBudget_for_input (length bytes)) /\ within bytes b
    /\ scan_result t magic bytes 0 records (sm_record_outcomes summary) (sm_trailing_partial_bytes summary).
Proof.
  intros Hm. unfold decode_frames_budget. rewrite Hm. cbn [total_len SliceFrameSource].
  destruct (loop_spec t magic (container_magic_length _ _ Hm) bytes (S (S (length bytes))) 0
              (ScanBudget_for_input (length bytes)) [] []) as (trailing & os & b & tail & -> & Hl & Hw & Hs); [lia|lia|lia| |].
  - unfold within. cbn [spent ScanBudget_for_input]. pose proof (zlen_nonneg bytes).
    assert (0 <= limit (ScanBudget_for_input (length bytes))); [|lia]. cbn [limit ScanBudget_for_input].
    apply Z.mod_pos_bound. lia.
  - by eexists _, _, _.
Qed.

Lemma budget_covers_input (bytes : list byte) :
  zlen bytes < 2 ^ 60 -> zlen bytes <= limit (ScanBudget_for_input (length bytes)).
Proof.
  unfold zlen. intros Hl. cbn [limit ScanBudget_for_input]. unfold SCAN_BUDGET_MULTIPLE. rewrite Z.mod_small; lia.
Qed.

(** The bytes an append that was interrupted left: the beginning of a frame, without a further magic. *)
Definition interrupted `{Sha256} (magic torn : list byte) : Prop :=
  (forall p, (0 < p)%nat -> ~ magic_at torn magic p) /\
  exists more body, torn ++ more = enc_frame magic body /\ more <> [] /\ zlen (enc_frame magic body) < 2 ^ 60.

Lemma interrupted_nil `{Sha256} t magic : container_magic t = Ok magic -> interrupted magic [].
Proof.
  intros Hm. pose proof (container_magic_length _ _ Hm) as Hml. split.
  - intros p _ Hp%magic_at_bound. rewrite Hml in Hp. cbn in Hp. lia.
  - exists (enc_frame magic []), []. pose proof (length_enc_frame magic Hml []) as Hl.
    split_and!; [done|intros Hx; by rewrite Hx in Hl|unfold zlen; rewrite Hl; unfold CONTAINER_HEADER_LEN; cbn [length]; lia].
Qed.

(** Appended frames, and the first bytes of an interrupted append, decode to the frames and a partial tail. *)
Lemma decode_container_frames `{Sha256} t magic es frames torn :
  container_magic t = Ok magic -> Forall2 (frame_of t magic) es frames ->
  zlen (concat frames ++ torn) < 2 ^ 60 -> interrupted magic torn ->
  decode_container_records t (concat frames ++ torn)
  = Ok (mkReplayResult es (length torn) (frame_outcomes 0 frames)).
Proof.
  intros Hm Hes Hle (Hno & more & body & Hmore & Hne & Hfl). pose proof (container_magic_length _ _ Hm) as Hml.
  unfold decode_container_records, decode_frames, decode_frames_with, decode_frames_budget. rewrite Hm.
  cbn [total_len SliceFrameSource]. pose proof (frames_length t magic Hml _ _ Hes) as Hn.
  replace (S (S (length (concat frames ++ torn))))
    with (length es + S (S (length (concat frames ++ torn)) - length es))%nat by (rewrite length_app; lia).
  destruct (loop_frames t magic Hml (concat frames ++ torn) torn es frames []
              (S (S (length (concat frames ++ torn)) - length es)) (ScanBudget_for_input (length (concat frames ++ torn))) [] [])
    as (b' & Hsp & Hlim & Heq); [done|done|done|done|by apply budget_covers_input|].
  cbn [app length Nat.add] in Heq. rewrite Heq. cbn [app].
  pose proof (budget_covers_input _ Hle) as Hcov. rewrite zlen_app in Hcov, Hle. rewrite zlen_nil in Hsp.
  pose proof (zlen_nonneg torn).
  destruct (loop_torn t magic Hml (concat frames) torn more body (S (length (concat frames ++ torn)) - length es)
              b' es (frame_outcomes 0 frames)) as (b2 & ->); [done|done|lia|done|lia|]. done.
Qed.

(** C32: The container decoder always returns, and unless its work budget ran out it finds exactly
    the frames a reference scan finds that tries every byte offset and jumps over each sound frame:
    the records in order, one evaluated outcome per frame with its offset, length and checksum, and
    a partial tail is reported only when no sound frame starts in it. *)
Theorem container_decode_reference `{Sha256} t magic bytes :
  container_magic t = Ok magic ->
  exists replay, decode_container_records t bytes = Ok replay /\
    (existsb ran_out (cr_record_outcomes replay) = false ->
       cr_records replay = map rf_record (container_reference t magic bytes 0) /\
       evaluated (cr_record_outcomes replay) = map evaluated_of (container_reference t magic bytes 0) /\
       ((0 < cr_trailing_partial_bytes replay)%nat ->
          exists o, cr_trailing_partial_bytes replay = (length bytes - o)%nat /\ container_reference t magic bytes o = [])).
Proof.
  intros Hm. destruct (decode_container_records_spec t magic bytes Hm) as (summary & b & records & Hd & _ & _ & Hs).
  unfold decode_container_records, decode_frames, decode_frames_with. rewrite Hd. eexists. split; [reflexivity|].
  cbn [cr_records cr_record_outcomes cr_trailing_partial_bytes]. intros Hr. destruct (Hs Hr) as (H1 & H2 & H3).
  split_and!; [done..|]. intros Ht. destruct (H3 Ht) as (o & _ & Ho). eauto.
Qed.

(** C35: A decode of a container below 2^60 bytes hashes at most nine times its length (the budget of
    eight times and one frame), counting every byte given to the checksum function: header fields and
    body of each frame that is checked, in the loop and in the searches behind damage, once per check.
    The list of hashed inputs is complete: a checksum function that agrees on it decodes the same. *)
Theorem container_decode_work_bounded `{HS : Sha256} t magic bytes :
  container_magic t = Ok magic -> zlen bytes < 2 ^ 60 ->
  zlen (concat (hash_inputs t magic bytes)) <= (SCAN_BUDGET_MULTIPLE + 1) * Z.max (zlen bytes) 1 /\
  forall HS' : Sha256, Forall (fun x => @sha256 HS' x = @sha256 HS x) (@hash_inputs HS t magic bytes) ->
    @decode_container_records HS' t bytes = @decode_container_records HS t bytes.
Proof.
  intros Hm Hlen. pose proof (container_magic_length _ _ Hm) as Hml.
  set (b0 := ScanBudget_for_input (length bytes)). pose proof (zlen_nonneg bytes).
  assert (Hl0 : limit b0 = SCAN_BUDGET_MULTIPLE * Z.max (zlen bytes) 1).
  { cbn [b0 limit ScanBudget_for_input]. unfold SCAN_BUDGET_MULTIPLE, zlen in *. apply Z.mod_small. lia. }
  unfold SCAN_BUDGET_MULTIPLE in *.
  assert (Hw0 : within bytes b0) by (unfold within; rewrite Hl0; cbn [b0 spent ScanBudget_for_input]; lia).
  split.
  - destruct (loop_spec t magic Hml bytes (S (S (length bytes))) 0 b0 [] [])
      as (trailing & os & b & tail & Hd & Hl & Hw & _); [lia|lia|lia|done|].
    apply (loop_paid t magic Hml) in Hd; [|lia|done|split; lia]. unfold within in Hw. unfold hashed in Hd.
    unfold hash_inputs. fold b0. cbn [b0 spent ScanBudget_for_input] in Hd. fold b0 in Hd. lia.
  - intros HS' Ha. unfold decode_container_records, decode_frames, decode_frames_with, decode_frames_budget.
    rewrite Hm. cbn [total_len SliceFrameSource]. rewrite (loop_agree HS HS'); [done|]. exact Ha.
Qed.

(** Decoding through a source that only serves reads, scanned window by window, gives exactly
    what decoding the same bytes in memory gives: records, outcomes, errors and the final budget, for
    every bound on the body and every consumer of the records. *)
Theorem container_decode_streamed `{Sha256} t bytes (r : nat -> nat -> PResult (option (list byte)))
    bound {St} (on_record : St -> ObjectEnvelope -> PResult St) st :
  (forall offset len, r offset len = Ok (get_range bytes offset (offset + len))) ->
  decode_frames_budget (H0 := WindowedSource (length bytes) r) t bound on_record st
  = decode_frames_budget (H0 := SliceFrameSource bytes) t bound on_record st.
Proof.
  intros Hr. pose proof (windowed_lawful bytes r Hr). unfold decode_frames_budget.
  destruct (container_magic t) as [magic|] eqn:Hm; [|done]. cbn [total_len WindowedSource SliceFrameSource].
  apply (decode_loop_lawful t magic (container_magic_length _ _ Hm)).
Qed.

(** Appending is crash-safe: whatever was appended in full is read back in order, with its
    offsets, lengths and checksums, and an append that was interrupted after any number of bytes is
    reported as a partial tail of exactly these bytes and hides nothing (provided the interrupted
    frame's own bytes hold no further magic). *)
Theorem container_append_crash_safe `{Sha256} t magic es frames torn e' frame' :
  container_magic t = Ok magic ->
  Forall2 (fun e f => encode_container_record t e = Ok f /\ wf_envelope e /\
    zlen (enc_envelope e) < 2 ^ 64 /\ object_type e = t) (es ++ [e']) (frames ++ [frame']) ->
  zlen (concat frames ++ frame') < 2 ^ 60 ->
  torn `prefix_of` frame' -> torn <> frame' -> (forall p, (0 < p)%nat -> ~ magic_at torn magic p) ->
  decode_container_records t (concat frames ++ torn)
  = Ok (mkReplayResult es (length torn) (frame_outcomes 0 frames)).
Proof.
  intros Hm Hall Hlen [more Hmore] Hne Hno. pose proof (container_magic_length _ _ Hm) as Hml.
  assert (Hfr : Forall2 (frame_of t magic) (es ++ [e']) (frames ++ [frame'])).
  { eapply Forall2_impl; [exact Hall|]. intros e f (? & ? & ? & ?). by eapply encode_frame_of. }
  apply Forall2_app_inv_l in Hfr as (fs & l' & Hes & (f' & ? & (body & -> & _) & ->%Forall2_nil_inv_l & ->)%Forall2_cons_inv_l & Heq).
  apply app_inj_tail in Heq as [<- ->]. rewrite zlen_app in Hlen. pose proof (zlen_nonneg (concat frames)).
  assert (Hlm : zlen torn + zlen more = zlen (enc_frame magic body)) by (by rewrite Hmore, zlen_app).
  pose proof (zlen_nonneg more).
  apply decode_container_frames with magic; [done|done|rewrite zlen_app; lia|].
  split; [done|]. exists more, body. split_and!; [done|by intros ->; rewrite app_nil_r in Hmore|lia].
Qed.

(** ** Witnesses: an executable digest, one signed blob *)

Definition witness_record : ObjectEnvelope := mkEnvelope Blob 1 [x00] [witness_signature x61].
Definition blob_magic : list byte := bytes_of_string "PCONBLB1".
#[local] Existing Instance hash_mod_p.
Definition witness_frame : list byte :=
  match encode_container_record Blob witness_record with Ok frame => frame | Err _ => [] end.

(** An interrupted append, then a complete one. *)
Definition witness_torn_container : list byte := take 60 witness_frame ++ witness_frame.

Lemma container_decode_reference_witness :
  exists replay, decode_container_records Blob witness_torn_container = Ok replay /\
    existsb ran_out (cr_record_outcomes replay) = false /\
    cr_records replay = map rf_record (container_reference Blob blob_magic witness_torn_container 0).
Proof.
  destruct (container_decode_reference Blob blob_magic witness_torn_container eq_refl) as (replay & Hd & Hr).
  exists replay. split; [exact Hd|].
  assert (Ho : existsb ran_out (cr_record_outcomes replay) = false).
  { assert (Hc : match decode_container_records Blob witness_torn_container with
                 | Ok r => existsb ran_out (cr_record_outcomes r) | Err _ => true end = false) by (vm_compute; reflexivity).
    rewrite Hd in Hc. exact Hc. }
  split; [exact Ho|]. exact (proj1 (Hr Ho)).
Defined.

(** Four headers, each of which claims the rest of the file as its body. *)
Definition nested_headers : list byte :=
  let header n := enc_header blob_magic n (repeat x00 32) in
  header 150 ++ header 100 ++ header 50 ++ header 0.

Lemma container_decode_work_bounded_witness :
  zlen nested_headers < zlen (concat (hash_inputs Blob blob_magic nested_headers)) <= 9 * 200 /\
  forall HS' : Sha256, Forall (fun x => @sha256 HS' x = @sha256 hash_mod_p x) (@hash_inputs hash_mod_p Blob blob_magic nested_headers) ->
    @decode_container_records HS' Blob nested_headers = @decode_container_records hash_mod_p Blob nested_headers.
Proof.
  destruct (container_decode_work_bounded Blob blob_magic nested_headers eq_refl) as [Hb Ha].
  - vm_compute. reflexivity.
  - split; [split; [vm_compute; reflexivity|exact Hb]|exact Ha].
Defined.

Lemma container_decode_streamed_witness :
  decode_frames_budget (H0 := WindowedSource (length witness_torn_container)
      (fun offset len => Ok (get_range witness_torn_container offset (offset + len)))) Blob None
    (fun records record => Ok (records ++ [record])) []
  = decode_frames_budget (H0 := SliceFrameSource witness_torn_container) Blob None
    (fun records record => Ok (records ++ [record])) [].
Proof. apply container_decode_streamed. reflexivity. Defined.

Lemma container_append_crash_safe_witness :
  decode_container_records Blob (concat [witness_frame] ++ take 60 witness_frame)
  = Ok (mkReplayResult [witness_record] (length (take 60 witness_frame)) (frame_outcomes 0 [witness_frame])).
Proof.
  apply (container_append_crash_safe Blob blob_magic [witness_record] [witness_frame] (take 60 witness_frame)
           witness_record witness_frame eq_refl).
  - assert (Hw : encode_container_record Blob witness_record = Ok witness_frame /\ wf_envelope witness_record /\
        zlen (enc_envelope witness_record) < 2 ^ 64 /\ object_type witness_record = Blob).
    { split; [vm_compute; reflexivity|]. split; [|split; [vm_compute; reflexivity|reflexivity]].
      split; [cbv; by split|]. split; [|by split]. constructor; [cbv; by split|constructor]. }
    repeat constructor; apply Hw.
  - vm_compute. reflexivity.
  - exists (drop 60 witness_frame). symmetry. apply take_drop.
  - intros Hq%(f_equal length). vm_compute in Hq. discriminate Hq.
  - intros p Hp. assert (Hr : resync_to_next_magic (take 60 witness_frame) 1 blob_magic = None) by (vm_compute; reflexivity).
    pose proof (resync_first (take 60 witness_frame) 1 blob_magic) as Hf. rewrite Hr in Hf. apply Hf. lia.
Defined.
