(* ===== verification/FileSystem.v ===== *)
(** * The repository's files (crates/prikk-store/src/foundation/fsutil, layout.rs)

    A repository directory is the map from the relative paths of its regular files to their bytes;
    directories exist as needed.  [IO] is a computation that may change files and may fail: on failure
    the files stay as the steps before it left them.  An append needs an existing file and adds at its
    end; an atomic write replaces the whole file.  Locks only serialise writers, and an operation that
    runs under one is a single [IO] here. *)

From S2P Require Import Prelude PrikkError ObjectId ObjectStore.

Abbreviation Disk := (gmap string (list byte)).

Definition IO (A : Type) : Type := Disk -> PResult A * Disk.

Definition io_ret {A} (a : A) : IO A := fun d => (Ok a, d).
Definition io_err {A} (e : PrikkError) : IO A := fun d => (Err e, d).
Definition io_bind {A B} (m : IO A) (k : A -> IO B) : IO B := fun d =>
  match m d with
  | (Ok a, d') => k a d'
  | (Err e, d') => (Err e, d')
  end.

(** A computation that only reads. *)
Definition io_read {A} (f : Disk -> PResult A) : IO A := fun d => (f d, d).
Definition io_lift {A} (r : PResult A) : IO A := fun d => (r, d).

Notation "'do!' x ':=' m 'in' k" := (io_bind m (fun x => k))
  (at level 10, x name, m at level 200, k at level 200) : prikk_scope.
Notation "'do!' ' x ':=' m 'in' k" := (io_bind m (fun y => match y with x => k end))
  (at level 10, x strict pattern, m at level 200, k at level 200) : prikk_scope.

(** ** Reads *)

Definition read_file_if_exists (path : string) (d : Disk) : PResult (option (list byte)) := Ok (d !! path).

(** Fewer bytes if the file ends first. *)
Definition read_file_range_if_exists (path : string) (offset : Z) (len : nat) (d : Disk)
  : PResult (option (list byte)) :=
  Ok (match d !! path with
      | None => None
      | Some bytes => Some (take len (drop (Z.to_nat offset) bytes))
      end).

(** The size of [stat_file_state_if_exists]. *)
Definition stat_size_if_exists (path : string) (d : Disk) : PResult (option Z) :=
  Ok (match d !! path with None => None | Some bytes => Some (zlen bytes) end).

(** ** Durable writes *)

Definition append_file_reporting_offset_required (path : string) (bytes : list byte) : IO Z := fun d =>
  match d !! path with
  | None => (Err (Io "No such file or directory"), d)
  | Some old => (Ok (zlen old), <[path := old ++ bytes]> d)
  end.

Definition append_file_required (path : string) (bytes : list byte) : IO unit :=
  do! _ := append_file_reporting_offset_required path bytes in io_ret tt.

Definition write_file_atomically (path : string) (bytes : list byte) : IO unit := fun d =>
  (Ok tt, <[path := bytes]> d).

(** Exclusive creation: refuses an existing entry. *)
Definition create_new_file_required (path : string) (bytes : list byte) : IO unit := fun d =>
  match d !! path with
  | Some _ => (Err (Io "File exists"), d)
  | None => (Ok tt, <[path := bytes]> d)
  end.

(** ** Paths (layout.rs) *)

Definition persisted_object_types : list ObjectType :=
  [Patch; Block; RefState; Tag; Attestation; Blob; RecognitionClaim].

Definition object_type_directory_name (object_type : ObjectType) : string :=
  match object_type with
  | Patch => "patch"
  | Block => "block"
  | RefState => "ref-state"
  | Tag => "tag"
  | Attestation => "attestation"
  | Blob => "blob"
  | RecognitionClaim => "recognition-claim"
  | RefUpdate => "ref-update-inline-only"
  | BlockSummaryCache => "block-summary-cache-rebuildable"
  | RecoveryNote => "recovery-note-inline-only"
  end.

Definition slot_as_str (slot : ContainerSlot) : string := match slot with SlotA => "a" | SlotB => "b" end.

Definition container_slot_path (object_type : ObjectType) (slot : ContainerSlot) : string :=
  ("containers/" +:+ object_type_directory_name object_type +:+ "/" +:+ slot_as_str slot +:+ ".container")%string.

Definition container_index_path : string := "containers/index.container".

(** ** Lemmas *)

Lemma container_slot_path_inj t t' s s' : container_slot_path t s = container_slot_path t' s' -> t = t' /\ s = s'.
Proof. destruct t, t', s, s'; intros Hp; try (by split); vm_compute in Hp; discriminate Hp. Qed.

Lemma container_path_not_index t s : container_slot_path t s <> container_index_path.
Proof. destruct t, s; intros Hp; vm_compute in Hp; discriminate Hp. Qed.
