(* ===== verification/RecoveryLog.v ===== *)
(** * The recovery log (crates/prikk-store/src/recovery_log.rs)

    Every repair that removes bytes from a framed file first appends an entry with these bytes to the
    append-only file [recovery/log].  The reader skips damage byte by byte under a work budget.  The
    identifier of the current run (time, process and counter) is the argument [run] of an append. *)

From S2P Require Import Prelude PrikkError Hash Utf8 ObjectId FrameResync ObjectStore FileSystem.

Definition MAGIC : list byte := bytes_of_string "PRECLOG1".
Definition VERSION : Z := 1.
Definition HEADER_LEN : nat := 8 + 2 + 8 + 32.
Definition LOG_PATH : string := "recovery/log".

(** [env!("CARGO_PKG_VERSION")]. *)
Definition CARGO_PKG_VERSION : list byte := bytes_of_string "0.56.0".

Record Meaning : Type := mkMeaning { m_path : list byte; m_hash : option (list byte) }.

Inductive Kind : Type := Cut | Replace.

Record Entry : Type := mkEntry {
  re_kind : Kind;
  re_run : list byte;
  re_source : list byte;
  re_offset : Z;
  re_label : list byte;
  re_binary_version : list byte;
  re_prefix_hash : list byte;
  re_meaning : list Meaning;
  re_removed : list byte;
  re_new_hash : list byte;
}.

Record RecoveryRef : Type := mkRecoveryRef { rr_id : list byte; rr_source : list byte; rr_offset : Z; rr_len : Z }.

Record Listed : Type := mkListed { l_id : list byte; l_entry : Entry }.

(** [Listing] without the names of older files, which come from a directory listing. *)
Record Listing : Type := mkListing {
  ls_entries : list Listed;
  ls_damaged_regions : nat;
  ls_unread_tail : bool;
  ls_torn_tail : bool;
  ls_newer_versions : nat;
}.

Definition Listing_default : Listing := mkListing [] 0 false false 0.

(** ** Encoding *)

(** The casts of lengths truncate. *)
Definition put_str (out value : list byte) : list byte :=
  out ++ to_be_bytes 2 (zlen value mod 2 ^ 16) ++ value.

Definition put_meaning (out : list byte) (meaning : Meaning) : list byte :=
  let out := put_str out (m_path meaning) in
  match m_hash meaning with
  | Some hash => (out ++ [x01]) ++ hash
  | None => out ++ [x00]
  end.

Definition encode_body (entry : Entry) : list byte :=
  let out := [match re_kind entry with Cut => x00 | Replace => x01 end] in
  let out := out ++ re_run entry in
  let out := put_str out (re_source entry) in
  let out := out ++ to_be_bytes 8 (re_offset entry) in
  let out := put_str out (re_label entry) in
  let out := put_str out (re_binary_version entry) in
  let out := out ++ re_prefix_hash entry in
  let out := out ++ to_be_bytes 2 (Z.of_nat (length (re_meaning entry)) mod 2 ^ 16) in
  let out := fold_left put_meaning (re_meaning entry) out in
  let out := out ++ to_be_bytes 8 (zlen (re_removed entry)) in
  let out := out ++ re_removed entry in
  out ++ re_new_hash entry.

(** ** The reader of a body *)

Record Reader : Type := mkReader { r_bytes : list byte; r_at : nat }.

Definition r_take (n : nat) (r : Reader) : option (list byte * Reader) :=
  match get_range (r_bytes r) (r_at r) (r_at r + n) with
  | Some slice => Some (slice, mkReader (r_bytes r) (r_at r + n))
  | None => None
  end.

Notation "'let!' ' x ':=' e 'in' k" := (match e with Some x => k | None => None end)
  (at level 10, x strict pattern, e at level 200, k at level 200) : prikk_scope.

Definition r_u16 (r : Reader) : option (Z * Reader) :=
  let! '(bs, r) := r_take 2 r in Some (from_be_bytes bs, r).
Definition r_u64 (r : Reader) : option (Z * Reader) :=
  let! '(bs, r) := r_take 8 r in Some (from_be_bytes bs, r).
Definition r_str (r : Reader) : option (list byte * Reader) :=
  let! '(n, r) := r_u16 r in
  let! '(bs, r) := r_take (Z.to_nat n) r in
  if from_utf8 bs then Some (bs, r) else None.
Definition r_hash (r : Reader) : option (list byte * Reader) := r_take 32 r.

Definition r_meaning (r : Reader) : option (Meaning * Reader) :=
  let! '(path, r) := r_str r in
  let! '(tag, r) := r_take 1 r in
  match tag with
  | [x01] => let! '(hash, r) := r_hash r in Some (mkMeaning path (Some hash), r)
  | [x00] => Some (mkMeaning path None, r)
  | _ => None
  end.

Fixpoint r_meanings (count : nat) (meaning : list Meaning) (r : Reader) : option (list Meaning * Reader) :=
  match count with
  | O => Some (meaning, r)
  | S count' =>
      let! '(m, r) := r_meaning r in
      r_meanings count' (meaning ++ [m]) r
  end.

(** A claim of more bytes than the body holds fails at [take]. *)
Definition decode_body (body : list byte) : option Entry :=
  let r := mkReader body 0 in
  let! '(tag, r) := r_take 1 r in
  let! '(kind, r) := match tag with [x00] => Some (Cut, r) | [x01] => Some (Replace, r) | _ => None end in
  let! '(run, r) := r_take 8 r in
  let! '(source, r) := r_str r in
  let! '(offset, r) := r_u64 r in
  let! '(label, r) := r_str r in
  let! '(binary_version, r) := r_str r in
  let! '(prefix_hash, r) := r_hash r in
  let! '(count, r) := r_u16 r in
  let! '(meaning, r) := r_meanings (Z.to_nat count) [] r in
  let! '(n, r) := r_u64 r in
  let! '(removed, r) := (if Z.of_nat (length body) <? n then None else r_take (Z.to_nat n) r) in
  let! '(new_hash, r) := r_hash r in
  if negb (Nat.eqb (r_at r) (length body)) then None
  else Some (mkEntry kind run source offset label binary_version prefix_hash meaning removed new_hash).

(** ** Frames *)

Inductive Candidate : Type :=
| CandEntry (listed : Listed) (next : nat)
| CandNewer (next : nat)
| CandPrefix
| CandDamage.

Section recovery_log.
Context `{Sha256}.

Definition checksum_with_version (version : Z) (body : list byte) : list byte :=
  sha256 (MAGIC ++ to_be_bytes 2 version ++ to_be_bytes 8 (zlen body) ++ body).

Definition frame (entry : Entry) : list byte :=
  let body := encode_body entry in
  let checksum := checksum_with_version VERSION body in
  MAGIC ++ to_be_bytes 2 VERSION ++ to_be_bytes 8 (zlen body) ++ checksum ++ body.

Definition claimed_span (bytes : list byte) (at_ : nat) : Z :=
  let rest := drop at_ bytes in
  if (length rest <? HEADER_LEN)%nat || negb (bool_decide (get_range rest 0 8 = Some MAGIC)) then 1
  else
    let claimed := match get_range rest 10 18 with Some field => from_be_bytes field | None => 0 end in
    let body := Z.min claimed (Z.of_nat (length rest - HEADER_LEN)) in
    Z.of_nat HEADER_LEN + body.

Definition classify_at (bytes : list byte) (at_ : nat) : Candidate :=
  let rest := drop at_ bytes in
  if (length rest <? HEADER_LEN)%nat then
    let n := (length rest `min` 8)%nat in
    if bool_decide (get_range rest 0 n = get_range MAGIC 0 n) then CandPrefix else CandDamage
  else if negb (bool_decide (get_range rest 0 8 = Some MAGIC)) then CandDamage
  else
    let version := match get_range rest 8 10 with Some field => from_be_bytes field | None => 0 end in
    let claimed := match get_range rest 10 18 with Some field => from_be_bytes field | None => 0 end in
    if Z.of_nat (length rest - HEADER_LEN) <? claimed then CandPrefix
    else
      let body_end := (at_ + HEADER_LEN + Z.to_nat claimed)%nat in
      match get_range bytes (at_ + HEADER_LEN) body_end with
      | None => CandPrefix
      | Some body =>
          match get_range rest 18 HEADER_LEN with
          | None => CandDamage
          | Some stored =>
              if negb (bool_decide (checksum_with_version version body = stored)) then CandDamage
              else if VERSION <? version then CandNewer body_end
              else if negb (version =? VERSION) then CandDamage
              else
                match decode_body body with
                | Some entry => CandEntry (mkListed (to_hex (re_run entry)) entry) body_end
                | None => CandDamage
                end
          end
      end.

(** The [while let] loop of [sound_frame_after]; [None] is an exhausted budget. *)
Fixpoint sound_frame_after (fuel : nat) (bytes : list byte) (cursor : nat) (budget : ScanBudget)
  : option bool * ScanBudget :=
  match fuel with
  | O => (Some false, budget)
  | S fuel' =>
      match resync_to_next_magic bytes cursor MAGIC with
      | None => (Some false, budget)
      | Some found =>
          let budget := charge budget (claimed_span bytes found) in
          if exceeded budget then (None, budget)
          else
            match classify_at bytes found with
            | CandEntry _ _ | CandNewer _ => (Some true, budget)
            | _ => sound_frame_after fuel' bytes (S found) budget
            end
      end
  end.

Definition ls_damage (listing : Listing) (in_damage : bool) : Listing :=
  if in_damage then listing
  else mkListing (ls_entries listing) (S (ls_damaged_regions listing)) (ls_unread_tail listing)
         (ls_torn_tail listing) (ls_newer_versions listing).

(** The [while] loop of [list]: every iteration moves [at] forward. *)
Fixpoint list_loop (fuel : nat) (bytes : list byte) (at_ : nat) (budget : ScanBudget) (in_damage : bool)
    (listing : Listing) : PResult Listing :=
  match fuel with
  | O => Err OutOfFuel
  | S fuel' =>
      if negb (at_ <? length bytes)%nat then Ok listing
      else
        let budget := charge budget (claimed_span bytes at_) in
        if exceeded budget
        then Ok (mkListing (ls_entries listing) (ls_damaged_regions listing) true (ls_torn_tail listing)
                   (ls_newer_versions listing))
        else
          match classify_at bytes at_ with
          | CandEntry listed next =>
              list_loop fuel' bytes next budget false
                (mkListing (ls_entries listing ++ [listed]) (ls_damaged_regions listing) (ls_unread_tail listing)
                   (ls_torn_tail listing) (ls_newer_versions listing))
          | CandNewer next =>
              list_loop fuel' bytes next budget false
                (mkListing (ls_entries listing) (ls_damaged_regions listing) (ls_unread_tail listing)
                   (ls_torn_tail listing) (S (ls_newer_versions listing)))
          | CandPrefix =>
              let '(sound, budget) := sound_frame_after (S (length bytes)) bytes (S at_) budget in
              if bool_decide (sound = Some false)
              then Ok (mkListing (ls_entries listing) (ls_damaged_regions listing) (ls_unread_tail listing)
                         true (ls_newer_versions listing))
              else list_loop fuel' bytes (S at_) budget true (ls_damage listing in_damage)
          | CandDamage => list_loop fuel' bytes (S at_) budget true (ls_damage listing in_damage)
          end
  end.

Definition list_log (bytes : list byte) : PResult Listing :=
  list_loop (S (length bytes)) bytes 0 (ScanBudget_for_input (length bytes)) false Listing_default.

(** [list], the older files apart. *)
Definition recovery_list (d : Disk) : PResult Listing :=
  let? found := read_file_if_exists LOG_PATH d in
  match found with
  | None => Ok Listing_default
  | Some bytes => list_log bytes
  end.

(** ** Appending *)

Definition stamped (run : list byte) (entry : Entry) : Entry :=
  mkEntry (re_kind entry) run (re_source entry) (re_offset entry) (re_label entry) (re_binary_version entry)
    (re_prefix_hash entry) (re_meaning entry) (re_removed entry) (re_new_hash entry).

(** The creation cannot race here: the file is absent when it is created. *)
Definition recovery_append (run : list byte) (entry : Entry) : IO RecoveryRef :=
  let framed := frame (stamped run entry) in
  do! found := io_read (read_file_range_if_exists LOG_PATH 0 0) in
  do! _ :=
    match found with
    | None => create_new_file_required LOG_PATH framed
    | Some _ => append_file_required LOG_PATH framed
    end in
  io_ret (mkRecoveryRef (to_hex run) (re_source entry) (re_offset entry) (zlen (re_removed entry))).

Definition lost_ids_entry (source contents : list byte) : Entry :=
  mkEntry Cut (replicate 8 x00) source 0 (bytes_of_string "object index lost ids") CARGO_PKG_VERSION
    (sha256 []) [] contents (replicate 32 x00).

(** One sorted identifier per line. *)
Definition lost_ids_contents (lost_ids : list ObjectId) : list byte :=
  concat (map (fun id => ObjectId_to_hex id ++ [x0a]) (sort_by bytes_cmp lost_ids)).

Definition save_lost_ids (run : list byte) (lost_ids : list ObjectId) : IO RecoveryRef :=
  recovery_append run (lost_ids_entry (bytes_of_string container_index_path) (lost_ids_contents lost_ids)).
End recovery_log.
