(* ===== verification/RecoveryLogThms.v ===== *)
(** * Theorems about the recovery log (crates/prikk-store/src/recovery_log.rs)

    The body codec, and that every entry appended to the log stays listed: also behind an interrupted
    append, which is reported as a torn tail and never as damage. *)

From S2P Require Import Prelude PrikkError Hash Utf8 ObjectId FrameResync ObjectStore FileSystem RecoveryLog.

(** ** The contract of a body reader *)

(** The reader stands behind [pre], in front of [rest]. *)
Definition rd (pre rest : list byte) : Reader := mkReader (pre ++ rest) (length pre).

Definition r_reads {A} (p : Reader -> option (A * Reader)) (enc : list byte) (a : A) : Prop :=
  forall pre rest, p (rd pre (enc ++ rest)) = Some (a, rd (pre ++ enc) rest).

Lemma r_reads_take v : r_reads (r_take (length v)) v v.
Proof.
  intros pre rest. unfold r_take, rd. cbn [r_bytes r_at]. rewrite get_range_app, length_app, <- app_assoc. done.
Qed.

Lemma r_reads_take_len n v : length v = n -> r_reads (r_take n) v v.
Proof. intros <-. apply r_reads_take. Qed.

Lemma r_reads_u16 z : u16 z -> r_reads r_u16 (to_be_bytes 2 z) z.
Proof.
  intros Hz pre rest. unfold r_u16. rewrite (r_reads_take_len 2) by apply length_to_be_bytes.
  by rewrite from_to_be_bytes_small.
Qed.

Lemma r_reads_u64 z : u64 z -> r_reads r_u64 (to_be_bytes 8 z) z.
Proof.
  intros Hz pre rest. unfold r_u64. rewrite (r_reads_take_len 8) by apply length_to_be_bytes.
  by rewrite from_to_be_bytes_small.
Qed.

(** A string that fits its length field. *)
Definition short_string (s : list byte) : Prop := rust_string s /\ zlen s < 2 ^ 16.

Definition enc_str (s : list byte) : list byte := to_be_bytes 2 (zlen s) ++ s.

Lemma put_str_enc out s : short_string s -> put_str out s = out ++ enc_str s.
Proof. intros [_ Hl]. unfold put_str, enc_str. rewrite Z.mod_small; [done|]. pose proof (zlen_nonneg s). lia. Qed.

Lemma r_reads_str s : short_string s -> r_reads r_str (enc_str s) s.
Proof.
  intros [Hu Hl] pre rest. unfold r_str, enc_str. rewrite <- app_assoc.
  rewrite r_reads_u16 by (pose proof (zlen_nonneg s); split; lia). unfold zlen. rewrite Nat2Z.id, r_reads_take.
  rewrite Hu, <- app_assoc. done.
Qed.

Definition wf_meaning (m : Meaning) : Prop :=
  short_string (m_path m) /\ match m_hash m with Some h => length h = 32%nat | None => True end.

Definition enc_meaning (m : Meaning) : list byte :=
  enc_str (m_path m) ++ match m_hash m with Some h => x01 :: h | None => [x00] end.

Lemma put_meanings_enc l : forall out,
  Forall wf_meaning l -> fold_left put_meaning l out = out ++ concat (map enc_meaning l).
Proof.
  induction l as [|m l IH]; intros out Hall; cbn [fold_left map concat]; [by rewrite app_nil_r|].
  apply Forall_cons in Hall as [[Hs Hh] Hall]. rewrite IH by done. unfold put_meaning, enc_meaning.
  rewrite put_str_enc by done. by destruct (m_hash m); rewrite <- !app_assoc.
Qed.

Lemma r_reads_meaning m : wf_meaning m -> r_reads r_meaning (enc_meaning m) m.
Proof.
  destruct m as [path h]. intros [Hs Hh] pre rest. cbn [m_path m_hash] in *. unfold r_meaning, enc_meaning.
  cbn [m_path m_hash]. rewrite <- app_assoc, r_reads_str by done. destruct h as [h|].
  - change ((x01 :: h) ++ rest) with ([x01] ++ h ++ rest). rewrite (r_reads_take_len 1) by done.
    unfold r_hash. rewrite (r_reads_take_len 32) by done. by rewrite <- !app_assoc.
  - rewrite (r_reads_take_len 1) by done. by rewrite <- app_assoc.
Qed.

Lemma r_reads_meanings l : forall acc,
  Forall wf_meaning l -> r_reads (r_meanings (length l) acc) (concat (map enc_meaning l)) (acc ++ l).
Proof.
  induction l as [|m l IH]; intros acc Hall pre rest; cbn [length r_meanings map concat].
  - by rewrite !app_nil_r.
  - apply Forall_cons in Hall as [Hm Hall]. rewrite <- app_assoc, r_reads_meaning, IH by done.
    by rewrite <- !app_assoc.
Qed.

(** ** The body codec *)

Definition wf_recovery_entry (e : Entry) : Prop :=
  length (re_run e) = 8%nat /\ short_string (re_source e) /\ u64 (re_offset e) /\ short_string (re_label e) /\
  short_string (re_binary_version e) /\ length (re_prefix_hash e) = 32%nat /\ Forall wf_meaning (re_meaning e) /\
  Z.of_nat (length (re_meaning e)) < 2 ^ 16 /\ zlen (re_removed e) < 2 ^ 64 /\ length (re_new_hash e) = 32%nat.

Lemma encode_body_enc e : wf_recovery_entry e ->
  encode_body e = [match re_kind e with Cut => x00 | Replace => x01 end] ++ re_run e ++ enc_str (re_source e)
    ++ to_be_bytes 8 (re_offset e) ++ enc_str (re_label e) ++ enc_str (re_binary_version e) ++ re_prefix_hash e
    ++ to_be_bytes 2 (Z.of_nat (length (re_meaning e))) ++ concat (map enc_meaning (re_meaning e))
    ++ to_be_bytes 8 (zlen (re_removed e)) ++ re_removed e ++ re_new_hash e ++ [].
Proof.
  intros (_ & Hs & _ & Hl & Hv & _ & Hm & Hc & _). unfold encode_body.
  rewrite !put_str_enc, put_meanings_enc by done. rewrite Z.mod_small by lia.
  by rewrite <- !app_assoc, app_nil_r.
Qed.

Lemma decode_encode_body e : wf_recovery_entry e -> decode_body (encode_body e) = Some e.
Proof.
  intros Hwf. rewrite (encode_body_enc e Hwf). destruct Hwf as (Hr & Hs & Ho & Hl & Hv & Hp & Hm & Hc & Hrm & Hn).
  set (body := [_] ++ _). unfold decode_body. change (mkReader body 0) with (rd [] body). unfold body at 1.
  rewrite (r_reads_take_len 1) by done.
  assert (Hfin : forall x, x = body -> Nat.eqb (length x) (length body) = true) by (intros x ->; apply Nat.eqb_refl).
  destruct (re_kind e) eqn:Hkind; rewrite (r_reads_take_len 8), r_reads_str, r_reads_u64, r_reads_str, r_reads_str by done;
    unfold r_hash; rewrite (r_reads_take_len 32) by done; rewrite r_reads_u16 by (split; lia);
    rewrite Nat2Z.id, r_reads_meanings by done; rewrite r_reads_u64 by (pose proof (zlen_nonneg (re_removed e)); split; lia).
  all: destruct (Z.ltb_spec (Z.of_nat (length body)) (zlen (re_removed e))) as [Hlt|_];
    [exfalso; unfold body in Hlt; rewrite !length_app in Hlt; unfold zlen in Hlt; lia|].
  all: unfold zlen; rewrite Nat2Z.id, r_reads_take, (r_reads_take_len 32) by done.
  all: cbn [rd r_at app]; rewrite <- !app_assoc.
  all: rewrite Hfin by (unfold body; by rewrite ?app_nil_r, <- ?app_assoc).
  all: destruct e; cbn in *; by subst.
Qed.

(** ** Frames *)

Lemma get_range_at pre mid post lo hi :
  lo = length pre -> hi = (lo + length mid)%nat -> get_range (pre ++ mid ++ post) lo hi = Some mid.
Proof. intros -> ->. apply get_range_app. Qed.

Section thms.
Context `{Sha256}.

Lemma length_frame e : length (frame e) = (HEADER_LEN + length (encode_body e))%nat.
Proof. unfold frame. rewrite !length_app, !length_to_be_bytes. unfold checksum_with_version. by rewrite sha256_length. Qed.

(** The fields of a header in front of anything. *)
Lemma header_fields n ck rest (h := MAGIC ++ to_be_bytes 2 VERSION ++ to_be_bytes 8 n ++ ck ++ rest) :
  length ck = 32%nat ->
  get_range h 0 8 = Some MAGIC /\ get_range h 8 10 = Some (to_be_bytes 2 VERSION) /\
  get_range h 10 18 = Some (to_be_bytes 8 n) /\ get_range h 18 HEADER_LEN = Some ck.
Proof.
  intros Hck. unfold h. split_and!.
  - by apply (get_range_at []).
  - by apply get_range_at; [|rewrite length_to_be_bytes].
  - rewrite app_assoc. by apply get_range_at; [rewrite length_app, length_to_be_bytes|rewrite length_to_be_bytes].
  - rewrite 2 app_assoc. apply get_range_at; [by rewrite !length_app, !length_to_be_bytes|by rewrite Hck].
Qed.

Section candidate.
Context (pre rest : list byte) (e : Entry) (Hwf : wf_recovery_entry e).
Context (Hlen : zlen (pre ++ frame e ++ rest) < 2 ^ 64).

Lemma frame_split (bytes := pre ++ frame e ++ rest) :
  drop (length pre) bytes = MAGIC ++ to_be_bytes 2 VERSION ++ to_be_bytes 8 (zlen (encode_body e))
    ++ checksum_with_version VERSION (encode_body e) ++ encode_body e ++ rest /\
  u64 (zlen (encode_body e)) /\ length (drop (length pre) bytes) = (HEADER_LEN + length (encode_body e) + length rest)%nat.
Proof using Hlen.
  unfold bytes. rewrite drop_app_length. split_and!.
  - unfold frame. by rewrite <- !app_assoc.
  - pose proof (zlen_nonneg (encode_body e)). unfold u64. unfold zlen in *. rewrite !length_app, length_frame in Hlen. lia.
  - by rewrite length_app, length_frame.
Qed.

Lemma claimed_span_frame : claimed_span (pre ++ frame e ++ rest) (length pre) = zlen (frame e).
Proof using Hlen.
  destruct frame_split as (Hd & Hu & Hl). unfold claimed_span. rewrite Hl, Hd.
  destruct (header_fields (zlen (encode_body e)) (checksum_with_version VERSION (encode_body e)) (encode_body e ++ rest))
    as (H1 & _ & H3 & _); [apply sha256_length|]. rewrite H1, H3, bool_decide_true by done.
  rewrite from_to_be_bytes_small by exact Hu.
  destruct (Nat.ltb_spec (HEADER_LEN + length (encode_body e) + length rest) HEADER_LEN); [lia|]. cbn [orb negb].
  unfold zlen at 2. rewrite length_frame. unfold zlen. lia.
Qed.

Lemma classify_frame :
  classify_at (pre ++ frame e ++ rest) (length pre)
  = CandEntry (mkListed (to_hex (re_run e)) e) (length pre + length (frame e)).
Proof using Hlen Hwf.
  destruct frame_split as (Hd & Hu & Hl). unfold classify_at. rewrite Hl, Hd.
  destruct (header_fields (zlen (encode_body e)) (checksum_with_version VERSION (encode_body e)) (encode_body e ++ rest))
    as (H1 & H2 & H3 & H4); [apply sha256_length|]. rewrite H1, H2, H3, H4, bool_decide_true by done.
  rewrite from_to_be_bytes_small by exact Hu. change (from_be_bytes (to_be_bytes 2 VERSION)) with VERSION.
  destruct (Nat.ltb_spec (HEADER_LEN + length (encode_body e) + length rest) HEADER_LEN); [lia|]. cbn [negb].
  destruct (Z.ltb_spec (Z.of_nat (HEADER_LEN + length (encode_body e) + length rest - HEADER_LEN)) (zlen (encode_body e)));
    [unfold zlen in *; lia|].
  assert (Hb : get_range (pre ++ frame e ++ rest) (length pre + HEADER_LEN)
                 (length pre + HEADER_LEN + Z.to_nat (zlen (encode_body e))) = Some (encode_body e)).
  { unfold frame. rewrite <- !app_assoc, !app_assoc, <- (app_assoc _ (encode_body e)).
    apply get_range_at; [|unfold zlen; by rewrite Nat2Z.id].
    rewrite !length_app, !length_to_be_bytes. unfold checksum_with_version. rewrite sha256_length. cbn. lia. }
  rewrite Hb, bool_decide_true by done. cbn [negb]. rewrite Z.ltb_irrefl, Z.eqb_refl. cbn [negb].
  rewrite decode_encode_body by done. rewrite length_frame, bool_decide_true by done. cbn [negb].
  unfold zlen. by rewrite Nat2Z.id, Nat.add_assoc.
Qed.
End candidate.

(** An interrupted append is a prefix candidate. *)
Lemma classify_torn pre torn more e :
  torn ++ more = frame e -> more <> [] -> zlen pre + zlen (frame e) < 2 ^ 64 ->
  classify_at (pre ++ torn) (length pre) = CandPrefix.
Proof using Type.
  intros Hm Hne Hlen. pose proof (length_frame e) as Hf. pose proof (f_equal length Hm) as Hl.
  rewrite length_app in Hl. assert (length more <> 0%nat) by (by destruct more).
  unfold classify_at. rewrite drop_app_length.
  destruct (header_fields (zlen (encode_body e)) (checksum_with_version VERSION (encode_body e)) (encode_body e))
    as (H1 & H2 & H3 & _); [apply sha256_length|].
  assert (Hpre : forall lo hi, (hi <= length torn)%nat -> get_range torn lo hi = get_range (frame e) lo hi).
  { intros lo hi Hhi. rewrite <- Hm. unfold get_range. rewrite length_app. destruct (Nat.leb_spec lo hi); [|done].
    rewrite (proj2 (Nat.leb_le hi (length torn))), (proj2 (Nat.leb_le hi (length torn + length more))) by lia. cbn [andb].
    f_equal. destruct (Nat.le_gt_cases lo (length torn)); [|lia].
    rewrite drop_app_le by lia. by rewrite take_app_le by (rewrite length_drop; lia). }
  destruct (Nat.ltb_spec (length torn) HEADER_LEN) as [Hs|Hs].
  - rewrite Hpre by lia. rewrite bool_decide_true; [done|].
    unfold frame. rewrite !get_range_some; [|cbn; lia|rewrite length_app; cbn; lia].
    rewrite !drop_0. by rewrite take_app_le by (cbn; lia).
  - rewrite !Hpre by (unfold HEADER_LEN in *; lia).
    unfold frame in *. rewrite H1, H2, H3, bool_decide_true by done. cbn [negb].
    assert (Hu : u64 (zlen (encode_body e))).
    { pose proof (zlen_nonneg (encode_body e)). unfold u64. unfold zlen in *. lia. }
    rewrite from_to_be_bytes_small by exact Hu.
    destruct (Z.ltb_spec (Z.of_nat (length torn - HEADER_LEN)) (zlen (encode_body e))); [done|].
    unfold zlen in *. lia.
Qed.

(** ** Listing *)

Definition listed_of (e : Entry) : Listed := mkListed (to_hex (re_run e)) e.

(** [l] with more entries, and maybe a torn tail. *)
Definition ls_add (l : Listing) (es : list Entry) (torn : bool) : Listing :=
  mkListing (ls_entries l ++ map listed_of es) (ls_damaged_regions l) (ls_unread_tail l)
    (ls_torn_tail l || torn) (ls_newer_versions l).

Lemma claimed_span_bound bytes at_ : (at_ < length bytes)%nat -> 0 <= claimed_span bytes at_ <= zlen bytes - Z.of_nat at_.
Proof using Type.
  intros Hat. unfold claimed_span. pose proof (length_drop bytes at_) as Hd. unfold zlen.
  destruct (Nat.ltb_spec (length (drop at_ bytes)) HEADER_LEN); cbn [orb]; [lia|]. destruct (negb _); [lia|].
  assert (0 <= match get_range (drop at_ bytes) 10 18 with Some field => from_be_bytes field | None => 0 end)
    by (destruct (get_range _ _ _); [apply from_be_bytes_range|lia]). lia.
Qed.

(** The listing ends behind an interrupted append with no further magic, and reports a torn tail. *)
Lemma list_loop_torn pre torn more e fuel b dmg l :
  torn ++ more = frame e -> more <> [] -> zlen (pre ++ torn) < 2 ^ 60 -> zlen (frame e) < 2 ^ 60 ->
  (forall p, (0 < p)%nat -> ~ magic_at torn MAGIC p) -> 0 <= spent b <= zlen pre -> zlen (pre ++ torn) <= limit b ->
  list_loop (S fuel) (pre ++ torn) (length pre) b dmg l = Ok (ls_add l [] (negb (Nat.eqb (length torn) 0))).
Proof using Type.
  intros Hm Hne Hlen Hfl Hno Hsp Hlim. cbn [list_loop]. unfold ls_add. cbn [map]. rewrite app_nil_r.
  destruct (Nat.ltb_spec (length pre) (length (pre ++ torn))) as [Hlt|Hge]; cbn [negb]; rewrite length_app in *.
  2: { replace (length torn) with 0%nat by lia. cbn. rewrite orb_false_r. by destruct l. }
  pose proof (claimed_span_bound (pre ++ torn) (length pre)) as Hcs. rewrite length_app in Hcs. specialize (Hcs ltac:(lia)).
  assert (He : exceeded (charge b (claimed_span (pre ++ torn) (length pre))) = false).
  { unfold exceeded. cbn [charge spent limit]. apply Z.ltb_ge. rewrite zlen_app in *. unfold zlen in *. lia. }
  rewrite He, (classify_torn pre torn more e) by (done || (rewrite zlen_app in Hlen; pose proof (zlen_nonneg torn); lia)).
  assert (Hres : resync_to_next_magic (pre ++ torn) (S (length pre)) MAGIC = None).
  { eapply first_from_unique; [apply resync_first|]. intros q Hq Hq'. pose proof (magic_at_bound _ _ _ Hq') as Hbd.
    rewrite length_app in Hbd. apply (Hno (q - length pre)%nat); [lia|].
    apply (magic_at_window (pre ++ torn) torn (length pre) (length torn)); [|lia|].
    - pose proof (get_range_app pre torn []) as Hg. by rewrite !app_nil_r in Hg.
    - by replace (length pre + (q - length pre))%nat with q by lia. }
  cbn [sound_frame_after]. rewrite Hres, bool_decide_true by done.
  destruct (Nat.eqb_spec (length torn) 0); [lia|]. cbn [negb]. by rewrite orb_true_r.
Qed.

Lemma list_loop_frames torn more e' : forall es pre fuel b dmg l,
  Forall wf_recovery_entry es -> torn ++ more = frame e' -> more <> [] ->
  zlen (pre ++ concat (map frame es) ++ torn) < 2 ^ 60 -> zlen (frame e') < 2 ^ 60 ->
  (forall p, (0 < p)%nat -> ~ magic_at torn MAGIC p) -> spent b = zlen pre ->
  zlen (pre ++ concat (map frame es) ++ torn) <= limit b -> (length es < fuel)%nat ->
  list_loop fuel (pre ++ concat (map frame es) ++ torn) (length pre) b dmg l
  = Ok (ls_add l es (negb (Nat.eqb (length torn) 0))).
Proof using Type.
  induction es as [|e es IH]; intros pre fuel b dmg l Hall Htm Hne Hlen Hfl Hno Hsp Hlim Hfuel.
  - destruct fuel as [|fuel]; [cbn in Hfuel; lia|]. cbn [map concat app] in *.
    apply (list_loop_torn pre torn more e'); try done.
    pose proof (zlen_nonneg pre). lia.
  - apply Forall_cons in Hall as [He Hall]. destruct fuel as [|fuel]; [cbn in Hfuel; lia|].
    cbn [map concat list_loop length] in *. rewrite <- app_assoc in *. set (rest := concat (map frame es) ++ torn) in *.
    pose proof Hlen as Hall'.
    assert (Hpos : (0 < length (frame e))%nat) by (rewrite length_frame; unfold HEADER_LEN; lia).
    destruct (Nat.ltb_spec (length pre) (length (pre ++ frame e ++ rest))) as [_|Hge]; cbn [negb];
      [|rewrite !length_app in Hge; lia].
    rewrite claimed_span_frame by lia. pose proof (zlen_nonneg pre). pose proof (zlen_nonneg rest).
    pose proof (zlen_nonneg (frame e)). rewrite !zlen_app in Hlim, Hall'.
    assert (Hc : charge b (zlen (frame e)) = mkBudget (limit b) (zlen pre + zlen (frame e))).
    { unfold charge. f_equal. lia. }
    rewrite Hc. unfold exceeded. cbn [limit spent].
    destruct (Z.ltb_spec (limit b) (zlen pre + zlen (frame e))); [lia|].
    rewrite classify_frame by (done || (rewrite !zlen_app; lia)).
    specialize (IH (pre ++ frame e) fuel (mkBudget (limit b) (zlen pre + zlen (frame e))) false
      (mkListing (ls_entries l ++ [listed_of e]) (ls_damaged_regions l) (ls_unread_tail l) (ls_torn_tail l) (ls_newer_versions l))).
    rewrite length_app, <- !app_assoc, zlen_app in IH.
    change (mkListed (to_hex (re_run e)) e) with (listed_of e). rewrite IH by (done || (unfold rest in *; rewrite ?zlen_app in *; cbn [spent limit]; lia)).
    unfold ls_add. cbn. by rewrite <- app_assoc.
Qed.

Lemma list_log_frames es e' torn more :
  Forall wf_recovery_entry es -> torn ++ more = frame e' -> more <> [] ->
  zlen (concat (map frame es) ++ torn) < 2 ^ 60 -> zlen (frame e') < 2 ^ 60 ->
  (forall p, (0 < p)%nat -> ~ magic_at torn MAGIC p) ->
  list_log (concat (map frame es) ++ torn)
  = Ok (mkListing (map listed_of es) 0 false (negb (Nat.eqb (length torn) 0)) 0).
Proof using Type.
  intros Hall Htm Hne Hlen Hfl Hno. unfold list_log.
  apply (list_loop_frames torn more e' es []); try done.
  - cbn [app]. unfold zlen in *. cbn [limit ScanBudget_for_input]. unfold SCAN_BUDGET_MULTIPLE. rewrite Z.mod_small; lia.
  - rewrite length_app. assert (Hc : (length es <= length (concat (map frame es)))%nat); [|lia].
    clear. induction es as [|e es IH]; cbn [map concat length]; [lia|].
    rewrite length_app, length_frame. unfold HEADER_LEN. lia.
Qed.

(** What an append leaves on disk. *)
Lemma recovery_append_disk run e d old :
  old = default [] (d !! LOG_PATH) ->
  recovery_append run e d
  = (Ok (mkRecoveryRef (to_hex run) (re_source e) (re_offset e) (zlen (re_removed e))),
     <[LOG_PATH := old ++ frame (stamped run e)]> d).
Proof using Type.
  intros ->. unfold recovery_append, io_bind, io_read, read_file_range_if_exists, append_file_required, io_bind,
    append_file_reporting_offset_required, create_new_file_required. by destruct (d !! LOG_PATH) eqn:Hd; rewrite ?Hd.
Qed.
End thms.

(** ** Properties *)

(** What a repair saves stays readable: after any number of saves, one more save to the recovery
    log is listed after all earlier ones, byte for byte (the removed bytes included), with no damage
    and no torn tail reported, under the identifier the save returned, and no other file changes. *)
Theorem recovery_save_listed `{Sha256} d es run e :
  default [] (d !! LOG_PATH) = concat (map frame es) ->
  Forall wf_recovery_entry es -> wf_recovery_entry (stamped run e) ->
  zlen (concat (map frame (es ++ [stamped run e]))) < 2 ^ 60 ->
  exists saved d', recovery_append run e d = (Ok saved, d') /\
    rr_id saved = l_id (listed_of (stamped run e)) /\
    recovery_list d' = Ok (mkListing (map listed_of (es ++ [stamped run e])) 0 false false 0) /\
    forall path, path <> LOG_PATH -> d' !! path = d !! path.
Proof.
  intros Hd Hes He Hlen. eexists _, _. split; [by apply (recovery_append_disk run e d (concat (map frame es)))|]. split_and!.
  - done.
  - unfold recovery_list, read_file_if_exists. rewrite lookup_insert_eq.
    replace (concat (map frame es) ++ frame (stamped run e)) with (concat (map frame (es ++ [stamped run e])) ++ [])
      by (by rewrite map_app, concat_app; cbn; rewrite !app_nil_r).
    apply (list_log_frames _ (stamped run e) [] (frame (stamped run e))).
    + by apply Forall_app_2; [|constructor].
    + done.
    + intros Hc%(f_equal length). by rewrite length_frame in Hc.
    + by rewrite app_nil_r.
    + rewrite map_app, concat_app, zlen_app in Hlen. cbn [map concat] in Hlen. rewrite app_nil_r in Hlen.
      pose proof (zlen_nonneg (concat (map frame es))). lia.
    + intros p _ Hm%magic_at_bound. cbn in Hm. lia.
  - intros path Hp. by rewrite lookup_insert_ne.
Qed.

#[local] Existing Instance hash_mod_p.
Definition witness_entry : Entry :=
  mkEntry Cut (replicate 8 x01) (bytes_of_string "wal") 3 (bytes_of_string "torn tail") CARGO_PKG_VERSION (sha256 [])
    [mkMeaning [x61] None] [x01; x02] (replicate 32 x00).

Lemma witness_entry_wf : wf_recovery_entry (stamped (replicate 8 x01) witness_entry).
Proof. repeat split; try (vm_compute; reflexivity); try lia; try (vm_compute; congruence). repeat constructor. Qed.

Lemma recovery_save_listed_witness :
  exists saved d', recovery_append (replicate 8 x01) witness_entry
      ({[LOG_PATH := concat (map frame [stamped (replicate 8 x01) witness_entry])]} : Disk) = (Ok saved, d') /\
    recovery_list d' = Ok (mkListing (map listed_of ([stamped (replicate 8 x01) witness_entry]
      ++ [stamped (replicate 8 x01) witness_entry])) 0 false false 0).
Proof.
  destruct (recovery_save_listed ({[LOG_PATH := concat (map frame [stamped (replicate 8 x01) witness_entry])]} : Disk)
    [stamped (replicate 8 x01) witness_entry] (replicate 8 x01) witness_entry) as (saved & d' & Ha & _ & Hl & _).
  - by rewrite lookup_singleton_eq.
  - constructor; [apply witness_entry_wf|constructor].
  - apply witness_entry_wf.
  - vm_compute. reflexivity.
  - exists saved, d'. split; [exact Ha|exact Hl].
Defined.
