(* ===== verification/IndexFile.v ===== *)
(** * The object index file (crates/prikk-store/src/foundation/index.rs)

    The index is an append-only file of fixed-size frames, one per stored object: where the object's
    container record lives.  The reader isolates damage like the container's, without a work budget:
    every index frame has the same body length.  Offsets in a file are [nat]; the offsets an entry
    records are the [u64] values of its fields. *)

From S2P Require Import Prelude PrikkError Hash ObjectId Signature Envelope ByteCursor FileCodec FrameResync Container ObjectStore.


Definition INDEX_MAGIC : list byte := bytes_of_string "PIDXENT1".
Definition INDEX_VERSION : Z := 1.
Definition INDEX_HEADER_LEN : nat := 8 + 2 + 8 + 32.
Definition INDEX_BODY_LEN : nat := 32 + 2 + 1 + 8 + 8 + 32.

#[global] Instance ContainerSlot_eq_dec : EqDecision ContainerSlot.
Proof. solve_decision. Defined.
#[global] Instance IndexEntry_eq_dec : EqDecision IndexEntry.
Proof. solve_decision. Defined.

Inductive IndexRecordStatus : Type :=
| IndexEvaluated
| IndexFailed (message : string).

Record IndexRecordOutcome : Type := mkIndexOutcome { io_offset : nat; io_status : IndexRecordStatus }.

Record IndexReplay : Type := mkIndexReplay {
  ir_entries : list IndexEntry;
  ir_trailing_partial_bytes : nat;
  ir_record_outcomes : list IndexRecordOutcome;
}.

Definition index_has_item_failure (replay : IndexReplay) : bool :=
  existsb (fun outcome => match io_status outcome with IndexFailed _ => true | IndexEvaluated => false end)
    (ir_record_outcomes replay).

Definition slot_code (slot : ContainerSlot) : Z := match slot with SlotA => 0 | SlotB => 1 end.

Definition slot_from_code (code : Z) : PResult ContainerSlot :=
  if code =? 0 then Ok SlotA
  else if code =? 1 then Ok SlotB
  else Err (MalformedData "unrecognized container slot code {other}").

Definition encode_entry_body (entry : IndexEntry) : list byte :=
  let body := ie_object_id entry in
  let body := push_u16 body (ObjectType_code (ie_object_type entry)) in
  let body := body ++ [zb (slot_code (ie_slot entry))] in
  let body := body ++ to_be_bytes 8 (ie_offset entry) in
  let body := body ++ to_be_bytes 8 (ie_length entry) in
  body ++ ie_container_checksum entry.

Definition decode_entry_body (body : list byte) : PResult IndexEntry :=
  let c := ByteCursor_new body in
  let? '(object_id, c) := bc_read_array 32 c in
  let? '(code, c) := bc_read_u16 c in
  let? object_type := ObjectType_from_code code in
  let? '(slot_byte, c) := bc_read_array 1 c in
  let? slot := slot_from_code (from_be_bytes slot_byte) in
  let? '(offset, c) := bc_read_u64 c in
  let? '(len, c) := bc_read_u64 c in
  let? '(container_checksum, c) := bc_read_array 32 c in
  if negb (is_finished c) then Err (MalformedData "trailing bytes in index entry body")
  else Ok (mkIndexEntry object_id object_type slot offset len container_checksum).

(** The struct [IndexHeader] has the fields of [ContainerHeader]. *)
Definition parse_index_header (header : list byte) : PResult ContainerHeader :=
  let? '(magic, c) := bc_read_array 8 (ByteCursor_new header) in
  if negb (bool_decide (magic = INDEX_MAGIC)) then Err (MalformedData "invalid index record magic")
  else
    let? '(version, c) := bc_read_u16 c in
    if negb (version =? INDEX_VERSION) then Err (UnsupportedFormatVersion version)
    else
      let? '(body_len, c) := bc_read_u64 c in
      let? '(checksum, c) := bc_read_array 32 c in
      if negb (is_finished c) then Err (MalformedData "trailing bytes in index header")
      else Ok (mkHeader body_len checksum).

Inductive IndexFrameAttempt : Type :=
| IndexRecord (entry : IndexEntry) (next_offset : nat)
| IndexPartial (remaining : nat)
| IndexInvalid (message : string).

Definition partial_before_sound_frame_message : string :=
  "frame at byte offset {reported_offset} claims more bytes than remain, but a sound frame starts at byte offset {reported_next}: damage, not a torn tail".

Section index_file.
Context `{Sha256}.

Definition index_record_checksum (body_len : Z) (body : list byte) : list byte :=
  sha256 (INDEX_MAGIC ++ to_be_bytes 2 INDEX_VERSION ++ to_be_bytes 8 body_len ++ body).

Definition encode_index_record (entry : IndexEntry) : PResult (list byte) :=
  let body := encode_entry_body entry in
  let? body_len := len_to_u64 (zlen body) in
  let checksum := index_record_checksum body_len body in
  let out := INDEX_MAGIC in
  let out := push_u16 out INDEX_VERSION in
  let out := out ++ to_be_bytes 8 body_len in
  let out := out ++ checksum in
  Ok (out ++ body).

(** The offset [base + offset] only appears in messages. *)
Definition parse_index_frame_at (bytes : list byte) (offset : nat) : IndexFrameAttempt :=
  let remaining := (length bytes - offset)%nat in
  if (remaining <? INDEX_HEADER_LEN)%nat then IndexPartial remaining
  else
    let header_end := (offset + INDEX_HEADER_LEN)%nat in
    match get_range bytes offset header_end with
    | None => IndexPartial remaining
    | Some header =>
        match parse_index_header header with
        | Err _ => IndexInvalid "{err}"
        | Ok values =>
            if negb (h_body_len values =? Z.of_nat INDEX_BODY_LEN)
            then IndexInvalid "index record at byte offset {} claims a body of {} bytes, but every index entry's body is exactly {INDEX_BODY_LEN}"
            else if usize_max <? h_body_len values then IndexInvalid "index body length does not fit usize"
            else if usize_max <? Z.of_nat header_end + h_body_len values then IndexInvalid "index body end overflow"
            else
              let body_end := (header_end + Z.to_nat (h_body_len values))%nat in
              match get_range bytes header_end body_end with
              | None => IndexPartial remaining
              | Some body =>
                  let expected := index_record_checksum (h_body_len values) body in
                  if negb (bool_decide (expected = h_checksum values))
                  then IndexInvalid "index checksum mismatch at byte offset {}"
                  else
                    match decode_entry_body body with
                    | Ok entry => IndexRecord entry body_end
                    | Err _ => IndexInvalid "{err}"
                    end
              end
        end
    end.

Definition index_sound (bytes : list byte) (candidate : nat) : bool :=
  match parse_index_frame_at bytes candidate with IndexRecord _ _ => true | _ => false end.

(** The decode [loop]: every iteration moves [offset] forward. *)
Fixpoint decode_index_loop (fuel : nat) (bytes : list byte) (base offset : nat) (entries : list IndexEntry)
    (record_outcomes : list IndexRecordOutcome) : PResult IndexReplay :=
  match fuel with
  | O => Err OutOfFuel
  | S fuel' =>
      match parse_index_frame_at bytes offset with
      | IndexRecord entry next_offset =>
          let record_outcomes := record_outcomes ++ [mkIndexOutcome (base + offset) IndexEvaluated] in
          let? next := require_progress "object index" offset next_offset in
          decode_index_loop fuel' bytes base next (entries ++ [entry]) record_outcomes
      | IndexPartial remaining =>
          match sound_frame_after_partial bytes offset INDEX_MAGIC (index_sound bytes) with
          | None => Ok (mkIndexReplay entries remaining record_outcomes)
          | Some next =>
              let record_outcomes :=
                record_outcomes ++ [mkIndexOutcome (base + offset) (IndexFailed partial_before_sound_frame_message)] in
              let? next := require_progress "object index" offset next in
              decode_index_loop fuel' bytes base next entries record_outcomes
          end
      | IndexInvalid message =>
          let record_outcomes := record_outcomes ++ [mkIndexOutcome (base + offset) (IndexFailed message)] in
          match resync_to_next_magic bytes (S offset) INDEX_MAGIC with
          | Some next => decode_index_loop fuel' bytes base next entries record_outcomes
          | None => Ok (mkIndexReplay entries 0 record_outcomes)
          end
      end
  end.

Definition decode_index_records_at (bytes : list byte) (start_offset base : nat) : PResult IndexReplay :=
  decode_index_loop (S (S (length bytes))) bytes base start_offset [] [].

Definition decode_index_records (bytes : list byte) (start_offset : nat) : PResult IndexReplay :=
  decode_index_records_at bytes start_offset 0.
End index_file.

(** * Theorems about the object index file (crates/prikk-store/src/foundation/index.rs)

    The codec of one entry, the decoder against the reference scan of every byte offset, what it makes
    of appended and interrupted entries, and that decoding a tail read on its own gives what decoding
    the whole file from that offset gives. *)


(** ** One entry *)

Definition wf_entry (e : IndexEntry) : Prop :=
  length (ie_object_id e) = 32%nat /\ length (ie_container_checksum e) = 32%nat /\
  u64 (ie_offset e) /\ u64 (ie_length e).

Definition INDEX_FRAME_LEN : nat := INDEX_HEADER_LEN + INDEX_BODY_LEN.

Lemma slot_from_to_code slot : slot_from_code (slot_code slot) = Ok slot.
Proof. by destruct slot. Qed.

Lemma slot_from_code_inv z slot : slot_from_code z = Ok slot -> z = slot_code slot.
Proof. unfold slot_from_code. repeat case_match; intros [= <-]; cbn; lia. Qed.

Lemma length_encode_entry_body e : wf_entry e -> length (encode_entry_body e) = INDEX_BODY_LEN.
Proof.
  intros (Hi & Hc & _). unfold encode_entry_body, push_u16.
  by rewrite !length_app, !length_to_be_bytes, Hi, Hc.
Qed.

(** A fixed-size array reads back. *)
Lemma reads_array n v : length v = n -> reads (bc_read_array (Z.of_nat n)) v v.
Proof. intros <-. apply reads_exact. Qed.

Lemma decode_entry_body_enc e : wf_entry e -> decode_entry_body (encode_entry_body e) = Ok e.
Proof.
  intros Hwf. pose proof (length_encode_entry_body e Hwf) as Hl. destruct Hwf as (Hi & Hc & Ho & Hn).
  assert (Hs : standing (ByteCursor_new (encode_entry_body e)) (encode_entry_body e)).
  { apply standing_new. unfold zlen. rewrite Hl. unfold INDEX_BODY_LEN. lia. }
  unfold decode_entry_body. unfold encode_entry_body at 2, push_u16 in Hs. rewrite <- !app_assoc in Hs.
  destruct (reads_array 32 _ Hi _ _ Hs) as (c1 & H1 & Hs1). change (Z.of_nat 32) with 32 in H1. rewrite H1.
  destruct (reads_u16 _ (ObjectType_code_range _) _ _ Hs1) as (c2 & -> & Hs2). rewrite ObjectType_from_to_code.
  destruct (reads_array 1 [zb (slot_code (ie_slot e))] eq_refl _ _ Hs2) as (c3 & H3 & Hs3).
  change (Z.of_nat 1) with 1 in H3. rewrite H3.
  replace (from_be_bytes [zb (slot_code (ie_slot e))]) with (slot_code (ie_slot e)) by (by destruct (ie_slot e)).
  rewrite slot_from_to_code.
  destruct (reads_u64 _ Ho _ _ Hs3) as (c4 & -> & Hs4). destruct (reads_u64 _ Hn _ _ Hs4) as (c5 & -> & Hs5).
  rewrite <- (app_nil_r (ie_container_checksum e)) in Hs5.
  destruct (reads_array 32 _ Hc _ _ Hs5) as (c6 & H6 & Hs6). change (Z.of_nat 32) with 32 in H6.
  rewrite H6, (standing_finished _ _ Hs6). by destruct e.
Qed.

Lemma parse_index_header_ok header v :
  parse_index_header header = Ok v <-> parse_header INDEX_MAGIC header = Ok v.
Proof.
  unfold parse_index_header, parse_header. change INDEX_VERSION with CONTAINER_VERSION.
  destruct (bc_read_array 8 _) as [[m c1]|]; [|done]. destruct (negb _); [done|].
  destruct (bc_read_u16 c1) as [[ver c2]|]; [|done]. destruct (negb _); [done|].
  destruct (bc_read_u64 c2) as [[n c3]|]; [|done]. destruct (bc_read_array 32 c3) as [[ck c4]|]; [|done].
  by destruct (negb _).
Qed.

Section thms.
Context `{Sha256}.

(** The bytes of one entry. *)
Definition enc_index (e : IndexEntry) : list byte :=
  enc_header INDEX_MAGIC (Z.of_nat INDEX_BODY_LEN)
    (index_record_checksum (Z.of_nat INDEX_BODY_LEN) (encode_entry_body e)) ++ encode_entry_body e.

Lemma length_enc_index e : wf_entry e -> length (enc_index e) = INDEX_FRAME_LEN.
Proof using Type.
  intros Hwf. unfold enc_index. rewrite length_app, length_encode_entry_body by done.
  by rewrite length_enc_header by (done || apply sha256_length).
Qed.

Lemma encode_index_record_enc e : wf_entry e -> encode_index_record e = Ok (enc_index e).
Proof using Type.
  intros Hwf. unfold encode_index_record, len_to_u64, zlen. rewrite length_encode_entry_body by done.
  destruct (Z.ltb_spec (Z.of_nat INDEX_BODY_LEN) (2 ^ 64)) as [_|Hge]; [|unfold INDEX_BODY_LEN in Hge; lia].
  unfold enc_index, enc_header, push_u16. by rewrite <- !app_assoc.
Qed.

(** The sound entry at an offset, and where it ends. *)
Definition index_frame_at (bytes : list byte) (offset : nat) : option (IndexEntry * nat) :=
  match parse_index_frame_at bytes offset with
  | IndexRecord entry next => Some (entry, next)
  | _ => None
  end.

Lemma index_sound_spec bytes p : index_sound bytes p = true <-> is_Some (index_frame_at bytes p).
Proof using Type.
  unfold index_sound, index_frame_at. destruct (parse_index_frame_at bytes p); split; try done; intros []; done.
Qed.

Lemma index_frame_at_inv bytes p e n :
  index_frame_at bytes p = Some (e, n) ->
  magic_at bytes INDEX_MAGIC p /\ n = (p + INDEX_FRAME_LEN)%nat /\ (n <= length bytes)%nat.
Proof using Type.
  unfold index_frame_at, parse_index_frame_at.
  destruct (Nat.ltb_spec (length bytes - p) INDEX_HEADER_LEN); [done|].
  destruct (get_range bytes p _) as [header|] eqn:Hh; [|done].
  destruct (parse_index_header header) as [v|] eqn:Hp; [|done].
  destruct (Z.eqb_spec (h_body_len v) (Z.of_nat INDEX_BODY_LEN)) as [Hbl|]; [|done]. cbn [negb].
  destruct (usize_max <? h_body_len v); [done|].
  destruct (usize_max <? Z.of_nat (p + INDEX_HEADER_LEN) + h_body_len v); [done|].
  destruct (get_range bytes (p + INDEX_HEADER_LEN) _) as [body|] eqn:Hb; [|done].
  destruct (negb _); [done|]. destruct (decode_entry_body body); [|done]. intros [= <- <-].
  assert (Hlen : length header = CONTAINER_HEADER_LEN).
  { apply get_range_inv in Hh as (? & ? & _ & _ & ?). change CONTAINER_HEADER_LEN with INDEX_HEADER_LEN. lia. }
  apply parse_index_header_ok, parse_header_inv in Hp as (Hp & _); [|done].
  apply get_range_inv in Hb as (pre & post & Hbytes & Hpre & Hbody).
  split_and!; [|rewrite Hbl; unfold INDEX_FRAME_LEN; lia|rewrite Hbytes, !length_app; lia].
  apply (magic_at_prefix _ _ _ _ _ Hh). rewrite Hp. unfold enc_header. by eexists.
Qed.

Lemma read_index_header pre e rest bytes :
  bytes = pre ++ enc_header INDEX_MAGIC (Z.of_nat INDEX_BODY_LEN)
            (index_record_checksum (Z.of_nat INDEX_BODY_LEN) (encode_entry_body e)) ++ rest ->
  exists header, get_range bytes (length pre) (length pre + INDEX_HEADER_LEN) = Some header /\
    parse_index_header header
    = Ok (mkHeader (Z.of_nat INDEX_BODY_LEN) (index_record_checksum (Z.of_nat INDEX_BODY_LEN) (encode_entry_body e))).
Proof using Type.
  intros ->. set (ck := index_record_checksum _ _).
  assert (Hl : length (enc_header INDEX_MAGIC (Z.of_nat INDEX_BODY_LEN) ck) = INDEX_HEADER_LEN)
    by (apply length_enc_header; [done|apply sha256_length]).
  eexists. split; [rewrite <- Hl; apply get_range_app|].
  apply parse_index_header_ok, parse_header_enc; [done|apply sha256_length|]. unfold u64, INDEX_BODY_LEN. lia.
Qed.

Lemma parse_index_frame_enc pre e post :
  wf_entry e -> zlen (pre ++ enc_index e ++ post) < 2 ^ 64 ->
  parse_index_frame_at (pre ++ enc_index e ++ post) (length pre) = IndexRecord e (length pre + INDEX_FRAME_LEN).
Proof using Type.
  intros Hwf Hlen. pose proof (length_enc_index e Hwf) as Hf. pose proof (length_encode_entry_body e Hwf) as Hb.
  set (bytes := pre ++ enc_index e ++ post) in *.
  assert (Hlb : length bytes = (length pre + INDEX_FRAME_LEN + length post)%nat)
    by (unfold bytes; rewrite !length_app; lia).
  destruct (read_index_header pre e (encode_entry_body e ++ post) bytes) as (header & Hg & Hp);
    [unfold bytes, enc_index; by rewrite <- app_assoc|].
  unfold parse_index_frame_at. rewrite Hg, Hp. cbn [h_body_len h_checksum]. rewrite Z.eqb_refl. cbn [negb].
  rewrite Nat2Z.id.
  assert (Hbody : get_range bytes (length pre + INDEX_HEADER_LEN) (length pre + INDEX_HEADER_LEN + INDEX_BODY_LEN)
                  = Some (encode_entry_body e)).
  { unfold bytes, enc_index. rewrite <- Hb.
    change INDEX_HEADER_LEN with CONTAINER_HEADER_LEN.
    rewrite <- (length_enc_header INDEX_MAGIC (Z.of_nat (length (encode_entry_body e)))
      (index_record_checksum (Z.of_nat (length (encode_entry_body e))) (encode_entry_body e))) at 1 2 by (done || apply sha256_length).
    rewrite <- length_app, <- app_assoc, app_assoc. apply get_range_app. }
  unfold INDEX_FRAME_LEN, zlen, usize_max in *.
  destruct (Nat.ltb_spec (length bytes - length pre) INDEX_HEADER_LEN); [lia|].
  destruct (Z.ltb_spec (2 ^ 64 - 1) (Z.of_nat INDEX_BODY_LEN)); [lia|].
  destruct (Z.ltb_spec (2 ^ 64 - 1) (Z.of_nat (length pre + INDEX_HEADER_LEN) + Z.of_nat INDEX_BODY_LEN)); [lia|].
  rewrite Hbody. rewrite bool_decide_true by done. cbn [negb]. rewrite decode_entry_body_enc by done.
  f_equal. lia.
Qed.

(** An interrupted append of an entry is a partial frame. *)
Lemma parse_index_torn pre torn more e :
  wf_entry e -> torn ++ more = enc_index e -> more <> [] -> zlen pre + Z.of_nat INDEX_FRAME_LEN < 2 ^ 64 ->
  parse_index_frame_at (pre ++ torn) (length pre) = IndexPartial (length torn).
Proof using Type.
  intros Hwf Hm Hne Hlen. pose proof (length_enc_index e Hwf) as Hf. pose proof (f_equal length Hm) as Hl.
  rewrite length_app in Hl. assert (length more <> 0%nat) by (by destruct more).
  unfold parse_index_frame_at. rewrite length_app.
  replace (length pre + length torn - length pre)%nat with (length torn) by lia.
  destruct (Nat.ltb_spec (length torn) INDEX_HEADER_LEN) as [|Hge]; [done|].
  destruct (read_index_header pre e (drop INDEX_HEADER_LEN torn) (pre ++ torn)) as (header & -> & ->).
  { f_equal. rewrite <- (take_drop INDEX_HEADER_LEN torn) at 1. f_equal.
    rewrite <- (take_app_le torn more) by done. rewrite Hm. unfold enc_index.
    apply take_app_length'. symmetry. apply length_enc_header; [done|apply sha256_length]. }
  cbn [h_body_len]. rewrite Z.eqb_refl, Nat2Z.id. cbn [negb]. unfold INDEX_FRAME_LEN, zlen, usize_max in *.
  destruct (Z.ltb_spec (2 ^ 64 - 1) (Z.of_nat INDEX_BODY_LEN)); [lia|].
  destruct (Z.ltb_spec (2 ^ 64 - 1) (Z.of_nat (length pre + INDEX_HEADER_LEN) + Z.of_nat INDEX_BODY_LEN)); [lia|].
  by rewrite get_range_none by (rewrite length_app; lia).
Qed.

(** ** The decoder against the reference scan *)

#[local] Abbreviation reference bytes := (reference_from (length bytes) (index_frame_at bytes)).

Lemma index_frame_bound bytes p e n : index_frame_at bytes p = Some (e, n) -> (p < n <= length bytes)%nat.
Proof using Type. intros (_ & -> & Hn)%index_frame_at_inv. unfold INDEX_FRAME_LEN, INDEX_HEADER_LEN in *. lia. Qed.

Lemma index_no_frame bytes p : ~ is_Some (index_frame_at bytes p) -> index_frame_at bytes p = None.
Proof using Type. by destruct (index_frame_at bytes p); [intros []|]. Qed.

Definition index_failed (o : IndexRecordOutcome) : bool :=
  match io_status o with IndexFailed _ => true | IndexEvaluated => false end.

(** The offsets of the evaluated outcomes. *)
Definition evaluated_offsets (os : list IndexRecordOutcome) : list nat :=
  io_offset <$> filter (fun o => index_failed o = false) os.

Lemma evaluated_offsets_cons o os :
  evaluated_offsets (o :: os) = (if index_failed o then [] else [io_offset o]) ++ evaluated_offsets os.
Proof using Type.
  unfold evaluated_offsets. destruct (index_failed o) eqn:Hf.
  - by rewrite filter_cons_False by (by rewrite Hf).
  - by rewrite filter_cons_True by done.
Qed.

(** What a finished scan from [offset] reports: exactly the reference's frames, and a partial tail
    only where no frame is left. *)
Definition index_scan_result (bytes : list byte) (base offset : nat) (es : list IndexEntry)
    (os : list IndexRecordOutcome) (trailing : nat) : Prop :=
  es = map rf_value (reference bytes offset) /\
  evaluated_offsets os = map (fun f => (base + rf_offset f)%nat) (reference bytes offset) /\
  ((0 < trailing)%nat -> exists o, (offset <= o)%nat /\ trailing = (length bytes - o)%nat /\ reference bytes o = []).

Lemma index_scan_skip bytes base offset next es o os trailing :
  (offset < next <= length bytes)%nat -> (forall q, (offset <= q < next)%nat -> index_frame_at bytes q = None) ->
  index_failed o = true -> index_scan_result bytes base next es os trailing ->
  index_scan_result bytes base offset es (o :: os) trailing.
Proof using Type.
  intros Hlt Hno Hf (-> & He & Ht). unfold index_scan_result.
  rewrite (reference_skip _ _ (index_frame_bound bytes) offset next) by (done || lia).
  rewrite evaluated_offsets_cons, Hf. split_and!; [done|done|].
  intros Htr. destruct (Ht Htr) as (o' & ? & ? & ?). exists o'. split_and!; [lia|done|done].
Qed.

Lemma index_scan_record bytes base offset next e es os trailing :
  index_frame_at bytes offset = Some (e, next) -> index_scan_result bytes base next es os trailing ->
  index_scan_result bytes base offset (e :: es) (mkIndexOutcome (base + offset) IndexEvaluated :: os) trailing.
Proof using Type.
  intros Ha (-> & He & Ht). pose proof (index_frame_bound _ _ _ _ Ha). unfold index_scan_result.
  rewrite (reference_record _ _ (index_frame_bound bytes) _ _ _ Ha), evaluated_offsets_cons. cbn.
  rewrite He. split_and!; [done|done|]. intros Htr. destruct (Ht Htr) as (o' & ? & ? & ?). exists o'.
  split_and!; [lia|done|done].
Qed.

Lemma index_scan_stop bytes base offset os trailing :
  (forall q, (offset <= q)%nat -> index_frame_at bytes q = None) -> evaluated_offsets os = [] ->
  ((0 < trailing)%nat -> trailing = (length bytes - offset)%nat) ->
  index_scan_result bytes base offset [] os trailing.
Proof using Type.
  intros Hno Ho Htr. unfold index_scan_result. rewrite (reference_end _ _ offset Hno). split_and!; [done|done|].
  intros Ht. exists offset. split_and!; [lia|by apply Htr|by apply reference_end].
Qed.

(** Between a frame that is not sound and the next magic there is no sound frame. *)
Lemma index_resync_gap bytes offset q :
  index_frame_at bytes offset = None -> (offset <= q)%nat ->
  ~ (exists p, (S offset <= p)%nat /\ p = q /\ magic_at bytes INDEX_MAGIC p) -> index_frame_at bytes q = None.
Proof using Type.
  intros Hn Hq Hno. destruct (decide (q = offset)) as [->|]; [done|]. apply index_no_frame. intros [[e nx] He].
  apply index_frame_at_inv in He as (Hm & _). apply Hno. exists q. split_and!; [lia|done|done].
Qed.

Lemma parse_index_partial bytes offset remaining :
  parse_index_frame_at bytes offset = IndexPartial remaining -> remaining = (length bytes - offset)%nat.
Proof using Type. unfold parse_index_frame_at. repeat case_match; congruence. Qed.

Lemma index_loop_spec bytes base : forall fuel offset entries outs,
  (length bytes < fuel + offset)%nat -> (0 < fuel)%nat ->
  exists trailing os es,
    decode_index_loop fuel bytes base offset entries outs = Ok (mkIndexReplay (entries ++ es) trailing (outs ++ os))
    /\ index_scan_result bytes base offset es os trailing.
Proof using Type.
  induction fuel as [|fuel IH]; intros offset entries outs Hf Hpos; [lia|]. cbn [decode_index_loop].
  destruct (parse_index_frame_at bytes offset) as [e next|remaining|m] eqn:Hp.
  - assert (Ha : index_frame_at bytes offset = Some (e, next)) by (unfold index_frame_at; by rewrite Hp).
    pose proof (index_frame_bound _ _ _ _ Ha). unfold require_progress. destruct (Nat.leb_spec next offset); [lia|].
    destruct (IH next (entries ++ [e]) (outs ++ [mkIndexOutcome (base + offset) IndexEvaluated]))
      as (trailing & os & es & -> & Hs); [lia|lia|].
    exists trailing, (mkIndexOutcome (base + offset) IndexEvaluated :: os), (e :: es). rewrite <- !app_assoc.
    split; [done|]. by apply index_scan_record with next.
  - assert (Hn : index_frame_at bytes offset = None) by (unfold index_frame_at; by rewrite Hp).
    pose proof (sound_frame_after_partial_first bytes offset INDEX_MAGIC (index_sound bytes) ltac:(cbn; lia)) as Hs.
    destruct (sound_frame_after_partial _ _ _ _) as [next|]; cbn in Hs.
    + destruct Hs as (Hle & [Hm Hsd] & Hno). pose proof (magic_at_bound _ _ _ Hm).
      unfold require_progress. destruct (Nat.leb_spec next offset); [lia|].
      set (o := mkIndexOutcome _ _).
      destruct (IH next entries (outs ++ [o])) as (trailing & os & es & -> & Hr); [lia|lia|].
      exists trailing, (o :: os), es. rewrite <- app_assoc. split; [done|].
      apply index_scan_skip with next; [lia| |done|done]. intros q Hq.
      destruct (decide (q = offset)) as [->|]; [done|]. apply index_no_frame. intros Hq'.
      apply (Hno q); [lia|]. split; [|by apply index_sound_spec]. destruct Hq' as [[e' n'] He'].
      by apply index_frame_at_inv in He' as [? _].
    + exists remaining, [], []. rewrite !app_nil_r. split; [done|].
      apply index_scan_stop; [|done|intros _; by apply parse_index_partial]. intros q Hq.
      destruct (decide (q = offset)) as [->|]; [done|]. apply index_no_frame. intros Hq'.
      apply (Hs q); [lia|]. split; [|by apply index_sound_spec]. destruct Hq' as [[e' n'] He'].
      by apply index_frame_at_inv in He' as [? _].
  - assert (Hn : index_frame_at bytes offset = None) by (unfold index_frame_at; by rewrite Hp).
    pose proof (resync_first bytes (S offset) INDEX_MAGIC) as Hr. set (o := mkIndexOutcome _ _).
    destruct (resync_to_next_magic bytes (S offset) INDEX_MAGIC) as [next|]; cbn in Hr.
    + destruct Hr as (Hle & Hm & Hno). pose proof (magic_at_bound _ _ _ Hm).
      destruct (IH next entries (outs ++ [o])) as (trailing & os & es & -> & Hrr); [lia|lia|].
      exists trailing, (o :: os), es. rewrite <- app_assoc. split; [done|].
      apply index_scan_skip with next; [lia| |done|done]. intros q Hq.
      apply (index_resync_gap bytes offset); [done|lia|]. intros (p & ? & -> & Hm'). by apply (Hno q); [lia|].
    + exists 0%nat, [o], []. rewrite app_nil_r. split; [done|].
      apply index_scan_stop; [|by rewrite evaluated_offsets_cons|lia]. intros q Hq.
      apply (index_resync_gap bytes offset); [done|lia|]. intros (p & ? & -> & Hm'). by apply (Hr q).
Qed.

(** ** Entries the encoder wrote *)

Fixpoint index_outcomes (offset n : nat) : list IndexRecordOutcome :=
  match n with
  | O => []
  | S n' => mkIndexOutcome offset IndexEvaluated :: index_outcomes (offset + INDEX_FRAME_LEN) n'
  end.

Lemma decode_index_append torn more e' : forall es pre fuel base entries outs,
  Forall wf_entry es -> zlen (pre ++ concat (map enc_index es) ++ enc_index e') < 2 ^ 64 ->
  wf_entry e' -> torn ++ more = enc_index e' -> more <> [] -> (length es < fuel)%nat ->
  decode_index_loop fuel (pre ++ concat (map enc_index es) ++ torn) base (length pre) entries outs
  = Ok (mkIndexReplay (entries ++ es) (length torn) (outs ++ index_outcomes (base + length pre) (length es))).
Proof using Type.
  induction es as [|e es IH]; intros pre fuel base entries outs Hall Hlen Hwf Htm Hne Hfuel.
  - destruct fuel as [|fuel]; [cbn in Hfuel; lia|]. cbn [map concat app decode_index_loop length index_outcomes] in *.
    rewrite zlen_app in Hlen. unfold zlen in Hlen. pose proof (length_enc_index e' Hwf) as Hle. rewrite Hle in Hlen.
    rewrite (parse_index_torn pre torn more e') by (done || unfold zlen; lia). rewrite !app_nil_r.
    pose proof (sound_frame_after_partial_first (pre ++ torn) (length pre) INDEX_MAGIC (index_sound (pre ++ torn)) ltac:(cbn; lia)) as Hs.
    destruct (sound_frame_after_partial _ _ _ _) as [next|]; [|done]. destruct Hs as (Hge & [_ Hsd] & _).
    apply index_sound_spec in Hsd as [[e0 n] He]. apply index_frame_at_inv in He as (_ & -> & Hn).
    pose proof (f_equal length Htm) as Hl. rewrite length_app in Hl, Hn. lia.
  - apply Forall_cons in Hall as [He Hall]. destruct fuel as [|fuel]; [cbn in Hfuel; lia|].
    cbn [map concat app decode_index_loop length index_outcomes] in *. rewrite <- app_assoc in *.
    pose proof (length_enc_index e He) as Hle. pose proof (length_enc_index e' Hwf) as Hle'.
    pose proof (f_equal length Htm) as Hl. rewrite length_app in Hl.
    rewrite parse_index_frame_enc; [|done|unfold zlen in *; rewrite !length_app in *; lia].
    unfold require_progress. destruct (Nat.leb_spec (length pre + INDEX_FRAME_LEN) (length pre)) as [Hc|_];
      [unfold INDEX_FRAME_LEN, INDEX_HEADER_LEN in Hc; lia|].
    specialize (IH (pre ++ enc_index e) fuel base (entries ++ [e]) (outs ++ [mkIndexOutcome (base + length pre) IndexEvaluated])).
    rewrite length_app, Hle, <- !app_assoc in IH. rewrite IH by (done || lia). cbn [app].
    by rewrite Nat.add_assoc.
Qed.

Definition zero_entry : IndexEntry := mkIndexEntry (replicate 32 x00) Blob SlotA 0 0 (replicate 32 x00).

Lemma zero_entry_wf : wf_entry zero_entry.
Proof using Type. split_and!; [done|done|unfold u64; cbn; lia..]. Qed.

(** ** Decoding a tail read on its own *)

Lemma parse_index_frame_drop bytes start p :
  Z.of_nat (start + p + INDEX_FRAME_LEN) < 2 ^ 64 -> (start <= length bytes)%nat ->
  parse_index_frame_at bytes (start + p)
  = match parse_index_frame_at (drop start bytes) p with
    | IndexRecord e next => IndexRecord e (start + next)
    | a => a
    end.
Proof using Type.
  intros Hov Hs. unfold parse_index_frame_at. rewrite length_drop.
  replace (length bytes - (start + p))%nat with (length bytes - start - p)%nat by lia.
  destruct (_ <? _)%nat; [done|]. rewrite get_range_drop, Nat.add_assoc by done.
  destruct (get_range bytes (start + p) _) as [header|]; [|done]. destruct (parse_index_header header) as [v|]; [|done].
  destruct (Z.eqb_spec (h_body_len v) (Z.of_nat INDEX_BODY_LEN)) as [Hb|]; [|done]. cbn [negb].
  unfold INDEX_FRAME_LEN, usize_max in *. rewrite Hb, !Nat2Z.id.
  destruct (Z.ltb_spec (2 ^ 64 - 1) (Z.of_nat INDEX_BODY_LEN)); [lia|].
  destruct (Z.ltb_spec (2 ^ 64 - 1) (Z.of_nat (start + p + INDEX_HEADER_LEN) + Z.of_nat INDEX_BODY_LEN)); [lia|].
  destruct (Z.ltb_spec (2 ^ 64 - 1) (Z.of_nat (p + INDEX_HEADER_LEN) + Z.of_nat INDEX_BODY_LEN)); [lia|].
  rewrite get_range_drop, !Nat.add_assoc by done.
  destruct (get_range bytes _ _) as [body|]; [|done]. destruct (negb _); [done|].
  by destruct (decode_entry_body body); rewrite ?Nat.add_assoc.
Qed.

(** A first position behind [start], found in what is left after it. *)
Lemma first_from_shift (P Q : nat -> Prop) start p r :
  (forall q, Q q <-> P (start + q)%nat) -> first_from Q p r -> first_from P (start + p) (option_map (Nat.add start) r).
Proof using Type.
  intros HPQ. assert (Hq : forall q, (start + p <= q)%nat -> P q -> Q (q - start)%nat).
  { intros q Hle Hp. apply HPQ. by replace (start + (q - start))%nat with q by lia. }
  destruct r as [x|]; cbn.
  - intros (Hle & Hx & Hno). split_and!; [lia|by apply HPQ|]. intros q Hlt Hp.
    apply (Hno (q - start)%nat); [lia|apply Hq; [lia|done]].
  - intros Hno q Hle Hp. apply (Hno (q - start)%nat); [lia|by apply Hq].
Qed.

Lemma magic_at_drop bytes magic start q :
  (start <= length bytes)%nat -> magic_at (drop start bytes) magic q <-> magic_at bytes magic (start + q).
Proof using Type. intros Hs. unfold magic_at. by rewrite get_range_drop, Nat.add_assoc. Qed.

Lemma resync_drop bytes magic start p :
  (start <= length bytes)%nat ->
  resync_to_next_magic bytes (start + p) magic = option_map (Nat.add start) (resync_to_next_magic (drop start bytes) p magic).
Proof using Type.
  intros Hs. eapply first_from_unique; [apply resync_first|].
  eapply first_from_shift; [|apply resync_first]. intros q. by apply magic_at_drop.
Qed.

Section tail.
Context (bytes : list byte) (start : nat) (Hstart : (start <= length bytes)%nat).
Context (Hlen : zlen bytes + Z.of_nat INDEX_FRAME_LEN < 2 ^ 64).

Lemma index_sound_drop q : magic_at bytes INDEX_MAGIC (start + q) ->
  index_sound (drop start bytes) q = index_sound bytes (start + q).
Proof using Hstart Hlen.
  intros Hm%magic_at_bound. unfold index_sound. rewrite (parse_index_frame_drop bytes start q) by (unfold zlen in *; lia).
  by destruct (parse_index_frame_at (drop start bytes) q).
Qed.

Lemma sound_after_drop p :
  sound_frame_after_partial bytes (start + p) INDEX_MAGIC (index_sound bytes)
  = option_map (Nat.add start)
      (sound_frame_after_partial (drop start bytes) p INDEX_MAGIC (index_sound (drop start bytes))).
Proof using Hstart Hlen.
  eapply first_from_unique; [apply sound_frame_after_partial_first; cbn; lia|].
  rewrite plus_n_Sm. eapply first_from_shift; [|apply sound_frame_after_partial_first; cbn; lia].
  intros q. cbn beta. rewrite (magic_at_drop _ _ _ _ Hstart). split; intros [Hm Hs]; (split; [done|]); by rewrite <- Hs, index_sound_drop.
Qed.

Lemma index_loop_drop base : forall fuel p entries outs,
  (p <= length bytes)%nat ->
  decode_index_loop fuel (drop start bytes) (base + start) p entries outs
  = decode_index_loop fuel bytes base (start + p) entries outs.
Proof using Hstart Hlen.
  induction fuel as [|fuel IH]; intros p entries outs Hp; cbn [decode_index_loop]; [done|].
  destruct (Nat.le_gt_cases (start + p) (length bytes)) as [Hin|Hout].
  2: { assert (Hpart : parse_index_frame_at bytes (start + p) = IndexPartial 0).
       { unfold parse_index_frame_at. by replace (length bytes - (start + p))%nat with 0%nat by lia. }
       assert (Hpart' : parse_index_frame_at (drop start bytes) p = IndexPartial 0).
       { unfold parse_index_frame_at. rewrite length_drop. by replace (length bytes - start - p)%nat with 0%nat by lia. }
       rewrite Hpart, Hpart', sound_after_drop.
       destruct (sound_frame_after_partial (drop start bytes) _ _ _) as [q|] eqn:Hs; [|done].
       pose proof (sound_frame_after_partial_first (drop start bytes) p INDEX_MAGIC (index_sound (drop start bytes)) ltac:(cbn; lia)) as Hf.
       rewrite Hs in Hf. destruct Hf as (Hle & [Hm%magic_at_bound _] & _). rewrite length_drop in Hm. lia. }
  rewrite (parse_index_frame_drop bytes start p) by (unfold zlen in *; lia).
  rewrite <- Nat.add_assoc.
  destruct (parse_index_frame_at (drop start bytes) p) as [e next|remaining|m] eqn:Ha.
  - unfold require_progress. assert (Hb : index_frame_at (drop start bytes) p = Some (e, next)) by (unfold index_frame_at; by rewrite Ha).
    apply index_frame_bound in Hb. rewrite length_drop in Hb.
    destruct (Nat.leb_spec next p); [lia|]. destruct (Nat.leb_spec (start + next) (start + p)); [lia|].
    apply IH. lia.
  - rewrite sound_after_drop.
    pose proof (sound_frame_after_partial_first (drop start bytes) p INDEX_MAGIC (index_sound (drop start bytes)) ltac:(cbn; lia)) as Hf.
    destruct (sound_frame_after_partial (drop start bytes) _ _ _) as [q|]; [|done]. cbn [option_map] in *.
    destruct Hf as (Hle & [Hm%magic_at_bound _] & _). rewrite length_drop in Hm. unfold require_progress.
    destruct (Nat.leb_spec q p); [lia|]. destruct (Nat.leb_spec (start + q) (start + p)); [lia|]. apply IH. lia.
  - rewrite plus_n_Sm, resync_drop by done. pose proof (resync_first (drop start bytes) (S p) INDEX_MAGIC) as Hf.
    destruct (resync_to_next_magic (drop start bytes) _ _) as [q|]; [|done]. cbn [option_map] in *.
    destruct Hf as (Hle & Hm%magic_at_bound & _). rewrite length_drop in Hm. apply IH. lia.
Qed.
End tail.

(** More fuel than needed changes nothing. *)
Lemma index_loop_fuel bytes base : forall fuel fuel' offset entries outs,
  (length bytes < fuel + offset)%nat -> (0 < fuel)%nat -> (fuel <= fuel')%nat ->
  decode_index_loop fuel bytes base offset entries outs = decode_index_loop fuel' bytes base offset entries outs.
Proof using Type.
  induction fuel as [|fuel IH]; intros fuel' offset entries outs Hf Hpos Hle; [lia|].
  destruct fuel' as [|fuel']; [lia|]. cbn [decode_index_loop].
  destruct (parse_index_frame_at bytes offset) as [e next|remaining|m] eqn:Ha.
  - assert (Hb : index_frame_at bytes offset = Some (e, next)) by (unfold index_frame_at; by rewrite Ha).
    apply index_frame_bound in Hb. unfold require_progress. destruct (Nat.leb_spec next offset); [lia|]. apply IH; lia.
  - pose proof (sound_frame_after_partial_first bytes offset INDEX_MAGIC (index_sound bytes) ltac:(cbn; lia)) as Hs.
    destruct (sound_frame_after_partial _ _ _ _) as [q|]; [|done]. destruct Hs as (Hq & [Hm%magic_at_bound _] & _).
    unfold require_progress. destruct (Nat.leb_spec q offset); [lia|]. apply IH; lia.
  - pose proof (resync_first bytes (S offset) INDEX_MAGIC) as Hs.
    destruct (resync_to_next_magic _ _ _) as [q|]; [|done]. destruct Hs as (Hq & Hm%magic_at_bound & _). apply IH; lia.
Qed.

Lemma decode_index_tail bytes start :
  (start <= length bytes)%nat -> zlen bytes + Z.of_nat INDEX_FRAME_LEN < 2 ^ 64 ->
  decode_index_records_at (drop start bytes) 0 start = decode_index_records bytes start.
Proof using Type.
  intros Hs Hl. unfold decode_index_records, decode_index_records_at. rewrite (index_loop_drop bytes start Hs Hl 0) by lia.
  rewrite Nat.add_0_r. apply index_loop_fuel; rewrite length_drop; lia.
Qed.
End thms.
