(* ===== verification/ObjectDisk.v ===== *)
(** * The container-backed object store (crates/prikk-store/src/foundation/index.rs, object_store.rs, layout.rs)

    Reading an object through its index entry, appending an object and its index entry, rebuilding
    and repairing the index from the containers, and the three store types: [FileObjectStore] with its
    lookup cache, the snapshot a reader or a write session keeps, and the write session.  The lock
    around an append only serialises writers: an append is one [IO] computation. *)

From S2P Require Import Prelude PrikkError Hash ObjectId Signature Envelope FileCodec FrameResync Container.
From S2P Require Import ObjectStore IndexFile FileSystem RecoveryLog.

(** ** The format marker (layout.rs) *)

(** [trim_end_matches('\n')]. *)
Fixpoint trim_newlines (rev_text : list byte) : list byte :=
  match rev_text with x0a :: r => trim_newlines r | _ => rev_text end.

Definition digit_value (b : byte) : option Z :=
  if (48 <=? bz b) && (bz b <=? 57) then Some (bz b - 48) else None.

(** [str::parse::<u32>], a leading plus sign included. *)
Definition parse_u32 (text : list byte) : option Z :=
  let digits := match text with x2b :: r => r | _ => text end in
  match digits with
  | [] => None
  | _ =>
      fold_left (fun acc b =>
        match acc, digit_value b with
        | Some n, Some v => if 10 * n + v <? 2 ^ 32 then Some (10 * n + v) else None
        | _, _ => None
        end) digits (Some 0)
  end.

Definition unsupported_format_marker (marker : list byte) : PrikkError :=
  match parse_u32 (rev (trim_newlines (rev marker))) with
  | Some version => UnsupportedFormatVersion version
  | None => Integrity "the repository format marker .prikk/FORMAT holds {trimmed:?}, which is not a format number this version reads (it reads formats 6 and 7)"
  end.

Definition format_line (n : byte) : list byte := [n; x0a].

Definition read_repository_format (d : Disk) : PResult RepositoryFormat :=
  match d !! "FORMAT"%string with
  | None => Err (Io "required root-relative file is absent: {}")
  | Some version =>
      if existsb (fun n => bool_decide (version = format_line n)) [x31; x32; x33; x34; x35]
      then Err (Integrity "this repository uses format {}, which prikk no longer supports")
      else if bool_decide (version = format_line x36) then Ok CurrentV6
      else if bool_decide (version = format_line x37) then Ok V7
      else Err (unsupported_format_marker version)
  end.

Definition validate_format (layout_format : RepositoryFormat) (d : Disk) : PResult unit :=
  let? format := read_repository_format d in
  if negb (bool_decide (format = layout_format))
  then Err (Precondition "the repository format changed from {} to {} while this command ran; run it again")
  else Ok tt.

(** The guard of every mutation: the marker still names the format the layout was opened with. *)
Definition require_current_format (layout_format : RepositoryFormat) (d : Disk) : PResult unit := validate_format layout_format d.

Lemma require_current_format_same format d d' : d' !! "FORMAT"%string = d !! "FORMAT"%string -> require_current_format format d' = require_current_format format d.
Proof. intros He. unfold require_current_format, validate_format, read_repository_format. by rewrite He. Qed.

Lemma require_current_format_insert format path bytes d : path <> "FORMAT"%string -> require_current_format format (<[path := bytes]> d) = require_current_format format d.
Proof. intros Hne. apply require_current_format_same. by rewrite lookup_insert_ne. Qed.

(** A guard that holds lets the rest run on the same disk. *)
Lemma io_guard {A} (guard : Disk -> PResult unit) (k : unit -> IO A) d : guard d = Ok tt -> io_bind (io_read guard) k d = k tt d.
Proof. intros Hg. unfold io_bind, io_read. by rewrite Hg. Qed.

(** One that fails leaves the disk as it is. *)
Lemma io_guard_err {A} (guard : Disk -> PResult unit) (k : unit -> IO A) d e : guard d = Err e -> io_bind (io_read guard) k d = (Err e, d).
Proof. intros Hg. unfold io_bind, io_read. by rewrite Hg. Qed.

(** [entries.into_iter().rev().find(..)]. *)
Definition find_last_entry (id : ObjectId) (entries : list IndexEntry) : option IndexEntry :=
  find (fun entry => bool_decide (ie_object_id entry = id)) (rev entries).

Record IndexRepairReport : Type := mkRepairReport {
  rp_entries_before : nat;
  rp_entries_after : nat;
  rp_entries_relocated : nat;
  rp_objects_recovered : nat;
  rp_already_correct : bool;
  rp_lost_ids : list ObjectId;
}.

(** ** Position maps (object_store.rs) *)

Definition checked_index_position (position : nat) : PResult Z :=
  if Z.of_nat position <? 2 ^ 32 then Ok (Z.of_nat position)
  else Err (Integrity "object index has grown past u32::MAX entries (position {position}); the id-to-position map cannot represent it").

(** The loop over [entries.iter().enumerate()]. *)
Fixpoint index_position_loop (position : nat) (entries : list IndexEntry) (by_id : gmap (list byte) Z)
  : PResult (gmap (list byte) Z) :=
  match entries with
  | [] => Ok by_id
  | entry :: entries' =>
      let? p := checked_index_position position in
      index_position_loop (S position) entries' (<[ie_object_id entry := p]> by_id)
  end.

Definition index_position_map (entries : list IndexEntry) : PResult (gmap (list byte) Z) :=
  index_position_loop 0 entries ∅.

(** Every position is checked before anything changes. *)
Definition extend_entries_and_by_id (entries : list IndexEntry) (by_id : gmap (list byte) Z)
    (tail_entries : list IndexEntry) : PResult (list IndexEntry * gmap (list byte) Z) :=
  let start := length entries in
  let? positions := mapM_result (fun offset => checked_index_position (start + offset)) (seq 0 (length tail_entries)) in
  let by_id :=
    fold_left (fun by_id '(entry, position) => <[ie_object_id entry := position]> by_id)
      (zip tail_entries positions) by_id in
  Ok (entries ++ tail_entries, by_id).

Definition lookup_position (entries : list IndexEntry) (by_id : gmap (list byte) Z) (id : ObjectId)
  : option IndexEntry :=
  match by_id !! id with None => None | Some position => entries !! Z.to_nat position end.

Section object_disk.
Context `{Sha256}.

(** ** Reading through an index entry (index.rs) *)

Definition read_object_envelope_at (d : Disk) (entry : IndexEntry) : PResult ObjectEnvelope :=
  let container_relative := container_slot_path (ie_object_type entry) (ie_slot entry) in
  let missing := Integrity "index names container {:?} slot {:?}, which does not exist" in
  let past_the_end := Integrity "index entry for {} names an offset past its container's end" in
  let? found := read_file_range_if_exists container_relative (ie_offset entry) FRAME_HEADER_LEN d in
  match found with
  | None => Err missing
  | Some header =>
      if (length header <? FRAME_HEADER_LEN)%nat then Err past_the_end
      else
        let? frame_len :=
          map_err (fun _ => Integrity "container record at offset {offset} failed to validate: {err}")
            (frame_len_from_header (ie_object_type entry) header) in
        if negb (frame_len =? ie_length entry)
        then Err (Integrity "container record at offset {offset} for {} claims a frame of {frame_len} bytes, but the index recorded {}")
        else
          let? found := read_file_range_if_exists container_relative (ie_offset entry) (Z.to_nat frame_len) d in
          match found with
          | None => Err missing
          | Some window =>
              let? found := decode_container_record_in_window (ie_object_type entry) window in
              ok_or found past_the_end
          end
  end.

(** ** Replaying the index *)

Definition empty_replay : IndexReplay := mkIndexReplay [] 0 [].

Definition replay_index_with_extent (d : Disk) : PResult (IndexReplay * Z) :=
  match d !! container_index_path with
  | None => Ok (empty_replay, 0)
  | Some bytes =>
      let? replay := decode_index_records bytes 0 in
      let? extent := len_to_u64 (Z.of_nat (length bytes - ir_trailing_partial_bytes replay)) in
      Ok (replay, extent)
  end.

Definition replay_index (d : Disk) : PResult IndexReplay :=
  let? '(replay, _) := replay_index_with_extent d in Ok replay.

Definition replay_index_tail_with_extent (start_offset : Z) (d : Disk) : PResult (IndexReplay * Z) :=
  let? stat := stat_size_if_exists container_index_path d in
  match stat with
  | None => Ok (empty_replay, 0)
  | Some len =>
      if len <=? start_offset then Ok (empty_replay, len)
      else
        let start := Z.to_nat start_offset in
        let wanted := Z.to_nat (len - start_offset) in
        let? found := read_file_range_if_exists container_index_path start_offset wanted d in
        match found with
        | None => Ok (empty_replay, 0)
        | Some tail =>
            let? replay := decode_index_records_at tail 0 start in
            let? extent := len_to_u64 (Z.of_nat (start + (length tail - ir_trailing_partial_bytes replay))) in
            Ok (replay, extent)
        end
  end.

(** ** Appending an object *)

Definition frame_checksum (object_type : ObjectType) (record_bytes : list byte) : PResult (list byte) :=
  let? magic := container_magic object_type in
  let checksum_start := (length magic + 2 + 8)%nat in
  let checksum_end := (checksum_start + 32)%nat in
  ok_or (get_range record_bytes checksum_start checksum_end)
    (Integrity "just-encoded container record is too short").

(** The container record first, then the index entry. *)
Definition append_encoded_object_record (object_type : ObjectType) (object_id : ObjectId) (record_bytes : list byte)
  : IO IndexEntry :=
  do! len := io_lift (len_to_u64 (zlen record_bytes)) in
  do! container_checksum := io_lift (frame_checksum object_type record_bytes) in
  do! offset := append_file_reporting_offset_required (container_slot_path object_type SlotA) record_bytes in
  let entry := mkIndexEntry object_id object_type SlotA offset len container_checksum in
  do! index_bytes := io_lift (encode_index_record entry) in
  do! _ := append_file_required container_index_path index_bytes in
  io_ret entry.

Definition append_object_to_container (object_type : ObjectType) (envelope : ObjectEnvelope) : IO IndexEntry :=
  do! record_bytes := io_lift (encode_container_record object_type envelope) in
  append_encoded_object_record object_type (object_id envelope) record_bytes.

Definition append_object_to_container_with_known_body (object_type : ObjectType) (envelope : ObjectEnvelope)
    (known_body : option (list byte)) : IO IndexEntry :=
  do! record_bytes := io_lift (encode_container_record_with_known_body object_type envelope known_body) in
  append_encoded_object_record object_type (object_id envelope) record_bytes.

(** ** Rebuilding the index from the containers *)

(** The loop over one container's outcomes; [records] is the iterator over its records. *)
Fixpoint rebuild_container (object_type : ObjectType) (outcomes : list ContainerRecordOutcome)
    (records : list ObjectEnvelope) (entries : list IndexEntry) : PResult (list IndexEntry) :=
  match outcomes with
  | [] => Ok entries
  | outcome :: outcomes' =>
      match co_status outcome with
      | Failed _ _ => rebuild_container object_type outcomes' records entries
      | Evaluated frame_len checksum =>
          match records with
          | [] => Err (Integrity "container replay outcome/record count mismatch")
          | record :: records' =>
              let? offset := len_to_u64 (Z.of_nat (co_offset outcome)) in
              let? len := len_to_u64 (Z.of_nat frame_len) in
              rebuild_container object_type outcomes' records'
                (entries ++ [mkIndexEntry (object_id record) object_type SlotA offset len checksum])
          end
      end
  end.

Definition rebuild_type (d : Disk) (entries : list IndexEntry) (object_type : ObjectType) : PResult (list IndexEntry) :=
  match d !! container_slot_path object_type SlotA with
  | None => Ok entries
  | Some bytes =>
      let? replay := decode_container_records object_type bytes in
      rebuild_container object_type (cr_record_outcomes replay) (cr_records replay) entries
  end.

Definition rebuild_index_from_containers (d : Disk) : PResult (list IndexEntry) :=
  foldM (rebuild_type d) [] persisted_object_types.

(** ** Repairing the index *)

Definition before_locations (before : list IndexEntry) : gmap (list byte) (Z * Z) :=
  fold_left (fun m entry => <[ie_object_id entry := (ie_offset entry, ie_length entry)]> m) before ∅.

(** The counters of relocated and recovered objects. *)
Definition count_changes (locations : gmap (list byte) (Z * Z)) (rebuilt : list IndexEntry) : nat * nat :=
  fold_left (fun '(relocated, recovered) entry =>
    match locations !! ie_object_id entry with
    | Some (offset, len) =>
        if (offset =? ie_offset entry) && (len =? ie_length entry) then (relocated, recovered)
        else (S relocated, S recovered)
    | None => (relocated, S recovered)
    end) rebuilt (0%nat, 0%nat).

(** The order of the sort key: identifier, type code, offset, length. *)
Definition sort_key_cmp (a b : IndexEntry) : comparison :=
  match bytes_cmp (ie_object_id a) (ie_object_id b) with
  | Eq =>
      match Z.compare (ObjectType_code (ie_object_type a)) (ObjectType_code (ie_object_type b)) with
      | Eq =>
          match Z.compare (ie_offset a) (ie_offset b) with
          | Eq => Z.compare (ie_length a) (ie_length b)
          | c => c
          end
      | c => c
      end
  | c => c
  end.

(** The identifiers of [before] that [rebuilt] lacks, in order and without duplicates. *)
Definition lost_ids_of (before rebuilt : list IndexEntry) : list ObjectId :=
  let ids (l : list IndexEntry) : gset (list byte) := list_to_set (map ie_object_id l) in
  sort_by bytes_cmp (elements (ids before ∖ ids rebuilt)).

Definition repair_index_from_containers {S} (save_lost : list ObjectId -> IO S) : IO (IndexRepairReport * option S) :=
  do! existing_bytes := io_read (read_file_if_exists container_index_path) in
  do! existing_replay := io_lift (decode_index_records (default [] existing_bytes) 0) in
  let before := ir_entries existing_replay in
  do! rebuilt := io_read rebuild_index_from_containers in
  let '(entries_relocated, objects_recovered) := count_changes (before_locations before) rebuilt in
  do! rebuilt_frames := io_lift (mapM_result encode_index_record rebuilt) in
  let rebuilt_bytes := concat rebuilt_frames in
  let existing_is_clean :=
    Nat.eqb (ir_trailing_partial_bytes existing_replay) 0 && negb (index_has_item_failure existing_replay) in
  let already_correct :=
    existing_is_clean && bool_decide (sort_by sort_key_cmp before = sort_by sort_key_cmp rebuilt) in
  let lost_ids := lost_ids_of before rebuilt in
  do! saved :=
    match lost_ids with
    | [] => io_ret None
    | _ => do! s := save_lost lost_ids in io_ret (Some s)
    end in
  do! _ := if already_correct then io_ret tt else write_file_atomically container_index_path rebuilt_bytes in
  io_ret (mkRepairReport (length before) (length rebuilt) entries_relocated objects_recovered already_correct lost_ids, saved).

(** ** Resolving an identifier (object_store.rs) *)

Definition current_index_file_length (d : Disk) : PResult Z :=
  let? stat := stat_size_if_exists container_index_path d in
  Ok (default 0 stat).

Definition damaged_or_torn (replay : IndexReplay) : bool :=
  index_has_item_failure replay || negb (Nat.eqb (ir_trailing_partial_bytes replay) 0).

Definition resolve_object_location_entries (d : Disk) : PResult (list IndexEntry) :=
  let? replay := replay_index d in
  if damaged_or_torn replay then rebuild_index_from_containers d else Ok (ir_entries replay).

(** [run] identifies the recovery run a repair saves under. *)
Definition resolve_object_location_locked (run : list byte) (id : ObjectId) : IO (option IndexEntry) :=
  do! replay := io_read replay_index in
  do! entries :=
    if damaged_or_torn replay then
      do! _ := repair_index_from_containers (save_lost_ids run) in
      do! fresh := io_read replay_index in
      io_ret (ir_entries fresh)
    else io_ret (ir_entries replay) in
  io_ret (find_last_entry id entries).

(** The borrowed or owned envelope to append: [appended_owned] tells them apart. *)
Inductive LockedWrite : Type :=
| LockedAlreadyPresent (id : ObjectId)
| LockedAppend (envelope : ObjectEnvelope) (appended_owned : bool).

Section store.
Context (format : RepositoryFormat) (run : list byte).

Definition locked_write (d : Disk) (candidate : ObjectEnvelope) (existing : option IndexEntry) : PResult LockedWrite :=
  let? decision := decide_write_outcome format (read_object_envelope_at d) (object_type candidate) candidate existing in
  Ok (match decision with
      | WriteAlreadyPresent id => LockedAlreadyPresent id
      | WriteNew => LockedAppend candidate false
      | WriteMerge union => LockedAppend union true
      end).

Definition append_object_under_lock (object_type : ObjectType) (choose : IO LockedWrite) : IO ObjectId :=
  do! chosen := choose in
  match chosen with
  | LockedAlreadyPresent id => io_ret id
  | LockedAppend envelope _ =>
      do! entry := append_object_to_container object_type envelope in
      io_ret (ie_object_id entry)
  end.

(** [holds]: whether the guard holds the object-store lock. *)
Definition append_object_under_held_lock_with_known_body (holds : bool) (object_type : ObjectType)
    (choose : IO LockedWrite) (known_body : option (list byte)) : IO ObjectId :=
  if negb holds
  then io_err (LockConflict "append_object_under_held_lock was called without the object-store lock actually held -- refusing rather than appending unsynchronized")
  else
    do! chosen := choose in
    match chosen with
    | LockedAlreadyPresent id => io_ret id
    | LockedAppend envelope owned =>
        let body_override := if owned then None else known_body in
        do! entry := append_object_to_container_with_known_body object_type envelope body_override in
        io_ret (ie_object_id entry)
    end.

(** ** [FileObjectStore] *)

Record LookupCache : Type := mkLookupCache {
  lc_index_file_length : Z;
  lc_entries : list IndexEntry;
  lc_by_id : gmap (list byte) Z;
}.

(** The store's only state is its cache. *)
Definition resolve_cached (cache : option LookupCache) (d : Disk) (id : ObjectId)
  : PResult (option IndexEntry) * option LookupCache :=
  match current_index_file_length d with
  | Err e => (Err e, cache)
  | Ok current_length =>
      let reload :=
        match resolve_object_location_entries d with
        | Err e => (Err e, cache)
        | Ok entries =>
            match index_position_map entries with
            | Err e => (Err e, cache)
            | Ok by_id => (Ok (lookup_position entries by_id id), Some (mkLookupCache current_length entries by_id))
            end
        end in
      match cache with
      | Some c =>
          if lc_index_file_length c =? current_length
          then (Ok (lookup_position (lc_entries c) (lc_by_id c) id), cache)
          else reload
      | None => reload
      end
  end.

Definition file_contains_object (cache : option LookupCache) (d : Disk) (type : ObjectType) (id : ObjectId) : bool :=
  if bool_decide (type = RefUpdate) then false
  else match (resolve_cached cache d id).1 with
       | Ok (Some entry) => bool_decide (ie_object_type entry = type)
       | _ => false
       end.

Definition file_read_object (cache : option LookupCache) (d : Disk) (id : ObjectId)
  : PResult (option ObjectEnvelope) * option LookupCache :=
  match resolve_cached cache d id with
  | (Err e, cache) => (Err e, cache)
  | (Ok None, cache) => (Ok None, cache)
  | (Ok (Some entry), cache) => (read_object_at_entry format (read_object_envelope_at d) entry id, cache)
  end.

Definition file_has_object (cache : option LookupCache) (d : Disk) (id : ObjectId) (type : ObjectType)
  : PResult bool * option LookupCache :=
  match resolve_cached cache d id with
  | (Err e, cache) => (Err e, cache)
  | (Ok (Some entry), cache) => (Ok (bool_decide (ie_object_type entry = type)), cache)
  | (Ok None, cache) => (Ok false, cache)
  end.

Definition file_write_object (envelope : ObjectEnvelope) : IO ObjectId :=
  if bool_decide (object_type envelope = RefUpdate)
  then io_err (UnsupportedObjectType "RefUpdate is stored inline in ref logs for v1")
  else
    do! _ := io_read (validate_format format) in
    do! _ := io_lift (validate_object_envelope format envelope) in
    append_object_under_lock (object_type envelope)
      (do! existing := resolve_object_location_locked run (object_id envelope) in
       io_read (fun d => locked_write d envelope existing)).

(** ** Snapshots *)

Record IndexSnapshot : Type := mkSnapshot {
  sn_entries : list IndexEntry;
  sn_known_length : Z;
  sn_by_id : gmap (list byte) Z;
}.

Definition snapshot_open (d : Disk) : PResult IndexSnapshot :=
  let? '(replay, known_length) := replay_index_with_extent d in
  if index_has_item_failure replay then
    let? entries := rebuild_index_from_containers d in
    let? by_id := index_position_map entries in
    let? known_length := current_index_file_length d in
    Ok (mkSnapshot entries known_length by_id)
  else if negb (Nat.eqb (ir_trailing_partial_bytes replay) 0) then
    let? entries := rebuild_index_from_containers d in
    let? by_id := index_position_map entries in
    Ok (mkSnapshot entries known_length by_id)
  else
    let? by_id := index_position_map (ir_entries replay) in
    Ok (mkSnapshot (ir_entries replay) known_length by_id).

Definition snapshot_lookup (s : IndexSnapshot) (id : ObjectId) : option IndexEntry :=
  lookup_position (sn_entries s) (sn_by_id s) id.

(** The snapshot a full reload gives. *)
Definition snapshot_of (entries : list IndexEntry) (known_length : Z) : PResult IndexSnapshot :=
  let? by_id := index_position_map entries in
  Ok (mkSnapshot entries known_length by_id).

Definition ensure_current_impl (s : IndexSnapshot) (already_locked : bool) : IO IndexSnapshot :=
  do! current_length := io_read current_index_file_length in
  if current_length =? sn_known_length s then io_ret s
  else if current_length <? sn_known_length s then
    do! '(fresh, fresh_length) := io_read replay_index_with_extent in
    if index_has_item_failure fresh
    then io_err (Integrity "object index shrank from {} to {current_length} bytes since it was last read, and is still damaged; the object index only shrinks through a clean rebuild -- run doctor")
    else io_lift (snapshot_of (ir_entries fresh) fresh_length)
  else
    do! '(tail, new_extent) := io_read (replay_index_tail_with_extent (sn_known_length s)) in
    let must_rebuild :=
      index_has_item_failure tail || (already_locked && negb (Nat.eqb (ir_trailing_partial_bytes tail) 0)) in
    if negb must_rebuild then
      do! '(entries, by_id) := io_lift (extend_entries_and_by_id (sn_entries s) (sn_by_id s) (ir_entries tail)) in
      io_ret (mkSnapshot entries new_extent by_id)
    else if already_locked then
      do! _ := repair_index_from_containers (save_lost_ids run) in
      do! '(fresh, fresh_length) := io_read replay_index_with_extent in
      io_lift (snapshot_of (ir_entries fresh) fresh_length)
    else
      do! entries := io_read rebuild_index_from_containers in
      do! by_id := io_lift (index_position_map entries) in
      do! known_length := io_read current_index_file_length in
      io_ret (mkSnapshot entries known_length by_id).

Definition ensure_current (s : IndexSnapshot) : IO IndexSnapshot := ensure_current_impl s false.
Definition ensure_current_locked (s : IndexSnapshot) : IO IndexSnapshot := ensure_current_impl s true.

(** [ObjectReadSnapshot] and [ObjectWriteSession] read through their snapshot. *)
Definition snapshot_reader (s : IndexSnapshot) (d : Disk) : ObjectReader :=
  index_reader format (read_object_envelope_at d) (fun id => Ok (snapshot_lookup s id)).

Definition snapshot_has_object (s : IndexSnapshot) (id : ObjectId) (type : ObjectType) : PResult bool :=
  Ok (match snapshot_lookup s id with Some entry => bool_decide (ie_object_type entry = type) | None => false end).

Definition snapshot_contains_object (s : IndexSnapshot) (type : ObjectType) (id : ObjectId) : bool :=
  if bool_decide (type = RefUpdate) then false
  else match snapshot_lookup s id with Some entry => bool_decide (ie_object_type entry = type) | None => false end.

(** ** [ObjectWriteSession] *)

(** The refreshed snapshot and the answer. *)
Definition session_contains_object (s : IndexSnapshot) (type : ObjectType) (id : ObjectId) : IO (bool * IndexSnapshot) :=
  if bool_decide (type = RefUpdate) then io_ret (false, s)
  else
    do! s := ensure_current s in
    io_ret (snapshot_contains_object s type id, s).

Definition session_decide_write (s : IndexSnapshot) (envelope : ObjectEnvelope) : IO (WriteDecision * IndexSnapshot) :=
  if bool_decide (object_type envelope = RefUpdate)
  then io_err (UnsupportedObjectType "RefUpdate is stored inline in ref logs for v1")
  else
    do! _ := io_read (validate_format format) in
    do! _ := io_lift (validate_object_envelope format envelope) in
    do! s := ensure_current s in
    let existing := snapshot_lookup s (object_id envelope) in
    do! decision := io_read (fun d =>
      decide_write_outcome format (read_object_envelope_at d) (object_type envelope) envelope existing) in
    io_ret (decision, s).

Definition session_check_write (s : IndexSnapshot) (envelope : ObjectEnvelope) : IO IndexSnapshot :=
  do! '(_, s) := session_decide_write s envelope in io_ret s.

(** The re-check under the lock: the snapshot brought up to date, and what to write. *)
Definition session_choose (s : IndexSnapshot) (envelope : ObjectEnvelope) : IO (LockedWrite * IndexSnapshot) :=
  do! s := ensure_current_locked s in
  let existing := snapshot_lookup s (object_id envelope) in
  do! chosen := io_read (fun d => locked_write d envelope existing) in
  io_ret (chosen, s).

Definition session_write_object (s : IndexSnapshot) (envelope : ObjectEnvelope) : IO (ObjectId * IndexSnapshot) :=
  do! '(decision, s) := session_decide_write s envelope in
  match decision with
  | WriteAlreadyPresent id => io_ret (id, s)
  | WriteNew | WriteMerge _ =>
      do! '(chosen, s) := session_choose s envelope in
      do! object_id := append_object_under_lock (object_type envelope) (io_ret chosen) in
      do! s := ensure_current s in
      io_ret (object_id, s)
  end.

Definition session_write_object_under_held_lock_with_known_body (s : IndexSnapshot) (holds : bool)
    (envelope : ObjectEnvelope) (known_body : option (list byte)) : IO (ObjectId * IndexSnapshot) :=
  do! '(decision, s) := session_decide_write s envelope in
  match decision with
  | WriteAlreadyPresent id => io_ret (id, s)
  | WriteNew | WriteMerge _ =>
      if negb holds
      then io_err (LockConflict "append_object_under_held_lock was called without the object-store lock actually held -- refusing rather than appending unsynchronized")
      else
        do! '(chosen, s) := session_choose s envelope in
        do! object_id :=
          append_object_under_held_lock_with_known_body holds (object_type envelope) (io_ret chosen) known_body in
        do! s := ensure_current s in
        io_ret (object_id, s)
  end.
End store.
End object_disk.
