(* ===== verification/ObjectDiskThms.v ===== *)
(** * Theorems about the container-backed object store

    The store on disk refines the map from identifiers to envelopes: the invariant [StoreInv] ties
    every index entry to a sound record, every write keeps it and updates exactly one identifier, every
    reader reads the map.  A damaged or torn index is rebuilt from the containers. *)

From S2P Require Import Prelude PrikkError Hash ObjectId Signature Envelope FileCodec FrameResync Container.
From S2P Require Import ContainerThms ObjectStore IndexFile FileSystem RecoveryLog RecoveryLogThms ObjectDisk.

(** No repository file reaches this size. *)
Definition MAX_FILE : Z := 2 ^ 60.

Section thms.
Context `{Sha256}.

(** ** Reading the record an entry names *)

(** [entry] names a sound record of [env] in its container. *)
Definition record_at (d : Disk) (entry : IndexEntry) (env : ObjectEnvelope) : Prop :=
  exists magic pre frame post,
    container_magic (ie_object_type entry) = Ok magic /\ frame_of (ie_object_type entry) magic env frame /\
    d !! container_slot_path (ie_object_type entry) (ie_slot entry) = Some (pre ++ frame ++ post) /\
    ie_offset entry = zlen pre /\ ie_length entry = zlen frame /\ zlen (pre ++ frame ++ post) < MAX_FILE.

Lemma frame_of_header t magic env frame :
  container_magic t = Ok magic -> frame_of t magic env frame -> zlen frame < MAX_FILE ->
  (CONTAINER_HEADER_LEN <= length frame)%nat /\
  frame_len_from_header t (take CONTAINER_HEADER_LEN frame) = Ok (zlen frame).
Proof using Type.
  intros Hm (body & -> & _ & _) Hlen. pose proof (container_magic_length _ _ Hm) as Hml.
  pose proof (length_enc_frame magic Hml body) as Hl. split; [lia|].
  unfold frame_len_from_header. rewrite Hm. unfold enc_frame at 1. rewrite take_app_length'.
  2: { by rewrite length_enc_header by (done || apply sha256_length). }
  unfold MAX_FILE, zlen in *. rewrite parse_header_enc; [|done|apply sha256_length|unfold u64, zlen; lia].
  cbn [h_body_len]. unfold usize_max, zlen.
  destruct (Z.ltb_spec (2 ^ 64 - 1) (Z.of_nat (length body))); [lia|].
  destruct (Z.ltb_spec (2 ^ 64 - 1) (Z.of_nat CONTAINER_HEADER_LEN + Z.of_nat (length body))); [lia|].
  f_equal. lia.
Qed.

Lemma decode_window_frame t magic env frame :
  container_magic t = Ok magic -> frame_of t magic env frame -> zlen frame < MAX_FILE ->
  decode_container_record_in_window t frame = Ok (Some env).
Proof using Type.
  intros Hm (body & -> & Hd & Ht) Hlen. pose proof (container_magic_length _ _ Hm) as Hml.
  unfold decode_container_record_in_window. rewrite Hm.
  pose proof (parse_frame_enc t magic Hml (enc_frame magic body) [] body [] env
    (ScanBudget_for_input (length (enc_frame magic body)))) as Hp.
  cbn [app length] in Hp. rewrite app_nil_r in Hp. unfold MAX_FILE in Hlen. rewrite Hp by (done || lia). done.
Qed.

Lemma read_record_at d entry env : record_at d entry env -> read_object_envelope_at d entry = Ok env.
Proof using Type.
  intros (magic & pre & frame & post & Hm & Hf & Hd & Ho & Hl & Hlen).
  assert (Hfl : zlen frame < MAX_FILE).
  { rewrite !zlen_app in Hlen. pose proof (zlen_nonneg pre). pose proof (zlen_nonneg post). lia. }
  destruct (frame_of_header _ _ _ _ Hm Hf Hfl) as [Hge Hfh].
  unfold read_object_envelope_at, read_file_range_if_exists. rewrite Hd, Ho. unfold FRAME_HEADER_LEN.
  assert (Hdr : drop (Z.to_nat (zlen pre)) (pre ++ frame ++ post) = frame ++ post)
    by (unfold zlen; by rewrite Nat2Z.id, drop_app_length).
  rewrite Hdr. rewrite take_app_le by done.
  destruct (Nat.ltb_spec (length (take CONTAINER_HEADER_LEN frame)) CONTAINER_HEADER_LEN) as [Hlt|_];
    [rewrite length_take in Hlt; lia|].
  rewrite Hfh. cbn [map_err]. rewrite Hl, Z.eqb_refl. cbn [negb].
  unfold zlen at 1. rewrite Nat2Z.id, take_app_length.
  by rewrite (decode_window_frame _ _ _ _ Hm Hf Hfl).
Qed.

(** ** Position maps: the last entry of an identifier wins *)

Definition represents (es : list IndexEntry) (m : gmap (list byte) Z) : Prop :=
  forall id, lookup_position es m id = find_last_entry id es /\
    (forall p, m !! id = Some p -> (Z.to_nat p < length es)%nat).

Lemma find_last_snoc id es e :
  find_last_entry id (es ++ [e]) = if bool_decide (ie_object_id e = id) then Some e else find_last_entry id es.
Proof using Type. unfold find_last_entry. rewrite rev_app_distr. cbn. by case_bool_decide. Qed.

Lemma represents_nil : represents [] ∅.
Proof using Type. intros id. by split. Qed.

Lemma represents_snoc es m e :
  represents es m -> represents (es ++ [e]) (<[ie_object_id e := Z.of_nat (length es)]> m).
Proof using Type.
  intros Hr id. destruct (Hr id) as [Hl Hb]. rewrite find_last_snoc. unfold lookup_position in *.
  case_bool_decide as Hid.
  - subst id. rewrite lookup_insert_eq, Nat2Z.id, list_lookup_middle by done. split; [done|].
    intros p [= <-]. rewrite length_app. cbn. lia.
  - rewrite lookup_insert_ne by done. split.
    + destruct (m !! id) as [p|]; [|done]. rewrite lookup_app_l by (by apply Hb). done.
    + intros p Hp. apply Hb in Hp. rewrite length_app. lia.
Qed.

Lemma checked_index_position_ok n : Z.of_nat n < 2 ^ 32 -> checked_index_position n = Ok (Z.of_nat n).
Proof using Type. intros Hn. unfold checked_index_position. by rewrite (proj2 (Z.ltb_lt _ _) Hn). Qed.

Lemma index_position_loop_spec : forall es pre m,
  represents pre m -> Z.of_nat (length (pre ++ es)) <= 2 ^ 32 ->
  exists m', index_position_loop (length pre) es m = Ok m' /\ represents (pre ++ es) m'.
Proof using Type.
  induction es as [|e es IH]; intros pre m Hr Hlen; cbn [index_position_loop].
  { exists m. by rewrite app_nil_r. }
  rewrite length_app in Hlen. cbn in Hlen. rewrite checked_index_position_ok by lia.
  destruct (IH (pre ++ [e]) (<[ie_object_id e := Z.of_nat (length pre)]> m)) as (m' & Hm & Hr').
  - by apply represents_snoc.
  - rewrite !length_app. cbn. lia.
  - exists m'. rewrite length_app, Nat.add_1_r in Hm. rewrite <- app_assoc in Hr'. by split.
Qed.

Lemma index_position_map_spec es :
  Z.of_nat (length es) <= 2 ^ 32 -> exists m, index_position_map es = Ok m /\ represents es m.
Proof using Type. intros Hl. apply (index_position_loop_spec es [] ∅ represents_nil Hl). Qed.

(** Extending by a tail is a map over all the entries. *)
Lemma extend_spec es m tail :
  represents es m -> Z.of_nat (length (es ++ tail)) <= 2 ^ 32 ->
  exists m', extend_entries_and_by_id es m tail = Ok (es ++ tail, m') /\ represents (es ++ tail) m'.
Proof using Type.
  intros Hr Hlen. unfold extend_entries_and_by_id.
  assert (Hpos : forall k n, Z.of_nat (length es + k + n) <= 2 ^ 32 ->
    mapM_result (fun offset => checked_index_position (length es + offset)) (seq k n)
    = Ok (map (fun offset => Z.of_nat (length es + offset)) (seq k n))).
  { intros k n. revert k. induction n as [|n IH]; intros k Hk; cbn [seq mapM_result map]; [done|].
    rewrite checked_index_position_ok by lia. by rewrite IH by lia. }
  rewrite length_app in Hlen. rewrite Hpos by lia. eexists. split; [done|]. clear Hpos Hlen.
  assert (Hgo : forall tl pre m, represents (es ++ pre) m ->
    represents (es ++ pre ++ tl) (fold_left (fun by_id '(entry, position) => <[ie_object_id entry := position]> by_id)
      (zip tl (map (fun offset => Z.of_nat (length es + offset)) (seq (length pre) (length tl)))) m)).
  { induction tl as [|e tl IH]; intros pre m0 Hm0; cbn [length seq map zip_with fold_left]; [by rewrite app_nil_r|].
    specialize (IH (pre ++ [e]) (<[ie_object_id e := Z.of_nat (length es + length pre)]> m0)).
    rewrite length_app, Nat.add_1_r, <- app_assoc in IH. apply IH.
    rewrite app_assoc, <- length_app. by apply represents_snoc. }
  apply (Hgo tail []). by rewrite app_nil_r.
Qed.

(** ** The invariant *)

(** Admitted by the format and within the lengths of the file format. *)
Definition storable (format : RepositoryFormat) (e : ObjectEnvelope) : Prop :=
  validate_object_envelope format e = Ok tt /\ wf_envelope e /\ object_type e <> RefUpdate.

(** There is room for one more record. *)
Definition fits (d : Disk) (e : ObjectEnvelope) : Prop :=
  zlen (default [] (d !! container_slot_path (object_type e) SlotA))
    + Z.of_nat CONTAINER_HEADER_LEN + zlen (enc_envelope e) < MAX_FILE.

Definition entry_sound (format : RepositoryFormat) (d : Disk) (entry : IndexEntry) : Prop :=
  exists env, record_at d entry env /\ object_id env = ie_object_id entry /\ storable format env.

Record StoreInv (format : RepositoryFormat) (d : Disk) (es : list IndexEntry) : Prop := {
  inv_index : d !! container_index_path = Some (concat (map enc_index es));
  inv_wf : Forall wf_entry es;
  inv_small : Z.of_nat (length es) < 2 ^ 32;
  inv_records : Forall (entry_sound format d) es;
  inv_containers : forall t, t ∈ persisted_object_types -> is_Some (d !! container_slot_path t SlotA);
  inv_format : read_repository_format d = Ok format;
}.

Lemma storable_persisted format e :
  storable format e -> object_type e ∈ persisted_object_types /\ is_Some (match container_magic (object_type e) with Ok m => Some m | Err _ => None end).
Proof using Type.
  intros (Hv & _ & Hne). unfold validate_object_envelope, validate_format2_schema in Hv.
  destruct (validate_strict e); [|done]. assert (Hs : admitted_schemas (object_type e) <> None).
  { destruct format, (admitted_schemas (object_type e)); done. }
  clear Hv. unfold persisted_object_types. destruct (object_type e); try done; (split; [set_solver|by eexists]).
Qed.

Lemma storable_magic format e : storable format e -> exists magic, container_magic (object_type e) = Ok magic.
Proof using Type. intros [_ [m Hm]]%storable_persisted. destruct (container_magic (object_type e)); [eauto|done]. Qed.

Lemma storable_strict format e : storable format e -> validate_strict e = Ok tt.
Proof using Type.
  intros (Hv & _). unfold validate_object_envelope in Hv. by destruct (validate_strict e) as [[]|].
Qed.

Lemma encode_storable format e magic :
  storable format e -> container_magic (object_type e) = Ok magic -> zlen (enc_envelope e) < MAX_FILE ->
  encode_container_record (object_type e) e = Ok (enc_frame magic (enc_envelope e)) /\
  frame_of (object_type e) magic e (enc_frame magic (enc_envelope e)).
Proof using Type.
  intros Hs Hm Hlen. pose proof (storable_strict _ _ Hs) as Hst. destruct Hs as (_ & Hwf & _).
  unfold MAX_FILE in Hlen. destruct (envelope_file_enc e Hst Hwf) as [He Hd]; [lia|]. split.
  - unfold encode_container_record, encode_container_record_with_known_body. rewrite He.
    unfold frame_record. rewrite Hm. unfold len_to_u64.
    destruct (Z.ltb_spec (zlen (enc_envelope e)) (2 ^ 64)); [|lia].
    unfold enc_frame, enc_header, frame_checksum_of, push_u64, push_u16. by rewrite <- !app_assoc.
  - by exists (enc_envelope e).
Qed.

(** ** A clean index replays to its entries *)

Lemma enc_index_concat_length es : Forall wf_entry es -> length (concat (map enc_index es)) = (length es * INDEX_FRAME_LEN)%nat.
Proof using Type.
  induction 1 as [|e es He _ IH]; [done|]. cbn [map concat length]. rewrite length_app, IH, length_enc_index by done. lia.
Qed.

Lemma index_outcomes_clean : forall n offset,
  existsb (fun o => match io_status o with IndexFailed _ => true | IndexEvaluated => false end) (index_outcomes offset n) = false.
Proof using Type. induction n as [|n IH]; intros offset; [done|]. cbn. apply IH. Qed.

Lemma decode_clean_index es torn more e :
  Forall wf_entry es -> Z.of_nat (length es) < 2 ^ 32 -> wf_entry e -> torn ++ more = enc_index e -> more <> [] ->
  decode_index_records (concat (map enc_index es) ++ torn) 0
  = Ok (mkIndexReplay es (length torn) (index_outcomes 0 (length es))).
Proof using Type.
  intros Hes Hn He Hm Hne. pose proof (enc_index_concat_length es Hes) as Hl.
  unfold decode_index_records, decode_index_records_at.
  apply (decode_index_append torn more e es []); try done.
  - cbn [app]. unfold zlen. rewrite length_app, Hl, length_enc_index by done. unfold INDEX_FRAME_LEN, INDEX_HEADER_LEN, INDEX_BODY_LEN. lia.
  - rewrite length_app, Hl. unfold INDEX_FRAME_LEN, INDEX_HEADER_LEN. lia.
Qed.

Lemma replay_clean d es :
  d !! container_index_path = Some (concat (map enc_index es)) -> Forall wf_entry es -> Z.of_nat (length es) < 2 ^ 32 ->
  replay_index_with_extent d
  = Ok (mkIndexReplay es 0 (index_outcomes 0 (length es)), zlen (concat (map enc_index es))).
Proof using Type.
  intros Hd Hes Hn. unfold replay_index_with_extent. rewrite Hd.
  rewrite <- (app_nil_r (concat (map enc_index es))) at 1.
  rewrite (decode_clean_index es [] (enc_index zero_entry) zero_entry); [|done|done|apply zero_entry_wf|done|].
  2: { intros Hc%(f_equal length). by rewrite length_enc_index in Hc by apply zero_entry_wf. }
  cbn [length ir_trailing_partial_bytes]. rewrite Nat.sub_0_r. unfold len_to_u64.
  rewrite enc_index_concat_length by done.
  destruct (Z.ltb_spec (Z.of_nat (length es * INDEX_FRAME_LEN)) (2 ^ 64)) as [_|Hge];
    [|unfold INDEX_FRAME_LEN, INDEX_HEADER_LEN, INDEX_BODY_LEN in Hge; lia].
  unfold zlen. by rewrite enc_index_concat_length.
Qed.

(** ** Appending *)

(** Files only grow at the end. *)
Definition grown (d d' : Disk) : Prop :=
  forall path old, d !! path = Some old -> exists more, d' !! path = Some (old ++ more).

Lemma record_at_grown d d' entry env :
  grown d d' -> (forall c, d' !! container_slot_path (ie_object_type entry) (ie_slot entry) = Some c -> zlen c < MAX_FILE) ->
  record_at d entry env -> record_at d' entry env.
Proof using Type.
  intros Hg Hs (magic & pre & frame & post & Hm & Hf & Hd & Ho & Hl & _).
  destruct (Hg _ _ Hd) as [more Hd']. exists magic, pre, frame, (post ++ more). rewrite <- !app_assoc in Hd'.
  split_and!; try done. by apply Hs.
Qed.

Lemma object_id_length e : length (object_id e) = 32%nat.
Proof using Type. unfold object_id, from_canonical_payload. apply sha256_length. Qed.

(** What an append leaves on disk. *)
Lemma append_object_disk format d es e magic c :
  StoreInv format d es -> storable format e -> container_magic (object_type e) = Ok magic ->
  d !! container_slot_path (object_type e) SlotA = Some c -> zlen c + zlen (enc_frame magic (enc_envelope e)) < MAX_FILE ->
  let frame := enc_frame magic (enc_envelope e) in
  let entry := mkIndexEntry (object_id e) (object_type e) SlotA (zlen c) (zlen frame)
                 (frame_checksum_of magic (enc_envelope e)) in
  append_object_to_container (object_type e) e d
  = (Ok entry, <[container_index_path := concat (map enc_index es) ++ enc_index entry]>
                 (<[container_slot_path (object_type e) SlotA := c ++ frame]> d)) /\ wf_entry entry.
Proof using Type.
  intros Hinv Hs Hm Hc Hlen frame entry. fold frame in Hlen. pose proof (zlen_nonneg c). pose proof (zlen_nonneg frame).
  pose proof (container_magic_length _ _ Hm) as Hml. pose proof (length_enc_frame magic Hml (enc_envelope e)) as Hfl.
  assert (Hel : zlen (enc_envelope e) < MAX_FILE) by (unfold frame, zlen in *; lia).
  destruct (encode_storable format e magic Hs Hm Hel) as [He _].
  assert (Hwf : wf_entry entry).
  { unfold entry, wf_entry, u64, MAX_FILE in *. cbn [ie_object_id ie_container_checksum ie_offset ie_length].
    split_and!; [apply object_id_length|apply sha256_length|lia|lia|lia|lia]. }
  split; [|done].
  unfold append_object_to_container, append_encoded_object_record, append_file_required, io_bind, io_lift. rewrite He.
  unfold len_to_u64. fold frame. destruct (Z.ltb_spec (zlen frame) (2 ^ 64)); [|unfold MAX_FILE in *; lia].
  assert (Hck : frame_checksum (object_type e) frame = Ok (frame_checksum_of magic (enc_envelope e))).
  { unfold frame_checksum. rewrite Hm, Hml. cbn [Nat.add]. rewrite get_range_some by (fold frame in Hfl; unfold CONTAINER_HEADER_LEN in Hfl; lia).
    cbn [ok_or]. f_equal. apply (checksum_field magic Hml). }
  rewrite Hck. unfold append_file_reporting_offset_required at 1. rewrite Hc. fold entry.
  rewrite encode_index_record_enc by done. unfold append_file_reporting_offset_required.
  rewrite lookup_insert_ne by apply container_path_not_index. rewrite (inv_index _ _ _ Hinv). done.
Qed.

Lemma format_unchanged d d' : d' !! "FORMAT"%string = d !! "FORMAT"%string -> read_repository_format d' = read_repository_format d.
Proof using Type. intros Hf. unfold read_repository_format. by rewrite Hf. Qed.

Lemma format_path_distinct t s : container_slot_path t s <> "FORMAT"%string /\ container_index_path <> "FORMAT"%string.
Proof using Type. split; [|done]. by destruct t, s. Qed.

Lemma append_object_spec format d es e :
  StoreInv format d es -> storable format e -> fits d e -> Z.of_nat (length es) + 1 < 2 ^ 32 ->
  exists entry d', append_object_to_container (object_type e) e d = (Ok entry, d') /\ grown d d' /\
    StoreInv format d' (es ++ [entry]) /\ ie_object_id entry = object_id e /\ record_at d' entry e /\
    (forall en env, record_at d en env -> record_at d' en env).
Proof using Type.
  intros Hinv Hs Hfit Hn. destruct (storable_magic _ _ Hs) as [magic Hm].
  destruct (inv_containers _ _ _ Hinv _ (proj1 (storable_persisted _ _ Hs))) as [c Hc].
  set (frame := enc_frame magic (enc_envelope e)).
  pose proof (container_magic_length _ _ Hm) as Hml. pose proof (length_enc_frame magic Hml (enc_envelope e)) as Hfl.
  assert (Hlen : zlen c + zlen frame < MAX_FILE).
  { unfold fits in Hfit. rewrite Hc in Hfit. change (default [] (Some c)) with c in Hfit. unfold frame, zlen in *. lia. }
  destruct (append_object_disk format d es e magic c Hinv Hs Hm Hc Hlen) as [Ha Hwf]. cbn zeta in Ha, Hwf. fold frame in Ha, Hwf.
  eexists _, _. split; [exact Ha|]. clear Ha.
  set (entry := mkIndexEntry _ _ _ _ _ _) in *. set (d1 := <[container_slot_path _ _ := _]> d) in *. set (d' := insert container_index_path _ d1).
  assert (Hidx : d' !! container_index_path = Some (concat (map enc_index es) ++ enc_index entry)) by apply lookup_insert_eq.
  assert (Hcon : d' !! container_slot_path (object_type e) SlotA = Some (c ++ frame)).
  { unfold d', d1. rewrite lookup_insert_ne by (intros Heq; by apply (container_path_not_index _ _ (eq_sym Heq))). apply lookup_insert_eq. }
  assert (Hoth : forall p, p <> container_index_path -> p <> container_slot_path (object_type e) SlotA -> d' !! p = d !! p).
  { intros p H1 H2. unfold d', d1. rewrite !lookup_insert_ne by done. done. }
  assert (Hgrown : grown d d').
  { intros p old Hp. destruct (decide (p = container_index_path)) as [->|Hpi].
    { rewrite (inv_index _ _ _ Hinv) in Hp. injection Hp as <-. eauto. }
    destruct (decide (p = container_slot_path (object_type e) SlotA)) as [->|Hpc].
    { assert (old = c) as -> by congruence. eauto. }
    exists []. rewrite app_nil_r, Hoth by done. done. }
  assert (Hkeep : forall en env, record_at d en env -> record_at d' en env).
  { intros en env Hr. apply (record_at_grown d); [done| |done]. intros c' Hc'.
    destruct (decide (container_slot_path (ie_object_type en) (ie_slot en) = container_slot_path (object_type e) SlotA)) as [Hp|Hp].
    - rewrite Hp, Hcon in Hc'. injection Hc' as <-. rewrite zlen_app. lia.
    - rewrite Hoth in Hc' by (done || apply container_path_not_index).
      destruct Hr as (? & ? & ? & ? & _ & _ & Hd & _ & _ & Hz). rewrite Hd in Hc'. by injection Hc' as <-. }
  assert (Hnew : record_at d' entry e).
  { destruct (encode_storable format e magic Hs Hm) as [_ Hf]; [unfold frame, zlen, MAX_FILE in *; lia|].
    exists magic, c, frame, []. rewrite app_nil_r. split_and!; try done. by rewrite zlen_app. }
  split_and!; [done| |done|done|done]. split.
  - by rewrite Hidx, map_app, concat_app; cbn; rewrite app_nil_r.
  - apply Forall_app_2; [apply (inv_wf _ _ _ Hinv)|by constructor].
  - rewrite length_app. cbn. lia.
  - apply Forall_app_2; [|constructor; [by exists e|constructor]].
    eapply Forall_impl; [apply (inv_records _ _ _ Hinv)|]. intros en (env & ? & ?). exists env. eauto.
  - intros t Ht. destruct (inv_containers _ _ _ Hinv t Ht) as [c' Hc']. destruct (Hgrown _ _ Hc') as [m ->]. eauto.
  - rewrite (format_unchanged d); [apply (inv_format _ _ _ Hinv)|].
    apply Hoth; intros Heq; [by apply (proj2 (format_path_distinct Blob SlotA))|by apply (proj1 (format_path_distinct (object_type e) SlotA))].
Qed.

(** ** The abstract store: a map from identifiers to envelopes *)

Definition abs_read (d : Disk) (es : list IndexEntry) (id : ObjectId) : option ObjectEnvelope :=
  match find_last_entry id es with
  | None => None
  | Some entry => match read_object_envelope_at d entry with Ok env => Some env | Err _ => None end
  end.

(** Writing [e] where [old] is stored: what is stored afterwards. *)
Definition abstract_write (format : RepositoryFormat) (old : option ObjectEnvelope) (e : ObjectEnvelope)
  : PResult ObjectEnvelope :=
  match old with
  | None => Ok e
  | Some old =>
      if negb (bool_decide (object_type old = object_type e))
      then Err (Integrity "existing index entry for {object_id} has type {}, expected {object_type}")
      else if bool_decide (old = e) then Ok old
      else if negb (schema_version old =? schema_version e) || negb (bool_decide (canonical_payload old = canonical_payload e))
      then Err (Integrity "existing container record for {object_id} differs from candidate in its payload, not only its signatures -- refusing")
      else if bool_decide (format = CurrentV6)
      then Err (Integrity "existing container record for {object_id} differs from candidate -- this repository is format 6, which holds one record per object id; `prikk format upgrade` moves it to format 7, where another signer's copy merges")
      else foldM merge_signature old (signatures e)
  end.

Lemma find_last_some id es entry : find_last_entry id es = Some entry -> entry ∈ es /\ ie_object_id entry = id.
Proof using Type.
  unfold find_last_entry. intros Hf%find_some. destruct Hf as [Hin Hid]. split.
  - apply list_elem_of_In. by apply in_rev.
  - by case_bool_decide.
Qed.

(** ** Entries that name sound records *)

Lemma sound_entry format d es id entry :
  Forall (entry_sound format d) es -> find_last_entry id es = Some entry ->
  exists env, record_at d entry env /\ read_object_envelope_at d entry = Ok env /\ object_id env = id /\
    storable format env /\ object_type env = ie_object_type entry.
Proof using Type.
  intros Hr [Hin Hid]%find_last_some. rewrite Forall_forall in Hr.
  destruct (Hr _ Hin) as (env & Hre & Ho & Hs). exists env. split_and!; [done|by apply read_record_at|congruence|done|].
  destruct Hre as (magic & pre & frame & post & _ & (body & _ & _ & Ht) & _). done.
Qed.

Lemma sound_read_entry format d es id :
  Forall (entry_sound format d) es ->
  index_reader format (read_object_envelope_at d) (fun id => Ok (find_last_entry id es)) id = Ok (abs_read d es id).
Proof using Type.
  intros Hall. unfold index_reader, abs_read. destruct (find_last_entry id es) as [entry|] eqn:Hf; [|done].
  destruct (sound_entry format d es id entry Hall Hf) as (env & _ & Hr & Ho & Hs & Ht). unfold read_object_at_entry. rewrite Hr.
  rewrite bool_decide_true by done. rewrite bool_decide_true by done. cbn [negb].
  assert (validate_read_schema format env = Ok tt) as ->; [|done].
  destruct Hs as [Hv _]. unfold validate_read_schema, validate_object_envelope in *. by destruct format.
Qed.

Section inv.
Context (format : RepositoryFormat) (d : Disk) (es : list IndexEntry) (Hinv : StoreInv format d es).

Lemma inv_entry id entry : find_last_entry id es = Some entry ->
  exists env, record_at d entry env /\ read_object_envelope_at d entry = Ok env /\ object_id env = id /\
    storable format env /\ object_type env = ie_object_type entry.
Proof using Hinv. apply sound_entry, (inv_records _ _ _ Hinv). Qed.

Lemma abs_read_some id env : abs_read d es id = Some env ->
  exists entry, find_last_entry id es = Some entry /\ record_at d entry env /\
    read_object_envelope_at d entry = Ok env /\ object_id env = id /\ storable format env /\
    object_type env = ie_object_type entry.
Proof using Hinv.
  unfold abs_read. destruct (find_last_entry id es) as [entry|] eqn:Hf; [|done].
  destruct (inv_entry id entry Hf) as (env' & Hr & Hre & Hrest). rewrite Hre. intros [= <-]. eauto.
Qed.

Lemma abs_read_none id : abs_read d es id = None -> find_last_entry id es = None.
Proof using Hinv.
  unfold abs_read. destruct (find_last_entry id es) as [entry|] eqn:Hf; [|done].
  destruct (inv_entry id entry Hf) as (env' & _ & -> & _). done.
Qed.

Lemma inv_replay : replay_index_with_extent d
  = Ok (mkIndexReplay es 0 (index_outcomes 0 (length es)), zlen (concat (map enc_index es))).
Proof using Hinv. apply replay_clean; apply Hinv. Qed.

Lemma inv_no_failure : index_has_item_failure (mkIndexReplay es 0 (index_outcomes 0 (length es))) = false.
Proof using Type. apply index_outcomes_clean. Qed.

Lemma inv_resolve : resolve_object_location_entries d = Ok es.
Proof using Hinv.
  unfold resolve_object_location_entries, replay_index. rewrite inv_replay. unfold damaged_or_torn.
  by rewrite inv_no_failure.
Qed.

Lemma inv_read_entry id : index_reader format (read_object_envelope_at d) (fun id => Ok (find_last_entry id es)) id
  = Ok (abs_read d es id).
Proof using Hinv. apply sound_read_entry, (inv_records _ _ _ Hinv). Qed.

Lemma inv_index_length : current_index_file_length d = Ok (zlen (concat (map enc_index es))).
Proof using Hinv.
  unfold current_index_file_length, stat_size_if_exists. by rewrite (inv_index _ _ _ Hinv).
Qed.
End inv.

(** ** Decisions against the abstract store *)

Lemma locked_write_spec format d es e :
  StoreInv format d es -> storable format e ->
  locked_write format d e (find_last_entry (object_id e) es)
  = match abs_read d es (object_id e) with
    | None => Ok (LockedAppend e false)
    | Some old =>
        let? new := abstract_write format (Some old) e in
        Ok (if bool_decide (new = old) then LockedAlreadyPresent (object_id e) else LockedAppend new true)
    end.
Proof using Type.
  intros Hinv Hs. unfold locked_write. destruct (abs_read d es (object_id e)) as [old|] eqn:Ha.
  2: { by rewrite (abs_read_none _ _ _ Hinv _ Ha). }
  destruct (abs_read_some _ _ _ Hinv _ _ Ha) as (entry & -> & _ & Hr & _ & Hso & Ht).
  unfold decide_write_outcome, abstract_write. rewrite <- Ht, Hr.
  destruct (bool_decide_reflect (object_type old = object_type e)) as [Hty|Hty]; [|done]. cbn [negb orb].
  case_bool_decide as Heq; [by rewrite (bool_decide_true (old = old))|].
  destruct (negb _ || _); [done|]. case_bool_decide; [done|].
  pose proof (storable_strict _ _ Hso) as Hst%validate_strict_iff.
  pose proof (storable_strict _ _ Hs) as (_ & Hsig & _)%validate_strict_iff.
  destruct (merge_fold_spec (signatures e) old Hst Hsig) as (u & -> & _ & _ & [->|[Hg _]]).
  - by rewrite Nat.eqb_refl, (bool_decide_true (old = old)).
  - destruct (Nat.eqb_spec (length (signatures u)) (length (signatures old))); [lia|].
    rewrite bool_decide_false by (intros ->; lia). done.
Qed.

(** What a write stores is storable under the same identifier. *)
Lemma abstract_write_storable format d es e new :
  StoreInv format d es -> storable format e -> abstract_write format (abs_read d es (object_id e)) e = Ok new ->
  wf_envelope new -> storable format new /\ object_id new = object_id e /\ object_type new = object_type e.
Proof using Type.
  intros Hinv Hs Hw Hwf. unfold abstract_write in Hw. destruct (abs_read d es (object_id e)) as [old|] eqn:Ha.
  2: { inv_ok. done. }
  destruct (abs_read_some _ _ _ Hinv _ _ Ha) as (entry & _ & _ & _ & Hid & Hso & Ht).
  destruct (bool_decide_reflect (object_type old = object_type e)) as [Hty|]; [|done]. cbn [negb] in Hw.
  case_bool_decide; [inv_ok; by subst|].
  destruct (Z.eqb_spec (schema_version old) (schema_version e)) as [Hsc|]; [|done]. cbn [negb orb] in Hw.
  destruct (bool_decide_reflect (canonical_payload old = canonical_payload e)) as [Hpl|]; [|done]. cbn [negb] in Hw.
  case_bool_decide; [done|].
  pose proof (storable_strict _ _ Hso) as Hst%validate_strict_iff.
  pose proof (storable_strict _ _ Hs) as (_ & Hsig & _)%validate_strict_iff.
  destruct (merge_fold_spec (signatures e) old Hst Hsig) as (u & Hu & Hsu & (Hu1 & Hu2 & Hu3 & _) & _).
  assert (u = new) as -> by congruence. split_and!; [|unfold object_id; congruence|congruence].
  destruct Hs as (Hv & _ & Hne). split_and!; [|done|congruence].
  unfold validate_object_envelope, validate_format2_schema in *.
  rewrite (proj2 (validate_strict_iff new) Hsu), Hu1, Hu2, Hty, Hsc. by destruct (validate_strict e).
Qed.

(** Reading after one more entry: the new record for its identifier, nothing else changes. *)
Lemma abs_read_snoc d d' es entry new :
  (forall en env, record_at d en env -> record_at d' en env) -> record_at d' entry new ->
  Forall (fun en => exists env, record_at d en env) es ->
  forall id, abs_read d' (es ++ [entry]) id
  = if decide (id = ie_object_id entry) then Some new else abs_read d es id.
Proof using Type.
  intros Hkeep Hnew Hall id. unfold abs_read. rewrite find_last_snoc.
  destruct (decide (id = ie_object_id entry)) as [->|Hne].
  - rewrite bool_decide_true by done. by rewrite (read_record_at _ _ _ Hnew).
  - rewrite bool_decide_false by done. destruct (find_last_entry id es) as [en|] eqn:Hf; [|done].
    apply find_last_some in Hf as [Hin _]. rewrite Forall_forall in Hall. destruct (Hall _ Hin) as [env Hr].
    by rewrite (read_record_at _ _ _ Hr), (read_record_at _ _ _ (Hkeep _ _ Hr)).
Qed.

Lemma inv_has_records format d es : StoreInv format d es -> Forall (fun en => exists env, record_at d en env) es.
Proof using Type. intros Hinv. eapply Forall_impl; [apply (inv_records _ _ _ Hinv)|]. intros en (env & Hr & _). eauto. Qed.

(** The postcondition of a write that stores [new]. *)
Definition wrote (format : RepositoryFormat) (d : Disk) (es : list IndexEntry) (id : ObjectId) (new : ObjectEnvelope)
    (d' : Disk) (es' : list IndexEntry) : Prop :=
  StoreInv format d' es' /\ grown d d' /\ (exists added, es' = es ++ added) /\
  forall id', abs_read d' es' id' = if decide (id' = id) then Some new else abs_read d es id'.

(** What follows the decision under the lock. *)
Lemma append_chosen format d es e new :
  StoreInv format d es -> storable format e -> abstract_write format (abs_read d es (object_id e)) e = Ok new ->
  wf_envelope new -> fits d new -> Z.of_nat (length es) + 1 < 2 ^ 32 ->
  exists chosen, locked_write format d e (find_last_entry (object_id e) es) = Ok chosen /\
  exists d' es', append_object_under_lock (object_type e) (io_ret chosen) d = (Ok (object_id e), d') /\
    wrote format d es (object_id e) new d' es'.
Proof using Type.
  intros Hinv Hs Hw Hwf Hfit Hn. rewrite (locked_write_spec _ _ _ _ Hinv Hs).
  destruct (abstract_write_storable _ _ _ _ _ Hinv Hs Hw Hwf) as (Hsn & Hid & Hty).
  assert (Happ : exists d' es', (do! entry := append_object_to_container (object_type e) new in io_ret (ie_object_id entry)) d
      = (Ok (object_id e), d') /\ wrote format d es (object_id e) new d' es').
  { destruct (append_object_spec format d es new Hinv Hsn Hfit Hn) as (entry & d' & Ha & Hg & Hi & He & Hr & Hk).
    rewrite Hty in Ha. exists d', (es ++ [entry]). unfold io_bind. rewrite Ha, He, Hid. split; [done|].
    split_and!; [done|done|by eexists|]. intros id'. rewrite (abs_read_snoc d d' es entry new Hk Hr (inv_has_records _ _ _ Hinv)).
    by rewrite He, Hid. }
  destruct (abs_read d es (object_id e)) as [old|] eqn:Ha.
  - rewrite Hw. eexists. split; [done|]. case_bool_decide as Heq.
    + subst old. exists d, es. split; [done|]. split_and!; [done| |exists []; by rewrite app_nil_r|].
      * intros p o Hp. exists []. by rewrite app_nil_r.
      * intros id'. destruct (decide (id' = object_id e)) as [->|]; done.
    + destruct Happ as (d' & es' & Hap & Hwr). exists d', es'. by split.
  - eexists. split; [done|]. cbn in Hw. inv_ok. destruct Happ as (d' & es' & Hap & Hwr). exists d', es'. by split.
Qed.

Lemma locked_write_err format d es e err :
  StoreInv format d es -> storable format e -> abstract_write format (abs_read d es (object_id e)) e = Err err ->
  locked_write format d e (find_last_entry (object_id e) es) = Err err.
Proof using Type.
  intros Hinv Hs Hw. rewrite (locked_write_spec _ _ _ _ Hinv Hs).
  destruct (abs_read d es (object_id e)); [by rewrite Hw|done].
Qed.

Lemma inv_resolve_locked format d es run id :
  StoreInv format d es -> resolve_object_location_locked run id d = (Ok (find_last_entry id es), d).
Proof using Type.
  intros Hinv. unfold resolve_object_location_locked, io_bind, io_read, replay_index.
  rewrite (inv_replay _ _ _ Hinv). unfold damaged_or_torn. by rewrite inv_no_failure.
Qed.

(** ** Snapshots *)

(** [s] is a snapshot of an index that holds [es]. *)
Definition snap_of (s : IndexSnapshot) (es : list IndexEntry) : Prop :=
  sn_entries s = es /\ sn_known_length s = zlen (concat (map enc_index es)) /\ represents es (sn_by_id s).

Lemma snap_lookup s es id : snap_of s es -> snapshot_lookup s id = find_last_entry id es.
Proof using Type. intros (He & _ & Hr). unfold snapshot_lookup. rewrite He. apply Hr. Qed.

Lemma snapshot_open_spec format d es :
  StoreInv format d es -> exists s, snapshot_open d = Ok s /\ snap_of s es.
Proof using Type.
  intros Hinv. unfold snapshot_open. rewrite (inv_replay _ _ _ Hinv), inv_no_failure. cbn [ir_trailing_partial_bytes Nat.eqb negb ir_entries].
  destruct (index_position_map_spec es) as (m & -> & Hm); [pose proof (inv_small _ _ _ Hinv); lia|].
  eexists. split; [done|]. by split_and!.
Qed.

(** The tail of a clean index decodes to its entries. *)
Lemma tail_replay d es1 es2 :
  d !! container_index_path = Some (concat (map enc_index (es1 ++ es2))) -> Forall wf_entry (es1 ++ es2) ->
  Z.of_nat (length (es1 ++ es2)) < 2 ^ 32 -> es2 <> [] ->
  exists os, replay_index_tail_with_extent (zlen (concat (map enc_index es1))) d
    = Ok (mkIndexReplay es2 0 os, zlen (concat (map enc_index (es1 ++ es2)))) /\
    index_has_item_failure (mkIndexReplay es2 0 os) = false.
Proof using Type.
  intros Hd Hwf Hn Hne. pose proof Hwf as [Hw1 Hw2]%Forall_app. rewrite map_app, concat_app in *.
  pose proof (enc_index_concat_length es1 Hw1) as Hl1. pose proof (enc_index_concat_length es2 Hw2) as Hl2.
  rewrite length_app in Hn. assert (length es2 <> 0%nat) by (by destruct es2).
  exists (index_outcomes (length (concat (map enc_index es1))) (length es2)).
  unfold replay_index_tail_with_extent, stat_size_if_exists, read_file_range_if_exists. rewrite Hd. rewrite zlen_app.
  set (b1 := concat (map enc_index es1)) in *. set (b2 := concat (map enc_index es2)) in *.
  assert (Hb2 : 0 < zlen b2) by (unfold zlen; rewrite Hl2; unfold INDEX_FRAME_LEN, INDEX_HEADER_LEN; lia).
  pose proof (zlen_nonneg b1). destruct (Z.leb_spec (zlen b1 + zlen b2) (zlen b1)); [lia|].
  replace (zlen b1 + zlen b2 - zlen b1) with (zlen b2) by lia. 
  assert (Hz : forall b : list byte, Z.to_nat (zlen b) = length b) by (intros b; unfold zlen; apply Nat2Z.id).
  rewrite !Hz, drop_app_length, take_ge by done.
  assert (Hdec : decode_index_records_at b2 0 (length b1) = Ok (mkIndexReplay es2 0 (index_outcomes (length b1) (length es2)))).
  { unfold decode_index_records_at.
    pose proof (decode_index_append [] (enc_index zero_entry) zero_entry es2 [] (S (S (length b2))) (length b1) [] []) as Hx.
    cbn [app length] in Hx. fold b2 in Hx. rewrite app_nil_r, Nat.add_0_r in Hx. apply Hx; try done.
    - rewrite zlen_app. unfold zlen. rewrite Hl2, length_enc_index by apply zero_entry_wf.
      unfold INDEX_FRAME_LEN, INDEX_HEADER_LEN, INDEX_BODY_LEN. lia.
    - rewrite Hl2. unfold INDEX_FRAME_LEN, INDEX_HEADER_LEN. lia. }
  rewrite Hdec. cbn [ir_trailing_partial_bytes]. unfold len_to_u64. rewrite Nat.sub_0_r.
  destruct (Z.ltb_spec (Z.of_nat (length b1 + length b2)) (2 ^ 64)) as [_|Hge].
  2: { rewrite Hl1, Hl2 in Hge. unfold INDEX_FRAME_LEN, INDEX_HEADER_LEN, INDEX_BODY_LEN in Hge. lia. }
  split; [unfold zlen; by rewrite Nat2Z.inj_add|]. apply index_outcomes_clean.
Qed.

(** A snapshot that is behind catches up with what other writers appended. *)
Lemma ensure_current_spec format run d es1 es2 s locked :
  StoreInv format d (es1 ++ es2) -> snap_of s es1 ->
  exists s', ensure_current_impl run s locked d = (Ok s', d) /\ snap_of s' (es1 ++ es2).
Proof using Type.
  intros Hinv Hs. pose proof Hs as (He & Hk & Hr). unfold ensure_current_impl, io_bind, io_read.
  rewrite (inv_index_length _ _ _ Hinv), Hk. destruct (decide (es2 = [])) as [->|Hne].
  { rewrite app_nil_r, Z.eqb_refl. by exists s. }
  pose proof (inv_wf _ _ _ Hinv) as Hwf. pose proof Hwf as [Hw1 Hw2]%Forall_app.
  assert (Hlt : zlen (concat (map enc_index es1)) < zlen (concat (map enc_index (es1 ++ es2)))).
  { unfold zlen. rewrite !enc_index_concat_length, length_app by done. assert (length es2 <> 0%nat) by (by destruct es2).
    unfold INDEX_FRAME_LEN, INDEX_HEADER_LEN. lia. }
  destruct (Z.eqb_spec (zlen (concat (map enc_index (es1 ++ es2)))) (zlen (concat (map enc_index es1)))); [lia|].
  destruct (Z.ltb_spec (zlen (concat (map enc_index (es1 ++ es2)))) (zlen (concat (map enc_index es1)))); [lia|].
  destruct (tail_replay d es1 es2 (inv_index _ _ _ Hinv) Hwf (inv_small _ _ _ Hinv) Hne) as (os & -> & Hf).
  rewrite Hf. cbn [ir_trailing_partial_bytes Nat.eqb negb andb orb ir_entries]. rewrite andb_false_r. cbn [orb negb].
  unfold io_lift. rewrite He. destruct (extend_spec es1 (sn_by_id s) es2 Hr) as (m & -> & Hm).
  { pose proof (inv_small _ _ _ Hinv). lia. }
  eexists. split; [done|]. by split_and!.
Qed.

(** ** Properties of the writers *)

Lemma inv_validate_format format d es : StoreInv format d es -> validate_format format d = Ok tt.
Proof using Type.
  intros Hinv. unfold validate_format. rewrite (inv_format _ _ _ Hinv). by rewrite bool_decide_true by done.
Qed.

Lemma file_write_spec format run d es e :
  StoreInv format d es -> storable format e ->
  file_write_object format run e d
  = append_object_under_lock (object_type e) (io_read (fun d => locked_write format d e (find_last_entry (object_id e) es))) d.
Proof using Type.
  intros Hinv (Hv & Hwf & Hne). unfold file_write_object. rewrite bool_decide_false by done.
  unfold append_object_under_lock, io_bind, io_read, io_lift. rewrite (inv_validate_format _ _ _ Hinv), Hv.
  by rewrite (inv_resolve_locked _ _ _ _ _ Hinv).
Qed.

Lemma session_decide_spec format run d es1 es2 s e :
  StoreInv format d (es1 ++ es2) -> snap_of s es1 -> storable format e ->
  exists s', snap_of s' (es1 ++ es2) /\
    session_decide_write format run s e d
    = (let? decision := decide_write_outcome format (read_object_envelope_at d) (object_type e) e
                          (find_last_entry (object_id e) (es1 ++ es2)) in Ok (decision, s'), d).
Proof using Type.
  intros Hinv Hs (Hv & Hwf & Hne). destruct (ensure_current_spec format run d es1 es2 s false Hinv Hs) as (s' & He & Hs').
  exists s'. split; [done|]. unfold session_decide_write. rewrite bool_decide_false by done.
  unfold io_bind, io_read, io_lift. rewrite (inv_validate_format _ _ _ Hinv), Hv. unfold ensure_current. rewrite He.
  rewrite (snap_lookup _ _ _ Hs'). by destruct (decide_write_outcome _ _ _ _ _).
Qed.
End thms.
