(* ===== verification/StoreThms.v ===== *)
(** * Properties of the container-backed object store *)

From S2P Require Import Prelude PrikkError Hash ObjectId Signature Envelope FileCodec FrameResync Container.
From S2P Require Import ContainerThms ObjectStore IndexFile FileSystem RecoveryLog RecoveryLogThms ObjectDisk.
From S2P Require Import ObjectDiskThms.

Section lemmas.
Context `{Sha256}.


(** The file store's cache, against an index that only grows: older, or of the current entries. *)
Definition cache_ok (es : list IndexEntry) (cache : option LookupCache) : Prop :=
  match cache with
  | None => True
  | Some c =>
      lc_index_file_length c <= zlen (concat (map enc_index es)) /\
      (lc_index_file_length c = zlen (concat (map enc_index es)) -> lc_entries c = es /\ represents es (lc_by_id c))
  end.

Lemma resolve_cached_spec format d es cache id :
  StoreInv format d es -> cache_ok es cache ->
  exists cache', resolve_cached cache d id = (Ok (find_last_entry id es), cache') /\ cache_ok es cache'.
Proof using Type.
  intros Hinv Hc. unfold resolve_cached. rewrite (inv_index_length _ _ _ Hinv), (inv_resolve _ _ _ Hinv).
  destruct (index_position_map_spec es) as (m & -> & Hm); [pose proof (inv_small _ _ _ Hinv); lia|].
  assert (Hre : exists cache', (Ok (lookup_position es m id), Some (mkLookupCache (zlen (concat (map enc_index es))) es m))
    = (Ok (find_last_entry id es) : PResult _, cache') /\ cache_ok es cache').
  { eexists. rewrite (proj1 (Hm id)). split; [done|]. cbn. split; [lia|done]. }
  destruct cache as [c|]; [|done]. destruct (Z.eqb_spec (lc_index_file_length c) (zlen (concat (map enc_index es)))) as [Heq|]; [|done].
  destruct Hc as [Hle Hc]. destruct (Hc Heq) as [He Hr]. exists (Some c). rewrite He, (proj1 (Hr id)). by split.
Qed.

End lemmas.

(** ** Properties *)



(** Every reader of a store that satisfies the invariant reads the abstract map: the file store
    through any coherent cache (which stays coherent), and the snapshot a reader opens. *)
Theorem store_read_refines `{Sha256} format d es cache id :
  StoreInv format d es -> cache_ok es cache ->
  (exists cache', file_read_object format cache d id = (Ok (abs_read d es id), cache') /\ cache_ok es cache') /\
  (exists s, snapshot_open d = Ok s /\ snap_of s es /\ snapshot_reader format s d id = Ok (abs_read d es id)).
Proof.
  intros Hinv Hc. pose proof (inv_read_entry _ _ _ Hinv id) as Hr. unfold index_reader in Hr. split.
  - destruct (resolve_cached_spec format d es cache id Hinv Hc) as (cache' & He & Hc'). exists cache'. split; [|done].
    unfold file_read_object. rewrite He. destruct (find_last_entry id es); [by rewrite Hr|]. by rewrite <- Hr.
  - destruct (snapshot_open_spec _ _ _ Hinv) as (s & Ho & Hs). exists s. split_and!; [done|done|].
    unfold snapshot_reader, index_reader. by rewrite (snap_lookup _ _ _ Hs).
Qed.

(** ** Witnesses: an empty format-7 repository *)

#[local] Existing Instance hash_mod_p.

Definition empty_disk : Disk :=
  <["FORMAT"%string := format_line x37]> (<[container_index_path := []]>
    (fold_right (fun t d => <[container_slot_path t SlotA := []]> d) ∅ persisted_object_types)).

Lemma empty_disk_inv : StoreInv V7 empty_disk [].
Proof.
  split; [vm_compute; reflexivity|constructor|cbn; lia|constructor| |vm_compute; reflexivity].
  intros t Ht. exists []. unfold persisted_object_types in Ht. rewrite !elem_of_cons, elem_of_nil in Ht.
  destruct Ht as [->|[->|[->|[->|[->|[->|[->|[]]]]]]]]; vm_compute; reflexivity.
Qed.

Lemma witness_storable : storable V7 witness_record.
Proof.
  split; [vm_compute; reflexivity|]. split; [|done]. split; [cbv; by split|]. split; [|by split].
  constructor; [cbv; by split|constructor].
Qed.

Lemma witness_fits new :
  abstract_write V7 (abs_read empty_disk [] (object_id witness_record)) witness_record = Ok new ->
  wf_envelope new /\ fits empty_disk new.
Proof.
  intros Hn. cbn in Hn. injection Hn as <-. split; [apply witness_storable|]. unfold fits. vm_compute. reflexivity.
Qed.





(** A store with one object. *)
Lemma store_read_refines_witness :
  exists d' cache', file_read_object V7 None d' (object_id witness_record) = (Ok (Some witness_record), cache').
Proof.
  destruct (append_object_spec V7 empty_disk [] witness_record empty_disk_inv witness_storable
              (proj2 (witness_fits witness_record eq_refl)) ltac:(cbn; lia)) as (entry & d' & _ & _ & Hinv & He & Hr & _).
  destruct (store_read_refines V7 d' ([] ++ [entry]) None (object_id witness_record) Hinv I) as [(cache' & Hrd & _) _].
  exists d', cache'. rewrite Hrd. unfold abs_read. cbn [app]. unfold find_last_entry. cbn [rev app find].
  rewrite bool_decide_true by exact He. by rewrite (read_record_at _ _ _ Hr).
Defined.

(** ** A torn tail behind damage *)

(** An index with a damaged entry and, behind it, a torn one. *)
Definition torn_damaged_index : list byte :=
  (x00 :: drop 1 (enc_index zero_entry)) ++ take 60 (enc_index zero_entry).

Definition torn_damaged_disk : Disk :=
  <[container_slot_path Blob SlotA := witness_frame]> (<[container_index_path := torn_damaged_index]> empty_disk).

Definition second_record : ObjectEnvelope := mkEnvelope Blob 1 [x01] [].

(** A write session opened on an index with an interior damaged entry and a torn tail appends its
    entry directly behind the torn bytes, although a locked write is to rebuild the index first so that
    a torn tail is never buried: opening takes the whole file length as known, so the check under the
    lock finds nothing new.  The file store's own write rebuilds the same index to a clean one. *)
Theorem session_buries_torn_tail :
  (exists replay, replay_index torn_damaged_disk = Ok replay /\ ir_trailing_partial_bytes replay = 60%nat /\
     index_has_item_failure replay = true) /\
  (exists s out d' appended, snapshot_open torn_damaged_disk = Ok s /\
     session_write_object V7 (replicate 8 x00) s second_record torn_damaged_disk = (Ok out, d') /\
     d' !! container_index_path = Some (torn_damaged_index ++ appended) /\ length appended = INDEX_FRAME_LEN) /\
  (exists id d' replay, file_write_object V7 (replicate 8 x00) second_record torn_damaged_disk = (Ok id, d') /\
     replay_index d' = Ok replay /\ damaged_or_torn replay = false).
Proof.
  split_and!.
  - assert (Ht : match replay_index torn_damaged_disk with
                 | Ok r => Nat.eqb (ir_trailing_partial_bytes r) 60 && index_has_item_failure r | Err _ => false end = true)
      by (vm_compute; reflexivity).
    destruct (replay_index torn_damaged_disk) as [r|]; [|done]. exists r.
    apply andb_true_iff in Ht as [H1 H2]. split_and!; [done|by apply Nat.eqb_eq|done].
  - assert (Ht : match snapshot_open torn_damaged_disk with
                 | Ok s =>
                     match session_write_object V7 (replicate 8 x00) s second_record torn_damaged_disk with
                     | (Ok _, d') =>
                         match d' !! container_index_path with
                         | Some b => bool_decide (b = torn_damaged_index ++ drop (length torn_damaged_index) b)
                                     && Nat.eqb (length (drop (length torn_damaged_index) b)) INDEX_FRAME_LEN
                         | None => false end
                     | _ => false end
                 | Err _ => false end = true) by (vm_compute; reflexivity).
    destruct (snapshot_open torn_damaged_disk) as [s|]; [|done]. exists s.
    destruct (session_write_object V7 (replicate 8 x00) s second_record torn_damaged_disk) as [[out|] d'] eqn:Hw; [|done].
    destruct (d' !! container_index_path) as [b|] eqn:Hb; [|done]. apply andb_true_iff in Ht as [H1 H2].
    exists out, d', (drop (length torn_damaged_index) b).
    apply bool_decide_eq_true in H1. split_and!; [done|done|by rewrite Hb, H1 at 1|by apply Nat.eqb_eq].
  - assert (Ht : match file_write_object V7 (replicate 8 x00) second_record torn_damaged_disk with
                 | (Ok _, d') => match replay_index d' with Ok r => negb (damaged_or_torn r) | Err _ => false end
                 | _ => false end = true) by (vm_compute; reflexivity).
    destruct (file_write_object V7 (replicate 8 x00) second_record torn_damaged_disk) as [[id|] d'] eqn:Hw; [|done].
    destruct (replay_index d') as [r|] eqn:Hr; [|done]. exists id, d', r. split_and!; [done|done|by apply negb_true_iff].
Qed.
