(* ===== verification/RebuildThms.v ===== *)
(** * Rebuilding and repairing the object index

    With sound containers the index is only a cache: a reader that finds it damaged or torn reads the
    containers instead, and a repair writes an index that satisfies the store's invariant again. *)

From S2P Require Import Prelude PrikkError Hash ObjectId Signature Envelope FileCodec FrameResync Container.
From S2P Require Import ContainerThms ObjectStore IndexFile FileSystem RecoveryLog RecoveryLogThms ObjectDisk.
From S2P Require Import ObjectDiskThms StoreThms.

Section rebuild.
Context `{Sha256}.

Definition env_frame (magic : list byte) (e : ObjectEnvelope) : list byte := enc_frame magic (enc_envelope e).

(** The container of [t] holds the records of [es], and maybe an interrupted append at its end. *)
Definition sound_container (format : RepositoryFormat) (d : Disk) (t : ObjectType) (es : list ObjectEnvelope) : Prop :=
  exists magic torn, container_magic t = Ok magic /\
    d !! container_slot_path t SlotA = Some (concat (map (env_frame magic) es) ++ torn) /\
    interrupted magic torn /\ zlen (concat (map (env_frame magic) es) ++ torn) < MAX_FILE /\
    Forall (fun e => storable format e /\ object_type e = t) es.

(** The index entries of consecutive frames. *)
Fixpoint container_entries (t : ObjectType) (offset : nat) (es : list ObjectEnvelope) (frames : list (list byte))
  : list IndexEntry :=
  match es, frames with
  | e :: es', f :: frames' =>
      mkIndexEntry (object_id e) t SlotA (Z.of_nat offset) (zlen f) (take 32 (drop 18 f))
        :: container_entries t (offset + length f) es' frames'
  | _, _ => []
  end.

Lemma rebuild_container_frames t : forall frames es offset acc,
  length es = length frames -> Z.of_nat (offset + length (concat frames)) < 2 ^ 64 ->
  rebuild_container t (frame_outcomes offset frames) es acc = Ok (acc ++ container_entries t offset es frames).
Proof using Type.
  induction frames as [|f frames IH]; intros [|e es] offset acc Hl Hb; try done.
  { cbn. by rewrite app_nil_r. }
  cbn [frame_outcomes rebuild_container co_status co_offset container_entries concat] in *. rewrite length_app in Hb.
  unfold len_to_u64. destruct (Z.ltb_spec (Z.of_nat offset) (2 ^ 64)); [|lia].
  destruct (Z.ltb_spec (Z.of_nat (length f)) (2 ^ 64)); [|lia].
  rewrite IH; [|by injection Hl|lia]. by rewrite <- app_assoc.
Qed.

(** What a rebuilt entry is, for the envelope it stands for. *)
Definition entry_for (format : RepositoryFormat) (d : Disk) (entry : IndexEntry) (env : ObjectEnvelope) : Prop :=
  record_at d entry env /\ ie_object_id entry = object_id env /\ storable format env /\ wf_entry entry.

Lemma container_entries_for format d t magic torn : forall es pre,
  container_magic t = Ok magic -> Forall (fun e => storable format e /\ object_type e = t) es ->
  d !! container_slot_path t SlotA = Some (pre ++ concat (map (env_frame magic) es) ++ torn) ->
  zlen (pre ++ concat (map (env_frame magic) es) ++ torn) < MAX_FILE ->
  Forall2 (entry_for format d) (container_entries t (length pre) es (map (env_frame magic) es)) es.
Proof using Type.
  induction es as [|e es IH]; intros pre Hm Hall Hd Hlen; [constructor|].
  apply Forall_cons in Hall as [[Hs Ht] Hall]. cbn [map container_entries concat] in *. rewrite <- app_assoc in Hd, Hlen.
  pose proof (container_magic_length _ _ Hm) as Hml. pose proof (zlen_nonneg pre). pose proof (zlen_nonneg (env_frame magic e)).
  pose proof (zlen_nonneg (concat (map (env_frame magic) es) ++ torn)).
  pose proof Hlen as Hlen'. rewrite !zlen_app in Hlen'. rewrite zlen_app in H2.
  constructor.
  - assert (Hf : frame_of t magic e (env_frame magic e)).
    { subst t. apply (encode_storable format e magic Hs Hm).
      pose proof (length_enc_frame magic Hml (enc_envelope e)) as Hl. unfold env_frame, zlen, MAX_FILE in *. lia. }
    split_and!; [|done|done|].
    + exists magic, pre, (env_frame magic e), (concat (map (env_frame magic) es) ++ torn). by split_and!.
    + unfold wf_entry, u64, MAX_FILE in *. cbn [ie_object_id ie_container_checksum ie_offset ie_length].
      split_and!; [apply object_id_length| |lia|unfold zlen in *; lia|lia|lia].
      unfold env_frame. rewrite (checksum_field magic Hml). apply sha256_length.
  - specialize (IH (pre ++ env_frame magic e)). rewrite length_app, <- !app_assoc in IH. by apply IH.
Qed.

Lemma rebuild_type_spec format d t es acc :
  sound_container format d t es ->
  exists added, rebuild_type d acc t = Ok (acc ++ added) /\ Forall2 (entry_for format d) added es.
Proof using Type.
  intros (magic & torn & Hm & Hd & Hi & Hlen & Hall). unfold rebuild_type. rewrite Hd.
  assert (Hfr : Forall2 (frame_of t magic) es (map (env_frame magic) es)).
  { pose proof (container_magic_length _ _ Hm) as Hml. clear Hd Hi. induction es as [|e es IH]; cbn; constructor.
    - apply Forall_cons in Hall as [[Hs <-] _]. apply (encode_storable format e magic Hs Hm).
      pose proof (length_enc_frame magic Hml (enc_envelope e)) as Hl. cbn [map concat] in Hlen.
      rewrite !zlen_app in Hlen. pose proof (zlen_nonneg torn). pose proof (zlen_nonneg (concat (map (env_frame magic) es))).
      unfold env_frame, zlen, MAX_FILE in *. lia.
    - apply Forall_cons in Hall as [_ Hall]. apply IH; [|done]. cbn [map concat] in Hlen. rewrite <- app_assoc, zlen_app in Hlen.
      pose proof (zlen_nonneg (env_frame magic e)). lia. }
  rewrite (decode_container_frames t magic es _ torn Hm Hfr Hlen Hi). cbn [cr_record_outcomes cr_records].
  rewrite rebuild_container_frames; [|by rewrite length_map|].
  2: { rewrite zlen_app in Hlen. pose proof (zlen_nonneg torn). unfold zlen, MAX_FILE in *. lia. }
  eexists. split; [done|]. by apply (container_entries_for format d t magic torn es [] Hm Hall).
Qed.

(** All records of the store, container by container. *)
Definition all_records (ws : ObjectType -> list ObjectEnvelope) : list ObjectEnvelope :=
  concat (map ws persisted_object_types).

Lemma rebuild_spec format d ws :
  (forall t, t ∈ persisted_object_types -> sound_container format d t (ws t)) ->
  exists rebuilt, rebuild_index_from_containers d = Ok rebuilt /\ Forall2 (entry_for format d) rebuilt (all_records ws).
Proof using Type.
  intros Hall. unfold rebuild_index_from_containers, all_records.
  assert (Hgo : forall l acc done_, (forall t, t ∈ l -> sound_container format d t (ws t)) ->
    Forall2 (entry_for format d) acc done_ ->
    exists rebuilt, foldM (rebuild_type d) acc l = Ok rebuilt /\ Forall2 (entry_for format d) rebuilt (done_ ++ concat (map ws l))).
  { induction l as [|t l IH]; intros acc done_ Hl Ha; cbn [foldM map concat].
    { exists acc. by rewrite app_nil_r. }
    destruct (rebuild_type_spec format d t (ws t) acc) as (added & -> & Hadd); [apply Hl; by left|].
    destruct (IH (acc ++ added) (done_ ++ ws t)) as (rebuilt & Hr & Hf); [intros t' Ht'; apply Hl; by right|by apply Forall2_app|].
    exists rebuilt. by rewrite <- app_assoc in Hf. }
  by apply (Hgo _ [] []).
Qed.

(** The last record of an identifier. *)
Definition find_last_record (id : ObjectId) (records : list ObjectEnvelope) : option ObjectEnvelope :=
  find (fun e => bool_decide (object_id e = id)) (rev records).

Lemma find_last_record_snoc id records e :
  find_last_record id (records ++ [e]) = if bool_decide (object_id e = id) then Some e else find_last_record id records.
Proof using Type. unfold find_last_record. rewrite rev_app_distr. cbn. by case_bool_decide. Qed.

Lemma abs_read_records format d rebuilt records id :
  Forall2 (entry_for format d) rebuilt records -> abs_read d rebuilt id = find_last_record id records.
Proof using Type.
  revert records. induction rebuilt as [|entry rebuilt IH] using rev_ind; intros records Hall.
  - by apply Forall2_nil_inv_l in Hall as ->.
  - apply Forall2_app_inv_l in Hall as (records' & l & Hall & (e & l' & (Hr & Hid & _) & ->%Forall2_nil_inv_l & ->)%Forall2_cons_inv_l & ->).
    rewrite find_last_record_snoc. specialize (IH _ Hall). unfold abs_read in *. rewrite find_last_snoc, Hid.
    case_bool_decide; [|done]. by rewrite (read_record_at _ _ _ Hr).
Qed.

Lemma entries_for_sound format d rebuilt records :
  Forall2 (entry_for format d) rebuilt records -> Forall (entry_sound format d) rebuilt /\ Forall wf_entry rebuilt.
Proof using Type.
  induction 1 as [|entry env rebuilt records (Hr & Hid & Hs & Hwf) _ [IH1 IH2]]; [by split|].
  split; constructor; try done. exists env. by split_and!.
Qed.

(** ** What depends on which files *)

Lemma rebuild_ext d d' :
  (forall t, d' !! container_slot_path t SlotA = d !! container_slot_path t SlotA) ->
  rebuild_index_from_containers d' = rebuild_index_from_containers d.
Proof using Type.
  intros Hd. unfold rebuild_index_from_containers. generalize persisted_object_types as l. generalize (@nil IndexEntry) as acc.
  intros acc l. revert acc. induction l as [|t l IH]; intros acc; cbn [foldM]; [done|]. unfold rebuild_type at 1 3.
  rewrite Hd. destruct (match _ with Some _ => _ | None => _ end); [apply IH|done].
Qed.

Lemma record_at_ext d d' entry env :
  d' !! container_slot_path (ie_object_type entry) (ie_slot entry) = d !! container_slot_path (ie_object_type entry) (ie_slot entry) ->
  record_at d entry env -> record_at d' entry env.
Proof using Type. intros Hd (magic & pre & frame & post & Hrest). exists magic, pre, frame, post. by rewrite Hd. Qed.

Lemma log_path_distinct t s : container_slot_path t s <> LOG_PATH /\ container_index_path <> LOG_PATH.
Proof using Type. split; [|done]. by destruct t, s. Qed.

Lemma save_lost_ids_disk run lost d :
  exists r bytes, save_lost_ids run lost d = (Ok r, <[LOG_PATH := bytes]> d).
Proof using Type. unfold save_lost_ids. by eexists _, _; apply recovery_append_disk. Qed.

Lemma encode_entries es : Forall wf_entry es -> mapM_result encode_index_record es = Ok (map enc_index es).
Proof using Type.
  induction 1 as [|e es He _ IH]; [done|]. cbn [mapM_result map]. by rewrite encode_index_record_enc, IH.
Qed.

Lemma decode_index_total bytes : exists replay, decode_index_records bytes 0 = Ok replay.
Proof using Type.
  destruct (index_loop_spec bytes 0 (S (S (length bytes))) 0 [] []) as (tr & os & es & Hd & _); [lia|lia|].
  unfold decode_index_records, decode_index_records_at. eauto.
Qed.

(** ** One repair *)

(** What a repair leaves: the rebuilt index, or an index that was correct already. *)
Definition repaired (d : Disk) (bytes : list byte) (rebuilt : list IndexEntry) (report : IndexRepairReport) (d' : Disk) : Prop :=
  (forall p, p <> container_index_path -> p <> LOG_PATH -> d' !! p = d !! p) /\
  (if rp_already_correct report then d' = d
   else d' !! container_index_path = Some (concat (map enc_index rebuilt))).

(** The containers of [d] are those of [d']. *)
Lemma entries_for_ext format d d' rebuilt records : (forall p, p <> container_index_path -> p <> LOG_PATH -> d' !! p = d !! p) ->
  Forall2 (entry_for format d) rebuilt records -> Forall2 (entry_for format d') rebuilt records.
Proof using Type.
  intros Hoth Hall. eapply Forall2_impl; [exact Hall|]. intros entry env (Hra & Hrest). split; [|done]. apply (record_at_ext d); [|done].
  apply Hoth; [apply container_path_not_index|apply (log_path_distinct (ie_object_type entry) (ie_slot entry))].
Qed.

(** The index a repair writes replays to the rebuilt entries. *)
Lemma rebuilt_decodes rebuilt : Forall wf_entry rebuilt -> Z.of_nat (length rebuilt) < 2 ^ 32 ->
  decode_index_records (default [] (Some (concat (map enc_index rebuilt)))) 0 = Ok (mkIndexReplay rebuilt 0 (index_outcomes 0 (length rebuilt))).
Proof using Type.
  intros Hwf Hl. change (default [] (Some ?x)) with x. rewrite <- (app_nil_r (concat (map enc_index rebuilt))).
  by rewrite (decode_clean_index rebuilt [] (enc_index zero_entry) zero_entry);
    [|done|lia|apply zero_entry_wf|done|intros Hx%(f_equal length); by rewrite length_enc_index in Hx by apply zero_entry_wf].
Qed.

Lemma rebuilt_clean rebuilt : damaged_or_torn (mkIndexReplay rebuilt 0 (index_outcomes 0 (length rebuilt))) = false.
Proof using Type. unfold damaged_or_torn, index_has_item_failure. cbn [ir_record_outcomes ir_trailing_partial_bytes]. by rewrite index_outcomes_clean. Qed.

Lemma lost_ids_none before rebuilt :
  (forall en, en ∈ before -> exists en', en' ∈ rebuilt /\ ie_object_id en' = ie_object_id en) -> lost_ids_of before rebuilt = [].
Proof using Type.
  intros Hin. unfold lost_ids_of.
  assert (list_to_set (map ie_object_id before) ∖ list_to_set (map ie_object_id rebuilt) = (∅ : gset (list byte))) as ->.
  { apply set_eq. intros id. rewrite elem_of_difference, !elem_of_list_to_set. split; [|set_solver].
    intros [(en & -> & Hen)%list_elem_of_fmap Hno]. destruct (Hin _ Hen) as (en' & Hen' & Heq). destruct Hno.
    apply list_elem_of_fmap. by exists en'. }
  by rewrite elements_empty.
Qed.

Lemma sorted_equal_ids before rebuilt :
  sort_by sort_key_cmp before = sort_by sort_key_cmp rebuilt -> lost_ids_of before rebuilt = [].
Proof using Type.
  intros Heq. apply lost_ids_none. intros en Hen. exists en. split; [|done].
  by rewrite <- (sort_by_perm sort_key_cmp rebuilt), <- Heq, (sort_by_perm sort_key_cmp before).
Qed.

Lemma repair_spec run d rebuilt :
  rebuild_index_from_containers d = Ok rebuilt -> Forall wf_entry rebuilt ->
  exists report saved d', repair_index_from_containers (save_lost_ids run) d = (Ok (report, saved), d') /\
    repaired d (default [] (d !! container_index_path)) rebuilt report d' /\
    rp_entries_after report = length rebuilt /\
    (exists replay, decode_index_records (default [] (d !! container_index_path)) 0 = Ok replay /\
       rp_already_correct report = Nat.eqb (ir_trailing_partial_bytes replay) 0 && negb (index_has_item_failure replay)
         && bool_decide (sort_by sort_key_cmp (ir_entries replay) = sort_by sort_key_cmp rebuilt) /\
       rp_lost_ids report = lost_ids_of (ir_entries replay) rebuilt) /\
    (rp_lost_ids report = [] -> saved = None).
Proof using Type.
  intros Hr Hwf. unfold repair_index_from_containers. unfold io_bind at 1, io_read at 1, read_file_if_exists.
  destruct (decode_index_total (default [] (d !! container_index_path))) as [replay Hd].
  unfold io_bind at 1, io_lift at 1. rewrite Hd. unfold io_bind at 1, io_read at 1. rewrite Hr.
  destruct (count_changes _ _) as [rel rec]. unfold io_bind at 1, io_lift at 1. rewrite encode_entries by done.
  set (ac := _ && bool_decide _). set (lost := lost_ids_of _ _).
  assert (Hsv : exists saved d1, (match lost with [] => io_ret None | _ => do! s := save_lost_ids run lost in io_ret (Some s) end) d
      = (Ok saved, d1) /\ (forall p, p <> LOG_PATH -> d1 !! p = d !! p) /\ (lost = [] -> d1 = d /\ saved = None)).
  { destruct lost as [|l0 lost']; [by eexists _, _|]. destruct (save_lost_ids_disk run (l0 :: lost') d) as (r & bytes & Hs).
    eexists _, _. unfold io_bind. rewrite Hs. split_and!; [done| |done]. intros p Hp. by rewrite lookup_insert_ne. }
  destruct Hsv as (saved & d1 & Hs & Hoth & Hsame). unfold io_bind at 1. rewrite Hs. unfold io_bind.
  destruct ac eqn:Hac.
  - eexists _, _, _. split; [done|]. split_and!; [|done| |apply Hsame].
    + split; [intros p _ Hp; by apply Hoth|]. cbn [rp_already_correct]. apply Hsame.
      unfold ac in Hac. apply andb_true_iff in Hac as [_ Hac]. case_bool_decide as Heq; [|done]. by apply sorted_equal_ids.
    + exists replay. split_and!; [done|by rewrite <- Hac|done].
  - eexists _, _, _. split; [done|]. split_and!; [|done| |apply Hsame].
    + split; [intros p Hp1 Hp2; rewrite lookup_insert_ne by done; by apply Hoth|]. cbn [rp_already_correct]. apply lookup_insert_eq.
    + exists replay. split_and!; [done|by rewrite <- Hac|done].
Qed.
End rebuild.

(** ** Properties *)

(** A reader never refuses while the containers are sound.  Whatever bytes the object index
    holds, when its replay reports damage or a torn tail (the state a crash between the two appends
    of a write leaves), the file store answers every read from the containers: with the last record
    written under that identifier, also one whose index entry was lost. *)
Theorem damaged_index_reads_containers `{Sha256} format d ws replay id :
  (forall t, t ∈ persisted_object_types -> sound_container format d t (ws t)) ->
  Z.of_nat (length (all_records ws)) < 2 ^ 32 ->
  replay_index d = Ok replay -> damaged_or_torn replay = true ->
  (file_read_object format None d id).1 = Ok (find_last_record id (all_records ws)).
Proof.
  intros Hall Hn Hr Hd. destruct (rebuild_spec format d ws Hall) as (rebuilt & Hrb & Hf).
  destruct (entries_for_sound _ _ _ _ Hf) as [Hs _]. pose proof (Forall2_length _ _ _ Hf) as Hl.
  destruct (index_position_map_spec rebuilt) as (m & Hm & Hrep); [lia|].
  unfold file_read_object, resolve_cached, current_index_file_length, stat_size_if_exists, resolve_object_location_entries.
  rewrite Hr, Hd, Hrb, Hm, (proj1 (Hrep id)). cbn [fst snd].
  pose proof (sound_read_entry format d rebuilt id Hs) as Hre. unfold index_reader in Hre.
  rewrite (abs_read_records _ _ _ _ _ Hf) in Hre.
  by destruct (find_last_entry id rebuilt) as [entry|].
Qed.

(** Reads through an index whose entries are the rebuilt ones in any order. *)
Lemma permuted_reads `{Sha256} format d rebuilt records replay : Forall2 (entry_for format d) rebuilt records -> Z.of_nat (length rebuilt) < 2 ^ 32 ->
  replay_index d = Ok replay -> damaged_or_torn replay = false -> ir_entries replay ≡ₚ rebuilt ->
  (forall id, (file_read_object format None d id).1 = Ok (abs_read d (ir_entries replay) id)) /\
  (forall id env, abs_read d (ir_entries replay) id = Some env -> env ∈ records /\ object_id env = id) /\
  (forall env, env ∈ records -> is_Some (abs_read d (ir_entries replay) (object_id env))).
Proof.
  intros Hf Hl Hr Hd Hp. destruct (entries_for_sound _ _ _ _ Hf) as [Hs _]. assert (Hs' : Forall (entry_sound format d) (ir_entries replay)) by by rewrite Hp.
  assert (Hrec : forall entry, entry ∈ ir_entries replay -> exists env, env ∈ records /\ read_object_envelope_at d entry = Ok env /\ object_id env = ie_object_id entry).
  { intros entry He. rewrite Hp in He. apply list_elem_of_lookup in He as (k & Hk). destruct (Forall2_lookup_l _ _ _ _ _ Hf Hk) as (env & Henv & Hra & Hid & _).
    exists env. split_and!; [by eapply list_elem_of_lookup_2|by apply read_record_at|done]. }
  split_and!.
  - intros id. destruct (index_position_map_spec (ir_entries replay)) as (m & Hm & Hrep); [rewrite Hp; lia|].
    unfold file_read_object, resolve_cached, current_index_file_length, stat_size_if_exists, resolve_object_location_entries. rewrite Hr, Hd, Hm, (proj1 (Hrep id)). cbn [fst snd].
    pose proof (sound_read_entry format d (ir_entries replay) id Hs') as Hre. unfold index_reader in Hre. by destruct (find_last_entry id (ir_entries replay)).
  - intros id env. unfold abs_read. destruct (find_last_entry id (ir_entries replay)) as [entry|] eqn:He; [|done]. apply find_last_some in He as [Hin <-].
    destruct (Hrec entry Hin) as (env' & Hin' & -> & Hid). intros He. injection He as <-. by split.
  - intros env Henv. apply list_elem_of_lookup in Henv as (k & Hk). destruct (Forall2_lookup_r _ _ _ _ _ Hf Hk) as (entry & Hentry & _ & Hid & _).
    assert (Hin : entry ∈ ir_entries replay) by (rewrite Hp; by eapply list_elem_of_lookup_2). unfold abs_read, find_last_entry.
    destruct (find _ (rev (ir_entries replay))) as [entry'|] eqn:Hfind.
    + apply find_some in Hfind as [Hin' _]. apply in_rev, list_elem_of_In in Hin'. destruct (Hrec entry' Hin') as (env' & _ & -> & _). by eexists.
    + exfalso. pose proof (find_none _ _ Hfind entry) as Hn. rewrite <- in_rev, <- list_elem_of_In in Hn. specialize (Hn Hin). by rewrite bool_decide_true in Hn.
Qed.

Lemma replay_index_decodes `{Sha256} d replay : decode_index_records (default [] (d !! container_index_path)) 0 = Ok replay ->
  zlen (default [] (d !! container_index_path)) < 2 ^ 64 -> replay_index d = Ok replay.
Proof.
  unfold replay_index, replay_index_with_extent. destruct (d !! container_index_path) as [bytes|]; change (default [] (Some ?x)) with x; change (default [] None) with (@nil byte).
  - intros -> Hl. unfold len_to_u64, zlen in *. destruct (Z.ltb_spec (Z.of_nat (length bytes - ir_trailing_partial_bytes replay)) (2 ^ 64)); [done|lia].
  - intros Hd _. change (decode_index_records [] 0) with (Ok (E := PrikkError) empty_replay) in Hd. exact Hd.
Qed.

(** C33: a repair of the object index on sound containers.  Whatever bytes the index holds, the repair
    succeeds and changes no container.  Afterwards the store answers every read with a record of that
    identifier from the containers when there is one, and with none when there is none; when the index was
    not taken for correct, the answer is the last record of the identifier and the store's invariant holds.
    The repair is idempotent: run again it reports the index as correct, loses nothing and changes nothing. *)
Theorem repair_restores_store `{Sha256} format run d ws :
  (forall t, t ∈ persisted_object_types -> sound_container format d t (ws t)) ->
  Z.of_nat (length (all_records ws)) < 2 ^ 32 -> zlen (default [] (d !! container_index_path)) < 2 ^ 64 -> read_repository_format d = Ok format ->
  exists report saved d', repair_index_from_containers (save_lost_ids run) d = (Ok (report, saved), d') /\
    (forall p, p <> container_index_path -> p <> LOG_PATH -> d' !! p = d !! p) /\
    (exists found : ObjectId -> option ObjectEnvelope,
       (forall id, (file_read_object format None d' id).1 = Ok (found id)) /\
       (forall id env, found id = Some env -> env ∈ all_records ws /\ object_id env = id) /\
       (forall env, env ∈ all_records ws -> is_Some (found (object_id env))) /\
       (rp_already_correct report = false -> (forall id, found id = find_last_record id (all_records ws)) /\ exists es', StoreInv format d' es')) /\
    (exists report', repair_index_from_containers (save_lost_ids run) d' = (Ok (report', None), d') /\
       rp_already_correct report' = true /\ rp_lost_ids report' = []).
Proof.
  intros Hall Hn Hsize Hfmt. destruct (rebuild_spec format d ws Hall) as (rebuilt & Hrb & Hf).
  destruct (entries_for_sound _ _ _ _ Hf) as [Hs Hwf]. pose proof (Forall2_length _ _ _ Hf) as Hl.
  destruct (repair_spec run d rebuilt Hrb Hwf) as (report & saved & d' & Hrep & [Hoth Hidx] & _ & (replay & Hdec & Hac & Hlost) & _).
  exists report, saved, d'.
  assert (Hcon : forall t, d' !! container_slot_path t SlotA = d !! container_slot_path t SlotA).
  { intros t. apply Hoth; [apply container_path_not_index|apply (log_path_distinct t SlotA)]. }
  assert (Hf' : Forall2 (entry_for format d') rebuilt (all_records ws)) by (by eapply entries_for_ext).
  assert (Hclean : exists replay', decode_index_records (default [] (d' !! container_index_path)) 0 = Ok replay' /\ zlen (default [] (d' !! container_index_path)) < 2 ^ 64 /\
    damaged_or_torn replay' = false /\ sort_by sort_key_cmp (ir_entries replay') = sort_by sort_key_cmp rebuilt /\ (rp_already_correct report = false -> ir_entries replay' = rebuilt)).
  { destruct (rp_already_correct report) eqn:Hc.
    - subst d'. exists replay. symmetry in Hac. apply andb_true_iff in Hac as [[Ht Hi]%andb_true_iff Heq]. case_bool_decide as Heq'; [|done]. split_and!; [done|done| |done|done].
      unfold damaged_or_torn. rewrite Ht. by destruct (index_has_item_failure replay).
    - rewrite Hidx. exists (mkIndexReplay rebuilt 0 (index_outcomes 0 (length rebuilt))). split_and!; [by apply rebuilt_decodes; [|lia]| |apply rebuilt_clean|done|done].
      change (default [] (Some ?x)) with x. unfold zlen. rewrite enc_index_concat_length by done. assert (Hfl : (INDEX_FRAME_LEN <= 200)%nat) by (vm_compute; lia). nia. }
  destruct Hclean as (replay' & Hdec' & Hsz' & Hdam & Hsort & Hsame).
  assert (Hperm : ir_entries replay' ≡ₚ rebuilt) by (by rewrite <- (sort_by_perm sort_key_cmp rebuilt), <- Hsort, (sort_by_perm sort_key_cmp (ir_entries replay'))).
  destruct (permuted_reads format d' rebuilt (all_records ws) replay' Hf' ltac:(lia) (replay_index_decodes _ _ Hdec' Hsz') Hdam Hperm) as (Hr1 & Hr2 & Hr3).
  split_and!; [done|done| |].
  - exists (abs_read d' (ir_entries replay')). split_and!; [done|done|done|]. intros Hnc. rewrite (Hsame Hnc). rewrite Hnc in Hidx. split; [intros id; by apply (abs_read_records format)|].
    exists rebuilt. split; try done; [lia|by apply (entries_for_sound format d' rebuilt (all_records ws))| |rewrite (format_unchanged d); [done|]; by apply Hoth].
    intros t Ht. rewrite Hcon. destruct (Hall t Ht) as (magic & torn & _ & -> & _). eauto.
  - destruct (repair_spec run d' rebuilt) as (report' & saved' & d'' & Hrep' & [_ Hidx'] & _ & (replay'' & Hdec'' & Hac' & Hlost') & Hnone); [rewrite (rebuild_ext d d' Hcon); done|done|].
    rewrite Hdec' in Hdec''. apply Ok_inj in Hdec'' as <-. unfold damaged_or_torn in Hdam. apply orb_false_iff in Hdam as [Hd1 Hd2%negb_false_iff].
    rewrite Hd1, Hd2, bool_decide_true in Hac' by done. assert (Hnl : rp_lost_ids report' = []) by (rewrite Hlost'; by apply sorted_equal_ids).
    cbn [negb andb] in Hac'. rewrite Hac' in Hidx'. subst d''. exists report'. split; [by rewrite Hrep', (Hnone Hnl)|done].
Qed.

(** ** Witnesses: a crash between the two appends of a write *)

#[local] Existing Instance hash_mod_p.

(** The record is complete, its index entry is torn. *)
Definition crashed_disk : Disk :=
  <[container_slot_path Blob SlotA := witness_frame]> (<[container_index_path := take 60 (enc_index zero_entry)]> empty_disk).

Definition crashed_records (t : ObjectType) : list ObjectEnvelope :=
  match t with Blob => [witness_record] | _ => [] end.

Lemma crashed_containers t : t ∈ persisted_object_types -> sound_container V7 crashed_disk t (crashed_records t).
Proof.
  intros Ht. assert (Hm : exists magic, container_magic t = Ok magic).
  { unfold persisted_object_types in Ht. rewrite !elem_of_cons, elem_of_nil in Ht.
    destruct Ht as [->|[->|[->|[->|[->|[->|[->|[]]]]]]]]; by eexists. }
  destruct Hm as [magic Hm]. pose proof (interrupted_nil t magic Hm) as Hi. exists magic, []. split; [done|].
  unfold persisted_object_types in Ht. rewrite !elem_of_cons, elem_of_nil in Ht.
  destruct Ht as [->|[->|[->|[->|[->|[->|[->|[]]]]]]]]; cbn in Hm; injection Hm as <-;
    (split; [vm_compute; reflexivity|]); (split; [exact Hi|]); (split; [vm_compute; reflexivity|]); try constructor.
  - split; [apply witness_storable|done].
  - constructor.
Qed.

Lemma damaged_index_reads_containers_witness :
  (file_read_object V7 None crashed_disk (object_id witness_record)).1 = Ok (Some witness_record).
Proof.
  rewrite (damaged_index_reads_containers V7 crashed_disk crashed_records
    (mkIndexReplay [] 60 []) (object_id witness_record) crashed_containers); [vm_compute; reflexivity..].
Defined.

Lemma repair_restores_store_witness :
  exists report saved d', repair_index_from_containers (save_lost_ids (replicate 8 x00)) crashed_disk = (Ok (report, saved), d') /\
    (exists env, (file_read_object V7 None d' (object_id witness_record)).1 = Ok (Some env) /\ env ∈ [witness_record]) /\
    exists report', repair_index_from_containers (save_lost_ids (replicate 8 x00)) d' = (Ok (report', None), d') /\
      rp_already_correct report' = true.
Proof.
  destruct (repair_restores_store V7 (replicate 8 x00) crashed_disk crashed_records crashed_containers)
    as (report & saved & d' & Hr & _ & (found & Hf & Hs & Hc & _) & report' & Hr' & Hac & _); [vm_compute; reflexivity|vm_compute; reflexivity|vm_compute; reflexivity|].
  exists report, saved, d'. split; [exact Hr|]. split.
  - destruct (Hc witness_record) as [env He]; [left|]. exists env. rewrite Hf, He. split; [reflexivity|]. exact (proj1 (Hs _ _ He)).
  - exists report'. split; [exact Hr'|exact Hac].
Defined.
