(* ===== verification/LineDiff.v ===== *)
(** * The line diff (crates/prikk-store/src/line_diff.rs)

    Myers' linear-space shortest edit script over lines within a work bound, and the unified hunks that
    render it.  [isize] values are [Z] (they stay below the sizes of the inputs); positions in lines are
    [nat]. *)

From S2P Require Import Prelude.

Definition CONTEXT_LINES : nat := 3.
Definition WORK_BOUND_STEPS : Z := 45000000.

Inductive LineOp : Type := Equal | Delete | Insert.

#[global] Instance LineOp_eq_dec : EqDecision LineOp.
Proof. solve_decision. Defined.

Record EditScript : Type := mkScript { es_ops : list LineOp; es_minimal : bool; es_steps : Z }.

Record Budget : Type := mkDiffBudget { db_spent : Z; db_limit : Z; db_exhausted : bool }.

(** [text.split_inclusive('\n')]; [current] is the line being read, in reverse. *)
Fixpoint split_lines_loop (current text : list byte) : list (list byte) :=
  match text with
  | [] => match current with [] => [] | _ => [rev current] end
  | b :: text' =>
      if bool_decide (b = x0a) then rev (b :: current) :: split_lines_loop [] text'
      else split_lines_loop (b :: current) text'
  end.

Definition split_lines (text : list byte) : list (list byte) := split_lines_loop [] text.

(** ** Diagonals *)

Record Diagonals : Type := mkDiagonals { dg_values : list Z; dg_offset : Z }.

Definition Diagonals_new (max_d : Z) : Diagonals :=
  mkDiagonals (replicate (Z.to_nat (2 * max_d + 3)) 0) (max_d + 1).

Definition slot (v : Diagonals) (k : Z) : option nat :=
  let index := k + dg_offset v in if index <? 0 then None else Some (Z.to_nat index).

Definition dg_get (v : Diagonals) (k : Z) : Z :=
  match slot v k with None => 0 | Some index => default 0 (dg_values v !! index) end.

Definition dg_set (v : Diagonals) (k x : Z) : Diagonals :=
  match slot v k with
  | None => v
  | Some index => mkDiagonals (<[index := x]> (dg_values v)) (dg_offset v)
  end.

(** ** The middle snake *)

Definition same (a : list nat) (x : Z) (b : list nat) (y : Z) : bool :=
  if (x <? 0) || (y <? 0) then false
  else match a !! Z.to_nat x, b !! Z.to_nat y with
       | Some p, Some q => Nat.eqb p q
       | _, _ => false
       end.

Inductive Snake : Type :=
| Found (x y u v : nat)
| Unresolved.

Definition snake_from (x y u v : Z) : Snake :=
  if (x <? 0) || (y <? 0) || (u <? 0) || (v <? 0) then Unresolved
  else Found (Z.to_nat x) (Z.to_nat y) (Z.to_nat u) (Z.to_nat v).

(** [while x < n && y < m && matches(x, y)]: both move on. *)
Fixpoint extend (fuel : nat) (n m : Z) (matches : Z -> Z -> bool) (x y : Z) : Z * Z :=
  match fuel with
  | O => (x, y)
  | S fuel' =>
      if (x <? n) && (y <? m) && matches x y then extend fuel' n m matches (x + 1) (y + 1) else (x, y)
  end.

(** What one pass over the diagonals gives: new diagonals and the steps spent, or the snake it returns. *)
Inductive Row : Type :=
| RowDone (v : Diagonals) (spent : Z)
| RowReturn (s : Snake) (spent : Z).

(** The inner [while k <= d]: [answer k x start_x y start_y v] is the snake to return, if any. *)
Fixpoint row (fuel : nat) (n m : Z) (matches : Z -> Z -> bool) (limit : Z)
    (answer : Z -> Z -> Z -> Z -> Z -> Diagonals -> option Snake) (d k : Z) (v : Diagonals) (spent : Z) : Row :=
  match fuel with
  | O => RowDone v spent
  | S fuel' =>
      if d <? k then RowDone v spent
      else
        let x :=
          if (k =? - d) || (negb (k =? d) && (dg_get v (k - 1) <? dg_get v (k + 1)))
          then dg_get v (k + 1) else dg_get v (k - 1) + 1 in
        let y := x - k in
        let start_x := x in
        let start_y := y in
        let '(x, y) := extend (Z.to_nat n) n m matches x y in
        let v := dg_set v k x in
        let spent := Z.min (spent + 1 + (x - start_x)) (2 ^ 64 - 1) in
        match answer k x start_x y start_y v with
        | Some s => RowReturn s spent
        | None =>
            if limit <? spent then RowReturn Unresolved spent
            else row fuel' n m matches limit answer d (k + 2) v spent
        end
  end.

Definition forward_answer (n delta d : Z) (odd : bool) (backward : Diagonals)
    (k x start_x y start_y : Z) (forward : Diagonals) : option Snake :=
  if odd then
    let reverse_k := delta - k in
    if (- d <? reverse_k) && (reverse_k <? d) && (n <=? dg_get forward k + dg_get backward reverse_k)
    then Some (snake_from start_x start_y x y) else None
  else None.

Definition backward_answer (n m delta d : Z) (odd : bool) (forward : Diagonals)
    (k x start_x y start_y : Z) (backward : Diagonals) : option Snake :=
  if odd then None
  else
    let forward_k := delta - k in
    if (- d <=? forward_k) && (forward_k <=? d) && (n <=? dg_get backward k + dg_get forward forward_k)
    then Some (snake_from (n - x) (m - y) (n - start_x) (m - start_y)) else None.

(** [for d in 0..=max]. *)
Fixpoint snake_loop (fuel : nat) (a b : list nat) (n m delta : Z) (odd : bool) (limit d : Z)
    (forward backward : Diagonals) (spent : Z) : Snake * Z :=
  match fuel with
  | O => (Unresolved, spent)
  | S fuel' =>
      match row (S (Z.to_nat d)) n m (fun x y => same a x b y) limit
              (forward_answer n delta d odd backward) d (- d) forward spent with
      | RowReturn s spent => (s, spent)
      | RowDone forward spent =>
          match row (S (Z.to_nat d)) n m (fun x y => same a (n - 1 - x) b (m - 1 - y)) limit
                  (backward_answer n m delta d odd forward) d (- d) backward spent with
          | RowReturn s spent => (s, spent)
          | RowDone backward spent => snake_loop fuel' a b n m delta odd limit (d + 1) forward backward spent
          end
      end
  end.

Definition middle_snake (a b : list nat) (budget : Budget) : Snake * Budget :=
  let n := Z.of_nat (length a) in
  let m := Z.of_nat (length b) in
  let delta := n - m in
  let odd := negb (Z.rem delta 2 =? 0) in
  let max := (n + m + 1) / 2 in
  let forward := dg_set (Diagonals_new max) 1 0 in
  let backward := dg_set (Diagonals_new max) 1 0 in
  let '(s, spent) := snake_loop (S (Z.to_nat max)) a b n m delta odd (db_limit budget) 0 forward backward (db_spent budget) in
  (s, mkDiffBudget spent (db_limit budget) (db_exhausted budget)).

(** ** Common pairs *)

Fixpoint common_prefix (a b : list nat) : nat :=
  match a, b with
  | p :: a', q :: b' => if Nat.eqb p q then S (common_prefix a' b') else 0
  | _, _ => 0
  end.

(** The [while suffix < .. && ..] loop. *)
Fixpoint common_suffix (fuel : nat) (a b : list nat) (prefix suffix : nat) : nat :=
  match fuel with
  | O => suffix
  | S fuel' =>
      if (suffix <? length a - prefix)%nat && (suffix <? length b - prefix)%nat
         && match a !! (length a - 1 - suffix)%nat, b !! (length b - 1 - suffix)%nat with
            | Some p, Some q => Nat.eqb p q
            | _, _ => false
            end
      then common_suffix fuel' a b prefix (S suffix) else suffix
  end.

(** [slice.get(lo..hi).unwrap_or_default()]. *)
Definition get_or_default {A} (l : list A) (lo hi : nat) : list A :=
  if (lo <=? hi)%nat && (hi <=? length l)%nat then take (hi - lo) (drop lo l) else [].

(** Pairs of consecutive positions from [(x, y)] on. *)
Definition diagonal_pairs (x y count : nat) : list (nat * nat) :=
  map (fun step => ((x + step)%nat, (y + step)%nat)) (seq 0 count).

(** [out] is what the call appends.  [None] is exhausted fuel: the recursion would not end. *)
Fixpoint common_pairs (fuel : nat) (a b : list nat) (a_offset b_offset : nat) (budget : Budget)
  : option (list (nat * nat) * Budget) :=
  match fuel with
  | O => None
  | S fuel' =>
      let prefix := common_prefix a b in
      let suffix := common_suffix (length a) a b prefix 0 in
      let middle_a := get_or_default a prefix (length a - suffix) in
      let middle_b := get_or_default b prefix (length b - suffix) in
      let out_prefix := diagonal_pairs a_offset b_offset prefix in
      let out_suffix := diagonal_pairs (a_offset + length a - suffix) (b_offset + length b - suffix) suffix in
      if (0 <? length middle_a)%nat && (0 <? length middle_b)%nat then
        let '(found, budget) := if db_exhausted budget then (Unresolved, budget) else middle_snake middle_a middle_b budget in
        match found with
        | Found x y u v =>
            match common_pairs fuel' (get_or_default middle_a 0 x) (get_or_default middle_b 0 y)
                    (a_offset + prefix) (b_offset + prefix) budget with
            | None => None
            | Some (before, budget) =>
                let snake := diagonal_pairs (a_offset + prefix + x) (b_offset + prefix + y) (u - x) in
                match common_pairs fuel' (get_or_default middle_a u (length middle_a)) (get_or_default middle_b v (length middle_b))
                        (a_offset + prefix + u) (b_offset + prefix + v) budget with
                | None => None
                | Some (behind, budget) => Some (out_prefix ++ before ++ snake ++ behind ++ out_suffix, budget)
                end
            end
        | Unresolved =>
            Some (out_prefix ++ out_suffix, mkDiffBudget (db_spent budget) (db_limit budget) true)
        end
      else Some (out_prefix ++ out_suffix, budget)
  end.

(** ** The edit script *)

(** [*ids.entry(line).or_insert(ids.len())]. *)
Definition intern (ids : gmap (list byte) nat) (line : list byte) : nat * gmap (list byte) nat :=
  match ids !! line with
  | Some id => (id, ids)
  | None => (size ids, <[line := size ids]> ids)
  end.

Fixpoint intern_all (ids : gmap (list byte) nat) (lines : list (list byte)) : list nat * gmap (list byte) nat :=
  match lines with
  | [] => ([], ids)
  | line :: lines' =>
      let '(id, ids) := intern ids line in
      let '(rest, ids) := intern_all ids lines' in
      (id :: rest, ids)
  end.

(** A vector of flags with those of [present] set. *)
Definition seen_flags (count : nat) (present : list nat) : list bool :=
  fold_left (fun seen id => <[id := true]> seen) present (replicate count false).

(** The positions from [lo] to [hi] whose identifier is shared. *)
Definition kept (ids : list nat) (shared : nat -> bool) (lo hi : nat) : list nat :=
  List.filter (fun index => match ids !! index with Some id => shared id | None => false end) (seq lo (hi - lo)).

(** The loop over the pairs: the operations, and where it stands in both sides. *)
Fixpoint script_ops (kept_left kept_right : list nat) (pairs : list (nat * nat)) (next_left next_right : nat)
  : list LineOp * nat * nat :=
  match pairs with
  | [] => ([], next_left, next_right)
  | (reduced_a, reduced_b) :: pairs' =>
      match kept_left !! reduced_a, kept_right !! reduced_b with
      | Some a, Some b =>
          let '(ops, nl, nr) := script_ops kept_left kept_right pairs' (S a) (S b) in
          (replicate (a - next_left) Delete ++ replicate (b - next_right) Insert ++ [Equal] ++ ops, nl, nr)
      | _, _ => script_ops kept_left kept_right pairs' next_left next_right
      end
  end.

Definition edit_script_within (left right : list (list byte)) (limit : Z) : option EditScript :=
  let '(left_ids, ids) := intern_all ∅ left in
  let '(right_ids, ids) := intern_all ids right in
  let prefix := common_prefix left_ids right_ids in
  let suffix := common_suffix (length left_ids) left_ids right_ids prefix 0 in
  let left_end := (length left_ids - suffix)%nat in
  let right_end := (length right_ids - suffix)%nat in
  let in_left := seen_flags (size ids) (get_or_default left_ids prefix left_end) in
  let in_right := seen_flags (size ids) (get_or_default right_ids prefix right_end) in
  let shared id := default false (in_left !! id) && default false (in_right !! id) in
  let kept_left := kept left_ids shared prefix left_end in
  let kept_right := kept right_ids shared prefix right_end in
  let reduced_left := omap (fun index => left_ids !! index) kept_left in
  let reduced_right := omap (fun index => right_ids !! index) kept_right in
  match common_pairs (S (length reduced_left + length reduced_right)) reduced_left reduced_right 0 0
          (mkDiffBudget 0 limit false) with
  | None => None
  | Some (pairs, budget) =>
      let '(ops, next_left, next_right) := script_ops kept_left kept_right pairs prefix prefix in
      Some (mkScript
        (replicate prefix Equal ++ ops ++ replicate (left_end - next_left) Delete
           ++ replicate (right_end - next_right) Insert ++ replicate suffix Equal)
        (negb (db_exhausted budget)) (db_spent budget))
  end.
