(* ===== verification/LineDiffThms.v ===== *)
(** * Theorems about the line diff (crates/prikk-store/src/line_diff.rs)

    The middle snake is a run of matching lines that splits the problem into strictly smaller ones, so
    the recursion ends; every script covers both sides exactly; applying the hunks gives the right side. *)

From S2P Require Import Prelude LineDiff.

(** ** Diagonals as functions *)

Definition dg_wf (max : Z) (v : Diagonals) : Prop :=
  length (dg_values v) = Z.to_nat (2 * max + 3) /\ dg_offset v = max + 1.

Lemma dg_new_wf max : dg_wf max (Diagonals_new max).
Proof. split; [apply length_replicate|done]. Qed.

Lemma dg_set_wf max v k x : dg_wf max v -> dg_wf max (dg_set v k x).
Proof. intros [Hl Ho]. unfold dg_set. destruct (slot v k); [|done]. split; [|done]. cbn. by rewrite length_insert. Qed.

Lemma dg_get_set max v k k' x :
  dg_wf max v -> - max - 1 <= k <= max + 1 -> - max - 1 <= k' ->
  dg_get (dg_set v k x) k' = if k' =? k then x else dg_get v k'.
Proof.
  intros [Hl Ho] Hk Hk'. unfold dg_get, dg_set, slot. rewrite Ho.
  destruct (Z.ltb_spec (k + (max + 1)) 0); [lia|]. cbn [dg_values dg_offset]. rewrite ?Ho.
  destruct (Z.ltb_spec (k' + (max + 1)) 0); [lia|]. destruct (Z.eqb_spec k' k) as [->|Hne].
  - rewrite list_lookup_insert_eq by lia. done.
  - rewrite list_lookup_insert_ne by lia. done.
Qed.

Lemma dg_get_new max k : dg_get (Diagonals_new max) k = 0.
Proof.
  unfold dg_get. destruct (slot _ k) as [i|]; [|done]. cbn.
  destruct (replicate (Z.to_nat (2 * max + 3)) 0 !! i) as [z|] eqn:Hz; [|done]. by apply lookup_replicate in Hz as [-> _].
Qed.

(** ** Following a snake *)

Lemma extend_run n m f : forall fuel x y, exists c, 0 <= c /\ extend fuel n m f x y = (x + c, y + c) /\
  forall i, 0 <= i < c -> x + i < n /\ y + i < m /\ f (x + i) (y + i) = true.
Proof.
  induction fuel as [|fuel IH]; intros x y; cbn [extend].
  { exists 0. rewrite !Z.add_0_r. split_and!; [lia|done|lia]. }
  destruct ((x <? n) && (y <? m) && f x y) eqn:He.
  2: { exists 0. rewrite !Z.add_0_r. split_and!; [lia|done|lia]. }
  apply andb_true_iff in He as [[Hx%Z.ltb_lt Hy%Z.ltb_lt]%andb_true_iff Hf].
  destruct (IH (x + 1) (y + 1)) as (c & Hc & -> & Hi). exists (c + 1). split_and!; [lia|f_equal; lia|].
  intros i Hi'. destruct (Z.eq_dec i 0) as [->|]; [by rewrite !Z.add_0_r|].
  replace (x + i) with (x + 1 + (i - 1)) by lia. replace (y + i) with (y + 1 + (i - 1)) by lia. apply Hi. lia.
Qed.

(** The end of the snake that starts at [sx] on diagonal [k]. *)
Definition reach (n m : Z) (f : Z -> Z -> bool) (k sx : Z) : Z := (extend (Z.to_nat n) n m f sx (sx - k)).1.

Lemma reach_spec n m f k sx :
  sx <= reach n m f k sx /\ extend (Z.to_nat n) n m f sx (sx - k) = (reach n m f k sx, reach n m f k sx - k) /\
  forall i, sx <= i < reach n m f k sx -> i < n /\ i - k < m /\ f i (i - k) = true.
Proof.
  unfold reach. destruct (extend_run n m f (Z.to_nat n) sx (sx - k)) as (c & Hc & -> & Hi). cbn.
  split_and!; [lia|f_equal; lia|]. intros i Hir. specialize (Hi (i - sx)).
  replace (sx + (i - sx)) with i in Hi by lia. replace (sx - k + (i - sx)) with (i - k) in Hi by lia. apply Hi. lia.
Qed.

Lemma reach_still n m f k sx : f sx (sx - k) = false -> reach n m f k sx = sx.
Proof.
  intros Hf. unfold reach. destruct (Z.to_nat n) as [|fuel]; cbn [extend]; [done|]. by rewrite Hf, andb_false_r.
Qed.

(** ** One row *)

(** Where diagonal [k] of row [d] starts. *)
Definition start (v : Z -> Z) (d k : Z) : Z :=
  if (k =? - d) || (negb (k =? d) && (v (k - 1) <? v (k + 1))) then v (k + 1) else v (k - 1) + 1.

Lemma start_cases v d k : - d <= k <= d -> 0 <= d ->
  (start v d k = v (k + 1) /\ (d = 0 \/ k + 1 <= d)) \/ (start v d k = v (k - 1) + 1 /\ - d < k).
Proof.
  intros Hk Hd. unfold start. destruct (Z.eqb_spec k (- d)) as [->|]; cbn [orb]; [left; split; [done|lia]|].
  destruct (Z.eqb_spec k d) as [->|]; cbn [negb andb]; [right; split; [done|lia]|].
  destruct (_ <? _); [left|right]; (split; [done|lia]).
Qed.

Section rows.
Context (max n m : Z) (f : Z -> Z -> bool) (limit : Z).
Context (answer : Z -> Z -> Z -> Z -> Z -> Diagonals -> option Snake) (A : Z -> Z -> Z -> option Snake).
Context (Hanswer : forall k x sx v, dg_get v k = x -> answer k x sx (x - k) (sx - k) v = A k x sx).

(** From diagonal [k] on: what a finished row holds, and what a returned snake is. *)
Lemma row_spec v0 d : 0 <= d <= max -> forall fuel k v spent,
  dg_wf max v -> - d <= k -> Z.Even (d - k) -> d < k + 2 * Z.of_nat fuel ->
  (forall k', - max - 1 <= k' <= max + 1 -> Z.Odd (d - k') -> dg_get v k' = v0 k') ->
  match row fuel n m f limit answer d k v spent with
  | RowDone v' _ =>
      dg_wf max v' /\
      (forall k', - max - 1 <= k' <= max + 1 -> (Z.Odd (d - k') \/ k' < k \/ d < k') -> dg_get v' k' = dg_get v k') /\
      (forall k', k <= k' <= d -> Z.Even (d - k') ->
         dg_get v' k' = reach n m f k' (start v0 d k') /\ A k' (dg_get v' k') (start v0 d k') = None)
  | RowReturn s _ =>
      s = Unresolved \/
      exists k', k <= k' <= d /\ Z.Even (d - k') /\ A k' (reach n m f k' (start v0 d k')) (start v0 d k') = Some s
  end.
Proof using Hanswer.
  intros Hd. induction fuel as [|fuel IH]; intros k v spent Hwf Hk Hpar Hf Hodd; cbn [row].
  { split_and!; [done|done|intros; lia]. }
  destruct (Z.ltb_spec d k) as [Hdk|Hdk]. { split_and!; [done|done|intros; lia]. }
  assert (Hstart : (if (k =? - d) || (negb (k =? d) && (dg_get v (k - 1) <? dg_get v (k + 1)))
                    then dg_get v (k + 1) else dg_get v (k - 1) + 1) = start v0 d k).
  { unfold start. destruct Hpar as [p Hp]. rewrite !Hodd; [done|lia|exists (p - 1); lia|lia|exists p; lia]. }
  rewrite Hstart. set (sx := start v0 d k). destruct (reach_spec n m f k sx) as (Hge & -> & _).
  set (x := reach n m f k sx) in *. set (v1 := dg_set v k x).
  assert (Hget : forall k', - max - 1 <= k' -> dg_get v1 k' = if k' =? k then x else dg_get v k').
  { intros k' Hk'. apply (dg_get_set max); [done|lia|done]. }
  rewrite (Hanswer k x sx v1) by (rewrite Hget by lia; by rewrite Z.eqb_refl).
  destruct (A k x sx) as [s|] eqn:Ha. { right. exists k. split_and!; [lia|lia|done|done]. }
  destruct (limit <? _); [by left|].
  specialize (IH (k + 2) v1 (Z.min (spent + 1 + (x - sx)) (2 ^ 64 - 1))).
  assert (Hev : Z.Even (d - (k + 2))) by (destruct Hpar as [p Hp]; exists (p - 1); lia).
  assert (Hodd1 : forall k', - max - 1 <= k' <= max + 1 -> Z.Odd (d - k') -> dg_get v1 k' = v0 k').
  { intros k' Hr Ho. rewrite Hget by lia. destruct (Z.eqb_spec k' k) as [->|]; [|by apply Hodd].
    destruct Ho as [q Hq], Hpar as [p Hp]. lia. }
  specialize (IH (dg_set_wf _ _ _ _ Hwf) ltac:(lia) Hev ltac:(lia) Hodd1).
  destruct (row fuel n m f limit answer d (k + 2) v1 _) as [v' sp|s sp].
  - destruct IH as (Hwf' & Hsame & Hnew). split_and!; [done| |].
    + intros k' Hr Hc. rewrite Hsame; [|done|destruct Hc as [?|[?|?]]; [by left|right; left; lia|right; by right]].
      rewrite Hget by lia. destruct (Z.eqb_spec k' k) as [->|]; [|done].
      destruct Hc as [[q Hq]|?]; [destruct Hpar as [p Hp]; lia|lia].
    + intros k' Hr He. destruct (Z.eq_dec k' k) as [->|Hne].
      * rewrite Hsame by (lia || (right; left; lia)). rewrite Hget by lia. by rewrite Z.eqb_refl.
      * apply Hnew; [|done]. destruct He as [q Hq], Hpar as [p Hp]. lia.
  - destruct IH as [->|(k' & Hr & He & Hs)]; [by left|right]. exists k'. split_and!; [lia|lia|done|done].
Qed.
End rows.

(** ** The invariant of the diagonals *)

Record diag_inv (max : Z) (v : Diagonals) (d : Z) : Prop := {
  di_wf : dg_wf max v;
  di_nonneg : forall k, - max - 1 <= k <= max + 1 -> 0 <= dg_get v k;
  di_far : forall k, 1 <= d -> - (d - 1) <= k <= d - 1 -> Z.Odd (d - k) -> d - 1 <= 2 * dg_get v k - k;
  di_one : 2 <= d -> 1 <= dg_get v 1;
  di_zero : d = 1 -> dg_get v 0 = 0;
  di_init : d = 0 -> dg_get v 1 = 0;
}.

Lemma diag_inv_init max : 0 <= max -> diag_inv max (dg_set (Diagonals_new max) 1 0) 0.
Proof.
  intros Hm. assert (Hg : forall k, - max - 1 <= k -> dg_get (dg_set (Diagonals_new max) 1 0) k = 0).
  { intros k Hk. rewrite (dg_get_set max) by (apply dg_new_wf || lia). rewrite dg_get_new. by destruct (k =? 1). }
  split; [apply dg_set_wf, dg_new_wf|intros k Hk; rewrite Hg; lia|lia|lia|lia|intros _; rewrite Hg; lia].
Qed.

Section row_inv.
Context (max d : Z) (v : Diagonals) (Hd : 0 <= d <= max) (Hinv : diag_inv max v d).

Lemma start_nonneg k : - d <= k <= d -> 0 <= start (dg_get v) d k.
Proof using Hinv Hd.
  intros Hk. destruct (start_cases (dg_get v) d k Hk ltac:(lia)) as [[-> _]|[-> _]].
  - apply (di_nonneg _ _ _ Hinv). lia.
  - pose proof (di_nonneg _ _ _ Hinv (k - 1)). lia.
Qed.

(** A path with [d] edits ends at a point with [x + y >= d]. *)
Lemma start_far k : - d <= k <= d -> Z.Even (d - k) -> d <= 2 * start (dg_get v) d k - k.
Proof using Hinv Hd.
  intros Hk [p Hp]. destruct (Z.eq_dec d 0) as [H0|H0]; [pose proof (start_nonneg k Hk); lia|].
  destruct (start_cases (dg_get v) d k Hk ltac:(lia)) as [[-> Hc]|[-> Hc]].
  - pose proof (di_far _ _ _ Hinv (k + 1) ltac:(lia) ltac:(lia) ltac:(exists (p - 1); lia)). lia.
  - pose proof (di_far _ _ _ Hinv (k - 1) ltac:(lia) ltac:(lia) ltac:(exists p; lia)). lia.
Qed.

Lemma start_one : 1 <= d -> 1 <= start (dg_get v) d 1.
Proof using Hinv Hd.
  intros H1. unfold start. destruct (Z.eqb_spec 1 (- d)); [lia|]. cbn [orb].
  pose proof (di_nonneg _ _ _ Hinv 0 ltac:(lia)). replace (1 - 1) with 0 by lia.
  destruct (Z.eqb_spec 1 d); cbn [negb andb]; [lia|]. destruct (Z.ltb_spec (dg_get v 0) (dg_get v (1 + 1))); lia.
Qed.

(** A finished row keeps the invariant. *)
Lemma row_keeps n m f v' :
  f 0 0 = false -> dg_wf max v' ->
  (forall k', - max - 1 <= k' <= max + 1 -> (Z.Odd (d - k') \/ k' < - d \/ d < k') -> dg_get v' k' = dg_get v k') ->
  (forall k', - d <= k' <= d -> Z.Even (d - k') -> dg_get v' k' = reach n m f k' (start (dg_get v) d k')) ->
  diag_inv max v' (d + 1).
Proof using Hinv Hd.
  intros Hf Hwf Hsame Hnew.
  assert (Hge : forall k, - d <= k <= d -> Z.Even (d - k) -> start (dg_get v) d k <= dg_get v' k).
  { intros k Hk He. rewrite Hnew by done. apply reach_spec. }
  assert (Hpar : forall k, Z.Even (d - k) \/ Z.Odd (d - k)) by (intros; apply Z.Even_or_Odd).
  split; [done| | | | |lia].
  - intros k Hk. destruct (Hpar k) as [He|Ho]; [|rewrite Hsame by (done || by left); by apply Hinv].
    destruct (Z.le_gt_cases (- d) k) as [H1|H1]; [destruct (Z.le_gt_cases k d) as [H2|H2]|].
    + pose proof (Hge k ltac:(lia) He). pose proof (start_nonneg k ltac:(lia)). lia.
    + rewrite Hsame by (lia || (right; right; lia)). by apply Hinv.
    + rewrite Hsame by (lia || (right; left; lia)). by apply Hinv.
  - intros k _ Hk [p Hp]. assert (He : Z.Even (d - k)) by (exists p; lia).
    pose proof (Hge k ltac:(lia) He). pose proof (start_far k ltac:(lia) He). lia.
  - intros H2. destruct (Hpar 1) as [He|Ho].
    + pose proof (Hge 1 ltac:(lia) He). pose proof (start_one ltac:(lia)). lia.
    + rewrite Hsame by (lia || by left). apply Hinv. destruct Ho as [p Hp]. lia.
  - intros H1. assert (d = 0) as H0 by lia. rewrite Hnew by (lia || (exists 0; lia)).
    assert (Hs : start (dg_get v) d 0 = 0).
    { unfold start. rewrite H0. cbn. by apply Hinv. }
    rewrite Hs. apply reach_still. by rewrite Z.sub_0_r.
Qed.
End row_inv.

(** ** Snakes *)

(** A snake is a run of matching elements that splits off strictly smaller problems. *)
Definition good_snake (a b : list nat) (s : Snake) : Prop :=
  match s with
  | Unresolved => True
  | Found x y u v =>
      (exists c, u = (x + c)%nat /\ v = (y + c)%nat /\
         forall i, (i < c)%nat -> exists p, a !! (x + i)%nat = Some p /\ b !! (y + i)%nat = Some p) /\
      ~ (x = length a /\ y = length b) /\ (0 < u + v)%nat
  end.

Lemma same_inv a b x y : same a x b y = true ->
  0 <= x /\ 0 <= y /\ exists p, a !! Z.to_nat x = Some p /\ b !! Z.to_nat y = Some p.
Proof.
  unfold same. destruct (Z.ltb_spec x 0); [done|]. destruct (Z.ltb_spec y 0); [done|]. cbn [orb].
  destruct (a !! Z.to_nat x) as [p|]; [|done]. destruct (b !! Z.to_nat y) as [q|]; [|done].
  intros Hpq%Nat.eqb_eq. subst q. split_and!; [lia|lia|]. by exists p.
Qed.

Lemma snake_from_good a b x y c :
  0 <= c -> (forall i, 0 <= i < c -> exists p, a !! Z.to_nat (x + i) = Some p /\ b !! Z.to_nat (y + i) = Some p) ->
  ~ (x = Z.of_nat (length a) /\ y = Z.of_nat (length b)) ->
  (0 <= x + c -> 0 <= y + c -> 0 < x + c + (y + c)) ->
  good_snake a b (snake_from x y (x + c) (y + c)).
Proof.
  intros Hc Hm Hne Hpos. unfold snake_from. destruct (_ || _ || _ || _) eqn:Hb; [done|].
  apply orb_false_iff in Hb as [[[Hx%Z.ltb_ge Hy%Z.ltb_ge]%orb_false_iff Hu%Z.ltb_ge]%orb_false_iff Hv%Z.ltb_ge].
  split_and!; [|lia|lia]. exists (Z.to_nat c). split_and!; [lia|lia|]. intros i Hi.
  destruct (Hm (Z.of_nat i) ltac:(lia)) as (p & H1 & H2). exists p.
  replace (Z.to_nat x + i)%nat with (Z.to_nat (x + Z.of_nat i)) by lia.
  by replace (Z.to_nat y + i)%nat with (Z.to_nat (y + Z.of_nat i)) by lia.
Qed.

Section snakes.
Context (a b : list nat) (limit max : Z).
Let n := Z.of_nat (length a).
Let m := Z.of_nat (length b).
Let delta := n - m.
Let odd := negb (Z.rem delta 2 =? 0).
Context (Hn : 1 <= n) (Hm : 1 <= m).
(** The ends of the inputs are trimmed. *)
Context (Hfirst : same a 0 b 0 = false) (Hlast : same a (n - 1) b (m - 1) = false).

Let fwd := fun x y => same a x b y.
Let bwd := fun x y => same a (n - 1 - x) b (m - 1 - y).

Lemma odd_parity : (odd = true -> Z.Odd delta) /\ (odd = false -> Z.Even delta).
Proof using Type.
  unfold odd. destruct (Z.eqb_spec (Z.rem delta 2) 0) as [Hr|Hr]; (split; [intros Ho; try done|intros Ho; try done]).
  - apply Z.rem_divide in Hr as [q Hq]; [|lia]. exists q. lia.
  - pose proof (Z.quot_rem' delta 2). pose proof (Z.rem_bound_abs delta 2 ltac:(lia)).
    destruct (Z.le_gt_cases 0 (Z.rem delta 2)); [exists (Z.quot delta 2)|exists (Z.quot delta 2 - 1)]; lia.
Qed.

(** What the rows answer. *)
Definition fwd_A (d : Z) (backward : Diagonals) (k x sx : Z) : option Snake :=
  if odd then
    if (- d <? delta - k) && (delta - k <? d) && (n <=? x + dg_get backward (delta - k))
    then Some (snake_from sx (sx - k) x (x - k)) else None
  else None.

Definition bwd_A (d : Z) (forward : Diagonals) (k x sx : Z) : option Snake :=
  if odd then None
  else if (- d <=? delta - k) && (delta - k <=? d) && (n <=? x + dg_get forward (delta - k))
  then Some (snake_from (n - x) (m - (x - k)) (n - sx) (m - (sx - k))) else None.

(** No path of a later row starts at the far corner: it would have met the other side before. *)
Definition far_corner (v : Diagonals) (d : Z) (parity : bool) : Prop :=
  2 <= d -> parity = true -> - d <= delta <= d -> Z.Even (d - delta) -> start (dg_get v) d delta < n.

Lemma far_corner_next d v other (parity : bool) :
  0 <= d ->
  (2 <= d + 1 -> parity = true -> Z.Even (d + 1 - delta) ->
     forall k, - d <= k <= d -> Z.Even (d - k) -> Z.abs (delta - k) = 1 -> dg_get v k + dg_get other (delta - k) < n) ->
  (2 <= d + 1 -> parity = true -> Z.Even (d + 1 - delta) -> 0 <= dg_get other (-1) /\ 1 <= dg_get other 1) ->
  far_corner v (d + 1) parity.
Proof using Type.
  intros Hd Hno Hoth H2 Hp Hr He. destruct (Hoth H2 Hp He) as [Ho1 Ho2]. pose proof (Hno H2 Hp He) as Hk. clear Hno Hoth.
  destruct He as [q Hq].
  destruct (start_cases (dg_get v) (d + 1) delta Hr ltac:(lia)) as [[-> Hc]|[-> Hc]].
  - specialize (Hk (delta + 1) ltac:(lia) ltac:(exists (q - 1); lia) ltac:(lia)).
    replace (delta - (delta + 1)) with (-1) in Hk by lia. lia.
  - specialize (Hk (delta - 1) ltac:(lia) ltac:(exists q; lia) ltac:(lia)).
    replace (delta - (delta - 1)) with 1 in Hk by lia. lia.
Qed.

(** The snake a forward row returns. *)
Lemma fwd_good d v backward k s :
  0 <= d <= max -> diag_inv max v d -> far_corner v d odd -> - d <= k <= d -> Z.Even (d - k) ->
  fwd_A d backward k (reach n m fwd k (start (dg_get v) d k)) (start (dg_get v) d k) = Some s -> good_snake a b s.
Proof using Hn Hm.
  intros Hd Hinv Hfar Hk He. unfold fwd_A. destruct odd eqn:Hodd; [|done].
  destruct (_ && _ && _) eqn:Hc; [|done]. intros [= <-].
  apply andb_true_iff in Hc as [[H1%Z.ltb_lt H2%Z.ltb_lt]%andb_true_iff _].
  pose proof (start_far max d v Hd Hinv k Hk He) as Hsf. pose proof (start_nonneg max d v Hd Hinv k Hk) as Hs0.
  set (sx := start (dg_get v) d k) in *. destruct (reach_spec n m fwd k sx) as (Hge & _ & Hrun).
  set (x := reach n m fwd k sx) in *. replace x with (sx + (x - sx)) by lia.
  replace (sx + (x - sx) - k) with (sx - k + (x - sx)) by lia. apply snake_from_good; [lia| | |lia].
  - intros i Hi. destruct (Hrun (sx + i) ltac:(lia)) as (_ & _ & Hf). apply same_inv in Hf as (_ & _ & p & Hp1 & Hp2).
    exists p. split; [done|]. by replace (sx - k + i) with (sx + i - k) by lia.
  - intros [Hx Hy]. fold n in Hx. fold m in Hy. assert (Hkd : k = delta) by (unfold delta; lia).
    destruct (Z.le_gt_cases 2 d) as [H2d|H2d].
    + assert (Hlt : sx < n) by (unfold sx; rewrite Hkd; apply Hfar; rewrite <- ?Hkd; done). lia.
    + assert (d = 1) as -> by lia. pose proof (di_zero _ _ _ Hinv eq_refl) as H0.
      destruct (start_cases (dg_get v) 1 k Hk ltac:(lia)) as [[Hs Hc]|[Hs Hc]]; fold sx in Hs.
      * assert (k + 1 = 0) as Hk1 by (destruct He; lia). rewrite Hk1 in Hs. lia.
      * assert (k - 1 = 0) as Hk1 by (destruct He; lia). rewrite Hk1 in Hs. lia.
Qed.

(** The snake a backward row returns. *)
Lemma bwd_good d v forward k s :
  0 <= d <= max -> diag_inv max v d -> diag_inv max forward (d + 1) -> far_corner v d (negb odd) ->
  - d <= k <= d -> Z.Even (d - k) ->
  bwd_A d forward k (reach n m bwd k (start (dg_get v) d k)) (start (dg_get v) d k) = Some s -> good_snake a b s.
Proof using Hn Hm.
  intros Hd Hinv Hfw Hfar Hk He. unfold bwd_A. destruct odd eqn:Hodd; [done|].
  destruct (_ && _ && _) eqn:Hc; [|done]. intros [= <-].
  apply andb_true_iff in Hc as [[H1%Z.leb_le H2%Z.leb_le]%andb_true_iff H3%Z.leb_le].
  pose proof (start_far max d v Hd Hinv k Hk He) as Hsf. pose proof (start_nonneg max d v Hd Hinv k Hk) as Hs0.
  set (sx := start (dg_get v) d k) in *. destruct (reach_spec n m bwd k sx) as (Hge & _ & Hrun).
  set (x := reach n m bwd k sx) in *. replace (n - sx) with (n - x + (x - sx)) by lia.
  replace (m - (sx - k)) with (m - (x - k) + (x - sx)) by lia. apply snake_from_good; [lia| | |].
  - intros i Hi. destruct (Hrun (x - 1 - i) ltac:(lia)) as (_ & _ & Hf). apply same_inv in Hf as (_ & _ & p & Hp1 & Hp2).
    exists p. replace (n - x + i) with (n - 1 - (x - 1 - i)) by lia.
    by replace (m - (x - k) + i) with (m - 1 - (x - 1 - i - k)) by lia.
  - intros [Hx Hy]. fold n in Hx. fold m in Hy. assert (k = 0 /\ x = 0 /\ d = 0) as (-> & Hx0 & ->) by lia.
    pose proof (di_zero _ _ _ Hfw eq_refl) as H0. replace (delta - 0) with 0 in H3 by lia. lia.
  - intros Hu Hv. destruct (Z.eq_dec (n + m) (2 * sx - k)) as [Heq|Hne]; [exfalso|lia].
    assert (Hkd : k = delta) by (unfold delta; lia). destruct (Z.le_gt_cases 2 d) as [H2d|H2d].
    + assert (Hlt : sx < n) by (unfold sx; rewrite Hkd; apply Hfar; rewrite <- ?Hkd; done). unfold delta in *. lia.
    + destruct (proj2 odd_parity Hodd) as [q Hq]. destruct He as [p Hp]. assert (d = 0) as -> by lia.
      assert (k = 0) as Hk0 by lia. assert (Hs : sx = 0).
      { unfold sx, start. rewrite Hk0. cbn. by apply (di_init _ _ _ Hinv). }
      lia.
Qed.

(** Every snake of the loop is good. *)
Lemma snake_loop_good : forall fuel d forward backward spent,
  0 <= d -> d + Z.of_nat fuel <= max + 1 -> diag_inv max forward d -> diag_inv max backward d ->
  far_corner forward d odd -> far_corner backward d (negb odd) ->
  good_snake a b (snake_loop fuel a b n m delta odd limit d forward backward spent).1.
Proof using Hn Hm Hfirst Hlast.
  induction fuel as [|fuel IH]; intros d fw bw spent H0 Hf Hfw Hbw Hcf Hcb; cbn [snake_loop]; [done|].
  assert (Hd : 0 <= d <= max) by lia. assert (Hev : Z.Even (d - - d)) by (exists d; lia).
  pose proof (row_spec max n m fwd limit (forward_answer n delta d odd bw) (fwd_A d bw)
    ltac:(intros k x sx v <-; reflexivity) (dg_get fw) d Hd (S (Z.to_nat d)) (- d) fw spent
    (di_wf _ _ _ Hfw) ltac:(lia) Hev ltac:(lia) ltac:(done)) as Hrow.
  fold fwd. destruct (row _ n m fwd limit _ d (- d) fw spent) as [fw' sp|s sp].
  2: { destruct Hrow as [->|(k & Hk & He & Hs)]; [done|]. by apply (fwd_good d fw bw k s). }
  destruct Hrow as (Hwf' & Hsame & Hnew).
  assert (Hfw' : diag_inv max fw' (d + 1)).
  { apply (row_keeps max d fw Hd Hfw n m fwd); [done|done|done|]. intros k' Hk' He'. by apply Hnew. }
  pose proof (row_spec max n m bwd limit (backward_answer n m delta d odd fw') (bwd_A d fw')
    ltac:(intros k x sx v <-; reflexivity) (dg_get bw) d Hd (S (Z.to_nat d)) (- d) bw sp
    (di_wf _ _ _ Hbw) ltac:(lia) Hev ltac:(lia) ltac:(done)) as Hrowb.
  fold bwd. destruct (row _ n m bwd limit _ d (- d) bw sp) as [bw' sp'|s sp'].
  2: { destruct Hrowb as [->|(k & Hk & He & Hs)]; [done|]. by apply (bwd_good d bw fw' k s). }
  destruct Hrowb as (Hwfb & Hsameb & Hnewb).
  assert (Hbw' : diag_inv max bw' (d + 1)).
  { apply (row_keeps max d bw Hd Hbw n m bwd); [|done|done|].
    - unfold bwd. by rewrite !Z.sub_0_r.
    - intros k' Hk' He'. by apply Hnewb. }
  apply IH; [lia|lia|done|done| |].
  - apply (far_corner_next d fw' bw).
    + lia.
    + intros H2 Ho [q Hq] k Hk He Habs. destruct (Hnew k Hk He) as [_ HA]. unfold fwd_A in HA. rewrite Ho in HA.
      destruct (proj1 odd_parity Ho) as [r Hr].
      destruct (_ && _ && _) eqn:Hc in HA; [done|].
      destruct (Z.ltb_spec (- d) (delta - k)); [|lia]. destruct (Z.ltb_spec (delta - k) d); [|lia].
      by apply Z.leb_gt in Hc.
    + intros H2 Ho [q Hq]. destruct (proj1 odd_parity Ho) as [r Hr].
      split; [apply (di_nonneg _ _ _ Hbw); lia|apply (di_one _ _ _ Hbw); lia].
  - apply (far_corner_next d bw' fw').
    + lia.
    + intros H2 Ho _ k Hk He Habs. destruct (Hnewb k Hk He) as [_ HA]. unfold bwd_A in HA.
      apply negb_true_iff in Ho. rewrite Ho in HA. destruct (_ && _ && _) eqn:Hc in HA; [done|].
      destruct (Z.leb_spec (- d) (delta - k)); [|lia]. destruct (Z.leb_spec (delta - k) d); [|lia].
      by apply Z.leb_gt in Hc.
    + intros H2 Ho _. split; [apply (di_nonneg _ _ _ Hfw'); lia|apply (di_one _ _ _ Hfw'); lia].
Qed.
End snakes.

Lemma middle_snake_good a b budget :
  a <> [] -> b <> [] -> same a 0 b 0 = false ->
  same a (Z.of_nat (length a) - 1) b (Z.of_nat (length b) - 1) = false ->
  good_snake a b (middle_snake a b budget).1.
Proof.
  intros Ha Hb Hf Hl. unfold middle_snake. set (max := (_ + _ + 1) / 2).
  assert (Hla : 1 <= Z.of_nat (length a)) by (destruct a; [done|cbn [length]; lia]).
  assert (Hlb : 1 <= Z.of_nat (length b)) by (destruct b; [done|cbn [length]; lia]).
  assert (Hmax : 0 <= max) by (apply Z.div_pos; lia).
  pose proof (snake_loop_good a b (db_limit budget) max Hla Hlb Hf Hl (S (Z.to_nat max)) 0
    (dg_set (Diagonals_new max) 1 0) (dg_set (Diagonals_new max) 1 0) (db_spent budget)
    ltac:(lia) ltac:(lia) (diag_inv_init max Hmax) (diag_inv_init max Hmax) ltac:(intros ?; lia) ltac:(intros ?; lia)) as Hgood.
  destruct (snake_loop _ _ _ _ _ _ _ _ _ _ _ _) as [s sp]. exact Hgood.
Qed.

(** The budget keeps its limit, and only the recursion exhausts it. *)
Lemma middle_snake_budget a b budget :
  db_limit (middle_snake a b budget).2 = db_limit budget /\ db_exhausted (middle_snake a b budget).2 = db_exhausted budget.
Proof. unfold middle_snake. by destruct (snake_loop _ _ _ _ _ _ _ _ _ _ _ _). Qed.

(** ** Slices *)

Lemma length_get_or_default {A} (l : list A) lo hi :
  length (get_or_default l lo hi) = if (lo <=? hi)%nat && (hi <=? length l)%nat then (hi - lo)%nat else 0%nat.
Proof. unfold get_or_default. destruct (_ && _) eqn:H; [|done]. rewrite length_take, length_drop.
  apply andb_true_iff in H as [H1%Nat.leb_le H2%Nat.leb_le]. lia. Qed.

Lemma lookup_get_or_default {A} (l : list A) lo hi i :
  (i < length (get_or_default l lo hi))%nat -> get_or_default l lo hi !! i = l !! (lo + i)%nat.
Proof.
  rewrite length_get_or_default. unfold get_or_default. destruct (_ && _); [|lia]. intros Hi.
  rewrite lookup_take_lt by lia. by rewrite lookup_drop.
Qed.

(** [part] is what [whole] holds from [offset] on. *)
Definition slice_of (part whole : list nat) (offset : nat) : Prop :=
  forall i, (i < length part)%nat -> part !! i = whole !! (offset + i)%nat.

Lemma slice_of_get part whole offset lo hi :
  slice_of part whole offset -> slice_of (get_or_default part lo hi) whole (offset + lo).
Proof.
  intros Hs i Hi. rewrite lookup_get_or_default by done. rewrite <- Nat.add_assoc. apply Hs.
  rewrite length_get_or_default in Hi. destruct (_ && _) eqn:H in Hi; [|lia].
  apply andb_true_iff in H as [H1%Nat.leb_le H2%Nat.leb_le]. lia.
Qed.

(** ** Trimming *)

Lemma common_prefix_spec : forall a b, let p := common_prefix a b in
  (p <= length a)%nat /\ (p <= length b)%nat /\
  (forall i, (i < p)%nat -> exists c, a !! i = Some c /\ b !! i = Some c) /\
  (forall c, a !! p = Some c -> b !! p = Some c -> False).
Proof.
  induction a as [|x a IH]; intros [|y b]; cbn [common_prefix].
  1-3: split_and!; [cbn; lia|cbn; lia|lia|by intros c].
  destruct (Nat.eqb_spec x y) as [->|Hne].
  - destruct (IH b) as (H1 & H2 & H3 & H4). cbn [length]. split_and!; [lia|lia| |done].
    intros [|i] Hi; [by exists y|]. apply H3. lia.
  - cbn. split_and!; [lia|lia|lia|]. intros c [= ->] [= ->]. done.
Qed.

Lemma common_suffix_spec a b prefix : forall fuel suffix,
  (prefix <= length a)%nat -> (prefix <= length b)%nat ->
  (suffix <= length a - prefix)%nat -> (suffix <= length b - prefix)%nat -> (length a <= fuel + suffix)%nat ->
  (forall i, (i < suffix)%nat -> exists c, a !! (length a - 1 - i)%nat = Some c /\ b !! (length b - 1 - i)%nat = Some c) ->
  let s := common_suffix fuel a b prefix suffix in
  (s <= length a - prefix)%nat /\ (s <= length b - prefix)%nat /\
  (forall i, (i < s)%nat -> exists c, a !! (length a - 1 - i)%nat = Some c /\ b !! (length b - 1 - i)%nat = Some c) /\
  ((s < length a - prefix)%nat -> (s < length b - prefix)%nat ->
     forall c, a !! (length a - 1 - s)%nat = Some c -> b !! (length b - 1 - s)%nat = Some c -> False).
Proof.
  induction fuel as [|fuel IH]; intros suffix Hpa Hpb Hsa Hsb Hf Hall; cbn [common_suffix].
  { split_and!; [done|done|done|lia]. }
  destruct (_ && _ && _) eqn:Hc.
  - apply andb_true_iff in Hc as [[H1%Nat.ltb_lt H2%Nat.ltb_lt]%andb_true_iff H3].
    apply IH; [done|done|lia|lia|lia|]. intros i Hi. destruct (Nat.eq_dec i suffix) as [->|]; [|apply Hall; lia].
    destruct (a !! _) as [p|]; [|done]. destruct (b !! _) as [q|]; [|done]. apply Nat.eqb_eq in H3 as ->. by exists q.
  - split_and!; [done|done|done|]. intros H1 H2 c Ha Hb. rewrite Ha, Hb, Nat.eqb_refl in Hc.
    apply Nat.ltb_lt in H1. apply Nat.ltb_lt in H2. by rewrite H1, H2 in Hc.
Qed.

Lemma trim_spec a b : let p := common_prefix a b in let s := common_suffix (length a) a b p 0 in
  (p + s <= length a)%nat /\ (p + s <= length b)%nat /\
  (forall i, (i < p)%nat -> exists c, a !! i = Some c /\ b !! i = Some c) /\
  (forall i, (i < s)%nat -> exists c, a !! (length a - s + i)%nat = Some c /\ b !! (length b - s + i)%nat = Some c).
Proof.
  intros p s. destruct (common_prefix_spec a b) as (H1 & H2 & H3 & _).
  destruct (common_suffix_spec a b p (length a) 0 H1 H2 ltac:(lia) ltac:(lia) ltac:(lia) ltac:(lia)) as (H4 & H5 & H6 & _).
  fold p in H1, H2, H3. fold s in H4, H5, H6. split_and!; [lia|lia|done|]. intros i Hi.
  destruct (H6 (s - 1 - i)%nat ltac:(lia)) as (c & Ha & Hb). exists c.
  replace (length a - s + i)%nat with (length a - 1 - (s - 1 - i))%nat by lia.
  by replace (length b - s + i)%nat with (length b - 1 - (s - 1 - i))%nat by lia.
Qed.

(** What the trimming leaves differs at both ends. *)
Lemma trim_ends a b : let p := common_prefix a b in let s := common_suffix (length a) a b p 0 in
  let middle_a := get_or_default a p (length a - s) in let middle_b := get_or_default b p (length b - s) in
  middle_a <> [] -> middle_b <> [] ->
  same middle_a 0 middle_b 0 = false /\
  same middle_a (Z.of_nat (length middle_a) - 1) middle_b (Z.of_nat (length middle_b) - 1) = false.
Proof.
  intros p s ma mb Hma Hmb. destruct (common_prefix_spec a b) as (H1 & H2 & _ & H4).
  destruct (common_suffix_spec a b p (length a) 0 H1 H2 ltac:(lia) ltac:(lia) ltac:(lia) ltac:(lia)) as (H5 & H6 & _ & H7).
  fold p in H1, H2, H4. fold s in H5, H6, H7.
  assert (Hla : length ma = (length a - s - p)%nat /\ (0 < length ma)%nat).
  { split; [|destruct ma; [done|cbn [length]; lia]]. unfold ma. rewrite length_get_or_default.
    destruct (Nat.leb_spec p (length a - s)); [|lia]. destruct (Nat.leb_spec (length a - s) (length a)); [done|lia]. }
  assert (Hlb : length mb = (length b - s - p)%nat /\ (0 < length mb)%nat).
  { split; [|destruct mb; [done|cbn [length]; lia]]. unfold mb. rewrite length_get_or_default.
    destruct (Nat.leb_spec p (length b - s)); [|lia]. destruct (Nat.leb_spec (length b - s) (length b)); [done|lia]. }
  destruct Hla as [Hla Hla0], Hlb as [Hlb Hlb0].
  split; apply not_true_is_false; intros (_ & _ & c & Ha & Hb)%same_inv.
  - change (Z.to_nat 0) with 0%nat in *. unfold ma in Ha, Hla0. unfold mb in Hb, Hlb0.
    rewrite lookup_get_or_default in Ha by done. rewrite lookup_get_or_default in Hb by done. rewrite Nat.add_0_r in *.
    by apply (H4 c).
  - unfold ma in Ha. unfold mb in Hb. rewrite lookup_get_or_default in Ha by (fold ma; lia).
    rewrite lookup_get_or_default in Hb by (fold mb; lia). fold ma in Ha. fold mb in Hb.
    apply (H7 ltac:(lia) ltac:(lia) c).
    + rewrite <- Ha. f_equal. lia.
    + rewrite <- Hb. f_equal. lia.
Qed.

(** ** Pairs *)

(** Pairs that rise in both sides, from [(la, lb)] up to [(ha, hb)]. *)
Fixpoint chain (la lb : nat) (pairs : list (nat * nat)) (ha hb : nat) : Prop :=
  match pairs with
  | [] => (la <= ha)%nat /\ (lb <= hb)%nat
  | (i, j) :: pairs' => (la <= i)%nat /\ (lb <= j)%nat /\ chain (S i) (S j) pairs' ha hb
  end.

Lemma chain_le la lb pairs ha hb : chain la lb pairs ha hb -> (la <= ha)%nat /\ (lb <= hb)%nat.
Proof. revert la lb. induction pairs as [|[i j] pairs IH]; intros la lb; cbn; [done|]. intros (H1 & H2 & H3%IH). lia. Qed.

Lemma chain_app la lb p ma mb q ha hb : chain la lb p ma mb -> chain ma mb q ha hb -> chain la lb (p ++ q) ha hb.
Proof.
  revert la lb. induction p as [|[i j] p IH]; intros la lb; cbn.
  - intros [H1 H2] Hq. destruct q as [|[i j] q]; cbn in *; [lia|]. destruct Hq as (H3 & H4 & Hq). split_and!; [lia|lia|done].
  - intros (H1 & H2 & H3) Hq. split_and!; [done|done|by apply IH].
Qed.

Lemma chain_diagonal count : forall x y, chain x y (diagonal_pairs x y count) (x + count) (y + count).
Proof.
  unfold diagonal_pairs. induction count as [|count IH]; intros x y; [cbn; lia|].
  cbn [seq map chain]. split_and!; [lia|lia|]. rewrite <- seq_shift, map_map.
  replace (S (x + 0)) with (S x) by lia. replace (S (y + 0)) with (S y) by lia.
  specialize (IH (S x) (S y)). replace (S x + count)%nat with (x + S count)%nat in IH by lia.
  replace (S y + count)%nat with (y + S count)%nat in IH by lia.
  erewrite map_ext; [exact IH|]. intros s. cbn. f_equal; lia.
Qed.

Lemma chain_weaken la lb p ha hb ha' hb' : chain la lb p ha hb -> (ha <= ha')%nat -> (hb <= hb')%nat -> chain la lb p ha' hb'.
Proof. intros H1 H2 H3. rewrite <- (app_nil_r p). apply (chain_app _ _ _ ha hb); [done|by split]. Qed.

(** Both sides of a pair hold the same identifier. *)
Definition agree (a b : list nat) (pair : nat * nat) : Prop := exists p, a !! pair.1 = Some p /\ b !! pair.2 = Some p.

Lemma agree_diagonal a b x y count :
  (forall i, (i < count)%nat -> exists p, a !! (x + i)%nat = Some p /\ b !! (y + i)%nat = Some p) ->
  Forall (agree a b) (diagonal_pairs x y count).
Proof.
  intros H. apply List.Forall_forall. intros [i j] (s & [= <- <-] & Hs%in_seq)%in_map_iff. apply H. lia.
Qed.

(** ** The work bound *)

Lemma extend_le n m f : forall fuel x y, (extend fuel n m f x y).1 <= x + Z.of_nat fuel.
Proof.
  induction fuel as [|fuel IH]; intros x y; cbn [extend]; [cbn; lia|].
  destruct (_ && _ && _); [|cbn; lia]. specialize (IH (x + 1) (y + 1)). lia.
Qed.

(** A row that starts within the limit leaves it by at most one step of the loop. *)
Lemma row_spent n m f limit answer d : 0 <= n -> forall fuel k v spent,
  spent <= limit ->
  match row fuel n m f limit answer d k v spent with
  | RowDone _ sp => sp <= limit
  | RowReturn _ sp => sp <= limit + 1 + n
  end.
Proof.
  intros Hn. induction fuel as [|fuel IH]; intros k v spent Hs; cbn [row]; [done|]. destruct (d <? k); [done|].
  set (sx := if _ || _ then _ else _). pose proof (extend_le n m f (Z.to_nat n) sx (sx - k)) as He.
  destruct (extend _ _ _ _ _ _) as [x y]. cbn [fst] in He.
  destruct (answer _ _ _ _ _ _); [lia|]. destruct (Z.ltb_spec limit (Z.min (spent + 1 + (x - sx)) (2 ^ 64 - 1))); [lia|].
  apply IH. lia.
Qed.

Lemma snake_loop_spent a b n m delta odd limit : 0 <= n -> forall fuel d fw bw spent,
  spent <= limit -> (snake_loop fuel a b n m delta odd limit d fw bw spent).2 <= limit + 1 + n.
Proof.
  intros Hn. induction fuel as [|fuel IH]; intros d fw bw spent Hs; cbn [snake_loop]; [cbn; lia|].
  pose proof (row_spent n m (fun x y => same a x b y) limit (forward_answer n delta d odd bw) d Hn
    (S (Z.to_nat d)) (- d) fw spent Hs) as H1.
  destruct (row _ n m _ limit (forward_answer _ _ _ _ _) d (- d) fw spent) as [fw' sp|s sp]; [|done].
  pose proof (row_spent n m (fun x y => same a (n - 1 - x) b (m - 1 - y)) limit (backward_answer n m delta d odd fw') d Hn
    (S (Z.to_nat d)) (- d) bw sp H1) as H2.
  destruct (row _ n m _ limit (backward_answer _ _ _ _ _ _) d (- d) bw sp) as [bw' sp'|s sp']; [|done]. by apply IH.
Qed.

(** The first row never answers: a search that starts past the limit gives up at once. *)
Lemma snake_loop_over a b n m delta odd limit N fuel fw bw spent :
  0 <= n <= N -> spent <= limit + 1 + N ->
  let r := snake_loop (S fuel) a b n m delta odd limit 0 fw bw spent in
  r.2 <= limit + 2 * (1 + N) /\ (r.1 <> Unresolved -> r.2 <= limit + 1 + N).
Proof.
  intros [Hn HN] Hs. cbn [snake_loop]. change (S (Z.to_nat 0)) with 1%nat. cbn [row].
  change (0 <? - 0) with false. cbn iota. set (sx := if _ || _ then _ else _).
  pose proof (extend_le n m (fun x y => same a x b y) (Z.to_nat n) sx (sx - - 0)) as He.
  destruct (extend _ _ _ _ _ _) as [x y]. cbn [fst] in He.
  assert (Hno : forall x' sx' y' sy' v, forward_answer n delta 0 odd bw (- 0) x' sx' y' sy' v = None).
  { intros. unfold forward_answer. destruct odd; [|done]. destruct (Z.ltb_spec (- 0) (delta - - 0)); [|done].
    destruct (Z.ltb_spec (delta - - 0) 0); [lia|done]. }
  rewrite Hno. set (sp := Z.min _ _). assert (Hsp : sp <= limit + 2 * (1 + N)) by (unfold sp; lia).
  clearbody sp.
  destruct (Z.ltb_spec limit sp) as [Hl|Hl]; [split; [done|intros Hne; by destruct Hne]|].
  pose proof (row_spent n m (fun x y => same a (n - 1 - x) b (m - 1 - y)) limit
    (backward_answer n m delta 0 odd (dg_set fw (- 0) x)) 0 Hn 1 (- 0) bw sp Hl) as H2. cbn [row] in H2.
  change (0 <? - 0) with false in H2. cbn iota in H2. set (sb := if _ || _ then _ else _) in *.
  destruct (extend _ _ _ _ _ _) as [xb yb]. destruct (backward_answer _ _ _ _ _ _ _ _ _ _ _ _); [cbn; lia|].
  set (sp' := Z.min _ _) in *. destruct (limit <? sp'); [cbn; lia|].
  pose proof (snake_loop_spent a b n m delta odd limit Hn fuel (0 + 1) (dg_set fw (- 0) x) (dg_set bw (- 0) xb) sp' H2). lia.
Qed.

Lemma middle_snake_spent a b budget N : Z.of_nat (length a) <= N ->
  db_spent budget <= db_limit budget + 1 + N ->
  let r := middle_snake a b budget in
  db_spent r.2 <= db_limit budget + 2 * (1 + N) /\ (r.1 <> Unresolved -> db_spent r.2 <= db_limit budget + 1 + N).
Proof.
  intros HN Hs. set (n := Z.of_nat (length a)) in *. unfold middle_snake. set (max := (_ + _ + 1) / 2).
  pose proof (snake_loop_over a b n (Z.of_nat (length b)) (n - Z.of_nat (length b))
    (negb (Z.rem (n - Z.of_nat (length b)) 2 =? 0)) (db_limit budget) N (Z.to_nat max)
    (dg_set (Diagonals_new max) 1 0) (dg_set (Diagonals_new max) 1 0) (db_spent budget) ltac:(lia) Hs) as H.
  fold n. by destruct (snake_loop _ _ _ _ _ _ _ _ _ _ _ _) as [s sp].
Qed.


(** What the recursion keeps of the budget, for inputs of at most [N] lines. *)
Definition budget_ok (N limit : Z) (budget : Budget) : Prop :=
  db_limit budget = limit /\ db_spent budget <= limit + 2 * (1 + N) /\
  (db_exhausted budget = false -> db_spent budget <= limit + 1 + N).

(** The search of one call: its snake is good, and the budget stays within its bound. *)
Lemma search_spec N limit a b budget :
  Z.of_nat (length a) <= N -> budget_ok N limit budget -> a <> [] -> b <> [] -> same a 0 b 0 = false ->
  same a (Z.of_nat (length a) - 1) b (Z.of_nat (length b) - 1) = false ->
  exists found budget', (if db_exhausted budget then (Unresolved, budget) else middle_snake a b budget) = (found, budget') /\
    good_snake a b found /\ (found <> Unresolved -> budget_ok N limit budget') /\
    budget_ok N limit (mkDiffBudget (db_spent budget') (db_limit budget') true).
Proof.
  intros HN (Hl & Hs & He) Ha Hb Hf Hla. destruct (db_exhausted budget) eqn:Hx.
  { exists Unresolved, budget. split_and!; [done|done|done|]. split_and!; [done|done|done]. }
  specialize (He eq_refl). destruct (middle_snake_budget a b budget) as [Hl' Hx'].
  pose proof (middle_snake_good a b budget Ha Hb Hf Hla) as Hg.
  destruct (middle_snake_spent a b budget N HN ltac:(by rewrite Hl)) as [H1 H2].
  destruct (middle_snake a b budget) as [s bu]. cbn [fst snd] in *. exists s, bu.
  rewrite Hl in *. split_and!; [done|done| |].
  - intros Hne. split_and!; [done|done|]. intros _. by apply H2.
  - split_and!; [done|done|done].
Qed.

Lemma common_pairs_empty fuel a b oa ob budget : a = [] \/ b = [] ->
  common_pairs (S fuel) a b oa ob budget = Some ([], budget).
Proof.
  intros H. cbn [common_pairs]. assert (Hp : common_prefix a b = 0%nat) by (destruct H as [->| ->]; [|destruct a]; done).
  rewrite Hp. assert (Hs : common_suffix (length a) a b 0 0 = 0%nat).
  { destruct H as [->| ->]; [done|]. destruct (length a) as [|n] eqn:Hn; [done|]. cbn [common_suffix]. rewrite Hn. done. }
  rewrite Hs. destruct ((0 <? length (get_or_default a 0 (length a - 0)))%nat && _) eqn:Hc; [|done].
  apply andb_true_iff in Hc as [H1%Nat.ltb_lt H2%Nat.ltb_lt]. rewrite length_get_or_default in H1, H2.
  destruct H as [->| ->]; cbn in H1, H2; lia.
Qed.

(** The snake and the two halves, put together. *)
Lemma split_chain (A B ma mb : list nat) oa ob x y u v before behind :
  slice_of ma A oa -> slice_of mb B ob -> good_snake ma mb (Found x y u v) ->
  let a1 := get_or_default ma 0 x in let b1 := get_or_default mb 0 y in
  let a2 := get_or_default ma u (length ma) in let b2 := get_or_default mb v (length mb) in
  (a1 = [] \/ b1 = [] -> before = []) -> (a2 = [] \/ b2 = [] -> behind = []) ->
  chain oa ob before (oa + length a1) (ob + length b1) -> Forall (agree A B) before ->
  chain (oa + u) (ob + v) behind (oa + u + length a2) (ob + v + length b2) -> Forall (agree A B) behind ->
  chain oa ob (before ++ diagonal_pairs (oa + x) (ob + y) (u - x) ++ behind) (oa + length ma) (ob + length mb) /\
  Forall (agree A B) (before ++ diagonal_pairs (oa + x) (ob + y) (u - x) ++ behind).
Proof.
  intros HsA HsB [(c & -> & -> & Hc) _] a1 b1 a2 b2 He1 He2 Hch1 Hf1 Hch2 Hf2.
  replace (x + c - x)%nat with c by lia.
  assert (Hag : forall i, (i < c)%nat -> (x + i < length ma)%nat /\ (y + i < length mb)%nat).
  { intros i Hi. destruct (Hc i Hi) as (p & Hp%lookup_lt_Some & Hq%lookup_lt_Some). done. }
  split.
  - destruct (decide ((x + c <= length ma)%nat /\ (y + c <= length mb)%nat)) as [[Hx Hy]|Hout].
    + assert (length a1 <= x)%nat by (unfold a1; rewrite length_get_or_default; destruct (_ && _); lia).
      assert (length b1 <= y)%nat by (unfold b1; rewrite length_get_or_default; destruct (_ && _); lia).
      assert (length a2 <= length ma - (x + c))%nat by (unfold a2; rewrite length_get_or_default; destruct (_ && _); lia).
      assert (length b2 <= length mb - (y + c))%nat by (unfold b2; rewrite length_get_or_default; destruct (_ && _); lia).
      apply (chain_app _ _ _ (oa + x) (ob + y)); [apply (chain_weaken _ _ _ _ _ _ _ Hch1); lia|].
      apply (chain_app _ _ _ (oa + x + c) (ob + y + c)); [apply chain_diagonal|].
      rewrite <- (Nat.add_assoc oa x c), <- (Nat.add_assoc ob y c). apply (chain_weaken _ _ _ _ _ _ _ Hch2); lia.
    + assert (c = 0%nat) as -> by (destruct c as [|c]; [done|]; destruct (Hag c ltac:(lia)); lia).
      rewrite !Nat.add_0_r in *.
      assert (Hempty : (a1 = [] /\ a2 = []) \/ (b1 = [] /\ b2 = [])).
      { destruct (Nat.le_gt_cases x (length ma)) as [Hx|Hx].
        - right. split; apply nil_length_inv; [unfold b1|unfold b2]; rewrite length_get_or_default, ?Nat.add_0_r.
          + destruct (Nat.leb_spec y (length mb)); [lia|]. by rewrite andb_false_r.
          + destruct (Nat.leb_spec y (length mb)); [lia|done].
        - left. split; apply nil_length_inv; [unfold a1|unfold a2]; rewrite length_get_or_default, ?Nat.add_0_r.
          + destruct (Nat.leb_spec x (length ma)); [lia|]. by rewrite andb_false_r.
          + destruct (Nat.leb_spec x (length ma)); [lia|done]. }
      rewrite He1, He2 by (destruct Hempty as [[-> ->]|[-> ->]]; auto). cbn. lia.
  - apply Forall_app. split; [done|]. apply Forall_app. split; [|done]. apply agree_diagonal. intros i Hi.
    destruct (Hc i Hi) as (p & Hp & Hq). exists p. destruct (Hag i Hi).
    rewrite <- !Nat.add_assoc, <- HsA, <- HsB by lia. done.
Qed.

(** The recursion ends; its pairs rise in both sides and pair equal identifiers. *)
Lemma common_pairs_spec N limit A B : forall fuel a b oa ob budget,
  (length a + length b < fuel)%nat -> Z.of_nat (length a) <= N -> budget_ok N limit budget ->
  slice_of a A oa -> slice_of b B ob ->
  exists pairs budget', common_pairs fuel a b oa ob budget = Some (pairs, budget') /\
    chain oa ob pairs (oa + length a) (ob + length b) /\ Forall (agree A B) pairs /\ budget_ok N limit budget'.
Proof.
  induction fuel as [|fuel IH]; intros a b oa ob budget Hf HN Hbud HA HB; [lia|]. cbn [common_pairs].
  destruct (trim_spec a b) as (Hta & Htb & Hpre & Hsuf). pose proof (trim_ends a b) as Hends.
  set (p := common_prefix a b) in *. set (s := common_suffix (length a) a b p 0) in *. cbv zeta in Hends.
  assert (Hla : length (get_or_default a p (length a - s)) = (length a - s - p)%nat).
  { rewrite length_get_or_default. destruct (Nat.leb_spec p (length a - s)); [|lia].
    destruct (Nat.leb_spec (length a - s) (length a)); [done|lia]. }
  assert (Hlb : length (get_or_default b p (length b - s)) = (length b - s - p)%nat).
  { rewrite length_get_or_default. destruct (Nat.leb_spec p (length b - s)); [|lia].
    destruct (Nat.leb_spec (length b - s) (length b)); [done|lia]. }
  pose proof (slice_of_get a A oa p (length a - s) HA) as HsA. pose proof (slice_of_get b B ob p (length b - s) HB) as HsB.
  set (ma := get_or_default a p (length a - s)) in *. set (mb := get_or_default b p (length b - s)) in *.
  assert (Hagp : Forall (agree A B) (diagonal_pairs oa ob p)).
  { apply agree_diagonal. intros i Hi. destruct (Hpre i Hi) as (c & H1 & H2). exists c.
    rewrite <- HA, <- HB by lia. done. }
  assert (Hags : Forall (agree A B) (diagonal_pairs (oa + length a - s) (ob + length b - s) s)).
  { apply agree_diagonal. intros i Hi. destruct (Hsuf i Hi) as (c & H1 & H2). exists c.
    replace (oa + length a - s + i)%nat with (oa + (length a - s + i))%nat by lia.
    replace (ob + length b - s + i)%nat with (ob + (length b - s + i))%nat by lia. rewrite <- HA, <- HB by lia. done. }
  assert (Hchs : forall mid, chain (oa + p) (ob + p) mid (oa + p + length ma) (ob + p + length mb) ->
    chain oa ob (diagonal_pairs oa ob p ++ mid ++ diagonal_pairs (oa + length a - s) (ob + length b - s) s)
      (oa + length a) (ob + length b)).
  { intros mid Hmid. apply (chain_app _ _ _ (oa + p) (ob + p)); [apply chain_diagonal|].
    apply (chain_app _ _ _ (oa + length a - s) (ob + length b - s)); [apply (chain_weaken _ _ _ _ _ _ _ Hmid); lia|].
    apply (chain_weaken _ _ _ _ _ _ _ (chain_diagonal _ _ _)); lia. }
  pose proof (Hchs [] ltac:(cbn; lia)) as Hplain. cbn [app] in Hplain.
  assert (Hplaina : Forall (agree A B) (diagonal_pairs oa ob p ++ diagonal_pairs (oa + length a - s) (ob + length b - s) s))
    by (apply Forall_app; done).
  destruct ((0 <? length ma)%nat && (0 <? length mb)%nat) eqn:Hne.
  2: { exists (diagonal_pairs oa ob p ++ diagonal_pairs (oa + length a - s) (ob + length b - s) s), budget. done. }
  apply andb_true_iff in Hne as [Hna%Nat.ltb_lt Hnb%Nat.ltb_lt].
  assert (Hma : ma <> []) by (intros Hm; rewrite Hm in Hna; cbn in Hna; lia).
  assert (Hmb : mb <> []) by (intros Hm; rewrite Hm in Hnb; cbn in Hnb; lia).
  destruct (Hends Hma Hmb) as [He1 He2].
  destruct (search_spec N limit ma mb budget ltac:(lia) Hbud Hma Hmb He1 He2) as (found & bu & -> & Hg & Hok & Hunres).
  destruct found as [x y u v|].
  2: { exists (diagonal_pairs oa ob p ++ diagonal_pairs (oa + length a - s) (ob + length b - s) s).
       exists (mkDiffBudget (db_spent bu) (db_limit bu) true). done. }
  specialize (Hok ltac:(done)). pose proof Hg as (_ & Hn1 & Hn2).
  pose proof (length_get_or_default ma 0 x) as L1. pose proof (length_get_or_default mb 0 y) as L2.
  pose proof (length_get_or_default ma u (length ma)) as L3. pose proof (length_get_or_default mb v (length mb)) as L4.
  rewrite Nat.leb_refl, andb_true_r in L3, L4. change (0 <=? x)%nat with true in L1. change (0 <=? y)%nat with true in L2.
  cbn [andb] in L1, L2.
  destruct (IH (get_or_default ma 0 x) (get_or_default mb 0 y) (oa + p)%nat (ob + p)%nat bu) as (before & bu1 & E1 & C1 & F1 & B1).
  { rewrite L1, L2. destruct (Nat.leb_spec x (length ma)), (Nat.leb_spec y (length mb)); lia. }
  { rewrite L1. destruct (Nat.leb_spec x (length ma)); lia. }
  { done. }
  { pose proof (slice_of_get ma A (oa + p) 0 x HsA) as H. by rewrite Nat.add_0_r in H. }
  { pose proof (slice_of_get mb B (ob + p) 0 y HsB) as H. by rewrite Nat.add_0_r in H. }
  rewrite E1.
  destruct (IH (get_or_default ma u (length ma)) (get_or_default mb v (length mb)) (oa + p + u)%nat (ob + p + v)%nat bu1)
    as (behind & bu2 & E2 & C2 & F2 & B2).
  { rewrite L3, L4. destruct (Nat.leb_spec u (length ma)), (Nat.leb_spec v (length mb)); lia. }
  { rewrite L3. destruct (Nat.leb_spec u (length ma)); lia. }
  { done. }
  { by apply slice_of_get. }
  { by apply slice_of_get. }
  rewrite E2. destruct fuel as [|fuel]; [lia|].
  destruct (split_chain A B ma mb (oa + p) (ob + p) x y u v before behind HsA HsB Hg) as [Hc Hfa]; [| |done..|].
  { intros He. rewrite common_pairs_empty in E1 by done. congruence. }
  { intros He. rewrite common_pairs_empty in E2 by done. congruence. }
  eexists _, bu2. split; [reflexivity|]. specialize (Hchs _ Hc). rewrite <- !app_assoc in Hchs. split_and!; [done| |done].
  apply Forall_app. split; [done|].
  apply Forall_app in Hfa as [Hfa1 [Hfa2 Hfa3]%Forall_app]. rewrite !Forall_app. done.
Qed.

(** ** Interning *)

Definition ids_ok (ids : gmap (list byte) nat) : Prop :=
  (forall l id, ids !! l = Some id -> (id < size ids)%nat) /\
  (forall l l' id, ids !! l = Some id -> ids !! l' = Some id -> l = l').

Lemma intern_spec ids line : ids_ok ids ->
  let r := intern ids line in ids_ok r.2 /\ ids ⊆ r.2 /\ r.2 !! line = Some r.1.
Proof.
  intros [Hlt Hinj]. unfold intern. destruct (ids !! line) as [id|] eqn:Hid; cbn [fst snd]; [done|].
  split_and!; [|by apply insert_subseteq|by rewrite lookup_insert_eq]. split.
  - intros l id. rewrite map_size_insert_None by done. rewrite lookup_insert_Some. intros [[_ <-]|[_ H%Hlt]]; lia.
  - intros l l' id. rewrite !lookup_insert_Some. intros [[<- <-]|[_ H]] [[<- H']|[_ H']]; [done| | |by eapply Hinj].
    + apply Hlt in H'. lia.
    + subst. apply Hlt in H. lia.
Qed.

Lemma intern_all_spec : forall lines ids, ids_ok ids ->
  let r := intern_all ids lines in
  ids_ok r.2 /\ ids ⊆ r.2 /\ Forall2 (fun line id => r.2 !! line = Some id) lines r.1.
Proof.
  induction lines as [|line lines IH]; intros ids Hok; cbn [intern_all]; [done|].
  destruct (intern_spec ids line Hok) as (H1 & H2 & H3). destruct (intern ids line) as [id ids1]. cbn [fst snd] in *.
  destruct (IH ids1 H1) as (H4 & H5 & H6). destruct (intern_all ids1 lines) as [rest ids2]. cbn [fst snd] in *.
  split_and!; [done|by etrans|]. constructor; [by eapply lookup_weaken|done].
Qed.

(** Equal identifiers are equal lines, on either side. *)
Lemma interned left right left_ids right_ids ids ids' :
  intern_all ∅ left = (left_ids, ids) -> intern_all ids right = (right_ids, ids') ->
  length left_ids = length left /\ length right_ids = length right /\
  forall i j id, left_ids !! i = Some id -> right_ids !! j = Some id ->
    exists line, left !! i = Some line /\ right !! j = Some line.
Proof.
  intros H1 H2. destruct (intern_all_spec left ∅) as (K1 & _ & K2); [split; intros *; by rewrite lookup_empty|].
  rewrite H1 in K1, K2. cbn [fst snd] in *. destruct (intern_all_spec right ids K1) as ([_ Hinj] & K4 & K5).
  rewrite H2 in *. cbn [fst snd] in *. split_and!; [by apply Forall2_length in K2|by apply Forall2_length in K5|].
  intros i j id Hi Hj. destruct (Forall2_lookup_r _ _ _ _ _ K2 Hi) as (l & Hl & Hlid).
  destruct (Forall2_lookup_r _ _ _ _ _ K5 Hj) as (l' & Hl' & Hlid'). exists l. split; [done|].
  rewrite Hl'. f_equal. symmetry. eapply Hinj; [by eapply lookup_weaken|done].
Qed.

(** ** Scripts *)

(** [ops] covers [left] and [right] exactly: every line once, the equal ones paired with their equals. *)
Fixpoint covers (ops : list LineOp) (left right : list (list byte)) : bool :=
  match ops, left, right with
  | [], [], [] => true
  | Equal :: ops', l :: left', r :: right' => bool_decide (l = r) && covers ops' left' right'
  | Delete :: ops', _ :: left', _ => covers ops' left' right
  | Insert :: ops', _, _ :: right' => covers ops' left right'
  | _, _, _ => false
  end.

(** What a script makes of the left side, given the inserted lines. *)
Fixpoint patched (ops : list LineOp) (left inserted : list (list byte)) : list (list byte) :=
  match ops, left, inserted with
  | Equal :: ops', l :: left', _ => l :: patched ops' left' inserted
  | Delete :: ops', _ :: left', _ => patched ops' left' inserted
  | Insert :: ops', _, r :: inserted' => r :: patched ops' left inserted'
  | _, _, _ => []
  end.

(** The lines of the right side a script inserts. *)
Fixpoint inserted_lines (ops : list LineOp) (right : list (list byte)) : list (list byte) :=
  match ops, right with
  | Equal :: ops', _ :: right' => inserted_lines ops' right'
  | Delete :: ops', _ => inserted_lines ops' right
  | Insert :: ops', r :: right' => r :: inserted_lines ops' right'
  | _, _ => []
  end.

Lemma covers_patched : forall ops left right, covers ops left right = true ->
  patched ops left (inserted_lines ops right) = right.
Proof.
  induction ops as [|op ops IH]; intros left right.
  - destruct left, right; done.
  - destruct op, left as [|l left]; destruct right as [|r right]; cbn; try done.
    + intros [Hlr%bool_decide_eq_true H]%andb_true_iff. f_equal; [done|by apply IH].
    + by intros H%IH.
    + intros H%IH. by rewrite H.
    + intros H%IH. by rewrite H.
    + intros H%IH. by rewrite H.
Qed.

Section covering.
Context (left right : list (list byte)).

Lemma covers_delete k : forall i ops R, (i + k <= length left)%nat ->
  covers ops (drop (i + k) left) R = true -> covers (replicate k Delete ++ ops) (drop i left) R = true.
Proof using Type.
  induction k as [|k IH]; intros i ops R Hk H; [by rewrite Nat.add_0_r in H|].
  destruct (lookup_lt_is_Some_2 left i ltac:(lia)) as [l Hl]. rewrite (drop_S left l i Hl). cbn.
  apply IH; [lia|]. by replace (S i + k)%nat with (i + S k)%nat by lia.
Qed.

Lemma covers_insert k : forall j ops L, (j + k <= length right)%nat ->
  covers ops L (drop (j + k) right) = true -> covers (replicate k Insert ++ ops) L (drop j right) = true.
Proof using Type.
  induction k as [|k IH]; intros j ops L Hk H; [by rewrite Nat.add_0_r in H|].
  destruct (lookup_lt_is_Some_2 right j ltac:(lia)) as [r Hr]. rewrite (drop_S right r j Hr). cbn.
  assert (covers (replicate k Insert ++ ops) L (drop (S j) right) = true) as Hg.
  { apply IH; [lia|]. by replace (S j + k)%nat with (j + S k)%nat by lia. }
  by destruct L.
Qed.

Lemma covers_equal k : forall i j ops,
  (forall s, (s < k)%nat -> exists line, left !! (i + s)%nat = Some line /\ right !! (j + s)%nat = Some line) ->
  covers ops (drop (i + k) left) (drop (j + k) right) = true ->
  covers (replicate k Equal ++ ops) (drop i left) (drop j right) = true.
Proof using Type.
  induction k as [|k IH]; intros i j ops Hall H; [by rewrite !Nat.add_0_r in H|].
  destruct (Hall 0%nat ltac:(lia)) as (line & Hl & Hr). rewrite Nat.add_0_r in Hl, Hr.
  rewrite (drop_S left line i Hl), (drop_S right line j Hr). cbn. rewrite bool_decide_true by done. cbn.
  apply IH.
  - intros s Hs. destruct (Hall (S s) ltac:(lia)) as (l' & H1 & H2). exists l'.
    by replace (S i + s)%nat with (i + S s)%nat by lia; replace (S j + s)%nat with (j + S s)%nat by lia.
  - by replace (S i + k)%nat with (i + S k)%nat by lia; replace (S j + k)%nat with (j + S k)%nat by lia.
Qed.
End covering.

(** ** The kept lines *)

Lemma kept_inv ids shared lo hi r a : kept ids shared lo hi !! r = Some a -> (lo <= a < hi)%nat /\ is_Some (ids !! a).
Proof.
  intros Ha%list_elem_of_lookup_2. apply list_elem_of_In in Ha. apply filter_In in Ha as [Hs%in_seq Hf].
  split; [lia|]. by destruct (ids !! a).
Qed.

Lemma kept_mono ids shared lo hi r r' a a' :
  kept ids shared lo hi !! r = Some a -> kept ids shared lo hi !! r' = Some a' -> (r < r')%nat -> (a < a')%nat.
Proof.
  unfold kept. generalize (hi - lo)%nat as n. intros n. revert lo r r'.
  induction n as [|n IH]; intros lo r r'; cbn [seq List.filter]; [done|].
  destruct (match ids !! lo with Some _ => _ | None => _ end); [|apply IH].
  destruct r as [|r], r' as [|r']; cbn; [lia| |lia|].
  - intros [= <-] Ha%list_elem_of_lookup_2 _. apply list_elem_of_In in Ha. apply filter_In in Ha as [Hs%in_seq _]. lia.
  - intros H1 H2 Hlt. apply (IH (S lo) r r'); [done|done|lia].
Qed.

Lemma omap_lookup (ids : list nat) : forall (K : list nat) (r : nat), (forall (i a : nat), K !! i = Some a -> is_Some (ids !! a)) ->
  omap (fun index => ids !! index) K !! r = K !! r ≫= fun index => ids !! index.
Proof.
  induction K as [|k K IH]; intros r Hall; [done|]. cbn [omap list_omap]. destruct (Hall 0%nat k eq_refl) as [id Hid].
  rewrite Hid. destruct r as [|r]; cbn; [done|]. apply IH. intros i a. apply (Hall (S i) a).
Qed.

Lemma length_omap_le {A B} (f : A -> option B) (l : list A) : (length (omap f l) <= length l)%nat.
Proof. induction l as [|x l IH]; cbn; [lia|]. destruct (f x); cbn; lia. Qed.

(** The operations between two points of both sides. *)
Lemma script_ops_covers left right KL KR left_end right_end :
  (left_end <= length left)%nat -> (right_end <= length right)%nat ->
  (forall r a, KL !! r = Some a -> (a < left_end)%nat) -> (forall r b, KR !! r = Some b -> (b < right_end)%nat) ->
  (forall r r' a a', KL !! r = Some a -> KL !! r' = Some a' -> (r < r')%nat -> (a < a')%nat) ->
  (forall r r' a a', KR !! r = Some a -> KR !! r' = Some a' -> (r < r')%nat -> (a < a')%nat) ->
  forall pairs la lb ha hb nl nr, chain la lb pairs ha hb ->
  Forall (fun pair => exists a b line, KL !! pair.1 = Some a /\ KR !! pair.2 = Some b /\
    left !! a = Some line /\ right !! b = Some line) pairs ->
  (forall r a, (la <= r)%nat -> KL !! r = Some a -> (nl <= a)%nat) ->
  (forall r b, (lb <= r)%nat -> KR !! r = Some b -> (nr <= b)%nat) ->
  (nl <= left_end)%nat -> (nr <= right_end)%nat ->
  let r := script_ops KL KR pairs nl nr in
  (r.1.2 <= left_end)%nat /\ (r.2 <= right_end)%nat /\
  forall tail, covers tail (drop r.1.2 left) (drop r.2 right) = true ->
    covers (r.1.1 ++ tail) (drop nl left) (drop nr right) = true.
Proof.
  intros Hle Hre HKL HKR ML MR. induction pairs as [|[ra rb] pairs IH]; intros la lb ha hb nl nr Hch Hall Hl Hr Hnl Hnr; [done|].
  destruct Hch as (H1 & H2 & Hch). inversion Hall as [|? ? (a & b & line & Ha & Hb & Hla & Hrb) Hall']. subst.
  cbn [fst snd] in Ha, Hb. cbn [script_ops]. rewrite Ha, Hb.
  pose proof (Hl ra a H1 Ha). pose proof (Hr rb b H2 Hb). pose proof (HKL ra a Ha). pose proof (HKR rb b Hb).
  specialize (IH (S ra) (S rb) ha hb (S a) (S b) Hch Hall'
    ltac:(intros r a' Hge Hra; apply (ML ra r a a' Ha Hra); lia)
    ltac:(intros r b' Hge Hrb'; apply (MR rb r b b' Hb Hrb'); lia) ltac:(lia) ltac:(lia)).
  destruct (script_ops KL KR pairs (S a) (S b)) as [[ops nl'] nr']. cbn [fst snd] in *.
  destruct IH as (I1 & I2 & I3). split_and!; [done|done|]. intros tail Ht. rewrite <- !app_assoc.
  apply covers_delete; [lia|]. apply covers_insert; [lia|].
  replace (nl + (a - nl))%nat with a by lia. replace (nr + (b - nr))%nat with b by lia.
  rewrite (drop_S left line a Hla), (drop_S right line b Hrb). cbn. rewrite bool_decide_true by done. by apply I3.
Qed.

(** ** The edit script *)

Lemma edit_script_spec left right limit : 0 <= limit ->
  exists script, edit_script_within left right limit = Some script /\ covers (es_ops script) left right = true /\
    es_steps script <= limit + 2 * (1 + Z.of_nat (length left)).
Proof.
  intros Hlimit. unfold edit_script_within.
  destruct (intern_all ∅ left) as [lids ids] eqn:E1. destruct (intern_all ids right) as [rids ids'] eqn:E2.
  destruct (interned left right lids rids ids ids' E1 E2) as (Hll & Hlr & Hid).
  destruct (trim_spec lids rids) as (Ht1 & Ht2 & Hpre & Hsuf).
  set (p := common_prefix lids rids) in *. set (s := common_suffix (length lids) lids rids p 0) in *.
  set (shared := fun id : nat => default false _ && default false _).
  set (KL := kept lids shared p (length lids - s)). set (KR := kept rids shared p (length rids - s)).
  assert (HKL : forall r a, KL !! r = Some a -> (p <= a < length lids - s)%nat /\ is_Some (lids !! a)) by (intros r a; apply kept_inv).
  assert (HKR : forall r a, KR !! r = Some a -> (p <= a < length rids - s)%nat /\ is_Some (rids !! a)) by (intros r a; apply kept_inv).
  set (RL := omap _ KL). set (RR := omap _ KR).
  assert (HRL : forall r, RL !! r = KL !! r ≫= fun i => lids !! i) by (intros r; apply omap_lookup; intros i a Ha; by apply (HKL i a)).
  assert (HRR : forall r, RR !! r = KR !! r ≫= fun i => rids !! i) by (intros r; apply omap_lookup; intros i a Ha; by apply (HKR i a)).
  assert (HN : Z.of_nat (length RL) <= Z.of_nat (length left)).
  { rewrite <- Hll. unfold RL. pose proof (length_omap_le (fun i => lids !! i) KL) as H1. unfold KL, kept in *.
    pose proof (List.filter_length_le (fun index => match lids !! index with Some id => shared id | None => false end)
      (seq p (length lids - s - p))) as H2. rewrite length_seq in H2. lia. }
  destruct (common_pairs_spec (Z.of_nat (length left)) limit RL RR (S (length RL + length RR)) RL RR 0 0 (mkDiffBudget 0 limit false))
    as (pairs & budget & -> & Hch & Hag & (_ & Hspent & _)); [lia|done| |done|done|].
  { split_and!; cbn; lia. }
  pose proof (script_ops_covers left right KL KR (length lids - s) (length rids - s) ltac:(lia) ltac:(lia)
    ltac:(intros r a Ha; by apply (HKL r a)) ltac:(intros r a Ha; by apply (HKR r a))
    (kept_mono _ _ _ _) (kept_mono _ _ _ _) pairs 0 0 _ _ p p Hch) as Hsc.
  destruct Hsc as (S1 & S2 & S3).
  { eapply Forall_impl; [exact Hag|]. intros [ra rb] (id & Hra & Hrb). cbn [fst snd] in *. rewrite HRL in Hra. rewrite HRR in Hrb.
    apply bind_Some in Hra as (a & Ha & Hai). apply bind_Some in Hrb as (b & Hb & Hbi).
    destruct (Hid a b id Hai Hbi) as (line & L1 & L2). by exists a, b, line. }
  1-2: intros r a _ Ha; first [apply (HKL r a Ha)|apply (HKR r a Ha)].
  1-2: lia.
  destruct (script_ops KL KR pairs p p) as [[ops nl] nr]. cbn [fst snd] in *.
  eexists. split; [reflexivity|]. cbn [es_ops es_steps]. split; [|done].
  apply (covers_equal left right p 0 0); [intros i Hi; destruct (Hpre i Hi) as (c & H1 & H2); by apply (Hid _ _ c)|].
  cbn [Nat.add]. apply S3. apply covers_delete; [lia|]. apply covers_insert; [lia|].
  replace (nl + _)%nat with (length lids - s)%nat by lia. replace (nr + _)%nat with (length rids - s)%nat by lia.
  rewrite <- (app_nil_r (replicate s Equal)). apply covers_equal.
  - intros i Hi. destruct (Hsuf i Hi) as (c & H1 & H2). by apply (Hid _ _ c).
  - rewrite !drop_ge by lia. done.
Qed.

(** ** Claims *)

Definition witness_left : list (list byte) := map bytes_of_string ["a"; "b"; "c"; "a"; "b"; "b"; "a"]%string.
Definition witness_right : list (list byte) := map bytes_of_string ["c"; "b"; "a"; "b"; "a"; "c"]%string.

(** C34: for any two files and any work limit the diff returns a script, however early the limit cuts the
    search short.  The script covers both sides exactly - each line of the left is kept or deleted once,
    each line of the right kept or inserted once, kept lines are equal - so that replaying it over the left
    side gives the right side; and the search spends at most the limit and twice one pass over the left. *)
Theorem edit_script_sound (left right : list (list byte)) (limit : Z) : 0 <= limit ->
  exists script, edit_script_within left right limit = Some script /\
    covers (es_ops script) left right = true /\
    patched (es_ops script) left (inserted_lines (es_ops script) right) = right /\
    es_steps script <= limit + 2 * (1 + Z.of_nat (length left)).
Proof.
  intros Hl. destruct (edit_script_spec left right limit Hl) as (script & Hs & Hc & Hw). exists script.
  split_and!; [done|done|by apply covers_patched|done].
Qed.

(** With the work bound the script is minimal; with three steps it is not, and still patches. *)
Lemma edit_script_sound_witness :
  (exists script, edit_script_within witness_left witness_right WORK_BOUND_STEPS = Some script /\ es_minimal script = true /\ covers (es_ops script) witness_left witness_right = true) /\
  (exists script, edit_script_within witness_left witness_right 3 = Some script /\ es_minimal script = false /\ patched (es_ops script) witness_left (inserted_lines (es_ops script) witness_right) = witness_right).
Proof.
  split.
  - destruct (edit_script_sound witness_left witness_right WORK_BOUND_STEPS) as (script & Hs & Hc & _); [vm_compute; congruence|]. exists script. split; [exact Hs|]. split; [|exact Hc].
    assert (Hm : (es_minimal <$> edit_script_within witness_left witness_right WORK_BOUND_STEPS) = Some true) by (vm_compute; reflexivity). rewrite Hs in Hm. by injection Hm.
  - destruct (edit_script_sound witness_left witness_right 3) as (script & Hs & _ & Hp & _); [lia|]. exists script. split; [exact Hs|]. split; [|exact Hp].
    assert (Hm : (es_minimal <$> edit_script_within witness_left witness_right 3) = Some false) by (vm_compute; reflexivity). rewrite Hs in Hm. by injection Hm.
Defined.
