(* ===== verification/PatchAlgebra.v ===== *)
(** * Patch algebra: classifying a pair of operations (crates/prikk-store/src/patch_algebra)

    Types, evidence, per-operation facts, preimage checks and the classification of two operations
    against a baseline: [facts.rs], [witness.rs], [preimage.rs], [text_preimage.rs], [text_pair.rs],
    [create.rs], [delete.rs] and [classify.rs].  Evidence about stored content is a class
    ([PatchAlgebraEvidence], evidence_types.rs), so what is proved of a classification holds for every
    evidence source. *)

From S2P Require Import Prelude PrikkError Hash ObjectId Blob RepoPath Lifecycle Patch PatchDecode TextSpan.

(** ** Evidence (evidence_types.rs) *)

Inductive EvidenceScope : Type := SealedBaselineRequired | SealedCandidateRequired | UnsealedCandidateOptional.
#[global] Instance EvidenceScope_eq_dec : EqDecision EvidenceScope.
Proof. solve_decision. Defined.

Inductive EvidenceFact : Type := FactBaselineState | FactBlobKind | FactBlobBytes | FactBaselineText | FactOperation.

Inductive EvidenceError : Type :=
| ErrMissing (scope : EvidenceScope) (fact : EvidenceFact) (object_id : option ObjectId) (node_id : option NodeId)
| ErrWrongObjectType (scope : EvidenceScope) (object_id : ObjectId) (expected actual : ObjectType)
| ErrWrongBlobKind (scope : EvidenceScope) (blob_id : ObjectId) (expected actual : BlobKind)
| ErrMalformed (scope : EvidenceScope) (fact : EvidenceFact) (object_id : option ObjectId) (reason : string)
| ErrUnreadable (scope : EvidenceScope) (fact : EvidenceFact) (object_id : option ObjectId) (reason : string).

Inductive Evidence (T : Type) : Type :=
| Known (value : T)
| Missing (scope : EvidenceScope) (fact : EvidenceFact) (object_id : option ObjectId) (node_id : option NodeId)
| WrongObjectType (scope : EvidenceScope) (object_id : ObjectId) (expected actual : ObjectType)
| WrongBlobKind (scope : EvidenceScope) (blob_id : ObjectId) (expected actual : BlobKind)
| Malformed (scope : EvidenceScope) (fact : EvidenceFact) (object_id : option ObjectId) (reason : string)
| Unreadable (scope : EvidenceScope) (fact : EvidenceFact) (object_id : option ObjectId) (reason : string).
Arguments Known {T}.
Arguments Missing {T}.
Arguments WrongObjectType {T}.
Arguments WrongBlobKind {T}.
Arguments Malformed {T}.
Arguments Unreadable {T}.

Definition into_error {T} (evidence : Evidence T) : EvidenceError :=
  match evidence with
  | Known _ => ErrMalformed UnsealedCandidateOptional FactBlobBytes None "internal evidence conversion received known evidence"
  | Missing scope fact object_id node_id => ErrMissing scope fact object_id node_id
  | WrongObjectType scope object_id expected actual => ErrWrongObjectType scope object_id expected actual
  | WrongBlobKind scope blob_id expected actual => ErrWrongBlobKind scope blob_id expected actual
  | Malformed scope fact object_id reason => ErrMalformed scope fact object_id reason
  | Unreadable scope fact object_id reason => ErrUnreadable scope fact object_id reason
  end.

(** What an evidence source answers. *)
Class PatchAlgebraEvidence : Type := {
  baseline_text : EvidenceScope -> NodeId -> ObjectId -> Evidence (list byte);
  evidence_blob_kind : EvidenceScope -> ObjectId -> Evidence BlobKind;
  evidence_blob_content : EvidenceScope -> ObjectId -> Evidence (BlobKind * list byte);
}.

(** Nothing is known. *)
Definition NoPatchAlgebraEvidence : PatchAlgebraEvidence := {|
  baseline_text scope node_id blob_id := Missing scope FactBaselineText (Some blob_id) (Some node_id);
  evidence_blob_kind scope blob_id := Missing scope FactBlobKind (Some blob_id) None;
  evidence_blob_content scope blob_id := Missing scope FactBlobBytes (Some blob_id) None;
|}.

(** ** Types (types.rs) *)

Inductive RequiredOrder : Type := LeftBeforeRight | RightBeforeLeft.

Inductive ConflictWitnessKind : Type :=
| SamePathCreate | RenameDestinationConflict | NodeIdReuse | LiveStateMismatch | KindMismatch | ModeMismatch
| BlobMismatch | TextSpanOverlap | TextAnchorStale | DeleteMutationConflict | UnsupportedOperation
| MalformedOperationWitness | UnknownRelationWitness.

Inductive UnknownReason : Type :=
| MalformedOperation | SameNodeTextCommutationDeferred | SymlinkDeferred | MissingCandidateEvidence
| SequenceInternalDependencyDeferred | UnknownRelation.

Record ConflictWitness : Type := mkWitness {
  cw_kind : ConflictWitnessKind;
  cw_left_op_seq : Z;
  cw_right_op_seq : Z;
  cw_node_id : option NodeId;
  cw_path : option RepoPath;
  cw_text_span : option (list byte);
}.

Inductive PairClass : Type :=
| Independent
| OrderedDependency (required_order : RequiredOrder) (witness : ConflictWitness)
| Conflict (witness : ConflictWitness)
| UnknownClass (reason : UnknownReason) (witness : ConflictWitness).

Abbreviation ClassificationResult := (Result EvidenceError PairClass).

Record PathEffects : Type := mkPathEffects {
  occupied_before : gset RepoPath;
  required_free : gset RepoPath;
  occupied_after : gset RepoPath;
  freed : gset RepoPath;
  newly_occupied : gset RepoPath;
}.

Definition PathEffects_default : PathEffects := mkPathEffects ∅ ∅ ∅ ∅ ∅.

(** The fields of an [EditText] that identify its span (text_preimage.rs), also those its [Action] carries. *)
Record TextPreimage : Type := mkTextPreimage {
  tp_span_id : list byte;
  tp_old_span_hash : list byte;
  tp_left_anchor_hash : list byte;
  tp_right_anchor_hash : list byte;
  tp_old_span_text : list byte;
  tp_left_anchor_len : option Z;
  tp_right_anchor_len : option Z;
}.

Inductive Action : Type :=
| ACreateFile (path : RepoPath) (node_id : NodeId) (blob_id : ObjectId) (mode : Z)
| ADeleteFile (path : RepoPath) (node_id : NodeId) (old_node_kind : NodeKind) (old_blob_id : ObjectId) (old_mode : Z)
| ADeleteSymlink (path : RepoPath) (node_id : NodeId)
| AEditText (node_id : NodeId) (edit : TextPreimage)
| AReplaceBinary (node_id : NodeId) (old_blob_id new_blob_id : ObjectId)
| ARenamePath (node_id : NodeId) (old_path new_path : RepoPath)
| AChangePerm (node_id : NodeId) (old_mode new_mode : Z)
| ACreateSymlink (path : RepoPath) (node_id : NodeId).

Record OperationFacts : Type := mkFacts {
  of_op_seq : Z;
  of_node_id : option NodeId;
  of_action : Action;
  of_path_effects : PathEffects;
}.

(** ** Facts (facts.rs) *)

Definition facts_parse_path (path : list byte) : Result UnknownReason RepoPath :=
  map_err (fun _ => MalformedOperation) (RepoPath_parse path).

Definition action_node_id (action : Action) : option NodeId :=
  match action with
  | ACreateFile _ node_id _ _ | ADeleteFile _ node_id _ _ _ | ADeleteSymlink _ node_id | AEditText node_id _
  | AReplaceBinary node_id _ _ | ARenamePath node_id _ _ | AChangePerm node_id _ _ | ACreateSymlink _ node_id =>
      Some node_id
  end.

Definition operation_facts (operation : DecodedPatchOperation) : Result UnknownReason OperationFacts :=
  let? '(action, effects) :=
    match d_kind operation with
    | DCreateFile path node_id blob_id mode =>
        let? path := facts_parse_path path in
        Ok (ACreateFile path node_id blob_id mode, mkPathEffects ∅ {[path]} {[path]} ∅ {[path]})
    | DDeleteNode path node_id preimage =>
        let? path := facts_parse_path path in
        Ok (match preimage with
            | DecodedFile old_node_kind old_blob_id old_mode => ADeleteFile path node_id old_node_kind old_blob_id old_mode
            | DecodedSymlink _ => ADeleteSymlink path node_id
            end, mkPathEffects {[path]} ∅ ∅ {[path]} ∅)
    | DEditText node_id span_id old_span_hash left_anchor_hash right_anchor_hash _ old_span_text left_anchor_len right_anchor_len =>
        Ok (AEditText node_id (mkTextPreimage span_id old_span_hash left_anchor_hash right_anchor_hash old_span_text
                                 left_anchor_len right_anchor_len), PathEffects_default)
    | DReplaceBinary node_id old_blob_id new_blob_id => Ok (AReplaceBinary node_id old_blob_id new_blob_id, PathEffects_default)
    | DRenamePath node_id old_path new_path =>
        let? old_path := facts_parse_path old_path in
        let? new_path := facts_parse_path new_path in
        Ok (ARenamePath node_id old_path new_path, mkPathEffects {[old_path]} {[new_path]} {[new_path]} {[old_path]} {[new_path]})
    | DChangePerm node_id old_mode new_mode => Ok (AChangePerm node_id old_mode new_mode, PathEffects_default)
    | DCreateSymlink path node_id _ =>
        let? path := facts_parse_path path in
        Ok (ACreateSymlink path node_id, mkPathEffects ∅ {[path]} {[path]} ∅ {[path]})
    end in
  Ok (mkFacts (d_op_seq operation) (action_node_id action) action effects).

Definition deferred_reason (action : Action) : option UnknownReason :=
  match action with
  | ACreateSymlink _ _ | ADeleteSymlink _ _ => Some SymlinkDeferred
  | _ => None
  end.

(** ** Witnesses (witness.rs) *)

Definition ordered (required_order : RequiredOrder) (kind : ConflictWitnessKind) (left right : OperationFacts)
    (node_id : option NodeId) (path : option RepoPath) : PairClass :=
  OrderedDependency required_order (mkWitness kind (of_op_seq left) (of_op_seq right) node_id path None).

Definition conflict (kind : ConflictWitnessKind) (left right : OperationFacts) (node_id : option NodeId)
    (path : option RepoPath) : PairClass :=
  Conflict (mkWitness kind (of_op_seq left) (of_op_seq right) node_id path None).

Definition conflict_with_span (kind : ConflictWitnessKind) (left right : OperationFacts) (node_id : NodeId)
    (path : option RepoPath) (span_id : list byte) : PairClass :=
  Conflict (mkWitness kind (of_op_seq left) (of_op_seq right) (Some node_id) path (Some span_id)).

Definition unknown (reason : UnknownReason) (left right : DecodedPatchOperation) (node_id : option NodeId)
    (path : option RepoPath) : PairClass :=
  UnknownClass reason
    (mkWitness (match reason with
                | MalformedOperation => MalformedOperationWitness
                | SymlinkDeferred => UnsupportedOperation
                | _ => UnknownRelationWitness
                end) (d_op_seq left) (d_op_seq right) node_id path None).

Definition unknown_from_facts (reason : UnknownReason) (left right : OperationFacts) (node_id : option NodeId)
    (path : option RepoPath) : PairClass :=
  UnknownClass reason (mkWitness UnknownRelationWitness (of_op_seq left) (of_op_seq right) node_id path None).

Definition operand_path (baseline : NodeLifecycleState) (facts : OperationFacts) : option RepoPath :=
  match of_action facts with
  | ACreateFile path _ _ _ | ADeleteFile path _ _ _ _ | ADeleteSymlink path _ | ACreateSymlink path _ => Some path
  | ARenamePath _ _ new_path => Some new_path
  | AEditText node_id _ | AReplaceBinary node_id _ _ | AChangePerm node_id _ _ => ln_path <$> live_node baseline node_id
  end.

Definition derive_path (baseline : NodeLifecycleState) (left right : OperationFacts) : option RepoPath :=
  match operand_path baseline left, operand_path baseline right with
  | Some left_path, Some right_path => if bool_decide (left_path = right_path) then Some left_path else None
  | Some left_path, None => Some left_path
  | None, Some right_path => Some right_path
  | None, None => None
  end.

Definition common_node (left right : OperationFacts) : option NodeId :=
  match of_node_id left, of_node_id right with
  | Some left_id, Some right_id => if bool_decide (left_id = right_id) then Some left_id else None
  | _, _ => None
  end.

(** ** Preimages (preimage.rs, text_preimage.rs) *)

Inductive PreimageStatus : Type :=
| PreimageValid
| PreimageConflict (kind : ConflictWitnessKind) (node_id : option NodeId) (path : option RepoPath)
| PreimageUnknown (reason : UnknownReason) (node_id : option NodeId) (path : option RepoPath).

Definition baseline_file_matches (baseline : NodeLifecycleState) (node_id : NodeId) (kind : NodeKind)
    (blob_id : ObjectId) (mode : Z) : bool :=
  match live_node baseline node_id with
  | None => false
  | Some live =>
      if negb (bool_decide (ln_kind live = kind)) then false
      else match ln_content live with
           | FileContent live_blob live_mode => bool_decide (live_blob = blob_id) && (live_mode =? mode)
           | SymlinkContent _ => false
           end
  end.

Definition baseline_text_blob_for_mode (baseline : NodeLifecycleState) (node_id : NodeId) (mode : Z) : option ObjectId :=
  match live_node baseline node_id with
  | None => None
  | Some live =>
      if negb (bool_decide (ln_kind live = TextFile)) then None
      else match ln_content live with
           | FileContent blob_id live_mode => if live_mode =? mode then Some blob_id else None
           | SymlinkContent _ => None
           end
  end.

Section classify.
Context `{Sha256}.

(** [resolve_text_span] with the fields of an edit. *)
Definition resolve_edit (text : list byte) (node_id : NodeId) (edit : TextPreimage)
  : Result TextSpanResolutionFailure (nat * nat) :=
  resolve_text_span text (tp_old_span_text edit) (tp_left_anchor_hash edit) (tp_right_anchor_hash edit)
    (tp_span_id edit) node_id (tp_old_span_hash edit) (tp_left_anchor_len edit) (tp_right_anchor_len edit).

Definition validate_text_preimage (baseline : NodeLifecycleState) (E : PatchAlgebraEvidence) (node_id : NodeId)
    (preimage : TextPreimage) : Result EvidenceError PreimageStatus :=
  if negb (bool_decide (text_span_hash (tp_old_span_text preimage) = tp_old_span_hash preimage))
  then Ok (PreimageConflict TextAnchorStale (Some node_id) None)
  else
    match live_node baseline node_id with
    | None => Ok (PreimageConflict LiveStateMismatch (Some node_id) None)
    | Some live =>
        if negb (bool_decide (ln_kind live = TextFile))
        then Ok (PreimageConflict KindMismatch (Some node_id) (Some (ln_path live)))
        else
          match ln_content live with
          | SymlinkContent _ => Ok (PreimageConflict KindMismatch (Some node_id) (Some (ln_path live)))
          | FileContent blob_id _ =>
              match baseline_text SealedBaselineRequired node_id blob_id with
              | Known current_text =>
                  match resolve_edit current_text node_id preimage with
                  | Ok _ => Ok PreimageValid
                  | Err _ => Ok (PreimageConflict TextAnchorStale (Some node_id) (Some (ln_path live)))
                  end
              | other => Err (into_error other)
              end
          end
    end.

Definition validate_preimage (baseline : NodeLifecycleState) (E : PatchAlgebraEvidence) (facts : OperationFacts)
  : Result EvidenceError PreimageStatus :=
  match of_action facts with
  | ACreateFile path node_id _ _ =>
      if is_some (node_id_at baseline path) then Ok (PreimageConflict SamePathCreate (Some node_id) (Some path))
      else if contains_seen_node_id baseline node_id then Ok (PreimageConflict NodeIdReuse (Some node_id) (Some path))
      else Ok PreimageValid
  | ADeleteFile path node_id old_node_kind old_blob_id old_mode =>
      if baseline_file_matches baseline node_id old_node_kind old_blob_id old_mode
         && bool_decide (node_id_at baseline path = Some node_id)
      then Ok PreimageValid
      else Ok (PreimageConflict LiveStateMismatch (Some node_id) (Some path))
  | AEditText node_id edit => validate_text_preimage baseline E node_id edit
  | AReplaceBinary node_id old_blob_id _ =>
      match live_node baseline node_id with
      | None => Ok (PreimageConflict LiveStateMismatch (Some node_id) None)
      | Some live =>
          match ln_content live with
          | FileContent blob_id _ =>
              if bool_decide (ln_kind live = BinaryFile) && bool_decide (blob_id = old_blob_id) then Ok PreimageValid
              else if negb (bool_decide (ln_kind live = BinaryFile))
              then Ok (PreimageConflict KindMismatch (Some node_id) (Some (ln_path live)))
              else Ok (PreimageConflict BlobMismatch (Some node_id) (Some (ln_path live)))
          | SymlinkContent _ => Ok (PreimageConflict KindMismatch (Some node_id) (Some (ln_path live)))
          end
      end
  | AChangePerm node_id old_mode _ =>
      match live_node baseline node_id with
      | None => Ok (PreimageConflict LiveStateMismatch (Some node_id) None)
      | Some live =>
          match ln_content live with
          | FileContent _ mode =>
              if mode =? old_mode then Ok PreimageValid
              else Ok (PreimageConflict ModeMismatch (Some node_id) (Some (ln_path live)))
          | SymlinkContent _ => Ok (PreimageConflict KindMismatch (Some node_id) (Some (ln_path live)))
          end
      end
  | ARenamePath node_id old_path _ =>
      match live_node baseline node_id with
      | Some live =>
          if bool_decide (ln_path live = old_path) then Ok PreimageValid
          else Ok (PreimageConflict LiveStateMismatch (Some node_id) (Some (ln_path live)))
      | None => Ok (PreimageConflict LiveStateMismatch (Some node_id) (Some old_path))
      end
  | ACreateSymlink _ _ | ADeleteSymlink _ _ =>
      Ok (PreimageUnknown (default UnknownRelation (deferred_reason (of_action facts))) (of_node_id facts) None)
  end.

Definition or_else {A} (o : option A) (d : option A) : option A := match o with Some a => Some a | None => d end.

Definition invalid_preimage_class (baseline : NodeLifecycleState) (E : PatchAlgebraEvidence)
    (subject peer : OperationFacts) : Result EvidenceError (option PairClass) :=
  let? status := validate_preimage baseline E subject in
  Ok (match status with
      | PreimageValid => None
      | PreimageConflict kind node_id path => Some (conflict kind subject peer (or_else node_id (of_node_id subject)) path)
      | PreimageUnknown reason node_id path =>
          Some (unknown_from_facts reason subject peer (or_else node_id (of_node_id subject)) path)
      end).

Definition is_delete_preimage_valid (baseline : NodeLifecycleState) (facts : OperationFacts) : bool :=
  match of_action facts with
  | ADeleteFile _ _ _ _ _ =>
      match validate_preimage baseline NoPatchAlgebraEvidence facts with Ok PreimageValid => true | _ => false end
  | _ => false
  end.

Definition is_create_after_delete_valid (baseline : NodeLifecycleState) (del create : OperationFacts) : bool :=
  match of_action del, of_action create with
  | ADeleteFile deleted_path _ _ _ _, ACreateFile created_path created_node_id _ _ =>
      if negb (bool_decide (deleted_path = created_path)) then false
      else negb (contains_seen_node_id baseline created_node_id)
  | _, _ => false
  end.

(** ** A create and a change of one node (create.rs) *)

Definition invalid_create_in_same_node_pair (baseline : NodeLifecycleState) (create_candidate peer : OperationFacts)
  : option ClassificationResult :=
  match of_action create_candidate with
  | ACreateFile _ _ _ _ =>
      match invalid_preimage_class baseline NoPatchAlgebraEvidence create_candidate peer with
      | Ok (Some class) => Some (Ok class)
      | Ok None => None
      | Err err => Some (Err err)
      end
  | _ => None
  end.

Definition classify_create_then_replace_binary (baseline : NodeLifecycleState) (E : PatchAlgebraEvidence)
    (left right : OperationFacts) (node_id : NodeId) (required_order : RequiredOrder)
    (create_blob_id replace_old_blob_id : ObjectId) : ClassificationResult :=
  let path := derive_path baseline left right in
  if negb (bool_decide (create_blob_id = replace_old_blob_id))
  then Ok (conflict BlobMismatch left right (Some node_id) path)
  else
    match evidence_blob_kind UnsealedCandidateOptional create_blob_id with
    | Known BlobBinary => Ok (ordered required_order LiveStateMismatch left right (Some node_id) path)
    | Known (BlobText | BlobSnapshot) => Ok (conflict KindMismatch left right (Some node_id) path)
    | Missing UnsealedCandidateOptional _ _ _ =>
        Ok (unknown_from_facts MissingCandidateEvidence left right (Some node_id) path)
    | other => Err (into_error other)
    end.

Definition classify_create_then_edit_text (baseline : NodeLifecycleState) (E : PatchAlgebraEvidence)
    (left right : OperationFacts) (node_id : NodeId) (required_order : RequiredOrder)
    (create_blob_id : ObjectId) (edit : TextPreimage) : ClassificationResult :=
  let path := derive_path baseline left right in
  match evidence_blob_content UnsealedCandidateOptional create_blob_id with
  | Known (kind, content) =>
      if negb (bool_decide (kind = BlobText)) then Ok (conflict KindMismatch left right (Some node_id) path)
      else if negb (bool_decide (text_span_hash (tp_old_span_text edit) = tp_old_span_hash edit))
      then Ok (conflict_with_span TextAnchorStale left right node_id path (tp_span_id edit))
      else
        match resolve_edit content node_id edit with
        | Ok _ => Ok (ordered required_order LiveStateMismatch left right (Some node_id) path)
        | Err _ => Ok (conflict_with_span TextAnchorStale left right node_id path (tp_span_id edit))
        end
  | Missing UnsealedCandidateOptional _ _ _ =>
      Ok (unknown_from_facts MissingCandidateEvidence left right (Some node_id) path)
  | other => Err (into_error other)
  end.

Definition classify_create_then_mutate (baseline : NodeLifecycleState) (E : PatchAlgebraEvidence)
    (left right : OperationFacts) (node_id : NodeId) : option ClassificationResult :=
  let path := derive_path baseline left right in
  match invalid_create_in_same_node_pair baseline left right with
  | Some class => Some class
  | None =>
      match invalid_create_in_same_node_pair baseline right left with
      | Some class => Some class
      | None =>
          match of_action left, of_action right with
          | ACreateFile _ _ _ mode, AChangePerm _ old_mode _ =>
              Some (Ok (if mode =? old_mode then ordered LeftBeforeRight LiveStateMismatch left right (Some node_id) path
                        else conflict ModeMismatch left right (Some node_id) path))
          | AChangePerm _ old_mode _, ACreateFile _ _ _ mode =>
              Some (Ok (if mode =? old_mode then ordered RightBeforeLeft LiveStateMismatch left right (Some node_id) path
                        else conflict ModeMismatch left right (Some node_id) path))
          | ACreateFile _ _ blob_id _, AReplaceBinary _ old_blob_id _ =>
              Some (classify_create_then_replace_binary baseline E left right node_id LeftBeforeRight blob_id old_blob_id)
          | AReplaceBinary _ old_blob_id _, ACreateFile _ _ blob_id _ =>
              Some (classify_create_then_replace_binary baseline E left right node_id RightBeforeLeft blob_id old_blob_id)
          | ACreateFile _ _ blob_id _, AEditText _ edit =>
              Some (classify_create_then_edit_text baseline E left right node_id LeftBeforeRight blob_id edit)
          | AEditText _ edit, ACreateFile _ _ blob_id _ =>
              Some (classify_create_then_edit_text baseline E left right node_id RightBeforeLeft blob_id edit)
          | ACreateFile _ _ _ _, _ | _, ACreateFile _ _ _ _ => Some (Ok (conflict NodeIdReuse left right (Some node_id) path))
          | _, _ => None
          end
      end
  end.

(** ** A change and a deletion of one node (delete.rs) *)

Definition classify_mutate_then_delete (baseline : NodeLifecycleState) (left right : OperationFacts) (node_id : NodeId)
  : option PairClass :=
  let path := derive_path baseline left right in
  let deletes := conflict DeleteMutationConflict left right (Some node_id) path in
  match of_action left, of_action right with
  | AChangePerm _ old_mode new_mode, ADeleteFile _ _ old_node_kind old_blob_id delete_mode =>
      Some (if (new_mode =? delete_mode) && baseline_file_matches baseline node_id old_node_kind old_blob_id old_mode
            then ordered LeftBeforeRight LiveStateMismatch left right (Some node_id) path else deletes)
  | ADeleteFile _ _ old_node_kind old_blob_id delete_mode, AChangePerm _ old_mode new_mode =>
      Some (if (new_mode =? delete_mode) && baseline_file_matches baseline node_id old_node_kind old_blob_id old_mode
            then ordered RightBeforeLeft LiveStateMismatch left right (Some node_id) path else deletes)
  | AReplaceBinary _ old_blob_id new_blob_id, ADeleteFile _ _ old_node_kind delete_blob old_mode =>
      Some (if bool_decide (new_blob_id = delete_blob) && baseline_file_matches baseline node_id old_node_kind old_blob_id old_mode
            then ordered LeftBeforeRight LiveStateMismatch left right (Some node_id) path else deletes)
  | ADeleteFile _ _ old_node_kind delete_blob old_mode, AReplaceBinary _ old_blob_id new_blob_id =>
      Some (if bool_decide (new_blob_id = delete_blob) && baseline_file_matches baseline node_id old_node_kind old_blob_id old_mode
            then ordered RightBeforeLeft LiveStateMismatch left right (Some node_id) path else deletes)
  | _, _ => None
  end.

(** ** A mode change and an edit of one node (text_pair.rs) *)

Definition classify_mode_and_text_edit (baseline : NodeLifecycleState) (E : PatchAlgebraEvidence)
    (left right : OperationFacts) (node_id : NodeId) (old_mode : Z) (edit : TextPreimage) : ClassificationResult :=
  let path := derive_path baseline left right in
  match baseline_text_blob_for_mode baseline node_id old_mode with
  | None => Ok (conflict LiveStateMismatch left right (Some node_id) path)
  | Some current_blob_id =>
      match baseline_text SealedBaselineRequired node_id current_blob_id with
      | Known current_text =>
          if negb (bool_decide (text_span_hash (tp_old_span_text edit) = tp_old_span_hash edit))
          then Ok (conflict_with_span TextAnchorStale left right node_id path (tp_span_id edit))
          else
            match resolve_edit current_text node_id edit with
            | Ok _ => Ok Independent
            | Err _ => Ok (conflict_with_span TextAnchorStale left right node_id path (tp_span_id edit))
            end
      | other => Err (into_error other)
      end
  end.

(** ** Classification (classify.rs) *)

Definition classify_same_path_create (baseline : NodeLifecycleState) (left right : OperationFacts) : option PairClass :=
  if negb (bool_decide (newly_occupied (of_path_effects left) ## newly_occupied (of_path_effects right)))
  then Some (conflict SamePathCreate left right (common_node left right) (derive_path baseline left right))
  else None.

Definition classify_rename_destination_conflict (baseline : NodeLifecycleState) (left right : OperationFacts)
  : option PairClass :=
  match of_action left, of_action right with
  | ARenamePath left_node _ left_new, ARenamePath right_node _ right_new =>
      if negb (bool_decide (left_node = right_node)) || bool_decide (left_new = right_new) then None
      else Some (conflict RenameDestinationConflict left right (Some left_node) (derive_path baseline left right))
  | _, _ => None
  end.

Definition has_rename (facts : OperationFacts) : bool :=
  match of_action facts with ARenamePath _ _ _ => true | _ => false end.

(** One direction of the [freed] against [required_free] check: [first] frees what [second] needs. *)
Definition classify_freed_then_required (baseline : NodeLifecycleState) (first second left right : OperationFacts)
    (required_order : RequiredOrder) : option PairClass :=
  if negb (bool_decide (freed (of_path_effects first) ## required_free (of_path_effects second))) then
    if negb (is_delete_preimage_valid baseline first) || negb (is_create_after_delete_valid baseline first second)
    then Some (conflict LiveStateMismatch left right (common_node left right) (derive_path baseline left right))
    else Some (ordered required_order LiveStateMismatch left right (common_node left right) (derive_path baseline left right))
  else None.

Definition classify_freed_twice (baseline : NodeLifecycleState) (left right : OperationFacts) : option PairClass :=
  if negb (bool_decide (freed (of_path_effects left) ## freed (of_path_effects right)))
  then Some (conflict DeleteMutationConflict left right (common_node left right) (derive_path baseline left right))
  else None.

Definition classify_path_relation (baseline : NodeLifecycleState) (left right : OperationFacts) : option PairClass :=
  match classify_rename_destination_conflict baseline left right with
  | Some class => Some class
  | None =>
      match classify_same_path_create baseline left right with
      | Some class => Some class
      | None =>
          if has_rename left || has_rename right then classify_freed_twice baseline left right
          else
            match classify_freed_then_required baseline left right left right LeftBeforeRight with
            | Some class => Some class
            | None =>
                match classify_freed_then_required baseline right left left right RightBeforeLeft with
                | Some class => Some class
                | None => classify_freed_twice baseline left right
                end
            end
      end
  end.

Definition classify_cross_node (baseline : NodeLifecycleState) (E : PatchAlgebraEvidence) (left right : OperationFacts)
  : ClassificationResult :=
  let? class := invalid_preimage_class baseline E left right in
  match class with
  | Some class => Ok class
  | None =>
      let? class := invalid_preimage_class baseline E right left in
      match class with
      | Some class => Ok class
      | None => Ok Independent
      end
  end.

Definition classify_same_node (baseline : NodeLifecycleState) (E : PatchAlgebraEvidence) (left right : OperationFacts)
    (node_id : NodeId) : ClassificationResult :=
  let path := derive_path baseline left right in
  match classify_create_then_mutate baseline E left right node_id with
  | Some class => class
  | None =>
      match classify_mutate_then_delete baseline left right node_id with
      | Some class => Ok class
      | None =>
          match of_action left, of_action right with
          | AEditText _ left_edit, AEditText _ right_edit =>
              if bool_decide (tp_span_id left_edit = tp_span_id right_edit)
              then Ok (conflict_with_span TextSpanOverlap left right node_id path (tp_span_id left_edit))
              else Ok (unknown_from_facts SameNodeTextCommutationDeferred left right (Some node_id) path)
          | AChangePerm _ old_mode _, AReplaceBinary _ old_blob_id _
          | AReplaceBinary _ old_blob_id _, AChangePerm _ old_mode _ =>
              if baseline_file_matches baseline node_id BinaryFile old_blob_id old_mode then Ok Independent
              else Ok (conflict LiveStateMismatch left right (Some node_id) path)
          | ARenamePath _ _ _, (AEditText _ _ | AChangePerm _ _ _ | AReplaceBinary _ _ _)
          | (AEditText _ _ | AChangePerm _ _ _ | AReplaceBinary _ _ _), ARenamePath _ _ _ => Ok Independent
          | AChangePerm _ old_mode _, AEditText _ edit
          | AEditText _ edit, AChangePerm _ old_mode _ =>
              classify_mode_and_text_edit baseline E left right node_id old_mode edit
          | _, _ => Ok (conflict UnknownRelationWitness left right (Some node_id) path)
          end
      end
  end.

(** The match on the two nodes: the same one, or two. *)
Definition classify_by_node (baseline : NodeLifecycleState) (E : PatchAlgebraEvidence) (left right : OperationFacts)
  : ClassificationResult :=
  match of_node_id left, of_node_id right with
  | Some left_node, Some right_node =>
      if bool_decide (left_node = right_node) then classify_same_node baseline E left right left_node
      else classify_cross_node baseline E left right
  | _, _ => classify_cross_node baseline E left right
  end.

Definition classify_pair_with_text_resolver (baseline : NodeLifecycleState) (E : PatchAlgebraEvidence)
    (left right : DecodedPatchOperation) : ClassificationResult :=
  match operation_facts left with
  | Err reason => Ok (unknown reason left right None None)
  | Ok left_facts =>
      match operation_facts right with
      | Err reason => Ok (unknown reason left right None None)
      | Ok right_facts =>
          let left_deferred := deferred_reason (of_action left_facts) in
          let right_deferred := deferred_reason (of_action right_facts) in
          match or_else left_deferred right_deferred with
          | Some reason =>
              let path :=
                or_else (derive_path baseline left_facts right_facts)
                  (if is_some left_deferred then operand_path baseline left_facts else operand_path baseline right_facts) in
              Ok (unknown reason left right (common_node left_facts right_facts) path)
          | None =>
              match classify_path_relation baseline left_facts right_facts with
              | Some class => Ok class
              | None => classify_by_node baseline E left_facts right_facts
              end
          end
      end
  end.
End classify.
