(* ===== verification/ReplayOracle.v ===== *)
(** * The replay oracle, commutation and confluence (patch_algebra/replay_oracle.rs, commutation.rs)

    The oracle replays operations on a copy of the baseline's lifecycle state and the texts it reads or
    edits.  A pair commutes when it is classified independent and both orders replay to equal states; two
    sequences are confluent when every pair commutes and both concatenations replay to equal states. *)

From S2P Require Import Prelude PrikkError Hash ObjectId Blob RepoPath Lifecycle Patch PatchDecode TextSpan.
From S2P Require Import PatchAlgebra.

#[global] Instance NodeLifecycleState_eq_dec : EqDecision NodeLifecycleState.
Proof. solve_decision. Defined.

Record OracleState : Type := mkOracle {
  os_lifecycle : NodeLifecycleState;
  os_texts : gmap NodeId (list byte);
}.
#[global] Instance OracleState_eq_dec : EqDecision OracleState.
Proof. solve_decision. Defined.

Definition os_text (s : OracleState) (node_id : NodeId) : option (list byte) := os_texts s !! node_id.
Definition os_text_nodes (s : OracleState) : list NodeId := (btree_iter (os_texts s)).*1.

Inductive OracleFailure : Type :=
| FailEvidence (error : EvidenceError)
| FailUnknown (reason : UnknownReason)
| FailReplay.

(** The lifecycle part of an oracle state after a method that may fail with [OracleFailure::Replay]. *)
Definition oracle_mut {A} (s : OracleState) (m : Mut A) : Result OracleFailure OracleState :=
  match m.1 with
  | Ok _ => Ok (mkOracle m.2 (os_texts s))
  | Err _ => Err FailReplay
  end.

(** Both renames, of one declared patch. *)
Definition same_rename_batch (first second : DecodedPatchOperation) : bool :=
  match d_kind first, d_kind second with
  | DRenamePath _ _ _, DRenamePath _ _ _ => is_some (d_patch_id first) && bool_decide (d_patch_id first = d_patch_id second)
  | _, _ => false
  end.

(** [while start > 0 && joins(sequence[start - 1])], and the loop to the right. *)
Fixpoint unit_start (sequence : list DecodedPatchOperation) (subject : DecodedPatchOperation) (start : nat) : nat :=
  match start with
  | O => O
  | S before =>
      match sequence !! before with
      | Some prior => if same_rename_batch prior subject then unit_start sequence subject before else start
      | None => start
      end
  end.

Fixpoint unit_len (rest : list DecodedPatchOperation) (subject : DecodedPatchOperation) : nat :=
  match rest with
  | next :: rest' => if same_rename_batch subject next then S (unit_len rest' subject) else 0
  | [] => 0
  end.

Definition replay_unit (sequence : list DecodedPatchOperation) (index : nat) : list DecodedPatchOperation :=
  match sequence !! index with
  | None => []
  | Some subject =>
      let start := unit_start sequence subject index in
      let end_ := (S index + unit_len (drop (S index) sequence) subject)%nat in
      take (end_ - start) (drop start sequence)
  end.

Definition malformed_operation (scope : EvidenceScope) (reason : string) : OracleFailure :=
  if bool_decide (scope = UnsealedCandidateOptional) then FailUnknown MalformedOperation
  else FailEvidence (ErrMalformed scope FactOperation None reason).

Definition oracle_parse_repo_path (scope : EvidenceScope) (path : list byte) : Result OracleFailure RepoPath :=
  map_err (fun _ => malformed_operation scope "malformed oracle path") (RepoPath_parse path).

Definition oracle_rename_triple (candidate_scope : EvidenceScope) (operation : DecodedPatchOperation)
  : Result OracleFailure Rename :=
  match d_kind operation with
  | DRenamePath node_id old_path new_path =>
      let? old_path := oracle_parse_repo_path candidate_scope old_path in
      let? new_path := oracle_parse_repo_path candidate_scope new_path in
      Ok (node_id, old_path, new_path)
  | _ => Err FailReplay
  end.

Section oracle.
Context `{Sha256} (E : PatchAlgebraEvidence) (baseline : NodeLifecycleState) (candidate_scope : EvidenceScope).

Definition oracle_create (oracle : OracleState) (path : list byte) (node_id : NodeId) (blob_id : ObjectId) (mode : Z)
  : Result OracleFailure OracleState :=
  let? blob_kind :=
    match evidence_blob_kind candidate_scope blob_id with
    | Known kind => Ok kind
    | Missing UnsealedCandidateOptional _ _ _ => Err (FailUnknown MissingCandidateEvidence)
    | other => Err (FailEvidence (into_error other))
    end in
  let? node_kind := map_err (fun _ => FailReplay) (NodeKind_from_file_blob_kind blob_kind) in
  let? path := oracle_parse_repo_path candidate_scope path in
  oracle_mut oracle (create_node (os_lifecycle oracle) node_id (mkLive path node_kind (FileContent blob_id mode))).

Definition oracle_delete_file (oracle : OracleState) (path : list byte) (node_id : NodeId) (old_node_kind : NodeKind)
    (old_blob_id : ObjectId) (old_mode : Z) : Result OracleFailure OracleState :=
  let? path := oracle_parse_repo_path candidate_scope path in
  oracle_mut oracle
    (delete_node_checked (os_lifecycle oracle) node_id (mkLive path old_node_kind (FileContent old_blob_id old_mode))).

Definition oracle_replace_binary (oracle : OracleState) (node_id : NodeId) (old_blob_id new_blob_id : ObjectId)
  : Result OracleFailure OracleState :=
  match evidence_blob_kind candidate_scope new_blob_id with
  | Known BlobBinary => oracle_mut oracle (replace_file_blob (os_lifecycle oracle) node_id old_blob_id new_blob_id)
  | Known actual => Err (FailEvidence (ErrWrongBlobKind candidate_scope new_blob_id BlobBinary actual))
  | Missing UnsealedCandidateOptional _ _ _ => Err (FailUnknown MissingCandidateEvidence)
  | other => Err (FailEvidence (into_error other))
  end.

(** The text and the oracle that remembers it. *)
Definition current_text (oracle : OracleState) (node_id : NodeId) : Result OracleFailure (list byte * OracleState) :=
  let remember text := (text, mkOracle (os_lifecycle oracle) (<[node_id := text]> (os_texts oracle))) in
  match os_texts oracle !! node_id with
  | Some text => Ok (text, oracle)
  | None =>
      let? live := ok_or (live_node (os_lifecycle oracle) node_id) FailReplay in
      if negb (bool_decide (ln_kind live = TextFile)) then Err FailReplay
      else
        match ln_content live with
        | SymlinkContent _ => Err FailReplay
        | FileContent blob_id _ =>
            if negb (is_some (live_node baseline node_id)) then
              match evidence_blob_content candidate_scope blob_id with
              | Known (BlobText, text) => Ok (remember text)
              | Known (actual, _) => Err (FailEvidence (ErrWrongBlobKind candidate_scope blob_id BlobText actual))
              | Missing UnsealedCandidateOptional _ _ _ => Err (FailUnknown MissingCandidateEvidence)
              | other => Err (FailEvidence (into_error other))
              end
            else
              match baseline_text SealedBaselineRequired node_id blob_id with
              | Known text => Ok (remember text)
              | other => Err (FailEvidence (into_error other))
              end
        end
  end.

Definition oracle_text_edit (oracle : OracleState) (node_id : NodeId) (edit : TextPreimage) (replacement_text : list byte)
  : Result OracleFailure OracleState :=
  let? '(text, oracle) := current_text oracle node_id in
  let? '(start, end_) := map_err (fun _ => FailReplay) (resolve_edit text node_id edit) in
  let? new_text := map_err (fun _ => FailReplay) (splice_text text start end_ replacement_text) in
  let? new_blob_id := map_err (fun _ => FailReplay) (text_blob_id new_text) in
  let? oracle := oracle_mut oracle (set_text_blob (os_lifecycle oracle) node_id new_blob_id) in
  Ok (mkOracle (os_lifecycle oracle) (<[node_id := new_text]> (os_texts oracle))).

Definition oracle_apply_operation (oracle : OracleState) (operation : DecodedPatchOperation)
  : Result OracleFailure OracleState :=
  match d_kind operation with
  | DCreateFile path node_id blob_id mode => oracle_create oracle path node_id blob_id mode
  | DDeleteNode path node_id (DecodedFile old_node_kind old_blob_id old_mode) =>
      oracle_delete_file oracle path node_id old_node_kind old_blob_id old_mode
  | DChangePerm node_id old_mode new_mode => oracle_mut oracle (change_file_mode (os_lifecycle oracle) node_id old_mode new_mode)
  | DReplaceBinary node_id old_blob_id new_blob_id => oracle_replace_binary oracle node_id old_blob_id new_blob_id
  | DEditText node_id span_id old_span_hash left_anchor_hash right_anchor_hash replacement_text old_span_text left_anchor_len right_anchor_len =>
      oracle_text_edit oracle node_id
        (mkTextPreimage span_id old_span_hash left_anchor_hash right_anchor_hash old_span_text left_anchor_len right_anchor_len)
        replacement_text
  | DRenamePath _ _ _ => Err FailReplay
  | DCreateSymlink _ _ _ | DDeleteNode _ _ (DecodedSymlink _) => Err (FailUnknown UnknownRelation)
  end.

(** The renames [next_if] pulls into the batch of [first], and what is left. *)
Fixpoint collect_batch (first : DecodedPatchOperation) (rest : list DecodedPatchOperation)
  : Result OracleFailure (list Rename * list DecodedPatchOperation) :=
  match rest with
  | next :: rest' =>
      if same_rename_batch first next then
        let? triple := oracle_rename_triple candidate_scope next in
        let? '(batch, left_over) := collect_batch first rest' in
        Ok (triple :: batch, left_over)
      else Ok ([], rest)
  | [] => Ok ([], [])
  end.

(** The [while let] loop: [None] is exhausted fuel. *)
Fixpoint replay_loop (fuel : nat) (oracle : OracleState) (operations : list DecodedPatchOperation)
  : option (Result OracleFailure OracleState) :=
  match operations with
  | [] => Some (Ok oracle)
  | operation :: rest =>
      match fuel with
      | O => None
      | S fuel' =>
          match d_kind operation with
          | DRenamePath _ _ _ =>
              match (let? triple := oracle_rename_triple candidate_scope operation in
                     let? '(batch, left_over) := collect_batch operation rest in
                     let? oracle := oracle_mut oracle (rename_nodes_checked_batch (os_lifecycle oracle) (triple :: batch)) in
                     Ok (oracle, left_over)) with
              | Ok (oracle, left_over) => replay_loop fuel' oracle left_over
              | Err e => Some (Err e)
              end
          | _ =>
              match oracle_apply_operation oracle operation with
              | Ok oracle => replay_loop fuel' oracle rest
              | Err e => Some (Err e)
              end
          end
      end
  end.

(** One round per operation is enough, so the loop always returns ([replay_loop_total]). *)
Definition replay_operations (operations : list DecodedPatchOperation) : Result OracleFailure OracleState :=
  default (Err FailReplay) (replay_loop (length operations) (mkOracle baseline ∅) operations).

(** ** Commutation of a pair (commutation.rs) *)

Record CommutationProof : Type := mkCommutationProof { cp_left_op_seq : Z; cp_right_op_seq : Z }.

Inductive CommutationResult : Type :=
| Commutes (proof : CommutationProof)
| DoesNotCommute (pair_class : PairClass)
| CommutationUnknown (reason : UnknownReason).

Definition validate_operation_provenance (operation : DecodedPatchOperation) : Result EvidenceError unit :=
  match operation_facts operation with
  | Ok _ => Ok tt
  | Err MalformedOperation =>
      if negb (bool_decide (candidate_scope = UnsealedCandidateOptional))
      then Err (ErrMalformed candidate_scope FactOperation None "malformed sealed candidate operation")
      else Ok tt
  | Err _ => Ok tt
  end.

Definition prove_pair_replay (left right : DecodedPatchOperation) : Result OracleFailure unit :=
  let? left_then_right := replay_operations [left; right] in
  let? right_then_left := replay_operations [right; left] in
  if bool_decide (left_then_right = right_then_left) then Ok tt else Err FailReplay.

Definition commute_pair (left right : DecodedPatchOperation) : Result EvidenceError CommutationResult :=
  let? _ := validate_operation_provenance left in
  let? _ := validate_operation_provenance right in
  let? pair_class := classify_pair_with_text_resolver baseline E left right in
  match pair_class with
  | Independent =>
      match prove_pair_replay left right with
      | Ok _ => Ok (Commutes (mkCommutationProof (d_op_seq left) (d_op_seq right)))
      | Err (FailEvidence error) => Err error
      | Err (FailUnknown reason) => Ok (CommutationUnknown reason)
      | Err FailReplay => Ok (CommutationUnknown UnknownRelation)
      end
  | UnknownClass reason _ => Ok (CommutationUnknown reason)
  | other => Ok (DoesNotCommute other)
  end.

(** ** Confluence of two sequences *)

Inductive ConfluenceWitnessKind : Type :=
| WitnessOrderedDependency | WitnessConflict | WitnessReplayFailure | WitnessFinalStateInequality.

Record ConfluenceWitness : Type := mkConfluenceWitness {
  fw_kind : ConfluenceWitnessKind;
  fw_left_index : option nat;
  fw_right_index : option nat;
  fw_pair_class : option PairClass;
}.

Inductive ConfluenceResult : Type :=
| Confluent (left_len right_len : nat)
| NotConfluent (witness : ConfluenceWitness)
| ConfluenceUnknown (reason : UnknownReason).

Record FlatSequenceCheck : Type := mkFlatCheck {
  flat_hard : option ConfluenceResult;
  flat_deferred : option ConfluenceResult;
}.

Definition facts_node (operation : DecodedPatchOperation) : option NodeId :=
  match operation_facts operation with Ok facts => of_node_id facts | Err _ => None end.

Fixpoint prefix_dependency_loop (subject : DecodedPatchOperation) (subject_node : option NodeId)
    (prior_operations : list DecodedPatchOperation) : Result EvidenceError bool :=
  match prior_operations with
  | [] => Ok false
  | prior :: rest =>
      let? _ := validate_operation_provenance prior in
      if is_some subject_node && bool_decide (facts_node prior = subject_node) then Ok true
      else
        let? class := classify_pair_with_text_resolver baseline E prior subject in
        match class with
        | OrderedDependency _ _ => Ok true
        | _ => prefix_dependency_loop subject subject_node rest
        end
  end.

Definition has_prefix_dependency (sequence : list DecodedPatchOperation) (index : nat) : Result EvidenceError bool :=
  match sequence !! index with
  | None => Ok false
  | Some subject => prefix_dependency_loop subject (facts_node subject) (take index sequence)
  end.

(** One operation of [ensure_flat_sequence]'s loop. *)
Definition flat_step (sequence : list DecodedPatchOperation) (is_right : bool) (check : FlatSequenceCheck)
    (item : nat * DecodedPatchOperation) : Result EvidenceError FlatSequenceCheck :=
  let '(index, operation) := item in
  let? _ := validate_operation_provenance operation in
  let deferred :=
    match operation_facts operation with Ok facts => deferred_reason (of_action facts) | Err _ => None end in
  match deferred with
  | Some reason => Ok (mkFlatCheck (flat_hard check) (or_else (flat_deferred check) (Some (ConfluenceUnknown reason))))
  | None =>
      match replay_operations (replay_unit sequence index) with
      | Ok _ => Ok check
      | Err (FailEvidence error) => Err error
      | Err (FailUnknown reason) =>
          Ok (mkFlatCheck (or_else (flat_hard check) (Some (ConfluenceUnknown reason))) (flat_deferred check))
      | Err FailReplay =>
          let? dependent := has_prefix_dependency sequence index in
          let result :=
            if dependent then ConfluenceUnknown SequenceInternalDependencyDeferred
            else NotConfluent (mkConfluenceWitness WitnessReplayFailure
                   (if is_right then None else Some index) (if is_right then Some index else None) None) in
          Ok (mkFlatCheck (or_else (flat_hard check) (Some result)) (flat_deferred check))
      end
  end.

Definition ensure_flat_sequence (sequence : list DecodedPatchOperation) (is_right : bool)
  : Result EvidenceError FlatSequenceCheck :=
  foldM (flat_step sequence is_right) (mkFlatCheck None None) (zip (seq 0 (length sequence)) sequence).

Definition replay_sequence_order (first second : list DecodedPatchOperation) : Result EvidenceError OracleState :=
  map_err (fun failure =>
    match failure with
    | FailEvidence error => error
    | FailUnknown _ => ErrMalformed candidate_scope FactOperation None "unexpected unknown during composed replay: {reason:?}"
    | FailReplay => ErrMalformed candidate_scope FactOperation None "sequence operations do not compose against a shared baseline"
    end) (replay_operations (first ++ second)).

Definition confluence_pair_witness (left_index right_index : nat) (pair_class : PairClass) : ConfluenceWitness :=
  mkConfluenceWitness
    (match pair_class with
     | OrderedDependency _ _ => WitnessOrderedDependency
     | Conflict _ => WitnessConflict
     | Independent | UnknownClass _ _ => WitnessReplayFailure
     end) (Some left_index) (Some right_index) (Some pair_class).

(** The pairwise loops: the result to return early, if any. *)
Fixpoint pairs_inner (left_index : nat) (left_operation : DecodedPatchOperation) (right_index : nat)
    (right : list DecodedPatchOperation) : Result EvidenceError (option ConfluenceResult) :=
  match right with
  | [] => Ok None
  | right_operation :: right' =>
      let? result := commute_pair left_operation right_operation in
      match result with
      | Commutes _ => pairs_inner left_index left_operation (S right_index) right'
      | CommutationUnknown reason => Ok (Some (ConfluenceUnknown reason))
      | DoesNotCommute pair_class => Ok (Some (NotConfluent (confluence_pair_witness left_index right_index pair_class)))
      end
  end.

Fixpoint pairs_outer (left_index : nat) (left right : list DecodedPatchOperation)
  : Result EvidenceError (option ConfluenceResult) :=
  match left with
  | [] => Ok None
  | left_operation :: left' =>
      let? early := pairs_inner left_index left_operation 0 right in
      match early with
      | Some result => Ok (Some result)
      | None => pairs_outer (S left_index) left' right
      end
  end.

Definition check_confluence (left right : list DecodedPatchOperation) : Result EvidenceError ConfluenceResult :=
  let? left_check := ensure_flat_sequence left false in
  let? right_check := ensure_flat_sequence right true in
  match or_else (flat_hard left_check) (flat_hard right_check) with
  | Some result => Ok result
  | None =>
      let? early := pairs_outer 0 left right in
      match early with
      | Some result => Ok result
      | None =>
          match or_else (flat_deferred left_check) (flat_deferred right_check) with
          | Some result => Ok result
          | None =>
              let? left_then_right := replay_sequence_order left right in
              let? right_then_left := replay_sequence_order right left in
              if bool_decide (left_then_right = right_then_left) then Ok (Confluent (length left) (length right))
              else Ok (NotConfluent (mkConfluenceWitness WitnessFinalStateInequality None None None))
          end
      end
  end.
End oracle.
