(* ===== verification/CommuteThms.v ===== *)
(** * Theorems about the patch algebra

    An operation of the oracle is local: it reads and changes one node and a few paths.  Two local
    operations on different nodes and disjoint paths commute; a pair classified independent is such a
    pair, or changes different fields of one node. *)

From S2P Require Import Prelude PrikkError Hash ObjectId Blob RepoPath Lifecycle LifecycleInv Patch PatchDecode TextSpan PatchAlgebra ReplayOracle.


(** ** The replay loop returns *)

Lemma collect_batch_length scope first : forall rest batch left_over,
  collect_batch scope first rest = Ok (batch, left_over) -> (length left_over <= length rest)%nat.
Proof.
  induction rest as [|next rest IH]; intros batch left_over; cbn [collect_batch]; [intros [= <- <-]; done|].
  destruct (same_rename_batch first next); [|intros [= <- <-]; done].
  destruct (oracle_rename_triple scope next) as [t|]; [|done].
  destruct (collect_batch scope first rest) as [[b l]|]; [|done]. intros [= <- <-]. specialize (IH b l eq_refl). cbn. lia.
Qed.

Lemma replay_loop_total `{Sha256} E base scope : forall fuel oracle ops, (length ops <= fuel)%nat ->
  is_Some (replay_loop E base scope fuel oracle ops).
Proof.
  induction fuel as [|fuel IH]; intros oracle ops Hl; (destruct ops as [|op rest]; [by eexists|]); cbn [length] in Hl; [lia|].
  cbn [replay_loop]. assert (Happly : is_Some (match oracle_apply_operation E base scope oracle op with
    | Ok o => replay_loop E base scope fuel o rest | Err e => Some (Err e) end)).
  { destruct (oracle_apply_operation _ _ _ _ _); [apply IH; lia|by eexists]. }
  destruct (d_kind op); try exact Happly.
  destruct (oracle_rename_triple scope op) as [t|]; [|by eexists].
  destruct (collect_batch scope op rest) as [[b l]|] eqn:Hb; [|by eexists].
  destruct (oracle_mut _ _) as [o|]; [|by eexists]. apply IH. apply collect_batch_length in Hb. lia.
Qed.

(** More fuel changes nothing. *)
Lemma replay_loop_fuel `{Sha256} E base scope : forall fuel fuel' oracle ops, (length ops <= fuel)%nat -> (length ops <= fuel')%nat ->
  replay_loop E base scope fuel oracle ops = replay_loop E base scope fuel' oracle ops.
Proof.
  induction fuel as [|fuel IH]; intros [|fuel'] oracle ops Hl Hl'; destruct ops as [|op rest]; cbn [length] in Hl, Hl'; try done; try lia.
  cbn [replay_loop]. destruct (d_kind op); try (destruct (oracle_apply_operation _ _ _ _ _); [apply IH; lia|done]).
  destruct (oracle_rename_triple scope op) as [t|]; [|done].
  destruct (collect_batch scope op rest) as [[b l]|] eqn:Hb; [|done].
  apply collect_batch_length in Hb. destruct (oracle_mut _ _) as [o|]; [|done]. apply IH; lia.
Qed.

Section algebra.
Context `{Sha256} (E : PatchAlgebraEvidence) (base : NodeLifecycleState) (scope : EvidenceScope).

(** One operation on its own, a rename as a batch of one. *)
Definition oracle_step (op : DecodedPatchOperation) (s : OracleState) : Result OracleFailure OracleState :=
  match d_kind op with
  | DRenamePath _ _ _ =>
      let? triple := oracle_rename_triple scope op in
      oracle_mut s (rename_nodes_checked_batch (os_lifecycle s) [triple])
  | _ => oracle_apply_operation E base scope s op
  end.

Lemma replay_one op : replay_operations E base scope [op] = oracle_step op (mkOracle base ∅).
Proof.
  unfold replay_operations, oracle_step. cbn [length replay_loop]. destruct (d_kind op) eqn:Hk;
    try (destruct (oracle_apply_operation _ _ _ _ _); done).
  destruct (oracle_rename_triple scope op) as [t|]; [|done]. cbn [collect_batch].
  destruct (oracle_mut _ _); done.
Qed.

Lemma replay_two l r : same_rename_batch l r = false ->
  replay_operations E base scope [l; r] = (let? s := oracle_step l (mkOracle base ∅) in oracle_step r s).
Proof.
  intros Hb. unfold replay_operations, oracle_step at 1. cbn [length replay_loop collect_batch]. rewrite Hb.
  assert (Hr : forall s, default (Err FailReplay) (replay_loop E base scope 1 s [r]) = oracle_step r s).
  { intros s. unfold oracle_step. cbn [replay_loop]. destruct (d_kind r);
      try (destruct (oracle_apply_operation _ _ _ _ _); done).
    destruct (oracle_rename_triple scope r) as [t|]; [|done]. cbn [collect_batch]. destruct (oracle_mut _ _); done. }
  destruct (d_kind l); try (destruct (oracle_apply_operation _ _ _ _ _) as [s|]; [apply Hr|done]).
  destruct (oracle_rename_triple scope l) as [t|]; [|done]. destruct (oracle_mut _ _) as [s|]; [apply Hr|done].
Qed.
End algebra.

(** ** Local steps *)

(** What a step on node [id] and paths [P] may read. *)
Record agree_at (id : NodeId) (P : gset RepoPath) (s1 s2 : OracleState) : Prop := {
  ag_live : live_by_id (os_lifecycle s1) !! id = live_by_id (os_lifecycle s2) !! id;
  ag_tomb : latest_tombstone_by_id (os_lifecycle s1) !! id = latest_tombstone_by_id (os_lifecycle s2) !! id;
  ag_seen : id ∈ seen_ids (os_lifecycle s1) <-> id ∈ seen_ids (os_lifecycle s2);
  ag_text : os_texts s1 !! id = os_texts s2 !! id;
  ag_index : forall p, p ∈ P -> path_to_id (os_lifecycle s1) !! p = path_to_id (os_lifecycle s2) !! p;
}.

Record local_step (id : NodeId) (P : gset RepoPath) (step : OracleState -> Result OracleFailure OracleState) : Prop := {
  ls_frame : forall s s', step s = Ok s' ->
    (forall i, i <> id -> agree_at i ∅ s s') /\
    forall p, p ∉ P -> path_to_id (os_lifecycle s) !! p = path_to_id (os_lifecycle s') !! p;
  ls_local : forall s1 s2 s1', agree_at id P s1 s2 -> step s1 = Ok s1' ->
    exists s2', step s2 = Ok s2' /\ agree_at id P s1' s2';
}.

Lemma agree_sym id P s1 s2 : agree_at id P s1 s2 -> agree_at id P s2 s1.
Proof. intros [H1 H2 H3 H4 H5]. split; [done|done|tauto|done|]. intros p Hp. symmetry. by apply H5. Qed.

Lemma agree_trans id P s1 s2 s3 : agree_at id P s1 s2 -> agree_at id P s2 s3 -> agree_at id P s1 s3.
Proof. intros [H1 H2 H3 H4 H5] [K1 K2 K3 K4 K5]. split; [congruence|congruence|tauto|congruence|]. intros p Hp. rewrite H5, K5; done. Qed.

Lemma agree_weaken id P Q s1 s2 : agree_at id P s1 s2 -> Q ⊆ P -> agree_at id Q s1 s2.
Proof. intros [H1 H2 H3 H4 H5] HQ. split; [done|done|done|done|]. intros p Hp. apply H5. set_solver. Qed.

Lemma oracle_ext s1 s2 :
  (forall i, agree_at i ∅ s1 s2) -> (forall p, path_to_id (os_lifecycle s1) !! p = path_to_id (os_lifecycle s2) !! p) -> s1 = s2.
Proof.
  intros Hi Hp. destruct s1 as [[l1 p1 t1 e1] x1], s2 as [[l2 p2 t2 e2] x2]. cbn in Hp.
  assert (l1 = l2) as -> by (apply map_eq; intros i; apply (ag_live _ _ _ _ (Hi i))).
  assert (p1 = p2) as -> by (by apply map_eq).
  assert (t1 = t2) as -> by (apply map_eq; intros i; apply (ag_tomb _ _ _ _ (Hi i))).
  assert (e1 = e2) as -> by (apply set_eq; intros i; apply (ag_seen _ _ _ _ (Hi i))).
  by assert (x1 = x2) as -> by (apply map_eq; intros i; apply (ag_text _ _ _ _ (Hi i))).
Qed.

(** Steps on different nodes and disjoint paths commute: each still succeeds after the other. *)
Lemma local_steps_commute idl idr Pl Pr fl fr s sl sr :
  local_step idl Pl fl -> local_step idr Pr fr -> idl <> idr -> Pl ## Pr -> fl s = Ok sl -> fr s = Ok sr ->
  exists s', fr sl = Ok s' /\ fl sr = Ok s'.
Proof.
  intros Ll Lr Hid HP Hl Hr. destruct (ls_frame _ _ _ Ll _ _ Hl) as [Fl Fpl]. destruct (ls_frame _ _ _ Lr _ _ Hr) as [Fr Fpr].
  assert (Ar : agree_at idr Pr s sl).
  { destruct (Fl idr ltac:(done)) as [A1 A2 A3 A4 _]. split; [done..|]. intros p Hp. apply Fpl. set_solver. }
  assert (Al : agree_at idl Pl s sr).
  { destruct (Fr idl ltac:(done)) as [A1 A2 A3 A4 _]. split; [done..|]. intros p Hp. apply Fpr. set_solver. }
  destruct (ls_local _ _ _ Lr _ _ _ Ar Hr) as (slr & Hslr & Aslr).
  destruct (ls_local _ _ _ Ll _ _ _ Al Hl) as (srl & Hsrl & Asrl).
  destruct (ls_frame _ _ _ Lr _ _ Hslr) as [Glr Gplr]. destruct (ls_frame _ _ _ Ll _ _ Hsrl) as [Grl Gprl].
  exists slr. split; [done|]. rewrite Hsrl. f_equal. apply oracle_ext.
  - intros i. destruct (decide (i = idl)) as [->|Hil].
    + apply (agree_trans _ _ _ sl); [|by apply Glr]. apply agree_sym. by apply (agree_weaken _ Pl).
    + destruct (decide (i = idr)) as [->|Hir].
      * apply (agree_trans _ _ _ sr); [by apply agree_sym, Grl|]. by apply (agree_weaken _ Pr).
      * apply (agree_trans _ _ _ sr); [by apply agree_sym, Grl|]. apply (agree_trans _ _ _ s); [by apply agree_sym, Fr|].
        apply (agree_trans _ _ _ sl); [by apply Fl|by apply Glr].
  - intros p. destruct (decide (p ∈ Pl)) as [Hpl|Hpl].
    + rewrite <- (ag_index _ _ _ _ Asrl p Hpl). apply Gplr. set_solver.
    + destruct (decide (p ∈ Pr)) as [Hpr|Hpr].
      * rewrite <- Gprl by done. apply (ag_index _ _ _ _ Aslr p Hpr).
      * rewrite <- Gprl, <- Fpr, Fpl by done. by apply Gplr.
Qed.

(** ** The operations are local *)

(** What an explicit update of a node's own entries changes elsewhere: nothing. *)
Lemma agree_update i id (s : OracleState) live paths tombs seen texts :
  i <> id -> live !! i = live_by_id (os_lifecycle s) !! i -> tombs !! i = latest_tombstone_by_id (os_lifecycle s) !! i ->
  (i ∈ seen <-> i ∈ seen_ids (os_lifecycle s)) -> texts !! i = os_texts s !! i ->
  agree_at i ∅ s (mkOracle (mkLifecycle live paths tombs seen) texts).
Proof. intros Hi H1 H2 H3 H4. split; cbn; [done|done|tauto|done|set_solver]. Qed.

Lemma local_node_update id (upd : LiveNode -> option LiveNode) (m : NodeLifecycleState -> Mut unit) :
  (forall s, m s = match live_by_id s !! id with
     | Some n => match upd n with
         | Some n' => (Ok tt, mkLifecycle (<[id := n']> (live_by_id s)) (path_to_id s) (latest_tombstone_by_id s) (seen_ids s))
         | None => (m s)
         end
     | None => m s end) ->
  (forall s, is_ok (m s).1 = true -> exists n n', live_by_id s !! id = Some n /\ upd n = Some n') ->
  local_step id ∅ (fun s => oracle_mut s (m (os_lifecycle s))).
Proof.
  intros Hm Hok. unfold oracle_mut. split.
  - intros s s' Hs. destruct (m (os_lifecycle s)) as [r st] eqn:Hms. cbn [fst snd] in Hs. destruct r as [[]|]; [|done].
    injection Hs as <-. destruct (Hok (os_lifecycle s)) as (n & n' & Hn & Hu); [by rewrite Hms|].
    rewrite Hm, Hn, Hu in Hms. injection Hms as <-. split; [|done].
    intros i Hi. apply (agree_update i id); cbn; [done|by rewrite lookup_insert_ne|done|done|done].
  - intros s1 s2 s1' [A1 A2 A3 A4 A5] Hs. destruct (m (os_lifecycle s1)) as [r st] eqn:Hms. cbn [fst snd] in Hs.
    destruct r as [[]|]; [|done]. injection Hs as <-. destruct (Hok (os_lifecycle s1)) as (n & n' & Hn & Hu); [by rewrite Hms|].
    rewrite Hm, Hn, Hu in Hms. injection Hms as <-. rewrite Hm, <- A1, Hn, Hu. cbn. eexists. split; [reflexivity|].
    split; cbn; [by rewrite !lookup_insert_eq|done|done|done|done].
Qed.

Lemma local_change_mode id old new : local_step id ∅ (fun s => oracle_mut s (change_file_mode (os_lifecycle s) id old new)).
Proof.
  apply (local_node_update id (fun n => match ln_content n with
    | FileContent b m => if m =? old then Some (mkLive (ln_path n) (ln_kind n) (FileContent b new)) else None
    | SymlinkContent _ => None end) (fun s => change_file_mode s id old new)).
  - intros s. unfold change_file_mode. destruct (live_by_id s !! id) as [n|]; [|done].
    destruct (ln_content n) as [b m|]; [|done]. by destruct (m =? old).
  - intros s. unfold change_file_mode. destruct (live_by_id s !! id) as [n|] eqn:Hn; [|done].
    destruct (ln_content n) as [b m|] eqn:Hc; [|done]. destruct (m =? old) eqn:Hm; [|done].
    intros _. exists n. eexists. split; [done|]. by rewrite Hc, Hm.
Qed.

Lemma local_replace_blob id old new : local_step id ∅ (fun s => oracle_mut s (replace_file_blob (os_lifecycle s) id old new)).
Proof.
  apply (local_node_update id (fun n => if bool_decide (ln_kind n = BinaryFile) then match ln_content n with
    | FileContent b m => if bool_decide (b = old) then Some (mkLive (ln_path n) (ln_kind n) (FileContent new m)) else None
    | SymlinkContent _ => None end else None) (fun s => replace_file_blob s id old new)).
  - intros s. unfold replace_file_blob. destruct (live_by_id s !! id) as [n|]; [|done].
    destruct (bool_decide _); [|done]. destruct (ln_content n) as [b m|]; [|done]. by destruct (bool_decide _).
  - intros s. unfold replace_file_blob. destruct (live_by_id s !! id) as [n|] eqn:Hn; [|done].
    destruct (bool_decide (ln_kind n = BinaryFile)) eqn:Hk; [|done].
    destruct (ln_content n) as [b m|] eqn:Hc; [|done]. destruct (bool_decide (b = old)) eqn:Hm; [|done].
    intros _. exists n. eexists. split; [done|]. by rewrite Hk, Hc, Hm.
Qed.

Lemma local_create id n : local_step id {[ln_path n]} (fun s => oracle_mut s (create_node (os_lifecycle s) id n)).
Proof.
  unfold oracle_mut, create_node. split.
  - intros s s' Hs. destruct (ensure_node_id_nonzero id) as [[]|]; [|done].
    destruct (validate_kind_content_shape _ _) as [[]|]; [|done].
    destruct (is_some (live_by_id _ !! id)); [done|]. destruct (is_some (path_to_id _ !! ln_path n)); [done|].
    destruct (if bool_decide _ then _ else _) as [[]|] in Hs; [|done]. injection Hs as <-. split.
    + intros i Hi. apply (agree_update i id); cbn; [done|by rewrite lookup_insert_ne|by rewrite lookup_delete_ne|set_solver|done].
    + intros p Hp. cbn. rewrite lookup_insert_ne; [done|set_solver].
  - intros s1 s2 s1' [A1 A2 A3 A4 A5] Hs. destruct (ensure_node_id_nonzero id) as [[]|]; [|done].
    destruct (validate_kind_content_shape _ _) as [[]|]; [|done].
    rewrite <- A1, <- A2, <- (A5 (ln_path n)) by set_solver. rewrite <- (bool_decide_ext _ _ A3).
    destruct (is_some (live_by_id _ !! id)); [done|]. destruct (is_some (path_to_id _ !! ln_path n)); [done|].
    destruct (if bool_decide _ then _ else _) as [[]|]; [|done]. injection Hs as <-. eexists. split; [reflexivity|].
    split; cbn; [by rewrite !lookup_insert_eq|by rewrite !lookup_delete_eq|set_solver|done|].
    intros p Hp. assert (p = ln_path n) as -> by set_solver. by rewrite !lookup_insert_eq.
Qed.

Lemma local_delete id expected :
  local_step id {[ln_path expected]} (fun s => oracle_mut s (delete_node_checked (os_lifecycle s) id expected)).
Proof.
  unfold oracle_mut, delete_node_checked, delete_node. split.
  - intros s s' Hs. destruct (live_by_id (os_lifecycle s) !! id) as [n|] eqn:Hn; [|done].
    case_bool_decide as He; [|done]. subst n. cbn [negb] in Hs.
    destruct (path_to_id (os_lifecycle s) !! ln_path expected) as [j|]; [|done].
    case_bool_decide; [|done]. injection Hs as <-. split.
    + intros i Hi. apply (agree_update i id); cbn; [done|by rewrite lookup_delete_ne|by rewrite lookup_insert_ne|done|done].
    + intros p Hp. cbn. rewrite lookup_delete_ne; [done|set_solver].
  - intros s1 s2 s1' [A1 A2 A3 A4 A5] Hs. rewrite <- A1.
    destruct (live_by_id (os_lifecycle s1) !! id) as [n|] eqn:Hn; [|done].
    case_bool_decide as He; [|done]. subst n. cbn [negb] in *. rewrite <- (A5 (ln_path expected)) by set_solver.
    destruct (path_to_id (os_lifecycle s1) !! ln_path expected) as [j|]; [|done].
    case_bool_decide; [|done]. injection Hs as <-. eexists. split; [reflexivity|].
    split; cbn; [by rewrite !lookup_delete_eq|by rewrite !lookup_insert_eq|done|done|].
    intros p Hp. assert (p = ln_path expected) as -> by set_solver. by rewrite !lookup_delete_eq.
Qed.

(** A batch of one rename, spelled out. *)
Definition rename_one (s : NodeLifecycleState) (id : NodeId) (old new : RepoPath) : option NodeLifecycleState :=
  match live_by_id s !! id with
  | None => None
  | Some n =>
      if bool_decide (ln_path n = old)
         && match path_to_id s !! new with Some j => bool_decide (j = id) | None => true end
         && bool_decide (path_to_id s !! old = Some id)
      then Some (mkLifecycle (<[id := set_path new n]> (live_by_id s)) (<[new := id]> (delete old (path_to_id s)))
                   (latest_tombstone_by_id s) (seen_ids s))
      else None
  end.

Lemma rename_one_batch s id old new :
  match rename_one s id old new with
  | Some s' => rename_nodes_checked_batch s [(id, old, new)] = (Ok tt, s')
  | None => is_ok (rename_nodes_checked_batch s [(id, old, new)]).1 = false
  end.
Proof.
  unfold rename_one, rename_nodes_checked_batch. cbn [foldM batch_check_pair for_each fold_left].
  destruct (live_by_id s !! id) as [n|] eqn:Hn; cbn [ok_or]; [|done].
  case_bool_decide as Hp; cbn [negb andb]; [|done].
  rewrite (bool_decide_eq_false_2 (id ∈ ∅)) by set_solver. rewrite (bool_decide_eq_false_2 (new ∈ ∅)) by set_solver.
  unfold batch_check_destination, batch_check_index. cbn [fst snd].
  assert (Hj : forall j, bool_decide (j ∈ {[id]} ∪ (∅ : gset NodeId)) = bool_decide (j = id)) by (intros j; apply bool_decide_ext; set_solver).
  destruct (path_to_id s !! new) as [j|].
  - rewrite Hj. destruct (bool_decide (j = id)); cbn [negb andb]; [|done].
    destruct (bool_decide (path_to_id s !! old = Some id)); [|done].
    unfold batch_claim, batch_clear. cbn. by rewrite Hn.
  - destruct (bool_decide (path_to_id s !! old = Some id)); [|done]. unfold batch_claim, batch_clear. cbn. by rewrite Hn.
Qed.

Lemma oracle_rename_one s id old new :
  oracle_mut s (rename_nodes_checked_batch (os_lifecycle s) [(id, old, new)]) =
  match rename_one (os_lifecycle s) id old new with Some l => Ok (mkOracle l (os_texts s)) | None => Err FailReplay end.
Proof.
  pose proof (rename_one_batch (os_lifecycle s) id old new) as Hb. unfold oracle_mut.
  destruct (rename_one (os_lifecycle s) id old new); [by rewrite Hb|]. by destruct (rename_nodes_checked_batch _ _) as [[[]|] ?].
Qed.

Lemma local_rename id old new :
  local_step id {[old; new]} (fun s => oracle_mut s (rename_nodes_checked_batch (os_lifecycle s) [(id, old, new)])).
Proof.
  split.
  - intros s s'. rewrite oracle_rename_one. unfold rename_one. destruct (live_by_id (os_lifecycle s) !! id) as [n|]; [|done].
    destruct (_ && _ && _); [|done]. intros [= <-]. split.
    + intros i Hi. apply (agree_update i id); cbn; [done|by rewrite lookup_insert_ne|done|done|done].
    + intros p Hp. cbn. rewrite lookup_insert_ne, lookup_delete_ne by set_solver. done.
  - intros s1 s2 s1' [A1 A2 A3 A4 A5]. rewrite !oracle_rename_one. unfold rename_one. rewrite <- A1.
    rewrite <- (A5 old), <- (A5 new) by set_solver. destruct (live_by_id (os_lifecycle s1) !! id) as [n|]; [|done].
    destruct (_ && _ && _); [|done]. intros [= <-]. eexists. split; [reflexivity|].
    split; cbn; [by rewrite !lookup_insert_eq|done|done|done|].
    intros p Hp. destruct (decide (p = new)) as [->|Hn]; [by rewrite !lookup_insert_eq|].
    rewrite !lookup_insert_ne by done. destruct (decide (p = old)) as [->|]; [by rewrite !lookup_delete_eq|].
    rewrite !lookup_delete_ne by done. by apply A5.
Qed.

Section steps.
Context `{Sha256} (E : PatchAlgebraEvidence) (base : NodeLifecycleState) (scope : EvidenceScope).

(** The text an edit starts from. *)
Definition text_of (s : OracleState) (id : NodeId) : Result OracleFailure (list byte) :=
  let? '(t, _) := current_text E base scope s id in Ok t.

Lemma current_text_of s id :
  current_text E base scope s id =
  (let? t := text_of s id in Ok (t, mkOracle (os_lifecycle s) (<[id := t]> (os_texts s)))).
Proof.
  unfold text_of, current_text. destruct s as [lc texts]. cbn [os_texts os_lifecycle].
  destruct (texts !! id) as [t|] eqn:Ht; [by rewrite insert_id|].
  destruct (live_node lc id) as [n|]; cbn [ok_or]; [|done]. destruct (bool_decide _); cbn [negb]; [|done].
  destruct (ln_content n) as [b m|]; [|done]. destruct (is_some _); cbn [negb].
  - by destruct (baseline_text _ _ _).
  - destruct (evidence_blob_content scope b) as [[[] ?]|[]| | | |]; done.
Qed.

Lemma text_of_agree id P s1 s2 : agree_at id P s1 s2 -> text_of s1 id = text_of s2 id.
Proof.
  intros [A1 A2 A3 A4 A5]. unfold text_of, current_text, live_node. rewrite A4, A1.
  destruct (os_texts s2 !! id); [done|]. destruct (live_by_id (os_lifecycle s2) !! id) as [n|]; cbn [ok_or]; [|done].
  destruct (bool_decide (ln_kind n = TextFile)); cbn [negb]; [|done]. destruct (ln_content n) as [b m|]; [|done].
  destruct (is_some _); cbn [negb].
  - by destruct (baseline_text _ _ _).
  - destruct (evidence_blob_content scope b) as [[[] ?]|[]| | | |]; done.
Qed.

(** What an edit does, given the text it starts from: the new text and its identifier. *)
Definition edit_result (t : list byte) (id : NodeId) (edit : TextPreimage) (replacement : list byte)
  : Result OracleFailure (list byte * ObjectId) :=
  let? '(a, b) := map_err (fun _ => FailReplay) (resolve_edit t id edit) in
  let? t' := map_err (fun _ => FailReplay) (splice_text t a b replacement) in
  let? blob := map_err (fun _ => FailReplay) (text_blob_id t') in
  Ok (t', blob).

Definition edited_node (n : LiveNode) (blob : ObjectId) : option LiveNode :=
  if bool_decide (ln_kind n = TextFile) then
    match ln_content n with
    | FileContent _ m => Some (mkLive (ln_path n) (ln_kind n) (FileContent blob m))
    | SymlinkContent _ => None
    end
  else None.

Lemma oracle_text_edit_ok s id edit replacement s' :
  oracle_text_edit E base scope s id edit replacement = Ok s' <->
  exists t t' blob n n', text_of s id = Ok t /\ edit_result t id edit replacement = Ok (t', blob) /\
    live_by_id (os_lifecycle s) !! id = Some n /\ edited_node n blob = Some n' /\
    s' = mkOracle (mkLifecycle (<[id := n']> (live_by_id (os_lifecycle s))) (path_to_id (os_lifecycle s))
           (latest_tombstone_by_id (os_lifecycle s)) (seen_ids (os_lifecycle s))) (<[id := t']> (os_texts s)).
Proof.
  unfold oracle_text_edit. rewrite current_text_of. split.
  - intros He. destruct (text_of s id) as [t|]; [|done]. cbn in He. unfold edit_result.
    destruct (resolve_edit t id edit) as [[a b]|] eqn:Hr; cbn [map_err] in He; [|done].
    destruct (splice_text t a b replacement) as [t'|] eqn:Hs; cbn [map_err] in He; [|done].
    destruct (text_blob_id t') as [blob|] eqn:Hb; cbn [map_err] in He; [|done].
    unfold oracle_mut, set_text_blob in He. cbn [os_lifecycle os_texts] in He.
    destruct (live_by_id (os_lifecycle s) !! id) as [n|] eqn:Hn; [|done].
    destruct (bool_decide (ln_kind n = TextFile)) eqn:Hk; cbn [negb] in He; [|done].
    destruct (ln_content n) as [b0 m|] eqn:Hc; [|done]. cbn in He. apply Ok_inj in He as <-. rewrite insert_insert_eq.
    exists t, t', blob, n. eexists. split; [done|]. rewrite Hr. cbn [map_err]. rewrite Hs. cbn [map_err]. rewrite Hb.
    split; [done|]. split; [done|]. unfold edited_node. rewrite Hk, Hc. done.
  - intros (t & t' & blob & n & n' & -> & He & Hn & Hu & ->). unfold edit_result in He.
    destruct (resolve_edit t id edit) as [[a b]|]; cbn [map_err] in *; [|done].
    destruct (splice_text t a b replacement) as [t1|]; cbn [map_err] in *; [|done].
    destruct (text_blob_id t1) as [blob1|]; cbn [map_err] in *; [|done]. injection He as -> ->.
    unfold oracle_mut, set_text_blob. cbn [os_lifecycle os_texts]. rewrite Hn. unfold edited_node in Hu.
    destruct (bool_decide (ln_kind n = TextFile)); cbn [negb]; [|done]. destruct (ln_content n); [|done].
    injection Hu as <-. cbn. by rewrite insert_insert_eq.
Qed.

Lemma local_edit id edit replacement : local_step id ∅ (fun s => oracle_text_edit E base scope s id edit replacement).
Proof.
  split.
  - intros s s' (t & t' & blob & n & n' & Ht & He & Hn & Hu & ->)%oracle_text_edit_ok. split; [|done].
    intros i Hi. apply (agree_update i id); cbn; [done|by rewrite lookup_insert_ne|done|done|by rewrite lookup_insert_ne].
  - intros s1 s2 s1' Ha (t & t' & blob & n & n' & Ht & He & Hn & Hu & ->)%oracle_text_edit_ok.
    rewrite (text_of_agree _ _ _ _ Ha) in Ht. destruct Ha as [A1 A2 A3 A4 A5]. eexists. split.
    + apply oracle_text_edit_ok. exists t, t', blob, n, n'. rewrite <- A1. done.
    + split; cbn; [by rewrite !lookup_insert_eq|done|done|by rewrite !lookup_insert_eq|done].
Qed.

(** The node and the paths of an operation. *)
Definition op_node (op : DecodedPatchOperation) : NodeId :=
  match d_kind op with
  | DCreateFile _ id _ _ | DDeleteNode _ id _ | DEditText id _ _ _ _ _ _ _ _ | DReplaceBinary id _ _
  | DRenamePath id _ _ | DChangePerm id _ _ | DCreateSymlink _ id _ => id
  end.

Definition footprint (op : DecodedPatchOperation) : gset RepoPath :=
  match d_kind op with
  | DCreateFile p _ _ _ | DDeleteNode p _ _ | DCreateSymlink p _ _ => {[p]}
  | DRenamePath _ old new => {[old; new]}
  | _ => ∅
  end.

Lemma local_ext id P f g : (forall s, f s = g s) -> local_step id P f -> local_step id P g.
Proof. intros Hfg [H1 H2]. split; intros *; rewrite <- !Hfg; [apply H1|apply H2]. Qed.

Lemma local_fails id P e : local_step id P (fun _ => Err e).
Proof. split; done. Qed.

Lemma parse_same p q : oracle_parse_repo_path scope p = Ok q -> q = p.
Proof. unfold oracle_parse_repo_path. destruct (RepoPath_parse p) as [x|] eqn:Hp; cbn; [|done]. apply RepoPath_parse_inv in Hp as [-> _]. by intros [= ->]. Qed.

Lemma step_local op : local_step (op_node op) (footprint op) (oracle_step E base scope op).
Proof.
  unfold oracle_step, oracle_apply_operation, op_node, footprint. destruct op as [seq kind pid]. cbn [d_kind].
  destruct kind as [p id b m|p id [k b m|t]|id ? ? ? ? r ? ? ?|id o w|id o w|id o w|p id t].
  - apply (local_ext _ _ (fun s => match (let? bk := match evidence_blob_kind scope b with Known k => Ok k
        | Missing UnsealedCandidateOptional _ _ _ => Err (FailUnknown MissingCandidateEvidence)
        | other => Err (FailEvidence (into_error other)) end in
        let? nk := map_err (fun _ => FailReplay) (NodeKind_from_file_blob_kind bk) in
        let? path := oracle_parse_repo_path scope p in Ok (nk, path)) with
      | Ok (nk, path) => oracle_mut s (create_node (os_lifecycle s) id (mkLive path nk (FileContent b m)))
      | Err e => Err e end)).
    { intros s. unfold oracle_create. destruct (evidence_blob_kind scope b) as [[]|[]| | | |]; try done; cbn;
        destruct (oracle_parse_repo_path scope p); done. }
    destruct (let? bk := _ in _) as [[nk path]|] eqn:Hb; [|apply local_fails].
    assert (path = p) as ->.
    { destruct (match evidence_blob_kind scope b with Known _ => _ | _ => _ end) as [bk|] in Hb; [|done].
      destruct (map_err _ _) as [k|] in Hb; [|done]. destruct (oracle_parse_repo_path scope p) as [q|] eqn:Hq; [|done].
      apply parse_same in Hq. congruence. }
    apply (local_create id (mkLive p nk (FileContent b m))).
  - unfold oracle_delete_file. destruct (oracle_parse_repo_path scope p) as [q|] eqn:Hq; [|apply local_fails].
    apply parse_same in Hq as ->. apply (local_delete id (mkLive p k (FileContent b m))).
  - apply local_fails.
  - apply local_edit.
  - unfold oracle_replace_binary. destruct (evidence_blob_kind scope w) as [[]|[]| | | |]; try apply local_fails. apply local_replace_blob.
  - unfold oracle_rename_triple. cbn [d_kind]. destruct (oracle_parse_repo_path scope o) as [o'|] eqn:Ho; [|apply local_fails].
    destruct (oracle_parse_repo_path scope w) as [w'|] eqn:Hw; [|apply local_fails].
    apply parse_same in Ho as ->. apply parse_same in Hw as ->. apply local_rename.
  - apply local_change_mode.
  - apply local_fails.
Qed.
End steps.

(** ** Changes of one node *)

Definition set_node (id : NodeId) (n : LiveNode) (s : OracleState) : OracleState :=
  mkOracle (mkLifecycle (<[id := n]> (live_by_id (os_lifecycle s))) (path_to_id (os_lifecycle s))
    (latest_tombstone_by_id (os_lifecycle s)) (seen_ids (os_lifecycle s))) (os_texts s).

Definition set_text (id : NodeId) (t : list byte) (s : OracleState) : OracleState :=
  mkOracle (os_lifecycle s) (<[id := t]> (os_texts s)).

Definition move_node (id : NodeId) (old new : RepoPath) (s : OracleState) : OracleState :=
  mkOracle (mkLifecycle (live_by_id (os_lifecycle s)) (<[new := id]> (delete old (path_to_id (os_lifecycle s))))
    (latest_tombstone_by_id (os_lifecycle s)) (seen_ids (os_lifecycle s))) (os_texts s).

Lemma set_node_twice id n n' s : set_node id n (set_node id n' s) = set_node id n s.
Proof. unfold set_node. cbn. by rewrite insert_insert_eq. Qed.

Lemma change_mode_step id old new s s' :
  oracle_mut s (change_file_mode (os_lifecycle s) id old new) = Ok s' <->
  exists n b, live_by_id (os_lifecycle s) !! id = Some n /\ ln_content n = FileContent b old /\
    s' = set_node id (mkLive (ln_path n) (ln_kind n) (FileContent b new)) s.
Proof.
  unfold oracle_mut, change_file_mode. destruct (live_by_id (os_lifecycle s) !! id) as [n|] eqn:Hn.
  2: { split; [done|]. by intros (? & ? & ? & _). }
  destruct (ln_content n) as [b m|] eqn:Hc.
  - destruct (Z.eqb_spec m old) as [->|Hm]; cbn [negb fst snd].
    + split; [intros [= <-]; exists n, b; done|]. intros (n' & b' & [= <-] & Hc' & ->). rewrite Hc in Hc'. by simplify_eq.
    + split; [done|]. intros (n' & b' & [= <-] & Hc' & ->). rewrite Hc in Hc'. by simplify_eq.
  - split; [done|]. intros (n' & b' & [= <-] & Hc' & ->). rewrite Hc in Hc'. by simplify_eq.
Qed.

Lemma replace_blob_step id old new s s' :
  oracle_mut s (replace_file_blob (os_lifecycle s) id old new) = Ok s' <->
  exists n m, live_by_id (os_lifecycle s) !! id = Some n /\ ln_kind n = BinaryFile /\ ln_content n = FileContent old m /\
    s' = set_node id (mkLive (ln_path n) (ln_kind n) (FileContent new m)) s.
Proof.
  unfold oracle_mut, replace_file_blob. destruct (live_by_id (os_lifecycle s) !! id) as [n|] eqn:Hn.
  2: { split; [done|]. by intros (? & ? & ? & _). }
  case_bool_decide as Hk; cbn [negb].
  2: { split; [done|]. intros (n' & m' & [= <-] & Hk' & _). done. }
  destruct (ln_content n) as [b m|] eqn:Hc.
  - case_bool_decide as Hb; cbn [negb fst snd].
    + subst b. split; [intros [= <-]; exists n, m; done|]. intros (n' & m' & [= <-] & _ & Hc' & ->). rewrite Hc in Hc'. by simplify_eq.
    + split; [done|]. intros (n' & m' & [= <-] & _ & Hc' & ->). rewrite Hc in Hc'. by simplify_eq.
  - split; [done|]. intros (n' & m' & [= <-] & _ & Hc' & ->). rewrite Hc in Hc'. by simplify_eq.
Qed.

Lemma rename_step id old new s s' :
  oracle_mut s (rename_nodes_checked_batch (os_lifecycle s) [(id, old, new)]) = Ok s' <->
  exists n, live_by_id (os_lifecycle s) !! id = Some n /\ ln_path n = old /\
    match path_to_id (os_lifecycle s) !! new with Some j => j = id | None => True end /\
    path_to_id (os_lifecycle s) !! old = Some id /\ s' = set_node id (set_path new n) (move_node id old new s).
Proof.
  rewrite oracle_rename_one. unfold rename_one. destruct (live_by_id (os_lifecycle s) !! id) as [n|] eqn:Hn.
  2: { split; [done|]. by intros (? & ? & _). }
  destruct (_ && _ && _) eqn:Hc.
  - apply andb_true_iff in Hc as [[H1%bool_decide_eq_true H2]%andb_true_iff H3%bool_decide_eq_true]. split.
    + intros [= <-]. exists n. split_and!; [done|done| |done|done].
      destruct (path_to_id (os_lifecycle s) !! new); [by apply bool_decide_eq_true in H2|done].
    + intros (n' & [= <-] & _ & _ & _ & ->). done.
  - split; [done|]. intros (n' & [= <-] & H1 & H2 & H3 & ->). exfalso. rewrite bool_decide_eq_true_2 in Hc by done.
    rewrite (bool_decide_eq_true_2 (path_to_id (os_lifecycle s) !! old = Some id)) in Hc by done.
    destruct (path_to_id (os_lifecycle s) !! new); [|done]. by rewrite bool_decide_eq_true_2 in Hc.
Qed.

(** Two steps that both succeed on a state can be taken in either order, with one result. *)
Definition commute_on (f g : OracleState -> Result OracleFailure OracleState) : Prop :=
  forall s sf sg, f s = Ok sf -> g s = Ok sg -> exists s', g sf = Ok s' /\ f sg = Ok s'.

Lemma commute_on_sym f g : commute_on f g -> commute_on g f.
Proof. intros Hc s sg sf Hg Hf. destruct (Hc s sf sg Hf Hg) as (s' & H1 & H2). by exists s'. Qed.

Lemma perm_replace_commute id o w b b' :
  commute_on (fun s => oracle_mut s (change_file_mode (os_lifecycle s) id o w))
    (fun s => oracle_mut s (replace_file_blob (os_lifecycle s) id b b')).
Proof.
  intros s sf sg (n & c & Hn & Hc & ->)%change_mode_step (n' & m & Hn' & Hk & Hc' & ->)%replace_blob_step.
  simplify_eq. rewrite Hc in Hc'. simplify_eq.
  eexists. split.
  - apply replace_blob_step. eexists _, _. cbn. rewrite lookup_insert_eq. split_and!; [done|done|done|]. rewrite set_node_twice. done.
  - apply change_mode_step. eexists _, _. cbn. rewrite lookup_insert_eq. split_and!; [done|done|]. by rewrite set_node_twice.
Qed.

Lemma rename_perm_commute id old new o w :
  commute_on (fun s => oracle_mut s (rename_nodes_checked_batch (os_lifecycle s) [(id, old, new)]))
    (fun s => oracle_mut s (change_file_mode (os_lifecycle s) id o w)).
Proof.
  intros s sf sg (n & Hn & Hp & Hnew & Hold & ->)%rename_step (n' & b & Hn' & Hc & ->)%change_mode_step. simplify_eq.
  eexists. split.
  - apply change_mode_step. eexists _, _. cbn. rewrite lookup_insert_eq. split_and!; [done|done|]. rewrite set_node_twice. done.
  - apply rename_step. eexists. cbn. rewrite lookup_insert_eq. split_and!; [done|done|done|done|].
    unfold set_node, move_node. cbn. by rewrite insert_insert_eq.
Qed.

Lemma rename_replace_commute id old new b b' :
  commute_on (fun s => oracle_mut s (rename_nodes_checked_batch (os_lifecycle s) [(id, old, new)]))
    (fun s => oracle_mut s (replace_file_blob (os_lifecycle s) id b b')).
Proof.
  intros s sf sg (n & Hn & Hp & Hnew & Hold & ->)%rename_step (n' & m & Hn' & Hk & Hc & ->)%replace_blob_step. simplify_eq.
  eexists. split.
  - apply replace_blob_step. eexists _, _. cbn. rewrite lookup_insert_eq. split_and!; [done|done|done|]. rewrite set_node_twice. done.
  - apply rename_step. eexists. cbn. rewrite lookup_insert_eq. split_and!; [done|done|done|done|].
    unfold set_node, move_node. cbn. by rewrite insert_insert_eq.
Qed.

Section edits.
Context `{Sha256} (E : PatchAlgebraEvidence) (base : NodeLifecycleState) (scope : EvidenceScope).

(** The text an edit starts from depends on the kind and the blob, not on the path or the mode. *)
Lemma text_of_same s s' id n n' b m m' :
  os_texts s !! id = os_texts s' !! id -> live_by_id (os_lifecycle s) !! id = Some n ->
  live_by_id (os_lifecycle s') !! id = Some n' -> ln_kind n = ln_kind n' -> ln_content n = FileContent b m ->
  ln_content n' = FileContent b m' -> text_of E base scope s id = text_of E base scope s' id.
Proof.
  intros Ht Hn Hn' Hk Hc Hc'. unfold text_of, current_text, live_node. rewrite Ht, Hn, Hn'. cbn [ok_or]. rewrite Hk, Hc, Hc'.
  destruct (os_texts s' !! id); [done|]. destruct (bool_decide (ln_kind n' = TextFile)); cbn [negb]; [|done].
  destruct (is_some (live_by_id base !! id)); cbn [negb].
  - by destruct (baseline_text _ _ _).
  - destruct (evidence_blob_content scope b) as [[[] ?]|[]| | | |]; done.
Qed.

Lemma edited_node_inv n blob n' : edited_node n blob = Some n' ->
  ln_kind n = TextFile /\ exists b m, ln_content n = FileContent b m /\ n' = mkLive (ln_path n) (ln_kind n) (FileContent blob m).
Proof.
  unfold edited_node. case_bool_decide; [|done]. destruct (ln_content n) as [b m|]; [|done]. intros [= <-].
  split; [done|]. by exists b, m.
Qed.

Lemma rename_edit_commute id old new edit replacement :
  commute_on (fun s => oracle_mut s (rename_nodes_checked_batch (os_lifecycle s) [(id, old, new)]))
    (fun s => oracle_text_edit E base scope s id edit replacement).
Proof.
  intros s sf sg (n & Hn & Hp & Hnew & Hold & ->)%rename_step (t & t' & blob & n' & n1 & Ht & He & Hn' & Hu & ->)%oracle_text_edit_ok.
  simplify_eq. apply edited_node_inv in Hu as (Hk & b & m & Hc & ->). eexists. split.
  - apply oracle_text_edit_ok. eexists t, t', blob, _, _. cbn. rewrite lookup_insert_eq. split_and!; [|done|done| |reflexivity].
    + rewrite <- Ht. symmetry. eapply (text_of_same _ _ id _ (set_path new n) b m m); cbn; [done|done|by rewrite lookup_insert_eq|done|done|done].
    + unfold edited_node. cbn. rewrite bool_decide_eq_true_2 by done. by rewrite Hc.
  - apply rename_step. eexists. cbn. rewrite lookup_insert_eq. split_and!; [done|done|done|done|].
    unfold set_node, move_node. cbn. by rewrite !insert_insert_eq.
Qed.

Lemma perm_edit_commute id o w edit replacement :
  commute_on (fun s => oracle_mut s (change_file_mode (os_lifecycle s) id o w))
    (fun s => oracle_text_edit E base scope s id edit replacement).
Proof.
  intros s sf sg (n & b & Hn & Hc & ->)%change_mode_step (t & t' & blob & n' & n1 & Ht & He & Hn' & Hu & ->)%oracle_text_edit_ok.
  simplify_eq. apply edited_node_inv in Hu as (Hk & b1 & m1 & Hc1 & ->). rewrite Hc in Hc1. simplify_eq. eexists. split.
  - apply oracle_text_edit_ok. eexists t, t', blob, _, _. cbn. rewrite lookup_insert_eq. split_and!; [|done|done| |reflexivity].
    + rewrite <- Ht. symmetry. eapply (text_of_same _ _ id _ (mkLive (ln_path n) (ln_kind n) (FileContent b1 w)) b1 m1 w);
        cbn; [done|done|by rewrite lookup_insert_eq|done|done|done].
    + unfold edited_node. cbn. by rewrite bool_decide_eq_true_2 by done.
  - apply change_mode_step. eexists _, _. cbn. rewrite lookup_insert_eq. split_and!; [done|done|].
    unfold set_node. cbn. by rewrite !insert_insert_eq.
Qed.
End edits.

(** ** Paths of a step that succeeds *)

Definition newly (op : DecodedPatchOperation) : gset RepoPath :=
  match d_kind op with
  | DCreateFile p _ _ _ | DCreateSymlink p _ _ => {[p]}
  | DRenamePath _ _ new => {[new]}
  | _ => ∅
  end.

Definition freed_by (op : DecodedPatchOperation) : gset RepoPath :=
  match d_kind op with
  | DDeleteNode p _ _ => {[p]}
  | DRenamePath _ old _ => {[old]}
  | _ => ∅
  end.

Section paths.
Context `{Sha256} (E : PatchAlgebraEvidence) (base : NodeLifecycleState) (scope : EvidenceScope).

Lemma footprint_split op : footprint op = newly op ∪ freed_by op.
Proof. unfold footprint, newly, freed_by. destruct (d_kind op); set_solver. Qed.

(** A path an operation occupies is free or its own; a path it frees is its own. *)
Lemma step_paths op s s' : oracle_step E base scope op s = Ok s' ->
  (forall p, p ∈ newly op -> path_to_id (os_lifecycle s) !! p = None \/ path_to_id (os_lifecycle s) !! p = Some (op_node op)) /\
  (forall p, p ∈ freed_by op -> path_to_id (os_lifecycle s) !! p = Some (op_node op)).
Proof.
  unfold oracle_step, oracle_apply_operation, newly, freed_by, op_node. destruct op as [seq kind pid]. cbn [d_kind].
  destruct kind as [p id b m|p id [k b m|t]|id ? ? ? ? r ? ? ?|id o w|id o w|id o w|p id t]; intros Hs; try done;
    try (split; set_solver).
  - split; [|set_solver]. intros q Hq. assert (q = p) as -> by set_solver. left. unfold oracle_create in Hs.
    destruct (match evidence_blob_kind scope b with Known _ => _ | _ => _ end) as [bk|] in Hs; [|done].
    destruct (map_err _ _) as [k|] in Hs; [|done]. destruct (oracle_parse_repo_path scope p) as [q|] eqn:Hq'; [|done].
    apply parse_same in Hq' as ->. unfold oracle_mut, create_node in Hs. cbn [ln_path] in Hs.
    destruct (ensure_node_id_nonzero id) as [[]|]; [|done]. destruct (validate_kind_content_shape _ _) as [[]|]; [|done].
    destruct (is_some (live_by_id _ !! id)); [done|]. by destruct (path_to_id (os_lifecycle s) !! p).
  - split; [set_solver|]. intros q Hq. assert (q = p) as -> by set_solver. unfold oracle_delete_file in Hs.
    destruct (oracle_parse_repo_path scope p) as [q|] eqn:Hq'; [|done]. apply parse_same in Hq' as ->.
    unfold oracle_mut, delete_node_checked, delete_node in Hs. destruct (live_by_id (os_lifecycle s) !! id) as [n|]; [|done].
    case_bool_decide as Hn; [|done]. subst n. cbn [negb ln_path] in Hs.
    destruct (path_to_id (os_lifecycle s) !! p) as [j|]; [|done]. case_bool_decide; [by subst|done].
  - destruct (oracle_rename_triple scope _) as [[[i o'] w']|] eqn:Ht; [|done]. unfold oracle_rename_triple in Ht. cbn [d_kind] in Ht.
    destruct (oracle_parse_repo_path scope o) as [o1|] eqn:Ho; [|done]. destruct (oracle_parse_repo_path scope w) as [w1|] eqn:Hw; [|done].
    apply parse_same in Ho as ->. apply parse_same in Hw as ->. injection Ht as <- <- <-.
    apply rename_step in Hs as (n & Hn & Hp & Hnew & Hold & _). split.
    + intros q Hq. assert (q = w) as -> by set_solver. destruct (path_to_id (os_lifecycle s) !! w); [right; by subst|by left].
    + intros q Hq. by assert (q = o) as -> by set_solver.
Qed.

(** Two operations on different nodes that both replay and occupy different paths touch disjoint paths. *)
Lemma footprints_disjoint l r s sl sr :
  oracle_step E base scope l s = Ok sl -> oracle_step E base scope r s = Ok sr -> op_node l <> op_node r ->
  newly l ## newly r -> footprint l ## footprint r.
Proof.
  intros Hl Hr Hne Hnew. destruct (step_paths _ _ _ Hl) as [Nl Fl]. destruct (step_paths _ _ _ Hr) as [Nr Fr].
  rewrite !footprint_split. intros p Hpl Hpr. apply elem_of_union in Hpl as [Hpl|Hpl]; apply elem_of_union in Hpr as [Hpr|Hpr].
  - by apply (Hnew p).
  - pose proof (Fr p Hpr). destruct (Nl p Hpl); congruence.
  - pose proof (Fl p Hpl). destruct (Nr p Hpr); congruence.
  - pose proof (Fl p Hpl). pose proof (Fr p Hpr). congruence.
Qed.

(** ** Inverting a classification *)

Lemma facts_inv op f : operation_facts op = Ok f ->
  of_node_id f = Some (op_node op) /\ newly_occupied (of_path_effects f) = newly op /\ of_op_seq f = d_op_seq op.
Proof.
  unfold operation_facts, facts_parse_path, newly, op_node. destruct op as [seq kind pid]. cbn [d_kind].
  assert (Hp : forall p q, RepoPath_parse p = Ok q -> q = p) by (by intros p q [-> _]%RepoPath_parse_inv).
  destruct kind as [p id b m|p id pre|id ? ? ? ? r ? ? ?|id o w|id o w|id o w|p id t].
  1,2,7: destruct (RepoPath_parse p) as [q|] eqn:Hq; cbn [map_err]; [|done]; apply Hp in Hq as ->.
  1: by intros [= <-]. 1: destruct pre; by intros [= <-]. 1: by intros [= <-].
  1,2,4: by intros [= <-].
  destruct (RepoPath_parse o) as [o'|] eqn:Ho; cbn [map_err]; [|done].
  destruct (RepoPath_parse w) as [w'|] eqn:Hw; cbn [map_err]; [|done]. apply Hp in Ho as ->. apply Hp in Hw as ->. by intros [= <-].
Qed.

Lemma independent_inv l r : classify_pair_with_text_resolver base E l r = Ok Independent ->
  exists fl fr, operation_facts l = Ok fl /\ operation_facts r = Ok fr /\
    deferred_reason (of_action fl) = None /\ deferred_reason (of_action fr) = None /\
    newly l ## newly r /\ classify_by_node base E fl fr = Ok Independent.
Proof.
  unfold classify_pair_with_text_resolver. destruct (operation_facts l) as [fl|] eqn:Hl; [|done].
  destruct (operation_facts r) as [fr|] eqn:Hr; [|done].
  destruct (deferred_reason (of_action fl)) eqn:Hdl; [done|]. cbn [or_else].
  destruct (deferred_reason (of_action fr)) eqn:Hdr; [done|].
  destruct (classify_path_relation base fl fr) as [c|] eqn:Hpr.
  { intros [= ->]. exfalso. revert Hpr. unfold classify_path_relation, classify_rename_destination_conflict,
      classify_same_path_create, classify_freed_then_required, classify_freed_twice, conflict, ordered.
    repeat case_match; intros Hx; simplify_eq. }
  intros Hn. exists fl, fr. split_and!; [done|done|done|done| |done].
  destruct (facts_inv l fl Hl) as (_ & <- & _). destruct (facts_inv r fr Hr) as (_ & <- & _).
  unfold classify_path_relation in Hpr. destruct (classify_rename_destination_conflict base fl fr); [done|].
  unfold classify_same_path_create in Hpr. case_bool_decide as Hd; [done|]. done.
Qed.
End paths.

Section commute.
Context `{Sha256} (E : PatchAlgebraEvidence) (base : NodeLifecycleState) (scope : EvidenceScope).

Lemma parse_valid p : valid_path p -> oracle_parse_repo_path scope p = Ok p.
Proof. intros Hp. unfold oracle_parse_repo_path. by rewrite RepoPath_parse_valid. Qed.

(** What the oracle does for an operation with the given facts. *)
Lemma step_of_action op f : operation_facts op = Ok f ->
  match of_action f with
  | AChangePerm id o w => forall s, oracle_step E base scope op s = oracle_mut s (change_file_mode (os_lifecycle s) id o w)
  | AReplaceBinary id o w =>
      (forall s, oracle_step E base scope op s = oracle_mut s (replace_file_blob (os_lifecycle s) id o w)) \/
      (forall s s', oracle_step E base scope op s <> Ok s')
  | ARenamePath id o n =>
      forall s, oracle_step E base scope op s = oracle_mut s (rename_nodes_checked_batch (os_lifecycle s) [(id, o, n)])
  | AEditText id e => exists repl, forall s, oracle_step E base scope op s = oracle_text_edit E base scope s id e repl
  | ADeleteFile p id k b m => forall s, oracle_step E base scope op s =
      oracle_mut s (delete_node_checked (os_lifecycle s) id (mkLive p k (FileContent b m)))
  | ACreateFile p id b m => forall s s', oracle_step E base scope op s = Ok s' ->
      exists k, oracle_mut s (create_node (os_lifecycle s) id (mkLive p k (FileContent b m))) = Ok s'
  | _ => True
  end.
Proof.
  unfold operation_facts, facts_parse_path, oracle_step, oracle_apply_operation. destruct op as [seq kind pid]. cbn [d_kind].
  destruct kind as [p id b m|p id [k b m|t]|id ? ? ? ? r ? ? ?|id o w|id o w|id o w|p id t].
  - destruct (RepoPath_parse p) as [q|] eqn:Hq; cbn [map_err]; [|done]. apply RepoPath_parse_inv in Hq as [-> Hv]. intros [= <-].
    cbn [of_action]. intros s s' Hs. unfold oracle_create in Hs. rewrite (parse_valid p Hv) in Hs.
    destruct (match evidence_blob_kind scope b with Known _ => _ | _ => _ end) as [bk|] in Hs; [|done].
    destruct (map_err _ _) as [k|] in Hs; [|done]. by exists k.
  - destruct (RepoPath_parse p) as [q|] eqn:Hq; cbn [map_err]; [|done]. apply RepoPath_parse_inv in Hq as [-> Hv]. intros [= <-].
    cbn [of_action]. intros s. unfold oracle_delete_file. by rewrite (parse_valid p Hv).
  - destruct (RepoPath_parse p); cbn [map_err]; [|done]. by intros [= <-].
  - intros [= <-]. cbn [of_action]. by exists r.
  - intros [= <-]. cbn [of_action]. unfold oracle_replace_binary.
    destruct (evidence_blob_kind scope w) as [[]|[]| | | |]; try (right; done). left. done.
  - destruct (RepoPath_parse o) as [o'|] eqn:Ho; cbn [map_err]; [|done].
    destruct (RepoPath_parse w) as [w'|] eqn:Hw; cbn [map_err]; [|done].
    apply RepoPath_parse_inv in Ho as [-> Hvo]. apply RepoPath_parse_inv in Hw as [-> Hvw]. intros [= <-]. cbn [of_action].
    intros s. unfold oracle_rename_triple. cbn [d_kind]. by rewrite (parse_valid o Hvo), (parse_valid w Hvw).
  - by intros [= <-].
  - destruct (RepoPath_parse p); cbn [map_err]; [|done]. by intros [= <-].
Qed.

Lemma commute_on_ext f f' g g' : (forall s, f s = f' s) -> (forall s, g s = g' s) -> commute_on f' g' -> commute_on f g.
Proof. intros Hf Hg Hc s sf sg. rewrite Hf, Hg. intros H1 H2. rewrite Hf, Hg. by apply (Hc s). Qed.

Lemma commute_on_never_l f g : (forall s s', f s <> Ok s') -> commute_on f g.
Proof. intros Hn s sf sg Hf. by apply Hn in Hf. Qed.

Lemma invalid_preimage_class_inv E0 subject peer c :
  invalid_preimage_class base E0 subject peer = Ok (Some c) ->
  c <> Independent /\ forall o w, c <> OrderedDependency o w.
Proof. unfold invalid_preimage_class. destruct (validate_preimage base E0 subject) as [[]|]; by intros [= <-]. Qed.

Lemma create_then_mutate_not_independent fl fr id x :
  classify_create_then_mutate base E fl fr id = Some x -> x <> Ok Independent.
Proof.
  unfold classify_create_then_mutate.
  assert (Hinv : forall f f' y, invalid_create_in_same_node_pair base f f' = Some y -> y <> Ok Independent).
  { intros f f' y. unfold invalid_create_in_same_node_pair. destruct (of_action f); try done.
    destruct (invalid_preimage_class _ _ f f') as [[c|]|] eqn:Hi; [|done|]; intros [= <-]; [|done].
    apply invalid_preimage_class_inv in Hi as [Hi _]. congruence. }
  destruct (invalid_create_in_same_node_pair base fl fr) eqn:H1; [intros [= <-]; by apply (Hinv _ _ _ H1)|].
  destruct (invalid_create_in_same_node_pair base fr fl) eqn:H2; [intros [= <-]; by apply (Hinv _ _ _ H2)|].
  unfold classify_create_then_replace_binary, classify_create_then_edit_text.
  destruct (of_action fl), (of_action fr); try done; intros [= <-]; try done; repeat case_match; done.
Qed.

Lemma mutate_then_delete_not_independent fl fr id c : classify_mutate_then_delete base fl fr id = Some c -> c <> Independent.
Proof.
  unfold classify_mutate_then_delete. destruct (of_action fl), (of_action fr); try done; intros [= <-]; by destruct (_ && _).
Qed.

Lemma facts_action_node op f : operation_facts op = Ok f -> action_node_id (of_action f) = of_node_id f.
Proof.
  unfold operation_facts. intros Hf. destruct (match d_kind op with DCreateFile _ _ _ _ => _ | _ => _ end) as [[a e]|] in Hf; [|done].
  injection Hf as <-. done.
Qed.

(** A pair on one node that is classified independent changes different fields of it. *)
Lemma same_node_commute l r fl fr id :
  operation_facts l = Ok fl -> operation_facts r = Ok fr -> of_node_id fl = Some id -> of_node_id fr = Some id ->
  classify_same_node base E fl fr id = Ok Independent ->
  commute_on (oracle_step E base scope l) (oracle_step E base scope r).
Proof.
  intros Hl Hr Hil Hir Hc. pose proof (step_of_action l fl Hl) as Sl. pose proof (step_of_action r fr Hr) as Sr.
  rewrite <- (facts_action_node l fl Hl) in Hil. rewrite <- (facts_action_node r fr Hr) in Hir.
  unfold classify_same_node in Hc.
  destruct (classify_create_then_mutate base E fl fr id) eqn:H1; [by apply create_then_mutate_not_independent in H1|].
  destruct (classify_mutate_then_delete base fl fr id) eqn:H2; [apply mutate_then_delete_not_independent in H2; congruence|].
  destruct (of_action fl), (of_action fr); cbn [action_node_id] in Hil, Hir; try done; simplify_eq.
  - by destruct (bool_decide _).
  - destruct Sl as [repl Sl]. apply commute_on_sym, (commute_on_ext _ _ _ _ Sr Sl), rename_edit_commute.
  - destruct Sl as [repl Sl]. apply commute_on_sym, (commute_on_ext _ _ _ _ Sr Sl), perm_edit_commute.
  - destruct Sl as [Sl|Sl]; [|by apply commute_on_never_l].
    apply commute_on_sym, (commute_on_ext _ _ _ _ Sr Sl), rename_replace_commute.
  - destruct Sl as [Sl|Sl]; [|by apply commute_on_never_l].
    apply commute_on_sym, (commute_on_ext _ _ _ _ Sr Sl), perm_replace_commute.
  - destruct Sr as [repl Sr]. apply (commute_on_ext _ _ _ _ Sl Sr), rename_edit_commute.
  - destruct Sr as [Sr|Sr]; [|by apply commute_on_sym, commute_on_never_l].
    apply (commute_on_ext _ _ _ _ Sl Sr), rename_replace_commute.
  - apply (commute_on_ext _ _ _ _ Sl Sr), rename_perm_commute.
  - destruct Sr as [repl Sr]. apply (commute_on_ext _ _ _ _ Sl Sr), perm_edit_commute.
  - destruct Sr as [Sr|Sr]; [|by apply commute_on_sym, commute_on_never_l].
    apply (commute_on_ext _ _ _ _ Sl Sr), perm_replace_commute.
  - apply commute_on_sym, (commute_on_ext _ _ _ _ Sr Sl), rename_perm_commute.
Qed.

(** Every pair classified independent commutes once both operations replay on their own. *)
Lemma independent_commute l r s sl sr :
  classify_pair_with_text_resolver base E l r = Ok Independent ->
  oracle_step E base scope l s = Ok sl -> oracle_step E base scope r s = Ok sr ->
  exists s', oracle_step E base scope r sl = Ok s' /\ oracle_step E base scope l sr = Ok s'.
Proof.
  intros Hc Hl Hr. destruct (independent_inv E base l r Hc) as (fl & fr & Hfl & Hfr & _ & _ & Hnew & Hn).
  destruct (facts_inv l fl Hfl) as (Hil & _ & _). destruct (facts_inv r fr Hfr) as (Hir & _ & _).
  unfold classify_by_node in Hn. rewrite Hil, Hir in Hn. case_bool_decide as Hid.
  - rewrite <- Hid in Hir. by apply (same_node_commute l r fl fr (op_node l) Hfl Hfr Hil Hir Hn s).
  - apply (local_steps_commute (op_node l) (op_node r) (footprint l) (footprint r) _ _ s sl sr);
      [apply step_local|apply step_local|done|by apply (footprints_disjoint E base scope l r s sl sr)|done|done].
Qed.
End commute.

(** ** Ordered dependencies *)

(** The three ways one operation has to come before another. *)
Definition ordered_shape (base : NodeLifecycleState) (first second : Action) : Prop :=
  match first, second with
  | ADeleteFile p id _ _ _, ACreateFile p' _ _ _ => p = p' /\ path_to_id base !! p = Some id
  | ACreateFile _ id _ _, (AChangePerm id' _ _ | AReplaceBinary id' _ _ | AEditText id' _) => id = id' /\ id ∉ seen_ids base
  | (AChangePerm id _ _ | AReplaceBinary id _ _), ADeleteFile _ id' _ _ _ => id = id'
  | _, _ => False
  end.

Section ordered.
Context `{Sha256} (E : PatchAlgebraEvidence) (base : NodeLifecycleState) (scope : EvidenceScope).

Lemma create_valid_unseen f f' p id b m : of_action f = ACreateFile p id b m ->
  invalid_create_in_same_node_pair base f f' = None -> id ∉ seen_ids base.
Proof.
  unfold invalid_create_in_same_node_pair, invalid_preimage_class, validate_preimage. intros ->.
  destruct (is_some _); [done|]. unfold contains_seen_node_id. by case_bool_decide.
Qed.

Lemma freed_then_required_inv first second l r o c :
  classify_freed_then_required base first second l r o = Some c ->
  match c with
  | OrderedDependency o' _ => o' = o /\ ordered_shape base (of_action first) (of_action second)
  | Independent => False
  | _ => True
  end.
Proof.
  unfold classify_freed_then_required, is_delete_preimage_valid, is_create_after_delete_valid, validate_preimage, ordered, conflict.
  destruct (bool_decide _); cbn [negb]; [done|]. destruct (of_action first) as [|p id k b m| | | | | |]; try (intros [= <-]; done).
  destruct (baseline_file_matches base id k b m); cbn [andb]; [|intros [= <-]; done].
  case_bool_decide as Hp; cbn [negb orb]; [|intros [= <-]; done].
  destruct (of_action second) as [p' id' b' m'| | | | | | |]; try (intros [= <-]; done).
  case_bool_decide as Hpp; cbn [negb orb]; [|intros [= <-]; done].
  destruct (contains_seen_node_id base id'); cbn [negb]; intros [= <-]; [done|]. cbn. by split_and!.
Qed.

Lemma path_relation_inv l r c : classify_path_relation base l r = Some c ->
  match c with
  | OrderedDependency LeftBeforeRight _ => ordered_shape base (of_action l) (of_action r)
  | OrderedDependency RightBeforeLeft _ => ordered_shape base (of_action r) (of_action l)
  | Independent => False
  | _ => True
  end.
Proof.
  unfold classify_path_relation. destruct (classify_rename_destination_conflict base l r) as [d|] eqn:H1.
  { unfold classify_rename_destination_conflict, conflict in H1. repeat case_match; simplify_eq; intros; by simplify_eq. }
  destruct (classify_same_path_create base l r) as [d|] eqn:H2.
  { unfold classify_same_path_create, conflict in H2. case_match; simplify_eq; intros; by simplify_eq. }
  assert (Hf : forall d, classify_freed_twice base l r = Some d -> match d with Conflict _ => True | _ => False end).
  { intros d. unfold classify_freed_twice, conflict. destruct (negb _); [|done]. by intros [= <-]. }
  assert (Hf' : classify_freed_twice base l r = Some c -> match c with
    | OrderedDependency LeftBeforeRight _ => ordered_shape base (of_action l) (of_action r)
    | OrderedDependency RightBeforeLeft _ => ordered_shape base (of_action r) (of_action l)
    | Independent => False | _ => True end) by (intros Hx; apply Hf in Hx; by destruct c).
  destruct (has_rename l || has_rename r); [done|].
  destruct (classify_freed_then_required base l r l r LeftBeforeRight) as [d|] eqn:H3.
  { intros [= <-]. apply freed_then_required_inv in H3. destruct d as [|o w|w|]; try done. by destruct H3 as [-> H3]. }
  destruct (classify_freed_then_required base r l l r RightBeforeLeft) as [d|] eqn:H4; [|done].
  intros [= <-]. apply freed_then_required_inv in H4. destruct d as [|o w|w|]; try done. by destruct H4 as [-> H4].
Qed.

Lemma same_node_ordered_inv l r id o w :
  action_node_id (of_action l) = Some id -> action_node_id (of_action r) = Some id ->
  classify_same_node base E l r id = Ok (OrderedDependency o w) ->
  match o with
  | LeftBeforeRight => ordered_shape base (of_action l) (of_action r)
  | RightBeforeLeft => ordered_shape base (of_action r) (of_action l)
  end.
Proof.
  intros Hl Hr. unfold classify_same_node, classify_create_then_mutate.
  assert (Hinv : forall f f' x, invalid_create_in_same_node_pair base f f' = Some x -> x <> Ok (OrderedDependency o w)).
  { intros f f' x. unfold invalid_create_in_same_node_pair. destruct (of_action f); try done.
    destruct (invalid_preimage_class _ _ f f') as [[c|]|] eqn:Hi; [|done|]; intros [= <-]; [|done].
    apply invalid_preimage_class_inv in Hi as [_ Hi]. specialize (Hi o w). congruence. }
  destruct (invalid_create_in_same_node_pair base l r) eqn:H1; [intros ->; by apply Hinv in H1|].
  destruct (invalid_create_in_same_node_pair base r l) eqn:H2; [intros ->; by apply Hinv in H2|].
  pose proof (fun p i b m Ha => create_valid_unseen l r p i b m Ha H1) as Ul.
  pose proof (fun p i b m Ha => create_valid_unseen r l p i b m Ha H2) as Ur.
  unfold classify_mutate_then_delete, classify_create_then_replace_binary, classify_create_then_edit_text,
    classify_mode_and_text_edit, ordered, conflict, conflict_with_span, unknown_from_facts.
  destruct (of_action l) eqn:Al, (of_action r) eqn:Ar; cbn [action_node_id] in Hl, Hr; try done; simplify_eq;
    repeat case_match; intros Hx; simplify_eq; cbn; try done; split; try done;
    first [exact (Ul _ _ _ _ eq_refl)|exact (Ur _ _ _ _ eq_refl)|exact (Ul _ _ _ _ Al)|exact (Ur _ _ _ _ Ar)].
Qed.

(** What an ordered classification says. *)
Lemma ordered_inv l r o w : classify_pair_with_text_resolver base E l r = Ok (OrderedDependency o w) ->
  exists fl fr, operation_facts l = Ok fl /\ operation_facts r = Ok fr /\
    match o with
    | LeftBeforeRight => ordered_shape base (of_action fl) (of_action fr)
    | RightBeforeLeft => ordered_shape base (of_action fr) (of_action fl)
    end.
Proof.
  unfold classify_pair_with_text_resolver. destruct (operation_facts l) as [fl|] eqn:Hl; [|done].
  destruct (operation_facts r) as [fr|] eqn:Hr; [|done]. destruct (or_else _ _); [done|].
  destruct (classify_path_relation base fl fr) as [c|] eqn:Hp.
  { intros [= ->]. exists fl, fr. split_and!; [done|done|]. by apply path_relation_inv in Hp. }
  intros Hn. exists fl, fr. split_and!; [done|done|]. unfold classify_by_node in Hn.
  rewrite <- (facts_action_node l fl Hl), <- (facts_action_node r fr Hr) in Hn.
  assert (Hcross : classify_cross_node base E fl fr <> Ok (OrderedDependency o w)).
  { unfold classify_cross_node. destruct (invalid_preimage_class base E fl fr) as [[c|]|] eqn:Hi; [| |done].
    - apply invalid_preimage_class_inv in Hi as [_ Hi]. specialize (Hi o w). congruence.
    - destruct (invalid_preimage_class base E fr fl) as [[c|]|] eqn:Hj; [|done|done].
      apply invalid_preimage_class_inv in Hj as [_ Hj]. specialize (Hj o w). congruence. }
  destruct (action_node_id (of_action fl)) as [i|] eqn:Hi; [|done].
  destruct (action_node_id (of_action fr)) as [j|] eqn:Hj; [|done]. case_bool_decide as Hij; [|done]. subst j.
  by apply (same_node_ordered_inv fl fr i o w).
Qed.
End ordered.

(** * Commutation and classification: the claims

    A pair of operations commutes exactly when it is classified independent and both replay on their
    own; the classification does not depend on the order of the pair; an ordered pair never replays in
    the wrong order; confluent sequences replay to one state in both orders. *)


Section claims.
Context `{Sha256} (E : PatchAlgebraEvidence) (base : NodeLifecycleState) (scope : EvidenceScope).

Lemma same_rename_batch_sym l r : same_rename_batch l r = same_rename_batch r l.
Proof.
  unfold same_rename_batch. destruct (d_kind l), (d_kind r); try done.
  destruct (bool_decide (d_patch_id l = d_patch_id r)) eqn:Hb.
  - apply bool_decide_eq_true in Hb. rewrite <- Hb. by rewrite bool_decide_eq_true_2 by done.
  - apply bool_decide_eq_false in Hb. by rewrite (bool_decide_eq_false_2 (d_patch_id r = d_patch_id l)), !andb_false_r by congruence.
Qed.

Lemma provenance_ok op f : operation_facts op = Ok f -> validate_operation_provenance scope op = Ok tt.
Proof. unfold validate_operation_provenance. by intros ->. Qed.

Lemma commute_pair_spec l r : same_rename_batch l r = false ->
  commute_pair E base scope l r = Ok (Commutes (mkCommutationProof (d_op_seq l) (d_op_seq r))) <->
  classify_pair_with_text_resolver base E l r = Ok Independent /\
  is_ok (replay_operations E base scope [l]) = true /\ is_ok (replay_operations E base scope [r]) = true.
Proof.
  intros Hb. pose proof Hb as Hb'. rewrite same_rename_batch_sym in Hb'.
  unfold commute_pair, prove_pair_replay. rewrite (replay_two E base scope l r Hb), (replay_two E base scope r l Hb'), !replay_one.
  split.
  - intros Hc. destruct (validate_operation_provenance scope l) as [[]|]; [|done].
    destruct (validate_operation_provenance scope r) as [[]|]; [|done].
    destruct (classify_pair_with_text_resolver base E l r) as [[]|]; try done. split; [done|].
    destruct (oracle_step E base scope l _) as [sl|[]]; [|done|done|done].
    destruct (oracle_step E base scope r sl) as [slr|[]]; [|done|done|done].
    destruct (oracle_step E base scope r _) as [sr|[]]; [done|done|done|done].
  - intros (Hc & Hl & Hr). rewrite Hc. destruct (independent_inv E base l r Hc) as (fl & fr & Hfl & Hfr & _).
    rewrite (provenance_ok l fl Hfl), (provenance_ok r fr Hfr).
    destruct (oracle_step E base scope l _) as [sl|] eqn:Hsl; [|done]. destruct (oracle_step E base scope r _) as [sr|] eqn:Hsr; [|done].
    destruct (independent_commute E base scope l r _ sl sr Hc Hsl Hsr) as (s' & -> & ->). by rewrite bool_decide_eq_true_2.
Qed.

(** ** Symmetry of the classification *)

Lemma freed_then_required_none first second l r o :
  classify_freed_then_required base first second l r o = None <->
  freed (of_path_effects first) ## required_free (of_path_effects second).
Proof. unfold classify_freed_then_required. case_bool_decide; cbn [negb]; [done|]. split; [|done]. by destruct (_ || _). Qed.

Lemma path_relation_none_sym l r : classify_path_relation base l r = None -> classify_path_relation base r l = None.
Proof.
  unfold classify_path_relation. destruct (classify_rename_destination_conflict base l r) eqn:H1; [done|].
  assert (H1' : classify_rename_destination_conflict base r l = None).
  { unfold classify_rename_destination_conflict in *. destruct (of_action l), (of_action r); try done.
    repeat case_bool_decide; cbn [negb orb] in *; try done; congruence. }
  rewrite H1'. destruct (classify_same_path_create base l r) eqn:H2; [done|].
  assert (H2' : classify_same_path_create base r l = None).
  { unfold classify_same_path_create in *. repeat case_bool_decide; cbn [negb] in *; try done. }
  rewrite H2'. rewrite (orb_comm (has_rename r)).
  assert (Hf : classify_freed_twice base l r = None -> classify_freed_twice base r l = None).
  { unfold classify_freed_twice. case_bool_decide as Hd; [|done]. intros _. by rewrite bool_decide_eq_true_2 by (by symmetry). }
  destruct (has_rename l || has_rename r); [done|].
  destruct (classify_freed_then_required base l r l r _) eqn:H3; [done|].
  destruct (classify_freed_then_required base r l l r _) eqn:H4; [done|]. intros H5.
  apply freed_then_required_none in H3. apply freed_then_required_none in H4.
  rewrite (proj2 (freed_then_required_none r l r l LeftBeforeRight) H4), (proj2 (freed_then_required_none l r r l RightBeforeLeft) H3).
  by apply Hf.
Qed.

Lemma same_node_independent_sym l r id : classify_same_node base E l r id = Ok Independent ->
  classify_same_node base E r l id = Ok Independent.
Proof.
  unfold classify_same_node. intros Hc.
  destruct (classify_create_then_mutate base E l r id) as [x|] eqn:H1; [by apply create_then_mutate_not_independent in H1|].
  destruct (classify_mutate_then_delete base l r id) as [x|] eqn:H2; [apply mutate_then_delete_not_independent in H2; congruence|].
  unfold classify_create_then_mutate, invalid_create_in_same_node_pair in *. unfold classify_mutate_then_delete in *.
  unfold classify_mode_and_text_edit, conflict, conflict_with_span, unknown_from_facts in *.
  destruct (of_action l), (of_action r); try done; repeat case_match; simplify_eq; done.
Qed.

Lemma independent_sym l r : classify_pair_with_text_resolver base E l r = Ok Independent ->
  classify_pair_with_text_resolver base E r l = Ok Independent.
Proof.
  unfold classify_pair_with_text_resolver. destruct (operation_facts l) as [fl|] eqn:Hl; [|done].
  destruct (operation_facts r) as [fr|] eqn:Hr; [|done].
  destruct (deferred_reason (of_action fl)); [done|]. destruct (deferred_reason (of_action fr)); [done|]. cbn [or_else].
  destruct (classify_path_relation base fl fr) as [c|] eqn:Hp; [intros [= ->]; by apply path_relation_inv in Hp|].
  rewrite (path_relation_none_sym fl fr Hp). unfold classify_by_node.
  assert (Hcross : classify_cross_node base E fl fr = Ok Independent -> classify_cross_node base E fr fl = Ok Independent).
  { unfold classify_cross_node. destruct (invalid_preimage_class base E fl fr) as [[c|]|] eqn:Hi; [| |done].
    { intros [= ->]. by apply invalid_preimage_class_inv in Hi as [Hi _]. }
    destruct (invalid_preimage_class base E fr fl) as [[c|]|] eqn:Hj; [|done|done].
    intros [= ->]. by apply invalid_preimage_class_inv in Hj as [Hj _]. }
  destruct (of_node_id fl) as [i|], (of_node_id fr) as [j|]; try done.
  case_bool_decide as Hij; [|rewrite bool_decide_eq_false_2 by congruence; done].
  subst j. rewrite bool_decide_eq_true_2 by done. apply same_node_independent_sym.
Qed.

Definition flip_order (o : RequiredOrder) : RequiredOrder :=
  match o with LeftBeforeRight => RightBeforeLeft | RightBeforeLeft => LeftBeforeRight end.

Lemma same_node_ordered_sym l r id o w : classify_same_node base E l r id = Ok (OrderedDependency o w) ->
  exists w', classify_same_node base E r l id = Ok (OrderedDependency (flip_order o) w').
Proof.
  unfold classify_same_node, classify_create_then_mutate. intros Hc.
  assert (Hinv : forall f f' x, invalid_create_in_same_node_pair base f f' = Some x -> x <> Ok (OrderedDependency o w)).
  { intros f f' x. unfold invalid_create_in_same_node_pair. destruct (of_action f); try done.
    destruct (invalid_preimage_class _ _ f f') as [[c|]|] eqn:Hi; [|done|]; intros [= <-]; [|done].
    apply invalid_preimage_class_inv in Hi as [_ Hi]. specialize (Hi o w). congruence. }
  destruct (invalid_create_in_same_node_pair base l r) eqn:H1; [subst; by apply Hinv in H1|].
  destruct (invalid_create_in_same_node_pair base r l) eqn:H2; [subst; by apply Hinv in H2|].
  unfold classify_mutate_then_delete, classify_create_then_replace_binary, classify_create_then_edit_text,
    classify_mode_and_text_edit, ordered, conflict, conflict_with_span, unknown_from_facts in *.
  destruct (of_action l), (of_action r); try done; repeat case_match; simplify_eq; try done; by eexists.
Qed.

(** Only a deletion or a rename frees a path. *)
Lemma facts_freed op f : operation_facts op = Ok f ->
  match of_action f with ACreateFile _ _ _ _ => freed (of_path_effects f) = ∅ | _ => True end.
Proof.
  unfold operation_facts, facts_parse_path. destruct (d_kind op) as [p id b m|p id [k b m|t]|id ? ? ? ? r ? ? ?|id o w|id o w|id o w|p id t];
    repeat case_match; intros Hf; by simplify_eq.
Qed.

Lemma freed_then_required_flip first second l r o w :
  classify_freed_then_required base first second l r o = Some (OrderedDependency o w) -> forall l' r' o',
  exists w', classify_freed_then_required base first second l' r' o' = Some (OrderedDependency o' w').
Proof.
  unfold classify_freed_then_required, ordered, conflict. case_bool_decide; cbn [negb]; [done|].
  destruct (_ || _); [done|]. intros _ l' r' o'. by eexists.
Qed.

Lemma freed_then_required_kinds first second l r o o' w :
  classify_freed_then_required base first second l r o = Some (OrderedDependency o' w) ->
  has_rename first = false /\ exists p id b m, of_action second = ACreateFile p id b m.
Proof.
  unfold classify_freed_then_required, is_delete_preimage_valid, is_create_after_delete_valid, has_rename, ordered, conflict.
  destruct (negb (bool_decide _)); [|done]. destruct (of_action first); try done; cbn [negb orb];
    (destruct (of_action second) as [p' id' b' m'| | | | | | |]; [|by rewrite orb_true_r..]); intros _; split; try done; by eexists _, _, _, _.
Qed.

(** When the paths order two operations, one direction fires and the other does not. *)
Lemma path_relation_ordered_sym l r fl fr o w :
  operation_facts l = Ok fl -> operation_facts r = Ok fr -> classify_path_relation base fl fr = Some (OrderedDependency o w) ->
  exists w', classify_path_relation base fr fl = Some (OrderedDependency (flip_order o) w').
Proof.
  intros Hl Hr. unfold classify_path_relation. pose proof (facts_freed l fl Hl) as Fl. pose proof (facts_freed r fr Hr) as Fr.
  destruct (classify_rename_destination_conflict base fl fr) as [c|] eqn:H0.
  { intros [= ->]. unfold classify_rename_destination_conflict, conflict in H0. repeat case_match; simplify_eq. }
  destruct (classify_same_path_create base fl fr) as [c|] eqn:H1.
  { intros [= ->]. unfold classify_same_path_create, conflict in H1. by destruct (negb _). }
  assert (H1' : classify_same_path_create base fr fl = None).
  { unfold classify_same_path_create in *. repeat case_bool_decide; cbn [negb] in *; try done. }
  assert (Hft : forall f f' v, classify_freed_twice base f f' <> Some (OrderedDependency o v)).
  { intros f f' v. unfold classify_freed_twice, conflict. by destruct (negb _). }
  destruct (has_rename fl || has_rename fr) eqn:Hren; [intros Hx; by apply Hft in Hx|].
  apply orb_false_iff in Hren as [Rl Rr].
  assert (H0' : classify_rename_destination_conflict base fr fl = None).
  { unfold classify_rename_destination_conflict, has_rename in *. destruct (of_action fr); try done. }
  rewrite H0', H1', Rl, Rr. cbn [orb].
  destruct (classify_freed_then_required base fl fr fl fr LeftBeforeRight) as [c|] eqn:H2.
  - intros [= ->]. pose proof (freed_then_required_inv base _ _ _ _ _ _ H2) as [-> _].
    destruct (freed_then_required_kinds _ _ _ _ _ _ _ H2) as (_ & p & id & b & m & Ha). rewrite Ha in Fr.
    rewrite (proj2 (freed_then_required_none fr fl fr fl LeftBeforeRight)) by (rewrite Fr; set_solver).
    destruct (freed_then_required_flip _ _ _ _ _ _ H2 fr fl RightBeforeLeft) as [w' ->]. by exists w'.
  - destruct (classify_freed_then_required base fr fl fl fr RightBeforeLeft) as [c|] eqn:H3; [|intros Hx; by apply Hft in Hx].
    intros [= ->]. pose proof (freed_then_required_inv base _ _ _ _ _ _ H3) as [-> _].
    destruct (freed_then_required_flip _ _ _ _ _ _ H3 fr fl LeftBeforeRight) as [w' ->]. by exists w'.
Qed.

Lemma ordered_sym l r o w : classify_pair_with_text_resolver base E l r = Ok (OrderedDependency o w) ->
  exists w', classify_pair_with_text_resolver base E r l = Ok (OrderedDependency (flip_order o) w').
Proof.
  unfold classify_pair_with_text_resolver. destruct (operation_facts l) as [fl|] eqn:Hl; [|done].
  destruct (operation_facts r) as [fr|] eqn:Hr; [|done].
  destruct (deferred_reason (of_action fl)); [done|]. destruct (deferred_reason (of_action fr)); [done|]. cbn [or_else].
  destruct (classify_path_relation base fl fr) as [c|] eqn:Hp.
  { intros [= ->]. destruct (path_relation_ordered_sym l r fl fr o w Hl Hr Hp) as [w' ->]. by exists w'. }
  rewrite (path_relation_none_sym fl fr Hp). unfold classify_by_node.
  assert (Hcross : classify_cross_node base E fl fr <> Ok (OrderedDependency o w)).
  { unfold classify_cross_node. destruct (invalid_preimage_class base E fl fr) as [[c|]|] eqn:Hi; [| |done].
    - apply invalid_preimage_class_inv in Hi as [_ Hi]. specialize (Hi o w). congruence.
    - destruct (invalid_preimage_class base E fr fl) as [[c|]|] eqn:Hj; [|done|done].
      apply invalid_preimage_class_inv in Hj as [_ Hj]. specialize (Hj o w). congruence. }
  destruct (of_node_id fl) as [i|], (of_node_id fr) as [j|]; try done.
  case_bool_decide as Hij; [|done]. subst j. rewrite bool_decide_eq_true_2 by done. apply same_node_ordered_sym.
Qed.

(** ** The wrong order *)

Lemma shape_no_rename a b : ordered_shape base a b ->
  match b with ARenamePath _ _ _ => False | _ => True end.
Proof. by destruct a, b. Qed.

Lemma wrong_order_fails first second ff fs : lifecycle_ok base ->
  operation_facts first = Ok ff -> operation_facts second = Ok fs -> ordered_shape base (of_action ff) (of_action fs) ->
  is_ok (replay_operations E base scope [second; first]) = false.
Proof.
  intros Hok Hf Hs Hshape. pose proof (step_of_action E base scope first ff Hf) as Sf.
  pose proof (step_of_action E base scope second fs Hs) as Ss.
  rewrite replay_two.
  2: { pose proof (shape_no_rename _ _ Hshape) as Hn. unfold same_rename_batch. unfold operation_facts, facts_parse_path in Hs.
       destruct (d_kind second); try done. repeat case_match; by simplify_eq. }
  destruct (oracle_step E base scope second (mkOracle base ∅)) as [s|] eqn:Hsec; [|done].
  unfold ordered_shape in Hshape.
  assert (Hunseen : forall id, id ∉ seen_ids base -> live_by_id base !! id = None).
  { intros id Hid. apply eq_None_not_Some. intros Hl. by apply (ok_live_seen _ Hok) in Hl. }
  destruct (of_action ff) as [p id b m|p id k b m| |id e|id o w|id o w|id o w|] eqn:Af; try done.
  - destruct (of_action fs) as [| | |id' e|id' o w|id' o w|id' o w|] eqn:As; try done; destruct Hshape as [<- Hid%Hunseen].
    + destruct Ss as [repl Ss]. rewrite Ss in Hsec. apply oracle_text_edit_ok in Hsec as (t & t' & bl & n & n' & _ & _ & Hn & _).
      cbn in Hn. congruence.
    + destruct Ss as [Ss|Ss]; [|by apply Ss in Hsec]. rewrite Ss in Hsec. apply replace_blob_step in Hsec as (n & x & Hn & _). cbn in Hn. congruence.
    + rewrite Ss in Hsec. apply change_mode_step in Hsec as (n & x & Hn & _). cbn in Hn. congruence.
  - destruct (of_action fs) as [p' id' b' m'| | | | | | |] eqn:As; try done. destruct Hshape as [<- Hp].
    apply Ss in Hsec as [k' Hc]. unfold oracle_mut, create_node in Hc. cbn [ln_path os_lifecycle] in Hc. rewrite Hp in Hc.
    destruct (ensure_node_id_nonzero id') as [[]|]; [|done]. destruct (validate_kind_content_shape _ _) as [[]|]; [|done].
    by destruct (is_some (live_by_id base !! id')).
  - destruct (of_action fs) as [|p' id' k' b' m'| | | | | |] eqn:As; try done. subst id'. rewrite Ss in Hsec.
    destruct Sf as [Sf|Sf]; [|destruct (oracle_step E base scope first s) eqn:Hx; [by apply Sf in Hx|done]].
    rewrite Sf. destruct (oracle_mut s _) as [s'|] eqn:Hx; [|done]. apply replace_blob_step in Hx as (n & x & Hn & _).
    unfold oracle_mut, delete_node_checked, delete_node in Hsec. repeat case_match; simplify_eq. cbn in Hn. by rewrite lookup_delete_eq in Hn.
  - destruct (of_action fs) as [|p' id' k' b' m'| | | | | |] eqn:As; try done. subst id'. rewrite Ss in Hsec. rewrite Sf.
    destruct (oracle_mut s _) as [s'|] eqn:Hx; [|done]. apply change_mode_step in Hx as (n & x & Hn & _).
    unfold oracle_mut, delete_node_checked, delete_node in Hsec. repeat case_match; simplify_eq. cbn in Hn. by rewrite lookup_delete_eq in Hn.
Qed.

(** ** Confluence *)

Lemma pairs_inner_commute li l : forall ri right, pairs_inner E base scope li l ri right = Ok None ->
  Forall (fun r => exists proof, commute_pair E base scope l r = Ok (Commutes proof)) right.
Proof.
  intros ri right. revert ri. induction right as [|r right IH]; intros ri; cbn [pairs_inner]; [constructor|].
  destruct (commute_pair E base scope l r) as [[proof|c|reason]|] eqn:Hc; try done. intros Hp. constructor; [by exists proof|by apply (IH (S ri))].
Qed.

Lemma pairs_outer_commute right : forall li left, pairs_outer E base scope li left right = Ok None ->
  Forall (fun l => Forall (fun r => exists proof, commute_pair E base scope l r = Ok (Commutes proof)) right) left.
Proof.
  intros li left. revert li. induction left as [|l left IH]; intros li; cbn [pairs_outer]; [constructor|].
  destruct (pairs_inner E base scope li l 0 right) as [[?|]|] eqn:Hi; try done. intros Hp.
  constructor; [by apply (pairs_inner_commute li l 0)|by apply (IH (S li))].
Qed.

(** An early result of the pairwise loops is never confluence. *)
Lemma pairs_inner_result li l n m : forall right ri, pairs_inner E base scope li l ri right <> Ok (Some (Confluent n m)).
Proof.
  induction right as [|r right IH]; intros ri; cbn [pairs_inner]; [done|].
  destruct (commute_pair E base scope l r) as [[]|]; [apply IH|done..].
Qed.

Lemma pairs_outer_result right n m : forall left li, pairs_outer E base scope li left right <> Ok (Some (Confluent n m)).
Proof.
  induction left as [|l left IH]; intros li; cbn [pairs_outer]; [done|].
  destruct (pairs_inner E base scope li l 0 right) as [[r|]|] eqn:Hi; [|apply IH|done].
  intros [= ->]. by apply pairs_inner_result in Hi.
Qed.

(** What the flat check reports is never confluence. *)
Definition not_confluent (r : option ConfluenceResult) : Prop := forall n m, r <> Some (Confluent n m).

Lemma flat_not_confluent sequence is_right check : ensure_flat_sequence E base scope sequence is_right = Ok check ->
  not_confluent (flat_hard check) /\ not_confluent (flat_deferred check).
Proof.
  unfold ensure_flat_sequence.
  apply (foldM_inv _ (fun _ check => not_confluent (flat_hard check) /\ not_confluent (flat_deferred check))); [done|].
  intros pre [index op] b b' [Hh Hd] Hstep. unfold flat_step in Hstep.
  assert (Hor : forall (o : option ConfluenceResult) r, not_confluent o -> not_confluent (Some r) -> not_confluent (or_else o (Some r)))
    by (by intros []).
  destruct (validate_operation_provenance scope op) as [[]|]; [|done].
  destruct (match operation_facts op with Ok _ => _ | Err _ => _ end) as [reason|].
  { injection Hstep as <-. split; [done|]. by apply Hor. }
  destruct (replay_operations E base scope (replay_unit sequence index)) as [?|[error|reason|]]; [by injection Hstep as <-|done| |].
  { injection Hstep as <-. split; [|done]. by apply Hor. }
  destruct (has_prefix_dependency E base scope sequence index) as [dep|]; [|done]. injection Hstep as <-.
  split; [|done]. apply Hor; [done|]. by destruct dep.
Qed.

Lemma confluent_inv left right n m : check_confluence E base scope left right = Ok (Confluent n m) ->
  n = length left /\ m = length right /\
  Forall (fun l => Forall (fun r => exists proof, commute_pair E base scope l r = Ok (Commutes proof)) right) left /\
  exists s, replay_operations E base scope (left ++ right) = Ok s /\ replay_operations E base scope (right ++ left) = Ok s.
Proof.
  unfold check_confluence. destruct (ensure_flat_sequence E base scope left false) as [lc|] eqn:Hlc; [|done].
  destruct (ensure_flat_sequence E base scope right true) as [rc|] eqn:Hrc; [|done].
  apply flat_not_confluent in Hlc as [Lh Ld]. apply flat_not_confluent in Hrc as [Rh Rd].
  assert (Hor : forall o o' : option ConfluenceResult, not_confluent o -> not_confluent o' -> not_confluent (or_else o o')) by (by intros []).
  pose proof (Hor _ _ Lh Rh) as Hh. pose proof (Hor _ _ Ld Rd) as Hd. clear Hor.
  destruct (or_else (flat_hard lc) (flat_hard rc)) as [r|]; [intros [= ->]; by destruct (Hh n m)|].
  destruct (pairs_outer E base scope 0 left right) as [[r|]|] eqn:Hp; [|..|done].
  { intros [= ->]. by apply pairs_outer_result in Hp. }
  destruct (or_else (flat_deferred lc) (flat_deferred rc)) as [r|]; [intros [= ->]; by destruct (Hd n m)|].
  apply pairs_outer_commute in Hp. unfold replay_sequence_order.
  destruct (replay_operations E base scope (left ++ right)) as [s|[]]; cbn [map_err]; try done.
  destruct (replay_operations E base scope (right ++ left)) as [s'|[]]; cbn [map_err]; try done.
  case_bool_decide as Heq; [|done]. intros [= <- <-]. subst s'. split_and!; [done|done|done|]. by exists s.
Qed.
End claims.

(** C26: The algebra's verdict on a pair is exact.  Two operations that do not form one rename batch are
    reported to commute exactly when the classifier calls them independent and each replays on the
    baseline on its own: for such a pair replaying both orders always succeeds with equal states, so
    the replay proof never refutes the classifier. *)
Theorem commute_pair_exact `{Sha256} (E : PatchAlgebraEvidence) base scope l r :
  same_rename_batch l r = false ->
  commute_pair E base scope l r = Ok (Commutes (mkCommutationProof (d_op_seq l) (d_op_seq r))) <->
  classify_pair_with_text_resolver base E l r = Ok Independent /\
  is_ok (replay_operations E base scope [l]) = true /\ is_ok (replay_operations E base scope [r]) = true.
Proof. apply commute_pair_spec. Qed.

(** The classification of a pair does not depend on which operation is called left: independent
    stays independent, and an ordered dependency stays one with the required order turned around. *)
Theorem classification_symmetric `{Sha256} (E : PatchAlgebraEvidence) base l r :
  (classify_pair_with_text_resolver base E l r = Ok Independent <->
   classify_pair_with_text_resolver base E r l = Ok Independent) /\
  (forall o, (exists w, classify_pair_with_text_resolver base E l r = Ok (OrderedDependency o w)) <->
     (exists w, classify_pair_with_text_resolver base E r l = Ok (OrderedDependency (flip_order o) w))).
Proof.
  split; [split; apply independent_sym|]. intros o. split.
  - intros [w Hw]. by apply ordered_sym in Hw.
  - intros [w Hw]. apply ordered_sym in Hw. by destruct o.
Qed.

(** An ordered dependency is real: on a consistent baseline the two operations never replay in the
    order the classification forbids. *)
Theorem ordered_dependency_real `{Sha256} (E : PatchAlgebraEvidence) base scope l r o w :
  validate_internal_consistency base = Ok tt ->
  classify_pair_with_text_resolver base E l r = Ok (OrderedDependency o w) ->
  is_ok (replay_operations E base scope
           match o with LeftBeforeRight => [r; l] | RightBeforeLeft => [l; r] end) = false.
Proof.
  intros Hok%validate_internal_consistency_iff Hc. destruct (ordered_inv E base l r o w Hc) as (fl & fr & Hl & Hr & Hs).
  destruct o; [by apply (wrong_order_fails E base scope l r fl fr)|by apply (wrong_order_fails E base scope r l fr fl)].
Qed.

(** Two sequences reported confluent commute pair by pair, and replaying them in either order gives
    one and the same state. *)
Theorem confluence_sound `{Sha256} (E : PatchAlgebraEvidence) base scope left right n m :
  check_confluence E base scope left right = Ok (Confluent n m) ->
  n = length left /\ m = length right /\
  Forall (fun l => Forall (fun r => exists proof, commute_pair E base scope l r = Ok (Commutes proof)) right) left /\
  exists s, replay_operations E base scope (left ++ right) = Ok s /\ replay_operations E base scope (right ++ left) = Ok s.
Proof. apply confluent_inv. Qed.

(** ** Concrete pairs *)

#[local] Existing Instance hash_mod_p.

(** Rename [a] to [c]; make [b] executable; delete [b] as the executable file it has become. *)
Definition witness_rename : DecodedPatchOperation := mkDecoded 0 (DRenamePath (replicate 32 x01) [x61] [x63]) None.
Definition witness_chmod : DecodedPatchOperation := mkDecoded 1 (DChangePerm (replicate 32 x02) 0 1) None.
Definition witness_delete : DecodedPatchOperation :=
  mkDecoded 2 (DDeleteNode [x62] (replicate 32 x02) (DecodedFile TextFile (replicate 32 x09) 1)) None.

Lemma commute_pair_exact_witness :
  commute_pair NoPatchAlgebraEvidence witness_tree SealedCandidateRequired witness_rename witness_chmod =
  Ok (Commutes (mkCommutationProof 0 1)).
Proof.
  apply (commute_pair_exact NoPatchAlgebraEvidence witness_tree SealedCandidateRequired witness_rename witness_chmod);
    [vm_compute; reflexivity|]. split_and!; vm_compute; reflexivity.
Defined.

Lemma ordered_dependency_real_witness :
  is_ok (replay_operations NoPatchAlgebraEvidence witness_tree SealedCandidateRequired [witness_delete; witness_chmod]) = false.
Proof.
  eapply (ordered_dependency_real NoPatchAlgebraEvidence witness_tree SealedCandidateRequired witness_chmod witness_delete
    LeftBeforeRight); vm_compute; reflexivity.
Defined.

Lemma confluence_sound_witness :
  exists s,
    replay_operations NoPatchAlgebraEvidence witness_tree SealedCandidateRequired [witness_rename; witness_chmod] = Ok s /\
    replay_operations NoPatchAlgebraEvidence witness_tree SealedCandidateRequired [witness_chmod; witness_rename] = Ok s.
Proof.
  apply (confluence_sound NoPatchAlgebraEvidence witness_tree SealedCandidateRequired [witness_rename] [witness_chmod] 1 1).
  vm_compute. reflexivity.
Defined.
