(* ===== verification/Fold.v ===== *)
(** * Folding one side of a merge (crates/prikk-store/src/patch_algebra/fold.rs)

    A side that touches one node more than once is rewritten, for evidence only, into one
    baseline-relative operation per node.  The rewriting is used only when replaying it gives a state
    equivalent to replaying the original operations; otherwise the original sequence is judged. *)

From S2P Require Import Prelude PrikkError Hash ObjectId Blob RepoPath Lifecycle Patch PatchDecode TextSpan.
From S2P Require Import PatchAlgebra ReplayOracle.

(** One side as it is judged; [fs_origins] is, for each operation, the first and last original index it
    stands for; [fs_derived_kinds] is the kind of each content id a folded create names. *)
Record FoldedSide : Type := mkFoldedSide {
  fs_operations : list DecodedPatchOperation;
  fs_origins : list (nat * nat);
  fs_derived_kinds : gmap ObjectId BlobKind;
}.

Definition unfolded (operations : list DecodedPatchOperation) : FoldedSide :=
  mkFoldedSide operations ((fun index => (index, index)) <$> seq 0 (length operations)) ∅.

(** [collect] over the first side's kinds, then the second's: a later entry replaces an earlier one. *)
Definition FoldEvidence_new (first second : FoldedSide) : gmap ObjectId BlobKind :=
  fs_derived_kinds second ∪ fs_derived_kinds first.

Definition FoldEvidence (inner : PatchAlgebraEvidence) (derived_kinds : gmap ObjectId BlobKind) : PatchAlgebraEvidence := {|
  baseline_text scope node_id blob_id := @baseline_text inner scope node_id blob_id;
  evidence_blob_kind scope blob_id :=
    match derived_kinds !! blob_id with
    | Some kind => Known kind
    | None => @evidence_blob_kind inner scope blob_id
    end;
  evidence_blob_content scope blob_id := @evidence_blob_content inner scope blob_id;
|}.

Inductive Net : Type := NetReplace (replacements : list DecodedPatchOperation) | NetDrop.

Definition is_edit_text (operation : DecodedPatchOperation) : bool :=
  match d_kind operation with DEditText _ _ _ _ _ _ _ _ _ => true | _ => false end.

Definition changes_content_or_mode (operation : DecodedPatchOperation) : bool :=
  match d_kind operation with
  | DEditText _ _ _ _ _ _ _ _ _ | DChangePerm _ _ _ | DReplaceBinary _ _ _ => true
  | _ => false
  end.

Definition is_delete_node (operation : DecodedPatchOperation) : bool :=
  match d_kind operation with DDeleteNode _ _ _ => true | _ => false end.

(** [run.split_last()]. *)
Definition split_last {A} (l : list A) : option (A * list A) :=
  match reverse l with
  | last :: before => Some (last, reverse before)
  | [] => None
  end.

Section fold.
Context `{Sha256}.

Definition create_then_edits (baseline : NodeLifecycleState) (E : PatchAlgebraEvidence) (candidate_scope : EvidenceScope)
    (original : OracleState) (run : list DecodedPatchOperation) : option (DecodedPatchOperation * ObjectId * BlobKind) :=
  match run with
  | [] => None
  | first :: edits =>
      match d_kind first with
      | DCreateFile path node_id blob_id mode =>
          if bool_decide (edits = []) || is_some (live_node baseline node_id) || negb (forallb is_edit_text edits)
          then None
          else
            match evidence_blob_kind candidate_scope blob_id with
            | Known BlobText =>
                text ← os_text original node_id;
                match text_blob_id text with
                | Err _ => None
                | Ok content_id =>
                    Some (mkDecoded (d_op_seq first) (DCreateFile path node_id content_id mode) None, content_id, BlobText)
                end
            | _ => None
            end
      | _ => None
      end
  end.

(** The operations of a run that changes content or mode and leaves the node live. *)
Definition net_changes (E : PatchAlgebraEvidence) (original : OracleState) (node_id : NodeId) (op_seq : Z)
    (base : LiveNode) (base_blob_id : ObjectId) (base_mode : Z) (final_blob_id : ObjectId) (final_mode : Z) : option Net :=
  let operation kind := mkDecoded op_seq kind None in
  content ←
    match ln_kind base with
    | TextFile =>
        match baseline_text SealedBaselineRequired node_id base_blob_id with
        | Known base_text =>
            let final_text := default base_text (os_text original node_id) in
            if bool_decide (final_text = base_text) then Some []
            else
              match plan_authored_text_span base_text final_text node_id with
              | Ok (Some plan) =>
                  Some [operation (DEditText node_id (as_span_id plan) (as_old_span_hash plan) (as_left_anchor_hash plan)
                          (as_right_anchor_hash plan) (as_replacement_text plan) (as_old_span_text plan)
                          (Some (as_left_anchor_len plan)) (Some (as_right_anchor_len plan)))]
              | _ => None
              end
        | _ => None
        end
    | BinaryFile =>
        if bool_decide (final_blob_id = base_blob_id) then Some []
        else Some [operation (DReplaceBinary node_id base_blob_id final_blob_id)]
    | _ => None
    end;
  let net := content ++ (if final_mode =? base_mode then [] else [operation (DChangePerm node_id base_mode final_mode)]) in
  Some (match net with [] => NetDrop | _ => NetReplace net end).

Definition net_effect (baseline : NodeLifecycleState) (E : PatchAlgebraEvidence) (original : OracleState) (node_id : NodeId)
    (run : list DecodedPatchOperation) : option Net :=
  op_seq ← d_op_seq <$> head run;
  '(last, before_last) ← split_last run;
  base ← live_node baseline node_id;
  match ln_content base with
  | SymlinkContent _ => None
  | FileContent base_blob_id base_mode =>
      match d_kind last with
      | DDeleteNode path _ (DecodedFile _ _ _) =>
          if bool_decide (before_last = []) || negb (forallb changes_content_or_mode before_last) then None
          else Some (NetReplace [mkDecoded op_seq
                       (DDeleteNode path node_id (DecodedFile (ln_kind base) base_blob_id base_mode)) None])
      | _ =>
          if negb (forallb changes_content_or_mode run) then None
          else
            live ← live_node (os_lifecycle original) node_id;
            match ln_content live with
            | SymlinkContent _ => None
            | FileContent final_blob_id final_mode =>
                net_changes E original node_id op_seq base base_blob_id base_mode final_blob_id final_mode
            end
      end
  end.

(** ** The guard *)

Definition tombstones_equivalent (folded_deletes : gset NodeId) (right : gmap NodeId Tombstone) (entry : NodeId * Tombstone) : bool :=
  let '(node_id, left_tombstone) := entry in
  match right !! node_id with
  | None => false
  | Some right_tombstone =>
      if bool_decide (left_tombstone = right_tombstone) then true
      else
        let both_files :=
          match tb_content left_tombstone, tb_content right_tombstone with
          | FileContent _ _, FileContent _ _ => true
          | _, _ => false
          end in
        negb (negb (bool_decide (node_id ∈ folded_deletes))
              || negb (bool_decide (tb_kind left_tombstone = tb_kind right_tombstone))
              || negb (bool_decide (tb_path left_tombstone = tb_path right_tombstone))
              || negb both_files)
  end.

Definition texts_equivalent (original folded : OracleState) (node_id : NodeId) : bool :=
  match os_text original node_id, os_text folded node_id with
  | Some left_text, Some right_text => bool_decide (left_text = right_text)
  | Some text, None | None, Some text =>
      match live_node (os_lifecycle original) node_id with
      | None => true
      | Some live =>
          match ln_content live with
          | FileContent blob_id _ =>
              if bool_decide (ln_kind live = TextFile)
              then match text_blob_id text with Ok id => bool_decide (id = blob_id) | Err _ => false end
              else false
          | SymlinkContent _ => false
          end
      end
  | None, None => true
  end.

Definition equivalent (original folded : OracleState) (folded_deletes : gset NodeId) : bool :=
  let left := os_lifecycle original in
  let right := os_lifecycle folded in
  if negb (bool_decide (live_nodes left = live_nodes right)) then false
  else if negb (bool_decide (length (tombstones left) = length (tombstones right))) then false
  else if negb (forallb (tombstones_equivalent folded_deletes (list_to_map (tombstones right))) (tombstones left)) then false
  else forallb (texts_equivalent original folded)
         (elements (list_to_set (os_text_nodes original ++ os_text_nodes folded) : gset NodeId)).

(** ** The fold *)

(** [by_node.entry(node_id).or_default().push(index)]. *)
Definition push_index (by_node : gmap NodeId (list nat)) (item : nat * DecodedPatchOperation)
  : option (gmap NodeId (list nat)) :=
  let '(index, operation) := item in
  node_id ← facts_node operation;
  Some (<[node_id := default [] (by_node !! node_id) ++ [index]]> by_node).

Fixpoint group_by_node (by_node : gmap NodeId (list nat)) (items : list (nat * DecodedPatchOperation))
  : option (gmap NodeId (list nat)) :=
  match items with
  | [] => Some by_node
  | item :: items' => by_node ← push_index by_node item; group_by_node by_node items'
  end.

(** [collect] into an [Option<BTreeSet<_>>]. *)
Fixpoint collect_nodes (operations : list DecodedPatchOperation) : option (gset NodeId) :=
  match operations with
  | [] => Some ∅
  | operation :: rest => node ← facts_node operation; nodes ← collect_nodes rest; Some ({[node]} ∪ nodes)
  end.

Record FoldState : Type := mkFoldState {
  nets : gmap nat (nat * Net);
  consumed : gset nat;
  folded_deletes : gset NodeId;
  derived_kinds : gmap ObjectId BlobKind;
}.

(** What one run is replaced by, and the kind map with a folded create's content. *)
Definition net_of_run (baseline : NodeLifecycleState) (E : PatchAlgebraEvidence) (candidate_scope : EvidenceScope)
    (original : OracleState) (node_id : NodeId) (run : list DecodedPatchOperation) (kinds : gmap ObjectId BlobKind)
  : option (Net * gmap ObjectId BlobKind) :=
  match create_then_edits baseline E candidate_scope original run with
  | Some (create, content_id, kind) => Some (NetReplace [create], <[content_id := kind]> kinds)
  | None => net ← net_effect baseline E original node_id run; Some (net, kinds)
  end.

(** One node of [by_node]; a [continue] leaves the state as it is. *)
Definition fold_node (baseline : NodeLifecycleState) (E : PatchAlgebraEvidence) (candidate_scope : EvidenceScope)
    (operations : list DecodedPatchOperation) (original : OracleState) (other_nodes : option (gset NodeId))
    (s : FoldState) (entry : NodeId * list nat) : FoldState :=
  let '(node_id, indices) := entry in
  match head indices, last indices with
  | Some first, Some last =>
      if bool_decide (first = last) then s
      else
        let run := omap (fun index => operations !! index) indices in
        match net_of_run baseline E candidate_scope original node_id run (derived_kinds s) with
        | None => s
        | Some (net, kinds) =>
            let other_leaves_node_alone :=
              match other_nodes with Some nodes => negb (bool_decide (node_id ∈ nodes)) | None => false end in
            match net with
            | NetDrop =>
                if negb other_leaves_node_alone then s
                else mkFoldState (<[last := (first, net)]> (nets s)) (list_to_set indices ∪ consumed s) (folded_deletes s) kinds
            | NetReplace replacements =>
                mkFoldState (<[last := (first, net)]> (nets s)) (list_to_set indices ∪ consumed s)
                  (if existsb is_delete_node replacements then {[node_id]} ∪ folded_deletes s else folded_deletes s) kinds
            end
        end
  | _, _ => s
  end.

(** The operations that stand at one original index, with their origins. *)
Definition fold_at (s : FoldState) (item : nat * DecodedPatchOperation) : list (DecodedPatchOperation * (nat * nat)) :=
  let '(index, operation) := item in
  match nets s !! index with
  | Some (first, NetReplace replacements) => (fun replacement => (replacement, (first, index))) <$> replacements
  | Some (_, NetDrop) => []
  | None => if bool_decide (index ∈ consumed s) then [] else [(operation, (index, index))]
  end.

Definition enumerate {A} (l : list A) : list (nat * A) := zip (seq 0 (length l)) l.

Definition fold_runs (baseline : NodeLifecycleState) (E : PatchAlgebraEvidence) (candidate_scope : EvidenceScope)
    (operations other_side : list DecodedPatchOperation) (original : OracleState) (by_node : gmap NodeId (list nat)) : FoldState :=
  fold_left (fold_node baseline E candidate_scope operations original (collect_nodes other_side))
    (btree_iter by_node) (mkFoldState ∅ ∅ ∅ ∅).

Definition fold (baseline : NodeLifecycleState) (E : PatchAlgebraEvidence) (candidate_scope : EvidenceScope)
    (operations other_side : list DecodedPatchOperation) : option FoldedSide :=
  by_node ← group_by_node ∅ (enumerate operations);
  if forallb (fun entry => (length entry.2 <? 2)%nat) (btree_iter by_node) then None
  else
    match replay_operations E baseline candidate_scope operations with
    | Err _ => None
    | Ok original =>
        let s := fold_runs baseline E candidate_scope operations other_side original by_node in
        if bool_decide (nets s = ∅) then None
        else
          let output := mbind (fold_at s) (enumerate operations) in
          let folded := mkFoldedSide output.*1 output.*2 (derived_kinds s) in
          match replay_operations (FoldEvidence E (FoldEvidence_new folded folded)) baseline candidate_scope (fs_operations folded) with
          | Err _ => None
          | Ok replayed => if equivalent original replayed (folded_deletes s) then Some folded else None
          end
    end.

Definition fold_side (baseline : NodeLifecycleState) (E : PatchAlgebraEvidence) (candidate_scope : EvidenceScope)
    (operations other_side : list DecodedPatchOperation) : FoldedSide :=
  default (unfolded operations) (fold baseline E candidate_scope operations other_side).
End fold.
