(* ===== verification/FoldThms.v ===== *)
(** * Theorems about folded sides

    A fold that is used replays to the state the original side replays to: the guard compares live
    nodes, tombstones and texts, and the path index and the seen identities follow.  A node dropped
    from a side is unchanged by it and untouched by the other side. *)

From S2P Require Import Prelude PrikkError Hash ObjectId Blob RepoPath Lifecycle LifecycleInv Patch PatchDecode.
From S2P Require Import TextSpan PatchAlgebra ReplayOracle CommuteThms Fold.

(** ** Induction over a replay *)

Definition is_rename (op : DecodedPatchOperation) : bool :=
  match d_kind op with DRenamePath _ _ _ => true | _ => false end.

Lemma triple_is_rename scope op t : oracle_rename_triple scope op = Ok t -> is_rename op = true /\ t.1.1 = op_node op.
Proof. unfold oracle_rename_triple, is_rename, op_node. repeat case_match; try done. intros Ht. by simplify_eq. Qed.

Lemma collect_batch_split scope first : forall rest batch left_over,
  collect_batch scope first rest = Ok (batch, left_over) ->
  exists members, rest = members ++ left_over /\ Forall2 (fun op t => oracle_rename_triple scope op = Ok t) members batch.
Proof.
  induction rest as [|next rest IH]; intros batch left_over; cbn [collect_batch]; [intros [= <- <-]; by exists []|].
  destruct (same_rename_batch first next); [|intros [= <- <-]; by exists []].
  destruct (oracle_rename_triple scope next) as [t|] eqn:Ht; [|done].
  destruct (collect_batch scope first rest) as [[b l]|]; [|done]. intros [= <- <-].
  destruct (IH b l eq_refl) as (members & -> & Hm). exists (next :: members). split; [done|]. by constructor.
Qed.

Section replay.
Context `{Sha256} (E : PatchAlgebraEvidence) (base : NodeLifecycleState) (scope : EvidenceScope).

(** A replay that succeeds runs single operations and batches of renames, in order. *)
Lemma replay_loop_ind (R : OracleState -> list DecodedPatchOperation -> OracleState -> Prop) :
  (forall s, R s [] s) ->
  (forall s op rest s1 s', oracle_apply_operation E base scope s op = Ok s1 -> R s1 rest s' -> R s (op :: rest) s') ->
  (forall s members renames rest s1 s', Forall2 (fun op t => oracle_rename_triple scope op = Ok t) members renames ->
     oracle_mut s (rename_nodes_checked_batch (os_lifecycle s) renames) = Ok s1 -> R s1 rest s' -> R s (members ++ rest) s') ->
  forall fuel s ops s', replay_loop E base scope fuel s ops = Some (Ok s') -> R s ops s'.
Proof.
  intros Hnil Hone Hbatch. induction fuel as [|fuel IH]; intros s [|op rest] s'; cbn [replay_loop]; try (by intros [= <-]).
  assert (Hsingle : match oracle_apply_operation E base scope s op with
      | Ok oracle => replay_loop E base scope fuel oracle rest | Err e => Some (Err e) end = Some (Ok s') -> R s (op :: rest) s').
  { destruct (oracle_apply_operation E base scope s op) as [s1|] eqn:Hs; [|done]. intros Hr. by eapply Hone, IH. }
  destruct (d_kind op); try done. destruct (oracle_rename_triple scope op) as [t|] eqn:Ht; [|done].
  destruct (collect_batch scope op rest) as [[batch left_over]|] eqn:Hb; [|done].
  destruct (oracle_mut s _) as [s1|] eqn:Hm; [|done]. intros Hr. apply collect_batch_split in Hb as (members & -> & Hb).
  apply (Hbatch s (op :: members) (t :: batch) left_over s1 s'); [by constructor|done|by apply IH].
Qed.

Lemma replay_operations_ind (R : OracleState -> list DecodedPatchOperation -> OracleState -> Prop) :
  (forall s, R s [] s) ->
  (forall s op rest s1 s', oracle_apply_operation E base scope s op = Ok s1 -> R s1 rest s' -> R s (op :: rest) s') ->
  (forall s members renames rest s1 s', Forall2 (fun op t => oracle_rename_triple scope op = Ok t) members renames ->
     oracle_mut s (rename_nodes_checked_batch (os_lifecycle s) renames) = Ok s1 -> R s1 rest s' -> R s (members ++ rest) s') ->
  forall ops s', replay_operations E base scope ops = Ok s' -> R (mkOracle base ∅) ops s'.
Proof.
  intros Hnil Hone Hbatch ops s'. unfold replay_operations.
  destruct (replay_loop_total E base scope (length ops) (mkOracle base ∅) ops) as [r Hr]; [done|]. rewrite Hr. cbn.
  intros ->. by apply (replay_loop_ind R Hnil Hone Hbatch (length ops)).
Qed.

(** ** Consistency, seen identities and the frame of a replay *)

Definition created (op : DecodedPatchOperation) : gset NodeId :=
  match d_kind op with DCreateFile _ id _ _ => {[id]} | _ => ∅ end.

Definition created_all (ops : list DecodedPatchOperation) : gset NodeId := ⋃ (created <$> ops).

Lemma elem_of_created_all i ops : i ∈ created_all ops <-> exists op, op ∈ ops /\ i ∈ created op.
Proof.
  unfold created_all. rewrite elem_of_union_list. split.
  - intros (X & (op & -> & Hop)%list_elem_of_fmap & Hi). by exists op.
  - intros (op & Hop & Hi). exists (created op). split; [|done]. apply list_elem_of_fmap. by exists op.
Qed.

Lemma created_all_app l1 l2 : created_all (l1 ++ l2) = created_all l1 ∪ created_all l2.
Proof. unfold created_all. by rewrite fmap_app, union_list_app_L. Qed.

Lemma created_all_cons op l : created_all (op :: l) = created op ∪ created_all l.
Proof. done. Qed.

(** The node a lifecycle operation other than seeding adds to the seen identities. *)
Definition lop_created (lop : LifecycleOp) : gset NodeId :=
  match lop with OpCreate id _ | OpSeedTombstone id _ => {[id]} | _ => ∅ end.

Lemma run_op_seen s lop s' : lifecycle_ok s -> run_op s lop = (Ok tt, s') -> seen_ids s' = lop_created lop ∪ seen_ids s.
Proof.
  intros Hok. destruct lop; cbn [run_op lop_created]; intros Hr.
  6: { apply rename_batch_checked in Hr as (_ & _ & -> & _); [|done]. by rewrite (left_id_L ∅ (∪)). }
  all: unfold create_node, delete_node_checked, delete_node, rename_node_checked, rename_node, change_file_mode,
    replace_file_blob, set_text_blob, seed_tombstone in Hr; repeat case_match; simplify_eq; cbn [fst snd] in *; simplify_eq; cbn; set_solver.
Qed.

Lemma oracle_mut_inv {A} s (m : Mut A) s' : oracle_mut s m = Ok s' -> exists a, m = (Ok a, os_lifecycle s').
Proof. destruct m as [[a|] st]; unfold oracle_mut; cbn; [|done]. intros [= <-]. by exists a. Qed.

(** An operation of the oracle is one lifecycle operation. *)
Lemma apply_run_op s op s1 : oracle_apply_operation E base scope s op = Ok s1 ->
  exists lop, run_op (os_lifecycle s) lop = (Ok tt, os_lifecycle s1) /\ lop_created lop = created op.
Proof.
  unfold oracle_apply_operation, created. destruct op as [sq kind pid]. cbn [d_kind].
  destruct kind as [p id b m|p id [k b m|t]|id ? ? ? ? r ? ? ?|id o w|id o w|id o w|p id t]; try done.
  - unfold oracle_create. intros Hx. inv_ok. apply oracle_mut_inv in Hx as [[] Hc]. by eexists (OpCreate _ _).
  - unfold oracle_delete_file. intros Hx. inv_ok. apply oracle_mut_inv in Hx as [n Hc].
    eexists (OpDeleteChecked _ _). cbn [run_op]. by rewrite Hc.
  - rewrite oracle_text_edit_ok. intros (t & t' & blob & n & n' & _ & _ & Hn & He & ->). exists (OpSetText id blob).
    split; [|done]. cbn [run_op os_lifecycle]. unfold set_text_blob, edited_node in *. rewrite Hn.
    destruct (bool_decide _); [|done]. cbn [negb]. destruct (ln_content n); [|done]. by injection He as <-.
  - unfold oracle_replace_binary. intros Hx. inv_ok. apply oracle_mut_inv in Hx as [[] Hc]. by eexists (OpReplaceBlob _ _ _).
  - intros Hx. apply oracle_mut_inv in Hx as [[] Hc]. by eexists (OpChangeMode _ _ _).
Qed.

Lemma apply_frame s op s1 i : oracle_apply_operation E base scope s op = Ok s1 -> i <> op_node op -> agree_at i ∅ s s1.
Proof.
  intros Hs Hi. apply (ls_frame _ _ _ (step_local E base scope op)); [|done]. unfold oracle_step.
  destruct (d_kind op) eqn:Hk; try exact Hs. unfold oracle_apply_operation in Hs. by rewrite Hk in Hs.
Qed.

Lemma renamed_to_members members renames i : Forall2 (fun op t => oracle_rename_triple scope op = Ok t) members renames ->
  i ∉ op_node <$> members -> renamed_to renames i = None.
Proof.
  intros Hf Hi. apply renamed_to_none. intros Hin. apply Hi. clear Hi. induction Hf as [|op t members renames Ht Hf IH]; [done|].
  apply triple_is_rename in Ht as [_ Ht]. cbn in Hin |- *. rewrite Ht in Hin.
  apply elem_of_cons in Hin as [->|Hin]; [left|right; by apply IH].
Qed.

Lemma members_create_nothing members renames : Forall2 (fun op t => oracle_rename_triple scope op = Ok t) members renames ->
  created_all members = ∅.
Proof.
  intros Hf. apply set_eq. intros i. rewrite elem_of_created_all. split; [|done]. intros (op & Hop & Hi). exfalso.
  apply list_elem_of_lookup_1 in Hop as [k Hk]. destruct (Forall2_lookup_l _ _ _ _ _ Hf Hk) as (t & _ & Ht).
  apply triple_is_rename in Ht as [Hr _]. unfold is_rename, created in *. by destruct (d_kind op).
Qed.

(** What a replay keeps and what it adds. *)
Record replayed (s : OracleState) (ops : list DecodedPatchOperation) (s' : OracleState) : Prop := {
  rp_ok : lifecycle_ok (os_lifecycle s');
  rp_seen : seen_ids (os_lifecycle s') = created_all ops ∪ seen_ids (os_lifecycle s);
  rp_frame : forall i, i ∉ op_node <$> ops -> live_by_id (os_lifecycle s') !! i = live_by_id (os_lifecycle s) !! i;
}.

Lemma replay_replayed ops s' : lifecycle_ok base -> replay_operations E base scope ops = Ok s' ->
  replayed (mkOracle base ∅) ops s'.
Proof.
  intros Hbase Hr. revert Hbase. change base with (os_lifecycle (mkOracle base ∅)) at 1. revert ops s' Hr.
  apply (replay_operations_ind (fun s ops s' => lifecycle_ok (os_lifecycle s) -> replayed s ops s')).
  - intros s Hok. split; [done| |done]. unfold created_all. cbn. set_solver.
  - intros s op rest s1 s' Ha IH Hok. destruct (apply_run_op s op s1 Ha) as (lop & Hl & Hc).
    pose proof (run_op_ok _ lop Hok) as Hok1. rewrite Hl in Hok1. destruct (IH Hok1) as [R1 R2 R3]. split; [done| |].
    + rewrite R2, (run_op_seen _ _ _ Hok Hl), Hc. unfold created_all. cbn. set_solver.
    + intros i Hi. rewrite fmap_cons, not_elem_of_cons in Hi. destruct Hi as [Hi Hrest]. rewrite R3 by done.
      symmetry. apply (apply_frame s op s1 i Ha Hi).
  - intros s members renames rest s1 s' Hf Hm IH Hok. apply oracle_mut_inv in Hm as [[] Hm].
    apply rename_batch_checked in Hm as (Hok1 & _ & Hseen & Hlive & _); [|done]. destruct (IH Hok1) as [R1 R2 R3]. split; [done| |].
    + rewrite R2, Hseen. rewrite created_all_app, (members_create_nothing members renames Hf). set_solver.
    + intros i Hi. rewrite fmap_app, not_elem_of_app in Hi. destruct Hi as [Hi Hrest]. rewrite R3, Hlive by done.
      by rewrite (renamed_to_members members renames i Hf Hi).
Qed.
End replay.

(** ** Grouping by node *)

Lemma elem_of_enumerate {A} (l : list A) k x : (k, x) ∈ enumerate l <-> l !! k = Some x.
Proof.
  unfold enumerate. rewrite list_elem_of_lookup. split.
  - intros (j & Hj). apply lookup_zip_with_Some in Hj as (a & b & [= -> ->] & Ha & Hb).
    apply lookup_seq in Ha as [-> _]. done.
  - intros Hk. exists k. apply lookup_zip_with_Some. exists k, x. split; [done|]. split; [|done].
    apply lookup_seq. split; [done|]. by apply lookup_lt_Some in Hk.
Qed.

Lemma facts_node_op op id : facts_node op = Some id -> op_node op = id.
Proof.
  unfold facts_node. destruct (operation_facts op) as [f|] eqn:Hf; [|done]. apply facts_inv in Hf as [-> _]. by intros [= ->].
Qed.

(** The groups hold exactly the indices of the operations on their node. *)
Record grouped (items : list (nat * DecodedPatchOperation)) (by_node : gmap NodeId (list nat)) : Prop := {
  gr_sound : forall id indices k, by_node !! id = Some indices -> k ∈ indices ->
    exists op, (k, op) ∈ items /\ facts_node op = Some id;
  gr_complete : forall k op, (k, op) ∈ items -> exists indices,
    facts_node op = Some (op_node op) /\ by_node !! op_node op = Some indices /\ k ∈ indices;
}.

Lemma group_by_node_grouped items : forall pre m m', grouped pre m -> group_by_node m items = Some m' -> grouped (pre ++ items) m'.
Proof.
  induction items as [|[k op] items IH]; intros pre m m' Hg Hr; cbn [group_by_node] in Hr.
  { injection Hr as <-. by rewrite app_nil_r. }
  unfold push_index in Hr. destruct (facts_node op) as [id|] eqn:Hf; cbn in Hr; [|done].
  rewrite cons_middle, (assoc_L (++)). refine (IH _ _ _ _ Hr). destruct Hg as [Hs Hc]. pose proof (facts_node_op op id Hf) as Hid. split.
  - intros id' indices k'. destruct (decide (id' = id)) as [->|].
    + rewrite lookup_insert_eq. intros [= <-] [Hk|Hk%list_elem_of_singleton]%elem_of_app; [|subst k'].
      * destruct (m !! id) as [old|] eqn:Ho; cbn in Hk; [|by apply elem_of_nil in Hk].
        destruct (Hs id old k' Ho Hk) as (op' & ? & ?). exists op'. split; [|done]. apply elem_of_app. by left.
      * exists op. split; [|done]. apply elem_of_app. right. by apply list_elem_of_singleton.
    + rewrite lookup_insert_ne by done. intros Hm Hk. destruct (Hs id' indices k' Hm Hk) as (op' & ? & ?).
      exists op'. split; [|done]. apply elem_of_app. by left.
  - intros k' op' [Hin|[= -> ->]%list_elem_of_singleton]%elem_of_app.
    + destruct (Hc k' op' Hin) as (indices & Hf' & Hm & Hk). destruct (decide (op_node op' = id)) as [He|].
      * rewrite He in *. rewrite Hm. cbn. exists (indices ++ [k]). rewrite lookup_insert_eq. split_and!; [done|done|].
        apply elem_of_app. by left.
      * exists indices. by rewrite lookup_insert_ne.
    + rewrite Hid, lookup_insert_eq. eexists. split_and!; [done|done|]. apply elem_of_app. right. by apply list_elem_of_singleton.
Qed.

Lemma groups_of_operations operations by_node : group_by_node ∅ (enumerate operations) = Some by_node ->
  (forall id indices k, by_node !! id = Some indices -> k ∈ indices -> exists op, operations !! k = Some op /\ op_node op = id) /\
  (forall k op, operations !! k = Some op -> exists indices, by_node !! op_node op = Some indices /\ k ∈ indices).
Proof.
  intros Hg. apply (group_by_node_grouped _ []) in Hg.
  2: { split; [by intros id indices k; rewrite lookup_empty|]. by intros k op Hin%elem_of_nil. }
  destruct Hg as [Hs Hc]. cbn in *. split.
  - intros id indices k Hm Hk. destruct (Hs id indices k Hm Hk) as (op & Hin%elem_of_enumerate & Hf). exists op.
    split; [done|]. by apply facts_node_op.
  - intros k op Hk%elem_of_enumerate. destruct (Hc k op Hk) as (indices & _ & Hm & Hin). by exists indices.
Qed.

(** ** What a run folds to *)

Section runs.
Context `{Sha256} (baseline : NodeLifecycleState) (E : PatchAlgebraEvidence) (scope : EvidenceScope).

(** A net creates what its run creates, and acts on the run's node only. *)
Definition net_ok (id : NodeId) (run : list DecodedPatchOperation) (net : Net) : Prop :=
  match net with
  | NetReplace reps => reps <> [] /\ created_all reps = created_all run /\ Forall (fun op => op_node op = id) reps
  | NetDrop => created_all run = ∅
  end.

Lemma created_none ops : Forall (fun op => created op = ∅) ops -> created_all ops = ∅.
Proof.
  intros Hf. apply set_eq. intros i. rewrite elem_of_created_all. split; [|done]. intros (op & Hop & Hi).
  rewrite Forall_forall in Hf. rewrite (Hf op Hop) in Hi. done.
Qed.

Lemma changes_create_nothing ops : forallb changes_content_or_mode ops = true -> Forall (fun op => created op = ∅) ops.
Proof.
  rewrite forallb_forall. intros Hf. apply Forall_forall. intros op Hop%list_elem_of_In. specialize (Hf op Hop).
  unfold changes_content_or_mode, created in *. by destruct (d_kind op).
Qed.

Lemma create_then_edits_ok original run create content_id kind id :
  Forall (fun op => op_node op = id) run ->
  create_then_edits baseline E scope original run = Some (create, content_id, kind) ->
  net_ok id run (NetReplace [create]) /\ is_delete_node create = false.
Proof.
  unfold create_then_edits. destruct run as [|first edits]; [done|]. intros Hall. destruct (d_kind first) as [p i b m| | | | | |] eqn:Hk; try done.
  destruct (_ || _) eqn:Hg; [done|]. apply orb_false_iff in Hg as [_ Hg%negb_false_iff].
  destruct (evidence_blob_kind scope b) as [[]| | | | |]; try done.
  destruct (os_text original i) as [t|]; cbn; [|done]. destruct (text_blob_id t) as [cid|]; [|done]. intros [= <- <- <-].
  rewrite Forall_cons in Hall. destruct Hall as [Hf _]. unfold op_node in Hf. rewrite Hk in Hf. subst i.
  split; [|done]. split; [done|]. split; [|by constructor].
  fold (created_all edits). rewrite (created_none edits). { unfold created at 2. by rewrite Hk. }
  apply Forall_forall. intros op Hop%list_elem_of_In. rewrite forallb_forall in Hg. specialize (Hg op Hop).
  unfold is_edit_text, created in *. by destruct (d_kind op).
Qed.

Lemma split_last_app {A} (l : list A) x before : split_last l = Some (x, before) -> l = before ++ [x].
Proof.
  unfold split_last. destruct (reverse l) as [|y r] eqn:Hr; [done|]. intros [= -> <-].
  apply (f_equal reverse) in Hr. rewrite reverse_involutive, reverse_cons in Hr. done.
Qed.

Lemma net_changes_ok original id sq base b m b' m' run net : created_all run = ∅ ->
  net_changes E original id sq base b m b' m' = Some net -> net_ok id run net.
Proof.
  unfold net_changes. intros Hrun Hn.
  destruct (match ln_kind base with TextFile => _ | _ => _ end) as [content|] eqn:Hc; [|done]. cbn in Hn. injection Hn as <-.
  set (net := content ++ _).
  assert (Hnet : Forall (fun op => created op = ∅ /\ op_node op = id) net).
  { apply Forall_app. split; [|destruct (m' =? m); by repeat constructor].
    repeat case_match; simplify_eq; by repeat constructor. }
  destruct net as [|op reps]; [done|]. split; [done|]. rewrite Hrun. split.
  - apply created_none. eapply Forall_impl; [exact Hnet|]. by intros ? [].
  - eapply Forall_impl; [exact Hnet|]. by intros ? [].
Qed.

Lemma net_effect_ok original id run net : net_effect baseline E original id run = Some net -> net_ok id run net.
Proof.
  unfold net_effect. destruct (d_op_seq <$> head run) as [sq|]; cbn; [|done].
  destruct (split_last run) as [[last before]|] eqn:Hsp; cbn; [|done]. apply split_last_app in Hsp.
  destruct (live_node baseline id) as [base|]; cbn; [|done]. destruct (ln_content base) as [b m|]; [|done].
  assert (Hchg : (if negb (forallb changes_content_or_mode run) then None
    else live ← live_node (os_lifecycle original) id;
      match ln_content live with FileContent b' m' => net_changes E original id sq base b m b' m' | SymlinkContent _ => None end)
    = Some net -> net_ok id run net).
  { destruct (forallb changes_content_or_mode run) eqn:Hf; cbn [negb]; [|done].
    destruct (live_node (os_lifecycle original) id) as [live|]; cbn; [|done]. destruct (ln_content live) as [b' m'|]; [|done].
    apply net_changes_ok. by apply created_none, changes_create_nothing. }
  destruct (d_kind last) as [|p i [k ob om|t]| | | | |] eqn:Hk; try exact Hchg.
  destruct (_ || _) eqn:Hg; [done|]. apply orb_false_iff in Hg as [_ Hg%negb_false_iff]. intros [= <-].
  split; [done|]. split; [|by constructor]. rewrite Hsp. rewrite (created_none [_]) by (by constructor).
  rewrite created_none; [done|]. apply Forall_app. split; [by apply changes_create_nothing|].
  constructor; [|done]. unfold created. by rewrite Hk.
Qed.

Lemma net_of_run_ok original id run kinds net kinds' : Forall (fun op => op_node op = id) run ->
  net_of_run baseline E scope original id run kinds = Some (net, kinds') -> net_ok id run net.
Proof.
  unfold net_of_run. intros Hall. destruct (create_then_edits baseline E scope original run) as [[[create cid] kind]|] eqn:Hc.
  - intros [= <- <-]. by apply (create_then_edits_ok original run create cid kind id Hall).
  - destruct (net_effect baseline E original id run) as [net'|] eqn:Hn; [|done]. intros [= <- <-]. by apply net_effect_ok in Hn.
Qed.
End runs.

(** ** The loop over the nodes *)

Section loop.
Context `{Sha256} (baseline : NodeLifecycleState) (E : PatchAlgebraEvidence) (scope : EvidenceScope).
Context (operations other_side : list DecodedPatchOperation) (original : OracleState) (by_node : gmap NodeId (list nat)).
Hypothesis groups : group_by_node ∅ (enumerate operations) = Some by_node.

Abbreviation run_of indices := (omap (fun index => operations !! index) (indices : list nat)).
Abbreviation step := (fold_node baseline E scope operations original (collect_nodes other_side)).

(** The net a finished node was given, at the last index of its run. *)
Definition net_at (s : FoldState) (id : NodeId) (indices : list nat) (last_ first : nat) (net : Net) : Prop :=
  last indices = Some last_ /\ first ∈ indices /\ nets s !! last_ = Some (first, net).

Record fold_inv (finished : list (NodeId * list nat)) (s : FoldState) : Prop := {
  fi_nets : forall last_ first net, nets s !! last_ = Some (first, net) -> exists id indices,
    (id, indices) ∈ finished /\ net_at s id indices last_ first net /\ net_ok id (run_of indices) net /\
    (net = NetDrop -> exists nodes, collect_nodes other_side = Some nodes /\ id ∉ nodes);
  fi_consumed : forall k, k ∈ consumed s -> exists id indices last_ first net,
    (id, indices) ∈ finished /\ k ∈ indices /\ net_at s id indices last_ first net;
  fi_deletes : forall id, id ∈ folded_deletes s -> exists indices last_ first reps op,
    (id, indices) ∈ finished /\ net_at s id indices last_ first (NetReplace reps) /\ op ∈ reps /\ is_delete_node op = true;
}.

Lemma run_of_elem (indices : list nat) op : op ∈ run_of indices <-> exists k, k ∈ indices /\ operations !! k = Some op.
Proof. rewrite list_elem_of_omap. done. Qed.

Lemma run_of_node id indices : by_node !! id = Some indices -> Forall (fun op => op_node op = id) (run_of indices).
Proof.
  intros Hid. apply Forall_forall. intros op (k & Hk & Hop)%run_of_elem.
  destruct (proj1 (groups_of_operations operations by_node groups) id indices k Hid Hk) as (op' & Hop' & Hn). congruence.
Qed.

Lemma group_unique id id' indices indices' k : by_node !! id = Some indices -> by_node !! id' = Some indices' ->
  k ∈ indices -> k ∈ indices' -> id = id'.
Proof.
  intros H1 H2 K1 K2. destruct (groups_of_operations operations by_node groups) as [Hg _].
  destruct (Hg _ _ _ H1 K1) as (op & Ho & Hn), (Hg _ _ _ H2 K2) as (op' & Ho' & Hn'). congruence.
Qed.

Lemma last_elem {A} (l : list A) x : last l = Some x -> x ∈ l.
Proof. intros Hl. apply last_Some in Hl as [l' ->]. apply elem_of_app. right. by apply list_elem_of_singleton. Qed.

(** Recording the net of a fresh node keeps the records of the finished ones. *)
Lemma fold_inv_insert finished s id indices first last_ net deletes kinds :
  (forall i xs, (i, xs) ∈ finished -> by_node !! i = Some xs /\ i <> id) -> by_node !! id = Some indices ->
  first ∈ indices -> last indices = Some last_ -> net_ok id (run_of indices) net ->
  (net = NetDrop -> exists nodes, collect_nodes other_side = Some nodes /\ id ∉ nodes) ->
  (forall i, i ∈ deletes -> i ∈ folded_deletes s \/
     i = id /\ exists reps op, net = NetReplace reps /\ op ∈ reps /\ is_delete_node op = true) ->
  fold_inv finished s ->
  fold_inv (finished ++ [(id, indices)]) (mkFoldState (<[last_ := (first, net)]> (nets s)) (list_to_set indices ∪ consumed s) deletes kinds).
Proof.
  intros Hfin Hid Hfirst Hlast Hnet Hdrop Hdel [I1 I2 I3].
  set (s' := mkFoldState _ _ _ _).
  assert (Hnew : net_at s' id indices last_ first net) by (split_and!; [done|done|]; cbn; by rewrite lookup_insert_eq).
  assert (Hin : (id, indices) ∈ finished ++ [(id, indices)]) by (apply elem_of_app; right; by apply list_elem_of_singleton).
  assert (Hold : forall i xs l f n, (i, xs) ∈ finished -> net_at s i xs l f n -> net_at s' i xs l f n /\ (i, xs) ∈ finished ++ [(id, indices)]).
  { intros i xs l f n Hi (L1 & L2 & L3). destruct (Hfin i xs Hi) as [Hxs Hne]. split; [|apply elem_of_app; by left].
    split_and!; [done|done|]. cbn. rewrite lookup_insert_ne; [done|]. intros <-.
    by destruct Hne; apply (group_unique i id xs indices last_ Hxs Hid); apply last_elem. }
  split.
  - intros l f n. cbn. destruct (decide (l = last_)) as [->|Hl].
    + rewrite lookup_insert_eq. intros [= <- <-]. by exists id, indices.
    + rewrite lookup_insert_ne by done. intros Hn. destruct (I1 l f n Hn) as (i & xs & Hi & Hat & Hok & Hd).
      destruct (Hold i xs l f n Hi Hat) as [Hat' Hi']. by exists i, xs.
  - intros k. cbn. rewrite elem_of_union, elem_of_list_to_set. intros [Hk|Hk]; [by exists id, indices, last_, first, net|].
    destruct (I2 k Hk) as (i & xs & l & f & n & Hi & Hkx & Hat). destruct (Hold i xs l f n Hi Hat) as [Hat' Hi'].
    by exists i, xs, l, f, n.
  - intros i Hi. destruct (Hdel i Hi) as [Hi'|[-> (reps & op & -> & Hop)]]; [|by exists indices, last_, first, reps, op].
    destruct (I3 i Hi') as (xs & l & f & reps & op & Hin' & Hat & Hop). destruct (Hold i xs l f _ Hin' Hat) as [Hat' Hi''].
    by exists xs, l, f, reps, op.
Qed.

Lemma fold_inv_skip finished s entry : fold_inv finished s -> fold_inv (finished ++ [entry]) s.
Proof.
  assert (Hw : forall x, x ∈ finished -> x ∈ finished ++ [entry]) by (intros x Hx; apply elem_of_app; by left).
  intros [I1 I2 I3]. split.
  - intros l f n Hn. destruct (I1 l f n Hn) as (i & xs & Hi & Hrest). exists i, xs. by split; [apply Hw|].
  - intros k Hk. destruct (I2 k Hk) as (i & xs & l & f & n & Hi & Hrest). exists i, xs, l, f, n. by split; [apply Hw|].
  - intros i Hi. destruct (I3 i Hi) as (xs & l & f & reps & op & Hin & Hrest). exists xs, l, f, reps, op. by split; [apply Hw|].
Qed.

Lemma fold_node_inv finished s id indices :
  (forall i xs, (i, xs) ∈ finished -> by_node !! i = Some xs /\ i <> id) -> by_node !! id = Some indices ->
  fold_inv finished s -> fold_inv (finished ++ [(id, indices)]) (step s (id, indices)).
Proof.
  intros Hfin Hid Hinv. pose proof (fold_inv_skip finished s (id, indices) Hinv) as Hskip. unfold fold_node.
  destruct (head indices) as [first|] eqn:Hfirst; [|done]. destruct (last indices) as [last_|] eqn:Hlast; [|done].
  assert (Hf : first ∈ indices) by (destruct indices; [done|]; injection Hfirst as ->; left).
  case_bool_decide; [done|]. destruct (net_of_run _ _ _ _ _ _ _) as [[net kinds]|] eqn:Hn; [|done].
  apply (net_of_run_ok baseline E scope) in Hn; [|by apply run_of_node].
  destruct net as [reps|].
  - apply fold_inv_insert; try done. intros i Hi. destruct (existsb is_delete_node reps) eqn:He; [|by left].
    apply elem_of_union in Hi as [->%elem_of_singleton|Hi]; [right|by left]. split; [done|].
    apply existsb_exists in He as (op & Hop%list_elem_of_In & Hd). by exists reps, op.
  - destruct (collect_nodes other_side) as [nodes|] eqn:Hnodes; [|done]. case_bool_decide as Hin; [done|]. cbn [negb].
    apply fold_inv_insert; try done; [|by left]. intros _. rewrite Hnodes. by exists nodes.
Qed.

Lemma fold_left_inv rest : forall finished s,
  NoDup (finished ++ rest).*1 -> (forall i xs, (i, xs) ∈ finished ++ rest -> by_node !! i = Some xs) ->
  fold_inv finished s -> fold_inv (finished ++ rest) (fold_left step rest s).
Proof.
  induction rest as [|[id indices] rest IH]; intros finished s Hnd Hmap Hinv; cbn [fold_left]; [by rewrite app_nil_r|].
  rewrite cons_middle, (assoc_L (++)) in *. apply IH; [done|done|]. apply fold_node_inv; [|by apply Hmap; set_solver|done].
  intros i xs Hi. split; [apply Hmap; set_solver|]. intros ->.
  rewrite !fmap_app, <- (assoc_L (++)) in Hnd. apply NoDup_app in Hnd as (_ & Hnd & _). apply (Hnd id).
  - apply list_elem_of_fmap. by exists (id, xs).
  - cbn. left.
Qed.

Lemma fold_runs_inv : fold_inv (btree_iter by_node) (fold_runs baseline E scope operations other_side original by_node).
Proof.
  apply (fold_left_inv (btree_iter by_node) []); cbn [app].
  - unfold btree_iter. rewrite sort_by_perm. apply NoDup_fst_map_to_list.
  - intros i xs. apply elem_of_btree_iter.
  - split; cbn; [by intros ? ? ?; rewrite lookup_empty|set_solver|set_solver].
Qed.
End loop.

(** ** What the fold puts out *)

Section output.
Context `{Sha256} (baseline : NodeLifecycleState) (E : PatchAlgebraEvidence) (scope : EvidenceScope).
Context (operations other_side : list DecodedPatchOperation) (original : OracleState) (by_node : gmap NodeId (list nat)).
Hypothesis groups : group_by_node ∅ (enumerate operations) = Some by_node.

Let s : FoldState := fold_runs baseline E scope operations other_side original by_node.
Let output := mbind (fold_at s) (enumerate operations).

Lemma elem_of_output x : x ∈ output <-> exists k op, operations !! k = Some op /\ x ∈ fold_at s (k, op).
Proof.
  unfold output. rewrite list_elem_of_bind. split.
  - intros ([k op] & Hx & Hk%elem_of_enumerate). by exists k, op.
  - intros (k & op & Hk%elem_of_enumerate & Hx). by exists (k, op).
Qed.

Lemma output_at k op rep f : operations !! k = Some op -> (rep, (f, k)) ∈ fold_at s (k, op) -> rep ∈ output.*1.
Proof. intros Hk Hx. apply list_elem_of_fmap. exists (rep, (f, k)). split; [done|]. apply elem_of_output. by exists k, op. Qed.

Lemma inv : fold_inv operations other_side (btree_iter by_node) s.
Proof. by apply fold_runs_inv. Qed.

Lemma finished_group id indices k : (id, indices) ∈ btree_iter by_node -> k ∈ indices ->
  exists op, operations !! k = Some op /\ op_node op = id.
Proof. intros Hi%elem_of_btree_iter. by apply (groups_of_operations operations by_node groups). Qed.

(** A replacement of a net is in the output. *)
Lemma net_in_output id indices last_ first reps rep : (id, indices) ∈ btree_iter by_node ->
  net_at s id indices last_ first (NetReplace reps) -> rep ∈ reps -> rep ∈ output.*1.
Proof.
  intros Hi (Hl & Hf & Hn) Hrep. destruct (finished_group id indices last_ Hi (last_elem _ _ Hl)) as (op & Hop & _).
  apply (output_at last_ op rep first Hop). unfold fold_at. rewrite Hn. apply list_elem_of_fmap. by exists rep.
Qed.

(** The net of the run that holds index [k], or the operation itself. *)
Lemma output_cases k op : operations !! k = Some op ->
  op ∈ output.*1 \/ exists id indices last_ first net, (id, indices) ∈ btree_iter by_node /\ k ∈ indices /\ id = op_node op /\
    net_at s id indices last_ first net /\ net_ok id (omap (fun index => operations !! index) indices) net /\
    (net = NetDrop -> exists nodes, collect_nodes other_side = Some nodes /\ id ∉ nodes).
Proof.
  intros Hk. destruct inv as [I1 I2 _].
  assert (Hnode : forall id indices, (id, indices) ∈ btree_iter by_node -> k ∈ indices -> id = op_node op).
  { intros id indices Hi Hki. destruct (finished_group id indices k Hi Hki) as (op' & Hop' & Hn). congruence. }
  destruct (nets s !! k) as [[first net]|] eqn:Hn.
  - right. destruct (I1 k first net Hn) as (id & indices & Hi & Hat & Hok & Hd).
    assert (Hki : k ∈ indices) by (apply last_elem, Hat). exists id, indices, k, first, net. split_and!; try done. by eapply Hnode.
  - destruct (decide (k ∈ consumed s)) as [Hc|Hc].
    + right. destruct (I2 k Hc) as (id & indices & l & f & net & Hi & Hki & Hat). destruct (I1 l f net) as (id' & xs & Hi' & Hat' & Hok & Hd).
      { apply Hat. }
      assert (id = id') as <-.
      { apply (group_unique operations by_node groups id id' indices xs l); try (by apply elem_of_btree_iter); [apply last_elem, Hat|apply last_elem, Hat']. }
      assert (indices = xs) as <- by (apply elem_of_btree_iter in Hi, Hi'; congruence).
      exists id, indices, l, f, net. split_and!; try done. by eapply Hnode.
    + left. apply (output_at k op op k Hk). unfold fold_at. rewrite Hn, bool_decide_eq_false_2 by done. by apply list_elem_of_singleton.
Qed.

(** Where an operation of the output comes from. *)
Lemma output_origin rep f k : (rep, (f, k)) ∈ output ->
  created rep ⊆ created_all operations /\
  (exists first, operations !! f = Some first /\ op_node first = op_node rep) /\
  exists last_, operations !! k = Some last_ /\ op_node last_ = op_node rep.
Proof.
  intros (k' & op & Hk & Hx)%elem_of_output. unfold fold_at in Hx. destruct (nets s !! k') as [[first [reps|]]|] eqn:Hn; [|by apply elem_of_nil in Hx|].
  - apply list_elem_of_fmap in Hx as (rep' & [= -> -> ->] & Hrep). destruct inv as [I1 _ _].
    destruct (I1 k' first _ Hn) as (id & indices & Hi & (Hl & Hf & _) & (_ & Hc & Hall) & _).
    rewrite Forall_forall in Hall. rewrite (Hall rep' Hrep). split.
    + intros i Hi'. assert (Hin : i ∈ created_all reps) by (apply elem_of_created_all; by exists rep').
      rewrite Hc in Hin. apply elem_of_created_all in Hin as (op' & (j & Hj & Hop')%list_elem_of_omap & Hio).
      apply elem_of_created_all. exists op'. split; [|done]. by apply list_elem_of_lookup_2 in Hop'.
    + split; [by eapply finished_group|]. eapply finished_group; [done|by apply last_elem].
  - case_bool_decide; [by apply elem_of_nil in Hx|]. apply list_elem_of_singleton in Hx as [= -> -> ->].
    split; [|by split; exists op]. intros i Hi. apply elem_of_created_all. exists op. split; [|done]. by apply list_elem_of_lookup_2 in Hk.
Qed.

Lemma output_created : created_all output.*1 = created_all operations.
Proof.
  apply set_eq. intros i. split; intros (op & Hop & Hi)%elem_of_created_all.
  - apply list_elem_of_fmap in Hop as ([rep [f k]] & -> & Hx). by apply output_origin in Hx as [Hx _]; apply Hx.
  - apply list_elem_of_lookup_1 in Hop as [k Hk]. destruct (output_cases k op Hk) as [Hin|Hnet].
    + apply elem_of_created_all. by exists op.
    + destruct Hnet as (id & indices & l & f & net & Hfin & Hki & _ & Hat & Hok & _).
      assert (Hrun : i ∈ created_all (omap (fun index => operations !! index) indices)).
      { apply elem_of_created_all. exists op. split; [|done]. apply list_elem_of_omap. by exists k. }
      destruct net as [reps|]; [|cbn in Hok; set_solver]. destruct Hok as (_ & Hc & _). rewrite <- Hc in Hrun.
      apply elem_of_created_all in Hrun as (rep & Hrep & Hir). apply elem_of_created_all. exists rep. split; [|done].
      by eapply net_in_output.
Qed.

Lemma output_dropped k op : operations !! k = Some op -> op_node op ∉ op_node <$> output.*1 ->
  exists nodes, collect_nodes other_side = Some nodes /\ op_node op ∉ nodes.
Proof.
  intros Hk Hno. destruct (output_cases k op Hk) as [Hin|(id & indices & l & f & net & Hfin & Hki & -> & Hat & Hok & Hd)].
  { destruct Hno. apply list_elem_of_fmap. by exists op. }
  destruct net as [[|rep reps]|]; [by destruct Hok|exfalso|by apply Hd]. destruct Hok as (_ & _ & Hall). apply Forall_cons in Hall as [Hn _].
  apply Hno. rewrite <- Hn. apply list_elem_of_fmap. exists rep. split; [done|]. eapply net_in_output; [done|done|]. left.
Qed.

Lemma output_deletes id : id ∈ folded_deletes s -> exists op, op ∈ output.*1 /\ is_delete_node op = true /\ op_node op = id.
Proof.
  intros Hid. destruct inv as [I1 _ I3]. destruct (I3 id Hid) as (indices & l & f & reps & op & Hi & Hat & Hop & Hd).
  exists op. split; [by eapply net_in_output|]. split; [done|]. destruct (I1 l f (NetReplace reps)) as (id' & xs & Hi' & Hat' & (_ & _ & Hall) & _).
  { apply Hat. }
  rewrite Forall_forall in Hall. rewrite (Hall op Hop).
  apply (group_unique operations by_node groups id' id xs indices l); try (by apply elem_of_btree_iter); [apply last_elem, Hat'|apply last_elem, Hat].
Qed.
End output.

(** ** The guard *)

Lemma btree_iter_inj {V} (m1 m2 : gmap (list byte) V) : btree_iter m1 = btree_iter m2 -> m1 = m2.
Proof.
  intros He. apply map_eq. intros k. apply option_eq. intros v. by rewrite <- !elem_of_btree_iter, He.
Qed.

Lemma index_determined s1 s2 : lifecycle_ok s1 -> lifecycle_ok s2 -> live_by_id s1 = live_by_id s2 -> path_to_id s1 = path_to_id s2.
Proof.
  intros H1 H2 He. apply map_eq. intros p. apply option_eq. intros id. rewrite (ok_index s1 H1), (ok_index s2 H2), He. done.
Qed.

(** Two tombstones the guard lets pass. *)
Definition tombstone_match (folded_delete : Prop) (t1 t2 : option Tombstone) : Prop :=
  t1 = t2 \/ folded_delete /\ exists b1 m1 b2 m2 k p,
    t1 = Some (mkTombstone k (FileContent b1 m1) p) /\ t2 = Some (mkTombstone k (FileContent b2 m2) p).

Lemma length_btree_iter {V} (m : gmap (list byte) V) : length (btree_iter m) = size m.
Proof. unfold btree_iter. by rewrite (Permutation_length (sort_by_perm _ _)), length_map_to_list. Qed.

Lemma equivalent_inv `{Sha256} original folded deletes : equivalent original folded deletes = true ->
  live_by_id (os_lifecycle original) = live_by_id (os_lifecycle folded) /\
  (forall id, tombstone_match (id ∈ deletes) (latest_tombstone (os_lifecycle original) id) (latest_tombstone (os_lifecycle folded) id)) /\
  (forall id t t', os_text original id = Some t -> os_text folded id = Some t' -> t = t').
Proof.
  unfold equivalent, live_nodes, tombstones. case_bool_decide as Hlive; cbn [negb]; [|done]. apply btree_iter_inj in Hlive.
  case_bool_decide as Hlen; cbn [negb]; [|done]. rewrite !length_btree_iter, list_to_map_btree_iter in *.
  destruct (forallb _ (btree_iter _)) eqn:Ht; cbn [negb]; [|done]. rewrite forallb_forall in Ht. intros Hx. rewrite forallb_forall in Hx.
  set (l := latest_tombstone_by_id (os_lifecycle original)) in *. set (r := latest_tombstone_by_id (os_lifecycle folded)) in *.
  assert (Hl : forall id t, l !! id = Some t -> tombstones_equivalent deletes r (id, t) = true).
  { intros id t Hid. apply Ht. apply list_elem_of_In. by apply elem_of_btree_iter. }
  assert (Hdom : dom l = dom r).
  { apply set_subseteq_size_eq; [|rewrite !size_dom; lia]. intros id [t Hid]%elem_of_dom. specialize (Hl id t Hid). unfold tombstones_equivalent in Hl.
    destruct (r !! id) eqn:Hr; [|done]. by apply elem_of_dom_2 in Hr. }
  split; [done|]. split.
  - intros id. unfold latest_tombstone. fold l r. destruct (l !! id) as [t|] eqn:Hid.
    + specialize (Hl id t Hid). unfold tombstones_equivalent in Hl. destruct (r !! id) as [t'|]; [|done].
      case_bool_decide as He; [left; congruence|]. right. apply negb_true_iff in Hl.
      apply orb_false_iff in Hl as [[[H1 H2]%orb_false_iff H3]%orb_false_iff H4].
      apply negb_false_iff, bool_decide_eq_true in H1, H2, H3. apply negb_false_iff in H4. split; [done|].
      destruct t as [k [b m|] p], t' as [k' [b' m'|] p']; cbn in *; try done. subst k' p'. by exists b, m, b', m', k, p.
    + left. symmetry. apply not_elem_of_dom. rewrite <- Hdom. by apply not_elem_of_dom.
  - intros id t t' H1 H2. specialize (Hx id). unfold texts_equivalent in Hx. rewrite H1, H2 in Hx.
    rewrite bool_decide_eq_true in Hx. apply Hx. apply list_elem_of_In, elem_of_elements, elem_of_list_to_set, elem_of_app. left.
    unfold os_text_nodes. apply list_elem_of_fmap. exists (id, t). split; [done|]. by apply elem_of_btree_iter.
Qed.

(** ** The claims *)

Lemma FoldEvidence_empty E : FoldEvidence E ∅ = E.
Proof. by destruct E. Qed.

(** What a fold that is used was built from and checked against. *)
Lemma fold_inversion `{Sha256} baseline E scope operations other_side folded :
  fold baseline E scope operations other_side = Some folded ->
  exists by_node original replayed,
    let s := fold_runs baseline E scope operations other_side original by_node in
    group_by_node ∅ (enumerate operations) = Some by_node /\ replay_operations E baseline scope operations = Ok original /\
    fs_operations folded = (mbind (fold_at s) (enumerate operations)).*1 /\
    fs_origins folded = (mbind (fold_at s) (enumerate operations)).*2 /\
    replay_operations (FoldEvidence E (fs_derived_kinds folded)) baseline scope (fs_operations folded) = Ok replayed /\
    equivalent original replayed (folded_deletes s) = true.
Proof.
  unfold fold. destruct (group_by_node ∅ (enumerate operations)) as [by_node|]; [|done]. cbn -[replay_operations].
  destruct (forallb _ _); [done|]. destruct (replay_operations E baseline scope operations) as [original|]; [|done].
  set (s := fold_runs _ _ _ _ _ _ _). case_bool_decide; [done|]. unfold FoldEvidence_new. cbn [fs_derived_kinds fs_operations].
  rewrite map_union_idemp. destruct (replay_operations (FoldEvidence E (derived_kinds s)) _ _ _) as [replayed|] eqn:Hr; [|done].
  destruct (equivalent original replayed (folded_deletes s)) eqn:He; [|done]. intros [= <-]. by exists by_node, original, replayed.
Qed.

(** C27: Folding a side preserves what the side does.  When the original operations replay, so does the
    folded side (with the derived kinds of its folded creates), and the two final states have the same
    live nodes, path index and seen identities and agree on every text both hold; a tombstone differs
    at most in blob and mode, and only for a node whose deletion the folded side contains. *)
Theorem fold_side_preserves_replay `{Sha256} baseline E scope operations other_side original :
  validate_internal_consistency baseline = Ok tt ->
  replay_operations E baseline scope operations = Ok original ->
  let folded := fold_side baseline E scope operations other_side in
  exists replayed,
    replay_operations (FoldEvidence E (fs_derived_kinds folded)) baseline scope (fs_operations folded) = Ok replayed /\
    live_by_id (os_lifecycle original) = live_by_id (os_lifecycle replayed) /\
    path_to_id (os_lifecycle original) = path_to_id (os_lifecycle replayed) /\
    seen_ids (os_lifecycle original) = seen_ids (os_lifecycle replayed) /\
    (forall id, tombstone_match (exists op, op ∈ fs_operations folded /\ is_delete_node op = true /\ op_node op = id)
       (latest_tombstone (os_lifecycle original) id) (latest_tombstone (os_lifecycle replayed) id)) /\
    (forall id t t', os_text original id = Some t -> os_text replayed id = Some t' -> t = t').
Proof.
  intros Hok%validate_internal_consistency_iff Horig folded. unfold folded, fold_side.
  destruct (fold baseline E scope operations other_side) as [fs|] eqn:Hf; cbn [from_option id].
  - apply fold_inversion in Hf as (by_node & original' & replayed & Hg & Ho' & Hops & _ & Hr & He).
    rewrite Horig in Ho'. injection Ho' as <-. exists replayed. split; [done|].
    apply equivalent_inv in He as (Hlive & Htomb & Htext).
    pose proof (replay_replayed E baseline scope operations original Hok Horig) as [O1 O2 _].
    pose proof (replay_replayed _ baseline scope (fs_operations fs) replayed Hok Hr) as [R1 R2 _].
    split_and!; [done|by apply index_determined| | |done].
    + rewrite O2, R2, Hops, output_created; done.
    + intros id. destruct (Htomb id) as [Heq|[Hd Hrest]]; [by left|right]. split; [|done]. rewrite Hops. by apply output_deletes.
  - exists original. cbn [unfolded fs_derived_kinds fs_operations]. rewrite FoldEvidence_empty. split_and!; try done.
    + intros id. by left.
    + intros id t t' H1 H2. congruence.
Qed.

(** Every operation of a folded side stands for operations of the original side on the same node:
    the operations at the first and at the last index of its origin act on its node, and there is one
    origin per operation. *)
Theorem fold_side_origins `{Sha256} baseline E scope operations other_side :
  let folded := fold_side baseline E scope operations other_side in
  Forall2 (fun op origin =>
      (exists first, operations !! origin.1 = Some first /\ op_node first = op_node op) /\
      exists last_, operations !! origin.2 = Some last_ /\ op_node last_ = op_node op)
    (fs_operations folded) (fs_origins folded).
Proof.
  cbn zeta. unfold fold_side. destruct (fold baseline E scope operations other_side) as [fs|] eqn:Hf; cbn [from_option id].
  - apply fold_inversion in Hf as (by_node & original & replayed & Hg & _ & -> & -> & _).
    rewrite Forall2_fmap. apply Forall2_same_length_lookup_2; [done|]. intros i x y Hx Hy. rewrite Hx in Hy. injection Hy as <-.
    destruct x as [rep [f k]]. apply list_elem_of_lookup_2 in Hx. by apply output_origin in Hx as (_ & ? & ?).
  - unfold unfolded. cbn [fs_operations fs_origins]. apply Forall2_same_length_lookup_2; [by rewrite length_fmap, length_seq|].
    intros i x y Hx Hy. rewrite list_lookup_fmap in Hy. apply fmap_Some in Hy as (j & Hj & ->).
    apply lookup_seq in Hj as [-> _]. cbn. by split; exists x.
Qed.

(** A node may be dropped from a side only when that is harmless: if a side acts on a node and the
    folded side no longer does, then replaying the side leaves the node as the baseline has it, and no
    operation of the other side acts on it. *)
Theorem fold_drop_admissible `{Sha256} baseline E scope operations other_side original op :
  validate_internal_consistency baseline = Ok tt ->
  replay_operations E baseline scope operations = Ok original ->
  op ∈ operations ->
  op_node op ∉ op_node <$> fs_operations (fold_side baseline E scope operations other_side) ->
  live_node (os_lifecycle original) (op_node op) = live_node baseline (op_node op) /\
  Forall (fun other => facts_node other <> Some (op_node op)) other_side.
Proof.
  intros Hok%validate_internal_consistency_iff Horig Hop. unfold fold_side.
  destruct (fold baseline E scope operations other_side) as [fs|] eqn:Hf; cbn [from_option id].
  2: { cbn. intros Hno. destruct Hno. apply list_elem_of_fmap. by exists op. }
  apply fold_inversion in Hf as (by_node & original' & replayed & Hg & Ho' & Hops & _ & Hr & He).
  rewrite Horig in Ho'. injection Ho' as <-. intros Hno. apply equivalent_inv in He as (Hlive & _). split.
  - unfold live_node. rewrite Hlive. by apply (rp_frame _ _ _ (replay_replayed _ baseline scope (fs_operations fs) replayed Hok Hr)).
  - rewrite Hops in Hno. apply list_elem_of_lookup_1 in Hop as [k Hk].
    destruct (output_dropped baseline E scope operations other_side original by_node Hg k op Hk Hno) as (nodes & Hn & Hnot).
    clear -Hn Hnot. revert nodes Hn Hnot. induction other_side as [|o rest IH]; intros nodes; [constructor|]. cbn [collect_nodes].
    destruct (facts_node o) as [n|] eqn:Ho; [|done]. cbn. destruct (collect_nodes rest) as [ns|]; [|done]. cbn. intros [= <-] Hnot.
    constructor; [set_solver|]. apply (IH ns); set_solver.
Qed.

(** ** A run that folds, and one that drops its node *)

#[local] Existing Instance hash_mod_p.

Definition witness_binary_tree : NodeLifecycleState :=
  run_ops [OpCreate (replicate 32 x01) (mkLive [x61] BinaryFile (FileContent (replicate 32 x09) 0));
           OpCreate (replicate 32 x02) (mkLive [x62] BinaryFile (FileContent (replicate 32 x09) 0))] NodeLifecycleState_new.

(** Node 1 is made executable and deleted; node 2 is made executable and back. *)
Definition witness_side : list DecodedPatchOperation :=
  [mkDecoded 0 (DChangePerm (replicate 32 x01) 0 1) None;
   mkDecoded 1 (DChangePerm (replicate 32 x02) 0 1) None;
   mkDecoded 2 (DDeleteNode [x61] (replicate 32 x01) (DecodedFile BinaryFile (replicate 32 x09) 1)) None;
   mkDecoded 3 (DChangePerm (replicate 32 x02) 1 0) None].

Lemma fold_side_preserves_replay_witness :
  fs_origins (fold_side witness_binary_tree NoPatchAlgebraEvidence SealedCandidateRequired witness_side []) = [(0, 2)]%nat /\
  exists replayed, replay_operations NoPatchAlgebraEvidence witness_binary_tree SealedCandidateRequired
    (fs_operations (fold_side witness_binary_tree NoPatchAlgebraEvidence SealedCandidateRequired witness_side [])) = Ok replayed.
Proof.
  split; [vm_compute; reflexivity|].
  edestruct (fold_side_preserves_replay witness_binary_tree NoPatchAlgebraEvidence SealedCandidateRequired witness_side [])
    as (replayed & Hr & _); [vm_compute; reflexivity|vm_compute; reflexivity|]. exists replayed. exact Hr.
Defined.

Lemma fold_drop_admissible_witness :
  match replay_operations NoPatchAlgebraEvidence witness_binary_tree SealedCandidateRequired witness_side with
  | Ok original => live_node (os_lifecycle original) (replicate 32 x02) = live_node witness_binary_tree (replicate 32 x02)
  | Err _ => False
  end.
Proof.
  destruct (replay_operations NoPatchAlgebraEvidence witness_binary_tree SealedCandidateRequired witness_side) as [original|] eqn:Hr.
  - apply (fold_drop_admissible witness_binary_tree NoPatchAlgebraEvidence SealedCandidateRequired witness_side [] original
      (mkDecoded 1 (DChangePerm (replicate 32 x02) 0 1) None)); [vm_compute; reflexivity|exact Hr|right; left|].
    vm_compute. intros Hin. inversion Hin as [|? ? ? Hin']. inversion Hin'.
  - vm_compute in Hr. discriminate.
Defined.
