(* ===== verification/MergeReport.v ===== *)
(** * Merge evidence reports (crates/prikk-store/src/patch_algebra/report)

    [analyze_merge_evidence] checks that every operation's required evidence is there and well formed,
    folds both sides, decides confluence of the folded sides and reports the outcome in terms of the
    original operations: [types.rs], [input.rs], [error.rs], [mapping.rs] and [analysis.rs]. *)

From S2P Require Import Prelude PrikkError Hash ObjectId Blob RepoPath Lifecycle Patch PatchDecode TextSpan.
From S2P Require Import PatchAlgebra ReplayOracle Fold.

(** ** Types (types.rs) *)

Inductive MergeEvidenceOutcome : Type :=
| OutConfluent | OutConflict | OutOrderedDependency | OutUnsupported | OutDeferred | OutNotConfluent | OutEvidenceFailure
| OutInvalidCandidate.
#[global] Instance MergeEvidenceOutcome_eq_dec : EqDecision MergeEvidenceOutcome.
Proof. solve_decision. Defined.

Inductive MergeEvidenceOperationKind : Type :=
| KindCreateFile | KindDeleteNode | KindEditText | KindReplaceBinary | KindRenamePath | KindChangePerm | KindCreateSymlink.

Inductive MergeEvidenceSide : Type := SideLeft | SideRight | SideCross | SideReport.

Inductive MergeEvidenceScope : Type := SealedBaseline | SealedCandidate | UnsealedCandidate.

Inductive MergeEvidenceProofPhase : Type := Classification | ReplayBothOrders | Flatness | FinalStateComparison.

Inductive MergeEvidenceReasonCode : Type :=
| ProvenConfluent | PairConflict | CodeOrderedDependency | CodeUnsupportedOperation | SameNodeTextTransformDeferred
| CodeSequenceInternalDependencyDeferred | PairReplayFailed | FinalStateMismatch | MissingRequiredEvidence
| MalformedRequiredEvidence | WrongTypeRequiredEvidence | UnreadableRequiredEvidence | InvalidUnsealedCandidate
| InsufficientUnsealedCandidateEvidence.

Record MergeEvidenceOperation : Type := mkEvidenceOperation {
  meo_operation_index : nat;
  meo_op_seq : Z;
  meo_operation_kind : MergeEvidenceOperationKind;
  meo_node_id : option NodeId;
  meo_path : option RepoPath;
}.

Record MergeEvidenceSequence : Type := mkSequence {
  ms_label : string;
  ms_operation_count : nat;
  ms_operations : list MergeEvidenceOperation;
  ms_folded_through : gmap nat nat;
}.

Record MergeEvidenceItem : Type := mkItem {
  mi_side : MergeEvidenceSide;
  mi_operation_index : option nat;
  mi_peer_operation_index : option nat;
  mi_op_seq : option Z;
  mi_peer_op_seq : option Z;
  mi_operation_kind : option MergeEvidenceOperationKind;
  mi_node_id : option NodeId;
  mi_path : option RepoPath;
  mi_witness_kind : option ConflictWitnessKind;
  mi_outcome : MergeEvidenceOutcome;
  mi_evidence_scope : option MergeEvidenceScope;
  mi_proof_phase : MergeEvidenceProofPhase;
  mi_reason_code : MergeEvidenceReasonCode;
}.

Record MergeEvidenceReport : Type := mkReport {
  mr_baseline_block_id : ObjectId;
  mr_replay_horizon : option ObjectId;
  mr_left_sequence : MergeEvidenceSequence;
  mr_right_sequence : MergeEvidenceSequence;
  mr_outcome : MergeEvidenceOutcome;
  mr_items : list MergeEvidenceItem;
}.

(** ** Inputs (input.rs) *)

Definition operation_kind (operation : DecodedPatchOperation) : MergeEvidenceOperationKind :=
  match d_kind operation with
  | DCreateFile _ _ _ _ => KindCreateFile
  | DDeleteNode _ _ _ => KindDeleteNode
  | DEditText _ _ _ _ _ _ _ _ _ => KindEditText
  | DReplaceBinary _ _ _ => KindReplaceBinary
  | DRenamePath _ _ _ => KindRenamePath
  | DChangePerm _ _ _ => KindChangePerm
  | DCreateSymlink _ _ _ => KindCreateSymlink
  end.

Definition ok {E A} (r : Result E A) : option A := match r with Ok a => Some a | Err _ => None end.

Definition operation_path (operation : DecodedPatchOperation) : option RepoPath :=
  match d_kind operation with
  | DCreateFile path _ _ _ | DDeleteNode path _ _ | DCreateSymlink path _ _ => ok (RepoPath_parse path)
  | DRenamePath _ _ new_path => ok (RepoPath_parse new_path)
  | DEditText _ _ _ _ _ _ _ _ _ | DReplaceBinary _ _ _ | DChangePerm _ _ _ => None
  end.

Definition operation_summary (operation_index : nat) (operation : DecodedPatchOperation) : MergeEvidenceOperation :=
  mkEvidenceOperation operation_index (d_op_seq operation) (operation_kind operation) (facts_node operation) (operation_path operation).

Definition sequence_summary (label : string) (operations : list DecodedPatchOperation) : MergeEvidenceSequence :=
  mkSequence label (length operations)
    ((fun '(operation_index, operation) => operation_summary operation_index operation) <$> enumerate operations) ∅.

Definition is_malformed (operation : DecodedPatchOperation) : bool :=
  match operation_facts operation with Err MalformedOperation => true | _ => false end.

Fixpoint first_malformed_from (side : MergeEvidenceSide) (index : nat) (operations : list DecodedPatchOperation)
  : option MergeEvidenceItem :=
  match operations with
  | [] => None
  | operation :: rest =>
      if is_malformed operation then
        Some (mkItem side (Some index) None (Some (d_op_seq operation)) None (Some (operation_kind operation)) None None
                (Some MalformedOperationWitness) OutInvalidCandidate (Some UnsealedCandidate) Classification
                InvalidUnsealedCandidate)
      else first_malformed_from side (S index) rest
  end.

Definition first_malformed_operation (side : MergeEvidenceSide) (operations : list DecodedPatchOperation)
  : option MergeEvidenceItem := first_malformed_from side 0 operations.

Definition malformed_unsealed_item (candidate_scope : EvidenceScope) (left right : list DecodedPatchOperation)
  : option MergeEvidenceItem :=
  if negb (bool_decide (candidate_scope = UnsealedCandidateOptional)) then None
  else or_else (first_malformed_operation SideLeft left) (first_malformed_operation SideRight right).

Definition evidence_error_scope (error : EvidenceError) : EvidenceScope :=
  match error with
  | ErrMissing scope _ _ _ | ErrWrongObjectType scope _ _ _ | ErrWrongBlobKind scope _ _ _ | ErrMalformed scope _ _ _
  | ErrUnreadable scope _ _ _ => scope
  end.

Definition is_required_evidence_error (error : EvidenceError) : bool :=
  match evidence_error_scope error with
  | SealedBaselineRequired | SealedCandidateRequired => true
  | UnsealedCandidateOptional => false
  end.

(** The derived order of [ItemSortKey]: field by field, [None] first. *)
Definition side_rank (side : MergeEvidenceSide) : Z :=
  match side with SideLeft => 0 | SideRight => 1 | SideCross => 2 | SideReport => 3 end.

Definition outcome_sort_rank (outcome : MergeEvidenceOutcome) : Z :=
  match outcome with
  | OutEvidenceFailure => 0 | OutInvalidCandidate => 1 | OutUnsupported => 2 | OutDeferred => 3 | OutConflict => 4
  | OutOrderedDependency => 5 | OutNotConfluent => 6 | OutConfluent => 7
  end.

Definition reason_rank (code : MergeEvidenceReasonCode) : Z :=
  match code with
  | ProvenConfluent => 0 | PairConflict => 1 | CodeOrderedDependency => 2 | CodeUnsupportedOperation => 3
  | SameNodeTextTransformDeferred => 4 | CodeSequenceInternalDependencyDeferred => 5 | PairReplayFailed => 6
  | FinalStateMismatch => 7 | MissingRequiredEvidence => 8 | MalformedRequiredEvidence => 9 | WrongTypeRequiredEvidence => 10
  | UnreadableRequiredEvidence => 11 | InvalidUnsealedCandidate => 12 | InsufficientUnsealedCandidateEvidence => 13
  end.

Definition scope_rank (scope : MergeEvidenceScope) : Z :=
  match scope with SealedBaseline => 0 | SealedCandidate => 1 | UnsealedCandidate => 2 end.

Definition phase_rank (phase : MergeEvidenceProofPhase) : Z :=
  match phase with Classification => 0 | ReplayBothOrders => 1 | Flatness => 2 | FinalStateComparison => 3 end.

Definition kind_rank (kind : MergeEvidenceOperationKind) : Z :=
  match kind with
  | KindCreateFile => 0 | KindDeleteNode => 1 | KindEditText => 2 | KindReplaceBinary => 3 | KindRenamePath => 4
  | KindChangePerm => 5 | KindCreateSymlink => 6
  end.

Fixpoint lex {A} (cmp : A -> A -> comparison) (a b : list A) : comparison :=
  match a, b with
  | [], [] => Eq
  | [], _ :: _ => Lt
  | _ :: _, [] => Gt
  | x :: a', y :: b' => match cmp x y with Eq => lex cmp a' b' | c => c end
  end.

(** Each field as a list of numbers, [None] as the empty one. *)
Definition item_sort_key (item : MergeEvidenceItem) : list (list Z) :=
  let opt {A} (f : A -> list Z) (o : option A) := match o with Some a => 1 :: f a | None => [] end in
  [ [side_rank (mi_side item)];
    opt (fun i => [Z.of_nat i]) (mi_operation_index item);
    opt (fun i => [Z.of_nat i]) (mi_peer_operation_index item);
    opt (fun z => [z]) (mi_op_seq item);
    opt (fun z => [z]) (mi_peer_op_seq item);
    [outcome_sort_rank (mi_outcome item)];
    [reason_rank (mi_reason_code item)];
    opt (fun s => [scope_rank s]) (mi_evidence_scope item);
    [phase_rank (mi_proof_phase item)];
    opt (fun k => [kind_rank k]) (mi_operation_kind item);
    opt (fun id => bz <$> id) (mi_node_id item);
    opt (fun p => bz <$> p) (mi_path item) ].

Definition sort_report_items (items : list MergeEvidenceItem) : list MergeEvidenceItem :=
  sort_by (fun a b => lex (lex Z.compare) (item_sort_key a) (item_sort_key b)) items.

(** ** Evidence errors (error.rs) *)

Definition scope_into (scope : EvidenceScope) : MergeEvidenceScope :=
  match scope with
  | SealedBaselineRequired => SealedBaseline
  | SealedCandidateRequired => SealedCandidate
  | UnsealedCandidateOptional => UnsealedCandidate
  end.

Definition evidence_error_node_id (error : EvidenceError) : option NodeId :=
  match error with
  | ErrMissing _ _ _ node_id => node_id
  | ErrWrongObjectType _ _ _ _ | ErrWrongBlobKind _ _ _ _ | ErrMalformed _ _ _ _ | ErrUnreadable _ _ _ _ => None
  end.

Definition evidence_error_reason_code (error : EvidenceError) (outcome : MergeEvidenceOutcome) : MergeEvidenceReasonCode :=
  if bool_decide (outcome = OutInvalidCandidate) then
    match error with
    | ErrMissing _ FactOperation _ _ => InvalidUnsealedCandidate
    | ErrMissing _ _ _ _ => InsufficientUnsealedCandidateEvidence
    | _ => InvalidUnsealedCandidate
    end
  else
    match error with
    | ErrMissing _ _ _ _ => MissingRequiredEvidence
    | ErrWrongObjectType _ _ _ _ | ErrWrongBlobKind _ _ _ _ => WrongTypeRequiredEvidence
    | ErrMalformed _ _ _ _ => MalformedRequiredEvidence
    | ErrUnreadable _ _ _ _ => UnreadableRequiredEvidence
    end.

Definition evidence_error_report (error : EvidenceError) : MergeEvidenceOutcome * list MergeEvidenceItem :=
  let scope := evidence_error_scope error in
  let outcome :=
    match scope with
    | SealedBaselineRequired | SealedCandidateRequired => OutEvidenceFailure
    | UnsealedCandidateOptional => OutInvalidCandidate
    end in
  (outcome,
   [mkItem SideReport None None None None None (evidence_error_node_id error) None None outcome (Some (scope_into scope))
      Classification (evidence_error_reason_code error outcome)]).

(** ** Results (mapping.rs) *)

Definition report_item (outcome : MergeEvidenceOutcome) (proof_phase : MergeEvidenceProofPhase)
    (reason_code : MergeEvidenceReasonCode) : MergeEvidenceItem :=
  mkItem SideReport None None None None None None None None outcome None proof_phase reason_code.

Definition malformed_operation_report (candidate_scope : EvidenceScope) : MergeEvidenceOutcome * list MergeEvidenceItem :=
  match candidate_scope with
  | UnsealedCandidateOptional =>
      (OutInvalidCandidate, [report_item OutInvalidCandidate Classification InvalidUnsealedCandidate])
  | SealedBaselineRequired | SealedCandidateRequired =>
      (OutEvidenceFailure,
       [mkItem SideReport None None None None None None None None OutEvidenceFailure (Some (scope_into candidate_scope))
          Classification MalformedRequiredEvidence])
  end.

Definition unknown_report (reason : UnknownReason) (candidate_scope : EvidenceScope)
  : MergeEvidenceOutcome * list MergeEvidenceItem :=
  let one outcome phase code := (outcome, [report_item outcome phase code]) in
  match reason with
  | MalformedOperation => malformed_operation_report candidate_scope
  | MissingCandidateEvidence => one OutInvalidCandidate Classification InsufficientUnsealedCandidateEvidence
  | SameNodeTextCommutationDeferred => one OutDeferred Classification SameNodeTextTransformDeferred
  | SequenceInternalDependencyDeferred => one OutDeferred Flatness CodeSequenceInternalDependencyDeferred
  | SymlinkDeferred | UnknownRelation => one OutUnsupported Classification CodeUnsupportedOperation
  end.

Definition pair_conflict_witness (pair_class : PairClass) : option ConflictWitness :=
  match pair_class with
  | OrderedDependency _ witness | Conflict witness | UnknownClass _ witness => Some witness
  | Independent => None
  end.

Definition witness_item (outcome : MergeEvidenceOutcome) (proof_phase : MergeEvidenceProofPhase)
    (reason_code : MergeEvidenceReasonCode) (witness : ConfluenceWitness) (conflict_witness : option ConflictWitness)
  : MergeEvidenceItem :=
  mkItem SideCross (fw_left_index witness) (fw_right_index witness) (cw_left_op_seq <$> conflict_witness)
    (cw_right_op_seq <$> conflict_witness) None (conflict_witness ≫= cw_node_id) (conflict_witness ≫= cw_path)
    (cw_kind <$> conflict_witness) outcome None proof_phase reason_code.

Definition pair_witness_report (outcome : MergeEvidenceOutcome) (reason_code : MergeEvidenceReasonCode)
    (witness : ConfluenceWitness) : MergeEvidenceOutcome * list MergeEvidenceItem :=
  let conflict_witness := fw_pair_class witness ≫= pair_conflict_witness in
  (outcome, [witness_item outcome Classification reason_code witness conflict_witness]).

Definition witness_report (witness : ConfluenceWitness) : MergeEvidenceOutcome * list MergeEvidenceItem :=
  match fw_kind witness with
  | WitnessOrderedDependency => pair_witness_report OutOrderedDependency CodeOrderedDependency witness
  | WitnessConflict => pair_witness_report OutConflict PairConflict witness
  | WitnessReplayFailure => (OutNotConfluent, [witness_item OutNotConfluent ReplayBothOrders PairReplayFailed witness None])
  | WitnessFinalStateInequality => (OutNotConfluent, [report_item OutNotConfluent FinalStateComparison FinalStateMismatch])
  end.

(** ** The analysis (analysis.rs) *)

Definition report_from_items (baseline_block_id : ObjectId) (replay_horizon : option ObjectId)
    (left_sequence right_sequence : MergeEvidenceSequence) (outcome : MergeEvidenceOutcome) (items : list MergeEvidenceItem)
  : MergeEvidenceReport :=
  mkReport baseline_block_id replay_horizon left_sequence right_sequence outcome (sort_report_items items).

Definition report_from_analysis (baseline_block_id : ObjectId) (replay_horizon : option ObjectId)
    (left_sequence right_sequence : MergeEvidenceSequence) (analysis : Result EvidenceError ConfluenceResult)
    (candidate_scope : EvidenceScope) : MergeEvidenceReport :=
  let '(outcome, items) :=
    match analysis with
    | Ok (Confluent _ _) => (OutConfluent, [report_item OutConfluent FinalStateComparison ProvenConfluent])
    | Ok (ConfluenceUnknown reason) => unknown_report reason candidate_scope
    | Ok (NotConfluent witness) => witness_report witness
    | Err error => evidence_error_report error
    end in
  report_from_items baseline_block_id replay_horizon left_sequence right_sequence outcome items.

(** Collected into a map: of two ranges with one first index the later wins. *)
Definition folded_ranges (side : FoldedSide) : gmap nat nat :=
  fold_left (fun ranges '(first, last) => if bool_decide (first = last) then ranges else <[first := last]> ranges)
    (fs_origins side) ∅.

(** The index and the sequence number of the first original operation a folded one stands for. *)
Definition to_original (index : option nat) (op_seq : option Z) (folded : FoldedSide) (original : list DecodedPatchOperation)
  : option nat * option Z :=
  match index ≫= (fun folded_index => fs_origins folded !! folded_index) with
  | None => (index, op_seq)
  | Some (first, _) => (Some first, if is_some op_seq then d_op_seq <$> original !! first else op_seq)
  end.

Definition item_to_original (left_folded right_folded : FoldedSide) (left right : list DecodedPatchOperation)
    (item : MergeEvidenceItem) : MergeEvidenceItem :=
  let '(own_folded, own) :=
    match mi_side item with
    | SideRight => (right_folded, right)
    | SideLeft | SideCross | SideReport => (left_folded, left)
    end in
  let '(operation_index, op_seq) := to_original (mi_operation_index item) (mi_op_seq item) own_folded own in
  let '(peer_operation_index, peer_op_seq) :=
    to_original (mi_peer_operation_index item) (mi_peer_op_seq item) right_folded right in
  mkItem (mi_side item) operation_index peer_operation_index op_seq peer_op_seq (mi_operation_kind item) (mi_node_id item)
    (mi_path item) (mi_witness_kind item) (mi_outcome item) (mi_evidence_scope item) (mi_proof_phase item) (mi_reason_code item).

Section analysis.
Context `{Sha256}.

Fixpoint first_required_evidence_error (baseline : NodeLifecycleState) (E : PatchAlgebraEvidence) (candidate_scope : EvidenceScope)
    (operations : list DecodedPatchOperation) : option EvidenceError :=
  match operations with
  | [] => None
  | operation :: rest =>
      match replay_operations E baseline candidate_scope [operation] with
      | Err (FailEvidence error) =>
          if is_required_evidence_error error then Some error
          else first_required_evidence_error baseline E candidate_scope rest
      | Err (FailUnknown _) | Err FailReplay | Ok _ => first_required_evidence_error baseline E candidate_scope rest
      end
  end.

Definition with_folded_through (sequence : MergeEvidenceSequence) (side : FoldedSide) : MergeEvidenceSequence :=
  mkSequence (ms_label sequence) (ms_operation_count sequence) (ms_operations sequence) (folded_ranges side).

Definition analyze_merge_evidence (baseline_block_id : ObjectId) (replay_horizon : option ObjectId)
    (baseline : NodeLifecycleState) (E : PatchAlgebraEvidence) (candidate_scope : EvidenceScope)
    (left right : list DecodedPatchOperation) : MergeEvidenceReport :=
  let left_sequence := sequence_summary "left" left in
  let right_sequence := sequence_summary "right" right in
  match first_required_evidence_error baseline E candidate_scope (left ++ right) with
  | Some error =>
      report_from_analysis baseline_block_id replay_horizon left_sequence right_sequence (Err error) candidate_scope
  | None =>
      match malformed_unsealed_item candidate_scope left right with
      | Some item =>
          report_from_items baseline_block_id replay_horizon left_sequence right_sequence OutInvalidCandidate [item]
      | None =>
          let left_folded := fold_side baseline E candidate_scope left right in
          let right_folded := fold_side baseline E candidate_scope right left in
          let report :=
            report_from_analysis baseline_block_id replay_horizon
              (with_folded_through left_sequence left_folded) (with_folded_through right_sequence right_folded)
              (check_confluence (FoldEvidence E (FoldEvidence_new left_folded right_folded)) baseline candidate_scope
                 (fs_operations left_folded) (fs_operations right_folded))
              candidate_scope in
          mkReport (mr_baseline_block_id report) (mr_replay_horizon report) (mr_left_sequence report) (mr_right_sequence report)
            (mr_outcome report)
            (sort_report_items (item_to_original left_folded right_folded left right <$> mr_items report))
      end
  end.
End analysis.
