(* ===== verification/MergeReportThms.v ===== *)
(** * Theorems about merge evidence reports

    A report says confluent exactly when the evidence is complete, the operations are well formed and
    the folded sides are confluent; sides that touch each node once then replay in both orders to one
    state.  With a folded run the report can say confluent although one side's original operations do
    not replay after the other side's ([confluent_report_may_not_execute]). *)

From S2P Require Import Prelude PrikkError Hash ObjectId Blob RepoPath Lifecycle LifecycleInv Patch PatchDecode.
From S2P Require Import TextSpan PatchAlgebra ReplayOracle CommuteThms Fold FoldThms MergeReport.

(** ** Sides that touch each node at most once are not folded *)

Definition touches_once (operations : list DecodedPatchOperation) : Prop := NoDup (op_node <$> operations).

Definition touches (id : NodeId) (items : list (nat * DecodedPatchOperation)) : nat :=
  length (filter (fun item => facts_node item.2 = Some id) items).

Lemma group_count items : forall m m' id, group_by_node m items = Some m' ->
  length (default [] (m' !! id)) = (length (default [] (m !! id)) + touches id items)%nat.
Proof.
  induction items as [|[k op] items IH]; intros m m' id; cbn [group_by_node]; [intros [= <-]; cbn; lia|].
  unfold push_index. destruct (facts_node op) as [n|] eqn:Hf; [|done]. cbn [mbind option_bind]. intros Hg.
  rewrite (IH _ _ id Hg). unfold touches. rewrite filter_cons. cbn [snd]. rewrite Hf.
  destruct (decide (Some n = Some id)) as [[= ->]|Hn].
  - rewrite lookup_insert_eq. cbn. rewrite length_app. cbn. lia.
  - rewrite lookup_insert_ne by congruence. done.
Qed.

Lemma touches_at_most_once operations id : touches_once operations -> (touches id (enumerate operations) <= 1)%nat.
Proof.
  intros Hnd. unfold touches, enumerate.
  enough (forall st, (length (filter (fun item => facts_node item.2 = Some id) (zip (seq st (length operations)) operations)) <= 1)%nat) by done.
  induction operations as [|op ops IH]; intros st; [cbn; lia|].
  cbn [length seq zip zip_with]. rewrite filter_cons. cbn [snd]. unfold touches_once in *. rewrite fmap_cons, NoDup_cons in Hnd.
  destruct Hnd as [Hnot Hnd]. specialize (IH Hnd (S st)). case_decide as Hf; [|exact IH]. cbn [length].
  enough (filter (fun item => facts_node item.2 = Some id) (zip (seq (S st) (length ops)) ops) = []) as -> by (cbn; lia).
  apply elem_of_nil_inv. intros [k o] [Ho Hin]%list_elem_of_filter. cbn in Ho. apply Hnot.
  apply facts_node_op in Hf, Ho. rewrite Hf, <- Ho. apply list_elem_of_fmap. exists o. split; [done|].
  apply list_elem_of_lookup_1 in Hin as [j Hj]. apply lookup_zip_with_Some in Hj as (a & b & [= -> ->] & _ & Hb).
  by apply list_elem_of_lookup_2 in Hb.
Qed.

Lemma fold_side_once `{Sha256} baseline E scope operations other_side : touches_once operations ->
  fold_side baseline E scope operations other_side = unfolded operations.
Proof.
  intros Honce. unfold fold_side, fold. destruct (group_by_node ∅ (enumerate operations)) as [m|] eqn:Hg; [|done].
  change (Some m ≫= ?f) with (f m). cbv beta. replace (forallb _ _) with true; [done|]. symmetry. apply forallb_forall.
  intros [id indices] Hin%list_elem_of_In%elem_of_btree_iter. apply Nat.ltb_lt. cbn [snd].
  pose proof (group_count (enumerate operations) ∅ m id Hg) as Hc. rewrite Hin, lookup_empty in Hc. cbn in Hc.
  pose proof (touches_at_most_once operations id Honce). lia.
Qed.

(** ** The outcome of a report *)

Lemma unknown_not_confluent reason scope : (unknown_report reason scope).1 <> OutConfluent.
Proof. by destruct reason, scope. Qed.

Lemma witness_not_confluent w : (witness_report w).1 <> OutConfluent.
Proof. unfold witness_report. by destruct (fw_kind w). Qed.

Lemma error_not_confluent e : (evidence_error_report e).1 <> OutConfluent.
Proof. unfold evidence_error_report. by destruct (evidence_error_scope e). Qed.

Lemma analysis_outcome block horizon ls rs analysis scope :
  mr_outcome (report_from_analysis block horizon ls rs analysis scope) = OutConfluent <-> exists n m, analysis = Ok (Confluent n m).
Proof.
  unfold report_from_analysis. destruct analysis as [[n m|w|reason]|e].
  - split; [by exists n, m|done].
  - pose proof (witness_not_confluent w). destruct (witness_report w). split; [done|]. by intros (? & ? & ?).
  - pose proof (unknown_not_confluent reason scope). destruct (unknown_report reason scope). split; [done|]. by intros (? & ? & ?).
  - pose proof (error_not_confluent e). destruct (evidence_error_report e). split; [done|]. by intros (? & ? & ?).
Qed.

Section outcome.
Context `{Sha256} (block : ObjectId) (horizon : option ObjectId) (baseline : NodeLifecycleState) (E : PatchAlgebraEvidence).
Context (scope : EvidenceScope) (left right : list DecodedPatchOperation).

Lemma confluent_outcome :
  mr_outcome (analyze_merge_evidence block horizon baseline E scope left right) = OutConfluent <->
  first_required_evidence_error baseline E scope (left ++ right) = None /\ malformed_unsealed_item scope left right = None /\
  exists n m, check_confluence
    (FoldEvidence E (FoldEvidence_new (fold_side baseline E scope left right) (fold_side baseline E scope right left))) baseline scope
    (fs_operations (fold_side baseline E scope left right)) (fs_operations (fold_side baseline E scope right left)) = Ok (Confluent n m).
Proof.
  unfold analyze_merge_evidence. destruct (first_required_evidence_error _ _ _ _) as [e|].
  { rewrite analysis_outcome. split; [by intros (? & ? & ?)|by intros []]. }
  destruct (malformed_unsealed_item scope left right) as [item|]; cbn [mr_outcome report_from_items].
  { split; [done|by intros (_ & ? & _)]. }
  rewrite analysis_outcome. split; [done|by intros (_ & _ & ?)].
Qed.
End outcome.

(** A merge evidence report says confluent exactly when no operation lacks required evidence, no
    unsealed operation is malformed, and the folded sides are confluent under the evidence of both. *)
Theorem merge_report_confluent_iff `{Sha256} block horizon baseline E scope left right :
  let left_folded := fold_side baseline E scope left right in
  let right_folded := fold_side baseline E scope right left in
  mr_outcome (analyze_merge_evidence block horizon baseline E scope left right) = OutConfluent <->
  first_required_evidence_error baseline E scope (left ++ right) = None /\ malformed_unsealed_item scope left right = None /\
  exists n m, check_confluence (FoldEvidence E (FoldEvidence_new left_folded right_folded)) baseline scope
    (fs_operations left_folded) (fs_operations right_folded) = Ok (Confluent n m).
Proof. apply confluent_outcome. Qed.

(** C29: A merge of two sides that each touch a node at most once is safe to execute when its report
    says confluent: the original operations of both sides replay, in either order, to one and the same
    state. *)
Theorem confluent_report_executable `{Sha256} block horizon baseline E scope left right :
  touches_once left -> touches_once right ->
  mr_outcome (analyze_merge_evidence block horizon baseline E scope left right) = OutConfluent ->
  exists s, replay_operations E baseline scope (left ++ right) = Ok s /\ replay_operations E baseline scope (right ++ left) = Ok s.
Proof.
  intros Hl Hr (_ & _ & n & m & Hc)%confluent_outcome. rewrite !fold_side_once in Hc by done.
  cbn [unfolded fs_operations FoldEvidence_new fs_derived_kinds] in Hc. unfold FoldEvidence_new in Hc. cbn [unfolded fs_derived_kinds] in Hc.
  rewrite (left_id_L ∅ (∪)), FoldEvidence_empty in Hc. by apply confluent_inv in Hc as (_ & _ & _ & Hs).
Qed.

(** ** A folded run that hides a mode change *)

#[local] Existing Instance hash_mod_p.

(** Evidence that knows every blob to be binary. *)
Definition witness_evidence : PatchAlgebraEvidence := {|
  baseline_text scope node_id blob_id := Missing scope FactBaselineText (Some blob_id) (Some node_id);
  evidence_blob_kind scope blob_id := Known BlobBinary;
  evidence_blob_content scope blob_id := Known (BlobBinary, []);
|}.

(** One side makes file 1 executable; the other makes it executable, undoes that, and replaces its content. *)
Definition mode_side : list DecodedPatchOperation := [mkDecoded 0 (DChangePerm (replicate 32 x01) 0 1) None].
Definition hidden_mode_side : list DecodedPatchOperation :=
  [mkDecoded 0 (DChangePerm (replicate 32 x01) 0 1) None;
   mkDecoded 1 (DChangePerm (replicate 32 x01) 1 0) None;
   mkDecoded 2 (DReplaceBinary (replicate 32 x01) (replicate 32 x09) (replicate 32 x07)) None].

(** An instance: folding can hide an operation the merge then executes.  On this input the report says confluent:
    the second side folds to one content replacement, which is independent of the first side's mode
    change.  Its original operations, which a merge adopts verbatim onto the first side's tip, do not
    replay there: the first of them expects the mode the first side has changed. *)
Example confluent_report_may_not_execute :
  mr_outcome (analyze_merge_evidence (replicate 32 x05) None witness_binary_tree witness_evidence SealedCandidateRequired
                mode_side hidden_mode_side) = OutConfluent /\
  replay_operations witness_evidence witness_binary_tree SealedCandidateRequired (mode_side ++ hidden_mode_side) = Err FailReplay.
Proof. split; vm_compute; reflexivity. Qed.

Lemma confluent_report_executable_witness :
  exists s,
    replay_operations NoPatchAlgebraEvidence witness_tree SealedCandidateRequired [witness_rename; witness_chmod] = Ok s /\
    replay_operations NoPatchAlgebraEvidence witness_tree SealedCandidateRequired [witness_chmod; witness_rename] = Ok s.
Proof.
  apply (confluent_report_executable (replicate 32 x05) None witness_tree NoPatchAlgebraEvidence SealedCandidateRequired
    [witness_rename] [witness_chmod]); [apply NoDup_singleton|apply NoDup_singleton|vm_compute; reflexivity].
Defined.
