(* ===== verification/StateRoot.v ===== *)
(** * State roots and snapshot manifests (crates/prikk-store/src/state_root.rs, snapshot.rs)

    The canonical entries of a clean state, their leaf encoding, the Merkle root over them, and the
    snapshot manifest that stores a block's entries and is checked against the block's root. *)

From S2P Require Import Prelude PrikkError Hash Utf8 Canonical ObjectId Signature Envelope Blob Block RepoPath Lifecycle ObjectStore.

(** ** Entries *)

Definition LEAF_DOMAIN : list byte := bytes_of_string "PRIKK-STATE-LEAF-v2".
Definition NODE_DOMAIN : list byte := bytes_of_string "PRIKK-STATE-NODE-v2".
Definition ROOT_DOMAIN : list byte := bytes_of_string "PRIKK-STATE-ROOT-v2".
(** [0o100644] and [0o100755]. *)
Definition REGULAR_MODE : Z := 33188.
Definition EXECUTABLE_MODE : Z := 33261.

Inductive StateRootContent : Type :=
| RootBlob (blob_id : ObjectId)
| RootSymlink (target : list byte).
#[global] Instance StateRootContent_eq_dec : EqDecision StateRootContent.
Proof. solve_decision. Defined.

Record StateRootEntry : Type := mkRootEntry {
  re_path : RepoPath;
  re_node_id : NodeId;
  re_kind : NodeKind;
  re_mode : Z;
  re_content : StateRootContent;
}.
#[global] Instance StateRootEntry_eq_dec : EqDecision StateRootEntry.
Proof. solve_decision. Defined.

Definition content_bytes (entry : StateRootEntry) : list byte :=
  match re_content entry with
  | RootBlob blob_id => blob_id
  | RootSymlink target => target
  end.

Definition validate_entry (entry : StateRootEntry) : PResult unit :=
  if NodeId_is_zero (re_node_id entry) then Err (Integrity "state-root entry node_id must be nonzero")
  else
    match re_kind entry, re_content entry with
    | (TextFile | BinaryFile), RootBlob _ =>
        if (re_mode entry =? REGULAR_MODE) || (re_mode entry =? EXECUTABLE_MODE) then Ok tt
        else Err (Integrity "state-root entry kind, content, or normalized mode is invalid")
    | SymlinkKind, RootSymlink _ =>
        if re_mode entry =? 0 then Ok tt
        else Err (Integrity "state-root entry kind, content, or normalized mode is invalid")
    | _, _ => Err (Integrity "state-root entry kind, content, or normalized mode is invalid")
    end.

(** The loop over the entries, with its set of node identities. *)
Definition validate_entry_step (node_ids : gset NodeId) (entry : StateRootEntry) : PResult (gset NodeId) :=
  let? _ := validate_entry entry in
  if bool_decide (re_node_id entry ∈ node_ids) then Err (Integrity "state-root entries contain a duplicate node_id")
  else Ok ({[re_node_id entry]} ∪ node_ids).

Definition validate_entries (entries : list StateRootEntry) : PResult unit :=
  let? _ := validate_no_path_collisions (re_path <$> entries) in
  if negb (windows_lt (fun left right => bytes_ltb (re_path left) (re_path right)) entries)
  then Err (Integrity "state-root entries are not in strict canonical path order")
  else
    let? _ := foldM validate_entry_step ∅ entries in
    Ok tt.

(** ** The leaf encoding *)

Definition state_leaf_fields (entry : StateRootEntry) : PResult (list byte) :=
  let? _ := validate_entry entry in
  let path := re_path entry in
  if 2 ^ 32 <=? zlen path then Err (Integrity "state-root path length exceeds u32")
  else
    let content := content_bytes entry in
    if 2 ^ 64 <=? zlen content then Err (Integrity "state-root content length exceeds u64")
    else
      Ok (to_be_bytes 4 (zlen path) ++ path ++ re_node_id entry ++ to_be_bytes 2 (NodeKind_code (re_kind entry))
          ++ to_be_bytes 4 (re_mode entry) ++ to_be_bytes 8 (zlen content) ++ content).

Definition state_leaf_preimage (entry : StateRootEntry) : PResult (list byte) :=
  let? fields := state_leaf_fields entry in
  Ok (LEAF_DOMAIN ++ fields).

(** [take] and [take_array]. *)
Definition take_prefix (bytes : list byte) (len : Z) : PResult (list byte * list byte) :=
  if zlen bytes <? len then Err (Integrity "state entry ends before its declared length")
  else Ok (take (Z.to_nat len) bytes, drop (Z.to_nat len) bytes).

Definition decode_state_leaf_fields (bytes : list byte) : PResult (StateRootEntry * list byte) :=
  let? '(path_len, rest) := take_prefix bytes 4 in
  let? '(path, rest) := take_prefix rest (from_be_bytes path_len) in
  if negb (from_utf8 path) then Err (Integrity "state entry path is not UTF-8")
  else
    let? path := RepoPath_parse path in
    let? '(node_id, rest) := take_prefix rest 32 in
    let? '(kind, rest) := take_prefix rest 2 in
    let? kind := NodeKind_from_code (from_be_bytes kind) in
    let? '(mode, rest) := take_prefix rest 4 in
    let? '(content_len, rest) := take_prefix rest 8 in
    let? '(content, rest) := take_prefix rest (from_be_bytes content_len) in
    let? content :=
      match kind with
      | SymlinkKind =>
          if negb (from_utf8 content) then Err (Integrity "state entry symlink target is not UTF-8") else Ok (RootSymlink content)
      | TextFile | BinaryFile =>
          if negb (bool_decide (length content = 32%nat)) then Err (Integrity "state entry Blob id is not 32 bytes")
          else Ok (RootBlob content)
      end in
    let entry := mkRootEntry path node_id kind (from_be_bytes mode) content in
    let? _ := validate_entry entry in
    Ok (entry, rest).

(** ** The root *)

Section root.
Context `{Sha256}.

Definition state_leaf_hash (entry : StateRootEntry) : PResult (list byte) :=
  let? preimage := state_leaf_preimage entry in
  Ok (sha256 preimage).

Definition node_preimage (left right : list byte) : list byte := NODE_DOMAIN ++ left ++ right.

(** One pass over [level.chunks(2)]. *)
Fixpoint next_level (level : list (list byte)) : list (list byte) :=
  match level with
  | l :: r :: rest => sha256 (node_preimage l r) :: next_level rest
  | [single] => [single]
  | [] => []
  end.

(** The [while level.len() > 1] loop; one round per element is enough ([reduce_enough]). *)
Fixpoint reduce_levels (fuel : nat) (level : list (list byte)) : PResult (list (list byte)) :=
  if (1 <? length level)%nat then
    match fuel with
    | O => Err OutOfFuel
    | S fuel' => reduce_levels fuel' (next_level level)
    end
  else Ok level.

Definition root_preimage (count : Z) (top : list byte) : list byte := ROOT_DOMAIN ++ to_be_bytes 8 count ++ top.

Definition compute_state_root (entries : list StateRootEntry) : PResult MerkleRoot :=
  let? _ := validate_entries entries in
  if 2 ^ 64 <=? zlen entries then Err (Integrity "state-root entry count exceeds u64")
  else
    match entries with
    | [] => Ok (sha256 (root_preimage 0 []))
    | _ =>
        let? level := mapM_result state_leaf_hash entries in
        let? level := reduce_levels (length level) level in
        let? top := ok_or (head level) (Integrity "non-empty state-root reduction produced no hash") in
        Ok (sha256 (root_preimage (zlen entries) top))
    end.
End root.

Definition entry_of_node (item : NodeId * LiveNode) : StateRootEntry :=
  let '(node_id, node) := item in
  match ln_content node with
  | FileContent blob_id mode => mkRootEntry (ln_path node) node_id (ln_kind node) mode (RootBlob blob_id)
  | SymlinkContent target => mkRootEntry (ln_path node) node_id (ln_kind node) 0 (RootSymlink target)
  end.

Definition entries_from_state (state : NodeLifecycleState) : PResult (list StateRootEntry) :=
  let entries := sort_by (fun left right => bytes_cmp (re_path left) (re_path right)) (entry_of_node <$> live_nodes state) in
  let? _ := validate_entries entries in
  Ok entries.

(** ** Snapshot manifests (snapshot.rs) *)

(** The 27 bytes [PRIKK-SNAPSHOT-MANIFEST-v2] and a newline. *)
Definition SNAPSHOT_MAGIC : list byte := bytes_of_string "PRIKK-SNAPSHOT-MANIFEST-v2" ++ [x0a].

Definition not_decodable (err : PrikkError) : PrikkError :=
  match err with
  | Integrity _ | InvalidName _ | NonAsciiRepoPath _ => err
  | _ => Integrity "snapshot manifest does not decode: {other}"
  end.

(** The [while !rest.is_empty()] loop; an entry takes at least one byte. *)
Fixpoint decode_manifest_entries (fuel : nat) (rest : list byte) : PResult (list StateRootEntry) :=
  match rest with
  | [] => Ok []
  | _ =>
      match fuel with
      | O => Err OutOfFuel
      | S fuel' =>
          let? '(entry, after) := map_err not_decodable (decode_state_leaf_fields rest) in
          let? entries := decode_manifest_entries fuel' after in
          Ok (entry :: entries)
      end
  end.

Definition strip_prefix (prefix bytes : list byte) : option (list byte) :=
  if bool_decide (take (length prefix) bytes = prefix) then Some (drop (length prefix) bytes) else None.

Definition SnapshotManifest_decode (bytes : list byte) : PResult (list StateRootEntry) :=
  match strip_prefix SNAPSHOT_MAGIC bytes with
  | None => Err (Integrity "snapshot manifest magic `{}` is not PRIKK-SNAPSHOT-MANIFEST-v2")
  | Some rest =>
      let? entries := decode_manifest_entries (length rest) rest in
      let? _ := map_err not_decodable (validate_entries entries) in
      Ok entries
  end.

Definition SnapshotManifest_encode (entries : list StateRootEntry) : PResult (list byte) :=
  let? _ := validate_entries entries in
  let? fields := mapM_result state_leaf_fields entries in
  Ok (SNAPSHOT_MAGIC ++ concat fields).

(** [decode_snapshot_blob] and [decode_file_content_blob_with_kind] (blob_access.rs). *)
Definition decode_snapshot_blob (canonical_payload : list byte) : PResult (list byte) :=
  let? blob := BlobPayload_decode canonical_payload in
  if negb (bool_decide (blob_kind blob = BlobSnapshot)) then Err (Integrity "snapshot reference points to a non-SNAPSHOT blob")
  else Ok (content blob).

Definition decode_file_content_blob_with_kind (canonical_payload : list byte) : PResult (NodeKind * list byte) :=
  let? blob := BlobPayload_decode canonical_payload in
  if bool_decide (blob_kind blob = BlobSnapshot) then Err (Integrity "file content reference points to a SNAPSHOT blob")
  else
    let? kind := NodeKind_from_file_blob_kind (blob_kind blob) in
    Ok (kind, content blob).

Section snapshot.
Context `{Sha256}.

Definition validate_snapshot_manifest (R : ObjectReader) (block : BlockPayload) : PResult (option (list StateRootEntry)) :=
  match snapshot_blob_ref block with
  | None => Ok None
  | Some snapshot_blob_id =>
      let? found := @read_typed R snapshot_blob_id Blob in
      let? envelope := ok_or found (Integrity "snapshot Blob {snapshot_blob_id} of Block {block_id} is missing") in
      let? bytes := decode_snapshot_blob (canonical_payload envelope) in
      let? manifest := SnapshotManifest_decode bytes in
      let? root := compute_state_root manifest in
      if negb (bool_decide (root = state_merkle_root block))
      then Err (Integrity "snapshot manifest does not recompute to its block's state root")
      else
        let? _ := for_each (fun entry =>
          match re_content entry with
          | RootBlob blob_id =>
              let? present := @has_object R blob_id Blob in
              if present then Ok tt else Err (Integrity "snapshot of Block {block_id} names Blob {blob_id}, which is missing")
          | RootSymlink _ => Ok tt
          end) manifest in
        Ok (Some manifest)
  end.

Record SnapshotFile : Type := mkSnapshotFile {
  sf_path : list byte;
  sf_node_id : NodeId;
  sf_kind : NodeKind;
  sf_mode : Z;
  sf_blob_id : ObjectId;
  sf_bytes : list byte;
}.

Definition snapshot_file (R : ObjectReader) (entry : StateRootEntry) : PResult SnapshotFile :=
  match re_content entry with
  | RootSymlink _ =>
      Err (UnsupportedObjectType "snapshot holds symlink {path}; snapshot readers support the file-level subset only")
  | RootBlob blob_id =>
      let? found := @read_typed R blob_id Blob in
      let? envelope := ok_or found (Integrity "snapshot of Block {block_id} names Blob {blob_id}, which is missing") in
      let? '(kind, bytes) := decode_file_content_blob_with_kind (canonical_payload envelope) in
      if negb (bool_decide (kind = re_kind entry)) then Err (Integrity "snapshot records {path} as {:?}, but its Blob is {blob_kind:?}")
      else Ok (mkSnapshotFile (re_path entry) (re_node_id entry) (re_kind entry) (re_mode entry) blob_id bytes)
  end.

Definition snapshot_files_from_manifest (R : ObjectReader) (manifest : list StateRootEntry) : PResult (list SnapshotFile) :=
  mapM_result (snapshot_file R) manifest.

Definition load_block_snapshot (R : ObjectReader) (block : BlockPayload) : PResult (option (list SnapshotFile)) :=
  let? manifest := validate_snapshot_manifest R block in
  match manifest with
  | None => Ok None
  | Some manifest => let? files := snapshot_files_from_manifest R manifest in Ok (Some files)
  end.

(** An object store as a checkpoint uses it: a state with its reader and its write. *)
Class CheckpointStore (S : Type) : Type := {
  cs_reader : S -> ObjectReader;
  cs_write : S -> ObjectEnvelope -> PResult (ObjectId * S);
}.

#[global] Instance MemoryCheckpointStore : CheckpointStore MemoryObjectStore := {|
  cs_reader := memory_reader;
  cs_write := memory_write_object;
|}.

Section checkpoint.
Context {S : Type} `{CheckpointStore S} (edited_text : NodeId -> option (list byte)).

(** One entry: store the text its Blob names when the store lacks it. *)
Definition checkpoint_entry (store : S) (entry : StateRootEntry) : PResult S :=
  match re_content entry with
  | RootSymlink _ => Ok store
  | RootBlob blob_id =>
      let? present := @has_object (cs_reader store) blob_id Blob in
      if present then Ok store
      else
        let? bytes :=
          match re_kind entry with
          | TextFile => ok_or (edited_text (re_node_id entry))
              (Integrity "checkpoint for {path}: Blob {blob_id} is not stored and replay holds no text for its node")
          | BinaryFile | SymlinkKind => Err (Integrity "checkpoint for {path}: {:?} Blob {blob_id} is not stored")
          end in
        let? payload := to_canonical_bytes (BlobPayload_new BlobText bytes) in
        let envelope := unsigned Blob 1 payload in
        if negb (bool_decide (object_id envelope = blob_id))
        then Err (Integrity "checkpoint content for {path} hashes to Blob {actual}, but its state entry names {blob_id}")
        else
          let? '(_, store) := cs_write store envelope in
          Ok store
  end.

Definition write_checkpoint_snapshot (store : S) (entries : list StateRootEntry) : PResult (ObjectId * S) :=
  let? store := foldM checkpoint_entry store entries in
  let? content := SnapshotManifest_encode entries in
  let? payload := to_canonical_bytes (BlobPayload_new BlobSnapshot content) in
  cs_write store (unsigned Blob 1 payload).
End checkpoint.
End snapshot.
