(* ===== verification/StateRootThms.v ===== *)
(** * Theorems about state roots and snapshots

    The leaf encoding and the snapshot manifest are exact, a state root commits to its entries up to a
    collision of the hashes that build it, a state's root identifies its live nodes, and a checkpoint
    that was written validates against its block. *)

From S2P Require Import Prelude PrikkError Hash Utf8 Canonical ObjectId Signature Envelope Blob Block RepoPath Lifecycle LifecycleInv.
From S2P Require Import ObjectStore StateRoot.

(** The invariants of the Rust types: a parsed path, a 32-byte identity, a [u32] mode, a UTF-8 target. *)
Record entry_typed (e : StateRootEntry) : Prop := {
  et_path : valid_path (re_path e);
  et_node : length (re_node_id e) = 32%nat;
  et_mode : u32 (re_mode e);
  et_content : match re_content e with
               | RootBlob b => length b = 32%nat
               | RootSymlink t => rust_string t /\ zlen t < 2 ^ 64
               end;
}.

(** ** The leaf encoding *)

Lemma take_prefix_app a r n : zlen a = n -> take_prefix (a ++ r) n = Ok (a, r).
Proof.
  intros <-. unfold take_prefix, zlen. destruct (Z.ltb_spec (Z.of_nat (length (a ++ r))) (Z.of_nat (length a))) as [Hl|_].
  { rewrite length_app in Hl. lia. }
  by rewrite Nat2Z.id, take_app_length, drop_app_length.
Qed.

Lemma take_prefix_inv bs n a r : 0 <= n -> take_prefix bs n = Ok (a, r) -> bs = a ++ r /\ zlen a = n.
Proof.
  unfold take_prefix, zlen. intros Hn. destruct (Z.ltb_spec (Z.of_nat (length bs)) n) as [|Hl]; [done|]. intros [= <- <-].
  rewrite take_drop. split; [done|]. rewrite length_take. lia.
Qed.

Lemma typed_path_len e : entry_typed e -> zlen (re_path e) < 2 ^ 32.
Proof. intros [Hp _ _ _]. apply valid_path_len in Hp. unfold zlen, MAX_TOTAL_LEN in *. lia. Qed.

Lemma typed_content_len e : entry_typed e -> zlen (content_bytes e) < 2 ^ 64.
Proof. intros [_ _ _ Hc]. unfold content_bytes. destruct (re_content e) as [b|t]; [|by destruct Hc]. unfold zlen. lia. Qed.

Definition leaf_bytes (e : StateRootEntry) : list byte :=
  to_be_bytes 4 (zlen (re_path e)) ++ re_path e ++ re_node_id e ++ to_be_bytes 2 (NodeKind_code (re_kind e))
  ++ to_be_bytes 4 (re_mode e) ++ to_be_bytes 8 (zlen (content_bytes e)) ++ content_bytes e.

Lemma leaf_fields_eq e : entry_typed e -> validate_entry e = Ok tt -> state_leaf_fields e = Ok (leaf_bytes e).
Proof.
  intros Ht Hv. unfold state_leaf_fields. rewrite Hv. pose proof (typed_path_len e Ht). pose proof (typed_content_len e Ht).
  destruct (Z.leb_spec (2 ^ 32) (zlen (re_path e))); [lia|]. destruct (Z.leb_spec (2 ^ 64) (zlen (content_bytes e))); [lia|]. done.
Qed.

Lemma validate_entry_shape e : validate_entry e = Ok tt ->
  match re_kind e, re_content e with
  | (TextFile | BinaryFile), RootBlob _ => True
  | SymlinkKind, RootSymlink _ => re_mode e = 0
  | _, _ => False
  end.
Proof. unfold validate_entry. repeat case_match; try done. intros _. lia. Qed.

Lemma leaf_decodes e rest : entry_typed e -> validate_entry e = Ok tt ->
  decode_state_leaf_fields (leaf_bytes e ++ rest) = Ok (e, rest).
Proof.
  intros Ht Hv. pose proof (typed_path_len e Ht). pose proof (typed_content_len e Ht). pose proof (zlen_nonneg (re_path e)).
  pose proof (zlen_nonneg (content_bytes e)). pose proof (validate_entry_shape e Hv) as Hs. destruct Ht as [Hp Hn [Hm1 Hm2] Hc].
  unfold decode_state_leaf_fields, leaf_bytes. rewrite <- !(assoc_L (++)).
  rewrite take_prefix_app by apply zlen_to_be_bytes. rewrite from_to_be_bytes_small by (cbn; lia).
  rewrite take_prefix_app by done. rewrite (valid_path_rust_string _ Hp). cbn [negb]. rewrite RepoPath_parse_valid by done.
  rewrite take_prefix_app by (unfold zlen; lia). rewrite take_prefix_app by apply zlen_to_be_bytes.
  rewrite from_to_be_bytes_small by (pose proof (NodeKind_code_range (re_kind e)); unfold u16 in *; cbn; lia).
  rewrite NodeKind_from_to_code. rewrite take_prefix_app by apply zlen_to_be_bytes.
  rewrite take_prefix_app by apply zlen_to_be_bytes. rewrite from_to_be_bytes_small by (cbn; lia).
  rewrite take_prefix_app by done. rewrite from_to_be_bytes_small by (cbn; lia).
  destruct e as [p id k m c]. unfold content_bytes in *. cbn [re_path re_node_id re_kind re_mode re_content] in *.
  destruct k, c as [b|t]; try done; [| |destruct Hc as [Hc _]; rewrite Hc].
  1,2: rewrite bool_decide_eq_true_2 by done. all: cbn [negb]; by rewrite Hv.
Qed.

Lemma from_be_nonneg bs : 0 <= from_be_bytes bs.
Proof. apply from_be_bytes_range. Qed.

Lemma be_bytes_canonical n bs : zlen bs = Z.of_nat n -> to_be_bytes n (from_be_bytes bs) = bs.
Proof. intros Hl. apply to_from_be_bytes_len. unfold zlen in Hl. lia. Qed.

Lemma be_bytes_below n bs : zlen bs = Z.of_nat n -> from_be_bytes bs < 256 ^ Z.of_nat n.
Proof. intros <-. apply from_be_bytes_range. Qed.

Lemma decode_leaf_inv bs e rest : decode_state_leaf_fields bs = Ok (e, rest) ->
  entry_typed e /\ validate_entry e = Ok tt /\ bs = leaf_bytes e ++ rest.
Proof.
  unfold decode_state_leaf_fields. intros Hd.
  destruct (take_prefix bs 4) as [[pl r1]|] eqn:H1; [|done]. apply take_prefix_inv in H1 as [-> Hpl]; [|lia].
  destruct (take_prefix r1 _) as [[p r2]|] eqn:H2; [|done]. apply take_prefix_inv in H2 as [-> Hp]; [|apply from_be_nonneg].
  destruct (from_utf8 p) eqn:Hu; cbn [negb] in Hd; [|done].
  destruct (RepoPath_parse p) as [p'|] eqn:H3; [|done]. apply RepoPath_parse_inv in H3 as [-> Hvp].
  destruct (take_prefix r2 32) as [[id r3]|] eqn:H4; [|done]. apply take_prefix_inv in H4 as [-> Hid]; [|lia].
  destruct (take_prefix r3 2) as [[kb r4]|] eqn:H5; [|done]. apply take_prefix_inv in H5 as [-> Hkb]; [|lia].
  destruct (NodeKind_from_code (from_be_bytes kb)) as [k|] eqn:Hk; [|done]. apply NodeKind_from_code_inv in Hk.
  destruct (take_prefix r4 4) as [[mb r5]|] eqn:H6; [|done]. apply take_prefix_inv in H6 as [-> Hmb]; [|lia].
  destruct (take_prefix r5 8) as [[cl r6]|] eqn:H7; [|done]. apply take_prefix_inv in H7 as [-> Hcl]; [|lia].
  destruct (take_prefix r6 _) as [[c r7]|] eqn:H8; [|done]. apply take_prefix_inv in H8 as [-> Hc]; [|apply from_be_nonneg].
  destruct (match k with SymlinkKind => _ | _ => _ end) as [content|] eqn:Hcont; [|done].
  destruct (validate_entry _) as [[]|] eqn:Hv; [|done]. injection Hd as <- <-.
  assert (Hcb : content_bytes (mkRootEntry p id k (from_be_bytes mb) content) = c).
  { unfold content_bytes. cbn. destruct k; destruct (negb _) in Hcont; by simplify_eq. }
  split; [|split; [done|]].
  - split; cbn; [done|unfold zlen in Hid; lia|split; [apply from_be_nonneg|apply (be_bytes_below 4 mb Hmb)]|].
    pose proof (be_bytes_below 8 cl Hcl) as Hb. rewrite <- Hc in Hb.
    destruct k; destruct (negb _) eqn:Hx in Hcont; try done; apply negb_false_iff in Hx; injection Hcont as <-.
    1,2: by apply bool_decide_eq_true in Hx. done.
  - unfold leaf_bytes. rewrite Hcb. cbn [re_path re_node_id re_kind re_mode]. rewrite Hp, Hc, <- Hk.
    rewrite !be_bytes_canonical by done. by rewrite <- !(assoc_L (++)).
Qed.

Lemma leaf_bytes_inj e1 e2 : entry_typed e1 -> entry_typed e2 -> validate_entry e1 = Ok tt -> validate_entry e2 = Ok tt ->
  leaf_bytes e1 = leaf_bytes e2 -> e1 = e2.
Proof.
  intros T1 T2 V1 V2 He. pose proof (leaf_decodes e1 [] T1 V1) as H1. pose proof (leaf_decodes e2 [] T2 V2) as H2.
  rewrite He in H1. congruence.
Qed.

(** ** Valid entry lists *)

Lemma validate_steps entries ids ids' : foldM validate_entry_step ids entries = Ok ids' ->
  Forall (fun e => validate_entry e = Ok tt) entries /\ NoDup (re_node_id <$> entries).
Proof.
  revert ids. enough (forall ids, foldM validate_entry_step ids entries = Ok ids' ->
    Forall (fun e => validate_entry e = Ok tt) entries /\ NoDup (re_node_id <$> entries) /\
    Forall (fun e => re_node_id e ∉ ids) entries) as Hx by (intros ids Hf; destruct (Hx ids Hf) as (? & ? & _); done).
  induction entries as [|e es IH]; intros ids; cbn [foldM]; [repeat constructor|]. unfold validate_entry_step at 1.
  destruct (validate_entry e) as [[]|] eqn:Hv; [|done]. case_bool_decide as Hin; [done|]. intros Hf. destruct (IH _ Hf) as (H1 & H2 & H3).
  split; [by constructor|]. rewrite fmap_cons, NoDup_cons. split; [split; [|done]|].
  - intros (e' & He & Hin')%list_elem_of_fmap. rewrite Forall_forall in H3. apply (H3 e' Hin'). rewrite He. set_solver.
  - constructor; [done|]. eapply Forall_impl; [exact H3|]. cbn. set_solver.
Qed.

Lemma validate_entries_inv entries : validate_entries entries = Ok tt ->
  Forall (fun e => validate_entry e = Ok tt) entries /\ NoDup (re_node_id <$> entries) /\
  windows_lt (fun l r => bytes_ltb (re_path l) (re_path r)) entries = true.
Proof.
  unfold validate_entries. destruct (validate_no_path_collisions _) as [[]|]; [|done].
  destruct (windows_lt _ entries); cbn [negb]; [|done]. destruct (foldM validate_entry_step ∅ entries) as [ids|] eqn:Hf; [|done].
  intros _. apply validate_steps in Hf as [H1 H2]. done.
Qed.

Lemma mapM_fields entries : Forall entry_typed entries -> Forall (fun e => validate_entry e = Ok tt) entries ->
  mapM_result state_leaf_fields entries = Ok (leaf_bytes <$> entries).
Proof.
  induction 1 as [|e es He _ IH]; [done|]. intros [Hv Hvs]%Forall_cons. cbn [mapM_result].
  by rewrite (leaf_fields_eq e He Hv), (IH Hvs).
Qed.

Section root.
Context `{Sha256}.

Definition leaf_preimage (e : StateRootEntry) : list byte := LEAF_DOMAIN ++ leaf_bytes e.

Lemma mapM_leaf_hash entries : Forall entry_typed entries -> Forall (fun e => validate_entry e = Ok tt) entries ->
  mapM_result state_leaf_hash entries = Ok ((fun e => sha256 (leaf_preimage e)) <$> entries).
Proof.
  induction 1 as [|e es He _ IH]; [done|]. intros [Hv Hvs]%Forall_cons. cbn [mapM_result].
  unfold state_leaf_hash at 1, state_leaf_preimage. by rewrite (leaf_fields_eq e He Hv), (IH Hvs).
Qed.

(** ** The Merkle reduction *)

Lemma next_level_length level : (length (next_level level) <= length level)%nat /\
  ((1 < length level)%nat -> (1 <= length (next_level level) < length level)%nat).
Proof.
  enough (forall n level, (length level <= n)%nat -> (length (next_level level) <= length level)%nat /\
    ((1 < length level)%nat -> (1 <= length (next_level level) < length level)%nat)) as Hn by (by apply (Hn (length level))).
  induction n as [|n IH]; intros [|l [|r rest]] Hl; cbn in *; try lia. destruct (IH rest) as [H1 _]; [lia|]. lia.
Qed.

Lemma reduce_enough fuel : forall level, (length level <= fuel)%nat -> level <> [] ->
  exists top, reduce_levels fuel level = Ok [top].
Proof.
  induction fuel as [|fuel IH]; intros level Hl Hne.
  { destruct level; [done|cbn in Hl; lia]. }
  cbn [reduce_levels]. destruct (Nat.ltb_spec 1 (length level)) as [H1|H1].
  - pose proof (next_level_length level) as [_ Hn]. specialize (Hn H1). apply IH; [lia|].
    destruct (next_level level); [cbn in Hn; lia|done].
  - destruct level as [|top [|? ?]]; [done|by exists top|cbn in H1; lia].
Qed.

(** The preimages one pass hashes, and those of the whole reduction. *)
Fixpoint level_inputs (level : list (list byte)) : list (list byte) :=
  match level with
  | l :: r :: rest => node_preimage l r :: level_inputs rest
  | _ => []
  end.

Fixpoint reduce_inputs (fuel : nat) (level : list (list byte)) : list (list byte) :=
  if (1 <? length level)%nat then
    match fuel with
    | O => []
    | S fuel' => level_inputs level ++ reduce_inputs fuel' (next_level level)
    end
  else [].

(** Everything a state root hashes. *)
Definition root_inputs (entries : list StateRootEntry) : list (list byte) :=
  let level := (fun e => sha256 (leaf_preimage e)) <$> entries in
  (leaf_preimage <$> entries) ++ reduce_inputs (length level) level ++
  [root_preimage (zlen entries) (default [] (match reduce_levels (length level) level with Ok l => head l | Err _ => None end))].

(** A collision between two lists of hashed inputs. *)
Definition collides (xs ys : list (list byte)) : Prop := exists x y, x ∈ xs /\ y ∈ ys /\ sha256_collision x y.

Lemma collides_app_l xs xs' ys ys' : collides xs ys -> collides (xs ++ xs') (ys ++ ys').
Proof. intros (x & y & Hx & Hy & Hc). exists x, y. rewrite !elem_of_app. auto. Qed.
Lemma collides_app_r xs xs' ys ys' : collides xs' ys' -> collides (xs ++ xs') (ys ++ ys').
Proof. intros (x & y & Hx & Hy & Hc). exists x, y. rewrite !elem_of_app. auto. Qed.
Lemma collides_cons x y xs ys : sha256_collision x y \/ collides xs ys -> collides (x :: xs) (y :: ys).
Proof.
  intros [Hc|(a & b & Ha & Hb & Hc)]; [exists x, y; split_and!; [left|left|done]|].
  exists a, b. split_and!; [by right|by right|done].
Qed.

Abbreviation digests := (Forall (fun h : list byte => length h = 32%nat)).

Lemma next_level_digests level : digests level -> digests (next_level level).
Proof.
  enough (forall n level, (length level <= n)%nat -> digests level -> digests (next_level level)) as Hn by (by apply (Hn (length level))).
  induction n as [|n IH]; intros [|l [|r rest]] Hl Hd; cbn in *; try done; try lia.
  apply Forall_cons in Hd as [_ [_ Hd]%Forall_cons]. constructor; [apply sha256_length|]. apply IH; [lia|done].
Qed.

Lemma node_preimage_inj l r l' r' : length l = 32%nat -> length l' = 32%nat ->
  node_preimage l r = node_preimage l' r' -> l = l' /\ r = r'.
Proof. unfold node_preimage. intros Hl Hl' He%(inj (app NODE_DOMAIN)). apply app_inj_1 in He; [done|lia]. Qed.

Lemma next_level_binds : forall n l1 l2, (length l1 <= n)%nat -> length l1 = length l2 -> digests l1 -> digests l2 ->
  next_level l1 = next_level l2 -> l1 = l2 \/ collides (level_inputs l1) (level_inputs l2).
Proof.
  induction n as [|n IH]; intros [|a1 [|b1 r1]] [|a2 [|b2 r2]] Hn Hl D1 D2 He; cbn in Hn, Hl; try lia; try (by left); try (by cbn in He; left).
  cbn [next_level level_inputs] in *. injection He as Hh Ht.
  apply Forall_cons in D1 as [A1 [B1 D1]%Forall_cons]. apply Forall_cons in D2 as [A2 [B2 D2]%Forall_cons].
  destruct (sha256_inj_or_collision _ _ Hh) as [Heq|Hc]; [|right; by apply collides_cons; left].
  apply node_preimage_inj in Heq as [-> ->]; [|done|done].
  destruct (IH r1 r2 ltac:(lia) ltac:(lia) D1 D2 Ht) as [->|Hc]; [by left|right; by apply collides_cons; right].
Qed.

Lemma reduce_binds fuel : forall l1 l2 t, length l1 = length l2 -> digests l1 -> digests l2 ->
  reduce_levels fuel l1 = Ok t -> reduce_levels fuel l2 = Ok t -> l1 = l2 \/ collides (reduce_inputs fuel l1) (reduce_inputs fuel l2).
Proof.
  induction fuel as [|fuel IH]; intros l1 l2 t Hl D1 D2; cbn [reduce_levels reduce_inputs]; rewrite <- Hl.
  { destruct (1 <? length l1)%nat; [done|]. intros [= <-] [= <-]. by left. }
  destruct (1 <? length l1)%nat; [|intros [= <-] [= <-]; by left]. intros R1 R2.
  assert (Hnl : forall n a b, (length a <= n)%nat -> length a = length b -> length (next_level a) = length (next_level b)).
  { induction n as [|n IHn]; intros [|x [|y a]] [|x' [|y' b]] Hn Hab; cbn in *; try lia. f_equal. apply IHn; lia. }
  destruct (IH _ _ t (Hnl (length l1) l1 l2 ltac:(done) Hl) (next_level_digests l1 D1) (next_level_digests l2 D2) R1 R2) as [He|Hc].
  - destruct (next_level_binds (length l1) l1 l2 ltac:(done) Hl D1 D2 He) as [->|Hc]; [by left|right; by apply collides_app_l].
  - right. by apply collides_app_r.
Qed.

Lemma leaf_hashes_bind e1 : forall e2, length e1 = length e2 -> Forall entry_typed e1 -> Forall entry_typed e2 ->
  Forall (fun e => validate_entry e = Ok tt) e1 -> Forall (fun e => validate_entry e = Ok tt) e2 ->
  (fun e => sha256 (leaf_preimage e)) <$> e1 = (fun e => sha256 (leaf_preimage e)) <$> e2 ->
  e1 = e2 \/ collides (leaf_preimage <$> e1) (leaf_preimage <$> e2).
Proof.
  induction e1 as [|a e1 IH]; intros [|b e2] Hl T1 T2 V1 V2 He; cbn in Hl; try done; [by left|]. rewrite !fmap_cons in *. injection He as Hh Ht.
  apply Forall_cons in T1 as [Ta T1]. apply Forall_cons in T2 as [Tb T2]. apply Forall_cons in V1 as [Va V1]. apply Forall_cons in V2 as [Vb V2].
  destruct (sha256_inj_or_collision _ _ Hh) as [Heq|Hc]; [|right; by apply collides_cons; left].
  unfold leaf_preimage in Heq. apply (inj (app LEAF_DOMAIN)) in Heq. apply leaf_bytes_inj in Heq as ->; [|done..].
  destruct (IH e2 ltac:(lia) T1 T2 V1 V2 Ht) as [->|Hc]; [by left|right; by apply collides_cons; right].
Qed.

(** A valid list of entries has a root, computed as [root_inputs] says. *)
Lemma compute_state_root_eq entries : Forall entry_typed entries -> zlen entries < 2 ^ 64 -> validate_entries entries = Ok tt ->
  compute_state_root entries = Ok (sha256 (root_preimage (zlen entries)
    (default [] (match reduce_levels (length entries) ((fun e => sha256 (leaf_preimage e)) <$> entries) with Ok l => head l | Err _ => None end)))).
Proof.
  intros Ht Hlen Hv. unfold compute_state_root. rewrite Hv. destruct (Z.leb_spec (2 ^ 64) (zlen entries)); [lia|].
  apply validate_entries_inv in Hv as (Hv & _). destruct entries as [|e es]; [done|].
  set (entries := e :: es) in *. rewrite (mapM_leaf_hash entries Ht Hv). set (level := _ <$> entries).
  assert (Hl : length level = length entries) by apply length_fmap. rewrite Hl.
  destruct (reduce_enough (length entries) level) as [top ->]; [lia|done|]. done.
Qed.

Lemma state_root_binds e1 e2 r : Forall entry_typed e1 -> Forall entry_typed e2 -> zlen e1 < 2 ^ 64 -> zlen e2 < 2 ^ 64 ->
  compute_state_root e1 = Ok r -> compute_state_root e2 = Ok r -> e1 = e2 \/ collides (root_inputs e1) (root_inputs e2).
Proof.
  intros T1 T2 L1 L2 R1 R2.
  assert (V1 : validate_entries e1 = Ok tt) by (unfold compute_state_root in R1; by destruct (validate_entries e1) as [[]|]).
  assert (V2 : validate_entries e2 = Ok tt) by (unfold compute_state_root in R2; by destruct (validate_entries e2) as [[]|]).
  rewrite (compute_state_root_eq e1 T1 L1 V1) in R1. rewrite (compute_state_root_eq e2 T2 L2 V2) in R2. injection R1 as R1. injection R2 as R2.
  unfold root_inputs. rewrite !length_fmap. set (lv1 := _ <$> e1) in *. set (lv2 := _ <$> e2) in *.
  rewrite <- R2 in R1. destruct (sha256_inj_or_collision _ _ R1) as [Heq|Hc].
  2: { right. apply collides_app_r, collides_app_r. eexists _, _. split_and!; [by apply list_elem_of_singleton|by apply list_elem_of_singleton|done]. }
  unfold root_preimage in Heq. apply (inj (app ROOT_DOMAIN)) in Heq. apply app_inj_1 in Heq as [Hcount Htop]; [|by rewrite !length_to_be_bytes].
  apply to_be_bytes_inj in Hcount; [|pose proof (zlen_nonneg e1); cbn; lia|pose proof (zlen_nonneg e2); cbn; lia].
  assert (Hlen : length e1 = length e2) by (unfold zlen in Hcount; lia). rewrite <- Hlen in *.
  destruct (decide (e1 = [])) as [->|Hne]; [left; by destruct e2|].
  assert (H1 : length lv1 = length e1) by apply length_fmap. assert (H2 : length lv2 = length e1) by (unfold lv2; rewrite length_fmap; lia).
  destruct (reduce_enough (length e1) lv1) as [t1 E1]; [lia|by destruct e1|]. destruct (reduce_enough (length e1) lv2) as [t2 E2]; [lia|by destruct e2; destruct e1|].
  rewrite E1, E2 in Htop. cbn in Htop. subst t2.
  assert (D : forall es, digests ((fun e => sha256 (leaf_preimage e)) <$> es)).
  { intros es. apply Forall_fmap, Forall_forall. intros e _. apply sha256_length. }
  destruct (reduce_binds (length e1) lv1 lv2 [t1]) as [He|Hc]; [lia|apply D|apply D|done|done| |right; by apply collides_app_r, collides_app_l].
  apply validate_entries_inv in V1 as (V1 & _). apply validate_entries_inv in V2 as (V2 & _).
  destruct (leaf_hashes_bind e1 e2 Hlen T1 T2 V1 V2 He) as [->|Hc]; [by left|right; by apply collides_app_l].
Qed.
End root.

(** ** The entries of a state *)

Definition state_typed (s : NodeLifecycleState) : Prop :=
  forall id n, live_by_id s !! id = Some n -> entry_typed (entry_of_node (id, n)).

#[global] Instance entry_of_node_inj : Inj (=) (=) entry_of_node.
Proof.
  intros [id1 [p1 k1 c1]] [id2 [p2 k2 c2]]. unfold entry_of_node. cbn [ln_content ln_path ln_kind].
  destruct c1, c2; intros He; by simplify_eq.
Qed.

Lemma entries_from_state_perm s es : entries_from_state s = Ok es ->
  es ≡ₚ entry_of_node <$> live_nodes s /\ validate_entries es = Ok tt.
Proof.
  unfold entries_from_state. destruct (validate_entries _) as [[]|] eqn:Hv; [|done]. intros [= <-]. split; [apply sort_by_perm|done].
Qed.

Lemma elem_of_entries s es id n : entries_from_state s = Ok es -> entry_of_node (id, n) ∈ es <-> live_by_id s !! id = Some n.
Proof.
  intros [Hp _]%entries_from_state_perm. rewrite Hp, list_elem_of_fmap. unfold live_nodes. split.
  - intros ([id' n'] & He & Hin). apply (inj entry_of_node) in He as [= -> ->]. by apply elem_of_btree_iter.
  - intros Hl. exists (id, n). split; [done|]. by apply elem_of_btree_iter.
Qed.

Lemma entries_typed s es : state_typed s -> entries_from_state s = Ok es -> Forall entry_typed es.
Proof.
  intros Ht [Hp _]%entries_from_state_perm. rewrite Hp. apply Forall_fmap, Forall_forall. intros [id n] Hin.
  apply Ht. by apply elem_of_btree_iter.
Qed.

Lemma entries_count s es : entries_from_state s = Ok es -> zlen es = Z.of_nat (size (live_by_id s)).
Proof.
  intros [Hp _]%entries_from_state_perm. unfold zlen. rewrite Hp, length_fmap. unfold live_nodes, btree_iter.
  by rewrite (Permutation_length (sort_by_perm _ _)), length_map_to_list.
Qed.

Lemma entries_determine_live s1 s2 es : entries_from_state s1 = Ok es -> entries_from_state s2 = Ok es -> live_by_id s1 = live_by_id s2.
Proof.
  intros H1 H2. apply map_eq. intros id. apply option_eq. intros n.
  by rewrite <- (elem_of_entries s1 es id n H1), (elem_of_entries s2 es id n H2).
Qed.

(** ** Manifests *)

Lemma leaf_bytes_nonempty e : exists b r, leaf_bytes e = b :: r.
Proof.
  unfold leaf_bytes. pose proof (length_to_be_bytes 4 (zlen (re_path e))) as Hl.
  destruct (to_be_bytes 4 (zlen (re_path e))) as [|b r]; [done|]. by eexists b, _.
Qed.

Lemma manifest_entries_decode entries : forall fuel, Forall entry_typed entries -> Forall (fun e => validate_entry e = Ok tt) entries ->
  (length (concat (leaf_bytes <$> entries)) <= fuel)%nat -> decode_manifest_entries fuel (concat (leaf_bytes <$> entries)) = Ok entries.
Proof.
  induction entries as [|e es IH]; intros fuel Ht Hv Hf; cbn in Hf |- *; [by destruct fuel|].
  apply Forall_cons in Ht as [Te Ht]. apply Forall_cons in Hv as [Ve Hv].
  pose proof (leaf_decodes e (concat (leaf_bytes <$> es)) Te Ve) as Hd. rewrite length_app in Hf.
  destruct (leaf_bytes_nonempty e) as (b & r & Hb). rewrite Hb in *. cbn [app length] in *. destruct fuel as [|fuel]; [lia|].
  cbn [decode_manifest_entries]. rewrite Hd. cbn [map_err]. rewrite IH; [done|done|done|lia].
Qed.

Lemma manifest_entries_inv fuel : forall rest entries, decode_manifest_entries fuel rest = Ok entries ->
  rest = concat (leaf_bytes <$> entries) /\ Forall entry_typed entries.
Proof.
  induction fuel as [|fuel IH]; intros [|b rest] entries; cbn [decode_manifest_entries]; try (by intros [= <-]).
  destruct (decode_state_leaf_fields (b :: rest)) as [[e after]|] eqn:Hd; cbn [map_err]; [|done].
  destruct (decode_manifest_entries fuel after) as [es|] eqn:Hr; [|done]. intros [= <-].
  apply decode_leaf_inv in Hd as (Ht & _ & ->). apply IH in Hr as [-> Hes]. split; [done|by constructor].
Qed.

Lemma strip_prefix_app p r : strip_prefix p (p ++ r) = Some r.
Proof. unfold strip_prefix. rewrite take_app_length, drop_app_length. by rewrite bool_decide_eq_true_2. Qed.

Lemma strip_prefix_inv p bs r : strip_prefix p bs = Some r -> bs = p ++ r.
Proof. unfold strip_prefix. case_bool_decide as Hp; [|done]. intros [= <-]. rewrite <- Hp at 1. by rewrite take_drop. Qed.

Lemma manifest_encode_inv entries bytes : Forall entry_typed entries -> SnapshotManifest_encode entries = Ok bytes ->
  validate_entries entries = Ok tt /\ bytes = SNAPSHOT_MAGIC ++ concat (leaf_bytes <$> entries).
Proof.
  intros Ht. unfold SnapshotManifest_encode. destruct (validate_entries entries) as [[]|] eqn:Hv; [|done].
  apply validate_entries_inv in Hv as (Hv & _). rewrite (mapM_fields entries Ht Hv). by intros [= <-].
Qed.

Lemma manifest_roundtrip entries bytes : Forall entry_typed entries -> SnapshotManifest_encode entries = Ok bytes ->
  SnapshotManifest_decode bytes = Ok entries.
Proof.
  intros Ht [Hv ->]%manifest_encode_inv; [|done]. unfold SnapshotManifest_decode. rewrite strip_prefix_app.
  pose proof Hv as (Hvs & _)%validate_entries_inv. rewrite manifest_entries_decode by done. by rewrite Hv.
Qed.

Lemma manifest_canonical entries bytes : SnapshotManifest_decode bytes = Ok entries ->
  SnapshotManifest_encode entries = Ok bytes /\ Forall entry_typed entries.
Proof.
  unfold SnapshotManifest_decode. destruct (strip_prefix SNAPSHOT_MAGIC bytes) as [rest|] eqn:Hs; [|done].
  apply strip_prefix_inv in Hs as ->. destruct (decode_manifest_entries _ rest) as [es|] eqn:Hd; [|done].
  destruct (validate_entries es) as [[]|] eqn:Hv; cbn [map_err]; [|done]. intros [= ->]. apply manifest_entries_inv in Hd as [-> Ht].
  split; [|done]. unfold SnapshotManifest_encode. rewrite Hv. apply validate_entries_inv in Hv as (Hv & _). by rewrite mapM_fields.
Qed.

(** ** Checkpoints *)

Lemma blob_payload_length kind bytes payload : to_canonical_bytes (BlobPayload_new kind bytes) = Ok payload -> zlen payload = 43 + zlen bytes.
Proof.
  unfold to_canonical_bytes. rewrite Blob_encode_fields by done. rewrite write_fields_new by apply Blob_tags. intros <-%Ok_inj.
  unfold Blob_fields. cbn [app map to_field]. rewrite !enc_fields_cons, !zlen_app, !zlen_enc_field. cbn [value wfield].
  rewrite !zlen_to_be_bytes. cbn. unfold zlen. cbn. lia.
Qed.

(** What a checkpoint relies on: a write returns the object's identifier, makes its type and payload
    readable there, and changes no other object. *)
Class LawfulCheckpointStore `{Sha256} (S : Type) `{CheckpointStore S} : Prop := {
  cs_write_reads : forall s e id s', cs_write s e = Ok (id, s') ->
    id = object_id e /\ exists e', @read_object (cs_reader s') id = Ok (Some e') /\ object_type e' = object_type e /\
      canonical_payload e' = canonical_payload e;
  cs_write_keeps : forall s e id s' other, cs_write s e = Ok (id, s') -> other <> id ->
    @read_object (cs_reader s') other = @read_object (cs_reader s) other;
}.

#[global] Instance memory_checkpoint_lawful `{Sha256} : LawfulCheckpointStore MemoryObjectStore.
Proof.
  split; intros s e id s'; change (cs_write s e) with (memory_write_object s e); unfold memory_write_object;
    (destruct (validate_strict e); [|done]).
  - intros [= <- <-]. split; [done|]. exists e. split; [|done]. unfold read_object, cs_reader, MemoryCheckpointStore, memory_reader. f_equal.
    apply (lookup_insert_eq (M:=gmap (list byte))).
  - intros other [= <- <-] Hne. unfold read_object, cs_reader, MemoryCheckpointStore, memory_reader. f_equal.
    by apply (lookup_insert_ne (M:=gmap (list byte))).
Qed.

Section checkpoint.
Context `{Sha256} {S : Type} `{CheckpointStore S} `{!LawfulCheckpointStore S} (edited_text : NodeId -> option (list byte)).

Definition blob_present (s : S) (e : StateRootEntry) : Prop :=
  match re_content e with RootBlob b => @has_object (cs_reader s) b Blob = Ok true | RootSymlink _ => True end.

Lemma has_object_read (R : ObjectReader) id e : @read_object R id = Ok (Some e) -> object_type e = Blob -> @has_object R id Blob = Ok true.
Proof. intros Hr Ht. unfold has_object, read_typed. rewrite Hr, bool_decide_eq_true_2 by done. done. Qed.

(** Writing a Blob keeps every Blob that is there. *)
Lemma write_keeps_present s payload id s' e : cs_write s (unsigned Blob 1 payload) = Ok (id, s') -> blob_present s e -> blob_present s' e.
Proof.
  intros Hw. unfold blob_present. destruct (re_content e) as [b|]; [|done]. intros Hh.
  destruct (decide (b = id)) as [->|Hne].
  - destruct (cs_write_reads _ _ _ _ Hw) as (_ & e' & Hr & Ht & _). by eapply has_object_read.
  - unfold has_object, read_typed in *. by rewrite (cs_write_keeps _ _ _ _ b Hw Hne).
Qed.

Lemma checkpoint_entry_ok s e s' : checkpoint_entry edited_text s e = Ok s' ->
  blob_present s' e /\ forall e', blob_present s e' -> blob_present s' e'.
Proof.
  unfold checkpoint_entry. intros Hc. destruct (re_content e) as [b|t] eqn:He; [|injection Hc as <-; by unfold blob_present; rewrite He].
  destruct (has_object b Blob) as [[]|] eqn:Hh; [|..|done].
  { injection Hc as <-. unfold blob_present at 1. by rewrite He. }
  destruct (match re_kind e with TextFile => _ | _ => _ end) as [bytes|]; [|done].
  destruct (to_canonical_bytes (BlobPayload_new BlobText bytes)) as [payload|]; [|done].
  case_bool_decide as Hid; cbn [negb] in Hc; [|done].
  destruct (cs_write s _) as [[id s1]|] eqn:Hw; [|done]. injection Hc as <-.
  pose proof (cs_write_reads _ _ _ _ Hw) as (-> & e' & Hr & Ht & _). split.
  - unfold blob_present. rewrite He, <- Hid. by eapply has_object_read.
  - intros e0. by eapply write_keeps_present.
Qed.

Lemma checkpoint_entries_ok entries : forall s s', foldM (checkpoint_entry edited_text) s entries = Ok s' ->
  Forall (blob_present s') entries /\ forall e, blob_present s e -> blob_present s' e.
Proof.
  induction entries as [|e es IH]; intros s s'; cbn [foldM]; [by intros [= <-]|].
  destruct (checkpoint_entry edited_text s e) as [s1|] eqn:Hc; [|done]. intros Hf.
  apply checkpoint_entry_ok in Hc as [He Hk]. apply IH in Hf as [Hes Hk']. split; [constructor; auto|auto].
Qed.

Lemma checkpoint_validates store entries id store' root block :
  Forall entry_typed entries -> zlen (concat (leaf_bytes <$> entries)) < 2 ^ 63 ->
  write_checkpoint_snapshot edited_text store entries = Ok (id, store') ->
  compute_state_root entries = Ok root ->
  snapshot_blob_ref block = Some id -> state_merkle_root block = root ->
  validate_snapshot_manifest (cs_reader store') block = Ok (Some entries).
Proof.
  intros Ht Hlen Hw Hroot Hb Hm. unfold write_checkpoint_snapshot in Hw.
  destruct (foldM _ store entries) as [s1|] eqn:Hf; [|done]. apply checkpoint_entries_ok in Hf as [Hpres _].
  destruct (SnapshotManifest_encode entries) as [bytes|] eqn:He; [|done].
  destruct (to_canonical_bytes (BlobPayload_new BlobSnapshot bytes)) as [payload|] eqn:Hp; [|done].
  pose proof (cs_write_reads _ _ _ _ Hw) as (_ & e' & Hr & Htype & Hpay). cbn in Htype, Hpay.
  unfold validate_snapshot_manifest. rewrite Hb. unfold read_typed. rewrite Hr, bool_decide_eq_true_2 by done. cbn [negb ok_or].
  unfold decode_snapshot_blob. rewrite Hpay, (Blob_roundtrip (BlobPayload_new BlobSnapshot bytes) payload); [| |done].
  2: { apply blob_payload_length in Hp. apply manifest_encode_inv in He as [_ ->]; [|done]. rewrite zlen_app in Hp. unfold zlen at 2 in Hp. cbn in Hp. lia. }
  cbn [blob_kind BlobPayload_new content]. rewrite bool_decide_eq_true_2 by done. cbn [negb].
  rewrite (manifest_roundtrip entries bytes Ht He), Hroot. rewrite bool_decide_eq_true_2 by done. cbn [negb].
  erewrite (proj2 (for_each_ok _ _)); [done|]. apply Forall_forall. intros e Hin. rewrite Forall_forall in Hpres.
  specialize (Hpres e Hin). apply (write_keeps_present s1 payload id store' e Hw) in Hpres. unfold blob_present in Hpres.
  destruct (re_content e); [|done]. by rewrite Hpres.
Qed.
End checkpoint.

(** ** The claims *)

Section claims.
Context `{Sha256}.

(** The root a state's block commits to. *)
Definition state_root_of (s : NodeLifecycleState) : PResult MerkleRoot :=
  let? entries := entries_from_state s in compute_state_root entries.

Lemma state_root_of_inv s root : state_root_of s = Ok root ->
  exists entries, entries_from_state s = Ok entries /\ compute_state_root entries = Ok root.
Proof. unfold state_root_of. destruct (entries_from_state s) as [es|]; [|done]. intros Hr. by exists es. Qed.

(** Two blocks' entry lists agree, or the hashes that build their roots collide. *)
Lemma same_root_same_entries s entries root :
  state_typed s -> Forall entry_typed entries -> zlen entries < 2 ^ 64 -> Z.of_nat (size (live_by_id s)) < 2 ^ 64 ->
  state_root_of s = Ok root -> compute_state_root entries = Ok root ->
  entries_from_state s = Ok entries \/ exists own, entries_from_state s = Ok own /\ collides (root_inputs own) (root_inputs entries).
Proof.
  intros Hs Ht Hl Hsz (own & Ho & Hr)%state_root_of_inv Hr'.
  destruct (state_root_binds own entries root) as [->|Hc]; [by eapply entries_typed|done| |done|done|done|by left|right; by exists own].
  by rewrite (entries_count s own Ho).
Qed.

(** C28: A state root identifies the state: two consistent states with one root have the same live nodes
    (paths, kinds, modes, contents and identities) and the same path index, unless two of the inputs
    hashed to build the two roots collide. *)
Theorem state_root_identifies_state s1 s2 root :
  state_typed s1 -> state_typed s2 ->
  Z.of_nat (size (live_by_id s1)) < 2 ^ 64 -> Z.of_nat (size (live_by_id s2)) < 2 ^ 64 ->
  validate_internal_consistency s1 = Ok tt -> validate_internal_consistency s2 = Ok tt ->
  state_root_of s1 = Ok root -> state_root_of s2 = Ok root ->
  (live_by_id s1 = live_by_id s2 /\ path_to_id s1 = path_to_id s2) \/
  exists e1 e2, entries_from_state s1 = Ok e1 /\ entries_from_state s2 = Ok e2 /\ collides (root_inputs e1) (root_inputs e2).
Proof.
  intros T1 T2 L1 L2 O1%validate_internal_consistency_iff O2%validate_internal_consistency_iff R1 R2.
  pose proof R2 as (e2 & E2 & C2)%state_root_of_inv.
  destruct (same_root_same_entries s1 e2 root T1) as [E1|(e1 & E1 & Hc)]; [by eapply entries_typed| |done|done|done| |right; by exists e1, e2].
  - by rewrite (entries_count s2 e2 E2).
  - left. assert (Hl : live_by_id s1 = live_by_id s2) by (by eapply entries_determine_live). split; [done|].
    apply map_eq. intros p. apply option_eq. intros id. by rewrite (ok_index s1 O1), (ok_index s2 O2), Hl.
Qed.

(** A snapshot that passes validation is its block's state: when the block's root is the root of a
    state, the entries the manifest decodes to are exactly that state's entries, unless two of the
    inputs hashed to build the root collide; and every Blob they name is in the store. *)
Theorem validated_snapshot_is_block_state (R : ObjectReader) block manifest s :
  state_typed s -> Z.of_nat (size (live_by_id s)) < 2 ^ 64 -> zlen manifest < 2 ^ 64 ->
  state_root_of s = Ok (state_merkle_root block) ->
  validate_snapshot_manifest R block = Ok (Some manifest) ->
  Forall (fun e => match re_content e with RootBlob b => @has_object R b Blob = Ok true | RootSymlink _ => True end) manifest /\
  (entries_from_state s = Ok manifest \/
   exists own, entries_from_state s = Ok own /\ collides (root_inputs own) (root_inputs manifest)).
Proof.
  intros Ts Ls Lm Hs Hv. unfold validate_snapshot_manifest in Hv. destruct (snapshot_blob_ref block) as [id|]; [|done].
  destruct (@read_typed R id Blob) as [found|]; [|done]. destruct found as [envelope|]; cbn [ok_or] in Hv; [|done].
  destruct (decode_snapshot_blob (canonical_payload envelope)) as [bytes|]; [|done].
  destruct (SnapshotManifest_decode bytes) as [m|] eqn:Hd; [|done]. destruct (compute_state_root m) as [root|] eqn:Hr; [|done].
  case_bool_decide as Hroot; cbn [negb] in Hv; [|done]. destruct (for_each _ m) as [[]|] eqn:Hf; [|done]. injection Hv as ->.
  apply manifest_canonical in Hd as [_ Hm]. split.
  - apply for_each_ok in Hf. eapply Forall_impl; [exact Hf|]. intros e. cbn. destruct (re_content e) as [b|]; [|done].
    destruct (@has_object R b Blob) as [[]|]; done.
  - apply (same_root_same_entries s manifest root Ts Hm Lm Ls); [congruence|done].
Qed.
End claims.

(** The snapshot manifest codec is exact: bytes decode to a list of entries exactly when they are its
    encoding, so a manifest has one byte form and only valid, canonically ordered entries decode. *)
Theorem snapshot_manifest_exact entries bytes :
  Forall entry_typed entries -> SnapshotManifest_encode entries = Ok bytes <-> SnapshotManifest_decode bytes = Ok entries.
Proof. intros Ht. split; [by apply manifest_roundtrip|by intros [? _]%manifest_canonical]. Qed.

(** A checkpoint that was written can be used: with the returned identifier as the block's snapshot
    reference and the root of the entries as its state root, the snapshot validates in the written store
    and gives back exactly those entries, every Blob they name being stored. *)
Theorem checkpoint_roundtrip `{Sha256} {S : Type} `{CheckpointStore S} `{!LawfulCheckpointStore S}
    (edited_text : NodeId -> option (list byte)) (store : S) entries id store' root block :
  Forall entry_typed entries -> zlen (concat (leaf_bytes <$> entries)) < 2 ^ 63 ->
  write_checkpoint_snapshot edited_text store entries = Ok (id, store') ->
  compute_state_root entries = Ok root ->
  snapshot_blob_ref block = Some id -> state_merkle_root block = root ->
  validate_snapshot_manifest (cs_reader store') block = Ok (Some entries).
Proof. apply checkpoint_validates. Qed.

(** ** A concrete state *)

#[local] Existing Instance hash_mod_p.

(** The text [hi], its Blob identifier, and a state whose one file holds it. *)
Definition witness_text : list byte := [x68; x69].
Definition witness_blob_id : list byte :=
  match to_canonical_bytes (BlobPayload_new BlobText witness_text) with
  | Ok payload => object_id (unsigned Blob 1 payload)
  | Err _ => []
  end.
Definition witness_clean_state : NodeLifecycleState :=
  mkLifecycle {[replicate 32 x01 := mkLive [x61] TextFile (FileContent witness_blob_id REGULAR_MODE)]} {[ [x61] := replicate 32 x01 ]}
    ∅ {[replicate 32 x01]}.
Definition witness_entries : list StateRootEntry :=
  match entries_from_state witness_clean_state with Ok entries => entries | Err _ => [] end.
Definition witness_root : MerkleRoot := match state_root_of witness_clean_state with Ok root => root | Err _ => [] end.
Definition witness_checkpoint : PResult (ObjectId * MemoryObjectStore) :=
  write_checkpoint_snapshot (fun _ => Some witness_text) memory_new witness_entries.
Definition witness_block : BlockPayload :=
  mkBlock [] KindRoot [] witness_root (match witness_checkpoint with Ok (id, _) => Some id | Err _ => None end) None None.
Definition witness_store : MemoryObjectStore := match witness_checkpoint with Ok (_, s) => s | Err _ => ∅ end.

Lemma witness_entry_typed : entry_typed (entry_of_node (replicate 32 x01, mkLive [x61] TextFile (FileContent witness_blob_id REGULAR_MODE))).
Proof. split; [reflexivity|reflexivity|split; vm_compute; congruence|vm_compute; reflexivity]. Qed.

Lemma witness_state_typed : state_typed witness_clean_state.
Proof.
  intros id n Hn. cbn [witness_clean_state live_by_id] in Hn. apply lookup_singleton_Some in Hn as [<- <-]. apply witness_entry_typed.
Qed.

(** The same files after a second one was created and deleted again. *)
Definition witness_after_deletion : NodeLifecycleState :=
  mkLifecycle (live_by_id witness_clean_state) (path_to_id witness_clean_state)
    {[replicate 32 x02 := mkTombstone TextFile (FileContent witness_blob_id REGULAR_MODE) [x62]]} {[replicate 32 x01; replicate 32 x02]}.

Lemma no_collision_check xs ys : forallb (fun x => forallb (fun y => bool_decide (x = y) || negb (bool_decide (sha256 x = sha256 y))) ys) xs = true -> ~ collides xs ys.
Proof.
  intros Hf (x & y & Hx & Hy & Hne & Hs). rewrite forallb_forall in Hf. specialize (Hf x (proj1 (list_elem_of_In _ _) Hx)).
  rewrite forallb_forall in Hf. specialize (Hf y (proj1 (list_elem_of_In _ _) Hy)). by rewrite bool_decide_false, bool_decide_true in Hf.
Qed.

Lemma state_root_identifies_state_witness :
  witness_clean_state <> witness_after_deletion /\ state_root_of witness_clean_state = state_root_of witness_after_deletion /\
  live_by_id witness_clean_state = live_by_id witness_after_deletion /\ path_to_id witness_clean_state = path_to_id witness_after_deletion.
Proof.
  split; [intros Heq; apply (f_equal (fun s => size (latest_tombstone_by_id s))) in Heq; vm_compute in Heq; discriminate Heq|]. split; [vm_compute; reflexivity|].
  destruct (state_root_identifies_state witness_clean_state witness_after_deletion witness_root) as [Hl|(e1 & e2 & H1 & H2 & Hc)];
    [apply witness_state_typed|exact witness_state_typed|vm_compute; reflexivity|vm_compute; reflexivity|vm_compute; reflexivity
    |vm_compute; reflexivity|vm_compute; reflexivity|vm_compute; reflexivity|exact Hl|].
  exfalso. change (entries_from_state witness_after_deletion) with (entries_from_state witness_clean_state) in H2. rewrite H1 in H2. apply Ok_inj in H2 as <-.
  assert (He : entries_from_state witness_clean_state = Ok witness_entries) by (vm_compute; reflexivity). rewrite He in H1. apply Ok_inj in H1 as <-.
  revert Hc. apply no_collision_check. vm_compute. reflexivity.
Defined.

Lemma validated_snapshot_is_block_state_witness :
  Forall (fun e => match re_content e with RootBlob b => @has_object (memory_reader witness_store) b Blob = Ok true | RootSymlink _ => True end)
    witness_entries.
Proof.
  apply (validated_snapshot_is_block_state (memory_reader witness_store) witness_block witness_entries witness_clean_state);
    [apply witness_state_typed|vm_compute; reflexivity..].
Defined.

Lemma snapshot_manifest_exact_witness :
  exists bytes, SnapshotManifest_decode bytes = Ok witness_entries.
Proof.
  destruct (SnapshotManifest_encode witness_entries) as [bytes|] eqn:He; [exists bytes|vm_compute in He; discriminate].
  apply (snapshot_manifest_exact witness_entries bytes); [|exact He]. apply (entries_typed witness_clean_state); [apply witness_state_typed|vm_compute; reflexivity].
Defined.

Lemma ok_pair {A B} (r : PResult (A * B)) a b : is_ok r = true ->
  r = Ok (match r with Ok (x, _) => x | Err _ => a end, match r with Ok (_, y) => y | Err _ => b end).
Proof. by destruct r as [[x y]|]. Qed.

Lemma checkpoint_roundtrip_witness :
  validate_snapshot_manifest (cs_reader witness_store) witness_block = Ok (Some witness_entries).
Proof.
  refine (checkpoint_roundtrip (S := MemoryObjectStore) (fun _ => Some witness_text) memory_new witness_entries
    (match witness_checkpoint with Ok (id, _) => id | Err _ => [] end) witness_store witness_root witness_block _ _ _ _ _ _).
  - apply (entries_typed witness_clean_state); [apply witness_state_typed|vm_compute; reflexivity].
  - vm_compute. reflexivity.
  - fold witness_checkpoint. unfold witness_store. apply ok_pair. vm_compute. reflexivity.
  - vm_compute. reflexivity.
  - vm_compute. reflexivity.
  - reflexivity.
Defined.
