(* ===== verification/LifecycleReplay.v ===== *)
(** * Lifecycle replay (crates/prikk-store/src/lifecycle_cache/replay.rs, replay/effect.rs, replay/classify.rs, store_resolvers.rs, lifecycle_cache.rs)

    The authoritative derivation of a block's lifecycle state: walk the single-parent lineage back to
    genesis, then apply every patch's operations, oldest first, with a cache of the texts edited on the
    way.  Beside it, the two readings that avoid the full fold: [id_only_tombstones] and
    [materialize_wanted_text_forward]. *)

From S2P Require Import Prelude PrikkError Hash ObjectId Signature Envelope Blob Block RepoPath Lifecycle Patch PatchDecode.
From S2P Require Import TextSpan ObjectStore.

Abbreviation TextCache := (gmap NodeId (list byte)) (only parsing).

Inductive LifecycleReplayError : Type :=
| MissingBlockInLineage (block_id : ObjectId)
| UnreadableBlockInLineage (block_id : ObjectId) (detail : string)
| MergeLineageUnsupported (block_id : ObjectId) (parent_count : nat)
| LineageCycle (block_id : ObjectId)
| HorizonNotInLineage (horizon_id : ObjectId)
| InconsistentLifecycleEffect (detail : string)
| MalformedPatchInLineage (patch_id : ObjectId) (detail : string)
| OutsideVersionRuleInLineage (patch_id : ObjectId) (path : list byte)
| MissingBlobForLifecycleEffect (blob_id : ObjectId)
| TextSpanResolutionFailed (node_id : NodeId) (span_id : list byte) (reason : TextSpanResolutionFailure)
| LineageOutOfFuel.

Abbreviation LResult := (Result LifecycleReplayError).

Definition LifecycleReplayError_into (value : LifecycleReplayError) : PrikkError :=
  match value with
  | OutsideVersionRuleInLineage _ path => NonAsciiRepoPath path
  | _ => Integrity "{other}"
  end.

(** ** Resolvers *)

(** [BlobKindResolver] and [BlobContentResolver]. *)
Class BlobResolver : Type := {
  resolver_blob_kind : ObjectId -> PResult (option BlobKind);
  resolver_blob_content : ObjectId -> PResult (option (BlobKind * list byte));
}.

Definition validate_blob_schema (require_schema_one : bool) (schema_version : Z) : PResult unit :=
  if require_schema_one then
    let accepted := default [] (admitted_schemas Blob) in
    if negb (bool_decide (schema_version ∈ accepted))
    then Err (Integrity "format-2 Blob does not accept envelope schema {schema_version} (accepted: {accepted:?})")
    else Ok tt
  else Ok tt.

(** The envelope both resolver methods read, checked and decoded. *)
Definition resolve_blob (R : ObjectReader) (require_schema_one : bool) (blob_id : ObjectId) : PResult (option BlobPayload) :=
  let? found := @read_object R blob_id in
  match found with
  | None => Ok None
  | Some envelope =>
      if negb (bool_decide (object_type envelope = Blob))
      then Err (Integrity "lifecycle replay: object {blob_id} is not a Blob ({} found)")
      else
        let? _ := validate_blob_schema require_schema_one (schema_version envelope) in
        let? blob := BlobPayload_decode (canonical_payload envelope) in
        Ok (Some blob)
  end.

Definition StoreBackedResolver (R : ObjectReader) (require_schema_one : bool) : BlobResolver := {|
  resolver_blob_kind blob_id :=
    let? blob := resolve_blob R require_schema_one blob_id in
    Ok (blob_kind <$> blob);
  resolver_blob_content blob_id :=
    let? blob := resolve_blob R require_schema_one blob_id in
    Ok ((fun blob => (blob_kind blob, content blob)) <$> blob);
|}.

(** ** The effect of one operation (replay/effect.rs) *)

Definition inconsistent {E} (error : E) : LifecycleReplayError := InconsistentLifecycleEffect "{error}".

(** A function on [&mut state] and [&mut text_cache]: its result and what it leaves. *)
Abbreviation LState := (NodeLifecycleState * TextCache)%type.
Definition Effect (A : Type) : Type := LResult A * LState.

(** A method of the state, with its error mapped. *)
Definition on_state {A} (m : Mut A) (text_cache : TextCache) : Effect unit :=
  (match m.1 with Ok _ => Ok tt | Err e => Err (inconsistent e) end, (m.2, text_cache)).

(** Continue with a value, or stop with the state as it is. *)
Definition with_value {A B : Type} (r : LResult A) (s : LState) (k : A -> Effect B) : Effect B :=
  match r with Ok a => k a | Err e => (Err e, s) end.

Definition effect_parse_repo_path (path : list byte) : LResult RepoPath := map_err inconsistent (RepoPath_parse path).

Definition expected_deleted_node (path : list byte) (preimage : DecodedDeletePreimage) : LResult LiveNode :=
  let? repo_path := effect_parse_repo_path path in
  Ok (match preimage with
      | DecodedFile old_node_kind old_blob_id old_mode => mkLive repo_path old_node_kind (FileContent old_blob_id old_mode)
      | DecodedSymlink old_target => mkLive repo_path SymlinkKind (SymlinkContent old_target)
      end).

Definition effect_rename_triple (kind : DecodedOperationKind) : LResult Rename :=
  match kind with
  | DRenamePath node_id old_path new_path =>
      let? old_path := effect_parse_repo_path old_path in
      let? new_path := effect_parse_repo_path new_path in
      Ok (node_id, old_path, new_path)
  | _ => Err (InconsistentLifecycleEffect "rename_triple called on a non-RenamePath operation")
  end.

(** The run of renames that starts before [rest]: the triples [next_if] pulls and what is left. *)
Fixpoint collect_rename_run (rest : list DecodedPatchOperation) : LResult (list Rename * list DecodedPatchOperation) :=
  match rest with
  | next :: rest' =>
      match d_kind next with
      | DRenamePath _ _ _ =>
          let? triple := effect_rename_triple (d_kind next) in
          let? '(run, left_over) := collect_rename_run rest' in
          Ok (triple :: run, left_over)
      | _ => Ok ([], rest)
      end
  | [] => Ok ([], [])
  end.

Definition apply_rename_run (s : LState) (renames : list Rename) : Effect unit :=
  on_state (rename_nodes_checked_batch s.1 renames) s.2.

Section effects.
Context `{Sha256} (B : BlobResolver).

(** The content an [EditText] starts from: the cached text, or the stored Text blob. *)
Definition materialize_current (text_cache : TextCache) (node_id : NodeId) (current_blob_id : ObjectId) : LResult (list byte) :=
  match text_cache !! node_id with
  | Some text => Ok text
  | None =>
      let? found := map_err inconsistent (resolver_blob_content current_blob_id) in
      let? '(kind, content) := ok_or found (MissingBlobForLifecycleEffect current_blob_id) in
      if negb (bool_decide (kind = BlobText)) then Err (InconsistentLifecycleEffect "EditText current content blob is not Text")
      else Ok content
  end.

(** Everything before the first change: the new text and its identifier. *)
Definition edited_text (s : LState) (node_id span_id old_span_hash left_anchor_hash right_anchor_hash replacement_text
    old_span_text : list byte) (left_anchor_len right_anchor_len : option Z) : LResult (list byte * ObjectId) :=
  let '(state, text_cache) := s in
  if negb (bool_decide (text_span_hash old_span_text = old_span_hash))
  then Err (InconsistentLifecycleEffect "EditText old_span_hash != SHA-256(old_span_text)")
  else
    let? live := ok_or (live_node state node_id) (InconsistentLifecycleEffect "EditText target node_id is not live") in
    if negb (bool_decide (ln_kind live = TextFile)) then Err (InconsistentLifecycleEffect "EditText target is not a text-file node")
    else
      let? current_blob_id :=
        match ln_content live with
        | FileContent blob_id _ => Ok blob_id
        | SymlinkContent _ => Err (InconsistentLifecycleEffect "EditText target has symlink content")
        end in
      let? current_text := materialize_current text_cache node_id current_blob_id in
      let? '(start, end_) :=
        map_err (TextSpanResolutionFailed node_id span_id)
          (resolve_text_span current_text old_span_text left_anchor_hash right_anchor_hash span_id node_id old_span_hash
             left_anchor_len right_anchor_len) in
      let? new_text := map_err inconsistent (splice_text current_text start end_ replacement_text) in
      let? new_blob_id := map_err inconsistent (text_blob_id new_text) in
      Ok (new_text, new_blob_id).

Definition effect_edit_text (s : LState) (node_id span_id old_span_hash left_anchor_hash right_anchor_hash replacement_text
    old_span_text : list byte) (left_anchor_len right_anchor_len : option Z) : Effect unit :=
  with_value (edited_text s node_id span_id old_span_hash left_anchor_hash right_anchor_hash replacement_text old_span_text
                left_anchor_len right_anchor_len) s (fun '(new_text, new_blob_id) =>
    match on_state (set_text_blob s.1 node_id new_blob_id) s.2 with
    | (Ok _, (state, text_cache)) => (Ok tt, (state, <[node_id := new_text]> text_cache))
    | (Err e, s') => (Err e, s')
    end).

Definition require_binary_blob (blob_id : ObjectId) : LResult unit :=
  let? found := map_err inconsistent (resolver_blob_kind blob_id) in
  let? kind := ok_or found (MissingBlobForLifecycleEffect blob_id) in
  if negb (bool_decide (kind = BlobBinary))
  then Err (InconsistentLifecycleEffect "ReplaceBinary blob {blob_id} is not binary ({kind:?})")
  else Ok tt.

Definition created_file_node (path : list byte) (blob_id : ObjectId) (mode : Z) : LResult LiveNode :=
  let? repo_path := effect_parse_repo_path path in
  let? found := map_err inconsistent (resolver_blob_kind blob_id) in
  let? blob_kind := ok_or found (MissingBlobForLifecycleEffect blob_id) in
  let? node_kind := map_err inconsistent (NodeKind_from_file_blob_kind blob_kind) in
  Ok (mkLive repo_path node_kind (FileContent blob_id mode)).

Definition apply_state_effect (s : LState) (kind : DecodedOperationKind) : Effect unit :=
  let '(state, text_cache) := s in
  match kind with
  | DCreateFile path node_id blob_id mode =>
      with_value (created_file_node path blob_id mode) s (fun node => on_state (create_node state node_id node) text_cache)
  | DCreateSymlink path node_id target =>
      with_value (effect_parse_repo_path path) s (fun repo_path =>
        on_state (create_node state node_id (mkLive repo_path SymlinkKind (SymlinkContent target))) text_cache)
  | DDeleteNode path node_id preimage =>
      with_value (expected_deleted_node path preimage) s (fun expected =>
        match on_state (delete_node_checked state node_id expected) text_cache with
        | (Ok _, (state, text_cache)) => (Ok tt, (state, delete node_id text_cache))
        | (Err e, s') => (Err e, s')
        end)
  | DRenamePath _ _ _ =>
      (Err (InconsistentLifecycleEffect "apply_state_effect received a RenamePath -- the caller must route consecutive RenamePath runs to apply_rename_run instead, never here"), s)
  | DChangePerm node_id old_mode new_mode => on_state (change_file_mode state node_id old_mode new_mode) text_cache
  | DReplaceBinary node_id old_blob_id new_blob_id =>
      with_value (let? _ := require_binary_blob old_blob_id in require_binary_blob new_blob_id) s (fun _ =>
        on_state (replace_file_blob state node_id old_blob_id new_blob_id) text_cache)
  | DEditText node_id span_id old_span_hash left_anchor_hash right_anchor_hash replacement_text old_span_text left_anchor_len right_anchor_len =>
      effect_edit_text s node_id span_id old_span_hash left_anchor_hash right_anchor_hash replacement_text old_span_text
        left_anchor_len right_anchor_len
  end.

(** ** Patches (replay.rs) *)

(** The [while let] loop over one patch's operations; one round per operation is enough. *)
Fixpoint apply_operations (fuel : nat) (s : LState) (operations : list DecodedPatchOperation) : LResult LState :=
  match operations with
  | [] => Ok s
  | operation :: rest =>
      match fuel with
      | O => Err LineageOutOfFuel
      | S fuel' =>
          match d_kind operation with
          | DRenamePath _ _ _ =>
              let? triple := effect_rename_triple (d_kind operation) in
              let? '(run, left_over) := collect_rename_run rest in
              match apply_rename_run s (triple :: run) with
              | (Ok _, s) => apply_operations fuel' s left_over
              | (Err e, _) => Err e
              end
          | kind =>
              match apply_state_effect s kind with
              | (Ok _, s) => apply_operations fuel' s rest
              | (Err e, _) => Err e
              end
          end
      end
  end.

Definition classify_decode_failure (patch_id : ObjectId) (err : PrikkError) : LifecycleReplayError :=
  match err with
  | NonAsciiRepoPath path => OutsideVersionRuleInLineage patch_id path
  | _ => MalformedPatchInLineage patch_id "{other}"
  end.

Definition read_patch_operations (R : ObjectReader) (patch_id : ObjectId) (require_schema_one : bool)
  : LResult (list DecodedPatchOperation) :=
  let? found := map_err (fun _ => MalformedPatchInLineage patch_id "{e}") (@read_object R patch_id) in
  let? envelope := ok_or found (MalformedPatchInLineage patch_id "patch object is missing") in
  if negb (bool_decide (object_type envelope = Patch))
  then Err (MalformedPatchInLineage patch_id "object is not a Patch ({} found)")
  else
    let accepted := default [] (admitted_schemas (object_type envelope)) in
    if require_schema_one && negb (bool_decide (schema_version envelope ∈ accepted))
    then Err (MalformedPatchInLineage patch_id "format-2 Patch does not accept envelope schema {} (accepted: {accepted:?})")
    else map_err (classify_decode_failure patch_id) (decode_patch_operations (canonical_payload envelope) (schema_version envelope)).

Fixpoint apply_patch_ids (R : ObjectReader) (require_schema_one : bool) (s : LState) (patch_ids : list ObjectId) : LResult LState :=
  match patch_ids with
  | [] => Ok s
  | patch_id :: rest =>
      let? operations := read_patch_operations R patch_id require_schema_one in
      let? s := apply_operations (length operations) s operations in
      apply_patch_ids R require_schema_one s rest
  end.
End effects.

(** ** The lineage *)

Definition replay_read_block (R : ObjectReader) (block_id : ObjectId) : LResult BlockPayload :=
  let? found := map_err (fun _ => UnreadableBlockInLineage block_id "{e}") (@read_object R block_id) in
  let? envelope := ok_or found (MissingBlockInLineage block_id) in
  if negb (bool_decide (object_type envelope = Block))
  then Err (UnreadableBlockInLineage block_id "object is not a Block ({} found)")
  else map_err (fun _ => UnreadableBlockInLineage block_id "{e}") (BlockPayload_decode (canonical_payload envelope)).

Definition parents_of (block : BlockPayload) : list ObjectId :=
  match block_kind block, mainline_parent_id block with
  | KindMerge, Some mainline =>
      if bool_decide (mainline ∈ parent_block_ids block) then [mainline] else parent_block_ids block
  | _, _ => parent_block_ids block
  end.

(** The walk's [loop]: the chain so far, newest first. *)
Fixpoint walk_chain (fuel : nat) (R : ObjectReader) (chain : list (ObjectId * BlockPayload)) (visited : gset ObjectId)
    (current : ObjectId) (expected_horizon : option ObjectId) : LResult (list (ObjectId * BlockPayload)) :=
  match fuel with
  | O => Err LineageOutOfFuel
  | S fuel' =>
      if bool_decide (current ∈ visited) then Err (LineageCycle current)
      else
        let? block := replay_read_block R current in
        let chain := chain ++ [(current, block)] in
        match parents_of block with
        | [] =>
            match expected_horizon with
            | Some horizon => if bool_decide (current = horizon) then Ok (reverse chain) else Err (HorizonNotInLineage horizon)
            | None => Ok (reverse chain)
            end
        | [parent] => walk_chain fuel' R chain ({[current]} ∪ visited) parent expected_horizon
        | other => Err (MergeLineageUnsupported current (length other))
        end
  end.

Definition walk_lineage (fuel : nat) (R : ObjectReader) (baseline horizon : ObjectId) : LResult (list (ObjectId * BlockPayload)) :=
  walk_chain fuel R [] ∅ baseline (Some horizon).

Section lineage.
Context `{Sha256}.

(** The fold over a chain's blocks. *)
Fixpoint apply_blocks (R : ObjectReader) (require_schema_one : bool) (s : LState) (blocks : list BlockPayload) : LResult LState :=
  match blocks with
  | [] => Ok s
  | block :: rest =>
      let? s := apply_patch_ids (StoreBackedResolver R require_schema_one) R require_schema_one s (patch_ids block) in
      apply_blocks R require_schema_one s rest
  end.

Definition replay_chain_with_appended_patches (R : ObjectReader) (chain : list (ObjectId * BlockPayload))
    (appended_patch_ids : list ObjectId) (require_schema_one : bool) : LResult LState :=
  let? s := apply_blocks R require_schema_one (NodeLifecycleState_new, ∅) chain.*2 in
  apply_patch_ids (StoreBackedResolver R require_schema_one) R require_schema_one s appended_patch_ids.

Definition replay_lineage_with_materialized_text (fuel : nat) (R : ObjectReader) (baseline horizon : ObjectId) : LResult LState :=
  let? chain := walk_lineage fuel R baseline horizon in
  replay_chain_with_appended_patches R chain [] false.

Definition replay_lineage (fuel : nat) (R : ObjectReader) (baseline horizon : ObjectId) : LResult NodeLifecycleState :=
  let? '(state, _) := replay_lineage_with_materialized_text fuel R baseline horizon in
  Ok state.

(** [ReplayDerivedLifecycleState::from_replay] over [replay_lineage] (lifecycle_cache.rs). *)
Definition replay_derived_state (fuel : nat) (R : ObjectReader) (baseline_block_id lineage_horizon_id : ObjectId)
  : PResult (ObjectId * NodeLifecycleState) :=
  let? state := map_err LifecycleReplayError_into (replay_lineage fuel R baseline_block_id lineage_horizon_id) in
  let? _ := validate_internal_consistency state in
  Ok (baseline_block_id, state).

Definition materialize_edited_text (fuel : nat) (R : ObjectReader) (baseline_block_id lineage_horizon_id : ObjectId)
    (node_id : NodeId) : PResult (option (list byte)) :=
  let? '(_, text_cache) :=
    map_err LifecycleReplayError_into (replay_lineage_with_materialized_text fuel R baseline_block_id lineage_horizon_id) in
  Ok (text_cache !! node_id).

Definition apply_one_block (R : ObjectReader) (block : BlockPayload) (state : NodeLifecycleState) (require_schema_one : bool)
  : LResult NodeLifecycleState :=
  let? '(state, _) :=
    apply_patch_ids (StoreBackedResolver R require_schema_one) R require_schema_one (state, ∅) (patch_ids block) in
  Ok state.

Definition apply_one_block_with_text_cache (R : ObjectReader) (block : BlockPayload) (s : LState) : LResult LState :=
  apply_patch_ids (StoreBackedResolver R true) R true s (patch_ids block).

Definition apply_one_block_carrying_text (R : ObjectReader) (block : BlockPayload) (s : LState) : LResult LState :=
  apply_patch_ids (StoreBackedResolver R false) R false s (patch_ids block).

Definition apply_candidate_patches (R : ObjectReader) (s : LState) (patch_ids : list ObjectId) : LResult LState :=
  apply_patch_ids (StoreBackedResolver R true) R true s patch_ids.

(** ** Readings that skip the fold *)

Definition edited_text_nodes (R : ObjectReader) (block : BlockPayload) : LResult (gset NodeId) :=
  foldM (fun nodes patch_id =>
    let? operations := read_patch_operations R patch_id false in
    Ok (fold_left (fun nodes operation =>
      match d_kind operation with
      | DEditText node_id _ _ _ _ _ _ _ _ => {[node_id]} ∪ nodes
      | _ => nodes
      end) operations nodes)) ∅ (patch_ids block).

Definition tombstone_step (tombstones : gmap NodeId Tombstone) (operation : DecodedPatchOperation) : LResult (gmap NodeId Tombstone) :=
  match d_kind operation with
  | DCreateFile _ node_id _ _ | DCreateSymlink _ node_id _ => Ok (delete node_id tombstones)
  | DDeleteNode path node_id preimage =>
      let '(kind, content) :=
        match preimage with
        | DecodedFile old_node_kind old_blob_id old_mode => (old_node_kind, FileContent old_blob_id old_mode)
        | DecodedSymlink old_target => (SymlinkKind, SymlinkContent old_target)
        end in
      let? path := effect_parse_repo_path path in
      Ok (<[node_id := mkTombstone kind content path]> tombstones)
  | _ => Ok tombstones
  end.

(** The patches of the blocks in order, each read and its operations folded. *)
Definition fold_patches {A} (R : ObjectReader) (require_schema_one : bool) (step : A -> DecodedPatchOperation -> LResult A) (a : A)
    (blocks : list BlockPayload) : LResult A :=
  foldM (fun a block =>
    foldM (fun a patch_id =>
      let? operations := read_patch_operations R patch_id require_schema_one in
      foldM step a operations) a (patch_ids block)) a blocks.

Definition id_only_tombstones (R : ObjectReader) (blocks : list BlockPayload) : LResult (gmap NodeId Tombstone) :=
  fold_patches R true tombstone_step ∅ blocks.

(** One operation of the text walk; [None] gives up. *)
Definition text_step (B : BlobResolver) (wanted : gset NodeId) (texts : TextCache) (operation : DecodedPatchOperation) : option TextCache :=
  match d_kind operation with
  | DEditText node_id span_id old_span_hash left_anchor_hash right_anchor_hash replacement_text old_span_text left_anchor_len right_anchor_len =>
      if bool_decide (node_id ∈ wanted) then
        current ← texts !! node_id;
        match resolve_text_span current old_span_text left_anchor_hash right_anchor_hash span_id node_id old_span_hash
                left_anchor_len right_anchor_len with
        | Err _ => None
        | Ok (start, end_) =>
            match splice_text current start end_ replacement_text with
            | Err _ => None
            | Ok next => Some (<[node_id := next]> texts)
            end
        end
      else Some texts
  | DCreateFile _ node_id blob_id _ =>
      if bool_decide (node_id ∈ wanted) then
        match resolver_blob_content blob_id with
        | Ok (Some (BlobText, bytes)) => Some (<[node_id := bytes]> texts)
        | Ok _ => Some (delete node_id texts)
        | Err _ => None
        end
      else Some texts
  | DDeleteNode _ node_id _ | DReplaceBinary node_id _ _ =>
      if bool_decide (node_id ∈ wanted) then Some (delete node_id texts) else Some texts
  | _ => Some texts
  end.

(** [Ok None] stops the walk as soon as one operation cannot be followed. *)
Fixpoint text_walk (B : BlobResolver) (wanted : gset NodeId) (texts : TextCache) (operations : list DecodedPatchOperation)
  : option TextCache :=
  match operations with
  | [] => Some texts
  | operation :: rest => texts ← text_step B wanted texts operation; text_walk B wanted texts rest
  end.

Fixpoint text_walk_patches (R : ObjectReader) (wanted : gset NodeId) (texts : TextCache) (patch_ids : list ObjectId)
  : LResult (option TextCache) :=
  match patch_ids with
  | [] => Ok (Some texts)
  | patch_id :: rest =>
      let? operations := read_patch_operations R patch_id false in
      match text_walk (StoreBackedResolver R false) wanted texts operations with
      | None => Ok None
      | Some texts => text_walk_patches R wanted texts rest
      end
  end.

Definition materialize_wanted_text_forward (R : ObjectReader) (seeds : TextCache) (blocks : list BlockPayload) (wanted : gset NodeId)
  : LResult (option TextCache) :=
  text_walk_patches R wanted seeds (mbind patch_ids blocks).

(** ** The materialize-and-retry fallback *)

(** [sealed_text node blob] stands for materialising the node's sealed text: the anchored reading and
    the full replay behind it. *)
Definition apply_state_effect_with_materialize_fallback (B : BlobResolver) (sealed_text : option (NodeId -> ObjectId -> PResult (option (list byte))))
    (s : LState) (kind : DecodedOperationKind) : PResult unit * LState :=
  let into '(r, s) := (map_err LifecycleReplayError_into r, s) in
  match apply_state_effect B s kind with
  | (Err (MissingBlobForLifecycleEffect blob_id), s') =>
      match kind with
      | DEditText node_id _ _ _ _ _ _ _ _ =>
          match sealed_text with
          | None => (Err (Integrity "patch {patch_id} edits node {node_id:?} whose content blob {blob_id} is missing, and no sealed lineage exists to materialize it from"), s')
          | Some materialize =>
              match materialize node_id blob_id with
              | Err e => (Err e, s')
              | Ok None => (Err (Integrity "patch {patch_id} edits node {node_id:?} whose content blob {blob_id} is missing and could not be materialized from sealed history"), s')
              | Ok (Some text) => into (apply_state_effect B (s'.1, <[node_id := text]> s'.2) kind)
              end
          end
      | _ => (Err (LifecycleReplayError_into (MissingBlobForLifecycleEffect blob_id)), s')
      end
  | r => into r
  end.
End lineage.
