(* ===== verification/LineageThms.v ===== *)
(** * Theorems about lifecycle replay

    A failed effect changes nothing, a replayed state is consistent and its cached texts hash to the
    content identities of their nodes, the tombstone reading and the text reading agree with the full
    fold, and the lineage walk returns on every finite store. *)

From S2P Require Import Prelude PrikkError Hash ObjectId Signature Envelope Blob Block RepoPath Lifecycle LifecycleInv Patch PatchDecode TextSpan.
From S2P Require Import ObjectStore LifecycleReplay Utf8 Canonical Cursor Payload PatchTheorems StateRoot StateRootThms TextSpanThms PatchApply ReplayThms.


(** ** Effects as lifecycle operations *)

Lemma on_state_inv {A} (m : Mut A) tc s1 : on_state m tc = (Ok tt, s1) -> exists a, m = (Ok a, s1.1) /\ s1.2 = tc.
Proof. destruct m as [[a|] st]; unfold on_state; cbn; [|done]. intros [= <-]. by exists a. Qed.

Lemma with_value_ok {A B} (r : LResult A) s (k : A -> Effect B) x : with_value r s k = (Ok x.1, x.2) ->
  exists a, r = Ok a /\ k a = (Ok x.1, x.2).
Proof. destruct r as [a|]; cbn; [|done]. intros Hk. by exists a. Qed.

(** The one node an effect other than a rename acts on. *)
Definition kind_node (kind : DecodedOperationKind) : NodeId :=
  match kind with
  | DCreateFile _ id _ _ | DDeleteNode _ id _ | DEditText id _ _ _ _ _ _ _ _ | DReplaceBinary id _ _
  | DRenamePath id _ _ | DChangePerm id _ _ | DCreateSymlink _ id _ => id
  end.

Section effects.
Context `{Sha256} (B : BlobResolver).

(** A successful effect is one lifecycle operation and at most one change of the cache. *)
Inductive effect_shape (s s1 : LState) : DecodedOperationKind -> Prop :=
| shape_create path id blob mode node :
    created_file_node B path blob mode = Ok node -> create_node s.1 id node = (Ok tt, s1.1) -> s1.2 = s.2 ->
    effect_shape s s1 (DCreateFile path id blob mode)
| shape_symlink path id target repo_path :
    effect_parse_repo_path path = Ok repo_path ->
    create_node s.1 id (mkLive repo_path SymlinkKind (SymlinkContent target)) = (Ok tt, s1.1) -> s1.2 = s.2 ->
    effect_shape s s1 (DCreateSymlink path id target)
| shape_delete path id preimage expected n :
    expected_deleted_node path preimage = Ok expected -> delete_node_checked s.1 id expected = (Ok n, s1.1) ->
    s1.2 = delete id s.2 -> effect_shape s s1 (DDeleteNode path id preimage)
| shape_mode id old new : change_file_mode s.1 id old new = (Ok tt, s1.1) -> s1.2 = s.2 -> effect_shape s s1 (DChangePerm id old new)
| shape_replace id old new : replace_file_blob s.1 id old new = (Ok tt, s1.1) -> s1.2 = s.2 ->
    effect_shape s s1 (DReplaceBinary id old new)
| shape_edit id span_id old_hash lh rh replacement old_text ll rl text blob :
    edited_text B s id span_id old_hash lh rh replacement old_text ll rl = Ok (text, blob) ->
    set_text_blob s.1 id blob = (Ok tt, s1.1) -> s1.2 = <[id := text]> s.2 ->
    effect_shape s s1 (DEditText id span_id old_hash lh rh replacement old_text ll rl).

Lemma effect_ok s kind s1 : apply_state_effect B s kind = (Ok tt, s1) -> effect_shape s s1 kind.
Proof.
  destruct s as [st tc]. destruct kind as [path id b m|path id pre|id ? ? ? ? r ? ? ?|id o w|id o w|id o w|path id t]; cbn [apply_state_effect].
  - destruct (created_file_node B path b m) as [node|] eqn:Hn; cbn; [|done]. intros ([] & Hc & Ht)%on_state_inv. by eapply shape_create.
  - destruct (expected_deleted_node path pre) as [n|] eqn:Hn; cbn [with_value]; [|done].
    destruct (on_state _ _) as [[[]|] [st' tc']] eqn:Ho; [|done]. intros [= <-]. apply on_state_inv in Ho as (n' & Hd & Ht). cbn in Hd, Ht. subst tc'.
    by eapply shape_delete.
  - unfold effect_edit_text. destruct (edited_text B _ _ _ _ _ _ _ _ _ _) as [[text blob]|] eqn:He; cbn [with_value]; [|done].
    destruct (on_state _ _) as [[[]|] [st' tc']] eqn:Ho; [|done]. intros [= <-]. apply on_state_inv in Ho as ([] & Hd & Ht). cbn in Hd, Ht. subst tc'.
    by eapply shape_edit.
  - destruct (let? _ := require_binary_blob B o in require_binary_blob B w) as [[]|]; cbn [with_value]; [|done].
    intros ([] & Hc & Ht)%on_state_inv. by eapply shape_replace.
  - done.
  - intros ([] & Hc & Ht)%on_state_inv. by eapply shape_mode.
  - destruct (effect_parse_repo_path path) as [p|] eqn:Hp; cbn [with_value]; [|done]. intros ([] & Hc & Ht)%on_state_inv. by eapply shape_symlink.
Qed.

Lemma effect_run_op s s1 kind : effect_shape s s1 kind -> exists op, run_op s.1 op = (Ok tt, s1.1).
Proof.
  destruct 1 as [path id blob mode node _ Hc _|path id target p _ Hc _|path id pre expected n _ Hd _|id old new Hc _|id old new Hc _|
    id span_id oh lh rh rep ot ll rl text blob _ Hc _].
  - by exists (OpCreate id node).
  - by eexists (OpCreate id _).
  - exists (OpDeleteChecked id expected). cbn. by rewrite Hd.
  - by exists (OpChangeMode id old new).
  - by exists (OpReplaceBlob id old new).
  - by exists (OpSetText id blob).
Qed.

(** A failed method of a consistent state leaves it as it was. *)
Lemma on_state_failed {A} (m : Mut A) (op : LifecycleOp) st tc e s' : lifecycle_ok st -> m.2 = (run_op st op).2 ->
  (forall err, m.1 = Err err -> exists err', (run_op st op).1 = Err err') -> on_state m tc = (Err e, s') -> s' = (st, tc).
Proof.
  intros Hok H2 H1. destruct m as [[a|err] st']; unfold on_state; cbn in *; [done|]. intros [= _ <-].
  destruct (H1 err eq_refl) as [err' Herr]. by rewrite H2, (run_op_atomic st op err').
Qed.

Lemma effect_failed s kind e s' : lifecycle_ok s.1 -> apply_state_effect B s kind = (Err e, s') -> s' = s.
Proof.
  destruct s as [st tc]. intros Hok. cbn [fst] in Hok.
  assert (Hcreate : forall id n, on_state (create_node st id n) tc = (Err e, s') -> s' = (st, tc)).
  { intros id n. apply (on_state_failed _ (OpCreate id n)); [done|done|]. cbn. eauto. }
  destruct kind as [path id b m|path id pre|id ? ? ? ? r ? ? ?|id o w|id o w|id o w|path id t]; cbn [apply_state_effect].
  - destruct (created_file_node B path b m) as [node|]; cbn [with_value]; [apply Hcreate|by intros [= _ <-]].
  - destruct (expected_deleted_node path pre) as [n|]; cbn [with_value]; [|by intros [= _ <-]].
    destruct (on_state _ _) as [[[]|err] [st' tc']] eqn:Ho; [done|]. intros [= -> <-].
    apply (on_state_failed _ (OpDeleteChecked id n) st) in Ho; [done|done|done|]. cbn. intros err0 Herr. rewrite Herr. by exists err0.
  - unfold effect_edit_text. destruct (edited_text B _ _ _ _ _ _ _ _ _ _) as [[text blob]|]; cbn [with_value]; [|by intros [= _ <-]].
    destruct (on_state _ _) as [[[]|err] [st' tc']] eqn:Ho; [done|]. intros [= -> <-].
    apply (on_state_failed _ (OpSetText id blob) st) in Ho; [done|done|done|]. cbn. eauto.
  - destruct (let? _ := require_binary_blob B o in require_binary_blob B w) as [[]|]; cbn [with_value]; [|by intros [= _ <-]].
    apply (on_state_failed _ (OpReplaceBlob id o w)); [done|done|]. cbn. eauto.
  - by intros [= _ <-].
  - apply (on_state_failed _ (OpChangeMode id o w)); [done|done|]. cbn. eauto.
  - destruct (effect_parse_repo_path path) as [p|]; cbn [with_value]; [apply Hcreate|by intros [= _ <-]].
Qed.

(** ** Induction over a patch's operations *)

Definition rename_members (members : list DecodedPatchOperation) (renames : list Rename) : Prop :=
  Forall2 (fun op t => effect_rename_triple (d_kind op) = Ok t) members renames.

Lemma collect_run_split rest : forall run left_over, collect_rename_run rest = Ok (run, left_over) ->
  exists members, rest = members ++ left_over /\ rename_members members run.
Proof.
  induction rest as [|next rest IH]; intros run left_over; cbn [collect_rename_run]; [intros [= <- <-]; exists []; by split; [|constructor]|].
  destruct (d_kind next) eqn:Hk; try (intros [= <- <-]; exists []; by split; [|constructor]).
  destruct (effect_rename_triple _) as [t|] eqn:Ht; [|done]. destruct (collect_rename_run rest) as [[r l]|]; [|done]. intros [= <- <-].
  destruct (IH r l eq_refl) as (members & -> & Hm). exists (next :: members). split; [done|]. constructor; [by rewrite Hk|done].
Qed.

Lemma apply_operations_ind (P : LState -> list DecodedPatchOperation -> LState -> Prop) :
  (forall s, P s [] s) ->
  (forall s op rest s1 s', apply_state_effect B s (d_kind op) = (Ok tt, s1) -> P s1 rest s' -> P s (op :: rest) s') ->
  (forall s members renames rest s1 s', rename_members members renames -> apply_rename_run s renames = (Ok tt, s1) ->
     P s1 rest s' -> P s (members ++ rest) s') ->
  forall fuel s ops s', apply_operations B fuel s ops = Ok s' -> P s ops s'.
Proof.
  intros Hnil Hone Hbatch. induction fuel as [|fuel IH]; intros s [|op rest] s'; cbn [apply_operations]; try (by intros [= <-]).
  assert (Hsingle : match apply_state_effect B s (d_kind op) with
      | (Ok _, s1) => apply_operations B fuel s1 rest | (Err e, _) => Err e end = Ok s' -> P s (op :: rest) s').
  { destruct (apply_state_effect B s (d_kind op)) as [[[]|] s1] eqn:Hs; [|done]. intros Hr. by eapply Hone, IH. }
  destruct (d_kind op) eqn:Hk; try exact Hsingle. destruct (effect_rename_triple _) as [t|] eqn:Ht; [|done].
  destruct (collect_rename_run rest) as [[run left_over]|] eqn:Hb; [|done].
  destruct (apply_rename_run s (t :: run)) as [[[]|] s1] eqn:Hm; [|done]. intros Hr. apply collect_run_split in Hb as (members & -> & Hb).
  apply (Hbatch s (op :: members) (t :: run) left_over s1 s'); [constructor; [by rewrite Hk|done]|done|by apply IH].
Qed.

(** The loop never runs out of rounds. *)
Lemma apply_operations_fuel : forall fuel s ops, (length ops <= fuel)%nat -> apply_operations B fuel s ops <> Err LineageOutOfFuel.
Proof.
  assert (Htriple : forall k, effect_rename_triple k <> Err LineageOutOfFuel).
  { intros k. unfold effect_rename_triple, effect_parse_repo_path, inconsistent. repeat case_match; try done; unfold map_err in *; repeat case_match; congruence. }
  assert (Hrun : forall rest, collect_rename_run rest <> Err LineageOutOfFuel).
  { induction rest as [|next rest IH]; cbn [collect_rename_run]; [done|]. destruct (d_kind next) eqn:Hk; try done.
    specialize (Htriple (d_kind next)). rewrite Hk in Htriple. destruct (effect_rename_triple _) as [t|e]; [|congruence].
    by destruct (collect_rename_run rest) as [[]|]; [|congruence]. }
  assert (Hon : forall A (m : Mut A) tc s', on_state m tc <> (Err LineageOutOfFuel, s')).
  { intros A [[a|err] st] tc s'; unfold on_state; by cbn. }
  assert (Heff : forall s kind s', apply_state_effect B s kind <> (Err LineageOutOfFuel, s')).
  { intros [st tc] kind s'. unfold apply_state_effect, effect_edit_text, with_value. destruct kind; try apply Hon; try done.
    - destruct (created_file_node _ _ _ _) as [?|e] eqn:He; [apply Hon|]. unfold created_file_node, effect_parse_repo_path, inconsistent in He.
      unfold ok_or, map_err in He. repeat case_match; congruence.
    - destruct (expected_deleted_node _ _) as [?|e] eqn:He.
      + destruct (on_state _ _) as [[[]|e'] [? ?]] eqn:Ho; [done|]. intros [= ->]. by apply Hon in Ho.
      + unfold expected_deleted_node, effect_parse_repo_path, inconsistent, map_err in He. repeat case_match; congruence.
    - destruct (edited_text _ _ _ _ _ _ _ _ _ _ _) as [[? ?]|e] eqn:He.
      + destruct (on_state _ _) as [[[]|e'] [? ?]] eqn:Ho; [done|]. intros [= ->]. by apply Hon in Ho.
      + unfold edited_text, materialize_current, inconsistent, ok_or, map_err in He. repeat case_match; congruence.
    - destruct (let? _ := _ in _) as [?|e] eqn:He; [apply Hon|]. unfold require_binary_blob, inconsistent, ok_or, map_err in He. repeat case_match; congruence.
    - destruct (effect_parse_repo_path _) as [?|e] eqn:He; [apply Hon|]. unfold effect_parse_repo_path, inconsistent, map_err in He. repeat case_match; congruence. }
  induction fuel as [|fuel IH]; intros s [|op rest] Hl; cbn [length] in Hl; [done|lia|done|]. cbn [apply_operations].
  assert (Hsingle : match apply_state_effect B s (d_kind op) with
      | (Ok _, s1) => apply_operations B fuel s1 rest | (Err e, _) => Err e end <> Err LineageOutOfFuel).
  { destruct (apply_state_effect B s (d_kind op)) as [[[]|e] s1] eqn:Hs; [apply IH; lia|]. intros [= ->]. by apply Heff in Hs. }
  destruct (d_kind op) eqn:Hk; try exact Hsingle. specialize (Htriple (d_kind op)). rewrite Hk in Htriple.
  destruct (effect_rename_triple _) as [t|]; [|congruence]. specialize (Hrun rest).
  destruct (collect_rename_run rest) as [[run left_over]|] eqn:Hb; [|congruence]. apply collect_run_split in Hb as (members & -> & _).
  rewrite length_app in Hl. destruct (apply_rename_run s (t :: run)) as [[[]|e] s1] eqn:Hm; [apply IH; lia|].
  intros [= ->]. unfold apply_rename_run in Hm. by apply Hon in Hm.
Qed.
End effects.

(** ** What the lifecycle operations change *)

Lemma create_node_spec s id n s' : create_node s id n = (Ok tt, s') ->
  live_by_id s !! id = None /\ live_by_id s' = <[id := n]> (live_by_id s) /\
  latest_tombstone_by_id s' = delete id (latest_tombstone_by_id s).
Proof.
  unfold create_node. intros Hc. destruct (ensure_node_id_nonzero id); [|done]. destruct (validate_kind_content_shape _ _); [|done].
  destruct (live_by_id s !! id); [done|]. cbn [is_some] in Hc. destruct (is_some (path_to_id s !! ln_path n)); [done|].
  destruct (if bool_decide _ then _ else _) in Hc; [|done]. by injection Hc as <-.
Qed.

Lemma delete_node_checked_spec s id expected n s' : delete_node_checked s id expected = (Ok n, s') ->
  live_by_id s !! id = Some expected /\ live_by_id s' = delete id (live_by_id s) /\
  latest_tombstone_by_id s' = <[id := mkTombstone (ln_kind expected) (ln_content expected) (ln_path expected)]> (latest_tombstone_by_id s).
Proof.
  unfold delete_node_checked, delete_node. intros Hd. destruct (live_by_id s !! id) as [m|] eqn:Hl; [|done].
  destruct (bool_decide (m = expected)) eqn:He; cbn [negb] in Hd; [|done]. apply bool_decide_eq_true in He as ->.
  repeat case_match; by simplify_eq.
Qed.

Lemma change_file_mode_spec s id old new s' : change_file_mode s id old new = (Ok tt, s') ->
  exists n b, live_by_id s !! id = Some n /\ ln_content n = FileContent b old /\
    live_by_id s' = <[id := mkLive (ln_path n) (ln_kind n) (FileContent b new)]> (live_by_id s) /\
    latest_tombstone_by_id s' = latest_tombstone_by_id s.
Proof.
  unfold change_file_mode. intros Hc. destruct (live_by_id s !! id) as [n|]; [|done]. destruct (ln_content n) as [b m|] eqn:Hn; [|done].
  destruct (Z.eqb_spec m old) as [->|]; cbn [negb] in Hc; [|done]. injection Hc as <-. by exists n, b.
Qed.

Lemma replace_file_blob_spec s id old new s' : replace_file_blob s id old new = (Ok tt, s') ->
  exists n m, live_by_id s !! id = Some n /\ ln_kind n = BinaryFile /\ ln_content n = FileContent old m /\
    live_by_id s' = <[id := mkLive (ln_path n) (ln_kind n) (FileContent new m)]> (live_by_id s) /\
    latest_tombstone_by_id s' = latest_tombstone_by_id s.
Proof.
  unfold replace_file_blob. intros Hc. destruct (live_by_id s !! id) as [n|]; [|done].
  case_bool_decide as Hk; cbn [negb] in Hc; [|done]. destruct (ln_content n) as [b m|] eqn:Hn; [|done].
  case_bool_decide as Hb; cbn [negb] in Hc; [|done]. subst b. injection Hc as <-. by exists n, m.
Qed.

Lemma set_text_blob_spec s id blob s' : set_text_blob s id blob = (Ok tt, s') ->
  exists n b m, live_by_id s !! id = Some n /\ ln_kind n = TextFile /\ ln_content n = FileContent b m /\
    live_by_id s' = <[id := mkLive (ln_path n) (ln_kind n) (FileContent blob m)]> (live_by_id s) /\
    latest_tombstone_by_id s' = latest_tombstone_by_id s.
Proof.
  unfold set_text_blob. intros Hc. destruct (live_by_id s !! id) as [n|]; [|done].
  case_bool_decide as Hk; cbn [negb] in Hc; [|done]. destruct (ln_content n) as [b m|] eqn:Hn; [|done]. injection Hc as <-. by exists n, b, m.
Qed.

(** ** The invariant of a replay *)

(** A cached text belongs to a live text file and hashes to its content identity. *)
Definition cache_coherent `{Sha256} (s : LState) : Prop := forall id t, s.2 !! id = Some t ->
  exists n b m, live_by_id s.1 !! id = Some n /\ ln_kind n = TextFile /\ ln_content n = FileContent b m /\ text_blob_id t = Ok b.

Record replay_inv `{Sha256} (s : LState) : Prop := {
  ri_ok : lifecycle_ok s.1;
  ri_typed : lifecycle_typed s.1;
  ri_cache : cache_coherent s;
}.

Section invariant.
Context `{Sha256} (B : BlobResolver).

Lemma edited_text_blob s id span_id oh lh rh rep ot ll rl text blob :
  edited_text B s id span_id oh lh rh rep ot ll rl = Ok (text, blob) -> text_blob_id text = Ok blob.
Proof. unfold edited_text. destruct s as [st tc]. intros He. inv_ok. by simplify_eq. Qed.

Lemma cache_effect s s1 kind : effect_shape B s s1 kind -> cache_coherent s -> cache_coherent s1.
Proof.
  intros Hs Hc i t. destruct Hs as [path id blob mode node _ Hop Ht|path id target p _ Hop Ht|path id pre expected n _ Hop Ht|id old new Hop Ht|id old new Hop Ht|
    id span_id oh lh rh rep ot ll rl text blob He Hop Ht]; rewrite Ht.
  1,2: apply create_node_spec in Hop as (Hno & -> & _); intros Hi; destruct (Hc i t Hi) as (n & b & m & Hn & Hrest);
    exists n, b, m; rewrite lookup_insert_ne by congruence; done.
  - apply delete_node_checked_spec in Hop as (_ & -> & _). intros [Hne Hi]%lookup_delete_Some. destruct (Hc i t Hi) as (m & b & z & Hm & Hrest).
    exists m, b, z. by rewrite lookup_delete_ne.
  - apply change_file_mode_spec in Hop as (n & b & Hn & Hcn & -> & _). intros Hi. destruct (Hc i t Hi) as (n' & b' & m' & Hn' & Hk & Hcn' & Hb).
    destruct (decide (i = id)) as [->|Hne]; [|exists n', b', m'; by rewrite lookup_insert_ne].
    rewrite Hn in Hn'. injection Hn' as <-. rewrite Hcn in Hcn'. injection Hcn' as -> ->. rewrite lookup_insert_eq. by eexists _, _, _.
  - apply replace_file_blob_spec in Hop as (n & m & Hn & Hk & _ & -> & _). intros Hi. destruct (Hc i t Hi) as (n' & b' & m' & Hn' & Hk' & Hrest).
    exists n', b', m'. rewrite lookup_insert_ne; [done|]. intros <-. congruence.
  - apply set_text_blob_spec in Hop as (n & b & m & Hn & Hk & Hcn & -> & _). destruct (decide (i = id)) as [->|Hne].
    + rewrite !lookup_insert_eq. intros [= <-]. eexists _, _, _. split_and!; [done|done|done|]. by eapply edited_text_blob.
    + rewrite !lookup_insert_ne by done. apply Hc.
Qed.

Lemma effect_inv s kind s1 : replay_inv s -> apply_state_effect B s kind = (Ok tt, s1) -> replay_inv s1.
Proof.
  intros [Hok Hty Hc] Hs%effect_ok. destruct (effect_run_op B s s1 kind Hs) as [op Hop]. split.
  - pose proof (run_op_ok s.1 op Hok) as Hx. by rewrite Hop in Hx.
  - pose proof (run_op_typed s.1 op Hty) as Hx. by rewrite Hop in Hx.
  - by eapply cache_effect.
Qed.

Lemma rename_run_inv s renames s1 : lifecycle_ok s.1 -> apply_rename_run s renames = (Ok tt, s1) ->
  rename_nodes_checked_batch s.1 renames = (Ok tt, s1.1) /\ s1.2 = s.2 /\
  latest_tombstone_by_id s1.1 = latest_tombstone_by_id s.1 /\
  forall id, exists f : LiveNode -> LiveNode, live_by_id s1.1 !! id = f <$> live_by_id s.1 !! id /\
    forall n, ln_kind (f n) = ln_kind n /\ ln_content (f n) = ln_content n.
Proof.
  intros Hok Hr. unfold apply_rename_run in Hr. apply on_state_inv in Hr as ([] & Hb & Ht). split; [done|]. split; [done|].
  apply rename_batch_checked in Hb as (_ & Htomb & _ & Hlive & _); [|done]. split; [done|]. intros id. rewrite Hlive.
  destruct (renamed_to renames id) as [new|]; [by exists (set_path new)|exists (fun n => n)]. by rewrite option_fmap_id.
Qed.

Lemma rename_inv s renames s1 : replay_inv s -> apply_rename_run s renames = (Ok tt, s1) -> replay_inv s1.
Proof.
  intros [Hok Hty Hc] Hr. apply rename_run_inv in Hr as (Hb & Ht & _ & Hlive); [|done]. split.
  - pose proof (run_op_ok s.1 (OpRenameBatch renames) Hok) as Hx. cbn in Hx. by rewrite Hb in Hx.
  - pose proof (run_op_typed s.1 (OpRenameBatch renames) Hty) as Hx. cbn in Hx. by rewrite Hb in Hx.
  - intros i t. rewrite Ht. intros Hi. destruct (Hc i t Hi) as (n & b & m & Hn & Hk & Hcn & Hb'). destruct (Hlive i) as (f & Hf & Hpres).
    rewrite Hf, Hn. destruct (Hpres n) as [Hk' Hc']. exists (f n), b, m. split_and!; [done|congruence|congruence|done].
Qed.

Lemma operations_inv fuel s ops s' : replay_inv s -> apply_operations B fuel s ops = Ok s' -> replay_inv s'.
Proof.
  intros Hinv Ha. revert Hinv. pattern s, ops, s'. revert fuel s ops s' Ha. apply apply_operations_ind; [done| |].
  - intros s op rest s1 s' He IH Hinv. apply IH. by eapply effect_inv.
  - intros s members renames rest s1 s' _ Hr IH Hinv. apply IH. by eapply rename_inv.
Qed.
End invariant.

Lemma genesis_inv `{Sha256} : replay_inv (NodeLifecycleState_new, ∅).
Proof. split; [apply ok_new|apply typed_new|]. intros id t. cbn. by rewrite lookup_empty. Qed.

Lemma patches_inv `{Sha256} B R schema : forall ids s s', replay_inv s -> apply_patch_ids B R schema s ids = Ok s' -> replay_inv s'.
Proof.
  induction ids as [|id ids IH]; intros s s' Hinv; cbn [apply_patch_ids]; [by intros [= <-]|].
  destruct (read_patch_operations R id schema) as [ops|]; [|done]. destruct (apply_operations B (length ops) s ops) as [s1|] eqn:Ha; [|done].
  apply IH. by eapply operations_inv.
Qed.

Lemma blocks_inv `{Sha256} R schema : forall blocks s s', replay_inv s -> apply_blocks R schema s blocks = Ok s' -> replay_inv s'.
Proof.
  induction blocks as [|b blocks IH]; intros s s' Hinv; cbn [apply_blocks]; [by intros [= <-]|].
  destruct (apply_patch_ids _ _ _ _ _) as [s1|] eqn:Ha; [|done]. apply IH. by eapply patches_inv.
Qed.

(** ** Tombstones without the fold *)

Section tombstones.
Context `{Sha256} (B : BlobResolver).

Lemma tombstone_effect s s1 op : effect_shape B s s1 (d_kind op) ->
  tombstone_step (latest_tombstone_by_id s.1) op = Ok (latest_tombstone_by_id s1.1).
Proof.
  unfold tombstone_step. intros Hs. inversion Hs as [path id blob mode node _ Hop Ht Hk|path id target p _ Hop Ht Hk|path id pre expected n He Hop Ht Hk|id old new Hop Ht Hk|id old new Hop Ht Hk|
    id span_id oh lh rh rep ot ll rl text blob He Hop Ht Hk].
  1,2: by apply create_node_spec in Hop as (_ & _ & ->).
  - apply delete_node_checked_spec in Hop as (_ & _ & ->). unfold expected_deleted_node in He. destruct (effect_parse_repo_path path) as [p|]; [|done].
    injection He as <-. by destruct pre.
  - by apply change_file_mode_spec in Hop as (? & ? & _ & _ & _ & ->).
  - by apply replace_file_blob_spec in Hop as (? & ? & _ & _ & _ & _ & ->).
  - by apply set_text_blob_spec in Hop as (? & ? & ? & _ & _ & _ & _ & ->).
Qed.

Lemma tombstone_renames members renames t : rename_members members renames -> foldM tombstone_step t members = Ok t.
Proof.
  induction 1 as [|op r members renames Hr _ IH]; [done|]. cbn [foldM]. unfold tombstone_step at 1.
  unfold effect_rename_triple in Hr. destruct (d_kind op); done.
Qed.

Lemma tombstone_operations fuel s ops s' : lifecycle_ok s.1 -> apply_operations B fuel s ops = Ok s' ->
  lifecycle_ok s'.1 /\ foldM tombstone_step (latest_tombstone_by_id s.1) ops = Ok (latest_tombstone_by_id s'.1).
Proof.
  intros Hok Ha. revert Hok. pattern s, ops, s'. revert fuel s ops s' Ha. apply apply_operations_ind; [done| |].
  - intros s op rest s1 s' He IH Hok. apply effect_ok in He. cbn [foldM]. rewrite (tombstone_effect s s1 op He). apply IH.
    destruct (effect_run_op B s s1 _ He) as [lop Hop]. pose proof (run_op_ok s.1 lop Hok) as Hx. by rewrite Hop in Hx.
  - intros s members renames rest s1 s' Hm Hr IH Hok. rewrite foldM_app, (tombstone_renames members renames _ Hm).
    apply rename_run_inv in Hr as (Hb & _ & <- & _); [|done]. apply IH.
    pose proof (run_op_ok s.1 (OpRenameBatch renames) Hok) as Hx. cbn in Hx. by rewrite Hb in Hx.
Qed.
End tombstones.

Lemma tombstone_blocks `{Sha256} R : forall blocks s s', lifecycle_ok s.1 -> apply_blocks R true s blocks = Ok s' ->
  fold_patches R true tombstone_step (latest_tombstone_by_id s.1) blocks = Ok (latest_tombstone_by_id s'.1).
Proof.
  assert (Hp : forall ids s s', lifecycle_ok s.1 -> apply_patch_ids (StoreBackedResolver R true) R true s ids = Ok s' ->
    lifecycle_ok s'.1 /\ foldM (fun a patch_id => let? operations := read_patch_operations R patch_id true in foldM tombstone_step a operations)
      (latest_tombstone_by_id s.1) ids = Ok (latest_tombstone_by_id s'.1)).
  { induction ids as [|id ids IH]; intros s s' Hok; cbn [apply_patch_ids foldM]; [by intros [= <-]|].
    destruct (read_patch_operations R id true) as [ops|]; [|done]. destruct (apply_operations _ _ s ops) as [s1|] eqn:Ha; [|done].
    apply tombstone_operations in Ha as [Hok1 ->]; [|done]. by apply IH. }
  induction blocks as [|b blocks IH]; intros s s' Hok; unfold fold_patches; cbn [apply_blocks foldM]; [by intros [= <-]|].
  destruct (apply_patch_ids _ _ _ _ _) as [s1|] eqn:Ha; [|done]. apply Hp in Ha as [Hok1 ->]; [|done]. by apply IH.
Qed.

(** * Types of replayed states

    Decoded operations carry identities, modes and targets of the widths the Rust types give them, so
    every replayed state does; and the seen identities of a replayed state are its live and tombstoned
    ones. *)


Definition op_typed (kind : DecodedOperationKind) : Prop :=
  match kind with
  | DCreateFile _ id blob mode => length id = 32%nat /\ length blob = 32%nat /\ u32 mode
  | DCreateSymlink _ id target => length id = 32%nat /\ rust_string target
  | DReplaceBinary _ _ new => length new = 32%nat
  | DChangePerm _ _ new => u32 new
  | _ => True
  end.

Lemma authored_typed `{Sha256} v i d o : authored v i d o -> op_typed (d_kind d).
Proof.
  intros (_ & _ & Hwf & _ & _ & _ & _ & <-). unfold Operation_decoded. cbn [d_kind].
  destruct (op_kind o); cbn [kind_decoded kind_wf] in *; try done;
    by destruct Hwf as (? & ? & ?).
Qed.

Lemma decoded_typed `{Sha256} bytes v ds : decode_patch_operations bytes v = Ok ds -> Forall (fun d => op_typed (d_kind d)) ds.
Proof.
  unfold decode_patch_operations. intros Hd. destruct (map_err _ _); [|done]. destruct (decode_fields _ _ _ bytes) as [l|] eqn:Hf; [|done].
  destruct (Nat.eqb (length l) 0); [done|]. apply Ok_inj in Hd as <-. apply patch_operations_authored in Hf as (os & _ & Hall).
  apply Forall_lookup. intros i d Hi. destruct (Hall i d Hi) as (o & _ & Hau). by eapply authored_typed.
Qed.

Lemma read_typed_operations `{Sha256} R id schema ops : read_patch_operations R id schema = Ok ops -> Forall (fun d => op_typed (d_kind d)) ops.
Proof.
  unfold read_patch_operations. intros Hr. inv_ok. unfold map_err in *. repeat case_match; simplify_eq. by eapply decoded_typed.
Qed.

(** The widths of a live node; a target has no bound of its own, the root computation gives it one. *)
Definition node_typed (id : NodeId) (n : LiveNode) : Prop :=
  length id = 32%nat /\ valid_path (ln_path n) /\
  match ln_content n with FileContent b m => length b = 32%nat /\ u32 m | SymlinkContent t => rust_string t end.

Record replayed (s : NodeLifecycleState) : Prop := {
  rp_ok : lifecycle_ok s;
  rp_typed : lifecycle_typed s;
  rp_nodes : forall id n, live_by_id s !! id = Some n -> node_typed id n;
  rp_seen : seen_ids s = dom (live_by_id s) ∪ dom (latest_tombstone_by_id s);
}.

Lemma replayed_new : replayed NodeLifecycleState_new.
Proof. split; [apply ok_new|apply typed_new|intros id n; cbn; by rewrite lookup_empty|cbn; set_solver]. Qed.

Section typed.
Context `{Sha256} (B : BlobResolver).

Lemma effect_path_inv path p : effect_parse_repo_path path = Ok p -> valid_path p.
Proof. unfold effect_parse_repo_path, map_err. destruct (RepoPath_parse path) as [q|] eqn:Hp; [|done]. intros [= <-]. by apply RepoPath_parse_inv in Hp as [-> ?]. Qed.

Lemma created_typed path id blob mode node : created_file_node B path blob mode = Ok node -> length id = 32%nat -> length blob = 32%nat -> u32 mode ->
  node_typed id node.
Proof.
  unfold created_file_node. intros Hc Hi Hb Hm. destruct (effect_parse_repo_path path) as [p|] eqn:Hp; [|done]. apply effect_path_inv in Hp.
  inv_ok. repeat case_match; simplify_eq; by split_and!.
Qed.

(** How an effect changes the live nodes, the tombstones and the seen identities. *)
Lemma effect_nodes s s1 kind : effect_shape B s s1 kind -> op_typed kind ->
  (forall id n, live_by_id s.1 !! id = Some n -> node_typed id n) -> forall id n, live_by_id s1.1 !! id = Some n -> node_typed id n.
Proof.
  intros Hs Ht Hn i n. destruct Hs as [path id blob mode node Hc Hop _|path id target p Hp Hop _|path id pre expected m _ Hop _|id old new Hop _|id old new Hop _|
    id span_id oh lh rh rep ot ll rl text blob He Hop _]; cbn [op_typed] in Ht.
  - apply create_node_spec in Hop as (_ & -> & _). intros [[<- <-]|[_ Hi]]%lookup_insert_Some; [|by apply Hn]. destruct Ht as (? & ? & ?). by eapply created_typed.
  - apply create_node_spec in Hop as (_ & -> & _). intros [[<- <-]|[_ Hi]]%lookup_insert_Some; [|by apply Hn]. destruct Ht. split; [done|]. split; [by eapply effect_path_inv|done].
  - apply delete_node_checked_spec in Hop as (_ & -> & _). intros [_ Hi]%lookup_delete_Some. by apply Hn.
  - apply change_file_mode_spec in Hop as (n0 & b & Hn0 & Hc & -> & _). intros [[<- <-]|[_ Hi]]%lookup_insert_Some; [|by apply Hn].
    destruct (Hn _ _ Hn0) as (? & ? & Hx). rewrite Hc in Hx. destruct Hx. by split_and!.
  - apply replace_file_blob_spec in Hop as (n0 & m & Hn0 & _ & Hc & -> & _). intros [[<- <-]|[_ Hi]]%lookup_insert_Some; [|by apply Hn].
    destruct (Hn _ _ Hn0) as (? & ? & Hx). rewrite Hc in Hx. destruct Hx. by split_and!.
  - apply set_text_blob_spec in Hop as (n0 & b & m & Hn0 & _ & Hc & -> & _). intros [[<- <-]|[_ Hi]]%lookup_insert_Some; [|by apply Hn].
    destruct (Hn _ _ Hn0) as (? & ? & Hx). rewrite Hc in Hx. destruct Hx. split; [done|split; [done|split; [|done]]]. apply edited_text_blob in He.
    unfold text_blob_id in He. destruct (to_canonical_bytes _); [|done]. apply Ok_inj in He as <-. apply sha256_length.
Qed.

Lemma effect_seen s s1 kind : effect_shape B s s1 kind ->
  seen_ids s.1 = dom (live_by_id s.1) ∪ dom (latest_tombstone_by_id s.1) -> seen_ids s1.1 = dom (live_by_id s1.1) ∪ dom (latest_tombstone_by_id s1.1).
Proof.
  assert (Hcreate : forall st id n st', create_node st id n = (Ok tt, st') -> seen_ids st' = {[id]} ∪ seen_ids st).
  { intros st id n st' Hc. unfold create_node in Hc. repeat case_match; by simplify_eq. }
  assert (Hdel : forall st id expected n st', delete_node_checked st id expected = (Ok n, st') -> seen_ids st' = seen_ids st).
  { intros st id expected n st' Hc. unfold delete_node_checked, delete_node in Hc. repeat case_match; by simplify_eq. }
  assert (Hmode : forall st id old new st', change_file_mode st id old new = (Ok tt, st') -> seen_ids st' = seen_ids st).
  { intros st id old new st' Hc. unfold change_file_mode in Hc. repeat case_match; by simplify_eq. }
  assert (Hrep : forall st id old new st', replace_file_blob st id old new = (Ok tt, st') -> seen_ids st' = seen_ids st).
  { intros st id old new st' Hc. unfold replace_file_blob in Hc. repeat case_match; by simplify_eq. }
  assert (Htext : forall st id blob st', set_text_blob st id blob = (Ok tt, st') -> seen_ids st' = seen_ids st).
  { intros st id blob st' Hc. unfold set_text_blob in Hc. repeat case_match; by simplify_eq. }
  assert (Hkeep : forall id (n n' : LiveNode) (live : gmap NodeId LiveNode), live !! id = Some n -> dom (<[id := n']> live) = (dom live : gset NodeId)).
  { intros id n n' live Hl. apply dom_insert_lookup_L. by exists n. }
  intros Hs Hseen. destruct Hs as [path id blob mode node Hc Hop _|path id target p Hp Hop _|path id pre expected m _ Hop _|id old new Hop _|id old new Hop _|
    id span_id oh lh rh rep ot ll rl text blob He Hop _].
  1,2: rewrite (Hcreate _ _ _ _ Hop), Hseen; apply create_node_spec in Hop as (_ & -> & ->); rewrite dom_insert_L, dom_delete_L;
    apply set_eq; intros x; destruct (decide (x = id)) as [->|]; set_solver.
  - rewrite (Hdel _ _ _ _ _ Hop), Hseen. apply delete_node_checked_spec in Hop as (Hl & -> & ->). rewrite dom_insert_L, dom_delete_L.
    assert (id ∈ (dom (live_by_id s.1) : gset NodeId)) by (apply elem_of_dom; by exists expected).
    apply set_eq. intros x. destruct (decide (x = id)) as [->|]; set_solver.
  - rewrite (Hmode _ _ _ _ _ Hop). apply change_file_mode_spec in Hop as (n0 & b & Hn0 & _ & -> & ->). by rewrite (Hkeep _ _ _ _ Hn0).
  - rewrite (Hrep _ _ _ _ _ Hop). apply replace_file_blob_spec in Hop as (n0 & b & Hn0 & _ & _ & -> & ->). by rewrite (Hkeep _ _ _ _ Hn0).
  - rewrite (Htext _ _ _ _ Hop). apply set_text_blob_spec in Hop as (n0 & b & m & Hn0 & _ & _ & -> & ->). by rewrite (Hkeep _ _ _ _ Hn0).
Qed.

Lemma effect_replayed s kind s1 : replayed s.1 -> op_typed kind -> apply_state_effect B s kind = (Ok tt, s1) -> replayed s1.1.
Proof.
  intros [Hok Hty Hn Hseen] Ht Hs%effect_ok. destruct (effect_run_op B s s1 kind Hs) as [op Hop]. split.
  - pose proof (run_op_ok s.1 op Hok) as Hx. by rewrite Hop in Hx.
  - pose proof (run_op_typed s.1 op Hty) as Hx. by rewrite Hop in Hx.
  - by eapply effect_nodes.
  - by eapply effect_seen.
Qed.

Lemma rename_member_paths members renames id old new : rename_members members renames -> (id, old, new) ∈ renames -> valid_path new.
Proof.
  induction 1 as [|op r members renames Hr _ IH]; [by intros ?%elem_of_nil|]. intros [<-|Hin]%elem_of_cons; [|by apply IH].
  unfold effect_rename_triple in Hr. destruct (d_kind op); try done. destruct (effect_parse_repo_path old_path) as [o|]; [|done].
  destruct (effect_parse_repo_path new_path) as [p|] eqn:Hp; [|done]. injection Hr as <- <- <-. by eapply effect_path_inv.
Qed.

Lemma renamed_to_in renames id new : renamed_to renames id = Some new -> exists old, (id, old, new) ∈ renames.
Proof.
  induction renames as [|[[i o] n] rest IH]; cbn; [done|]. case_decide as Hi; [subst i; intros [= ->]; exists o; by left|].
  intros (old & Hin)%IH. exists old. by right.
Qed.

Lemma rename_replayed s members renames s1 : replayed s.1 -> rename_members members renames -> apply_rename_run s renames = (Ok tt, s1) -> replayed s1.1.
Proof.
  intros [Hok Hty Hn Hseen] Hm Hr. unfold apply_rename_run in Hr. apply on_state_inv in Hr as ([] & Hb & _).
  pose proof (run_op_typed s.1 (OpRenameBatch renames) Hty) as Hty'. cbn in Hty'. rewrite Hb in Hty'.
  apply rename_batch_checked in Hb as (Hok' & Htomb & Hseen' & Hlive & _); [|done]. split; [done|done| |].
  - intros id n. rewrite Hlive. destruct (renamed_to renames id) as [new|] eqn:Hto; [|by apply Hn].
    destruct (live_by_id s.1 !! id) as [n0|] eqn:Hn0; [|done]. cbn. intros [= <-]. apply renamed_to_in in Hto as (old & Hin).
    destruct (Hn _ _ Hn0) as (? & ? & ?). split; [done|]. split; [by eapply rename_member_paths|done].
  - rewrite Htomb, Hseen', Hseen. f_equal. apply set_eq. intros x. rewrite !elem_of_dom, Hlive. destruct (renamed_to renames x); [|done]. by rewrite fmap_is_Some.
Qed.

Lemma operations_replayed fuel s ops s' : replayed s.1 -> Forall (fun d => op_typed (d_kind d)) ops -> apply_operations B fuel s ops = Ok s' -> replayed s'.1.
Proof.
  intros Hr Ht Ha. revert Hr Ht. pattern s, ops, s'. revert fuel s ops s' Ha. apply apply_operations_ind; [done| |].
  - intros s op rest s1 s' He IH Hr [Hop Ht]%Forall_cons. apply IH; [|done]. by eapply effect_replayed.
  - intros s members renames rest s1 s' Hm Hrun IH Hr [_ Ht]%Forall_app. apply IH; [|done]. by eapply rename_replayed.
Qed.
End typed.

Lemma patches_replayed `{Sha256} B R schema : forall ids s s', replayed s.1 -> apply_patch_ids B R schema s ids = Ok s' -> replayed s'.1.
Proof.
  induction ids as [|id ids IH]; intros s s' Hr; cbn [apply_patch_ids]; [by intros [= <-]|].
  destruct (read_patch_operations R id schema) as [ops|] eqn:Ho; [|done]. destruct (apply_operations B (length ops) s ops) as [s1|] eqn:Ha; [|done].
  apply IH. eapply operations_replayed; [done| |done]. by eapply read_typed_operations.
Qed.

(** A state whose root exists has entries within every width. *)
Lemma replayed_state_typed `{Sha256} s es r : replayed s -> entries_from_state s = Ok es -> compute_state_root es = Ok r -> state_typed s /\ zlen es < 2 ^ 64.
Proof.
  intros [_ _ Hn _] He Hr. unfold compute_state_root in Hr. destruct (validate_entries es); [|done]. destruct (Z.leb_spec (2 ^ 64) (zlen es)); [done|]. split; [|lia].
  intros id n Hl. destruct (Hn id n Hl) as (Hid & Hp & Hc). pose proof Hl as Hin. apply (elem_of_entries s es id n He) in Hin.
  destruct es as [|e0 es']; [by apply elem_of_nil in Hin|]. destruct (mapM_result state_leaf_hash (e0 :: es')) as [lv|] eqn:Hm; [|done].
  assert (Hf : exists fields, state_leaf_fields (entry_of_node (id, n)) = Ok fields).
  { clear Hr He. revert lv Hm Hin. generalize (e0 :: es'). induction l as [|e l IH]; intros lv; cbn [mapM_result]; [by intros _ ?%elem_of_nil|].
    destruct (state_leaf_hash e) as [h|] eqn:Hh; [|done]. destruct (mapM_result state_leaf_hash l) as [hs|]; [|done]. intros _ [->|Hin]%elem_of_cons; [|by eapply IH].
    unfold state_leaf_hash, state_leaf_preimage in Hh. destruct (state_leaf_fields e) as [f|]; [by exists f|done]. }
  destruct Hf as [fields Hf]. unfold state_leaf_fields in Hf. destruct (validate_entry _); [|done].
  destruct (2 ^ 32 <=? _); [done|]. destruct (Z.leb_spec (2 ^ 64) (zlen (content_bytes (entry_of_node (id, n))))); [done|].
  unfold entry_of_node in *. destruct (ln_content n) as [b m|t]; cbn in *.
  - destruct Hc. by split.
  - split; cbn; [done|done|unfold u32; lia|done].
Qed.

(** * Claims about lifecycle replay

    What the lineage walk returns and when, what a replayed state satisfies, and that the readings which
    skip the fold (tombstones, wanted texts) and the materialize-and-retry fallback agree with it. *)


(** ** The lineage walk *)

(** [chain], oldest first, leads from a parentless block to [current] along [parents_of]. *)
Inductive lineage (R : ObjectReader) : ObjectId -> list (ObjectId * BlockPayload) -> Prop :=
| lineage_genesis id block : replay_read_block R id = Ok block -> parents_of block = [] -> lineage R id [(id, block)]
| lineage_step id block parent chain : replay_read_block R id = Ok block -> parents_of block = [parent] ->
    lineage R parent chain -> lineage R id (chain ++ [(id, block)]).

Lemma lineage_det R id chain1 chain2 : lineage R id chain1 -> lineage R id chain2 -> chain1 = chain2.
Proof.
  intros H1. revert chain2. induction H1 as [id b Hb Hp|id b p c Hb Hp _ IH]; intros chain2 H2; inversion H2 as [? b2 Hb2 Hp2|? b2 p2 c2 Hb2 Hp2 Hl2];
    rewrite Hb in Hb2; injection Hb2 as <-; rewrite Hp in Hp2; simplify_eq; [done|]. by rewrite (IH c2).
Qed.

Lemma lineage_suffix R id l1 x b l2 : lineage R id (l1 ++ (x, b) :: l2) -> lineage R x (l1 ++ [(x, b)]).
Proof.
  intros Hl. remember (l1 ++ (x, b) :: l2) as l eqn:Heq. revert l2 Heq. induction Hl as [id b' Hb Hp|id b' p c Hb Hp Hl IH]; intros l2 Heq.
  - destruct l1 as [|? [|]]; simplify_eq/=. by apply lineage_genesis.
  - destruct l2 as [|y l2] using rev_ind.
    + apply app_inj_tail in Heq as [-> [= -> ->]]. by eapply lineage_step.
    + rewrite app_comm_cons, app_assoc in Heq. apply app_inj_tail in Heq as [-> _]. by eapply IH.
Qed.

Lemma lineage_NoDup R id chain : lineage R id chain -> NoDup chain.*1.
Proof.
  induction 1 as [id b Hb Hp|id b p c Hb Hp Hl IH]; [apply NoDup_singleton|]. rewrite fmap_app. apply NoDup_app. split; [done|]. split; [|apply NoDup_singleton].
  intros x Hx Hin. cbn in Hin. apply list_elem_of_singleton in Hin as ->. apply list_elem_of_fmap in Hx as ([x b'] & Heq & Hx). cbn in Heq. subst x.
  apply list_elem_of_split in Hx as (l1 & l2 & ->). pose proof (lineage_suffix R p l1 id b' l2 Hl) as Hs. pose proof (lineage_step R id b p _ Hb Hp Hl) as Hfull.
  pose proof (lineage_det R id _ _ Hs Hfull) as Heq. apply (f_equal length) in Heq. rewrite !length_app in Heq. cbn in Heq. lia.
Qed.

Section walk.
Context (R : ObjectReader).

(** What the loop has when it stands at [current]: a chain, newest first, of distinct blocks that leads
    to [current]. *)
Lemma walk_chain_sound fuel : forall chain visited current horizon result,
  walk_chain fuel R chain visited current (Some horizon) = Ok result ->
  exists tail, result = tail ++ reverse chain /\ lineage R current tail /\ head tail.*1 = Some horizon.
Proof.
  induction fuel as [|fuel IH]; intros chain visited current horizon result; cbn [walk_chain]; [done|].
  destruct (bool_decide (current ∈ visited)); [done|]. destruct (replay_read_block R current) as [block|] eqn:Hr; [|done].
  destruct (parents_of block) as [|parent [|]] eqn:Hp; [| |done].
  - case_bool_decide as Hh; [|done]. subst horizon. intros [= <-]. exists [(current, block)]. rewrite reverse_snoc. split_and!; [done| |done].
    by apply lineage_genesis.
  - intros (tail & -> & Hl & Hh)%IH. exists (tail ++ [(current, block)]). rewrite reverse_snoc, <- app_assoc. split; [done|].
    split; [by eapply lineage_step|]. rewrite fmap_app. by destruct (tail.*1).
Qed.

Lemma walk_chain_complete tail current : lineage R current tail -> forall fuel chain visited horizon,
  head tail.*1 = Some horizon -> (length tail <= fuel)%nat -> (forall x, x ∈ tail.*1 -> x ∉ visited) ->
  walk_chain fuel R chain visited current (Some horizon) = Ok (tail ++ reverse chain).
Proof.
  induction 1 as [id b Hb Hp|id b p c Hb Hp Hl IH]; intros fuel chain visited horizon Hh Hf Hv.
  - destruct fuel as [|fuel]; cbn in Hf; [lia|]. cbn [walk_chain]. injection Hh as <-.
    rewrite bool_decide_false by (apply Hv; cbn; set_solver). rewrite Hb. cbv zeta. rewrite Hp, bool_decide_true by done. by rewrite reverse_snoc.
  - rewrite length_app in Hf. cbn in Hf. destruct fuel as [|fuel]; [lia|]. cbn [walk_chain].
    rewrite fmap_app in Hh, Hv. cbn in Hh, Hv. pose proof (lineage_NoDup R id _ (lineage_step R id b p c Hb Hp Hl)) as Hnd.
    rewrite fmap_app in Hnd. apply NoDup_app in Hnd as (_ & Hnd & _).
    rewrite bool_decide_false by (apply Hv; set_solver). rewrite Hb. cbv zeta. rewrite Hp.
    rewrite (IH fuel _ _ horizon); [by rewrite reverse_snoc, <- app_assoc| |lia|].
    + destruct c as [|y c]; [by inversion Hl; destruct chain0|done].
    + intros x Hx. specialize (Hnd x Hx). specialize (Hv x). set_solver.
Qed.

(** Each round visits one more block of a finite store. *)
Lemma walk_chain_fuel (D : gset ObjectId) : (forall id block, replay_read_block R id = Ok block -> id ∈ D) ->
  forall fuel chain visited current horizon, visited ⊆ D -> (size D < fuel + size visited)%nat ->
  walk_chain fuel R chain visited current (Some horizon) <> Err LineageOutOfFuel.
Proof.
  intros HD. induction fuel as [|fuel IH]; intros chain visited current horizon Hsub Hf.
  - apply subseteq_size in Hsub. lia.
  - cbn [walk_chain]. case_bool_decide as Hv; [done|].
    assert (Herr : replay_read_block R current <> Err LineageOutOfFuel).
    { unfold replay_read_block, ok_or, map_err. repeat case_match; congruence. }
    destruct (replay_read_block R current) as [block|] eqn:Hb; [|congruence].
    destruct (parents_of block) as [|parent [|]]; [by case_bool_decide| |done].
    apply IH; [specialize (HD _ _ Hb); set_solver|]. rewrite size_union by set_solver. rewrite size_singleton. lia.
Qed.
End walk.

Lemma memory_block_known m id block : replay_read_block (memory_reader m) id = Ok block -> id ∈ (dom m : gset ObjectId).
Proof.
  unfold replay_read_block, read_object, memory_reader, map_err. destruct (m !! id) eqn:Hm; cbn; [|done]. intros _. apply elem_of_dom. by eexists.
Qed.

Lemma lineage_length (m : gmap ObjectId ObjectEnvelope) id chain : lineage (memory_reader m) id chain -> (length chain <= size m)%nat.
Proof.
  intros Hl. pose proof (lineage_NoDup _ _ _ Hl) as Hnd. rewrite <- (length_fmap fst), <- (size_list_to_set (C := gset ObjectId)) by done.
  rewrite <- (size_dom (D := gset ObjectId) m). apply subseteq_size. intros x. rewrite elem_of_list_to_set. clear Hnd.
  induction Hl as [id b Hb Hp|id b p c Hb Hp Hl IH]; rewrite ?fmap_app; cbn; intros Hx.
  - apply list_elem_of_singleton in Hx as ->. by eapply memory_block_known.
  - apply elem_of_app in Hx as [Hx| ->%list_elem_of_singleton]; [by apply IH|]. by eapply memory_block_known.
Qed.

(** the lineage walk is total on every store and exact: it returns a chain exactly when [parents_of]
    leads from the baseline to a parentless block that is the named horizon, and then that chain, oldest
    block first; with one round per stored object it never runs out of rounds. *)
Theorem walk_lineage_exact (m : gmap ObjectId ObjectEnvelope) baseline horizon :
  walk_lineage (S (size m)) (memory_reader m) baseline horizon <> Err LineageOutOfFuel /\
  forall chain, walk_lineage (S (size m)) (memory_reader m) baseline horizon = Ok chain <->
    lineage (memory_reader m) baseline chain /\ head chain.*1 = Some horizon.
Proof.
  split.
  - apply (walk_chain_fuel _ (dom m)); [apply memory_block_known|set_solver|]. rewrite size_empty, (size_dom (D := gset ObjectId) m). lia.
  - intros chain. split.
    + intros (tail & -> & Hl & Hh)%walk_chain_sound. rewrite reverse_nil, app_nil_r. by split.
    + intros [Hl Hh]. unfold walk_lineage. rewrite (walk_chain_complete _ chain) with (horizon := horizon); [by rewrite reverse_nil, app_nil_r|done|done| |set_solver].
      apply lineage_length in Hl. lia.
Qed.

(** ** What a replay returns *)

(** every state the lineage replay returns passes the consistency check, so [replay_derived_state]
    refuses only where the replay itself does; and every text it materialized is the content of a live
    text file, with the identity the state records for it. *)
Theorem replayed_state_sound `{Sha256} fuel R baseline horizon state texts :
  replay_lineage_with_materialized_text fuel R baseline horizon = Ok (state, texts) ->
  replay_derived_state fuel R baseline horizon = Ok (baseline, state) /\
  (forall id, materialize_edited_text fuel R baseline horizon id = Ok (texts !! id)) /\
  forall id text, texts !! id = Some text -> exists path blob mode,
    live_by_id state !! id = Some (mkLive path TextFile (FileContent blob mode)) /\ text_blob_id text = Ok blob.
Proof.
  intros Hr. assert (Hinv : replay_inv (state, texts)).
  { unfold replay_lineage_with_materialized_text, replay_chain_with_appended_patches in Hr. destruct (walk_lineage _ _ _ _) as [chain|]; [|done].
    destruct (apply_blocks _ _ _ _) as [s|] eqn:Hb; [|done]. cbn in Hr. injection Hr as ->. by eapply blocks_inv, Hb; apply genesis_inv. }
  destruct Hinv as [Hok _ Hc]. split; [|split].
  - unfold replay_derived_state, replay_lineage. rewrite Hr. cbn. by rewrite (proj2 (validate_internal_consistency_iff state) Hok).
  - intros id. unfold materialize_edited_text. by rewrite Hr.
  - intros id text Ht. destruct (Hc id text Ht) as ([p k c] & b & mode & Hn & Hk & Hcn & Hb). cbn in *. subst. by exists p, b, mode.
Qed.

(** wherever the full replay of a chain succeeds, the reading that only follows creations and
    deletions succeeds and yields exactly the tombstones of the replayed state. *)
Theorem id_only_tombstones_exact `{Sha256} R blocks s :
  apply_blocks R true (NodeLifecycleState_new, ∅) blocks = Ok s -> id_only_tombstones R blocks = Ok (latest_tombstone_by_id s.1).
Proof. intros Ha. unfold id_only_tombstones. apply (tombstone_blocks R) in Ha; [done|apply ok_new]. Qed.

(** ** Texts without the fold *)

Section texts.
Context `{Sha256} (R : ObjectReader).
Abbreviation B := (StoreBackedResolver R false).

(** [text] is what an edit of [id] would start from. *)
Definition node_text (s : LState) (id : NodeId) (text : list byte) : Prop :=
  exists n blob mode, live_by_id s.1 !! id = Some n /\ ln_kind n = TextFile /\ ln_content n = FileContent blob mode /\
    materialize_current B s.2 id blob = Ok text.

(** [texts] holds the current text of every wanted node that has one, and nothing else. *)
Definition texts_exact (wanted : gset NodeId) (s : LState) (texts : TextCache) : Prop :=
  forall id text, id ∈ wanted -> texts !! id = Some text <-> node_text s id text.

Lemma node_text_det s id t1 t2 : node_text s id t1 -> node_text s id t2 -> t1 = t2.
Proof. intros (n1 & b1 & m1 & Hn1 & _ & Hc1 & Hm1) (n2 & b2 & m2 & Hn2 & _ & Hc2 & Hm2). congruence. Qed.

(** What [node_text] reads: the node, up to its path and mode, and its cache entry. *)
Definition text_source (n : LiveNode) : option (NodeKind * ObjectId) :=
  match ln_content n with FileContent blob _ => Some (ln_kind n, blob) | SymlinkContent _ => None end.

Definition same_text (s s1 : LState) (id : NodeId) : Prop :=
  s1.2 !! id = s.2 !! id /\ live_by_id s1.1 !! id ≫= text_source = live_by_id s.1 !! id ≫= text_source.

Lemma node_text_source s id text : node_text s id text <->
  exists blob, live_by_id s.1 !! id ≫= text_source = Some (TextFile, blob) /\ materialize_current B s.2 id blob = Ok text.
Proof.
  unfold node_text, text_source. split.
  - intros (n & b & m & -> & Hk & Hc & Hm). exists b. cbn. by rewrite Hc, Hk.
  - intros (b & Hs & Hm). destruct (live_by_id s.1 !! id) as [n|]; [|done]. cbn in Hs. destruct (ln_content n) as [b' m|] eqn:Hc; [|done].
    injection Hs as Hk ->. by exists n, b, m.
Qed.

Lemma same_text_iff s s1 id text : same_text s s1 id -> node_text s1 id text <-> node_text s id text.
Proof. intros [Ht Hn]. rewrite !node_text_source. unfold materialize_current. by rewrite Ht, Hn. Qed.

(** The text walk of one step whose node's text does not change. *)
Lemma texts_same wanted s s1 texts : (forall id, id ∈ wanted -> same_text s s1 id) -> texts_exact wanted s texts -> texts_exact wanted s1 texts.
Proof. intros Hs Hx id text Hw. rewrite (same_text_iff s s1 id text (Hs id Hw)). by apply Hx. Qed.

(** A step that changes one node: the others keep their texts. *)
Lemma texts_update wanted s s1 texts texts1 id : (forall i, i <> id -> same_text s s1 i /\ texts1 !! i = texts !! i) ->
  (forall text, texts1 !! id = Some text <-> node_text s1 id text) -> texts_exact wanted s texts -> texts_exact wanted s1 texts1.
Proof.
  intros Hother Hid Hx i text Hw. destruct (decide (i = id)) as [->|Hne]; [apply Hid|]. destruct (Hother i Hne) as [Hs Ht].
  rewrite Ht, (same_text_iff s s1 i text Hs). by apply Hx.
Qed.

Lemma no_node_text s id : live_by_id s.1 !! id = None \/ (exists n, live_by_id s.1 !! id = Some n /\ ln_kind n <> TextFile) ->
  forall text, None = Some text <-> node_text s id text.
Proof. intros Hn text. split; [done|]. intros (n & b & m & Hn' & Hk & _). destruct Hn as [Hn|(n' & Hn & Hk')]; congruence. Qed.

(** The resolver reads one blob for both questions. *)
Lemma resolver_agree blob kind : resolver_blob_kind (BlobResolver := B) blob = Ok (Some kind) ->
  exists bytes, resolver_blob_content (BlobResolver := B) blob = Ok (Some (kind, bytes)).
Proof. cbn. destruct (resolve_blob R false blob) as [[b|]|]; cbn; [|done|done]. intros [= <-]. by eexists. Qed.

Lemma created_file_kind path blob mode node : created_file_node B path blob mode = Ok node -> exists kind bytes,
  resolver_blob_content (BlobResolver := B) blob = Ok (Some (kind, bytes)) /\ ln_content node = FileContent blob mode /\
  (ln_kind node = TextFile <-> kind = BlobText).
Proof.
  unfold created_file_node, map_err. destruct (effect_parse_repo_path path) as [p|]; [|done].
  destruct (resolver_blob_kind blob) as [[kind|]|] eqn:Hk; cbn [ok_or]; [|done|done]. destruct (resolver_agree blob kind Hk) as [bytes Hc].
  destruct kind; cbn; intros Hn; try done; injection Hn as <-; by eexists _, bytes.
Qed.

(** An effect changes the text of its own node only. *)
Lemma shape_other s s1 kind i : effect_shape B s s1 kind -> i <> kind_node kind -> same_text s s1 i.
Proof.
  intros Hs Hne. destruct Hs as [path id blob mode node _ Hop Ht|path id target p _ Hop Ht|path id pre expected n _ Hop Ht|id old new Hop Ht|id old new Hop Ht|
    id span_id oh lh rh rep ot ll rl text blob _ Hop Ht]; cbn in Hne; unfold same_text; rewrite Ht; (split; [by rewrite ?lookup_delete_ne, ?lookup_insert_ne by done|]).
  - apply create_node_spec in Hop as (_ & -> & _). by rewrite lookup_insert_ne.
  - apply create_node_spec in Hop as (_ & -> & _). by rewrite lookup_insert_ne.
  - apply delete_node_checked_spec in Hop as (_ & -> & _). by rewrite lookup_delete_ne.
  - apply change_file_mode_spec in Hop as (? & ? & _ & _ & -> & _). by rewrite lookup_insert_ne.
  - apply replace_file_blob_spec in Hop as (? & ? & _ & _ & _ & -> & _). by rewrite lookup_insert_ne.
  - apply set_text_blob_spec in Hop as (? & ? & ? & _ & _ & _ & -> & _). by rewrite lookup_insert_ne.
Qed.

Lemma text_step_unwanted wanted texts op : kind_node (d_kind op) ∉ wanted -> text_step B wanted texts op = Some texts.
Proof. unfold text_step. destruct (d_kind op); cbn; intros Hw; try done; by rewrite bool_decide_false. Qed.

Lemma uncached s id : cache_coherent s -> live_by_id s.1 !! id = None -> s.2 !! id = None.
Proof. intros Hcc Hn. destruct (s.2 !! id) as [t|] eqn:Ht; [|done]. destruct (Hcc id t Ht) as (n & b & m & Hn' & _). congruence. Qed.

(** The text of a created file. *)
Lemma created_text (wanted : gset NodeId) (s s1 : LState) (path : list byte) (id blob : NodeId) (mode : Z) (node : LiveNode) (texts : TextCache) : cache_coherent s -> id ∈ wanted ->
  created_file_node B path blob mode = Ok node -> create_node s.1 id node = (Ok tt, s1.1) -> s1.2 = s.2 ->
  exists texts1 : TextCache, (match resolver_blob_content (BlobResolver := B) blob with
    | Ok (Some (BlobText, bytes)) => Some (<[id := bytes]> texts) | Ok _ => Some (delete id texts) | Err _ => None end) = Some texts1 /\
    (forall i, i <> id -> texts1 !! i = texts !! i) /\ forall text, texts1 !! id = Some text <-> node_text s1 id text.
Proof.
  intros Hcc Hw Hnode Hop Ht. destruct (created_file_kind path blob mode node Hnode) as (kind & bytes & Hc & Hcn & Hk). rewrite Hc.
  apply create_node_spec in Hop as (Hno & Hlive & _). pose proof (uncached s id Hcc Hno) as Hu.
  assert (Hother : kind <> BlobText -> forall text, (delete id texts : TextCache) !! id = Some text <-> node_text s1 id text).
  { intros Hk'. rewrite lookup_delete_eq. apply no_node_text. right. exists node. rewrite Hlive, lookup_insert_eq. split; [done|]. by rewrite Hk. }
  destruct kind; (eexists; split; [done|]; split; [intros i Hi; by rewrite ?lookup_delete_ne, ?lookup_insert_ne by done|]); try (apply Hother; done).
  intros text. rewrite lookup_insert_eq. unfold node_text, materialize_current. rewrite Hlive, Ht, lookup_insert_eq, Hu. split.
  - intros [= <-]. exists node, blob, mode. rewrite Hc. cbn. split_and!; [done|by apply Hk|done|done].
  - intros (n & b & m & [= <-] & _ & Hb & Hm). rewrite Hcn in Hb. injection Hb as <- <-. rewrite Hc in Hm. cbn in Hm. rewrite bool_decide_true in Hm by done. cbn in Hm. congruence.
Qed.

(** The text an edit leaves is the one the walk computes. *)
Lemma edited_current s id span_id oh lh rh rep ot ll rl text blob :
  edited_text B s id span_id oh lh rh rep ot ll rl = Ok (text, blob) -> exists current start end_, node_text s id current /\
    resolve_text_span current ot lh rh span_id id oh ll rl = Ok (start, end_) /\ splice_text current start end_ rep = Ok text.
Proof.
  destruct s as [st tc]. unfold edited_text, live_node, map_err, node_text. case_bool_decide; cbn [negb]; [|done].
  destruct (live_by_id st !! id) as [n|] eqn:Hn; cbn [ok_or]; [|done]. case_bool_decide as Hk; cbn [negb]; [|done].
  destruct (ln_content n) as [b m|] eqn:Hc; [|done]. destruct (materialize_current B tc id b) as [current|] eqn:Hm; [|done].
  destruct (resolve_text_span _ _ _ _ _ _ _ _ _) as [[start end_]|] eqn:Hr; [|done]. destruct (splice_text _ _ _ _) as [new|] eqn:Hsp; [|done].
  destruct (text_blob_id new); [|done]. intros [= <- <-]. exists current, start, end_. split_and!; [|done|done]. by exists n, b, m.
Qed.

(** One operation: where the fold succeeds the walk follows, and stays exact. *)
Lemma text_step_exact wanted s s1 op texts : cache_coherent s -> effect_shape B s s1 (d_kind op) -> texts_exact wanted s texts ->
  exists texts1, text_step B wanted texts op = Some texts1 /\ texts_exact wanted s1 texts1.
Proof.
  intros Hcc Hs Hx. destruct (decide (kind_node (d_kind op) ∈ wanted)) as [Hw|Hw].
  2: { exists texts. split; [by apply text_step_unwanted|]. apply (texts_same wanted s); [|done]. intros i Hi. apply (shape_other s s1 (d_kind op)); [done|congruence]. }
  assert (Hother : forall i, i <> kind_node (d_kind op) -> same_text s s1 i) by (intros i Hi; by apply (shape_other s s1 (d_kind op))).
  unfold text_step.
  destruct Hs as [path id blob mode node Hnode Hop Ht|path id target p _ Hop Ht|path id pre expected n He Hop Ht|id old new Hop Ht|id old new Hop Ht|
    id span_id oh lh rh rep ot ll rl text blob He Hop Ht]; cbn [kind_node] in *; rewrite ?bool_decide_true by done.
  - destruct (created_text wanted s s1 path id blob mode node texts) as (texts1 & Heq & Ho & Hid); [done..|]. exists texts1. split; [exact Heq|].
    apply (texts_update wanted s s1 texts texts1 id); [|done|done]. intros i Hi. split; [by apply Hother|by apply Ho].
  - exists texts. split; [done|]. apply create_node_spec in Hop as (Hno & Hlive & _). apply (texts_update wanted s s1 texts texts id); [|intros text|done].
    + intros i Hi. split; [by apply Hother|done].
    + rewrite (Hx id text Hw). split; intros (n & b & m & Hn & Hk & _); [congruence|]. rewrite Hlive, lookup_insert_eq in Hn. by injection Hn as <-.
  - exists (delete id texts). split; [done|]. apply delete_node_checked_spec in Hop as (_ & Hlive & _).
    apply (texts_update wanted s s1 texts _ id); [|rewrite lookup_delete_eq|done].
    + intros i Hi. split; [by apply Hother|by rewrite lookup_delete_ne].
    + apply no_node_text. left. by rewrite Hlive, lookup_delete_eq.
  - exists texts. split; [done|]. apply (texts_same wanted s); [|done]. intros i Hi. destruct (decide (i = id)) as [->|Hne]; [|by apply Hother].
    apply change_file_mode_spec in Hop as (n & b & Hn & Hc & Hlive & _). split; [by rewrite Ht|].
    rewrite Hlive, lookup_insert_eq, Hn. unfold text_source. cbn. by rewrite Hc.
  - exists (delete id texts). split; [done|]. apply replace_file_blob_spec in Hop as (n & m & Hn & Hk & _ & Hlive & _).
    apply (texts_update wanted s s1 texts _ id); [|rewrite lookup_delete_eq|done].
    + intros i Hi. split; [by apply Hother|by rewrite lookup_delete_ne].
    + apply no_node_text. right. eexists. rewrite Hlive, lookup_insert_eq. split; [done|]. cbn. congruence.
  - destruct (edited_current _ _ _ _ _ _ _ _ _ _ _ _ He) as (current & start & end_ & Hcur & Hr & Hsp). apply (Hx id current Hw) in Hcur. rewrite Hcur. cbn.
    rewrite Hr, Hsp. eexists. split; [done|]. apply set_text_blob_spec in Hop as (n & b & m & Hn & Hk & Hc & Hlive & _).
    apply (texts_update wanted s s1 texts _ id); [|intros t|done].
    + intros i Hi. split; [by apply Hother|by rewrite lookup_insert_ne].
    + rewrite lookup_insert_eq. unfold node_text, materialize_current. rewrite Hlive, Ht, !lookup_insert_eq. split.
      * intros [= <-]. by eexists _, _, _.
      * intros (n' & b' & m' & _ & _ & _ & Hm). congruence.
Qed.

Lemma text_walk_app wanted l1 l2 : forall texts, text_walk B wanted texts (l1 ++ l2) = (texts1 ← text_walk B wanted texts l1; text_walk B wanted texts1 l2).
Proof. induction l1 as [|op l1 IH]; intros texts; cbn; [done|]. destruct (text_step B wanted texts op); cbn; [apply IH|done]. Qed.

Lemma text_walk_renames wanted members renames texts : rename_members members renames -> text_walk B wanted texts members = Some texts.
Proof.
  induction 1 as [|op r members renames Hr _ IH]; [done|]. cbn [text_walk]. unfold text_step at 1. unfold effect_rename_triple in Hr. by destruct (d_kind op).
Qed.

Lemma text_walk_exact wanted fuel s ops s' : replay_inv s -> apply_operations B fuel s ops = Ok s' -> forall texts, texts_exact wanted s texts ->
  exists texts', text_walk B wanted texts ops = Some texts' /\ texts_exact wanted s' texts'.
Proof.
  intros Hinv Ha. revert Hinv. pattern s, ops, s'. revert fuel s ops s' Ha. apply apply_operations_ind.
  - intros s _ texts Hx. by exists texts.
  - intros s op rest s1 s' He IH Hinv texts Hx. destruct (text_step_exact wanted s s1 op texts) as (texts1 & Hst & Hx1);
      [by apply ri_cache|by apply effect_ok|done|]. cbn [text_walk]. rewrite Hst. apply IH; [by eapply effect_inv|done].
  - intros s members renames rest s1 s' Hm Hr IH Hinv texts Hx. rewrite text_walk_app, (text_walk_renames _ _ _ _ Hm). apply IH; [by eapply rename_inv|].
    apply (texts_same wanted s); [|done]. intros i _. apply rename_run_inv in Hr as (_ & Ht & _ & Hlive); [|by apply ri_ok].
    split; [by rewrite Ht|]. destruct (Hlive i) as (f & Hf & Hp). rewrite Hf. destruct (live_by_id s.1 !! i) as [n|]; [|done].
    unfold text_source. cbn. by destruct (Hp n) as [-> ->].
Qed.
End texts.

(** reading the wanted texts forward agrees with the full replay: from seeds that are exactly the
    texts the wanted nodes have in [s], wherever the replay of the blocks succeeds the reading succeeds
    too, and it returns exactly the texts the wanted nodes have in the replayed state. *)
Theorem wanted_text_exact `{Sha256} R wanted : forall blocks s s' seeds, replay_inv s -> apply_blocks R false s blocks = Ok s' ->
  texts_exact R wanted s seeds ->
  exists texts, materialize_wanted_text_forward R seeds blocks wanted = Ok (Some texts) /\ texts_exact R wanted s' texts.
Proof.
  assert (Happ : forall l1 l2 texts, text_walk_patches R wanted texts (l1 ++ l2) =
    (let? r := text_walk_patches R wanted texts l1 in match r with Some texts1 => text_walk_patches R wanted texts1 l2 | None => Ok None end)).
  { induction l1 as [|id l1 IH]; intros l2 texts; cbn; [done|]. destruct (read_patch_operations R id false) as [ops|]; [|done].
    destruct (text_walk _ _ _ _); [apply IH|done]. }
  assert (Hp : forall ids s s' texts, replay_inv s -> apply_patch_ids (StoreBackedResolver R false) R false s ids = Ok s' -> texts_exact R wanted s texts ->
    exists texts', text_walk_patches R wanted texts ids = Ok (Some texts') /\ texts_exact R wanted s' texts').
  { induction ids as [|id ids IH]; intros s s' texts Hinv; cbn [apply_patch_ids text_walk_patches]; [intros [= <-] Hx; by exists texts|].
    destruct (read_patch_operations R id false) as [ops|]; [|done]. destruct (apply_operations _ _ s ops) as [s1|] eqn:Ha; [|done]. intros Hr Hx.
    destruct (text_walk_exact R wanted _ s ops s1 Hinv Ha texts Hx) as (texts1 & -> & Hx1). apply (IH s1); [by eapply operations_inv|done|done]. }
  unfold materialize_wanted_text_forward. induction blocks as [|b blocks IH]; intros s s' seeds Hinv; cbn [apply_blocks]; [intros [= <-] Hx; by exists seeds|].
  destruct (apply_patch_ids _ _ _ _ _) as [s1|] eqn:Ha; [|done]. intros Hr Hx. cbn [mbind list_bind]. rewrite Happ.
  destruct (Hp _ _ _ _ Hinv Ha Hx) as (texts1 & -> & Hx1). apply (IH s1); [by eapply patches_inv|done|done].
Qed.

(** ** The materialize-and-retry fallback *)

(** [B] with one Text blob more. *)
Definition with_text_blob (B : BlobResolver) (blob : ObjectId) (text : list byte) : BlobResolver := {|
  resolver_blob_kind id := if bool_decide (id = blob) then Ok (Some BlobText) else resolver_blob_kind (BlobResolver := B) id;
  resolver_blob_content id := if bool_decide (id = blob) then Ok (Some (BlobText, text)) else resolver_blob_content (BlobResolver := B) id;
|}.

Definition is_edit_of (id : NodeId) (kind : DecodedOperationKind) : Prop :=
  match kind with DEditText node_id _ _ _ _ _ _ _ _ => node_id = id | _ => False end.

(** an edit of a node whose content blob is missing from the store, applied with the fallback that
    materializes the sealed text and retries, succeeds exactly when the same edit succeeds over a store
    that holds the blob with that text, and leaves the same state and the same cache. *)
Theorem fallback_as_stored `{Sha256} B materialize s kind id path blob mode text s1 :
  is_edit_of id kind -> live_by_id s.1 !! id = Some (mkLive path TextFile (FileContent blob mode)) -> s.2 !! id = None ->
  resolver_blob_content (BlobResolver := B) blob = Ok None -> materialize id blob = Ok (Some text) ->
  apply_state_effect_with_materialize_fallback B (Some materialize) s kind = (Ok tt, s1) <->
  apply_state_effect (with_text_blob B blob text) s kind = (Ok tt, s1).
Proof.
  intros Hkind Hn Hc Hb Hm. destruct kind as [| |node_id span oh lh rh rep ot ll rl| | | |]; try done. cbn in Hkind. subst node_id.
  unfold apply_state_effect_with_materialize_fallback. destruct s as [st tc]. cbn [fst snd] in *. cbn [apply_state_effect].
  unfold effect_edit_text, edited_text, live_node. rewrite Hn. cbn [ok_or ln_kind ln_content].
  assert (Hmat : materialize_current B tc id blob = Err (MissingBlobForLifecycleEffect blob)) by (unfold materialize_current; by rewrite Hc, Hb).
  assert (Hcached : materialize_current B (<[id := text]> tc) id blob = Ok text) by (unfold materialize_current; by rewrite lookup_insert_eq).
  assert (Hstored : materialize_current (with_text_blob B blob text) tc id blob = Ok text).
  { unfold materialize_current. rewrite Hc. cbn. by rewrite bool_decide_true by done. }
  rewrite Hmat, Hstored. case_bool_decide as Hh; cbn [negb with_value]; [|done]. rewrite bool_decide_true by done. cbn [negb with_value fst snd].
  rewrite Hm, Hn. cbn [ok_or ln_kind ln_content]. rewrite bool_decide_true by done. cbn [negb]. rewrite Hcached. cbn [fst snd].
  destruct (map_err _ (resolve_text_span _ _ _ _ _ _ _ _ _)) as [[start end_]|]; cbn [with_value]; [|by split].
  destruct (map_err _ (splice_text _ _ _ _)) as [new|]; cbn [with_value]; [|by split]. destruct (map_err _ (text_blob_id new)) as [b|]; cbn [with_value]; [|by split].
  destruct (set_text_blob st id b) as [[[]|e] st']; cbn; [|by split]. rewrite insert_insert_eq. split; by intros [= <-].
Qed.

(** ** A history of three blocks *)

(** A text file is created, edited and deleted. *)
Definition history_id (b : byte) : ObjectId := replicate 32 b.
Definition history_node : NodeId := replicate 32 x01.
Definition history_path : list byte := bytes_of_string "a.txt".
Definition history_patch (kind : OperationKind) : ObjectEnvelope :=
  match @to_canonical_bytes _ (@PatchPayload_encode hash_mod_p) (mkPatch [mkOperation 1 None [] kind] None [] PurposeNormal None) with
  | Ok bytes => unsigned Patch 4 bytes | Err _ => unsigned Patch 4 [] end.
Definition history_block (parents : list ObjectId) (kind : BlockKind) (patch : ObjectId) : ObjectEnvelope :=
  match to_canonical_bytes (mkBlock parents kind [patch] (replicate 32 x00) None None None) with
  | Ok bytes => unsigned Block 1 bytes | Err _ => unsigned Block 1 [] end.
Definition text_envelope (text : list byte) : ObjectEnvelope :=
  match to_canonical_bytes (BlobPayload_new BlobText text) with Ok bytes => unsigned Blob 1 bytes | Err _ => unsigned Blob 1 [] end.
Definition history_text_id (text : list byte) : ObjectId := match @text_blob_id hash_mod_p text with Ok id => id | Err _ => [] end.
Definition history_first : ObjectId := history_text_id (bytes_of_string "a line").

Definition history : gmap ObjectId ObjectEnvelope := list_to_map [
  (history_first, text_envelope (bytes_of_string "a line"));
  (history_id x11, history_patch (OpCreateFile (mkCreateFile history_path history_node history_first 33188)));
  (history_id x12, history_patch (OpEditText (authored_edit_text history_node witness_plan)));
  (history_id x13, history_patch (OpDeleteNode (mkDeleteNode history_path history_node TextFile
     (PreimageFile (history_text_id (bytes_of_string "a Line")) 33188))));
  (history_id x21, history_block [] KindRoot (history_id x11));
  (history_id x22, history_block [history_id x21] KindNormal (history_id x12));
  (history_id x23, history_block [history_id x22] KindNormal (history_id x13))].

Definition history_chain (n : nat) : list BlockPayload :=
  match walk_lineage 9 (memory_reader history) (history_id x23) (history_id x21) with Ok chain => take n chain.*2 | Err _ => [] end.

Definition history_replay : LResult LState :=
  @replay_lineage_with_materialized_text hash_mod_p 9 (memory_reader history) (history_id x22) (history_id x21).

Definition history_fold (schema : bool) (n : nat) : LResult LState :=
  @apply_blocks hash_mod_p (memory_reader history) schema (NodeLifecycleState_new, ∅) (history_chain n).

Lemma replayed_state_sound_witness : exists state texts, history_replay = Ok (state, texts) /\ texts !! history_node = Some (bytes_of_string "a Line") /\
  @replay_derived_state hash_mod_p 9 (memory_reader history) (history_id x22) (history_id x21) = Ok (history_id x22, state).
Proof.
  assert (Hok : is_ok history_replay = true) by (by vm_compute). apply is_ok_inv in Hok as [[state texts] Hr]. exists state, texts. split; [exact Hr|]. split.
  - assert (Ht : (match history_replay with Ok (_, t) => t !! history_node | Err _ => None end) = Some (bytes_of_string "a Line")) by (by vm_compute).
    by rewrite Hr in Ht.
  - destruct (@replayed_state_sound hash_mod_p 9 (memory_reader history) (history_id x22) (history_id x21) state texts Hr) as [Hd _]. exact Hd.
Defined.

Lemma id_only_tombstones_exact_witness : exists s, history_fold true 3 = Ok s /\
  @id_only_tombstones hash_mod_p (memory_reader history) (history_chain 3) = Ok (latest_tombstone_by_id s.1).
Proof.
  assert (Hok : is_ok (history_fold true 3) = true) by (by vm_compute). apply is_ok_inv in Hok as [s Ha]. exists s. split; [exact Ha|].
  exact (@id_only_tombstones_exact hash_mod_p (memory_reader history) (history_chain 3) s Ha).
Defined.

Lemma wanted_text_exact_witness : exists s texts, history_fold false 2 = Ok s /\
  @materialize_wanted_text_forward hash_mod_p (memory_reader history) ∅ (history_chain 2) {[history_node]} = Ok (Some texts) /\
  texts_exact (memory_reader history) {[history_node]} s texts.
Proof.
  assert (Hok : is_ok (history_fold false 2) = true) by (by vm_compute). apply is_ok_inv in Hok as [s Ha]. exists s.
  destruct (@wanted_text_exact hash_mod_p (memory_reader history) {[history_node]} (history_chain 2) (NodeLifecycleState_new, ∅) s ∅) as (texts & Hf & Hx);
    [apply genesis_inv|exact Ha| |exists texts; exact (conj Ha (conj Hf Hx))].
  intros id text _. rewrite lookup_empty. apply no_node_text. left. apply lookup_empty.
Defined.

(** The edit of the second block, over a store that has lost the file's first content. *)
Definition lost_blob_resolver : BlobResolver := {| resolver_blob_kind _ := Ok None; resolver_blob_content _ := Ok None |}.
Definition history_live : NodeLifecycleState :=
  mkLifecycle {[history_node := mkLive history_path TextFile (FileContent history_first 33188)]} {[history_path := history_node]} ∅ {[history_node]}.

Definition history_edit : DecodedOperationKind := EditText_decoded (authored_edit_text history_node witness_plan).
Definition history_sealed (_ : NodeId) (_ : ObjectId) : PResult (option (list byte)) := Ok (Some (bytes_of_string "a line")).
Definition history_edited : Effect unit :=
  @apply_state_effect hash_mod_p (with_text_blob lost_blob_resolver history_first (bytes_of_string "a line")) (history_live, ∅) history_edit.

Lemma fallback_as_stored_witness :
  @apply_state_effect_with_materialize_fallback hash_mod_p lost_blob_resolver (Some history_sealed) (history_live, ∅) history_edit
  = (Ok tt, history_edited.2).
Proof.
  assert (Hkind : is_edit_of history_node history_edit) by (vm_compute; reflexivity).
  assert (Hn : live_by_id (history_live, ∅ : TextCache).1 !! history_node = Some (mkLive history_path TextFile (FileContent history_first 33188)))
    by (apply lookup_singleton_eq).
  assert (He : history_edited = (Ok tt, history_edited.2)) by (vm_compute; reflexivity).
  exact (proj2 (@fallback_as_stored hash_mod_p lost_blob_resolver history_sealed (history_live, ∅) history_edit history_node history_path history_first 33188
    (bytes_of_string "a line") history_edited.2 Hkind Hn eq_refl eq_refl eq_refl) He).
Defined.

(** The second edit of a file, in a block of its own. *)
Definition second_plan : AuthoredTextSpan :=
  match @plan_authored_text_span hash_mod_p (bytes_of_string "a Line") (bytes_of_string "a Lime") history_node with
  | Ok (Some a) => a | _ => witness_plan end.
Definition second_edit_history : gmap ObjectId ObjectEnvelope :=
  <[history_id x14 := history_patch (OpEditText (authored_edit_text history_node second_plan))]> history.
Definition second_edit_block : BlockPayload := mkBlock [history_id x22] KindNormal [history_id x14] (replicate 32 x00) None None None.
Definition second_edit_state (n : nat) : NodeLifecycleState :=
  match @apply_blocks hash_mod_p (memory_reader second_edit_history) false (NodeLifecycleState_new, ∅) (take n (history_chain 2 ++ [second_edit_block])) with
  | Ok s => s.1 | Err _ => NodeLifecycleState_new end.

(** applying one block on its own is not the tail of the full replay.  The full replay of a file's
    creation and two edits, one per block, succeeds; applying the third block with a fresh cache to the
    state the first two leave fails, because the content of the first edit was never stored as a blob. *)
Theorem fresh_cache_misses_earlier_edit :
  is_ok (@apply_blocks hash_mod_p (memory_reader second_edit_history) false (NodeLifecycleState_new, ∅) (history_chain 2 ++ [second_edit_block])) = true /\
  @apply_one_block hash_mod_p (memory_reader second_edit_history) second_edit_block (second_edit_state 2) false
  = Err (MissingBlobForLifecycleEffect (history_text_id (bytes_of_string "a Line"))).
Proof. split; vm_compute; reflexivity. Qed.
