(* ===== verification/TailLog.v ===== *)
(** * Framed logs with a torn tail (crates/prikk-store/src/foundation/frame_resync.rs, refs/container.rs, refs/pointer_index.rs, wal.rs)

    The ref log, the ref pointer index and the write-ahead log are three copies of one reader: frames of
    magic, version, key, body length, checksum and body, one after the other; damage is isolated, and
    bytes with no sound frame after them are a torn tail.  [LogFormat] says what differs between the
    copies; the reader is written once over it. *)

From S2P Require Import Prelude PrikkError Hash Utf8 ByteCursor FrameResync IndexFile Container ContainerThms.


Record LogFormat (A : Type) : Type := mkLogFormat {
  lf_label : string;
  lf_magic : list byte;
  lf_version : Z;
  lf_key_len : nat;
  (** A frame written in full is damage and never a tail. *)
  lf_strict : bool;
  lf_decode : list byte -> list byte -> PResult A;
  lf_admit : A -> PResult unit;
  lf_budget_message : string;
  (** For a header that does not parse over a body whose checksum verifies. *)
  lf_complete_message : string;
}.
Arguments lf_label {A}.
Arguments lf_magic {A}.
Arguments lf_version {A}.
Arguments lf_key_len {A}.
Arguments lf_strict {A}.
Arguments lf_decode {A}.
Arguments lf_admit {A}.
Arguments lf_budget_message {A}.
Arguments lf_complete_message {A}.

Record LogHeader : Type := mkLogHeader { lh_key : list byte; lh_body_len : Z; lh_checksum : list byte }.

Inductive LogStatus : Type :=
| LogEvaluated
| LogFailed (message : string) (claimed_key : option (list byte)) (never_a_tail : bool).

Record LogOutcome : Type := mkLogOutcome { lo_offset : nat; lo_status : LogStatus }.

Record LogReplay (A : Type) : Type := mkLogReplay {
  lr_records : list A;
  lr_trailing : nat;
  lr_tail_offset : nat;
  lr_outcomes : list LogOutcome;
}.
Arguments mkLogReplay {A}.
Arguments lr_records {A}.
Arguments lr_trailing {A}.
Arguments lr_tail_offset {A}.
Arguments lr_outcomes {A}.

Definition log_failed (status : LogStatus) : bool := match status with LogFailed _ _ _ => true | LogEvaluated => false end.
Definition log_has_item_failure {A} (replay : LogReplay A) : bool := existsb (fun o => log_failed (lo_status o)) (lr_outcomes replay).

Inductive LogAttempt (A : Type) : Type :=
| LogRecordAt (record : A) (key : list byte) (next_offset : nat)
| LogPartial (remaining : nat)
| LogInvalid (message : string) (claimed_key : option (list byte)) (never_a_tail : bool).
Arguments LogRecordAt {A}.
Arguments LogPartial {A}.
Arguments LogInvalid {A}.

(** [complete_by_checksum]: whether a checksum stored at [offset] verifies for the claimed length or for
    the bytes to the end of the file. *)
Definition complete_by_checksum (bytes : list byte) (offset header_len : nat) (budget : ScanBudget) (checksum_of : Z -> list byte -> list byte)
  : option nat * ScanBudget :=
  let header_end := (offset + header_len)%nat in
  if (length bytes <? header_end)%nat then (None, budget)
  else
    match get_range bytes (header_end - 32) header_end with
    | None => (None, budget)
    | Some stored =>
        let claimed := match get_range bytes (header_end - 32 - 8) (header_end - 32) with Some s => from_be_bytes s | None => 2 ^ 64 end in
        let by_claim :=
          if (usize_max <? claimed) || (usize_max <? Z.of_nat header_end + claimed) then None
          else
            match get_range bytes header_end (header_end + Z.to_nat claimed) with
            | Some body => Some body
            | None => None
            end in
        let '(found, budget) :=
          match by_claim with
          | Some body =>
              (bool_decide (checksum_of claimed body = stored), charge budget (Z.of_nat (length body + header_len)))
          | None => (false, budget)
          end in
        if found then (Some (header_end + Z.to_nat claimed)%nat, budget)
        else
          let body := drop header_end bytes in
          let budget := charge budget (Z.of_nat (length body + header_len)) in
          (if bool_decide (checksum_of (zlen body) body = stored) then Some (length bytes) else None, budget)
    end.

Section tail_log.
Context `{Sha256} {A : Type} (F : LogFormat A).

Definition LOG_HEADER_LEN : nat := (8 + 2 + lf_key_len F + 8 + 32)%nat.

Definition log_checksum (key : list byte) (body_len : Z) (body : list byte) : list byte :=
  sha256 (lf_magic F ++ to_be_bytes 2 (lf_version F) ++ key ++ to_be_bytes 8 body_len ++ body).

Definition frame_log_record (key body : list byte) : list byte :=
  lf_magic F ++ to_be_bytes 2 (lf_version F) ++ key ++ to_be_bytes 8 (zlen body) ++ log_checksum key (zlen body) body ++ body.

Definition parse_log_header (header : list byte) : PResult LogHeader :=
  let c := ByteCursor_new header in
  let? '(magic, c) := bc_read_array 8 c in
  if negb (bool_decide (magic = lf_magic F)) then Err (MalformedData "invalid record magic")
  else
    let? '(version, c) := bc_read_u16 c in
    if negb (version =? lf_version F) then Err (UnsupportedFormatVersion version)
    else
      let? '(key, c) := bc_read_array (Z.of_nat (lf_key_len F)) c in
      let? '(body_len, c) := bc_read_u64 c in
      let? '(checksum, c) := bc_read_array 32 c in
      if negb (is_finished c) then Err (MalformedData "trailing bytes in header")
      else Ok (mkLogHeader key body_len checksum).

Definition raw_key_at (header : list byte) : option (list byte) := get_range header 10 (10 + lf_key_len F).

(** Whether the bytes at [offset] are a frame that was written in full; only the strict logs look. *)
Definition log_complete (bytes : list byte) (offset : nat) (key : list byte) (budget : ScanBudget) : bool * ScanBudget :=
  if lf_strict F then
    let '(found, budget) := complete_by_checksum bytes offset LOG_HEADER_LEN budget (log_checksum key) in
    (is_some found, budget)
  else (false, budget).

Definition parse_log_frame_at (bytes : list byte) (offset : nat) (budget : ScanBudget) : LogAttempt A * ScanBudget :=
  let remaining := (length bytes - offset)%nat in
  if (remaining <? LOG_HEADER_LEN)%nat then (LogPartial remaining, budget)
  else
    let header_end := (offset + LOG_HEADER_LEN)%nat in
    match get_range bytes offset header_end with
    | None => (LogPartial remaining, budget)
    | Some header =>
        match parse_log_header header with
        | Err _ =>
            match raw_key_at header with
            | None => (LogInvalid "{err}" None false, budget)
            | Some key =>
                let '(never_a_tail, budget) := log_complete bytes offset key budget in
                (LogInvalid (if never_a_tail then lf_complete_message F else "{err}") None never_a_tail, budget)
            end
        | Ok values =>
            let claimed := Some (lh_key values) in
            if usize_max <? lh_body_len values
            then (LogInvalid (lf_label F +:+ " body length does not fit usize") claimed false, budget)
            else if usize_max <? Z.of_nat header_end + lh_body_len values
            then (LogInvalid (lf_label F +:+ " body end overflow") claimed false, budget)
            else
              let body_end := (header_end + Z.to_nat (lh_body_len values))%nat in
              match get_range bytes header_end body_end with
              | None =>
                  let '(never_a_tail, budget) := log_complete bytes offset (lh_key values) budget in
                  if never_a_tail
                  then (LogInvalid (lf_label F +:+ " record length claims more bytes than remain, but a complete record's own checksum verifies against the length to the end of the file") claimed true, budget)
                  else (LogPartial remaining, budget)
              | Some body =>
                  let budget := charge budget (Z.of_nat (length body + LOG_HEADER_LEN)) in
                  let expected := log_checksum (lh_key values) (lh_body_len values) body in
                  if negb (bool_decide (expected = lh_checksum values))
                  then (LogInvalid (lf_label F +:+ " checksum mismatch at byte offset {offset}") claimed (lf_strict F), budget)
                  else
                    match lf_decode F (lh_key values) body with
                    | Ok record => (LogRecordAt record (lh_key values) body_end, budget)
                    | Err _ => (LogInvalid "{err}" claimed (lf_strict F), budget)
                    end
              end
        end
    end.

Definition log_sound (bytes : list byte) (candidate : nat) (budget : ScanBudget) : bool * ScanBudget :=
  let '(attempt, budget) := parse_log_frame_at bytes candidate budget in
  (match attempt with LogRecordAt _ _ _ => true | _ => false end, budget).

Definition log_sound_after (bytes : list byte) (offset : nat) (budget : ScanBudget) : BoundedScan * ScanBudget :=
  sound_frame_after_partial_budgeted bytes offset (lf_magic F) budget (log_sound bytes).

(** The decode [loop]: every iteration moves [offset] forward. *)
Fixpoint decode_log_loop (fuel : nat) (bytes : list byte) (offset : nat) (budget : ScanBudget) (records : list A) (outcomes : list LogOutcome)
  : PResult (LogReplay A) :=
  match fuel with
  | O => Err OutOfFuel
  | S fuel' =>
      let failed message claimed never := outcomes ++ [mkLogOutcome offset (LogFailed message claimed never)] in
      if exceeded budget then Ok (mkLogReplay records 0 offset (failed (lf_budget_message F) None false))
      else
        match parse_log_frame_at bytes offset budget with
        | (LogRecordAt record key next_offset, budget) =>
            let? next := require_progress (lf_label F) offset next_offset in
            match lf_admit F record with
            | Ok _ => decode_log_loop fuel' bytes next budget (records ++ [record]) (outcomes ++ [mkLogOutcome offset LogEvaluated])
            | Err _ => decode_log_loop fuel' bytes next budget records (failed "{err}" (Some key) true)
            end
        | (LogPartial remaining, budget) =>
            match log_sound_after bytes offset budget with
            | (NoSoundFrame, _) => Ok (mkLogReplay records remaining offset outcomes)
            | (Undetermined, _) => Ok (mkLogReplay records 0 offset (failed (lf_budget_message F) None false))
            | (Sound next, budget) =>
                let? next := require_progress (lf_label F) offset next in
                decode_log_loop fuel' bytes next budget records (failed partial_before_sound_frame_message (raw_key_at (drop offset bytes)) false)
            end
        | (LogInvalid message claimed never_a_tail, budget) =>
            if never_a_tail then
              let outcomes := failed message claimed true in
              match resync_to_next_magic bytes (S offset) (lf_magic F) with
              | Some next =>
                  let? next := require_progress (lf_label F) offset next in
                  decode_log_loop fuel' bytes next budget records outcomes
              | None => Ok (mkLogReplay records 0 (length bytes) outcomes)
              end
            else
              match log_sound_after bytes offset budget with
              | (NoSoundFrame, _) => Ok (mkLogReplay records (length bytes - offset) offset outcomes)
              | (Undetermined, _) => Ok (mkLogReplay records 0 offset (failed ("{message}; " +:+ lf_budget_message F) claimed false))
              | (Sound next, budget) =>
                  let? next := require_progress (lf_label F) offset next in
                  decode_log_loop fuel' bytes next budget records (failed message claimed false)
              end
        end
  end.

Definition decode_log (bytes : list byte) : PResult (LogReplay A) :=
  decode_log_loop (S (S (length bytes))) bytes 0 (ScanBudget_for_input (length bytes)) [] [].
End tail_log.

(** * Theorems about framed logs

    Frames written one after the other decode to their records; the first bytes of an interrupted append
    behind them are a torn tail of their length. *)


Section log.
Context `{Sha256} {A : Type} (F : LogFormat A) (Hmagic : length (lf_magic F) = 8%nat) (Hversion : u16 (lf_version F)).

Definition log_preimage (key body : list byte) : list byte :=
  lf_magic F ++ to_be_bytes 2 (lf_version F) ++ key ++ to_be_bytes 8 (zlen body) ++ body.

Lemma log_checksum_preimage key body : log_checksum F key (zlen body) body = sha256 (log_preimage key body).
Proof. done. Qed.

Definition enc_log_header (key : list byte) (n : Z) (checksum : list byte) : list byte :=
  lf_magic F ++ to_be_bytes 2 (lf_version F) ++ key ++ to_be_bytes 8 n ++ checksum.

Lemma frame_split_header key body : frame_log_record F key body = enc_log_header key (zlen body) (log_checksum F key (zlen body) body) ++ body.
Proof. unfold frame_log_record, enc_log_header. by rewrite <- !app_assoc. Qed.

Lemma length_enc_log_header key n ck : length key = lf_key_len F -> length ck = 32%nat -> length (enc_log_header key n ck) = LOG_HEADER_LEN F.
Proof. intros Hk Hc. unfold enc_log_header, LOG_HEADER_LEN. rewrite !length_app, !length_to_be_bytes, Hmagic, Hk, Hc. lia. Qed.

Lemma length_frame_log key body : length key = lf_key_len F -> length (frame_log_record F key body) = (LOG_HEADER_LEN F + length body)%nat.
Proof. intros Hk. rewrite frame_split_header, length_app, length_enc_log_header; [done|done|apply sha256_length]. Qed.

Lemma parse_log_header_enc key n ck : length key = lf_key_len F -> length ck = 32%nat -> u64 n -> Z.of_nat (LOG_HEADER_LEN F) < 2 ^ 64 ->
  parse_log_header F (enc_log_header key n ck) = Ok (mkLogHeader key n ck).
Proof.
  intros Hk Hc Hn Hlen. unfold parse_log_header, enc_log_header.
  assert (Hst : standing (ByteCursor_new (enc_log_header key n ck)) (enc_log_header key n ck)).
  { apply standing_new. unfold zlen. by rewrite length_enc_log_header. }
  unfold enc_log_header in Hst. revert Hst. generalize (ByteCursor_new (lf_magic F ++ to_be_bytes 2 (lf_version F) ++ key ++ to_be_bytes 8 n ++ ck)). intros c0 Hst.
  destruct (reads_exact (lf_magic F) c0 _ Hst) as (c1 & Hr & Hst1). unfold bc_read_array. unfold zlen in Hr. rewrite Hmagic in Hr. change (Z.of_nat 8) with 8 in Hr. rewrite Hr.
  rewrite bool_decide_true by done. cbn [negb]. destruct (reads_u16 (lf_version F) Hversion c1 _ Hst1) as (c2 & Hr2 & Hst2). rewrite Hr2, Z.eqb_refl. cbn [negb].
  destruct (reads_exact key c2 _ Hst2) as (c3 & Hr3 & Hst3). unfold zlen in Hr3. rewrite Hk in Hr3. rewrite Hr3.
  destruct (reads_u64 n Hn c3 _ Hst3) as (c4 & Hr4 & Hst4). rewrite Hr4.
  rewrite <- (app_nil_r ck) in Hst4. destruct (reads_exact ck c4 _ Hst4) as (c5 & Hr5 & Hst5). unfold zlen in Hr5. rewrite Hc in Hr5. change (Z.of_nat 32) with 32 in Hr5. rewrite Hr5.
  rewrite (standing_finished c5 [] Hst5). by rewrite bool_decide_true.
Qed.

(** ** Frames *)

Definition log_frame_of (a : A) (frame : list byte) : Prop :=
  exists key body, frame = frame_log_record F key body /\ length key = lf_key_len F /\ lf_decode F key body = Ok a /\ lf_admit F a = Ok tt.

Lemma read_log_header pre key body rest bytes : length key = lf_key_len F -> zlen body < 2 ^ 64 -> Z.of_nat (LOG_HEADER_LEN F) < 2 ^ 64 ->
  bytes = pre ++ enc_log_header key (zlen body) (log_checksum F key (zlen body) body) ++ rest ->
  exists header, get_range bytes (length pre) (length pre + LOG_HEADER_LEN F) = Some header /\
    parse_log_header F header = Ok (mkLogHeader key (zlen body) (log_checksum F key (zlen body) body)).
Proof.
  intros Hk Hb Hlen ->. set (ck := log_checksum F key (zlen body) body). assert (Hck : length ck = 32%nat) by apply sha256_length.
  eexists. split; [rewrite <- (length_enc_log_header key (zlen body) ck) by done; apply get_range_app|].
  apply parse_log_header_enc; [done|done| |done]. split; [apply zlen_nonneg|done].
Qed.

Lemma parse_log_frame_enc pre key body post a b : length key = lf_key_len F -> lf_decode F key body = Ok a ->
  zlen (pre ++ frame_log_record F key body ++ post) < 2 ^ 64 ->
  parse_log_frame_at F (pre ++ frame_log_record F key body ++ post) (length pre) b
  = (LogRecordAt a key (length pre + length (frame_log_record F key body)), charge b (zlen (frame_log_record F key body))).
Proof.
  intros Hk Hd Hlen. pose proof (length_frame_log key body Hk) as Hf. set (bytes := pre ++ frame_log_record F key body ++ post) in *.
  assert (Hlb : length bytes = (length pre + (LOG_HEADER_LEN F + length body) + length post)%nat) by (unfold bytes; rewrite !length_app, Hf; lia).
  unfold zlen in Hlen. destruct (read_log_header pre key body (body ++ post) bytes) as (header & Hg & Hp);
    [done|unfold zlen; lia|lia|unfold bytes; rewrite frame_split_header, <- app_assoc; done|].
  unfold parse_log_frame_at. destruct (Nat.ltb_spec (length bytes - length pre) (LOG_HEADER_LEN F)); [lia|]. rewrite Hg, Hp. cbn [lh_body_len lh_key lh_checksum].
  unfold usize_max. destruct (Z.ltb_spec (2 ^ 64 - 1) (zlen body)) as [Hc|_]; [unfold zlen in Hc; lia|].
  destruct (Z.ltb_spec (2 ^ 64 - 1) (Z.of_nat (length pre + LOG_HEADER_LEN F) + zlen body)) as [Hc|_]; [unfold zlen in Hc; lia|].
  assert (Hbody : get_range bytes (length pre + LOG_HEADER_LEN F) (length pre + LOG_HEADER_LEN F + Z.to_nat (zlen body)) = Some body).
  { unfold bytes, zlen. rewrite Nat2Z.id, frame_split_header.
    rewrite <- (length_enc_log_header key (Z.of_nat (length body)) (log_checksum F key (Z.of_nat (length body)) body)) at 1 2 by (done || apply sha256_length).
    rewrite <- length_app, <- app_assoc, app_assoc. apply get_range_app. }
  rewrite Hbody, bool_decide_true by done. cbn [negb]. rewrite Hd. f_equal; [|unfold zlen; f_equal; lia]. f_equal. unfold zlen. lia.
Qed.

(** A strict prefix of a frame: a partial frame, or its checksum verifies for fewer bytes. *)
Lemma parse_log_torn pre torn more key body b : length key = lf_key_len F -> torn ++ more = frame_log_record F key body -> more <> [] ->
  zlen pre + zlen (frame_log_record F key body) < 2 ^ 64 ->
  (exists b', parse_log_frame_at F (pre ++ torn) (length pre) b = (LogPartial (length torn), b')) \/
  sha256_collision (log_preimage key body) (log_preimage key (drop (LOG_HEADER_LEN F) torn)).
Proof.
  intros Hk Hm Hne Hlen. pose proof (length_frame_log key body Hk) as Hf. pose proof (f_equal length Hm) as Hl. rewrite length_app in Hl.
  assert (length more <> 0%nat) by (by destruct more). unfold zlen in Hlen. rewrite Hf in Hlen, Hl.
  unfold parse_log_frame_at. rewrite length_app. replace (length pre + length torn - length pre)%nat with (length torn) by lia.
  destruct (Nat.ltb_spec (length torn) (LOG_HEADER_LEN F)) as [|Hge]; [left; by eexists|].
  set (rest := drop (LOG_HEADER_LEN F) torn). assert (Hrl : length rest = (length torn - LOG_HEADER_LEN F)%nat) by apply length_drop.
  set (ck := log_checksum F key (zlen body) body). assert (Hck : length ck = 32%nat) by apply sha256_length.
  assert (Htorn : torn = enc_log_header key (zlen body) ck ++ rest).
  { unfold rest. rewrite <- (take_drop (LOG_HEADER_LEN F) torn) at 1. f_equal. rewrite <- (take_app_le torn more) by done. rewrite Hm, frame_split_header.
    apply take_app_length'. symmetry. by apply length_enc_log_header. }
  destruct (read_log_header pre key body rest (pre ++ torn)) as (header & -> & ->); [done|unfold zlen; lia|lia|by rewrite Htorn at 1|].
  cbn [lh_body_len lh_key lh_checksum]. unfold usize_max. destruct (Z.ltb_spec (2 ^ 64 - 1) (zlen body)) as [Hc|_]; [unfold zlen in Hc; lia|].
  destruct (Z.ltb_spec (2 ^ 64 - 1) (Z.of_nat (length pre + LOG_HEADER_LEN F) + zlen body)) as [Hc|_]; [unfold zlen in Hc; lia|].
  assert (Hnb : get_range (pre ++ torn) (length pre + LOG_HEADER_LEN F) (length pre + LOG_HEADER_LEN F + Z.to_nat (zlen body)) = None)
    by (apply get_range_none; rewrite length_app; unfold zlen; lia). rewrite Hnb.
  unfold log_complete. destruct (lf_strict F); [|left; by eexists]. unfold complete_by_checksum. rewrite length_app.
  destruct (Nat.ltb_spec (length pre + length torn) (length pre + LOG_HEADER_LEN F)); [lia|].
  assert (Hh : (40 <= LOG_HEADER_LEN F)%nat) by (unfold LOG_HEADER_LEN; lia).
  assert (Hstored : get_range (pre ++ torn) (length pre + LOG_HEADER_LEN F - 32) (length pre + LOG_HEADER_LEN F) = Some ck).
  { rewrite Htorn. unfold enc_log_header. set (h := lf_magic F ++ to_be_bytes 2 (lf_version F) ++ key ++ to_be_bytes 8 (zlen body)).
    assert (Hlh : length h = (LOG_HEADER_LEN F - 32)%nat) by (unfold h, LOG_HEADER_LEN; rewrite !length_app, !length_to_be_bytes, Hmagic, Hk; lia).
    replace (pre ++ (lf_magic F ++ to_be_bytes 2 (lf_version F) ++ key ++ to_be_bytes 8 (zlen body) ++ ck) ++ rest) with ((pre ++ h) ++ ck ++ rest)
      by (unfold h; by rewrite <- !app_assoc).
    replace (length pre + LOG_HEADER_LEN F - 32)%nat with (length (pre ++ h)) by (rewrite length_app; lia).
    replace (length pre + LOG_HEADER_LEN F)%nat with (length (pre ++ h) + length ck)%nat by (rewrite length_app; lia). apply get_range_app. }
  assert (Hclaim : get_range (pre ++ torn) (length pre + LOG_HEADER_LEN F - 32 - 8) (length pre + LOG_HEADER_LEN F - 32) = Some (to_be_bytes 8 (zlen body))).
  { rewrite Htorn. unfold enc_log_header. set (h := lf_magic F ++ to_be_bytes 2 (lf_version F) ++ key).
    assert (Hlh : length h = (LOG_HEADER_LEN F - 40)%nat) by (unfold h, LOG_HEADER_LEN; rewrite !length_app, !length_to_be_bytes, Hmagic, Hk; lia).
    replace (pre ++ (lf_magic F ++ to_be_bytes 2 (lf_version F) ++ key ++ to_be_bytes 8 (zlen body) ++ ck) ++ rest)
      with ((pre ++ h) ++ to_be_bytes 8 (zlen body) ++ ck ++ rest) by (unfold h; by rewrite <- !app_assoc).
    replace (length pre + LOG_HEADER_LEN F - 32 - 8)%nat with (length (pre ++ h)) by (rewrite length_app; lia).
    replace (length pre + LOG_HEADER_LEN F - 32)%nat with (length (pre ++ h) + length (to_be_bytes 8 (zlen body)))%nat by (rewrite length_app, length_to_be_bytes; lia).
    apply get_range_app. }
  rewrite Hstored, Hclaim, from_to_be_bytes_small by (unfold zlen; cbn; lia). rewrite Hnb.
  rewrite drop_app_ge by lia. replace (length pre + LOG_HEADER_LEN F - length pre)%nat with (LOG_HEADER_LEN F) by lia. fold rest.
  destruct ((usize_max <? zlen body) || (usize_max <? Z.of_nat (length pre + LOG_HEADER_LEN F) + zlen body));
    (case_bool_decide as Heq; cbn [is_some]; [right|left; by eexists]);
    (split; [|symmetry; exact Heq]); unfold log_preimage; intros Hx; apply (f_equal length) in Hx; rewrite !length_app, !length_to_be_bytes in Hx; lia.
Qed.

(** ** Whole logs *)

Fixpoint log_outcomes (offset : nat) (frames : list (list byte)) : list LogOutcome :=
  match frames with
  | [] => []
  | frame :: rest => mkLogOutcome offset LogEvaluated :: log_outcomes (offset + length frame) rest
  end.

Lemma log_frame_length a frame : log_frame_of a frame -> (LOG_HEADER_LEN F <= length frame)%nat.
Proof. intros (key & body & -> & Hk & _). rewrite length_frame_log by done. lia. Qed.

Lemma log_frames_length records frames : Forall2 log_frame_of records frames -> (length records <= length (concat frames))%nat.
Proof.
  induction 1 as [|a f records frames Ha _ IH]; cbn [length concat]; [lia|]. apply log_frame_length in Ha. unfold LOG_HEADER_LEN in Ha. rewrite length_app. lia.
Qed.

Lemma charge_spent b n : 0 <= n -> 0 <= spent b -> spent b + n < 2 ^ 64 -> spent (charge b n) = spent b + n.
Proof. intros. unfold charge. cbn. lia. Qed.

Lemma log_loop_frames rest : forall records frames pre fuel b found outs, Forall2 log_frame_of records frames ->
  zlen (pre ++ concat frames ++ rest) < 2 ^ 60 -> 0 <= spent b <= zlen pre -> zlen (pre ++ concat frames ++ rest) <= limit b ->
  exists b', 0 <= spent b' <= zlen (pre ++ concat frames) /\ limit b' = limit b /\
    decode_log_loop F (length records + fuel) (pre ++ concat frames ++ rest) (length pre) b found outs
    = decode_log_loop F fuel (pre ++ concat frames ++ rest) (length (pre ++ concat frames)) b' (found ++ records) (outs ++ log_outcomes (length pre) frames).
Proof.
  induction records as [|a records IH]; intros frames pre fuel b found outs Hall Hlen Hb Hlim.
  - apply Forall2_nil_inv_l in Hall as ->. exists b. cbn [concat app length log_outcomes]. rewrite !app_nil_r. split; [lia|]. by split.
  - apply Forall2_cons_inv_l in Hall as (frame & frames' & (key & body & -> & Hk & Hd & Ha) & Hall & ->). cbn [concat length Nat.add] in *.
    set (frame := frame_log_record F key body) in *. rewrite <- !app_assoc in *.
    pose proof (length_frame_log key body Hk) as Hfl. fold frame in Hfl.
    assert (Hz : zlen (pre ++ frame ++ concat frames' ++ rest) = zlen pre + zlen frame + zlen (concat frames' ++ rest)) by (rewrite !zlen_app; lia).
    pose proof (zlen_nonneg (concat frames' ++ rest)). pose proof (zlen_nonneg pre). pose proof (zlen_nonneg frame).
    specialize (IH frames' (pre ++ frame) fuel (charge b (zlen frame)) (found ++ [a]) (outs ++ [mkLogOutcome (length pre) LogEvaluated]) Hall).
    rewrite <- !app_assoc in IH. rewrite charge_spent in IH by lia. cbn [limit charge] in IH.
    destruct IH as (b' & Hsp & Hl' & Heq); [done|rewrite zlen_app; lia|done|]. exists b'. split; [done|]. split; [done|].
    cbn [decode_log_loop]. unfold exceeded. destruct (Z.ltb_spec (limit b) (spent b)); [lia|].
    unfold frame at 1. rewrite (parse_log_frame_enc pre key body (concat frames' ++ rest) a b Hk Hd) by (fold frame; lia). fold frame.
    unfold require_progress. destruct (Nat.leb_spec (length pre + length frame) (length pre)) as [Hc|_]; [unfold LOG_HEADER_LEN in Hfl; lia|].
    rewrite Ha. rewrite length_app in Heq at 1. rewrite Heq. cbn [log_outcomes app]. by rewrite (length_app pre frame).
Qed.

Definition no_inner_magic (torn : list byte) : Prop := forall p, (0 < p)%nat -> ~ magic_at torn (lf_magic F) p.

Lemma no_magic_after pre torn : no_inner_magic torn -> resync_to_next_magic (pre ++ torn) (S (length pre)) (lf_magic F) = None.
Proof.
  intros Hno. eapply first_from_unique; [apply resync_first|]. intros q Hq Hq'. pose proof (magic_at_bound _ _ _ Hq') as Hbd. rewrite length_app in Hbd.
  apply (Hno (q - length pre)%nat); [lia|]. apply (magic_at_window (pre ++ torn) torn (length pre) (length torn)); [|lia|].
  - pose proof (get_range_app pre torn []) as Hg. by rewrite !app_nil_r in Hg.
  - by replace (length pre + (q - length pre))%nat with q by lia.
Qed.

(** The first bytes of an append that was interrupted, without a further magic in them. *)
Definition torn_append (key body torn : list byte) : Prop :=
  no_inner_magic torn /\ length key = lf_key_len F /\ zlen (frame_log_record F key body) < 2 ^ 60 /\
  exists more, torn ++ more = frame_log_record F key body /\ more <> [].

Lemma torn_nil key : length key = lf_key_len F -> Z.of_nat (LOG_HEADER_LEN F) < 2 ^ 60 -> torn_append key [] [].
Proof.
  intros Hk Hh. pose proof (length_frame_log key [] Hk) as Hl. cbn [length] in Hl. split_and!; [|done|unfold zlen; rewrite Hl; lia|].
  - intros p _ Hp%magic_at_bound. rewrite Hmagic in Hp. cbn in Hp. lia.
  - exists (frame_log_record F key []). split; [done|]. intros Hx. rewrite Hx in Hl. unfold LOG_HEADER_LEN in Hl. cbn in Hl. lia.
Qed.

(** The checksum of the whole frame verifies for the part of its body that was written. *)
Definition torn_collision (key body torn : list byte) : Prop :=
  (LOG_HEADER_LEN F <= length torn)%nat /\ sha256_collision (log_preimage key body) (log_preimage key (drop (LOG_HEADER_LEN F) torn)).

Lemma decode_log_torn records frames key body torn : Forall2 log_frame_of records frames -> zlen (concat frames ++ torn) < 2 ^ 60 -> torn_append key body torn ->
  decode_log F (concat frames ++ torn) = Ok (mkLogReplay records (length torn) (length (concat frames)) (log_outcomes 0 frames)) \/ torn_collision key body torn.
Proof.
  intros Hall Hlen (Hno & Hk & Hfl & more & Hmore & Hne). pose proof (log_frames_length _ _ Hall) as Hn. unfold decode_log.
  replace (S (S (length (concat frames ++ torn)))) with (length records + S (S (length (concat frames ++ torn)) - length records))%nat by (rewrite length_app; lia).
  pose proof (budget_covers_input _ Hlen) as Hcov.
  destruct (log_loop_frames torn records frames [] (S (S (length (concat frames ++ torn)) - length records)) (ScanBudget_for_input (length (concat frames ++ torn))) [] [])
    as (b' & Hsp & Hlim & Heq); [done|done|split; [done|by apply zlen_nonneg]|done|]. cbn [app length] in Heq. rewrite Heq. cbn [decode_log_loop].
  cbn [app] in Hsp. rewrite zlen_app in Hcov, Hlen. pose proof (zlen_nonneg torn). pose proof (zlen_nonneg (concat frames)).
  unfold exceeded. destruct (Z.ltb_spec (limit b') (spent b')); [lia|].
  destruct (Nat.le_gt_cases (LOG_HEADER_LEN F) (length torn)) as [Hge|Hlt].
  - destruct (parse_log_torn (concat frames) torn more key body b' Hk Hmore Hne) as [[b2 Hp]|Hc]; [lia| |by right; split].
    left. rewrite Hp. unfold log_sound_after, sound_frame_after_partial_budgeted. cbn [sound_frame_budgeted_loop]. by rewrite no_magic_after.
  - left. unfold parse_log_frame_at. rewrite length_app. replace (length (concat frames) + length torn - length (concat frames))%nat with (length torn) by lia.
    destruct (Nat.ltb_spec (length torn) (LOG_HEADER_LEN F)); [|lia]. unfold log_sound_after, sound_frame_after_partial_budgeted.
    cbn [sound_frame_budgeted_loop]. by rewrite no_magic_after.
Qed.

Lemma decode_log_frames records frames : Forall2 log_frame_of records frames -> zlen (concat frames) < 2 ^ 60 -> Z.of_nat (LOG_HEADER_LEN F) < 2 ^ 60 ->
  decode_log F (concat frames) = Ok (mkLogReplay records 0 (length (concat frames)) (log_outcomes 0 frames)).
Proof.
  intros Hall Hlen Hh. destruct (decode_log_torn records frames (replicate (lf_key_len F) x00) [] [] Hall) as [Hd|[Hc _]].
  - by rewrite app_nil_r.
  - apply torn_nil; [apply length_replicate|done].
  - by rewrite app_nil_r in Hd.
  - unfold LOG_HEADER_LEN in Hc. cbn in Hc. lia.
Qed.

Lemma log_outcomes_sound offset frames : existsb (fun o => log_failed (lo_status o)) (log_outcomes offset frames) = false.
Proof. revert offset. induction frames as [|f frames IH]; intros offset; cbn; [done|]. apply IH. Qed.
End log.
