(* ===== verification/Generation.v ===== *)
(** * Live slots (crates/prikk-store/src/foundation/generation.rs)

    A container that can be compacted has two slots and a generation log; the last generation record
    names the live slot.  Without a record slot A is live, unless slot B holds data: then the slots'
    contents decide, and contents that fit two histories are refused. *)

From S2P Require Import Prelude PrikkError Hash ObjectId ObjectStore ByteCursor FrameResync IndexFile TailLog FileSystem.

Definition GENERATION_BODY_LEN : nat := 1.
Definition GENERATION_HEADER_LEN : nat := 8 + 2 + 8 + 32.

Definition decode_generation_body (body : list byte) : PResult ContainerSlot :=
  let c := ByteCursor_new body in
  let? '(code, c) := bc_read_array 1 c in
  if negb (is_finished c) then Err (MalformedData "trailing bytes in generation record body")
  else slot_from_code (from_be_bytes code).

(** Magic and version of a generation record. *)
Definition GENERATION_FORMAT : LogFormat ContainerSlot :=
  mkLogFormat _ "generation record" (bytes_of_string "PGENREC1") 1 0 true (fun _ => decode_generation_body) (fun _ => Ok tt) ""
    "{err}, but a complete record's own checksum verifies".

Record GenerationReplay : Type := mkGenerationReplay {
  gr_records : list ContainerSlot;
  gr_trailing : nat;
  gr_tail_offset : nat;
  gr_outcomes : list IndexRecordOutcome;
}.

Definition generation_has_item_failure (replay : GenerationReplay) : bool :=
  existsb (fun o => match io_status o with IndexFailed _ => true | IndexEvaluated => false end) (gr_outcomes replay).

Inductive GenerationFrameAttempt : Type :=
| GenerationRecordAt (record : ContainerSlot) (next_offset : nat)
| GenerationPartial (remaining : nat)
| GenerationInvalid (message : string) (never_a_tail : bool).

Section generation.
Context `{Sha256}.

Definition encode_generation_record (live_slot : ContainerSlot) : list byte :=
  frame_log_record GENERATION_FORMAT [] (to_be_bytes 1 (slot_code live_slot)).

Definition append_generation_record (generation_log_path : string) (live_slot : ContainerSlot) : IO unit :=
  append_file_required generation_log_path (encode_generation_record live_slot).

(** The budget a frame attempt takes is only charged, never asked. *)
Definition parse_generation_frame_at (bytes : list byte) (offset : nat) : GenerationFrameAttempt :=
  let remaining := (length bytes - offset)%nat in
  if (remaining <? GENERATION_HEADER_LEN)%nat then GenerationPartial remaining
  else
    let header_end := (offset + GENERATION_HEADER_LEN)%nat in
    match get_range bytes offset header_end with
    | None => GenerationPartial remaining
    | Some header =>
        match parse_log_header GENERATION_FORMAT header with
        | Err _ =>
            if is_some (complete_by_checksum bytes offset GENERATION_HEADER_LEN (ScanBudget_for_input (length bytes)) (log_checksum GENERATION_FORMAT [])).1
            then GenerationInvalid "{err}, but a complete record's own checksum verifies" true
            else GenerationInvalid "{err}" false
        | Ok values =>
            if negb (lh_body_len values =? Z.of_nat GENERATION_BODY_LEN)
            then GenerationInvalid "generation record at byte offset {offset} claims a body of {} bytes, but every generation record's body is exactly {GENERATION_BODY_LEN}" true
            else if usize_max <? Z.of_nat header_end + lh_body_len values
            then GenerationInvalid "generation record body end overflow" true
            else
              let body_end := (header_end + GENERATION_BODY_LEN)%nat in
              match get_range bytes header_end body_end with
              | None => GenerationPartial remaining
              | Some body =>
                  if negb (bool_decide (log_checksum GENERATION_FORMAT [] (lh_body_len values) body = lh_checksum values))
                  then GenerationInvalid "generation record checksum mismatch at byte offset {offset}" true
                  else
                    match decode_generation_body body with
                    | Ok record => GenerationRecordAt record body_end
                    | Err _ => GenerationInvalid "{err}" true
                    end
              end
        end
    end.

Definition generation_sound (bytes : list byte) (candidate : nat) : bool :=
  match parse_generation_frame_at bytes candidate with GenerationRecordAt _ _ => true | _ => false end.

(** The decode [loop]: every iteration moves [offset] forward. *)
Fixpoint decode_generation_loop (fuel : nat) (bytes : list byte) (offset : nat) (records : list ContainerSlot) (outcomes : list IndexRecordOutcome)
  : PResult GenerationReplay :=
  match fuel with
  | O => Err OutOfFuel
  | S fuel' =>
      let failed message := outcomes ++ [mkIndexOutcome offset (IndexFailed message)] in
      match parse_generation_frame_at bytes offset with
      | GenerationRecordAt record next_offset =>
          let? next := require_progress "generation" offset next_offset in
          decode_generation_loop fuel' bytes next (records ++ [record]) (outcomes ++ [mkIndexOutcome offset IndexEvaluated])
      | GenerationPartial remaining =>
          match sound_frame_after_partial bytes offset (lf_magic GENERATION_FORMAT) (generation_sound bytes) with
          | None => Ok (mkGenerationReplay records remaining offset outcomes)
          | Some next =>
              let? next := require_progress "generation" offset next in
              decode_generation_loop fuel' bytes next records (failed partial_before_sound_frame_message)
          end
      | GenerationInvalid message never_a_tail =>
          let sound_after :=
            if never_a_tail then None else sound_frame_after_partial bytes offset (lf_magic GENERATION_FORMAT) (generation_sound bytes) in
          if negb (is_some sound_after) && negb never_a_tail
          then Ok (mkGenerationReplay records (length bytes - offset) offset outcomes)
          else
            let resumed :=
              match sound_after with
              | Some next => Some next
              | None => resync_to_next_magic bytes (S offset) (lf_magic GENERATION_FORMAT)
              end in
            match resumed with
            | Some next =>
                let? next := require_progress "generation" offset next in
                decode_generation_loop fuel' bytes next records (failed message)
            | None => Ok (mkGenerationReplay records 0 (length bytes) (failed message))
            end
      end
  end.

Definition decode_generation_records (bytes : list byte) : PResult GenerationReplay :=
  decode_generation_loop (S (S (length bytes))) bytes 0 [] [].

Definition replay_generation_log (generation_log_path : string) (d : Disk) : PResult GenerationReplay :=
  match d !! generation_log_path with
  | None => Ok (mkGenerationReplay [] 0 0 [])
  | Some bytes => decode_generation_records bytes
  end.

Definition slot_b_has_data (slot_b_path : string) (d : Disk) : bool :=
  match d !! slot_b_path with Some bytes => negb (zlen bytes =? 0) | None => false end.

Definition generation_log_lost (generation_log_path slot_b_path : string) (d : Disk) : PResult bool :=
  let? replay := replay_generation_log generation_log_path d in
  if generation_has_item_failure replay || negb (bool_decide (gr_records replay = [])) then Ok false
  else Ok (slot_b_has_data slot_b_path d).
End generation.

(** ** Deduction from the slots' contents *)

Section deduce.
Context `{Sha256} {T : Type} `{EqDecision T} (fold_entry : list T -> T -> list T).

Definition fold_all (entries : list T) : list T := fold_left fold_entry entries [].

(** [y_entries.get(..n)] equals a list of that length. *)
Definition has_prefix (prefix entries : list T) : bool := bool_decide (take (length prefix) entries = prefix).

(** The [for] loop over [y_entries]. *)
Fixpoint stale_loop (x_entries running y_entries : list T) : bool :=
  match y_entries with
  | [] => false
  | entry :: rest =>
      let running := fold_entry running entry in
      if has_prefix x_entries running then true else stale_loop x_entries running rest
  end.

Definition stale_beside (x_entries y_entries : list T) : bool :=
  if has_prefix (fold_all x_entries) y_entries then true
  else if bool_decide (x_entries = []) then true
  else stale_loop x_entries [] y_entries.

Inductive DeductionReason : Type := BStaleBesideA | AStaleBesideB | BothSlotsAgree.

(** [decode_entries] gives the entries of a slot and whether it is damaged. *)
Definition resolve_or_deduce (generation_log_path slot_a_path slot_b_path damage_text ambiguous_text : string)
    (decode_entries : list byte -> PResult (list T * bool)) (d : Disk)
  : PResult (ContainerSlot * nat * nat * option DeductionReason) :=
  let? replay := replay_generation_log generation_log_path d in
  if generation_has_item_failure replay then Err (Integrity damage_text)
  else
    match last (gr_records replay) with
    | Some slot => Ok (slot, gr_trailing replay, gr_tail_offset replay, None)
    | None =>
        if negb (slot_b_has_data slot_b_path d) then Ok (SlotA, gr_trailing replay, gr_tail_offset replay, None)
        else
          let? '(entries_a, damaged_a) := decode_entries (default [] (d !! slot_a_path)) in
          let? '(entries_b, damaged_b) := decode_entries (default [] (d !! slot_b_path)) in
          if damaged_a || damaged_b then Err (Integrity damage_text)
          else
            match stale_beside entries_a entries_b, stale_beside entries_b entries_a with
            | false, true => Ok (SlotA, gr_trailing replay, gr_tail_offset replay, Some BStaleBesideA)
            | true, false => Ok (SlotB, gr_trailing replay, gr_tail_offset replay, Some AStaleBesideB)
            | true, true =>
                if bool_decide (fold_all entries_a = fold_all entries_b)
                then Ok (SlotA, gr_trailing replay, gr_tail_offset replay, Some BothSlotsAgree)
                else Err (AmbiguousGenerationLog ambiguous_text)
            | false, false => Err (AmbiguousGenerationLog ambiguous_text)
            end
    end.

Definition resolve_live_slot (generation_log_path slot_a_path slot_b_path damage_text ambiguous_text : string)
    (decode_entries : list byte -> PResult (list T * bool)) (d : Disk) : PResult ContainerSlot :=
  let? '(slot, _, _, _) := resolve_or_deduce generation_log_path slot_a_path slot_b_path damage_text ambiguous_text decode_entries d in
  Ok slot.
End deduce.
