(* ===== verification/RefLog.v ===== *)
(** * The ref log and the ref pointer index (crates/prikk-store/src/refs/container.rs, refs/pointer_index.rs)

    One append-only log holds the signed RefUpdates of every ref, keyed by the hash of the ref name; one
    append-only index holds, last entry first, the RefState each ref names. *)

From S2P Require Import Prelude PrikkError Hash Utf8 ObjectId Signature Envelope Refs ByteCursor FileCodec ObjectStore.
From S2P Require Import FrameResync IndexFile TailLog FileSystem Generation RecoveryLog.

(** ** Files (foundation/layout.rs) *)

Definition ref_name_key_bytes `{Sha256} (ref_name : list byte) : list byte := sha256 ref_name.

Definition ref_log_container_path : string := "refs/containers/log-a.container".
Definition ref_pointer_index_slot_path (slot : ContainerSlot) : string :=
  ("refs/containers/pointer-index-" +:+ slot_as_str slot +:+ ".container")%string.
Definition ref_pointer_index_generation_log_path : string := "refs/containers/pointer-index-generation.log".

Definition truncate_existing_file_required (path : string) (len : nat) : IO unit := fun d =>
  match d !! path with
  | None => (Err (Io "No such file or directory"), d)
  | Some old => (Ok tt, <[path := take len old]> d)
  end.

Definition truncate_file_empty_required (path : string) : IO unit := truncate_existing_file_required path 0.

(** [require_no_unclean_tail] (foundation/tail_guard.rs). *)
Definition require_no_unclean_tail (file_label : string) (trailing_partial_bytes tail_offset : nat) (way_out : string) : PResult unit :=
  if (trailing_partial_bytes =? 0)%nat then Ok tt
  else Err (Integrity (file_label +:+ " has an incomplete tail at byte offset {tail_offset} ({trailing_partial_bytes} byte(s) follow); " +:+ way_out)).

(** [require_signed_type] (refs.rs). *)
Definition require_signed_type (envelope : ObjectEnvelope) (expected : ObjectType) : PResult unit :=
  if negb (bool_decide (object_type envelope = expected)) then Err (ObjectTypeMismatch "{object_type}" "{}")
  else if bool_decide (signatures envelope = []) then Err (InvalidSignature "{object_type} publication envelope must be signed")
  else envelope_validate envelope.

(** ** The ref log *)

Record RefContainerRecord : Type := mkRefRecord { rc_key : list byte; rc_envelope : ObjectEnvelope }.
#[global] Instance RefContainerRecord_eq_dec : EqDecision RefContainerRecord.
Proof. solve_decision. Defined.

Definition decode_ref_record_body (key body : list byte) : PResult RefContainerRecord :=
  let? envelope := decode_envelope_file body in
  let? _ := require_signed_type envelope RefUpdate in
  Ok (mkRefRecord key envelope).

Definition SCAN_BUDGET_EXCEEDED : string :=
  "the bytes after byte offset {reported_offset} look like many frame headers; prikk stopped checking after {SCAN_BUDGET_MULTIPLE}x the file's size".
Definition SCAN_BUDGET_EXCEEDED_AS_DAMAGE : string := SCAN_BUDGET_EXCEEDED +:+ " and treats this as damage, not a torn tail".

Definition REF_CONTAINER_FORMAT : LogFormat RefContainerRecord :=
  mkLogFormat _ "ref container" (bytes_of_string "PREFCON1") 1 32 true decode_ref_record_body (fun record => validate_strict (rc_envelope record))
    SCAN_BUDGET_EXCEEDED "{err}".

(** What one ref's part of the log replays to. *)
Record RefLogReplay : Type := mkRefLogReplay {
  rl_records : list ObjectEnvelope;
  rl_trailing_partial_bytes : nat;
  (** Offsets, with whether the record failed. *)
  rl_record_outcomes : list (nat * bool);
}.

Definition ref_log_has_item_failure (replay : RefLogReplay) : bool := existsb snd (rl_record_outcomes replay).

Section ref_log.
Context `{Sha256}.

Definition decode_ref_container_records (bytes : list byte) : PResult (LogReplay RefContainerRecord) := decode_log REF_CONTAINER_FORMAT bytes.

(** Damage: a frame that was written in full, or a failure with something behind it. *)
Definition has_damage (replay : LogReplay RefContainerRecord) : bool :=
  existsb (fun '(index, outcome) =>
    match lo_status outcome with
    | LogFailed _ _ never_a_tail => never_a_tail || negb (S index =? length (lr_outcomes replay))%nat
    | LogEvaluated => false
    end) (imap (fun index outcome => (index, outcome)) (lr_outcomes replay)).

(** The offset and length of a tail. *)
Definition ref_log_container_tail (bytes : list byte) (discovery : LogReplay RefContainerRecord) : option (nat * nat) :=
  if (lr_trailing discovery =? 0)%nat then None else Some ((length bytes - lr_trailing discovery)%nat, lr_trailing discovery).

Definition encode_ref_container_record (ref_name_key : list byte) (envelope : ObjectEnvelope) : PResult (list byte) :=
  let? _ := require_signed_type envelope RefUpdate in
  let? body := encode_envelope_file envelope in
  let? _ := len_to_u64 (zlen body) in
  Ok (frame_log_record REF_CONTAINER_FORMAT ref_name_key body).

Definition read_and_decode_ref_log (d : Disk) : PResult (option (list byte * LogReplay RefContainerRecord)) :=
  match d !! ref_log_container_path with
  | None => Ok None
  | Some bytes =>
      let? replay := decode_ref_container_records bytes in
      Ok (Some (bytes, replay))
  end.

Definition trailing_tail_ref_name_key (bytes : list byte) (trailing_partial_bytes : nat) : option (list byte) :=
  if (trailing_partial_bytes =? 0)%nat then None
  else
    let start := (length bytes - trailing_partial_bytes)%nat in
    get_range bytes (start + 10) (start + 10 + 32).

(** The [for] loop over the outcomes, with the records still to come. *)
Fixpoint ref_subsequence_loop (key : list byte) (outcomes : list LogOutcome) (records : list RefContainerRecord)
    (ref_records : list ObjectEnvelope) (ref_outcomes : list (nat * bool)) : PResult (list ObjectEnvelope * list (nat * bool)) :=
  match outcomes with
  | [] => Ok (ref_records, ref_outcomes)
  | outcome :: rest =>
      match lo_status outcome with
      | LogEvaluated =>
          match records with
          | [] => Err (Integrity "ref container replay outcome/record count mismatch")
          | record :: records =>
              if negb (bool_decide (rc_key record = key)) then ref_subsequence_loop key rest records ref_records ref_outcomes
              else ref_subsequence_loop key rest records (ref_records ++ [rc_envelope record]) (ref_outcomes ++ [(lo_offset outcome, false)])
          end
      | LogFailed _ claimed _ =>
          if negb (bool_decide (claimed = Some key)) then ref_subsequence_loop key rest records ref_records ref_outcomes
          else ref_subsequence_loop key rest records ref_records (ref_outcomes ++ [(lo_offset outcome, true)])
      end
  end.

Definition ref_subsequence_of (bytes : list byte) (replay : LogReplay RefContainerRecord) (ref_name_key : list byte) : PResult RefLogReplay :=
  let? '(ref_records, ref_outcomes) := ref_subsequence_loop ref_name_key (lr_outcomes replay) (lr_records replay) [] [] in
  let attributed_trailing := trailing_tail_ref_name_key bytes (lr_trailing replay) in
  let trailing_partial_bytes := if bool_decide (attributed_trailing = Some ref_name_key) then lr_trailing replay else 0%nat in
  Ok (mkRefLogReplay ref_records trailing_partial_bytes ref_outcomes).

Definition replay_ref_subsequence (ref_name_key : list byte) (d : Disk) : PResult RefLogReplay :=
  let? decoded := read_and_decode_ref_log d in
  match decoded with
  | Some (bytes, replay) => ref_subsequence_of bytes replay ref_name_key
  | None => Ok (mkRefLogReplay [] 0 [])
  end.

Inductive AppendOutcome : Type := AlreadyPresent | Wrote (offset : Z) (bytes : list byte).

Definition require_sound_update (envelope : ObjectEnvelope) : PResult unit :=
  let? update := RefUpdatePayload_decode (canonical_payload envelope) in
  if negb (ru_created_at update =? 0) then Err (MalformedData "format-2 RefUpdate requires created_at == 0") else Ok tt.

Definition append_ref_container_record_with_replay (ref_name_key : list byte) (envelope : ObjectEnvelope) (preloaded : RefLogReplay) : IO AppendOutcome :=
  do! _ := io_lift (require_sound_update envelope) in
  if bool_decide (last (rl_records preloaded) = Some envelope)
  then do! _ := append_file_required ref_log_container_path [] in io_ret AlreadyPresent
  else
    do! record := io_lift (encode_ref_container_record ref_name_key envelope) in
    do! offset := append_file_reporting_offset_required ref_log_container_path record in
    io_ret (Wrote offset record).

Definition read_back_ref_container_bytes (offset : Z) (len : nat) (d : Disk) : PResult (option (list byte)) :=
  read_file_range_if_exists ref_log_container_path offset len d.

(** [<[T]>::starts_with]. *)
Definition bytes_start_with (bytes prefix : list byte) : bool := bool_decide (take (length prefix) bytes = prefix).

Definition incomplete_tail_matches (ref_name_key : list byte) (expected : ObjectEnvelope) (d : Disk) : PResult bool :=
  let bytes := default [] (d !! ref_log_container_path) in
  let? replay := decode_ref_container_records bytes in
  if (lr_trailing replay =? 0)%nat then Ok false
  else if (length bytes <? lr_trailing replay)%nat then Err (Integrity "ref container retained length underflow")
  else
    let retained := (length bytes - lr_trailing replay)%nat in
    let? expected_record := encode_ref_container_record ref_name_key expected in
    Ok (bytes_start_with expected_record (drop retained bytes)).

Definition truncate_incomplete_tail : IO nat :=
  do! bytes := io_read (fun d => Ok (default [] (d !! ref_log_container_path))) in
  do! replay := io_lift (decode_ref_container_records bytes) in
  if (lr_trailing replay =? 0)%nat then io_ret 0%nat
  else if (length bytes <? lr_trailing replay)%nat then io_err (Integrity "ref container retained length underflow")
  else
    do! _ := truncate_existing_file_required ref_log_container_path (length bytes - lr_trailing replay) in
    io_ret (lr_trailing replay).
End ref_log.

(** ** The ref pointer index *)

Record PointerIndexEntry : Type := mkPointerEntry { pe_ref_name_key : list byte; pe_ref_name : list byte; pe_ref_state_id : ObjectId }.
#[global] Instance PointerIndexEntry_eq_dec : EqDecision PointerIndexEntry.
Proof. solve_decision. Defined.

Definition encode_pointer_entry_body (entry : PointerIndexEntry) : PResult (list byte) :=
  let? body := push_bytes_u64 (pe_ref_name_key entry) (pe_ref_name entry) in
  Ok (body ++ pe_ref_state_id entry).

Definition decode_pointer_entry_body (body : list byte) : PResult PointerIndexEntry :=
  let c := ByteCursor_new body in
  let? '(ref_name_key, c) := bc_read_array 32 c in
  let? '(ref_name, c) := bc_read_bytes_u64 c in
  if negb (from_utf8 ref_name) then Err (MalformedData "invalid ref name utf-8: {err}")
  else
    let? '(ref_state_id, c) := bc_read_array 32 c in
    if negb (is_finished c) then Err (MalformedData "trailing bytes in pointer index entry body")
    else Ok (mkPointerEntry ref_name_key ref_name ref_state_id).

Definition POINTER_INDEX_FORMAT : LogFormat PointerIndexEntry :=
  mkLogFormat _ "pointer index" (bytes_of_string "PREFPTI1") 1 0 true (fun _ => decode_pointer_entry_body) (fun _ => Ok tt)
    SCAN_BUDGET_EXCEEDED_AS_DAMAGE "{err}, but a complete record's own checksum verifies".

Definition POINTER_INDEX_DAMAGE_TEXT : string :=
  "ref pointer index has a damaged entry; run `prikk doctor --rebuild-pointer-index --plan-only`, then `prikk doctor --rebuild-pointer-index`".
Definition POINTER_INDEX_AMBIGUOUS_TEXT : string :=
  "ref pointer index's generation log is lost, and its two slots fit two different histories; run `prikk doctor --rebuild-pointer-index --plan-only`, then `prikk doctor --rebuild-pointer-index` -- the ref log decides, not either slot".

Definition fold_one_pointer_index_entry (running : list PointerIndexEntry) (entry : PointerIndexEntry) : list PointerIndexEntry :=
  filter (fun existing => pe_ref_name_key existing <> pe_ref_name_key entry) running ++ [entry].

Definition reduce_pointer_index_entries (entries : list PointerIndexEntry) : list PointerIndexEntry :=
  fold_left fold_one_pointer_index_entry entries [].

Section pointer_index.
Context `{Sha256}.

Definition encode_pointer_index_record (entry : PointerIndexEntry) : PResult (list byte) :=
  let? body := encode_pointer_entry_body entry in
  let? _ := len_to_u64 (zlen body) in
  Ok (frame_log_record POINTER_INDEX_FORMAT [] body).

Definition decode_pointer_index_records (bytes : list byte) : PResult (LogReplay PointerIndexEntry) := decode_log POINTER_INDEX_FORMAT bytes.

Definition decode_pointer_index_entries_for_resolver (bytes : list byte) : PResult (list PointerIndexEntry * bool) :=
  let? replay := decode_pointer_index_records bytes in
  Ok (lr_records replay, log_has_item_failure replay).

Definition resolve_pointer_slot (d : Disk) : PResult ContainerSlot :=
  resolve_live_slot fold_one_pointer_index_entry ref_pointer_index_generation_log_path (ref_pointer_index_slot_path SlotA)
    (ref_pointer_index_slot_path SlotB) POINTER_INDEX_DAMAGE_TEXT POINTER_INDEX_AMBIGUOUS_TEXT decode_pointer_index_entries_for_resolver d.

Definition replay_pointer_index (d : Disk) : PResult (LogReplay PointerIndexEntry) :=
  let? slot := resolve_pointer_slot d in
  match d !! ref_pointer_index_slot_path slot with
  | None => Ok (mkLogReplay [] 0 0 [])
  | Some bytes => decode_pointer_index_records bytes
  end.

(** The last entry of a ref, with the tail of the index. *)
Definition lookup_ref_pointer (ref_name_key : list byte) (d : Disk) : PResult (option PointerIndexEntry * (nat * nat)) :=
  let? replay := replay_pointer_index d in
  if log_has_item_failure replay then Err (Integrity POINTER_INDEX_DAMAGE_TEXT)
  else Ok (last (filter (fun entry => pe_ref_name_key entry = ref_name_key) (lr_records replay)), (lr_trailing replay, lr_tail_offset replay)).

Definition append_ref_pointer_entry (entry : PointerIndexEntry) : IO unit :=
  do! record := io_lift (encode_pointer_index_record entry) in
  do! slot := io_read resolve_pointer_slot in
  append_file_required (ref_pointer_index_slot_path slot) record.
End pointer_index.
