(* ===== verification/RefStore.v ===== *)
(** * Ref publication (crates/prikk-store/src/refs.rs, refs/publication.rs)

    A ref is published by appending its new RefState to the pointer index and then the signed RefUpdate to
    the ref log.  A publication that was interrupted between the two is recognised and can be finished;
    any other disagreement of pointer and log is refused.  The object store is the parameter
    [write_object] (the trait [ObjectWriter]); the locks only serialise writers. *)

From S2P Require Import Prelude PrikkError Hash Utf8 ObjectId Signature Envelope Refs TagPayload ByteCursor FileCodec RepoPath ObjectStore.
From S2P Require Import TailLog FileSystem ObjectDisk RefLog.

(** ** Ref names *)

(** A control character: U+0000 to U+001F, U+007F to U+009F, in UTF-8. *)
Fixpoint has_control_char (s : list byte) : bool :=
  match s with
  | [] => false
  | b :: rest =>
      (bz b <? 32) || (bz b =? 127) ||
      match rest with b' :: _ => (bz b =? 194) && (128 <=? bz b') && (bz b' <=? 159) | [] => false end ||
      has_control_char rest
  end.

Definition ref_starts_with (prefix : string) (s : list byte) : bool :=
  bool_decide (take (length (bytes_of_string prefix)) s = bytes_of_string prefix).

(** [branch.contains("//")]. *)
Fixpoint has_double_slash (s : list byte) : bool :=
  match s with
  | a :: rest => (bool_decide (a = slash) && match rest with b :: _ => bool_decide (b = slash) | [] => false end) || has_double_slash rest
  | [] => false
  end.

(** The checks that [validate_local_branch_ref] and [validate_local_tag_ref] share behind their prefix. *)
Definition validate_ref_components (kind : string) (ref_name name : list byte) : PResult (list byte) :=
  if has_control_char ref_name then Err (InvalidName "ref {ref_name} contains a forbidden control character")
  else if starts_with_byte slash name || ends_with_byte slash name || has_double_slash name
  then Err (InvalidName (kind +:+ " ref {ref_name} contains an empty path component"))
  else if existsb (fun component => bool_decide (component = [dot]) || bool_decide (component = [dot; dot])) (split_on slash name)
  then Err (InvalidName (kind +:+ " ref {ref_name} contains a traversal component"))
  else Ok ref_name.

Definition validate_local_branch_ref (ref_name : list byte) : PResult (list byte) :=
  if bool_decide (ref_name = []) then Err (InvalidName "ref name must not be empty")
  else if ref_starts_with "tags/" ref_name || ref_starts_with "remotes/" ref_name || ref_starts_with "rollback/" ref_name
  then Err (InvalidName "ref namespace is reserved: {ref_name}")
  else if negb (ref_starts_with "heads/" ref_name) then Err (InvalidName "ref {ref_name} is not a local branch ref; expected heads/<name>")
  else
    let branch := drop 6 ref_name in
    if bool_decide (branch = []) then Err (InvalidName "branch ref must include a name after heads/")
    else validate_ref_components "branch" ref_name branch.

Definition validate_local_tag_ref (ref_name : list byte) : PResult (list byte) :=
  if bool_decide (ref_name = []) then Err (InvalidName "ref name must not be empty")
  else if ref_starts_with "heads/" ref_name || ref_starts_with "remotes/" ref_name || ref_starts_with "rollback/" ref_name
  then Err (InvalidName "ref namespace is reserved: {ref_name}")
  else if negb (ref_starts_with "tags/" ref_name) then Err (InvalidName "ref {ref_name} is not a local tag ref; expected tags/<name>")
  else
    let tag := drop 5 ref_name in
    if bool_decide (tag = []) then Err (InvalidName "tag ref must include a name after tags/")
    else validate_ref_components "tag" ref_name tag.

(** ** Reading refs *)

Record RefPublication : Type := mkPublication {
  pub_ref_name : list byte;
  pub_expected_previous : option ObjectId;
  pub_ref_state : ObjectEnvelope;
  pub_ref_update : ObjectEnvelope;
}.

Record RefPointerSummary : Type := mkPointerSummary { ps_ref_name : list byte; ps_ref_state_id : ObjectId }.

Section ref_store.
Context `{Sha256}.

Definition read_current_ref_state_id (ref_name : list byte) (d : Disk) : PResult (option ObjectId) :=
  let? '(entry, _) := lookup_ref_pointer (ref_name_key_bytes ref_name) d in
  match entry with
  | None => Ok None
  | Some entry =>
      if negb (bool_decide (pe_ref_name entry = ref_name)) then Err (Integrity "ref pointer name mismatch: expected {ref_name}, got {}")
      else Ok (Some (pe_ref_state_id entry))
  end.

Definition replay_log (ref_name : list byte) (d : Disk) : PResult RefLogReplay := replay_ref_subsequence (ref_name_key_bytes ref_name) d.

Definition list_ref_pointers (d : Disk) : PResult (list RefPointerSummary) :=
  let? replay := replay_pointer_index d in
  if log_has_item_failure replay then Err (Integrity POINTER_INDEX_DAMAGE_TEXT)
  else
    let latest : gmap (list byte) PointerIndexEntry :=
      fold_left (fun latest entry => <[pe_ref_name_key entry := entry]> latest) (lr_records replay) ∅ in
    let summaries := (fun entry => mkPointerSummary (pe_ref_name entry) (pe_ref_state_id entry)) <$> (btree_iter latest).*2 in
    Ok (sort_by (fun left right => bytes_cmp (ps_ref_name left) (ps_ref_name right)) summaries).

Definition POINTER_INDEX_TAIL_WAY_OUT : string := "run `prikk doctor --repair-pointer-index-tail`, then retry".

Definition ensure_pointer_index_has_no_tail (ref_name : list byte) (d : Disk) : PResult unit :=
  let? '(_, (trailing, offset)) := lookup_ref_pointer (ref_name_key_bytes ref_name) d in
  require_no_unclean_tail "the ref pointer index" trailing offset POINTER_INDEX_TAIL_WAY_OUT.

Definition ensure_current_matches (ref_name : list byte) (expected : option ObjectId) (d : Disk) : PResult unit :=
  let? '(entry, (trailing, offset)) := lookup_ref_pointer (ref_name_key_bytes ref_name) d in
  let? _ := require_no_unclean_tail "the ref pointer index" trailing offset POINTER_INDEX_TAIL_WAY_OUT in
  let? current :=
    match entry with
    | Some entry =>
        if bool_decide (pe_ref_name entry = ref_name) then Ok (Some (pe_ref_state_id entry))
        else Err (Integrity "ref pointer name mismatch: expected {ref_name}, got {}")
    | None => Ok None
    end in
  if negb (bool_decide (current = expected)) then Err (LockConflict "ref CAS mismatch for {ref_name}: expected {:?}, got {:?}") else Ok tt.

Definition resolve_ref_tip_block (R : ObjectReader) (ref_state : RefStatePayload) : PResult (ObjectId * option ObjectEnvelope) :=
  match rs_kind ref_state with
  | Branch => Ok (rs_target_object_id ref_state, None)
  | TagRef =>
      let? found := @read_typed R (rs_target_object_id ref_state) Tag in
      let? envelope := ok_or found (Integrity "missing Tag object: {tag_id}") in
      let? tag := TagPayload_decode (canonical_payload envelope) in
      Ok (tg_target_block_id tag, Some envelope)
  end.

Definition read_current_ref_tip_block (R : ObjectReader) (ref_name : list byte) (d : Disk) : PResult ObjectId :=
  let? current := read_current_ref_state_id ref_name d in
  let? ref_state_id := ok_or current (Integrity "ref {ref_name} is not published") in
  let? found := @read_typed R ref_state_id RefState in
  let? envelope := ok_or found (Integrity "ref {ref_name} points to missing RefState {ref_state_id}") in
  let? ref_state := RefStatePayload_decode (schema_version envelope) (canonical_payload envelope) in
  if negb (bool_decide (rs_ref_name ref_state = ref_name)) then Err (Integrity "RefState name mismatch: expected {ref_name}, got {}")
  else
    let? '(block_id, _) := resolve_ref_tip_block R ref_state in
    Ok block_id.

(** ** Recovery candidates *)

Record RefRecoveryCandidate : Type := mkRecoveryCandidate {
  cand_ref_name : list byte;
  cand_ref_state_id : ObjectId;
  cand_target_object_id : ObjectId;
  cand_update_seq : Z;
}.

Definition verified_ref_state_payload (R : ObjectReader) (ref_state_id : ObjectId) (ref_name : list byte) (target_object_id : ObjectId) : PResult RefStatePayload :=
  let? found := @read_typed R ref_state_id RefState in
  let? envelope := ok_or found (Integrity "missing RefState object for ref recovery: {ref_state_id}") in
  if bool_decide (signatures envelope = []) then Err (Integrity "RefState {ref_state_id} is unsigned")
  else
    let? payload := RefStatePayload_decode (schema_version envelope) (canonical_payload envelope) in
    if negb (bool_decide (rs_ref_name payload = ref_name)) then Err (Integrity "RefState {ref_state_id} name mismatch: expected {ref_name}, got {}")
    else if negb (bool_decide (rs_target_object_id payload = target_object_id))
    then Err (Integrity "RefState {ref_state_id} target disagrees with ref log for {ref_name}")
    else
      let? found := @read_object R target_object_id in
      let? target := ok_or found (Integrity "RefState {ref_state_id} targets missing block {target_object_id}") in
      if negb (bool_decide (object_type target = Block)) then Err (Integrity "RefState {ref_state_id} targets {}, expected block")
      else Ok payload.

(** The [for] loop over the records: [previous_ref_state_id] and [latest]. *)
Fixpoint recoverable_loop (R : ObjectReader) (ref_name : list byte) (records : list ObjectEnvelope) (previous : option ObjectId) (latest : option RefUpdatePayload)
  : PResult (option RefUpdatePayload) :=
  match records with
  | [] => Ok latest
  | envelope :: rest =>
      let? update := RefUpdatePayload_decode (canonical_payload envelope) in
      if negb (bool_decide (ru_ref_name update = ref_name)) then Err (Integrity "ref-log record name mismatch: expected {ref_name}, got {}")
      else if negb (bool_decide (ru_old_ref_state_id update = previous)) then Err (Integrity "ref-log chain mismatch for {ref_name} at update {}")
      else
        let? ref_state := verified_ref_state_payload R (ru_new_ref_state_id update) ref_name (ru_new_target_object_id update) in
        if negb (bool_decide (rs_previous_ref_state_id ref_state = ru_old_ref_state_id update))
        then Err (Integrity "RefState previous link disagrees with RefUpdate for {ref_name}")
        else if negb (rs_update_seq ref_state =? ru_update_seq update)
        then Err (Integrity "RefState update sequence disagrees with RefUpdate for {ref_name}")
        else recoverable_loop R ref_name rest (Some (ru_new_ref_state_id update)) (Some update)
  end.

Definition recoverable_missing_ref (R : ObjectReader) (ref_name : list byte) (d : Disk) : PResult (option RefRecoveryCandidate) :=
  let? current := read_current_ref_state_id ref_name d in
  if is_some current then Ok None
  else
    let? replay := replay_log ref_name d in
    if ref_log_has_item_failure replay then Err (Integrity "ref log for {ref_name} has a damaged record")
    else if bool_decide (rl_records replay = []) then Ok None
    else if negb (rl_trailing_partial_bytes replay =? 0)%nat then Err (Integrity "ref log for {ref_name} has trailing partial bytes")
    else
      let? latest := recoverable_loop R ref_name (rl_records replay) None None in
      match latest with
      | None => Ok None
      | Some update => Ok (Some (mkRecoveryCandidate ref_name (ru_new_ref_state_id update) (ru_new_target_object_id update) (ru_update_seq update)))
      end.

(** ** Publication (refs/publication.rs) *)

Inductive PublicationState : Type := Ready | PointerLeading | Complete.
#[global] Instance PublicationState_eq_dec : EqDecision PublicationState.
Proof. solve_decision. Defined.

Definition validate_publication (publication : RefPublication) : PResult unit :=
  let? _ := require_signed_type (pub_ref_state publication) RefState in
  let? _ := require_signed_type (pub_ref_update publication) RefUpdate in
  let? _ := validate_strict (pub_ref_state publication) in
  validate_strict (pub_ref_update publication).

Definition validate_no_ref_name_collision (ref_name : list byte) (d : Disk) : PResult unit :=
  let? existing := list_ref_pointers d in
  if existsb (fun e => negb (bool_decide (ps_ref_name e = ref_name)) && bool_decide (ascii_fold (ps_ref_name e) = ascii_fold ref_name)) existing
  then Err (InvalidName "case-insensitive ref-name collision involving: {}")
  else Ok tt.

Definition validate_coherent_publication (publication : RefPublication) : PResult RefUpdatePayload :=
  let? _ := validate_publication publication in
  let? ref_state := RefStatePayload_decode (schema_version (pub_ref_state publication)) (canonical_payload (pub_ref_state publication)) in
  let? update := RefUpdatePayload_decode (canonical_payload (pub_ref_update publication)) in
  let ref_state_id := object_id (pub_ref_state publication) in
  if negb (bool_decide (rs_ref_name ref_state = pub_ref_name publication)) || negb (bool_decide (ru_ref_name update = pub_ref_name publication))
  then Err (Integrity "publication ref names do not agree")
  else
    let? _ :=
      match rs_kind ref_state with
      | Branch => validate_local_branch_ref (pub_ref_name publication)
      | TagRef => validate_local_tag_ref (pub_ref_name publication)
      end in
    if negb (bool_decide (rs_previous_ref_state_id ref_state = pub_expected_previous publication)) ||
       negb (bool_decide (ru_old_ref_state_id update = pub_expected_previous publication)) ||
       negb (bool_decide (ru_new_ref_state_id update = ref_state_id)) ||
       negb (bool_decide (ru_new_target_object_id update = rs_target_object_id ref_state)) ||
       negb (ru_update_seq update =? rs_update_seq ref_state)
    then Err (Integrity "RefState and RefUpdate publication fields do not agree")
    else if negb (ru_created_at update =? 0) then Err (Integrity "schema-1 RefUpdate mutation requires created_at == 0")
    else Ok update.

(** The [for] loop of [log_position]: the tip and the tip before the last record. *)
Fixpoint log_position_loop (ref_name : list byte) (index : Z) (records : list ObjectEnvelope) (previous before_last : option ObjectId)
  : PResult (option ObjectId * option ObjectId) :=
  match records with
  | [] => Ok (previous, before_last)
  | envelope :: rest =>
      let? update := RefUpdatePayload_decode (canonical_payload envelope) in
      if 2 ^ 64 <=? index + 1 then Err (Integrity "ref-log sequence overflow")
      else if negb (bool_decide (ru_ref_name update = ref_name)) || negb (bool_decide (ru_old_ref_state_id update = previous)) ||
              negb (ru_update_seq update =? index + 1) || negb (ru_created_at update =? 0)
      then Err (Integrity "ref-log chain diverges for {}")
      else log_position_loop ref_name (index + 1) rest (Some (ru_new_ref_state_id update)) previous
  end.

Definition log_position (replay : RefLogReplay) (publication : RefPublication) : PResult (option ObjectId * bool * option ObjectId) :=
  let? '(previous, before_last) := log_position_loop (pub_ref_name publication) 0 (rl_records replay) None None in
  let exact_last := bool_decide (last (rl_records replay) = Some (pub_ref_update publication)) in
  Ok (previous, exact_last, before_last).

Definition classify_state (publication : RefPublication) (update : RefUpdatePayload) (d : Disk) : PResult (PublicationState * RefLogReplay) :=
  let? current := read_current_ref_state_id (pub_ref_name publication) d in
  let? replay := replay_log (pub_ref_name publication) d in
  if ref_log_has_item_failure replay then Err (Integrity "ref log for {} has a damaged record; run doctor before publishing")
  else
    let? '(log_tip, exact_last, previous_log_tip) := log_position replay publication in
    let expected := pub_expected_previous publication in
    let proposed := Some (ru_new_ref_state_id update) in
    if negb exact_last && bool_decide (current = expected) && bool_decide (log_tip = expected) then Ok (Ready, replay)
    else if negb exact_last && bool_decide (current = proposed) && bool_decide (log_tip = expected) then Ok (PointerLeading, replay)
    else if exact_last && bool_decide (current = proposed) && bool_decide (log_tip = proposed) && bool_decide (previous_log_tip = expected)
    then Ok (Complete, replay)
    else Err (Integrity "ref {} pointer/log state does not match the expected publication transition").

Definition ensure_agreement (publication : RefPublication) (update : RefUpdatePayload) (pre_write_replay : RefLogReplay) (outcome : AppendOutcome)
    (d : Disk) : PResult unit :=
  let? current := read_current_ref_state_id (pub_ref_name publication) d in
  if ref_log_has_item_failure pre_write_replay || negb (bool_decide (current = Some (ru_new_ref_state_id update)))
  then Err (Integrity "ref {} pointer/log agreement was not established")
  else
    match outcome with
    | AlreadyPresent => Ok tt
    | Wrote offset bytes =>
        let? read_back := read_back_ref_container_bytes offset (length bytes) d in
        if negb (bool_decide (read_back = Some bytes))
        then Err (Integrity "ref {} pointer/log agreement was not established: the bytes read back at offset {offset} do not match what was written")
        else Ok tt
    end.

Section publish.
Context (write_object : ObjectEnvelope -> IO ObjectId).

(** A tail of the ref's own log is cut when it is the beginning of the update being finished. *)
Definition resolve_log_tail (publication : RefPublication) (allow_partial_tail_repair : bool) (state : PublicationState) (replay : RefLogReplay) : IO unit :=
  if (rl_trailing_partial_bytes replay =? 0)%nat then io_ret tt
  else
    let refuse := io_err (Integrity "ref {} has an unauthorized incomplete log tail") in
    if negb allow_partial_tail_repair || negb (bool_decide (state = PointerLeading)) then refuse
    else
      do! matches := io_read (incomplete_tail_matches (ref_name_key_bytes (pub_ref_name publication)) (pub_ref_update publication)) in
      if negb matches then refuse
      else do! _ := truncate_incomplete_tail in io_ret tt.

Definition publish_body (publication : RefPublication) (allow_partial_tail_repair : bool) : IO ObjectId :=
  do! update := io_lift (validate_coherent_publication publication) in
  do! _ :=
    match pub_expected_previous publication with
    | None => io_read (validate_no_ref_name_collision (pub_ref_name publication))
    | Some _ => io_ret tt
    end in
  let ref_state_id := object_id (pub_ref_state publication) in
  let ref_name_key := ref_name_key_bytes (pub_ref_name publication) in
  do! _ := io_read (ensure_pointer_index_has_no_tail (pub_ref_name publication)) in
  do! _ := write_object (pub_ref_state publication) in
  do! '(state, replay) := io_read (classify_state publication update) in
  do! _ := resolve_log_tail publication allow_partial_tail_repair state replay in
  do! outcome :=
    match state with
    | Ready =>
        do! _ := io_read (ensure_current_matches (pub_ref_name publication) (pub_expected_previous publication)) in
        do! _ := append_ref_pointer_entry (mkPointerEntry ref_name_key (pub_ref_name publication) ref_state_id) in
        append_ref_container_record_with_replay ref_name_key (pub_ref_update publication) replay
    | PointerLeading | Complete => append_ref_container_record_with_replay ref_name_key (pub_ref_update publication) replay
    end in
  do! _ := io_read (ensure_agreement publication update replay outcome) in
  io_ret ref_state_id.

Definition publish_ref (publication : RefPublication) : IO ObjectId := publish_body publication false.
Definition finish_interrupted (publication : RefPublication) : IO ObjectId := publish_body publication true.

Definition publish_with_object_store (format : RepositoryFormat) (publication : RefPublication) : IO ObjectId :=
  do! _ := io_read (require_current_format format) in
  do! _ := io_lift (validate_object_envelope format (pub_ref_state publication)) in
  do! _ := io_lift (validate_object_envelope format (pub_ref_update publication)) in
  publish_ref publication.

(** [ActiveLock::require_layout] (lock.rs): the lock was taken in the directory the layout works in.  An
    authority is the identity of an open directory. *)
Definition require_layout (lock_authority layout_authority : Z) : PResult unit :=
  if lock_authority =? layout_authority then Ok tt else Err (LockConflict "active lock belongs to a different repository authority").

Definition finish_interrupted_publication_for_ref_complete (format : RepositoryFormat) (layout_authority active_lock : Z) (publication : RefPublication) : IO ObjectId :=
  do! _ := io_read (validate_format format) in
  do! _ := io_lift (require_layout active_lock layout_authority) in
  do! _ := io_lift (validate_read_schema format (pub_ref_state publication)) in
  do! _ := io_lift (validate_read_schema format (pub_ref_update publication)) in
  finish_interrupted publication.
End publish.
End ref_store.
