(* ===== verification/RefStoreThms.v ===== *)
(** * Theorems about ref publication

    A [ref_image] says what the ref files hold, frame by frame.  A publication appends one pointer entry
    and one log record; whatever part of that an interruption left is finished to the same image. *)

From S2P Require Import Prelude PrikkError Hash Utf8 Canonical ByteCursor ObjectId Signature Envelope Refs FileCodec RepoPath ObjectStore.
From S2P Require Import FrameResync IndexFile TailLog FileSystem ObjectDisk Generation RefLog RefStore.

Section frames.
Context `{Sha256}.

Lemma ref_magic_len : length (lf_magic REF_CONTAINER_FORMAT) = 8%nat.
Proof. done. Qed.
Lemma pointer_magic_len : length (lf_magic POINTER_INDEX_FORMAT) = 8%nat.
Proof. done. Qed.

(** A torn tail: the first bytes of an interrupted append. *)
Definition clean_tail {A} (F : LogFormat A) (tail : list byte) : Prop :=
  tail = [] \/ exists key body, torn_append F key body tail /\ ~ torn_collision F key body tail.

Lemma decode_log_image {A} (F : LogFormat A) records frames tail :
  length (lf_magic F) = 8%nat -> u16 (lf_version F) -> Z.of_nat (LOG_HEADER_LEN F) < 2 ^ 60 ->
  Forall2 (log_frame_of F) records frames -> zlen (concat frames ++ tail) < 2 ^ 60 -> clean_tail F tail ->
  decode_log F (concat frames ++ tail) = Ok (mkLogReplay records (length tail) (length (concat frames)) (log_outcomes 0 frames)).
Proof.
  intros Hm Hv Hh Hall Hlen [->|(key & body & Ht & Hc)].
  - rewrite app_nil_r in *. by apply decode_log_frames.
  - by destruct (decode_log_torn F Hm Hv records frames key body tail Hall Hlen Ht).
Qed.

(** ** Pointer entries *)

Definition pointer_body (e : PointerIndexEntry) : list byte :=
  pe_ref_name_key e ++ to_be_bytes 8 (zlen (pe_ref_name e)) ++ pe_ref_name e ++ pe_ref_state_id e.
Definition pointer_frame (e : PointerIndexEntry) : list byte := frame_log_record POINTER_INDEX_FORMAT [] (pointer_body e).

Definition entry_wf (e : PointerIndexEntry) : Prop :=
  length (pe_ref_name_key e) = 32%nat /\ wf_id (pe_ref_state_id e) /\ from_utf8 (pe_ref_name e) = true /\ zlen (pe_ref_name e) < 2 ^ 60.

Lemma length_pointer_body e : entry_wf e -> zlen (pointer_body e) = 72 + zlen (pe_ref_name e).
Proof. intros (Hk & Hi & _ & _). unfold pointer_body. rewrite !zlen_app. unfold wf_id in Hi. unfold zlen. rewrite length_to_be_bytes, Hk, Hi. lia. Qed.

Lemma pointer_entry_encodes e : entry_wf e ->
  encode_pointer_index_record e = Ok (pointer_frame e) /\ log_frame_of POINTER_INDEX_FORMAT e (pointer_frame e).
Proof.
  intros He. pose proof (length_pointer_body e He) as Hlen. destruct He as (Hk & Hi & Hu & Hn). unfold wf_id in Hi. pose proof (zlen_nonneg (pe_ref_name e)). split.
  - unfold encode_pointer_index_record, encode_pointer_entry_body, push_bytes_u64, len_to_u64.
    destruct (Z.ltb_spec (zlen (pe_ref_name e)) (2 ^ 64)); [|lia].
    replace ((push_u64 (pe_ref_name_key e) (zlen (pe_ref_name e)) ++ pe_ref_name e) ++ pe_ref_state_id e) with (pointer_body e)
      by (unfold pointer_body, push_u64; by rewrite <- !app_assoc).
    destruct (Z.ltb_spec (zlen (pointer_body e)) (2 ^ 64)); [done|lia].
  - exists [], (pointer_body e). split_and!; [done|done| |done]. cbn [lf_decode POINTER_INDEX_FORMAT]. unfold decode_pointer_entry_body.
    assert (Hst : standing (ByteCursor_new (pointer_body e)) (pointer_body e)) by (apply standing_new; lia). revert Hst. generalize (ByteCursor_new (pointer_body e)).
    intros c Hst. unfold pointer_body in Hst. unfold bc_read_array.
    destruct (reads_exact (pe_ref_name_key e) c _ Hst) as (c1 & Hr1 & Hs1). unfold zlen in Hr1. rewrite Hk in Hr1. change (Z.of_nat 32) with 32 in Hr1. rewrite Hr1.
    rewrite (app_assoc (to_be_bytes 8 _)) in Hs1. destruct (reads_bytes_u64 (pe_ref_name e) ltac:(lia) c1 _ Hs1) as (c2 & Hr2 & Hs2). rewrite Hr2, Hu. cbn [negb].
    rewrite <- (app_nil_r (pe_ref_state_id e)) in Hs2. destruct (reads_exact (pe_ref_state_id e) c2 _ Hs2) as (c3 & Hr3 & Hs3).
    unfold zlen in Hr3. rewrite Hi in Hr3. change (Z.of_nat 32) with 32 in Hr3. rewrite Hr3, (standing_finished _ _ Hs3), bool_decide_true by done. by destruct e.
Qed.

(** ** Log records *)

Definition log_frame (r : RefContainerRecord) : list byte := frame_log_record REF_CONTAINER_FORMAT (rc_key r) (enc_envelope (rc_envelope r)).

(** What a record that can be appended is: a signed RefUpdate in strict form within the format's lengths. *)
Definition record_wf (r : RefContainerRecord) : Prop :=
  length (rc_key r) = 32%nat /\ require_signed_type (rc_envelope r) RefUpdate = Ok tt /\ validate_strict (rc_envelope r) = Ok tt /\
  wf_envelope (rc_envelope r) /\ zlen (enc_envelope (rc_envelope r)) < 2 ^ 60.

Lemma log_record_encodes r : record_wf r ->
  encode_ref_container_record (rc_key r) (rc_envelope r) = Ok (log_frame r) /\ log_frame_of REF_CONTAINER_FORMAT r (log_frame r).
Proof.
  intros (Hk & Hs & Hv & Hwf & Hl). destruct (envelope_file_enc _ Hv Hwf ltac:(lia)) as [He Hd]. split.
  - unfold encode_ref_container_record. rewrite Hs, He. unfold len_to_u64. destruct (Z.ltb_spec (zlen (enc_envelope (rc_envelope r))) (2 ^ 64)); [done|lia].
  - exists (rc_key r), (enc_envelope (rc_envelope r)). split_and!; [done|done| |done].
    cbn [lf_decode REF_CONTAINER_FORMAT]. unfold decode_ref_record_body. rewrite Hd, Hs. by destruct r.
Qed.
End frames.

(** ** Images of the ref files *)

Record ref_image : Type := mkRefImage {
  ri_slot : ContainerSlot;
  ri_entries : list PointerIndexEntry;
  ri_entry_frames : list (list byte);
  ri_entry_tail : list byte;
  ri_records : list RefContainerRecord;
  ri_record_frames : list (list byte);
  ri_record_tail : list byte;
}.

Definition pointer_bytes (i : ref_image) : list byte := concat (ri_entry_frames i) ++ ri_entry_tail i.
Definition log_bytes (i : ref_image) : list byte := concat (ri_record_frames i) ++ ri_record_tail i.

Definition ref_paths : list string :=
  [ref_pointer_index_generation_log_path; ref_pointer_index_slot_path SlotA; ref_pointer_index_slot_path SlotB; ref_log_container_path].

Definition same_ref_files (d d' : Disk) : Prop := forall path, path ∈ ref_paths -> d' !! path = d !! path.

Lemma slot_path_not_log s : ref_pointer_index_slot_path s <> ref_log_container_path.
Proof. destruct s; intros Hp; vm_compute in Hp; discriminate Hp. Qed.
Lemma slot_path_not_generation s : ref_pointer_index_slot_path s <> ref_pointer_index_generation_log_path.
Proof. destruct s; intros Hp; vm_compute in Hp; discriminate Hp. Qed.
Lemma log_not_generation : ref_log_container_path <> ref_pointer_index_generation_log_path.
Proof. intros Hp. vm_compute in Hp. discriminate Hp. Qed.
Lemma slot_paths_differ s : s = SlotA -> ref_pointer_index_slot_path s <> ref_pointer_index_slot_path SlotB.
Proof. intros -> Hp. vm_compute in Hp. discriminate Hp. Qed.

Section images.
Context `{Sha256}.

(** The generation log names the slot, or there is no record and slot B was never written. *)
Definition generation_settled (d : Disk) (s : ContainerSlot) : Prop :=
  exists replay, replay_generation_log ref_pointer_index_generation_log_path d = Ok replay /\ generation_has_item_failure replay = false /\
    (last (gr_records replay) = Some s \/
     last (gr_records replay) = None /\ s = SlotA /\ slot_b_has_data (ref_pointer_index_slot_path SlotB) d = false).

Lemma settled_resolves d s : generation_settled d s -> resolve_pointer_slot d = Ok s.
Proof.
  intros (replay & Hr & Hf & Hs). unfold resolve_pointer_slot, resolve_live_slot, resolve_or_deduce. rewrite Hr, Hf.
  destruct Hs as [->|(-> & -> & Hb)]; [done|]. by rewrite Hb.
Qed.

Lemma settled_frame d d' s : d' !! ref_pointer_index_generation_log_path = d !! ref_pointer_index_generation_log_path ->
  (s = SlotA -> d' !! ref_pointer_index_slot_path SlotB = d !! ref_pointer_index_slot_path SlotB) ->
  generation_settled d s -> generation_settled d' s.
Proof.
  intros Hg Hb (replay & Hr & Hf & Hs). exists replay. unfold replay_generation_log in *. rewrite Hg. split; [done|]. split; [done|].
  destruct Hs as [?|(? & -> & Hd)]; [by left|right]. split; [done|]. split; [done|]. unfold slot_b_has_data in *. by rewrite Hb.
Qed.

Record image_on (d : Disk) (i : ref_image) : Prop := {
  on_slot : generation_settled d (ri_slot i);
  on_pointer : d !! ref_pointer_index_slot_path (ri_slot i) = Some (pointer_bytes i);
  on_log : d !! ref_log_container_path = Some (log_bytes i);
  on_entries : Forall2 (log_frame_of POINTER_INDEX_FORMAT) (ri_entries i) (ri_entry_frames i);
  on_records : Forall2 (log_frame_of REF_CONTAINER_FORMAT) (ri_records i) (ri_record_frames i);
  on_entry_tail : clean_tail POINTER_INDEX_FORMAT (ri_entry_tail i);
  on_record_tail : clean_tail REF_CONTAINER_FORMAT (ri_record_tail i);
  on_pointer_size : zlen (pointer_bytes i) < 2 ^ 60;
  on_log_size : zlen (log_bytes i) < 2 ^ 60;
}.

Lemma image_same_files d d' i : same_ref_files d d' -> image_on d i -> image_on d' i.
Proof.
  intros Hs []. constructor; try done.
  - eapply settled_frame; [| |done]; [|intros _]; apply Hs; unfold ref_paths; set_solver.
  - rewrite Hs; [done|]. unfold ref_paths. destruct (ri_slot i); set_solver.
  - rewrite Hs; [done|]. unfold ref_paths. set_solver.
Qed.

Lemma pointer_index_same d d' : same_ref_files d d' -> replay_pointer_index d' = replay_pointer_index d.
Proof.
  intros Hs. assert (Hslot : resolve_pointer_slot d' = resolve_pointer_slot d).
  { unfold resolve_pointer_slot, resolve_live_slot, resolve_or_deduce, replay_generation_log, slot_b_has_data. rewrite !Hs; [done|..]; unfold ref_paths; set_solver. }
  unfold replay_pointer_index. rewrite Hslot. destruct (resolve_pointer_slot d) as [s|]; [|done]. rewrite Hs; [done|]. unfold ref_paths. destruct s; set_solver.
Qed.

Lemma read_current_same d d' name : same_ref_files d d' -> read_current_ref_state_id name d' = read_current_ref_state_id name d.
Proof. intros Hs. unfold read_current_ref_state_id, lookup_ref_pointer. by rewrite (pointer_index_same _ _ Hs). Qed.

(** ** What an image shows *)

Definition current_entry (i : ref_image) (key : list byte) : option PointerIndexEntry :=
  last (filter (fun e => pe_ref_name_key e = key) (ri_entries i)).
Definition history (i : ref_image) (key : list byte) : list ObjectEnvelope :=
  rc_envelope <$> filter (fun r => rc_key r = key) (ri_records i).

Lemma image_replay_index d i : image_on d i ->
  replay_pointer_index d = Ok (mkLogReplay (ri_entries i) (length (ri_entry_tail i)) (length (concat (ri_entry_frames i))) (log_outcomes 0 (ri_entry_frames i))).
Proof.
  intros []. unfold replay_pointer_index. rewrite (settled_resolves _ _ on_slot0), on_pointer0.
  apply decode_log_image; [done|done|done|done|done|done].
Qed.

Lemma image_lookup d i key : image_on d i ->
  lookup_ref_pointer key d = Ok (current_entry i key, (length (ri_entry_tail i), length (concat (ri_entry_frames i)))).
Proof.
  intros Hi. unfold lookup_ref_pointer. rewrite (image_replay_index _ _ Hi). unfold log_has_item_failure. cbn [lr_outcomes lr_records lr_trailing lr_tail_offset].
  by rewrite log_outcomes_sound.
Qed.

Lemma subsequence_frames key records frames : Forall2 (log_frame_of REF_CONTAINER_FORMAT) records frames ->
  forall off found outs, existsb snd outs = false ->
  exists outs', ref_subsequence_loop key (log_outcomes off frames) records found outs
    = Ok (found ++ (rc_envelope <$> filter (fun r => rc_key r = key) records), outs') /\ existsb snd outs' = false.
Proof.
  induction 1 as [|r f records frames _ _ IH]; intros off found outs Ho; cbn [log_outcomes ref_subsequence_loop lo_status lo_offset].
  - exists outs. by rewrite app_nil_r.
  - case_bool_decide as Hk; cbn [negb].
    + rewrite filter_cons_True by done. cbn [fmap list_fmap]. destruct (IH (off + length f)%nat (found ++ [rc_envelope r]) (outs ++ [(off, false)])) as (outs' & He & Ho');
        [by rewrite existsb_app, Ho|]. exists outs'. split; [|done]. by rewrite He, <- app_assoc.
    + rewrite filter_cons_False by done. by apply IH.
Qed.

(** The tail counts for a ref when it still shows the ref's key. *)
Definition own_tail (i : ref_image) (key : list byte) : nat :=
  if bool_decide (trailing_tail_ref_name_key (log_bytes i) (length (ri_record_tail i)) = Some key) then length (ri_record_tail i) else 0%nat.

Lemma image_replay_log d i key : image_on d i ->
  exists outs, replay_ref_subsequence key d = Ok (mkRefLogReplay (history i key) (own_tail i key) outs) /\ existsb snd outs = false.
Proof.
  intros []. unfold replay_ref_subsequence, read_and_decode_ref_log. rewrite on_log0.
  unfold decode_ref_container_records, log_bytes. rewrite (decode_log_image REF_CONTAINER_FORMAT (ri_records i)) by done.
  unfold ref_subsequence_of. cbn [lr_outcomes lr_records lr_trailing].
  destruct (subsequence_frames key _ _ on_records0 0 [] [] eq_refl) as (outs & -> & Ho). exists outs. split; [|done]. done.
Qed.
End images.

(** ** Publications *)

Section publication.
Context `{Sha256} (p : RefPublication) (update : RefUpdatePayload).

Definition pub_key : list byte := ref_name_key_bytes (pub_ref_name p).
Definition pub_entry : PointerIndexEntry := mkPointerEntry pub_key (pub_ref_name p) (object_id (pub_ref_state p)).
Definition pub_record : RefContainerRecord := mkRefRecord pub_key (pub_ref_update p).

(** The pointer entry is written, and of the log record the bytes [torn]. *)
Definition led (torn : list byte) (i : ref_image) : ref_image :=
  mkRefImage (ri_slot i) (ri_entries i ++ [pub_entry]) (ri_entry_frames i ++ [pointer_frame pub_entry]) []
    (ri_records i) (ri_record_frames i) torn.

(** Both are written. *)
Definition published (i : ref_image) : ref_image :=
  mkRefImage (ri_slot i) (ri_entries i ++ [pub_entry]) (ri_entry_frames i ++ [pointer_frame pub_entry]) []
    (ri_records i ++ [pub_record]) (ri_record_frames i ++ [log_frame pub_record]) [].

(** A coherent publication whose expected previous state is what pointer and log both name. *)
Record publishable (i : ref_image) : Prop := {
  pb_valid : validate_coherent_publication p = Ok update;
  pb_wf : wf_envelope (pub_ref_update p);
  pb_pointer_room : zlen (pointer_bytes i) + zlen (pointer_frame pub_entry) < 2 ^ 60;
  pb_log_room : zlen (log_bytes i) + zlen (log_frame pub_record) < 2 ^ 60;
  pb_entry_tail : ri_entry_tail i = [];
  pb_record_tail : ri_record_tail i = [];
  pb_names : Forall (fun e => pe_ref_name e = pub_ref_name p \/ ascii_fold (pe_ref_name e) <> ascii_fold (pub_ref_name p)) (ri_entries i);
  pb_current : (fun e => (pe_ref_name e, pe_ref_state_id e)) <$> current_entry i pub_key = pair (pub_ref_name p) <$> pub_expected_previous p;
  pb_chain : exists before, log_position_loop (pub_ref_name p) 0 (history i pub_key) None None = Ok (pub_expected_previous p, before);
  pb_seq : ru_update_seq update = Z.of_nat (length (history i pub_key)) + 1;
  pb_new : pub_expected_previous p <> Some (object_id (pub_ref_state p));
}.

Lemma coherent_facts : validate_coherent_publication p = Ok update ->
  require_signed_type (pub_ref_update p) RefUpdate = Ok tt /\ validate_strict (pub_ref_update p) = Ok tt /\
  RefUpdatePayload_decode (canonical_payload (pub_ref_update p)) = Ok update /\ rust_string (pub_ref_name p) /\
  ru_ref_name update = pub_ref_name p /\ ru_old_ref_state_id update = pub_expected_previous p /\
  ru_new_ref_state_id update = object_id (pub_ref_state p) /\ ru_created_at update = 0.
Proof.
  unfold validate_coherent_publication, validate_publication. intros Hv.
  destruct (require_signed_type (pub_ref_state p) RefState) as [[]|]; [|done].
  destruct (require_signed_type (pub_ref_update p) RefUpdate) as [[]|]; [|done].
  destruct (validate_strict (pub_ref_state p)) as [[]|]; [|done].
  destruct (validate_strict (pub_ref_update p)) as [[]|]; [|done].
  destruct (RefStatePayload_decode _ _) as [st|] eqn:Hst; [|done].
  destruct (RefUpdatePayload_decode _) as [u|] eqn:Hu; [|done].
  apply RefState_decode_wf in Hst as (Hname & _).
  repeat case_bool_decide; cbn [negb orb] in Hv; try discriminate Hv;
    destruct (rs_kind st), (validate_local_branch_ref (pub_ref_name p)), (validate_local_tag_ref (pub_ref_name p)); try discriminate Hv;
    destruct (Z.eqb_spec (ru_update_seq u) (rs_update_seq st)); cbn [negb] in Hv; try discriminate Hv;
    destruct (Z.eqb_spec (ru_created_at u) 0); cbn [negb] in Hv; try discriminate Hv;
    inversion Hv; subst u; split_and!; congruence.
Qed.

Lemma pub_entry_wf i : publishable i -> entry_wf pub_entry.
Proof.
  intros []. destruct (coherent_facts pb_valid0) as (_ & _ & _ & Hn & _). split_and!; [apply sha256_length|apply sha256_length|exact Hn|].
  cbn [pub_entry pe_ref_name]. pose proof (zlen_nonneg (pointer_bytes i)). revert pb_pointer_room0. unfold pointer_frame, frame_log_record, pointer_body, pub_entry. cbn [pe_ref_name].
  rewrite !zlen_app. intros. repeat match goal with Hx : context [zlen ?l] |- _ => lazymatch goal with _ : 0 <= zlen l |- _ => fail | _ => pose proof (zlen_nonneg l) end end. lia.
Qed.

Lemma pub_record_wf i : publishable i -> record_wf pub_record.
Proof.
  intros []. destruct (coherent_facts pb_valid0) as (Hs & Hv & _). split_and!; [apply sha256_length|done|done|done|].
  cbn [pub_record rc_envelope]. pose proof (zlen_nonneg (log_bytes i)). revert pb_log_room0. unfold log_frame, frame_log_record, pub_record. cbn [rc_envelope].
  rewrite !zlen_app. intros. repeat match goal with Hx : context [zlen ?l] |- _ => lazymatch goal with _ : 0 <= zlen l |- _ => fail | _ => pose proof (zlen_nonneg l) end end. lia.
Qed.

(** ** The images of a publication *)

Lemma concat_snoc (frames : list (list byte)) f : concat (frames ++ [f]) = concat frames ++ f.
Proof. rewrite concat_app. cbn. by rewrite app_nil_r. Qed.

Lemma pub_key_len : length pub_key = 32%nat.
Proof. apply sha256_length. Qed.

Lemma led_current torn i : current_entry (led torn i) pub_key = Some pub_entry.
Proof. unfold current_entry, led. cbn [ri_entries]. rewrite filter_app, filter_cons_True by done. cbn [filter list_filter]. by rewrite last_snoc. Qed.

Lemma published_current i : current_entry (published i) pub_key = Some pub_entry.
Proof. apply (led_current [] i). Qed.

Lemma published_history i : history (published i) pub_key = history i pub_key ++ [pub_ref_update p].
Proof. unfold history, published. cbn [ri_records]. rewrite filter_app, filter_cons_True by done. by rewrite fmap_app. Qed.

Lemma published_other i key : key <> pub_key -> current_entry (published i) key = current_entry i key /\ history (published i) key = history i key.
Proof.
  intros Hk. unfold current_entry, history, published. cbn [ri_entries ri_records]. rewrite !filter_app, !filter_cons_False by done.
  cbn [filter list_filter]. by rewrite !app_nil_r.
Qed.

Lemma insert_pointer d i torn : image_on d i -> publishable i -> torn = ri_record_tail i ->
  image_on (<[ref_pointer_index_slot_path (ri_slot i) := pointer_bytes i ++ pointer_frame pub_entry]> d) (led torn i).
Proof.
  intros [] Hp ->. destruct (pointer_entry_encodes _ (pub_entry_wf _ Hp)) as [_ Hf]. pose proof (pb_entry_tail _ Hp) as Ht. pose proof (pb_pointer_room _ Hp) as Hroom.
  assert (Hb : pointer_bytes (led (ri_record_tail i) i) = pointer_bytes i ++ pointer_frame pub_entry)
    by (unfold pointer_bytes, led; cbn [ri_entry_frames ri_entry_tail]; by rewrite concat_snoc, Ht, !app_nil_r).
  constructor; cbn [led ri_slot ri_entries ri_entry_frames ri_entry_tail ri_records ri_record_frames ri_record_tail]; try done.
  - eapply settled_frame; [| |done]; [rewrite lookup_insert_ne; [done|apply slot_path_not_generation]|].
    intros Hs. rewrite lookup_insert_ne; [done|by apply slot_paths_differ].
  - rewrite lookup_insert_eq. by rewrite Hb.
  - rewrite lookup_insert_ne; [done|apply slot_path_not_log].
  - by apply Forall2_app; [|constructor].
  - by left.
  - rewrite Hb, zlen_app. lia.
Qed.

Lemma insert_log d i : image_on d (led [] i) -> publishable i ->
  image_on (<[ref_log_container_path := log_bytes (led [] i) ++ log_frame pub_record]> d) (published i).
Proof.
  intros [] Hp. destruct (log_record_encodes _ (pub_record_wf _ Hp)) as [_ Hf]. pose proof (pb_log_room _ Hp) as Hroom.
  assert (Hb : log_bytes (published i) = log_bytes (led [] i) ++ log_frame pub_record)
    by (unfold log_bytes, published, led; cbn [ri_record_frames ri_record_tail]; by rewrite concat_snoc, !app_nil_r).
  constructor; try done; cbn [published ri_slot ri_records ri_record_frames].
  - eapply settled_frame; [| |done]; [rewrite lookup_insert_ne; [done|apply log_not_generation]|].
    intros Hs. rewrite lookup_insert_ne; [done|]. intros Hx. symmetry in Hx. by apply slot_path_not_log in Hx.
  - rewrite lookup_insert_ne; [done|]. intros Hx. symmetry in Hx. by apply slot_path_not_log in Hx.
  - rewrite lookup_insert_eq. by rewrite Hb.
  - by apply Forall2_app; [|constructor].
  - rewrite Hb, zlen_app. unfold log_bytes in Hroom |- *. rewrite (pb_record_tail _ Hp) in Hroom. cbn [led ri_record_frames ri_record_tail]. lia.
Qed.

(** ** Steps of a publication *)

Lemma image_read_current d i : image_on d i ->
  read_current_ref_state_id (pub_ref_name p) d =
  match current_entry i pub_key with
  | None => Ok None
  | Some e => if negb (bool_decide (pe_ref_name e = pub_ref_name p)) then Err (Integrity "ref pointer name mismatch: expected {ref_name}, got {}") else Ok (Some (pe_ref_state_id e))
  end.
Proof. intros Hi. unfold read_current_ref_state_id. by rewrite (image_lookup _ _ _ Hi). Qed.

Lemma read_current_expected d i : image_on d i -> publishable i -> read_current_ref_state_id (pub_ref_name p) d = Ok (pub_expected_previous p).
Proof.
  intros Hi Hp. rewrite (image_read_current _ _ Hi). pose proof (pb_current _ Hp) as Hc.
  destruct (current_entry i pub_key) as [e|], (pub_expected_previous p); cbn in Hc; try discriminate Hc; [|done].
  injection Hc as -> ->. by rewrite bool_decide_true.
Qed.

Lemma read_current_led d j : image_on d j -> current_entry j pub_key = Some pub_entry ->
  read_current_ref_state_id (pub_ref_name p) d = Ok (Some (object_id (pub_ref_state p))).
Proof. intros Hi Hc. rewrite (image_read_current _ _ Hi), Hc. cbn [pub_entry pe_ref_name pe_ref_state_id]. by rewrite bool_decide_true. Qed.

Lemma position_snoc name e u : RefUpdatePayload_decode (canonical_payload e) = Ok u -> forall h index previous before tip before',
  log_position_loop name index h previous before = Ok (tip, before') -> 0 <= index -> index + Z.of_nat (length h) + 1 < 2 ^ 64 ->
  ru_ref_name u = name -> ru_old_ref_state_id u = tip -> ru_update_seq u = index + Z.of_nat (length h) + 1 -> ru_created_at u = 0 ->
  log_position_loop name index (h ++ [e]) previous before = Ok (Some (ru_new_ref_state_id u), tip).
Proof.
  intros Hu. induction h as [|x h IH]; intros index previous before tip before' Hl Hi Hb Hn Ho Hs Hc; cbn [log_position_loop app length] in *.
  - injection Hl as <- <-. rewrite Hu. destruct (Z.leb_spec (2 ^ 64) (index + 1)); [lia|]. rewrite !bool_decide_true by done.
    replace (ru_update_seq u =? index + 1) with true by (symmetry; lia). by rewrite Hc.
  - destruct (RefUpdatePayload_decode (canonical_payload x)) as [v|]; [|done]. destruct (2 ^ 64 <=? index + 1); [done|].
    destruct (_ || _ || _ || _); [done|]. eapply IH; try done; lia.
Qed.

Lemma position_last name e : forall h index previous before tip before',
  log_position_loop name index (h ++ [e]) previous before = Ok (tip, before') ->
  exists u, RefUpdatePayload_decode (canonical_payload e) = Ok u /\ tip = Some (ru_new_ref_state_id u).
Proof.
  induction h as [|x h IH]; intros index previous before tip before' Hl; cbn [log_position_loop app] in Hl.
  - destruct (RefUpdatePayload_decode (canonical_payload e)) as [u|]; [|done]. destruct (2 ^ 64 <=? index + 1); [done|].
    destruct (_ || _ || _ || _); [done|]. injection Hl as <- <-. by exists u.
  - destruct (RefUpdatePayload_decode (canonical_payload x)) as [v|]; [|done]. destruct (2 ^ 64 <=? index + 1); [done|].
    destruct (_ || _ || _ || _); [done|]. by eapply IH.
Qed.

(** The record is not yet the last one. *)
Lemma not_yet_logged i : publishable i -> last (history i pub_key) <> Some (pub_ref_update p).
Proof.
  intros Hp Hl. destruct (coherent_facts (pb_valid _ Hp)) as (_ & _ & Hu & _ & _ & _ & Hnew & _). destruct (pb_chain _ Hp) as [before Hc].
  apply last_Some in Hl as [h Hh]. rewrite Hh in Hc. apply position_last in Hc as (u & Hu' & Htip). rewrite Hu in Hu'. injection Hu' as <-.
  apply (pb_new _ Hp). by rewrite Htip, Hnew.
Qed.

Definition shows (state : PublicationState) (i j : ref_image) : Prop :=
  match state with
  | Ready => j = i
  | PointerLeading => exists torn, j = led torn i
  | Complete => j = published i
  end.

Lemma shows_classified d i state j : image_on d j -> publishable i -> shows state i j -> Z.of_nat (length (history i pub_key)) + 1 < 2 ^ 64 ->
  exists outs, classify_state p update d = Ok (state, mkRefLogReplay (history j pub_key) (own_tail j pub_key) outs) /\ existsb snd outs = false.
Proof.
  intros Hj Hp Hs Hlen. destruct (image_replay_log d j pub_key Hj) as (outs & Hr & Ho). exists outs. split; [|done].
  destruct (coherent_facts (pb_valid _ Hp)) as (_ & _ & Hu & _ & Hname & Hold & Hnew & Hcr). destruct (pb_chain _ Hp) as [before Hc].
  pose proof (not_yet_logged i Hp) as Hnot. pose proof (pb_new _ Hp) as Hfresh. pose proof (pb_seq _ Hp) as Hseq.
  unfold classify_state, replay_log, ref_log_has_item_failure, log_position. fold pub_key. rewrite Hr. cbn [rl_records rl_record_outcomes].
  destruct state; cbn [shows] in Hs.
  - subst j. rewrite (read_current_expected _ _ Hj Hp), Ho, Hc, (bool_decide_false _ Hnot). cbn [negb andb].
    by rewrite (bool_decide_true (pub_expected_previous p = pub_expected_previous p)).
  - destruct Hs as [torn ->]. rewrite (read_current_led _ _ Hj (led_current torn i)), Ho. change (history (led torn i) pub_key) with (history i pub_key).
    rewrite Hc, (bool_decide_false _ Hnot), Hnew. cbn [negb andb]. rewrite (bool_decide_false (Some _ = pub_expected_previous p)) by done.
    cbn [andb]. by rewrite (bool_decide_true (Some _ = Some _)), (bool_decide_true (pub_expected_previous p = pub_expected_previous p)).
  - subst j. rewrite (read_current_led _ _ Hj (published_current i)), Ho, published_history.
    rewrite (position_snoc _ _ _ Hu _ _ _ _ _ _ Hc) by (done || lia || congruence). rewrite last_snoc, Hnew.
    rewrite (bool_decide_true (Some (pub_ref_update p) = _)) by done. cbn [negb andb].
    by rewrite (bool_decide_true (Some _ = Some _)), (bool_decide_true (pub_expected_previous p = pub_expected_previous p)).
Qed.

(** Appending the log record to a log without a tail ends in agreement. *)
Lemma append_agrees d i outs tail : image_on d (led [] i) -> publishable i -> existsb snd outs = false ->
  let replay := mkRefLogReplay (history i pub_key) tail outs in
  exists outcome, let d' := <[ref_log_container_path := log_bytes (led [] i) ++ log_frame pub_record]> d in
    append_ref_container_record_with_replay pub_key (pub_ref_update p) replay d = (Ok outcome, d') /\
    ensure_agreement p update replay outcome d' = Ok tt.
Proof.
  intros Hi Hp Ho replay. destruct (coherent_facts (pb_valid _ Hp)) as (_ & _ & Hu & _ & _ & _ & Hnew & Hcr).
  pose proof (insert_log _ _ Hi Hp) as Hpub. destruct (log_record_encodes _ (pub_record_wf _ Hp)) as [He _]. cbn [pub_record rc_key rc_envelope] in He.
  exists (Wrote (zlen (log_bytes (led [] i))) (log_frame pub_record)). split.
  - unfold append_ref_container_record_with_replay, require_sound_update, io_bind, io_lift. rewrite Hu, Hcr. cbn [Z.eqb negb rl_records replay].
    rewrite (bool_decide_false _ (not_yet_logged i Hp)), He. unfold append_file_reporting_offset_required. by rewrite (on_log _ _ Hi).
  - unfold ensure_agreement. rewrite (read_current_led _ _ Hpub (published_current i)), Hnew.
    unfold ref_log_has_item_failure, replay. cbn [rl_record_outcomes]. rewrite Ho, bool_decide_true by done. cbn [negb orb].
    unfold read_back_ref_container_bytes, read_file_range_if_exists. rewrite lookup_insert_eq. unfold zlen.
    rewrite (Nat2Z.id (length (log_bytes (led [] i)))), drop_app_length, firstn_all. by rewrite bool_decide_true.
Qed.

Lemma latest_from_entries (es : list PointerIndexEntry) (m : gmap (list byte) PointerIndexEntry) k e :
  fold_left (fun latest entry => <[pe_ref_name_key entry := entry]> latest) es m !! k = Some e -> m !! k = Some e \/ e ∈ es.
Proof.
  revert m. induction es as [|x es IH]; intros m Hl; cbn [fold_left] in Hl; [by left|]. apply IH in Hl as [Hl|Hl]; [|right; set_solver].
  apply lookup_insert_Some in Hl as [[_ <-]|[_ Hl]]; [right; set_solver|by left].
Qed.

Lemma no_collision d j : image_on d j ->
  Forall (fun e => pe_ref_name e = pub_ref_name p \/ ascii_fold (pe_ref_name e) <> ascii_fold (pub_ref_name p)) (ri_entries j) ->
  validate_no_ref_name_collision (pub_ref_name p) d = Ok tt.
Proof.
  intros Hj Hall. unfold validate_no_ref_name_collision, list_ref_pointers. rewrite (image_replay_index _ _ Hj). unfold log_has_item_failure.
  cbn [lr_outcomes lr_records]. rewrite log_outcomes_sound. destruct (existsb _ _) eqn:Hex; [|done]. exfalso.
  apply existsb_exists in Hex as (x & Hx & Hc). apply list_elem_of_In in Hx. rewrite sort_by_perm in Hx.
  apply list_elem_of_fmap in Hx as (e & -> & He). apply list_elem_of_fmap in He as ([k e'] & -> & He). apply elem_of_btree_iter in He.
  apply latest_from_entries in He as [He|He]; [by rewrite lookup_empty in He|]. rewrite Forall_forall in Hall. cbn [snd ps_ref_name] in Hc.
  apply andb_true_iff in Hc as [Hn Hf]. apply negb_true_iff, bool_decide_eq_false in Hn. apply bool_decide_eq_true in Hf. by destruct (Hall _ He).
Qed.

Lemma no_pointer_tail d j : image_on d j -> ri_entry_tail j = [] -> ensure_pointer_index_has_no_tail (pub_ref_name p) d = Ok tt.
Proof. intros Hj Ht. unfold ensure_pointer_index_has_no_tail. rewrite (image_lookup _ _ _ Hj), Ht. done. Qed.

Lemma current_matches d i : image_on d i -> publishable i -> ensure_current_matches (pub_ref_name p) (pub_expected_previous p) d = Ok tt.
Proof.
  intros Hi Hp. unfold ensure_current_matches. rewrite (image_lookup _ _ _ Hi), (pb_entry_tail _ Hp). cbn [length require_no_unclean_tail Nat.eqb].
  fold pub_key. pose proof (pb_current _ Hp) as Hc.
  destruct (current_entry i pub_key) as [e|], (pub_expected_previous p); cbn in Hc; try discriminate Hc; [|done].
  injection Hc as -> ->. by rewrite !bool_decide_true.
Qed.

(** ** A torn log tail *)

Lemma own_tail_nil i : ri_record_tail i = [] -> own_tail i pub_key = 0%nat.
Proof. intros Ht. unfold own_tail. rewrite Ht. by case_bool_decide. Qed.

Lemma torn_attributed torn i : (42 <= length torn)%nat -> torn `prefix_of` log_frame pub_record -> own_tail (led torn i) pub_key = length torn.
Proof.
  intros Hlen [more Hm]. unfold own_tail, log_bytes, led. cbn [ri_record_frames ri_record_tail].
  assert (Hk : trailing_tail_ref_name_key (concat (ri_record_frames i) ++ torn) (length torn) = Some pub_key); [|by rewrite bool_decide_true].
  unfold trailing_tail_ref_name_key. destruct (Nat.eqb_spec (length torn) 0); [lia|]. rewrite length_app.
  replace (length (concat (ri_record_frames i)) + length torn - length torn)%nat with (length (concat (ri_record_frames i))) by lia.
  set (head := lf_magic REF_CONTAINER_FORMAT ++ to_be_bytes 2 (lf_version REF_CONTAINER_FORMAT)).
  assert (Hh : length head = 10%nat) by reflexivity.
  assert (Ht : torn = head ++ pub_key ++ drop 42 torn).
  { rewrite <- (take_drop 42 torn) at 1. rewrite (app_assoc head). f_equal. rewrite <- (take_app_le torn more) by done. rewrite <- Hm.
    unfold log_frame, frame_log_record. cbn [pub_record rc_key rc_envelope]. rewrite (app_assoc (lf_magic _)). fold head. rewrite (app_assoc head).
    apply take_app_length'. rewrite length_app, Hh, pub_key_len. done. }
  rewrite Ht, app_assoc. pose proof (length_app (concat (ri_record_frames i)) head) as Hl. rewrite Hh in Hl. rewrite <- Hl.
  replace 32%nat with (length pub_key) by apply pub_key_len. apply get_range_app.
Qed.

Lemma truncate_led d torn i : image_on d (led torn i) -> publishable i ->
  image_on (<[ref_log_container_path := concat (ri_record_frames i)]> d) (led [] i).
Proof.
  intros [] Hp. constructor; try done; cbn [led ri_slot] in *.
  - eapply settled_frame; [| |done]; [rewrite lookup_insert_ne; [done|apply log_not_generation]|].
    intros Hs. rewrite lookup_insert_ne; [done|]. intros Hx. symmetry in Hx. by apply slot_path_not_log in Hx.
  - rewrite lookup_insert_ne; [done|]. intros Hx. symmetry in Hx. by apply slot_path_not_log in Hx.
  - rewrite lookup_insert_eq. unfold log_bytes. cbn [led ri_record_frames ri_record_tail]. by rewrite app_nil_r.
  - by left.
  - unfold log_bytes in *. cbn [led ri_record_frames ri_record_tail] in *. rewrite app_nil_r. rewrite zlen_app in on_log_size0. pose proof (zlen_nonneg torn). lia.
Qed.

Lemma torn_resolved d torn i outs : image_on d (led torn i) -> publishable i -> torn `prefix_of` log_frame pub_record -> (42 <= length torn)%nat ->
  resolve_log_tail p true PointerLeading (mkRefLogReplay (history i pub_key) (own_tail (led torn i) pub_key) outs) d
  = (Ok tt, <[ref_log_container_path := concat (ri_record_frames i)]> d).
Proof.
  intros Hi Hp Hpre Hlen. destruct (log_record_encodes _ (pub_record_wf _ Hp)) as [He _]. cbn [pub_record rc_key rc_envelope] in He.
  assert (Hdec : decode_ref_container_records (log_bytes (led torn i))
    = Ok (mkLogReplay (ri_records i) (length torn) (length (concat (ri_record_frames i))) (log_outcomes 0 (ri_record_frames i)))).
  { destruct Hi. apply decode_log_image; done. }
  assert (Hcut : (length (log_bytes (led torn i)) - length torn)%nat = length (concat (ri_record_frames i)))
    by (unfold log_bytes; cbn [led ri_record_frames ri_record_tail]; rewrite length_app; lia).
  assert (Hge : (length (log_bytes (led torn i)) <? length torn)%nat = false)
    by (apply Nat.ltb_ge; unfold log_bytes; cbn [led ri_record_frames ri_record_tail]; rewrite length_app; lia).
  assert (Hnz : (length torn =? 0)%nat = false) by (apply Nat.eqb_neq; lia).
  unfold resolve_log_tail. cbn [rl_trailing_partial_bytes]. rewrite torn_attributed, Hnz by done. cbn [negb orb]. rewrite bool_decide_true by done. cbn [negb].
  unfold io_bind, io_read, incomplete_tail_matches. fold pub_key. rewrite (on_log _ _ Hi). cbn [from_option id].
  rewrite Hdec. cbn [lr_trailing]. rewrite Hnz, Hge, Hcut, He.
  assert (Hb : bytes_start_with (log_frame pub_record) (drop (length (concat (ri_record_frames i))) (log_bytes (led torn i))) = true).
  { unfold log_bytes. cbn [led ri_record_frames ri_record_tail]. rewrite drop_app_length. unfold bytes_start_with. destruct Hpre as [more ->].
    by rewrite take_app_length, bool_decide_true. }
  rewrite Hb. cbn [negb]. unfold truncate_incomplete_tail, io_bind, io_read, io_lift. rewrite (on_log _ _ Hi). cbn [from_option id].
  rewrite Hdec. cbn [lr_trailing]. rewrite Hnz, Hge, Hcut. unfold truncate_existing_file_required. rewrite (on_log _ _ Hi).
  unfold log_bytes. cbn [led ri_record_frames ri_record_tail]. by rewrite take_app_length.
Qed.

(** ** Whole publications *)

Context (write_object : ObjectEnvelope -> IO ObjectId).

(** The checks before the first write. *)
Lemma publish_body_checked allow d d1 id i state j : image_on d j -> publishable i -> shows state i j -> ri_entry_tail j = [] ->
  write_object (pub_ref_state p) d = (Ok id, d1) ->
  publish_body write_object p allow d =
  (do! '(state, replay) := io_read (classify_state p update) in
   do! _ := resolve_log_tail p allow state replay in
   do! outcome :=
     match state with
     | Ready =>
         do! _ := io_read (ensure_current_matches (pub_ref_name p) (pub_expected_previous p)) in
         do! _ := append_ref_pointer_entry pub_entry in
         append_ref_container_record_with_replay pub_key (pub_ref_update p) replay
     | PointerLeading | Complete => append_ref_container_record_with_replay pub_key (pub_ref_update p) replay
     end in
   do! _ := io_read (ensure_agreement p update replay outcome) in
   io_ret (object_id (pub_ref_state p))) d1.
Proof.
  intros Hj Hp Hs Ht Hw. unfold publish_body, io_bind, io_read, io_lift. rewrite (pb_valid _ Hp).
  assert (Hn : (match pub_expected_previous p with None => fun d => (validate_no_ref_name_collision (pub_ref_name p) d, d) | Some _ => io_ret tt end) d = (Ok tt, d)).
  { destruct (pub_expected_previous p); [done|]. rewrite (no_collision d j Hj); [done|]. destruct state; cbn [shows] in Hs.
    - subst j. apply Hp.
    - destruct Hs as [torn ->]. cbn [led ri_entries]. apply Forall_app. split; [apply Hp|]. constructor; [by left|done].
    - subst j. cbn [published ri_entries]. apply Forall_app. split; [apply Hp|]. constructor; [by left|done]. }
  rewrite Hn, (no_pointer_tail _ _ Hj Ht), Hw. done.
Qed.

Lemma log_tail_quiet allow state d j outs : own_tail j pub_key = 0%nat ->
  resolve_log_tail p allow state (mkRefLogReplay (history j pub_key) (own_tail j pub_key) outs) d = (Ok tt, d).
Proof. intros Ht. unfold resolve_log_tail. cbn [rl_trailing_partial_bytes]. by rewrite Ht. Qed.

Lemma append_pointer d i : image_on d i -> publishable i ->
  append_ref_pointer_entry pub_entry d = (Ok tt, <[ref_pointer_index_slot_path (ri_slot i) := pointer_bytes i ++ pointer_frame pub_entry]> d).
Proof.
  intros Hi Hp. destruct (pointer_entry_encodes _ (pub_entry_wf _ Hp)) as [He _]. unfold append_ref_pointer_entry, io_bind, io_lift, io_read.
  rewrite He, (settled_resolves _ _ (on_slot _ _ Hi)). unfold append_file_required, io_bind, append_file_reporting_offset_required. by rewrite (on_pointer _ _ Hi).
Qed.

Definition untouched (d d' : Disk) : Prop := forall path, path ∉ ref_paths -> d' !! path = d !! path.

Lemma untouched_slot s d bytes : untouched d (<[ref_pointer_index_slot_path s := bytes]> d).
Proof. intros path Hp. apply lookup_insert_ne. intros <-. apply Hp. unfold ref_paths. destruct s; set_solver. Qed.
Lemma untouched_log d bytes : untouched d (<[ref_log_container_path := bytes]> d).
Proof. intros path Hp. apply lookup_insert_ne. intros <-. apply Hp. unfold ref_paths. set_solver. Qed.
Lemma untouched_trans d1 d2 d3 : untouched d1 d2 -> untouched d2 d3 -> untouched d1 d3.
Proof. intros H12 H23 path Hp. by rewrite H23, H12. Qed.

(** Where a publication may have been interrupted. *)
Inductive interrupted (i : ref_image) : ref_image -> Prop :=
| before_pointer : interrupted i i
| after_pointer torn : torn `prefix_of` log_frame pub_record -> torn = [] \/ (42 <= length torn)%nat -> interrupted i (led torn i)
| after_log : interrupted i (published i).

Lemma publish_body_completes allow d d1 id i j : publishable i -> interrupted i j -> image_on d j -> Z.of_nat (length (history i pub_key)) + 1 < 2 ^ 64 ->
  allow = true \/ ri_record_tail j = [] -> write_object (pub_ref_state p) d = (Ok id, d1) -> same_ref_files d d1 ->
  exists d2, publish_body write_object p allow d = (Ok (object_id (pub_ref_state p)), d2) /\ image_on d2 (published i) /\ untouched d1 d2.
Proof.
  intros Hp Hint Hj Hlen Hallow Hw Hsame. pose proof (image_same_files _ _ _ Hsame Hj) as Hj1.
  assert (Hfinish : forall d1 outs tail, image_on d1 (led [] i) -> existsb snd outs = false -> exists d2,
    (do! outcome := append_ref_container_record_with_replay pub_key (pub_ref_update p) (mkRefLogReplay (history i pub_key) tail outs) in
     do! _ := io_read (ensure_agreement p update (mkRefLogReplay (history i pub_key) tail outs) outcome) in
     io_ret (object_id (pub_ref_state p))) d1 = (Ok (object_id (pub_ref_state p)), d2) /\ image_on d2 (published i) /\ untouched d1 d2).
  { intros d1' outs tail Hi Ho. destruct (append_agrees d1' i outs tail Hi Hp Ho) as (outcome & Ha & Hag). eexists. split; [|split; [by apply insert_log|apply untouched_log]].
    unfold io_bind at 1. rewrite Ha. unfold io_bind, io_read. by rewrite Hag. }
  inversion Hint as [|torn Hpre Htorn|]; subst j.
  - destruct (shows_classified d1 i Ready i Hj1 Hp eq_refl Hlen) as (outs & Hc & Ho).
    rewrite (publish_body_checked allow d d1 id i Ready i Hj Hp eq_refl (pb_entry_tail _ Hp) Hw). unfold io_bind at 1, io_read at 1. rewrite Hc.
    unfold io_bind at 1. rewrite log_tail_quiet by apply own_tail_nil, Hp. unfold io_bind at 1 2 3. unfold io_read at 1. rewrite (current_matches _ _ Hj1 Hp), (append_pointer _ _ Hj1 Hp).
    pose proof (insert_pointer _ _ [] Hj1 Hp ltac:(symmetry; apply Hp)) as Hled. destruct (Hfinish _ outs (own_tail i pub_key) Hled Ho) as (d2 & Heq & Hi2 & Hu).
    exists d2. split; [exact Heq|]. split; [done|]. eapply untouched_trans; [apply untouched_slot|done].
  - destruct (shows_classified d1 i PointerLeading (led torn i) Hj1 Hp (ex_intro _ torn eq_refl) Hlen) as (outs & Hc & Ho).
    rewrite (publish_body_checked allow d d1 id i PointerLeading (led torn i) Hj Hp (ex_intro _ torn eq_refl) eq_refl Hw). unfold io_bind at 1, io_read at 1. rewrite Hc.
    unfold io_bind at 1. change (history (led torn i) pub_key) with (history i pub_key). destruct Htorn as [->|Hge].
    + rewrite (log_tail_quiet _ _ _ (led [] i)) by by apply own_tail_nil. apply Hfinish; done.
    + destruct Hallow as [->|Hx]; [|cbn in Hx; subst torn; cbn in Hge; lia]. rewrite torn_resolved by done.
      destruct (Hfinish _ outs (own_tail (led torn i) pub_key) (truncate_led _ _ _ Hj1 Hp) Ho) as (d2 & Heq & Hi2 & Hu).
      exists d2. split; [exact Heq|]. split; [done|]. eapply untouched_trans; [apply untouched_log|done].
  - destruct (shows_classified d1 i Complete (published i) Hj1 Hp eq_refl Hlen) as (outs & Hc & Ho).
    rewrite (publish_body_checked allow d d1 id i Complete (published i) Hj Hp eq_refl eq_refl Hw). unfold io_bind at 1, io_read at 1. rewrite Hc.
    unfold io_bind at 1. rewrite log_tail_quiet by by apply own_tail_nil. destruct (coherent_facts (pb_valid _ Hp)) as (_ & _ & Hu & _ & _ & _ & Hnew & Hcr).
    exists (<[ref_log_container_path := log_bytes (published i) ++ []]> d1).
    assert (Heq : <[ref_log_container_path := log_bytes (published i) ++ []]> d1 = d1) by (rewrite app_nil_r; apply insert_id, Hj1). rewrite Heq.
    split; [|by split]. unfold io_bind at 1. unfold append_ref_container_record_with_replay, require_sound_update, io_bind at 1, io_lift. rewrite Hu, Hcr. cbn [Z.eqb negb rl_records].
    rewrite published_history, last_snoc, bool_decide_true by done. unfold append_file_required, append_file_reporting_offset_required, io_bind, io_ret. rewrite (on_log _ _ Hj1), Heq.
    unfold io_read, ensure_agreement. rewrite (read_current_led _ _ Hj1 (published_current i)), Hnew. unfold ref_log_has_item_failure. cbn [rl_record_outcomes].
    by rewrite Ho, bool_decide_true.
Qed.

Lemma published_reads d i : image_on d (published i) ->
  read_current_ref_state_id (pub_ref_name p) d = Ok (Some (object_id (pub_ref_state p))) /\
  exists outs, replay_log (pub_ref_name p) d = Ok (mkRefLogReplay (history i pub_key ++ [pub_ref_update p]) 0 outs) /\ existsb snd outs = false.
Proof.
  intros Hi. split; [apply (read_current_led _ _ Hi), published_current|]. destruct (image_replay_log d _ pub_key Hi) as (outs & Hr & Ho).
  exists outs. split; [|done]. unfold replay_log. fold pub_key. by rewrite Hr, published_history, own_tail_nil.
Qed.

(** Another ref reads as before. *)
Lemma other_ref_kept d d2 i j ref_name : image_on d j -> image_on d2 (published i) -> interrupted i j -> ref_name_key_bytes ref_name <> pub_key ->
  read_current_ref_state_id ref_name d2 = read_current_ref_state_id ref_name d /\
  exists r r2, replay_log ref_name d = Ok r /\ replay_log ref_name d2 = Ok r2 /\ rl_records r2 = rl_records r.
Proof.
  intros Hj H2 Hint Hk. assert (Heq : current_entry (published i) (ref_name_key_bytes ref_name) = current_entry j (ref_name_key_bytes ref_name) /\
    history (published i) (ref_name_key_bytes ref_name) = history j (ref_name_key_bytes ref_name)).
  { destruct (published_other i _ Hk) as [Hc Hh]. inversion Hint; subst j; by split. }
  destruct Heq as [Hc Hh]. split.
  - unfold read_current_ref_state_id. by rewrite (image_lookup _ _ _ H2), (image_lookup _ _ _ Hj), Hc.
  - destruct (image_replay_log d j (ref_name_key_bytes ref_name) Hj) as (o & Hr & _). destruct (image_replay_log d2 _ (ref_name_key_bytes ref_name) H2) as (o2 & Hr2 & _).
    eexists _, _. split; [exact Hr|]. split; [exact Hr2|]. cbn [rl_records]. exact Hh.
Qed.
End publication.

(** ** Properties *)

Section publish_claims.
Context `{Sha256} (write_object : ObjectEnvelope -> IO ObjectId).

(** C20: publication does what its contract says.  On ref files that hold sound frames, a coherent
    publication whose expected previous state is the one pointer and log both name succeeds: the pointer
    index gains exactly the new entry and the ref log exactly the signed update, the ref then reads as
    the new state with the update at the end of its history, every other ref reads as before, and no
    other file changes after the RefState was written. *)
Theorem publish_exact p update i d d1 id : publishable p update i -> image_on d i -> Z.of_nat (length (history i (pub_key p))) + 1 < 2 ^ 64 ->
  write_object (pub_ref_state p) d = (Ok id, d1) -> same_ref_files d d1 ->
  exists d2, publish_ref write_object p d = (Ok (object_id (pub_ref_state p)), d2) /\
    image_on d2 (published p i) /\ untouched d1 d2 /\
    read_current_ref_state_id (pub_ref_name p) d2 = Ok (Some (object_id (pub_ref_state p))) /\
    (exists outs, replay_log (pub_ref_name p) d2 = Ok (mkRefLogReplay (history i (pub_key p) ++ [pub_ref_update p]) 0 outs) /\ existsb snd outs = false) /\
    forall ref_name, ref_name_key_bytes ref_name <> pub_key p ->
      read_current_ref_state_id ref_name d2 = read_current_ref_state_id ref_name d /\
      exists r r2, replay_log ref_name d = Ok r /\ replay_log ref_name d2 = Ok r2 /\ rl_records r2 = rl_records r.
Proof.
  intros Hp Hi Hlen Hw Hsame. destruct (publish_body_completes p update write_object false d d1 id i i Hp (before_pointer p i) Hi Hlen) as (d2 & Heq & H2 & Hu);
    [right; apply Hp|done|done|]. exists d2. split; [exact Heq|]. split; [done|]. split; [done|].
  destruct (published_reads p d2 i H2) as [Hr Hl]. split; [done|]. split; [done|]. intros name Hk. exact (other_ref_kept p d d2 i i name Hi H2 (before_pointer p i) Hk).
Qed.

(** C18: an interrupted publication can always be finished, and to the same files.  Whether it stopped
    before the pointer entry, after it, after any part of the log record long enough to show the ref's
    key, or after the whole record, [finish_interrupted] returns the new state and leaves the pointer
    index and the ref log byte for byte as an uninterrupted publication does. *)
Theorem finish_interrupted_completes p update i j d d1 id : publishable p update i -> interrupted p i j -> image_on d j ->
  Z.of_nat (length (history i (pub_key p))) + 1 < 2 ^ 64 -> write_object (pub_ref_state p) d = (Ok id, d1) -> same_ref_files d d1 ->
  exists d2, finish_interrupted write_object p d = (Ok (object_id (pub_ref_state p)), d2) /\ untouched d1 d2 /\
    d2 !! ref_pointer_index_slot_path (ri_slot i) = Some (pointer_bytes i ++ pointer_frame (pub_entry p)) /\
    d2 !! ref_log_container_path = Some (log_bytes i ++ log_frame (pub_record p)) /\
    read_current_ref_state_id (pub_ref_name p) d2 = Ok (Some (object_id (pub_ref_state p))) /\
    exists outs, replay_log (pub_ref_name p) d2 = Ok (mkRefLogReplay (history i (pub_key p) ++ [pub_ref_update p]) 0 outs) /\ existsb snd outs = false.
Proof.
  intros Hp Hint Hj Hlen Hw Hsame. destruct (publish_body_completes p update write_object true d d1 id i j Hp Hint Hj Hlen) as (d2 & Heq & H2 & Hu);
    [by left|done|done|]. exists d2. split; [exact Heq|]. split; [done|]. destruct (published_reads p d2 i H2) as [Hr Hl]. split_and!; [| |done|done].
  - pose proof (on_pointer _ _ H2) as Ho. cbn [published ri_slot] in Ho. rewrite Ho. unfold pointer_bytes. cbn [published ri_entry_frames ri_entry_tail].
    by rewrite concat_snoc, (pb_entry_tail _ _ _ Hp), !app_nil_r.
  - rewrite (on_log _ _ H2). unfold log_bytes. cbn [published ri_record_frames ri_record_tail]. by rewrite concat_snoc, (pb_record_tail _ _ _ Hp), !app_nil_r.
Qed.

(** A torn pointer entry stops every publication before its first write.  While the pointer index
    ends in an incomplete entry, publishing and finishing fail for every ref with all files as they were,
    and readers still get the state that the whole entries give. *)
Theorem torn_pointer_refused p i d allow : image_on d i -> ri_entry_tail i <> [] ->
  (exists e, publish_body write_object p allow d = (Err e, d)) /\
  forall key, exists tail, lookup_ref_pointer key d = Ok (last (filter (fun e => pe_ref_name_key e = key) (ri_entries i)), tail).
Proof.
  intros Hi Ht. split; [|intros key; eexists; by apply image_lookup].
  assert (He : exists e, ensure_pointer_index_has_no_tail (pub_ref_name p) d = Err e).
  { unfold ensure_pointer_index_has_no_tail. rewrite (image_lookup _ _ _ Hi). unfold require_no_unclean_tail.
    destruct (ri_entry_tail i); [done|]. cbn [length Nat.eqb]. by eexists. }
  destruct He as [e He]. unfold publish_body, io_bind, io_read, io_lift. destruct (validate_coherent_publication p) as [u|e']; [|by exists e'].
  destruct (pub_expected_previous p); [|destruct (validate_no_ref_name_collision _ _) as [[]|e']; [|by exists e']]; cbn; rewrite He; by exists e.
Qed.

(** the compare-and-swap.  When the ref's current state is neither the expected previous state nor
    the proposed one, a publication fails and the ref files are as they were, whatever they hold. *)
Theorem publish_cas_refused p d allow current : read_current_ref_state_id (pub_ref_name p) d = Ok current ->
  current <> pub_expected_previous p -> current <> Some (object_id (pub_ref_state p)) ->
  (forall r d1, write_object (pub_ref_state p) d = (r, d1) -> same_ref_files d d1) ->
  exists e d', publish_body write_object p allow d = (Err e, d') /\ same_ref_files d d'.
Proof.
  intros Hc He Hn Hw. unfold publish_body, io_bind at 1, io_lift. destruct (validate_coherent_publication p) as [u|e'] eqn:Hv; [|by eexists _, _].
  assert (Hrefl : same_ref_files d d) by (by intros ?). destruct (coherent_facts p u Hv) as (_ & _ & _ & _ & _ & _ & Hnew & _). unfold io_bind at 1.
  assert (Hrest : exists e d', (do! _ := io_read (ensure_pointer_index_has_no_tail (pub_ref_name p)) in
    do! _ := write_object (pub_ref_state p) in do! '(state, replay) := io_read (classify_state p u) in
    do! _ := resolve_log_tail p allow state replay in
    do! outcome := match state with
      | Ready => do! _ := io_read (ensure_current_matches (pub_ref_name p) (pub_expected_previous p)) in
                 do! _ := append_ref_pointer_entry (mkPointerEntry (ref_name_key_bytes (pub_ref_name p)) (pub_ref_name p) (object_id (pub_ref_state p))) in
                 append_ref_container_record_with_replay (ref_name_key_bytes (pub_ref_name p)) (pub_ref_update p) replay
      | PointerLeading | Complete => append_ref_container_record_with_replay (ref_name_key_bytes (pub_ref_name p)) (pub_ref_update p) replay
      end in
    do! _ := io_read (ensure_agreement p u replay outcome) in io_ret (object_id (pub_ref_state p))) d = (Err e, d') /\ same_ref_files d d').
  { unfold io_bind at 1, io_read at 1. destruct (ensure_pointer_index_has_no_tail _ _) as [[]|e']; [|by eexists _, _]. unfold io_bind at 1.
    destruct (write_object (pub_ref_state p) d) as [[id|e'] d1] eqn:Hwo; specialize (Hw _ _ eq_refl); [|by eexists _, _].
    assert (Hcl : exists e, classify_state p u d1 = Err e).
    { unfold classify_state. rewrite (read_current_same _ _ _ Hw), Hc. destruct (replay_log _ _) as [replay|e']; [|by eexists].
      destruct (ref_log_has_item_failure replay); [by eexists|]. destruct (log_position replay p) as [[[tip exact] before]|e']; [|by eexists].
      rewrite Hnew, (bool_decide_false _ He), (bool_decide_false _ Hn), !andb_false_r, !andb_false_l. by eexists. }
    destruct Hcl as [e Hcl]. unfold io_bind at 1, io_read at 1. rewrite Hcl. by eexists _, _. }
  destruct (pub_expected_previous p); [exact Hrest|]. unfold io_read at 1. destruct (validate_no_ref_name_collision _ _) as [[]|e']; [exact Hrest|by eexists _, _].
Qed.
End publish_claims.

(** ** Concrete publications *)

Section demo.
#[local] Existing Instance hash_mod_p.

Definition canonical {A} `{CanonicalEncode A} (a : A) : list byte := match to_canonical_bytes a with Ok bytes => bytes | Err _ => [] end.

Definition demo_name : list byte := bytes_of_string "heads/main".
Definition demo_target : ObjectId := replicate 32 x05.

(** The publication number [seq] of the demo branch. *)
Definition demo_publication (seq : Z) (previous : option ObjectId) : RefPublication :=
  let state := mkEnvelope RefState 1 (canonical (mkRefState demo_name Branch demo_target seq previous [] false)) [witness_signature x61] in
  mkPublication demo_name previous state
    (mkEnvelope RefUpdate 1 (canonical (mkRefUpdate demo_name previous (object_id state) demo_target seq 0 [x61])) [witness_signature x61]).

Definition demo_update (seq : Z) (previous : option ObjectId) : RefUpdatePayload :=
  mkRefUpdate demo_name previous (object_id (pub_ref_state (demo_publication seq previous))) demo_target seq 0 [x61].

(** The ref files of a fresh repository, with [torn] in the log. *)
Definition fresh_refs (torn : list byte) : Disk :=
  {[ref_pointer_index_generation_log_path := []; ref_pointer_index_slot_path SlotA := []; ref_pointer_index_slot_path SlotB := []; ref_log_container_path := torn; "FORMAT"%string := format_line x37]}.

(** An object store that keeps nothing. *)
Definition forget (e : ObjectEnvelope) : IO ObjectId := io_ret (object_id e).

Definition fresh_image : ref_image := mkRefImage SlotA [] [] [] [] [] [].

Definition first_publication : RefPublication := demo_publication 1 None.

Lemma first_publishable : publishable first_publication (demo_update 1 None) fresh_image.
Proof.
  constructor.
  - vm_compute. reflexivity.
  - split; [cbv; by split|]. split; [constructor; [cbv; by split|constructor]|]. split; vm_compute; reflexivity.
  - vm_compute. reflexivity.
  - vm_compute. reflexivity.
  - reflexivity.
  - reflexivity.
  - constructor.
  - reflexivity.
  - by eexists.
  - reflexivity.
  - done.
Qed.

Lemma fresh_image_on : image_on (fresh_refs []) fresh_image.
Proof.
  constructor; [|reflexivity|reflexivity|constructor|constructor|by left|by left|reflexivity|reflexivity].
  eexists. split; [vm_compute; reflexivity|]. split; [vm_compute; reflexivity|]. right. split; [vm_compute; reflexivity|by split].
Qed.

Lemma publish_exact_witness : exists d2, publish_ref forget first_publication (fresh_refs []) = (Ok (object_id (pub_ref_state first_publication)), d2) /\
  read_current_ref_state_id demo_name d2 = Ok (Some (object_id (pub_ref_state first_publication))).
Proof.
  destruct (publish_exact forget first_publication (demo_update 1 None) fresh_image (fresh_refs []) (fresh_refs [])
    (object_id (pub_ref_state first_publication)) first_publishable fresh_image_on) as (d2 & Heq & _ & _ & Hr & _); [vm_compute; reflexivity|reflexivity|by intros ?|].
  exists d2. by split.
Defined.

Definition torn_record (n : nat) : list byte := take n (log_frame (pub_record first_publication)).

(** The first publication, interrupted after [n] bytes of its log record. *)
Definition interrupted_refs (n : nat) : Disk := <[ref_pointer_index_slot_path SlotA := pointer_frame (pub_entry first_publication)]> (fresh_refs (torn_record n)).

Lemma no_inner_magic_scan {A} (F : LogFormat A) torn : resync_to_next_magic torn 1 (lf_magic F) = None -> no_inner_magic F torn.
Proof. intros Hr q Hq. pose proof (resync_first torn 1 (lf_magic F)) as Hf. rewrite Hr in Hf. apply Hf. lia. Qed.

Lemma interrupted_image_on : image_on (interrupted_refs 50) (led first_publication (torn_record 50) fresh_image).
Proof.
  constructor; [|vm_compute; reflexivity|vm_compute; reflexivity| |constructor|by left| |vm_compute; reflexivity|vm_compute; reflexivity].
  - eexists. split; [vm_compute; reflexivity|]. split; [vm_compute; reflexivity|]. right. split; [vm_compute; reflexivity|by split].
  - constructor; [|constructor]. eapply pointer_entry_encodes, pub_entry_wf, first_publishable.
  - right. exists (pub_key first_publication), (enc_envelope (pub_ref_update first_publication)). split.
    + split; [apply no_inner_magic_scan; vm_compute; reflexivity|]. split; [apply pub_key_len|]. split; [vm_compute; reflexivity|].
      exists (drop 50 (log_frame (pub_record first_publication))). split; [apply take_drop|]. intros Hx. apply (f_equal length) in Hx. vm_compute in Hx. discriminate Hx.
    + intros [Hlen _]. revert Hlen. apply Nat.lt_nge. vm_compute. lia.
Qed.

Lemma finish_interrupted_completes_witness : exists d2,
  finish_interrupted forget first_publication (interrupted_refs 50) = (Ok (object_id (pub_ref_state first_publication)), d2) /\
  d2 !! ref_log_container_path = Some (log_frame (pub_record first_publication)).
Proof.
  destruct (finish_interrupted_completes forget first_publication (demo_update 1 None) fresh_image (led first_publication (torn_record 50) fresh_image)
    (interrupted_refs 50) (interrupted_refs 50) (object_id (pub_ref_state first_publication)) first_publishable) as (d2 & Heq & _ & _ & Hl & _).
  - apply after_pointer; [exists (drop 50 (log_frame (pub_record first_publication))); symmetry; apply take_drop|right; vm_compute; lia].
  - exact interrupted_image_on.
  - vm_compute. reflexivity.
  - reflexivity.
  - by intros ?.
  - exists d2. split; [exact Heq|]. rewrite Hl. f_equal.
Defined.

Lemma publish_cas_refused_witness : exists e d',
  publish_body forget (demo_publication 1 (Some demo_target)) false (fresh_refs []) = (Err e, d') /\ same_ref_files (fresh_refs []) d'.
Proof.
  apply (publish_cas_refused forget (demo_publication 1 (Some demo_target)) (fresh_refs []) false None); [vm_compute; reflexivity|discriminate|discriminate|].
  intros r d1 Hw. unfold forget, io_ret in Hw. injection Hw as _ <-. by intros ?.
Defined.

(** The pointer index after an append of 20 bytes of the first entry. *)
Definition torn_pointer_image : ref_image := mkRefImage SlotA [] [] (take 20 (pointer_frame (pub_entry first_publication))) [] [] [].

Definition torn_pointer_disk : Disk := <[ref_pointer_index_slot_path SlotA := pointer_bytes torn_pointer_image]> (fresh_refs []).

Lemma torn_pointer_image_on : image_on torn_pointer_disk torn_pointer_image.
Proof.
  constructor; [|reflexivity|reflexivity|constructor|constructor| |by left|vm_compute; reflexivity|vm_compute; reflexivity].
  - eexists. split; [vm_compute; reflexivity|]. split; [vm_compute; reflexivity|]. right. split; [vm_compute; reflexivity|by split].
  - right. exists [], (pointer_body (pub_entry first_publication)). split.
    + split; [apply no_inner_magic_scan; vm_compute; reflexivity|]. split; [reflexivity|]. split; [vm_compute; reflexivity|].
      exists (drop 20 (pointer_frame (pub_entry first_publication))). split; [apply take_drop|]. intros Hx. apply (f_equal length) in Hx. vm_compute in Hx. discriminate Hx.
    + intros [Hlen _]. revert Hlen. apply Nat.lt_nge. vm_compute. lia.
Qed.

Lemma torn_pointer_refused_witness : exists e, publish_body forget first_publication true torn_pointer_disk = (Err e, torn_pointer_disk).
Proof.
  destruct (torn_pointer_refused forget first_publication torn_pointer_image torn_pointer_disk true torn_pointer_image_on) as [He _];
    [intros Hx; vm_compute in Hx; discriminate Hx|exact He].
Defined.

Definition log_damaged (d : Disk) : bool :=
  match decode_ref_container_records (default [] (d !! ref_log_container_path)) with Ok replay => has_damage replay | Err _ => true end.

(** The update sequence of a publication is not checked against the log.  On an empty ref a
    publication numbered 7 succeeds; from then on the log's own check counts its record as a diverging
    chain, and the publication that follows it correctly is refused. *)
Theorem publish_accepts_any_sequence :
  let id := object_id (pub_ref_state (demo_publication 7 None)) in
  let '(result, d) := publish_ref forget (demo_publication 7 None) (fresh_refs []) in
  result = Ok id /\ read_current_ref_state_id demo_name d = Ok (Some id) /\
  (publish_ref forget (demo_publication 8 (Some id)) d).1 = Err (Integrity "ref-log chain diverges for {}").
Proof.
  destruct (publish_ref _ _ _) as [result d] eqn:Hp. assert (Hd : d = (publish_ref forget (demo_publication 7 None) (fresh_refs [])).2) by by rewrite Hp.
  assert (Hr : result = (publish_ref forget (demo_publication 7 None) (fresh_refs [])).1) by by rewrite Hp. subst. clear. split_and!; vm_compute; reflexivity.
Qed.
End demo.
