(* ===== verification/RecoveryEntry.v ===== *)
(** * Saving what a repair cuts (crates/prikk-store/src/recovery_log.rs, refs/pointer_index.rs)

    A repair that cuts the tail of a file first appends the cut bytes to the recovery log, with the
    hashes of the files that give them their meaning. *)

From S2P Require Import Prelude PrikkError Hash ObjectId ObjectStore FileSystem IndexFile TailLog Generation RecoveryLog RefLog.

(** ** Paths (foundation/layout.rs) *)

Definition DEFAULT_ACTIVE_NAME : string := "default".
Definition active_session_relative_dir (name : string) : string := ("active/" +:+ name)%string.
Definition active_queue_wal_relative_path (name : string) : string := (active_session_relative_dir name +:+ "/queue.wal")%string.
Definition active_ref_name_path (name : string) : string := (active_session_relative_dir name +:+ "/ref-name")%string.
Definition active_witness_path (name : string) : string := (active_session_relative_dir name +:+ "/witness")%string.
Definition ref_log_container_slot_path (slot : ContainerSlot) : string := ("refs/containers/log-" +:+ slot_as_str slot +:+ ".container")%string.
Definition received_index_slot_path (slot : ContainerSlot) : string := ("refs/containers/received-index-" +:+ slot_as_str slot +:+ ".container")%string.
Definition received_index_generation_log_path : string := "refs/containers/received-index-generation.log".
Definition trust_policy_container_slot_path (slot : ContainerSlot) : string := ("trust/policy-" +:+ slot_as_str slot +:+ ".container")%string.
Definition trust_policy_generation_log_path : string := "trust/policy-generation.log".

Section recovery_entry.
Context `{Sha256}.

(** ** Entries *)

Definition resolve_live_slot_trusting_default_on_ambiguity (generation_log_path : string) (d : Disk) : PResult ContainerSlot :=
  let? replay := replay_generation_log generation_log_path d in
  if generation_has_item_failure replay
  then Err (Integrity "ref pointer index's generation log has a damaged record; run `prikk doctor --rebuild-pointer-index --plan-only`, then `prikk doctor --rebuild-pointer-index`")
  else Ok (default SlotA (last (gr_records replay))).

(** The files whose contents say what the bytes of [source] mean. *)
Definition meaning_paths_for (source : string) (d : Disk) : PResult (list string) :=
  let named path := bool_decide (source = path) in
  if named (active_witness_path DEFAULT_ACTIVE_NAME) || named (active_ref_name_path DEFAULT_ACTIVE_NAME) then Ok [active_queue_wal_relative_path DEFAULT_ACTIVE_NAME]
  else if named (active_queue_wal_relative_path DEFAULT_ACTIVE_NAME)
  then Ok [active_ref_name_path DEFAULT_ACTIVE_NAME; active_witness_path DEFAULT_ACTIVE_NAME]
  else
    let? lost := generation_log_lost ref_pointer_index_generation_log_path (ref_pointer_index_slot_path SlotB) d in
    if lost
    then Err (Integrity "the ref pointer index's live slot is not recorded; run `prikk doctor --rebuild-pointer-index --plan-only`, then `prikk doctor --rebuild-pointer-index` first")
    else
      let? pointer_slot := resolve_live_slot_trusting_default_on_ambiguity ref_pointer_index_generation_log_path d in
      if named (ref_pointer_index_slot_path SlotA) || named (ref_pointer_index_slot_path SlotB) then Ok [ref_log_container_slot_path SlotA]
      else if named (ref_log_container_slot_path SlotA) || named (ref_log_container_slot_path SlotB) then Ok [ref_pointer_index_slot_path pointer_slot]
      else if named (trust_policy_container_slot_path SlotA) then Ok [trust_policy_generation_log_path]
      else if named (received_index_slot_path SlotA) then Ok [received_index_generation_log_path]
      else if named (trust_policy_container_slot_path SlotB) then Ok [trust_policy_generation_log_path]
      else if named (received_index_slot_path SlotB) then Ok [received_index_generation_log_path]
      else Ok [].

Definition meaning_now (paths : list string) (d : Disk) : list Meaning :=
  map (fun path => mkMeaning (bytes_of_string path) (sha256 <$> d !! path)) paths.

Definition entry_for (source : string) (file_bytes : list byte) (cut : nat) (label : string) (d : Disk) : PResult Entry :=
  if (length file_bytes <? cut)%nat then Err (MalformedData "repair offset beyond the file")
  else
    let? paths := meaning_paths_for source d in
    Ok (mkEntry Cut (replicate 8 x00) (bytes_of_string source) (Z.of_nat cut) (bytes_of_string label) CARGO_PKG_VERSION
          (sha256 (take cut file_bytes)) (meaning_now paths d) (drop cut file_bytes) (replicate 32 x00)).

(** ** The tail of the pointer index (refs/pointer_index.rs) *)

Record PointerIndexRepair : Type := mkPointerRepair {
  pr_preserved_entries : nat;
  pr_truncated_bytes : nat;
  pr_recovery : option RecoveryRef;
}.

(** [run] is the identifier that [begin_run] draws. *)
Definition truncate_pointer_index_trailing_partial (run : list byte) : IO PointerIndexRepair :=
  do! slot := io_read resolve_pointer_slot in
  let relative := ref_pointer_index_slot_path slot in
  do! found := io_read (read_file_if_exists relative) in
  match found with
  | None => io_ret (mkPointerRepair 0 0 None)
  | Some bytes =>
      do! replay := io_lift (decode_pointer_index_records bytes) in
      if log_has_item_failure replay
      then io_err (Integrity "pointer index has a damaged entry; this repair does not modify it -- run `prikk doctor --rebuild-pointer-index` instead")
      else if (lr_trailing replay =? 0)%nat then io_ret (mkPointerRepair (length (lr_records replay)) 0 None)
      else if (length bytes <? lr_trailing replay)%nat then io_err (MalformedData "trailing pointer index byte count exceeds file length")
      else
        let repaired_len := (length bytes - lr_trailing replay)%nat in
        do! entry := io_read (entry_for relative bytes repaired_len "pointer index") in
        do! recovery := recovery_append run entry in
        do! _ := truncate_existing_file_required relative repaired_len in
        io_ret (mkPointerRepair (length (lr_records replay)) (lr_trailing replay) (Some recovery))
  end.
End recovery_entry.
