(* ===== verification/Wal.v ===== *)
(** * The write-ahead log (crates/prikk-store/src/wal.rs)

    The queue of signed patches of an active session, before they are sealed: one framed record per
    patch, numbered from 1.  A record that is damaged with nothing sound behind it is a tail, and a
    repair cuts a tail after saving it. *)

From S2P Require Import Prelude PrikkError Hash Utf8 ObjectId Signature Envelope ByteCursor FileCodec ObjectStore.
From S2P Require Import FrameResync IndexFile TailLog FileSystem ObjectDisk RecoveryLog RefLog RecoveryEntry.

Record WalRecord : Type := mkWalRecord { wr_seq : Z; wr_envelope : ObjectEnvelope }.
#[global] Instance WalRecord_eq_dec : EqDecision WalRecord.
Proof. solve_decision. Defined.

Definition decode_wal_body (key body : list byte) : PResult WalRecord :=
  let? envelope := decode_envelope_file body in
  Ok (mkWalRecord (from_be_bytes key) envelope).

Definition WAL_FORMAT : LogFormat WalRecord :=
  mkLogFormat _ "WAL" (bytes_of_string "PWALR001") 1 8 false decode_wal_body (fun _ => Ok tt) SCAN_BUDGET_EXCEEDED_AS_DAMAGE "{err}".

(** [Wal]: without a layout the handle only reads. *)
Record Wal : Type := mkWal { wal_path : string; wal_layout : option RepositoryFormat }.

Definition Wal_new (path : string) : Wal := mkWal path None.
Definition Wal_for_layout (format : RepositoryFormat) (name : string) : Wal := mkWal (active_queue_wal_relative_path name) (Some format).

Record WalRepair : Type := mkWalRepair {
  wp_preserved_records : nat;
  wp_truncated_bytes : nat;
  wp_preserved_patch_ids : list ObjectId;
  wp_recovery : option RecoveryRef;
  wp_complete_records_removed : nat;
}.

(** The first damaged offset, and how many sound records follow it. *)
Definition damage_summary (replay : LogReplay WalRecord) : option (nat * nat) :=
  match List.find (fun o => log_failed (lo_status o)) (lr_outcomes replay) with
  | None => None
  | Some first =>
      Some (lo_offset first,
            length (List.filter (fun o => (lo_offset first <? lo_offset o)%nat && negb (log_failed (lo_status o))) (lr_outcomes replay)))
  end.

Section wal.
Context `{Sha256}.

(** ** Records *)

Definition encode_wal_record (record : WalRecord) : PResult (list byte) :=
  let? body := encode_envelope_file (wr_envelope record) in
  let? _ := len_to_u64 (zlen body) in
  Ok (frame_log_record WAL_FORMAT (to_be_bytes 8 (wr_seq record)) body).

Definition record_frame_checksum (record : WalRecord) : PResult (list byte) :=
  let? body := encode_envelope_file (wr_envelope record) in
  let? body_len := len_to_u64 (zlen body) in
  Ok (log_checksum WAL_FORMAT (to_be_bytes 8 (wr_seq record)) body_len body).

Definition decode_wal_records (bytes : list byte) : PResult (LogReplay WalRecord) := decode_log WAL_FORMAT bytes.

(** The length of a record whose bytes are all there, sound or not. *)
Definition full_length_record_shape_len (bytes : list byte) : option nat :=
  if (length bytes <? LOG_HEADER_LEN WAL_FORMAT)%nat then None
  else
    match parse_log_header WAL_FORMAT (take (LOG_HEADER_LEN WAL_FORMAT) bytes) with
    | Err _ => None
    | Ok header =>
        if (usize_max <? lh_body_len header) || (usize_max <? Z.of_nat (LOG_HEADER_LEN WAL_FORMAT) + lh_body_len header) then None
        else if zlen bytes <? Z.of_nat (LOG_HEADER_LEN WAL_FORMAT) + lh_body_len header then None
        else Some (LOG_HEADER_LEN WAL_FORMAT + Z.to_nat (lh_body_len header))%nat
    end.

(** The [while] loop: a shape is never empty, so the offset grows. *)
Fixpoint count_shapes_loop (fuel : nat) (removed : list byte) (offset count : nat) : nat :=
  match fuel with
  | O => count
  | S fuel' =>
      match full_length_record_shape_len (drop offset removed) with
      | None => count
      | Some shape_len => count_shapes_loop fuel' removed (offset + shape_len) (S count)
      end
  end.

Definition count_complete_record_shapes (removed : list byte) : nat := count_shapes_loop (S (length removed)) removed 0 0.

(** ** The log *)

Definition wal_mutation (w : Wal) : PResult RepositoryFormat :=
  ok_or (wal_layout w) (Io "WAL mutation requires a validated repository layout capability").

(** [Wal::require_current_format]: a layout, and its format still the one the marker names. *)
Definition wal_require_current_format (w : Wal) (d : Disk) : PResult unit :=
  let? format := ok_or (wal_layout w) (Io "WAL mutation requires a validated repository layout capability") in
  require_current_format format d.

Definition wal_replay (w : Wal) (d : Disk) : PResult (LogReplay WalRecord) :=
  match d !! wal_path w with
  | None => Ok (mkLogReplay [] 0 0 [])
  | Some bytes =>
      let? replay := decode_wal_records bytes in
      let? _ :=
        match wal_layout w with
        | Some format => for_each (fun record => validate_read_schema format (wr_envelope record)) (lr_records replay)
        | None => Ok tt
        end in
      Ok replay
  end.

Definition next_sequence_of (records : list WalRecord) : PResult Z :=
  match last records with
  | None => Ok 1
  | Some last => if 2 ^ 64 <=? wr_seq last + 1 then Err (MalformedData "WAL sequence overflow") else Ok (wr_seq last + 1)
  end.

Definition next_sequence (w : Wal) (d : Disk) : PResult Z :=
  let? replay := wal_replay w d in
  next_sequence_of (lr_records replay).

(** [append_patch_reporting]: the sequence number, and the records as they are afterwards. *)
Definition append_patch_reporting (w : Wal) (envelope : ObjectEnvelope) : IO (Z * list WalRecord) :=
  do! _ := io_read (wal_require_current_format w) in
  if negb (bool_decide (object_type envelope = Patch)) then io_err (ObjectTypeMismatch "patch" "{}")
  else if bool_decide (signatures envelope = []) then io_err (InvalidSignature "commit WAL entries must store signed patch envelopes")
  else
    do! _ := io_lift (validate_strict envelope) in
    if negb (bool_decide (schema_version envelope ∈ default [] (admitted_schemas Patch)))
    then io_err (Integrity "format-2 Patch does not accept envelope schema {} (accepted: {accepted:?})")
    else
      do! replay := io_read (wal_replay w) in
      if negb (lr_trailing replay =? 0)%nat then io_err (Integrity "cannot append after an incomplete WAL tail")
      else if log_has_item_failure replay then io_err (Integrity "cannot append after a damaged WAL record; run doctor before appending")
      else
        let append :=
          do! next_seq := io_lift (next_sequence_of (lr_records replay)) in
          let record := mkWalRecord next_seq envelope in
          do! bytes := io_lift (encode_wal_record record) in
          do! _ := append_file_required (wal_path w) bytes in
          io_ret (next_seq, lr_records replay ++ [record]) in
        match last (lr_records replay) with
        | Some last =>
            if bool_decide (wr_envelope last = envelope) then
              do! _ := append_file_required (wal_path w) [] in
              io_ret (wr_seq last, lr_records replay)
            else append
        | None => append
        end.

Definition append_patch (w : Wal) (envelope : ObjectEnvelope) : IO Z :=
  do! '(seq, _) := append_patch_reporting w envelope in io_ret seq.

(** What a repair finds: nothing to cut, or the length to cut the file to. *)
Definition plan_tail (w : Wal) (d : Disk) : PResult (WalRepair + list byte * nat * LogReplay WalRecord) :=
  match d !! wal_path w with
  | None => Ok (inl (mkWalRepair 0 0 [] None 0))
  | Some bytes =>
      let? replay := decode_wal_records bytes in
      if log_has_item_failure replay then Err (Integrity "WAL has a damaged record ({}); repair does not modify it")
      else if (lr_trailing replay =? 0)%nat
      then Ok (inl (mkWalRepair (length (lr_records replay)) 0 (object_id ∘ wr_envelope <$> lr_records replay) None 0))
      else if (length bytes <? lr_trailing replay)%nat then Err (MalformedData "trailing WAL byte count exceeds file length")
      else Ok (inr (bytes, (length bytes - lr_trailing replay)%nat, replay))
  end.

Definition truncate_trailing_partial (run : list byte) (w : Wal) : IO WalRepair :=
  do! _ := io_read (wal_require_current_format w) in
  do! plan := io_read (plan_tail w) in
  match plan with
  | inl repair => io_ret repair
  | inr (bytes, repaired_len, replay) =>
      let complete_records_removed := count_complete_record_shapes (drop repaired_len bytes) in
      do! entry := io_read (entry_for (wal_path w) bytes repaired_len "wal") in
      do! recovery := recovery_append run entry in
      do! _ := truncate_existing_file_required (wal_path w) repaired_len in
      io_ret (mkWalRepair (length (lr_records replay)) (lr_trailing replay) (object_id ∘ wr_envelope <$> lr_records replay) (Some recovery)
                complete_records_removed)
  end.

(** What [truncate_trailing_partial] would do; the recovery identifier is not drawn yet. *)
Definition preview_truncate_trailing_partial (w : Wal) (d : Disk) : PResult WalRepair :=
  let? _ := wal_require_current_format w d in
  let? plan := plan_tail w d in
  match plan with
  | inl repair => Ok repair
  | inr (bytes, repaired_len, replay) =>
      let removed := drop repaired_len bytes in
      Ok (mkWalRepair (length (lr_records replay)) (lr_trailing replay) (object_id ∘ wr_envelope <$> lr_records replay)
            (Some (mkRecoveryRef [] (bytes_of_string (wal_path w)) (Z.of_nat repaired_len) (zlen removed))) (count_complete_record_shapes removed))
  end.

Definition truncate_empty_authorized (w : Wal) : IO unit :=
  do! _ := io_lift (wal_mutation w) in
  truncate_file_empty_required (wal_path w).

Definition truncate_empty (w : Wal) : IO unit :=
  do! _ := io_read (wal_require_current_format w) in
  truncate_empty_authorized w.
End wal.
