(* ===== verification/WalThms.v ===== *)
(** * Theorems about the write-ahead log and tail repairs

    An append adds one record with the next number, or none when the patch is already the last one; an
    interrupted append is refused until it is cut, and cutting it saves its bytes first. *)

From S2P Require Import Prelude PrikkError Hash Utf8 ByteCursor ObjectId Signature Envelope FileCodec ObjectStore.
From S2P Require Import FrameResync IndexFile TailLog FileSystem ObjectDisk Generation RecoveryLog RecoveryLogThms RefLog RefStore RefStoreThms RecoveryEntry Wal.

Section wal.
Context `{Sha256}.

Definition wal_frame (r : WalRecord) : list byte := frame_log_record WAL_FORMAT (to_be_bytes 8 (wr_seq r)) (enc_envelope (wr_envelope r)).

Lemma zlen_wal_frame r : zlen (wal_frame r) = 58 + zlen (enc_envelope (wr_envelope r)).
Proof. unfold wal_frame, zlen. rewrite length_frame_log by (done || apply length_to_be_bytes). change (LOG_HEADER_LEN WAL_FORMAT) with 58%nat. lia. Qed.

(** An envelope that may be queued. *)
Definition queueable (e : ObjectEnvelope) : Prop :=
  object_type e = Patch /\ signatures e <> [] /\ validate_strict e = Ok tt /\ schema_version e ∈ default [] (admitted_schemas Patch) /\
  wf_envelope e /\ zlen (enc_envelope e) < 2 ^ 60.

Lemma queueable_read format e : queueable e -> validate_read_schema format e = Ok tt.
Proof.
  intros (Ht & _ & Hv & Hs & _). unfold validate_read_schema, validate_format2_schema. rewrite Hv, Ht. cbn [default admitted_schemas from_option id] in *.
  match goal with |- context [existsb ?f ?l] => assert (Hx : existsb f l = true) end; [|rewrite Hx; by destruct format].
  apply existsb_exists. exists (schema_version e). split; [by apply list_elem_of_In|apply Z.eqb_refl].
Qed.

Lemma wal_record_encodes seq e : queueable e -> u64 seq ->
  encode_wal_record (mkWalRecord seq e) = Ok (wal_frame (mkWalRecord seq e)) /\ log_frame_of WAL_FORMAT (mkWalRecord seq e) (wal_frame (mkWalRecord seq e)).
Proof.
  intros (_ & _ & Hv & _ & Hwf & Hl) Hs. destruct (envelope_file_enc _ Hv Hwf ltac:(lia)) as [He Hd]. unfold u64 in Hs. split.
  - unfold encode_wal_record. cbn [wr_envelope wr_seq]. rewrite He. unfold len_to_u64. destruct (Z.ltb_spec (zlen (enc_envelope e)) (2 ^ 64)); [done|lia].
  - exists (to_be_bytes 8 seq), (enc_envelope e). split_and!; [done|apply length_to_be_bytes| |done].
    cbn [lf_decode WAL_FORMAT]. unfold decode_wal_body. rewrite Hd, from_to_be_bytes_small; [done|]. cbn. lia.
Qed.

(** ** Images of the log *)

Record wal_on (d : Disk) (w : Wal) (format : RepositoryFormat) (records : list WalRecord) (frames : list (list byte)) (tail : list byte) : Prop := {
  wo_layout : wal_layout w = Some format;
  wo_path : wal_path w <> "FORMAT"%string;
  wo_format : require_current_format format d = Ok tt;
  wo_file : d !! wal_path w = Some (concat frames ++ tail);
  wo_records : Forall2 (log_frame_of WAL_FORMAT) records frames;
  wo_tail : clean_tail WAL_FORMAT tail;
  wo_size : zlen (concat frames ++ tail) < 2 ^ 60;
  wo_schemas : Forall (fun r => validate_read_schema format (wr_envelope r) = Ok tt) records;
}.

Lemma wal_on_decode d w format records frames tail : wal_on d w format records frames tail ->
  decode_wal_records (concat frames ++ tail) = Ok (mkLogReplay records (length tail) (length (concat frames)) (log_outcomes 0 frames)).
Proof. intros []. by apply decode_log_image. Qed.

Lemma wal_on_replay d w format records frames tail : wal_on d w format records frames tail ->
  wal_replay w d = Ok (mkLogReplay records (length tail) (length (concat frames)) (log_outcomes 0 frames)).
Proof.
  intros Hw. unfold wal_replay. rewrite (wo_file _ _ _ _ _ _ Hw), (wal_on_decode _ _ _ _ _ _ Hw), (wo_layout _ _ _ _ _ _ Hw). cbn [lr_records].
  by rewrite (proj2 (for_each_ok _ _) (wo_schemas _ _ _ _ _ _ Hw)).
Qed.

Lemma wal_on_current d w format records frames tail : wal_on d w format records frames tail -> wal_require_current_format w d = Ok tt.
Proof. intros Hw. unfold wal_require_current_format. rewrite (wo_layout _ _ _ _ _ _ Hw). exact (wo_format _ _ _ _ _ _ Hw). Qed.

Lemma wal_sound frames offset records trailing tail_offset : log_has_item_failure (A := WalRecord) (mkLogReplay records trailing tail_offset (log_outcomes offset frames)) = false.
Proof. apply log_outcomes_sound. Qed.

(** The records are numbered from 1 without a gap. *)
Definition numbered (records : list WalRecord) : Prop := forall k r, records !! k = Some r -> wr_seq r = Z.of_nat k + 1.

Lemma numbered_next records : numbered records -> Z.of_nat (length records) + 1 < 2 ^ 64 -> next_sequence_of records = Ok (Z.of_nat (length records) + 1).
Proof.
  intros Hn Hl. unfold next_sequence_of. destruct (last records) as [r|] eqn:Hlast.
  - rewrite last_lookup in Hlast. apply Hn in Hlast as Hs. apply lookup_lt_Some in Hlast.
    replace (wr_seq r + 1) with (Z.of_nat (length records) + 1) by lia. destruct (Z.leb_spec (2 ^ 64) (Z.of_nat (length records) + 1)); [lia|done].
  - by apply last_None in Hlast as ->.
Qed.

Lemma numbered_snoc records e : numbered records -> numbered (records ++ [mkWalRecord (Z.of_nat (length records) + 1) e]).
Proof.
  intros Hn k r Hk. apply lookup_snoc_Some in Hk as [[_ Hk]|[-> <-]]; [by apply Hn|done].
Qed.

Lemma wal_append_fresh d w format records frames e : wal_on d w format records frames [] -> numbered records -> queueable e ->
  last (wr_envelope <$> records) <> Some e -> let r := mkWalRecord (Z.of_nat (length records) + 1) e in zlen (concat frames ++ wal_frame r) < 2 ^ 60 ->
  let d' := <[wal_path w := concat frames ++ wal_frame r]> d in
  append_patch_reporting w e d = (Ok (wr_seq r, records ++ [r]), d') /\ wal_on d' w format (records ++ [r]) (frames ++ [wal_frame r]) [].
Proof.
  intros Hw Hn Hq Hnew r Hlen d'. pose proof (log_frames_length WAL_FORMAT ltac:(reflexivity) _ _ (wo_records _ _ _ _ _ _ Hw)) as Hcount.
  assert (Hseq : Z.of_nat (length records) + 1 < 2 ^ 64).
  { pose proof (wo_size _ _ _ _ _ _ Hw) as Hs. rewrite app_nil_r in Hs. unfold zlen in Hs. lia. }
  destruct (wal_record_encodes (wr_seq r) e Hq ltac:(cbn; split; lia)) as [He Hf]. pose proof Hq as (Ht & Hsig & Hv & Hschema & _). pose proof (queueable_read format e Hq) as Hread. split.
  - unfold append_patch_reporting. rewrite (io_guard _ _ _ (wal_on_current _ _ _ _ _ _ Hw)). unfold io_lift.
    rewrite bool_decide_true by done. rewrite bool_decide_false by done. cbn [negb]. unfold io_bind at 1. rewrite Hv, bool_decide_true by done. cbn [negb].
    unfold io_bind at 1, io_read. rewrite (wal_on_replay _ _ _ _ _ _ Hw), wal_sound. cbn [lr_trailing lr_records length Nat.eqb negb].
    rewrite fmap_last in Hnew. assert (Hm : match last records with Some last => bool_decide (wr_envelope last = e) | None => false end = false)
      by (destruct (last records); [apply bool_decide_false; cbn in Hnew; congruence|done]).
    assert (Happ : (do! next_seq := io_lift (next_sequence_of records) in do! bytes := io_lift (encode_wal_record (mkWalRecord next_seq e)) in
      do! _ := append_file_required (wal_path w) bytes in io_ret (next_seq, records ++ [mkWalRecord next_seq e])) d = (Ok (wr_seq r, records ++ [r]), d')).
    { unfold io_bind, io_lift. rewrite numbered_next by done. cbn [wr_seq r] in He. rewrite He. unfold append_file_required, io_bind, append_file_reporting_offset_required.
      by rewrite (wo_file _ _ _ _ _ _ Hw), app_nil_r. }
    destruct (last records) as [x|]; [rewrite Hm|]; exact Happ.
  - destruct Hw. constructor; try done.
    + unfold d'. by rewrite require_current_format_insert.
    + unfold d'. rewrite lookup_insert_eq. by rewrite concat_app, app_nil_r; cbn; rewrite app_nil_r.
    + by apply Forall2_app; [|constructor].
    + rewrite concat_snoc, app_nil_r. done.
    + apply Forall_app. split; [done|]. by constructor.
Qed.

(** ** Cutting a tail *)

Lemma saved_and_cut run (w : Wal) d bytes cut entry : d !! wal_path w = Some bytes -> wal_path w <> LOG_PATH ->
  (do! recovery := recovery_append run entry in do! _ := truncate_existing_file_required (wal_path w) cut in io_ret recovery) d
  = (Ok (mkRecoveryRef (to_hex run) (re_source entry) (re_offset entry) (zlen (re_removed entry))),
     <[wal_path w := take cut bytes]> (<[LOG_PATH := default [] (d !! LOG_PATH) ++ frame (stamped run entry)]> d)).
Proof.
  intros Hf Hne. unfold io_bind at 1. rewrite (recovery_append_disk run entry d _ eq_refl). unfold io_bind, truncate_existing_file_required.
  rewrite lookup_insert_ne, Hf; [done|]. intros Hx. by apply Hne.
Qed.

Lemma wal_tail_refused d w format records frames tail e : wal_on d w format records frames tail -> tail <> [] ->
  exists err, append_patch_reporting w e d = (Err err, d).
Proof.
  intros Hw Ht. unfold append_patch_reporting. rewrite (io_guard _ _ _ (wal_on_current _ _ _ _ _ _ Hw)). unfold io_lift.
  destruct (negb _); [by eexists|]. destruct (bool_decide _); [by eexists|]. unfold io_bind at 1. destruct (validate_strict e) as [[]|]; [|by eexists].
  destruct (negb _); [by eexists|]. unfold io_bind at 1, io_read. rewrite (wal_on_replay _ _ _ _ _ _ Hw). cbn [lr_trailing].
  destruct tail; [done|]. cbn [length Nat.eqb negb]. by eexists.
Qed.

(** What the repair of a WAL's tail saves. *)
Definition wal_entry (d : Disk) (frames : list (list byte)) (tail : list byte) : Entry :=
  mkEntry Cut (replicate 8 x00) (bytes_of_string (active_queue_wal_relative_path DEFAULT_ACTIVE_NAME)) (Z.of_nat (length (concat frames))) (bytes_of_string "wal")
    CARGO_PKG_VERSION (sha256 (concat frames)) (meaning_now [active_ref_name_path DEFAULT_ACTIVE_NAME; active_witness_path DEFAULT_ACTIVE_NAME] d) tail (replicate 32 x00).

Lemma wal_entry_built d frames tail :
  entry_for (active_queue_wal_relative_path DEFAULT_ACTIVE_NAME) (concat frames ++ tail) (length (concat frames)) "wal" d = Ok (wal_entry d frames tail).
Proof.
  unfold entry_for. rewrite length_app. destruct (Nat.ltb_spec (length (concat frames) + length tail) (length (concat frames))); [lia|].
  change (meaning_paths_for (active_queue_wal_relative_path DEFAULT_ACTIVE_NAME) d) with (Ok (E := PrikkError) [active_ref_name_path DEFAULT_ACTIVE_NAME; active_witness_path DEFAULT_ACTIVE_NAME]).
  unfold wal_entry. by rewrite take_app_length, drop_app_length.
Qed.

Lemma wal_tail_cut run d w format records frames tail : w = Wal_for_layout format DEFAULT_ACTIVE_NAME -> wal_on d w format records frames tail -> tail <> [] ->
  let d' := <[wal_path w := concat frames]> (<[LOG_PATH := default [] (d !! LOG_PATH) ++ frame (stamped run (wal_entry d frames tail))]> d) in
  (exists repair, truncate_trailing_partial run w d = (Ok repair, d') /\ wp_preserved_records repair = length records /\ wp_truncated_bytes repair = length tail) /\
  wal_on d' w format records frames [].
Proof.
  intros Hdef Hw Hne d'. assert (Hpath : wal_path w = active_queue_wal_relative_path DEFAULT_ACTIVE_NAME) by (by rewrite Hdef).
  assert (Hlog : wal_path w <> LOG_PATH) by (rewrite Hpath; intros Hx; vm_compute in Hx; discriminate Hx). pose proof (wo_file _ _ _ _ _ _ Hw) as Hf. split.
  - unfold truncate_trailing_partial. rewrite (io_guard _ _ _ (wal_on_current _ _ _ _ _ _ Hw)).
    unfold io_bind at 1, io_read, plan_tail. rewrite Hf, (wal_on_decode _ _ _ _ _ _ Hw), wal_sound. cbn [lr_trailing lr_records].
    destruct (Nat.eqb_spec (length tail) 0) as [Hz|_]; [by destruct tail|]. rewrite length_app.
    destruct (Nat.ltb_spec (length (concat frames) + length tail) (length tail)); [lia|].
    replace (length (concat frames) + length tail - length tail)%nat with (length (concat frames)) by lia.
    pose proof (wal_entry_built d frames tail) as Hb. rewrite <- Hpath in Hb. unfold io_bind at 1. rewrite Hb. pose proof (saved_and_cut run w d _ (length (concat frames)) (wal_entry d frames tail) Hf Hlog) as Hs.
    unfold io_bind in Hs |- *. destruct (recovery_append run (wal_entry d frames tail) d) as [[ref|?] d1]; [|discriminate Hs].
    destruct (truncate_existing_file_required (wal_path w) (length (concat frames)) d1) as [[[]|?] d2]; [|discriminate Hs]. injection Hs as _ ->.
    eexists. split; [unfold d'; by rewrite take_app_length|]. by split.
  - destruct Hw. constructor; try done; [unfold d'; rewrite !require_current_format_insert by done; done|unfold d'; rewrite lookup_insert_eq; by rewrite app_nil_r|by left|].
    rewrite app_nil_r. rewrite zlen_app in wo_size0. pose proof (zlen_nonneg tail). lia.
Qed.
End wal.

(** ** Cutting the tail of the pointer index *)

Section pointer_repair.
Context `{Sha256}.

Definition without_entry_tail (i : ref_image) : ref_image :=
  mkRefImage (ri_slot i) (ri_entries i) (ri_entry_frames i) [] (ri_records i) (ri_record_frames i) (ri_record_tail i).

Lemma settled_not_lost d s : generation_settled d s ->
  generation_log_lost ref_pointer_index_generation_log_path (ref_pointer_index_slot_path SlotB) d = Ok false /\
  resolve_live_slot_trusting_default_on_ambiguity ref_pointer_index_generation_log_path d = Ok s.
Proof.
  intros (replay & Hr & Hf & Hs). unfold generation_log_lost, resolve_live_slot_trusting_default_on_ambiguity. rewrite Hr, Hf. cbn [orb].
  destruct Hs as [Hl|(Hl & -> & Hb)]; rewrite Hl.
  - by rewrite bool_decide_false by (by intros Hx; rewrite Hx in Hl).
  - rewrite Hb. by destruct (negb _).
Qed.

Definition pointer_tail_entry (d : Disk) (i : ref_image) : Entry :=
  mkEntry Cut (replicate 8 x00) (bytes_of_string (ref_pointer_index_slot_path (ri_slot i))) (Z.of_nat (length (concat (ri_entry_frames i))))
    (bytes_of_string "pointer index") CARGO_PKG_VERSION (sha256 (concat (ri_entry_frames i))) (meaning_now [ref_log_container_slot_path SlotA] d)
    (ri_entry_tail i) (replicate 32 x00).

Lemma pointer_entry_built d i : generation_settled d (ri_slot i) ->
  entry_for (ref_pointer_index_slot_path (ri_slot i)) (pointer_bytes i) (length (concat (ri_entry_frames i))) "pointer index" d = Ok (pointer_tail_entry d i).
Proof.
  intros Hs. destruct (settled_not_lost _ _ Hs) as [Hlost Hlive]. unfold entry_for, pointer_bytes. rewrite length_app.
  destruct (Nat.ltb_spec (length (concat (ri_entry_frames i)) + length (ri_entry_tail i)) (length (concat (ri_entry_frames i)))); [lia|].
  assert (Hm : meaning_paths_for (ref_pointer_index_slot_path (ri_slot i)) d = Ok [ref_log_container_slot_path SlotA]).
  { unfold meaning_paths_for. rewrite Hlost, Hlive. by destruct (ri_slot i). }
  rewrite Hm, take_app_length, drop_app_length. done.
Qed.

(** The disk after the repair. *)
Definition pointer_cut (run : list byte) (i : ref_image) (d : Disk) : Disk :=
  <[ref_pointer_index_slot_path (ri_slot i) := concat (ri_entry_frames i)]>
    (<[LOG_PATH := default [] (d !! LOG_PATH) ++ frame (stamped run (pointer_tail_entry d i))]> d).

Lemma log_path_free path : path ∈ ref_paths -> path <> LOG_PATH.
Proof.
  unfold ref_paths. rewrite !elem_of_cons. intros [->|[->|[->|[->|Hn]]]]; [..|by apply elem_of_nil in Hn]; intros Hx; vm_compute in Hx; discriminate Hx.
Qed.

Lemma slot_path_in s : ref_pointer_index_slot_path s ∈ ref_paths.
Proof. unfold ref_paths. destruct s; set_solver. Qed.

Lemma pointer_cut_image run i d : image_on d i -> image_on (pointer_cut run i d) (without_entry_tail i).
Proof.
  intros Hi. pose proof (on_pointer_size _ _ Hi) as Hsize. destruct Hi. unfold pointer_cut. constructor; cbn [without_entry_tail ri_slot ri_entries ri_entry_frames ri_entry_tail ri_records ri_record_frames ri_record_tail]; try done.
  - eapply settled_frame; [| |done]; [rewrite !lookup_insert_ne; [done| |apply slot_path_not_generation]|intros Hs; rewrite !lookup_insert_ne; [done| |by apply slot_paths_differ]];
      intros Hx; symmetry in Hx; revert Hx; apply log_path_free; unfold ref_paths; set_solver.
  - rewrite lookup_insert_eq. unfold pointer_bytes. cbn. by rewrite app_nil_r.
  - rewrite !lookup_insert_ne; [done| |apply slot_path_not_log]. intros Hx. symmetry in Hx. revert Hx. apply log_path_free. unfold ref_paths. set_solver.
  - by left.
  - unfold pointer_bytes in Hsize |- *. cbn. rewrite app_nil_r. rewrite zlen_app in Hsize. pose proof (zlen_nonneg (ri_entry_tail i)). lia.
Qed.

Lemma pointer_tail_cut run i d : image_on d i -> ri_entry_tail i <> [] ->
  exists repair, truncate_pointer_index_trailing_partial run d = (Ok repair, pointer_cut run i d) /\
    pr_preserved_entries repair = length (ri_entries i) /\ pr_truncated_bytes repair = length (ri_entry_tail i).
Proof.
  intros Hi Hne. pose proof (image_replay_index _ _ Hi) as Hr. unfold replay_pointer_index in Hr.
  unfold truncate_pointer_index_trailing_partial, io_bind at 1, io_read. rewrite (settled_resolves _ _ (on_slot _ _ Hi)) in Hr |- *. unfold io_bind at 1, read_file_if_exists.
  rewrite (on_pointer _ _ Hi) in Hr |- *. unfold io_bind at 1, io_lift. rewrite Hr. unfold log_has_item_failure. cbn [lr_outcomes lr_trailing lr_records]. rewrite log_outcomes_sound.
  destruct (Nat.eqb_spec (length (ri_entry_tail i)) 0) as [Hz|_]; [by destruct (ri_entry_tail i)|].
  assert (Hlen : length (pointer_bytes i) = (length (concat (ri_entry_frames i)) + length (ri_entry_tail i))%nat) by (unfold pointer_bytes; apply length_app).
  destruct (Nat.ltb_spec (length (pointer_bytes i)) (length (ri_entry_tail i))); [lia|].
  replace (length (pointer_bytes i) - length (ri_entry_tail i))%nat with (length (concat (ri_entry_frames i))) by lia.
  unfold io_bind. rewrite (pointer_entry_built d i (on_slot _ _ Hi)), (recovery_append_disk run _ d _ eq_refl). unfold truncate_existing_file_required.
  rewrite lookup_insert_ne by (intros Hx; symmetry in Hx; revert Hx; apply log_path_free, slot_path_in). rewrite (on_pointer _ _ Hi).
  unfold pointer_bytes at 1. rewrite take_app_length. eexists. by split.
Qed.
End pointer_repair.

(** ** Properties *)

(** C39: the write-ahead log keeps what it acknowledges.  On a sound log, queueing a signed patch leaves
    the log as it is and gives the last number when the patch is the last one queued; otherwise it
    appends exactly one record with the next number.  Either way the records stay numbered from 1
    without a gap, a replay reads them all back without damage or tail, and no other file changes. *)
Theorem wal_append_exact `{Sha256} d w format records frames e :
  wal_on d w format records frames [] -> numbered records -> queueable e -> zlen (concat frames) + 58 + zlen (enc_envelope e) < 2 ^ 60 ->
  exists records' frames' d', append_patch_reporting w e d = (Ok (Z.of_nat (length records'), records'), d') /\
    (last (wr_envelope <$> records) = Some e /\ records' = records /\ d' = d \/
     last (wr_envelope <$> records) <> Some e /\ records' = records ++ [mkWalRecord (Z.of_nat (length records) + 1) e] /\
     d' = <[wal_path w := concat frames ++ wal_frame (mkWalRecord (Z.of_nat (length records) + 1) e)]> d) /\
    numbered records' /\ wal_on d' w format records' frames' [] /\
    wal_replay w d' = Ok (mkLogReplay records' 0 (length (concat frames')) (log_outcomes 0 frames')).
Proof.
  intros Hw Hn Hq Hlen. destruct (decide (last (wr_envelope <$> records) = Some e)) as [Hlast|Hnew].
  - exists records, frames, d. split; [|split; [by left|]; split; [done|]; split; [done|by rewrite (wal_on_replay _ _ _ _ _ _ Hw)]].
    pose proof Hq as (Ht & Hsig & Hv & Hschema & _). unfold append_patch_reporting.
    rewrite (io_guard _ _ _ (wal_on_current _ _ _ _ _ _ Hw)). unfold io_lift. rewrite bool_decide_true by done. rewrite bool_decide_false by done. cbn [negb].
    unfold io_bind at 1. rewrite Hv, bool_decide_true by done. cbn [negb]. unfold io_bind at 1, io_read. rewrite (wal_on_replay _ _ _ _ _ _ Hw), wal_sound.
    cbn [lr_trailing lr_records length Nat.eqb negb]. rewrite fmap_last in Hlast. destruct (last records) as [r|] eqn:Hr; [|done]. cbn in Hlast. injection Hlast as Hre.
    rewrite bool_decide_true by done. unfold io_bind, append_file_required, io_bind, append_file_reporting_offset_required. rewrite (wo_file _ _ _ _ _ _ Hw), !app_nil_r.
    rewrite last_lookup in Hr. apply Hn in Hr as Hs. apply lookup_lt_Some in Hr. pose proof (wo_file _ _ _ _ _ _ Hw) as Hf. rewrite app_nil_r in Hf.
    rewrite (insert_id _ _ _ Hf). unfold io_ret. do 3 f_equal. lia.
  - set (r := mkWalRecord (Z.of_nat (length records) + 1) e).
    destruct (wal_append_fresh d w format records frames e Hw Hn Hq Hnew) as [Happ Hw'].
    { rewrite zlen_app, zlen_wal_frame. cbn [wr_envelope]. lia. }
    exists (records ++ [r]), (frames ++ [wal_frame r]), (<[wal_path w := concat frames ++ wal_frame r]> d). split_and!.
    + rewrite Happ, length_app. cbn [length wr_seq]. do 3 f_equal. unfold r. cbn [wr_seq]. lia.
    + right. by split_and!.
    + by apply numbered_snoc.
    + done.
    + exact (wal_on_replay _ _ _ _ _ _ Hw').
Qed.

(** C23: an interrupted append to the write-ahead log loses nothing that was acknowledged.  While the torn
    bytes are there, every append is refused with the files as they were.  The repair first adds those
    bytes to the recovery log and then cuts exactly them; queueing the patch again then gives the very
    log an uninterrupted append gives. *)
Theorem wal_torn_append_recovered `{Sha256} d format records frames torn e run :
  let w := Wal_for_layout format DEFAULT_ACTIVE_NAME in
  wal_on d w format records frames torn -> torn <> [] -> numbered records -> queueable e -> last (wr_envelope <$> records) <> Some e ->
  zlen (concat frames) + 58 + zlen (enc_envelope e) < 2 ^ 60 ->
  (forall e', exists err, append_patch_reporting w e' d = (Err err, d)) /\
  exists repair d1 d2, truncate_trailing_partial run w d = (Ok repair, d1) /\
    wp_preserved_records repair = length records /\ wp_truncated_bytes repair = length torn /\
    (exists entry, re_removed entry = torn /\ re_offset entry = Z.of_nat (length (concat frames)) /\
       d1 !! LOG_PATH = Some (default [] (d !! LOG_PATH) ++ frame (stamped run entry))) /\
    d1 !! wal_path w = Some (concat frames) /\
    append_patch w e d1 = (Ok (Z.of_nat (length records) + 1), d2) /\
    d2 !! wal_path w = Some (concat frames ++ wal_frame (mkWalRecord (Z.of_nat (length records) + 1) e)).
Proof.
  intros w Hw Hne Hn Hq Hnew Hlen. split; [intros e'; by eapply wal_tail_refused|].
  destruct (wal_tail_cut run d w format records frames torn eq_refl Hw Hne) as [(repair & Hcut & Hp & Ht) Hw1].
  destruct (wal_append_fresh _ w format records frames e Hw1 Hn Hq Hnew) as [Happ Hw2].
  { rewrite zlen_app, zlen_wal_frame. cbn [wr_envelope]. lia. }
  eexists repair, _, _. split; [exact Hcut|]. split; [done|]. split; [done|]. split_and!.
  - exists (wal_entry d frames torn). split; [done|]. split; [done|]. rewrite lookup_insert_ne; [by rewrite lookup_insert_eq|]. intros Hx. vm_compute in Hx. discriminate Hx.
  - apply lookup_insert_eq.
  - unfold append_patch, io_bind. rewrite Happ. done.
  - apply lookup_insert_eq.
Qed.

(** a publication interrupted while its pointer entry was written can be repaired and made.  The
    repair adds the torn bytes to the recovery log and cuts exactly them; the publication then succeeds
    and leaves pointer index and ref log as if it had never been interrupted. *)
Theorem torn_pointer_recovered `{Sha256} (write_object : ObjectEnvelope -> IO ObjectId) p update i d run d1' id :
  image_on d i -> ri_entry_tail i <> [] -> publishable p update (without_entry_tail i) ->
  Z.of_nat (length (history i (pub_key p))) + 1 < 2 ^ 64 ->
  write_object (pub_ref_state p) (pointer_cut run i d) = (Ok id, d1') -> same_ref_files (pointer_cut run i d) d1' ->
  exists repair d2, truncate_pointer_index_trailing_partial run d = (Ok repair, pointer_cut run i d) /\
    pr_truncated_bytes repair = length (ri_entry_tail i) /\
    (exists entry, re_removed entry = ri_entry_tail i /\
       pointer_cut run i d !! LOG_PATH = Some (default [] (d !! LOG_PATH) ++ frame (stamped run entry))) /\
    publish_ref write_object p (pointer_cut run i d) = (Ok (object_id (pub_ref_state p)), d2) /\
    d2 !! ref_pointer_index_slot_path (ri_slot i) = Some (concat (ri_entry_frames i) ++ pointer_frame (pub_entry p)) /\
    d2 !! ref_log_container_path = Some (concat (ri_record_frames i) ++ log_frame (pub_record p)) /\
    read_current_ref_state_id (pub_ref_name p) d2 = Ok (Some (object_id (pub_ref_state p))).
Proof.
  intros Hi Hne Hp Hlen Hw Hsame. destruct (pointer_tail_cut run i d Hi Hne) as (repair & Hcut & _ & Ht).
  pose proof (pointer_cut_image run i d Hi) as Hi1.
  destruct (publish_body_completes p update write_object false _ d1' id _ _ Hp (before_pointer p _) Hi1 Hlen) as (d2 & Heq & H2 & Hu); [right; apply Hp|done|done|].
  exists repair, d2. split; [done|]. split; [done|]. split; [|split; [exact Heq|]; split_and!].
  - exists (pointer_tail_entry d i). split; [done|]. unfold pointer_cut. rewrite lookup_insert_ne; [by rewrite lookup_insert_eq|]. apply log_path_free, slot_path_in.
  - pose proof (on_pointer _ _ H2) as Ho. cbn [published without_entry_tail ri_slot] in Ho. rewrite Ho. unfold pointer_bytes. cbn [published without_entry_tail ri_entry_frames ri_entry_tail].
    by rewrite concat_snoc, app_nil_r.
  - rewrite (on_log _ _ H2). unfold log_bytes. cbn [published without_entry_tail ri_record_frames ri_record_tail]. by rewrite concat_snoc, app_nil_r.
  - by apply (published_reads p d2 (without_entry_tail i)).
Qed.

(** ** Concrete logs *)

Section demo.
#[local] Existing Instance hash_mod_p.

Definition demo_wal : Wal := Wal_for_layout CurrentV6 DEFAULT_ACTIVE_NAME.
Definition demo_patch (b : byte) : ObjectEnvelope := mkEnvelope Patch 1 [b] [witness_signature x61].
Definition demo_wal_disk (bytes : list byte) : Disk := <[wal_path demo_wal := bytes]> {["FORMAT"%string := format_line x36]}.

Lemma demo_patch_queueable : queueable (demo_patch x07).
Proof.
  split_and!; [done|done|vm_compute; reflexivity|apply (bool_decide_eq_true_1 _); vm_compute; reflexivity| |vm_compute; reflexivity].
  split; [cbv; by split|]. split; [constructor; [cbv; by split|constructor]|]. split; vm_compute; reflexivity.
Qed.

Definition demo_torn : list byte := take 30 (wal_frame (mkWalRecord 1 (demo_patch x07))).

Lemma demo_wal_on tail : tail = [] \/ tail = demo_torn -> wal_on (demo_wal_disk tail) demo_wal CurrentV6 [] [] tail.
Proof.
  intros Ht. constructor; [done|by vm_compute|by vm_compute|apply lookup_insert_eq|constructor| | |constructor].
  - destruct Ht as [->| ->]; [by left|right]. exists (to_be_bytes 8 1), (enc_envelope (demo_patch x07)). split.
    + split; [apply no_inner_magic_scan; vm_compute; reflexivity|]. split; [reflexivity|]. split; [vm_compute; reflexivity|].
      exists (drop 30 (wal_frame (mkWalRecord 1 (demo_patch x07)))). split; [apply take_drop|]. intros Hx. apply (f_equal length) in Hx. vm_compute in Hx. discriminate Hx.
    + intros [Hlen _]. revert Hlen. apply Nat.lt_nge. vm_compute. lia.
  - destruct Ht as [->| ->]; vm_compute; reflexivity.
Qed.

Lemma wal_append_exact_witness : exists records' d',
  append_patch_reporting demo_wal (demo_patch x07) (demo_wal_disk []) = (Ok (Z.of_nat (length records'), records'), d') /\ numbered records'.
Proof.
  destruct (wal_append_exact (demo_wal_disk []) demo_wal CurrentV6 [] [] (demo_patch x07) (demo_wal_on [] (or_introl eq_refl))) as (records' & frames' & d' & Ha & _ & Hn & _);
    [by intros k r Hk; rewrite lookup_nil in Hk|exact demo_patch_queueable|vm_compute; reflexivity|].
  exists records', d'. by split.
Defined.

Lemma wal_torn_append_recovered_witness : exists repair d1 d2,
  truncate_trailing_partial (replicate 8 x01) demo_wal (demo_wal_disk demo_torn) = (Ok repair, d1) /\ wp_truncated_bytes repair = 30%nat /\
  append_patch demo_wal (demo_patch x07) d1 = (Ok 1, d2).
Proof.
  destruct (wal_torn_append_recovered (demo_wal_disk demo_torn) CurrentV6 [] [] demo_torn (demo_patch x07) (replicate 8 x01) (demo_wal_on demo_torn (or_intror eq_refl)))
    as [_ (repair & d1 & d2 & Hcut & _ & Ht & _ & _ & Ha & _)];
    [intros Hx; vm_compute in Hx; discriminate Hx|by intros k r Hk; rewrite lookup_nil in Hk|exact demo_patch_queueable|done|vm_compute; reflexivity|].
  exists repair, d1, d2. split; [exact Hcut|]. split; [rewrite Ht; vm_compute; reflexivity|exact Ha].
Defined.

Lemma torn_pointer_recovered_witness : exists repair d2,
  truncate_pointer_index_trailing_partial (replicate 8 x01) torn_pointer_disk = (Ok repair, pointer_cut (replicate 8 x01) torn_pointer_image torn_pointer_disk) /\
  publish_ref forget first_publication (pointer_cut (replicate 8 x01) torn_pointer_image torn_pointer_disk)
  = (Ok (object_id (pub_ref_state first_publication)), d2).
Proof.
  destruct (torn_pointer_recovered forget first_publication (demo_update 1 None) torn_pointer_image torn_pointer_disk (replicate 8 x01)
    (pointer_cut (replicate 8 x01) torn_pointer_image torn_pointer_disk) (object_id (pub_ref_state first_publication)) torn_pointer_image_on)
    as (repair & d2 & Hcut & _ & _ & Hp & _);
    [intros Hx; vm_compute in Hx; discriminate Hx|exact first_publishable|vm_compute; reflexivity|reflexivity|by intros ?|].
  exists repair, d2. split; [exact Hcut|exact Hp].
Defined.
End demo.
