(* ===== verification/Precondition.v ===== *)
(** * The publication precondition (crates/prikk-store/src/refs.rs, refs/evidence.rs, commit_boundary/active.rs)

    Before a repository is changed, pointer index and ref log must agree for every other ref, the
    RefStates that the pointers name must be there, and no sealed queue may wait for its cleanup. *)

From S2P Require Import Prelude PrikkError Hash Utf8 ObjectId Signature Envelope Refs Block ByteCursor FileCodec ObjectStore.
From S2P Require Import FrameResync IndexFile TailLog FileSystem ObjectDisk RefLog RefStore RecoveryEntry Wal.

(** ** The owner of the active queue (commit_boundary/active.rs) *)

Inductive ActiveRefMetadata : Type :=
| MetadataMissing
| MetadataValid (ref_name : list byte)
| MetadataInvalid (message : string).

Definition read_active_ref_metadata_for (name : string) (d : Disk) : PResult ActiveRefMetadata :=
  match d !! active_ref_name_path name with
  | None => Ok MetadataMissing
  | Some bytes =>
      if bool_decide (bytes = []) then Ok MetadataMissing
      else if negb (from_utf8 bytes) then Ok (MetadataInvalid "active ref metadata is not UTF-8: {err}")
      else
        match validate_local_branch_ref bytes with
        | Ok canonical => Ok (MetadataValid canonical)
        | Err _ => Ok (MetadataInvalid "{err}")
        end
  end.

Definition read_active_ref_metadata (d : Disk) : PResult ActiveRefMetadata := read_active_ref_metadata_for DEFAULT_ACTIVE_NAME d.

Definition write_active_ref_metadata (format : RepositoryFormat) (ref_name : list byte) : IO (list byte) :=
  do! _ := io_read (require_current_format format) in
  do! canonical := io_lift (validate_local_branch_ref ref_name) in
  do! _ := truncate_file_empty_required (active_ref_name_path DEFAULT_ACTIVE_NAME) in
  do! _ := append_file_required (active_ref_name_path DEFAULT_ACTIVE_NAME) canonical in
  io_ret canonical.

Definition remove_active_ref_metadata_authorized : IO bool :=
  do! had_content := io_read (fun d => Ok (negb (bool_decide (default [] (d !! active_ref_name_path DEFAULT_ACTIVE_NAME) = [])))) in
  do! _ := truncate_file_empty_required (active_ref_name_path DEFAULT_ACTIVE_NAME) in
  io_ret had_content.

Definition remove_active_ref_metadata (format : RepositoryFormat) : IO bool :=
  do! _ := io_read (require_current_format format) in
  remove_active_ref_metadata_authorized.

(** ** Leftover candidates (refs/verify.rs) *)

Definition refs_tmp_dir : string := "refs/tmp".

(** The name of a file below the directory, relative to it. *)
Definition below_refs_tmp (path : string) : option string :=
  if String.prefix (refs_tmp_dir +:+ "/") path then Some (String.substring 9 (String.length path) path) else None.

(** How many candidate files there are. *)
Definition candidate_issues (d : Disk) : PResult nat :=
  if is_some (d !! refs_tmp_dir) then Err (Integrity "unexpected non-directory where {label} should be: {}")
  else
    let names := omap below_refs_tmp (map_to_list d).*1 in
    if existsb (fun name => is_some (String.index 0 "/" name)) names then Err (Integrity "unexpected non-file in ref candidate directory")
    else Ok (length names).

Section precondition.
Context `{Sha256} (format : RepositoryFormat).

(** [FileObjectStore::new(layout)]: a store with an empty cache; its answers do not depend on the cache it
    keeps between calls. *)
Definition fresh_store_reader (d : Disk) : ObjectReader := fun id => (file_read_object format None d id).1.

(** ** Retained active state (refs/evidence.rs) *)

Definition has_incomplete_active_cleanup_from (exclude_ref_name : option (list byte)) (replay : LogReplay WalRecord) (d : Disk) : PResult bool :=
  let? metadata := read_active_ref_metadata d in
  match metadata with
  | MetadataMissing | MetadataInvalid _ => Ok false
  | MetadataValid ref_name =>
      if log_has_item_failure replay
      then Err (Integrity "active WAL has a damaged record ({}); run doctor for diagnosis before mutating this repository (a damaged record with sound ones behind it is not a torn tail, and no automatic repair applies to it)")
      else if bool_decide (Some ref_name = exclude_ref_name) then Ok false
      else if bool_decide (lr_records replay = []) then Ok false
      else
        let? current := read_current_ref_state_id ref_name d in
        match current with
        | None => Ok false
        | Some state_id =>
            let? found := @read_typed (fresh_store_reader d) state_id RefState in
            let? state := ok_or found (Integrity "missing RefState object: {state_id}") in
            let? payload := RefStatePayload_decode (schema_version state) (canonical_payload state) in
            let? found := @read_typed (fresh_store_reader d) (rs_target_object_id payload) Block in
            let? block := ok_or found (Integrity "missing Block object: {target}") in
            let? payload := BlockPayload_decode (canonical_payload block) in
            Ok (bool_decide (patch_ids payload = (object_id ∘ wr_envelope <$> lr_records replay)))
        end
  end.

Definition has_incomplete_active_cleanup (exclude_ref_name : option (list byte)) (d : Disk) : PResult bool :=
  let? replay := wal_replay (Wal_for_layout format DEFAULT_ACTIVE_NAME) d in
  has_incomplete_active_cleanup_from exclude_ref_name replay d.

(** ** The precondition (refs.rs) *)

Definition incomplete_publication_refusal : PrikkError :=
  IncompletePublication "repository mutation is blocked by incomplete ref publication; run verify/doctor and use signer-backed seal retry".

Definition ref_log_damage_refusal : PrikkError :=
  Integrity "the ref log has a damaged record{detail}; this is not an incomplete publication and no seal retry resolves it -- the way out is a copy of a sound repository, not a repair".

(** The newest update of every ref; a record whose [created_at] is not 0 is refused. *)
Fixpoint newest_log_of (records : list RefContainerRecord) (newest : gmap (list byte) ObjectId) : PResult (gmap (list byte) ObjectId) :=
  match records with
  | [] => Ok newest
  | record :: rest =>
      let? update := RefUpdatePayload_decode (canonical_payload (rc_envelope record)) in
      if negb (ru_created_at update =? 0) then Err incomplete_publication_refusal
      else newest_log_of rest (<[rc_key record := ru_new_ref_state_id update]> newest)
  end.

Definition newest_pointer_of (entries : list PointerIndexEntry) : gmap (list byte) ObjectId :=
  fold_left (fun newest entry => <[pe_ref_name_key entry := pe_ref_state_id entry]> newest) entries ∅.

(** What the log part gives: the newest updates, and a tail that is still to be refused. *)
Definition examine_ref_log (excluded_key : option (list byte)) (check_ref_log_tail : bool) (newest_pointer : gmap (list byte) ObjectId) (d : Disk)
  : PResult (gmap (list byte) ObjectId * option (nat * nat)) :=
  match d !! ref_log_container_path with
  | None => Ok (∅, None)
  | Some bytes =>
      let? discovery := decode_ref_container_records bytes in
      if has_damage discovery then Err ref_log_damage_refusal
      else
        let? newest_log := newest_log_of (lr_records discovery) ∅ in
        let pending :=
          if check_ref_log_tail then
            match ref_log_container_tail bytes discovery with
            | None => None
            | Some (offset, len) =>
                let excluded_ref_leads :=
                  match excluded_key with Some key => negb (bool_decide (newest_pointer !! key = newest_log !! key)) | None => false end in
                if excluded_ref_leads then None else Some (len, offset)
            end
          else None in
        Ok (newest_log, pending)
  end.

Definition ensure_publication_precondition (exclude_ref_name : option (list byte)) (check_ref_log_tail : bool) (d : Disk) : PResult unit :=
  let excluded_key := ref_name_key_bytes <$> exclude_ref_name in
  let? pointer_replay := replay_pointer_index d in
  if log_has_item_failure pointer_replay then Err incomplete_publication_refusal
  else
    let newest_pointer := newest_pointer_of (lr_records pointer_replay) in
    let? '(newest_log, pending_tail_refusal) := examine_ref_log excluded_key check_ref_log_tail newest_pointer d in
    let disagrees key := negb (bool_decide (Some key = excluded_key)) && negb (bool_decide (newest_pointer !! key = newest_log !! key)) in
    if existsb disagrees (elements (dom newest_pointer ∪ dom newest_log)) then Err incomplete_publication_refusal
    else
      let? objects := snapshot_open d in
      let missing '(key, ref_state_id) :=
        negb (bool_decide (Some key = excluded_key)) && negb (snapshot_contains_object objects RefState ref_state_id) in
      if existsb missing (btree_iter newest_pointer) then Err incomplete_publication_refusal
      else
        let? issues := candidate_issues d in
        if negb (issues =? 0)%nat then Err incomplete_publication_refusal
        else
          let? incomplete := has_incomplete_active_cleanup exclude_ref_name d in
          if incomplete then Err incomplete_publication_refusal
          else
            match pending_tail_refusal with
            | Some (len, offset) => require_no_unclean_tail "the ref log" len offset "`prikk doctor --repair-tails` truncates it"
            | None => Ok tt
            end.

Definition ensure_no_incomplete_publication_except (exclude_ref_name : option (list byte)) (d : Disk) : PResult unit :=
  ensure_publication_precondition exclude_ref_name false d.
Definition ensure_no_incomplete_publication (d : Disk) : PResult unit := ensure_no_incomplete_publication_except None d.
Definition ensure_may_publish (ref_name : list byte) (d : Disk) : PResult unit := ensure_publication_precondition (Some ref_name) true d.

(** The offset and length of a tail, and whether there is damage inside. *)
Definition ref_log_tail_status (d : Disk) : PResult (nat * nat * bool) :=
  let? decoded := read_and_decode_ref_log d in
  match decoded with
  | None => Ok (0%nat, 0%nat, false)
  | Some (bytes, replay) =>
      match ref_log_container_tail bytes replay with
      | Some (offset, len) => Ok (len, offset, false)
      | None => Ok (0%nat, 0%nat, log_has_item_failure replay)
      end
  end.

(** ** The current branch (refs.rs) *)

Definition current_branch_path : string := "current-branch".
Definition UNBORN_DEFAULT_BRANCH : list byte := bytes_of_string "heads/main".

Definition malformed_pointer : PrikkError := Precondition "{CURRENT_BRANCH_DISPLAY}: {detail}".

(** [text.strip_suffix('\n')]. *)
Definition strip_newline (text : list byte) : option (list byte) :=
  match last text with Some b => if bool_decide (b = x0a) then Some (take (length text - 1) text) else None | None => None end.

Definition current_branch (d : Disk) : PResult (list byte) :=
  match d !! current_branch_path with
  | None => Ok UNBORN_DEFAULT_BRANCH
  | Some bytes =>
      if negb (from_utf8 bytes) then Err malformed_pointer
      else
        match strip_newline bytes with
        | None => Err malformed_pointer
        | Some name =>
            let? canonical := map_err (fun _ => malformed_pointer) (validate_local_branch_ref name) in
            let? current := read_current_ref_state_id canonical d in
            match current with
            | None =>
                if bool_decide (canonical = UNBORN_DEFAULT_BRANCH) then Ok canonical
                else Err (Precondition "{CURRENT_BRANCH_DISPLAY} names {canonical}, which does not exist; {routes}")
            | Some ref_state_id =>
                let? found := @read_typed (fresh_store_reader d) ref_state_id RefState in
                let? envelope := ok_or found (Integrity "missing RefState object for {canonical}: {ref_state_id}") in
                let? state := RefStatePayload_decode (schema_version envelope) (canonical_payload envelope) in
                if rs_closed state then Err (Precondition "{CURRENT_BRANCH_DISPLAY} names {canonical}, which is closed; {routes}")
                else Ok canonical
            end
        end
  end.

Definition current_branch_pointer_exists (d : Disk) : bool := is_some (d !! current_branch_path).
End precondition.
