(* ===== verification/PreconditionThms.v ===== *)
(** * Theorems about the publication precondition

    When publishing is admitted, pointer index and ref log agree for every other ref; the admitted
    publication makes them agree for all, and one that is interrupted blocks every other writer. *)

From S2P Require Import Prelude PrikkError Hash Utf8 ByteCursor ObjectId Signature Envelope Refs FileCodec RepoPath ObjectStore.
From S2P Require Import FrameResync IndexFile TailLog FileSystem ObjectDisk Generation RefLog RefStore RefStoreThms RecoveryEntry Wal Precondition.

Section agreement.
Context `{Sha256}.

(** The state a ref's pointer names, and the state its log ends in. *)
Definition pointer_tip (i : ref_image) (key : list byte) : option ObjectId := pe_ref_state_id <$> current_entry i key.

Definition update_target (e : ObjectEnvelope) : option ObjectId :=
  match RefUpdatePayload_decode (canonical_payload e) with Ok u => Some (ru_new_ref_state_id u) | Err _ => None end.

Definition log_tip (i : ref_image) (key : list byte) : option ObjectId := last (history i key) ≫= update_target.

Definition ref_agrees (i : ref_image) (key : list byte) : Prop := pointer_tip i key = log_tip i key.

Lemma newest_pointer_step (es : list PointerIndexEntry) (m : gmap (list byte) ObjectId) (key : list byte) :
  fold_left (fun newest entry => <[pe_ref_name_key entry := pe_ref_state_id entry]> newest) es m !! key
  = match last (filter (fun e => pe_ref_name_key e = key) es) with Some e => Some (pe_ref_state_id e) | None => m !! key end.
Proof.
  revert m. induction es as [|e es IH]; intros m; cbn [fold_left]; [done|]. rewrite IH. destruct (decide (pe_ref_name_key e = key)) as [<-|Hk].
  - rewrite filter_cons_True by done. rewrite last_cons. destruct (last (filter _ es)); [done|]. apply lookup_insert_eq.
  - rewrite filter_cons_False by done. destruct (last (filter _ es)); [done|]. by apply lookup_insert_ne.
Qed.

Lemma newest_pointer_tip i key : newest_pointer_of (ri_entries i) !! key = pointer_tip i key.
Proof. unfold newest_pointer_of, pointer_tip, current_entry. rewrite newest_pointer_step, lookup_empty. by destruct (last _). Qed.

Lemma newest_log_step (rs : list RefContainerRecord) : forall (m m' : gmap (list byte) ObjectId) key, newest_log_of rs m = Ok m' ->
  m' !! key = match last (rc_envelope <$> filter (fun r => rc_key r = key) rs) with Some e => update_target e | None => m !! key end.
Proof.
  induction rs as [|r rs IH]; intros m m' key Hl; cbn [newest_log_of] in Hl; [by injection Hl as <-|].
  destruct (RefUpdatePayload_decode (canonical_payload (rc_envelope r))) as [u|] eqn:Hu; [|done]. destruct (negb _); [done|]. rewrite (IH _ _ key Hl).
  destruct (decide (rc_key r = key)) as [<-|Hk].
  - rewrite filter_cons_True by done. rewrite fmap_cons, last_cons. destruct (last (rc_envelope <$> filter _ rs)); [done|]. unfold update_target. by rewrite Hu, lookup_insert_eq.
  - rewrite filter_cons_False by done. destruct (last (rc_envelope <$> filter _ rs)); [done|]. by apply lookup_insert_ne.
Qed.

Lemma newest_log_tip i m key : newest_log_of (ri_records i) ∅ = Ok m -> m !! key = log_tip i key.
Proof. intros Hm. rewrite (newest_log_step _ _ _ key Hm). unfold log_tip, history. by destruct (last _). Qed.

Lemma outcomes_no_damage (frames : list (list byte)) records trailing off : has_damage (mkLogReplay records trailing off (log_outcomes 0 frames)) = false.
Proof.
  unfold has_damage. cbn [lr_outcomes]. generalize (length (log_outcomes 0 frames)) as n. intros n.
  assert (Hall : Forall (fun o => lo_status o = LogEvaluated) (log_outcomes 0 frames)) by (generalize 0%nat as o; induction frames; intros o; cbn; constructor; auto).
  apply not_true_is_false. intros Hex. apply existsb_exists in Hex as ([k o] & Hin & Hs). apply list_elem_of_In, list_elem_of_lookup in Hin as [x Hx].
  rewrite list_lookup_imap in Hx. apply fmap_Some in Hx as (o' & Ho & Heq). injection Heq as -> ->. rewrite Forall_lookup in Hall. rewrite (Hall _ _ Ho) in Hs. done.
Qed.

(** ** The log part *)

Lemma image_examine d i excluded check np : image_on d i ->
  examine_ref_log excluded check np d =
  let? newest_log := newest_log_of (ri_records i) ∅ in
  Ok (newest_log,
      if check && negb (length (ri_record_tail i) =? 0)%nat &&
         negb (match excluded with Some key => negb (bool_decide (np !! key = newest_log !! key)) | None => false end)
      then Some (length (ri_record_tail i), length (concat (ri_record_frames i))) else None).
Proof.
  intros Hi. unfold examine_ref_log. rewrite (on_log _ _ Hi). unfold decode_ref_container_records, log_bytes.
  rewrite (decode_log_image REF_CONTAINER_FORMAT (ri_records i)) by (done || apply Hi). rewrite outcomes_no_damage. cbn [lr_records].
  destruct (newest_log_of (ri_records i) ∅) as [m|]; [|done]. unfold ref_log_container_tail. cbn [lr_trailing].
  destruct check; [|done]. destruct (length (ri_record_tail i) =? 0)%nat; [done|]. rewrite length_app.
  replace (length (concat (ri_record_frames i)) + length (ri_record_tail i) - length (ri_record_tail i))%nat with (length (concat (ri_record_frames i))) by lia.
  by destruct (match excluded with Some _ => _ | None => false end).
Qed.

Lemma disagreement_found i m excluded : newest_log_of (ri_records i) ∅ = Ok m ->
  existsb (fun key => negb (bool_decide (Some key = excluded)) && negb (bool_decide (newest_pointer_of (ri_entries i) !! key = m !! key)))
    (elements (dom (newest_pointer_of (ri_entries i)) ∪ dom m)) = true
  <-> exists key, Some key <> excluded /\ ~ ref_agrees i key.
Proof.
  intros Hm. rewrite existsb_exists. unfold ref_agrees. split.
  - intros (key & _ & Hb). apply andb_true_iff in Hb as [Hx Hd]. apply negb_true_iff, bool_decide_eq_false in Hx, Hd. exists key.
    rewrite newest_pointer_tip, (newest_log_tip _ _ _ Hm) in Hd. by split.
  - intros (key & Hx & Hd). exists key. rewrite newest_pointer_tip, (newest_log_tip _ _ _ Hm), !bool_decide_false by done. split; [|done].
    apply list_elem_of_In, elem_of_elements, elem_of_union. rewrite !elem_of_dom, newest_pointer_tip, (newest_log_tip _ _ _ Hm).
    destruct (pointer_tip i key) eqn:Hp; [left; by eexists|]. right. destruct (log_tip i key); [by eexists|done].
Qed.
End agreement.

Section publication_agreement.
Context `{Sha256} (p : RefPublication) (update : RefUpdatePayload).

Lemma chain_tip i before : log_position_loop (pub_ref_name p) 0 (history i (pub_key p)) None None = Ok (pub_expected_previous p, before) ->
  log_tip i (pub_key p) = pub_expected_previous p.
Proof.
  unfold log_tip. destruct (last (history i (pub_key p))) as [e|] eqn:Hl.
  - apply last_Some in Hl as [h ->]. intros Hc. apply position_last in Hc as (u & Hu & ->). cbn. unfold update_target. by rewrite Hu.
  - apply last_None in Hl as ->. cbn. by intros [= <- _].
Qed.

Lemma led_disagrees torn i : publishable p update i -> ~ ref_agrees (led p torn i) (pub_key p).
Proof.
  intros Hp. destruct (pb_chain _ _ _ Hp) as [before Hc]. unfold ref_agrees, pointer_tip. rewrite led_current. cbn [fmap option_fmap option_map pub_entry pe_ref_state_id].
  change (log_tip (led p torn i) (pub_key p)) with (log_tip i (pub_key p)). rewrite (chain_tip i before Hc). intros Hx. by apply (pb_new _ _ _ Hp).
Qed.

Lemma published_agrees i : publishable p update i -> ref_agrees (published p i) (pub_key p).
Proof.
  intros Hp. destruct (coherent_facts p update (pb_valid _ _ _ Hp)) as (_ & _ & Hu & _ & _ & _ & Hnew & _).
  unfold ref_agrees, pointer_tip, log_tip. rewrite published_current, published_history, last_snoc. cbn. unfold update_target. by rewrite Hu, Hnew.
Qed.

Lemma published_keeps_agreement i key : key <> pub_key p -> ref_agrees i key -> ref_agrees (published p i) key.
Proof.
  intros Hk Ha. destruct (published_other p i key Hk) as [Hc Hh]. unfold ref_agrees, pointer_tip, log_tip. by rewrite Hc, Hh.
Qed.
End publication_agreement.

(** ** Properties *)

(** C21: what publishing a ref requires, exactly.  On sound ref files whose updates decode with no time
    stamp, publishing is admitted if and only if pointer and log agree for every other ref, every other
    pointer names a RefState the object index knows, no candidate file and no sealed queue is left, and
    the log has no torn tail, or the ref itself is the one with an interrupted publication. *)
Theorem may_publish_exact `{Sha256} format ref_name d i m objects n b :
  image_on d i -> newest_log_of (ri_records i) ∅ = Ok m -> snapshot_open d = Ok objects -> candidate_issues d = Ok n ->
  has_incomplete_active_cleanup format (Some ref_name) d = Ok b ->
  ensure_may_publish format ref_name d = Ok tt <->
  (forall key, key <> ref_name_key_bytes ref_name -> ref_agrees i key) /\
  (forall key id, key <> ref_name_key_bytes ref_name -> pointer_tip i key = Some id -> snapshot_contains_object objects RefState id = true) /\
  n = 0%nat /\ b = false /\ (ri_record_tail i = [] \/ ~ ref_agrees i (ref_name_key_bytes ref_name)).
Proof.
  intros Hi Hm Hs Hc Hb. unfold ensure_may_publish, ensure_publication_precondition. rewrite (image_replay_index _ _ Hi).
  unfold log_has_item_failure. cbn [lr_outcomes lr_records]. rewrite log_outcomes_sound, (image_examine _ _ _ _ _ Hi), Hm, Hs, Hc, Hb.
  assert (Hother : forall key, key <> ref_name_key_bytes ref_name -> Some key <> ref_name_key_bytes <$> Some ref_name) by (intros key Hk [= Hx]; by apply Hk).
  set (excluded := ref_name_key_bytes <$> Some ref_name) in *. pose proof (disagreement_found i m excluded Hm) as Hdis. destruct (existsb _ (elements _)) eqn:Hex.
  { split; [done|]. intros (Ha & _). destruct (proj1 Hdis eq_refl) as (key & Hx & Hd). destruct Hd. apply Ha. intros ->. by apply Hx. }
  assert (Hagree : forall key, key <> ref_name_key_bytes ref_name -> ref_agrees i key).
  { intros key Hk. unfold ref_agrees. apply dec_stable. intros Hd. discriminate (proj2 Hdis (ex_intro _ key (conj (Hother key Hk) Hd))). }
  clear Hdis Hex. destruct (existsb _ (btree_iter _)) eqn:Hex.
  { split; [done|]. intros (_ & Hin & _). apply existsb_exists in Hex as ([key id] & Hk & Hbad). apply list_elem_of_In, elem_of_btree_iter in Hk. rewrite newest_pointer_tip in Hk.
    apply andb_true_iff in Hbad as [Hne Hbad]. apply negb_true_iff in Hne, Hbad. apply bool_decide_eq_false in Hne. rewrite (Hin key id) in Hbad; [done| |done]. intros ->. by apply Hne. }
  assert (Hcontains : forall key id, key <> ref_name_key_bytes ref_name -> pointer_tip i key = Some id -> snapshot_contains_object objects RefState id = true).
  { intros key id Hk Hid. destruct (snapshot_contains_object objects RefState id) eqn:Hcon; [done|]. rewrite <- newest_pointer_tip in Hid. apply elem_of_btree_iter in Hid.
    rewrite <- Hex. apply existsb_exists. exists (key, id). split; [by apply list_elem_of_In|]. rewrite Hcon. by rewrite bool_decide_false by by apply Hother. }
  cbn [excluded fmap option_fmap option_map]. rewrite newest_pointer_tip, (newest_log_tip _ _ _ Hm). fold (ref_agrees i (ref_name_key_bytes ref_name)).
  assert (Htail : forall t : list byte, (length t =? 0)%nat = true <-> t = []) by (intros []; done).
  destruct (Nat.eqb_spec n 0) as [->|Hn]; cbn [negb]; [|split; [done|]; by intros (_ & _ & ? & _)].
  destruct b; [split; [done|]; by intros (_ & _ & _ & ? & _)|].
  unfold ref_agrees. destruct (length (ri_record_tail i) =? 0)%nat eqn:Ht; cbn [negb andb].
  - apply Htail in Ht. split; [|done]. intros _. split_and!; [done|done|done|done|by left].
  - destruct (decide (pointer_tip i (ref_name_key_bytes ref_name) = log_tip i (ref_name_key_bytes ref_name))) as [Ha|Ha].
    + rewrite bool_decide_true by done. cbn [negb]. unfold require_no_unclean_tail. rewrite Ht. split; [done|]. intros (_ & _ & _ & _ & [Hnil|Hd]); [|done].
      apply Htail in Hnil. congruence.
    + rewrite bool_decide_false by done. cbn [negb]. split; [|done]. intros _. split_and!; [done|done|done|done|by right].
Qed.

(** C24: an admitted publication leaves pointer index and ref log in agreement for every ref: the other
    refs agreed because publishing was admitted and are untouched, and the published one agrees
    afterwards. *)
Theorem admitted_publication_agrees `{Sha256} format (write_object : ObjectEnvelope -> IO ObjectId) p update i d d1 id :
  ensure_may_publish format (pub_ref_name p) d = Ok tt -> publishable p update i -> image_on d i ->
  Z.of_nat (length (history i (pub_key p))) + 1 < 2 ^ 64 -> write_object (pub_ref_state p) d = (Ok id, d1) -> same_ref_files d d1 ->
  exists d2, publish_ref write_object p d = (Ok (object_id (pub_ref_state p)), d2) /\ image_on d2 (published p i) /\
    forall key, ref_agrees (published p i) key.
Proof.
  intros Hmay Hp Hi Hlen Hw Hsame. destruct (publish_body_completes p update write_object false d d1 id i i Hp (before_pointer p i) Hi Hlen) as (d2 & Heq & H2 & _);
    [right; apply Hp|done|done|]. exists d2. split; [exact Heq|]. split; [done|]. intros key.
  destruct (decide (key = pub_key p)) as [->|Hk]; [by eapply published_agrees|]. apply published_keeps_agreement; [done|].
  unfold ensure_may_publish, ensure_publication_precondition in Hmay. rewrite (image_replay_index _ _ Hi) in Hmay. unfold log_has_item_failure in Hmay. cbn [lr_outcomes lr_records] in Hmay.
  rewrite log_outcomes_sound, (image_examine _ _ _ _ _ Hi) in Hmay. destruct (newest_log_of (ri_records i) ∅) as [m|] eqn:Hm; [|done].
  pose proof (disagreement_found i m (ref_name_key_bytes <$> Some (pub_ref_name p)) Hm) as Hdis. destruct (existsb _ (elements _)); [done|].
  unfold ref_agrees. apply dec_stable. intros Hd. refine (_ (proj2 Hdis (ex_intro _ key (conj _ Hd)))); [done|]. intros [= Hx]. by apply Hk.
Qed.

(** an interrupted publication blocks every other writer.  From the pointer entry on until the log
    record is there, the precondition fails as an incomplete publication for every ref but its own. *)
Theorem interrupted_publication_blocks `{Sha256} format p update i torn d m exclude check :
  publishable p update i -> image_on d (led p torn i) -> newest_log_of (ri_records i) ∅ = Ok m ->
  ref_name_key_bytes <$> exclude <> Some (pub_key p) ->
  ensure_publication_precondition format exclude check d = Err incomplete_publication_refusal.
Proof.
  intros Hp Hi Hm Hne. unfold ensure_publication_precondition. rewrite (image_replay_index _ _ Hi). unfold log_has_item_failure. cbn [lr_outcomes lr_records].
  rewrite log_outcomes_sound, (image_examine _ _ _ _ _ Hi). change (ri_records (led p torn i)) with (ri_records i). rewrite Hm.
  rewrite (proj2 (disagreement_found (led p torn i) m (ref_name_key_bytes <$> exclude) Hm)); [done|]. exists (pub_key p). split; [by intros Hx; rewrite <- Hx in Hne|by eapply led_disagrees].
Qed.

(** ** Concrete repositories *)

Section demo.
#[local] Existing Instance hash_mod_p.

Lemma may_publish_exact_witness : ensure_may_publish CurrentV6 demo_name (fresh_refs []) = Ok tt.
Proof.
  apply (proj2 (may_publish_exact CurrentV6 demo_name (fresh_refs []) fresh_image ∅ (mkSnapshot [] 0 ∅) 0 false fresh_image_on eq_refl
    ltac:(vm_compute; reflexivity) ltac:(vm_compute; reflexivity) ltac:(vm_compute; reflexivity))).
  split; [done|]. split; [done|]. split; [done|]. split; [done|]. by left.
Defined.

Lemma admitted_publication_agrees_witness : exists d2,
  publish_ref forget first_publication (fresh_refs []) = (Ok (object_id (pub_ref_state first_publication)), d2) /\ image_on d2 (published first_publication fresh_image).
Proof.
  destruct (admitted_publication_agrees CurrentV6 forget first_publication (demo_update 1 None) fresh_image (fresh_refs []) (fresh_refs [])
    (object_id (pub_ref_state first_publication)) ltac:(vm_compute; reflexivity) first_publishable fresh_image_on) as (d2 & Heq & Hi & _);
    [vm_compute; reflexivity|reflexivity|by intros ?|]. exists d2. by split.
Defined.

Lemma interrupted_publication_blocks_witness :
  ensure_no_incomplete_publication CurrentV6 (interrupted_refs 50) = Err incomplete_publication_refusal.
Proof.
  apply (interrupted_publication_blocks CurrentV6 first_publication (demo_update 1 None) fresh_image (torn_record 50) (interrupted_refs 50) ∅ None false
    first_publishable interrupted_image_on eq_refl). discriminate.
Defined.

(** An instance: finishing an interrupted publication can shut the repository.  When only 20 bytes of the log record
    were written (fewer than 42 do not reach the end of the key), the tail is not seen as the ref's own:
    [finish_interrupted] does not cut it and appends behind it.  It reports success, but the torn bytes
    are now a failed frame with a sound one after it: from then on every publication, of any ref, is
    refused as damage that only a copy of the repository resolves.  After 50 written bytes the same call
    leaves a log that admits publications. *)
Example short_torn_tail_shuts_repository :
  let finish n := finish_interrupted forget first_publication (interrupted_refs n) in
  (finish 20%nat).1 = Ok (object_id (pub_ref_state first_publication)) /\
  (forall format ref_name, ensure_may_publish format ref_name (finish 20%nat).2 = Err ref_log_damage_refusal) /\
  (finish 50%nat).1 = Ok (object_id (pub_ref_state first_publication)) /\ log_damaged (finish 50%nat).2 = false.
Proof.
  split; [vm_compute; reflexivity|]. split; [|split; vm_compute; reflexivity]. intros format ref_name.
  set (d := (finish_interrupted forget first_publication (interrupted_refs 20)).2). cbv zeta. fold d.
  unfold ensure_may_publish, ensure_publication_precondition. destruct (replay_pointer_index d) as [r|] eqn:Hr; [|vm_compute in Hr; discriminate Hr].
  assert (Hf : log_has_item_failure r = false).
  { assert (Hx : match replay_pointer_index d with Ok r => log_has_item_failure r | Err _ => true end = false) by (vm_compute; reflexivity). by rewrite Hr in Hx. }
  rewrite Hf. unfold examine_ref_log. destruct (d !! ref_log_container_path) as [bytes|] eqn:Hb; [|vm_compute in Hb; discriminate Hb].
  assert (Hd : match decode_ref_container_records bytes with Ok replay => has_damage replay | Err _ => false end = true).
  { assert (Hx : match d !! ref_log_container_path with
      | Some bytes => match decode_ref_container_records bytes with Ok replay => has_damage replay | Err _ => false end | None => false end = true) by (vm_compute; reflexivity).
    by rewrite Hb in Hx. }
  destruct (decode_ref_container_records bytes) as [replay|]; [|done]. by rewrite Hd.
Qed.
End demo.
