(* ===== verification/BlockState.v ===== *)
(** * Block states (crates/prikk-store/src/block_state.rs)

    The shape of a format-2 block, the state a block's lineage replays to with every root checked, the
    memo that shares those states within one run, and the pass that verifies a batch of blocks in
    dependency order. *)

From S2P Require Import Prelude PrikkError Hash ObjectId Signature Envelope Blob Block RepoPath Lifecycle Patch PatchDecode.
From S2P Require Import ObjectStore StateRoot LifecycleReplay.

(** ** Shape *)

Definition validate_non_merge_shape (payload : BlockPayload) : PResult unit :=
  if is_some (mainline_parent_id payload) || is_some (merge_baseline_block_id payload)
  then Err (Integrity "format-2 {:?} Block must not carry a mainline parent or merge baseline")
  else Ok tt.

Definition validate_merge_shape (payload : BlockPayload) : PResult unit :=
  match mainline_parent_id payload with
  | None => Err (Integrity "format-2 Merge Block must name a mainline parent")
  | Some mainline =>
      if negb (bool_decide (mainline ∈ parent_block_ids payload))
      then Err (Integrity "format-2 Merge Block mainline parent must be one of its own parents")
      else if negb (is_some (merge_baseline_block_id payload))
      then Err (Integrity "format-2 Merge Block must record the baseline confluence was proven against")
      else Ok tt
  end.

Definition validate_block_v2_shape (payload : BlockPayload) : PResult unit :=
  match block_kind payload, parent_block_ids payload with
  | KindRoot, [] | KindNormal, [_] => validate_non_merge_shape payload
  | KindMerge, [_; _] => validate_merge_shape payload
  | KindRoot, _ => Err (Integrity "format-2 Root Block must have zero parents")
  | KindNormal, _ => Err (Integrity "format-2 Normal Block must have exactly one parent")
  | KindMerge, _ => Err (Integrity "format-2 Merge Block must have exactly two parents")
  | (KindRepair | KindImport), _ => Err (Integrity "format-2 Block kind is not authorized")
  end.

Definition state_derivation_parent (payload : BlockPayload) : option ObjectId :=
  if bool_decide (block_kind payload = KindMerge) then mainline_parent_id payload else head (parent_block_ids payload).

(** ** The lineage and its memo *)

(** [LineageStateMemo]: verified states, never persisted. *)
Abbreviation LineageStateMemo := (gmap ObjectId LState) (only parsing).

Section block_state.
Context `{Sha256} (R : ObjectReader).

(** One block as [validate_v2_lineage] reads it. *)
Definition read_v2_block (block_id : ObjectId) : PResult BlockPayload :=
  let? found := @read_object R block_id in
  let? envelope := ok_or found (Integrity "format-2 parent Block {block_id} is missing") in
  if negb (bool_decide (object_type envelope = Block))
  then Err (ObjectTypeMismatch "BLOCK" "{}")
  else if negb (schema_version envelope =? 2)
  then Err (Integrity "format-2 lineage contains Block {block_id} with schema {}")
  else
    let? payload := BlockPayload_decode (canonical_payload envelope) in
    let? _ := validate_block_v2_shape payload in
    Ok payload.

(** The [while let] loop: the unresolved blocks, newest first. *)
Fixpoint validate_v2_lineage_loop (fuel : nat) (memo : LineageStateMemo) (visited : gset ObjectId)
    (lineage : list (ObjectId * BlockPayload)) (current : option ObjectId) : PResult (list (ObjectId * BlockPayload)) :=
  match current with
  | None => Ok lineage
  | Some block_id =>
      match fuel with
      | O => Err OutOfFuel
      | S fuel' =>
          if is_some (memo !! block_id) then Ok lineage
          else if bool_decide (block_id ∈ visited) then Err (Integrity "format-2 Block lineage cycle at {block_id}")
          else
            let? payload := read_v2_block block_id in
            validate_v2_lineage_loop fuel' memo ({[block_id]} ∪ visited) (lineage ++ [(block_id, payload)])
              (state_derivation_parent payload)
      end
  end.

Definition validate_v2_lineage (fuel : nat) (tip : ObjectId) (memo : LineageStateMemo) : PResult (list (ObjectId * BlockPayload)) :=
  validate_v2_lineage_loop fuel memo ∅ [] (Some tip).

(** The root of a state: [compute_state_root(&entries_from_state(&state)?)]. *)
Definition root_of_state (state : NodeLifecycleState) : PResult MerkleRoot :=
  let? entries := entries_from_state state in
  compute_state_root entries.

(** One block folded and its root compared. *)
Definition fold_checked_block (s : LState) (payload : BlockPayload) (mismatch : PrikkError) : PResult LState :=
  let? s := map_err LifecycleReplayError_into (apply_one_block_with_text_cache R payload s) in
  let? computed := root_of_state s.1 in
  if negb (bool_decide (computed = state_merkle_root payload)) then Err mismatch else Ok s.

(** The [for] loop over the lineage, oldest first; what was verified stays in the memo. *)
Fixpoint verify_roots_loop (s : LState) (blocks : list (ObjectId * BlockPayload)) (memo : LineageStateMemo)
  : PResult unit * LineageStateMemo :=
  match blocks with
  | [] => (Ok tt, memo)
  | (block_id, payload) :: rest =>
      match fold_checked_block s payload (Integrity "format-2 parent Block {block_id} state root does not match authoritative replay") with
      | Err e => (Err e, memo)
      | Ok s => verify_roots_loop s rest (<[block_id := s]> memo)
      end
  end.

Definition verify_v2_lineage_roots (lineage_from_tip : list (ObjectId * BlockPayload)) (memo : LineageStateMemo)
  : PResult unit * LineageStateMemo :=
  match last lineage_from_tip with
  | None => (Ok tt, memo)
  | Some (_, deepest) =>
      match
        match state_derivation_parent deepest with
        | Some parent_id => ok_or (memo !! parent_id) (Integrity "format-2 parent Block {parent_id} was not verified before state derivation")
        | None => Ok (NodeLifecycleState_new, ∅)
        end
      with
      | Err e => (Err e, memo)
      | Ok s => verify_roots_loop s (reverse lineage_from_tip) memo
      end
  end.

Definition resolved_parent_state (fuel : nat) (parent : option ObjectId) (memo : LineageStateMemo) : PResult LState * LineageStateMemo :=
  match parent with
  | None => (Ok (NodeLifecycleState_new, ∅), memo)
  | Some parent_id =>
      match validate_v2_lineage fuel parent_id memo with
      | Err e => (Err e, memo)
      | Ok lineage =>
          match verify_v2_lineage_roots lineage memo with
          | (Err e, memo) => (Err e, memo)
          | (Ok _, memo) =>
              (ok_or (memo !! parent_id) (Integrity "format-2 parent Block {parent_id} was not verified before state derivation"), memo)
          end
      end
  end.

(** Apply a patch list to a resolved parent and take the root. *)
Definition candidate_root (s : LState) (patch_ids : list ObjectId) : PResult (MerkleRoot * LState) :=
  let? s := map_err LifecycleReplayError_into (apply_candidate_patches R s patch_ids) in
  let? root := root_of_state s.1 in
  Ok (root, s).

Definition derive_next_state_root_with_memo (fuel : nat) (parent : option ObjectId) (patch_ids : list ObjectId) (memo : LineageStateMemo)
  : PResult MerkleRoot * LineageStateMemo :=
  match resolved_parent_state fuel parent memo with
  | (Err e, memo) => (Err e, memo)
  | (Ok s, memo) => (let? '(root, _) := candidate_root s patch_ids in Ok root, memo)
  end.

Definition derive_next_state_root (fuel : nat) (parent : option ObjectId) (patch_ids : list ObjectId) : PResult MerkleRoot :=
  (derive_next_state_root_with_memo fuel parent patch_ids ∅).1.

Definition verify_block_v2_state (fuel : nat) (block_id : ObjectId) (payload : BlockPayload) (memo : LineageStateMemo)
  : PResult unit * LineageStateMemo :=
  match validate_block_v2_shape payload with
  | Err e => (Err e, memo)
  | Ok _ =>
      match resolved_parent_state fuel (state_derivation_parent payload) memo with
      | (Err e, memo) => (Err e, memo)
      | (Ok s, memo) =>
          match candidate_root s (patch_ids payload) with
          | Err e => (Err e, memo)
          | Ok (computed, s) =>
              if negb (bool_decide (computed = state_merkle_root payload))
              then (Err (Integrity "format-2 Block {block_id} state root does not match authoritative replay"), memo)
              else (Ok tt, <[block_id := s]> memo)
          end
      end
  end.
End block_state.

(** ** Verifying a batch in dependency order *)

Inductive BlockStateStatus : Type :=
| Verified
| Failed (message : string) (kind : DecodeFailureKind)
| NotEvaluated (blocked_by : ObjectId).

Record BlockStateOutcome : Type := mkOutcome { bso_block_id : ObjectId; bso_status : BlockStateStatus }.

Record TopologicalVerification : Type := mkTopological { tv_outcomes : list BlockStateOutcome; peak_memo_entries : nat }.

(** One entry per id, where it first appears, with its last payload. *)
Definition resolve_record_step (acc : gmap ObjectId nat * list (ObjectId * BlockPayload)) (record : ObjectId * BlockPayload)
  : gmap ObjectId nat * list (ObjectId * BlockPayload) :=
  let '(position, resolved) := acc in
  let '(id, payload) := record in
  match position !! id with
  | Some index => (position, alter (fun slot => (slot.1, payload)) index resolved)
  | None => (<[id := length resolved]> position, resolved ++ [(id, payload)])
  end.

Definition resolve_block_records_by_id (blocks : list (ObjectId * BlockPayload)) : list (ObjectId * BlockPayload) :=
  (fold_left resolve_record_step blocks (∅, [])).2.

(** The mutable variables of the pass. *)
Record PassState : Type := mkPass {
  ps_memo : LineageStateMemo;
  ps_queue : list ObjectId;
  ps_remaining : gmap ObjectId nat;
  ps_resolved : gmap ObjectId BlockStateStatus;
  ps_outcomes : list BlockStateOutcome;
  ps_processed : gset ObjectId;
  ps_pending : gmap ObjectId bool;
  ps_peak : nat;
}.

Section topological.
Context `{Sha256} (R : ObjectReader) (lineage_fuel : nat) (by_id : gmap ObjectId BlockPayload) (children : gmap ObjectId (list ObjectId)).

Definition in_batch_parent (payload : BlockPayload) : option ObjectId :=
  match state_derivation_parent payload with
  | Some parent_id => if is_some (by_id !! parent_id) then Some parent_id else None
  | None => None
  end.

Definition blocking_parent (resolved : gmap ObjectId BlockStateStatus) (payload : BlockPayload) : option ObjectId :=
  parent_id ← in_batch_parent payload;
  match resolved !! parent_id with
  | Some Verified | None => None
  | Some _ => Some parent_id
  end.

(** The block's own status, and the memo after checking it. *)
Definition block_status (resolved : gmap ObjectId BlockStateStatus) (memo : LineageStateMemo) (id : ObjectId) (payload : BlockPayload)
  : BlockStateStatus * LineageStateMemo :=
  match blocking_parent resolved payload with
  | Some blocked_by => (NotEvaluated blocked_by, memo)
  | None =>
      match verify_block_v2_state R lineage_fuel id payload memo with
      | (Ok _, memo) => (Verified, memo)
      | (Err err, memo) => (Failed "{err}" (decode_failure_kind err), memo)
      end
  end.

(** The state-derivation parent has one consumer less; its entry goes with the last. *)
Definition release_parent (payload : BlockPayload) (remaining : gmap ObjectId nat) (memo : LineageStateMemo)
  : gmap ObjectId nat * LineageStateMemo :=
  match state_derivation_parent payload with
  | None => (remaining, memo)
  | Some parent_id =>
      match remaining !! parent_id with
      | None => (remaining, memo)
      | Some count =>
          let count := (count - 1)%nat in
          (<[parent_id := count]> remaining, if (count =? 0)%nat then delete parent_id memo else memo)
      end
  end.

(** Enqueue the block's children; each was tracked. *)
Definition enqueue_children (id : ObjectId) (pending : gmap ObjectId bool) (queue : list ObjectId)
  : PResult (gmap ObjectId bool * list ObjectId) :=
  foldM (fun acc child =>
    let '(pending, queue) := acc in
    let? _ := ok_or (pending !! child) (Integrity "format-2 topological pass lost a tracked child") in
    Ok (<[child := false]> pending, queue ++ [child])) (pending, queue) (default [] (children !! id)).

(** One round of the [while let] loop. *)
Definition pass_step (s : PassState) (id : ObjectId) (queue : list ObjectId) : PResult PassState :=
  let? payload := ok_or (by_id !! id) (Integrity "format-2 topological pass lost a block") in
  let '(status, memo) := block_status (ps_resolved s) (ps_memo s) id payload in
  let peak := Nat.max (ps_peak s) (size memo) in
  let '(remaining, memo) := release_parent payload (ps_remaining s) memo in
  let memo := if bool_decide (remaining !! id = Some 0%nat) then delete id memo else memo in
  let? '(pending, queue) := enqueue_children id (ps_pending s) queue in
  Ok (mkPass memo queue remaining (<[id := status]> (ps_resolved s)) (ps_outcomes s ++ [mkOutcome id status])
        ({[id]} ∪ ps_processed s) pending peak).

Fixpoint pass_loop (fuel : nat) (s : PassState) : PResult PassState :=
  match ps_queue s with
  | [] => Ok s
  | id :: queue =>
      match fuel with
      | O => Err OutOfFuel
      | S fuel' => let? s := pass_step s id queue in pass_loop fuel' s
      end
  end.
End topological.

(** The children and pending maps: one pass over the batch. *)
Definition index_step (by_id : gmap ObjectId BlockPayload) (acc : gmap ObjectId (list ObjectId) * gmap ObjectId bool)
    (block : ObjectId * BlockPayload) : gmap ObjectId (list ObjectId) * gmap ObjectId bool :=
  let '(children, pending) := acc in
  let '(id, payload) := block in
  match in_batch_parent by_id payload with
  | Some parent_id => (<[parent_id := default [] (children !! parent_id) ++ [id]]> children, <[id := true]> pending)
  | None => (children, <[id := false]> pending)
  end.

Definition verify_blocks_topological `{Sha256} (R : ObjectReader) (lineage_fuel : nat) (blocks : list (ObjectId * BlockPayload))
    (memo : LineageStateMemo) : PResult TopologicalVerification :=
  let blocks := resolve_block_records_by_id blocks in
  let by_id : gmap ObjectId BlockPayload := list_to_map (reverse blocks) in
  let '(children, pending) := fold_left (index_step by_id) blocks (∅, ∅) in
  let remaining : gmap ObjectId nat := list_to_map ((fun block => (block.1, length (default [] (children !! block.1)))) <$> reverse blocks) in
  let ready := (filter (fun entry : ObjectId * bool => entry.2 = false) (btree_iter pending)).*1 in
  let? s := pass_loop R lineage_fuel by_id children (length blocks)
              (mkPass memo ready remaining ∅ [] ∅ pending (size memo)) in
  if negb (size (ps_processed s) =? length blocks)%nat then
    match filter (fun block => block.1 ∉ ps_processed s) blocks with
    | _ :: _ => Err (Integrity "format-2 Block lineage cycle at {stuck}")
    | [] => Err (Integrity "format-2 topological pass detected an inconsistent cycle count")
    end
  else Ok (mkTopological (ps_outcomes s) (ps_peak s)).
