(* ===== verification/BlockStateThms.v ===== *)
(** * Theorems about block states

    The state of a block is the fold of its lineage with every root checked ([verified]).  A memo that
    only holds such states never changes a result, and the batch pass verifies exactly the blocks that
    verify on their own. *)

From S2P Require Import Prelude PrikkError Hash ObjectId Signature Envelope Blob Block RepoPath Lifecycle Patch PatchDecode ObjectStore StateRoot.
From S2P Require Import LifecycleReplay BlockState Canonical Payload LineageThms.


Section verified.
Context `{Sha256} (R : ObjectReader).

(** [verified id ids s]: the lineage [ids] of block [id], newest first, folds to [s] and every block on
    it has the shape, the schema and the root it should have. *)
Inductive verified : ObjectId -> list ObjectId -> LState -> Prop :=
| verified_root id payload e s : read_v2_block R id = Ok payload -> state_derivation_parent payload = None ->
    fold_checked_block R (NodeLifecycleState_new, ∅) payload e = Ok s -> verified id [id] s
| verified_child id payload parent ids s0 e s : read_v2_block R id = Ok payload -> state_derivation_parent payload = Some parent ->
    verified parent ids s0 -> fold_checked_block R s0 payload e = Ok s -> verified id (id :: ids) s.

(** The state a block continues from. *)
Definition parent_state (parent : option ObjectId) (ids : list ObjectId) (s : LState) : Prop :=
  match parent with None => ids = [] /\ s = (NodeLifecycleState_new, ∅) | Some p => verified p ids s end.

Lemma verified_inv id ids s : verified id ids s -> exists payload ids0 s0 e, read_v2_block R id = Ok payload /\
  ids = id :: ids0 /\ parent_state (state_derivation_parent payload) ids0 s0 /\ fold_checked_block R s0 payload e = Ok s.
Proof.
  destruct 1 as [id payload e s Hr Hp Hf|id payload parent ids s0 e s Hr Hp Hv Hf].
  - exists payload, [], (NodeLifecycleState_new, ∅), e. by rewrite Hp.
  - exists payload, ids, s0, e. by rewrite Hp.
Qed.

Lemma verified_intro id payload ids s0 e s : read_v2_block R id = Ok payload -> parent_state (state_derivation_parent payload) ids s0 ->
  fold_checked_block R s0 payload e = Ok s -> verified id (id :: ids) s.
Proof.
  intros Hr Hp Hf. destruct (state_derivation_parent payload) as [p|] eqn:Hd; cbn in Hp.
  - by eapply verified_child.
  - destruct Hp as [-> ->]. by eapply verified_root.
Qed.

Lemma fold_checked_ok s0 payload e1 e2 s1 s2 : fold_checked_block R s0 payload e1 = Ok s1 -> fold_checked_block R s0 payload e2 = Ok s2 -> s1 = s2.
Proof.
  unfold fold_checked_block. destruct (map_err _ _) as [s|]; [|done]. destruct (root_of_state s.1); [|done]. case_bool_decide; cbn; congruence.
Qed.

Lemma fold_checked_any s0 payload e1 e2 s1 : fold_checked_block R s0 payload e1 = Ok s1 -> fold_checked_block R s0 payload e2 = Ok s1.
Proof. unfold fold_checked_block. destruct (map_err _ _) as [s|]; [|done]. destruct (root_of_state s.1); [|done]. by case_bool_decide. Qed.

Lemma verified_det id ids1 s1 ids2 s2 : verified id ids1 s1 -> verified id ids2 s2 -> ids1 = ids2 /\ s1 = s2.
Proof.
  intros H1. revert ids2 s2. induction H1 as [id payload e s Hr Hp Hf|id payload parent ids s0 e s Hr Hp Hv IH Hf]; intros ids2 s2 H2;
    apply verified_inv in H2 as (payload2 & ids0 & s02 & e2 & Hr2 & -> & Hp2 & Hf2); rewrite Hr in Hr2; injection Hr2 as <-; rewrite Hp in Hp2; cbn in Hp2.
  - destruct Hp2 as [-> ->]. split; [done|]. by eapply fold_checked_ok.
  - apply IH in Hp2 as [-> ->]. split; [done|]. by eapply fold_checked_ok.
Qed.

Lemma parent_state_det parent ids1 s1 ids2 s2 : parent_state parent ids1 s1 -> parent_state parent ids2 s2 -> ids1 = ids2 /\ s1 = s2.
Proof. destruct parent; cbn; [apply verified_det|]. by intros [-> ->] [-> ->]. Qed.

Lemma verified_ancestor id ids s x : verified id ids s -> x ∈ ids -> exists ids' s', verified x ids' s' /\ (length ids' <= length ids)%nat /\
  (x <> id -> (length ids' < length ids)%nat).
Proof.
  induction 1 as [id payload e s Hr Hp Hf|id payload parent ids s0 e s Hr Hp Hv IH Hf].
  - intros ->%list_elem_of_singleton. exists [id], s. split_and!; [by eapply verified_root|done|done].
  - intros [->|Hx]%elem_of_cons.
    + exists (id :: ids), s. split_and!; [by eapply verified_child|done|done].
    + destruct (IH Hx) as (ids' & s' & Hv' & Hl & _). exists ids', s'. cbn. split_and!; [done|lia|lia].
Qed.

Lemma verified_NoDup id ids s : verified id ids s -> NoDup ids.
Proof.
  induction 1 as [id payload e s Hr Hp Hf|id payload parent ids s0 e s Hr Hp Hv IH Hf]; [apply NoDup_singleton|].
  apply NoDup_cons. split; [|done]. intros Hx. destruct (verified_ancestor parent ids s0 id Hv Hx) as (ids' & s' & Hv' & Hl & _).
  pose proof (verified_child id payload parent ids s0 e s Hr Hp Hv Hf) as Hfull. destruct (verified_det _ _ _ _ _ Hv' Hfull) as [-> _]. cbn in Hl. lia.
Qed.

Lemma verified_read id ids s x : verified id ids s -> x ∈ ids -> exists payload, read_v2_block R x = Ok payload.
Proof.
  intros Hv Hx. destruct (verified_ancestor id ids s x Hv Hx) as (ids' & s' & Hv' & _). apply verified_inv in Hv' as (payload & _ & _ & _ & Hr & _).
  by exists payload.
Qed.
End verified.

(** ** The memo *)

Section memo.
Context `{Sha256} (R : ObjectReader).
Implicit Types memo : gmap ObjectId LState.

Definition memo_ok (memo : gmap ObjectId LState) : Prop := forall id s, memo !! id = Some s -> exists ids, verified R id ids s.

Lemma memo_ok_empty : memo_ok ∅.
Proof. intros id s. by rewrite lookup_empty. Qed.

Lemma memo_ok_insert memo id ids s : memo_ok memo -> verified R id ids s -> memo_ok (<[id := s]> memo).
Proof. intros Hm Hv i t [[<- <-]|[_ Ht]]%lookup_insert_Some; [by exists ids|by apply Hm]. Qed.

Lemma memo_ok_delete memo id : memo_ok memo -> memo_ok (delete id memo).
Proof. intros Hm i t [_ Ht]%lookup_delete_Some. by apply Hm. Qed.

(** Blocks, oldest first, each on the one before; the first stands on [stop]. *)
Inductive chained : option ObjectId -> list (ObjectId * BlockPayload) -> option ObjectId -> Prop :=
| chained_nil stop : chained stop [] stop
| chained_cons id payload rest top : read_v2_block R id = Ok payload -> chained (Some id) rest top ->
    chained (state_derivation_parent payload) ((id, payload) :: rest) top.

Lemma chained_snoc stop l id payload : read_v2_block R id = Ok payload -> chained stop l (state_derivation_parent payload) ->
  chained stop (l ++ [(id, payload)]) (Some id).
Proof.
  intros Hr Hc. remember (state_derivation_parent payload) as top eqn:Ht. induction Hc as [stop|i p rest top Hi Hc IH]; cbn.
  - rewrite Ht. apply chained_cons; [done|apply chained_nil].
  - apply chained_cons; [done|by apply IH].
Qed.

Lemma validate_loop_sound fuel : forall memo visited lineage current result,
  validate_v2_lineage_loop R fuel memo visited lineage current = Ok result ->
  exists tail stop, result = lineage ++ tail /\ chained stop (reverse tail) current /\ forall p, stop = Some p -> is_Some (memo !! p).
Proof.
  induction fuel as [|fuel IH]; intros memo visited lineage [id|] result; cbn [validate_v2_lineage_loop]; [done| | |];
    try (intros [= <-]; exists [], None; rewrite app_nil_r; split_and!; [done|apply chained_nil|done]).
  destruct (memo !! id) as [s|] eqn:Hm; cbn [is_some].
  - intros [= <-]. exists [], (Some id). rewrite app_nil_r. split_and!; [done|apply chained_nil|]. intros p [= <-]. by exists s.
  - case_bool_decide; [done|]. destruct (read_v2_block R id) as [payload|] eqn:Hr; [|done]. intros (tail & stop & -> & Hc & Hs)%IH.
    exists ((id, payload) :: tail), stop. rewrite <- app_assoc, reverse_cons. split_and!; [done|by apply chained_snoc|done].
Qed.

Lemma roots_loop_sound blocks stop top s memo ids : chained stop blocks top -> parent_state R stop ids s -> memo_ok memo ->
  memo_ok (verify_roots_loop R s blocks memo).2.
Proof.
  intros Hc. revert s memo ids. induction Hc as [stop|id payload rest top Hr Hc IH]; intros s memo ids Hp Hm; cbn [verify_roots_loop]; [done|].
  destruct (fold_checked_block _ _ _ _) as [s1|] eqn:Hf; [|done]. pose proof (verified_intro R id payload ids s _ s1 Hr Hp Hf) as Hv.
  apply (IH s1 _ (id :: ids)); [done|by eapply memo_ok_insert].
Qed.

Lemma chained_last stop l x top : chained stop (reverse l) top -> last l = Some x -> state_derivation_parent x.2 = stop.
Proof.
  intros Hc Hl. destruct l as [|y l _] using rev_ind; [done|]. rewrite last_snoc in Hl. injection Hl as ->. rewrite reverse_snoc in Hc. by inversion Hc.
Qed.

Lemma lineage_roots_sound lineage stop top memo : chained stop (reverse lineage) top -> memo_ok memo -> memo_ok (verify_v2_lineage_roots R lineage memo).2.
Proof.
  intros Hc Hm. unfold verify_v2_lineage_roots. destruct (last lineage) as [[i deepest]|] eqn:Hl; [|done].
  pose proof (chained_last _ _ _ _ Hc Hl) as Hd. cbn in Hd. rewrite Hd. destruct stop as [p|].
  - destruct (memo !! p) as [s|] eqn:Hs; cbn [ok_or]; [|done]. destruct (Hm p s Hs) as [ids Hv]. by eapply roots_loop_sound.
  - by eapply (roots_loop_sound _ None _ _ _ []).
Qed.

(** Whatever is resolved is verified, and the memo stays sound even when the resolution fails. *)
Lemma resolved_sound fuel parent memo : memo_ok memo -> memo_ok (resolved_parent_state R fuel parent memo).2 /\
  forall s, (resolved_parent_state R fuel parent memo).1 = Ok s -> exists ids, parent_state R parent ids s.
Proof.
  intros Hm. unfold resolved_parent_state. destruct parent as [p|]; [|split; [done|]; intros s [= <-]; by exists []].
  destruct (validate_v2_lineage R fuel p memo) as [lineage|] eqn:Hv; [|done].
  apply validate_loop_sound in Hv as (tail & stop & -> & Hc & _). pose proof (lineage_roots_sound _ _ _ _ Hc Hm) as Hm'.
  destruct (verify_v2_lineage_roots R ([] ++ tail) memo) as [[[]|e] memo'] eqn:Hr; cbn in *; rewrite Hr in Hm'; cbn in Hm'; [|done].
  split; [done|]. intros s. destruct (memo' !! p) as [s'|] eqn:Hs; cbn; [|done]. intros [= <-]. by apply Hm'.
Qed.

(** *** Completeness *)

Definition roots_step (s : LState) (block : ObjectId * BlockPayload) : PResult LState := fold_checked_block R s block.2 OutOfFuel.

Lemma roots_loop_app l1 : forall l2 s s1 memo, foldM roots_step s l1 = Ok s1 ->
  verify_roots_loop R s (l1 ++ l2) memo = verify_roots_loop R s1 l2 (verify_roots_loop R s l1 memo).2.
Proof.
  induction l1 as [|[id p] l1 IH]; intros l2 s s1 memo; cbn; [by intros [= <-]|]. unfold roots_step at 1. cbn [snd].
  destruct (fold_checked_block R s p OutOfFuel) as [s2|] eqn:Hf; [|done]. intros Hr. rewrite (fold_checked_any R s p _ _ s2 Hf). by apply IH.
Qed.

Lemma roots_loop_ok l : forall s s1 memo, foldM roots_step s l = Ok s1 -> (verify_roots_loop R s l memo).1 = Ok tt.
Proof.
  induction l as [|[id p] l IH]; intros s s1 memo; cbn; [done|]. unfold roots_step at 1. cbn [snd].
  destruct (fold_checked_block R s p OutOfFuel) as [s2|] eqn:Hf; [|done]. intros Hr. rewrite (fold_checked_any R s p _ _ s2 Hf). by eapply IH.
Qed.

(** Where the fold of the unresolved blocks starts. *)
Definition start_state (memo : gmap ObjectId LState) (tail : list (ObjectId * BlockPayload)) (s : LState) : Prop :=
  match last tail with
  | None => True
  | Some (_, deepest) =>
      match state_derivation_parent deepest with Some p => memo !! p = Some s | None => s = (NodeLifecycleState_new, ∅) end
  end.

Lemma verified_walk memo id ids s : verified R id ids s -> memo_ok memo -> forall fuel visited lineage,
  (length ids <= fuel)%nat -> (forall x, x ∈ ids -> x ∉ visited) ->
  exists tail s0, validate_v2_lineage_loop R fuel memo visited lineage (Some id) = Ok (lineage ++ tail) /\ start_state memo tail s0 /\
    foldM roots_step s0 (reverse tail) = Ok s /\ (verify_roots_loop R s0 (reverse tail) memo).2 !! id = Some s.
Proof.
  intros Hv Hm. induction Hv as [id payload e s Hr Hp Hf|id payload parent ids s0 e s Hr Hp Hv IH Hf]; intros fuel visited lineage Hl Hd;
    (destruct fuel as [|fuel]; [cbn in Hl; lia|]); cbn [validate_v2_lineage_loop].
  all: destruct (memo !! id) as [s'|] eqn:Hi; cbn [is_some].
  1,3: destruct (Hm id s' Hi) as [ids' Hv']; assert (s' = s) as ->;
    [by (eapply verified_det; [exact Hv'|]; first [by eapply verified_root|by eapply verified_child])|exists [], s; by rewrite app_nil_r].
  - rewrite bool_decide_false by (apply Hd; set_solver). rewrite Hr. cbv zeta. exists [(id, payload)], (NodeLifecycleState_new, ∅).
    rewrite Hp. unfold start_state. cbn. rewrite Hp. unfold roots_step. cbn. rewrite !(fold_checked_any R _ _ _ _ s Hf). cbn.
    split_and!; [by destruct fuel|done|done|by rewrite lookup_insert_eq].
  - rewrite bool_decide_false by (apply Hd; set_solver). rewrite Hr. cbv zeta. rewrite Hp.
    pose proof (verified_NoDup R id _ s (verified_child R id payload parent ids s0 e s Hr Hp Hv Hf)) as Hnd. apply NoDup_cons in Hnd as [Hnd _].
    destruct (IH fuel ({[id]} ∪ visited) (lineage ++ [(id, payload)])) as (tail & st & Hw & Hst & Hfold & Hlook); [cbn in Hl; lia| |].
    { intros x Hx. specialize (Hd x). set_solver. }
    destruct tail as [|y tail'].
    + exists [(id, payload)], s0. cbn in Hfold, Hlook. injection Hfold as ->. rewrite Hw, app_nil_r. unfold start_state. cbn. rewrite Hp. unfold roots_step.
      cbn. rewrite !(fold_checked_any R _ _ _ _ s Hf). cbn. by rewrite lookup_insert_eq.
    + exists ((id, payload) :: y :: tail'), st. rewrite Hw, <- app_assoc. split; [done|]. split; [exact Hst|]. rewrite reverse_cons, foldM_app, Hfold. cbn [foldM].
      unfold roots_step at 1. cbn [snd]. rewrite (fold_checked_any R _ _ _ OutOfFuel s Hf). split; [done|]. rewrite (roots_loop_app _ _ _ s0 _ Hfold). cbn [verify_roots_loop].
      rewrite (fold_checked_any R _ _ _ _ s Hf). cbn. by rewrite lookup_insert_eq.
Qed.

Lemma resolved_complete fuel parent memo ids s : memo_ok memo -> parent_state R parent ids s -> (length ids <= fuel)%nat ->
  (resolved_parent_state R fuel parent memo).1 = Ok s.
Proof.
  intros Hm Hp Hf. destruct parent as [p|]; cbn in Hp |- *; [|by destruct Hp as [_ ->]].
  destruct (verified_walk memo p ids s Hp Hm fuel ∅ []) as (tail & s0 & Hw & Hst & Hfold & Hlook); [done|set_solver|].
  unfold validate_v2_lineage. rewrite Hw. cbn [app]. unfold verify_v2_lineage_roots. unfold start_state in Hst.
  destruct (last tail) as [[i d]|] eqn:Hl.
  - assert (Hstart : match state_derivation_parent d with
      | Some parent_id => ok_or (memo !! parent_id) (Integrity "format-2 parent Block {parent_id} was not verified before state derivation")
      | None => Ok (NodeLifecycleState_new, ∅) end = Ok s0).
    { destruct (state_derivation_parent d); [by rewrite Hst|by rewrite Hst]. }
    rewrite Hstart. pose proof (roots_loop_ok _ _ _ memo Hfold) as Hok.
    destruct (verify_roots_loop R s0 (reverse tail) memo) as [r memo']. cbn in Hok, Hlook. subst r. cbn. by rewrite Hlook.
  - apply last_None in Hl as ->. cbn in Hlook. cbn. by rewrite Hlook.
Qed.
End memo.

(** ** Finite stores *)

Section finite.
Context `{Sha256} (m : gmap ObjectId ObjectEnvelope).
Abbreviation R := (memory_reader m).

Lemma memory_read id : @read_object R id = Ok (m !! id).
Proof. done. Qed.

Lemma read_v2_known id payload : read_v2_block R id = Ok payload -> id ∈ (dom m : gset ObjectId).
Proof. unfold read_v2_block. rewrite memory_read. destruct (m !! id) eqn:Hm; cbn; [|done]. intros _. apply elem_of_dom. by eexists. Qed.

Lemma verified_length id ids s : verified R id ids s -> (length ids <= size m)%nat.
Proof.
  intros Hv. pose proof (verified_NoDup R id ids s Hv) as Hnd. rewrite <- (size_list_to_set (C := gset ObjectId)) by done.
  rewrite <- (size_dom (D := gset ObjectId) m). apply subseteq_size. intros x. rewrite elem_of_list_to_set. intros Hx.
  destruct (verified_read R id ids s x Hv Hx) as [payload Hr]. by eapply read_v2_known.
Qed.

Lemma parent_state_length parent ids s : parent_state R parent ids s -> (length ids <= size m)%nat.
Proof. destruct parent; cbn; [apply verified_length|]. intros [-> _]. cbn. lia. Qed.

Lemma resolved_exact parent memo s : memo_ok R memo ->
  (resolved_parent_state R (size m) parent memo).1 = Ok s <-> exists ids, parent_state R parent ids s.
Proof.
  intros Hm. split; [by apply resolved_sound|]. intros [ids Hp]. eapply resolved_complete; [done|done|]. by eapply parent_state_length.
Qed.

(** [payload] is the format-2 block the store holds under [id]. *)
Definition holds_block (id : ObjectId) (payload : BlockPayload) : Prop :=
  exists envelope, m !! id = Some envelope /\ object_type envelope = Block /\ schema_version envelope = 2 /\
    BlockPayload_decode (canonical_payload envelope) = Ok payload.

Lemma holds_block_read id payload : holds_block id payload ->
  read_v2_block R id = (let? _ := validate_block_v2_shape payload in Ok payload).
Proof.
  intros (envelope & Hm & Ht & Hs & Hd). unfold read_v2_block. rewrite memory_read, Hm. cbn [ok_or].
  rewrite bool_decide_true by done. rewrite Hs. cbn [negb Z.eqb Pos.eqb]. by rewrite Hd.
Qed.

Lemma verify_block_exact id payload memo : memo_ok R memo -> holds_block id payload ->
  memo_ok R (verify_block_v2_state R (size m) id payload memo).2 /\
  ((verify_block_v2_state R (size m) id payload memo).1 = Ok tt <-> exists ids s, verified R id ids s).
Proof.
  intros Hm Hh. pose proof (holds_block_read id payload Hh) as Hr. unfold verify_block_v2_state.
  destruct (validate_block_v2_shape payload) as [[]|e] eqn:Hshape.
  2: { cbn. split; [done|]. split; [done|]. intros (ids & s & Hv). apply verified_inv in Hv as (p & _ & _ & _ & Hr' & _). congruence. }
  pose proof (resolved_sound R (size m) (state_derivation_parent payload) memo Hm) as [Hm1 _].
  pose proof (fun s => resolved_exact (state_derivation_parent payload) memo s Hm) as Hex.
  destruct (resolved_parent_state R (size m) (state_derivation_parent payload) memo) as [[s|e] memo1]; cbn in Hm1, Hex.
  - destruct (proj1 (Hex s) eq_refl) as [ids Hp].
    assert (Hcand : forall e s1, candidate_root R s (patch_ids payload) = Ok (state_merkle_root payload, s1) <-> fold_checked_block R s payload e = Ok s1).
    { intros e s1. unfold candidate_root, fold_checked_block, apply_candidate_patches, apply_one_block_with_text_cache.
      destruct (map_err _ _) as [s2|]; [|done]. destruct (root_of_state s2.1); [|done]. case_bool_decide; cbn; split; congruence. }
    assert (Hiff : (exists s1, candidate_root R s (patch_ids payload) = Ok (state_merkle_root payload, s1)) <-> exists ids s, verified R id ids s).
    { split.
      - intros [s1 Hc]. apply (Hcand OutOfFuel) in Hc. exists (id :: ids), s1. by eapply verified_intro.
      - intros (ids' & s' & Hv). apply verified_inv in Hv as (p & ids0 & s0 & e & Hr' & -> & Hp' & Hf). rewrite Hr in Hr'. injection Hr' as <-.
        destruct (parent_state_det R _ _ _ _ _ Hp Hp') as [_ ->]. exists s'. by apply (Hcand e). }
    destruct (candidate_root R s (patch_ids payload)) as [[computed s1]|e] eqn:Hc; cbn.
    + case_bool_decide as Heq; cbn.
      * subst computed. split; [|split; [intros _; apply Hiff; by exists s1|done]].
        apply memo_ok_insert with (ids := id :: ids); [done|]. eapply verified_intro; [by rewrite Hr|done|]. by apply (Hcand OutOfFuel).
      * split; [done|]. split; [done|]. intros (s' & Hs')%Hiff. congruence.
    + split; [done|]. split; [done|]. by intros (s' & Hs')%Hiff.
  - cbn. split; [done|]. split; [done|]. intros (ids & s & Hv). apply verified_inv in Hv as (p & ids0 & s0 & e0 & Hr' & -> & Hp' & Hf).
    rewrite Hr in Hr'. injection Hr' as <-. discriminate (proj2 (Hex s0) (ex_intro _ ids0 Hp')).
Qed.

(** C40: sharing a memo of verified states never changes a derivation.  With any sound memo, deriving the
    root of a patch list on a parent succeeds with [root] exactly when the parent's whole lineage folds
    to a state with every root matching and the patches take that state to [root]; the memo it leaves is
    sound again, whether it succeeded or not. *)
Theorem derive_next_state_root_exact parent patch_ids memo : memo_ok R memo ->
  memo_ok R (derive_next_state_root_with_memo R (size m) parent patch_ids memo).2 /\
  forall root, (derive_next_state_root_with_memo R (size m) parent patch_ids memo).1 = Ok root <->
    exists ids s s', parent_state R parent ids s /\ candidate_root R s patch_ids = Ok (root, s').
Proof.
  intros Hm. unfold derive_next_state_root_with_memo. pose proof (resolved_sound R (size m) parent memo Hm) as [Hm1 _].
  pose proof (fun s => resolved_exact parent memo s Hm) as Hex. destruct (resolved_parent_state R (size m) parent memo) as [[s|e] memo1]; cbn in *.
  - split; [done|]. intros root. destruct (proj1 (Hex s) eq_refl) as [ids Hp]. split.
    + destruct (candidate_root R s patch_ids) as [[r s']|] eqn:Hc; [|done]. intros [= ->]. by exists ids, s, s'.
    + intros (ids' & s0 & s' & Hp' & Hc). destruct (parent_state_det R _ _ _ _ _ Hp Hp') as [_ ->]. by rewrite Hc.
  - split; [done|]. intros root. split; [done|]. intros (ids & s & s' & Hp & _). discriminate (proj2 (Hex s) (ex_intro _ ids Hp)).
Qed.
End finite.

(** * The batch pass over blocks

    [verify_blocks_topological] gives every block of the batch one outcome, [Verified] exactly where the
    block verifies on its own, and fails only on a batch whose blocks stand on one another in a cycle. *)


Lemma NoDup_fst_filter {A B} (P : A * B -> Prop) `{!forall x, Decision (P x)} (l : list (A * B)) : NoDup l.*1 -> NoDup (filter P l).*1.
Proof.
  induction l as [|x l IH]; [by intros _; constructor|]. rewrite fmap_cons. intros [Hn Hnd]%NoDup_cons. rewrite filter_cons. case_decide; [|by apply IH]. rewrite fmap_cons.
  apply NoDup_cons. split; [|by apply IH]. intros (y & Heq & [_ Hy]%list_elem_of_filter)%list_elem_of_fmap. apply Hn. apply list_elem_of_fmap. by exists y.
Qed.

(** ** One record per block *)

Lemma resolve_records_inv blocks : let '(position, resolved) := fold_left resolve_record_step blocks (∅, []) in
  (forall id i, position !! id = Some i <-> resolved.*1 !! i = Some id) /\
  (forall id, id ∈ resolved.*1 <-> id ∈ blocks.*1) /\ (forall r, r ∈ resolved -> r ∈ blocks).
Proof.
  induction blocks as [|[id payload] blocks IH] using rev_ind; cbn; [split_and!; [|done|done]; intros id i; by rewrite lookup_empty, lookup_nil|].
  rewrite fold_left_app. destruct (fold_left resolve_record_step blocks (∅, [])) as [position resolved]. destruct IH as (Hpos & Hids & Hsub). cbn.
  rewrite fmap_app. cbn. destruct (position !! id) as [index|] eqn:Hp.
  - assert (Hfst : (alter (fun slot => (slot.1, payload)) index resolved).*1 = resolved.*1).
    { clear. revert index. induction resolved as [|r resolved IHr]; intros [|index]; cbn; congruence. }
    rewrite Hfst. split_and!; [done| |].
    + intros i. rewrite elem_of_app, Hids, list_elem_of_singleton. split; [by left|]. intros [Hi| ->]; [done|]. apply Hids. eapply list_elem_of_lookup_2, Hpos, Hp.
    + intros r Hr. apply elem_of_app. apply list_elem_of_lookup in Hr as [i Hi]. rewrite list_lookup_alter in Hi. destruct (decide (index = i)) as [->|].
      * destruct (resolved !! i) as [old|] eqn:Ho; [|done]. cbn in Hi. injection Hi as <-. right. apply Hpos in Hp. rewrite list_lookup_fmap, Ho in Hp. cbn in Hp.
        injection Hp as ->. apply list_elem_of_here.
      * left. apply Hsub. by eapply list_elem_of_lookup_2.
  - rewrite fmap_app. cbn. split_and!.
    + intros i j. rewrite lookup_insert_Some, lookup_app_Some, list_lookup_singleton_Some, length_fmap, Hpos. split.
      * intros [[<- <-]|[_ Hj]]; [right; split; [lia|]; split; [lia|done]|by left].
      * intros [Hj|(Hge & Hj & <-)]; [right; split; [|done]|left; split; [done|lia]]. intros ->. apply Hpos in Hj. congruence.
    + intros i. rewrite !elem_of_app, Hids, !list_elem_of_singleton. done.
    + intros r. rewrite !elem_of_app. intros [Hr|Hr]; [left; by apply Hsub|by right].
Qed.

Lemma resolve_records_spec blocks : NoDup (resolve_block_records_by_id blocks).*1 /\
  (forall id, id ∈ (resolve_block_records_by_id blocks).*1 <-> id ∈ blocks.*1) /\ (forall r, r ∈ resolve_block_records_by_id blocks -> r ∈ blocks).
Proof.
  unfold resolve_block_records_by_id. pose proof (resolve_records_inv blocks) as Hinv.
  destruct (fold_left resolve_record_step blocks (∅, [])) as [position resolved]. cbn. destruct Hinv as (Hpos & Hids & Hsub). split_and!; [|done|done].
  apply NoDup_alt. intros i j x Hi%Hpos Hj%Hpos. congruence.
Qed.

(** ** The index of the batch *)

Lemma index_untouched by_id l : forall (children : gmap ObjectId (list ObjectId)) (pending : gmap ObjectId bool) id, id ∉ l.*1 ->
  (fold_left (index_step by_id) l (children, pending)).2 !! id = pending !! id.
Proof.
  induction l as [|[j payload] l IH]; intros children pending id Hn; cbn; [done|]. cbn in Hn. rewrite not_elem_of_cons in Hn. destruct Hn as [Hne Hn].
  destruct (in_batch_parent by_id payload); rewrite IH by done; by rewrite lookup_insert_ne.
Qed.

Lemma index_fold by_id : forall l children pending children' pending', fold_left (index_step by_id) l (children, pending) = (children', pending') ->
  (forall p, default [] (children' !! p) = default [] (children !! p) ++ (filter (fun b : ObjectId * BlockPayload => in_batch_parent by_id b.2 = Some p) l).*1) /\
  (forall id, is_Some (pending' !! id) <-> is_Some (pending !! id) \/ id ∈ l.*1) /\
  (NoDup l.*1 -> forall id payload, (id, payload) ∈ l -> pending' !! id = Some (is_some (in_batch_parent by_id payload))).
Proof.
  induction l as [|[id payload] l IH]; intros children pending children' pending'; cbn [fold_left].
  - intros [= <- <-]. split_and!; [intros p; by rewrite app_nil_r| |]; [intros id; set_solver|set_solver].
  - intros Hf. unfold index_step at 2 in Hf.
    assert (Hstep : exists c1, fold_left (index_step by_id) l (c1, <[id := is_some (in_batch_parent by_id payload)]> pending) = (children', pending') /\
      forall p, default [] (c1 !! p) = default [] (children !! p) ++ (if decide (in_batch_parent by_id payload = Some p) then [id] else [])).
    { destruct (in_batch_parent by_id payload) as [q|]; eexists; (split; [exact Hf|]); intros p.
      - destruct (decide (Some q = Some p)) as [Heq|Hne]; [injection Heq as ->; by rewrite lookup_insert_eq|].
        rewrite lookup_insert_ne by congruence. by rewrite app_nil_r.
      - by rewrite app_nil_r. }
    clear Hf. destruct Hstep as (c1 & Hf & Hc1). pose proof (f_equal snd Hf) as Hpending. cbn in Hpending. apply IH in Hf as (Hch & Hpend & Hval). split_and!.
    + intros p. rewrite Hch, Hc1, filter_cons. cbn. rewrite <- app_assoc. by case_decide.
    + intros i. rewrite Hpend, lookup_insert_is_Some, fmap_cons, elem_of_cons. cbn. destruct (decide (id = i)); naive_solver.
    + cbn. intros [Hnot Hnd]%NoDup_cons i p [[= -> ->]|Hin]%elem_of_cons; [|by apply Hval]. rewrite <- Hpending, index_untouched by done. by rewrite lookup_insert_eq.
Qed.

(** ** The loop *)

Section pass.
Context `{Sha256} (m : gmap ObjectId ObjectEnvelope) (by_id : gmap ObjectId BlockPayload) (children : gmap ObjectId (list ObjectId)).
Abbreviation R := (memory_reader m).
Context (Hholds : forall id payload, by_id !! id = Some payload -> holds_block m id payload).
Context (Hchildren : forall p c, c ∈ default [] (children !! p) <-> exists payload, by_id !! c = Some payload /\ in_batch_parent by_id payload = Some p).
Context (Hchildren_NoDup : forall p, NoDup (default [] (children !! p))).

Definition verifies (id : ObjectId) : Prop := exists ids s, verified R id ids s.

Record outcome_ok (o : BlockStateOutcome) : Prop := {
  oo_verified : bso_status o = Verified <-> verifies (bso_block_id o);
  oo_blocked : forall b, bso_status o = NotEvaluated b -> exists payload, by_id !! bso_block_id o = Some payload /\
    state_derivation_parent payload = Some b /\ ~ verifies b;
}.

Record pass_inv (s : PassState) : Prop := {
  pi_memo : memo_ok R (ps_memo s);
  pi_NoDup : NoDup ((bso_block_id <$> ps_outcomes s) ++ ps_queue s);
  pi_batch : forall x, x ∈ (bso_block_id <$> ps_outcomes s) ++ ps_queue s -> is_Some (by_id !! x);
  pi_processed : ps_processed s = list_to_set (bso_block_id <$> ps_outcomes s);
  pi_resolved : forall id status, ps_resolved s !! id = Some status <-> mkOutcome id status ∈ ps_outcomes s;
  pi_status : Forall outcome_ok (ps_outcomes s);
  pi_parent : forall x payload p, x ∈ (bso_block_id <$> ps_outcomes s) ++ ps_queue s -> by_id !! x = Some payload ->
    in_batch_parent by_id payload = Some p -> p ∈ bso_block_id <$> ps_outcomes s;
  pi_ready : forall x payload, by_id !! x = Some payload ->
    (forall p, in_batch_parent by_id payload = Some p -> p ∈ bso_block_id <$> ps_outcomes s) ->
    x ∈ (bso_block_id <$> ps_outcomes s) ++ ps_queue s;
  pi_pending : forall x, is_Some (by_id !! x) -> is_Some (ps_pending s !! x);
}.

Lemma in_batch_parent_derivation payload p : in_batch_parent by_id payload = Some p -> state_derivation_parent payload = Some p.
Proof. unfold in_batch_parent. destruct (state_derivation_parent payload); [|done]. by case_match. Qed.

(** A block on an unverified parent does not verify. *)
Lemma unverified_parent id payload p : holds_block m id payload -> state_derivation_parent payload = Some p -> ~ verifies p -> ~ verifies id.
Proof.
  intros Hh Hp Hn (ids & s & Hv). apply verified_inv in Hv as (payload' & ids0 & s0 & e & Hr & -> & Hps & _). apply holds_block_read in Hh. rewrite Hh in Hr.
  destruct (validate_block_v2_shape payload); [|done]. injection Hr as <-. rewrite Hp in Hps. apply Hn. by exists ids0, s0.
Qed.

Lemma block_status_ok s id payload : pass_inv s -> by_id !! id = Some payload ->
  outcome_ok (mkOutcome id (block_status R (size m) by_id (ps_resolved s) (ps_memo s) id payload).1) /\
  memo_ok R (block_status R (size m) by_id (ps_resolved s) (ps_memo s) id payload).2.
Proof.
  intros Hinv Hid. unfold block_status. destruct (blocking_parent by_id (ps_resolved s) payload) as [b|] eqn:Hb; cbn.
  - split; [|apply Hinv]. unfold blocking_parent in Hb. apply bind_Some in Hb as (p & Hp & Hb). pose proof (in_batch_parent_derivation _ _ Hp) as Hd.
    assert (Hbad : exists status, ps_resolved s !! p = Some status /\ status <> Verified /\ b = p) by
      (destruct (ps_resolved s !! p) as [[| |]|]; try done; injection Hb as <-; eexists; by split_and!).
    destruct Hbad as (status & Hs & Hne & ->). apply (pi_resolved s Hinv) in Hs. pose proof (pi_status s Hinv) as Hall. rewrite Forall_forall in Hall.
    specialize (Hall _ Hs). assert (Hnv : ~ verifies p) by (intros Hv; apply Hne; by apply (oo_verified _ Hall)).
    split; cbn; [split; [done|]|intros b' [= <-]; by exists payload]. intros Hv. by destruct (unverified_parent id payload p (Hholds id payload Hid) Hd Hnv).
  - destruct (verify_block_exact m id payload (ps_memo s) (pi_memo s Hinv) (Hholds id payload Hid)) as [Hm Hiff].
    destruct (verify_block_v2_state R (size m) id payload (ps_memo s)) as [[[]|e] memo]; cbn in *; (split; [|done]); split; cbn; try done.
    + split; [intros _; by apply Hiff|done].
    + split; [done|]. intros Hv. by apply Hiff in Hv.
Qed.

Lemma enqueue_ok id pending queue : (forall x, is_Some (by_id !! x) -> is_Some (pending !! x)) -> exists pending',
  enqueue_children children id pending queue = Ok (pending', queue ++ default [] (children !! id)) /\
  forall x, is_Some (by_id !! x) -> is_Some (pending' !! x).
Proof.
  intros Hp. unfold enqueue_children. assert (Hsub : forall c, c ∈ default [] (children !! id) -> is_Some (by_id !! c)).
  { intros c (payload & Hc & _)%Hchildren. by exists payload. }
  revert pending queue Hp Hsub. generalize (default [] (children !! id)). induction l as [|c l IH]; intros pending queue Hp Hsub; cbn [foldM].
  - exists pending. by rewrite app_nil_r.
  - destruct (Hp c) as [b Hb]; [apply Hsub; set_solver|]. rewrite Hb. cbn [ok_or].
    destruct (IH (<[c := false]> pending) (queue ++ [c])) as (pending' & -> & Hp'); [|set_solver|].
    + intros x Hx. rewrite lookup_insert_is_Some. destruct (decide (c = x)); [by left|right; split; [done|by apply Hp]].
    + exists pending'. by rewrite <- app_assoc.
Qed.

Lemma release_ok payload remaining memo : memo_ok R memo -> memo_ok R (release_parent payload remaining memo).2.
Proof. intros Hm. unfold release_parent. repeat case_match; cbn; try done. by apply memo_ok_delete. Qed.

Lemma pass_step_inv s id queue : pass_inv s -> ps_queue s = id :: queue -> exists s', pass_step R (size m) by_id children s id queue = Ok s' /\ pass_inv s' /\
  length (ps_outcomes s') = S (length (ps_outcomes s)).
Proof.
  intros Hinv Hq. pose proof (pi_NoDup s Hinv) as Hnd. pose proof (pi_batch s Hinv) as Hbatch. pose proof (pi_parent s Hinv) as Hpar.
  pose proof (pi_ready s Hinv) as Hready. rewrite Hq in Hnd, Hbatch, Hpar, Hready.
  destruct (Hbatch id) as [payload Hid]; [set_solver|]. unfold pass_step. rewrite Hid. cbn [ok_or].
  pose proof (block_status_ok s id payload Hinv Hid) as [Hout Hm].
  destruct (block_status R (size m) by_id (ps_resolved s) (ps_memo s) id payload) as [status memo]. cbn in Hout, Hm.
  pose proof (release_ok payload (ps_remaining s) memo Hm) as Hm1. destruct (release_parent payload (ps_remaining s) memo) as [remaining memo1]. cbn in Hm1.
  destruct (enqueue_ok id (ps_pending s) queue (pi_pending s Hinv)) as (pending & -> & Hpend).
  eexists. split; [done|]. split; [|cbn; rewrite length_app; cbn; lia].
  set (ids := bso_block_id <$> ps_outcomes s) in *.
  assert (Hfresh : id ∉ ids ++ queue). { apply NoDup_app in Hnd as (_ & Hd & Hnd). apply NoDup_cons in Hnd as [Hnd _]. set_solver. }
  assert (Hids : bso_block_id <$> (ps_outcomes s ++ [mkOutcome id status]) = ids ++ [id]) by (by rewrite fmap_app).
  assert (Hnew : forall c, c ∈ default [] (children !! id) -> c ∉ (ids ++ [id]) ++ queue).
  { intros c (pc & Hc & Hpc)%Hchildren Hin. apply Hfresh. apply elem_of_app. left. eapply (Hpar c pc id); [set_solver|done|done]. }
  split; cbn [ps_memo ps_queue ps_outcomes ps_processed ps_resolved ps_pending].
  - case_bool_decide; [by apply memo_ok_delete|done].
  - rewrite Hids, app_assoc. apply NoDup_app. split_and!; [|set_solver|done]. rewrite <- app_assoc. exact Hnd.
  - rewrite Hids. intros x. rewrite !elem_of_app. intros [[Hx|Hx]|[Hx|Hx]]; [apply Hbatch; set_solver..|]. apply Hchildren in Hx as (pc & Hc & _). by exists pc.
  - rewrite Hids, (pi_processed s Hinv). rewrite list_to_set_app_L. cbn. set_solver.
  - intros i st. rewrite elem_of_app, list_elem_of_singleton, lookup_insert_Some, (pi_resolved s Hinv). split.
    + intros [[<- <-]|[_ Hi]]; [by right|by left].
    + intros [Hi|[= -> ->]]; [right|by left]. split; [|done]. intros <-. apply Hfresh. apply elem_of_app. left. unfold ids. apply list_elem_of_fmap.
      by exists (mkOutcome id st).
  - apply Forall_app. split; [apply Hinv|]. by apply Forall_singleton.
  - rewrite Hids. intros x px p. rewrite !elem_of_app. intros [[Hx|Hx]|[Hx|Hx]] Hpx Hp; [left; apply (Hpar x px p); [set_solver|done|done]..|].
    apply Hchildren in Hx as (pc & Hc & Hpc). right. assert (p = id) as -> by congruence. set_solver.
  - rewrite Hids. intros x px Hpx Hp. destruct (in_batch_parent by_id px) as [p|] eqn:Hip.
    + destruct (decide (p = id)) as [->|Hne]; [assert (x ∈ default [] (children !! id)) by (apply Hchildren; by exists px); set_solver|].
      assert (x ∈ ids ++ id :: queue); [|set_solver]. apply (Hready x px Hpx). intros q Hq'. assert (q = p) as -> by congruence. specialize (Hp p eq_refl). set_solver.
    + assert (x ∈ ids ++ id :: queue); [|set_solver]. apply (Hready x px Hpx). intros q Hq'. congruence.
  - done.
Qed.

Lemma pass_loop_inv fuel : forall s, pass_inv s -> (size by_id <= fuel + length (ps_outcomes s))%nat -> exists s',
  pass_loop R (size m) by_id children fuel s = Ok s' /\ pass_inv s' /\ ps_queue s' = [].
Proof.
  assert (Hlen : forall s, pass_inv s -> (length (ps_outcomes s) + length (ps_queue s) <= size by_id)%nat).
  { intros s Hinv. rewrite <- (length_fmap bso_block_id), <- length_app, <- (size_list_to_set (C := gset ObjectId)) by apply Hinv.
    rewrite <- (size_dom (D := gset ObjectId) by_id). apply subseteq_size. intros x. rewrite elem_of_list_to_set, elem_of_dom. apply Hinv. }
  induction fuel as [|fuel IH]; intros s Hinv Hf; cbn [pass_loop]; destruct (ps_queue s) as [|id queue] eqn:Hq; [by exists s| |by exists s|].
  - specialize (Hlen s Hinv). rewrite Hq in Hlen. cbn in Hlen. lia.
  - destruct (pass_step_inv s id queue Hinv Hq) as (s1 & -> & Hinv1 & Hl). apply IH; [done|lia].
Qed.
End pass.

(** ** The whole pass *)

Section batch.
Context `{Sha256} (m : gmap ObjectId ObjectEnvelope) (blocks : list (ObjectId * BlockPayload)).
Abbreviation batch := (resolve_block_records_by_id blocks).
Definition batch_map : gmap ObjectId BlockPayload := list_to_map (reverse batch).

Lemma batch_NoDup : NoDup batch.*1.
Proof. apply resolve_records_spec. Qed.

Lemma batch_map_spec id payload : batch_map !! id = Some payload <-> (id, payload) ∈ batch.
Proof.
  unfold batch_map. rewrite <- elem_of_list_to_map; [apply elem_of_reverse|]. rewrite reverse_Permutation. apply batch_NoDup.
Qed.

Lemma batch_map_size : size batch_map = length batch.
Proof.
  rewrite <- (size_dom (D := gset ObjectId)). unfold batch_map. rewrite dom_list_to_map_L, reverse_Permutation, size_list_to_set, length_fmap; [done|]. apply batch_NoDup.
Qed.

(** The loop starts in its invariant, whatever the memo. *)
Lemma pass_starts children pending remaining memo : memo_ok (memory_reader m) memo ->
  (forall id payload, (id, payload) ∈ blocks -> holds_block m id payload) ->
  fold_left (index_step batch_map) batch (∅, ∅) = (children, pending) ->
  (forall p c, c ∈ default [] (children !! p) <-> exists payload, batch_map !! c = Some payload /\ in_batch_parent batch_map payload = Some p) /\
  (forall p, NoDup (default [] (children !! p))) /\
  pass_inv m batch_map (mkPass memo (filter (fun entry : ObjectId * bool => entry.2 = false) (btree_iter pending)).*1 remaining ∅ [] ∅ pending (size memo)).
Proof.
  intros Hm Hheld Hf. apply index_fold in Hf as (Hch & Hpend & Hval). specialize (Hval batch_NoDup).
  assert (Hready : forall x, x ∈ (filter (fun entry : ObjectId * bool => entry.2 = false) (btree_iter pending)).*1 <->
    exists payload, batch_map !! x = Some payload /\ in_batch_parent batch_map payload = None).
  { intros x. rewrite list_elem_of_fmap. split.
    - intros ([i b] & -> & [Hb Hi]%list_elem_of_filter). cbn in *. subst b. apply elem_of_btree_iter in Hi.
      assert (i ∈ batch.*1) as ([i' payload] & -> & Hin)%list_elem_of_fmap by (destruct (proj1 (Hpend i)) as [Hno|Hin]; [by exists false|by rewrite lookup_empty in Hno; destruct Hno|done]).
      exists payload. split; [by apply batch_map_spec|]. pose proof (Hval _ _ Hin) as Hv. cbn in Hi. rewrite Hv in Hi. by destruct (in_batch_parent batch_map payload).
    - intros (payload & Hx & Hp). apply batch_map_spec in Hx. exists (x, false). split; [done|]. apply list_elem_of_filter. split; [done|]. apply elem_of_btree_iter.
      by rewrite (Hval _ _ Hx), Hp. }
  split_and!.
  - intros p c. rewrite Hch, lookup_empty. cbn. rewrite list_elem_of_fmap. split.
    + intros ([i payload] & -> & [Hp Hi]%list_elem_of_filter). exists payload. split; [by apply batch_map_spec|done].
    + intros (payload & Hc%batch_map_spec & Hp). exists (c, payload). split; [done|]. by apply list_elem_of_filter.
  - intros p. rewrite Hch, lookup_empty. cbn. apply NoDup_fst_filter, batch_NoDup.
  - split; cbn [ps_memo ps_queue ps_outcomes ps_processed ps_resolved ps_pending fmap list_fmap app]; try done.
    + apply NoDup_fst_filter. unfold btree_iter. rewrite sort_by_perm. apply NoDup_fst_map_to_list.
    + intros x (payload & Hx & _)%Hready. by exists payload.
    + intros id status. rewrite lookup_empty, elem_of_nil. done.
    + intros x payload p (payload' & Hx & Hp)%Hready Hx' Hp'. congruence.
    + intros x payload Hx Hp. apply Hready. exists payload. split; [done|]. destruct (in_batch_parent batch_map payload) as [p|]; [|done]. specialize (Hp p eq_refl). set_solver.
    + intros x [payload Hx%batch_map_spec]. apply Hpend. right. apply list_elem_of_fmap. by exists (x, payload).
Qed.
End batch.

(** C22: the batch pass is total and exact.  Over blocks as the store holds them and with any sound memo,
    it gives every block of the batch exactly one outcome; a block is reported verified exactly when its
    own lineage folds with every root matching, and a block reported as not evaluated names its own
    state-derivation parent, which does not verify.  It fails only with the cycle error, and then there
    is a nonempty set of batch blocks each standing on another block of the set. *)
Theorem topological_pass_exact `{Sha256} (m : gmap ObjectId ObjectEnvelope) blocks memo :
  (forall id payload, (id, payload) ∈ blocks -> holds_block m id payload) -> memo_ok (memory_reader m) memo ->
  match verify_blocks_topological (memory_reader m) (size m) blocks memo with
  | Ok tv => NoDup (bso_block_id <$> tv_outcomes tv) /\ (forall id, id ∈ bso_block_id <$> tv_outcomes tv <-> id ∈ blocks.*1) /\
      forall o, o ∈ tv_outcomes tv -> (bso_status o = Verified <-> verifies m (bso_block_id o)) /\
        forall b, bso_status o = NotEvaluated b -> ~ verifies m b /\
          exists payload, (bso_block_id o, payload) ∈ blocks /\ state_derivation_parent payload = Some b
  | Err e => e = Integrity "format-2 Block lineage cycle at {stuck}" /\ exists stuck : gset ObjectId, stuck <> ∅ /\
      forall id, id ∈ stuck -> exists payload parent, (id, payload) ∈ blocks /\ state_derivation_parent payload = Some parent /\ parent ∈ stuck
  end.
Proof.
  intros Hheld Hm. unfold verify_blocks_topological. fold (batch_map blocks).
  destruct (resolve_records_spec blocks) as (Hnd & Hids & Hsub).
  destruct (fold_left (index_step (batch_map blocks)) (resolve_block_records_by_id blocks) (∅, ∅)) as [children pending] eqn:Hf.
  set (remaining := list_to_map _).
  destruct (pass_starts m blocks children pending remaining memo Hm Hheld Hf) as (Hch & Hchnd & Hinv).
  assert (Hholds : forall id payload, batch_map blocks !! id = Some payload -> holds_block m id payload).
  { intros id payload Hx%batch_map_spec. by apply Hheld, Hsub. }
  destruct (pass_loop_inv m (batch_map blocks) children Hholds Hch Hchnd (length (resolve_block_records_by_id blocks)) _ Hinv) as (s' & -> & Hinv' & Hq).
  { rewrite batch_map_size. cbn. lia. }
  pose proof (pi_NoDup _ _ _ Hinv') as Hn. pose proof (pi_batch _ _ _ Hinv') as Hb. pose proof (pi_ready _ _ _ Hinv') as Hr. rewrite Hq, app_nil_r in Hn, Hb, Hr.
  assert (Hout : forall x, x ∈ bso_block_id <$> ps_outcomes s' -> x ∈ blocks.*1).
  { intros x Hx. destruct (Hb x Hx) as [payload Hp%batch_map_spec]. apply Hids, list_elem_of_fmap. by exists (x, payload). }
  assert (Hstuck : forall x, x ∈ blocks.*1 -> x ∉ bso_block_id <$> ps_outcomes s' -> exists payload p, (x, payload) ∈ blocks /\
    state_derivation_parent payload = Some p /\ p ∈ blocks.*1 /\ p ∉ bso_block_id <$> ps_outcomes s').
  { intros x Hx Hno. apply Hids, list_elem_of_fmap in Hx as ([x' payload] & -> & Hx). cbn in *. destruct (in_batch_parent (batch_map blocks) payload) as [p|] eqn:Hp.
    - exists payload, p. split_and!; [by apply Hsub|by eapply in_batch_parent_derivation| |].
      + unfold in_batch_parent in Hp. destruct (state_derivation_parent payload) as [q|]; [|done]. destruct (batch_map blocks !! q) as [pq|] eqn:Hpq; [|done].
        cbn in Hp. injection Hp as ->. apply Hids, list_elem_of_fmap. exists (p, pq). split; [done|]. by apply batch_map_spec.
      + intros Hin. apply Hno. apply (Hr x' payload); [by apply batch_map_spec|]. intros q Hq'. congruence.
    - destruct Hno. apply (Hr x' payload); [by apply batch_map_spec|]. congruence. }
  assert (Hperm : length (bso_block_id <$> ps_outcomes s') = length (resolve_block_records_by_id blocks).*1 ->
    bso_block_id <$> ps_outcomes s' ≡ₚ (resolve_block_records_by_id blocks).*1).
  { intros Hl. apply submseteq_length_Permutation; [|lia]. apply NoDup_submseteq; [done|]. intros x Hx. by apply Hids, Hout. }
  rewrite (pi_processed _ _ _ Hinv'), size_list_to_set, length_fmap by done.
  destruct (Nat.eqb_spec (length (ps_outcomes s')) (length (resolve_block_records_by_id blocks))) as [Hl|Hl]; cbn [negb].
  - cbn [tv_outcomes]. split; [done|]. split.
    + intros id. split; [apply Hout|]. intros Hid%Hids. rewrite <- Hperm in Hid; [done|]. by rewrite !length_fmap.
    + intros o Ho. pose proof (pi_status _ _ _ Hinv') as Hst. rewrite Forall_forall in Hst. destruct (Hst o Ho) as [Hv Hbl]. split; [done|].
      intros b (payload & Hp%batch_map_spec & Hd & Hnv)%Hbl. split; [done|]. exists payload. split; [by apply Hsub|done].
  - assert (Hex : exists x, x ∈ blocks.*1 /\ x ∉ bso_block_id <$> ps_outcomes s').
    { destruct (decide (Forall (fun x => x ∈ bso_block_id <$> ps_outcomes s') blocks.*1)) as [Hall|Hsome];
        [rewrite Forall_forall in Hall; destruct Hl|by apply not_Forall_Exists, Exists_exists in Hsome; [|intros ?; apply decide, _]].
      rewrite <- (length_fmap bso_block_id), <- (length_fmap fst (resolve_block_records_by_id blocks)). apply Permutation_length, NoDup_Permutation; [done|done|].
      intros x. split; [intros Hx; by apply Hids, Hout|]. intros Hx%Hids. by apply Hall. }
    destruct Hex as (x & Hx & Hno). pose proof Hx as Hx'. apply Hids, list_elem_of_fmap in Hx' as ([x' payload] & -> & Hin). cbn in *.
    clear Hinv. destruct (filter _ (resolve_block_records_by_id blocks)) as [|first rest] eqn:Hfil.
    { by destruct (filter_nil_not_elem_of _ _ (x', payload) Hfil); [cbn; rewrite elem_of_list_to_set|]. }
    split; [done|].
    exists (list_to_set blocks.*1 ∖ list_to_set (bso_block_id <$> ps_outcomes s')). split; [set_solver|].
    intros id. rewrite elem_of_difference, !elem_of_list_to_set. intros [Hid Hid']. destruct (Hstuck id Hid Hid') as (pl & p & Hpl & Hp & Hpb & Hpn).
    exists pl, p. by rewrite elem_of_difference, !elem_of_list_to_set.
Qed.

(** ** A history of two format-2 blocks *)

(** The fold of [LineageThms.history]'s first patches gives the roots the blocks carry. *)
Definition v2_root (n : nat) : MerkleRoot :=
  match @apply_blocks hash_mod_p (memory_reader history) true (NodeLifecycleState_new, ∅) (history_chain n) with
  | Ok s => match @root_of_state hash_mod_p s.1 with Ok root => root | Err _ => [] end
  | Err _ => [] end.
Definition v2_payload (parents : list ObjectId) (kind : BlockKind) (patch : ObjectId) (root : MerkleRoot) : BlockPayload :=
  mkBlock parents kind [patch] root None None None.
Definition v2_first : BlockPayload := v2_payload [] KindRoot (history_id x11) (v2_root 1).
Definition v2_second (root : MerkleRoot) : BlockPayload := v2_payload [history_id x21] KindNormal (history_id x12) root.
Definition v2_envelope (payload : BlockPayload) : ObjectEnvelope :=
  match to_canonical_bytes payload with Ok bytes => unsigned Block 2 bytes | Err _ => unsigned Block 2 [] end.
Definition v2_history (root : MerkleRoot) : gmap ObjectId ObjectEnvelope :=
  <[history_id x21 := v2_envelope v2_first]> (<[history_id x22 := v2_envelope (v2_second root)]> history).
Definition v2_blocks (root : MerkleRoot) : list (ObjectId * BlockPayload) := [(history_id x22, v2_second root); (history_id x21, v2_first)].

Lemma derive_next_state_root_exact_witness :
  memo_ok (H := hash_mod_p) (memory_reader (v2_history (v2_root 2))) (@derive_next_state_root_with_memo hash_mod_p (memory_reader (v2_history (v2_root 2)))
    (size (v2_history (v2_root 2))) (Some (history_id x21)) [history_id x12] ∅).2 /\
  (@derive_next_state_root_with_memo hash_mod_p (memory_reader (v2_history (v2_root 2))) (size (v2_history (v2_root 2))) (Some (history_id x21)) [history_id x12] ∅).1
  = Ok (v2_root 2).
Proof.
  destruct (@derive_next_state_root_exact hash_mod_p (v2_history (v2_root 2)) (Some (history_id x21)) [history_id x12] ∅) as [Hm _]; [apply memo_ok_empty|].
  split; [exact Hm|]. vm_compute. reflexivity.
Defined.

Definition v2_pass (root : MerkleRoot) : PResult TopologicalVerification :=
  @verify_blocks_topological hash_mod_p (memory_reader (v2_history root)) (size (v2_history root)) (v2_blocks root) ∅.

(** With the second block's own root both verify; with another root the second fails. *)
Definition v2_statuses (root : MerkleRoot) : list BlockStateStatus :=
  match v2_pass root with Ok tv => bso_status <$> tv_outcomes tv | Err _ => [] end.

Lemma v2_held id payload : (id, payload) ∈ v2_blocks (v2_root 2) -> holds_block (v2_history (v2_root 2)) id payload.
Proof.
  assert (H1 : holds_block (v2_history (v2_root 2)) (history_id x22) (v2_second (v2_root 2))).
  { exists (v2_envelope (v2_second (v2_root 2))). split_and!; [|vm_compute; reflexivity..]. unfold v2_history.
    rewrite lookup_insert_ne by (vm_compute; discriminate). apply lookup_insert_eq. }
  assert (H2 : holds_block (v2_history (v2_root 2)) (history_id x21) v2_first).
  { exists (v2_envelope v2_first). split_and!; [|vm_compute; reflexivity..]. unfold v2_history. apply lookup_insert_eq. }
  intros [[= -> ->]|[[= -> ->]|Hn%elem_of_nil]%elem_of_cons]%elem_of_cons; [exact H1|exact H2|done].
Qed.

Lemma topological_pass_exact_witness : v2_statuses (v2_root 2) = [Verified; Verified] /\ v2_statuses (replicate 32 x00) = [Verified; Failed "{err}" Corrupt] /\
  match v2_pass (v2_root 2) with Ok tv => NoDup (bso_block_id <$> tv_outcomes tv) | Err _ => False end.
Proof.
  split; [vm_compute; reflexivity|]. split; [vm_compute; reflexivity|].
  pose proof (@topological_pass_exact hash_mod_p (v2_history (v2_root 2)) (v2_blocks (v2_root 2)) ∅ v2_held (memo_ok_empty (H := hash_mod_p) _)) as Hp.
  assert (Hok : is_ok (v2_pass (v2_root 2)) = true) by (by vm_compute). apply is_ok_inv in Hok as [tv Htv]. unfold v2_pass in *. rewrite Htv in *.
  destruct Hp as [Hnd _]. exact Hnd.
Defined.
