(* ===== verification/AnchorState.v ===== *)
(** * States from snapshots (crates/prikk-store/src/verified_blocks.rs, anchor_trust.rs, trust.rs, block_state/anchored_parent.rs, block_state.rs)

    The record of replay-verified blocks, the function that decides whether a block's snapshot may be
    trusted as an anchor, and the derivation of a block's state from the nearest such anchor instead of
    from genesis.  Ed25519 verification is the parameter [verify_ed25519]; the maintainer policy, which
    lives in the trust files, is an argument. *)

From S2P Require Import Prelude PrikkError Hash ObjectId Signature Envelope Blob Block RepoPath Lifecycle Patch PatchDecode.
From S2P Require Import ObjectStore FileSystem RecoveryLog StateRoot LifecycleReplay BlockState.

(** ** The replay-verified record (verified_blocks.rs) *)

Definition RECORD_MAGIC : list byte := bytes_of_string "PRIKK-REPLAY-VERIFIED-BLOCKS-v1" ++ [x00].
Definition RECORD_SCHEMA_VERSION : Z := 1.
Definition REPLAY_SEMANTICS_VERSION : list byte := CARGO_PKG_VERSION.
Definition record_path : string := "cache/replay-verified-blocks.v1".

Section record.
Context `{Sha256}.

(** [u16::try_from(n).unwrap_or(u16::MAX)] and its [u32] twin. *)
Definition saturate (bits n : Z) : Z := if n <? 2 ^ bits then n else 2 ^ bits - 1.

Definition record_body (ids : list ObjectId) : list byte :=
  to_be_bytes 4 RECORD_SCHEMA_VERSION ++ to_be_bytes 2 (saturate 16 (zlen REPLAY_SEMANTICS_VERSION)) ++ REPLAY_SEMANTICS_VERSION ++
  to_be_bytes 4 (saturate 32 (zlen ids)) ++ concat ids.

(** The ids are written in set order. *)
Definition set_iter (set : gset ObjectId) : list ObjectId := sort_by bytes_cmp (elements set).

Definition record_encode (set : gset ObjectId) : list byte :=
  let body := record_body (set_iter set) in
  RECORD_MAGIC ++ sha256 body ++ body.

(** [split_at_checked]. *)
Definition split_at_checked (bytes : list byte) (mid : Z) : option (list byte * list byte) :=
  if zlen bytes <? mid then None else Some (take (Z.to_nat mid) bytes, drop (Z.to_nat mid) bytes).

(** [chunks_exact(32)] of a slice whose length is a multiple of 32. *)
Fixpoint chunks_32 (count : nat) (bytes : list byte) : list ObjectId :=
  match count with O => [] | S count' => take 32 bytes :: chunks_32 count' (drop 32 bytes) end.

Definition record_decode (bytes : list byte) : option (gset ObjectId) :=
  after_magic ← strip_prefix RECORD_MAGIC bytes;
  '(checksum, body) ← split_at_checked after_magic 32;
  if negb (bool_decide (sha256 body = checksum)) then None
  else
    '(schema, rest) ← split_at_checked body 4;
    if negb (from_be_bytes schema =? RECORD_SCHEMA_VERSION) then None
    else
      '(version_len, rest) ← split_at_checked rest 2;
      '(version, rest) ← split_at_checked rest (from_be_bytes version_len);
      if negb (bool_decide (version = REPLAY_SEMANTICS_VERSION)) then None
      else
        '(count, rest) ← split_at_checked rest 4;
        if negb (zlen rest =? from_be_bytes count * 32) then None
        else Some (list_to_set (chunks_32 (Z.to_nat (from_be_bytes count)) rest)).

Definition load_verified_blocks (d : Disk) : gset ObjectId :=
  default ∅ (bytes ← d !! record_path; record_decode bytes).

Definition record_verified_blocks (ids : list ObjectId) (d : Disk) : Disk :=
  let set := load_verified_blocks d in
  let set' := list_to_set ids ∪ set in
  if (size set' =? size set)%nat then d else <[record_path := record_encode set']> d.
End record.

(** ** Publication trust (trust.rs) *)

Record AdoptedMaintainerKey : Type := mkAdoptedKey { amk_key_id : list byte; amk_public_key : list byte }.
Abbreviation MaintainerTrustPolicy := (list AdoptedMaintainerKey).

Definition policy_find (policy : MaintainerTrustPolicy) (id : list byte) : option AdoptedMaintainerKey :=
  head (filter (fun key => amk_key_id key = id) policy).

Record PublicationTrustIssue : Type := mkTrustIssue { pti_code : string; pti_message : string }.

Class Ed25519Verify : Type := verify_ed25519 : list byte -> list byte -> list byte -> PResult unit.

Section trust.
Context `{Sha256} `{Ed25519Verify}.

Definition verify_trusted_signature (policy : MaintainerTrustPolicy) (envelope : ObjectEnvelope) (signature : Signature) (object_id : ObjectId)
  : PResult unit :=
  if negb (bool_decide (algorithm signature = Ed25519)) then Err (InvalidSignature "publication signature is not Ed25519")
  else if negb (bool_decide (signer_role signature = Maintainer)) then Err (InvalidSignature "publication signature role is not MAINTAINER")
  else
    let? matched := ok_or (policy_find policy (key_id signature)) (InvalidSignature "publication signature key id is not trusted") in
    let? preimage := signed_bytes Ed25519 (object_type envelope) object_id Maintainer (key_id signature) in
    verify_ed25519 (amk_public_key matched) preimage (signature_bytes signature).

(** The loop over the MAINTAINER signatures by adopted keys. *)
Fixpoint trusted_loop (policy : MaintainerTrustPolicy) (envelope : ObjectEnvelope) (signatures : list Signature) (trusted : option (list byte))
  : Result PublicationTrustIssue (option (list byte)) :=
  match signatures with
  | [] => Ok trusted
  | signature :: rest =>
      if negb (is_some (policy_find policy (key_id signature))) then trusted_loop policy envelope rest trusted
      else
        match verify_trusted_signature policy envelope signature (object_id envelope) with
        | Ok _ => trusted_loop policy envelope rest (match trusted with None => Some (key_id signature) | Some k => Some k end)
        | Err _ => Err (mkTrustIssue "PRIKK-TRUST-PUBLICATION-INVALID-SIGNATURE" "{} {} carries a MAINTAINER signature by adopted key {} that does not verify: {err}")
        end
  end.

Definition verify_trusted_publication_envelope (policy : MaintainerTrustPolicy) (envelope : ObjectEnvelope)
  : Result PublicationTrustIssue (list byte) :=
  let? trusted := trusted_loop policy envelope (filter (fun s => signer_role s = Maintainer) (signatures envelope)) None in
  ok_or trusted (mkTrustIssue "PRIKK-TRUST-PUBLICATION-UNTRUSTED" "{} {} has no trusted MAINTAINER signature").

(** ** The anchor-trust function (anchor_trust.rs) *)

Definition CHECKPOINT_CADENCE : nat := 64.
Definition MAX_ANCHOR_DISTANCE : nat := CHECKPOINT_CADENCE - 1.
Definition INVALID_SIGNATURE : string := "PRIKK-TRUST-PUBLICATION-INVALID-SIGNATURE".

Inductive NotUsableReason : Type := TooFar | NotRecorded | SignerNotAdopted | OtherNotUsable.

Inductive Admission : Type :=
| Usable (manifest : list StateRootEntry)
| NotUsable (reason : NotUsableReason)
| Signal (finding : string).

Record AnchorTrust : Type := mkAnchorTrust { at_verified : gset ObjectId; at_policy : MaintainerTrustPolicy }.

Definition AnchorTrust_load (policy : MaintainerTrustPolicy) (d : Disk) : AnchorTrust := mkAnchorTrust (load_verified_blocks d) policy.

Definition has_record (trust : AnchorTrust) : bool := negb (bool_decide (at_verified trust = ∅)).

Definition AnchorTrust_admit (trust : AnchorTrust) (R : ObjectReader) (block_id : ObjectId) (distance : nat) : Admission :=
  if (MAX_ANCHOR_DISTANCE <? distance)%nat then NotUsable TooFar
  else if negb (bool_decide (block_id ∈ at_verified trust)) then NotUsable NotRecorded
  else
    match @read_object R block_id with
    | Ok (Some envelope) =>
        if negb (bool_decide (object_type envelope = Block)) then NotUsable OtherNotUsable
        else
          match verify_trusted_publication_envelope (at_policy trust) envelope with
          | Err issue => if bool_decide (pti_code issue = INVALID_SIGNATURE) then Signal (pti_message issue) else NotUsable SignerNotAdopted
          | Ok _ =>
              match BlockPayload_decode (canonical_payload envelope) with
              | Err _ => Signal "Block {block_id} does not decode"
              | Ok payload =>
                  match validate_snapshot_manifest R payload with
                  | Ok (Some manifest) => Usable manifest
                  | Ok None => NotUsable OtherNotUsable
                  | Err _ => Signal "{err}"
                  end
              end
          end
    | _ => NotUsable OtherNotUsable
    end.
End trust.

(** ** The anchored derivation (block_state/anchored_parent.rs) *)

Record AnchoredParent : Type := mkAnchored {
  ap_state : NodeLifecycleState;
  ap_text_cache : gmap NodeId (list byte);
  ap_folded : list ObjectId;
  ap_id_only_blocks : nat;
}.

(** What an anchored derivation answers: a state, or the full walk, with the finding it names if any. *)
Inductive AnchorAnswer : Type :=
| Anchored (found : AnchoredParent)
| FullWalk (finding : option (ObjectId * string)).

Section anchored.
Context `{Sha256} `{Ed25519Verify} (R : ObjectReader).

Definition read_checked_block (block_id : ObjectId) : option BlockPayload :=
  match @read_object R block_id with
  | Ok (Some envelope) =>
      if negb (bool_decide (object_type envelope = Block)) || negb (schema_version envelope =? 2) then None
      else
        match BlockPayload_decode (canonical_payload envelope) with
        | Ok payload => if is_ok (validate_block_v2_shape payload) then Some payload else None
        | Err _ => None
        end
  | _ => None
  end.

(** What the search for an anchor ends with: the anchor, its manifest, the blocks after it (newest
    first) and the blocks visited; or the answer. *)
Abbreviation Search := (BlockPayload * list StateRootEntry * list (ObjectId * BlockPayload) * gset ObjectId)%type.

(** The first loop; [left] is how many more blocks the distance allows. *)
Fixpoint search_anchor (trust : AnchorTrust) (left : nat) (after_anchor : list (ObjectId * BlockPayload)) (visited : gset ObjectId)
    (current : ObjectId) : Search + option (ObjectId * string) :=
  if bool_decide (current ∈ visited) then inr None
  else
    let visited := {[current]} ∪ visited in
    match read_checked_block current with
    | None => inr None
    | Some payload =>
        let further :=
          match left with
          | O => inr None
          | S left' =>
              match state_derivation_parent payload with
              | None => inr None
              | Some next => search_anchor trust left' (after_anchor ++ [(current, payload)]) visited next
              end
          end in
        if is_some (snapshot_blob_ref payload) then
          match AnchorTrust_admit trust R current (length after_anchor) with
          | Usable manifest => inl (payload, manifest, after_anchor, visited)
          | Signal finding => inr (Some (current, finding))
          | NotUsable _ => further
          end
        else further
    end.

(** The second loop: the blocks below the anchor, newest first. *)
Fixpoint walk_below (fuel : nat) (visited : gset ObjectId) (below : list BlockPayload) (cursor : option ObjectId) : option (list BlockPayload) :=
  match cursor with
  | None => Some below
  | Some block_id =>
      match fuel with
      | O => None
      | S fuel' =>
          if bool_decide (block_id ∈ visited) then None
          else
            payload ← read_checked_block block_id;
            walk_below fuel' ({[block_id]} ∪ visited) (below ++ [payload]) (state_derivation_parent payload)
      end
  end.

Definition entry_node (entry : StateRootEntry) : LiveNode :=
  mkLive (re_path entry) (re_kind entry)
    match re_content entry with
    | RootBlob blob_id => FileContent blob_id (re_mode entry)
    | RootSymlink target => SymlinkContent target
    end.

Fixpoint seed_entries (state : NodeLifecycleState) (entries : list StateRootEntry) : option NodeLifecycleState :=
  match entries with
  | [] => Some state
  | entry :: rest =>
      match seed_live_node state (re_node_id entry) (entry_node entry) with
      | (Ok _, state) => seed_entries state rest
      | (Err _, _) => None
      end
  end.

Fixpoint seed_tombstones (state : NodeLifecycleState) (tombstones : list (NodeId * Tombstone)) : option NodeLifecycleState :=
  match tombstones with
  | [] => Some state
  | (node_id, tombstone) :: rest =>
      if is_some (live_node state node_id) then seed_tombstones state rest
      else
        match seed_tombstone state node_id tombstone with
        | (Ok _, state) => seed_tombstones state rest
        | (Err _, _) => None
        end
  end.

(** The last loop: the blocks after the anchor, oldest first, each root checked. *)
Fixpoint fold_after (s : LState) (blocks : list (ObjectId * BlockPayload)) : option LState :=
  match blocks with
  | [] => Some s
  | (block_id, payload) :: rest =>
      match fold_checked_block R s payload OutOfFuel with
      | Ok s => fold_after s rest
      | Err _ => None
      end
  end.

Definition continue_from_anchor (fuel : nat) (found : Search) : option AnchoredParent :=
  let '(anchor, manifest, after_anchor, visited) := found in
  let after_anchor := reverse after_anchor in
  below ← walk_below fuel visited [anchor] (state_derivation_parent anchor);
  tombstones ← match id_only_tombstones R (reverse below) with Ok t => Some t | Err _ => None end;
  state ← seed_entries NodeLifecycleState_new manifest;
  state ← seed_tombstones state (btree_iter tombstones);
  '(state, text_cache) ← fold_after (state, ∅) after_anchor;
  Some (mkAnchored state text_cache after_anchor.*1 (length below)).

Definition anchored_parent_state (trust : AnchorTrust) (fuel : nat) (parent : ObjectId) : AnchorAnswer :=
  if negb (has_record trust) then FullWalk None
  else
    match search_anchor trust MAX_ANCHOR_DISTANCE [] ∅ parent with
    | inr finding => FullWalk finding
    | inl found =>
        match continue_from_anchor fuel found with
        | Some anchored => Anchored anchored
        | None => FullWalk None
        end
    end.

(** ** Deriving a candidate (block_state.rs) *)

Inductive CandidateStateDerivationError : Type :=
| LineageFailed (error : PrikkError)
| PatchFailed (error : LifecycleReplayError).

Record CandidateDerivation : Type := mkCandidate {
  cd_entries : list StateRootEntry;
  cd_text_cache : gmap NodeId (list byte);
  cd_verified : list ObjectId;
  cd_state : NodeLifecycleState;
  cd_anchored : bool;
  cd_folded : nat;
  cd_id_only_blocks : nat;
}.

(** The state the candidate continues from, the blocks verified on the way, and how it was found. *)
Definition candidate_parent (trust : option AnchorTrust) (fuel : nat) (parent : option ObjectId)
  : Result CandidateStateDerivationError (LState * list ObjectId * option (nat * nat)) :=
  let anchored :=
    match trust, parent with
    | Some trust, Some parent_id => anchored_parent_state trust fuel parent_id
    | _, _ => FullWalk None
    end in
  match anchored with
  | Anchored found => Ok ((ap_state found, ap_text_cache found), ap_folded found, Some (length (ap_folded found), ap_id_only_blocks found))
  | FullWalk _ =>
      match resolved_parent_state R fuel parent ∅ with
      | (Err e, _) => Err (LineageFailed e)
      | (Ok s, memo) => Ok (s, (btree_iter memo).*1, None)
      end
  end.

Definition derive_candidate (trust : option AnchorTrust) (fuel : nat) (parent : option ObjectId) (patch_ids : list ObjectId)
  : Result CandidateStateDerivationError CandidateDerivation :=
  let? '(s, verified, how) := candidate_parent trust fuel parent in
  let? s := map_err PatchFailed (apply_candidate_patches R s patch_ids) in
  let? entries := map_err LineageFailed (entries_from_state s.1) in
  Ok (mkCandidate entries s.2 verified s.1 (is_some how) (default 0%nat (fst <$> how)) (default 0%nat (snd <$> how))).

(** [left] more blocks without a snapshot make a checkpoint due. *)
Fixpoint checkpoint_due_loop (left : nat) (current : option ObjectId) : PResult bool :=
  match current with
  | None => Ok true
  | Some block_id =>
      match left with
      | O => Ok true
      | S left' =>
          let? found := @read_typed R block_id Block in
          let? envelope := ok_or found (Integrity "checkpoint cadence: ancestor Block {block_id} is missing") in
          let? payload := BlockPayload_decode (canonical_payload envelope) in
          if is_some (snapshot_blob_ref payload) then Ok false
          else checkpoint_due_loop left' (state_derivation_parent payload)
      end
  end.

Definition checkpoint_due (parent : option ObjectId) : PResult bool := checkpoint_due_loop (CHECKPOINT_CADENCE - 1) parent.
End anchored.
