(* ===== verification/AnchoredThms.v ===== *)
(** * The anchored derivation agrees with the full walk

    Starting from a trusted snapshot with an empty text cache gives the state the whole lineage folds
    to: the live nodes because the state root identifies them, the history fields because the id-only
    walk computes them, the blocks after the anchor because an empty cache only reads from the store
    what a full cache holds. *)

From S2P Require Import Prelude PrikkError Hash ObjectId Signature Envelope Blob Block RepoPath Lifecycle LifecycleInv Patch PatchDecode.
From S2P Require Import TextSpan ObjectStore StateRoot StateRootThms LifecycleReplay LineageThms BlockState BlockStateThms AnchorState Canonical Payload.
From S2P Require Import FileSystem RecoveryLog.


(** ** Folding with a smaller cache *)

(** [s] has the state of [f] and only some of its cached texts. *)
Definition behind (s f : LState) : Prop := s.1 = f.1 /\ s.2 ⊆ f.2.

(** A cached text of [s] differs from the blob stored under the identity of its node. *)
Definition text_shadowed (B : BlobResolver) (s : LState) : Prop := exists id text n blob mode stored,
  s.2 !! id = Some text /\ live_by_id s.1 !! id = Some n /\ ln_content n = FileContent blob mode /\
  resolver_blob_content blob = Ok (Some (BlobText, stored)) /\ stored <> text.

Section sim.
Context `{Sha256} (B : BlobResolver).

(** The states one patch's operations pass through. *)
Inductive visits : LState -> list DecodedPatchOperation -> LState -> Prop :=
| visit_here s ops : visits s ops s
| visit_effect s op rest s1 f : apply_state_effect B s (d_kind op) = (Ok tt, s1) -> visits s1 rest f -> visits s (op :: rest) f
| visit_run s members renames rest s1 f : rename_members members renames -> apply_rename_run s renames = (Ok tt, s1) ->
    visits s1 rest f -> visits s (members ++ rest) f.

Lemma behind_insert (st : NodeLifecycleState) (tc fc : gmap NodeId (list byte)) (id : NodeId) (text : list byte) : tc ⊆ fc -> behind (st, <[id := text]> tc) (st, <[id := text]> fc).
Proof. intros Hs. split; [done|]. cbn. by apply insert_mono. Qed.

Lemma materialize_sim (st : NodeLifecycleState) (tc fc : gmap NodeId (list byte)) (id : NodeId) n blob mode text : tc ⊆ fc -> live_by_id st !! id = Some n -> ln_content n = FileContent blob mode ->
  materialize_current B tc id blob = Ok text -> materialize_current B fc id blob = Ok text \/ text_shadowed B (st, fc).
Proof.
  intros Hs Hn Hc. unfold materialize_current. destruct (tc !! id) as [t|] eqn:Ht.
  - rewrite (lookup_weaken _ _ _ _ Ht Hs). by left.
  - destruct (fc !! id) as [t|] eqn:Hf; [|by left]. unfold map_err. destruct (resolver_blob_content blob) as [[[kind bytes]|]|] eqn:Hb; [|done|done]. cbn.
    case_bool_decide as Hk; [|done]. cbn. intros [= <-]. subst kind. destruct (decide (bytes = t)) as [->|Hne]; [by left|right].
    by exists id, t, n, blob, mode, bytes.
Qed.

Lemma edited_sim (st : NodeLifecycleState) (tc fc : gmap NodeId (list byte)) (id : NodeId) span oh lh rh rep ot ll rl r : tc ⊆ fc -> edited_text B (st, tc) id span oh lh rh rep ot ll rl = Ok r ->
  edited_text B (st, fc) id span oh lh rh rep ot ll rl = Ok r \/ text_shadowed B (st, fc).
Proof.
  intros Hs. unfold edited_text, live_node. case_bool_decide; cbn [negb]; [|done]. destruct (live_by_id st !! id) as [n|] eqn:Hn; cbn [ok_or]; [|done].
  case_bool_decide; cbn [negb]; [|done]. destruct (ln_content n) as [b m|] eqn:Hc; [|done].
  destruct (materialize_current B tc id b) as [text|] eqn:Hm; [|done]. intros He.
  destruct (materialize_sim st tc fc id n b m text Hs Hn Hc Hm) as [->|]; [by left|by right].
Qed.

Lemma effect_sim s f kind s1 : behind s f -> apply_state_effect B s kind = (Ok tt, s1) ->
  (exists f1, apply_state_effect B f kind = (Ok tt, f1) /\ behind s1 f1) \/ text_shadowed B f.
Proof.
  destruct s as [st tc], f as [st' fc]. intros [Heq Hs]. cbn in Heq, Hs. subst st'.
  assert (Hon : forall A (mu : Mut A) s1, on_state mu tc = (Ok tt, s1) -> exists f1, on_state mu fc = (Ok tt, f1) /\ behind s1 f1).
  { intros A [[a|e] st1] s2; unfold on_state; cbn; [|done]. intros [= <-]. by exists (st1, fc). }
  destruct kind as [path id b m|path id pre|id span oh lh rh rep ot ll rl|id o w|id o w|id o w|path id t]; cbn [apply_state_effect].
  - destruct (created_file_node B path b m); cbn [with_value]; [|done]. intros Hx. left. by eapply Hon.
  - destruct (expected_deleted_node path pre) as [n|]; cbn [with_value]; [|done]. destruct (delete_node_checked st id n) as [[a|e] st1]; unfold on_state; cbn; [|done].
    intros [= <-]. left. eexists. split; [done|]. split; [done|]. cbn. by apply delete_mono.
  - unfold effect_edit_text. destruct (edited_text B (st, tc) id span oh lh rh rep ot ll rl) as [[text blob]|] eqn:He; cbn [with_value]; [|done].
    destruct (edited_sim st tc fc id span oh lh rh rep ot ll rl _ Hs He) as [->|Hsh]; [|by right]. cbn [with_value].
    unfold on_state. cbn [fst snd]. destruct (set_text_blob st id blob) as [[a|e] st1]; cbn; [|by intros [= ?]].
    intros [= <-]. left. eexists. split; [done|]. by apply behind_insert.
  - destruct (let? _ := require_binary_blob B o in require_binary_blob B w); cbn [with_value]; [|done]. intros Hx. left. by eapply Hon.
  - by intros [= ?].
  - intros Hx. left. by eapply Hon.
  - destruct (effect_parse_repo_path path); cbn [with_value]; [|done]. intros Hx. left. by eapply Hon.
Qed.

Lemma rename_run_sim_cache s f renames s1 : behind s f -> apply_rename_run s renames = (Ok tt, s1) ->
  exists f1, apply_rename_run f renames = (Ok tt, f1) /\ behind s1 f1.
Proof.
  destruct s as [st tc], f as [st' fc]. intros [Heq Hs]. cbn in Heq, Hs. subst st'. unfold apply_rename_run. cbn.
  destruct (rename_nodes_checked_batch st renames) as [[a|e] st1]; unfold on_state; cbn; [|done]. intros [= <-]. by eexists.
Qed.

(** Rounds beyond what the operations need change nothing, so the run can be followed step by step. *)
Lemma operations_sim fuel : forall s f ops s', behind s f -> apply_operations B fuel s ops = Ok s' ->
  (exists f', apply_operations B fuel f ops = Ok f' /\ behind s' f') \/ exists f0, visits f ops f0 /\ text_shadowed B f0.
Proof.
  induction fuel as [|fuel IH]; intros s f [|op rest] s' Hb; cbn [apply_operations]; try (intros [= <-]; left; by exists f).
  assert (Hsingle : match apply_state_effect B s (d_kind op) with
      | (Ok _, s1) => apply_operations B fuel s1 rest | (Err e, _) => Err e end = Ok s' ->
      (exists f', match apply_state_effect B f (d_kind op) with
        | (Ok _, s1) => apply_operations B fuel s1 rest | (Err e, _) => Err e end = Ok f' /\ behind s' f') \/ exists f0, visits f (op :: rest) f0 /\ text_shadowed B f0).
  { destruct (apply_state_effect B s (d_kind op)) as [[[]|] s1] eqn:He; [|done]. intros Hr.
    destruct (effect_sim s f (d_kind op) s1 Hb He) as [(f1 & Hf1 & Hb1)|Hsh]; [|right; exists f; split; [apply visit_here|done]]. rewrite Hf1.
    destruct (IH s1 f1 rest s' Hb1 Hr) as [Hok|(f0 & Hv & Hsh)]; [by left|right; exists f0; split; [by eapply visit_effect|done]]. }
  destruct (d_kind op) eqn:Hk; try exact Hsingle. clear Hsingle.
  destruct (effect_rename_triple _) as [t|] eqn:Ht; [|done]. destruct (collect_rename_run rest) as [[run left_over]|] eqn:Hc; [|done].
  destruct (apply_rename_run s (t :: run)) as [[[]|] s1] eqn:Hr; [|done]. intros Ha.
  destruct (rename_run_sim_cache s f _ s1 Hb Hr) as (f1 & Hf1 & Hb1). rewrite Hf1. apply collect_run_split in Hc as (members & -> & Hm).
  destruct (IH s1 f1 left_over s' Hb1 Ha) as [Hok|(f0 & Hv & Hsh)]; [by left|right; exists f0; split; [|done]].
  apply (visit_run f (op :: members) (t :: run) left_over f1); [constructor; [by rewrite Hk|done]|done|done].
Qed.
End sim.

(** The states a sequence of patches passes through. *)
Inductive visits_patches `{Sha256} (B : BlobResolver) (R : ObjectReader) (schema : bool) : LState -> list ObjectId -> LState -> Prop :=
| vp_in s id ids ops f : read_patch_operations R id schema = Ok ops -> visits B s ops f -> visits_patches B R schema s (id :: ids) f
| vp_next s id ids ops s1 f : read_patch_operations R id schema = Ok ops -> apply_operations B (length ops) s ops = Ok s1 ->
    visits_patches B R schema s1 ids f -> visits_patches B R schema s (id :: ids) f.

Lemma patches_sim `{Sha256} B R schema : forall ids s f s', behind s f -> apply_patch_ids B R schema s ids = Ok s' ->
  (exists f', apply_patch_ids B R schema f ids = Ok f' /\ behind s' f') \/ exists f0, visits_patches B R schema f ids f0 /\ text_shadowed B f0.
Proof.
  induction ids as [|id ids IH]; intros s f s' Hb; cbn [apply_patch_ids]; [intros [= <-]; left; by exists f|].
  destruct (read_patch_operations R id schema) as [ops|] eqn:Hr; [|done]. destruct (apply_operations B (length ops) s ops) as [s1|] eqn:Ha; [|done]. intros Hs.
  destruct (operations_sim B _ s f ops s1 Hb Ha) as [(f1 & Hf1 & Hb1)|(f0 & Hv & Hsh)]; [|right; exists f0; split; [by eapply vp_in|done]]. rewrite Hf1.
  destruct (IH s1 f1 s' Hb1 Hs) as [Hok|(f0 & Hv & Hsh)]; [by left|right; exists f0; split; [by eapply vp_next|done]].
Qed.

Lemma visits_patches_app `{Sha256} B R schema l1 : forall l2 s s1 f, apply_patch_ids B R schema s l1 = Ok s1 -> visits_patches B R schema s1 l2 f ->
  visits_patches B R schema s (l1 ++ l2) f.
Proof.
  induction l1 as [|id l1 IH]; intros l2 s s1 f; cbn [apply_patch_ids app]; [by intros [= <-]|].
  destruct (read_patch_operations R id schema) as [ops|] eqn:Hr; [|done]. destruct (apply_operations B (length ops) s ops) as [s2|] eqn:Ha; [|done]. intros Hs Hv.
  eapply vp_next; [done|done|]. by eapply IH.
Qed.

Lemma visits_patches_prefix `{Sha256} B R schema s l1 l2 f : visits_patches B R schema s l1 f -> visits_patches B R schema s (l1 ++ l2) f.
Proof. induction 1; cbn; [by eapply vp_in|by eapply vp_next]. Qed.

(** ** Seeding a state from its entries and tombstones *)

Lemma entry_node_of_node id n : re_node_id (entry_of_node (id, n)) = id /\ entry_node (entry_of_node (id, n)) = n.
Proof. unfold entry_of_node, entry_node. destruct n as [p k [b m|t]]; done. Qed.

(** A state as seeding builds it: consistent, without tombstones, nothing seen but live nodes. *)
Record seeded (s : NodeLifecycleState) : Prop := {
  sd_ok : lifecycle_ok s;
  sd_tombstones : latest_tombstone_by_id s = ∅;
  sd_seen : seen_ids s = dom (live_by_id s);
}.

Lemma seed_live_spec s id n s' : seeded s -> seed_live_node s id n = (Ok tt, s') -> seeded s' /\ live_by_id s' = <[id := n]> (live_by_id s).
Proof.
  intros [Hok Ht Hseen]. unfold seed_live_node. destruct (ensure_node_id_nonzero id); [|done]. destruct (validate_kind_content_shape _ _); [|done].
  destruct (live_by_id s !! id) eqn:Hl; cbn [is_some]; [done|]. destruct (path_to_id s !! ln_path n) eqn:Hp; cbn [is_some]; [done|]. intros [= <-]. split; [|done].
  split; cbn; [|done|by rewrite dom_insert_L, Hseen]. apply ok_create; [done..|]. intros i. rewrite Ht, lookup_empty. by case_decide.
Qed.

Lemma seed_entries_spec es : forall s s', seeded s -> seed_entries s es = Some s' -> seeded s' /\
  forall id n, live_by_id s' !! id = Some n <-> live_by_id s !! id = Some n \/ exists e, e ∈ es /\ re_node_id e = id /\ entry_node e = n.
Proof.
  induction es as [|e es IH]; intros s s' Hs; cbn [seed_entries].
  { intros [= <-]. split; [done|]. intros id n. split; [by left|]. intros [?|(e & ?%elem_of_nil & _)]; done. }
  destruct (seed_live_node s (re_node_id e) (entry_node e)) as [[[]|] s1] eqn:Hl; [|done]. intros Hr.
  assert (Hfresh : live_by_id s !! re_node_id e = None).
  { unfold seed_live_node in Hl. destruct (ensure_node_id_nonzero _); [|done]. destruct (validate_kind_content_shape _ _); [|done]. by destruct (live_by_id s !! re_node_id e). }
  apply seed_live_spec in Hl as [Hs1 Hlive]; [|done]. destruct (IH s1 s' Hs1 Hr) as [Hs' Hiff]. split; [done|]. intros id n. rewrite Hiff, Hlive, lookup_insert_Some.
  split.
  - intros [[[<- <-]|[_ Hi]]|(e' & He & Hrest)]; [right; exists e; by split; [left|]|by left|right; exists e'; by split; [right|]].
  - intros [Hi|(e' & [->|He]%elem_of_cons & <- & <-)]; [left; right; split; [congruence|done]|left; by left|right; by exists e'].
Qed.

Lemma seed_tombstones_spec ts : forall s s', lifecycle_ok s -> NoDup ts.*1 -> (forall id t, (id, t) ∈ ts -> live_by_id s !! id = None) ->
  seed_tombstones s ts = Some s' -> lifecycle_ok s' /\ live_by_id s' = live_by_id s /\
  latest_tombstone_by_id s' = list_to_map ts ∪ latest_tombstone_by_id s /\ seen_ids s' = list_to_set ts.*1 ∪ seen_ids s.
Proof.
  induction ts as [|[id t] ts IH]; intros s s' Hok Hnd Hd; cbn [seed_tombstones].
  { intros [= <-]. split_and!; [done|done|by rewrite list_to_map_nil, (left_id_L ∅ (∪))|cbn; set_solver]. }
  rewrite fmap_cons in Hnd. apply NoDup_cons in Hnd as [Hni Hnd]. cbn in Hni.
  assert (Hid : live_by_id s !! id = None) by (apply (Hd id t); by left). unfold live_node at 1. rewrite Hid. cbn [is_some].
  destruct (seed_tombstone s id t) as [[[]|] s1] eqn:Hs; [|done]. intros Hr.
  pose proof (seed_tombstone_ok s id t _ s1 Hok Hs) as Hok1. unfold seed_tombstone in Hs. destruct (ensure_node_id_nonzero id); [|done].
  destruct (validate_kind_content_shape _ _); [|done]. rewrite Hid in Hs. cbn [is_some] in Hs. injection Hs as <-.
  destruct (IH _ s' Hok1 Hnd) with (2 := Hr) as (Hok' & -> & -> & ->); [intros i u Hi; apply (Hd i u); by right|]. cbn. split_and!; [done|done| |set_solver].
  rewrite <- insert_union_r by (by apply not_elem_of_list_to_map_1). by rewrite insert_union_l.
Qed.

Lemma lifecycle_eq s1 s2 : lifecycle_ok s1 -> lifecycle_ok s2 -> live_by_id s1 = live_by_id s2 ->
  latest_tombstone_by_id s1 = latest_tombstone_by_id s2 -> seen_ids s1 = seen_ids s2 -> s1 = s2.
Proof.
  intros O1 O2 Hl Ht Hs. destruct s1 as [l1 p1 t1 n1], s2 as [l2 p2 t2 n2]. cbn in *. subst. f_equal. apply map_eq. intros p. apply option_eq. intros id.
  pose proof (ok_index _ O1 p id) as H1. pose proof (ok_index _ O2 p id) as H2. cbn in H1, H2. by rewrite H1, H2.
Qed.

Lemma seeded_new : seeded NodeLifecycleState_new.
Proof. split; [apply ok_new|done|cbn; set_solver]. Qed.

(** Seeding the entries and the tombstones of a replayed state gives that state. *)
Lemma seeding_exact s es s1 s2 : replayed s -> entries_from_state s = Ok es -> seed_entries NodeLifecycleState_new es = Some s1 ->
  seed_tombstones s1 (btree_iter (latest_tombstone_by_id s)) = Some s2 -> s2 = s.
Proof.
  intros [Hok _ _ Hseen] He Hs1 Hs2. apply seed_entries_spec in Hs1 as [[Hok1 Ht1 Hseen1] Hiff]; [|apply seeded_new].
  assert (Hlive : live_by_id s1 = live_by_id s).
  { apply map_eq. intros id. apply option_eq. intros n. rewrite Hiff. cbn. rewrite lookup_empty. split.
    - intros [|(e & Hin & <- & <-)]; [done|]. pose proof He as [Hp _]%entries_from_state_perm. rewrite Hp in Hin. apply list_elem_of_fmap in Hin as ([i m] & -> & Hin).
      destruct (entry_node_of_node i m) as [-> ->]. by apply elem_of_btree_iter in Hin.
    - intros Hl. right. exists (entry_of_node (id, n)). split; [by apply (elem_of_entries s es id n He)|apply entry_node_of_node]. }
  apply seed_tombstones_spec in Hs2 as (Hok2 & Hl2 & Ht2 & Hseen2); [|done|apply NoDup_btree_keys|].
  - apply lifecycle_eq; [done|done|congruence| |].
    + rewrite Ht2, Ht1, (right_id_L ∅ (∪)). apply list_to_map_btree_iter.
    + rewrite Hseen2, Hseen1, Hlive, Hseen, (comm_L (∪)). f_equal. apply set_eq. intros x. rewrite elem_of_list_to_set, elem_of_dom, list_elem_of_fmap. split.
      * intros ([i t] & -> & Hi). exists t. by apply elem_of_btree_iter in Hi.
      * intros [t Hx]. exists (x, t). split; [done|]. by apply elem_of_btree_iter.
  - intros id t Hi. apply elem_of_btree_iter in Hi. rewrite Hlive. apply (ok_disjoint s Hok). by exists t.
Qed.

(** * Candidates from an anchor

    What [anchored_parent_state] finds is the state of the parent's verified lineage, so a candidate
    derived from an anchor has the state and the entries the full walk gives it. *)


Section below.
Context `{Sha256} `{Ed25519Verify} (R : ObjectReader).

Lemma read_checked_v2 id payload : read_checked_block R id = Some payload <-> read_v2_block R id = Ok payload.
Proof.
  unfold read_checked_block, read_v2_block. destruct (@read_object R id) as [[envelope|]|]; cbn [ok_or]; [|done|done].
  destruct (bool_decide (object_type envelope = Block)); cbn [negb orb]; [|done]. destruct (schema_version envelope =? 2); cbn [negb]; [|done].
  destruct (BlockPayload_decode _) as [p|]; [|done]. destruct (validate_block_v2_shape p) as [[]|]; cbn [is_ok]; [|done]. split; congruence.
Qed.

(** The payloads of a lineage, newest first. *)
Inductive down : option ObjectId -> list BlockPayload -> Prop :=
| down_end : down None []
| down_step id payload l : read_v2_block R id = Ok payload -> down (state_derivation_parent payload) l -> down (Some id) (payload :: l).

Lemma walk_below_down fuel : forall visited below cursor result, walk_below R fuel visited below cursor = Some result ->
  exists l, result = below ++ l /\ down cursor l.
Proof.
  induction fuel as [|fuel IH]; intros visited below [id|] result; cbn [walk_below]; try (intros [= <-]; exists []; rewrite app_nil_r; split; [done|constructor]); [done|].
  case_bool_decide; [done|]. destruct (read_checked_block R id) as [payload|] eqn:Hr; [|done]. cbn [mbind option_bind]. intros (l & -> & Hd)%IH.
  exists (payload :: l). rewrite <- app_assoc. split; [done|]. constructor; [by apply read_checked_v2|done].
Qed.

Lemma fold_checked_inv s payload e s1 : fold_checked_block R s payload e = Ok s1 ->
  apply_patch_ids (StoreBackedResolver R true) R true s (patch_ids payload) = Ok s1 /\ root_of_state s1.1 = Ok (state_merkle_root payload).
Proof.
  unfold fold_checked_block, apply_one_block_with_text_cache. destruct (apply_patch_ids _ _ _ _ _) as [s2|]; cbn [map_err]; [|done].
  destruct (root_of_state s2.1) as [r|] eqn:Hr; [|done]. case_bool_decide as Heq; cbn [negb]; [|done]. intros [= <-]. by rewrite Hr, Heq.
Qed.

Lemma apply_blocks_snoc l : forall s s1 payload, apply_blocks R true s l = Ok s1 ->
  apply_blocks R true s (l ++ [payload]) = (let? s2 := apply_patch_ids (StoreBackedResolver R true) R true s1 (patch_ids payload) in Ok s2).
Proof.
  induction l as [|b l IH]; intros s s1 payload; cbn [apply_blocks app]; [by intros [= <-]|].
  destruct (apply_patch_ids _ _ _ s (patch_ids b)) as [s2|]; [|done]. apply IH.
Qed.

(** The lineage of a verified block folds to its state. *)
Lemma verified_blocks_fold id ids s : verified R id ids s -> forall l, down (Some id) l -> apply_blocks R true (NodeLifecycleState_new, ∅) (reverse l) = Ok s.
Proof.
  induction 1 as [id payload e s Hr Hp Hf|id payload parent ids s0 e s Hr Hp Hv IH Hf]; intros l Hd; inversion Hd as [|? payload' l' Hr' Hd']; subst;
    rewrite Hr in Hr'; injection Hr' as <-; rewrite Hp in Hd'; apply fold_checked_inv in Hf as [Hf _]; rewrite reverse_cons.
  - inversion Hd'; subst. cbn. by rewrite Hf.
  - rewrite (apply_blocks_snoc _ _ s0) by (by apply IH). by rewrite Hf.
Qed.

Lemma verified_replayed id ids s : verified R id ids s -> replayed s.1.
Proof.
  induction 1 as [id payload e s Hr Hp Hf|id payload parent ids s0 e s Hr Hp Hv IH Hf]; apply fold_checked_inv in Hf as [Hf _];
    (eapply patches_replayed; [|exact Hf]); [apply replayed_new|done].
Qed.

(** ** The search *)

Lemma search_anchor_sound trust left : forall after visited current anchor manifest after' visited' top,
  chained R (Some current) (reverse after) top -> search_anchor R trust left after visited current = inl (anchor, manifest, after', visited') ->
  exists id, read_v2_block R id = Ok anchor /\ AnchorTrust_admit trust R id (length after') = Usable manifest /\ chained R (Some id) (reverse after') top.
Proof.
  induction left as [|left IH]; intros after visited current anchor manifest after' visited' top Hc; cbn [search_anchor]; (case_bool_decide; [done|]);
    (destruct (read_checked_block R current) as [payload|] eqn:Hr; [|done]); apply read_checked_v2 in Hr.
  - destruct (is_some _); [|done]. destruct (AnchorTrust_admit _ _ _ _) as [man| |] eqn:Ha; try done. intros [= <- <- <- <-]. by exists current.
  - assert (Hfurther : match state_derivation_parent payload with
        | Some next => search_anchor R trust left (after ++ [(current, payload)]) ({[current]} ∪ visited) next | None => inr None end
        = inl (anchor, manifest, after', visited') ->
      exists id, read_v2_block R id = Ok anchor /\ AnchorTrust_admit trust R id (length after') = Usable manifest /\ chained R (Some id) (reverse after') top).
    { destruct (state_derivation_parent payload) as [next|] eqn:Hp; [|done]. intros Hs. eapply IH; [|exact Hs]. rewrite reverse_snoc.
      rewrite <- Hp. by apply chained_cons. }
    destruct (is_some _); [|done]. destruct (AnchorTrust_admit _ _ _ _) as [man| |] eqn:Ha; try done. intros [= <- <- <- <-]. by exists current.
Qed.

Lemma admit_usable trust id distance manifest anchor : AnchorTrust_admit trust R id distance = Usable manifest -> read_v2_block R id = Ok anchor ->
  id ∈ at_verified trust /\ compute_state_root manifest = Ok (state_merkle_root anchor) /\ Forall entry_typed manifest.
Proof.
  unfold AnchorTrust_admit, read_v2_block. destruct (_ <? _)%nat; [done|]. case_bool_decide as Hv; cbn [negb]; [|done].
  destruct (@read_object R id) as [[envelope|]|]; cbn [ok_or]; [|done|done]. case_bool_decide; cbn [negb]; [|done].
  destruct (verify_trusted_publication_envelope _ _) as [k|issue]; [|by case_bool_decide]. destruct (BlockPayload_decode _) as [payload|]; [|done].
  destruct (validate_snapshot_manifest R payload) as [[man|]|] eqn:Hm; [|done|done]. intros [= ->]. destruct (negb _); [done|].
  destruct (validate_block_v2_shape payload); [|done]. intros [= <-]. split; [done|]. unfold validate_snapshot_manifest in Hm.
  destruct (snapshot_blob_ref payload); [|done]. inv_ok. simplify_eq. case_bool_decide as Hroot; cbn in *; [|done]. subst. split; [done|].
  eapply manifest_canonical. eassumption.
Qed.
End below.

(** ** From the anchor to the candidate *)

Section candidate.
Context `{Sha256} `{Ed25519Verify} (R : ObjectReader).

Abbreviation B := (StoreBackedResolver R true).

(** Folding [patches] on the state of [parent] meets a cached text that differs from the stored blob of
    the same identity. *)
Definition shadowed_from (parent : option ObjectId) (patches : list ObjectId) : Prop :=
  exists ids f f0, parent_state R parent ids f /\ visits_patches B R true f patches f0 /\ text_shadowed B f0.

Definition block_shadowed : Prop :=
  exists id payload, read_v2_block R id = Ok payload /\ shadowed_from (state_derivation_parent payload) (patch_ids payload).

(** A snapshot other than the entries of the verified state whose root it has. *)
Definition snapshot_collision (trust : AnchorTrust) : Prop := exists id distance manifest ids s es,
  AnchorTrust_admit trust R id distance = Usable manifest /\ verified R id ids s /\ entries_from_state s.1 = Ok es /\ manifest <> es /\
  collides (root_inputs manifest) (root_inputs es).

Lemma fold_after_sim stop blocks top : chained R stop blocks top -> forall s s' ids f, parent_state R stop ids f -> behind s f ->
  fold_after R s blocks = Some s' -> (exists ids' f', parent_state R top ids' f' /\ behind s' f') \/ block_shadowed.
Proof.
  induction 1 as [stop|id payload rest top Hr Hc IH]; intros s s' ids f Hp Hb; cbn [fold_after]; [intros [= <-]; left; by exists ids, f|].
  destruct (fold_checked_block R s payload OutOfFuel) as [s1|] eqn:Hf; [|done]. intros Hrest. apply fold_checked_inv in Hf as [Hf Hroot].
  destruct (patches_sim B R true (patch_ids payload) s f s1 Hb Hf) as [(f1 & Hf1 & Hb1)|(f0 & Hv & Hsh)].
  - assert (Hfull : fold_checked_block R f payload OutOfFuel = Ok f1).
    { unfold fold_checked_block, apply_one_block_with_text_cache. rewrite Hf1. cbn [map_err]. destruct Hb1 as [<- _]. rewrite Hroot. by rewrite bool_decide_true. }
    eapply IH; [|exact Hb1|exact Hrest]. cbn. by eapply verified_intro.
  - right. exists id, payload. split; [done|]. by exists ids, f, f0.
Qed.

Lemma anchored_parent_sound trust fuel parent found : (forall id, id ∈ at_verified trust -> exists ids s, verified R id ids s) ->
  anchored_parent_state R trust fuel parent = Anchored found ->
  (exists ids f, verified R parent ids f /\ behind (ap_state found, ap_text_cache found) f) \/ block_shadowed \/ snapshot_collision trust.
Proof.
  intros Hrec. unfold anchored_parent_state. destruct (has_record trust); cbn [negb]; [|done].
  destruct (search_anchor R trust _ [] ∅ parent) as [[[[anchor manifest] after] visited]|] eqn:Hs; [|done].
  eapply search_anchor_sound in Hs as (id & Hr & Ha & Hc); [|apply chained_nil].
  destruct (continue_from_anchor R fuel _) as [a|] eqn:Hcont; [|done]. intros [= <-]. unfold continue_from_anchor in Hcont.
  destruct (admit_usable R trust id _ manifest anchor Ha Hr) as (Hver & Hroot & Hty). destruct (Hrec id Hver) as (ids & s & Hv).
  destruct (walk_below R fuel visited [anchor] _) as [below|] eqn:Hw; [|done]. apply walk_below_down in Hw as (l & -> & Hd).
  cbn [mbind option_bind app] in Hcont. pose proof (verified_blocks_fold R id ids s Hv (anchor :: l) (down_step R id anchor l Hr Hd)) as Hfold.
  apply (tombstone_blocks R) in Hfold; [|apply ok_new].
  assert (Htomb : id_only_tombstones R (reverse (anchor :: l)) = Ok (latest_tombstone_by_id s.1)) by exact Hfold. rewrite Htomb in Hcont. cbn [mbind option_bind] in Hcont.
  pose proof (verified_replayed R id ids s Hv) as Hrep. apply verified_inv in Hv as Hinv. destruct Hinv as (payload & ids0 & s0 & e & Hr' & -> & Hp & Hf).
  rewrite Hr in Hr'. injection Hr' as <-. apply fold_checked_inv in Hf as [_ Hsroot]. unfold root_of_state in Hsroot.
  destruct (entries_from_state s.1) as [es|] eqn:Hes; [|done]. destruct (replayed_state_typed s.1 es _ Hrep Hes Hsroot) as [Hst Hlen].
  assert (Hmlen : zlen manifest < 2 ^ 64).
  { unfold compute_state_root in Hroot. destruct (validate_entries manifest); [|done]. destruct (Z.leb_spec (2 ^ 64) (zlen manifest)); [done|lia]. }
  destruct (decide (manifest = es)) as [->|Hne].
  - destruct (seed_entries NodeLifecycleState_new es) as [s1|] eqn:Hs1; [|done]. cbn [mbind option_bind] in Hcont.
    destruct (seed_tombstones s1 _) as [s2|] eqn:Hs2; [|done]. cbn [mbind option_bind] in Hcont. rewrite (seeding_exact s.1 es s1 s2 Hrep Hes Hs1 Hs2) in Hcont.
    destruct (fold_after R (s.1, ∅) (reverse after)) as [[st tc]|] eqn:Hfa; [|done]. cbn [mbind option_bind] in Hcont. injection Hcont as <-.
    destruct (fold_after_sim _ _ _ Hc (s.1, ∅) (st, tc) (id :: ids0) s) as [(ids' & f' & Hp' & Hb')|Hsh]; [done|split; [done|apply map_empty_subseteq]|done| |by right; left].
    left. by exists ids', f'.
  - right. right. destruct (state_root_binds manifest es _ Hty (entries_typed s.1 es Hst Hes) Hmlen Hlen Hroot Hsroot) as [->|Hcol]; [done|].
    by exists id, (length after), manifest, (id :: ids0), s, es.
Qed.
End candidate.

(** What a candidate derived from an anchor says is what the full walk says: its state and entries, and
    at least its cached texts. *)
Definition candidate_agrees (c full : CandidateDerivation) : Prop :=
  cd_state c = cd_state full /\ cd_entries c = cd_entries full /\ cd_text_cache c ⊆ cd_text_cache full.

(** C19: deriving a candidate block from a trusted snapshot is exact.  When every block of the
    replay-verified record verifies, whatever [derive_candidate] derives with anchors, the full walk to
    genesis derives too, with the same state and the same entries (so the same root), and the texts
    the anchored derivation has are texts of the full walk; unless the store exhibits a collision: a
    text computed by the replay differs from the blob stored under its identity, or a snapshot
    differs from the entries that have the same root. *)
Theorem anchored_candidate_exact `{Sha256} `{Ed25519Verify} (m : gmap ObjectId ObjectEnvelope) trust parent patch_ids c :
  (forall id, id ∈ at_verified trust -> exists ids s, verified (memory_reader m) id ids s) ->
  derive_candidate (memory_reader m) (Some trust) (size m) parent patch_ids = Ok c ->
  (exists full, derive_candidate (memory_reader m) None (size m) parent patch_ids = Ok full /\ candidate_agrees c full) \/
  shadowed_from (memory_reader m) parent patch_ids \/ block_shadowed (memory_reader m) \/ snapshot_collision (memory_reader m) trust.
Proof.
  set (R := memory_reader m). intros Hrec. unfold derive_candidate.
  assert (Hnone : forall s memo, resolved_parent_state R (size m) parent ∅ = (Ok s, memo) ->
    candidate_parent R None (size m) parent = Ok (s, (btree_iter memo).*1, None)).
  { intros s memo Hr. unfold candidate_parent. by rewrite Hr. }
  destruct (candidate_parent R (Some trust) (size m) parent) as [[[s vs] how]|] eqn:Hc; [|done].
  destruct (apply_candidate_patches R s patch_ids) as [s1|] eqn:Ha; cbn [map_err]; [|done].
  destruct (entries_from_state s1.1) as [es|] eqn:He; cbn [map_err]; [|done]. intros [= <-].
  unfold candidate_parent in Hc. destruct parent as [p|].
  2: { cbn in Hc. injection Hc as <- <- <-. left. rewrite (Hnone _ _ eq_refl), Ha. cbn [map_err]. rewrite He. cbn [map_err]. eexists. split; [done|]. by split_and!. }
  destruct (anchored_parent_state R trust (size m) p) as [found|fnd] eqn:Hanc.
  - injection Hc as <- <- <-. destruct (anchored_parent_sound R trust (size m) p found Hrec Hanc) as [(ids & f & Hv & Hb)|[Hsh|Hcol]]; [|by right; right; left|by right; right; right].
    destruct (patches_sim (StoreBackedResolver R true) R true patch_ids _ f s1 Hb Ha) as [(f1 & Hf1 & [Heq Hsub])|(f0 & Hvis & Hsh)].
    2: { right. left. by exists ids, f, f0. }
    left. pose proof (proj2 (resolved_exact m (Some p) ∅ f (memo_ok_empty R)) (ex_intro _ ids Hv)) as Hres.
    destruct (resolved_parent_state R (size m) (Some p) ∅) as [r memo] eqn:Hrp. fold R in Hres. rewrite Hrp in Hres. cbn in Hres. subst r.
    rewrite (Hnone _ _ eq_refl). unfold apply_candidate_patches. rewrite Hf1. cbn [map_err]. rewrite <- Heq, He. cbn [map_err]. eexists. split; [done|]. by split_and!.
  - destruct (resolved_parent_state R (size m) (Some p) ∅) as [[s0|e] memo] eqn:Hrp; [|done]. injection Hc as <- <- <-.
    left. rewrite (Hnone _ _ eq_refl), Ha. cbn [map_err]. rewrite He. cbn [map_err]. eexists. split; [done|]. by split_and!.
Qed.

Lemma blocks_replayed `{Sha256} R schema : forall blocks s s', replayed s.1 -> apply_blocks R schema s blocks = Ok s' -> replayed s'.1.
Proof.
  induction blocks as [|block blocks IH]; intros s s' Hr; cbn [apply_blocks]; [by intros [= <-]|].
  destruct (apply_patch_ids _ R schema s (patch_ids block)) as [s1|] eqn:Ha; [|done]. apply IH. by eapply patches_replayed.
Qed.

(** C25: replaying stored history only makes well-typed states.  Whatever blocks and patches a store holds,
    if replaying a chain and the patches after it succeeds, the state passes the lifecycle's consistency
    check, every live node has a 32-byte identifier, a valid repository path and content in its widths,
    and the identities ever seen are exactly those that are live or have a tombstone. *)
Theorem replay_types_state `{Sha256} R chain appended schema s :
  replay_chain_with_appended_patches R chain appended schema = Ok s -> replayed s.1.
Proof.
  unfold replay_chain_with_appended_patches. destruct (apply_blocks R schema _ chain.*2) as [s0|] eqn:Hb; [|done].
  apply patches_replayed. exact (blocks_replayed R schema _ (NodeLifecycleState_new, ∅) _ replayed_new Hb).
Qed.

(** ** A checkpointed history *)

Definition accept_all : Ed25519Verify := fun _ _ _ => Ok tt.
Definition checkpoint_entries : list StateRootEntry :=
  match @apply_blocks hash_mod_p (memory_reader history) true (NodeLifecycleState_new, ∅) (history_chain 1) with
  | Ok s => match entries_from_state s.1 with Ok es => es | Err _ => [] end
  | Err _ => [] end.
Definition checkpoint_blob : ObjectEnvelope :=
  match SnapshotManifest_encode checkpoint_entries with
  | Ok bytes => match to_canonical_bytes (BlobPayload_new BlobSnapshot bytes) with Ok payload => unsigned Blob 1 payload | Err _ => unsigned Blob 1 [] end
  | Err _ => unsigned Blob 1 [] end.
Definition checkpoint_block : ObjectEnvelope :=
  match to_canonical_bytes (mkBlock [] KindRoot [history_id x11] (v2_root 1) (Some (history_id x31)) None None) with
  | Ok bytes => mkEnvelope Block 2 bytes [mkSignature Ed25519 (bytes_of_string "maintainer") (replicate 64 x07) 0 Maintainer]
  | Err _ => unsigned Block 2 [] end.
Definition checkpoint_history : gmap ObjectId ObjectEnvelope :=
  <[history_id x21 := checkpoint_block]> (<[history_id x31 := checkpoint_blob]> (v2_history (v2_root 2))).
Definition checkpoint_trust : AnchorTrust :=
  mkAnchorTrust {[history_id x21]} [mkAdoptedKey (bytes_of_string "maintainer") (replicate 32 x05)].
Definition checkpoint_candidate (trust : option AnchorTrust) : Result CandidateStateDerivationError CandidateDerivation :=
  @derive_candidate hash_mod_p accept_all (memory_reader checkpoint_history) trust (size checkpoint_history) (Some (history_id x22)) [history_id x13].

(** The candidate deletes the file on a block whose edit is folded on the snapshot of the block before. *)
Lemma anchored_candidate_exact_witness : match checkpoint_candidate (Some checkpoint_trust) with
  | Ok c => cd_anchored c = true /\ cd_folded c = 1%nat /\ size (latest_tombstone_by_id (cd_state c)) = 1%nat /\
      ((exists full, checkpoint_candidate None = Ok full /\ candidate_agrees c full) \/
       shadowed_from (H := hash_mod_p) (memory_reader checkpoint_history) (Some (history_id x22)) [history_id x13] \/
       block_shadowed (H := hash_mod_p) (memory_reader checkpoint_history) \/ 
       snapshot_collision (H := hash_mod_p) (H0 := accept_all) (memory_reader checkpoint_history) checkpoint_trust)
  | Err _ => False end.
Proof.
  assert (Hok : is_ok (checkpoint_candidate (Some checkpoint_trust)) = true) by (vm_compute; reflexivity). apply is_ok_inv in Hok as [c Hc].
  assert (Hfacts : match checkpoint_candidate (Some checkpoint_trust) with
    | Ok c => (cd_anchored c, cd_folded c, size (latest_tombstone_by_id (cd_state c))) = (true, 1%nat, 1%nat) | Err _ => False end) by (vm_compute; reflexivity).
  rewrite Hc in *. injection Hfacts as -> -> ->. split_and!; [exact eq_refl|exact eq_refl|exact eq_refl|].
  refine (@anchored_candidate_exact hash_mod_p accept_all checkpoint_history checkpoint_trust (Some (history_id x22)) [history_id x13] c _ Hc).
  intros id Hid. assert (id = history_id x21) as -> by (revert Hid; unfold checkpoint_trust; cbn [at_verified]; apply elem_of_singleton).
  assert (Hres : is_ok (@resolved_parent_state hash_mod_p (memory_reader checkpoint_history) (size checkpoint_history) (Some (history_id x21)) ∅).1 = true)
    by (vm_compute; reflexivity).
  apply is_ok_inv in Hres as [s Hs]. apply (@resolved_exact hash_mod_p checkpoint_history (Some (history_id x21)) ∅ s (memo_ok_empty (H := hash_mod_p) _)) in Hs as [ids Hv].
  exists ids, s. exact Hv.
Defined.

(** The chain of two blocks, and a patch that deletes its file. *)
Lemma replay_types_state_witness : exists s,
  @replay_chain_with_appended_patches hash_mod_p (memory_reader history) (pair (history_id x21) <$> history_chain 2) [history_id x13] true = Ok s /\ replayed s.1.
Proof.
  assert (Hok : is_ok (@replay_chain_with_appended_patches hash_mod_p (memory_reader history) (pair (history_id x21) <$> history_chain 2) [history_id x13] true) = true) by (vm_compute; reflexivity).
  apply is_ok_inv in Hok as [s Hs]. exists s. split; [exact Hs|]. exact (@replay_types_state hash_mod_p _ _ _ _ _ Hs).
Defined.

(** * The replay-verified record

    The record file decodes to the set it was written from, and recording blocks adds exactly them. *)


Lemma split_at_app (a r : list byte) (n : Z) : zlen a = n -> split_at_checked (a ++ r) n = Some (a, r).
Proof.
  intros <-. unfold split_at_checked. rewrite zlen_app. pose proof (zlen_nonneg r). destruct (Z.ltb_spec (zlen a + zlen r) (zlen a)); [lia|].
  unfold zlen. by rewrite Nat2Z.id, take_app_length, drop_app_length.
Qed.

Definition ids_32 (ids : list ObjectId) : Prop := Forall (fun id => length id = 32%nat) ids.

Lemma chunks_concat ids : ids_32 ids -> chunks_32 (length ids) (concat ids) = ids.
Proof.
  induction 1 as [|id ids Hid _ IH]; [done|]. cbn [length chunks_32 concat]. rewrite take_app_length', drop_app_length' by done. by f_equal.
Qed.

Lemma chunks_lengths n : forall bytes, length bytes = (n * 32)%nat -> ids_32 (chunks_32 n bytes).
Proof.
  induction n as [|n IH]; intros bytes Hl; [constructor|]. cbn [chunks_32]. constructor; [rewrite length_take; lia|]. apply IH. rewrite length_drop. lia.
Qed.

Lemma zlen_concat_ids ids : ids_32 ids -> zlen (concat ids) = zlen ids * 32.
Proof. unfold zlen. induction 1 as [|id ids Hid _ IH]; [done|]. cbn [concat length]. rewrite length_app, Hid. lia. Qed.

Lemma set_iter_perm set : set_iter set ≡ₚ elements set.
Proof. apply sort_by_perm. Qed.

Lemma list_to_set_iter (set : gset ObjectId) : list_to_set (set_iter set) = set.
Proof. apply set_eq. intros x. by rewrite elem_of_list_to_set, set_iter_perm, elem_of_elements. Qed.

Definition set_32 (set : gset ObjectId) : Prop := forall id, id ∈ set -> length id = 32%nat.

Lemma set_iter_32 set : set_32 set -> ids_32 (set_iter set).
Proof. intros Hs. apply Forall_forall. intros id. rewrite set_iter_perm, elem_of_elements. apply Hs. Qed.

Section record.
Context `{Sha256}.

Lemma record_decodes ids : ids_32 ids -> zlen ids < 2 ^ 32 ->
  let body := record_body ids in record_decode (RECORD_MAGIC ++ sha256 body ++ body) = Some (list_to_set ids).
Proof.
  intros H32 Hn body. unfold record_decode. rewrite strip_prefix_app. cbn [mbind option_bind].
  rewrite split_at_app by (unfold zlen; by rewrite sha256_length). cbn [mbind option_bind]. rewrite bool_decide_true by done. cbn [negb]. unfold body, record_body.
  rewrite split_at_app by (by rewrite zlen_to_be_bytes). cbn [mbind option_bind]. rewrite from_to_be_bytes_small by (vm_compute; done). rewrite Z.eqb_refl. cbn [negb].
  rewrite split_at_app by (by rewrite zlen_to_be_bytes). cbn [mbind option_bind]. rewrite from_to_be_bytes_small by (vm_compute; done).
  rewrite split_at_app by (vm_compute; done). cbn [mbind option_bind]. rewrite bool_decide_true by done. cbn [negb].
  rewrite split_at_app by (by rewrite zlen_to_be_bytes). cbn [mbind option_bind].
  assert (Hsat : saturate 32 (zlen ids) = zlen ids) by (unfold saturate; destruct (Z.ltb_spec (zlen ids) (2 ^ 32)); lia). rewrite Hsat.
  pose proof (zlen_nonneg ids). rewrite from_to_be_bytes_small by (cbn; lia). rewrite zlen_concat_ids, Z.eqb_refl by done. cbn [negb]. unfold zlen. rewrite Nat2Z.id.
  by rewrite chunks_concat.
Qed.

Lemma record_decode_32 bytes set : record_decode bytes = Some set -> set_32 set.
Proof.
  unfold record_decode. destruct (strip_prefix _ _) as [after|]; cbn [mbind option_bind]; [|done].
  destruct (split_at_checked after 32) as [[ck body]|]; cbn [mbind option_bind]; [|done]. destruct (negb _); [done|].
  destruct (split_at_checked body 4) as [[sv r1]|]; cbn [mbind option_bind]; [|done]. destruct (negb _); [done|].
  destruct (split_at_checked r1 2) as [[vl r2]|]; cbn [mbind option_bind]; [|done].
  destruct (split_at_checked r2 _) as [[v r3]|]; cbn [mbind option_bind]; [|done]. destruct (negb _); [done|].
  destruct (split_at_checked r3 4) as [[count rest]|]; cbn [mbind option_bind]; [|done]. destruct (Z.eqb_spec (zlen rest) (from_be_bytes count * 32)) as [Hz|]; cbn [negb]; [|done].
  intros [= <-] id. rewrite elem_of_list_to_set. intros Hin. pose proof (from_be_nonneg count).
  assert (Hc : ids_32 (chunks_32 (Z.to_nat (from_be_bytes count)) rest)) by (apply chunks_lengths; unfold zlen in Hz; lia).
  unfold ids_32 in Hc. rewrite Forall_forall in Hc. by apply Hc.
Qed.

Lemma load_32 d : set_32 (load_verified_blocks d).
Proof.
  unfold load_verified_blocks. destruct (d !! record_path) as [bytes|]; cbn [mbind option_bind default]; [|by intros id ?%elem_of_empty].
  destruct (record_decode bytes) as [set|] eqn:Hd; cbn [default]; [by eapply record_decode_32|by intros id ?%elem_of_empty].
Qed.

(** recording verified blocks adds exactly them.  After [record_verified_blocks ids], loading the
    record gives what it held before and [ids]; a damaged or foreign record counts as empty and is
    replaced.  The ids are 32 bytes and the record stays below 2^32 ids. *)
Theorem record_grows_exactly ids d : Forall (fun id => length id = 32%nat) ids ->
  Z.of_nat (size (list_to_set ids ∪ load_verified_blocks d)) < 2 ^ 32 ->
  load_verified_blocks (record_verified_blocks ids d) = list_to_set ids ∪ load_verified_blocks d.
Proof.
  intros H32 Hn. unfold record_verified_blocks. destruct (Nat.eqb_spec (size (list_to_set ids ∪ load_verified_blocks d)) (size (load_verified_blocks d))) as [He|Hne].
  - apply set_subseteq_size_eq; [set_solver|lia].
  - set (set' := list_to_set ids ∪ load_verified_blocks d) in *. unfold load_verified_blocks at 1. rewrite lookup_insert_eq. cbn [mbind option_bind]. unfold record_encode.
    assert (Hs : set_32 set').
    { intros id [Hid|Hid]%elem_of_union; [|by eapply load_32]. rewrite elem_of_list_to_set in Hid. rewrite Forall_forall in H32. by apply H32. }
    rewrite record_decodes; [by rewrite list_to_set_iter|by apply set_iter_32|]. unfold zlen. by rewrite (Permutation_length (set_iter_perm set')).
Qed.
End record.

Lemma record_grows_exactly_witness :
  @load_verified_blocks hash_mod_p (@record_verified_blocks hash_mod_p [replicate 32 x21; replicate 32 x22] ∅) =
  list_to_set [replicate 32 x21; replicate 32 x22] ∪ @load_verified_blocks hash_mod_p ∅.
Proof.
  apply (@record_grows_exactly hash_mod_p [replicate 32 x21; replicate 32 x22] ∅).
  - repeat constructor.
  - vm_compute. reflexivity.
Defined.
