(* ===== verification/Received.v ===== *)
(** * Received refs (crates/prikk-store/src/received.rs, received/received_index.rs)

    The refs that an import brought in are kept apart from the local ones: one append-only index in two
    slots, the last entry of a name counts. *)

From S2P Require Import Prelude PrikkError Hash Utf8 ObjectId ByteCursor FileCodec RepoPath ObjectStore.
From S2P Require Import FrameResync IndexFile TailLog FileSystem Generation RefLog RefStore RecoveryEntry.

(** ** The received index (received/received_index.rs) *)

Record ReceivedIndexEntry : Type := mkReceivedEntry { rx_ref_name_key : list byte; rx_ref_name : list byte; rx_ref_state_id : ObjectId }.
#[global] Instance ReceivedIndexEntry_eq_dec : EqDecision ReceivedIndexEntry.
Proof. solve_decision. Defined.

Definition RECEIVED_INDEX_DAMAGE_TEXT : string :=
  "received-ref index has a damaged entry; no repair exists -- preserve the repository; the way out is a copy of this repository's own `.prikk/` directory from a backup taken before the damage".
Definition RECEIVED_INDEX_AMBIGUOUS_TEXT : string :=
  "the received index's generation log is lost, and its two slots fit two different histories; run `prikk compact --received-index --keep-slot a|b --plan-only` to see both slots and choose, or restore the repository's whole `.prikk/` from a backup taken before the log was lost".

Definition fold_one_received_index_entry (running : list ReceivedIndexEntry) (entry : ReceivedIndexEntry) : list ReceivedIndexEntry :=
  filter (fun existing => rx_ref_name_key existing <> rx_ref_name_key entry) running ++ [entry].

Definition reduce_received_index_entries (entries : list ReceivedIndexEntry) : list ReceivedIndexEntry :=
  fold_left fold_one_received_index_entry entries [].

Definition encode_received_entry_body (entry : ReceivedIndexEntry) : PResult (list byte) :=
  let? body := push_bytes_u64 (rx_ref_name_key entry) (rx_ref_name entry) in
  Ok (body ++ rx_ref_state_id entry).

Definition decode_received_entry_body (body : list byte) : PResult ReceivedIndexEntry :=
  let c := ByteCursor_new body in
  let? '(ref_name_key, c) := bc_read_array 32 c in
  let? '(ref_name, c) := bc_read_bytes_u64 c in
  if negb (from_utf8 ref_name) then Err (MalformedData "invalid ref name utf-8: {err}")
  else
    let? '(ref_state_id, c) := bc_read_array 32 c in
    if negb (is_finished c) then Err (MalformedData "trailing bytes in received index entry body")
    else Ok (mkReceivedEntry ref_name_key ref_name ref_state_id).

Definition RECEIVED_INDEX_FORMAT : LogFormat ReceivedIndexEntry :=
  mkLogFormat _ "received index" (bytes_of_string "PRECVIX1") 1 0 true (fun _ => decode_received_entry_body) (fun _ => Ok tt)
    SCAN_BUDGET_EXCEEDED_AS_DAMAGE "{err}, but a complete record's own checksum verifies".

Section received_index.
Context `{Sha256}.

Definition encode_received_index_record (entry : ReceivedIndexEntry) : PResult (list byte) :=
  let? body := encode_received_entry_body entry in
  let? _ := len_to_u64 (zlen body) in
  Ok (frame_log_record RECEIVED_INDEX_FORMAT [] body).

Definition decode_received_index_records (bytes : list byte) : PResult (LogReplay ReceivedIndexEntry) := decode_log RECEIVED_INDEX_FORMAT bytes.

Definition decode_received_index_entries_for_resolver (bytes : list byte) : PResult (list ReceivedIndexEntry * bool) :=
  let? replay := decode_received_index_records bytes in
  Ok (lr_records replay, log_has_item_failure replay).

(** The walk of the write guard: the tail, its offset, and whether a frame on the way was damaged. *)
Fixpoint scan_received_index_loop (fuel : nat) (bytes : list byte) (offset : nat) (budget : ScanBudget) (damaged : bool) : PResult (nat * nat * bool) :=
  match fuel with
  | O => Err OutOfFuel
  | S fuel' =>
      if exceeded budget then Ok (0%nat, offset, true)
      else
        match parse_log_frame_at RECEIVED_INDEX_FORMAT bytes offset budget with
        | (LogRecordAt _ _ next_offset, budget) =>
            let? next := require_progress "received index" offset next_offset in
            scan_received_index_loop fuel' bytes next budget damaged
        | (LogPartial remaining, budget) =>
            match log_sound_after RECEIVED_INDEX_FORMAT bytes offset budget with
            | (NoSoundFrame, _) => Ok (remaining, offset, damaged)
            | (Undetermined, _) => Ok (0%nat, offset, true)
            | (Sound next, budget) =>
                let? next := require_progress "received index" offset next in
                scan_received_index_loop fuel' bytes next budget true
            end
        | (LogInvalid _ _ never_a_tail, budget) =>
            if never_a_tail then
              match resync_to_next_magic bytes (S offset) (lf_magic RECEIVED_INDEX_FORMAT) with
              | Some next =>
                  let? next := require_progress "received index" offset next in
                  scan_received_index_loop fuel' bytes next budget true
              | None => Ok (0%nat, length bytes, true)
              end
            else
              match log_sound_after RECEIVED_INDEX_FORMAT bytes offset budget with
              | (NoSoundFrame, _) => Ok ((length bytes - offset)%nat, offset, damaged)
              | (Undetermined, _) => Ok (0%nat, offset, true)
              | (Sound next, budget) =>
                  let? next := require_progress "received index" offset next in
                  scan_received_index_loop fuel' bytes next budget true
              end
        end
  end.

Definition scan_received_index_tail (bytes : list byte) : PResult (nat * nat * bool) :=
  scan_received_index_loop (S (S (length bytes))) bytes 0 (ScanBudget_for_input (length bytes)) false.

Definition resolve_received_slot (d : Disk) : PResult ContainerSlot :=
  resolve_live_slot fold_one_received_index_entry received_index_generation_log_path (received_index_slot_path SlotA)
    (received_index_slot_path SlotB) RECEIVED_INDEX_DAMAGE_TEXT RECEIVED_INDEX_AMBIGUOUS_TEXT decode_received_index_entries_for_resolver d.

Definition require_received_index_clean_tail (d : Disk) : PResult unit :=
  let? slot := resolve_received_slot d in
  match d !! received_index_slot_path slot with
  | None => Ok tt
  | Some bytes =>
      let? '(trailing_partial_bytes, tail_offset, damaged) := scan_received_index_tail bytes in
      if (damaged : bool) then Err (Integrity RECEIVED_INDEX_DAMAGE_TEXT)
      else require_no_unclean_tail "the received index" trailing_partial_bytes tail_offset
             "back it up, truncate it to the named offset, then run `prikk verify`"
  end.

Definition replay_received_index (d : Disk) : PResult (LogReplay ReceivedIndexEntry) :=
  let? slot := resolve_received_slot d in
  match d !! received_index_slot_path slot with
  | None => Ok (mkLogReplay [] 0 0 [])
  | Some bytes => decode_received_index_records bytes
  end.

Definition lookup_received_index_entry (ref_name_key : list byte) (d : Disk) : PResult (option ReceivedIndexEntry) :=
  let? replay := replay_received_index d in
  if log_has_item_failure replay then Err (Integrity RECEIVED_INDEX_DAMAGE_TEXT)
  else Ok (last (filter (fun entry => rx_ref_name_key entry = ref_name_key) (lr_records replay))).

(** A step of the [for] loop: the entry replaces the one with its key where that stands. *)
Fixpoint resolve_one_received (resolved : list ReceivedIndexEntry) (entry : ReceivedIndexEntry) : list ReceivedIndexEntry :=
  match resolved with
  | [] => [entry]
  | existing :: rest =>
      if bool_decide (rx_ref_name_key existing = rx_ref_name_key entry) then entry :: rest
      else existing :: resolve_one_received rest entry
  end.

Definition list_resolved_received_entries (d : Disk) : PResult (list ReceivedIndexEntry) :=
  let? replay := replay_received_index d in
  if log_has_item_failure replay then Err (Integrity RECEIVED_INDEX_DAMAGE_TEXT)
  else Ok (fold_left resolve_one_received (lr_records replay) []).

Definition append_received_index_entry (entry : ReceivedIndexEntry) : IO unit :=
  do! record := io_lift (encode_received_index_record entry) in
  do! slot := io_read resolve_received_slot in
  append_file_required (received_index_slot_path slot) record.

(** ** Received pointers (received.rs) *)

Record ReceivedPointer : Type := mkReceivedPointer { rp_ref_name : list byte; rp_ref_state_id : ObjectId }.

Definition ReceivedPointer_from (entry : ReceivedIndexEntry) : ReceivedPointer := mkReceivedPointer (rx_ref_name entry) (rx_ref_state_id entry).

Definition validate_received_ref (ref_name : list byte) : PResult unit :=
  if bool_decide (ref_name = []) then Err (InvalidName "ref name must not be empty")
  else if negb (ref_starts_with "remotes/" ref_name) then Err (InvalidName "ref {ref_name} is not a received ref; expected remotes/<name>")
  else
    let rest := drop 8 ref_name in
    if bool_decide (rest = []) then Err (InvalidName "received ref must include a name after remotes/")
    else
      let? _ := validate_ref_components "received" ref_name rest in
      Ok tt.

Definition write_received_pointer (ref_name : list byte) (ref_state_id : ObjectId) : IO unit :=
  do! _ := io_lift (validate_received_ref ref_name) in
  append_received_index_entry (mkReceivedEntry (ref_name_key_bytes ref_name) ref_name ref_state_id).

Definition read_received_pointer (ref_name : list byte) (d : Disk) : PResult (option ReceivedPointer) :=
  let? _ := validate_received_ref ref_name in
  let? found := lookup_received_index_entry (ref_name_key_bytes ref_name) d in
  Ok (ReceivedPointer_from <$> found).

Definition list_received_pointers (d : Disk) : PResult (list ReceivedPointer) :=
  let? entries := list_resolved_received_entries d in
  Ok (sort_by (fun left right => bytes_cmp (rp_ref_name left) (rp_ref_name right)) (map ReceivedPointer_from entries)).
End received_index.
