(* ===== verification/TrustIndex.v ===== *)
(** * Key-material logs (crates/prikk-store/src/trust_index.rs, author/author_key_index.rs)

    The two containers of public keys are read by copies of one reader.  Unlike the logs of [TailLog] it
    asks no work budget, and it knows how long a body can be at most. *)

From S2P Require Import Prelude PrikkError Hash Utf8 ByteCursor FrameResync IndexFile TailLog ObjectId Signature Envelope FileCodec ObjectStore FileSystem.
From S2P Require Import Generation RefLog RecoveryEntry AnchorState.


(** A [u16]-length key id and a 32-byte key. *)
Definition MAX_KEY_BODY_LEN : Z := 2 + 65535 + 32.

Section key_log.
Context `{Sha256} {A : Type} (F : LogFormat A).

(** Only charges the budget it is given; the texts for a wrong magic and for a wrong version are not told apart. *)
Definition parse_key_frame_at (bytes : list byte) (offset : nat) : LogAttempt A :=
  let remaining := (length bytes - offset)%nat in
  let complete := is_some (complete_by_checksum bytes offset (LOG_HEADER_LEN F) (ScanBudget_for_input (length bytes)) (log_checksum F [])).1 in
  if (remaining <? LOG_HEADER_LEN F)%nat then LogPartial remaining
  else
    let header_end := (offset + LOG_HEADER_LEN F)%nat in
    match get_range bytes offset header_end with
    | None => LogPartial remaining
    | Some header =>
        match parse_log_header F header with
        | Err _ => LogInvalid (if complete then lf_complete_message F else "{err}") None complete
        | Ok values =>
            if MAX_KEY_BODY_LEN <? lh_body_len values
            then LogInvalid (lf_label F +:+ " record at byte offset {offset} claims a body of {body_len} bytes, more than the {MAX_KEY_BODY_LEN} a record of this format can hold") None true
            else if usize_max <? Z.of_nat header_end + lh_body_len values then LogInvalid (lf_label F +:+ " body end overflow") None true
            else
              let body_end := (header_end + Z.to_nat (lh_body_len values))%nat in
              match get_range bytes header_end body_end with
              | None =>
                  if complete
                  then LogInvalid (lf_label F +:+ " record length claims more bytes than remain, but a complete record's own checksum verifies against the length to the end of the file") None true
                  else LogPartial remaining
              | Some body =>
                  if negb (bool_decide (log_checksum F [] (lh_body_len values) body = lh_checksum values))
                  then LogInvalid (lf_label F +:+ " checksum mismatch at byte offset {offset}") None true
                  else
                    match lf_decode F [] body with
                    | Ok entry => LogRecordAt entry [] body_end
                    | Err _ => LogInvalid "{err}" None true
                    end
              end
        end
    end.

Definition key_sound (bytes : list byte) (candidate : nat) : bool :=
  match parse_key_frame_at bytes candidate with LogRecordAt _ _ _ => true | _ => false end.

Definition key_sound_after (bytes : list byte) (offset : nat) : option nat :=
  sound_frame_after_partial bytes offset (lf_magic F) (key_sound bytes).

(** The decode [loop]: every iteration moves [offset] forward. *)
Fixpoint decode_key_loop (fuel : nat) (bytes : list byte) (offset : nat) (entries : list A) (outcomes : list LogOutcome) : PResult (LogReplay A) :=
  match fuel with
  | O => Err OutOfFuel
  | S fuel' =>
      let failed message := outcomes ++ [mkLogOutcome offset (LogFailed message None false)] in
      match parse_key_frame_at bytes offset with
      | LogRecordAt entry _ next_offset =>
          let? next := require_progress (lf_label F) offset next_offset in
          decode_key_loop fuel' bytes next (entries ++ [entry]) (outcomes ++ [mkLogOutcome offset LogEvaluated])
      | LogPartial remaining =>
          match key_sound_after bytes offset with
          | None => Ok (mkLogReplay entries remaining offset outcomes)
          | Some next =>
              let? next := require_progress (lf_label F) offset next in
              decode_key_loop fuel' bytes next entries (failed partial_before_sound_frame_message)
          end
      | LogInvalid message _ never_a_tail =>
          let sound_after := if never_a_tail then None else key_sound_after bytes offset in
          if negb (is_some sound_after) && negb never_a_tail
          then Ok (mkLogReplay entries (length bytes - offset) offset outcomes)
          else
            let resumed :=
              match sound_after with
              | Some next => Some next
              | None => resync_to_next_magic bytes (S offset) (lf_magic F)
              end in
            match resumed with
            | Some next =>
                let? next := require_progress (lf_label F) offset next in
                decode_key_loop fuel' bytes next entries (failed message)
            | None => Ok (mkLogReplay entries 0 (length bytes) (failed message))
            end
      end
  end.

Definition decode_key_log (bytes : list byte) : PResult (LogReplay A) := decode_key_loop (S (S (length bytes))) bytes 0 [] [].
End key_log.

(** * Trust containers (crates/prikk-store/src/trust_index.rs, author/author_key_index.rs)

    The maintainers' public keys and the authors' public keys are append-only logs that are never
    compacted.  The trust policy is a log of snapshots in two slots: the last snapshot lists the key ids
    that are adopted now. *)


Definition ED25519_KEY_LEN : Z := 32.
Definition trust_key_container_path : string := "trust/keys.container".
Definition author_key_container_path : string := "trust/author-keys.container".

(** ** Maintainer keys *)

Record TrustKeyEntry : Type := mkTrustKey { tk_key_id : list byte; tk_public_key : list byte }.
#[global] Instance TrustKeyEntry_eq_dec : EqDecision TrustKeyEntry.
Proof. solve_decision. Defined.

Definition encode_trust_key_body (entry : TrustKeyEntry) : PResult (list byte) :=
  let? body := push_string_u16 [] (tk_key_id entry) in
  Ok (body ++ tk_public_key entry).

Definition decode_trust_key_body (body : list byte) : PResult TrustKeyEntry :=
  let c := ByteCursor_new body in
  let? '(key_id, c) := bc_read_string_u16 c in
  let? '(public_key, c) := bc_read_array ED25519_KEY_LEN c in
  if negb (is_finished c) then Err (MalformedData "trailing bytes in trust key entry body")
  else Ok (mkTrustKey key_id public_key).

Definition TRUST_KEY_FORMAT : LogFormat TrustKeyEntry :=
  mkLogFormat _ "trust key" (bytes_of_string "PTRUKEY1") 1 0 true (fun _ => decode_trust_key_body) (fun _ => Ok tt) ""
    "invalid trust key record magic, but a complete record's own checksum verifies".

Definition TRUST_KEY_DAMAGE_TEXT : string :=
  "trust key container has a damaged entry; no repair exists -- preserve the repository; the way out is a copy of this repository's own `.prikk/` directory from a backup taken before the damage".

(** ** Author keys *)

Record AuthorKeyEntry : Type := mkAuthorKey { ak_key_id : list byte; ak_public_key : list byte }.
#[global] Instance AuthorKeyEntry_eq_dec : EqDecision AuthorKeyEntry.
Proof. solve_decision. Defined.

Definition encode_author_key_body (entry : AuthorKeyEntry) : PResult (list byte) :=
  let? body := push_string_u16 [] (ak_key_id entry) in
  Ok (body ++ ak_public_key entry).

Definition decode_author_key_body (body : list byte) : PResult AuthorKeyEntry :=
  let c := ByteCursor_new body in
  let? '(key_id, c) := bc_read_string_u16 c in
  let? '(public_key, c) := bc_read_array ED25519_KEY_LEN c in
  if negb (is_finished c) then Err (MalformedData "trailing bytes in author key entry body")
  else Ok (mkAuthorKey key_id public_key).

Definition AUTHOR_KEY_FORMAT : LogFormat AuthorKeyEntry :=
  mkLogFormat _ "author key" (bytes_of_string "PAUTKEY1") 1 0 true (fun _ => decode_author_key_body) (fun _ => Ok tt) ""
    "invalid author key record magic, but a complete record's own checksum verifies".

Definition AUTHOR_KEY_DAMAGE_TEXT : string :=
  "author key container has a damaged entry; no repair exists -- preserve the repository; the way out is a copy of this repository's own `.prikk/` directory from a backup taken before the damage".

(** ** Policy snapshots *)

Record TrustPolicySnapshotEntry : Type := mkTrustSnapshot { ts_key_ids : list (list byte) }.
#[global] Instance TrustPolicySnapshotEntry_eq_dec : EqDecision TrustPolicySnapshotEntry.
Proof. solve_decision. Defined.

Definition TRUST_POLICY_DAMAGE_TEXT : string :=
  "trust policy container has a damaged snapshot; no repair exists -- preserve the repository; the way out is a copy of this repository's own `.prikk/` directory from a backup taken before the damage, then re-apply every trust change made since that backup".
Definition TRUST_POLICY_AMBIGUOUS_TEXT : string :=
  "the trust policy's generation log is lost, and its two slots fit two different histories (one trusts a key the other has revoked); run `prikk compact --trust-policy --keep-slot a|b --plan-only` to see both slots and choose, or restore the repository's whole `.prikk/` from a backup taken before the log was lost, then re-apply every trust change made since that backup".

Definition fold_one_trust_policy_entry (running : list TrustPolicySnapshotEntry) (entry : TrustPolicySnapshotEntry) : list TrustPolicySnapshotEntry := [entry].

Definition reduce_trust_policy_entries (entries : list TrustPolicySnapshotEntry) : list TrustPolicySnapshotEntry :=
  fold_left fold_one_trust_policy_entry entries [].

Fixpoint push_key_ids (body : list byte) (key_ids : list (list byte)) : PResult (list byte) :=
  match key_ids with
  | [] => Ok body
  | key_id :: rest =>
      let? body := push_string_u16 body key_id in
      push_key_ids body rest
  end.

Definition encode_trust_policy_body (entry : TrustPolicySnapshotEntry) : PResult (list byte) :=
  if 2 ^ 32 <=? Z.of_nat (length (ts_key_ids entry)) then Err (MalformedData "trust policy key count exceeds u32")
  else push_key_ids (push_u32 [] (Z.of_nat (length (ts_key_ids entry)))) (ts_key_ids entry).

(** The loop over [0..count]: every round reads at least two bytes. *)
Fixpoint read_key_ids (fuel : nat) (count : Z) (key_ids : list (list byte)) (c : ByteCursor) : PResult (list (list byte) * ByteCursor) :=
  if count <=? 0 then Ok (key_ids, c)
  else
    match fuel with
    | O => Err OutOfFuel
    | S fuel' =>
        let? '(key_id, c) := bc_read_string_u16 c in
        read_key_ids fuel' (count - 1) (key_ids ++ [key_id]) c
    end.

Definition decode_trust_policy_body (body : list byte) : PResult TrustPolicySnapshotEntry :=
  let c := ByteCursor_new body in
  let? '(count, c) := bc_read_u32 c in
  let? '(key_ids, c) := read_key_ids (S (length body)) count [] c in
  if negb (is_finished c) then Err (MalformedData "trailing bytes in trust policy snapshot body")
  else if bool_decide (NoDup key_ids) then Ok (mkTrustSnapshot key_ids)
  else Err (MalformedData "trust policy snapshot lists key id {key_id} more than once").

Definition TRUST_POLICY_FORMAT : LogFormat TrustPolicySnapshotEntry :=
  mkLogFormat _ "trust policy" (bytes_of_string "PTRUPOL1") 1 0 true (fun _ => decode_trust_policy_body) (fun _ => Ok tt)
    SCAN_BUDGET_EXCEEDED_AS_DAMAGE "invalid trust policy record magic, but a complete record's own checksum verifies".

Section trust_index.
Context `{Sha256}.

(** ** Operations on the keys *)

Definition encode_trust_key_record (entry : TrustKeyEntry) : PResult (list byte) :=
  let? body := encode_trust_key_body entry in
  let? _ := len_to_u64 (zlen body) in
  Ok (frame_log_record TRUST_KEY_FORMAT [] body).

Definition decode_trust_key_records (bytes : list byte) : PResult (LogReplay TrustKeyEntry) := decode_key_log TRUST_KEY_FORMAT bytes.

Definition replay_trust_keys (d : Disk) : PResult (LogReplay TrustKeyEntry) :=
  match d !! trust_key_container_path with
  | None => Ok (mkLogReplay [] 0 0 [])
  | Some bytes => decode_trust_key_records bytes
  end.

Definition lookup_trust_key_entry_with_tail (key_id : list byte) (d : Disk) : PResult (option TrustKeyEntry * (nat * nat)) :=
  let? replay := replay_trust_keys d in
  if log_has_item_failure replay then Err (Integrity TRUST_KEY_DAMAGE_TEXT)
  else Ok (last (filter (fun entry => tk_key_id entry = key_id) (lr_records replay)), (lr_trailing replay, lr_tail_offset replay)).

Definition lookup_trust_key_entry (key_id : list byte) (d : Disk) : PResult (option TrustKeyEntry) :=
  let? '(entry, _) := lookup_trust_key_entry_with_tail key_id d in Ok entry.

Definition append_trust_key_entry (entry : TrustKeyEntry) : IO unit :=
  do! record := io_lift (encode_trust_key_record entry) in
  append_file_required trust_key_container_path record.

Definition encode_author_key_record (entry : AuthorKeyEntry) : PResult (list byte) :=
  let? body := encode_author_key_body entry in
  let? _ := len_to_u64 (zlen body) in
  Ok (frame_log_record AUTHOR_KEY_FORMAT [] body).

Definition decode_author_key_records (bytes : list byte) : PResult (LogReplay AuthorKeyEntry) := decode_key_log AUTHOR_KEY_FORMAT bytes.

Definition replay_author_keys (d : Disk) : PResult (LogReplay AuthorKeyEntry) :=
  match d !! author_key_container_path with
  | None => Ok (mkLogReplay [] 0 0 [])
  | Some bytes => decode_author_key_records bytes
  end.

Definition lookup_author_key_entries_with_tail (key_id : list byte) (d : Disk) : PResult (list AuthorKeyEntry * (nat * nat)) :=
  let? replay := replay_author_keys d in
  if log_has_item_failure replay then Err (Integrity AUTHOR_KEY_DAMAGE_TEXT)
  else Ok (filter (fun entry => ak_key_id entry = key_id) (lr_records replay), (lr_trailing replay, lr_tail_offset replay)).

Definition lookup_author_key_entries (key_id : list byte) (d : Disk) : PResult (list AuthorKeyEntry) :=
  let? '(entries, _) := lookup_author_key_entries_with_tail key_id d in Ok entries.

Inductive AuthorKeyCheck : Type := AlreadyRecorded | NewKey.
#[global] Instance AuthorKeyCheck_eq_dec : EqDecision AuthorKeyCheck.
Proof. solve_decision. Defined.

Inductive AuthorKeyBinding : Type := Unrecorded | Matches | Mismatch.

Definition author_key_binding (key_id public_key : list byte) (d : Disk) : PResult AuthorKeyBinding :=
  let? existing := lookup_author_key_entries key_id d in
  if existsb (fun entry => bool_decide (ak_public_key entry = public_key)) existing then Ok Matches
  else if bool_decide (existing = []) then Ok Unrecorded
  else Ok Mismatch.

Definition LEGACY_AUTHOR_KEY_ID : list byte := bytes_of_string "author".

Definition check_author_key_conflict (key_id public_key : list byte) (d : Disk) : PResult AuthorKeyCheck :=
  let? binding := author_key_binding key_id public_key d in
  match binding with
  | Matches => Ok AlreadyRecorded
  | Unrecorded =>
      let? '(_, (trailing_partial_bytes, tail_offset)) := lookup_author_key_entries_with_tail key_id d in
      let? _ := require_no_unclean_tail "the author key container" trailing_partial_bytes tail_offset
                  "back it up, truncate it to the named offset, then run `prikk verify`" in
      Ok NewKey
  | Mismatch =>
      let? existing := lookup_author_key_entries key_id d in
      match existing with
      | _ :: _ =>
          if bool_decide (key_id = LEGACY_AUTHOR_KEY_ID)
          then Err (Integrity "author key_id {key_id} already has a different recorded public key ({}): both installations use the legacy default key id `{LEGACY_AUTHOR_KEY_ID}`, and one key_id binds to one public key. {..}")
          else Err (Integrity "author key_id {key_id} already has a different recorded public key ({}); one key_id binds to one public key -- this looks like a key-rotation attempt, which is not supported and is indistinguishable from impersonation")
      | [] => Ok NewKey
      end
  end.

(** The creation cannot race here: the file is absent when it is created. *)
Definition ensure_author_key_container_exists : IO unit :=
  do! found := io_read (read_file_if_exists author_key_container_path) in
  match found with
  | Some _ => io_ret tt
  | None => create_new_file_required author_key_container_path []
  end.

Definition record_author_key_material (key_id public_key : list byte) : IO unit :=
  do! check := io_read (check_author_key_conflict key_id public_key) in
  if bool_decide (check = AlreadyRecorded) then io_ret tt
  else
    do! record := io_lift (encode_author_key_record (mkAuthorKey key_id public_key)) in
    do! _ := ensure_author_key_container_exists in
    append_file_required author_key_container_path record.

(** ** Operations on the policy *)

Definition encode_trust_policy_record (entry : TrustPolicySnapshotEntry) : PResult (list byte) :=
  let? body := encode_trust_policy_body entry in
  let? _ := len_to_u64 (zlen body) in
  Ok (frame_log_record TRUST_POLICY_FORMAT [] body).

Definition decode_trust_policy_records (bytes : list byte) : PResult (LogReplay TrustPolicySnapshotEntry) := decode_log TRUST_POLICY_FORMAT bytes.

Definition decode_trust_policy_entries_for_resolver (bytes : list byte) : PResult (list TrustPolicySnapshotEntry * bool) :=
  let? replay := decode_trust_policy_records bytes in
  Ok (lr_records replay, log_has_item_failure replay).

Definition resolve_trust_policy_slot (d : Disk) : PResult ContainerSlot :=
  resolve_live_slot fold_one_trust_policy_entry trust_policy_generation_log_path (trust_policy_container_slot_path SlotA)
    (trust_policy_container_slot_path SlotB) TRUST_POLICY_DAMAGE_TEXT TRUST_POLICY_AMBIGUOUS_TEXT decode_trust_policy_entries_for_resolver d.

Definition replay_trust_policy (d : Disk) : PResult (LogReplay TrustPolicySnapshotEntry) :=
  let? slot := resolve_trust_policy_slot d in
  match d !! trust_policy_container_slot_path slot with
  | None => Ok (mkLogReplay [] 0 0 [])
  | Some bytes => decode_trust_policy_records bytes
  end.

Definition read_current_trust_policy_snapshot_with_tail (d : Disk) : PResult (option (list (list byte)) * (nat * nat)) :=
  let? replay := replay_trust_policy d in
  if log_has_item_failure replay then Err (Integrity TRUST_POLICY_DAMAGE_TEXT)
  else Ok (ts_key_ids <$> last (lr_records replay), (lr_trailing replay, lr_tail_offset replay)).

Definition read_current_trust_policy_snapshot (d : Disk) : PResult (option (list (list byte))) :=
  let? '(snapshot, _) := read_current_trust_policy_snapshot_with_tail d in Ok snapshot.

Definition append_trust_policy_snapshot (key_ids : list (list byte)) : IO unit :=
  do! record := io_lift (encode_trust_policy_record (mkTrustSnapshot key_ids)) in
  do! slot := io_read resolve_trust_policy_slot in
  append_file_required (trust_policy_container_slot_path slot) record.
End trust_index.

(** ** Author signatures (author/author_key_index.rs) *)

Section author_signature.
Context `{Sha256} `{Ed25519Verify}.

Definition verify_one_author_signature (envelope : ObjectEnvelope) (signature : Signature) (candidate_entries : list AuthorKeyEntry) : PResult (list byte * bool) :=
  if negb (bool_decide (algorithm signature = Ed25519)) then Err (InvalidSignature "AUTHOR signature is not Ed25519")
  else
    match candidate_entries with
    | [] => Ok (key_id signature, false)
    | first :: _ =>
        if existsb (fun entry => negb (bool_decide (ak_public_key entry = ak_public_key first))) candidate_entries
        then Err (Integrity "author key_id {} has more than one distinct recorded public key -- authorship integrity for this key_id cannot be established{}")
        else
          let? preimage := signed_bytes Ed25519 (object_type envelope) (object_id envelope) Author (key_id signature) in
          if negb (existsb (fun entry => is_ok (verify_ed25519 (ak_public_key entry) preimage (signature_bytes signature))) candidate_entries)
          then Err (InvalidSignature "{} {} AUTHOR signature does not verify against recorded key material for {}")
          else Ok (key_id signature, true)
    end.

(** The loop over the AUTHOR signatures, with the first sound and the first unverifiable signer. *)
Fixpoint author_signatures_loop (envelope : ObjectEnvelope) (material_for : list byte -> PResult (list AuthorKeyEntry)) (signatures : list Signature)
    (first_sound first_unverifiable : option (list byte)) : PResult (option (list byte) * option (list byte)) :=
  match signatures with
  | [] => Ok (first_sound, first_unverifiable)
  | signature :: rest =>
      let? entries := material_for (key_id signature) in
      let? '(id, sound) := verify_one_author_signature envelope signature entries in
      if (sound : bool)
      then author_signatures_loop envelope material_for rest (match first_sound with None => Some id | Some k => Some k end) first_unverifiable
      else author_signatures_loop envelope material_for rest first_sound (match first_unverifiable with None => Some id | Some k => Some k end)
  end.

Definition verify_author_signatures_with (envelope : ObjectEnvelope) (material_for : list byte -> PResult (list AuthorKeyEntry)) : PResult (option (list byte * bool)) :=
  let? '(first_sound, first_unverifiable) :=
    author_signatures_loop envelope material_for (filter (fun s => signer_role s = Author) (signatures envelope)) None None in
  Ok (match first_unverifiable, first_sound with
      | Some id, _ => Some (id, false)
      | None, Some id => Some (id, true)
      | None, None => None
      end).

Definition verify_author_signature (envelope : ObjectEnvelope) (d : Disk) : PResult (option (list byte * bool)) :=
  verify_author_signatures_with envelope (fun id => lookup_author_key_entries id d).
End author_signature.
