(* ===== verification/TrustStore.v ===== *)
(** * The trust store (crates/prikk-store/src/trust.rs, maintainer_signing.rs, author/author_signing.rs)

    A repository trusts the maintainer keys it has adopted.  A key id stays bound to the first public key
    it was adopted with, also after its removal from the policy.  [ensure_publication_precondition] comes
    from Precondition.v; the locks only serialise writers. *)

From S2P Require Import Prelude PrikkError Hash Utf8 ObjectId Signature Envelope ByteCursor FileCodec RepoPath ObjectStore.
From S2P Require Import TailLog FileSystem ObjectDisk RefLog Precondition TrustIndex AnchorState.

(** ** Public keys in hexadecimal *)

Definition is_ascii_hexdigit (b : byte) : bool := in_range 48 57 b || in_range 65 70 b || in_range 97 102 b.

Definition hex_value (b : byte) : PResult Z :=
  if in_range 48 57 b then Ok (bz b - 48)
  else if in_range 97 102 b then Ok (bz b - 97 + 10)
  else Err (MalformedData "maintainer public key must use lowercase hex").

(** The loop over the pairs of digits. *)
Fixpoint hex_pairs (hex : list byte) : PResult (list byte) :=
  match hex with
  | hi :: lo :: rest =>
      let? hi := hex_value hi in
      let? lo := hex_value lo in
      let? out := hex_pairs rest in
      Ok (zb (Z.lor (Z.shiftl hi 4) lo) :: out)
  | _ => Ok []
  end.

Definition decode_public_key_hex (hex : list byte) : PResult (list byte) :=
  if negb (zlen hex =? ED25519_KEY_LEN * 2) then Err (MalformedData "maintainer public key must be {} lowercase hex characters")
  else if negb (forallb is_ascii_hexdigit hex) then Err (MalformedData "maintainer public key contains non-hex bytes")
  else if existsb (in_range 65 90) hex then Err (MalformedData "maintainer public key must use lowercase hex")
  else hex_pairs hex.

(** ** Adopting and removing *)

Definition validate_maintainer_key_id_storage_safety (key_id : list byte) : PResult unit :=
  if bool_decide (key_id = []) || negb (forallb is_key_id_byte key_id) then Err (InvalidName "maintainer key id is not storage-safe")
  else if is_windows_reserved_name key_id then Err (InvalidName "maintainer key id is a Windows reserved device name: {key_id}")
  else Ok tt.

(** The loop over [key_ids]. *)
Definition validate_no_maintainer_key_id_collision (key_ids : list (list byte)) (key_id : list byte) : PResult unit :=
  if existsb (fun existing => negb (bool_decide (existing = key_id)) && bool_decide (ascii_fold existing = ascii_fold key_id)) key_ids
  then Err (InvalidName "case-insensitive maintainer key id collision involving: {existing_id}")
  else Ok tt.

Definition key_id_bound_message (key_id : list byte) (currently_adopted : bool) : string :=
  if currently_adopted then "maintainer key id {key_id} is already adopted with a different public key. {DISTINCT_ID_ROUTE}"
  else "maintainer key id {key_id} is not currently adopted (it was removed), but it stays bound to the public key it was first adopted with, and a different public key is refused: removing an id takes it out of the adopted set, not out of the record of which key it belongs to. Re-adopting {key_id} with its original public key still works. {DISTINCT_ID_ROUTE}".

Section trust_store.
Context `{Sha256} (format : RepositoryFormat).

Definition current_adopted_key_ids (d : Disk) : PResult (list (list byte) * (nat * nat)) :=
  let? '(snapshot, tail) := read_current_trust_policy_snapshot_with_tail d in
  Ok (default [] snapshot, tail).

Definition TRUST_TAIL_WAY_OUT : string := "back it up, truncate it to the named offset, then run `prikk verify`".

(** Whether the key is appended: not when it is on record already; refused when another one is. *)
Definition key_will_append_for (key_id public_key : list byte) (currently_adopted : bool) (existing_entry : option TrustKeyEntry) : PResult bool :=
  match existing_entry with
  | Some existing =>
      if bool_decide (tk_public_key existing = public_key) then Ok false
      else Err (MaintainerKeyIdBound key_id currently_adopted (key_id_bound_message key_id currently_adopted))
  | None => Ok true
  end.

(** What is decided before the first byte is written. *)
Definition plan_add (key_id public_key_hex : list byte) (d : Disk) : PResult (list byte * list (list byte) * bool * bool) :=
  let? _ := require_current_format format d in
  let? _ := ensure_no_incomplete_publication format d in
  let? _ := validate_key_id key_id in
  let? _ := validate_maintainer_key_id_storage_safety key_id in
  let? public_key := decode_public_key_hex public_key_hex in
  let? '(key_ids, (policy_trailing, policy_offset)) := current_adopted_key_ids d in
  let? _ := validate_no_maintainer_key_id_collision key_ids key_id in
  let? '(existing_entry, (key_trailing, key_offset)) := lookup_trust_key_entry_with_tail key_id d in
  let currently_adopted := bool_decide (key_id ∈ key_ids) in
  let? key_will_append := key_will_append_for key_id public_key currently_adopted existing_entry in
  let policy_will_append := negb currently_adopted in
  let? _ := if (key_will_append : bool) then require_no_unclean_tail "the trust key container" key_trailing key_offset TRUST_TAIL_WAY_OUT else Ok tt in
  let? _ := if policy_will_append then require_no_unclean_tail "the trust policy container" policy_trailing policy_offset TRUST_TAIL_WAY_OUT else Ok tt in
  Ok (public_key, key_ids, key_will_append, policy_will_append).

Definition add_trusted_maintainer (key_id public_key_hex : list byte) : IO (AdoptedMaintainerKey * bool) :=
  do! '(public_key, key_ids, key_will_append, policy_will_append) := io_read (plan_add key_id public_key_hex) in
  do! _ := if (key_will_append : bool) then append_trust_key_entry (mkTrustKey key_id public_key) else io_ret tt in
  if negb policy_will_append then io_ret (mkAdoptedKey key_id public_key, false)
  else
    do! _ := append_trust_policy_snapshot (key_ids ++ [key_id]) in
    io_ret (mkAdoptedKey key_id public_key, true).

Definition remove_trusted_maintainer (key_id : list byte) : IO bool :=
  do! _ := io_read (require_current_format format) in
  do! _ := io_read (ensure_no_incomplete_publication format) in
  do! '(key_ids, (trailing_partial_bytes, tail_offset)) := io_read current_adopted_key_ids in
  let remaining := filter (fun existing => existing <> key_id) key_ids in
  if (length remaining =? length key_ids)%nat then io_ret false
  else if bool_decide (remaining = [])
  then io_err (Integrity "cannot remove the last trusted maintainer key; a repository policy must not be explicitly empty")
  else
    do! _ := io_lift (require_no_unclean_tail "the trust policy container" trailing_partial_bytes tail_offset TRUST_TAIL_WAY_OUT) in
    do! _ := append_trust_policy_snapshot remaining in
    io_ret true.

(** ** Loading the policy *)

(** The loop over the key ids. *)
Fixpoint load_keys (key_ids : list (list byte)) (d : Disk) : PResult MaintainerTrustPolicy :=
  match key_ids with
  | [] => Ok []
  | key_id :: rest =>
      let? found := lookup_trust_key_entry key_id d in
      let? entry := ok_or found (Integrity "trusted maintainer key {key_id} is missing or unreadable") in
      let? keys := load_keys rest d in
      Ok (mkAdoptedKey (tk_key_id entry) (tk_public_key entry) :: keys)
  end.

Definition load_maintainer_trust_policy (d : Disk) : PResult MaintainerTrustPolicy :=
  let? snapshot := read_current_trust_policy_snapshot d in
  let? key_ids := ok_or snapshot (Precondition "no maintainer key is adopted in this repository yet; run `prikk trust maintainer add` (a trust policy container that replays empty reads the same way -- run `prikk doctor` if a key was adopted here before)") in
  load_keys key_ids d.

Definition load_maintainer_trust_policy_or_empty (d : Disk) : PResult MaintainerTrustPolicy :=
  let? snapshot := read_current_trust_policy_snapshot d in
  match snapshot with
  | Some _ => load_maintainer_trust_policy d
  | None => Ok []
  end.
End trust_store.

(** ** Signers (maintainer_signing.rs, author/author_signing.rs) *)

(** The traits [MaintainerSigner] and [AuthorSigner]. *)
Class Signer : Type := {
  signer_key_id : list byte;
  signer_sign : list byte -> PResult (list byte);
  signer_public_key : list byte;
}.

Inductive GatedOperation : Type := Seal | Merge | SyncBuild | SyncSeal | SyncAdoptTag | TagCreate | BranchCreate | BranchClose | RefComplete.

Section signing.
Context `{Sha256} `{Ed25519Verify}.

Definition finish_signature (signer : Signer) (preimage : list byte) (role : SignerRole) : PResult Signature :=
  let? bytes := @signer_sign signer preimage in
  let signature := mkSignature Ed25519 (@signer_key_id signer) bytes 0 role in
  let? _ := Signature_validate signature in
  let? _ := Signature_validate_shape signature in
  Ok signature.

Definition maintainer_signature (signer : Signer) (object_type : ObjectType) (object_id : ObjectId) : PResult Signature :=
  let? preimage := signed_bytes Ed25519 object_type object_id Maintainer (@signer_key_id signer) in
  finish_signature signer preimage Maintainer.

Definition author_signature (signer : Signer) (object_id : ObjectId) : PResult Signature :=
  let? preimage := signed_bytes Ed25519 Patch object_id Author (@signer_key_id signer) in
  finish_signature signer preimage Author.

Definition author_key_ids (envelope : ObjectEnvelope) : list (list byte) :=
  key_id <$> filter (fun s => signer_role s = Author) (signatures envelope).

Definition require_author_key_id (envelope : ObjectEnvelope) : PResult (list byte) :=
  ok_or (key_id <$> head (filter (fun s => signer_role s = Author) (signatures envelope))) (Integrity "{} {} has no AUTHOR signature").

(** ** Publication trust *)

(** The operation is named and not read. *)
Definition verify_signer_trusted (signer : Signer) (operation : GatedOperation) (d : Disk) : PResult MaintainerTrustPolicy :=
  let? policy := load_maintainer_trust_policy d in
  let? matched := ok_or (policy_find policy (@signer_key_id signer))
    (Precondition "maintainer signer key id {} is not trusted by policy; run `prikk trust maintainer add` for it, or export a key id this repository already trusts") in
  if negb (bool_decide (@signer_public_key signer = amk_public_key matched))
  then Err (InvalidSignature "maintainer signer public key does not match trusted key {}")
  else Ok policy.

Definition refuse_forged_publication_signature (command : string) (policy : MaintainerTrustPolicy) (envelope : ObjectEnvelope) : PResult unit :=
  match verify_trusted_publication_envelope policy envelope with
  | Ok _ => Ok tt
  | Err issue =>
      if bool_decide (pti_code issue = "PRIKK-TRUST-PUBLICATION-UNTRUSTED") then Ok tt
      else Err (ForgedPublicationSignature command "{} -- a forgery, or another maintainer using the same key id; if it is the latter, that maintainer should sign under a distinct id next time {..}; refusing before admitting it")
  end.

Inductive PublicationSignatureOutcome : Type := SoundSignature | InvalidOutcome | Unverifiable.

Definition classify_publication_signatures (policy : MaintainerTrustPolicy) (envelope : ObjectEnvelope) : list (list byte * PublicationSignatureOutcome) :=
  map (fun signature =>
    (key_id signature,
     if negb (is_some (policy_find policy (key_id signature))) then Unverifiable
     else if is_ok (verify_trusted_signature policy envelope signature (object_id envelope)) then SoundSignature
     else InvalidOutcome))
    (filter (fun s => signer_role s = Maintainer) (signatures envelope)).

Inductive CarriedKeyRepositoryStatus : Type := NotAdopted | Adopted | Conflicts.

Definition classify_carried_key_against_repository (policy : MaintainerTrustPolicy) (key_id public_key_hex : list byte) : CarriedKeyRepositoryStatus :=
  match policy_find policy key_id with
  | None => NotAdopted
  | Some existing => if bool_decide (to_hex (amk_public_key existing) = public_key_hex) then Adopted else Conflicts
  end.
End signing.
