(* ===== verification/Compact.v ===== *)
(** * Compaction (crates/prikk-store/src/compact.rs, received/remove.rs, foundation/generation.rs, recovery_log.rs)

    Three containers have two slots and a generation log: the ref pointer index, the received index and the
    trust policy.  A compaction writes the reduced entries of the live slot to the other slot and then
    appends the generation record that makes it live.  [SlotContainer] says what differs between the
    containers; what the source repeats for each of them is written once over it. *)

From S2P Require Import Prelude PrikkError Hash Utf8 ObjectId ByteCursor FileCodec RepoPath ObjectStore.
From S2P Require Import FrameResync IndexFile TailLog FileSystem ObjectDisk Generation RefLog RefStore RecoveryLog RecoveryEntry Received TrustIndex.

Inductive LockableContainer : Type := RefPointerIndex | RefLogContainer | ReceivedIndex | TrustPolicy | ObjectStoreContainer.

(** [ContainerSlot::other]. *)
Definition slot_other (slot : ContainerSlot) : ContainerSlot := match slot with SlotA => SlotB | SlotB => SlotA end.

Record SlotContainer (T : Type) : Type := mkSlotContainer {
  sc_container : LockableContainer;
  sc_label : string;
  sc_generation_log : string;
  sc_slot : ContainerSlot -> string;
  sc_damage_text : string;
  sc_ambiguous_text : string;
  sc_corrupt_text : string;
  sc_format : LogFormat T;
  sc_fold : list T -> T -> list T;
}.
Arguments sc_container {T}.
Arguments sc_label {T}.
Arguments sc_generation_log {T}.
Arguments sc_slot {T}.
Arguments sc_damage_text {T}.
Arguments sc_ambiguous_text {T}.
Arguments sc_corrupt_text {T}.
Arguments sc_format {T}.
Arguments sc_fold {T}.

Definition POINTER_INDEX : SlotContainer PointerIndexEntry :=
  mkSlotContainer _ RefPointerIndex "the ref pointer index" ref_pointer_index_generation_log_path ref_pointer_index_slot_path
    POINTER_INDEX_DAMAGE_TEXT POINTER_INDEX_AMBIGUOUS_TEXT
    "ref pointer index has a damaged entry; compaction refuses to run on a corrupt container -- run doctor first"
    POINTER_INDEX_FORMAT fold_one_pointer_index_entry.

Definition RECEIVED_INDEX : SlotContainer ReceivedIndexEntry :=
  mkSlotContainer _ ReceivedIndex "the received index" received_index_generation_log_path received_index_slot_path
    RECEIVED_INDEX_DAMAGE_TEXT RECEIVED_INDEX_AMBIGUOUS_TEXT
    "received-ref index has a damaged entry; compaction refuses to run on a corrupt container -- run doctor first"
    RECEIVED_INDEX_FORMAT fold_one_received_index_entry.

Definition TRUST_POLICY : SlotContainer TrustPolicySnapshotEntry :=
  mkSlotContainer _ TrustPolicy "the trust policy container" trust_policy_generation_log_path trust_policy_container_slot_path
    TRUST_POLICY_DAMAGE_TEXT TRUST_POLICY_AMBIGUOUS_TEXT
    "trust policy container has a damaged snapshot; compaction refuses to run on a corrupt container -- run doctor first"
    TRUST_POLICY_FORMAT fold_one_trust_policy_entry.

(** ** Saving what a rewrite replaces (recovery_log.rs) *)

Section save.
Context `{Sha256}.

Definition replace_entry (source : string) (previous written : list byte) (label : string) (meaning : list Meaning) : Entry :=
  mkEntry Replace (replicate 8 x00) (bytes_of_string source) 0 (bytes_of_string label) CARGO_PKG_VERSION (sha256 previous) meaning previous (sha256 written).

Definition save_replace (run : list byte) (source : string) (previous written : list byte) (label : string) : IO RecoveryRef :=
  do! paths := io_read (meaning_paths_for source) in
  do! meaning := io_read (fun d => Ok (meaning_now paths d)) in
  recovery_append run (replace_entry source previous written label meaning).

(** The two saves before a rewrite of a slot: the slot, and then the generation log with the record that the
    rewrite will append. *)
Definition save_slot_rewrite (run : list byte) (target_path generation_log_path : string) (target_slot : ContainerSlot) (buffer : list byte) (label : string) : IO unit :=
  do! target_before := io_read (fun d => Ok (default [] (d !! target_path))) in
  do! _ := save_replace run target_path target_before buffer label in
  do! generation_log_before := io_read (fun d => Ok (default [] (d !! generation_log_path))) in
  do! _ := save_replace run generation_log_path generation_log_before (generation_log_before ++ encode_generation_record target_slot) label in
  io_ret tt.
End save.

(** ** What the containers share *)

Section container.
Context `{Sha256} {T : Type} `{EqDecision T} (C : SlotContainer T).

Definition decode_container (bytes : list byte) : PResult (list T * bool) :=
  let? replay := decode_log (sc_format C) bytes in
  Ok (lr_records replay, log_has_item_failure replay).

Definition resolve_container (d : Disk) : PResult (ContainerSlot * nat * nat * option DeductionReason) :=
  resolve_or_deduce (sc_fold C) (sc_generation_log C) (sc_slot C SlotA) (sc_slot C SlotB) (sc_damage_text C) (sc_ambiguous_text C) decode_container d.

Definition resolve_live_slot_with_tail (d : Disk) : PResult (ContainerSlot * nat * nat) :=
  let? '(slot, trailing, offset, _) := resolve_container d in
  Ok (slot, trailing, offset).

Definition replay_container (d : Disk) : PResult (LogReplay T) :=
  let? '(slot, _, _, _) := resolve_container d in
  match d !! sc_slot C slot with
  | None => Ok (mkLogReplay [] 0 0 [])
  | Some bytes => decode_log (sc_format C) bytes
  end.

Definition REPAIR_TAILS_WAY_OUT : string := "run `prikk doctor --repair-tails`, then retry".

Definition require_clean_generation_log (trailing offset : nat) : PResult unit :=
  require_no_unclean_tail (sc_label C +:+ "'s generation log") trailing offset REPAIR_TAILS_WAY_OUT.
Definition require_clean_live_slot (replay : LogReplay T) : PResult unit :=
  require_no_unclean_tail (sc_label C) (lr_trailing replay) (lr_tail_offset replay) REPAIR_TAILS_WAY_OUT.

(** The three [precheck_*_before_compaction]. *)
Definition precheck_before_compaction (d : Disk) : PResult unit :=
  let? '(_, trailing, offset) := resolve_live_slot_with_tail d in
  let? _ := require_clean_generation_log trailing offset in
  let? replay := replay_container d in
  if log_has_item_failure replay then Err (Integrity (sc_corrupt_text C)) else require_clean_live_slot replay.

Definition refuse_damaged (replay : LogReplay T) (corrupt_text : string) : PResult unit :=
  if log_has_item_failure replay then Err (Integrity corrupt_text) else Ok tt.

(** Truncate the slot, write the new bytes, name the slot live. *)
Definition switch_slot (target_slot : ContainerSlot) (buffer : list byte) : IO unit :=
  do! _ := truncate_file_empty_required (sc_slot C target_slot) in
  do! _ := append_file_required (sc_slot C target_slot) buffer in
  append_generation_record (sc_generation_log C) target_slot.

(** [keep_slot_state] (foundation/generation.rs). *)
Inductive KeepSlotStatus : Type := SlotDamaged | SlotEntries (entries : list T).

Inductive KeepSlotState : Type :=
| LiveSlotRecorded (slot : ContainerSlot)
| NeverCompacted
| LostLog (slot_a slot_b : KeepSlotStatus) (deduced : option (ContainerSlot * DeductionReason)).

Definition keep_slot_deduction (a b : list T) : option (ContainerSlot * DeductionReason) :=
  match stale_beside (sc_fold C) a b, stale_beside (sc_fold C) b a with
  | false, true => Some (SlotA, BStaleBesideA)
  | true, false => Some (SlotB, AStaleBesideB)
  | true, true => if bool_decide (fold_all (sc_fold C) a = fold_all (sc_fold C) b) then Some (SlotA, BothSlotsAgree) else None
  | false, false => None
  end.

Definition keep_slot_state (d : Disk) : PResult KeepSlotState :=
  let? replay := replay_generation_log (sc_generation_log C) d in
  if generation_has_item_failure replay then Err (Integrity (sc_damage_text C))
  else
    match last (gr_records replay) with
    | Some slot => Ok (LiveSlotRecorded slot)
    | None =>
        if negb (slot_b_has_data (sc_slot C SlotB) d) then Ok NeverCompacted
        else
          let? '(entries_a, damaged_a) := decode_container (default [] (d !! sc_slot C SlotA)) in
          let? '(entries_b, damaged_b) := decode_container (default [] (d !! sc_slot C SlotB)) in
          let slot_a := if (damaged_a : bool) then SlotDamaged else SlotEntries entries_a in
          let slot_b := if (damaged_b : bool) then SlotDamaged else SlotEntries entries_b in
          let deduced :=
            match slot_a, slot_b with
            | SlotEntries a, SlotEntries b => keep_slot_deduction a b
            | _, _ => None
            end in
          Ok (LostLog slot_a slot_b deduced)
    end.
End container.
Arguments SlotDamaged {T}.
Arguments SlotEntries {T}.
Arguments LiveSlotRecorded {T}.
Arguments NeverCompacted {T}.
Arguments LostLog {T}.

(** ** Compaction *)

Record CompactionReport : Type := mkCompactionReport { cr_container : LockableContainer; cr_entries_before : nat; cr_entries_after : nat }.

Inductive CompactionMode : Type := Execute | PlanOnly.
#[global] Instance CompactionMode_eq_dec : EqDecision CompactionMode.
Proof. solve_decision. Defined.

(** The loop that fills [buffer]. *)
Fixpoint encode_all {T} (encode : T -> PResult (list byte)) (entries : list T) (buffer : list byte) : PResult (list byte) :=
  match entries with
  | [] => Ok buffer
  | entry :: rest =>
      let? record := encode entry in
      encode_all encode rest (buffer ++ record)
  end.

Section compact.
Context `{Sha256} (format : RepositoryFormat).

Definition run_ref_pointer_index_compaction (mode : CompactionMode) : IO CompactionReport :=
  do! _ := io_read (require_current_format format) in
  do! '(live_slot, trailing, offset, live_slot_deduced) := io_read (resolve_container POINTER_INDEX) in
  if is_some live_slot_deduced
  then io_err (Precondition "ref pointer index's generation log names no live slot; compaction refuses to act on a deduced slot -- run `prikk doctor --rebuild-pointer-index --plan-only`, then `prikk doctor --rebuild-pointer-index` instead, which re-derives the index from the ref log directly, never reading either slot as live")
  else
    do! replay := io_read replay_pointer_index in
    do! _ := io_lift (refuse_damaged replay (sc_corrupt_text POINTER_INDEX)) in
    let compacted := reduce_pointer_index_entries (lr_records replay) in
    do! _ :=
      if bool_decide (mode = Execute) then
        do! _ := io_lift (require_clean_generation_log POINTER_INDEX trailing offset) in
        do! _ := io_lift (require_clean_live_slot POINTER_INDEX replay) in
        do! _ := truncate_file_empty_required (ref_pointer_index_slot_path (slot_other live_slot)) in
        do! buffer := io_lift (encode_all encode_pointer_index_record compacted []) in
        do! _ := append_file_required (ref_pointer_index_slot_path (slot_other live_slot)) buffer in
        append_generation_record ref_pointer_index_generation_log_path (slot_other live_slot)
      else io_ret tt in
    io_ret (mkCompactionReport RefPointerIndex (length (lr_records replay)) (length compacted)).

Definition compact_ref_pointer_index : IO CompactionReport := run_ref_pointer_index_compaction Execute.
Definition plan_compact_ref_pointer_index : IO CompactionReport := run_ref_pointer_index_compaction PlanOnly.

Definition run_received_index_compaction (run : list byte) (mode : CompactionMode) : IO CompactionReport :=
  do! _ := io_read (require_current_format format) in
  do! '(live_slot, trailing, offset, live_slot_deduced) := io_read (resolve_container RECEIVED_INDEX) in
  do! replay := io_read replay_received_index in
  do! _ := io_lift (refuse_damaged replay (sc_corrupt_text RECEIVED_INDEX)) in
  let compacted := reduce_received_index_entries (lr_records replay) in
  do! _ :=
    if bool_decide (mode = Execute) then
      do! _ := io_lift (require_clean_generation_log RECEIVED_INDEX trailing offset) in
      do! _ := io_lift (require_clean_live_slot RECEIVED_INDEX replay) in
      do! buffer := io_lift (encode_all encode_received_index_record compacted []) in
      do! _ :=
        if is_some live_slot_deduced
        then save_slot_rewrite run (received_index_slot_path (slot_other live_slot)) received_index_generation_log_path (slot_other live_slot) buffer
               "received index compaction over a deduced live slot"
        else io_ret tt in
      switch_slot RECEIVED_INDEX (slot_other live_slot) buffer
    else io_ret tt in
  io_ret (mkCompactionReport ReceivedIndex (length (lr_records replay)) (length compacted)).

Definition compact_received_index (run : list byte) : IO CompactionReport := run_received_index_compaction run Execute.
Definition plan_compact_received_index (run : list byte) : IO CompactionReport := run_received_index_compaction run PlanOnly.

(** The bytes of the one snapshot that survives. *)
Definition snapshot_buffer (compacted : list TrustPolicySnapshotEntry) : PResult (list byte) :=
  match compacted with
  | entry :: _ => encode_trust_policy_record entry
  | [] => Ok []
  end.

Definition switch_trust_slot (target_slot : ContainerSlot) (buffer : list byte) : IO unit :=
  do! _ := truncate_file_empty_required (trust_policy_container_slot_path target_slot) in
  do! _ := if negb (bool_decide (buffer = [])) then append_file_required (trust_policy_container_slot_path target_slot) buffer else io_ret tt in
  append_generation_record trust_policy_generation_log_path target_slot.

Definition run_trust_policy_compaction (run : list byte) (mode : CompactionMode) : IO CompactionReport :=
  do! _ := io_read (require_current_format format) in
  do! '(live_slot, trailing, offset, live_slot_deduced) := io_read (resolve_container TRUST_POLICY) in
  do! replay := io_read replay_trust_policy in
  do! _ := io_lift (refuse_damaged replay (sc_corrupt_text TRUST_POLICY)) in
  let compacted := reduce_trust_policy_entries (lr_records replay) in
  do! _ :=
    if bool_decide (mode = Execute) then
      do! _ := io_lift (require_clean_generation_log TRUST_POLICY trailing offset) in
      do! _ := io_lift (require_clean_live_slot TRUST_POLICY replay) in
      do! buffer := io_lift (snapshot_buffer compacted) in
      do! _ :=
        if is_some live_slot_deduced
        then save_slot_rewrite run (trust_policy_container_slot_path (slot_other live_slot)) trust_policy_generation_log_path (slot_other live_slot) buffer
               "trust policy compaction over a deduced live slot"
        else io_ret tt in
      switch_trust_slot (slot_other live_slot) buffer
    else io_ret tt in
  io_ret (mkCompactionReport TrustPolicy (length (lr_records replay)) (length compacted)).

Definition compact_trust_policy (run : list byte) : IO CompactionReport := run_trust_policy_compaction run Execute.
Definition plan_compact_trust_policy (run : list byte) : IO CompactionReport := run_trust_policy_compaction run PlanOnly.

(** ** Choosing a slot *)

Record KeepSlotReport : Type := mkKeepSlotReport {
  ks_container : LockableContainer;
  ks_chosen_slot : ContainerSlot;
  ks_slot_a : nat * list (list byte);
  ks_slot_b : nat * list (list byte);
  ks_only_in_a : list (list byte);
  ks_only_in_b : list (list byte);
  ks_deduced_slot : option ContainerSlot;
  ks_target_slot : ContainerSlot;
  ks_entries_after : nat;
  ks_wrote : bool;
  ks_run_id : option (list byte);
}.

(** The two summaries, the deduced slot and the entries of the chosen slot. *)
Definition keep_slot_precondition {T} (state : KeepSlotState) (chosen : ContainerSlot) (summarize : list T -> nat * list (list byte))
  : PResult ((nat * list (list byte)) * (nat * list (list byte)) * option ContainerSlot * list T) :=
  match state with
  | LiveSlotRecorded _ => Err (Precondition "the generation log names slot {}; `--keep-slot` is only for a lost log -- run plain `prikk compact {plain_compact_flag}`")
  | NeverCompacted => Err (Precondition "slot a is live; there is nothing to choose")
  | LostLog slot_a slot_b deduced =>
      let describe status := match status with SlotDamaged => (0%nat, [bytes_of_string "(damaged; cannot be read)"]) | SlotEntries entries => summarize entries end in
      match (match chosen with SlotA => slot_a | SlotB => slot_b end) with
      | SlotDamaged => Err (Precondition "slot {} cannot be read; its own damage makes it unsafe to treat as live")
      | SlotEntries chosen_entries =>
          if bool_decide (length chosen_entries = 0%nat) then Err (Precondition "slot {} holds no entries; it cannot be the live slot")
          else Ok (describe slot_a, describe slot_b, fst <$> deduced, chosen_entries)
      end
  end.

Definition summarize_trust_policy (entries : list TrustPolicySnapshotEntry) : nat * list (list byte) :=
  let ids := default [] (ts_key_ids <$> head (reduce_trust_policy_entries entries)) in
  (length entries, sort_by bytes_cmp ids).

(** [BTreeSet::difference] of two summaries. *)
Definition difference (left right : list (list byte)) : list (list byte) :=
  filter (fun s => s ∉ right) (remove_dups (sort_by bytes_cmp left)).

Definition run_trust_policy_keep_slot (run : list byte) (chosen : ContainerSlot) (mode : CompactionMode) : IO KeepSlotReport :=
  do! _ := io_read (require_current_format format) in
  do! state := io_read (keep_slot_state TRUST_POLICY) in
  do! '(slot_a, slot_b, deduced_slot, chosen_entries) := io_lift (keep_slot_precondition state chosen summarize_trust_policy) in
  let compacted := reduce_trust_policy_entries chosen_entries in
  let target_slot := slot_other chosen in
  do! run_id :=
    if bool_decide (mode = Execute) then
      do! buffer := io_lift (snapshot_buffer compacted) in
      do! _ := save_slot_rewrite run (trust_policy_container_slot_path target_slot) trust_policy_generation_log_path target_slot buffer
                 "trust policy --keep-slot over a lost generation log" in
      do! _ := switch_trust_slot target_slot buffer in
      io_ret (Some (to_hex run))
    else io_ret None in
  io_ret (mkKeepSlotReport TrustPolicy chosen slot_a slot_b (difference slot_a.2 slot_b.2) (difference slot_b.2 slot_a.2) deduced_slot target_slot
            (length compacted) (bool_decide (mode = Execute)) run_id).

Definition summarize_received_index (entries : list ReceivedIndexEntry) : nat * list (list byte) :=
  let lines := map (fun entry => rx_ref_name entry ++ bytes_of_string ": " ++ ObjectId_to_hex (rx_ref_state_id entry)) (reduce_received_index_entries entries) in
  (length entries, sort_by bytes_cmp lines).

Definition run_received_index_keep_slot (run : list byte) (chosen : ContainerSlot) (mode : CompactionMode) : IO KeepSlotReport :=
  do! _ := io_read (require_current_format format) in
  do! state := io_read (keep_slot_state RECEIVED_INDEX) in
  do! '(slot_a, slot_b, deduced_slot, chosen_entries) := io_lift (keep_slot_precondition state chosen summarize_received_index) in
  let compacted := reduce_received_index_entries chosen_entries in
  let target_slot := slot_other chosen in
  do! run_id :=
    if bool_decide (mode = Execute) then
      do! buffer := io_lift (encode_all encode_received_index_record compacted []) in
      do! _ := save_slot_rewrite run (received_index_slot_path target_slot) received_index_generation_log_path target_slot buffer
                 "received index --keep-slot over a lost generation log" in
      do! _ := switch_slot RECEIVED_INDEX target_slot buffer in
      io_ret (Some (to_hex run))
    else io_ret None in
  io_ret (mkKeepSlotReport ReceivedIndex chosen slot_a slot_b [] [] deduced_slot target_slot (length compacted) (bool_decide (mode = Execute)) run_id).

Definition compact_trust_policy_keep_slot (run : list byte) (chosen : ContainerSlot) : IO KeepSlotReport := run_trust_policy_keep_slot run chosen Execute.
Definition plan_compact_trust_policy_keep_slot (run : list byte) (chosen : ContainerSlot) : IO KeepSlotReport := run_trust_policy_keep_slot run chosen PlanOnly.
Definition compact_received_index_keep_slot (run : list byte) (chosen : ContainerSlot) : IO KeepSlotReport := run_received_index_keep_slot run chosen Execute.
Definition plan_compact_received_index_keep_slot (run : list byte) (chosen : ContainerSlot) : IO KeepSlotReport := run_received_index_keep_slot run chosen PlanOnly.

(** ** Removing a received pointer (received/remove.rs) *)

Inductive RemoveMode : Type := RemoveExecute | RemovePlanOnly.
#[global] Instance RemoveMode_eq_dec : EqDecision RemoveMode.
Proof. solve_decision. Defined.

Record ReceivedRemoveReport : Type := mkRemoveReport {
  rm_ref_name : list byte;
  rm_removed : option ReceivedPointer;
  rm_entries_before : nat;
  rm_entries_after : nat;
  rm_run_id : option (list byte);
}.

Definition run_received_remove (run : list byte) (ref_name : list byte) (mode : RemoveMode) : IO ReceivedRemoveReport :=
  do! _ := io_read (require_current_format format) in
  do! _ := io_lift (validate_received_ref ref_name) in
  let key := ref_name_key_bytes ref_name in
  do! existing := io_read (lookup_received_index_entry key) in
  let removed := ReceivedPointer_from <$> existing in
  if negb (is_some existing) then io_err (Precondition "no received pointer named {ref_name} -- nothing to remove")
  else
    do! '(live_slot, trailing, offset, _) := io_read (resolve_container RECEIVED_INDEX) in
    do! replay := io_read replay_received_index in
    do! _ := io_lift (refuse_damaged replay "received-ref index has a damaged entry; received remove refuses to run on a corrupt container -- run doctor first") in
    let compacted := filter (fun entry => rx_ref_name_key entry <> key) (reduce_received_index_entries (lr_records replay)) in
    do! run_id :=
      if bool_decide (mode = RemoveExecute) then
        do! _ := io_lift (require_clean_generation_log RECEIVED_INDEX trailing offset) in
        do! _ := io_lift (require_clean_live_slot RECEIVED_INDEX replay) in
        do! buffer := io_lift (encode_all encode_received_index_record compacted []) in
        do! _ := save_slot_rewrite run (received_index_slot_path (slot_other live_slot)) received_index_generation_log_path (slot_other live_slot) buffer "received remove" in
        do! _ := switch_slot RECEIVED_INDEX (slot_other live_slot) buffer in
        io_ret (Some (to_hex run))
      else io_ret None in
    io_ret (mkRemoveReport ref_name removed (length (lr_records replay)) (length compacted) run_id).

Definition remove_received_pointer (run ref_name : list byte) : IO ReceivedRemoveReport := run_received_remove run ref_name RemoveExecute.
Definition plan_remove_received_pointer (run ref_name : list byte) : IO ReceivedRemoveReport := run_received_remove run ref_name RemovePlanOnly.
End compact.
