(* ===== verification/Restore.v ===== *)
(** * Restoring a recovery run (crates/prikk-store/src/recovery_log/restore.rs, recovery_log.rs)

    The entries that one repair saved are a run.  A restore undoes the run's steps in reverse order: it
    first checks every step against the files as the steps before it would leave them, and writes only when
    every condition holds.  A step whose file already is as the step would leave it is skipped. *)

From S2P Require Import Prelude PrikkError Hash Utf8 ObjectId ByteCursor FileCodec RepoPath ObjectStore.
From S2P Require Import FrameResync TailLog FileSystem Generation RefLog RecoveryLog RecoveryEntry TrustIndex Compact.

Definition ID_LEN : nat := 16.

(** The write at an offset, which extends the file when it has to. *)
Definition overwrite_in_place_required (path : string) (offset : nat) (bytes : list byte) : IO unit := fun d =>
  match d !! path with
  | None => (Err (Io "No such file or directory"), d)
  | Some old =>
      (Ok tt, <[path := take offset old ++ replicate (offset - length old) x00 ++ bytes ++ drop (offset + length bytes) old]> d)
  end.

(** A file name as the paths of the model have it. *)
Definition path_of (bytes : list byte) : string := String.string_of_list_byte bytes.

Record Condition : Type := mkCondition { cn_text : string; cn_holds : bool }.

Record Step : Type := mkStep {
  st_source : list byte;
  st_kind : Kind;
  st_offset : Z;
  st_done : bool;
  st_conditions : list Condition;
  st_bytes : nat;
}.

Record RestorePlan : Type := mkRestorePlan {
  pl_id : list byte;
  pl_source : list byte;
  pl_offset : Z;
  pl_steps : list Step;
  pl_conditions : list Condition;
  pl_would_write : nat;
  pl_refusal : option string;
  pl_written : bool;
}.

Definition can_restore (plan : RestorePlan) : bool :=
  negb (is_some (pl_refusal plan)) && forallb (fun step => st_done step || forallb cn_holds (st_conditions step)) (pl_steps plan).

Definition normalize_id (id : list byte) : option (list byte) :=
  if (length id =? ID_LEN)%nat && forallb (fun b => in_range 48 57 b || in_range 65 70 b || in_range 97 102 b) id
  then Some (ascii_fold id) else None.

Definition refused_plan (id : list byte) (reason : string) : RestorePlan := mkRestorePlan id [] 0 [] [] 0 (Some reason) false.

(** The files a restore may write. *)
Definition repairable_sources : list string :=
  [active_queue_wal_relative_path DEFAULT_ACTIVE_NAME; active_witness_path DEFAULT_ACTIVE_NAME; active_ref_name_path DEFAULT_ACTIVE_NAME] ++
  concat (map (fun slot => [ref_pointer_index_slot_path slot; ref_log_container_slot_path slot; trust_policy_container_slot_path slot; received_index_slot_path slot]) [SlotA; SlotB]) ++
  [ref_pointer_index_generation_log_path; trust_policy_generation_log_path; received_index_generation_log_path; trust_key_container_path; author_key_container_path] ++
  map (fun object_type => container_slot_path object_type SlotA) persisted_object_types ++
  [container_index_path].

Section restore.
Context `{Sha256}.

Definition cut_undone (current : option (list byte)) (entry : Entry) : bool :=
  match current with
  | None => false
  | Some bytes =>
      let offset := Z.to_nat (re_offset entry) in
      (length bytes =? offset + length (re_removed entry))%nat && bool_decide (sha256 (take offset bytes) = re_prefix_hash entry) &&
      bool_decide (drop offset bytes = re_removed entry)
  end.

Definition step_done (current : option (list byte)) (entry : Entry) : bool :=
  match re_kind entry with
  | Cut => cut_undone current entry
  | Replace => match current with Some bytes => bool_decide (sha256 bytes = re_prefix_hash entry) | None => false end
  end.

(** The conditions on the source, and the bytes it holds once the step is undone. *)
Definition source_conditions (current : option (list byte)) (entry : Entry) : list Condition * list byte :=
  match re_kind entry with
  | Cut =>
      let length_ok := match current with Some bytes => zlen bytes =? re_offset entry | None => false end in
      let prefix_ok := length_ok && match current with Some bytes => bool_decide (sha256 (take (Z.to_nat (re_offset entry)) bytes) = re_prefix_hash entry) | None => false end in
      ([mkCondition (match current with
                     | Some _ => if length_ok then "the source is {offset} bytes, the length the repair left" else "the source is {len} bytes; the repair left {offset}"
                     | None => "the source is absent; the repair left {offset} bytes"
                     end) length_ok;
        mkCondition (if negb length_ok then "the bytes before the offset are not compared: the length differs"
                     else if prefix_ok then "the bytes before the offset are the bytes the repair left"
                     else "the bytes before the offset have changed since the repair") prefix_ok],
       default [] current ++ (if length_ok then re_removed entry else []))
  | Replace =>
      let holds := match current with Some bytes => bool_decide (sha256 bytes = re_new_hash entry) | None => false end in
      ([mkCondition (if holds then "{} holds the bytes the repair wrote" else "{} has changed since the repair wrote its bytes") holds], re_removed entry)
  end.

Definition meaning_condition (overlay : Disk) (meaning : Meaning) : Condition :=
  let holds := bool_decide (sha256 <$> overlay !! path_of (m_path meaning) = m_hash meaning) in
  mkCondition (if holds then "{} is unchanged since the repair" else "{} has changed since the repair") holds.

(** The members of a run, with their places in the log. *)
Definition run_members (run : list byte) (entries : list Listed) : list (nat * Entry) :=
  omap (fun '(index, listed) => if bool_decide (l_id listed = run) then Some (index, l_entry listed) else None) (imap pair entries).

(** The loop that checks the sources and the meaning files of the members. *)
Fixpoint check_members (members : list (nat * Entry)) (d : Disk) : PResult (option string) :=
  match members with
  | [] => Ok None
  | (_, entry) :: rest =>
      if negb (bool_decide (path_of (re_source entry) ∈ repairable_sources))
      then Ok (Some "a restore does not write {}: it is not on the repair list (the WAL, the pointer index, the ref log, the trust and received files, their generation logs, the commit witness and ref-name), so this run cannot be restored")
      else
        let? expected := meaning_paths_for (path_of (re_source entry)) d in
        if negb (bool_decide (map bytes_of_string expected = map m_path (re_meaning entry)))
        then Ok (Some "the entry names the meaning files {named:?}, but the repair table gives {} the meaning files {expected:?}; the entry does not match the table, so it cannot be restored")
        else check_members rest d
  end.

(** A later run that touches the source. *)
Definition later_run (run : list byte) (index : nat) (source : list byte) (entries : list Listed) : option (list byte) :=
  l_id <$> head (filter (fun listed => l_id listed <> run /\ re_source (l_entry listed) = source) (drop (S index) entries)).

(** The loop over the members in undo order: the steps, what each writes, and a later run in the way. *)
Fixpoint plan_steps (run : list byte) (entries : list Listed) (members : list (nat * Entry)) (overlay : Disk) (overlap : option (list byte))
  : list (Step * list byte) * option (list byte) :=
  match members with
  | [] => ([], overlap)
  | (index, entry) :: rest =>
      let source := path_of (re_source entry) in
      let current := overlay !! source in
      if step_done current entry
      then
        let '(steps, overlap) := plan_steps run entries rest overlay overlap in
        ((mkStep (re_source entry) (re_kind entry) (re_offset entry) true [] 0, re_removed entry) :: steps, overlap)
      else
        let '(on_source, next) := source_conditions current entry in
        let conditions := on_source ++ map (meaning_condition overlay) (re_meaning entry) in
        let overlap :=
          if negb (is_some overlap) && existsb (fun c => negb (cn_holds c)) conditions then later_run run index (re_source entry) entries else overlap in
        let '(steps, overlap) := plan_steps run entries rest (<[source := next]> overlay) overlap in
        ((mkStep (re_source entry) (re_kind entry) (re_offset entry) false conditions (length (re_removed entry)), re_removed entry) :: steps, overlap)
  end.

Definition undo_step (step : Step) (bytes : list byte) : IO unit :=
  if st_done step then io_ret tt
  else
    match st_kind step with
    | Cut => append_file_required (path_of (st_source step)) bytes
    | Replace =>
        do! _ := overwrite_in_place_required (path_of (st_source step)) 0 bytes in
        truncate_existing_file_required (path_of (st_source step)) (length bytes)
    end.

(** The loop over [writes]. *)
Fixpoint undo_steps (steps : list (Step * list byte)) : IO unit :=
  match steps with
  | [] => io_ret tt
  | (step, bytes) :: rest =>
      do! _ := undo_step step bytes in
      undo_steps rest
  end.

Definition restore (id : list byte) (plan_only : bool) : IO RestorePlan :=
  match normalize_id id with
  | None => io_ret (refused_plan id "a run id is {ID_LEN} hex characters; {id:?} is not one (`prikk doctor --recovery-list` prints the ids)")
  | Some run =>
      do! listing := io_read recovery_list in
      let members := run_members run (ls_entries listing) in
      match members with
      | [] => io_ret (refused_plan id "no recovery run has id {run}; `prikk doctor --recovery-list` prints the ids")
      | (_, first_entry) :: _ =>
          do! refused := io_read (check_members members) in
          match refused with
          | Some reason => io_ret (refused_plan run reason)
          | None =>
              do! '(steps, overlap) := io_read (fun d => Ok (plan_steps run (ls_entries listing) (reverse members) d None)) in
              let conditions := concat (map st_conditions (filter (fun step => st_done step = false) (map fst steps))) in
              let plan := mkRestorePlan run (re_source first_entry) (re_offset first_entry) (map fst steps) conditions
                            (sum_list_with st_bytes (map fst steps)) None false in
              let plan :=
                if is_some overlap && negb (can_restore plan)
                then mkRestorePlan (pl_id plan) (pl_source plan) (pl_offset plan) (pl_steps plan) (pl_conditions plan) (pl_would_write plan)
                       (Some "restore run {later} first: a later repair changed {source} after this run did, so this run's files are not as it left them") false
                else plan in
              if can_restore plan && negb plan_only
              then
                do! _ := undo_steps steps in
                io_ret (mkRestorePlan (pl_id plan) (pl_source plan) (pl_offset plan) (pl_steps plan) (pl_conditions plan) (pl_would_write plan) (pl_refusal plan) true)
              else io_ret plan
          end
      end
  end.

(** ** Emptying the log (recovery_log.rs) *)

Record ClearedEntry : Type := mkClearedEntry { ce_id : list byte; ce_source : list byte; ce_len : Z }.
Record RecoveryClearView : Type := mkClearView { cv_entries : list ClearedEntry; cv_bytes : nat; cv_cleared : bool }.

Definition recovery_clear (plan_only : bool) : IO RecoveryClearView :=
  do! listing := io_read recovery_list in
  do! found := io_read (read_file_if_exists LOG_PATH) in
  let bytes := match found with Some bytes => length bytes | None => 0%nat end in
  do! cleared :=
    if negb plan_only && is_some found
    then do! _ := truncate_existing_file_required LOG_PATH 0 in io_ret true
    else io_ret false in
  io_ret (mkClearView (map (fun listed => mkClearedEntry (l_id listed) (re_source (l_entry listed)) (zlen (re_removed (l_entry listed)))) (ls_entries listing)) bytes cleared).

(** [verify_line]: whether [verify] prints a line about the log, and what. *)
Definition verify_line (d : Disk) : option string :=
  match recovery_list d with
  | Err _ => Some "recovery log: cannot be read ({error})"
  | Ok listing =>
      if (ls_damaged_regions listing =? 0)%nat && negb (ls_unread_tail listing) then None
      else Some "recovery log: {} damaged region{}{}; a save there cannot be restored (`prikk doctor --recovery-list`)"
  end.

(** [save_current_replace] and its two uses. *)
Definition save_current_replace (run : list byte) (path : string) (written : list byte) (label : string) : IO unit :=
  do! previous := io_read (fun d => Ok (default [] (d !! path))) in
  do! _ := save_replace run path previous written label in
  io_ret tt.

Definition save_witness_replace (run written : list byte) : IO unit := save_current_replace run (active_witness_path DEFAULT_ACTIVE_NAME) written "witness".
Definition save_ref_name_replace (run written : list byte) : IO unit := save_current_replace run (active_ref_name_path DEFAULT_ACTIVE_NAME) written "ref-name".
End restore.
