(* ===== verification/CompactThms.v ===== *)
(** * Theorems about generation logs

    Records written one after the other decode to their slots; the first bytes of an interrupted append are
    a torn tail, without any condition on the bytes. *)

From S2P Require Import Prelude PrikkError Hash ByteCursor FrameResync IndexFile ObjectStore TailLog FileSystem ObjectDisk Generation ObjectId RefLog RecoveryEntry.
From S2P Require Import Received TrustIndex Compact Utf8 FileCodec ContainerThms RefStore RefStoreThms RecoveryLog.


Section generation.
Context `{Sha256}.

Lemma generation_magic_len : length (lf_magic GENERATION_FORMAT) = 8%nat.
Proof. done. Qed.

Lemma length_generation_record s : length (encode_generation_record s) = 51%nat.
Proof. unfold encode_generation_record. by rewrite (length_frame_log GENERATION_FORMAT generation_magic_len). Qed.

Lemma slot_code_decodes s : decode_generation_body (to_be_bytes 1 (slot_code s)) = Ok s.
Proof. by destruct s. Qed.

Lemma parse_generation_record pre s post : zlen (pre ++ encode_generation_record s ++ post) < 2 ^ 64 ->
  parse_generation_frame_at (pre ++ encode_generation_record s ++ post) (length pre) = GenerationRecordAt s (length pre + 51).
Proof.
  intros Hlen. set (body := to_be_bytes 1 (slot_code s)). assert (Hbl : zlen body = 1) by done.
  set (bytes := pre ++ encode_generation_record s ++ post) in *.
  assert (Hlb : length bytes = (length pre + 51 + length post)%nat) by (unfold bytes; rewrite !length_app, length_generation_record; lia). unfold zlen in Hlen.
  destruct (read_log_header GENERATION_FORMAT generation_magic_len ltac:(done) pre [] body (body ++ post) bytes) as (header & Hg & Hp);
    [done|rewrite Hbl; lia|done|unfold bytes, encode_generation_record; rewrite (frame_split_header GENERATION_FORMAT); by rewrite <- app_assoc|].
  unfold parse_generation_frame_at. change GENERATION_HEADER_LEN with 50%nat. change (LOG_HEADER_LEN GENERATION_FORMAT) with 50%nat in Hg.
  destruct (Nat.ltb_spec (length bytes - length pre) 50); [lia|]. rewrite Hg, Hp. cbn [lh_body_len lh_checksum]. rewrite Hbl. change (1 =? Z.of_nat GENERATION_BODY_LEN) with true. cbn [negb].
  unfold usize_max. destruct (Z.ltb_spec (2 ^ 64 - 1) (Z.of_nat (length pre + 50) + 1)); [lia|].
  assert (Hbody : get_range bytes (length pre + 50) (length pre + 50 + GENERATION_BODY_LEN) = Some body).
  { unfold bytes, encode_generation_record. fold body. rewrite (frame_split_header GENERATION_FORMAT).
    set (h := enc_log_header GENERATION_FORMAT [] (zlen body) (log_checksum GENERATION_FORMAT [] (zlen body) body)).
    assert (Hh : length h = 50%nat) by (unfold h; rewrite (length_enc_log_header GENERATION_FORMAT generation_magic_len); [done|done|apply sha256_length]).
    change GENERATION_BODY_LEN with (length body). rewrite <- Hh, <- length_app, <- app_assoc, app_assoc. apply get_range_app. }
  rewrite Hbody, bool_decide_true by done. cbn [negb]. unfold body. rewrite slot_code_decodes. f_equal. unfold GENERATION_BODY_LEN. lia.
Qed.

(** A strict prefix of a record, and nothing in it is a record. *)
Lemma parse_generation_torn pre torn more s : torn ++ more = encode_generation_record s -> more <> [] -> zlen pre < 2 ^ 60 ->
  parse_generation_frame_at (pre ++ torn) (length pre) = GenerationPartial (length torn).
Proof.
  intros Hm Hne Hlen. pose proof (f_equal length Hm) as Hl. rewrite length_app, length_generation_record in Hl. assert (length more <> 0%nat) by (by destruct more).
  unfold parse_generation_frame_at. change GENERATION_HEADER_LEN with 50%nat. rewrite length_app. replace (length pre + length torn - length pre)%nat with (length torn) by lia.
  destruct (Nat.ltb_spec (length torn) 50) as [|Hge]; [done|]. assert (Ht : length torn = 50%nat) by lia.
  set (body := to_be_bytes 1 (slot_code s)). assert (Hbl : zlen body = 1) by done.
  assert (Htorn : torn = enc_log_header GENERATION_FORMAT [] (zlen body) (log_checksum GENERATION_FORMAT [] (zlen body) body)).
  { unfold encode_generation_record in Hm. fold body in Hm. rewrite (frame_split_header GENERATION_FORMAT) in Hm. apply (f_equal (take 50)) in Hm.
    rewrite take_app_length' in Hm by done. rewrite Hm. apply take_app_length'. symmetry. rewrite (length_enc_log_header GENERATION_FORMAT generation_magic_len); [done|done|apply sha256_length]. }
  unfold zlen in Hlen. destruct (read_log_header GENERATION_FORMAT generation_magic_len ltac:(done) pre [] body [] (pre ++ torn)) as (header & Hg & Hp);
    [done|rewrite Hbl; lia|done|by rewrite app_nil_r, <- Htorn|]. change (LOG_HEADER_LEN GENERATION_FORMAT) with 50%nat in Hg.
  rewrite Hg, Hp. cbn [lh_body_len]. rewrite Hbl. change (1 =? Z.of_nat GENERATION_BODY_LEN) with true. cbn [negb].
  unfold usize_max. destruct (Z.ltb_spec (2 ^ 64 - 1) (Z.of_nat (length pre + 50) + 1)); [lia|].
  rewrite get_range_none by (rewrite length_app; unfold GENERATION_BODY_LEN; lia). done.
Qed.

Lemma generation_short bytes offset : (length bytes - offset < 50)%nat -> generation_sound bytes offset = false.
Proof. intros Hl. unfold generation_sound, parse_generation_frame_at. change GENERATION_HEADER_LEN with 50%nat. by destruct (Nat.ltb_spec (length bytes - offset) 50); [|lia]. Qed.

Lemma no_sound_generation pre torn : (length torn < 51)%nat -> sound_frame_after_partial (pre ++ torn) (length pre) (lf_magic GENERATION_FORMAT) (generation_sound (pre ++ torn)) = None.
Proof.
  intros Ht. unfold sound_frame_after_partial. generalize (S (length (pre ++ torn))). intros fuel. assert (Hfrom : (length pre < S (length pre))%nat) by lia. revert Hfrom. generalize (S (length pre)).
  induction fuel as [|fuel IH]; intros from Hfrom; [done|]. cbn [sound_frame_loop]. destruct (resync_to_next_magic _ from _) as [c|] eqn:Hc; [|done].
  assert (from <= c)%nat by (pose proof (resync_first (pre ++ torn) from (lf_magic GENERATION_FORMAT)) as Hf; rewrite Hc in Hf; apply Hf).
  rewrite generation_short by (rewrite length_app; lia). apply IH. lia.
Qed.

(** ** Whole logs *)

Definition generation_bytes (gs : list ContainerSlot) : list byte := concat (map encode_generation_record gs).

Lemma length_generation_bytes gs : length (generation_bytes gs) = (51 * length gs)%nat.
Proof. unfold generation_bytes. induction gs as [|g gs IH]; [done|]. cbn [map concat length]. rewrite length_app, length_generation_record, IH. lia. Qed.

Lemma generation_bytes_snoc gs s : generation_bytes (gs ++ [s]) = generation_bytes gs ++ encode_generation_record s.
Proof. unfold generation_bytes. rewrite map_app, concat_app. cbn. by rewrite app_nil_r. Qed.

Definition torn_generation (torn : list byte) : Prop := exists s more, torn ++ more = encode_generation_record s /\ more <> [].

Lemma torn_generation_nil : torn_generation [].
Proof. exists SlotA, (encode_generation_record SlotA). split; [done|]. intros Hx. apply (f_equal length) in Hx. by rewrite length_generation_record in Hx. Qed.

Lemma generation_loop torn gs : forall pre fuel found outs, torn_generation torn -> zlen (pre ++ generation_bytes gs ++ torn) < 2 ^ 60 -> (length gs < fuel)%nat ->
  Forall (fun o => io_status o = IndexEvaluated) outs ->
  exists outs', decode_generation_loop fuel (pre ++ generation_bytes gs ++ torn) (length pre) found outs
    = Ok (mkGenerationReplay (found ++ gs) (length torn) (length (pre ++ generation_bytes gs)) outs') /\ Forall (fun o => io_status o = IndexEvaluated) outs'.
Proof.
  induction gs as [|g gs IH]; intros pre fuel found outs Ht Hlen Hfuel Hall; (destruct fuel as [|fuel]; [lia|]); cbn [decode_generation_loop].
  - destruct Ht as (s & more & Hm & Hne). exists outs. split; [|done]. cbn [generation_bytes map concat app] in *. rewrite !app_nil_r. rewrite zlen_app in Hlen. pose proof (zlen_nonneg torn).
    pose proof (f_equal length Hm) as Hl. rewrite length_app, length_generation_record in Hl. assert (length more <> 0%nat) by (by destruct more).
    rewrite (parse_generation_torn pre torn more s Hm Hne) by lia. by rewrite no_sound_generation by lia.
  - change (generation_bytes (g :: gs)) with (encode_generation_record g ++ generation_bytes gs) in *. rewrite <- !app_assoc in *.
    rewrite parse_generation_record by lia. unfold require_progress. destruct (Nat.leb_spec (length pre + 51) (length pre)); [lia|].
    destruct (IH (pre ++ encode_generation_record g) fuel (found ++ [g]) (outs ++ [mkIndexOutcome (length pre) IndexEvaluated]) Ht) as (outs' & Heq & Hall');
      [by rewrite <- app_assoc|cbn in Hfuel; lia|apply Forall_app; split; [done|by repeat constructor]|].
    exists outs'. split; [|done]. rewrite <- !app_assoc in Heq. rewrite length_app, length_generation_record in Heq at 1. exact Heq.
Qed.

Lemma generation_all_sound outs : Forall (fun o => io_status o = IndexEvaluated) outs ->
  existsb (fun o => match io_status o with IndexFailed _ => true | IndexEvaluated => false end) outs = false.
Proof. induction 1 as [|o outs Ho _ IH]; [done|]. cbn. by rewrite Ho, IH. Qed.

Lemma decode_generation_log gs torn : torn_generation torn -> zlen (generation_bytes gs ++ torn) < 2 ^ 60 ->
  exists replay, decode_generation_records (generation_bytes gs ++ torn) = Ok replay /\ generation_has_item_failure replay = false /\
    gr_records replay = gs /\ gr_trailing replay = length torn.
Proof.
  intros Ht Hlen. destruct (generation_loop torn gs [] (S (S (length (generation_bytes gs ++ torn)))) [] []) as (outs & Heq & Hall);
    [done|done|rewrite length_app, length_generation_bytes; lia|constructor|].
  eexists. split; [exact Heq|]. split; [by apply generation_all_sound|]. done.
Qed.
End generation.

(** * Theorems about two-slot containers

    What a reduction keeps ([Reduction]), and what the entries of the two slots can say about which slot is
    live.  A [slot_history] is any sequence of writes, compactions and interrupted compactions. *)


(** ** Reductions *)

(** A reader sees [view] of the entries; the reduction keeps it. *)
Class Reduction {T V : Type} (fold_entry : list T -> T -> list T) (view : list T -> V) : Prop := {
  view_fold_all : forall l, view (fold_all fold_entry l) = view l;
  fold_all_idem : forall l, fold_all fold_entry (fold_all fold_entry l) = fold_all fold_entry l;
  fold_all_sublist : forall l, fold_all fold_entry l `sublist_of` l;
}.

Lemma fold_all_length `{HR : Reduction T V fold_entry view} l : (length (fold_all fold_entry l) <= length l)%nat.
Proof. apply sublist_length, fold_all_sublist. Qed.

Lemma fold_all_snoc {T} (fold_entry : list T -> T -> list T) l e : fold_all fold_entry (l ++ [e]) = fold_entry (fold_all fold_entry l) e.
Proof. unfold fold_all. by rewrite fold_left_app. Qed.

Lemma filter_all {T} (P : T -> Prop) `{!forall x, Decision (P x)} l : Forall P l -> filter P l = l.
Proof. induction 1 as [|x l Hx _ IH]; [done|]. rewrite filter_cons_True by done. by rewrite IH. Qed.

Lemma NoDup_map_filter {T U} (f : T -> U) (P : T -> Prop) `{!forall x, Decision (P x)} l : NoDup (map f l) -> NoDup (map f (filter P l)).
Proof.
  induction l as [|x l IH]; [done|]. cbn [map]. intros [Hx Hl]%NoDup_cons. rewrite filter_cons. destruct (decide (P x)); [|by apply IH].
  cbn [map]. apply NoDup_cons. split; [|by apply IH]. intros (y & Hy & [_ Hin]%list_elem_of_filter)%list_elem_of_fmap. apply Hx. rewrite Hy. by apply list_elem_of_fmap_2.
Qed.

(** The last entry of every key. *)
Section keyed.
Context {T : Type} (key : T -> list byte).

Definition keyed_fold (running : list T) (entry : T) : list T := filter (fun existing => key existing <> key entry) running ++ [entry].
Definition keyed_view (l : list T) (k : list byte) : option T := last (filter (fun e => key e = k) l).

Lemma keyed_fold_other l e k : key e <> k -> filter (fun x => key x = k) (keyed_fold l e) = filter (fun x => key x = k) l.
Proof.
  intros Hk. unfold keyed_fold. rewrite filter_app, filter_cons_False by done. cbn [filter list_filter]. rewrite app_nil_r.
  rewrite list_filter_filter. apply list_filter_iff. intros x. split; [by intros [? _]|]. intros <-. split; [done|congruence].
Qed.

Lemma keyed_view_fold l k : keyed_view (fold_all keyed_fold l) k = keyed_view l k.
Proof.
  unfold keyed_view. induction l as [|e l IH] using rev_ind; [done|]. rewrite fold_all_snoc, filter_app.
  destruct (decide (key e = k)) as [Hk|Hk].
  - rewrite filter_cons_True by done. cbn [filter list_filter]. unfold keyed_fold. rewrite filter_app, filter_cons_True by done. cbn [filter list_filter]. by rewrite !last_snoc.
  - rewrite filter_cons_False by done. cbn [filter list_filter]. by rewrite app_nil_r, keyed_fold_other.
Qed.

Lemma keyed_fold_keys l : NoDup (map key (fold_all keyed_fold l)).
Proof.
  induction l as [|e l IH] using rev_ind; [constructor|]. rewrite fold_all_snoc. unfold keyed_fold at 1. rewrite map_app. apply NoDup_app. split_and!.
  - by apply NoDup_map_filter.
  - intros k Hk Hk'. apply list_elem_of_singleton in Hk' as ->. apply list_elem_of_fmap in Hk as (x & Hx & [Hne _]%list_elem_of_filter). congruence.
  - apply NoDup_singleton.
Qed.

Lemma keyed_fold_fixed l : NoDup (map key l) -> fold_all keyed_fold l = l.
Proof.
  induction l as [|e l IH] using rev_ind; [done|]. rewrite fold_all_snoc, map_app. intros (Hl & Hd & _)%NoDup_app. rewrite IH by done. unfold keyed_fold. f_equal.
  apply filter_all, Forall_forall. intros x Hx Heq. apply (Hd (key x)); [by apply list_elem_of_fmap_2|]. rewrite Heq. by apply list_elem_of_singleton.
Qed.

#[export] Instance keyed_reduction k : Reduction keyed_fold (fun l => keyed_view l k).
Proof.
  split.
  - intros l. apply keyed_view_fold.
  - intros l. apply keyed_fold_fixed, keyed_fold_keys.
  - intros l. induction l as [|e l IH] using rev_ind; [done|]. rewrite fold_all_snoc. unfold keyed_fold at 1. apply sublist_app; [|done].
    etrans; [apply sublist_filter|done].
Qed.
End keyed.

#[export] Instance received_reduction k : Reduction fold_one_received_index_entry (fun l => last (filter (fun e => rx_ref_name_key e = k) l)) :=
  keyed_reduction rx_ref_name_key k.

(** Only the last snapshot counts. *)
Lemma trust_fold_all l : fold_all fold_one_trust_policy_entry l = match last l with Some e => [e] | None => [] end.
Proof. destruct l as [|e l _] using rev_ind; [done|]. by rewrite fold_all_snoc, last_snoc. Qed.

#[export] Instance trust_reduction : Reduction fold_one_trust_policy_entry last.
Proof.
  split; intros l; rewrite ?trust_fold_all.
  - by destruct (last l).
  - by destruct (last l).
  - destruct l as [|e l _] using rev_ind; [done|]. rewrite last_snoc. apply sublist_inserts_l. done.
Qed.

(** ** What the slots say *)

Section deduction.
Context {T : Type} `{EqDecision T} (fold_entry : list T -> T -> list T).

Abbreviation reduced := (fold_all fold_entry).

Lemma has_prefix_app (p l : list T) : has_prefix p (p ++ l) = true.
Proof. unfold has_prefix. apply bool_decide_eq_true. by rewrite take_app_length. Qed.

Lemma has_prefix_take (n : nat) (l : list T) : has_prefix (take n l) l = true.
Proof. rewrite <- (take_drop n l) at 2. apply has_prefix_app. Qed.

Lemma has_prefix_spec (p l : list T) : has_prefix p l = true <-> exists r, l = p ++ r.
Proof.
  unfold has_prefix. rewrite bool_decide_eq_true. split.
  - intros Hp. exists (drop (length p) l). by rewrite <- Hp at 1; rewrite take_drop.
  - intros [r ->]. by rewrite take_app_length.
Qed.

Lemma has_prefix_length (p l : list T) : has_prefix p l = true -> (length p <= length l)%nat.
Proof. intros [r ->]%has_prefix_spec. rewrite length_app. lia. Qed.

Lemma stale_loop_spec x run y : stale_loop fold_entry x run y = true <-> exists p r, y = p ++ r /\ p <> [] /\ has_prefix x (fold_left fold_entry p run) = true.
Proof.
  revert run. induction y as [|e y IH]; intros run; cbn [stale_loop].
  - split; [done|]. intros (p & r & Hy & Hp & _). symmetry in Hy. by apply app_nil in Hy as [-> _].
  - destruct (has_prefix x (fold_entry run e)) eqn:Hx.
    + split; [|done]. intros _. by exists [e], y.
    + rewrite IH. split.
      * intros (p & r & -> & Hp & Hh). by exists (e :: p), r.
      * intros (p & r & Hy & Hp & Hh). destruct p as [|e' p]; [done|]. cbn in Hy. injection Hy as <- ->. destruct p as [|e' p]; [cbn in Hh; congruence|]. by exists (e' :: p), r.
Qed.

(** [x] is what a compaction of the live [y] left behind or was made into, or was written by an interrupted one. *)
Lemma stale_beside_spec x y : stale_beside fold_entry x y = true <->
  has_prefix (reduced x) y = true \/ x = [] \/ exists p r, y = p ++ r /\ p <> [] /\ has_prefix x (reduced p) = true.
Proof.
  unfold stale_beside. destruct (has_prefix (reduced x) y) eqn:Hp; [split; [by left|done]|]. case_bool_decide as Hx; [split; [right; by left|done]|].
  rewrite stale_loop_spec. split; [by right; right|]. by intros [?|[?|?]].
Qed.

Lemma stale_beside_write x y e : stale_beside fold_entry x y = true -> stale_beside fold_entry x (y ++ [e]) = true.
Proof.
  rewrite !stale_beside_spec. intros [[r ->]%has_prefix_spec|[->|(p & r & -> & Hp & Hh)]].
  - left. rewrite <- app_assoc. apply has_prefix_app.
  - right. by left.
  - right. right. exists p, (r ++ [e]). by rewrite app_assoc.
Qed.

Lemma stale_beside_compacted y : stale_beside fold_entry y (reduced y) = true.
Proof. apply stale_beside_spec. left. rewrite <- (app_nil_r (reduced y)) at 2. apply has_prefix_app. Qed.

Lemma stale_beside_interrupted n y : stale_beside fold_entry (take n (reduced y)) y = true.
Proof.
  apply stale_beside_spec. destruct y as [|e y]; [right; left; by destruct n|]. right. right. exists (e :: y), []. rewrite app_nil_r. split; [done|]. split; [done|]. apply has_prefix_take.
Qed.

(** ** Histories *)

Record slots : Type := mkSlots { s_live : ContainerSlot; s_live_entries : list T; s_retired_entries : list T }.

Definition s_slot (s : slots) (slot : ContainerSlot) : list T :=
  match slot, s_live s with SlotA, SlotA | SlotB, SlotB => s_live_entries s | _, _ => s_retired_entries s end.

Inductive slot_history : slots -> Prop :=
| history_init : slot_history (mkSlots SlotA [] [])
| history_write live l r e : slot_history (mkSlots live l r) -> slot_history (mkSlots live (l ++ [e]) r)
| history_compact live l r : slot_history (mkSlots live l r) -> slot_history (mkSlots (slot_other live) (reduced l) l)
| history_interrupted live l r n : slot_history (mkSlots live l r) -> slot_history (mkSlots live l (take n (reduced l))).

(** In every history the retired slot is stale beside the live one. *)
Lemma history_stale s : slot_history s -> stale_beside fold_entry (s_retired_entries s) (s_live_entries s) = true.
Proof.
  induction 1 as [|live l r e _ IH|live l r _ IH|live l r n _ IH]; cbn [s_retired_entries s_live_entries] in *.
  - done.
  - by apply stale_beside_write.
  - apply stale_beside_compacted.
  - apply stale_beside_interrupted.
Qed.

(** When the retired slot is stale beside the live one, what the entries decide reads like the live slot. *)
Lemma deduction_choice (C : SlotContainer T) s slot reason : sc_fold C = fold_entry ->
  stale_beside fold_entry (s_retired_entries s) (s_live_entries s) = true -> keep_slot_deduction C (s_slot s SlotA) (s_slot s SlotB) = Some (slot, reason) ->
  (slot = s_live s \/ reason = BothSlotsAgree) /\ reduced (s_slot s slot) = reduced (s_live_entries s).
Proof.
  intros HC Hs. unfold keep_slot_deduction. rewrite HC.
  destruct s as [[] l r]; cbn [s_slot s_live s_live_entries s_retired_entries] in *; rewrite Hs;
    (destruct (stale_beside fold_entry l r); [case_bool_decide as Hf; [|done]|]); intros Hd; injection Hd as <- <-; cbn; auto.
Qed.

Section interrupted.
Context {V : Type} (view : list T -> V) `{HR : !Reduction fold_entry view}.

(** Beside a part of its own reduction a slot is stale only when that part is the whole. *)
Lemma interrupted_agrees n l : stale_beside fold_entry l (take n (reduced l)) = true -> reduced (take n (reduced l)) = reduced l.
Proof.
  set (r := take n (reduced l)). pose proof (fold_all_length l) as Hl. assert (Hr : (length r <= length (reduced l))%nat) by (unfold r; rewrite length_take; lia).
  assert (Hwhole : (length (reduced l) <= length r)%nat -> reduced r = reduced l).
  { intros Hle. unfold r in *. rewrite length_take in Hle. rewrite take_ge by lia. apply fold_all_idem. }
  rewrite stale_beside_spec. intros [Hp|[Hl0|(p & r' & Hpr & _ & Hp)]].
  - apply Hwhole. by apply has_prefix_length.
  - subst l. unfold r. by destruct n.
  - apply Hwhole. apply has_prefix_length in Hp. pose proof (fold_all_length p). apply (f_equal length) in Hpr. rewrite length_app in Hpr. lia.
Qed.

Lemma interrupted_decides (C : SlotContainer T) live l n (s := mkSlots live l (take n (reduced l))) : sc_fold C = fold_entry ->
  exists slot reason, keep_slot_deduction C (s_slot s SlotA) (s_slot s SlotB) = Some (slot, reason) /\ reduced (s_slot s slot) = reduced l.
Proof.
  intros HC. pose proof (stale_beside_interrupted n l) as Hs. destruct (keep_slot_deduction C (s_slot s SlotA) (s_slot s SlotB)) as [[slot reason]|] eqn:Hd.
  - exists slot, reason. split; [done|]. by apply (deduction_choice C s slot reason).
  - exfalso. pose proof (interrupted_agrees n l) as Ha. unfold keep_slot_deduction in Hd. rewrite HC in Hd.
    destruct live; cbn [s s_slot s_live s_live_entries s_retired_entries] in Hd; rewrite Hs in Hd;
      (destruct (stale_beside fold_entry l (take n (reduced l))); [|done]); rewrite Ha in Hd by done; by rewrite bool_decide_true in Hd.
Qed.
End interrupted.
End deduction.
Arguments mkSlots {T}.
Arguments s_live {T}.
Arguments s_live_entries {T}.
Arguments s_retired_entries {T}.
Arguments s_slot {T}.

(** * Theorems about compaction

    A compaction changes no read, in the state it ends in and in every state an interruption leaves:
    after the truncation, with any part of the new slot written, with any part of the generation record. *)


(** What the theory of two-slot containers needs of a container. *)
Class SlotLaws {T} (C : SlotContainer T) : Prop := {
  sl_magic : length (lf_magic (sc_format C)) = 8%nat;
  sl_version : u16 (lf_version (sc_format C));
  sl_key_len : lf_key_len (sc_format C) = 0%nat;
  sl_slots : sc_slot C SlotA <> sc_slot C SlotB;
  sl_generation : forall s, sc_slot C s <> sc_generation_log C;
}.

Ltac paths_differ := let Hp := fresh in intros Hp; vm_compute in Hp; discriminate Hp.

#[export] Instance pointer_laws : SlotLaws POINTER_INDEX.
Proof. split; [done|done|done|paths_differ|intros []; paths_differ]. Qed.
#[export] Instance received_laws : SlotLaws RECEIVED_INDEX.
Proof. split; [done|done|done|paths_differ|intros []; paths_differ]. Qed.
#[export] Instance trust_laws : SlotLaws TRUST_POLICY.
Proof. split; [done|done|done|paths_differ|intros []; paths_differ]. Qed.

(** ** Parts of a buffer *)

Lemma take_concat (frames : list (list byte)) : forall n, exists k torn,
  take n (concat frames) = concat (take k frames) ++ torn /\ (torn = [] \/ exists f more, f ∈ frames /\ torn ++ more = f /\ more <> []).
Proof.
  induction frames as [|f frames IH]; intros n; [exists 0%nat, []; cbn; rewrite take_nil; split; [done|by left]|]. cbn [concat].
  destruct (Nat.le_gt_cases (length f) n) as [Hge|Hlt].
  - destruct (IH (n - length f)%nat) as (k & torn & Heq & Ht). exists (S k), torn. rewrite take_app_ge by done. cbn [take concat]. rewrite Heq, <- app_assoc. split; [done|].
    destruct Ht as [->|(g & more & Hg & Hm & Hne)]; [by left|right]. exists g, more. split; [set_solver|done].
  - exists 0%nat, (take n f). rewrite take_app_le by lia. split; [done|]. right. exists f, (drop n f). split; [set_solver|]. split; [apply take_drop|].
    intros Hd. apply (f_equal length) in Hd. rewrite length_drop in Hd. cbn in Hd. lia.
Qed.

Lemma magic_at_torn torn more magic p : magic_at torn magic p -> magic_at (torn ++ more) magic p.
Proof.
  intros Hm. pose proof (magic_at_bound _ _ _ Hm) as Hb. apply (magic_at_window (torn ++ more) torn 0 (length torn)); [|lia|done].
  pose proof (get_range_app [] torn more) as Hg. cbn [length app] in Hg. done.
Qed.

(** ** Slots on disk *)

Section container.
Context `{Sha256} {T : Type} `{EqDecision T} (C : SlotContainer T) `{HL : !SlotLaws C}.

Abbreviation frame_of := (log_frame_of (sc_format C)).
Abbreviation reduced := (fold_all (sc_fold C)).

(** The checksum of one of these very frames also verifies a shorter part of the frame's own body. *)
Definition prefix_verifies (frames : list (list byte)) : Prop := exists key body n,
  let frame := frame_log_record (sc_format C) key body in
  frame ∈ frames /\ length key = lf_key_len (sc_format C) /\ (n < length frame)%nat /\ torn_collision (sc_format C) key body (take n frame).

Lemma prefix_verifies_sublist frames frames' : frames' `sublist_of` frames -> prefix_verifies frames' -> prefix_verifies frames.
Proof. intros Hs (key & body & n & Hin & Hp). exists key, body, n. split; [|done]. by eapply elem_of_sublist. Qed.

Record holds (d : Disk) (slot : ContainerSlot) (entries : list T) (frames : list (list byte)) (tail : list byte) : Prop := {
  h_bytes : d !! sc_slot C slot = Some (concat frames ++ tail);
  h_frames : Forall2 frame_of entries frames;
  h_tail : clean_tail (sc_format C) tail;
  h_size : zlen (concat frames ++ tail) < 2 ^ 60;
}.

Lemma header_len_small : Z.of_nat (LOG_HEADER_LEN (sc_format C)) < 2 ^ 60.
Proof. unfold LOG_HEADER_LEN. rewrite sl_key_len. done. Qed.

Lemma holds_decodes d slot entries frames tail : holds d slot entries frames tail ->
  decode_log (sc_format C) (concat frames ++ tail) = Ok (mkLogReplay entries (length tail) (length (concat frames)) (log_outcomes 0 frames)).
Proof. intros []. apply decode_log_image; [apply sl_magic|apply sl_version|apply header_len_small|done|done|done]. Qed.

Lemma holds_entries d slot entries frames tail : holds d slot entries frames tail -> decode_container C (default [] (d !! sc_slot C slot)) = Ok (entries, false).
Proof.
  intros Hh. rewrite (h_bytes _ _ _ _ _ Hh). unfold decode_container. cbn [from_option]. unfold id. rewrite (holds_decodes _ _ _ _ _ Hh). unfold log_has_item_failure. cbn [lr_records lr_outcomes].
  by rewrite log_outcomes_sound.
Qed.

Lemma holds_frame d d' slot entries frames tail : d' !! sc_slot C slot = d !! sc_slot C slot -> holds d slot entries frames tail -> holds d' slot entries frames tail.
Proof. intros Heq []. split; try done. by rewrite Heq. Qed.

Lemma slot_other_path slot : sc_slot C (slot_other slot) <> sc_slot C slot.
Proof. pose proof sl_slots. destruct slot; cbn; congruence. Qed.

(** ** The generation log on disk *)

Definition generation_on (d : Disk) (gs : list ContainerSlot) (torn : list byte) : Prop :=
  d !! sc_generation_log C = Some (generation_bytes gs ++ torn) /\ torn_generation torn /\ zlen (generation_bytes gs ++ torn) < 2 ^ 60.

Lemma resolve_recorded d gs torn s : generation_on d gs torn -> last gs = Some s ->
  exists off, resolve_container C d = Ok (s, length torn, off, None).
Proof.
  intros (Hd & Ht & Hlen) Hs. destruct (decode_generation_log gs torn Ht Hlen) as (replay & Hr & Hf & Hg & Htr). exists (gr_tail_offset replay).
  unfold resolve_container, resolve_or_deduce, replay_generation_log. rewrite Hd, Hr, Hf, Hg, Hs. by rewrite Htr.
Qed.

Lemma resolve_unused d torn : generation_on d [] torn -> slot_b_has_data (sc_slot C SlotB) d = false ->
  exists off, resolve_container C d = Ok (SlotA, length torn, off, None).
Proof.
  intros (Hd & Ht & Hlen) Hb. destruct (decode_generation_log [] torn Ht Hlen) as (replay & Hr & Hf & Hg & Htr). exists (gr_tail_offset replay).
  unfold resolve_container, resolve_or_deduce, replay_generation_log. rewrite Hd, Hr, Hf, Hg. cbn [last]. rewrite Hb. cbn [negb]. by rewrite Htr.
Qed.

(** The generation log is lost: the entries decide. *)
Lemma resolve_lost d torn a b fa fb ta tb : generation_on d [] torn -> slot_b_has_data (sc_slot C SlotB) d = true -> holds d SlotA a fa ta -> holds d SlotB b fb tb ->
  exists off, resolve_container C d =
    match keep_slot_deduction C a b with
    | Some (slot, reason) => Ok (slot, length torn, off, Some reason)
    | None => Err (AmbiguousGenerationLog (sc_ambiguous_text C))
    end.
Proof.
  intros (Hd & Ht & Hlen) Hb Ha Hbb. destruct (decode_generation_log [] torn Ht Hlen) as (replay & Hr & Hf & Hg & Htr). exists (gr_tail_offset replay).
  unfold resolve_container, resolve_or_deduce, replay_generation_log. rewrite Hd, Hr, Hf, Hg. cbn [last]. rewrite Hb. cbn [negb].
  rewrite (holds_entries _ _ _ _ _ Ha), (holds_entries _ _ _ _ _ Hbb). cbn [orb]. rewrite Htr. unfold keep_slot_deduction.
  destruct (stale_beside (sc_fold C) a b), (stale_beside (sc_fold C) b a); try done. by case_bool_decide.
Qed.

Lemma replay_resolved d slot tr off why entries frames tail : resolve_container C d = Ok (slot, tr, off, why) -> holds d slot entries frames tail ->
  replay_container C d = Ok (mkLogReplay entries (length tail) (length (concat frames)) (log_outcomes 0 frames)).
Proof.
  intros Hr Hh. unfold replay_container. rewrite Hr, (h_bytes _ _ _ _ _ Hh). by rewrite (holds_decodes _ _ _ _ _ Hh).
Qed.

(** ** Compactions, interrupted anywhere *)

Section compaction.
Context {V : Type} (view : list T -> V) `{HR : !Reduction (sc_fold C) view}.
Context (d : Disk) (s : ContainerSlot) (gs : list ContainerSlot) (entries : list T) (frames compacted : list (list byte)).

(** The live slot is clean and the generation log too; the frames of the reduced entries are in [compacted]. *)
Record compactable : Prop := {
  cp_generation : generation_on d gs [];
  cp_named : exists off why, resolve_container C d = Ok (s, 0%nat, off, why);
  cp_live : holds d s entries frames [];
  cp_target : is_Some (d !! sc_slot C (slot_other s));
  cp_compacted : Forall2 frame_of (reduced entries) compacted;
  cp_room : zlen (concat compacted) < 2 ^ 60;
  cp_generation_room : zlen (generation_bytes gs) + 51 < 2 ^ 60;
  cp_plain : Forall (no_inner_magic (sc_format C)) compacted;
}.

Definition target_path : string := sc_slot C (slot_other s).
Definition written (n : nat) : Disk := <[target_path := take n (concat compacted)]> d.
Definition recorded (m : nat) : Disk :=
  <[sc_generation_log C := generation_bytes gs ++ take m (encode_generation_record (slot_other s))]> (<[target_path := concat compacted]> d).

Inductive compaction_state : Disk -> Prop :=
| compaction_before : compaction_state d
| compaction_writing n : compaction_state (written n)
| compaction_recording m : compaction_state (recorded m).

Definition reads_like (d' : Disk) : Prop :=
  exists replay, replay_container C d' = Ok replay /\ log_has_item_failure replay = false /\ view (lr_records replay) = view entries.

Lemma reads_like_resolved d' slot tr off why entries' frames' tail : resolve_container C d' = Ok (slot, tr, off, why) -> holds d' slot entries' frames' tail ->
  view entries' = view entries -> reads_like d'.
Proof.
  intros Hr Hh Hv. eexists. split; [by eapply replay_resolved|]. split; [|done]. unfold log_has_item_failure. cbn [lr_outcomes]. apply log_outcomes_sound.
Qed.

Lemma view_reduced l l' : reduced l = reduced l' -> view l = view l'.
Proof. intros Heq. rewrite <- (view_fold_all (fold_entry := sc_fold C) (view := view) l), Heq. apply view_fold_all. Qed.

Lemma generation_settles : gs = [] -> compactable -> s = SlotB -> slot_b_has_data (sc_slot C SlotB) d = true.
Proof.
  intros Hgs Hc Hs. destruct (slot_b_has_data (sc_slot C SlotB) d) eqn:Hb; [done|]. destruct (cp_named Hc) as (off & why & Hn).
  pose proof (cp_generation Hc) as Hg. rewrite Hgs in Hg. destruct (resolve_unused d [] Hg Hb) as (off' & Hr). congruence.
Qed.

Lemma recorded_live : compactable -> gs <> [] -> last gs = Some s.
Proof.
  intros Hc Hgs. destruct (last gs) as [s'|] eqn:Hl; [|apply last_None in Hl; done]. destruct (cp_named Hc) as (off & why & Hn).
  destruct (resolve_recorded d gs [] s' (cp_generation Hc) Hl) as (off' & Hr). congruence.
Qed.

(** The generation log is lost and the other slot holds a part of the live slot's reduction: it reads as the live slot. *)
Lemma lost_part_reads d' k fr tail torn : generation_on d' [] torn -> (s = SlotB -> slot_b_has_data (sc_slot C SlotB) d' = true) ->
  holds d' s entries frames [] -> holds d' (slot_other s) (take k (reduced entries)) fr tail -> reads_like d'.
Proof.
  intros Hg Hdata Hlive Hp. destruct (slot_b_has_data (sc_slot C SlotB) d') eqn:Hb.
  - destruct (interrupted_decides (sc_fold C) view C s entries k eq_refl) as (slot & reason & Hd & Hred). revert Hdata.
    set (st := mkSlots s entries (take k (reduced entries))) in *. intros _.
    assert (Hslots : exists fa ta fb tb, holds d' SlotA (s_slot st SlotA) fa ta /\ holds d' SlotB (s_slot st SlotB) fb tb).
    { unfold st. clear Hd Hred st. revert Hlive Hp. generalize s. intros []; intros; cbn [s_slot s_live s_live_entries s_retired_entries slot_other] in *; by eexists _, _, _, _. }
    destruct Hslots as (fa & ta & fb & tb & HA & HB). destruct (resolve_lost d' torn _ _ fa fb ta tb Hg Hb HA HB) as (off & Hr). rewrite Hd in Hr.
    destruct slot; (eapply reads_like_resolved; [exact Hr|eassumption|by apply view_reduced]).
  - assert (HsA : s = SlotA) by (clear -Hdata; revert Hdata; generalize s; intros []; [done|]; intros Hx; by specialize (Hx eq_refl)).
    rewrite HsA in Hlive. destruct (resolve_unused d' torn Hg Hb) as (off & Hr). by eapply reads_like_resolved.
Qed.

(** The target slot holds a part of the reduced entries, and the generation log at most a part of a record. *)
Lemma part_reads d' k tail torn : compactable -> generation_on d' gs torn -> d' !! sc_slot C s = d !! sc_slot C s ->
  holds d' (slot_other s) (take k (reduced entries)) (take k compacted) tail -> reads_like d'.
Proof.
  intros Hc Hg Hs Hp. pose proof (holds_frame d d' s _ _ _ Hs (cp_live Hc)) as Hlive. destruct (decide (gs = [])) as [Hgs|Hgs].
  - assert (Hdata : s = SlotB -> slot_b_has_data (sc_slot C SlotB) d' = true).
    { intros HsB. pose proof (generation_settles Hgs Hc HsB) as Hb. unfold slot_b_has_data in *. rewrite HsB in Hs. by rewrite Hs. }
    rewrite Hgs in Hg. by eapply lost_part_reads.
  - destruct (resolve_recorded d' gs torn s Hg (recorded_live Hc Hgs)) as (off & Hr). by eapply reads_like_resolved.
Qed.

Lemma part_holds n : compactable -> (exists k tail, holds (written n) (slot_other s) (take k (reduced entries)) (take k compacted) tail) \/ prefix_verifies compacted.
Proof.
  intros Hc. destruct (take_concat compacted n) as (k & torn & Heq & Ht).
  assert (Hsize : zlen (concat (take k compacted) ++ torn) < 2 ^ 60).
  { rewrite <- Heq. pose proof (cp_room Hc) as Hroom. unfold zlen in *. rewrite length_take. lia. }
  assert (Hholds : clean_tail (sc_format C) torn -> holds (written n) (slot_other s) (take k (reduced entries)) (take k compacted) torn).
  { intros Htail. split; [|by apply Forall2_take; apply Hc|done|done]. unfold written, target_path. by rewrite lookup_insert_eq, Heq. }
  destruct Ht as [->|(f & more & Hf & Hm & Hne)]; [left; exists k, []; apply Hholds; by left|].
  pose proof (cp_compacted Hc) as Hall. apply list_elem_of_lookup in Hf as (i & Hi). destruct (Forall2_lookup_r _ _ _ _ _ Hall Hi) as (e & _ & key & body & -> & Hk & _).
  destruct (decide (torn_collision (sc_format C) key body torn)) as [Hcol|Hcol].
  { right. exists key, body, (length torn). split; [by eapply list_elem_of_lookup_2|]. split; [done|]. rewrite <- Hm, take_app_length. split; [|done].
    rewrite length_app. destruct more; [done|]. cbn. lia. }
  left. exists k, torn. apply Hholds. right. exists key, body. split; [|done].
  split_and!; [|done| |by exists more].
  - intros p Hp Hmag. pose proof (cp_plain Hc) as Hplain. rewrite Forall_lookup in Hplain. specialize (Hplain _ _ Hi p Hp). apply Hplain. rewrite <- Hm. by apply magic_at_torn.
  - pose proof (cp_room Hc) as Hroom. apply list_elem_of_lookup_2 in Hi. apply list_elem_of_split in Hi as (l1 & l2 & Hsplit). rewrite Hsplit, concat_app in Hroom. cbn [concat] in Hroom.
    rewrite !zlen_app in Hroom. pose proof (zlen_nonneg (concat l1)). pose proof (zlen_nonneg (concat l2)). lia.
Qed.

Lemma full_holds d' : compactable -> d' !! target_path = Some (concat compacted) -> holds d' (slot_other s) (reduced entries) compacted [].
Proof. intros [] Hd. split; [by rewrite app_nil_r|done|by left|by rewrite app_nil_r]. Qed.

Lemma switched_on : compactable -> generation_on (recorded 51) (gs ++ [slot_other s]) [].
Proof.
  intros Hc. split; [|split; [apply torn_generation_nil|]].
  - unfold recorded. rewrite lookup_insert_eq, generation_bytes_snoc, app_nil_r. do 2 f_equal. apply take_ge. by rewrite length_generation_record.
  - rewrite app_nil_r, generation_bytes_snoc, zlen_app. unfold zlen at 2. rewrite length_generation_record. apply Hc.
Qed.

Lemma target_not_generation : target_path <> sc_generation_log C.
Proof. apply sl_generation. Qed.

Lemma recorded_target m : recorded m !! target_path = Some (concat compacted).
Proof. unfold recorded. rewrite lookup_insert_ne by (symmetry; apply target_not_generation). apply lookup_insert_eq. Qed.

Lemma recorded_source m : recorded m !! sc_slot C s = d !! sc_slot C s.
Proof. unfold recorded. rewrite lookup_insert_ne by (symmetry; apply sl_generation). apply lookup_insert_ne. apply slot_other_path. Qed.

(** The end of a compaction: the reduced entries are live in the other slot. *)
Lemma switched_replay : compactable -> exists off, resolve_container C (recorded 51) = Ok (slot_other s, 0%nat, off, None) /\
  replay_container C (recorded 51) = Ok (mkLogReplay (reduced entries) 0 (length (concat compacted)) (log_outcomes 0 compacted)).
Proof.
  intros Hc. destruct (resolve_recorded (recorded 51) (gs ++ [slot_other s]) [] (slot_other s) (switched_on Hc)) as (off & Hr); [by rewrite last_snoc|]. exists off. split; [done|].
  pose proof (full_holds (recorded 51) Hc (recorded_target 51)) as Hh. by rewrite (replay_resolved _ _ _ _ _ _ _ _ Hr Hh).
Qed.

Lemma recording_reads m : compactable -> reads_like (recorded m).
Proof.
  intros Hc. destruct (Nat.le_gt_cases 51 m) as [Hge|Hlt].
  - assert (Heq : recorded m = recorded 51) by (unfold recorded; by rewrite !(take_ge (encode_generation_record _)) by (rewrite length_generation_record; lia)). rewrite Heq.
    destruct (switched_replay Hc) as (off & _ & Hr). eexists. split; [exact Hr|]. split; [unfold log_has_item_failure; apply log_outcomes_sound|]. cbn [lr_records]. apply view_fold_all.
  - apply (part_reads (recorded m) (length compacted) [] (take m (encode_generation_record (slot_other s))) Hc); [|apply recorded_source|].
    + split; [unfold recorded; by rewrite lookup_insert_eq|]. split.
      * exists (slot_other s), (drop m (encode_generation_record (slot_other s))). split; [apply take_drop|]. intros Hx. apply (f_equal length) in Hx. rewrite length_drop, length_generation_record in Hx. cbn in Hx. lia.
      * pose proof (cp_generation_room Hc). rewrite zlen_app. unfold zlen at 2. rewrite length_take, length_generation_record. lia.
    + rewrite take_ge by (by rewrite (Forall2_length _ _ _ (cp_compacted Hc))). rewrite take_ge by done. apply full_holds; [done|apply recorded_target].
Qed.

Lemma writing_reads n : compactable -> reads_like (written n) \/ prefix_verifies compacted.
Proof.
  intros Hc. destruct (part_holds n Hc) as [(k & tail & Hh)|?]; [left|by right].
  apply (part_reads (written n) k tail [] Hc); [|unfold written; apply lookup_insert_ne, slot_other_path|done].
  destruct (cp_generation Hc) as (Hg & Ht & Hlen). split; [|by split]. unfold written. rewrite lookup_insert_ne by apply target_not_generation. done.
Qed.

(** Whatever state of a compaction an interruption leaves, the container reads as before. *)
Lemma compaction_reads d' : compactable -> compaction_state d' -> reads_like d' \/ prefix_verifies compacted.
Proof.
  intros Hc []; [left|by apply writing_reads|left; by apply recording_reads].
  destruct (cp_named Hc) as (off & why & Hr). eapply reads_like_resolved; [exact Hr|apply Hc|done].
Qed.

Lemma switch_slot_run d0 : d0 !! target_path = d !! target_path -> d0 !! sc_generation_log C = d !! sc_generation_log C -> compactable ->
  switch_slot C (slot_other s) (concat compacted) d0
  = (Ok tt, <[sc_generation_log C := generation_bytes gs ++ encode_generation_record (slot_other s)]> (<[target_path := concat compacted]> d0)).
Proof.
  intros Ht0 Hg0 Hc. destruct (cp_target Hc) as [old Hold]. destruct (cp_generation Hc) as (Hg & _). rewrite app_nil_r in Hg. fold target_path in Hold. rewrite <- Ht0 in Hold. rewrite <- Hg0 in Hg.
  unfold switch_slot, truncate_file_empty_required, append_generation_record, append_file_required, truncate_existing_file_required, append_file_reporting_offset_required, io_bind, io_ret. fold target_path.
  rewrite Hold. cbn [take]. rewrite lookup_insert_eq. cbn [app]. rewrite insert_insert_eq. rewrite lookup_insert_ne by apply target_not_generation. by rewrite Hg.
Qed.
End compaction.
End container.

(** * Compaction and interruption

    The writes of an operation as a list, and the disks an interruption can leave: some writes done, the
    next one done in part.  The three compactions, their results, and what is read at every such point. *)


(** ** Interrupted writes *)

Inductive FileWrite : Type := WriteEmpty (path : string) | WriteAppend (path : string) (bytes : list byte).

Definition perform (w : FileWrite) (d : Disk) : Disk :=
  match w with
  | WriteEmpty path => <[path := []]> d
  | WriteAppend path bytes => <[path := default [] (d !! path) ++ bytes]> d
  end.

Inductive crash : list FileWrite -> Disk -> Disk -> Prop :=
| crash_now ws d : crash ws d d
| crash_torn path bytes ws d n : crash (WriteAppend path bytes :: ws) d (perform (WriteAppend path (take n bytes)) d)
| crash_after w ws d d' : crash ws (perform w d) d' -> crash (w :: ws) d d'.

(** ** Sublists of frames *)

Lemma sublist_Forall2 {A B} (R : A -> B -> Prop) l l' m : l' `sublist_of` l -> Forall2 R l m -> exists m', Forall2 R l' m' /\ m' `sublist_of` m.
Proof.
  intros Hs. revert m. induction Hs as [|x l1 l2 Hs IH|x l1 l2 Hs IH]; intros m Hm.
  - exists []. split; [constructor|apply sublist_nil_l].
  - apply Forall2_cons_inv_l in Hm as (y & m2 & Hx & Hm & ->). destruct (IH m2 Hm) as (m' & HF & Hsub). exists (y :: m'). split; [by constructor|by constructor].
  - apply Forall2_cons_inv_l in Hm as (y & m2 & Hx & Hm & ->). destruct (IH m2 Hm) as (m' & HF & Hsub). exists m'. split; [done|by constructor].
Qed.

Lemma sublist_concat_length (m' m : list (list byte)) : m' `sublist_of` m -> (length (concat m') <= length (concat m))%nat.
Proof. induction 1 as [|x l1 l2 _ IH|x l1 l2 _ IH]; cbn [concat]; rewrite ?length_app; lia. Qed.

Lemma sublist_Forall {A} (P : A -> Prop) m' m : m' `sublist_of` m -> Forall P m -> Forall P m'.
Proof. induction 1 as [|x l1 l2 _ IH|x l1 l2 _ IH]; intros Hm; [done| |]; inversion Hm; subst; [constructor; auto|auto]. Qed.

(** ** Writing back what was read *)

Section encode.
Context `{Sha256}.

(** An entry read from a frame is written as the same frame. *)
Definition reencodes {T} (F : LogFormat T) (encode : T -> PResult (list byte)) : Prop :=
  forall e f, log_frame_of F e f -> zlen f < 2 ^ 60 -> encode e = Ok f.

Lemma encode_all_frames {T} (F : LogFormat T) encode entries frames : reencodes F encode -> Forall2 (log_frame_of F) entries frames -> zlen (concat frames) < 2 ^ 60 ->
  forall buffer, encode_all encode entries buffer = Ok (buffer ++ concat frames).
Proof.
  intros He. induction 1 as [|e f entries frames Hf _ IH]; intros Hlen buffer; cbn [encode_all concat] in *; [by rewrite app_nil_r|].
  rewrite zlen_app in Hlen. pose proof (zlen_nonneg f). pose proof (zlen_nonneg (concat frames)). rewrite (He e f Hf) by lia. rewrite IH by lia. by rewrite <- app_assoc.
Qed.

Lemma frame_body_small {T} (F : LogFormat T) key body : length (lf_magic F) = 8%nat -> length key = lf_key_len F -> zlen (frame_log_record F key body) < 2 ^ 60 -> zlen body < 2 ^ 60.
Proof. intros Hm Hk. unfold zlen. rewrite (length_frame_log F Hm) by done. lia. Qed.


Lemma received_reencodes : reencodes RECEIVED_INDEX_FORMAT encode_received_index_record.
Proof.
  intros e f (key & body & -> & Hk & Hd & _) Hlen. apply (frame_body_small RECEIVED_INDEX_FORMAT) in Hlen; [|done|done]. destruct key; [|done].
  cbn [lf_decode RECEIVED_INDEX_FORMAT] in Hd. unfold decode_received_entry_body, bc_read_array in Hd.
  assert (Hs : standing (ByteCursor_new body) body) by (apply standing_new; lia).
  destruct (bc_read_exact 32 (ByteCursor_new body)) as [[k c1]|] eqn:H1; [|done]. destruct (consumes_exact 32 ltac:(lia) _ _ _ _ Hs H1) as (p1 & Hb & Hs1 & Hl1).
  destruct (bc_read_bytes_u64 c1) as [[n c2]|] eqn:H2; [|done]. destruct (consumes_bytes_u64 _ _ _ _ Hs1 H2) as (p2 & -> & Hs2 & Hl2).
  destruct (from_utf8 n) eqn:Hu; [|done]. cbn [negb] in Hd.
  destruct (bc_read_exact 32 c2) as [[i c3]|] eqn:H3; [|done]. destruct (consumes_exact 32 ltac:(lia) _ _ _ _ Hs2 H3) as (p3 & -> & Hs3 & Hl3).
  rewrite (standing_finished _ _ Hs3) in Hd. case_bool_decide as Hp3; [|done]. injection Hd as <-. subst p3. rewrite app_nil_r in Hb.
  unfold encode_received_index_record, encode_received_entry_body, push_bytes_u64, len_to_u64. cbn [rx_ref_name rx_ref_name_key rx_ref_state_id].
  destruct (Z.ltb_spec (zlen n) (2 ^ 64)); [|lia]. replace ((push_u64 k (zlen n) ++ n) ++ i) with body by (rewrite Hb; unfold push_u64; by rewrite <- !app_assoc).
  destruct (Z.ltb_spec (zlen body) (2 ^ 64)); [done|lia].
Qed.

(** Key ids in a snapshot. *)
Definition enc_key_ids (ids : list (list byte)) : list byte := concat (map (fun id => to_be_bytes 2 (zlen id) ++ id) ids).

Lemma push_key_ids_enc ids : Forall (fun id => zlen id < 2 ^ 16) ids -> forall body, push_key_ids body ids = Ok (body ++ enc_key_ids ids).
Proof.
  induction 1 as [|id ids Hid _ IH]; intros body; cbn [push_key_ids]; [by rewrite app_nil_r|]. unfold push_string_u16, len_to_u16. destruct (Z.ltb_spec (zlen id) (2 ^ 16)); [|lia].
  rewrite IH. unfold push_u16, enc_key_ids. cbn [map concat]. by rewrite <- !app_assoc.
Qed.

Lemma read_key_ids_consumes fuel : forall count ids c rest ids' c', standing c rest -> 0 <= count -> read_key_ids fuel count ids c = Ok (ids', c') ->
  exists new post, ids' = ids ++ new /\ Z.of_nat (length new) = count /\ rest = enc_key_ids new ++ post /\ standing c' post /\ Forall (fun id => zlen id < 2 ^ 16) new.
Proof.
  induction fuel as [|fuel IH]; intros count ids c rest ids' c' Hs Hc Hr; cbn [read_key_ids] in Hr; (destruct (Z.leb_spec count 0) as [H0|H0]; [injection Hr as <- <-; exists [], rest; rewrite app_nil_r; split_and!; try done; cbn; lia|]); [done|].
  destruct (bc_read_string_u16 c) as [[id c1]|] eqn:H1; [|done]. destruct (consumes_string_u16 _ _ _ _ Hs H1) as (p1 & -> & Hs1 & Hl & _).
  destruct (IH (count - 1) _ _ _ _ _ Hs1 ltac:(lia) Hr) as (new & post & -> & Hn & -> & Hs2 & Hall). exists (id :: new), post. rewrite <- app_assoc. split; [done|]. split; [cbn [length]; lia|].
  split; [unfold enc_key_ids; cbn [map concat]; by rewrite <- !app_assoc|]. split; [done|by constructor].
Qed.

Lemma trust_reencodes : reencodes TRUST_POLICY_FORMAT encode_trust_policy_record.
Proof.
  intros e f (key & body & -> & Hk & Hd & _) Hlen. apply (frame_body_small TRUST_POLICY_FORMAT) in Hlen; [|done|done]. destruct key; [|done].
  cbn [lf_decode TRUST_POLICY_FORMAT] in Hd. unfold decode_trust_policy_body in Hd.
  assert (Hs : standing (ByteCursor_new body) body) by (apply standing_new; lia).
  destruct (bc_read_u32 (ByteCursor_new body)) as [[count c1]|] eqn:H1; [|done]. destruct (consumes_u32 _ _ _ _ Hs H1) as (p1 & Hb & Hs1 & [Hc0 Hc1]).
  destruct (read_key_ids (S (length body)) count [] c1) as [[ids c2]|] eqn:H2; [|done].
  destruct (read_key_ids_consumes _ _ _ _ _ _ _ Hs1 Hc0 H2) as (new & post & -> & Hn & -> & Hs2 & Hall). cbn [app] in Hd.
  rewrite (standing_finished _ _ Hs2) in Hd. case_bool_decide as Hp; [|done]. cbn [negb] in Hd. case_bool_decide as Hnd; [|done]. injection Hd as <-. subst post. rewrite app_nil_r in Hb.
  unfold encode_trust_policy_record, encode_trust_policy_body, len_to_u64. cbn [ts_key_ids]. rewrite Hn. destruct (Z.leb_spec (2 ^ 32) count); [lia|].
  rewrite push_key_ids_enc by done. unfold push_u32. cbn [app]. rewrite <- Hb. destruct (Z.ltb_spec (zlen body) (2 ^ 64)); [done|lia].
Qed.
End encode.

(** ** Containers with a clean live slot *)

Section container.
Context `{Sha256} {T : Type} `{EqDecision T} (C : SlotContainer T) `{HL : !SlotLaws C}.

Record clean_container (d : Disk) (s : ContainerSlot) (gs : list ContainerSlot) (why : option DeductionReason) (entries : list T) (frames : list (list byte)) : Prop := {
  cc_generation : generation_on C d gs [];
  cc_named : exists off, resolve_container C d = Ok (s, 0%nat, off, why);
  cc_live : holds C d s entries frames [];
  cc_target : is_Some (d !! sc_slot C (slot_other s));
  cc_room : zlen (generation_bytes gs) + 51 < 2 ^ 60;
  cc_plain : Forall (no_inner_magic (sc_format C)) frames;
}.

Definition switch_writes (target : ContainerSlot) (buffer : list byte) : list FileWrite :=
  [WriteEmpty (sc_slot C target); WriteAppend (sc_slot C target) buffer; WriteAppend (sc_generation_log C) (encode_generation_record target)].

Lemma clean_compactable {V} (view : list T -> V) `{HR : !Reduction (sc_fold C) view} d s gs why entries frames : clean_container d s gs why entries frames ->
  exists compacted, compactable C d s gs entries frames compacted /\ compacted `sublist_of` frames.
Proof.
  intros []. destruct (sublist_Forall2 _ _ _ _ (fold_all_sublist (view := view) entries) (h_frames _ _ _ _ _ _ cc_live0)) as (compacted & Hall & Hsub). exists compacted.
  destruct cc_named0 as (off & Hn). pose proof (h_size _ _ _ _ _ _ cc_live0) as Hsize. rewrite app_nil_r in Hsize.
  split; [|done]. split; try done; [by eexists _, _| |by eapply sublist_Forall]. pose proof (sublist_concat_length _ _ Hsub). unfold zlen in *. lia.
Qed.

Section compactable.
Context (d : Disk) (s : ContainerSlot) (gs : list ContainerSlot) (entries : list T) (frames compacted : list (list byte)) (Hc : compactable C d s gs entries frames compacted).

Abbreviation state := (compaction_state C d s gs compacted).

Lemma switch_done : foldl (fun d w => perform w d) d (switch_writes (slot_other s) (concat compacted)) = recorded C d s gs compacted 51.
Proof.
  pose proof (cp_generation C d s gs entries frames compacted Hc) as (Hg & _). rewrite app_nil_r in Hg. cbn [switch_writes foldl perform]. rewrite lookup_insert_eq. cbn [default from_option app].
  unfold id. cbn [app]. rewrite insert_insert_eq, lookup_insert_ne by apply sl_generation. rewrite Hg. unfold recorded, target_path. do 2 f_equal. symmetry. apply take_ge. by rewrite length_generation_record.
Qed.

(** Every disk that an interruption leaves is a state of the compaction. *)
Lemma crash_states d' : crash (switch_writes (slot_other s) (concat compacted)) d d' -> state d'.
Proof.
  pose proof (cp_generation C d s gs entries frames compacted Hc) as (Hg & _). rewrite app_nil_r in Hg. pose proof (sl_generation (C := C) (slot_other s)) as Hne.
  assert (Hempty : <[sc_slot C (slot_other s) := []]> d = written C d s compacted 0) by done.
  assert (Htorn : forall n, perform (WriteAppend (sc_slot C (slot_other s)) (take n (concat compacted))) (<[sc_slot C (slot_other s) := []]> d) = written C d s compacted n).
  { intros n. cbn [perform]. rewrite lookup_insert_eq. cbn. by rewrite insert_insert_eq. }
  assert (Hfull : perform (WriteAppend (sc_slot C (slot_other s)) (concat compacted)) (<[sc_slot C (slot_other s) := []]> d) = written C d s compacted (length (concat compacted))).
  { rewrite <- Htorn. by rewrite take_ge. }
  assert (Hrec : forall m, perform (WriteAppend (sc_generation_log C) (take m (encode_generation_record (slot_other s)))) (written C d s compacted (length (concat compacted))) = recorded C d s gs compacted m).
  { intros m. cbn [perform]. unfold written, recorded, target_path. rewrite lookup_insert_ne by done. rewrite Hg, (take_ge (concat compacted)) by done. done. }
  unfold switch_writes. intros Hcr. inversion Hcr as [| |? ? ? ? Hcr1]; subst; [constructor|]. cbn [perform] in Hcr1. clear Hcr.
  inversion Hcr1 as [|? ? ? ? n|? ? ? ? Hcr2]; subst; [rewrite Hempty; constructor|rewrite Htorn; constructor|]. clear Hcr1. rewrite Hfull in Hcr2.
  inversion Hcr2 as [|? ? ? ? m|? ? ? ? Hcr3]; subst; [constructor|rewrite Hrec; constructor|]. clear Hcr2.
  rewrite <- (take_ge (encode_generation_record (slot_other s)) 51) in Hcr3 by (by rewrite length_generation_record). rewrite Hrec in Hcr3.
  inversion Hcr3; subst. constructor.
Qed.

Lemma crash_reads {V} (view : list T -> V) `{HR : !Reduction (sc_fold C) view} d' : crash (switch_writes (slot_other s) (concat compacted)) d d' ->
  reads_like C view entries d' \/ prefix_verifies C compacted.
Proof. intros Hcr. eapply compaction_reads; [done|done|exact Hc|by apply crash_states]. Qed.

Lemma recorded_untouched m path : path <> sc_slot C (slot_other s) -> path <> sc_generation_log C -> recorded C d s gs compacted m !! path = d !! path.
Proof. intros H1 H2. unfold recorded, target_path. by rewrite !lookup_insert_ne. Qed.
End compactable.
End container.

(** ** The three compactions *)

Section compactions.
Context `{Sha256}.

Lemma replay_received_is d : replay_received_index d = replay_container RECEIVED_INDEX d.
Proof. unfold replay_received_index, resolve_received_slot, resolve_live_slot, replay_container, resolve_container. by destruct (resolve_or_deduce _ _ _ _ _ _ _ d) as [[[[? ?] ?] ?]|]. Qed.
Lemma replay_trust_is d : replay_trust_policy d = replay_container TRUST_POLICY d.
Proof. unfold replay_trust_policy, resolve_trust_policy_slot, resolve_live_slot, replay_container, resolve_container. by destruct (resolve_or_deduce _ _ _ _ _ _ _ d) as [[[[? ?] ?] ?]|]. Qed.


Lemma received_reads_lookup key entries d : reads_like RECEIVED_INDEX (fun l => last (filter (fun e => rx_ref_name_key e = key) l)) entries d ->
  lookup_received_index_entry key d = Ok (last (filter (fun e => rx_ref_name_key e = key) entries)).
Proof. intros (replay & Hr & Hf & Hv). unfold lookup_received_index_entry. by rewrite replay_received_is, Hr, Hf, Hv. Qed.

Lemma trust_reads_snapshot entries d : reads_like TRUST_POLICY last entries d -> read_current_trust_policy_snapshot d = Ok (ts_key_ids <$> last entries).
Proof. intros (replay & Hr & Hf & Hv). unfold read_current_trust_policy_snapshot, read_current_trust_policy_snapshot_with_tail. by rewrite replay_trust_is, Hr, Hf, Hv. Qed.

(** The compactor's checks pass on a clean container. *)
Lemma clean_checks {T} `{EqDecision T} (C : SlotContainer T) `{HL : !SlotLaws C} d s gs why entries frames : clean_container C d s gs why entries frames ->
  exists off, resolve_container C d = Ok (s, 0%nat, off, why) /\
    replay_container C d = Ok (mkLogReplay entries 0 (length (concat frames)) (log_outcomes 0 frames)) /\
    refuse_damaged (mkLogReplay entries 0 (length (concat frames)) (log_outcomes 0 frames)) (sc_corrupt_text C) = Ok tt.
Proof.
  intros []. destruct cc_named0 as (off & Hn). exists off. split; [done|]. split; [by rewrite (replay_resolved C _ _ _ _ _ _ _ _ Hn cc_live0)|].
  unfold refuse_damaged, log_has_item_failure. cbn [lr_outcomes]. by rewrite log_outcomes_sound.
Qed.


(** Compaction of the received index: the same. *)
Theorem received_compaction_exact format run d s gs entries frames : require_current_format format d = Ok tt -> clean_container RECEIVED_INDEX d s gs None entries frames ->
  exists buffer d' outs, compact_received_index format run d = (Ok (mkCompactionReport ReceivedIndex (length entries) (length (reduce_received_index_entries entries))), d') /\
    d' = foldl (fun d w => perform w d) d (switch_writes RECEIVED_INDEX (slot_other s) buffer) /\
    (forall path, path <> received_index_slot_path (slot_other s) -> path <> received_index_generation_log_path -> d' !! path = d !! path) /\
    replay_received_index d' = Ok (mkLogReplay (reduce_received_index_entries entries) 0 (length buffer) outs) /\
    (forall key, lookup_received_index_entry key d' = Ok (last (filter (fun e => rx_ref_name_key e = key) entries))) /\
    forall key d'', crash (switch_writes RECEIVED_INDEX (slot_other s) buffer) d d'' ->
      lookup_received_index_entry key d'' = Ok (last (filter (fun e => rx_ref_name_key e = key) entries)) \/ prefix_verifies RECEIVED_INDEX frames.
Proof.
  intros Hformat Hcc. destruct (clean_compactable RECEIVED_INDEX _ (HR := received_reduction []) _ _ _ _ _ _ Hcc) as (compacted & Hc & Hsub).
  exists (concat compacted), (recorded RECEIVED_INDEX d s gs compacted 51), (log_outcomes 0 compacted). split_and!.
  - destruct (clean_checks RECEIVED_INDEX _ _ _ _ _ _ Hcc) as (off & Hn & Hr & Hd). pose proof (switch_slot_run RECEIVED_INDEX d s gs entries frames compacted d eq_refl eq_refl Hc) as Hsw.
    pose proof (encode_all_frames RECEIVED_INDEX_FORMAT encode_received_index_record _ _ received_reencodes (cp_compacted RECEIVED_INDEX d s gs entries frames compacted Hc) (cp_room RECEIVED_INDEX d s gs entries frames compacted Hc) []) as He.
    change (fold_all (sc_fold RECEIVED_INDEX) entries) with (reduce_received_index_entries entries) in He.
    unfold compact_received_index, run_received_index_compaction. rewrite (io_guard _ _ _ Hformat). unfold io_bind, io_read, io_lift. rewrite Hn, replay_received_is, Hr, Hd. cbn [lr_records lr_trailing lr_tail_offset is_some].
    rewrite bool_decide_true by done. unfold require_clean_generation_log, require_clean_live_slot, require_no_unclean_tail. cbn [lr_trailing Nat.eqb]. rewrite He. cbn [app].
    unfold io_ret at 1. rewrite Hsw. unfold io_ret, recorded. by rewrite take_ge by (by rewrite length_generation_record).
  - symmetry. exact (switch_done RECEIVED_INDEX d s gs entries frames compacted Hc).
  - intros path H1 H2. by apply recorded_untouched.
  - rewrite replay_received_is. by destruct (switched_replay RECEIVED_INDEX d s gs entries frames compacted Hc) as (off & _ & ->).
  - intros key. apply received_reads_lookup. exact (recording_reads RECEIVED_INDEX _ (HR := received_reduction key) d s gs entries frames compacted 51 Hc).
  - intros key d'' Hcr. destruct (crash_reads RECEIVED_INDEX d s gs entries frames compacted Hc _ (HR := received_reduction key) d'' Hcr) as [Hl|?]; [left; by apply received_reads_lookup|].
    right. by eapply prefix_verifies_sublist.
Qed.

Lemma snapshot_buffer_frames entries frames : Forall2 (log_frame_of TRUST_POLICY_FORMAT) entries frames -> zlen (concat frames) < 2 ^ 60 -> (length entries <= 1)%nat ->
  snapshot_buffer entries = Ok (concat frames).
Proof.
  intros Hall Hlen H1. destruct Hall as [|e f entries frames Hf Hall]; [done|]. destruct entries; [|cbn in H1; lia]. apply Forall2_nil_inv_l in Hall as ->. cbn [snapshot_buffer concat].
  rewrite app_nil_r. apply trust_reencodes; [done|]. cbn [concat] in Hlen. by rewrite app_nil_r in Hlen.
Qed.

(** An append of nothing is no write. *)
Lemma switch_trust_is target buffer d : is_Some (d !! trust_policy_container_slot_path target) -> switch_trust_slot target buffer d = switch_slot TRUST_POLICY target buffer d.
Proof.
  intros [old Hold]. unfold switch_trust_slot, switch_slot. cbn [sc_slot sc_generation_log TRUST_POLICY]. unfold io_bind. unfold truncate_file_empty_required, truncate_existing_file_required. rewrite Hold.
  case_bool_decide as Hb; [|done]. subst buffer. unfold append_file_required, append_file_reporting_offset_required, io_bind, io_ret. cbn [negb take]. rewrite lookup_insert_eq. by rewrite app_nil_r, insert_insert_eq.
Qed.

(** compaction of the trust policy keeps who is trusted.  One snapshot survives, the last one, in the
    other slot; the adopted key ids read the same before, after, and in every state an interruption of its
    writes can leave. *)
Theorem trust_compaction_exact format run d s gs entries frames : require_current_format format d = Ok tt -> clean_container TRUST_POLICY d s gs None entries frames ->
  exists buffer d' outs, compact_trust_policy format run d = (Ok (mkCompactionReport TrustPolicy (length entries) (length (reduce_trust_policy_entries entries))), d') /\
    d' = foldl (fun d w => perform w d) d (switch_writes TRUST_POLICY (slot_other s) buffer) /\
    (forall path, path <> trust_policy_container_slot_path (slot_other s) -> path <> trust_policy_generation_log_path -> d' !! path = d !! path) /\
    replay_trust_policy d' = Ok (mkLogReplay (reduce_trust_policy_entries entries) 0 (length buffer) outs) /\
    read_current_trust_policy_snapshot d' = Ok (ts_key_ids <$> last entries) /\
    forall d'', crash (switch_writes TRUST_POLICY (slot_other s) buffer) d d'' ->
      read_current_trust_policy_snapshot d'' = Ok (ts_key_ids <$> last entries) \/ prefix_verifies TRUST_POLICY frames.
Proof.
  intros Hformat Hcc. destruct (clean_compactable TRUST_POLICY _ (HR := trust_reduction) _ _ _ _ _ _ Hcc) as (compacted & Hc & Hsub).
  exists (concat compacted), (recorded TRUST_POLICY d s gs compacted 51), (log_outcomes 0 compacted). split_and!.
  - destruct (clean_checks TRUST_POLICY _ _ _ _ _ _ Hcc) as (off & Hn & Hr & Hd). pose proof (switch_slot_run TRUST_POLICY d s gs entries frames compacted d eq_refl eq_refl Hc) as Hsw.
    assert (H1 : (length (reduce_trust_policy_entries entries) <= 1)%nat) by (change (reduce_trust_policy_entries entries) with (fold_all fold_one_trust_policy_entry entries); rewrite trust_fold_all; destruct (last entries); cbn; lia).
    pose proof (snapshot_buffer_frames _ _ (cp_compacted TRUST_POLICY d s gs entries frames compacted Hc) (cp_room TRUST_POLICY d s gs entries frames compacted Hc) H1) as He.
    change (fold_all (sc_fold TRUST_POLICY) entries) with (reduce_trust_policy_entries entries) in He.
    unfold compact_trust_policy, run_trust_policy_compaction. rewrite (io_guard _ _ _ Hformat). unfold io_bind, io_read, io_lift. rewrite Hn, replay_trust_is, Hr, Hd. cbn [lr_records lr_trailing lr_tail_offset is_some].
    rewrite bool_decide_true by done. unfold require_clean_generation_log, require_clean_live_slot, require_no_unclean_tail. cbn [lr_trailing Nat.eqb]. rewrite He.
    unfold io_ret at 1. rewrite switch_trust_is by apply Hc. rewrite Hsw. unfold io_ret, recorded. by rewrite take_ge by (by rewrite length_generation_record).
  - symmetry. exact (switch_done TRUST_POLICY d s gs entries frames compacted Hc).
  - intros path H1 H2. by apply recorded_untouched.
  - rewrite replay_trust_is. by destruct (switched_replay TRUST_POLICY d s gs entries frames compacted Hc) as (off & _ & ->).
  - apply trust_reads_snapshot. exact (recording_reads TRUST_POLICY _ (HR := trust_reduction) d s gs entries frames compacted 51 Hc).
  - intros d'' Hcr. destruct (crash_reads TRUST_POLICY d s gs entries frames compacted Hc _ (HR := trust_reduction) d'' Hcr) as [Hl|?]; [left; by apply trust_reads_snapshot|].
    right. by eapply prefix_verifies_sublist.
Qed.
End compactions.

(** * Theorems about a lost generation log

    When the generation log names no slot, the entries of the two slots decide or the read is refused.  What
    is read is what the live slot holds, after every history of writes, compactions and interrupted
    compactions; no rule on the slots alone could answer always; and the removal of a received pointer is
    not such a history. *)


Section lost.
Context `{Sha256} {T : Type} `{EqDecision T} (C : SlotContainer T) `{HL : !SlotLaws C} {V : Type} (view : list T -> V) `{HR : !Reduction (sc_fold C) view}.

(** The disk of a history whose generation log is gone, down to a part of a record. *)
Record lost_log (d : Disk) (st : slots) : Prop := {
  ll_generation : exists torn, generation_on C d [] torn;
  ll_a : exists fa ta, holds C d SlotA (s_slot st SlotA) fa ta;
  ll_b : exists fb tb, holds C d SlotB (s_slot st SlotB) fb tb;
}.

Lemma slot_empty d fb tb b : holds C d SlotB b fb tb -> slot_b_has_data (sc_slot C SlotB) d = false -> b = [].
Proof.
  intros Hh Hb. unfold slot_b_has_data in Hb. rewrite (h_bytes _ _ _ _ _ _ Hh) in Hb. destruct (Z.eqb_spec (zlen (concat fb ++ tb)) 0) as [H0|]; [|done]. rewrite zlen_app in H0.
  pose proof (zlen_nonneg (concat fb)). pose proof (zlen_nonneg tb). pose proof (log_frames_length (sc_format C) sl_magic _ _ (h_frames _ _ _ _ _ _ Hh)) as Hl. unfold zlen in *. destruct b; [done|cbn in Hl; lia].
Qed.

(** C15: with its generation log lost, a container reads as its live slot or is refused.  For every history of
    writes, compactions and interrupted compactions, what the replay gives is what the live slot of that
    history gives; the only other answer is the refusal that the slots fit two histories. *)
Theorem lost_log_reads_live d st : slot_history (sc_fold C) st -> lost_log d st ->
  (exists replay, replay_container C d = Ok replay /\ log_has_item_failure replay = false /\ view (lr_records replay) = view (s_live_entries st)) \/
  replay_container C d = Err (AmbiguousGenerationLog (sc_ambiguous_text C)).
Proof.
  intros Hst [(torn & Hg) (fa & ta & Ha) (fb & tb & Hb)]. apply history_stale in Hst.
  assert (Hread : forall slot tr off why entries' frames' tail, resolve_container C d = Ok (slot, tr, off, why) -> holds C d slot entries' frames' tail ->
    fold_all (sc_fold C) entries' = fold_all (sc_fold C) (s_live_entries st) -> reads_like C view (s_live_entries st) d).
  { intros slot tr off why entries' frames' tail Hr Hh Hf. eapply reads_like_resolved; [exact HL|exact Hr|exact Hh|]. exact (view_reduced C view _ _ Hf). }
  destruct (slot_b_has_data (sc_slot C SlotB) d) eqn:Hdata.
  - destruct (resolve_lost C d torn _ _ _ _ _ _ Hg Hdata Ha Hb) as (off & Hr). destruct (keep_slot_deduction C (s_slot st SlotA) (s_slot st SlotB)) as [[slot reason]|] eqn:Hd.
    + left. destruct (deduction_choice (sc_fold C) C st slot reason eq_refl Hst Hd) as [_ Hf]. destruct slot; by eapply Hread.
    + right. unfold replay_container. by rewrite Hr.
  - left. destruct (resolve_unused C d torn Hg Hdata) as (off & Hr). eapply Hread; [exact Hr|exact Ha|]. pose proof (slot_empty _ _ _ _ Hb Hdata) as Hempty.
    destruct st as [[] l r]; cbn [s_slot s_live s_live_entries s_retired_entries] in *; [done|]. subst l.
    apply stale_beside_spec in Hst as [[r' Hp]%has_prefix_spec|[->|(p & r' & Hp & Hne & _)]]; [|done|].
    + symmetry in Hp. by apply app_nil in Hp as [-> _].
    + symmetry in Hp. apply app_nil in Hp as [-> _]. done.
Qed.
End lost.

(** ** No rule on the slots can always answer *)

(** C36: two histories can leave the same slots and trust different keys.  Adopting and removing keys around
    compactions gives two histories with equal entries in both slots, with different live slots and
    different adopted keys; no function of the slots is right for both, and the deduction answers neither. *)
Theorem slots_cannot_decide : exists st1 st2 : slots,
  slot_history fold_one_trust_policy_entry st1 /\ slot_history fold_one_trust_policy_entry st2 /\
  (forall slot, s_slot st1 slot = s_slot st2 slot) /\ s_live st1 <> s_live st2 /\ last (s_live_entries st1) <> last (s_live_entries st2) /\
  keep_slot_deduction TRUST_POLICY (s_slot st1 SlotA) (s_slot st1 SlotB) = None.
Proof.
  set (x := mkTrustSnapshot [bytes_of_string "alice"]). set (y := mkTrustSnapshot [bytes_of_string "alice"; bytes_of_string "bob"]).
  exists (mkSlots SlotA [y; x] [x; y]), (mkSlots SlotB [x; y] [y; x]). split_and!.
  - apply (history_write fold_one_trust_policy_entry SlotA [y] [x; y] x). apply (history_compact fold_one_trust_policy_entry SlotB [x; y] [x]). apply (history_write fold_one_trust_policy_entry SlotB [x] [x] y). apply (history_compact fold_one_trust_policy_entry SlotA [x] []). apply (history_write fold_one_trust_policy_entry SlotA [] [] x), history_init.
  - apply (history_write fold_one_trust_policy_entry SlotB [x] [y; x] y). apply (history_compact fold_one_trust_policy_entry SlotA [y; x] []). apply (history_write fold_one_trust_policy_entry SlotA [y] [] x). apply (history_write fold_one_trust_policy_entry SlotA [] [] y), history_init.
  - by intros [].
  - done.
  - done.
  - vm_compute. reflexivity.
Qed.

(** ** Removal is not a compaction *)

Section demo.
#[local] Existing Instance hash_mod_p.

Definition received_paths : list string := [received_index_generation_log_path; received_index_slot_path SlotA; received_index_slot_path SlotB].
(** Fresh files of the received index and of the ref pointer index. *)
Definition fresh_received : Disk := <[received_index_generation_log_path := []]> (<[received_index_slot_path SlotA := []]> (<[received_index_slot_path SlotB := []]> (<[LOG_PATH := []]> (fresh_refs [])))).

Definition origin_main : list byte := bytes_of_string "remotes/heads/main".
Definition origin_dev : list byte := bytes_of_string "remotes/heads/dev".
Definition tip (b : byte) : ObjectId := replicate 32 b.
Definition demo_run : list byte := replicate 8 x07.

(** Two received pointers; the second one is removed. *)
Definition two_received : Disk := (write_received_pointer origin_dev (tip x02) (write_received_pointer origin_main (tip x01) fresh_received).2).2.
Definition one_removed : Disk := (remove_received_pointer V7 demo_run origin_dev two_received).2.

(** Two adoptions in slot A, never compacted. *)
Definition alice_only : TrustPolicySnapshotEntry := mkTrustSnapshot [bytes_of_string "maintainer-alice"].
Definition alice_and_bob : TrustPolicySnapshotEntry := mkTrustSnapshot [bytes_of_string "maintainer-alice"; bytes_of_string "maintainer-bob"].
Definition frame_of_snapshot (e : TrustPolicySnapshotEntry) : list byte := match encode_trust_policy_record e with Ok f => f | Err _ => [] end.
Definition two_adopted : Disk := <[trust_policy_generation_log_path := []]> (<[trust_policy_container_slot_path SlotB := []]> (
  <[trust_policy_container_slot_path SlotA := frame_of_snapshot alice_only ++ frame_of_snapshot alice_and_bob]> {["FORMAT"%string := format_line x37]})).

Lemma snapshot_frames : Forall2 (log_frame_of TRUST_POLICY_FORMAT) [alice_only; alice_and_bob] [frame_of_snapshot alice_only; frame_of_snapshot alice_and_bob].
Proof.
  repeat constructor.
  - exists [], (match encode_trust_policy_body alice_only with Ok b => b | Err _ => [] end). split_and!; vm_compute; reflexivity.
  - exists [], (match encode_trust_policy_body alice_and_bob with Ok b => b | Err _ => [] end). split_and!; vm_compute; reflexivity.
Qed.

Lemma two_adopted_holds : holds TRUST_POLICY two_adopted SlotA [alice_only; alice_and_bob] [frame_of_snapshot alice_only; frame_of_snapshot alice_and_bob] [].
Proof. constructor; [vm_compute; reflexivity|exact snapshot_frames|by left|vm_compute; reflexivity]. Qed.

Lemma two_adopted_clean : clean_container TRUST_POLICY two_adopted SlotA [] None [alice_only; alice_and_bob] [frame_of_snapshot alice_only; frame_of_snapshot alice_and_bob].
Proof.
  constructor.
  - split_and!; [vm_compute; reflexivity|apply torn_generation_nil|vm_compute; reflexivity].
  - eexists. vm_compute. reflexivity.
  - exact two_adopted_holds.
  - eexists. vm_compute. reflexivity.
  - vm_compute. reflexivity.
  - rewrite !Forall_cons, Forall_nil. split_and!; try done; apply no_inner_magic_scan; vm_compute; reflexivity.
Qed.



Lemma trust_compaction_exact_witness : exists d', compact_trust_policy V7 demo_run two_adopted = (Ok (mkCompactionReport TrustPolicy 2 1), d') /\
  read_current_trust_policy_snapshot d' = Ok (Some [bytes_of_string "maintainer-alice"; bytes_of_string "maintainer-bob"]).
Proof.
  destruct (trust_compaction_exact V7 demo_run two_adopted SlotA [] _ _ eq_refl two_adopted_clean) as (buffer & d' & outs & Heq & _ & _ & _ & Hr & _).
  exists d'. split; [exact Heq|exact Hr].
Defined.

(** The same slot compacted, and one more adoption in slot B; the generation log is lost. *)
Definition three_adopted : TrustPolicySnapshotEntry := mkTrustSnapshot [bytes_of_string "maintainer-alice"; bytes_of_string "maintainer-bob"; bytes_of_string "maintainer-carol"].
Definition compacted_and_lost : Disk := <[trust_policy_container_slot_path SlotB := frame_of_snapshot alice_and_bob ++ frame_of_snapshot three_adopted]> two_adopted.

Lemma lost_log_reads_live_witness : exists replay, replay_container TRUST_POLICY compacted_and_lost = Ok replay /\ log_has_item_failure replay = false /\ last (lr_records replay) = Some three_adopted.
Proof.
  destruct (lost_log_reads_live TRUST_POLICY last (HR := trust_reduction) compacted_and_lost (mkSlots SlotB [alice_and_bob; three_adopted] [alice_only; alice_and_bob])) as [Hr|Hr].
  - apply (history_write fold_one_trust_policy_entry SlotB [alice_and_bob] [alice_only; alice_and_bob] three_adopted). apply (history_compact fold_one_trust_policy_entry SlotA [alice_only; alice_and_bob] []).
    apply (history_write fold_one_trust_policy_entry SlotA [alice_only] [] alice_and_bob). apply (history_write fold_one_trust_policy_entry SlotA [] [] alice_only), history_init.
  - constructor.
    + exists []. split_and!; [vm_compute; reflexivity|apply torn_generation_nil|vm_compute; reflexivity].
    + exists [frame_of_snapshot alice_only; frame_of_snapshot alice_and_bob], []. constructor; [vm_compute; reflexivity|exact snapshot_frames|by left|vm_compute; reflexivity].
    + exists [frame_of_snapshot alice_and_bob; frame_of_snapshot three_adopted], []. constructor; [vm_compute; reflexivity| |by left|vm_compute; reflexivity]. repeat constructor.
      * exists [], (match encode_trust_policy_body alice_and_bob with Ok b => b | Err _ => [] end). split_and!; vm_compute; reflexivity.
      * exists [], (match encode_trust_policy_body three_adopted with Ok b => b | Err _ => [] end). split_and!; vm_compute; reflexivity.
  - exact Hr.
  - exfalso. assert (Hok : is_ok (replay_container TRUST_POLICY compacted_and_lost) = true) by (vm_compute; reflexivity). rewrite Hr in Hok. discriminate Hok.
Defined.

(** A ref published once, never compacted. *)
Definition one_published : Disk := <[ref_pointer_index_slot_path SlotA := pointer_frame (pub_entry first_publication)]> (fresh_refs []).



End demo.
