(* ===== verification/RestoreThms.v ===== *)
(** * Theorems about restoring a recovery run

    A slot rewrite that was saved first is undone exactly: the slot and the generation log are again as they
    were.  The received-pointer removal is one. *)

From S2P Require Import Prelude PrikkError Hash Utf8 ByteCursor ObjectId RepoPath ObjectStore FileCodec FrameResync IndexFile TailLog FileSystem ObjectDisk.
From S2P Require Import Generation CompactThms RefLog RefStore RefStoreThms RecoveryLog RecoveryLogThms RecoveryEntry Received TrustIndex Compact Restore.

(** ** Identifiers and names *)

Lemma path_of_string p : path_of (bytes_of_string p) = p.
Proof. apply String.string_of_list_byte_of_string. Qed.

Lemma hex_char_lower n : 0 <= n < 16 -> (in_range 48 57 (hex_char n) || in_range 65 70 (hex_char n) || in_range 97 102 (hex_char n)) = true /\ ascii_fold [hex_char n] = [hex_char n].
Proof.
  intros Hn. rewrite <- (Z2Nat.id n) by lia. assert (Hm : (Z.to_nat n < 16)%nat) by lia. revert Hm. generalize (Z.to_nat n). clear. intros m Hm.
  do 16 (destruct m as [|m]; [by split|]). lia.
Qed.

Lemma nibbles b : 0 <= Z.shiftr (bz b) 4 < 16 /\ 0 <= Z.land (bz b) 15 < 16.
Proof.
  pose proof (bz_range b) as Hb. rewrite Z.shiftr_div_pow2 by lia. change 15 with (Z.ones 4). rewrite Z.land_ones by lia. change (2 ^ 4) with 16. split; [|apply Z.mod_pos_bound; lia].
  split; [apply Z.div_pos; lia|apply Z.div_lt_upper_bound; lia].
Qed.

Lemma normalize_hex run : length run = 8%nat -> normalize_id (to_hex run) = Some (to_hex run).
Proof.
  intros Hl. unfold normalize_id. rewrite length_to_hex, Hl. cbn [Nat.mul Nat.add Nat.eqb ID_LEN andb].
  assert (Hall : forallb (fun b => in_range 48 57 b || in_range 65 70 b || in_range 97 102 b) (to_hex run) = true /\ ascii_fold (to_hex run) = to_hex run).
  { clear Hl. induction run as [|b run [IH1 IH2]]; [done|]. cbn [to_hex forallb]. destruct (nibbles b) as [H1 H2]. destruct (hex_char_lower _ H1) as [-> F1]. destruct (hex_char_lower _ H2) as [-> F2].
    rewrite IH1. split; [done|]. unfold ascii_fold in *. cbn [map] in *. injection F1 as ->. injection F2 as ->. by rewrite IH2. }
  destruct Hall as [-> ->]. done.
Qed.

(** ** The meaning files *)

(** The live slot of the pointer index is known, as every save and every restore requires. *)
Definition pointer_known (d : Disk) `{Sha256} : Prop := exists slot,
  generation_log_lost ref_pointer_index_generation_log_path (ref_pointer_index_slot_path SlotB) d = Ok false /\
  resolve_live_slot_trusting_default_on_ambiguity ref_pointer_index_generation_log_path d = Ok slot.

Section meaning.
Context `{Sha256}.

Lemma pointer_known_frame d d' : d' !! ref_pointer_index_generation_log_path = d !! ref_pointer_index_generation_log_path ->
  d' !! ref_pointer_index_slot_path SlotB = d !! ref_pointer_index_slot_path SlotB -> pointer_known d -> pointer_known d'.
Proof.
  intros H1 H2 (slot & Hl & Hr). exists slot. revert Hl Hr. unfold generation_log_lost, resolve_live_slot_trusting_default_on_ambiguity, replay_generation_log, slot_b_has_data. by rewrite H1, H2.
Qed.

(** A container whose slot rewrites can be restored. *)
Class Restorable {T} (C : SlotContainer T) : Prop := {
  rs_slot : forall s, sc_slot C s ∈ repairable_sources;
  rs_generation : sc_generation_log C ∈ repairable_sources;
  rs_slot_meaning : forall s d, pointer_known d -> meaning_paths_for (sc_slot C s) d = Ok [sc_generation_log C];
  rs_generation_meaning : forall d, pointer_known d -> meaning_paths_for (sc_generation_log C) d = Ok [];
  rs_apart : forall path, path ∈ [LOG_PATH; ref_pointer_index_generation_log_path; ref_pointer_index_slot_path SlotB] -> path <> sc_generation_log C /\ forall s, path <> sc_slot C s;
  rs_slot_name : forall s, short_string (bytes_of_string (sc_slot C s));
  rs_generation_name : short_string (bytes_of_string (sc_generation_log C));
}.

Ltac meaning_of := let Hk := fresh in intros (? & Hk & ?); unfold meaning_paths_for; rewrite Hk; repeat (rewrite bool_decide_false by paths_differ); repeat (rewrite bool_decide_true by reflexivity); cbn [orb];
  match goal with Hr : resolve_live_slot_trusting_default_on_ambiguity _ _ = _ |- _ => rewrite Hr end; done.
Ltac apart := intros path Hp; rewrite !elem_of_cons, elem_of_nil in Hp; destruct Hp as [->|[->|[->|[]]]]; (split; [paths_differ|intros []; paths_differ]).

#[export] Instance received_restorable : Restorable RECEIVED_INDEX.
Proof.
  split.
  - intros []; apply (bool_decide_unpack _); vm_compute; done.
  - apply (bool_decide_unpack _); vm_compute; done.
  - intros [] d; meaning_of.
  - intros d; meaning_of.
  - apart.
  - intros []; split; vm_compute; done.
  - split; vm_compute; done.
Qed.

#[export] Instance trust_restorable : Restorable TRUST_POLICY.
Proof.
  split.
  - intros []; apply (bool_decide_unpack _); vm_compute; done.
  - apply (bool_decide_unpack _); vm_compute; done.
  - intros [] d; meaning_of.
  - intros d; meaning_of.
  - apart.
  - intros []; split; vm_compute; done.
  - split; vm_compute; done.
Qed.
End meaning.

(** ** Saving *)

Section save.
Context `{Sha256}.

Lemma save_replace_disk run source previous new label d paths : meaning_paths_for source d = Ok paths ->
  exists saved, save_replace run source previous new label d
    = (Ok saved, <[LOG_PATH := default [] (d !! LOG_PATH) ++ frame (stamped run (replace_entry source previous new label (meaning_now paths d)))]> d).
Proof. intros Hp. unfold save_replace, io_bind at 1, io_read at 1. rewrite Hp. unfold io_bind, io_read. eexists. by apply recovery_append_disk. Qed.

Lemma replace_entry_wf run source previous new label d paths : length run = 8%nat -> short_string (bytes_of_string source) -> short_string (bytes_of_string label) ->
  Forall (fun p => short_string (bytes_of_string p)) paths -> Z.of_nat (length paths) < 2 ^ 16 -> zlen previous < 2 ^ 64 ->
  wf_recovery_entry (stamped run (replace_entry source previous new label (meaning_now paths d))).
Proof.
  intros Hr Hs Hl Hp Hn Hz. unfold wf_recovery_entry. cbn [stamped replace_entry re_run re_source re_offset re_label re_binary_version re_prefix_hash re_meaning re_removed re_new_hash].
  split_and!; try done; try apply sha256_length.
  - unfold meaning_now. apply Forall_fmap. eapply Forall_impl; [exact Hp|]. intros p Hps. split; [done|]. cbn [compose m_hash]. destruct (d !! p); cbn; [apply sha256_length|done].
  - unfold meaning_now. by rewrite length_map.
Qed.

Lemma listed_log d es : d !! LOG_PATH = Some (concat (map frame es)) -> Forall wf_recovery_entry es -> zlen (concat (map frame es)) < 2 ^ 60 ->
  recovery_list d = Ok (mkListing (map listed_of es) 0 false false 0).
Proof.
  intros Hd Hes Hlen. unfold recovery_list, read_file_if_exists. rewrite Hd. rewrite <- (app_nil_r (concat (map frame es))).
  pose proof (replace_entry_wf (replicate 8 x00) "" [] [] "" ∅ []) as Hwf. set (e := stamped _ _) in Hwf.
  assert (He : wf_recovery_entry e) by (apply Hwf; try done; try constructor; vm_compute; done).
  apply (list_log_frames es e [] (frame e)).
  - done.
  - done.
  - intros Hc%(f_equal length). rewrite length_frame in Hc. unfold HEADER_LEN in Hc. cbn [length] in Hc. lia.
  - by rewrite app_nil_r.
  - unfold zlen. rewrite length_frame, encode_body_enc by done. unfold e. cbn [stamped replace_entry re_kind re_run re_source re_offset re_label re_binary_version re_prefix_hash re_meaning re_removed re_new_hash].
    rewrite !length_app, !sha256_length. vm_compute. done.
  - intros p _ Hm%magic_at_bound. cbn in Hm. lia.
Qed.
End save.

(** ** Undoing a slot rewrite *)

Ltac some_default := repeat match goal with |- context [default ?a (Some ?b)] => change (default a (Some b)) with b end.

Section undo.
Context `{Sha256} {T : Type} `{EqDecision T} (C : SlotContainer T) `{HL : !SlotLaws C} `{HRs : !Restorable C}.

Lemma undo_replace step bytes d old : st_done step = false -> st_kind step = Replace -> d !! path_of (st_source step) = Some old ->
  undo_step step bytes d = (Ok tt, <[path_of (st_source step) := bytes]> d).
Proof.
  intros Hd Hk Hold. unfold undo_step. rewrite Hd, Hk. unfold io_bind, overwrite_in_place_required, truncate_existing_file_required. rewrite Hold.
  rewrite lookup_insert_eq, insert_insert_eq. do 2 f_equal. rewrite Nat.sub_0_l, Nat.add_0_l. apply (take_app_length bytes).
Qed.

Context (d : Disk) (run : list byte) (target : ContainerSlot) (before generation buffer : list byte) (label : string) (es : list Entry).

Abbreviation slot_path := (sc_slot C target).
Abbreviation generation_path := (sc_generation_log C).
Abbreviation switched := (generation ++ encode_generation_record target).

Definition slot_entry : Entry := stamped run (replace_entry slot_path before buffer label [mkMeaning (bytes_of_string generation_path) (Some (sha256 generation))]).
Definition generation_entry : Entry := stamped run (replace_entry generation_path generation switched label []).

(** What a save needs: both files, a sound recovery log, a run not yet in it. *)
Record savable : Prop := {
  sv_slot : d !! slot_path = Some before;
  sv_generation : d !! generation_path = Some generation;
  sv_pointer : pointer_known d;
  sv_run : length run = 8%nat;
  sv_label : short_string (bytes_of_string label);
  sv_log : default [] (d !! LOG_PATH) = concat (map frame es);
  sv_sound : Forall wf_recovery_entry es;
  sv_fresh : to_hex run ∉ map l_id (map listed_of es);
  sv_room : zlen (concat (map frame (es ++ [slot_entry; generation_entry]))) < 2 ^ 60;
  sv_small : zlen before < 2 ^ 64 /\ zlen generation < 2 ^ 64;
}.

(** The disk after the two saves, and after the rewrite. *)
Definition saved_disk : Disk := <[LOG_PATH := concat (map frame (es ++ [slot_entry; generation_entry]))]> d.
Definition rewritten_disk : Disk := <[generation_path := switched]> (<[slot_path := buffer]> saved_disk).

Lemma log_apart : LOG_PATH <> generation_path /\ LOG_PATH <> slot_path.
Proof. destruct (rs_apart (C := C) LOG_PATH) as [H1 H2]; [left|]. by split. Qed.

Lemma save_run : savable -> save_slot_rewrite run slot_path generation_path target buffer label d = (Ok tt, saved_disk).
Proof.
  intros []. destruct log_apart as [Hlg Hls]. unfold save_slot_rewrite, io_bind at 1, io_read at 1. rewrite sv_slot0. some_default.
  destruct (save_replace_disk run slot_path before buffer label d _ (rs_slot_meaning target d sv_pointer0)) as (s1 & Hs1). unfold io_bind at 1. rewrite Hs1. set (d1 := <[LOG_PATH := _]> d).
  assert (Hother : forall p, p <> LOG_PATH -> d1 !! p = d !! p) by (intros p Hp; unfold d1; by rewrite lookup_insert_ne).
  assert (Hk1 : pointer_known d1). { eapply pointer_known_frame; [..|exact sv_pointer0]; (apply Hother; paths_differ). }
  unfold io_bind at 1, io_read at 1. rewrite Hother, sv_generation0 by congruence. some_default.
  destruct (save_replace_disk run generation_path generation switched label d1 _ (rs_generation_meaning d1 Hk1)) as (s2 & Hs2). unfold io_bind. rewrite Hs2. unfold io_ret. f_equal.
  unfold saved_disk, d1 at 1. rewrite lookup_insert_eq. some_default. unfold d1. rewrite insert_insert_eq. f_equal.
  rewrite sv_log0, map_app, concat_app. cbn [map concat]. rewrite app_nil_r, <- app_assoc. unfold meaning_now. cbn [map]. by rewrite sv_generation0.
Qed.

Lemma rewrite_run : savable -> switch_slot C target buffer saved_disk = (Ok tt, rewritten_disk).
Proof.
  intros []. destruct log_apart as [Hlg Hls]. unfold switch_slot, truncate_file_empty_required, append_generation_record, append_file_required, truncate_existing_file_required, append_file_reporting_offset_required, io_bind, io_ret.
  assert (Hother : forall p, LOG_PATH <> p -> saved_disk !! p = d !! p) by (intros p Hp; unfold saved_disk; by rewrite lookup_insert_ne).
  rewrite Hother, sv_slot0 by done. cbn [take]. rewrite lookup_insert_eq. cbn [app]. rewrite insert_insert_eq. rewrite lookup_insert_ne by apply sl_generation. rewrite Hother, sv_generation0 by done. done.
Qed.

Lemma saved_members : savable -> run_members (to_hex run) (map listed_of (es ++ [slot_entry; generation_entry])) = [(length es, slot_entry); (S (length es), generation_entry)].
Proof.
  intros []. unfold run_members. rewrite map_app, imap_app, omap_app. rewrite length_map.
  assert (Hno : forall (l : list Listed) (f : nat -> nat), to_hex run ∉ map l_id l ->
    omap (fun '(index, listed) => if bool_decide (l_id listed = to_hex run) then Some (index, l_entry listed) else None) (imap (fun i x => (f i, x)) l) = []).
  { induction l as [|x l IH]; intros f Hn; [done|]. cbn [map] in Hn. apply not_elem_of_cons in Hn as [Hx Hn]. rewrite imap_cons. cbn [omap list_omap].
    rewrite bool_decide_false by (intros Heq; by rewrite Heq in Hx). exact (IH (fun i => f (S i)) Hn). }
  rewrite (Hno _ (fun i => i)) by done. cbn [app map imap omap list_omap compose listed_of l_id l_entry slot_entry generation_entry stamped re_run].
  cbn. rewrite !bool_decide_true by done. by rewrite Nat.add_0_r, Nat.add_1_r.
Qed.

(** The files of the run apart, a disk is as it was before the run. *)
Definition others_kept (d' : Disk) : Prop := forall path, path <> LOG_PATH -> path <> slot_path -> path <> generation_path -> d' !! path = d !! path.

Lemma rewritten_others : savable -> others_kept rewritten_disk.
Proof. intros _ path H1 H2 H3. unfold rewritten_disk, saved_disk. by rewrite !lookup_insert_ne. Qed.

Lemma saved_checked d' : savable -> others_kept d' -> check_members [(length es, slot_entry); (S (length es), generation_entry)] d' = Ok None.
Proof.
  intros [] Hothers. assert (Hk : pointer_known d').
  { eapply pointer_known_frame; [..|exact sv_pointer0].
    - destruct (rs_apart (C := C) ref_pointer_index_generation_log_path) as [H1 H2]; [right; left|]. apply Hothers; [paths_differ|apply H2|apply H1].
    - destruct (rs_apart (C := C) (ref_pointer_index_slot_path SlotB)) as [H1 H2]; [right; right; left|]. apply Hothers; [paths_differ|apply H2|apply H1]. }
  cbn [check_members slot_entry generation_entry stamped replace_entry re_source re_meaning]. rewrite !path_of_string.
  rewrite (bool_decide_true (slot_path ∈ _)) by apply rs_slot. rewrite (bool_decide_true (generation_path ∈ _)) by apply rs_generation. cbn [negb].
  rewrite rs_slot_meaning, rs_generation_meaning by done. cbn [map m_path]. by rewrite !bool_decide_true.
Qed.

(** The hash of one of the two rewritten files does not tell its bytes before from its bytes after. *)
Definition rewrite_collision : Prop := sha256_collision switched generation \/ sha256_collision buffer before.

Lemma generation_replaced : sha256 switched = sha256 generation -> rewrite_collision.
Proof.
  intros Hs. left. split; [|done]. intros Heq. apply (f_equal length) in Heq. rewrite length_app, length_generation_record in Heq. lia.
Qed.

Lemma replace_done source previous new m cur : step_done (Some cur) (stamped run (replace_entry source previous new label m)) = bool_decide (sha256 cur = sha256 previous).
Proof. reflexivity. Qed.
Lemma replace_source source previous new m : source_conditions (Some new) (stamped run (replace_entry source previous new label m)) = ([mkCondition "{} holds the bytes the repair wrote" true], previous).
Proof. unfold source_conditions. cbn [stamped replace_entry re_kind re_new_hash re_removed]. by rewrite bool_decide_true. Qed.

(** The recovery log lists the run last. *)
Lemma saved_listed d' : savable -> d' !! LOG_PATH = Some (concat (map frame (es ++ [slot_entry; generation_entry]))) ->
  recovery_list d' = Ok (mkListing (map listed_of (es ++ [slot_entry; generation_entry])) 0 false false 0).
Proof.
  intros [] Hd. assert (Hw1 : wf_recovery_entry slot_entry).
  { pose proof (replace_entry_wf run slot_path before buffer label d [generation_path]) as Hw. unfold meaning_now in Hw. cbn [map] in Hw. rewrite sv_generation0 in Hw.
    apply Hw; [done|apply rs_slot_name|done|constructor; [apply rs_generation_name|constructor]|done|apply sv_small0]. }
  assert (Hw2 : wf_recovery_entry generation_entry) by (apply (replace_entry_wf run generation_path generation switched label d []); [done|apply rs_generation_name|done|constructor|done|apply sv_small0]).
  apply listed_log; [done|apply Forall_app; split; [done|by rewrite !Forall_cons, Forall_nil]|done].
Qed.

Lemma rewritten_log : rewritten_disk !! LOG_PATH = Some (concat (map frame (es ++ [slot_entry; generation_entry]))).
Proof. destruct log_apart as [Hlg Hls]. unfold rewritten_disk, saved_disk. rewrite !lookup_insert_ne by done. apply lookup_insert_eq. Qed.

(** The run's steps on the rewritten files: the generation log is first. *)
Lemma saved_steps : savable -> rewrite_collision \/ exists steps,
  plan_steps (to_hex run) (map listed_of (es ++ [slot_entry; generation_entry])) [(S (length es), generation_entry); (length es, slot_entry)] rewritten_disk None = (steps, None) /\
  forallb (fun step => st_done step || forallb cn_holds (st_conditions step)) (map fst steps) = true /\
  undo_steps steps rewritten_disk = (Ok tt, <[slot_path := before]> (<[generation_path := generation]> rewritten_disk)).
Proof.
  intros []. pose proof (sl_generation (C := C) target) as Hne. assert (Hg : rewritten_disk !! generation_path = Some switched) by apply lookup_insert_eq.
  assert (Hs : rewritten_disk !! slot_path = Some buffer) by (unfold rewritten_disk; rewrite lookup_insert_ne by done; apply lookup_insert_eq).
  destruct (decide (sha256 switched = sha256 generation)) as [Hsame|Hdiff]; [left; by apply generation_replaced|].
  cbn [plan_steps]. change (re_source generation_entry) with (bytes_of_string generation_path). change (re_source slot_entry) with (bytes_of_string slot_path). rewrite !path_of_string.
  rewrite Hg. unfold generation_entry at 1. rewrite replace_done, bool_decide_false by done. unfold generation_entry at 1. rewrite replace_source. cbn [generation_entry stamped replace_entry re_meaning map app existsb cn_holds negb is_some andb orb].
  rewrite lookup_insert_ne, Hs by done. unfold slot_entry at 1. rewrite replace_done. case_bool_decide as Hb.
  - destruct (decide (buffer = before)) as [Heq|Hn]; [right|left; by right]. eexists. split; [reflexivity|]. split; [reflexivity|]. cbn [undo_steps]. unfold io_bind.
    erewrite undo_replace; [|done|done|]; cbn [st_source]; rewrite !path_of_string; [|done]. unfold undo_step. cbn [st_done]. unfold io_ret.
    rewrite (insert_id _ slot_path); [done|]. by rewrite lookup_insert_ne, <- Heq.
  - right. unfold slot_entry at 1. rewrite replace_source. cbn [slot_entry stamped replace_entry re_meaning map]. unfold meaning_condition. cbn [m_path m_hash]. rewrite path_of_string, lookup_insert_eq. cbn [fmap option_fmap option_map].
    rewrite bool_decide_true by done. cbn [app existsb cn_holds negb is_some andb orb]. eexists. split; [reflexivity|]. split; [reflexivity|]. cbn [undo_steps]. unfold io_bind.
    erewrite undo_replace; [|done|done|]; cbn [st_source]; rewrite !path_of_string; [|done]. erewrite undo_replace; [|done|done|]; cbn [st_source]; rewrite !path_of_string; [done|]. by rewrite lookup_insert_ne.
Qed.

(** The restore of a saved slot rewrite. *)
Lemma rewrite_restored : savable -> rewrite_collision \/ exists plan d2, restore (to_hex run) false rewritten_disk = (Ok plan, d2) /\ pl_written plan = true /\ pl_refusal plan = None /\
  forall path, path <> LOG_PATH -> d2 !! path = d !! path.
Proof.
  intros Hsv. destruct (saved_steps Hsv) as [?|(steps & Hp & Hc & Hu)]; [by left|right]. pose proof (saved_checked rewritten_disk Hsv (rewritten_others Hsv)) as Hck. pose proof (saved_members Hsv) as Hm.
  pose proof (saved_listed rewritten_disk Hsv rewritten_log) as Hlist. destruct Hsv.
  unfold restore. rewrite normalize_hex by done. unfold io_bind at 1, io_read at 1. rewrite Hlist. cbn [ls_entries]. rewrite Hm.
  unfold io_bind at 1, io_read at 1. rewrite Hck. unfold io_bind at 1, io_read at 1. change (reverse _) with [(S (length es), generation_entry); (length es, slot_entry)]. rewrite Hp. cbn [is_some andb].
  unfold can_restore. cbn [pl_refusal pl_steps is_some negb andb]. rewrite Hc. cbn [andb negb]. unfold io_bind. rewrite Hu. eexists _, _. split; [reflexivity|]. split; [done|]. split; [done|].
  intros path Hpath. destruct (decide (path = slot_path)) as [->|Hn1]; [by rewrite lookup_insert_eq|]. rewrite lookup_insert_ne by done.
  destruct (decide (path = generation_path)) as [->|Hn2]; [by rewrite lookup_insert_eq|]. unfold rewritten_disk, saved_disk. by rewrite !lookup_insert_ne.
Qed.

(** The slot step of the restore, stopped between its overwrite and its truncation. *)
Definition stuck : list byte := before ++ drop (length before) buffer.
Definition stopped_disk : Disk := <[slot_path := stuck]> (<[generation_path := generation]> rewritten_disk).

(** Beside the rewrite's own two files, the mixed slot hashes like one of the two sides. *)
Definition stuck_collision : Prop := rewrite_collision \/ sha256_collision stuck before \/ sha256_collision stuck buffer.

Lemma stopped_reached : savable ->
  (do! _ := overwrite_in_place_required generation_path 0 generation in
   do! _ := truncate_existing_file_required generation_path (length generation) in
   overwrite_in_place_required slot_path 0 before) rewritten_disk = (Ok tt, stopped_disk).
Proof.
  intros _. pose proof (sl_generation (C := C) target) as Hne. assert (Hg : rewritten_disk !! generation_path = Some switched) by apply lookup_insert_eq.
  assert (Hs : rewritten_disk !! slot_path = Some buffer) by (unfold rewritten_disk; rewrite lookup_insert_ne by done; apply lookup_insert_eq).
  unfold io_bind, overwrite_in_place_required, truncate_existing_file_required. rewrite Hg, lookup_insert_eq, insert_insert_eq. rewrite !Nat.sub_0_l, !Nat.add_0_l.
  change (take 0 switched ++ replicate 0 x00 ++ generation ++ drop (length generation) switched) with (generation ++ drop (length generation) switched). rewrite take_app_length, lookup_insert_ne, Hs by done. done.
Qed.

(** The steps of the restore on the stopped files: the slot holds the bytes of neither side. *)
Lemma stopped_steps : sha256 stuck <> sha256 before -> sha256 stuck <> sha256 buffer -> exists steps,
  plan_steps (to_hex run) (map listed_of (es ++ [slot_entry; generation_entry])) [(S (length es), generation_entry); (length es, slot_entry)] stopped_disk None = (steps, None) /\
  forallb (fun step => st_done step || forallb cn_holds (st_conditions step)) (map fst steps) = false.
Proof.
  intros H1 H2. pose proof (sl_generation (C := C) target) as Hne. assert (Hs : stopped_disk !! slot_path = Some stuck) by apply lookup_insert_eq.
  assert (Hg : stopped_disk !! generation_path = Some generation) by (unfold stopped_disk; rewrite lookup_insert_ne by done; apply lookup_insert_eq).
  assert (Hlater : later_run (to_hex run) (length es) (bytes_of_string slot_path) (map listed_of (es ++ [slot_entry; generation_entry])) = None).
  { unfold later_run. rewrite map_app, drop_app_ge by (rewrite length_map; lia). rewrite length_map. replace (S (length es) - length es)%nat with 1%nat by lia.
    cbn [map drop]. rewrite filter_cons_False; [done|]. by intros [Hx _]. }
  cbn [plan_steps]. change (re_source generation_entry) with (bytes_of_string generation_path). change (re_source slot_entry) with (bytes_of_string slot_path). rewrite !path_of_string, Hg, Hs.
  unfold generation_entry at 1. rewrite replace_done, bool_decide_true by done. unfold slot_entry at 1. rewrite replace_done, bool_decide_false by done.
  assert (Hsrc : source_conditions (Some stuck) slot_entry = ([mkCondition "{} has changed since the repair wrote its bytes" false], before)).
  { unfold source_conditions. cbn [slot_entry stamped replace_entry re_kind re_new_hash re_removed]. by rewrite bool_decide_false. }
  rewrite Hsrc. cbn [app existsb cn_holds negb is_some andb orb]. rewrite Hlater. eexists. split; [reflexivity|]. cbn [map fst forallb st_done st_conditions cn_holds orb andb]. done.
Qed.

(** C38: a restore stopped inside a slot rewrite does not finish when it is run again.  For every saved slot
    rewrite whose slot was shorter before and not a prefix of what replaced it: uninterrupted, the restore
    writes and gives every file back; stopped after the overwrite of the slot and before its truncation, it
    leaves a slot with the bytes of neither side, and the same restore then reports its plan, writes nothing
    and cannot restore.  The hashes of the four contents at hand are assumed not to collide. *)
Theorem interrupted_restore_stuck : savable -> (length before < length buffer)%nat -> ~ before `prefix_of` buffer ->
  (do! _ := overwrite_in_place_required generation_path 0 generation in
   do! _ := truncate_existing_file_required generation_path (length generation) in
   overwrite_in_place_required slot_path 0 before) rewritten_disk = (Ok tt, stopped_disk) /\
  (stuck_collision \/
   (exists plan d2, restore (to_hex run) false rewritten_disk = (Ok plan, d2) /\ pl_written plan = true /\ forall path, path <> LOG_PATH -> d2 !! path = d !! path) /\
   exists plan, restore (to_hex run) false stopped_disk = (Ok plan, stopped_disk) /\ pl_written plan = false /\ can_restore plan = false).
Proof.
  intros Hsv Hlen Hpre. split; [by apply stopped_reached|]. destruct (rewrite_restored Hsv) as [Hc|(plan & d2 & Hr & Hw & _ & Hd)]; [left; by left|].
  destruct (decide (sha256 stuck = sha256 before)) as [Hb|Hb].
  { left. right. left. split; [|done]. intros Heq. apply (f_equal length) in Heq. unfold stuck in Heq. rewrite length_app, length_drop in Heq. lia. }
  destruct (decide (sha256 stuck = sha256 buffer)) as [Hn|Hn].
  { left. right. right. split; [|done]. intros Heq. apply Hpre. exists (drop (length before) buffer). done. }
  right. split; [by exists plan, d2|]. destruct (stopped_steps Hb Hn) as (steps & Hp & Hf). pose proof (sl_generation (C := C) target) as Hne. destruct log_apart as [Hlg Hls].
  assert (Hlist : recovery_list stopped_disk = Ok (mkListing (map listed_of (es ++ [slot_entry; generation_entry])) 0 false false 0)).
  { apply saved_listed; [done|]. unfold stopped_disk. rewrite !lookup_insert_ne by done. exact rewritten_log. }
  assert (Hck : check_members [(length es, slot_entry); (S (length es), generation_entry)] stopped_disk = Ok None).
  { apply saved_checked; [done|]. intros path H1 H2 H3. unfold stopped_disk. rewrite !lookup_insert_ne by done. by apply rewritten_others. }
  pose proof (saved_members Hsv) as Hm. unfold restore. rewrite normalize_hex by apply Hsv. unfold io_bind at 1, io_read at 1. rewrite Hlist. cbn [ls_entries]. rewrite Hm.
  unfold io_bind at 1, io_read at 1. rewrite Hck. unfold io_bind at 1, io_read at 1. change (reverse _) with [(S (length es), generation_entry); (length es, slot_entry)]. rewrite Hp. cbn [is_some andb].
  unfold can_restore. cbn [pl_refusal pl_steps is_some negb andb]. rewrite Hf. cbn [andb]. eexists. split; [reflexivity|]. split; [done|]. cbn [pl_refusal pl_steps is_some negb andb]. exact Hf.
Qed.
End undo.

(** ** Removing a received pointer *)

Section remove.
Context `{Sha256}.

Abbreviation view_of key := (fun l : list ReceivedIndexEntry => last (filter (fun e => rx_ref_name_key e = key) l)).

(** What a removal keeps. *)
Definition kept_received (key : list byte) (entries : list ReceivedIndexEntry) : list ReceivedIndexEntry :=
  filter (fun entry => rx_ref_name_key entry <> key) (reduce_received_index_entries entries).

Lemma kept_received_view key entries key' : view_of key' (kept_received key entries) = if decide (key' = key) then None else view_of key' entries.
Proof.
  unfold kept_received. rewrite list_filter_filter. destruct (decide (key' = key)) as [->|Hne].
  - rewrite (list_filter_iff _ (fun _ => False)) by (intros x; tauto). generalize (reduce_received_index_entries entries). intros l. induction l as [|x l IH]; [done|]. rewrite filter_cons_False; [exact IH|tauto].
  - rewrite (list_filter_iff _ (fun e => rx_ref_name_key e = key')) by (intros x; split; [by intros []|intros ->; by split]). exact (view_fold_all (Reduction := received_reduction key') entries).
Qed.

Lemma kept_received_frames key entries frames : Forall2 (log_frame_of RECEIVED_INDEX_FORMAT) entries frames -> zlen (concat frames) < 2 ^ 60 ->
  exists frames', Forall2 (log_frame_of RECEIVED_INDEX_FORMAT) (kept_received key entries) frames' /\ zlen (concat frames') < 2 ^ 60 /\ encode_all encode_received_index_record (kept_received key entries) [] = Ok (concat frames').
Proof.
  intros Hall Hlen. assert (Hsub : kept_received key entries `sublist_of` entries).
  { unfold kept_received. etrans; [apply sublist_filter|]. exact (fold_all_sublist (Reduction := received_reduction []) entries). }
  destruct (sublist_Forall2 _ _ _ _ Hsub Hall) as (frames' & Hf & Hs'). exists frames'. split; [done|].
  assert (Hl : zlen (concat frames') < 2 ^ 60) by (pose proof (sublist_concat_length _ _ Hs'); unfold zlen in *; lia). split; [done|].
  exact (encode_all_frames RECEIVED_INDEX_FORMAT encode_received_index_record _ _ received_reencodes Hf Hl []).
Qed.

Lemma reads_self d s gs why entries frames V (view : list ReceivedIndexEntry -> V) : clean_container RECEIVED_INDEX d s gs why entries frames -> reads_like RECEIVED_INDEX view entries d.
Proof.
  intros Hcc. destruct (clean_checks RECEIVED_INDEX _ _ _ _ _ _ Hcc) as (off & _ & Hr & Hd). eexists. split; [exact Hr|]. split; [|done]. unfold refuse_damaged in Hd. by destruct (log_has_item_failure _).
Qed.

(** What a removal needs: a clean index, and files that can be saved. *)
Section removal.
Context (format : RepositoryFormat) (d : Disk) (s : ContainerSlot) (gs : list ContainerSlot) (why : option DeductionReason) (entries : list ReceivedIndexEntry) (frames : list (list byte))
  (name : list byte) (e : ReceivedIndexEntry) (run before buffer : list byte) (es : list Entry).

Abbreviation key := (ref_name_key_bytes name).
Abbreviation removed_disk := (rewritten_disk RECEIVED_INDEX d run (slot_other s) before (generation_bytes gs) buffer "received remove" es).

Record removable : Prop := {
  rm_format : require_current_format format d = Ok tt;
  rm_clean : clean_container RECEIVED_INDEX d s gs why entries frames;
  rm_name : validate_received_ref name = Ok tt;
  rm_found : view_of key entries = Some e;
  rm_buffer : encode_all encode_received_index_record (kept_received key entries) [] = Ok buffer;
  rm_savable : savable RECEIVED_INDEX d run (slot_other s) before (generation_bytes gs) buffer "received remove" es;
}.

Lemma removal_runs : removable -> remove_received_pointer format run name d
  = (Ok (mkRemoveReport name (Some (ReceivedPointer_from e)) (length entries) (length (kept_received key entries)) (Some (to_hex run))), removed_disk).
Proof.
  intros [Hfmt Hcc Hv He Hbuf Hsv]. destruct (clean_checks RECEIVED_INDEX _ _ _ _ _ _ Hcc) as (off & Hn & Hr & Hd). pose proof (received_reads_lookup key entries d (reads_self _ _ _ _ _ _ _ _ Hcc)) as Hl.
  unfold remove_received_pointer, run_received_remove. rewrite (io_guard _ _ _ Hfmt). unfold io_bind at 1, io_lift at 1. rewrite Hv. unfold io_bind at 1, io_read at 1. rewrite Hl, He. cbn [is_some negb fmap option_fmap option_map].
  unfold io_bind at 1, io_read at 1. rewrite Hn. unfold io_bind at 1, io_read at 1. rewrite replay_received_is, Hr. unfold io_bind at 1, io_lift at 1. unfold refuse_damaged in Hd |- *. destruct (log_has_item_failure _); [done|].
  cbn [lr_records]. rewrite bool_decide_true by done. fold (kept_received key entries). unfold require_clean_generation_log, require_clean_live_slot, require_no_unclean_tail. cbn [lr_trailing Nat.eqb].
  unfold io_bind at 1 2 3 4, io_lift. rewrite Hbuf. pose proof (save_run RECEIVED_INDEX _ _ _ _ _ _ _ _ Hsv) as Hrun. cbn [sc_slot sc_generation_log RECEIVED_INDEX] in Hrun. unfold io_bind. rewrite Hrun.
  by rewrite (rewrite_run RECEIVED_INDEX _ _ _ _ _ _ _ _ Hsv).
Qed.

(** The slots after a removal, whatever the generation log holds. *)
Lemma removed_slots log : removable -> let d' := <[received_index_generation_log_path := log]> removed_disk in
  holds RECEIVED_INDEX d' s entries frames [] /\ exists frames', holds RECEIVED_INDEX d' (slot_other s) (kept_received key entries) frames' [].
Proof.
  intros [_ Hcc _ _ Hbuf _]. cbn zeta. pose proof (cc_live _ _ _ _ _ _ _ Hcc) as Hlive. destruct (kept_received_frames key entries frames (h_frames _ _ _ _ _ _ Hlive)) as (frames' & Hf & Hlen & Henc);
    [pose proof (h_size _ _ _ _ _ _ Hlive) as Hs; by rewrite app_nil_r in Hs|]. assert (Hb : buffer = concat frames') by congruence.
  assert (Hgen : forall slot, received_index_generation_log_path <> sc_slot RECEIVED_INDEX slot) by (intros slot; apply not_eq_sym, (sl_generation (C := RECEIVED_INDEX))). split.
  - eapply holds_frame; [|exact Hlive]. unfold rewritten_disk, saved_disk. cbn [sc_generation_log RECEIVED_INDEX]. rewrite lookup_insert_ne by apply Hgen. rewrite lookup_insert_ne by apply Hgen.
    rewrite lookup_insert_ne by apply (slot_other_path RECEIVED_INDEX). rewrite lookup_insert_ne; [done|]. destruct (rs_apart (C := RECEIVED_INDEX) LOG_PATH) as [_ Hx]; [left|]. apply Hx.
  - exists frames'. split; [|done|by left|by rewrite app_nil_r]. rewrite lookup_insert_ne by apply Hgen. unfold rewritten_disk. cbn [sc_generation_log RECEIVED_INDEX]. rewrite lookup_insert_ne by apply Hgen. by rewrite lookup_insert_eq, app_nil_r, Hb.
Qed.

Lemma removed_lookup : removable -> forall key', lookup_received_index_entry key' removed_disk = Ok (if decide (key' = key) then None else view_of key' entries).
Proof.
  intros Hrm key'. set (log := generation_bytes gs ++ encode_generation_record (slot_other s)). assert (Hself : <[received_index_generation_log_path := log]> removed_disk = removed_disk) by (apply insert_id, lookup_insert_eq).
  pose proof (removed_slots log Hrm) as (_ & frames' & Hh). rewrite Hself in Hh.
  assert (Hg : generation_on RECEIVED_INDEX removed_disk (gs ++ [slot_other s]) []).
  { split; [unfold rewritten_disk; by rewrite lookup_insert_eq, generation_bytes_snoc, app_nil_r|]. split; [apply torn_generation_nil|]. rewrite app_nil_r, generation_bytes_snoc, zlen_app. unfold zlen at 2. rewrite length_generation_record. apply (rm_clean Hrm). }
  destruct (resolve_recorded RECEIVED_INDEX removed_disk _ _ (slot_other s) Hg) as (off & Hr); [by rewrite last_snoc|]. pose proof (replay_resolved RECEIVED_INDEX _ _ _ _ _ _ _ _ Hr Hh) as Hrep.
  unfold lookup_received_index_entry. rewrite replay_received_is, Hrep. unfold log_has_item_failure. cbn [lr_outcomes lr_records]. rewrite log_outcomes_sound. f_equal. apply kept_received_view.
Qed.

(** Without the entry that was written last, the reduction is the reduction but for its end. *)
Lemma kept_received_last : last entries = Some e -> rx_ref_name_key e = key ->
  kept_received key entries = take (length (kept_received key entries)) (reduce_received_index_entries entries).
Proof.
  intros Hl Hk. destruct entries as [|x l _] using rev_ind; [done|]. rewrite last_snoc in Hl. injection Hl as ->. unfold kept_received. change (reduce_received_index_entries (l ++ [e])) with (fold_all fold_one_received_index_entry (l ++ [e])).
  rewrite fold_all_snoc. unfold fold_one_received_index_entry at 1 3 5. rewrite !Hk, filter_app, filter_cons_False by tauto. cbn [filter list_filter]. rewrite app_nil_r, list_filter_filter.
  rewrite (list_filter_iff _ (fun existing => rx_ref_name_key existing <> key)) by (intros x; tauto). by rewrite take_app_length.
Qed.


(** C37: a removed received pointer is back when the generation log is lost.  On any clean index, when the
    pointer that is removed is the one written last, the slot that the removal writes is a prefix of the
    reduction of the slot it replaces: with the generation log gone, down to a part of a record, the older
    slot passes for the live one and every ref, the removed one among them, resolves as before the
    removal, without a refusal. *)
Theorem removed_pointer_returns torn : removable -> last entries = Some e -> rx_ref_name_key e = key -> torn_generation torn ->
  exists report d1, remove_received_pointer format run name d = (Ok report, d1) /\ lookup_received_index_entry key d1 = Ok None /\
    forall key', lookup_received_index_entry key' (<[received_index_generation_log_path := torn]> d1) = Ok (view_of key' entries).
Proof.
  intros Hrm Hlast Hk Ht. eexists _, removed_disk. split; [by apply removal_runs|]. split; [rewrite removed_lookup by done; by rewrite decide_True|]. intros key'.
  destruct (removed_slots torn Hrm) as (Hlive & frames' & Hkept). cbn zeta in *. set (d' := <[received_index_generation_log_path := torn]> removed_disk) in *.
  assert (Hg : generation_on RECEIVED_INDEX d' [] torn).
  { split; [apply lookup_insert_eq|]. split; [done|]. destruct Ht as (slot & more & Hm & _). apply (f_equal length) in Hm. rewrite length_app, length_generation_record in Hm. cbn [generation_bytes map concat app]. unfold zlen. lia. }
  rewrite (kept_received_last Hlast Hk) in Hkept. apply received_reads_lookup.
  eapply (lost_part_reads RECEIVED_INDEX _ (HR := received_reduction key') s entries frames d'); [exact Hg| |exact Hlive|exact Hkept].
  intros Hs. destruct (slot_b_has_data (sc_slot RECEIVED_INDEX SlotB) d') eqn:Hb; [done|]. rewrite Hs in Hlive. rewrite (slot_empty RECEIVED_INDEX _ _ _ _ Hlive Hb) in Hlast. done.
Qed.
End removal.
End remove.

(** ** Interrupted restores *)

Section demo.
#[local] Existing Instance hash_mod_p.

Definition main_entry : ReceivedIndexEntry := mkReceivedEntry (ref_name_key_bytes origin_main) origin_main (tip x01).
Definition dev_entry : ReceivedIndexEntry := mkReceivedEntry (ref_name_key_bytes origin_dev) origin_dev (tip x02).
Definition frame_of_received (e : ReceivedIndexEntry) : list byte := match encode_received_index_record e with Ok f => f | Err _ => [] end.
Definition body_of_received (e : ReceivedIndexEntry) : list byte := match encode_received_entry_body e with Ok b => b | Err _ => [] end.

Lemma two_received_clean : clean_container RECEIVED_INDEX two_received SlotA [] None [main_entry; dev_entry] [frame_of_received main_entry; frame_of_received dev_entry].
Proof.
  constructor.
  - split_and!; [vm_compute; reflexivity|apply torn_generation_nil|vm_compute; reflexivity].
  - eexists. vm_compute. reflexivity.
  - constructor; [vm_compute; reflexivity| |by left|vm_compute; reflexivity]. constructor; [|constructor; [|constructor]].
    + exists [], (body_of_received main_entry). split_and!; vm_compute; reflexivity.
    + exists [], (body_of_received dev_entry). split_and!; vm_compute; reflexivity.
  - eexists. vm_compute. reflexivity.
  - vm_compute. reflexivity.
  - rewrite !Forall_cons, Forall_nil. split_and!; try done; apply no_inner_magic_scan; vm_compute; reflexivity.
Qed.

Lemma two_received_savable : savable RECEIVED_INDEX two_received demo_run SlotB [] [] (frame_of_received main_entry) "received remove" [].
Proof.
  constructor; [vm_compute; reflexivity|vm_compute; reflexivity| |done|split; vm_compute; done|vm_compute; reflexivity|constructor|apply not_elem_of_nil|vm_compute; reflexivity|by split].
  exists SlotA. split; vm_compute; reflexivity.
Qed.

Lemma two_received_removable : removable V7 two_received SlotA [] None [main_entry; dev_entry] [frame_of_received main_entry; frame_of_received dev_entry] origin_dev dev_entry
  demo_run [] (frame_of_received main_entry) [].
Proof. constructor; [vm_compute; reflexivity|exact two_received_clean|vm_compute; reflexivity|vm_compute; reflexivity|vm_compute; reflexivity|exact two_received_savable]. Qed.


Lemma removed_pointer_returns_witness : exists report d1, remove_received_pointer V7 demo_run origin_dev two_received = (Ok report, d1) /\
  lookup_received_index_entry (ref_name_key_bytes origin_dev) d1 = Ok None /\
  lookup_received_index_entry (ref_name_key_bytes origin_dev) (<[received_index_generation_log_path := []]> d1) = Ok (Some dev_entry).
Proof.
  destruct (removed_pointer_returns _ _ _ _ _ _ _ _ _ _ _ _ _ [] two_received_removable) as (report & d1 & Heq & Hn & Hl); [reflexivity|reflexivity|apply torn_generation_nil|].
  exists report, d1. split; [exact Heq|]. split; [exact Hn|]. rewrite Hl. vm_compute. reflexivity.
Defined.

(** The same with an older, shorter record in slot B, which the removal replaces. *)
Definition short_slot : Disk := <[received_index_slot_path SlotB := frame_of_received dev_entry]> two_received.

Lemma short_slot_savable : savable RECEIVED_INDEX short_slot demo_run SlotB (frame_of_received dev_entry) [] (frame_of_received main_entry) "received remove" [].
Proof.
  constructor; [vm_compute; reflexivity|vm_compute; reflexivity| |done|split; vm_compute; done|vm_compute; reflexivity|constructor|apply not_elem_of_nil|vm_compute; reflexivity|split; vm_compute; done].
  exists SlotA. split; vm_compute; reflexivity.
Qed.

Lemma interrupted_restore_stuck_witness :
  let stopped := stopped_disk RECEIVED_INDEX short_slot demo_run SlotB (frame_of_received dev_entry) [] (frame_of_received main_entry) "received remove" [] in
  exists plan, restore (to_hex demo_run) false stopped = (Ok plan, stopped) /\ pl_written plan = false /\ can_restore plan = false.
Proof.
  destruct (interrupted_restore_stuck RECEIVED_INDEX short_slot demo_run SlotB (frame_of_received dev_entry) [] (frame_of_received main_entry) "received remove" [] short_slot_savable) as [_ [Hc|[_ Hr]]].
  - vm_compute. lia.
  - intros [r Hp]. apply (f_equal (take (length (frame_of_received dev_entry)))) in Hp. rewrite take_app_length in Hp. vm_compute in Hp. discriminate Hp.
  - exfalso. destruct Hc as [[[_ Hc]|[_ Hc]]|[[_ Hc]|[_ Hc]]]; vm_compute in Hc; discriminate Hc.
  - exact Hr.
Defined.
End demo.
