(* ===== verification/TrustThms.v ===== *)
(** * Theorems about the logs of public keys

    The reader of the key containers: frames written one after the other decode to their entries, all of
    them sound, without a tail. *)

From S2P Require Import Prelude PrikkError Hash Utf8 ByteCursor ObjectId Signature FileCodec FrameResync IndexFile TailLog RefStoreThms TrustIndex.
From S2P Require Import Envelope RepoPath ObjectStore FileSystem ObjectDisk Generation CompactThms RefLog RefStore RecoveryEntry Precondition TrustStore AnchorState Compact.


Section key_log.
Context `{Sha256} {A : Type} (F : LogFormat A) (Hmagic : length (lf_magic F) = 8%nat) (Hversion : u16 (lf_version F)) (Hkey : lf_key_len F = 0%nat).

Definition key_frame_of (a : A) (frame : list byte) : Prop :=
  exists body, frame = frame_log_record F [] body /\ lf_decode F [] body = Ok a /\ zlen body <= MAX_KEY_BODY_LEN.

Lemma key_header_len : LOG_HEADER_LEN F = 50%nat.
Proof. unfold LOG_HEADER_LEN. by rewrite Hkey. Qed.

Lemma length_key_frame body : length (frame_log_record F [] body) = (50 + length body)%nat.
Proof. rewrite length_frame_log by done. by rewrite key_header_len. Qed.

Lemma parse_key_frame_enc pre body post a : lf_decode F [] body = Ok a -> zlen body <= MAX_KEY_BODY_LEN -> zlen (pre ++ frame_log_record F [] body ++ post) < 2 ^ 64 ->
  parse_key_frame_at F (pre ++ frame_log_record F [] body ++ post) (length pre) = LogRecordAt a [] (length pre + length (frame_log_record F [] body)).
Proof.
  intros Hd Hmax Hlen. pose proof (length_key_frame body) as Hf. pose proof key_header_len as Hh. set (bytes := pre ++ frame_log_record F [] body ++ post) in *.
  assert (Hlb : length bytes = (length pre + (50 + length body) + length post)%nat) by (unfold bytes; rewrite !length_app, Hf; lia). unfold zlen in Hlen.
  destruct (read_log_header F Hmagic Hversion pre [] body (body ++ post) bytes) as (header & Hg & Hp); [done|unfold zlen; lia|lia|unfold bytes; rewrite frame_split_header, <- app_assoc; done|].
  unfold parse_key_frame_at. rewrite Hg, Hp, Hh. destruct (Nat.ltb_spec (length bytes - length pre) 50); [lia|]. cbn [lh_body_len lh_key lh_checksum].
  destruct (Z.ltb_spec MAX_KEY_BODY_LEN (zlen body)); [lia|]. unfold usize_max. destruct (Z.ltb_spec (2 ^ 64 - 1) (Z.of_nat (length pre + 50) + zlen body)) as [Hc|_]; [unfold zlen in Hc; lia|].
  assert (Hbody : get_range bytes (length pre + 50) (length pre + 50 + Z.to_nat (zlen body)) = Some body).
  { unfold bytes, zlen. rewrite Nat2Z.id, frame_split_header.
    assert (Hhl : length (enc_log_header F [] (Z.of_nat (length body)) (log_checksum F [] (Z.of_nat (length body)) body)) = 50%nat) by (rewrite length_enc_log_header; [done|done|done|apply sha256_length]).
    rewrite <- Hhl at 1 2. rewrite <- length_app, <- app_assoc, app_assoc. apply get_range_app. }
  rewrite Hbody, bool_decide_true by done. cbn [negb]. rewrite Hd. f_equal. unfold zlen. lia.
Qed.

Lemma key_loop_frames : forall entries frames pre fuel found outs, Forall2 key_frame_of entries frames -> zlen (pre ++ concat frames) < 2 ^ 60 -> (length entries < fuel)%nat ->
  decode_key_loop F fuel (pre ++ concat frames) (length pre) found outs
  = Ok (mkLogReplay (found ++ entries) 0 (length (pre ++ concat frames)) (outs ++ log_outcomes (length pre) frames)).
Proof.
  induction entries as [|a entries IH]; intros frames pre fuel found outs Hall Hlen Hfuel; (destruct fuel as [|fuel]; [cbn in Hfuel; lia|]); cbn [decode_key_loop].
  - apply Forall2_nil_inv_l in Hall as ->. cbn [concat log_outcomes]. rewrite !app_nil_r.
    unfold parse_key_frame_at. rewrite Nat.sub_diag, key_header_len. cbn [Nat.ltb Nat.leb]. unfold key_sound_after, sound_frame_after_partial. cbn [sound_frame_loop].
    assert (Hres : resync_to_next_magic pre (S (length pre)) (lf_magic F) = None); [|by rewrite Hres].
    eapply first_from_unique; [apply resync_first|]. intros q Hq Hq'%magic_at_bound. lia.
  - apply Forall2_cons_inv_l in Hall as (frame & frames' & (body & -> & Hd & Hmax) & Hall & ->). cbn [concat length] in *. pose proof (length_key_frame body) as Hfl. set (frame := frame_log_record F [] body) in *.
    unfold frame at 1. rewrite (parse_key_frame_enc pre body (concat frames') a Hd Hmax) by (fold frame; lia). fold frame. unfold require_progress.
    destruct (Nat.leb_spec (length pre + length frame) (length pre)) as [Hc|_]; [lia|]. specialize (IH frames' (pre ++ frame) fuel (found ++ [a]) (outs ++ [mkLogOutcome (length pre) LogEvaluated]) Hall).
    rewrite length_app, <- !app_assoc in IH. rewrite IH by (done || lia). cbn [log_outcomes app]. done.
Qed.

Lemma decode_key_frames entries frames : Forall2 key_frame_of entries frames -> zlen (concat frames) < 2 ^ 60 ->
  decode_key_log F (concat frames) = Ok (mkLogReplay entries 0 (length (concat frames)) (log_outcomes 0 frames)).
Proof.
  intros Hall Hlen. unfold decode_key_log. apply (key_loop_frames entries frames [] _ [] [] Hall); [done|].
  assert (Hl : (length entries <= length (concat frames))%nat); [|cbn [app]; lia]. clear Hlen.
  induction Hall as [|a f entries frames (body & -> & _) _ IH]; cbn [length concat]; [lia|]. rewrite length_app, length_key_frame. lia.
Qed.
End key_log.

(** ** Frames of trust keys *)

Section trust_key.
Context `{Sha256}.

Definition trust_key_body (e : TrustKeyEntry) : list byte := to_be_bytes 2 (zlen (tk_key_id e)) ++ tk_key_id e ++ tk_public_key e.

Lemma trust_key_encodes e : rust_string (tk_key_id e) -> zlen (tk_key_id e) < 2 ^ 16 -> length (tk_public_key e) = 32%nat ->
  encode_trust_key_record e = Ok (frame_log_record TRUST_KEY_FORMAT [] (trust_key_body e)) /\ key_frame_of TRUST_KEY_FORMAT e (frame_log_record TRUST_KEY_FORMAT [] (trust_key_body e)).
Proof.
  intros Hu Hid Hpk. pose proof (zlen_nonneg (tk_key_id e)) as Hz. assert (Hlen : zlen (trust_key_body e) = 34 + zlen (tk_key_id e)).
  { unfold trust_key_body. rewrite !zlen_app. change (zlen (tk_public_key e)) with (Z.of_nat (length (tk_public_key e))). change (zlen (to_be_bytes 2 (zlen (tk_key_id e)))) with (Z.of_nat (length (to_be_bytes 2 (zlen (tk_key_id e))))). rewrite Hpk, length_to_be_bytes. lia. } split.
  - unfold encode_trust_key_record, encode_trust_key_body, push_string_u16, len_to_u16. destruct (Z.ltb_spec (zlen (tk_key_id e)) (2 ^ 16)); [|lia].
    replace ((push_u16 [] (zlen (tk_key_id e)) ++ tk_key_id e) ++ tk_public_key e) with (trust_key_body e) by (unfold trust_key_body, push_u16; by rewrite <- app_assoc).
    unfold len_to_u64. rewrite Hlen. destruct (Z.ltb_spec (34 + zlen (tk_key_id e)) (2 ^ 64)); [done|lia].
  - exists (trust_key_body e). split; [done|]. split; [|unfold MAX_KEY_BODY_LEN; lia]. cbn [lf_decode TRUST_KEY_FORMAT]. unfold decode_trust_key_body.
    assert (Hst : standing (ByteCursor_new (trust_key_body e)) (trust_key_body e)) by (apply standing_new; lia). revert Hst. generalize (ByteCursor_new (trust_key_body e)). intros c Hst.
    unfold trust_key_body in Hst. rewrite app_assoc in Hst. destruct (reads_string_u16 (tk_key_id e) Hid Hu c _ Hst) as (c1 & Hr1 & Hs1). rewrite Hr1.
    rewrite <- (app_nil_r (tk_public_key e)) in Hs1. destruct (reads_exact (tk_public_key e) c1 _ Hs1) as (c2 & Hr2 & Hs2). unfold bc_read_array, ED25519_KEY_LEN. unfold zlen in Hr2. rewrite Hpk in Hr2.
    change (Z.of_nat 32) with 32 in Hr2. rewrite Hr2, (standing_finished _ _ Hs2), bool_decide_true by done. by destruct e.
Qed.
End trust_key.

(** * Theorems about the trust store

    The store keeps a record of which public key an id is bound to, and the list of the adopted ids.  Adding
    and removing maintainers refine the operations on that pair; a binding never changes. *)


(** ** Snapshots *)

(** A key id as a signature and a snapshot can carry it. *)
Definition key_id_ok (id : list byte) : Prop := rust_string id /\ zlen id < 2 ^ 16.

Lemma read_key_ids_reads ids : forall fuel found c rest, Forall key_id_ok ids -> (length ids <= fuel)%nat -> standing c (enc_key_ids ids ++ rest) ->
  exists c', read_key_ids fuel (Z.of_nat (length ids)) found c = Ok (found ++ ids, c') /\ standing c' rest.
Proof.
  induction ids as [|id ids IH]; intros fuel found c rest Hall Hf Hs.
  - exists c. rewrite app_nil_r. by destruct fuel.
  - apply Forall_cons in Hall as [[Hu Hl] Hall]. destruct fuel as [|fuel]; [cbn in Hf; lia|]. cbn [read_key_ids]. destruct (Z.leb_spec (Z.of_nat (length (id :: ids))) 0) as [Hc|_]; [cbn [length] in Hc; lia|].
    unfold enc_key_ids in Hs. cbn [map concat] in Hs. fold (enc_key_ids ids) in Hs. rewrite <- (app_assoc (to_be_bytes 2 (zlen id) ++ id)) in Hs. destruct (reads_string_u16 id Hl Hu c _ Hs) as (c1 & Hr & Hs1). rewrite Hr.
    replace (Z.of_nat (length (id :: ids)) - 1) with (Z.of_nat (length ids)) by (cbn [length]; lia).
    destruct (IH fuel (found ++ [id]) c1 rest Hall ltac:(cbn in Hf; lia) Hs1) as (c2 & Hr2 & Hs2). exists c2. rewrite Hr2, <- app_assoc. by split.
Qed.

Lemma length_enc_key_ids ids : (length ids <= length (enc_key_ids ids))%nat.
Proof. unfold enc_key_ids. induction ids as [|id ids IH]; cbn [map concat length]; [lia|]. rewrite !length_app, length_to_be_bytes. lia. Qed.

Section snapshot.
Context `{Sha256}.

Definition snapshot_body (ids : list (list byte)) : list byte := to_be_bytes 4 (Z.of_nat (length ids)) ++ enc_key_ids ids.
Definition snapshot_frame (ids : list (list byte)) : list byte := frame_log_record TRUST_POLICY_FORMAT [] (snapshot_body ids).

Lemma snapshot_encodes ids : Forall key_id_ok ids -> NoDup ids -> zlen (enc_key_ids ids) < 2 ^ 32 ->
  encode_trust_policy_record (mkTrustSnapshot ids) = Ok (snapshot_frame ids) /\ log_frame_of TRUST_POLICY_FORMAT (mkTrustSnapshot ids) (snapshot_frame ids).
Proof.
  intros Hall Hnd Hsmall. pose proof (length_enc_key_ids ids) as Hle. assert (Hlen : zlen (snapshot_body ids) = 4 + zlen (enc_key_ids ids)) by (unfold snapshot_body; rewrite zlen_app; unfold zlen at 1; rewrite length_to_be_bytes; lia).
  assert (Hn : 0 <= Z.of_nat (length ids) < 2 ^ 32) by (unfold zlen in Hsmall; lia). split.
  - unfold encode_trust_policy_record, encode_trust_policy_body. cbn [ts_key_ids]. destruct (Z.leb_spec (2 ^ 32) (Z.of_nat (length ids))); [lia|].
    rewrite push_key_ids_enc by (eapply Forall_impl; [exact Hall|]; by intros ? []). unfold push_u32. cbn [app]. fold (snapshot_body ids). unfold len_to_u64. rewrite Hlen. destruct (Z.ltb_spec (4 + zlen (enc_key_ids ids)) (2 ^ 64)); [done|lia].
  - exists [], (snapshot_body ids). split; [done|]. split; [done|]. split; [|done]. cbn [lf_decode TRUST_POLICY_FORMAT]. unfold decode_trust_policy_body.
    assert (Hs : standing (ByteCursor_new (snapshot_body ids)) (snapshot_body ids)) by (apply standing_new; lia). revert Hs. generalize (ByteCursor_new (snapshot_body ids)). intros c Hs. unfold snapshot_body in Hs at 1.
    destruct (reads_u32 _ Hn c _ Hs) as (c1 & Hr1 & Hs1). rewrite Hr1. rewrite <- (app_nil_r (enc_key_ids ids)) in Hs1.
    destruct (read_key_ids_reads ids (S (length (snapshot_body ids))) [] c1 [] Hall) as (c2 & Hr2 & Hs2); [unfold snapshot_body; rewrite length_app; lia|done|].
    rewrite Hr2, (standing_finished _ _ Hs2), bool_decide_true by done. cbn [negb app]. by rewrite bool_decide_true.
Qed.
End snapshot.

(** ** The store on disk *)

Definition key_binding (keys : list TrustKeyEntry) (id : list byte) : option TrustKeyEntry := last (filter (fun entry => tk_key_id entry = id) keys).


Lemma binding_none keys id : key_binding keys id = None -> id ∉ map tk_key_id keys.
Proof. unfold key_binding. intros Hn (e & -> & He)%list_elem_of_fmap. apply last_None in Hn. apply (not_elem_of_nil e). rewrite <- Hn. by apply list_elem_of_filter. Qed.

Lemma binding_some keys id : id ∈ map tk_key_id keys -> exists e, key_binding keys id = Some e /\ tk_key_id e = id.
Proof.
  intros (e & -> & He)%list_elem_of_fmap. destruct (key_binding keys (tk_key_id e)) as [e'|] eqn:Hb.
  - exists e'. split; [done|]. unfold key_binding in Hb. apply last_Some_elem_of, list_elem_of_filter in Hb. by destruct Hb.
  - exfalso. apply binding_none in Hb. apply Hb. by apply list_elem_of_fmap_2.
Qed.

Section store.
Context `{Sha256}.

(** The slot that is live by the generation log, or because the other one was never used. *)
Definition slot_named {T} (C : SlotContainer T) (d : Disk) (s : ContainerSlot) (gs : list ContainerSlot) : Prop :=
  generation_on C d gs [] /\ (last gs = Some s \/ gs = [] /\ s = SlotA /\ slot_b_has_data (sc_slot C SlotB) d = false).

Lemma named_resolves {T} `{EqDecision T} (C : SlotContainer T) d s gs : slot_named C d s gs -> exists off, resolve_container C d = Ok (s, 0%nat, off, None).
Proof. intros [Hg [Hl|(-> & -> & Hb)]]; [by apply (resolve_recorded C d gs [] s Hg)|by apply (resolve_unused C d [])]. Qed.

Lemma named_frame {T} (C : SlotContainer T) `{HL : !SlotLaws C} d d' s gs : slot_named C d s gs -> d' !! sc_generation_log C = d !! sc_generation_log C ->
  d' !! sc_slot C (slot_other s) = d !! sc_slot C (slot_other s) -> slot_named C d' s gs.
Proof.
  intros [(Hg & Ht & Hl) Hn] H1 H2. split; [split; [by rewrite H1|by split]|]. destruct Hn as [Hn|(-> & -> & Hb)]; [by left|right]. split_and!; try done. unfold slot_b_has_data in *. cbn [slot_other] in H2. by rewrite H2.
Qed.

Record trust_on (d : Disk) (keys : list TrustKeyEntry) (ids : list (list byte)) : Prop := {
  to_keys : exists frames, d !! trust_key_container_path = Some (concat frames) /\ Forall2 (key_frame_of TRUST_KEY_FORMAT) keys frames /\ zlen (concat frames) < 2 ^ 60;
  to_policy : exists s gs snapshots frames, slot_named TRUST_POLICY d s gs /\ holds TRUST_POLICY d s snapshots frames [] /\ ids = default [] (ts_key_ids <$> last snapshots);
  to_bound : Forall (fun id => id ∈ map tk_key_id keys) ids;
  to_one_key : NoDup (map tk_key_id keys);
  to_once : NoDup ids;
  to_ids : Forall key_id_ok ids;
}.

(** Files far below the sizes of the formats. *)
Definition trust_room (d : Disk) (ids : list (list byte)) : Prop := zlen (enc_key_ids ids) < 2 ^ 31 /\ forall path, zlen (default [] (d !! path)) < 2 ^ 50.

Lemma lookup_on d keys ids id : trust_on d keys ids -> exists off, lookup_trust_key_entry_with_tail id d = Ok (key_binding keys id, (0%nat, off)).
Proof.
  intros [(frames & Hd & Hf & Hlen) _ _ _ _ _]. unfold lookup_trust_key_entry_with_tail, replay_trust_keys. rewrite Hd. unfold decode_trust_key_records.
  rewrite (decode_key_frames TRUST_KEY_FORMAT eq_refl ltac:(done) eq_refl keys frames Hf Hlen). unfold log_has_item_failure. cbn [lr_outcomes lr_records lr_trailing lr_tail_offset]. rewrite log_outcomes_sound. by eexists.
Qed.

Lemma adopted_on d keys ids : trust_on d keys ids -> exists off, current_adopted_key_ids d = Ok (ids, (0%nat, off)).
Proof.
  intros [_ (s & gs & snaps & frames & Hn & Hh & ->) _ _ _ _]. destruct (named_resolves TRUST_POLICY d s gs Hn) as (off & Hr). pose proof (replay_resolved TRUST_POLICY _ _ _ _ _ _ _ _ Hr Hh) as Hrep.
  unfold current_adopted_key_ids, read_current_trust_policy_snapshot_with_tail. rewrite replay_trust_is, Hrep. unfold log_has_item_failure. cbn [lr_outcomes lr_records lr_trailing lr_tail_offset]. rewrite log_outcomes_sound. by eexists.
Qed.

Lemma append_disk path bytes old d : d !! path = Some old -> append_file_required path bytes d = (Ok tt, <[path := old ++ bytes]> d).
Proof. intros Hd. unfold append_file_required, append_file_reporting_offset_required, io_bind, io_ret. by rewrite Hd. Qed.

Lemma append_key_on d keys ids e : trust_on d keys ids -> zlen (default [] (d !! trust_key_container_path)) < 2 ^ 50 -> key_id_ok (tk_key_id e) -> length (tk_public_key e) = 32%nat -> key_binding keys (tk_key_id e) = None ->
  exists d', append_trust_key_entry e d = (Ok tt, d') /\ trust_on d' (keys ++ [e]) ids /\ forall path, path <> trust_key_container_path -> d' !! path = d !! path.
Proof.
  intros [(frames & Hd & Hf & Hlen) Hp Hb H1 Ho Hi] Hroom [Hu Hl] Hpk Hnone. destruct (trust_key_encodes e Hu Hl Hpk) as [Henc Hframe]. unfold append_trust_key_entry, io_bind, io_lift. rewrite Henc, (append_disk _ _ _ _ Hd).
  eexists. split; [done|]. split; [|intros path Hpath; by rewrite lookup_insert_ne]. split.
  - exists (frames ++ [frame_log_record TRUST_KEY_FORMAT [] (trust_key_body e)]). rewrite lookup_insert_eq, concat_app. cbn [concat]. rewrite app_nil_r. split; [done|]. split; [apply Forall2_app; [done|by constructor]|].
    rewrite Hd in Hroom. cbn in Hroom. rewrite zlen_app. destruct Hframe as (body & Hfr & _ & Hmax). rewrite Hfr. unfold zlen at 2. rewrite length_key_frame by done.
    unfold MAX_KEY_BODY_LEN, zlen in *. unfold id in Hroom. lia.
  - destruct Hp as (s & gs & snaps & fr & Hn & Hh & Hids). exists s, gs, snaps, fr. split; [|split; [|done]].
    + eapply named_frame; [apply trust_laws|exact Hn|..]; (apply lookup_insert_ne); [paths_differ|destruct s; paths_differ].
    + eapply holds_frame; [|exact Hh]. apply lookup_insert_ne. destruct s; paths_differ.
  - eapply Forall_impl; [exact Hb|]. intros id Hid. rewrite map_app. apply elem_of_app. by left.
  - rewrite map_app. apply NoDup_app. split; [done|]. split; [|apply NoDup_singleton]. intros id Hid Hid'. apply list_elem_of_singleton in Hid' as ->. by apply (binding_none keys (tk_key_id e)).
  - done.
  - done.
Qed.

Lemma snapshot_small ids : zlen (enc_key_ids ids) < 2 ^ 32 -> zlen (snapshot_frame ids) < 2 ^ 33.
Proof. intros Hs. unfold snapshot_frame, zlen. rewrite length_key_frame by done. unfold snapshot_body. rewrite length_app, length_to_be_bytes. unfold zlen in Hs. lia. Qed.

Lemma append_policy_on d keys ids ids' : trust_on d keys ids -> (forall s, zlen (default [] (d !! trust_policy_container_slot_path s)) < 2 ^ 50) -> Forall key_id_ok ids' -> NoDup ids' -> Forall (fun id => id ∈ map tk_key_id keys) ids' -> zlen (enc_key_ids ids') < 2 ^ 32 ->
  exists d' s, append_trust_policy_snapshot ids' d = (Ok tt, d') /\ trust_on d' keys ids' /\ forall path, path <> trust_policy_container_slot_path s -> d' !! path = d !! path.
Proof.
  intros [Hk (s & gs & snaps & frames & Hn & Hh & Hids) Hb H1 Ho Hi] Hroom Hok Hnd Hbd Hsmall. destruct (snapshot_encodes ids' Hok Hnd Hsmall) as [Henc Hframe]. destruct (named_resolves TRUST_POLICY d s gs Hn) as (off & Hr).
  pose proof (h_bytes _ _ _ _ _ _ Hh) as Hbytes. rewrite app_nil_r in Hbytes. unfold append_trust_policy_snapshot, io_bind, io_lift, io_read. rewrite Henc.
  assert (Hslot : resolve_trust_policy_slot d = Ok s). { unfold resolve_trust_policy_slot, resolve_live_slot. unfold resolve_container in Hr. cbn [sc_fold sc_generation_log sc_slot sc_damage_text sc_ambiguous_text TRUST_POLICY] in Hr. change (decode_container TRUST_POLICY) with decode_trust_policy_entries_for_resolver in Hr. by rewrite Hr. }
  rewrite Hslot. cbn [sc_slot TRUST_POLICY] in Hbytes. rewrite (append_disk _ _ _ _ Hbytes). eexists _, s. split; [done|]. split; [|intros path Hpath; by rewrite lookup_insert_ne]. split.
  - destruct Hk as (kf & Hd & Hkf). exists kf. split; [|done]. rewrite <- Hd. apply lookup_insert_ne. destruct s; paths_differ.
  - exists s, gs, (snaps ++ [mkTrustSnapshot ids']), (frames ++ [snapshot_frame ids']). split; [|split; [|by rewrite last_snoc]].
    + eapply named_frame; [apply trust_laws|exact Hn|..]; (apply lookup_insert_ne); destruct s; paths_differ.
    + split; [rewrite concat_app, app_nil_r; cbn [concat]; rewrite app_nil_r; apply lookup_insert_eq|apply Forall2_app; [apply Hh|by constructor]|by left|].
      rewrite app_nil_r, concat_app, zlen_app. cbn [concat]. rewrite app_nil_r. specialize (Hroom s). rewrite Hbytes in Hroom. cbn in Hroom. unfold id in Hroom. pose proof (snapshot_small ids' Hsmall). lia.
  - done.
  - done.
  - done.
  - done.
Qed.

(** ** Adding and removing *)

Lemma hex_pairs_length hex : forall out, hex_pairs hex = Ok out -> (length hex - 1 <= 2 * length out <= length hex)%nat.
Proof.
  assert (Hind : forall n hex out, (length hex <= n)%nat -> hex_pairs hex = Ok out -> (length hex - 1 <= 2 * length out <= length hex)%nat); [|intros out; by apply (Hind (length hex))].
  clear hex. induction n as [|n IH]; intros [|hi [|lo rest]] out Hn Hp; cbn [hex_pairs] in Hp; try (injection Hp as <-; cbn; lia); [cbn in Hn; lia|].
  destruct (hex_value hi); [|done]. destruct (hex_value lo); [|done]. destruct (hex_pairs rest) as [r|] eqn:Hr; [|done]. injection Hp as <-. apply IH in Hr; [|cbn in Hn; lia]. cbn [length]. lia.
Qed.

Lemma public_key_length hex pk : decode_public_key_hex hex = Ok pk -> length pk = 32%nat.
Proof.
  unfold decode_public_key_hex, ED25519_KEY_LEN. destruct (Z.eqb_spec (zlen hex) (32 * 2)) as [Hl|]; [|done]. cbn [negb]. destruct (forallb _ _); [|done]. destruct (existsb _ _); [done|]. intros Hp%hex_pairs_length.
  unfold zlen in Hl. lia.
Qed.

Lemma validated_key_id id : validate_key_id id = Ok tt -> key_id_ok id /\ zlen id <= 128.
Proof.
  intros [Hl Hb]%validate_key_id_ok. unfold SIGNATURE_KEY_ID_MAX_LEN in Hl. split; [|unfold zlen; lia]. split; [|unfold zlen; lia]. apply is_ascii_from_utf8. revert Hb. unfold is_ascii. rewrite !forallb_forall. intros Hb b Hin.
  specialize (Hb b Hin). revert Hb. clear. by destruct b.
Qed.

Lemma enc_key_ids_app ids id : zlen (enc_key_ids (ids ++ [id])) = zlen (enc_key_ids ids) + 2 + zlen id.
Proof. unfold enc_key_ids. rewrite map_app, concat_app, zlen_app. cbn [map concat]. rewrite app_nil_r, zlen_app. change (zlen (to_be_bytes 2 (zlen id))) with (Z.of_nat (length (to_be_bytes 2 (zlen id)))). rewrite length_to_be_bytes. lia. Qed.

Context (format : RepositoryFormat).

(** The reasons to refuse an addition that come before the record of keys is read, in their order; otherwise
    the decoded key. *)
Definition addition_check (d : Disk) (ids : list (list byte)) (id hex : list byte) : PResult (list byte) :=
  let? _ := require_current_format format d in
  let? _ := ensure_no_incomplete_publication format d in
  let? _ := validate_key_id id in
  let? _ := validate_maintainer_key_id_storage_safety id in
  let? public_key := decode_public_key_hex hex in
  let? _ := validate_no_maintainer_key_id_collision ids id in
  Ok public_key.

Record addable (d : Disk) (ids : list (list byte)) (id hex pk : list byte) : Prop := {
  ad_format : require_current_format format d = Ok tt;
  ad_complete : ensure_no_incomplete_publication format d = Ok tt;
  ad_id : validate_key_id id = Ok tt;
  ad_safe : validate_maintainer_key_id_storage_safety id = Ok tt;
  ad_key : decode_public_key_hex hex = Ok pk;
  ad_distinct : validate_no_maintainer_key_id_collision ids id = Ok tt;
}.

Lemma addition_check_ok d ids id hex pk : addition_check d ids id hex = Ok pk -> addable d ids id hex pk.
Proof.
  unfold addition_check. destruct (require_current_format format d) as [[]|] eqn:H0; [|done]. destruct (ensure_no_incomplete_publication format d) as [[]|] eqn:H1; [|done]. destruct (validate_key_id id) as [[]|] eqn:H2; [|done].
  destruct (validate_maintainer_key_id_storage_safety id) as [[]|] eqn:H3; [|done]. destruct (decode_public_key_hex hex) as [pk'|] eqn:H4; [|done]. destruct (validate_no_maintainer_key_id_collision ids id) as [[]|] eqn:H5; [|done].
  intros Hpk. apply Ok_inj in Hpk as <-. done.
Qed.

(** The record of keys and the adopted ids after an addition that is not refused. *)
Definition bound_keys (keys : list TrustKeyEntry) (id pk : list byte) : list TrustKeyEntry := match key_binding keys id with Some _ => keys | None => keys ++ [mkTrustKey id pk] end.
Definition adopted_ids (ids : list (list byte)) (id : list byte) : list (list byte) := if decide (id ∈ ids) then ids else ids ++ [id].

(** Another key is bound to the id. *)
Definition key_conflict (keys : list TrustKeyEntry) (id pk : list byte) : bool := match key_binding keys id with Some e => negb (bool_decide (tk_public_key e = pk)) | None => false end.

Definition is_trust_path (path : string) : Prop := path = trust_key_container_path \/ exists s, path = trust_policy_container_slot_path s.

Lemma plan_add_on d keys ids id hex pk : trust_on d keys ids -> addable d ids id hex pk ->
  plan_add format id hex d = match key_binding keys id with
    | Some e => if decide (tk_public_key e = pk) then Ok (pk, ids, false, negb (bool_decide (id ∈ ids)))
                else Err (MaintainerKeyIdBound id (bool_decide (id ∈ ids)) (key_id_bound_message id (bool_decide (id ∈ ids))))
    | None => Ok (pk, ids, true, negb (bool_decide (id ∈ ids)))
    end.
Proof.
  intros Hon []. destruct (adopted_on d keys ids Hon) as (o1 & Ha). destruct (lookup_on d keys ids id Hon) as (o2 & Hl). unfold plan_add. rewrite ad_format0, ad_complete0, ad_id0, ad_safe0, ad_key0, Ha, ad_distinct0, Hl. unfold key_will_append_for.
  destruct (key_binding keys id) as [e|].
  - destruct (decide (tk_public_key e = pk)) as [Hpk|Hpk]; [rewrite bool_decide_true by done|by rewrite (bool_decide_false (tk_public_key e = pk))]. by destruct (bool_decide (id ∈ ids)).
  - cbn [require_no_unclean_tail Nat.eqb]. by destruct (bool_decide (id ∈ ids)).
Qed.

(** A refusal of the first checks is the answer of the addition. *)
Lemma plan_add_refused d keys ids id hex e : trust_on d keys ids -> addition_check d ids id hex = Err e -> plan_add format id hex d = Err e.
Proof.
  intros Hon. destruct (adopted_on d keys ids Hon) as (o1 & Ha). unfold addition_check, plan_add. destruct (require_current_format format d); [|congruence]. destruct (ensure_no_incomplete_publication format d); [|congruence].
  destruct (validate_key_id id); [|congruence]. destruct (validate_maintainer_key_id_storage_safety id); [|congruence]. destruct (decode_public_key_hex hex); [|congruence]. rewrite Ha. destruct (validate_no_maintainer_key_id_collision ids id); congruence.
Qed.

Lemma adopt_on d keys (ids : list (list byte)) (id pk : list byte) (b := bool_decide (id ∈ ids)) : trust_on d keys ids -> zlen (enc_key_ids ids) < 2 ^ 31 -> (forall s, zlen (default [] (d !! trust_policy_container_slot_path s)) < 2 ^ 50) ->
  validate_key_id id = Ok tt -> id ∈ map tk_key_id keys ->
  exists d', (if negb (negb b) then io_ret (mkAdoptedKey id pk, false) else do! _ := append_trust_policy_snapshot (ids ++ [id]) in io_ret (mkAdoptedKey id pk, true)) d = (Ok (mkAdoptedKey id pk, negb b), d') /\
    trust_on d' keys (adopted_ids ids id) /\ forall path, ~ is_trust_path path -> d' !! path = d !! path.
Proof.
  intros Hon Hsmall Hroom Hv Hin. unfold b, adopted_ids. destruct (validated_key_id id Hv) as [Hok Hlen]. destruct (decide (id ∈ ids)) as [Hd|Hd].
  - rewrite bool_decide_true by done. by exists d.
  - rewrite bool_decide_false by done. cbn [negb]. destruct (append_policy_on d keys ids (ids ++ [id]) Hon Hroom) as (d' & s & Ha & Hon' & Hother).
    + apply Forall_app. split; [apply Hon|by constructor].
    + apply NoDup_app. split; [apply Hon|]. split; [|apply NoDup_singleton]. intros x Hx Hx'. apply list_elem_of_singleton in Hx' as ->. done.
    + apply Forall_app. split; [apply Hon|by constructor].
    + rewrite enc_key_ids_app. lia.
    + exists d'. unfold io_bind. rewrite Ha. split; [done|]. split; [done|]. intros path Hp. apply Hother. intros ->. apply Hp. right. by exists s.
Qed.

Lemma add_planned id hex d : add_trusted_maintainer format id hex d =
  match plan_add format id hex d with
  | Err e => (Err e, d)
  | Ok (pk, ids, key_will_append, policy_will_append) =>
      (do! _ := if (key_will_append : bool) then append_trust_key_entry (mkTrustKey id pk) else io_ret tt in
       if negb policy_will_append then io_ret (mkAdoptedKey id pk, false)
       else do! _ := append_trust_policy_snapshot (ids ++ [id]) in io_ret (mkAdoptedKey id pk, true)) d
  end.
Proof. unfold add_trusted_maintainer, io_bind at 1, io_read at 1. by destruct (plan_add format id hex d) as [[[[? ?] ?] ?]|]. Qed.

(** Adding a maintainer. *)
Lemma add_on d keys ids id hex pk : trust_on d keys ids -> trust_room d ids -> addable d ids id hex pk ->
  if key_conflict keys id pk
  then add_trusted_maintainer format id hex d = (Err (MaintainerKeyIdBound id (bool_decide (id ∈ ids)) (key_id_bound_message id (bool_decide (id ∈ ids)))), d)
  else exists d', add_trusted_maintainer format id hex d = (Ok (mkAdoptedKey id pk, negb (bool_decide (id ∈ ids))), d') /\
    trust_on d' (bound_keys keys id pk) (adopted_ids ids id) /\ forall path, ~ is_trust_path path -> d' !! path = d !! path.
Proof.
  intros Hon [Hs Hroom] Had. pose proof (plan_add_on d keys ids id hex pk Hon Had) as Hplan. rewrite add_planned, Hplan. unfold bound_keys, key_conflict. destruct (key_binding keys id) as [e|] eqn:Hb.
  - destruct (decide (tk_public_key e = pk)) as [Hpk|Hpk]; [rewrite bool_decide_true by done|by rewrite bool_decide_false]. cbn [negb]. unfold io_bind at 1, io_ret at 1. apply adopt_on; [done|done|by intros s|apply Had|].
    destruct (decide (id ∈ map tk_key_id keys)) as [Hin|Hin]; [done|]. exfalso. unfold key_binding in Hb. apply last_Some_elem_of, list_elem_of_filter in Hb as [<- He]. apply Hin. by apply list_elem_of_fmap_2.
  - destruct (append_key_on d keys ids (mkTrustKey id pk) Hon (Hroom _)) as (d1 & Ha & Hon1 & Hother1); [by apply validated_key_id, Had|by eapply public_key_length, Had|done|]. unfold io_bind at 1. rewrite Ha.
    destruct (adopt_on d1 (keys ++ [mkTrustKey id pk]) ids id pk Hon1 Hs) as (d2 & Heq & Hon2 & Hother2).
    + intros s. rewrite Hother1 by (destruct s; paths_differ). apply Hroom.
    + apply Had.
    + rewrite map_app. apply elem_of_app. right. by apply list_elem_of_singleton.
    + exists d2. split; [exact Heq|]. split; [done|]. intros path Hp. rewrite Hother2 by done. apply Hother1. intros ->. apply Hp. by left.
Qed.

(** Removing a maintainer. *)
Lemma enc_key_ids_filter (P : list byte -> Prop) `{!forall x, Decision (P x)} ids : zlen (enc_key_ids (filter P ids)) <= zlen (enc_key_ids ids).
Proof.
  unfold enc_key_ids. induction ids as [|id ids IH]; [done|]. rewrite filter_cons. destruct (decide (P id)); cbn [map concat]; rewrite !zlen_app; [lia|]. pose proof (zlen_nonneg (to_be_bytes 2 (zlen id))). pose proof (zlen_nonneg id). lia.
Qed.

Lemma filter_length_eq (P : list byte -> Prop) `{!forall x, Decision (P x)} l : length (filter P l) = length l <-> Forall P l.
Proof.
  induction l as [|x l IH]; [done|]. rewrite filter_cons, Forall_cons. pose proof (length_filter P l). destruct (decide (P x)); cbn [length]; [rewrite <- IH; split; [intros; split; [done|lia]|intros []; lia]|split; [lia|by intros []]].
Qed.

Lemma remove_on d keys ids id (remaining := filter (fun existing => existing <> id) ids) : trust_on d keys ids -> trust_room d ids -> require_current_format format d = Ok tt -> ensure_no_incomplete_publication format d = Ok tt ->
  if bool_decide (id ∈ ids)
  then if bool_decide (remaining = []) then exists why, remove_trusted_maintainer format id d = (Err (Integrity why), d)
       else exists d', remove_trusted_maintainer format id d = (Ok true, d') /\ trust_on d' keys remaining /\ forall path, ~ is_trust_path path -> d' !! path = d !! path
  else remove_trusted_maintainer format id d = (Ok false, d).
Proof.
  intros Hon [Hs Hroom] Hfmt He. destruct (adopted_on d keys ids Hon) as (off & Ha).
  assert (Hrun : remove_trusted_maintainer format id d = (if (length remaining =? length ids)%nat then io_ret false
    else if bool_decide (remaining = []) then io_err (Integrity "cannot remove the last trusted maintainer key; a repository policy must not be explicitly empty")
    else do! _ := append_trust_policy_snapshot remaining in io_ret true) d).
  { unfold remove_trusted_maintainer. rewrite (io_guard _ _ _ Hfmt), (io_guard _ _ _ He). unfold io_bind at 1, io_read at 1. rewrite Ha. fold remaining. destruct (_ =? _)%nat; [done|]. by destruct (bool_decide (remaining = [])). }
  rewrite !Hrun. clear Hrun. destruct (bool_decide_reflect (id ∈ ids)) as [Hin|Hin].
  - destruct (Nat.eqb_spec (length remaining) (length ids)) as [Heq|_]; [exfalso; apply filter_length_eq in Heq; rewrite Forall_forall in Heq; exact (Heq id Hin eq_refl)|].
    destruct (bool_decide_reflect (remaining = [])) as [Hr|Hr]; [by eexists|]. destruct (append_policy_on d keys ids remaining Hon) as (d' & s & Hap & Hon' & Hother).
    + intros s. apply Hroom.
    + eapply sublist_Forall; [apply sublist_filter|apply Hon].
    + unfold remaining. apply NoDup_filter, Hon.
    + eapply sublist_Forall; [apply sublist_filter|apply Hon].
    + pose proof (enc_key_ids_filter (fun existing => existing <> id) ids). unfold remaining. lia.
    + exists d'. unfold io_bind. rewrite Hap. split; [done|]. split; [done|]. intros path Hp. apply Hother. intros ->. apply Hp. right. by exists s.
  - destruct (Nat.eqb_spec (length remaining) (length ids)) as [_|Hne]; [done|]. exfalso. apply Hne. apply filter_length_eq. apply Forall_forall. intros x Hx ->. done.
Qed.

(** ** Histories of additions and removals *)

(** Any sequence of the two operations, refused or not, while the files stay small. *)
Inductive trust_history (d0 : Disk) : Disk -> Prop :=
| trust_start : trust_history d0 d0
| trust_add id hex d : trust_history d0 d -> (forall ids off, current_adopted_key_ids d = Ok (ids, off) -> trust_room d ids) -> trust_history d0 (add_trusted_maintainer format id hex d).2
| trust_remove id d : trust_history d0 d -> (forall ids off, current_adopted_key_ids d = Ok (ids, off) -> trust_room d ids) -> trust_history d0 (remove_trusted_maintainer format id d).2.

Lemma planned_addable d keys ids id hex plan : trust_on d keys ids -> plan_add format id hex d = Ok plan -> exists pk, addable d ids id hex pk.
Proof.
  intros Hon Hp. destruct (addition_check d ids id hex) as [pk|e] eqn:Hc; [exists pk; by apply addition_check_ok|]. by rewrite (plan_add_refused _ _ _ _ _ _ Hon Hc) in Hp.
Qed.

Lemma bound_keys_grow keys id pk : exists more, bound_keys keys id pk = keys ++ more.
Proof. unfold bound_keys. destruct (key_binding keys id); [exists []; by rewrite app_nil_r|by eexists]. Qed.

Lemma add_keeps d keys ids id hex : trust_on d keys ids -> trust_room d ids -> exists more ids', trust_on (add_trusted_maintainer format id hex d).2 (keys ++ more) ids'.
Proof.
  intros Hon Hroom. rewrite add_planned. destruct (plan_add format id hex d) as [plan|] eqn:Hp; [|exists [], ids; by rewrite app_nil_r].
  destruct (planned_addable _ _ _ _ _ _ Hon Hp) as (pk & Had). pose proof (add_on d keys ids id hex pk Hon Hroom Had) as Ha. rewrite add_planned, Hp in Ha. destruct (key_conflict keys id pk).
  - exists [], ids. rewrite app_nil_r. by rewrite Ha.
  - destruct Ha as (d' & -> & Hon' & _). destruct (bound_keys_grow keys id pk) as (more & Hm). exists more, (adopted_ids ids id). by rewrite <- Hm.
Qed.

Lemma remove_keeps d keys ids id : trust_on d keys ids -> trust_room d ids -> exists ids', trust_on (remove_trusted_maintainer format id d).2 keys ids'.
Proof.
  intros Hon Hroom. destruct (require_current_format format d) as [[]|] eqn:Hfmt; [|exists ids; unfold remove_trusted_maintainer; by rewrite (io_guard_err _ _ _ _ Hfmt)].
  destruct (ensure_no_incomplete_publication format d) as [[]|] eqn:He.
  - pose proof (remove_on d keys ids id Hon Hroom Hfmt He) as Hr. cbn zeta in Hr. destruct (bool_decide (id ∈ ids)); [destruct (bool_decide (_ = []))|].
    + destruct Hr as (why & ->). by exists ids.
    + destruct Hr as (d' & -> & Hon' & _). by eexists.
    + rewrite Hr. by exists ids.
  - exists ids. unfold remove_trusted_maintainer. by rewrite (io_guard _ _ _ Hfmt), (io_guard_err _ _ _ _ He).
Qed.

Lemma history_keeps d0 d keys ids : trust_on d0 keys ids -> trust_history d0 d -> exists more ids', trust_on d (keys ++ more) ids'.
Proof.
  intros Hon. induction 1 as [|id hex d _ (more & ids' & Hd) Hroom|id d _ (more & ids' & Hd) Hroom].
  - exists [], ids. by rewrite app_nil_r.
  - destruct (adopted_on _ _ _ Hd) as (off & Ha). destruct (add_keeps d _ _ id hex Hd (Hroom _ _ Ha)) as (more' & ids'' & Hd'). exists (more ++ more'), ids''. by rewrite app_assoc.
  - destruct (adopted_on _ _ _ Hd) as (off & Ha). destruct (remove_keeps d _ _ id Hd (Hroom _ _ Ha)) as (ids'' & Hd'). by eexists _, _.
Qed.

Lemma binding_kept keys more id e : NoDup (map tk_key_id (keys ++ more)) -> key_binding keys id = Some e -> key_binding (keys ++ more) id = Some e.
Proof.
  intros Hnd Hb. unfold key_binding in *. rewrite filter_app. assert (Hin : id ∈ map tk_key_id keys).
  { apply last_Some_elem_of, list_elem_of_filter in Hb as [<- He]. by apply list_elem_of_fmap_2. }
  rewrite map_app in Hnd. apply NoDup_app in Hnd as (_ & Hd & _). assert (Hno : filter (fun entry => tk_key_id entry = id) more = []); [|by rewrite Hno, app_nil_r].
  destruct (filter (fun entry => tk_key_id entry = id) more) as [|x l] eqn:Hf; [done|]. assert (Hx : x ∈ filter (fun entry => tk_key_id entry = id) more) by (rewrite Hf; left). apply list_elem_of_filter in Hx as [Hx1 Hx2].
  exfalso. apply (Hd id Hin). rewrite <- Hx1. by apply list_elem_of_fmap_2.
Qed.

Lemma load_bound d keys ids : trust_on d keys ids -> forall l, Forall (fun id => id ∈ map tk_key_id keys) l ->
  exists policy, load_keys l d = Ok policy /\ map amk_key_id policy = l /\ Forall (fun k => key_binding keys (amk_key_id k) = Some (mkTrustKey (amk_key_id k) (amk_public_key k))) policy.
Proof.
  intros Hon. induction 1 as [|id l Hid _ (policy & Hl & Hm & Hb)]; [by exists []|]. destruct (lookup_on d keys ids id Hon) as (off & Hlk). destruct (binding_some keys id Hid) as (e & He & Hne).
  cbn [load_keys]. unfold lookup_trust_key_entry. rewrite Hlk, He. cbn [ok_or]. rewrite Hl. eexists. split; [reflexivity|]. cbn [map amk_key_id]. rewrite Hm, Hne. split; [done|]. constructor; [|done]. cbn [amk_key_id amk_public_key]. rewrite <- Hne. rewrite Hne, He. rewrite <- Hne. by destruct e.
Qed.


Lemma policy_or_empty_on d keys ids : trust_on d keys ids -> exists policy, load_maintainer_trust_policy_or_empty d = Ok policy /\
  Forall (fun k => key_binding keys (amk_key_id k) = Some (mkTrustKey (amk_key_id k) (amk_public_key k))) policy.
Proof.
  intros Hon. destruct (adopted_on d keys ids Hon) as (off & Ha). destruct (load_bound d keys ids Hon ids (to_bound _ _ _ Hon)) as (policy & Hl & Hm & Hb).
  unfold load_maintainer_trust_policy_or_empty, load_maintainer_trust_policy, read_current_trust_policy_snapshot. unfold current_adopted_key_ids in Ha. destruct (read_current_trust_policy_snapshot_with_tail d) as [[snapshot tail]|]; [|done].
  injection Ha as Hs _. destruct snapshot as [ids'|]; [|by exists []]. cbn in Hs. unfold id in Hs. cbn [ok_or]. rewrite Hs. by exists policy.
Qed.



(** C16: no history of additions and removals changes the key of an id.  Whatever maintainers are added and
    removed, in whatever order and however many attempts are refused, an id that was bound stays bound to
    the same key; every adopted id has its key on record, and the policy that loads uses those keys. *)
Theorem trust_binding_forever d0 d keys ids : trust_on d0 keys ids -> trust_history d0 d ->
  (forall id e, lookup_trust_key_entry id d0 = Ok (Some e) -> lookup_trust_key_entry id d = Ok (Some e)) /\
  exists policy, load_maintainer_trust_policy_or_empty d = Ok policy /\ Forall (fun k => lookup_trust_key_entry (amk_key_id k) d = Ok (Some (mkTrustKey (amk_key_id k) (amk_public_key k)))) policy.
Proof.
  intros Hon Hh. destruct (history_keeps d0 d keys ids Hon Hh) as (more & ids' & Hd). assert (Hlook : forall id, lookup_trust_key_entry id d = Ok (key_binding (keys ++ more) id)).
  { intros id. unfold lookup_trust_key_entry. destruct (lookup_on d _ _ id Hd) as (off & ->). done. } split.
  - intros id e. unfold lookup_trust_key_entry at 1. destruct (lookup_on d0 _ _ id Hon) as (off & ->). intros He. injection He as He. rewrite Hlook. f_equal. apply binding_kept; [apply Hd|done].
  - destruct (policy_or_empty_on d _ _ Hd) as (policy & Hl & Hb). exists policy. split; [done|]. eapply Forall_impl; [exact Hb|]. intros k Hk. cbn beta. by rewrite Hlook, Hk.
Qed.
End store.

(** ** Signing and verifying *)

Section signed.
Context `{Sha256} `{Ed25519Verify}.

Lemma trusted_loop_found policy envelope signatures sig : sig ∈ signatures -> is_some (policy_find policy (key_id sig)) = true -> verify_trusted_signature policy envelope sig (object_id envelope) = Ok tt ->
  Forall (fun s => s = sig \/ policy_find policy (key_id s) = None) signatures -> forall trusted, (trusted = None \/ trusted = Some (key_id sig)) ->
  trusted_loop policy envelope signatures trusted = Ok (Some (key_id sig)).
Proof.
  intros Hin Hf Hv Hall. assert (Hdone : forall l, Forall (fun s => s = sig \/ policy_find policy (key_id s) = None) l -> trusted_loop policy envelope l (Some (key_id sig)) = Ok (Some (key_id sig))).
  { induction 1 as [|s l Hs _ IH]; [done|]. cbn [trusted_loop]. destruct Hs as [->|Hs]; [|by rewrite Hs]. rewrite Hf. cbn [negb]. by rewrite Hv. }
  induction Hall as [|s l Hs Hall IH]; [by apply elem_of_nil in Hin|]. intros trusted Ht. destruct Ht as [->| ->]; [|apply Hdone; by constructor]. cbn [trusted_loop]. destruct (decide (s = sig)) as [->|Hne].
  - rewrite Hf. cbn [negb]. rewrite Hv. by apply Hdone.
  - destruct Hs as [?|Hs]; [done|]. rewrite Hs. cbn [is_some negb]. apply IH; [|by left]. apply elem_of_cons in Hin as [->|?]; [done|done].
Qed.

(** C17: what a trusted signer publishes is verified as trusted.  When the gate admits a signer, the signature
    it makes on an object verifies under the loaded policy, and an envelope that carries it, next to
    signatures of keys that are not adopted, is trusted under that signer's id. *)
Theorem signed_publication_trusted (signer : Signer) operation d policy envelope sig : verify_signer_trusted signer operation d = Ok policy ->
  (forall message bytes, @signer_sign signer message = Ok bytes -> verify_ed25519 (@signer_public_key signer) message bytes = Ok tt) ->
  maintainer_signature signer (object_type envelope) (object_id envelope) = Ok sig -> sig ∈ signatures envelope ->
  Forall (fun s => s = sig \/ policy_find policy (key_id s) = None) (filter (fun s => signer_role s = Maintainer) (signatures envelope)) ->
  verify_trusted_publication_envelope policy envelope = Ok (@signer_key_id signer) /\ refuse_forged_publication_signature "seal" policy envelope = Ok tt /\
  (key_id sig, SoundSignature) ∈ classify_publication_signatures policy envelope.
Proof.
  intros Hgate Hsound Hsig Hin Hothers. unfold verify_signer_trusted in Hgate. destruct (load_maintainer_trust_policy d) as [p|]; [|done]. destruct (policy_find p (@signer_key_id signer)) as [matched|] eqn:Hf; [|done]. cbn [ok_or] in Hgate.
  destruct (bool_decide_reflect (@signer_public_key signer = amk_public_key matched)) as [Hpk|]; [|done]. injection Hgate as ->.
  unfold maintainer_signature in Hsig. destruct (signed_bytes Ed25519 (object_type envelope) (object_id envelope) Maintainer (@signer_key_id signer)) as [preimage|] eqn:Hpre; [|done]. unfold finish_signature in Hsig.
  destruct (@signer_sign signer preimage) as [bytes|] eqn:Hs; [|done]. destruct (Signature_validate _) as [[]|]; [|done]. destruct (Signature_validate_shape _) as [[]|]; [|done]. injection Hsig as <-. set (sig := mkSignature _ _ _ _ _) in *.
  assert (Hv : verify_trusted_signature policy envelope sig (object_id envelope) = Ok tt).
  { unfold verify_trusted_signature. cbn [sig algorithm signer_role key_id signature_bytes]. rewrite !bool_decide_true by done. cbn [negb]. rewrite Hf. cbn [ok_or]. rewrite Hpre, <- Hpk. by apply Hsound. }
  assert (Hfi : sig ∈ filter (fun s => signer_role s = Maintainer) (signatures envelope)) by (by apply list_elem_of_filter).
  assert (Hfound : is_some (policy_find policy (key_id sig)) = true) by (cbn [sig key_id]; by rewrite Hf).
  assert (Htr : verify_trusted_publication_envelope policy envelope = Ok (@signer_key_id signer)).
  { unfold verify_trusted_publication_envelope. by rewrite (trusted_loop_found policy envelope _ sig Hfi Hfound Hv Hothers None (or_introl eq_refl)). }
  split; [done|]. split; [unfold refuse_forged_publication_signature; by rewrite Htr|]. unfold classify_publication_signatures. apply list_elem_of_fmap. exists sig. split; [|done]. by rewrite Hfound, Hv.
Qed.
End signed.

Section demo.
#[local] Existing Instance hash_mod_p.

Lemma small_files (d : Disk) : forallb (fun kv => zlen kv.2 <? 2 ^ 50) (map_to_list d) = true -> forall path, zlen (default [] (d !! path)) < 2 ^ 50.
Proof.
  intros Hall path. rewrite forallb_forall in Hall. destruct (d !! path) as [bytes|] eqn:Hd; [|done]. specialize (Hall (path, bytes)). apply Z.ltb_lt, Hall, list_elem_of_In. by apply elem_of_map_to_list.
Qed.

(** Fresh trust containers. *)
Definition fresh_trust : Disk := <[trust_key_container_path := []]> (<[trust_policy_generation_log_path := []]> (
  <[trust_policy_container_slot_path SlotB := []]> (<[trust_policy_container_slot_path SlotA := []]> fresh_received))).
Definition demo_key (b : byte) : list byte := replicate 32 b.
Definition alice : list byte := bytes_of_string "maintainer-alice".

Lemma fresh_trust_on : trust_on fresh_trust [] [].
Proof.
  split; [|..|constructor|constructor|constructor|constructor].
  - exists []. split; [vm_compute; reflexivity|]. split; [constructor|done].
  - exists SlotA, [], [], []. split; [|split; [|done]].
    + split; [split_and!; [vm_compute; reflexivity|apply torn_generation_nil|vm_compute; reflexivity]|]. right. split; [done|]. split; [done|]. vm_compute. reflexivity.
    + constructor; [vm_compute; reflexivity|constructor|by left|vm_compute; reflexivity].
Qed.

Lemma fresh_trust_room : trust_room fresh_trust [].
Proof. split; [done|]. apply small_files. vm_compute. reflexivity. Qed.



Definition alice_adopted : Disk := (add_trusted_maintainer V7 alice (to_hex (demo_key x01)) fresh_trust).2.

Lemma trust_binding_forever_witness : exists policy, load_maintainer_trust_policy_or_empty alice_adopted = Ok policy /\
  Forall (fun k => lookup_trust_key_entry (amk_key_id k) alice_adopted = Ok (Some (mkTrustKey (amk_key_id k) (amk_public_key k)))) policy.
Proof.
  apply (trust_binding_forever V7 fresh_trust alice_adopted [] [] fresh_trust_on).
  unfold alice_adopted. refine (trust_add V7 fresh_trust alice (to_hex (demo_key x01)) fresh_trust (trust_start V7 fresh_trust) _). intros ids off Hc. assert (Hids : current_adopted_key_ids fresh_trust = Ok ([], (0%nat, 0%nat))) by (vm_compute; reflexivity).
  assert (Hnil : ids = []) by congruence. rewrite Hnil. exact fresh_trust_room.
Defined.

(** A signature scheme whose signatures are two digests, for one key. *)
Definition demo_sign (pk message : list byte) : list byte := sha256 (pk ++ message) ++ sha256 (message ++ pk).
#[local] Instance demo_verify : Ed25519Verify := fun pk message bytes => if bool_decide (bytes = demo_sign pk message) then Ok tt else Err (InvalidSignature "{err}").
Definition demo_signer : Signer := {| signer_key_id := alice; signer_sign := fun message => Ok (demo_sign (demo_key x01) message); signer_public_key := demo_key x01 |}.

Definition demo_payload : ObjectEnvelope := pub_ref_state first_publication.
Definition demo_signature : Signature := match maintainer_signature demo_signer (object_type demo_payload) (object_id demo_payload) with Ok sig => sig | Err _ => mkSignature Ed25519 [] [] 0 Author end.
Definition demo_signed : ObjectEnvelope := mkEnvelope (object_type demo_payload) (schema_version demo_payload) (canonical_payload demo_payload) [demo_signature].

Lemma signed_publication_trusted_witness : exists policy, verify_signer_trusted demo_signer Seal alice_adopted = Ok policy /\
  verify_trusted_publication_envelope policy demo_signed = Ok alice.
Proof.
  exists [mkAdoptedKey alice (demo_key x01)]. split; [vm_compute; reflexivity|].
  apply (signed_publication_trusted demo_signer Seal alice_adopted [mkAdoptedKey alice (demo_key x01)] demo_signed demo_signature).
  - vm_compute. reflexivity.
  - intros message bytes Hs. cbn [signer_sign demo_signer] in Hs. injection Hs as <-. unfold verify_ed25519, demo_verify. cbn [signer_public_key demo_signer]. by rewrite bool_decide_true.
  - vm_compute. reflexivity.
  - left.
  - constructor; [by left|constructor].
Defined.
End demo.
