(* ===== verification/PatchSet.v ===== *)
(** * Patch sets and ancestry (crates/prikk-store/src/merge/evidence.rs, patch_set_digest.rs, sync_negotiation.rs)

    The blocks that lead to a block, in every order of parents; the patches they carry; the digest of a set
    of patches; the pass that finds the local block with a given patch set without walking the ancestry
    of every candidate again; and the two messages by which repositories compare their branches, the summary
    and the have-list, with the delta that a have-list asks for.  A [BTreeMap] is a [gmap] read in key order, a [BTreeSet] a [gset]. *)

From S2P Require Import Prelude PrikkError Utf8 Hash Canonical ByteCursor ObjectId Signature Envelope FileCodec Container Block Refs TagPayload RecognitionClaim Patch ObjectStore PatchDecode.
From S2P Require Import FileSystem RefLog RefStore BlockState AnchorState TrustIndex TrustStore LifecycleReplay.

(** ** Ancestry (merge/evidence.rs) *)

Definition mainline_or_sole_parent (block : BlockPayload) : option (option ObjectId) :=
  if bool_decide (block_kind block = KindMerge) then
    match mainline_parent_id block with
    | None => None
    | Some mainline => if bool_decide (mainline ∈ parent_block_ids block) then Some (Some mainline) else None
    end
  else
    match parent_block_ids block with
    | [] => Some None
    | [parent] => Some (Some parent)
    | _ => None
    end.

Section ancestry.
Context (R : ObjectReader).

Definition evidence_read_block (block_id : ObjectId) : PResult BlockPayload :=
  let? found := @read_typed R block_id Block in
  let? envelope := ok_or found (Integrity "missing Block {block_id}") in
  BlockPayload_decode (canonical_payload envelope).

(** The [loop]: [visited] grows in every round. *)
Fixpoint lineage_horizon_loop (fuel : nat) (visited : gset ObjectId) (current : ObjectId) : PResult ObjectId :=
  if bool_decide (current ∈ visited) then Err (Integrity "block parent chain contains a cycle at {current}")
  else
    match fuel with
    | O => Err OutOfFuel
    | S fuel' =>
        let? block := evidence_read_block current in
        match mainline_or_sole_parent block with
        | Some None => Ok current
        | Some (Some parent) => lineage_horizon_loop fuel' ({[current]} ∪ visited) parent
        | None => Err (UnsupportedObjectType "merge evidence requires a single-parent baseline lineage; block {current} has {} parents")
        end
    end.

Definition lineage_horizon (fuel : nat) (baseline : ObjectId) : PResult ObjectId := lineage_horizon_loop fuel ∅ baseline.

(** The [while let] loop over the stack, whose top is the head: a block read before is skipped.  [fuel]
    bounds the blocks that are read. *)
Fixpoint ancestors_loop (fuel : nat) : list ObjectId -> gmap ObjectId BlockPayload -> PResult (gmap ObjectId BlockPayload) :=
  fix pop (stack : list ObjectId) (ancestors : gmap ObjectId BlockPayload) : PResult (gmap ObjectId BlockPayload) :=
    match stack with
    | [] => Ok ancestors
    | current :: rest =>
        if is_some (ancestors !! current) then pop rest ancestors
        else
          match fuel with
          | O => Err OutOfFuel
          | S fuel' =>
              let? block := evidence_read_block current in
              let? _ := validate_block_v2_shape block in
              ancestors_loop fuel' (reverse (parent_block_ids block) ++ rest) (<[current := block]> ancestors)
          end
    end.

Definition ancestors_inclusive (fuel : nat) (start : ObjectId) : PResult (gmap ObjectId BlockPayload) := ancestors_loop fuel [start] ∅.

Definition lifecycle_state_at `{Sha256} (fuel : nat) (block_id : ObjectId) :=
  let? horizon := lineage_horizon fuel block_id in
  replay_derived_state fuel R block_id horizon.
End ancestry.

(** ** Topological order *)

(** [entry -= 1] for every child, which is enqueued when nothing it waits for remains. *)
Definition release_children (lost : PrikkError) (children : gmap ObjectId (list ObjectId)) (id : ObjectId) (remaining : gmap ObjectId nat) (queue : list ObjectId)
  : PResult (gmap ObjectId nat * list ObjectId) :=
  foldM (fun acc child =>
    let '(remaining, queue) := acc in
    let? count := ok_or (remaining !! child) lost in
    let count := (count - 1)%nat in
    Ok (<[child := count]> remaining, if (count =? 0)%nat then queue ++ [child] else queue)) (remaining, queue) (default [] (children !! id)).

Definition ready_of (remaining : gmap ObjectId nat) : list ObjectId := (filter (fun entry : ObjectId * nat => entry.2 = 0%nat) (btree_iter remaining)).*1.

(** The first loop: how many parents of a block are in the set, and the children of each block of it. *)
Definition order_index_step (new_ids : gset ObjectId) (ancestors : gmap ObjectId BlockPayload)
    (acc : gmap ObjectId nat * gmap ObjectId (list ObjectId)) (id : ObjectId) : PResult (gmap ObjectId nat * gmap ObjectId (list ObjectId)) :=
  let '(remaining, children) := acc in
  let? block := ok_or (ancestors !! id) (Integrity "candidate block set references untracked block {id}") in
  let parents := filter (fun parent => parent ∈ new_ids) (parent_block_ids block) in
  Ok (<[id := length parents]> remaining,
      fold_left (fun children parent => <[parent := default [] (children !! parent) ++ [id]]> children) parents children).

(** The [while let] loop: every block is enqueued once. *)
Fixpoint order_loop (fuel : nat) (children : gmap ObjectId (list ObjectId)) (remaining : gmap ObjectId nat) (queue order : list ObjectId) : PResult (list ObjectId) :=
  match queue with
  | [] => Ok order
  | id :: queue =>
      match fuel with
      | O => Err OutOfFuel
      | S fuel' =>
          let? '(remaining, queue) := release_children (Integrity "candidate block set topological sort lost a tracked child") children id remaining queue in
          order_loop fuel' children remaining queue (order ++ [id])
      end
  end.

Definition topological_order (new_ids : gset ObjectId) (ancestors : gmap ObjectId BlockPayload) : PResult (list ObjectId) :=
  let? '(remaining, children) := foldM (order_index_step new_ids ancestors) (∅, ∅) (set_iter new_ids) in
  let? order := order_loop (size new_ids) children remaining (ready_of remaining) [] in
  if negb (length order =? size new_ids)%nat then Err (Integrity "candidate block set contains a cycle") else Ok order.

(** ** Merge candidates *)

Section candidates.
Context `{Sha256} (R : ObjectReader) (fuel : nat).

Definition candidate_blocks (baseline target : ObjectId) : PResult (list (ObjectId * BlockPayload)) :=
  let? target_ancestors := ancestors_inclusive R fuel target in
  if negb (is_some (target_ancestors !! baseline)) then Err (Precondition "baseline Block {baseline} is not an ancestor of target Block {target}")
  else
    let? baseline_ancestors := ancestors_inclusive R fuel baseline in
    let new_ids := dom target_ancestors ∖ dom baseline_ancestors in
    let? order := topological_order new_ids target_ancestors in
    mapM_result (fun id => let? payload := ok_or (target_ancestors !! id) (Integrity "missing Block {id} in candidate set") in Ok (id, payload)) order.

Definition patch_ids_of (blocks : gmap ObjectId BlockPayload) : gset ObjectId := list_to_set (concat (map (fun entry => patch_ids entry.2) (map_to_list blocks))).

Definition baseline_reachable_patch_ids (baseline : ObjectId) : PResult (gset ObjectId) :=
  let? ancestors := ancestors_inclusive R fuel baseline in
  Ok (patch_ids_of ancestors).

Definition candidate_patch_ids (baseline target : ObjectId) : PResult (list ObjectId) :=
  let? excluded := baseline_reachable_patch_ids baseline in
  let? blocks := candidate_blocks baseline target in
  Ok (filter (fun patch_id => patch_id ∉ excluded) (concat (map (fun block => patch_ids block.2) blocks))).

(** The operations of one patch, each with the author that asserted it when it is a rename. *)
Definition candidate_patch_operations (patch_id : ObjectId) : PResult (list (DecodedPatchOperation * option (list byte))) :=
  let? found := @read_typed R patch_id ObjectId.Patch in
  let? envelope := ok_or found (Integrity "missing Patch {patch_id}") in
  let? operations := decode_patch_operations (canonical_payload envelope) (schema_version envelope) in
  mapM_result (fun operation =>
    let? author_key_id :=
      match d_kind operation with
      | DRenamePath _ _ _ => let? key_id := require_author_key_id envelope in Ok (Some key_id)
      | _ => Ok None
      end in
    Ok (mkDecoded (d_op_seq operation) (d_kind operation) (Some patch_id), author_key_id)) operations.

Definition candidate_sequence (baseline target : ObjectId) : PResult (list DecodedPatchOperation * list (option (list byte))) :=
  let? excluded := baseline_reachable_patch_ids baseline in
  let? blocks := candidate_blocks baseline target in
  let? operations := mapM_result candidate_patch_operations (filter (fun patch_id => patch_id ∉ excluded) (concat (map (fun block => patch_ids block.2) blocks))) in
  Ok ((concat operations).*1, (concat operations).*2).

Definition verify_candidate_blocks_trusted `{Ed25519Verify} (policy : MaintainerTrustPolicy) (baseline target : ObjectId) : PResult unit :=
  let? blocks := candidate_blocks baseline target in
  for_each (fun block =>
    let? found := @read_typed R block.1 Block in
    let? envelope := ok_or found (Integrity "missing Block {block_id}") in
    match verify_trusted_publication_envelope policy envelope with
    | Ok _ => Ok tt
    | Err _ => Err (InvalidSignature "adopted Block {block_id} has no trusted MAINTAINER signature ({}: {})")
    end) blocks.
End candidates.

(** ** The digest of a patch set (patch_set_digest.rs) *)

Definition PATCH_SET_DIGEST_DOMAIN : list byte := bytes_of_string "PRIKK-PATCH-SET-DIGEST-v1".

Definition patch_set_digest_preimage (patch_ids : list ObjectId) : PResult (list byte) :=
  if negb (is_strictly_sorted bytes_ltb patch_ids) then Err (Integrity "patch-set digest input is not strictly sorted and deduplicated")
  else if 2 ^ 64 <=? zlen patch_ids then Err (Integrity "patch-set digest count exceeds u64")
  else Ok (PATCH_SET_DIGEST_DOMAIN ++ to_be_bytes 8 (zlen patch_ids) ++ concat patch_ids).

Inductive PatchSetResolution : Type := NotHeld | Resolved (block_id : ObjectId).

Section digest.
Context `{Sha256}.

Definition compute_patch_set_digest (patch_ids : list ObjectId) : PResult PatchSetDigest :=
  let? preimage := patch_set_digest_preimage patch_ids in
  Ok (sha256 preimage).

(** ** The pass over the candidates *)

(** The parent's closure, moved out for its last child and cloned for the others. *)
Definition take_parent_closure (parent_id : ObjectId) (live_closures : gmap ObjectId (gset ObjectId)) (remaining_children : gmap ObjectId nat)
  : PResult (gset ObjectId * gmap ObjectId (gset ObjectId) * gmap ObjectId nat) :=
  let? count := ok_or (remaining_children !! parent_id) (Integrity "patch-set digest resolution lost a parent's remaining-child count -- internal inconsistency") in
  match count with
  | O => Err (Integrity "patch-set digest resolution consumed a parent's closure more times than it has children -- internal inconsistency")
  | S count =>
      let remaining_children := <[parent_id := count]> remaining_children in
      if (count =? 0)%nat then
        let? closure := ok_or (live_closures !! parent_id) (Integrity "patch-set digest resolution: parent {parent_id} has no live closure to take") in
        Ok (closure, delete parent_id live_closures, remaining_children)
      else
        let? closure := ok_or (live_closures !! parent_id) (Integrity "patch-set digest resolution: parent {parent_id} has no live closure to clone") in
        Ok (closure, live_closures, remaining_children)
  end.

(** The loop over the parents. *)
Fixpoint gather_closure (parents : list ObjectId) (closure : gset ObjectId) (live_closures : gmap ObjectId (gset ObjectId)) (remaining_children : gmap ObjectId nat)
  : PResult (gset ObjectId * gmap ObjectId (gset ObjectId) * gmap ObjectId nat) :=
  match parents with
  | [] => Ok (closure, live_closures, remaining_children)
  | parent_id :: rest =>
      let? '(parent_closure, live_closures, remaining_children) := take_parent_closure parent_id live_closures remaining_children in
      gather_closure rest (if bool_decide (closure = ∅) then parent_closure else closure ∪ parent_closure) live_closures remaining_children
  end.

(** The mutable variables of the pass. *)
Record ResolvePass : Type := mkResolvePass {
  rp_queue : list ObjectId;
  rp_remaining_parents : gmap ObjectId nat;
  rp_remaining_children : gmap ObjectId nat;
  rp_live_closures : gmap ObjectId (gset ObjectId);
  rp_matches : list ObjectId;
}.

Section pass.
Context (candidates : gmap ObjectId BlockPayload) (children : gmap ObjectId (list ObjectId)) (digest : PatchSetDigest) (patch_count : Z).

Definition closure_matches (closure : gset ObjectId) : PResult bool :=
  let? count := len_to_u64 (Z.of_nat (size closure)) in
  if count =? patch_count then
    let? computed := compute_patch_set_digest (set_iter closure) in
    Ok (bool_decide (computed = digest))
  else Ok false.

(** One round of the [while let] loop. *)
Definition resolve_step (s : ResolvePass) (block_id : ObjectId) (queue : list ObjectId) : PResult ResolvePass :=
  let? block := ok_or (candidates !! block_id) (Integrity "patch-set digest resolution lost a tracked candidate -- internal inconsistency") in
  let? '(closure, live_closures, remaining_children) := gather_closure (parent_block_ids block) ∅ (rp_live_closures s) (rp_remaining_children s) in
  let closure := closure ∪ list_to_set (patch_ids block) in
  let? matched := closure_matches closure in
  let matches := if (matched : bool) then rp_matches s ++ [block_id] else rp_matches s in
  let live_closures := if (0 <? default 0 (remaining_children !! block_id))%nat then <[block_id := closure]> live_closures else live_closures in
  let? '(remaining_parents, queue) :=
    release_children (Integrity "patch-set digest resolution lost a tracked child -- internal inconsistency") children block_id (rp_remaining_parents s) queue in
  Ok (mkResolvePass queue remaining_parents remaining_children live_closures matches).

Fixpoint resolve_loop (fuel : nat) (s : ResolvePass) : PResult ResolvePass :=
  match rp_queue s with
  | [] => Ok s
  | block_id :: queue =>
      match fuel with
      | O => Err OutOfFuel
      | S fuel' => let? s := resolve_step s block_id queue in resolve_loop fuel' s
      end
  end.
End pass.

(** The forward edges, and how many parents and children each candidate waits for. *)
Definition children_of (candidates : gmap ObjectId BlockPayload) : gmap ObjectId (list ObjectId) :=
  fold_left (fun children '(block_id, block) =>
    fold_left (fun children parent_id => <[parent_id := default [] (children !! parent_id) ++ [block_id]]> children) (parent_block_ids block) children)
    (btree_iter candidates) ∅.

Definition resolve_among (candidates : gmap ObjectId BlockPayload) (digest : PatchSetDigest) (patch_count : Z) : PResult (list ObjectId) :=
  let children := children_of candidates in
  let remaining_parents := (fun block => length (parent_block_ids block)) <$> candidates in
  let remaining_children := map_imap (fun block_id _ => Some (length (default [] (children !! block_id)))) candidates in
  let? s := resolve_loop candidates children digest patch_count (size candidates)
              (mkResolvePass (ready_of remaining_parents) remaining_parents remaining_children ∅ []) in
  Ok (rp_matches s).

Section layout.
Context (R : ObjectReader) (fuel : nat).

Definition patch_ids_reachable_from_block (tip_block_id : ObjectId) : PResult (list ObjectId) :=
  let? ancestors := ancestors_inclusive R fuel tip_block_id in
  Ok (set_iter (patch_ids_of ancestors)).

Definition compute_patch_set_digest_from_block (tip_block_id : ObjectId) : PResult PatchSetDigest :=
  let? patch_ids := patch_ids_reachable_from_block tip_block_id in
  compute_patch_set_digest patch_ids.

Definition compute_patch_set_digest_and_count_from_block (tip_block_id : ObjectId) : PResult (PatchSetDigest * Z) :=
  let? patch_ids := patch_ids_reachable_from_block tip_block_id in
  let? count := len_to_u64 (zlen patch_ids) in
  let? digest := compute_patch_set_digest patch_ids in
  Ok (digest, count).

(** A received ref is refused by its name. *)
Definition resolve_ref_to_tip_block (ref_name : list byte) (d : Disk) : PResult ObjectId :=
  if ref_starts_with "remotes/" ref_name
  then Err (Integrity "patch-set digest does not support received refs ({ref_name}) yet -- the received namespace is what patch-level exchange itself restructures (RFC 115 design D2/D5); its digest semantics belong to a later stage, not assumed here")
  else
    let? current := read_current_ref_state_id ref_name d in
    let? ref_state_id := ok_or current (Integrity "ref {ref_name} does not exist, nothing to compute a patch-set digest for") in
    let? found := @read_typed R ref_state_id RefState in
    let? envelope := ok_or found (Integrity "missing RefState object: {ref_state_id}") in
    let? ref_state := RefStatePayload_decode (schema_version envelope) (canonical_payload envelope) in
    let? '(target_block_id, _) := resolve_ref_tip_block R ref_state in
    Ok target_block_id.

Definition compute_patch_set_digest_for_ref (ref_name : list byte) (d : Disk) : PResult PatchSetDigest :=
  let? tip_block_id := resolve_ref_to_tip_block ref_name d in
  compute_patch_set_digest_from_block tip_block_id.

(** Every block that a local ref reaches. *)
Definition resolution_candidates (d : Disk) : PResult (gmap ObjectId BlockPayload) :=
  let? pointers := list_ref_pointers d in
  foldM (fun candidates pointer =>
    let? tip_block_id := resolve_ref_to_tip_block (ps_ref_name pointer) d in
    let? ancestors := ancestors_inclusive R fuel tip_block_id in
    Ok (ancestors ∪ candidates)) ∅ pointers.

Definition resolve_patch_set_digest (digest : PatchSetDigest) (patch_count : Z) (d : Disk) : PResult PatchSetResolution :=
  let? candidates := resolution_candidates d in
  let? matches := resolve_among candidates digest patch_count in
  match matches with
  | [] => Ok NotHeld
  | [block_id] => Ok (Resolved block_id)
  | _ => Err (Integrity "patch-set digest resolves to {} distinct local blocks, refusing to pick: {names}")
  end.

(** ** Patches held, sealed and claimed *)

(** The records of one container, with what [read] makes of each. *)
Definition scan_container {A} (object_type : ObjectType) (read : ObjectEnvelope -> PResult A) (d : Disk) : PResult (list A) :=
  match d !! container_slot_path object_type SlotA with
  | None => Ok []
  | Some bytes =>
      let? replay := decode_container_records object_type bytes in
      mapM_result read (cr_records replay)
  end.

Definition all_held_patch_ids (d : Disk) : PResult (gset ObjectId) :=
  let? ids := scan_container ObjectId.Patch (fun envelope => Ok (object_id envelope)) d in
  Ok (list_to_set ids).

Definition patch_ids_named_by_any_held_block (d : Disk) : PResult (gset ObjectId) :=
  let? blocks := scan_container Block (fun envelope => BlockPayload_decode (canonical_payload envelope)) d in
  Ok (list_to_set (concat (map patch_ids blocks))).

Definition patch_ids_named_by_any_held_claim (d : Disk) : PResult (gset ObjectId) :=
  let? claims := scan_container ObjectId.RecognitionClaim (fun envelope => RecognitionClaimPayload_decode (canonical_payload envelope)) d in
  Ok (list_to_set (concat (map rc_patch_ids claims))).

Definition patch_ids_pending_with_held_block_subtraction (apply_held_block_subtraction : bool) (d : Disk) : PResult (list ObjectId) :=
  let? all_patch_ids := all_held_patch_ids d in
  if bool_decide (all_patch_ids = ∅) then Ok []
  else
    let? sealed := if apply_held_block_subtraction then patch_ids_named_by_any_held_block d else Ok ∅ in
    let? claimed := patch_ids_named_by_any_held_claim d in
    Ok (filter (fun patch_id => patch_id ∈ claimed /\ patch_id ∉ sealed) (set_iter all_patch_ids)).

Definition patch_ids_pending (d : Disk) : PResult (list ObjectId) := patch_ids_pending_with_held_block_subtraction true d.

Definition reachable_patch_ids_from_ref_state (ref_state_id : ObjectId) : PResult (list ObjectId) :=
  let? found := @read_typed R ref_state_id RefState in
  let? envelope := ok_or found (Integrity "ref {pointer_name} names missing RefState {ref_state_id}") in
  let? ref_state := RefStatePayload_decode (schema_version envelope) (canonical_payload envelope) in
  let? '(tip_block_id, _) := resolve_ref_tip_block R ref_state in
  patch_ids_reachable_from_block tip_block_id.

Definition accepted_but_unsealed_patch_ids (d : Disk) : PResult (list ObjectId) :=
  let? all_patch_ids := all_held_patch_ids d in
  let? pointers := list_ref_pointers d in
  let? reachable := foldM (fun reachable pointer =>
    let? ids := reachable_patch_ids_from_ref_state (ps_ref_state_id pointer) in
    Ok (list_to_set ids ∪ reachable)) ∅ pointers in
  Ok (set_iter (all_patch_ids ∖ reachable)).

(** ** Negotiation (sync_negotiation.rs) *)

Definition read_branch_tip (ref_state_id : ObjectId) : PResult ObjectId :=
  let? found := @read_typed R ref_state_id RefState in
  let? envelope := ok_or found (Integrity "ref {ref_name} names missing RefState {ref_state_id}") in
  let? payload := RefStatePayload_decode (schema_version envelope) (canonical_payload envelope) in
  if negb (bool_decide (rs_kind payload = Branch)) then Err (Integrity "ref {ref_name} is under heads/ but its RefState kind is not Branch")
  else Ok (rs_target_object_id payload).

Definition resolve_branch_ref_tip (ref_name : list byte) (d : Disk) : PResult (option ObjectId) :=
  let? current := read_current_ref_state_id ref_name d in
  match current with
  | None => Ok None
  | Some ref_state_id => let? tip := read_branch_tip ref_state_id in Ok (Some tip)
  end.

Definition branch_patch_ids (ref_name : list byte) (d : Disk) : PResult (list ObjectId) :=
  let? tip := resolve_branch_ref_tip ref_name d in
  match tip with
  | Some tip_block_id => patch_ids_reachable_from_block tip_block_id
  | None => Ok []
  end.
End layout.

(** ** The have-list (have_list.rs) *)

Definition HAVE_LIST_MAGIC : list byte := bytes_of_string "PSYNCHV1".
Definition DEFAULT_HAVE_LIST_MAX_PATCH_COUNT : Z := 100000.
Definition DEFAULT_HAVE_LIST_MAX_TOTAL_BYTES : Z := 64 * 1024 * 1024.

Record HaveList : Type := mkHaveList {
  hl_ref_name : list byte;
  hl_digest : PatchSetDigest;
  hl_patch_ids : list ObjectId;
}.

Definition build_have_list (R : ObjectReader) (fuel : nat) (ref_name : list byte) (d : Disk) : PResult (list byte) :=
  let? canonical_ref := validate_local_branch_ref ref_name in
  let? patch_ids := branch_patch_ids R fuel canonical_ref d in
  let? digest := compute_patch_set_digest patch_ids in
  let? out := push_string_u16 HAVE_LIST_MAGIC canonical_ref in
  let out := out ++ digest in
  let? count := len_to_u64 (zlen patch_ids) in
  Ok (push_u64 out count ++ concat patch_ids).

Definition decode_have_list (bytes : list byte) (max_total_bytes max_patch_count : Z) : PResult HaveList :=
  if max_total_bytes <? zlen bytes then Err (MalformedData "have-list is {} bytes, over the configured limit of {max_total_bytes} bytes")
  else
    let? '(magic, c) := bc_read_array 8 (ByteCursor_new bytes) in
    if negb (bool_decide (magic = HAVE_LIST_MAGIC)) then Err (MalformedData "invalid have-list magic")
    else
      let? '(ref_name, c) := bc_read_string_u16 c in
      let? '(declared_digest, c) := bc_read_array 32 c in
      let? '(patch_count, c) := bc_read_u64 c in
      let? max_patch_count := len_to_u64 max_patch_count in
      if max_patch_count <? patch_count then Err (MalformedData "have-list declares {patch_count} patch ids, over the configured limit of {max_patch_count}")
      else
        let? '(patch_ids, c) := bc_read_n (bc_read_array 32) (Z.to_nat patch_count) c in
        if negb (is_finished c) then Err (MalformedData "trailing bytes in have-list")
        else
          let? recomputed_digest := compute_patch_set_digest patch_ids in
          if negb (bool_decide (recomputed_digest = declared_digest)) then Err (Integrity "have-list's declared patch-set digest does not match its own carried list")
          else Ok (mkHaveList ref_name declared_digest patch_ids).

Definition compute_sync_delta (R : ObjectReader) (fuel : nat) (have_list : HaveList) (d : Disk) : PResult (list ObjectId) :=
  let? canonical_ref := validate_local_branch_ref (hl_ref_name have_list) in
  let? sender_patch_ids := branch_patch_ids R fuel canonical_ref d in
  let receiver_patch_ids : gset ObjectId := list_to_set (hl_patch_ids have_list) in
  Ok (filter (fun patch_id => patch_id ∉ receiver_patch_ids) sender_patch_ids).

(** ** The summary (summary.rs) *)

Definition SYNC_SUMMARY_MAGIC : list byte := bytes_of_string "PSYNCSU1".
Definition DEFAULT_SYNC_SUMMARY_MAX_REF_COUNT : Z := 100000.
Definition DEFAULT_SYNC_SUMMARY_MAX_TOTAL_BYTES : Z := 16 * 1024 * 1024.

Record SyncSummaryRefEntry : Type := mkSummaryEntry {
  se_ref_name : list byte;
  se_digest : PatchSetDigest;
  se_patch_count : Z;
}.

(** The entries of the first loop. *)
Definition summary_entries (R : ObjectReader) (fuel : nat) (d : Disk) : PResult (list SyncSummaryRefEntry) :=
  let? pointers := list_ref_pointers d in
  mapM_result (fun pointer =>
    let? tip := read_branch_tip R (ps_ref_state_id pointer) in
    let? patch_ids := patch_ids_reachable_from_block R fuel tip in
    let? digest := compute_patch_set_digest patch_ids in
    let? patch_count := len_to_u64 (zlen patch_ids) in
    Ok (mkSummaryEntry (ps_ref_name pointer) digest patch_count))
    (filter (fun pointer => ref_starts_with "heads/" (ps_ref_name pointer)) pointers).

Definition push_summary_entry (out : list byte) (entry : SyncSummaryRefEntry) : PResult (list byte) :=
  let? out := push_string_u16 out (se_ref_name entry) in
  Ok (push_u64 (out ++ se_digest entry) (se_patch_count entry)).

Definition build_sync_summary (R : ObjectReader) (fuel : nat) (d : Disk) : PResult (list byte) :=
  let? entries := summary_entries R fuel d in
  let? count := len_to_u64 (zlen entries) in
  foldM push_summary_entry (push_u64 SYNC_SUMMARY_MAGIC count) entries.

Definition read_summary_entry : Reader SyncSummaryRefEntry := fun c =>
  let? '(ref_name, c) := bc_read_string_u16 c in
  let? '(digest, c) := bc_read_array 32 c in
  let? '(patch_count, c) := bc_read_u64 c in
  Ok (mkSummaryEntry ref_name digest patch_count, c).

Definition decode_sync_summary (bytes : list byte) (max_total_bytes max_ref_count : Z) : PResult (list SyncSummaryRefEntry) :=
  if max_total_bytes <? zlen bytes then Err (MalformedData "sync summary is {} bytes, over the configured limit of {max_total_bytes} bytes")
  else
    let? '(magic, c) := bc_read_array 8 (ByteCursor_new bytes) in
    if negb (bool_decide (magic = SYNC_SUMMARY_MAGIC)) then Err (MalformedData "invalid sync summary magic")
    else
      let? '(ref_count, c) := bc_read_u64 c in
      let? max_ref_count := len_to_u64 max_ref_count in
      if max_ref_count <? ref_count then Err (MalformedData "sync summary declares {ref_count} refs, over the configured limit of {max_ref_count}")
      else
        let? '(entries, c) := bc_read_n read_summary_entry (Z.to_nat ref_count) c in
        if negb (is_finished c) then Err (MalformedData "trailing bytes in sync summary") else Ok entries.

Inductive SyncRefComparisonState : Type := InSync | Differs | RemoteOnly | LocalOnly.
#[global] Instance SyncRefComparisonState_eq_dec : EqDecision SyncRefComparisonState.
Proof. solve_decision. Defined.

Definition SyncRefComparisonState_as_str (state : SyncRefComparisonState) : string :=
  match state with
  | InSync => "in-sync"
  | Differs => "differs"
  | RemoteOnly => "remote-only"
  | LocalOnly => "local-only"
  end.

Record SyncRefComparison : Type := mkComparison {
  cmp_ref_name : list byte;
  cmp_state : SyncRefComparisonState;
}.

(** Of several entries for one ref the last one counts.  A name comes from one of the two sides,
    so that one the remote side does not have is local: the fourth case of the source is [unreachable!]. *)
Definition compare_sync_summary (R : ObjectReader) (fuel : nat) (remote : list SyncSummaryRefEntry) (d : Disk) : PResult (list SyncRefComparison) :=
  let? pointers := list_ref_pointers d in
  let local_ref_names : gset (list byte) := list_to_set (filter (fun name => ref_starts_with "heads/" name) (ps_ref_name <$> pointers)) in
  let remote_digests : gmap (list byte) PatchSetDigest := fold_left (fun digests entry => <[se_ref_name entry := se_digest entry]> digests) remote ∅ in
  mapM_result (fun ref_name =>
    let? state :=
      match remote_digests !! ref_name with
      | Some remote_digest =>
          if bool_decide (ref_name ∈ local_ref_names) then
            let? local_digest := compute_patch_set_digest_for_ref R fuel ref_name d in
            Ok (if bool_decide (local_digest = remote_digest) then InSync else Differs)
          else Ok RemoteOnly
      | None => Ok LocalOnly
      end in
    Ok (mkComparison ref_name state)) (set_iter (local_ref_names ∪ dom remote_digests)).
End digest.
