(* ===== verification/PatchSetThms.v ===== *)
(** * The passes over the block graph (merge/evidence.rs, patch_set_digest.rs)

    The queue of blocks whose parents are all done, which the topological order of the merge candidates and
    the resolution of a patch-set digest share, as one invariant [kahn]; the topological order against its
    specification; and the single pass of the resolution against the walk of every candidate. *)

From S2P Require Import Prelude PrikkError Hash Canonical ByteCursor ObjectId Signature Envelope FileCodec Block TagPayload ObjectStore.
From S2P Require Import FileSystem RefLog RefStore BlockState AnchorState AnchoredThms RefStoreThms CompactThms FoldThms LineageThms TrustIndex TrustStore LifecycleReplay PatchSet.

(** ** Occurrences *)

Definition occurrences (x : ObjectId) (l : list ObjectId) : nat := length (filter (fun y => y = x) l).

Lemma occurrences_cons x y l : occurrences x (y :: l) = ((if decide (y = x) then 1 else 0) + occurrences x l)%nat.
Proof. unfold occurrences. rewrite filter_cons. by destruct (decide (y = x)). Qed.

Lemma occurrences_app x l1 l2 : occurrences x (l1 ++ l2) = (occurrences x l1 + occurrences x l2)%nat.
Proof. unfold occurrences. by rewrite filter_app, length_app. Qed.

Lemma occurrences_pos x l : (0 < occurrences x l)%nat <-> x ∈ l.
Proof.
  unfold occurrences. split.
  - intros Hp. destruct (filter (fun y => y = x) l) as [|y r] eqn:He; [cbn in Hp; lia|].
    assert (Hy : y ∈ filter (fun y => y = x) l) by (rewrite He; left). apply list_elem_of_filter in Hy as [-> ?]. done.
  - intros Hx. destruct (filter (fun y => y = x) l) as [|y r] eqn:He; [|cbn; lia].
    assert (Hy : x ∈ filter (fun y => y = x) l) by (by apply list_elem_of_filter). rewrite He in Hy. by apply elem_of_nil in Hy.
Qed.

(** The occurrences in [l] that are not [done]. *)
Definition pending_of (finished : list ObjectId) (l : list ObjectId) : nat := length (filter (fun y => y ∉ finished) l).

Lemma pending_of_snoc finished x l : x ∉ finished -> pending_of finished l = (pending_of (finished ++ [x]) l + occurrences x l)%nat.
Proof.
  intros Hx. unfold pending_of. induction l as [|y l IH]; [done|]. rewrite occurrences_cons, !filter_cons.
  destruct (decide (y = x)) as [->|Hne].
  - rewrite decide_True by done. rewrite decide_False by (rewrite elem_of_app, list_elem_of_singleton; naive_solver). cbn [length]. lia.
  - destruct (decide (y ∉ finished)) as [Hn|Hn].
    + rewrite decide_True by (rewrite elem_of_app, list_elem_of_singleton; naive_solver). cbn [length]. lia.
    + rewrite decide_False by (rewrite elem_of_app, list_elem_of_singleton; naive_solver). lia.
Qed.

Lemma pending_nil l : pending_of [] l = length l.
Proof. unfold pending_of. induction l as [|y l IH]; [done|]. rewrite filter_cons, decide_True by apply not_elem_of_nil. cbn [length]. by rewrite IH. Qed.

Lemma pending_of_zero finished l : pending_of finished l = 0%nat <-> forall x, x ∈ l -> x ∈ finished.
Proof.
  unfold pending_of. split.
  - intros Hz x Hx. destruct (decide (x ∈ finished)) as [|Hn]; [done|].
    assert (Hi : x ∈ filter (fun y => y ∉ finished) l) by (by apply list_elem_of_filter). by rewrite (nil_length_inv _ Hz) in Hi; apply elem_of_nil in Hi.
  - intros Hall. destruct (filter (fun y => y ∉ finished) l) as [|y r] eqn:He; [done|].
    assert (Hy : y ∈ filter (fun y => y ∉ finished) l) by (rewrite He; left). apply list_elem_of_filter in Hy as [Hn Hy]. by destruct (Hn (Hall _ Hy)).
Qed.

(** ** The queue *)

(** Releasing the children of one block: every one loses its occurrences, and those that reach zero are
    enqueued once. *)
Lemma release_children_ok lost children id : forall remaining queue,
  (forall x, x ∈ default [] (children !! id) -> exists n, remaining !! x = Some n /\ (occurrences x (default [] (children !! id)) <= n)%nat) ->
  exists remaining' added,
    release_children lost children id remaining queue = Ok (remaining', queue ++ added) /\
    (forall x, remaining' !! x = (fun n => n - occurrences x (default [] (children !! id)))%nat <$> remaining !! x) /\
    NoDup added /\
    (forall x, x ∈ added <-> x ∈ default [] (children !! id) /\ remaining !! x = Some (occurrences x (default [] (children !! id)))).
Proof.
  unfold release_children. generalize (default [] (children !! id)) as l. induction l as [|c l IH]; intros remaining queue Hall.
  - exists remaining, []. split_and!; [by rewrite app_nil_r| |constructor|].
    + intros x. destruct (remaining !! x) as [n|]; [|done]. cbn [occurrences filter fmap option_fmap option_map]. unfold occurrences. cbn. f_equal. lia.
    + intros x. rewrite !elem_of_nil. naive_solver.
  - destruct (Hall c ltac:(left)) as (n & Hn & Hle). rewrite occurrences_cons, decide_True in Hle by done.
    cbn [foldM]. rewrite Hn. cbn [ok_or].
    destruct (IH (<[c := (n - 1)%nat]> remaining) (if (n - 1 =? 0)%nat then queue ++ [c] else queue)) as (rem' & added & He & Hrem & Hnd & Hin).
    { intros x Hx. destruct (Hall x ltac:(by right)) as (m & Hm & Hml). rewrite occurrences_cons in Hml. destruct (decide (c = x)) as [<-|Hne].
      - exists (n - 1)%nat. rewrite lookup_insert_eq. split; [done|]. lia.
      - exists m. rewrite lookup_insert_ne by done. split; [done|]. lia. }
    cbv beta iota zeta in He |- *. rewrite He. destruct (Nat.eqb_spec (n - 1) 0) as [Hz|Hz].
    + assert (n = 1)%nat as -> by lia. assert (Hc0 : occurrences c l = 0%nat) by lia.
      assert (Hcl : c ∉ l) by (rewrite <- occurrences_pos; lia).
      exists rem', (c :: added). split_and!.
      * by rewrite <- app_assoc.
      * intros x. rewrite Hrem, occurrences_cons. destruct (decide (c = x)) as [<-|Hne]; [rewrite lookup_insert_eq, Hn; cbn; f_equal; lia|].
        by rewrite lookup_insert_ne by done.
      * constructor; [|done]. rewrite Hin. naive_solver.
      * intros x. rewrite !elem_of_cons, Hin, occurrences_cons. destruct (decide (c = x)) as [<-|Hne].
        -- rewrite lookup_insert_eq, Hn, Hc0. naive_solver.
        -- rewrite lookup_insert_ne by done. naive_solver.
    + exists rem', added. split_and!; [done| |done|].
      * intros x. rewrite Hrem, occurrences_cons. destruct (decide (c = x)) as [<-|Hne]; [rewrite lookup_insert_eq, Hn; cbn; f_equal; lia|].
        by rewrite lookup_insert_ne by done.
      * intros x. rewrite elem_of_cons, Hin, occurrences_cons. destruct (decide (c = x)) as [<-|Hne].
        -- rewrite lookup_insert_eq, Hn. split.
           ++ intros [Hx Hs]. injection Hs as Hs. split; [by left|]. f_equal. lia.
           ++ intros [_ Hs]. injection Hs as Hs. split; [apply occurrences_pos; lia|]. f_equal. lia.
        -- rewrite lookup_insert_ne by done. naive_solver.
Qed.

(** Every parent of a listed block is listed before it. *)
Definition parents_first (parents : ObjectId -> list ObjectId) (order : list ObjectId) : Prop :=
  forall before id after, order = before ++ id :: after -> forall p, p ∈ parents id -> p ∈ before.

Lemma parents_first_snoc parents order id : parents_first parents order -> (forall p, p ∈ parents id -> p ∈ order) -> parents_first parents (order ++ [id]).
Proof.
  intros Ho Hid before x after He p Hp. destruct (decide (after = [])) as [->|Hne].
  - apply app_inj_tail in He as [-> ->]. by apply Hid.
  - destruct (exists_last Hne) as (after' & y & ->). rewrite app_comm_cons, app_assoc in He. apply app_inj_tail in He as [-> _]. by eapply Ho.
Qed.

(** No chain of parents inside [V] returns to its start: the blocks can be ranked. *)
Definition acyclic (V : gset ObjectId) (parents : ObjectId -> list ObjectId) : Prop :=
  exists rank : ObjectId -> nat, forall id p, id ∈ V -> p ∈ parents id -> p ∈ V -> (rank p < rank id)%nat.

Section kahn.
Context (V : gset ObjectId) (parents : ObjectId -> list ObjectId) (children : gmap ObjectId (list ObjectId)).

(** The forward edges of the parent lists of [V]. *)
Definition forward_edges : Prop :=
  forall p c, occurrences c (default [] (children !! p)) = if decide (c ∈ V) then occurrences p (parents c) else 0%nat.

Record kahn (finished queue : list ObjectId) (remaining : gmap ObjectId nat) : Prop := {
  kahn_nodup : NoDup (finished ++ queue);
  kahn_sub : forall x, x ∈ finished ++ queue -> x ∈ V;
  kahn_count : forall x, remaining !! x = if decide (x ∈ V) then Some (pending_of finished (parents x)) else None;
  kahn_ready : forall x, x ∈ V -> pending_of finished (parents x) = 0%nat <-> x ∈ finished ++ queue;
  kahn_order : parents_first parents finished;
}.

Lemma kahn_init remaining : (forall x, remaining !! x = if decide (x ∈ V) then Some (length (parents x)) else None) ->
  kahn [] (ready_of remaining) remaining.
Proof.
  intros Hrem. pose proof pending_nil as Hp.
  assert (Hin : forall x, x ∈ ready_of remaining <-> remaining !! x = Some 0%nat).
  { intros x. unfold ready_of. rewrite list_elem_of_fmap. split.
    - intros ([k v] & -> & Hf). apply list_elem_of_filter in Hf as [Hv Hk]. cbn in Hv |- *. subst v. by apply elem_of_btree_iter.
    - intros Hx. exists (x, 0%nat). split; [done|]. apply list_elem_of_filter. split; [done|]. by apply elem_of_btree_iter. }
  split; cbn [app].
  - unfold ready_of. eapply sublist_NoDup; [apply (NoDup_btree_keys remaining)|]. apply fmap_sublist, sublist_filter.
  - intros x Hx. apply Hin in Hx. rewrite Hrem in Hx. by destruct (decide (x ∈ V)).
  - intros x. rewrite Hrem, Hp. done.
  - intros x Hx. rewrite Hp, Hin, Hrem, decide_True by done. naive_solver.
  - intros before id after He. by destruct before.
Qed.

Lemma kahn_pop lost finished id queue remaining : forward_edges -> kahn finished (id :: queue) remaining ->
  exists remaining' added, release_children lost children id remaining queue = Ok (remaining', queue ++ added) /\
    kahn (finished ++ [id]) (queue ++ added) remaining'.
Proof.
  intros He [Hnd Hsub Hcount Hready Hord].
  assert (Hid : id ∉ finished) by (apply NoDup_app in Hnd as (_ & Hd & _); intros Hi; apply (Hd _ Hi); left).
  assert (Hc : forall x, x ∈ default [] (children !! id) -> x ∈ V /\ id ∈ parents x).
  { intros x Hx. apply occurrences_pos in Hx. rewrite He in Hx. destruct (decide (x ∈ V)); [|lia]. split; [done|]. by apply occurrences_pos. }
  destruct (release_children_ok lost children id remaining queue) as (rem' & added & Hr & Hrem & Hna & Hin).
  { intros x Hx. destruct (Hc x Hx) as [HV _]. rewrite Hcount, decide_True by done. eexists. split; [done|].
    rewrite He, decide_True by done. rewrite (pending_of_snoc finished id) by done. lia. }
  exists rem', added. split; [done|].
  assert (Hadd : forall x, x ∈ added <-> x ∈ V /\ id ∈ parents x /\ pending_of (finished ++ [id]) (parents x) = 0%nat).
  { intros x. rewrite Hin. split.
    - intros [Hx Hs]. destruct (Hc x Hx) as [HV Hp]. split_and!; [done..|]. rewrite Hcount, He, !decide_True in Hs by done. injection Hs as Hs.
      rewrite (pending_of_snoc finished id) in Hs by done. lia.
    - intros (HV & Hp & Hz). split; [apply occurrences_pos; rewrite He, decide_True by done; by apply occurrences_pos|].
      rewrite Hcount, He, !decide_True by done. f_equal. rewrite (pending_of_snoc finished id) by done. lia. }
  assert (Hmem : forall x, x ∈ (finished ++ [id]) ++ queue ++ added <-> x ∈ finished ++ id :: queue \/ x ∈ added).
  { intros x. rewrite !elem_of_app, !elem_of_cons, elem_of_nil. tauto. }
  split.
  - replace ((finished ++ [id]) ++ queue ++ added) with ((finished ++ id :: queue) ++ added) by (by rewrite <- !app_assoc).
    apply NoDup_app. split_and!; [done| |done]. intros x Hx Ha. apply Hadd in Ha as (HV & Hp & _). apply (Hready x HV) in Hx.
    rewrite (pending_of_snoc finished id) in Hx by done. apply occurrences_pos in Hp. lia.
  - intros x [Hx|Hx]%Hmem; [by apply Hsub|]. by apply Hadd in Hx as [HV _].
  - intros x. rewrite Hrem, Hcount. destruct (decide (x ∈ V)) as [HV|]; [|done]. cbn. rewrite He, decide_True by done.
    f_equal. rewrite (pending_of_snoc finished id) by done. lia.
  - intros x HV. rewrite Hmem, <- (Hready x HV), Hadd, (pending_of_snoc finished id) by done. pose proof (occurrences_pos id (parents x)) as Ho.
    destruct (occurrences id (parents x)) as [|n]; [|naive_solver lia]. split; [|intros [?|(? & ?%Ho & _)]; lia]. left. lia.
  - apply parents_first_snoc; [done|]. apply pending_of_zero, Hready; [apply Hsub; rewrite elem_of_app; right; left|]. rewrite elem_of_app. right. left.
Qed.

(** When the queue is empty, an acyclic graph is finished. *)
Lemma kahn_end finished remaining : (forall id p, id ∈ V -> p ∈ parents id -> p ∈ V) -> acyclic V parents -> kahn finished [] remaining ->
  finished ≡ₚ elements V.
Proof.
  intros Hcl [rank Hrank] [Hnd Hsub _ Hready _]. rewrite app_nil_r in *.
  apply NoDup_Permutation; [done|apply NoDup_elements|]. intros x. rewrite elem_of_elements. split; [apply Hsub|].
  remember (rank x) as n eqn:Hn. revert x Hn. induction n as [n IH] using lt_wf_ind. intros x -> HV.
  apply Hready; [done|]. apply pending_of_zero. intros p Hp. pose proof (Hcl x p HV Hp) as HpV. eapply IH; [by eapply Hrank|done..].
Qed.
End kahn.

(** The forward edges of one block. *)
Lemma add_edges_ok own c p : forall parents (children : gmap ObjectId (list ObjectId)),
  occurrences c (default [] (fold_left (fun children parent => <[parent := default [] (children !! parent) ++ [own]]> children) parents children !! p))
  = (occurrences c (default [] (children !! p)) + if decide (c = own) then occurrences p parents else 0)%nat.
Proof.
  induction parents as [|q parents IH]; intros children; cbn [fold_left].
  - change (occurrences p []) with 0%nat. destruct (decide _); lia.
  - rewrite IH, occurrences_cons. destruct (decide (q = p)) as [->|Hne].
    + rewrite lookup_insert_eq. cbn [from_option]. unfold Datatypes.id. rewrite occurrences_app, occurrences_cons. change (occurrences c []) with 0%nat.
      destruct (decide (own = c)), (decide (c = own)); congruence || lia.
    + rewrite lookup_insert_ne by done. destruct (decide (c = own)); lia.
Qed.

(** A loop over the blocks that follows [kahn] finishes with the fuel that counts the blocks. *)
Lemma kahn_room V parents finished id queue remaining : kahn V parents finished (id :: queue) remaining -> (length finished < size V)%nat.
Proof.
  intros [Hnd Hsub _ _ _]. assert (Hl : (length (finished ++ id :: queue) <= size V)%nat).
  { rewrite <- (size_list_to_set (C := gset ObjectId) _ Hnd). apply subseteq_size. intros x. rewrite elem_of_list_to_set. apply Hsub. }
  rewrite length_app in Hl. cbn in Hl. lia.
Qed.

Lemma order_loop_ok V parents children : forward_edges V parents children -> forall fuel finished queue remaining,
  kahn V parents finished queue remaining -> (size V <= fuel + length finished)%nat ->
  exists order remaining', order_loop fuel children remaining queue finished = Ok order /\ kahn V parents order [] remaining'.
Proof.
  intros He fuel. induction fuel as [|fuel IH]; intros finished [|id queue] remaining Hk Hf; cbn [order_loop]; [by eauto| |by eauto|].
  - pose proof (kahn_room _ _ _ _ _ _ Hk). lia.
  - destruct (kahn_pop V parents children (Integrity "candidate block set topological sort lost a tracked child") finished id queue remaining He Hk)
      as (rem' & added & Hr & Hk'). rewrite Hr. apply IH; [done|]. rewrite length_app. cbn. lia.
Qed.

(** An order that lists every block of [V] once and parents first ranks them. *)
Lemma ordered_acyclic V parents order : NoDup order -> (forall x, x ∈ V -> x ∈ order) -> parents_first parents order -> acyclic V parents.
Proof.
  intros Hnd Hall Hord. exists (fun id => default 0%nat (fst <$> list_find (fun x => x = id) order)). intros id p Hid Hp HpV.
  assert (Hfind : forall x, x ∈ order -> exists i, list_find (fun y => y = x) order = Some (i, x) /\ order !! i = Some x).
  { intros x Hx. destruct (list_find_elem_of (fun y => y = x) order x Hx eq_refl) as [[i y] Hi]. pose proof Hi as Hi'.
    apply list_find_Some in Hi as (Hl & -> & _). by exists i. }
  destruct (Hfind id (Hall _ Hid)) as (i & Hi & Hli). destruct (Hfind p (Hall _ HpV)) as (j & Hj & Hlj). rewrite Hi, Hj. cbn.
  pose proof (Hord _ _ _ (eq_sym (take_drop_middle order i id Hli)) p Hp) as Hb. apply list_elem_of_lookup in Hb as [k Hk].
  apply lookup_take_Some in Hk as [Hk Hlt]. by rewrite (NoDup_lookup _ _ _ _ Hnd Hlj Hk).
Qed.

Definition parents_in (new_ids : gset ObjectId) (ancestors : gmap ObjectId BlockPayload) (id : ObjectId) : list ObjectId :=
  match ancestors !! id with
  | Some block => filter (fun parent => parent ∈ new_ids) (parent_block_ids block)
  | None => []
  end.

Lemma order_index_ok new_ids ancestors ids : NoDup ids -> (forall id, id ∈ ids -> is_Some (ancestors !! id)) ->
  exists remaining children, foldM (order_index_step new_ids ancestors) (∅, ∅) ids = Ok (remaining, children) /\
    (forall x, remaining !! x = if decide (x ∈ ids) then Some (length (parents_in new_ids ancestors x)) else None) /\
    (forall p c, occurrences c (default [] (children !! p)) = if decide (c ∈ ids) then occurrences p (parents_in new_ids ancestors c) else 0%nat).
Proof.
  induction ids as [|id ids IH] using rev_ind; intros Hnd Hall.
  - exists ∅, ∅. split; [done|]. split; [intros x|intros p c]; by rewrite lookup_empty, decide_False by apply not_elem_of_nil.
  - apply NoDup_app in Hnd as (Hnd & Hdis & _). assert (Hid : id ∉ ids) by (intros Hi; apply (Hdis _ Hi); left).
    destruct IH as (rem & ch & Hf & Hrem & Hch); [done|intros x Hx; apply Hall; rewrite elem_of_app; by left|].
    destruct (Hall id) as [block Hb]; [rewrite elem_of_app; right; left|].
    rewrite foldM_app, Hf. cbn [foldM]. unfold order_index_step at 1. rewrite Hb. cbn [ok_or]. do 2 eexists. split; [done|].
    assert (Hpar : parents_in new_ids ancestors id = filter (fun parent => parent ∈ new_ids) (parent_block_ids block)) by (unfold parents_in; by rewrite Hb).
    split.
    + intros x. destruct (decide (x = id)) as [->|Hne].
      * rewrite lookup_insert_eq, decide_True by (rewrite elem_of_app; right; left). by rewrite Hpar.
      * rewrite lookup_insert_ne, Hrem by done. apply decide_ext. rewrite elem_of_app, list_elem_of_singleton. naive_solver.
    + intros p c. rewrite add_edges_ok, Hch. destruct (decide (c = id)) as [->|Hne].
      * rewrite decide_False, decide_True, Hpar by (done || (rewrite elem_of_app; right; left)). done.
      * rewrite Nat.add_0_r. apply decide_ext. rewrite elem_of_app, list_elem_of_singleton. naive_solver.
Qed.

(** C9: [topological_order] of blocks that were all read returns an order exactly when no chain of parents
    inside the set returns to its start: every block of the set once, each after all of its parents in the
    set; otherwise it reports a cycle.  Nothing else can happen: the internal "lost a tracked child" error
    and the index of the queue never fire. *)
Theorem topological_order_exact new_ids ancestors : (forall id, id ∈ new_ids -> is_Some (ancestors !! id)) ->
  (acyclic new_ids (parents_in new_ids ancestors) ->
     exists order, topological_order new_ids ancestors = Ok order /\ order ≡ₚ elements new_ids /\ parents_first (parents_in new_ids ancestors) order) /\
  (~ acyclic new_ids (parents_in new_ids ancestors) ->
     topological_order new_ids ancestors = Err (Integrity "candidate block set contains a cycle")).
Proof.
  intros Hall. assert (Hin : forall x, x ∈ set_iter new_ids <-> x ∈ new_ids) by (intros x; by rewrite set_iter_perm, elem_of_elements).
  destruct (order_index_ok new_ids ancestors (set_iter new_ids)) as (rem & ch & Hf & Hrem & Hch).
  { rewrite set_iter_perm. apply NoDup_elements. }
  { intros id Hid. by apply Hall, Hin. }
  assert (He : forward_edges new_ids (parents_in new_ids ancestors) ch) by (intros p c; rewrite Hch; by apply decide_ext).
  assert (Hk : kahn new_ids (parents_in new_ids ancestors) [] (ready_of rem) rem) by (apply kahn_init; intros x; rewrite Hrem; by apply decide_ext).
  destruct (order_loop_ok _ _ _ He (size new_ids) _ _ _ Hk) as (order & rem' & Ho & Hk'); [lia|].
  unfold topological_order. rewrite Hf. cbv beta iota. rewrite Ho. cbv beta iota.
  assert (Hcl : forall id p, id ∈ new_ids -> p ∈ parents_in new_ids ancestors id -> p ∈ new_ids).
  { intros id p _. unfold parents_in. destruct (ancestors !! id); [|by intros ?%elem_of_nil]. by intros [? _]%list_elem_of_filter. }
  split; intros Hac.
  - pose proof (kahn_end _ _ _ _ Hcl Hac Hk') as Hp. rewrite (Permutation_length Hp). change (length (elements new_ids)) with (size new_ids). rewrite Nat.eqb_refl.
    exists order. split_and!; [done..|]. by apply Hk'.
  - destruct (Nat.eqb_spec (length order) (size new_ids)) as [Hl|]; [|done]. exfalso. apply Hac. destruct Hk' as [Hnd Hsub _ _ Hord]. rewrite app_nil_r in *.
    apply (ordered_acyclic _ _ order); [done| |done]. intros x Hx.
    assert (Hs : list_to_set order = new_ids) by (apply set_subseteq_size_eq; [intros y; rewrite elem_of_list_to_set; apply Hsub|rewrite (size_list_to_set (C := gset ObjectId) _ Hnd); lia]).
    rewrite <- Hs in Hx. by apply elem_of_list_to_set in Hx.
Qed.

(** ** The walk over all parents *)

Section walk.
Context (R : ObjectReader).

Definition parent_of (id p : ObjectId) : Prop := exists block, evidence_read_block R id = Ok block /\ p ∈ parent_block_ids block.

Definition sound_block (id : ObjectId) (block : BlockPayload) : Prop := evidence_read_block R id = Ok block /\ validate_block_v2_shape block = Ok tt.

Lemma ancestors_loop_sound fuel : forall stack ancestors A, ancestors_loop R fuel stack ancestors = Ok A ->
  ancestors ⊆ A /\ (forall id, id ∈ stack -> id ∈ dom A) /\ (size A <= fuel + size ancestors)%nat /\
  (forall id block, A !! id = Some block -> ancestors !! id = Some block \/
     sound_block id block /\ (exists s, s ∈ stack /\ rtc parent_of s id) /\ forall p, p ∈ parent_block_ids block -> p ∈ dom A).
Proof.
  induction fuel as [|fuel IH]; intros stack; induction stack as [|current rest IHs]; intros ancestors A Hr; cbn [ancestors_loop] in Hr.
  1,3: apply Ok_inj in Hr as <-; split_and!; [done|by intros id ?%elem_of_nil|lia|by left].
  all: destruct (ancestors !! current) as [b0|] eqn:Hc; cbn [is_some] in Hr.
  1,3: destruct (IHs _ _ Hr) as (Hsub & Hst & Hsz & Hall); split_and!; [done| |done|intros id block Hb; destruct (Hall id block Hb) as [?|(? & (s & ? & ?) & ?)]; [by left|right; split_and!; [done|exists s; split; [by right|done]|done]]];
    intros id [->|?]%elem_of_cons; [|by apply Hst]; apply elem_of_dom; exists b0; by eapply lookup_weaken.
  - done.
  - destruct (evidence_read_block R current) as [block|] eqn:Hb; [|done]. destruct (validate_block_v2_shape block) as [[]|] eqn:Hv; [|done].
    destruct (IH _ _ _ Hr) as (Hsub & Hst & Hsz & Hall).
    assert (HA : A !! current = Some block) by (eapply lookup_weaken; [apply lookup_insert_eq|done]).
    assert (Hpar : forall p, p ∈ parent_block_ids block -> p ∈ dom A) by (intros p Hp; apply Hst; rewrite elem_of_app, elem_of_reverse; by left).
    split_and!.
    + etransitivity; [by apply insert_subseteq|done].
    + intros id [->|Hid]%elem_of_cons; [apply elem_of_dom; by eexists|]. apply Hst. rewrite elem_of_app. by right.
    + rewrite map_size_insert_None in Hsz by done. lia.
    + intros id blk Hblk. destruct (Hall id blk Hblk) as [Hi|(Hs & (s & Hin & Hrtc) & Hp)].
      * apply lookup_insert_Some in Hi as [[<- <-]|[_ Hi]]; [|by left]. right. split_and!; [done|exists current; split; [left|reflexivity]|done].
      * right. split_and!; [done| |done]. rewrite elem_of_app, elem_of_reverse in Hin. destruct Hin as [Hin|Hin]; [|exists s; split; [by right|done]].
        exists current. split; [left|]. apply (rtc_l _ _ s); [by exists block|done].
Qed.

(** The walk returns when the blocks it can meet are readable and no more than the fuel. *)
Lemma ancestors_loop_complete (S : gset ObjectId) : (forall id, id ∈ S -> exists block, sound_block id block /\ forall p, p ∈ parent_block_ids block -> p ∈ S) ->
  forall fuel stack ancestors, (forall id, id ∈ stack -> id ∈ S) -> dom ancestors ⊆ S -> (size S <= fuel + size ancestors)%nat ->
  exists A, ancestors_loop R fuel stack ancestors = Ok A.
Proof.
  intros HS fuel. induction fuel as [|fuel IH]; intros stack; induction stack as [|current rest IHs]; intros ancestors Hst Hd Hf; cbn [ancestors_loop]; [by eexists| |by eexists|].
  all: destruct (ancestors !! current) as [b0|] eqn:Hc; cbn [is_some]; [apply IHs; [intros id Hid; apply Hst; by right|done..]|].
  - exfalso. assert (Hs : size S = size (dom ancestors)) by (rewrite size_dom; apply subseteq_size in Hd; rewrite size_dom in Hd; lia).
    assert (He : dom ancestors = S) by (apply set_subseteq_size_eq; [done|lia]). pose proof (Hst current ltac:(left)) as Hin. rewrite <- He in Hin.
    apply elem_of_dom in Hin as [? ?]. congruence.
  - destruct (HS current (Hst _ ltac:(left))) as (block & [-> ->] & Hp). apply IH.
    + intros id Hid. rewrite elem_of_app, elem_of_reverse in Hid. destruct Hid as [Hid|Hid]; [by apply Hp|]. apply Hst. by right.
    + rewrite dom_insert_L. apply union_least; [|done]. apply singleton_subseteq_l, Hst. left.
    + rewrite map_size_insert_None by done. lia.
Qed.

(** What [ancestors_inclusive] returns: the blocks that chains of parents reach, each as stored. *)
Lemma ancestors_exact fuel start A : ancestors_inclusive R fuel start = Ok A ->
  forall id block, A !! id = Some block <-> rtc parent_of start id /\ evidence_read_block R id = Ok block.
Proof.
  intros Ha. destruct (ancestors_loop_sound _ _ _ _ Ha) as (_ & Hst & _ & Hall).
  assert (Hread : forall id block, A !! id = Some block -> rtc parent_of start id /\ evidence_read_block R id = Ok block /\ forall p, p ∈ parent_block_ids block -> p ∈ dom A).
  { intros id block Hb. destruct (Hall id block Hb) as [Hi|([Hr _] & (s & Hs & Hrtc) & Hp)]; [by rewrite lookup_empty in Hi|].
    apply list_elem_of_singleton in Hs as ->. done. }
  assert (Hreach : forall x y, rtc parent_of x y -> x ∈ dom A -> y ∈ dom A).
  { intros x y Hrtc. induction Hrtc as [|x p y (blk & Hblk & Hp) _ IH]; [done|]. intros [b Hb]%elem_of_dom. apply IH.
    destruct (Hread x b Hb) as (_ & Hr & Hpar). apply Hpar. congruence. }
  intros id block. split; [intros Hb; by destruct (Hread id block Hb) as (? & ? & _)|].
  intros [Hrtc Hr]. apply (Hreach _ _) in Hrtc; [|apply Hst; left]. apply elem_of_dom in Hrtc as [b Hb]. destruct (Hread id b Hb) as (_ & Hr' & _). congruence.
Qed.

Lemma ancestors_closed fuel start A id block : ancestors_inclusive R fuel start = Ok A -> A !! id = Some block ->
  sound_block id block /\ forall p, p ∈ parent_block_ids block -> p ∈ dom A.
Proof.
  intros Ha Hb. destruct (ancestors_loop_sound _ _ _ _ Ha) as (_ & _ & _ & Hall). destruct (Hall id block Hb) as [Hi|(? & _ & ?)]; [by rewrite lookup_empty in Hi|done].
Qed.

(** The walk from a block that a walk met returns too. *)
Lemma ancestors_of_ancestor fuel start A id : ancestors_inclusive R fuel start = Ok A -> id ∈ dom A -> exists A', ancestors_inclusive R fuel id = Ok A'.
Proof.
  intros Ha Hid. apply (ancestors_loop_complete (dom A)).
  - intros x [block Hb]%elem_of_dom. exists block. by eapply ancestors_closed.
  - intros x Hx. by apply list_elem_of_singleton in Hx as ->.
  - rewrite dom_empty_L. apply empty_subseteq.
  - rewrite size_dom. destruct (ancestors_loop_sound _ _ _ _ Ha) as (_ & _ & Hsz & _). lia.
Qed.

Lemma ancestors_start fuel start A : ancestors_inclusive R fuel start = Ok A -> start ∈ dom A.
Proof. intros Ha. destruct (ancestors_loop_sound _ _ _ _ Ha) as (_ & Hst & _). apply Hst. left. Qed.

Lemma elem_of_concat {T} (x : T) ls : x ∈ concat ls <-> exists l, x ∈ l /\ l ∈ ls.
Proof. rewrite list_elem_of_In, in_concat. setoid_rewrite list_elem_of_In. naive_solver. Qed.

Lemma elem_of_patch_ids_of A x : x ∈ patch_ids_of A <-> exists id block, A !! id = Some block /\ x ∈ patch_ids block.
Proof.
  unfold patch_ids_of. rewrite elem_of_list_to_set, elem_of_concat. split.
  - intros (l & Hx & Hl). apply list_elem_of_In, in_map_iff in Hl as ([id block] & <- & Hin%list_elem_of_In%elem_of_map_to_list). eauto.
  - intros (id & block & Hb & Hx). exists (patch_ids block). split; [done|]. apply list_elem_of_In, in_map_iff. exists (id, block). split; [done|].
    by apply list_elem_of_In, elem_of_map_to_list.
Qed.
End walk.

(** ** Digests of sets *)

(** Whether a list is empty, a singleton or longer does not depend on its order. *)
Lemma none_one_many {A B} (none : B) (one : A -> B) (many : B) (l1 l2 : list A) : l1 ≡ₚ l2 ->
  match l1 with [] => none | [x] => one x | _ => many end = match l2 with [] => none | [x] => one x | _ => many end.
Proof.
  intros Hp. destruct l1 as [|x [|y l1]]; [apply Permutation_nil_l in Hp as <-; done|apply Permutation_singleton_l in Hp as <-; done|].
  apply Permutation_length in Hp. by destruct l2 as [|? [|? ?]].
Qed.


Lemma filter_pointwise (f g : ObjectId -> bool) (l : list ObjectId) : (forall x, x ∈ l -> f x = g x) -> filter (fun x => f x) l = filter (fun x => g x) l.
Proof.
  induction l as [|x l IH]; intros Hfg; [done|]. rewrite !filter_cons, (IH (fun y Hy => Hfg y ltac:(by right))). by rewrite (Hfg x ltac:(left)).
Qed.


Lemma sort_by_ascending (l : list ObjectId) : NoDup l -> ascending bytes_cmp (sort_by bytes_cmp l).
Proof.
  induction 1 as [|x l Hx _ IH]; [done|]. change (sort_by bytes_cmp (x :: l)) with (insert_by bytes_cmp x (sort_by bytes_cmp l)).
  assert (Hnx : x ∉ sort_by bytes_cmp l) by (by rewrite sort_by_perm). clear Hx. induction (sort_by bytes_cmp l) as [|y r IHr]; cbn [insert_by].
  { split; [constructor|done]. }
  apply not_elem_of_cons in Hnx as [Hne Hnx]. destruct IH as [Hy Hr]. destruct (bytes_cmp y x) eqn:Hc.
  - by apply bytes_cmp_eq in Hc.
  - assert (Hp : insert_by bytes_cmp x r ≡ₚ x :: r).
    { clear. induction r as [|z r IH]; cbn; [done|]. destruct (bytes_cmp z x); try done. rewrite IH. constructor. }
    split; [|by apply IHr]. rewrite Hp. constructor; done.
  - assert (Hxy : bytes_cmp x y = Lt) by (rewrite bytes_cmp_antisym, Hc; done). split; [|done]. constructor; [done|].
    eapply Forall_impl; [exact Hy|]. intros z Hz. by eapply bytes_cmp_lt_trans.
Qed.

Lemma ascending_strict l : is_strictly_sorted bytes_ltb l = true <-> ascending bytes_cmp l.
Proof.
  rewrite (ascending_windows bytes_cmp (fun a b c => bytes_cmp_lt_trans a b c)). unfold is_strictly_sorted.
  induction l as [|x [|y l] IH]; [by split; [constructor|]|by split; [constructor|]|].
  change (windows2 (x :: y :: l)) with ((x, y) :: windows2 (y :: l)). change (windows_lt bytes_ltb (x :: y :: l)) with (bytes_ltb x y && windows_lt bytes_ltb (y :: l)).
  rewrite Forall_cons, <- IH, andb_true_iff, bytes_ltb_lt. done.
Qed.

Lemma set_iter_strict set : is_strictly_sorted bytes_ltb (set_iter set) = true.
Proof. apply ascending_strict, sort_by_ascending, NoDup_elements. Qed.

Lemma length_set_iter (set : gset ObjectId) : length (set_iter set) = size set.
Proof. by rewrite (Permutation_length (set_iter_perm set)). Qed.

Definition digest_of_set `{Sha256} (set : gset ObjectId) : PatchSetDigest :=
  sha256 (PATCH_SET_DIGEST_DOMAIN ++ to_be_bytes 8 (Z.of_nat (size set)) ++ concat (set_iter set)).

Lemma compute_of_set `{Sha256} set : Z.of_nat (size set) < 2 ^ 64 -> compute_patch_set_digest (set_iter set) = Ok (digest_of_set set).
Proof.
  intros Hs. unfold compute_patch_set_digest, patch_set_digest_preimage, zlen. rewrite set_iter_strict, length_set_iter. cbn [negb].
  by destruct (Z.leb_spec (2 ^ 64) (Z.of_nat (size set))); [lia|].
Qed.

(** ** The pass *)

Section pass.
Context `{Sha256} (candidates : gmap ObjectId BlockPayload) (digest : PatchSetDigest) (patch_count : Z) (closure : ObjectId -> gset ObjectId).

Definition parents_among (id : ObjectId) : list ObjectId := from_option parent_block_ids [] (candidates !! id).
Definition matches_set (set : gset ObjectId) : bool := (Z.of_nat (size set) =? patch_count) && bool_decide (digest_of_set set = digest).

Context (Hclosed : forall id p, id ∈ dom candidates -> p ∈ parents_among id -> p ∈ dom candidates).
Context (Hclosure : forall id block, candidates !! id = Some block -> closure id = ⋃ (closure <$> parent_block_ids block) ∪ list_to_set (patch_ids block)).
Context (Hsmall : forall id, id ∈ dom candidates -> Z.of_nat (size (closure id)) < 2 ^ 64).

Lemma closure_matches_ok set : Z.of_nat (size set) < 2 ^ 64 -> closure_matches digest patch_count set = Ok (matches_set set).
Proof.
  intros Hs. unfold closure_matches, len_to_u64, matches_set. rewrite (proj2 (Z.ltb_lt _ _) Hs). cbv beta iota. destruct (_ =? _); [|done]. by rewrite compute_of_set by done.
Qed.

Lemma gather_closure_ok : forall ps set live remaining,
  (forall p, p ∈ ps -> live !! p = Some (closure p) /\ exists n, remaining !! p = Some n /\ (occurrences p ps <= n)%nat) ->
  exists live' remaining', gather_closure ps set live remaining = Ok (set ∪ ⋃ (closure <$> ps), live', remaining') /\
    (forall x, remaining' !! x = (fun n => n - occurrences x ps)%nat <$> remaining !! x) /\
    (forall x n, remaining' !! x = Some n -> (0 < n)%nat -> live' !! x = live !! x).
Proof.
  induction ps as [|p ps IH]; intros set live remaining Hall.
  - exists live, remaining. split_and!; [cbn; by rewrite union_empty_r_L| |done]. intros x. change (occurrences x []) with 0%nat.
    destruct (remaining !! x); cbn; [f_equal; lia|done].
  - destruct (Hall p ltac:(left)) as [Hl (n & Hn & Hle)]. rewrite occurrences_cons, decide_True in Hle by done. destruct n as [|n]; [lia|].
    assert (Hset : (if bool_decide (set = ∅) then closure p else set ∪ closure p) ∪ ⋃ (closure <$> ps) = set ∪ ⋃ (closure <$> p :: ps)).
    { rewrite fmap_cons. cbn [union_list foldr]. case_bool_decide as He; [rewrite He; set_solver|set_solver]. }
    cbn [gather_closure]. unfold take_parent_closure. rewrite Hn. cbn [ok_or]. rewrite Hl. cbn [ok_or].
    set (live1 := if (n =? 0)%nat then delete p live else live).
    destruct (IH (if bool_decide (set = ∅) then closure p else set ∪ closure p) live1 (<[p := n]> remaining)) as (live' & rem' & He & Hrem & Hlive).
    { intros q Hq. destruct (Hall q ltac:(by right)) as [Hlq (m & Hm & Hmle)]. rewrite occurrences_cons in Hmle. destruct (decide (p = q)) as [<-|Hne].
      - apply occurrences_pos in Hq. split; [unfold live1; destruct (Nat.eqb_spec n 0); [lia|done]|]. exists n. rewrite lookup_insert_eq. split; [done|lia].
      - split; [unfold live1; destruct (n =? 0)%nat; [by rewrite lookup_delete_ne|done]|]. exists m. rewrite lookup_insert_ne by done. split; [done|lia]. }
    exists live', rem'. rewrite Hset in He. split_and!.
    + unfold live1 in He. by destruct (n =? 0)%nat.
    + intros x. rewrite Hrem, occurrences_cons. destruct (decide (p = x)) as [<-|Hne]; [rewrite lookup_insert_eq, Hn; cbn; f_equal; lia|by rewrite lookup_insert_ne].
    + intros x m Hx Hm. rewrite (Hlive x m Hx Hm). unfold live1. destruct (Nat.eqb_spec n 0) as [->|]; [|done]. apply lookup_delete_ne. intros ->.
      rewrite Hrem, lookup_insert_eq in Hx. cbn in Hx. injection Hx as <-. lia.
Qed.

Context (children : gmap ObjectId (list ObjectId)) (Hedges : forward_edges (dom candidates) parents_among children).

Abbreviation children_ids p := (default [] (children !! p)) (only parsing).

(** The state of the pass after the blocks [finished]: the closures that a child still needs are kept. *)
Record passed (finished : list ObjectId) (s : ResolvePass) : Prop := {
  passed_queue : kahn (dom candidates) parents_among finished (rp_queue s) (rp_remaining_parents s);
  passed_children : forall p, rp_remaining_children s !! p = if decide (p ∈ dom candidates) then Some (pending_of finished (children_ids p)) else None;
  passed_live : forall p, p ∈ finished -> (0 < pending_of finished (children_ids p))%nat -> rp_live_closures s !! p = Some (closure p);
  passed_matches : rp_matches s = filter (fun id => matches_set (closure id)) finished;
}.

Lemma resolve_step_ok finished s id queue : rp_queue s = id :: queue -> passed finished s ->
  exists s', resolve_step candidates children digest patch_count s id queue = Ok s' /\ passed (finished ++ [id]) s'.
Proof.
  intros Hq [Hk Hrem Hlive Hmat]. rewrite Hq in Hk. pose proof Hk as [Hnd Hsub _ Hready _].
  assert (HV : id ∈ dom candidates) by (apply Hsub; rewrite elem_of_app; right; left). pose proof HV as [block Hb]%elem_of_dom.
  assert (Hpar : parents_among id = parent_block_ids block) by (unfold parents_among; by rewrite Hb).
  assert (Hid : id ∉ finished) by (apply NoDup_app in Hnd as (_ & Hd & _); intros Hi; apply (Hd _ Hi); left).
  assert (Hocc : forall p, pending_of finished (children_ids p) = (pending_of (finished ++ [id]) (children_ids p) + occurrences p (parent_block_ids block))%nat).
  { intros p. rewrite (pending_of_snoc finished id) by done. by rewrite Hedges, decide_True, Hpar by done. }
  assert (Hfin : forall p, p ∈ parent_block_ids block -> p ∈ finished) by (rewrite <- Hpar; apply pending_of_zero, Hready; [done|rewrite elem_of_app; right; left]).
  destruct (gather_closure_ok (parent_block_ids block) ∅ (rp_live_closures s) (rp_remaining_children s)) as (live' & rem' & Hg & Hrem' & Hlive').
  { intros p Hp. pose proof (proj2 (occurrences_pos _ _) Hp) as Hpos. specialize (Hocc p). split; [apply Hlive; [by apply Hfin|lia]|].
    rewrite Hrem, decide_True by (apply (Hclosed id); [done|by rewrite Hpar]). eexists. split; [done|lia]. }
  assert (Hrem2 : forall p, rem' !! p = if decide (p ∈ dom candidates) then Some (pending_of (finished ++ [id]) (children_ids p)) else None).
  { intros p. rewrite Hrem', Hrem. destruct (decide _); [|done]. cbn. rewrite Hocc. f_equal. lia. }
  destruct (kahn_pop _ _ children (Integrity "patch-set digest resolution lost a tracked child -- internal inconsistency") _ _ _ _ Hedges Hk) as (remp & added & Hr & Hk').
  unfold resolve_step. rewrite Hb. cbn [ok_or]. rewrite Hg. cbv beta iota zeta. rewrite union_empty_l_L, <- (Hclosure id block Hb).
  rewrite closure_matches_ok by (by apply Hsmall). cbv beta iota. rewrite Hr. eexists. split; [done|]. split; cbn [rp_queue rp_remaining_parents rp_remaining_children rp_live_closures rp_matches].
  - done.
  - done.
  - intros p Hp Hpos. replace (default 0%nat (rem' !! id)) with (pending_of (finished ++ [id]) (children_ids id)) by (by rewrite Hrem2, decide_True by done).
    assert (HpV : p ∈ dom candidates) by (apply elem_of_app in Hp as [Hp|Hp]; [apply Hsub; rewrite elem_of_app; by left|by apply list_elem_of_singleton in Hp as ->]).
    apply elem_of_app in Hp as [Hp|Hp%list_elem_of_singleton].
    + assert (Hl : live' !! p = Some (closure p)) by (rewrite (Hlive' p (pending_of (finished ++ [id]) (children_ids p))), Hlive; [done|done|rewrite Hocc; lia|by rewrite Hrem2, decide_True by done|done]).
      destruct (_ <? _)%nat; [|done]. rewrite lookup_insert_ne by (by intros ->). done.
    + subst p. rewrite (proj2 (Nat.ltb_lt _ _) Hpos). by rewrite lookup_insert_eq.
  - rewrite filter_app, <- Hmat. cbn [filter list_filter]. by destruct (matches_set (closure id)); cbn; rewrite ?app_nil_r.
Qed.

Lemma resolve_loop_ok : forall fuel finished s, passed finished s -> (size (dom candidates) <= fuel + length finished)%nat ->
  exists order s', resolve_loop candidates children digest patch_count fuel s = Ok s' /\ passed order s' /\ rp_queue s' = [].
Proof.
  induction fuel as [|fuel IH]; intros finished s Hp Hf; cbn [resolve_loop]; (destruct (rp_queue s) as [|id queue] eqn:Hq; [by eauto|]).
  - pose proof (passed_queue _ _ Hp) as Hk. rewrite Hq in Hk. apply kahn_room in Hk. lia.
  - destruct (resolve_step_ok _ _ _ _ Hq Hp) as (s' & -> & Hp'). apply (IH (finished ++ [id])); [done|]. rewrite length_app. cbn. lia.
Qed.
End pass.

Lemma children_of_edges candidates : forward_edges (dom candidates) (parents_among candidates) (children_of candidates).
Proof.
  intros p c. unfold children_of. assert (Hgen : forall (l : list (ObjectId * BlockPayload)) (ch : gmap ObjectId (list ObjectId)), NoDup l.*1 ->
    occurrences c (default [] (fold_left (fun children '(block_id, block) =>
      fold_left (fun children parent_id => <[parent_id := default [] (children !! parent_id) ++ [block_id]]> children) (parent_block_ids block) children) l ch !! p))
    = (occurrences c (default [] (ch !! p)) + match (list_to_map l : gmap ObjectId BlockPayload) !! c with Some block => occurrences p (parent_block_ids block) | None => 0 end)%nat).
  { induction l as [|[id block] l IH]; intros ch Hnd; cbn [fold_left]; [rewrite list_to_map_nil, lookup_empty; lia|].
    rewrite fmap_cons in Hnd. apply NoDup_cons in Hnd as [Hid Hnd]. rewrite IH, add_edges_ok, list_to_map_cons by done.
    destruct (decide (c = id)) as [->|Hne]; [|rewrite lookup_insert_ne by done; lia].
    rewrite lookup_insert_eq. replace (list_to_map l !! id : option BlockPayload) with (@None BlockPayload); [lia|]. symmetry. by apply not_elem_of_list_to_map. }
  rewrite Hgen by apply NoDup_btree_keys. rewrite lookup_empty, list_to_map_btree_iter. cbn [from_option]. change (occurrences c []) with 0%nat. unfold parents_among.
  destruct (candidates !! c) as [block|] eqn:Hc; [rewrite decide_True by (apply elem_of_dom; by eexists); done|by rewrite decide_False by (by apply not_elem_of_dom)].
Qed.

(** The pass over candidates that contain the parents of each of theirs and whose closures are given. *)
Lemma resolve_among_ok `{Sha256} candidates digest patch_count closure :
  (forall id p, id ∈ dom candidates -> p ∈ parents_among candidates id -> p ∈ dom candidates) ->
  (forall id block, candidates !! id = Some block -> closure id = ⋃ (closure <$> parent_block_ids block) ∪ list_to_set (patch_ids block)) ->
  (forall id, id ∈ dom candidates -> Z.of_nat (size (closure id)) < 2 ^ 64) ->
  acyclic (dom candidates) (parents_among candidates) ->
  exists order, order ≡ₚ elements (dom candidates) /\
    resolve_among candidates digest patch_count = Ok (filter (fun id => matches_set digest patch_count (closure id)) order).
Proof.
  intros Hcl Hclo Hsmall Hac. pose proof (children_of_edges candidates) as He. unfold resolve_among.
  set (remp := (fun block => length (parent_block_ids block)) <$> candidates).
  set (remc := map_imap _ candidates).
  destruct (resolve_loop_ok candidates digest patch_count closure Hcl Hclo Hsmall (children_of candidates) He (size candidates) []
    (mkResolvePass (ready_of remp) remp remc ∅ [])) as (order & s & -> & Hp & Hq).
  - split; cbn [rp_queue rp_remaining_parents rp_remaining_children rp_live_closures rp_matches]; [apply kahn_init| |by intros p ?%elem_of_nil|done].
    + intros x. unfold remp. rewrite lookup_fmap. unfold parents_among. destruct (candidates !! x) eqn:Hx; cbn.
      * by rewrite decide_True by (apply elem_of_dom; by eexists).
      * by rewrite decide_False by (by apply not_elem_of_dom).
    + intros p. unfold remc. rewrite map_lookup_imap, pending_nil. destruct (candidates !! p) eqn:Hx; cbn.
      * by rewrite decide_True by (apply elem_of_dom; by eexists).
      * by rewrite decide_False by (by apply not_elem_of_dom).
  - rewrite size_dom. cbn. lia.
  - exists order. rewrite (passed_matches _ _ _ _ _ _ _ Hp). split; [|done]. pose proof (passed_queue _ _ _ _ _ _ _ Hp) as Hk. rewrite Hq in Hk. by eapply kahn_end.
Qed.

(** ** The resolution *)

Section resolution.
Context `{Sha256} (R : ObjectReader) (fuel : nat).

(** The patches that a walk of one block's own ancestry finds. *)
Definition reach (id : ObjectId) : gset ObjectId := match ancestors_inclusive R fuel id with Ok A => patch_ids_of A | Err _ => ∅ end.

(** The walk of the candidate's own ancestry names this patch set: what the single pass replaces. *)
Definition names_patch_set (digest : PatchSetDigest) (patch_count : Z) (id : ObjectId) : bool :=
  match compute_patch_set_digest_and_count_from_block R fuel id with
  | Ok (digest', count') => bool_decide (digest' = digest) && (count' =? patch_count)
  | Err _ => false
  end.

(** Candidates as walks collect them. *)
Definition walked (candidates : gmap ObjectId BlockPayload) : Prop := forall id block, candidates !! id = Some block ->
  evidence_read_block R id = Ok block /\ (forall p, p ∈ parent_block_ids block -> p ∈ dom candidates) /\ exists A, ancestors_inclusive R fuel id = Ok A.

Lemma walked_union tip A candidates : ancestors_inclusive R fuel tip = Ok A -> walked candidates -> walked (A ∪ candidates).
Proof.
  intros Ha Hw id block Hb. rewrite dom_union_L. apply lookup_union_Some_raw in Hb as [Hb|[_ Hb]].
  - destruct (ancestors_closed _ _ _ _ _ _ Ha Hb) as [[Hr _] Hp]. split_and!; [done|intros p Hi; apply elem_of_union; left; by apply Hp|].
    eapply ancestors_of_ancestor; [done|]. apply elem_of_dom. by eexists.
  - destruct (Hw id block Hb) as (Hr & Hp & HA). split_and!; [done|intros p Hi; apply elem_of_union; right; by apply Hp|done].
Qed.

Lemma resolution_candidates_walked d candidates : resolution_candidates R fuel d = Ok candidates -> walked candidates.
Proof.
  unfold resolution_candidates. destruct (list_ref_pointers d) as [pointers|]; [|done].
  assert (H0 : walked ∅) by (intros id block Hb; by rewrite lookup_empty in Hb). revert H0. generalize (∅ : gmap ObjectId BlockPayload) as c.
  induction pointers as [|q pointers IH]; intros c Hw Hf; cbn [foldM] in Hf; [by apply Ok_inj in Hf as <-|].
  destruct (resolve_ref_to_tip_block R (ps_ref_name q) d) as [tip|]; [|done]. destruct (ancestors_inclusive R fuel tip) as [A|] eqn:Ha; [|done].
  eapply IH; [|exact Hf]. by eapply walked_union.
Qed.

Lemma elem_of_reach id A x : ancestors_inclusive R fuel id = Ok A ->
  x ∈ reach id <-> exists a block, rtc (parent_of R) id a /\ evidence_read_block R a = Ok block /\ x ∈ patch_ids block.
Proof.
  intros Ha. unfold reach. rewrite Ha, elem_of_patch_ids_of. split.
  - intros (a & block & Hb & Hx). apply (ancestors_exact _ _ _ _ Ha) in Hb as [Hr Hb]. eauto 6.
  - intros (a & block & Hr & Hb & Hx). exists a, block. split; [|done]. by apply (ancestors_exact _ _ _ _ Ha).
Qed.

Lemma reach_unfold candidates id block : walked candidates -> candidates !! id = Some block ->
  reach id = ⋃ (reach <$> parent_block_ids block) ∪ list_to_set (patch_ids block).
Proof.
  intros Hw Hb. destruct (Hw id block Hb) as (Hread & Hp & A & HA). apply set_eq. intros x.
  rewrite (elem_of_reach id A x HA), elem_of_union, elem_of_list_to_set, elem_of_union_list. split.
  - intros (a & blk & Hrtc & Ha & Hx). inversion Hrtc as [|? p ? (b' & Hb' & Hin) Hrest]; subst; [right; congruence|].
    left. exists (reach p). assert (Hpar : p ∈ parent_block_ids block) by congruence. split; [by apply list_elem_of_fmap_2|].
    pose proof (Hp p Hpar) as [bp Hbp]%elem_of_dom. destruct (Hw p bp Hbp) as (_ & _ & A' & HA'). apply (elem_of_reach p A' x HA'). eauto 6.
  - intros [(set & Hset & Hx)|Hx]; [|exists id, block; split_and!; [reflexivity|done..]].
    apply list_elem_of_fmap in Hset as (p & -> & Hpar). pose proof (Hp p Hpar) as [bp Hbp]%elem_of_dom. destruct (Hw p bp Hbp) as (_ & _ & A' & HA').
    apply (elem_of_reach p A' x HA') in Hx as (a & blk & Hrtc & Ha & Hx). exists a, blk. split_and!; [|done..]. apply (rtc_l _ _ p); [by exists block|done].
Qed.

Lemma reach_within candidates id : walked candidates -> id ∈ dom candidates -> reach id ⊆ patch_ids_of candidates.
Proof.
  intros Hw Hid x. pose proof Hid as [block Hb]%elem_of_dom. destruct (Hw id block Hb) as (_ & _ & A & HA). rewrite (elem_of_reach id A x HA), elem_of_patch_ids_of.
  intros (a & blk & Hrtc & Ha & Hx). exists a, blk. split; [|done]. clear block Hb A HA. revert Hid.
  induction Hrtc as [|y p a (b & Hb & Hin) _ IH]; intros Hid; apply elem_of_dom in Hid as [b' Hb']; destruct (Hw _ _ Hb') as (Hr & Hp & _); [congruence|].
  apply IH; [done|]. apply Hp. congruence.
Qed.

Lemma names_patch_set_reach candidates digest patch_count id : walked candidates -> id ∈ dom candidates -> Z.of_nat (size (reach id)) < 2 ^ 64 ->
  names_patch_set digest patch_count id = matches_set digest patch_count (reach id).
Proof.
  intros Hw [block Hb]%elem_of_dom Hs. destruct (Hw id block Hb) as (_ & _ & A & HA). unfold names_patch_set, compute_patch_set_digest_and_count_from_block, patch_ids_reachable_from_block.
  rewrite HA. assert (He : patch_ids_of A = reach id) by (unfold reach; by rewrite HA). rewrite He. unfold len_to_u64, zlen. rewrite length_set_iter, (proj2 (Z.ltb_lt _ _) Hs), compute_of_set by done.
  unfold matches_set. by rewrite andb_comm.
Qed.

(** C3: resolving a patch-set digest.  The single pass over the blocks that local refs reach, which moves or
    clones the closures of parents and hashes only closures of the right size, answers exactly as the search
    that walks the ancestry of every block of its own and compares digest and count: no block, the one block,
    or the refusal when there are several.  None of its internal errors can fire. *)
Theorem resolve_patch_set_digest_exact d candidates digest patch_count :
  resolution_candidates R fuel d = Ok candidates -> acyclic (dom candidates) (parents_among candidates) ->
  Z.of_nat (size (patch_ids_of candidates)) < 2 ^ 64 ->
  resolve_patch_set_digest R fuel digest patch_count d =
  match filter (fun id => names_patch_set digest patch_count id) (set_iter (dom candidates)) with
  | [] => Ok NotHeld
  | [block_id] => Ok (Resolved block_id)
  | _ => Err (Integrity "patch-set digest resolves to {} distinct local blocks, refusing to pick: {names}")
  end.
Proof.
  intros Hc Hac Hs. pose proof (resolution_candidates_walked _ _ Hc) as Hw. unfold resolve_patch_set_digest. rewrite Hc.
  assert (Hsmall : forall id, id ∈ dom candidates -> Z.of_nat (size (reach id)) < 2 ^ 64) by (intros id Hid; pose proof (subseteq_size _ _ (reach_within _ _ Hw Hid)); lia).
  destruct (resolve_among_ok candidates digest patch_count reach) as (order & Hp & Hr); [|by intros; eapply reach_unfold|done|done|].
  { intros id p Hid Hin. unfold parents_among in Hin. destruct (candidates !! id) as [b|] eqn:Hb; [|by apply elem_of_nil in Hin]. destruct (Hw id b Hb) as (_ & Hcl & _). by apply Hcl. }
  rewrite Hr. rewrite (filter_pointwise (fun id => matches_set digest patch_count (reach id)) (fun id => names_patch_set digest patch_count id)).
  - assert (Hpp : filter (fun id => names_patch_set digest patch_count id) order ≡ₚ filter (fun id => names_patch_set digest patch_count id) (set_iter (dom candidates))) by (by rewrite Hp, set_iter_perm).
    by apply none_one_many.
  - intros id Hid. rewrite Hp, elem_of_elements in Hid. by rewrite (names_patch_set_reach candidates) by auto.
Qed.
End resolution.

(** ** A merge *)

Section demo.
#[local] Existing Instance hash_mod_p.

Lemma acyclic_check (rank : ObjectId -> nat) V parents :
  forallb (fun id => forallb (fun p => (rank p <? rank id)%nat) (parents id)) (elements V) = true -> acyclic V parents.
Proof.
  intros Hc. exists rank. intros id p Hid Hp _. rewrite forallb_forall in Hc. apply elem_of_elements, list_elem_of_In in Hid. specialize (Hc _ Hid).
  rewrite forallb_forall in Hc. apply list_elem_of_In in Hp. by apply Nat.ltb_lt, Hc.
Qed.

(** Two blocks over one root, and their merge at the tip of the branch. *)
Definition diamond_blocks : gmap ObjectId BlockPayload := list_to_map [
  (history_id x21, mkBlock [] KindRoot [history_id x11] (replicate 32 x00) None None None);
  (history_id x22, mkBlock [history_id x21] KindNormal [history_id x12] (replicate 32 x00) None None None);
  (history_id x23, mkBlock [history_id x21] KindNormal [history_id x13] (replicate 32 x00) None None None);
  (demo_target, mkBlock [history_id x22; history_id x23] KindMerge [history_id x14] (replicate 32 x00) None (Some (history_id x22)) (Some (history_id x21)))].

Definition diamond : gmap ObjectId ObjectEnvelope :=
  <[object_id (pub_ref_state first_publication) := pub_ref_state first_publication]> ((fun block => mkEnvelope Block 1 (canonical block) []) <$> diamond_blocks).

Definition diamond_rank (id : ObjectId) : nat := if bool_decide (id = history_id x21) then 0 else if bool_decide (id = demo_target) then 2 else 1.

Definition diamond_candidates : gmap ObjectId BlockPayload :=
  match resolution_candidates (memory_reader diamond) 9 one_published with Ok candidates => candidates | Err _ => ∅ end.

Definition diamond_new : gset ObjectId := {[history_id x22; history_id x23; demo_target]}.

Lemma topological_order_exact_witness :
  (exists order, topological_order diamond_new diamond_blocks = Ok order /\ parents_first (parents_in diamond_new diamond_blocks) order) /\
  topological_order diamond_new diamond_blocks = Ok [history_id x22; history_id x23; demo_target].
Proof.
  split; [|vm_compute; reflexivity]. destruct (topological_order_exact diamond_new diamond_blocks) as [Hok _].
  - intros id Hid. assert (Hin : id ∈ [history_id x22; history_id x23; demo_target]) by (unfold diamond_new in Hid; set_solver).
    clear Hid. revert id Hin. apply Forall_forall. do 3 (constructor; [eexists; vm_compute; reflexivity|]). constructor.
  - destruct Hok as (order & Ho & _ & Hp); [|exists order; split; [exact Ho|exact Hp]]. apply (acyclic_check diamond_rank). vm_compute. reflexivity.
Defined.

(** The patch sets of the left block and of the merge are found; the root's set under a wrong count is not. *)
Definition diamond_digest (patches : list ObjectId) : PatchSetDigest := match compute_patch_set_digest patches with Ok digest => digest | Err _ => [] end.

Lemma resolve_patch_set_digest_exact_witness :
  resolve_patch_set_digest (memory_reader diamond) 9 (diamond_digest [history_id x11; history_id x12]) 2 one_published = Ok (Resolved (history_id x22)) /\
  resolve_patch_set_digest (memory_reader diamond) 9 (diamond_digest [history_id x11; history_id x12; history_id x13; history_id x14]) 4 one_published = Ok (Resolved demo_target) /\
  resolve_patch_set_digest (memory_reader diamond) 9 (diamond_digest [history_id x11]) 2 one_published = Ok NotHeld.
Proof.
  assert (Hc : resolution_candidates (memory_reader diamond) 9 one_published = Ok diamond_candidates).
  { assert (Hok : is_ok (resolution_candidates (memory_reader diamond) 9 one_published) = true) by (vm_compute; reflexivity).
    unfold diamond_candidates. by destruct (resolution_candidates _ _ _). }
  assert (Ha : acyclic (dom diamond_candidates) (parents_among diamond_candidates)) by (apply (acyclic_check diamond_rank); vm_compute; reflexivity).
  assert (Hs : Z.of_nat (size (patch_ids_of diamond_candidates)) < 2 ^ 64) by (vm_compute; reflexivity).
  pose proof (fun digest count => resolve_patch_set_digest_exact (memory_reader diamond) 9 one_published diamond_candidates digest count Hc Ha Hs) as Hr.
  rewrite !Hr. split_and!; vm_compute; reflexivity.
Defined.
End demo.
