(* ===== verification/SyncThms.v ===== *)
(** * Sync negotiation (sync_negotiation.rs, have_list.rs, summary.rs)

    The have-list decodes to exactly what its bytes encode and only when it is consistent with its own digest;
    the delta that answers it is what the sender has and the receiver lacks; and two repositories that compare
    summaries report a branch in sync exactly when both reach the same patches. *)

From S2P Require Import Prelude PrikkError Utf8 Hash Canonical ByteCursor ObjectId Signature Envelope FileCodec Block TagPayload ObjectStore.
From S2P Require Import FileSystem RefLog RefStore BlockState AnchorState AnchoredThms RefStoreThms CompactThms FoldThms LineageThms PatchSet PatchSetThms.

(** ** Bytes *)

Lemma reads_array_32 v : length v = 32%nat -> reads (bc_read_array 32) v v.
Proof. intros Hl. unfold bc_read_array. replace 32 with (zlen v) by (unfold zlen; lia). apply reads_exact. Qed.

Lemma consumes_array n : 0 <= n -> consumes (bc_read_array n) (fun v => v) (fun v => zlen v = n).
Proof. apply consumes_exact. Qed.

Lemma preimage_inj l1 l2 p : ids_32 l1 -> ids_32 l2 -> patch_set_digest_preimage l1 = Ok p -> patch_set_digest_preimage l2 = Ok p -> l1 = l2.
Proof.
  intros H1 H2. unfold patch_set_digest_preimage. destruct (is_strictly_sorted _ l1); [|done]. destruct (is_strictly_sorted _ l2); [|done]. cbn [negb].
  destruct (Z.leb_spec (2 ^ 64) (zlen l1)) as [|Hn1]; [done|]. destruct (Z.leb_spec (2 ^ 64) (zlen l2)) as [|Hn2]; [done|].
  intros E1 E2. apply Ok_inj in E1 as <-. apply Ok_inj in E2. apply app_inv_head in E2.
  apply app_inj_len in E2 as [Hc He]; [|by rewrite !length_to_be_bytes]. apply (f_equal from_be_bytes) in Hc.
  pose proof (zlen_nonneg l1). pose proof (zlen_nonneg l2). rewrite !from_to_be_bytes_small in Hc by (cbn; lia).
  rewrite <- (chunks_concat l1 H1), <- (chunks_concat l2 H2), He. f_equal. unfold zlen in Hc. lia.
Qed.

Lemma ascending_filter (P : ObjectId -> Prop) `{forall x, Decision (P x)} l : ascending bytes_cmp l -> ascending bytes_cmp (filter P l).
Proof.
  induction l as [|x l IH]; [done|]. intros [Hx Hl]. rewrite filter_cons. destruct (decide (P x)); [|by apply IH]. split; [|by apply IH].
  apply Forall_forall. intros y [_ Hy]%list_elem_of_filter. rewrite Forall_forall in Hx. by apply Hx.
Qed.

(** The preimages of two patch sets are distinct and have one digest. *)
Definition patch_sets_collide `{Sha256} (l1 l2 : list ObjectId) : Prop :=
  exists p1 p2, patch_set_digest_preimage l1 = Ok p1 /\ patch_set_digest_preimage l2 = Ok p2 /\ sha256_collision p1 p2.

(** Equal digests are digests of the same patches, or these two sets collide. *)
Lemma digest_inj `{Sha256} l1 l2 digest : ids_32 l1 -> ids_32 l2 ->
  compute_patch_set_digest l1 = Ok digest -> compute_patch_set_digest l2 = Ok digest -> l1 = l2 \/ patch_sets_collide l1 l2.
Proof.
  intros H1 H2. unfold compute_patch_set_digest. destruct (patch_set_digest_preimage l1) as [p1|] eqn:E1; [|done]. destruct (patch_set_digest_preimage l2) as [p2|] eqn:E2; [|done].
  intros D1 D2. apply Ok_inj in D1. apply Ok_inj in D2. destruct (decide (p1 = p2)) as [->|Hne]; [left; by eapply preimage_inj|]. right. exists p1, p2. split_and!; [done|done|]. split; congruence.
Qed.

(** ** The have-list *)

Definition enc_string (name : list byte) : list byte := to_be_bytes 2 (zlen name) ++ name.

Definition enc_have_list (hl : HaveList) : list byte :=
  HAVE_LIST_MAGIC ++ enc_string (hl_ref_name hl) ++ hl_digest hl ++ to_be_bytes 8 (zlen (hl_patch_ids hl)) ++ concat (hl_patch_ids hl).

Section have_list.
Context `{Sha256}.

(** A list that is consistent with its own digest. *)
Definition have_list_ok (hl : HaveList) : Prop :=
  (zlen (hl_ref_name hl) < 2 ^ 16 /\ rust_string (hl_ref_name hl)) /\ ids_32 (hl_patch_ids hl) /\ compute_patch_set_digest (hl_patch_ids hl) = Ok (hl_digest hl).

Lemma digest_32 ids digest : compute_patch_set_digest ids = Ok digest -> length digest = 32%nat.
Proof. unfold compute_patch_set_digest. destruct (patch_set_digest_preimage ids); [|done]. intros He. apply Ok_inj in He as <-. apply sha256_length. Qed.

Lemma concat_map_self (ids : list ObjectId) : concat (map (fun v => v) ids) = concat ids.
Proof. by rewrite map_id. Qed.

(** C11: a have-list decodes to [hl] exactly when the bytes are the encoding of [hl], within the limits the
    caller sets, and [hl] is consistent: a valid name, 32-byte ids, strictly sorted, whose digest is the
    declared one.  A truncated, reordered or padded list, or one under another digest, never decodes. *)
Theorem have_list_exact bytes max_total_bytes max_patch_count hl : zlen bytes < 2 ^ 64 -> 0 <= max_patch_count < 2 ^ 64 ->
  decode_have_list bytes max_total_bytes max_patch_count = Ok hl <->
  zlen bytes <= max_total_bytes /\ bytes = enc_have_list hl /\ have_list_ok hl /\ zlen (hl_patch_ids hl) <= max_patch_count.
Proof.
  intros Hb Hm. unfold decode_have_list, len_to_u64. rewrite (proj2 (Z.ltb_lt max_patch_count (2 ^ 64))) by lia. split.
  - destruct (Z.ltb_spec max_total_bytes (zlen bytes)); [done|]. intros Hd. pose proof (standing_new _ Hb) as Hs.
    destruct (bc_read_array 8 (ByteCursor_new bytes)) as [[magic c0]|] eqn:Er0; [|done].
    destruct (consumes_array 8 ltac:(lia) _ _ _ _ Hs Er0) as (r0 & He0 & Hs0 & _). case_bool_decide as Hmag; [|done]. cbn [negb] in Hd. subst magic.
    destruct (bc_read_string_u16 c0) as [[name c1]|] eqn:Er1; [|done]. destruct (consumes_string_u16 _ _ _ _ Hs0 Er1) as (r1 & He1 & Hs1 & Hname).
    destruct (bc_read_array 32 c1) as [[digest c2]|] eqn:Er2; [|done]. destruct (consumes_array 32 ltac:(lia) _ _ _ _ Hs1 Er2) as (r2 & He2 & Hs2 & Hdig).
    destruct (bc_read_u64 c2) as [[count c3]|] eqn:Er3; [|done]. destruct (consumes_u64 _ _ _ _ Hs2 Er3) as (r3 & He3 & Hs3 & Hcount).
    destruct (Z.ltb_spec max_patch_count count); [done|]. destruct (bc_read_n (bc_read_array 32) (Z.to_nat count) c3) as [[ids c4]|] eqn:Er4; [|done].
    destruct (consumes_n _ _ _ _ (consumes_array 32 ltac:(lia)) _ _ _ _ Hs3 Er4) as (r4 & He4 & Hs4 & Hlen & Hids).
    rewrite (standing_finished _ _ Hs4) in Hd. case_bool_decide as Hend; [|done]. cbn [negb] in Hd. subst r4.
    destruct (compute_patch_set_digest ids) as [recomputed|] eqn:Hc; [|done]. case_bool_decide as Hdd; [|done]. cbn [negb] in Hd. apply Ok_inj in Hd as <-. subst recomputed.
    unfold u64 in Hcount. assert (Hz : zlen ids = count) by (unfold zlen; lia).
    split_and!; [done| | |cbn; lia].
    + unfold enc_have_list, enc_string. cbn [hl_ref_name hl_digest hl_patch_ids]. rewrite He0, He1, He2, He3, He4, concat_map_self, app_nil_r, Hz. by rewrite <- !app_assoc.
    + split_and!; [apply Hname..| |done]. cbn. eapply Forall_impl; [exact Hids|]. cbn. unfold zlen. lia.
  - intros (Hle & -> & (Hname & Hids & Hc) & Hn). destruct (Z.ltb_spec max_total_bytes (zlen (enc_have_list hl))); [lia|].
    destruct hl as [name digest ids]. cbn [hl_ref_name hl_digest hl_patch_ids] in *. pose proof (standing_new _ Hb) as Hs. unfold enc_have_list in Hs at 2. cbn [hl_ref_name hl_digest hl_patch_ids] in Hs.
    destruct (reads_exact HAVE_LIST_MAGIC _ _ Hs) as (c0 & Er0 & Hs0). change (bc_read_array 8) with (bc_read_exact (zlen HAVE_LIST_MAGIC)). rewrite Er0.
    rewrite bool_decide_true by done. cbn [negb]. destruct (reads_string_u16 name (proj1 Hname) (proj2 Hname) _ _ Hs0) as (c1 & -> & Hs1).
    destruct (reads_array_32 digest (digest_32 _ _ Hc) _ _ Hs1) as (c2 & -> & Hs2). pose proof (zlen_nonneg ids).
    destruct (reads_u64 (zlen ids) ltac:(unfold u64; lia) _ _ Hs2) as (c3 & -> & Hs3). destruct (Z.ltb_spec max_patch_count (zlen ids)); [lia|].
    rewrite <- (concat_map_self ids), <- (app_nil_r (concat _)) in Hs3. unfold zlen at 1. rewrite Nat2Z.id.
    destruct (reads_n (bc_read_array 32) (fun v => v) ids) with (c := c3) (rest := @nil byte) as (c4 & -> & Hs4); [|done|].
    { eapply Forall_impl; [exact Hids|]. intros v Hv. by apply reads_array_32. }
    rewrite (standing_finished _ _ Hs4), bool_decide_true by done. cbn [negb]. rewrite Hc. by rewrite bool_decide_true.
Qed.

(** ** What a branch reaches *)

(** The list is the set of the patches in the order of their ids. *)
Lemma reachable_ids R fuel tip ids : patch_ids_reachable_from_block R fuel tip = Ok ids -> exists set, ids = set_iter set /\ set_32 set.
Proof.
  unfold patch_ids_reachable_from_block. destruct (ancestors_inclusive R fuel tip) as [A|] eqn:Ha; [|done]. intros He. apply Ok_inj in He as <-. eexists. split; [done|].
  intros x. rewrite elem_of_patch_ids_of. intros (id & block & Hb & Hx). apply (ancestors_exact _ _ _ _ Ha) in Hb as [_ Hb]. unfold evidence_read_block in Hb.
  destruct (@read_typed R id Block) as [found|]; [|done]. destruct found as [envelope|]; [|done]. cbn [ok_or] in Hb. apply Block_decode_wf in Hb as (_ & Hw & _).
  rewrite Forall_forall in Hw. by apply Hw.
Qed.

Lemma reachable_32 R fuel tip ids : patch_ids_reachable_from_block R fuel tip = Ok ids -> ids_32 ids.
Proof. intros Hr. destruct (reachable_ids _ _ _ _ Hr) as (set & -> & Hs). by apply set_iter_32. Qed.

Lemma branch_ids R fuel name d ids : branch_patch_ids R fuel name d = Ok ids -> exists set, ids = set_iter set /\ set_32 set.
Proof.
  unfold branch_patch_ids. destruct (resolve_branch_ref_tip R name d) as [[tip|]|]; [apply reachable_ids| |done].
  intros He. apply Ok_inj in He as <-. exists ∅. split; [done|]. by intros x ?%elem_of_empty.
Qed.

Lemma validated_branch name canonical : validate_local_branch_ref name = Ok canonical -> canonical = name.
Proof.
  unfold validate_local_branch_ref, validate_ref_components. repeat (case_match; [done|]). repeat (case_match; try done). intros He. by apply Ok_inj in He.
Qed.

Lemma built_have_list R fuel name d bytes : build_have_list R fuel name d = Ok bytes ->
  exists ids digest, validate_local_branch_ref name = Ok name /\ branch_patch_ids R fuel name d = Ok ids /\ compute_patch_set_digest ids = Ok digest /\
    bytes = enc_have_list (mkHaveList name digest ids) /\ zlen name < 2 ^ 16 /\ zlen ids < 2 ^ 64.
Proof.
  unfold build_have_list. destruct (validate_local_branch_ref name) as [canonical|] eqn:Hv; [|done]. pose proof (validated_branch _ _ Hv) as ->.
  destruct (branch_patch_ids R fuel name d) as [ids|]; [|done]. destruct (compute_patch_set_digest ids) as [digest|] eqn:Hd; [|done].
  unfold push_string_u16, len_to_u16, len_to_u64. destruct (Z.ltb_spec (zlen name) (2 ^ 16)); [|done]. destruct (Z.ltb_spec (zlen ids) (2 ^ 64)); [|done].
  intros He. apply Ok_inj in He as <-. exists ids, digest. split_and!; try done. unfold enc_have_list, enc_string, push_u16, push_u64. cbn [hl_ref_name hl_digest hl_patch_ids]. by rewrite <- !app_assoc.
Qed.

(** C5: one round of the negotiation.  The have-list a receiver builds for a branch decodes at the sender,
    within the sender's limits, to the receiver's own patches; the delta the sender computes from it is, in
    the order of ids, exactly what the sender's branch reaches and the receiver's does not: with it the
    receiver has every patch of the sender, and it is empty exactly when the receiver had them all. *)
Theorem negotiation_exact R_receiver R_sender fuel name d_receiver d_sender bytes held sent :
  build_have_list R_receiver fuel name d_receiver = Ok bytes -> rust_string name -> zlen bytes <= DEFAULT_HAVE_LIST_MAX_TOTAL_BYTES ->
  branch_patch_ids R_receiver fuel name d_receiver = Ok held -> zlen held <= DEFAULT_HAVE_LIST_MAX_PATCH_COUNT ->
  branch_patch_ids R_sender fuel name d_sender = Ok sent ->
  exists have_list delta,
    decode_have_list bytes DEFAULT_HAVE_LIST_MAX_TOTAL_BYTES DEFAULT_HAVE_LIST_MAX_PATCH_COUNT = Ok have_list /\ hl_patch_ids have_list = held /\
    compute_sync_delta R_sender fuel have_list d_sender = Ok delta /\ is_strictly_sorted bytes_ltb delta = true /\
    (forall x, x ∈ delta <-> x ∈ sent /\ x ∉ held) /\ (delta = [] <-> sent ⊆ held).
Proof.
  intros Hb Hu Hl Hheld Hn Hsent. destruct (built_have_list _ _ _ _ _ Hb) as (ids & digest & Hv & Hi & Hd & -> & Hz & _).
  assert (ids = held) as -> by congruence. destruct (branch_ids _ _ _ _ _ Hheld) as (held_set & Hhs & H32).
  assert (Hdel : forall x, x ∈ filter (fun x => x ∉ (list_to_set held : gset ObjectId)) sent <-> x ∈ sent /\ x ∉ held) by (intros x; rewrite list_elem_of_filter, elem_of_list_to_set; tauto).
  exists (mkHaveList name digest held), (filter (fun x => x ∉ (list_to_set held : gset ObjectId)) sent). split_and!.
  - apply have_list_exact; [unfold DEFAULT_HAVE_LIST_MAX_TOTAL_BYTES in Hl; lia|unfold DEFAULT_HAVE_LIST_MAX_PATCH_COUNT; lia|]. split_and!; [done|done| |done].
    split_and!; [done|done| |done]. cbn. rewrite Hhs. by apply set_iter_32.
  - done.
  - unfold compute_sync_delta. cbn [hl_ref_name hl_patch_ids]. by rewrite Hv, Hsent.
  - destruct (branch_ids _ _ _ _ _ Hsent) as (sent_set & -> & _). apply ascending_strict, ascending_filter, ascending_strict, set_iter_strict.
  - exact Hdel.
  - split; [intros He x Hx|intros Hsub]. 
    + destruct (decide (x ∈ held)) as [|Hnx]; [done|]. assert (Hin : x ∈ @nil ObjectId) by (rewrite <- He; by apply Hdel). by apply elem_of_nil in Hin.
    + destruct (filter _ sent) as [|x l]; [done|]. destruct (proj1 (Hdel x) ltac:(left)) as [Hx Hnx]. by destruct (Hnx (Hsub _ Hx)).
Qed.
End have_list.

(** ** The summary *)

Definition enc_entry (e : SyncSummaryRefEntry) : list byte := enc_string (se_ref_name e) ++ se_digest e ++ to_be_bytes 8 (se_patch_count e).
Definition entry_shape (e : SyncSummaryRefEntry) : Prop := zlen (se_ref_name e) < 2 ^ 16 /\ zlen (se_digest e) = 32 /\ u64 (se_patch_count e).

Lemma consumes_entry : consumes read_summary_entry enc_entry entry_shape.
Proof.
  intros c rest e c' Hs Hr. unfold read_summary_entry in Hr.
  destruct (bc_read_string_u16 c) as [[name c1]|] eqn:E1; [|done]. destruct (consumes_string_u16 _ _ _ _ Hs E1) as (r1 & -> & Hs1 & Hname & _).
  destruct (bc_read_array 32 c1) as [[digest c2]|] eqn:E2; [|done]. destruct (consumes_array 32 ltac:(lia) _ _ _ _ Hs1 E2) as (r2 & -> & Hs2 & Hdig).
  destruct (bc_read_u64 c2) as [[count c3]|] eqn:E3; [|done]. destruct (consumes_u64 _ _ _ _ Hs2 E3) as (r3 & -> & Hs3 & Hcount).
  apply Ok_inj in Hr. apply pair_equal_spec in Hr as [<- <-]. exists r3. split; [|done]. unfold enc_entry, enc_string. cbn. by rewrite <- !app_assoc.
Qed.

Lemma enc_entry_inj e1 e2 r1 r2 : entry_shape e1 -> entry_shape e2 -> enc_entry e1 ++ r1 = enc_entry e2 ++ r2 -> e1 = e2 /\ r1 = r2.
Proof.
  intros (Hn1 & Hd1 & Hc1) (Hn2 & Hd2 & Hc2) He. unfold enc_entry, enc_string in He. rewrite <- !app_assoc in He.
  apply app_inj_len in He as [Hl He]; [|by rewrite !length_to_be_bytes]. pose proof (zlen_nonneg (se_ref_name e1)). pose proof (zlen_nonneg (se_ref_name e2)).
  apply (to_be_bytes_inj 2) in Hl; [|cbn; lia..]. apply app_inj_len in He as [Hname He]; [|unfold zlen in Hl; lia].
  apply app_inj_len in He as [Hdig He]; [|unfold zlen in Hd1, Hd2; lia]. apply app_inj_len in He as [Hcount He]; [|by rewrite !length_to_be_bytes].
  apply (to_be_bytes_inj 8) in Hcount; [|unfold u64 in *; cbn; lia..]. split; [|done]. destruct e1, e2. cbn in *. congruence.
Qed.

Lemma enc_entries_inj l1 : forall l2, length l1 = length l2 -> Forall entry_shape l1 -> Forall entry_shape l2 -> concat (map enc_entry l1) = concat (map enc_entry l2) -> l1 = l2.
Proof.
  induction l1 as [|e1 l1 IH]; intros [|e2 l2] Hl F1 F2 He; cbn in Hl; try lia; [done|]. apply Forall_cons in F1 as [S1 F1]. apply Forall_cons in F2 as [S2 F2].
  cbn [map concat] in He. apply enc_entry_inj in He as [-> He]; [|done..]. f_equal. apply IH; [lia|done..].
Qed.

Lemma pushed_entries entries : forall out bytes, foldM push_summary_entry out entries = Ok bytes ->
  bytes = out ++ concat (map enc_entry entries) /\ Forall (fun e => zlen (se_ref_name e) < 2 ^ 16) entries.
Proof.
  induction entries as [|e entries IH]; intros out bytes Hf; cbn [foldM] in Hf; [apply Ok_inj in Hf as <-; by rewrite app_nil_r|].
  unfold push_summary_entry at 1, push_string_u16, len_to_u16 in Hf. destruct (Z.ltb_spec (zlen (se_ref_name e)) (2 ^ 16)); [|done].
  apply IH in Hf as [-> Hall]. split; [|by constructor]. cbn [map concat]. unfold enc_entry, enc_string, push_u16, push_u64. by rewrite <- !app_assoc.
Qed.

Section summary.
Context `{Sha256}.

(** The entry that stands for a pointer. *)
Definition entry_of (R : ObjectReader) (fuel : nat) (pointer : RefPointerSummary) (e : SyncSummaryRefEntry) : Prop :=
  exists tip ids, read_branch_tip R (ps_ref_state_id pointer) = Ok tip /\ patch_ids_reachable_from_block R fuel tip = Ok ids /\
    compute_patch_set_digest ids = Ok (se_digest e) /\ se_patch_count e = zlen ids /\ zlen ids < 2 ^ 64 /\ se_ref_name e = ps_ref_name pointer.

Lemma summary_entries_of R fuel d entries : summary_entries R fuel d = Ok entries ->
  exists pointers, list_ref_pointers d = Ok pointers /\ forall e, e ∈ entries -> exists pointer, pointer ∈ pointers /\ entry_of R fuel pointer e.
Proof.
  unfold summary_entries. destruct (list_ref_pointers d) as [pointers|]; [|done]. intros Hm. exists pointers. split; [done|].
  assert (Hsub : filter (fun pointer => ref_starts_with "heads/" (ps_ref_name pointer)) pointers ⊆ pointers) by (intros q; rewrite list_elem_of_filter; tauto).
  revert entries Hm Hsub. generalize (filter (fun pointer => ref_starts_with "heads/" (ps_ref_name pointer)) pointers) as l.
  induction l as [|q l IH]; intros entries Hm Hsub e He; cbn [mapM_result] in Hm; [apply Ok_inj in Hm as <-; by apply elem_of_nil in He|].
  destruct (read_branch_tip R (ps_ref_state_id q)) as [tip|] eqn:Ht; [|done]. destruct (patch_ids_reachable_from_block R fuel tip) as [ids|] eqn:Hi; [|done].
  destruct (compute_patch_set_digest ids) as [digest|] eqn:Hd; [|done]. unfold len_to_u64 in Hm. destruct (Z.ltb_spec (zlen ids) (2 ^ 64)); [|done].
  destruct (mapM_result _ l) as [rest|] eqn:Hr; [|done]. apply Ok_inj in Hm as <-. apply elem_of_cons in He as [->|He].
  - exists q. split; [apply Hsub; left|]. exists tip, ids. by split_and!.
  - apply (IH rest eq_refl); [|done]. intros x Hx. apply Hsub. by right.
Qed.

Lemma summary_roundtrip R fuel d bytes max_total_bytes max_ref_count remote : build_sync_summary R fuel d = Ok bytes -> zlen bytes < 2 ^ 64 -> 0 <= max_ref_count < 2 ^ 64 ->
  decode_sync_summary bytes max_total_bytes max_ref_count = Ok remote -> summary_entries R fuel d = Ok remote.
Proof.
  intros Hb Hz Hm Hd. unfold build_sync_summary, len_to_u64 in Hb. destruct (summary_entries R fuel d) as [entries|] eqn:He; [|done].
  destruct (Z.ltb_spec (zlen entries) (2 ^ 64)) as [Hn|]; [|done]. apply pushed_entries in Hb as [Hb Hnames]. f_equal.
  unfold decode_sync_summary, len_to_u64 in Hd. destruct (_ <? zlen bytes); [done|]. rewrite (proj2 (Z.ltb_lt max_ref_count (2 ^ 64))) in Hd by lia. pose proof (standing_new _ Hz) as Hs.
  destruct (bc_read_array 8 (ByteCursor_new bytes)) as [[magic c0]|] eqn:E0; [|done]. destruct (consumes_array 8 ltac:(lia) _ _ _ _ Hs E0) as (r0 & Hr0 & Hs0 & _).
  case_bool_decide as Hmag; [|done]. cbn [negb] in Hd. subst magic. destruct (bc_read_u64 c0) as [[count c1]|] eqn:E1; [|done]. destruct (consumes_u64 _ _ _ _ Hs0 E1) as (r1 & Hr1 & Hs1 & Hcount).
  destruct (max_ref_count <? count); [done|]. destruct (bc_read_n read_summary_entry (Z.to_nat count) c1) as [[es c2]|] eqn:E2; [|done].
  destruct (consumes_n _ _ _ _ consumes_entry _ _ _ _ Hs1 E2) as (r2 & Hr2 & Hs2 & Hlen & Hshape). rewrite (standing_finished _ _ Hs2) in Hd. case_bool_decide as Hend; [|done]. cbn [negb] in Hd.
  apply Ok_inj in Hd as <-. rewrite Hend, app_nil_r in Hr2. rewrite Hr0, Hr1, Hr2 in Hb. unfold push_u64 in Hb. rewrite <- app_assoc in Hb. apply app_inv_head in Hb.
  apply app_inj_len in Hb as [Hc Hb]; [|by rewrite !length_to_be_bytes]. pose proof (zlen_nonneg entries). apply (to_be_bytes_inj 8) in Hc; [|unfold u64 in *; cbn; lia..].
  symmetry. apply enc_entries_inj; [unfold zlen in Hc; lia|done| |done]. destruct (summary_entries_of _ _ _ _ He) as (pointers & _ & Hof).
  apply Forall_forall. intros e Hin. destruct (Hof e Hin) as (q & _ & tip & ids & _ & _ & Hdig & Hcnt & Hsz & _). rewrite Forall_forall in Hnames. split_and!; [by apply Hnames|unfold zlen; by rewrite (digest_32 _ _ Hdig)|].
  pose proof (zlen_nonneg ids). unfold u64. lia.
Qed.

Lemma remote_digest_of (l : list SyncSummaryRefEntry) : forall (m : gmap (list byte) PatchSetDigest) name digest,
  fold_left (fun digests entry => <[se_ref_name entry := se_digest entry]> digests) l m !! name = Some digest ->
  m !! name = Some digest \/ exists e, e ∈ l /\ se_ref_name e = name /\ se_digest e = digest.
Proof.
  induction l as [|e l IH]; intros m name digest Hf; cbn [fold_left] in Hf; [by left|]. apply IH in Hf as [Hf|(e' & Hin & Hn & Hd)]; [|right; exists e'; split; [by right|done]].
  apply lookup_insert_Some in Hf as [[<- <-]|[_ Hf]]; [right; exists e; split; [left|done]|by left].
Qed.

(** The comparison of one name that both sides have. *)
Lemma compared R fuel remote d comparisons c : compare_sync_summary R fuel remote d = Ok comparisons -> c ∈ comparisons -> cmp_state c = InSync \/ cmp_state c = Differs ->
  exists e digest, e ∈ remote /\ se_ref_name e = cmp_ref_name c /\ compute_patch_set_digest_for_ref R fuel (cmp_ref_name c) d = Ok digest /\
    cmp_state c = if decide (digest = se_digest e) then InSync else Differs.
Proof.
  unfold compare_sync_summary. destruct (list_ref_pointers d) as [pointers|]; [|done]. set (local := list_to_set _). set (digests := fold_left _ remote ∅).
  generalize (set_iter (local ∪ dom digests)) as names. intros names. revert comparisons. induction names as [|name names IH]; intros comparisons Hm Hin Hst; cbn [mapM_result] in Hm.
  { apply Ok_inj in Hm as <-. by apply elem_of_nil in Hin. }
  destruct (match digests !! name with Some _ => _ | None => _ end) as [state|] eqn:Hs; [|done]. destruct (mapM_result _ names) as [rest|] eqn:Hr; [|done]. apply Ok_inj in Hm as <-.
  apply elem_of_cons in Hin as [->|Hin]; [|by apply (IH rest)]. cbn [cmp_ref_name cmp_state] in *. destruct (digests !! name) as [rd|] eqn:Hd; [|apply Ok_inj in Hs as <-; naive_solver].
  destruct (bool_decide (name ∈ local)); [|apply Ok_inj in Hs as <-; naive_solver]. destruct (compute_patch_set_digest_for_ref R fuel name d) as [ld|] eqn:Hl; [|done]. apply Ok_inj in Hs as <-.
  apply remote_digest_of in Hd as [Hd|(e & He & Hn & <-)]; [by rewrite lookup_empty in Hd|]. exists e, ld. split_and!; [done..|]. by destruct (decide _); case_bool_decide.
Qed.

(** C7: the comparison of summaries across repositories.  A repository decodes the summary another one
    built and compares it with its own branches.  For every branch both have: when it is reported as
    differing, the two tips reach different patches; when it is reported in sync, both tips reach the same
    patches, or else the two patch sets at hand are a SHA-256 collision. *)
Theorem in_sync_exact R_local R_remote fuel d_local d_remote bytes max_total_bytes max_ref_count remote comparisons c :
  build_sync_summary R_remote fuel d_remote = Ok bytes -> zlen bytes < 2 ^ 64 -> 0 <= max_ref_count < 2 ^ 64 ->
  decode_sync_summary bytes max_total_bytes max_ref_count = Ok remote ->
  compare_sync_summary R_local fuel remote d_local = Ok comparisons -> c ∈ comparisons -> cmp_state c = InSync \/ cmp_state c = Differs ->
  exists tip_local tip_remote ids_local ids_remote pointers pointer,
    resolve_ref_to_tip_block R_local (cmp_ref_name c) d_local = Ok tip_local /\ patch_ids_reachable_from_block R_local fuel tip_local = Ok ids_local /\
    list_ref_pointers d_remote = Ok pointers /\ pointer ∈ pointers /\ ps_ref_name pointer = cmp_ref_name c /\
    read_branch_tip R_remote (ps_ref_state_id pointer) = Ok tip_remote /\ patch_ids_reachable_from_block R_remote fuel tip_remote = Ok ids_remote /\
    (cmp_state c = Differs -> ids_local <> ids_remote) /\ (cmp_state c = InSync -> ids_local = ids_remote \/ patch_sets_collide ids_local ids_remote).
Proof.
  intros Hb Hz Hm Hd Hc Hin Hst. pose proof (summary_roundtrip _ _ _ _ _ _ _ Hb Hz Hm Hd) as He. destruct (compared _ _ _ _ _ _ Hc Hin Hst) as (e & digest & Hine & Hname & Hl & Hs).
  destruct (summary_entries_of _ _ _ _ He) as (pointers & Hp & Hof). destruct (Hof e Hine) as (q & Hq & tip & ids & Ht & Hi & Hdig & _ & _ & Hqn).
  unfold compute_patch_set_digest_for_ref in Hl. destruct (resolve_ref_to_tip_block R_local (cmp_ref_name c) d_local) as [tl|]; [|done]. unfold compute_patch_set_digest_from_block in Hl.
  destruct (patch_ids_reachable_from_block R_local fuel tl) as [il|] eqn:Hil; [|done]. exists tl, tip, il, ids, pointers, q. split_and!; try done; [congruence|..]; rewrite Hs.
  - destruct (decide (digest = se_digest e)) as [Heq|Hne]; [done|]. intros _ ->. congruence.
  - destruct (decide (digest = se_digest e)) as [Heq|Hne]; [|done]. intros _. rewrite Heq in Hl.
    apply (digest_inj il ids (se_digest e)); [exact (reachable_32 _ _ _ _ Hil)|exact (reachable_32 _ _ _ _ Hi)|done|done].
Qed.
End summary.

(** ** Two repositories *)

Section demo.
#[local] Existing Instance hash_mod_p.

(** The receiver's branch: the root and the left block of [diamond], under its own tip. *)
Definition receiver : gmap ObjectId ObjectEnvelope :=
  <[object_id (pub_ref_state first_publication) := pub_ref_state first_publication]> ((fun block => mkEnvelope Block 1 (canonical block) []) <$>
    (list_to_map [(history_id x21, mkBlock [] KindRoot [history_id x11] (replicate 32 x00) None None None);
                  (demo_target, mkBlock [history_id x21] KindNormal [history_id x12] (replicate 32 x00) None None None)] : gmap ObjectId BlockPayload)).

Definition received_bytes : list byte := match build_have_list (memory_reader receiver) 9 demo_name one_published with Ok bytes => bytes | Err _ => [] end.
Definition receiver_list : HaveList := mkHaveList demo_name (diamond_digest [history_id x11; history_id x12]) [history_id x11; history_id x12].

Lemma have_list_exact_witness : decode_have_list received_bytes 200 2 = Ok receiver_list /\ decode_have_list received_bytes 200 1 <> Ok receiver_list.
Proof.
  assert (Hz : zlen received_bytes < 2 ^ 64) by (vm_compute; reflexivity). split.
  - apply (have_list_exact received_bytes 200 2 receiver_list Hz); [lia|]. split_and!; [vm_compute; done|vm_compute; reflexivity| |vm_compute; done].
    split_and!; [vm_compute; reflexivity|vm_compute; reflexivity|repeat constructor|vm_compute; reflexivity].
  - intros Hd. apply (have_list_exact received_bytes 200 1 receiver_list Hz) in Hd as (_ & _ & _ & Hl); [|lia]. exact (Hl eq_refl).
Defined.

Lemma negotiation_exact_witness : exists have_list,
  decode_have_list received_bytes DEFAULT_HAVE_LIST_MAX_TOTAL_BYTES DEFAULT_HAVE_LIST_MAX_PATCH_COUNT = Ok have_list /\
  compute_sync_delta (memory_reader diamond) 9 have_list one_published = Ok [history_id x13; history_id x14].
Proof.
  assert (Hs : branch_patch_ids (memory_reader diamond) 9 demo_name one_published = Ok [history_id x11; history_id x12; history_id x13; history_id x14]) by (vm_compute; reflexivity).
  destruct (negotiation_exact (memory_reader receiver) (memory_reader diamond) 9 demo_name one_published one_published received_bytes [history_id x11; history_id x12]
    [history_id x11; history_id x12; history_id x13; history_id x14]) as (hl & delta & Hd & Hh & Hc & _); [vm_compute; reflexivity|vm_compute; reflexivity|vm_compute; done|vm_compute; reflexivity|vm_compute; done|exact Hs|].
  exists hl. split; [exact Hd|]. rewrite Hc. unfold compute_sync_delta in Hc. rewrite Hh in Hc. revert Hc. destruct (validate_local_branch_ref (hl_ref_name hl)) as [canonical|] eqn:Hv; [|done].
  assert (Hhl : hl = receiver_list).
  { assert (Hd' : decode_have_list received_bytes DEFAULT_HAVE_LIST_MAX_TOTAL_BYTES DEFAULT_HAVE_LIST_MAX_PATCH_COUNT = Ok receiver_list) by (vm_compute; reflexivity). congruence. }
  subst hl. assert (canonical = demo_name) as -> by (by apply validated_branch in Hv). rewrite Hs. intros He. rewrite <- He. vm_compute. reflexivity.
Defined.

Definition summary_of (store : gmap ObjectId ObjectEnvelope) : list byte := match build_sync_summary (memory_reader store) 9 one_published with Ok bytes => bytes | Err _ => [] end.
Definition remote_of (store : gmap ObjectId ObjectEnvelope) : list SyncSummaryRefEntry :=
  match decode_sync_summary (summary_of store) DEFAULT_SYNC_SUMMARY_MAX_TOTAL_BYTES DEFAULT_SYNC_SUMMARY_MAX_REF_COUNT with Ok remote => remote | Err _ => [] end.

(** The branch differs from the receiver's, and is in sync with itself. *)
Lemma in_sync_exact_witness :
  (exists ids_local ids_remote, patch_ids_reachable_from_block (memory_reader diamond) 9 demo_target = Ok ids_local /\ ids_local <> ids_remote /\
     compare_sync_summary (memory_reader diamond) 9 (remote_of receiver) one_published = Ok [mkComparison demo_name Differs]) /\
  (exists ids_local ids_remote, patch_ids_reachable_from_block (memory_reader diamond) 9 demo_target = Ok ids_local /\ (ids_local = ids_remote \/ patch_sets_collide ids_local ids_remote) /\
     compare_sync_summary (memory_reader diamond) 9 (remote_of diamond) one_published = Ok [mkComparison demo_name InSync]).
Proof.
  split.
  - destruct (in_sync_exact (memory_reader diamond) (memory_reader receiver) 9 one_published one_published (summary_of receiver) DEFAULT_SYNC_SUMMARY_MAX_TOTAL_BYTES
      DEFAULT_SYNC_SUMMARY_MAX_REF_COUNT (remote_of receiver) [mkComparison demo_name Differs] (mkComparison demo_name Differs)) as (tl & tr & il & ir & ps & q & Ht & Hi & _ & _ & _ & _ & _ & Hd & _);
      [vm_compute; reflexivity|vm_compute; reflexivity|vm_compute; done|vm_compute; reflexivity|vm_compute; reflexivity|left|by right|].
    exists il, ir. split; [|split; [exact (Hd eq_refl)|vm_compute; reflexivity]]. rewrite <- Hi. f_equal. assert (Ht' : resolve_ref_to_tip_block (memory_reader diamond) demo_name one_published = Ok demo_target) by (vm_compute; reflexivity). cbn [cmp_ref_name] in Ht. congruence.
  - assert (Hb : build_sync_summary (memory_reader diamond) 9 one_published = Ok (summary_of diamond)) by (vm_compute; reflexivity).
    assert (Hz : zlen (summary_of diamond) < 2 ^ 64) by (vm_compute; reflexivity).
    assert (Hd : decode_sync_summary (summary_of diamond) DEFAULT_SYNC_SUMMARY_MAX_TOTAL_BYTES DEFAULT_SYNC_SUMMARY_MAX_REF_COUNT = Ok (remote_of diamond)) by (vm_compute; reflexivity).
    assert (Hm : 0 <= DEFAULT_SYNC_SUMMARY_MAX_REF_COUNT < 2 ^ 64) by (split; vm_compute; [discriminate|reflexivity]).
    assert (Hc : compare_sync_summary (memory_reader diamond) 9 (remote_of diamond) one_published = Ok [mkComparison demo_name InSync]) by (vm_compute; reflexivity).
    destruct (in_sync_exact _ _ _ _ _ _ _ _ _ _ (mkComparison demo_name InSync) Hb Hz Hm Hd Hc) as (tl & tr & il & ir & ps & q & Ht & Hi & _ & _ & _ & _ & _ & _ & Hs); [left|left; reflexivity|].
    exists il, ir. split; [|split; [exact (Hs eq_refl)|exact Hc]]. rewrite <- Hi. f_equal. assert (Ht' : resolve_ref_to_tip_block (memory_reader diamond) demo_name one_published = Ok demo_target) by (vm_compute; reflexivity). cbn [cmp_ref_name] in Ht. congruence.
Defined.
End demo.
