(* ===== verification/Resolution.v ===== *)
(** * Points, refs and inverse plans (crates/prikk-store/src/point.rs, ref_resolution.rs, patch_inverse.rs, patch_inverse/read.rs, merge/evidence.rs)

    Which block a name stands for, for the commands that read one; and the plan that inverts the whole chain
    of a branch: the blocks along the mainline, their patches in order, one inverse per operation while the
    files and the live nodes are carried forward, and the inverse payload in reverse order. *)

From S2P Require Import Prelude PrikkError Utf8 Hash Canonical ByteCursor ObjectId Signature Envelope FileCodec Block Refs TagPayload Patch ObjectStore PatchDecode TextSpan PatchApply.
From S2P Require Import FileSystem TailLog RefLog RefStore StateRoot Received Lifecycle PatchSet.

(** ** Points (point.rs) *)

Inductive PointKind : Type := LocalBranch | TagPoint | ReceivedRefPoint | BlockPoint.
#[global] Instance PointKind_eq_dec : EqDecision PointKind.
Proof. solve_decision. Defined.

Record Point : Type := mkPoint { pt_name : list byte; pt_kind : PointKind; pt_block_id : ObjectId }.

Definition is_lower_hex (byte : byte) : bool := in_range 48 57 byte || in_range 97 102 byte.

Definition is_bare_block_id (name : list byte) : bool := (zlen name =? 64) && forallb is_lower_hex name.

Definition is_point_name (name : list byte) : bool :=
  existsb (fun prefix => ref_starts_with prefix name) ["heads/"; "tags/"; "remotes/"] || is_bare_block_id name.

Definition refuse_block_point_for_worktree_write (name : list byte) : PResult unit :=
  if is_bare_block_id name
  then Err (Precondition "{command} writes the worktree, which needs a branch: the next `commit` authors against one, and a block id names no branch")
  else Ok tt.

(** ** Resolution (ref_resolution.rs) *)

Inductive ReceivedRefs : Type := ReadReceived | RefusedReceived | LeftToNameValidation.
#[global] Instance ReceivedRefs_eq_dec : EqDecision ReceivedRefs.
Proof. solve_decision. Defined.

Inductive RefExistence : Type := RefExists (kind : PointKind) | LeftToCaller.

Definition decide_ref_existence `{Sha256} (ref_name : list byte) (received_refs : ReceivedRefs) (d : Disk) : PResult RefExistence :=
  if ref_starts_with "remotes/" ref_name then
    if bool_decide (received_refs = LeftToNameValidation) || negb (is_ok (validate_received_ref ref_name)) then Ok LeftToCaller
    else
      let? pointer := read_received_pointer ref_name d in
      match is_some pointer, received_refs with
      | false, _ => Err (Precondition "ref {ref_name} does not exist in this repository")
      | true, RefusedReceived => Err (Precondition "{ref_name} is a received ref, and this command does not accept received refs; {RECEIVED_REF_READERS}")
      | true, _ => Ok (RefExists ReceivedRefPoint)
      end
  else
    match (if is_ok (validate_local_branch_ref ref_name) then Some LocalBranch
           else if is_ok (validate_local_tag_ref ref_name) then Some TagPoint else None) with
    | None => Ok LeftToCaller
    | Some kind =>
        let? current := read_current_ref_state_id ref_name d in
        if is_some current then Ok (RefExists kind)
        else
          let? log := replay_log ref_name d in
          if negb (Nat.eqb (length (rl_records log)) 0) || negb (Nat.eqb (rl_trailing_partial_bytes log) 0) || ref_log_has_item_failure log
          then Ok (RefExists kind)
          else
            let? received := read_received_pointer (bytes_of_string "remotes/" ++ ref_name) d in
            Err (Precondition "ref {ref_name} does not exist in this repository{received_note}")
    end.

Definition require_existing_ref `{Sha256} (ref_name : list byte) (received_refs : ReceivedRefs) (d : Disk) : PResult unit :=
  let? _ := decide_ref_existence ref_name received_refs d in
  Ok tt.

Definition is_unpublished_local_branch `{Sha256} (ref_name : list byte) (d : Disk) : PResult bool :=
  if negb (is_ok (validate_local_branch_ref ref_name)) then Ok false
  else
    let? current := read_current_ref_state_id ref_name d in
    if is_some current then Ok false
    else
      let? log := replay_log ref_name d in
      Ok (Nat.eqb (length (rl_records log)) 0 && Nat.eqb (rl_trailing_partial_bytes log) 0 && negb (ref_log_has_item_failure log)).

Section resolution.
Context `{Sha256} (R : ObjectReader).

Definition require_block_given (block_id : ObjectId) : PResult unit :=
  let? found := @read_object R block_id in
  match found with
  | None => Err (Precondition "block {block_id} is not in this repository")
  | Some envelope =>
      if bool_decide (object_type envelope = Block) then Ok tt else Err (Precondition "object {block_id} is {article} {type_name}, not a block")
  end.

Definition received_tip_block (name : list byte) (d : Disk) : PResult ObjectId :=
  let? pointer := read_received_pointer name d in
  let? pointer := ok_or pointer (Precondition "ref {name} does not exist in this repository") in
  let? found := @read_typed R (rp_ref_state_id pointer) RefState in
  let? envelope := ok_or found (Integrity "received ref {name} points to missing RefState {}") in
  let? ref_state := RefStatePayload_decode (schema_version envelope) (canonical_payload envelope) in
  let? '(block_id, _) := resolve_ref_tip_block R ref_state in
  Ok block_id.

Definition resolve_point (name : list byte) (received_refs : ReceivedRefs) (d : Disk) : PResult Point :=
  if is_bare_block_id name then
    let? block_id := ObjectId_from_str name in
    let? _ := require_block_given block_id in
    Ok (mkPoint name BlockPoint block_id)
  else
    let? existence := decide_ref_existence name received_refs d in
    match existence with
    | LeftToCaller => Err (InvalidName "{name} is not a point this command reads: expected a ref name (heads/…, tags/… or remotes/…) or a block id (64 lowercase hex characters)")
    | RefExists kind =>
        let? block_id :=
          if bool_decide (kind = ReceivedRefPoint) then received_tip_block name d
          else read_current_ref_tip_block R name d in
        Ok (mkPoint name kind block_id)
    end.

(** ** Targets of a merge (merge/evidence.rs) *)

Inductive MergeEvidenceTarget : Type :=
| TargetBlock (block_id : ObjectId)
| TargetRef (ref_name : list byte)
| TargetReceivedRef (ref_name : list byte).

Record MergeEvidenceDisplaySelector : Type := mkSelector { ms_selector : list byte; ms_target_block_id : ObjectId }.

Definition resolve_target (target : MergeEvidenceTarget) (d : Disk) : PResult MergeEvidenceDisplaySelector :=
  let? '(name, selector) :=
    match target with
    | TargetBlock block_id => Ok (ObjectId_to_hex block_id, bytes_of_string "block " ++ ObjectId_to_hex block_id)
    | TargetRef ref_name =>
        let? ref_name := validate_local_branch_ref ref_name in
        Ok (ref_name, bytes_of_string "ref " ++ ref_name)
    | TargetReceivedRef ref_name => Ok (ref_name, bytes_of_string "received ref " ++ ref_name)
    end in
  let? point := resolve_point name ReadReceived d in
  let? _ := evidence_read_block R (pt_block_id point) in
  Ok (mkSelector selector (pt_block_id point)).
End resolution.

(** ** Inverse operations (patch_inverse.rs) *)

Record InverseLiveNode : Type := mkInverseLive { il_path : list byte; il_kind : NodeKind }.

(** The two maps that [derive_inverse_operation] carries forward. *)
Record InverseState : Type := mkInverseState { is_files : gmap (list byte) (list byte); is_live_nodes : gmap (list byte) InverseLiveNode }.

Inductive PatchInverseOperationKind : Type := InvCreateFile | InvDeleteFile | InvReplaceBinary | InvEditText | InvChangePerm.

Definition PatchInverseOperationKind_as_str (kind : PatchInverseOperationKind) : string :=
  match kind with
  | InvCreateFile => "create-file"
  | InvDeleteFile => "delete-file"
  | InvReplaceBinary => "replace-binary"
  | InvEditText => "edit-text"
  | InvChangePerm => "change-perm"
  end.

Record PatchInverseOperationSummary : Type := mkInverseSummary { iv_op_seq : Z; iv_path : list byte; iv_kind : PatchInverseOperationKind }.

(** An inverse before it is numbered. *)
Definition unnumbered (label : string) (path : list byte) (kind : OperationKind) : Operation := mkOperation 0 (Some (bytes_of_string label ++ path)) [] kind.

Section inverse.
Context `{Sha256} (R : ObjectReader).

Definition invert_create_file (s : InverseState) (path node_id blob_id : list byte) (mode : Z) : PResult (Operation * InverseState) :=
  if is_some (is_files s !! path) then Err (Integrity "CreateFile would overwrite existing path {path}")
  else if is_some (is_live_nodes s !! node_id) then Err (Integrity "CreateFile would introduce an already-live node_id")
  else
    let? '(old_node_kind, bytes) := @read_blob_bytes_with_kind R blob_id in
    Ok (unnumbered "inverse-delete-" path (OpDeleteNode (mkDeleteNode path node_id old_node_kind (PreimageFile blob_id mode))),
        mkInverseState (<[path := bytes]> (is_files s)) (<[node_id := mkInverseLive path old_node_kind]> (is_live_nodes s))).

Definition invert_delete_file (s : InverseState) (path node_id : list byte) (old_node_kind : NodeKind) (old_blob_id : list byte) (old_mode : Z)
  : PResult (Operation * InverseState) :=
  let? old_bytes := ok_or (is_files s !! path) (Integrity "DeleteNode path is absent: {path}") in
  let? _ := ensure_blob_matches_node_kind old_bytes old_blob_id old_node_kind in
  let? _ :=
    match is_live_nodes s !! node_id with
    | Some live =>
        if negb (bool_decide (il_path live = path)) then Err (Integrity "DeleteNode path {path} does not match live node path {}")
        else if negb (bool_decide (il_kind live = old_node_kind)) then Err (Integrity "DeleteNode old_node_kind does not match live node kind")
        else Ok tt
    | None => Ok tt
    end in
  Ok (unnumbered "inverse-create-" path (OpCreateFile (mkCreateFile path node_id old_blob_id old_mode)),
      mkInverseState (delete path (is_files s)) (delete node_id (is_live_nodes s))).

Definition invert_edit_text (s : InverseState) (node_id span_id old_span_hash left_anchor_hash right_anchor_hash replacement_text old_span_text : list byte)
    (left_anchor_len right_anchor_len : option Z) : PResult (Operation * InverseState) :=
  let? live := ok_or (is_live_nodes s !! node_id) (Integrity "EditText inverse target node is not live") in
  if negb (bool_decide (il_kind live = TextFile)) then Err (Integrity "EditText inverse target node is not TextFile")
  else
    let? pre_text := ok_or (is_files s !! il_path live) (Integrity "EditText inverse target path {} is absent") in
    let? '(inverse, post_text) :=
      derive_inverse_edit_text pre_text node_id span_id old_span_hash left_anchor_hash right_anchor_hash replacement_text old_span_text
        left_anchor_len right_anchor_len in
    Ok (unnumbered "inverse-edit-text-" (il_path live) (OpEditText inverse),
        mkInverseState (<[il_path live := post_text]> (is_files s)) (is_live_nodes s)).

Definition invert_replace_binary (s : InverseState) (node_id old_blob_id new_blob_id : list byte) : PResult (Operation * InverseState) :=
  let? live := ok_or (is_live_nodes s !! node_id) (Integrity "ReplaceBinary inverse target node is not live") in
  if negb (bool_decide (il_kind live = BinaryFile)) then Err (Integrity "ReplaceBinary inverse target node is not BinaryFile")
  else
    let? current_bytes := ok_or (is_files s !! il_path live) (Integrity "ReplaceBinary inverse target path {path} is absent") in
    let? _ := ensure_blob_matches_node_kind current_bytes old_blob_id (il_kind live) in
    let? '(new_kind, new_bytes) := @read_blob_bytes_with_kind R new_blob_id in
    if negb (bool_decide (new_kind = BinaryFile)) then Err (Integrity "ReplaceBinary new blob {new_blob_id} is not a binary-file blob")
    else
      Ok (unnumbered "inverse-replace-binary-" (il_path live) (OpReplaceBinary (mkReplaceBinary node_id new_blob_id old_blob_id)),
          mkInverseState (<[il_path live := new_bytes]> (is_files s)) (is_live_nodes s)).

Definition invert_change_perm (s : InverseState) (node_id : list byte) (old_mode new_mode : Z) : PResult (Operation * InverseState) :=
  let? live := ok_or (is_live_nodes s !! node_id) (Integrity "ChangePerm inverse target node is not live") in
  Ok (unnumbered "inverse-change-perm-" (il_path live) (OpChangePerm (mkChangePerm node_id new_mode old_mode)), s).

Definition derive_inverse_operation (s : InverseState) (operation : DecodedPatchOperation) : PResult (Operation * InverseState) :=
  match d_kind operation with
  | DCreateFile path node_id blob_id mode => invert_create_file s path node_id blob_id mode
  | DDeleteNode path node_id (DecodedFile old_node_kind old_blob_id old_mode) => invert_delete_file s path node_id old_node_kind old_blob_id old_mode
  | DEditText node_id span_id old_span_hash left_anchor_hash right_anchor_hash replacement_text old_span_text left_anchor_len right_anchor_len =>
      invert_edit_text s node_id span_id old_span_hash left_anchor_hash right_anchor_hash replacement_text old_span_text left_anchor_len right_anchor_len
  | DDeleteNode _ _ (DecodedSymlink _) => Err (UnsupportedObjectType "inverse planning for symlink DeleteNode is deferred")
  | DReplaceBinary node_id old_blob_id new_blob_id => invert_replace_binary s node_id old_blob_id new_blob_id
  | DChangePerm node_id old_mode new_mode => invert_change_perm s node_id old_mode new_mode
  | DRenamePath _ _ _ => Err (UnsupportedObjectType "inverse planning for RenamePath awaits a rename authoring path")
  | DCreateSymlink _ _ _ => Err (UnsupportedObjectType "inverse planning for CreateSymlink awaits a symlink authoring path")
  end.

(** The inner loop: the inverses in the order of their operations. *)
Definition derive_inverses (s : InverseState) (operations : list DecodedPatchOperation) : PResult (list Operation * InverseState) :=
  foldM (fun acc operation =>
    let? '(inverse, s) := derive_inverse_operation acc.2 operation in
    Ok (acc.1 ++ [inverse], s)) ([], s) operations.

Definition renumber_operations (operations : list Operation) : PResult (list Operation) :=
  if 2 ^ 32 <=? zlen operations then Err (CanonicalEncoding "operation count exceeds u32")
  else Ok (imap (fun index operation => mkOperation (Z.of_nat index + 1) (op_id operation) (op_preconditions operation) (op_kind operation)) operations).

(** The path behind the label of an inverse. *)
Definition labelled_path (label : string) (operation : Operation) : list byte :=
  default (bytes_of_string "<unknown>") (op_id operation ≫= strip_prefix (bytes_of_string label)).

(** The last case is [unreachable!]: no inverse is a rename or a symlink. *)
Definition summarize_operation (operation : Operation) : PResult PatchInverseOperationSummary :=
  let? '(kind, path) :=
    match op_kind operation with
    | OpCreateFile value => Ok (InvCreateFile, cf_path value)
    | OpDeleteNode value => Ok (InvDeleteFile, dn_path value)
    | OpEditText _ => Ok (InvEditText, labelled_path "inverse-edit-text-" operation)
    | OpReplaceBinary _ => Ok (InvReplaceBinary, labelled_path "inverse-replace-binary-" operation)
    | OpChangePerm _ => Ok (InvChangePerm, labelled_path "inverse-change-perm-" operation)
    | OpRenamePath _ | OpCreateSymlink _ => Err (Integrity "inverse plan contains unsupported operation kind")
    end in
  Ok (mkInverseSummary (op_seq operation) path kind).

Definition summarize_operations (operations : list Operation) : PResult (list PatchInverseOperationSummary) := mapM_result summarize_operation operations.

(** ** The plan *)

(** [single_parent_chain]: [newest_first] with its blocks, whose head is the oldest read so far. *)
Fixpoint single_parent_loop (fuel : nat) (seen : gset ObjectId) (current : option ObjectId) (chain : list ObjectId) : PResult (list ObjectId) :=
  match current with
  | None => Ok chain
  | Some block_id =>
      if bool_decide (block_id ∈ seen) then Err (Integrity "block parent chain contains a cycle at {block_id}")
      else
        match fuel with
        | O => Err OutOfFuel
        | S fuel' =>
            let? block := evidence_read_block R block_id in
            let? next := ok_or (mainline_or_sole_parent block) (UnsupportedObjectType "inverse planning supports single-parent chains only; block has {} parents") in
            single_parent_loop fuel' ({[block_id]} ∪ seen) next (block_id :: chain)
        end
  end.

Definition single_parent_chain (fuel : nat) (target : ObjectId) : PResult (list ObjectId) := single_parent_loop fuel ∅ (Some target) [].

Definition read_patch (patch_id : ObjectId) : PResult ObjectEnvelope :=
  let? found := @read_typed R patch_id ObjectId.Patch in
  ok_or found (Integrity "missing Patch {patch_id}").

Record PatchInversePlan : Type := mkInversePlan {
  ip_ref_name : list byte;
  ip_target_block_id : ObjectId;
  ip_block_count : nat;
  ip_patch_count : nat;
  ip_original_operation_count : nat;
  ip_inverse_operation_count : nat;
  ip_inverse_patch_id_hint : ObjectId;
  ip_inverse_payload : PatchPayload;
  ip_operations : list PatchInverseOperationSummary;
}.

(** The loops over the blocks and their patches. *)
Record InverseWalk : Type := mkInverseWalk { iw_state : InverseState; iw_inverses : list Operation; iw_patch_count : nat; iw_operation_count : nat }.

Definition invert_patch (w : InverseWalk) (patch_id : ObjectId) : PResult InverseWalk :=
  let? patch := read_patch patch_id in
  let? operations := decode_patch_operations (canonical_payload patch) (schema_version patch) in
  let? '(inverses, s) := derive_inverses (iw_state w) operations in
  Ok (mkInverseWalk s (iw_inverses w ++ inverses) (iw_patch_count w + 1) (iw_operation_count w + length operations)).

Definition invert_block (w : InverseWalk) (block_id : ObjectId) : PResult InverseWalk :=
  let? block := evidence_read_block R block_id in
  foldM invert_patch w (patch_ids block).

Definition prepare_patch_inverse_plan (fuel : nat) (ref_name : list byte) (d : Disk) : PResult PatchInversePlan :=
  let? _ := require_existing_ref ref_name RefusedReceived d in
  let? target_block_id := read_current_ref_tip_block R ref_name d in
  let? block_ids := single_parent_chain fuel target_block_id in
  let? w := foldM invert_block (mkInverseWalk (mkInverseState ∅ ∅) [] 0 0) block_ids in
  if Nat.eqb (length (iw_inverses w)) 0
  then Err (Precondition "{ref_name} has nothing to invert: its {} block(s) carry no operation to reverse, so no inverse patch can be planned")
  else
    let? inverse_operations := renumber_operations (reverse (iw_inverses w)) in
    let? summaries := summarize_operations inverse_operations in
    let inverse_payload := mkPatch inverse_operations None [] PurposeNormal None in
    let? inverse_payload_bytes := to_canonical_bytes inverse_payload in
    let hint := object_id (unsigned ObjectId.Patch PATCH_MESSAGE_SCHEMA inverse_payload_bytes) in
    Ok (mkInversePlan ref_name target_block_id (length block_ids) (iw_patch_count w) (iw_operation_count w) (length inverse_operations) hint
          inverse_payload summaries).
End inverse.
