(* ===== verification/InverseThms.v ===== *)
(** * Inverse plans undo (patch_inverse.rs over patch_replay)

    Applying the inverses of a sequence of operations, last one first, takes the replayed state back to the
    tree it started from; and the plan for a branch, encoded, decoded and replayed on the tip's state, leaves
    no file and no node. *)

From S2P Require Import Prelude PrikkError Utf8 Hash Canonical Cursor ByteCursor ObjectId Signature Envelope FileCodec RepoPath Payload Blob Block Refs TagPayload Patch ObjectStore PatchDecode PatchTheorems TextSpan TextSpanThms PatchApply ReplayThms.
From S2P Require Import FileSystem TailLog RefLog RefStore StateRoot RefStoreThms LineageThms Received Lifecycle LifecycleInv PatchSet Resolution.

(** ** Trees *)

(** Two live nodes that a manifest shows alike: the recorded blob of a text node is not looked at. *)
Definition alike (r1 r2 : ReplayLiveNode) : Prop :=
  rl_path r1 = rl_path r2 /\ rl_kind r1 = rl_kind r2 /\ rl_mode r1 = rl_mode r2 /\ (rl_kind r1 = BinaryFile -> rl_blob_id r1 = rl_blob_id r2).

#[global] Instance alike_equiv : Equivalence alike.
Proof.
  split; [by intros r|intros r1 r2 (? & ? & ? & Hb); split_and!; try done; intros Hk; symmetry; apply Hb; congruence|].
  intros r1 r2 r3 (P1 & K1 & M1 & B1) (P2 & K2 & M2 & B2). split_and!; [congruence..|]. intros Hk. rewrite B1 by done. apply B2. congruence.
Qed.

Definition same_tree (s t : ReplayState) : Prop := rs_files s = rs_files t /\ forall id, option_Forall2 alike (rs_live s !! id) (rs_live t !! id).

#[global] Instance same_tree_equiv : Equivalence same_tree.
Proof.
  split; [intros s; split; [done|intros id; reflexivity]|intros s t [? Hl]; split; [done|intros id; symmetry; apply Hl]|].
  intros s t u [F1 L1] [F2 L2]. split; [congruence|]. intros id. etransitivity; [apply L1|apply L2].
Qed.

Lemma same_live s t id r : same_tree s t -> rs_live t !! id = Some r -> exists r', rs_live s !! id = Some r' /\ alike r' r.
Proof. intros [_ Hl] Hr. specialize (Hl id). rewrite Hr in Hl. inversion Hl as [r' ? Ha|]; subst. by exists r'. Qed.

Lemma same_dead s t id : same_tree s t -> rs_live t !! id = None -> rs_live s !! id = None.
Proof. intros [_ Hl] Hr. specialize (Hl id). rewrite Hr in Hl. by inversion Hl. Qed.

Lemma same_insert s t id r1 r2 : same_tree s t -> alike r1 r2 -> forall x, option_Forall2 alike (<[id := r1]> (rs_live s) !! x) (<[id := r2]> (rs_live t) !! x).
Proof.
  intros [_ Hl] Ha x. destruct (decide (x = id)) as [->|Hne]; [rewrite !lookup_insert_eq; by constructor|]. rewrite !lookup_insert_ne by done. apply Hl.
Qed.

Lemma same_delete s t id : same_tree s t -> forall x, option_Forall2 alike (delete id (rs_live s) !! x) (delete id (rs_live t) !! x).
Proof. intros [_ Hl] x. destruct (decide (x = id)) as [->|Hne]; [rewrite !lookup_delete_eq; constructor|]. rewrite !lookup_delete_ne by done. apply Hl. Qed.

(** The text a derivation returns is UTF-8. *)
Lemma derived_post_utf8 `{Sha256} pre_text e inv post_text : derive_inverse pre_text e = Ok (inv, post_text) -> from_utf8 post_text = true.
Proof.
  unfold derive_inverse, derive_inverse_edit_text. intros Hd. destruct (negb (from_utf8 pre_text)); [done|]. destruct (negb (from_utf8 (et_old_span_text e))); [done|].
  destruct (negb (from_utf8 (et_replacement_text e))); [done|]. destruct (negb (bool_decide _)); [done|]. destruct (resolve_text_span _ _ _ _ _ _ _ _ _) as [[start end_]|]; cbn [map_err] in Hd; [|done].
  destruct (_ || _) in Hd; [done|]. destruct (splice_text _ _ _ _) as [post|] in Hd; cbn [map_err] in Hd; [|done]. destruct (from_utf8 post) eqn:Hu in Hd; cbn [negb] in Hd; [|done].
  destruct (usize_max <? _) in Hd; [done|]. destruct (_ || _) in Hd; [done|]. destruct (choose_anchor_lengths_v2 _ _ _ _) as [[l r]|] in Hd; cbn [map_err] in Hd; [|done].
  destruct (locate_text_span_v2 _ _ _ _ _ _ _ _ _) as [located|] in Hd; cbn [map_err] in Hd; [|done]. destruct (negb (bool_decide _)) in Hd; [done|].
  destruct (splice_text _ _ _ _) as [back|] in Hd; cbn [map_err] in Hd; [|done]. destruct (negb (bool_decide _)) in Hd; [done|]. by apply Ok_inj, pair_equal_spec in Hd as [_ <-].
Qed.

(** ** What a deletion must say *)

Section undo.
Context `{Sha256} (R : ObjectReader) `{!LawfulReader R}.
#[local] Existing Instance R.

(** The maps the planner carries are those of the replay. *)
Definition tracks (i : InverseState) (s : ReplayState) : Prop :=
  is_files i = rs_files s /\ is_live_nodes i = (fun r => mkInverseLive (rl_path r) (rl_kind r)) <$> rs_live s.

(** The store holds the content of every binary node under its blob. *)
Definition binary_stored (s : ReplayState) : Prop := forall id r, rs_live s !! id = Some r -> rl_kind r = BinaryFile ->
  exists bytes, rs_files s !! rl_path r = Some bytes /\ read_blob_bytes_with_kind (rl_blob_id r) = Ok (BinaryFile, bytes).

(** A deletion names the node and its mode, and the store holds the text it removes, as it does once the
    block is sealed. *)
Definition undoable (s : ReplayState) (op : DecodedPatchOperation) : Prop :=
  match d_kind op with
  | DDeleteNode path node_id (DecodedFile kind blob mode) =>
      (exists r, rs_live s !! node_id = Some r /\ rl_mode r = mode) /\
      (kind = TextFile -> exists bytes, rs_files s !! path = Some bytes /\ read_blob_bytes_with_kind blob = Ok (TextFile, bytes))
  | _ => True
  end.

Lemma live_of_tracks i s id : tracks i s -> is_live_nodes i !! id = (fun r => mkInverseLive (rl_path r) (rl_kind r)) <$> rs_live s !! id.
Proof. intros [_ ->]. apply lookup_fmap. Qed.

(** The state and the inverse after one operation, and that the inverse takes every like tree back. *)
Definition undone (s s' : ReplayState) (i' : InverseState) (inverse : Operation) : Prop :=
  tracks i' s' /\ binary_stored s' /\ is_rename (Operation_decoded inverse) = false /\
  forall t', same_tree t' s' -> forall seq, exists t, apply_decoded_operation t' (mkDecoded seq (kind_decoded (op_kind inverse)) None) = Ok t /\ same_tree t s.

Lemma undo_create s s' i i' inverse path id blob mode : replay_ok s -> binary_stored s -> tracks i s -> valid_path path ->
  apply_create_file s path id blob mode = Ok s' -> invert_create_file R i path id blob mode = Ok (inverse, i') -> undone s s' i' inverse.
Proof.
  intros Hok Hbin Htr Hvp Ha Hi. unfold apply_create_file in Ha. unfold invert_create_file in Hi. rewrite (live_of_tracks i s id Htr) in Hi. destruct Htr as [Hf Hl]. rewrite Hf in Hi.
  destruct (rs_files s !! path) as [|] eqn:Hp; [done|]. destruct (rs_live s !! id) as [|] eqn:Hid; [done|]. cbn [is_some fmap option_fmap option_map] in *.
  destruct (read_blob_bytes_with_kind blob) as [[kind bytes]|] eqn:Hr; [|done]. apply Ok_inj in Ha as <-. apply Ok_inj in Hi. injection Hi as <- <-.
  pose proof (read_blob_named _ _ _ Hr) as Hname. split_and!.
  - split; cbn; [done|]. by rewrite fmap_insert, Hl.
  - intros x r. cbn [rs_live rs_files]. intros [[<- <-]|[Hne Hx]]%lookup_insert_Some Hk; cbn in *; [exists bytes; rewrite lookup_insert_eq; split; [done|]; by rewrite Hr, Hk|].
    destruct (Hbin x r Hx Hk) as (b & Hb & Hrb). exists b. rewrite lookup_insert_ne by congruence. done.
  - done.
  - intros t' Ht seq. destruct (same_live t' _ id (mkReplayLive path kind mode blob) Ht) as (r' & Hr' & Ha'); [cbn; apply lookup_insert_eq|]. destruct Ha' as (Hpath & Hkind & _). cbn in Hpath, Hkind.
    unfold apply_decoded_operation. cbn [d_kind op_kind unnumbered kind_decoded DeleteNode_decoded dn_preimage dn_path dn_node_id dn_old_node_kind ensure_apply_supported].
    unfold apply_delete_file. destruct Ht as [Htf Htl]. cbn in Htf. rewrite Htf, lookup_insert_eq. cbn [ok_or]. unfold ensure_blob_matches_node_kind. rewrite Hname, bool_decide_true by done.
    rewrite (RepoPath_parse_valid path Hvp), Hr', Hpath, Hkind, !bool_decide_true by done. cbn [negb]. eexists. split; [done|]. split; cbn [rs_files rs_live].
    + by apply delete_insert_id.
    + intros x. destruct (decide (x = id)) as [->|Hne]; [rewrite lookup_delete_eq, Hid; constructor|]. rewrite lookup_delete_ne by done. specialize (Htl x). cbn in Htl. by rewrite lookup_insert_ne in Htl by done.
Qed.

Lemma undo_delete s s' i i' inverse path id kind blob mode seq0 pid : replay_ok s -> binary_stored s -> tracks i s ->
  undoable s (mkDecoded seq0 (DDeleteNode path id (DecodedFile kind blob mode)) pid) ->
  apply_delete_file s path id kind blob = Ok s' -> invert_delete_file i path id kind blob mode = Ok (inverse, i') -> undone s s' i' inverse.
Proof.
  intros Hok Hbin Htr [(r & Hlive & Hmode) Htext] Ha Hi. unfold apply_delete_file in Ha. unfold invert_delete_file in Hi. rewrite (live_of_tracks i s id Htr) in Hi.
  destruct Htr as [Hf Hl]. rewrite Hf in Hi. rewrite Hlive in Ha, Hi. cbn [fmap option_fmap option_map il_path il_kind] in Hi.
  destruct (rs_files s !! path) as [bytes|] eqn:Hp; [|done]. cbn [ok_or] in *. unfold ensure_blob_matches_node_kind in *.
  destruct (file_blob_id_for_kind bytes kind) as [bid|] eqn:Hbid; [|done]. case_bool_decide as Heq; [|done]. subst bid.
  destruct (RepoPath_parse path) as [rp|] eqn:Hrp; [|done]. case_bool_decide as Hpath; [|done]. cbn [negb] in *. case_bool_decide as Hkind; [|done]. cbn [negb] in *.
  apply Ok_inj in Ha as <-. apply Ok_inj in Hi. injection Hi as <- <-.
  assert (Hstored : read_blob_bytes_with_kind blob = Ok (kind, bytes) /\ (kind = BinaryFile -> rl_blob_id r = blob)).
  { destruct kind; [| |done].
    - destruct (Htext eq_refl) as (b & Hb & Hrb). split; [congruence|done].
    - destruct (Hbin id r Hlive Hkind) as (b & Hb & Hrb). pose proof (read_blob_named _ _ _ Hrb) as Hn. rewrite Hpath in Hb. assert (b = bytes) as -> by congruence.
      assert (rl_blob_id r = blob) as <- by congruence. done. }
  destruct Hstored as [Hstored Hblob]. split_and!.
  - split; cbn; [done|]. by rewrite fmap_delete, Hl.
  - intros x r'. cbn [rs_live rs_files]. intros [Hne Hx]%lookup_delete_Some Hk. destruct (Hbin x r' Hx Hk) as (b & Hb & Hrb). exists b. split; [|done].
    rewrite lookup_delete_ne; [done|]. intros Hpp. apply Hne. symmetry. eapply (ro_inj s Hok); [done|done|congruence].
  - done.
  - intros t' Ht seq. unfold apply_decoded_operation. cbn [d_kind op_kind unnumbered kind_decoded CreateFile_decoded cf_path cf_node_id cf_blob_id cf_mode ensure_apply_supported].
    unfold apply_create_file. rewrite (same_dead t' _ id Ht) by (cbn; apply lookup_delete_eq). destruct Ht as [Htf Htl]. cbn in Htf. rewrite Htf, lookup_delete_eq. cbn [is_some].
    rewrite Hstored. eexists. split; [done|]. split; cbn [rs_files rs_live].
    + by apply insert_delete_id.
    + intros x. destruct (decide (x = id)) as [->|Hne].
      * rewrite lookup_insert_eq, Hlive. constructor. split_and!; cbn; [by symmetry..|]. intros Hk. symmetry. by apply Hblob.
      * rewrite lookup_insert_ne by done. specialize (Htl x). cbn in Htl. by rewrite lookup_delete_ne in Htl by done.
Qed.

Lemma undo_replace_binary s s' i i' inverse id old new : replay_ok s -> binary_stored s -> tracks i s ->
  apply_replace_binary s id old new = Ok s' -> invert_replace_binary R i id old new = Ok (inverse, i') -> undone s s' i' inverse.
Proof.
  intros Hok Hbin Htr Ha Hi. unfold apply_replace_binary in Ha. unfold invert_replace_binary in Hi. rewrite (live_of_tracks i s id Htr) in Hi.
  destruct Htr as [Hf Hl]. rewrite Hf in Hi. destruct (rs_live s !! id) as [r|] eqn:Hlive; [|done]. cbn [ok_or fmap option_fmap option_map il_path il_kind] in *.
  case_bool_decide as Hkind; [|done]. cbn [negb] in *. destruct (rs_files s !! rl_path r) as [bytes|] eqn:Hp; [|done]. cbn [ok_or] in *.
  destruct (ensure_blob_matches_node_kind bytes old (rl_kind r)) as [[]|] eqn:He; [|done]. destruct (read_blob_bytes_with_kind new) as [[k nb]|] eqn:Hr; [|done].
  case_bool_decide as Hk; [|done]. subst k. cbn [negb] in *. apply Ok_inj in Ha as <-. apply Ok_inj in Hi. injection Hi as <- <-.
  destruct (Hbin id r Hlive Hkind) as (b & Hb & Hrb). assert (b = bytes) as -> by congruence. pose proof (read_blob_named _ _ _ Hrb) as Hn. pose proof (read_blob_named _ _ _ Hr) as Hnn.
  assert (Hold : rl_blob_id r = old) by (unfold ensure_blob_matches_node_kind in He; rewrite Hkind, Hn in He; by case_bool_decide). subst old.
  split_and!.
  - split; cbn; [done|]. rewrite fmap_insert, Hl. symmetry. apply insert_id. by rewrite lookup_fmap, Hlive.
  - intros x r'. cbn [rs_live rs_files]. intros [[<- <-]|[Hne Hx]]%lookup_insert_Some Hk; cbn [rl_path rl_blob_id] in *; [exists nb; by rewrite lookup_insert_eq|].
    destruct (Hbin x r' Hx Hk) as (b & Hb' & Hrb'). exists b. split; [|done]. rewrite lookup_insert_ne; [done|]. intros Hpp. apply Hne. by eapply (ro_inj s Hok).
  - done.
  - intros t' Ht seq. destruct (same_live t' _ id (mkReplayLive (rl_path r) (rl_kind r) (rl_mode r) new) Ht) as (r' & Hr' & Ha'); [cbn; apply lookup_insert_eq|].
    destruct Ha' as (Hpath' & Hkind' & Hmode' & _). cbn in Hpath', Hkind', Hmode'. pose proof Ht as [Htf _]. cbn in Htf.
    unfold apply_decoded_operation. cbn [d_kind op_kind unnumbered kind_decoded ReplaceBinary_decoded rb_node_id rb_old_blob_id rb_new_blob_id ensure_apply_supported].
    unfold apply_replace_binary. rewrite Hr'. cbn [ok_or]. rewrite Hkind', Hpath', Htf, lookup_insert_eq, Hkind, bool_decide_true by done. cbn [negb ok_or].
    unfold ensure_blob_matches_node_kind. rewrite Hnn, bool_decide_true, Hrb, bool_decide_true by done. cbn [negb]. eexists. split; [done|]. split; cbn [rs_files rs_live].
    + by rewrite insert_insert_eq, insert_id.
    + intros x. destruct (decide (x = id)) as [->|Hne]; [rewrite lookup_insert_eq, Hlive; constructor; split_and!; cbn; congruence|].
      rewrite lookup_insert_ne by done. destruct Ht as [_ Htl]. specialize (Htl x). cbn in Htl. by rewrite lookup_insert_ne in Htl by done.
Qed.

Lemma undo_perm s s' i i' inverse id old new : replay_ok s -> binary_stored s -> tracks i s ->
  apply_change_perm s id old new = Ok s' -> invert_change_perm i id old new = Ok (inverse, i') -> undone s s' i' inverse.
Proof.
  intros Hok Hbin Htr Ha Hi. unfold apply_change_perm in Ha. unfold invert_change_perm in Hi. rewrite (live_of_tracks i s id Htr) in Hi.
  destruct (rs_live s !! id) as [r|] eqn:Hlive; [|done]. cbn [ok_or fmap option_fmap option_map il_path] in *. destruct (Z.eqb_spec (rl_mode r) old) as [<-|]; [|done]. cbn [negb] in Ha.
  apply Ok_inj in Ha as <-. apply Ok_inj in Hi. injection Hi as <- <-. destruct Htr as [Hf Hl]. split_and!.
  - split; cbn; [done|]. rewrite fmap_insert, Hl. symmetry. apply insert_id. by rewrite lookup_fmap, Hlive.
  - intros x r'. cbn [rs_live rs_files]. intros [[<- <-]|[_ Hx]]%lookup_insert_Some Hk; [by apply (Hbin id r)|by apply (Hbin x r')].
  - done.
  - intros t' Ht seq. destruct (same_live t' _ id (mkReplayLive (rl_path r) (rl_kind r) new (rl_blob_id r)) Ht) as (r' & Hr' & Ha'); [cbn; apply lookup_insert_eq|].
    destruct Ha' as (Hpath' & Hkind' & Hmode' & Hblob'). cbn in Hpath', Hkind', Hmode', Hblob'.
    unfold apply_decoded_operation. cbn [d_kind op_kind unnumbered kind_decoded ChangePerm_decoded cp_node_id cp_old_mode cp_new_mode ensure_apply_supported].
    unfold apply_change_perm. rewrite Hr'. cbn [ok_or]. rewrite Hmode', Z.eqb_refl. cbn [negb]. eexists. split; [done|]. destruct Ht as [Htf Htl]. split; cbn [rs_files rs_live]; [done|].
    intros x. destruct (decide (x = id)) as [->|Hne]; [rewrite lookup_insert_eq, Hlive; constructor; by split_and!|].
    rewrite lookup_insert_ne by done. specialize (Htl x). cbn in Htl. by rewrite lookup_insert_ne in Htl by done.
Qed.

(** The record of a decoded edit. *)
Lemma undo_edit s s' i i' inverse id sid oh lh rh rt ot ll rl : replay_ok s -> binary_stored s -> tracks i s ->
  apply_edit_text s id sid oh lh rh rt ot ll rl = Ok s' -> invert_edit_text i id sid oh lh rh rt ot ll rl = Ok (inverse, i') -> undone s s' i' inverse.
Proof.
  intros Hok Hbin Htr Ha Hi. unfold apply_edit_text in Ha. unfold invert_edit_text in Hi. rewrite (live_of_tracks i s id Htr) in Hi.
  destruct Htr as [Hf Hl]. rewrite Hf in Hi. case_bool_decide as Hhash; [|done]. cbn [negb] in Ha. destruct (rs_live s !! id) as [r|] eqn:Hlive; [|done]. cbn [ok_or fmap option_fmap option_map il_path il_kind] in *.
  case_bool_decide as Hkind; [|done]. cbn [negb] in *. destruct (rs_files s !! rl_path r) as [text|] eqn:Hp; [|done]. cbn [ok_or] in *. destruct (from_utf8 text) eqn:Hu; [|done]. cbn [negb] in Ha.
  destruct (derive_inverse_edit_text _ _ _ _ _ _ _ _ _ _) as [[inv post]|] eqn:Hd; [|done]. apply Ok_inj in Hi. injection Hi as <- <-.
  set (e := mkEditText id sid oh lh rh rt None None ot ll rl). change (derive_inverse text e = Ok (inv, post)) in Hd. pose proof (derived_post_utf8 _ _ _ _ Hd) as Hup.
  apply derive_inverse_inv in Hd as (p & q & len & Htx & Hpost & _ & _ & Hres & _ & Hc & ->). unfold resolve_edit in Hres. cbn [e et_old_span_text et_left_anchor_hash et_right_anchor_hash et_span_id et_node_id et_old_span_hash et_left_anchor_len et_right_anchor_len et_replacement_text] in *.
  rewrite Hres in Ha. cbn [map_err] in Ha. rewrite Htx, splice_app in Ha. cbn [map_err] in Ha. apply Ok_inj in Ha as <-. subst post. split_and!.
  - by split; cbn.
  - intros x r'. cbn [rs_live rs_files]. intros Hx Hk. destruct (Hbin x r' Hx Hk) as (b & Hb & Hrb). exists b. split; [|done]. rewrite lookup_insert_ne; [done|]. intros Hpp.
    assert (x = id) as -> by (by eapply (ro_inj s Hok)). congruence.
  - done.
  - intros t' Ht seq. destruct (same_live t' _ id r Ht Hlive) as (r' & Hr' & Hpath' & Hkind' & _). pose proof Ht as [Htf Htl]. cbn in Htf.
    cbn [op_kind unnumbered kind_decoded]. rewrite (minted_replays t' id r' p rt q ot len seq None Hr'); [|congruence|by rewrite Htf, Hpath', lookup_insert_eq|done|done].
    eexists. split; [done|]. split; cbn [rs_files rs_live]; [|done]. rewrite Htf, Hpath', insert_insert_eq, <- Htx. by apply insert_id.
Qed.

Lemma undo_operation s s' i i' inverse op : replay_ok s -> binary_stored s -> tracks i s -> names_valid op -> undoable s op ->
  apply_decoded_operation s op = Ok s' -> derive_inverse_operation R i op = Ok (inverse, i') -> undone s s' i' inverse.
Proof.
  destruct op as [seq k pid]. unfold names_valid, apply_decoded_operation, derive_inverse_operation, ensure_apply_supported. cbn [d_kind]. intros Hok Hbin Htr Hn Hun Ha Hi.
  destruct k as [path id blob mode|path id [kind blob mode|target]|id sid oh lh rh rt ot ll rl|id ob nb|id old new|id om nm|path id target]; try done.
  - by eapply undo_create.
  - by eapply undo_delete.
  - by eapply undo_edit.
  - by eapply undo_replace_binary.
  - by eapply undo_perm.
Qed.
End undo.

(** ** Sequences *)

Section sequences.
Context `{Sha256} (R : ObjectReader) `{!LawfulReader R}.
#[local] Existing Instance R.

Lemma apply_kind s d1 d2 : d_kind d1 = d_kind d2 -> apply_decoded_operation s d1 = apply_decoded_operation s d2.
Proof. intros He. unfold apply_decoded_operation, ensure_apply_supported. by rewrite He. Qed.

(** Without renames the sequence is the fold of the single operations. *)
Lemma sequence_folds ops : forall fuel s count kinds, Forall (fun op => is_rename op = false) ops -> (length ops <= fuel)%nat ->
  match foldM apply_decoded_operation s ops with
  | Ok s' => exists kinds', apply_sequence_loop fuel s count kinds ops = Ok (s', (count + length ops)%nat, kinds')
  | Err e => apply_sequence_loop fuel s count kinds ops = Err e
  end.
Proof.
  induction ops as [|op ops IH]; intros fuel s count kinds Hr Hf; cbn [foldM]; [exists kinds; destruct fuel; cbn; by rewrite Nat.add_0_r|].
  apply Forall_cons in Hr as [Hop Hr]. destruct fuel as [|fuel]; [cbn in Hf; lia|]. cbn [apply_sequence_loop]. rewrite Hop. destruct (apply_decoded_operation s op) as [s1|e]; [|done].
  specialize (IH fuel s1 (count + 1)%nat ({[applied_operation_kind_label (d_kind op)]} ∪ kinds) Hr ltac:(cbn in Hf; lia)).
  destruct (foldM apply_decoded_operation s1 ops) as [s'|e]; [|done]. destruct IH as [ks Hk]. exists ks. rewrite Hk. cbn [length]. do 3 f_equal. lia.
Qed.

Lemma sequence_of_fold ops s s' : Forall (fun op => is_rename op = false) ops -> foldM apply_decoded_operation s ops = Ok s' ->
  exists kinds, apply_operation_sequence s ops = Ok (s', length ops, kinds).
Proof. intros Hr Hf. pose proof (sequence_folds ops (length ops) s 0 ∅ Hr (Nat.le_refl _)) as Hs. rewrite Hf in Hs. exact Hs. Qed.

Lemma fold_of_sequence ops s s' n kinds : Forall (fun op => is_rename op = false) ops -> apply_operation_sequence s ops = Ok (s', n, kinds) ->
  foldM apply_decoded_operation s ops = Ok s'.
Proof.
  intros Hr Ha. pose proof (sequence_folds ops (length ops) s 0 ∅ Hr (Nat.le_refl _)) as Hs. unfold apply_operation_sequence in Ha.
  destruct (foldM apply_decoded_operation s ops) as [s1|e]; [destruct Hs as [ks Hs]|]; rewrite Hs in Ha; [|done]. apply Ok_inj in Ha. by injection Ha as <- _ _.
Qed.

Lemma derive_inverses_acc ops : forall acc i, foldM (fun acc operation => let? '(inverse, s) := derive_inverse_operation R acc.2 operation in Ok (acc.1 ++ [inverse], s)) (acc, i) ops =
  (let? '(l, i') := derive_inverses R i ops in Ok (acc ++ l, i')).
Proof.
  unfold derive_inverses. induction ops as [|op ops IH]; intros acc i; cbn [foldM fst snd]; [by rewrite app_nil_r|].
  destruct (derive_inverse_operation R i op) as [[inv i']|e]; [|done]. cbn [fst snd app]. rewrite (IH (acc ++ [inv])), (IH [inv]).
  destruct (foldM _ ([], i') ops) as [[l i'']|e]; [|done]. by rewrite <- app_assoc.
Qed.

Lemma derive_inverses_cons op ops i invs i'' : derive_inverses R i (op :: ops) = Ok (invs, i'') ->
  exists inv i' rest, derive_inverse_operation R i op = Ok (inv, i') /\ derive_inverses R i' ops = Ok (rest, i'') /\ invs = inv :: rest.
Proof.
  unfold derive_inverses at 1. cbn [foldM fst snd]. destruct (derive_inverse_operation R i op) as [[inv i']|e]; [|done]. cbn [app]. rewrite derive_inverses_acc.
  destruct (derive_inverses R i' ops) as [[l j]|e] eqn:Hd; [|done]. intros He. apply Ok_inj in He. injection He as <- <-. by exists inv, i', l.
Qed.

Lemma derive_inverses_app l1 l2 i : derive_inverses R i (l1 ++ l2) =
  (let? '(a, i') := derive_inverses R i l1 in let? '(b, i'') := derive_inverses R i' l2 in Ok (a ++ b, i'')).
Proof. unfold derive_inverses at 1 2. rewrite foldM_app. destruct (foldM _ ([], i) l1) as [[a i']|e]; [|done]. apply derive_inverses_acc. Qed.

Lemma derived_length ops : forall i invs i', derive_inverses R i ops = Ok (invs, i') -> length invs = length ops.
Proof.
  induction ops as [|op ops IH]; intros i invs i' Hd; [apply Ok_inj in Hd; by injection Hd as <- _|]. apply derive_inverses_cons in Hd as (inv & i1 & rest & _ & Hds & ->). cbn. by rewrite (IH _ _ _ Hds).
Qed.

(** Every deletion along the replay says what it removes. *)
Fixpoint undoable_all (s : ReplayState) (ops : list DecodedPatchOperation) : Prop :=
  match ops with
  | [] => True
  | op :: rest => undoable R s op /\ forall s', apply_decoded_operation s op = Ok s' -> undoable_all s' rest
  end.

(** The same as a test. *)
Definition undoable_test (s : ReplayState) (op : DecodedPatchOperation) : bool :=
  match d_kind op with
  | DDeleteNode path node_id (DecodedFile kind blob mode) =>
      match rs_live s !! node_id, rs_files s !! path with
      | Some r, Some bytes =>
          (rl_mode r =? mode) &&
          (negb (bool_decide (kind = TextFile)) || match read_blob_bytes_with_kind blob with Ok (kind', bytes') => bool_decide (kind' = TextFile /\ bytes' = bytes) | Err _ => false end)
      | _, _ => false
      end
  | _ => true
  end.

Fixpoint undoable_run (s : ReplayState) (ops : list DecodedPatchOperation) : bool :=
  match ops with
  | [] => true
  | op :: rest => undoable_test s op && match apply_decoded_operation s op with Ok s' => undoable_run s' rest | Err _ => true end
  end.

Lemma undoable_run_ok ops : forall s, undoable_run s ops = true -> undoable_all s ops.
Proof.
  induction ops as [|op ops IH]; intros s Hr; cbn [undoable_run undoable_all] in *; [done|]. apply andb_true_iff in Hr as [Ht Hr]. split.
  - unfold undoable, undoable_test in *. destruct (d_kind op) as [|path id [kind blob mode|target]| | | | |]; try done. destruct (rs_live s !! id) as [r|]; [|done].
    destruct (rs_files s !! path) as [bytes|]; [|done]. apply andb_true_iff in Ht as [Hm Ht]. split; [exists r; split; [done|lia]|]. intros ->. rewrite bool_decide_true in Ht by done. cbn [negb orb] in Ht.
    exists bytes. split; [done|]. destruct (read_blob_bytes_with_kind blob) as [[k b]|]; [|done]. by apply bool_decide_eq_true in Ht as [-> ->].
  - intros s' Hs. rewrite Hs in Hr. by apply IH.
Qed.

(** A decoded operation that stands for an inverse. *)
Definition stands_for (d : DecodedPatchOperation) (inverse : Operation) : Prop := d_kind d = kind_decoded (op_kind inverse).

Lemma undo_all ops : forall s s' i i' invs, replay_ok s -> binary_stored R s -> tracks i s -> Forall names_valid ops -> undoable_all s ops ->
  foldM apply_decoded_operation s ops = Ok s' -> derive_inverses R i ops = Ok (invs, i') ->
  Forall (fun inv => is_rename (Operation_decoded inv) = false) invs /\
  forall t' ds, same_tree t' s' -> Forall2 stands_for ds (reverse invs) -> exists t, foldM apply_decoded_operation t' ds = Ok t /\ same_tree t s.
Proof.
  induction ops as [|op ops IH]; intros s s' i i' invs Hok Hbin Htr Hn Hu Ha Hd.
  - apply Ok_inj in Ha as <-. apply Ok_inj in Hd. injection Hd as <- <-. split; [constructor|]. intros t' ds Ht Hds. apply Forall2_nil_inv_r in Hds as ->. by exists t'.
  - apply derive_inverses_cons in Hd as (inv & i1 & rest & Hd & Hds & ->). cbn [foldM] in Ha. destruct (apply_decoded_operation s op) as [s1|] eqn:Hs1; [|done].
    apply Forall_cons in Hn as [Hn Hns]. destruct Hu as [Hu Hus]. specialize (Hus s1 Hs1).
    destruct (undo_operation R s s1 i i1 inv op Hok Hbin Htr Hn Hu Hs1 Hd) as (Htr1 & Hbin1 & Hren & Hundo).
    assert (Hok1 : replay_ok s1).
    { eapply apply_operation_ok; [done|done| |done]. unfold undoable, deletes_live in *. destruct (d_kind op) as [|path id [kind blob mode|target]| | | | |] eqn:Hk; try done.
      - destruct Hu as [(r & Hr & _) _]. by eexists.
      - unfold derive_inverse_operation in Hd. by rewrite Hk in Hd. }
    destruct (IH s1 s' i1 i' rest Hok1 Hbin1 Htr1 Hns Hus Ha Hds) as [Hrest Hback]. split; [by constructor|].
    intros t' ds Ht Hf. rewrite reverse_cons in Hf. apply Forall2_app_inv_r in Hf as (ds1 & ds2 & Hf1 & Hf2 & ->). destruct (Hback t' ds1 Ht Hf1) as (t1 & Ht1 & Hsame).
    apply Forall2_cons_inv_r in Hf2 as (dlast & ds3 & Hst & Hf3 & ->). apply Forall2_nil_inv_r in Hf3 as ->.
    destruct (Hundo t1 Hsame 0) as (t & Hat & Hst2). exists t. split; [|done]. rewrite foldM_app, Ht1. cbn [foldM]. rewrite (apply_kind t1 dlast (mkDecoded 0 (kind_decoded (op_kind inv)) None)) by done. by rewrite Hat.
Qed.
End sequences.

(** ** The plan *)

Section plan.
Context `{Sha256} (R : ObjectReader) `{!LawfulReader R}.
#[local] Existing Instance R.

(** The operations of each patch of a list of blocks, in order. *)
Definition patch_operations (patch_id : ObjectId) : PResult (list DecodedPatchOperation) :=
  let? patch := read_patch R patch_id in
  decode_patch_operations (canonical_payload patch) (schema_version patch).

Definition history_of (block_ids : list ObjectId) : PResult (list (list DecodedPatchOperation)) :=
  let? blocks := mapM_result (evidence_read_block R) block_ids in
  mapM_result patch_operations (concat (map patch_ids blocks)).

(** The history of a branch as the planner reads it. *)
Definition branch_history (fuel : nat) (ref_name : list byte) (d : Disk) : PResult (list (list DecodedPatchOperation)) :=
  let? target := read_current_ref_tip_block R ref_name d in
  let? block_ids := single_parent_chain R fuel target in
  history_of block_ids.

(** Replaying patches one after the other. *)
Definition replay_patches (s : ReplayState) (patches : list (list DecodedPatchOperation)) : PResult ReplayState :=
  foldM (fun s operations => let? '(s, _, _) := apply_operation_sequence s operations in Ok s) s patches.

Lemma mapM_result_app {A B} (f : A -> PResult B) l1 l2 r1 r2 : mapM_result f l1 = Ok r1 -> mapM_result f l2 = Ok r2 -> mapM_result f (l1 ++ l2) = Ok (r1 ++ r2).
Proof.
  revert r1. induction l1 as [|x l1 IH]; intros r1 E1 E2; cbn [mapM_result app] in *; [by apply Ok_inj in E1 as <-|]. destruct (f x) as [y|]; [|done].
  destruct (mapM_result f l1) as [ys|]; [|done]. apply Ok_inj in E1 as <-. by rewrite (IH ys eq_refl E2).
Qed.

Lemma invert_patches_history ids : forall w w', foldM (invert_patch R) w ids = Ok w' ->
  exists patches invs, mapM_result patch_operations ids = Ok patches /\ derive_inverses R (iw_state w) (concat patches) = Ok (invs, iw_state w') /\ iw_inverses w' = iw_inverses w ++ invs.
Proof.
  induction ids as [|id ids IH]; intros w w' Hf; cbn [foldM] in Hf; [apply Ok_inj in Hf as <-; exists [], []; by rewrite app_nil_r|]. unfold invert_patch at 1 in Hf.
  cbn [mapM_result]. unfold patch_operations at 1. destruct (read_patch R id) as [patch|]; [|done]. destruct (decode_patch_operations _ _) as [ops|]; [|done].
  destruct (derive_inverses R (iw_state w) ops) as [[invs s]|] eqn:Hd; [|done]. apply IH in Hf as (patches & rest & -> & Hr & Hi). exists (ops :: patches), (invs ++ rest).
  split; [done|]. cbn [concat iw_state iw_inverses] in *. rewrite derive_inverses_app, Hd, Hr. split; [done|]. by rewrite Hi, <- app_assoc.
Qed.

Lemma invert_blocks_history ids : forall w w', foldM (invert_block R) w ids = Ok w' ->
  exists patches invs, history_of ids = Ok patches /\ derive_inverses R (iw_state w) (concat patches) = Ok (invs, iw_state w') /\ iw_inverses w' = iw_inverses w ++ invs.
Proof.
  unfold history_of. induction ids as [|id ids IH]; intros w w' Hf; cbn [foldM] in Hf; [apply Ok_inj in Hf as <-; exists [], []; by rewrite app_nil_r|]. unfold invert_block at 1 in Hf.
  cbn [mapM_result]. destruct (evidence_read_block R id) as [block|]; [|done]. destruct (foldM (invert_patch R) w (patch_ids block)) as [w1|] eqn:H1; [|done].
  apply invert_patches_history in H1 as (p1 & i1 & Hp1 & Hd1 & Hi1). apply IH in Hf as (p2 & i2 & Hp2 & Hd2 & Hi2). destruct (mapM_result (evidence_read_block R) ids) as [blocks|]; [|done].
  exists (p1 ++ p2), (i1 ++ i2). cbn [map concat]. rewrite (mapM_result_app _ _ _ p1 p2) by done. split; [done|]. rewrite concat_app, derive_inverses_app, Hd1, Hd2. split; [done|].
  by rewrite Hi2, Hi1, <- app_assoc.
Qed.

Lemma planned fuel name d plan : prepare_patch_inverse_plan R fuel name d = Ok plan ->
  exists patches invs s, branch_history fuel name d = Ok patches /\ derive_inverses R (mkInverseState ∅ ∅) (concat patches) = Ok (invs, s) /\
    pp_operations (ip_inverse_payload plan) = imap (fun index operation => mkOperation (Z.of_nat index + 1) (op_id operation) (op_preconditions operation) (op_kind operation)) (reverse invs) /\
    pp_message (ip_inverse_payload plan) = None /\ zlen invs < 2 ^ 32.
Proof.
  unfold prepare_patch_inverse_plan, branch_history. destruct (require_existing_ref _ _ _); [|done]. destruct (read_current_ref_tip_block R name d) as [target|]; [|done].
  destruct (single_parent_chain R fuel target) as [ids|]; [|done]. destruct (foldM (invert_block R) _ ids) as [w|] eqn:Hw; [|done]. apply invert_blocks_history in Hw as (patches & invs & Hh & Hd & Hi).
  cbn [iw_state iw_inverses app] in *. destruct (Nat.eqb _ _); [done|]. unfold renumber_operations. destruct (Z.leb_spec (2 ^ 32) (zlen (reverse (iw_inverses w)))) as [|Hz]; [done|].
  destruct (summarize_operations _); [|done]. destruct (to_canonical_bytes _); [|done]. intros Hp. apply Ok_inj in Hp as <-. exists patches, invs, (iw_state w). rewrite Hi in *.
  split_and!; try done. unfold zlen in *. by rewrite length_reverse in Hz.
Qed.

(** ** The payload decodes *)

Definition decoded_wf (d : DecodedPatchOperation) : Prop := exists k, kind_wf k /\ kind_decoded k = d_kind d.

Lemma decoded_ops_wf bytes v ds : decode_patch_operations bytes v = Ok ds -> Forall decoded_wf ds.
Proof.
  unfold decode_patch_operations. intros Hd. destruct (map_err _ _); [|done]. destruct (decode_fields _ _ _ bytes) as [l|] eqn:Hf; [|done].
  destruct (Nat.eqb (length l) 0); [done|]. apply Ok_inj in Hd as <-. apply patch_operations_authored in Hf as (os & _ & Hall). apply Forall_lookup. intros i d Hi.
  destruct (Hall i d Hi) as (o & _ & _ & _ & Hwf & _ & _ & _ & _ & <-). by exists (op_kind o).
Qed.

Lemma minted_wf p m q r id len : length id = NODE_ID_BYTES -> 64 <= len <= u32_max -> EditText_wf (minted p m q r id len).
Proof.
  intros Hi Hl. unfold EditText_wf, minted. cbn [et_node_id et_span_id et_left_anchor_hash et_right_anchor_hash et_hint_line et_hint_column et_left_anchor_len et_right_anchor_len opt_all].
  unfold left_anchor_v2, right_anchor_v2, anchor_hash, compute_span_id_v2, u32, u32_max in *. rewrite !sha256_length. split_and!; done || lia.
Qed.

Lemma inverse_wf i op inv i' : decoded_wf op -> derive_inverse_operation R i op = Ok (inv, i') -> kind_wf (op_kind inv).
Proof.
  intros (k & Hwf & Hk). unfold derive_inverse_operation. rewrite <- Hk. destruct k as [o|o|o|o|o|o|o]; cbn [kind_decoded kind_wf] in *; try done.
  - unfold CreateFile_decoded, invert_create_file. intros Hd. inv_ok. destruct_and?. simplify_eq. destruct Hwf as (? & ? & ?). cbn. by split_and!.
  - unfold DeleteNode_decoded. destruct Hwf as [Hn Hp]. destruct (dn_preimage o) as [blob mode|target]; [|done]. unfold invert_delete_file. intros Hd. inv_ok; simplify_eq; destruct Hp; by split_and!.
  - unfold EditText_decoded, invert_edit_text. destruct (ok_or _ _) as [live|]; [|done]. destruct (negb _); [done|]. destruct (ok_or _ _) as [text|]; [|done].
    destruct (derive_inverse_edit_text _ _ _ _ _ _ _ _ _ _) as [[e post]|] eqn:Hd; [|done]. intros Hi. apply Ok_inj in Hi. injection Hi as <- <-. cbn [unnumbered op_kind kind_wf].
    change (derive_inverse text o = Ok (e, post)) in Hd. apply derive_inverse_inv in Hd as (p & q & len & _ & _ & _ & _ & _ & Hl & _ & ->). destruct Hwf as [Hn _]. by apply minted_wf.
  - unfold ChangePerm_decoded, invert_change_perm. intros Hd. inv_ok. destruct_and?. simplify_eq. destruct Hwf as (? & ? & ?). by split_and!.
  - unfold ReplaceBinary_decoded, invert_replace_binary. intros Hd. inv_ok. destruct_and?. simplify_eq. destruct Hwf as (? & ? & ?). by split_and!.
Qed.

Lemma inverses_wf ops : forall i invs i', Forall decoded_wf ops -> derive_inverses R i ops = Ok (invs, i') -> Forall (fun inv => kind_wf (op_kind inv)) invs.
Proof.
  induction ops as [|op ops IH]; intros i invs i' Hw Hd; [apply Ok_inj in Hd; injection Hd as <- <-; constructor|].
  apply Forall_cons in Hw as [Hop Hw]. apply derive_inverses_cons in Hd as (inv & i1 & rest & Hd & Hds & ->). constructor; [by eapply inverse_wf|by eapply IH].
Qed.

Lemma history_decoded block_ids patches : history_of block_ids = Ok patches -> Forall names_valid (concat patches) /\ Forall decoded_wf (concat patches).
Proof.
  unfold history_of. destruct (mapM_result (evidence_read_block R) block_ids) as [blocks|]; [|done]. generalize (concat (map patch_ids blocks)) as ids. intros ids. revert patches.
  induction ids as [|id ids IH]; intros patches Hm; cbn [mapM_result] in Hm; [apply Ok_inj in Hm as <-; by split|]. unfold patch_operations at 1 in Hm.
  destruct (read_patch R id) as [patch|]; [|done]. destruct (decode_patch_operations _ _) as [ops|] eqn:Hd; [|done]. destruct (mapM_result patch_operations ids) as [rest|]; [|done].
  apply Ok_inj in Hm as <-. destruct (IH rest eq_refl) as [Hn Hw]. cbn [concat]. split; apply Forall_app; split; try done; [by eapply decoded_names_valid|by eapply decoded_ops_wf].
Qed.

Lemma replay_patches_fold patches : forall s s', Forall (fun op => is_rename op = false) (concat patches) -> replay_patches s patches = Ok s' ->
  foldM apply_decoded_operation s (concat patches) = Ok s'.
Proof.
  unfold replay_patches. induction patches as [|ops patches IH]; intros s s' Hr Hf; cbn [foldM concat] in *; [done|]. apply Forall_app in Hr as [Ho Hr].
  destruct (apply_operation_sequence s ops) as [[[s1 n] ks]|] eqn:Ha; [|done]. rewrite foldM_app, (fold_of_sequence R _ _ _ _ _ Ho Ha). by apply IH.
Qed.

Lemma derived_no_rename ops : forall i invs i', derive_inverses R i ops = Ok (invs, i') -> Forall (fun op => is_rename op = false) ops.
Proof.
  induction ops as [|op ops IH]; intros i invs i' Hd; [constructor|]. apply derive_inverses_cons in Hd as (inv & i1 & rest & Hd & Hds & _). constructor; [|by eapply IH].
  unfold derive_inverse_operation in Hd. unfold is_rename. by destruct (d_kind op).
Qed.

(** The numbered operations of a plan, decoded, stand for the inverses. *)
Lemma numbered_stand_for (invs : list Operation) (f := fun index operation => mkOperation (Z.of_nat index + 1) (op_id operation) (op_preconditions operation) (op_kind operation)) :
  Forall2 stands_for (map Operation_decoded (imap f invs)) invs.
Proof.
  apply Forall2_lookup. intros i. rewrite list_lookup_fmap, list_lookup_imap. destruct (invs !! i); constructor. done.
Qed.

(** The walk to the root never asks for more fuel than there are blocks to read: with that much, more fuel
    changes nothing, whatever the walk answers. *)
Lemma single_parent_loop_fuel (V : gset ObjectId) : (forall id block, evidence_read_block R id = Ok block -> id ∈ V) ->
  forall fuel1 fuel2 seen current chain, seen ⊆ V -> (size V < fuel1 + size seen)%nat -> (fuel1 <= fuel2)%nat ->
  single_parent_loop R fuel1 seen current chain = single_parent_loop R fuel2 seen current chain.
Proof.
  intros HV fuel1. induction fuel1 as [|fuel1 IH]; intros fuel2 seen current chain Hs Hf Hle; [apply subseteq_size in Hs; lia|].
  destruct fuel2 as [|fuel2]; [lia|]. cbn [single_parent_loop]. destruct current as [id|]; [|done]. case_bool_decide as Hin; [done|].
  destruct (evidence_read_block R id) as [block|] eqn:Hb; [|done]. destruct (mainline_or_sole_parent block) as [next|]; cbn [ok_or]; [|done].
  apply IH; [|rewrite size_union, size_singleton by set_solver; lia|lia].
  apply union_least; [apply singleton_subseteq_l; by eapply HV|done].
Qed.

(** C1: rolling a branch back empties it.  The inverse patch that is planned for a branch, encoded, decoded
    under its schema and replayed on the state the branch's patches replay to, applies in full and leaves no
    file and no live node: the empty state the preview announces.  Every deletion in the history names its
    node with its mode, and the text it removes is stored. *)
Theorem rollback_plan_empties fuel name d plan bytes wanted patches s :
  prepare_patch_inverse_plan R fuel name d = Ok plan ->
  to_canonical_bytes (ip_inverse_payload plan) = Ok bytes -> zlen bytes < 2 ^ 64 ->
  branch_history fuel name d = Ok patches -> replay_patches (empty_replay wanted) patches = Ok s -> undoable_all R (empty_replay wanted) (concat patches) ->
  exists operations t kinds, decode_patch_operations bytes PATCH_MESSAGE_SCHEMA = Ok operations /\
    apply_operation_sequence s operations = Ok (t, length (concat patches), kinds) /\ rs_files t = ∅ /\ rs_live t = ∅.
Proof.
  intros Hplan Hb Hz Hh Hrep Hun. destruct (planned _ _ _ _ Hplan) as (patches' & invs & i & Hh' & Hd & Hops & Hmsg & Hlen). assert (patches' = patches) as -> by congruence.
  unfold branch_history in Hh. destruct (read_current_ref_tip_block R name d) as [target|]; [|done]. destruct (single_parent_chain R fuel target) as [ids|]; [|done].
  apply history_decoded in Hh as [Hn Hw]. pose proof (inverses_wf _ _ _ _ Hw Hd) as Hiw. pose proof (replay_patches_fold _ _ _ (derived_no_rename _ _ _ _ Hd) Hrep) as Hfold.
  destruct (undo_all R (concat patches) (empty_replay wanted) s (mkInverseState ∅ ∅) i invs) as [Hren Hback]; [apply replay_ok_empty|by intros x r Hx; cbn in Hx; rewrite lookup_empty in Hx|by split; cbn; rewrite ?fmap_empty|done|done|done|done|].
  apply Forall_reverse in Hiw. apply Forall_reverse in Hren. set (p := ip_inverse_payload plan) in *. pose proof Hb as (Hv & nb & conds & Hnb & ->)%Patch_encode_inv.
  assert (Hpw : Patch_wf p).
  { split; [|by rewrite Hmsg]. rewrite Hops. apply Forall_lookup. intros k o Ho. rewrite list_lookup_imap in Ho. destruct (reverse invs !! k) as [inv|] eqn:Hk; [|done]. cbn in Ho. injection Ho as <-.
    cbn [op_seq op_kind]. split; [|exact (Forall_lookup_1 _ _ _ _ Hiw Hk)]. apply lookup_lt_Some in Hk. rewrite length_reverse in Hk. unfold u32, zlen in *. lia. }
  assert (Hadm : schema_admits PATCH_MESSAGE_SCHEMA p) by (split; [|done]; apply Forall_forall; intros o _; destruct (op_kind o); try done; intros Hlt; by vm_compute in Hlt).
  exists (map Operation_decoded (pp_operations p)).
  assert (Hdec : decode_patch_operations (enc_fields (map to_field (patch_fields p nb conds))) PATCH_MESSAGE_SCHEMA = Ok (map Operation_decoded (pp_operations p))).
  { unfold decode_patch_operations. rewrite decode_purpose_encoded, (decode_patch_operations_encoded p) by done. cbn [map_err]. apply patch_validate_inv in Hv as [Hne _]. by destruct (pp_operations p). }
  destruct (Hback s (map Operation_decoded (pp_operations p))) as (t & Ht & Htf & Htl); [reflexivity|rewrite Hops; apply numbered_stand_for|].
  destruct (sequence_of_fold R (map Operation_decoded (pp_operations p)) s t) as [kinds Hs]; [|done|].
  { apply Forall_lookup. intros k o Ho. rewrite Hops in Ho. pose proof (proj1 (Forall2_lookup _ _ _) (numbered_stand_for (reverse invs)) k) as Hst. cbv zeta in Hst. rewrite Ho in Hst.
    inversion Hst as [o' inv' Hsf Eo Ei|]. unfold is_rename. unfold stands_for in Hsf. rewrite Hsf. change (is_rename (Operation_decoded inv') = false). exact (Forall_lookup_1 _ _ _ _ Hren (eq_sym Ei)). }
  exists t, kinds. split; [done|]. split.
  - rewrite Hs. do 3 f_equal. rewrite length_map, Hops, length_imap, length_reverse. by eapply derived_length.
  - split; [exact Htf|]. apply map_empty. intros x. specialize (Htl x). cbn in Htl. rewrite lookup_empty in Htl. by inversion Htl.
Qed.
End plan.

(** ** A file created, edited and deleted *)

Section demo.
#[local] Existing Instance hash_mod_p.

Definition ok_value {A} (a : A) (r : PResult A) : A := match r with Ok x => x | Err _ => a end.

Lemma ok_value_ok {A} (r : PResult A) (a : A) : is_ok r = true -> r = Ok (ok_value a r).
Proof. by destruct r. Qed.

(** A store of envelopes under their own identifiers. *)
Definition store_of (envelopes : list ObjectEnvelope) : gmap ObjectId ObjectEnvelope := list_to_map (map (fun e => (object_id e, e)) envelopes).

Lemma store_of_lawful envelopes : forallb (fun e => is_ok (validate_format2_schema e)) envelopes = true -> LawfulReader (memory_reader (store_of envelopes)).
Proof.
  intros Hc id e Hr. unfold memory_reader in Hr. apply Ok_inj in Hr. unfold store_of in Hr. apply elem_of_list_to_map_2, list_elem_of_In, in_map_iff in Hr as (x & [= <- <-] & Hin).
  split; [done|]. rewrite forallb_forall in Hc. specialize (Hc _ Hin). by destruct (validate_format2_schema x) as [[]|].
Qed.

Definition first_text : list byte := bytes_of_string "a line".
Definition second_text : list byte := bytes_of_string "a Line".
Definition other_node : NodeId := replicate 32 x02.
Definition rolled_patches : list ObjectEnvelope := [
  history_patch (OpCreateFile (mkCreateFile history_path history_node (history_text_id first_text) 33188));
  history_patch (OpEditText (authored_edit_text history_node witness_plan));
  history_patch (OpDeleteNode (mkDeleteNode history_path history_node TextFile (PreimageFile (history_text_id second_text) 33188)));
  history_patch (OpCreateFile (mkCreateFile (bytes_of_string "b.txt") other_node (history_text_id second_text) 33188))].
Definition rolled_block : ObjectEnvelope := unsigned Block 2 (canonical (mkBlock [] KindRoot (object_id <$> rolled_patches) (replicate 32 x00) None None None)).
Definition rolled_state : ObjectEnvelope := mkEnvelope RefState 1 (canonical (mkRefState demo_name Branch (object_id rolled_block) 1 None [] false)) [witness_signature x61].
Definition rolled_store : gmap ObjectId ObjectEnvelope := store_of (text_envelope first_text :: text_envelope second_text :: rolled_block :: rolled_state :: rolled_patches).
Definition rolled_disk : Disk := <[ref_pointer_index_slot_path SlotA := pointer_frame (mkPointerEntry (ref_name_key_bytes demo_name) demo_name (object_id rolled_state))]> (fresh_refs []).
Definition rolled_plan : PatchInversePlan :=
  ok_value (mkInversePlan [] [] 0 0 0 0 [] (mkPatch [] None [] PurposeNormal None) []) (prepare_patch_inverse_plan (memory_reader rolled_store) 9 demo_name rolled_disk).
Definition rolled_bytes : list byte := ok_value [] (to_canonical_bytes (ip_inverse_payload rolled_plan)).
Definition rolled_history : list (list DecodedPatchOperation) := ok_value [] (branch_history (memory_reader rolled_store) 9 demo_name rolled_disk).
Definition rolled_replay : PResult ReplayState := @replay_patches hash_mod_p (memory_reader rolled_store) (empty_replay ∅) rolled_history.
Definition rolled_tip : ReplayState := ok_value (empty_replay ∅) rolled_replay.

Lemma rollback_plan_empties_witness :
  iv_kind <$> ip_operations rolled_plan = [InvDeleteFile; InvCreateFile; InvEditText; InvDeleteFile] /\ size (rs_files rolled_tip) = 1%nat /\
  exists operations t kinds, decode_patch_operations rolled_bytes PATCH_MESSAGE_SCHEMA = Ok operations /\
    @apply_operation_sequence _ (memory_reader rolled_store) rolled_tip operations = Ok (t, 4%nat, kinds) /\ rs_files t = ∅ /\ rs_live t = ∅.
Proof.
  split; [vm_compute; reflexivity|]. split; [vm_compute; reflexivity|].
  assert (Hl : LawfulReader (memory_reader rolled_store)) by (apply store_of_lawful; vm_compute; reflexivity).
  assert (Hp : prepare_patch_inverse_plan (memory_reader rolled_store) 9 demo_name rolled_disk = Ok rolled_plan) by (unfold rolled_plan; apply ok_value_ok; vm_compute; reflexivity).
  assert (Hr : rolled_replay = Ok rolled_tip) by (unfold rolled_tip; apply ok_value_ok; vm_compute; reflexivity).
  assert (Hu : undoable_all (memory_reader rolled_store) (empty_replay ∅) (concat rolled_history)) by (apply undoable_run_ok; vm_compute; reflexivity).
  assert (H4 : length (concat rolled_history) = 4%nat) by (vm_compute; reflexivity). rewrite <- H4.
  apply (@rollback_plan_empties _ (memory_reader rolled_store) Hl 9 demo_name rolled_disk rolled_plan rolled_bytes ∅ rolled_history rolled_tip Hp);
    [vm_compute; reflexivity|vm_compute; reflexivity|vm_compute; reflexivity|exact Hr|exact Hu].
Defined.
End demo.
